(* ===== verification/_CoqProject ===== *)
-Q . S2P
Prelude.v
GoClock.v
GroupMember.v
GroupRuntime.v
GroupInvariant.v
GroupEviction.v
GroupReplay.v
GroupTopology.v
GroupRevision.v
GroupMembership.v
GroupHealer.v
HealerCycle.v
HealthJournal.v
HealthSubscription.v
HealthDelivery.v
HealthHub.v
PoolMember.v
PoolState.v
PoolView.v
PoolSelect.v
PoolTopology.v
PoolDial.v
PoolUpdate.v
SnapshotPins.v
PoolHealth.v
Text.v
NetIP.v
NetURL.v
NodeCodec.v
NodeLink.v
LinkRoundTrip.v
NodeRegion.v
NodeLocation.v
ProbeApplier.v
Floats.v
NodeFacts.v
NodeRules.v
RuleSoundness.v
RuleBounds.v
FactLoader.v
TagResolve.v
TagStore.v
TagService.v
TagQueue.v
TagPipeline.v
MonitorRegistry.v
MonitorReload.v
MonitorHealth.v
ProbeSchedule.v
ProbeScheduler.v
ProbeRounds.v
ProbeRequests.v
ProbeSummaries.v
ProbeCalls.v
HealthCommit.v
LoginLimiter.v
Sessions.v
KeyUsage.v
RuntimeConfig.v
NodeManager.v
BoxReload.v
