(* ===== verification/Prelude.v ===== *)
(** * A verification of Easy Proxies

    Easy Proxies (Go, under [src/]) runs a pool of outbound proxies: it stores proxy
    links, probes the nodes behind them, derives facts and tags from what the probes
    measure, puts nodes into groups, takes failing nodes out of them, and routes
    requests over the nodes that are left. This library models the parts that decide:
    the state each keeps, every operation on it, and how they call each other; its
    theorems say what each part promises to the next.

    ** The parts and how they interact

    A link is parsed into a spec with an identity ([NodeCodec]). Stored nodes become the
    runtime set, with a tag and a port each ([RuntimeConfig]). The monitor keeps an entry
    per runtime node ([MonitorRegistry]) and decides whom to probe and when
    ([ProbeSchedule], [ProbeScheduler], [ProbeCalls]). A measurement is committed together
    with its journal row and a receipt ([ProbeApplier], [HealthCommit]); the hub
    ([HealthHub]) delivers the journal ([HealthJournal]) to consumers
    ([HealthSubscription]). A pool is such a consumer ([PoolHealth]): it turns a delivered
    result into transitions of the group runtime ([GroupRuntime]), durable rows, and a
    new snapshot of routable members ([PoolView]), on which requests are dialed
    ([PoolSelect], [PoolDial]). Facts loaded from the stored results ([FactLoader]) are
    matched by rules ([NodeRules]), resolved into tags ([TagResolve]) and written
    ([TagStore], [TagService]); the queues ([TagQueue]) carry changes from probes to the
    recompute and from there to group membership ([TagPipeline], [NodeRegion]). The
    healer ([GroupHealer], [HealerCycle]) restores capacity. The management side has its
    logins ([LoginLimiter]), sessions ([Sessions]) and API keys ([KeyUsage]).

    ** The files, and the code they model

    All paths are under [src/internal/].

    - Prelude: this file; Go's clock values, results, map iteration, sweeps. [GoClock]:
      the texts of instants, which some tables are ordered by.
    - Groups, [group/runtime.go]. [GroupMember]: one [groupMemberRuntime] (failure
      window, replay ring, revision, eviction). [GroupRuntime]: the process-wide
      runtime, [world], one Definition per method. [GroupInvariant]: reachable states
      and their invariant. [GroupEviction], [GroupReplay], [GroupTopology],
      [GroupRevision], [GroupMembership]: theorems by subject.
    - Healing. [GroupHealer]: [group/healer.go], policy, plan, capacity.
      [HealerCycle]: [group/healer_coordinator.go], against a class of backends.
    - Health journal. [HealthJournal]: [store/health_events.go] and
      [UpsertGroupNodeState]. [HealthSubscription], [HealthDelivery]: one consumer of
      [monitor/health_event_hub.go] and its promise. [HealthHub]: the hub and
      [health_event_prune.go].
    - Pools, [outbound/pool]. [PoolMember]: [shared_state.go] and member runtimes.
      [PoolState]: the state of a pool. [PoolView]: publication of snapshots.
      [PoolSelect]: the dispatch modes. [PoolTopology]: members added, kept, retired.
      [PoolDial]: the data path. [PoolUpdate]: construction, two-phase updates, closing.
      [SnapshotPins]: readers against publishers, one atomic access per step.
      [PoolHealth]: consumption of the journal.
    - Links, [nodecodec]. [Text], [NetIP], [NetURL]: the parts of strconv, base64,
      net/netip and net/url they rest on. [NodeCodec]: [coerce.go], [identity.go],
      [spec.go]. [NodeLink], [LinkRoundTrip]: rendering and parsing back.
    - Locations and membership. [NodeRegion]: [noderegion/region.go],
      [nodeselect/filter.go], [groupmember/filter.go]. [NodeLocation]:
      [nodeloc/state.go], [store/sqlite_location.go].
    - Probe results. [ProbeApplier]: [probe/applier.go], [store/landing_probe.go],
      [store/sqlite_probe.go]. [HealthCommit]: [monitor/health_applier.go].
    - Facts and rules, [nodefacts]. [Floats]: Go's floating point. [NodeFacts]:
      [fact.go], [schema.go]. [NodeRules]: [condition.go], [evaluate.go].
      [RuleBounds]: which rules are accepted. [RuleSoundness]: what accepted rules do.
      [FactLoader]: [loader.go], [diagnostic.go].
    - Tags, [nodetag]. [TagResolve]: [model.go], [resolver.go]. [TagStore]:
      [store/sqlite_tags.go]. [TagService]: [service.go]. [TagQueue]: [queue.go] (Module
      RecomputeQueue) and [app/membership_queue.go] (Module MembershipQueue).
      [TagPipeline]: the wiring of both in [app/app.go], and [updateTag] of
      [httpapi/tag_handlers.go], which renames a tag in several statements that can fail
      one by one.
    - Monitor. [MonitorRegistry]: [node_registry.go] and the entries of [manager.go].
      [MonitorReload], [MonitorHealth]: their theorems. [ProbeSchedule]: policy,
      schedules and the next due probe. [ProbeScheduler]: [probe_scheduler.go] as a step
      relation. [ProbeRounds], [ProbeSummaries], [ProbeRequests]: its theorems.
      [ProbeCalls]: the table of outstanding calls, the calls of [Manager.Probe] beside
      it, and the commits of attempts.
    - Control plane. [LoginLimiter]: the limiter of [controlplane/auth.go] and
      [handleAuthLogin]. [Sessions]: the sessions of [auth.go]. [KeyUsage]:
      [auth_usage.go].
    - [RuntimeConfig]: [runtimenodes], [runtimetag], the ports of [config/config.go] and
      [reassignConflictingPort] of [boxmgr/manager.go]. [NodeManager]: the editing of
      nodes in [boxmgr/manager.go] and the node statements of [store/sqlite.go].
      [BoxReload]: start, reloads with their three routes (nothing to do, new members
      for the running instance, a new instance), rollback and the idle state of
      [boxmgr/manager.go], [boxmgr/reload_rebase.go] and the locations of
      [boxmgr/landing_location.go].

    ** What the theorems show

    - Delivery: a durable consumer sees every matching event once and in order
      ([HealthDelivery]); what is published is durable ([HealthCommit]); what a pool makes
      of a result is what its rows say ([PoolHealth]); a probe is applied once
      ([ProbeApplier]).
    - Routing: a snapshot lists exactly the members it should, none that is evicted or
      blacklisted ([PoolView]), requests try exactly its members in turn, from the selected
      one on ([PoolDial]), a blacklist is set and lifted when its window says
      ([PoolMember]), an update moves the pool, its snapshot and its group together
      ([PoolUpdate]), and pins are dropped when nobody reads ([SnapshotPins]).
    - Groups and healing: eviction and recovery reach every group ([GroupEviction]);
      replays change nothing ([GroupReplay]); every action of the healer is audited and
      within its budgets ([HealerCycle]).
    - Probing: leases are exactly the work under way, every request is answered once, a
      completed round counts each node once, convergence ends ([ProbeRounds],
      [ProbeSummaries], [ProbeRequests]); calls through the table are bounded and commit current measurements
      ([ProbeCalls]); projections converge to the newest result ([MonitorHealth]).
    - Rules and tags: accepted rules are the well-formed ones within the bounds
      ([RuleBounds]); they evaluate on every stored node ([FactLoader]) and, without
      tests for what is unknown, admit only on measurements ([RuleSoundness]); a recompute
      stores what the rules decide and reports the changes of the assignments, which a
      renamed tag is not ([TagService]), so that a rename tells group membership itself
      ([TagPipeline]); the tags shown on a node are its assignments, except on the nodes
      a rename has not rewritten yet ([TagStore]); accepted requests are not lost
      ([TagQueue]).
    - Locations: the location of a node is the debounced history of its probes
      ([NodeLocation]).
    - Links: a rendered link describes the same connection ([LinkRoundTrip]).
    - Management: guessing one password after the other is throttled ([LoginLimiter]), a
      revoked session stays revoked for whoever looks it up afterwards ([Sessions]), taken uses are not lost ([KeyUsage]),
      assigned ports are distinct ([RuntimeConfig]), editing nodes keeps the runtime and
      the table in step ([NodeManager]), a reload always leaves a way back
      ([BoxReload]).
    - Some theorems exhibit behaviour the code or its comments do not intend; their doc
      comments say so.

    ** Conventions

    - A method that holds a mutex is one function of the state it protects, with the
      clock readings it makes as arguments. Where the code releases the lock or uses
      atomics, the pieces are the steps of a relation and interleave.
    - A loop over a Go map visits its entries in the order of an arbitrary [RangeOrder].
    - Pointers that are compared or shared are keys of a heap. Callbacks and observers
      are appended to a log. Ghost state is marked where it is declared.
    - Statements are functions on tables; one that fails, and a transaction that fails,
      changes nothing. Faults (of the store, the network, a context) are arguments.
    - int64 counters are unbounded integers unless a wrap can be reached; int32, uint16,
      uint32, uint64 and durations made of user input are kept at their width. Letters
      are folded, and blanks trimmed, on ASCII. A stable or unstable sort is a
      merge sort; where equal keys can be told apart it does not matter which comes first.
    - Code outside the repository is a parameter, with its documented behaviour as the
      laws of a class and a concrete instance in the examples: the IDNA decoder, the
      JSON codec and SHA-256 ([CodecLibraries]), the region table of golang.org/x/text
      ([RegionLibrary]), regular expressions ([RuleLibraries]), the unlock decoder
      ([LoaderLibraries]), socket addresses ([SocksLibrary]), the conversion of
      out-of-range floats ([Platform]).
    - Log messages are left out.

    ** Bounds and fuel

    - Two functions run on the fuel they are given: [drain], the delivery loop of a
      consumer, whose theorem says how many iterations deliver the whole journal, and
      [run_alone] of [Sessions] (four steps, the longest request), whose theorems state
      that the request is over.
    - Two loops go on for as long as others disturb them and run on the script of the
      disturbances: the pinning of a snapshot ([acquireSnapshot], retried while
      publishers replace it), which is shown to return in the first round that is left
      alone; and the rounds of a reload ([reload_rounds]: a reload calls itself when it
      kept the instance and found a landing location), which end with a round in which
      nothing is found, shown to return.
    - Loops run on fuel that is shown to suffice: the dial loop takes the number of
      candidates; a healer tick the number of its inputs; an IPv6 address has eight
      groups; decimal numbers take their binary length; the shortest text of a float
      needs at most 17 digits; a routine probe makes its retries and one; a reload makes ten
      attempts, as the code does; a port search
      takes 65537 turns, and [next_port_complete] and [free_port_spec] show that it
      misses a port only when none is left.
    - Constants of the code that theorems use: 8192 journal rows, 512 probe calls, 128
      commands and 256 events of the scheduler, six fruitless rounds, 20 timeline
      events, queues of 1024 with a maximal wait of 30 seconds, 256 sessions, 1024 key
      entries, eight failures in ten minutes and a lockout of five, rules of bounded
      depth and size.

    ** Not modelled

    - The box manager ([boxmgr]), except the editing of nodes, reloads and the port of a
      conflicting node: what is inside a reload's calls (building an instance, giving new
      members to the running one, the runtimes of the groups, persisted pools, looking a
      location up) is mostly calls of sing-box and of the network, and enters as its
      outcome. The monitor and the listeners are not told of a reload.
    - The rest of [store/sqlite.go] (subscriptions, statistics, detection results,
      settings) and the migrations: SQL text, modelled only where another part rests on
      its effect.
    - The rest of [config]: YAML, files, subscription bodies. The Clash and sing-box
      importers: translations of decoded documents.
    - [subscription/manager.go]: fetching and its schedule; [builder]: it fills the
      option types of sing-box.
    - [controlplane/settings.go], the [httpapi] handlers except the login and the update
      of a tag, and the assembly in [app]: decoding, encoding and wiring.
    - [nodedetect], [geoip], [ipquality], [unlock]: network I/O whose results are the
      rows the loader reads. [nodeview], [subrender], [noderesult]: projections for
      clients.
    - The templates of tag rules, traffic speeds, the debug logs, and packet connections
      of pools (they differ from streams in the interface they wrap).

    ** This file

    The part of Go's runtime the packages rely on (clock values, durations, map
    iteration), the result type of fallible operations, the "sweep" combinator that
    models a loop over a Go map, and the automation used by every component. *)

From stdpp Require Export base tactics option list gmap strings sorting.
From Stdlib Require Export ZArith Lia.

#[global] Set Default Goal Selector "!".

Declare Scope go_scope.
Delimit Scope go_scope with go.
#[global] Open Scope Z_scope.

(** ** Fallible operations: a value or an error message, as Go's [(T, error)]. *)
Inductive result (A : Type) : Type :=
| Ok (a : A)
| Err (msg : string).
Arguments Ok {A} _.
Arguments Err {A} _.

Definition result_bind {A B} (r : result A) (k : A → result B) : result B :=
  match r with
  | Ok a => k a
  | Err e => Err e
  end.

Notation "'let?' x ':=' r 'in' k" := (result_bind r (λ x, k))
  (at level 10, x pattern, r at level 100, k at level 200) : go_scope.
#[global] Open Scope go_scope.

Definition is_Ok {A} (r : result A) : bool :=
  match r with
  | Ok _ => true
  | Err _ => false
  end.

#[global] Instance result_eq_dec {A : Type} {dec : EqDecision A} : EqDecision (result A).
Proof.
  intros [a|e] [b|f]; [destruct (decide (a = b))|..|destruct (decide (e = f))];
    (left; congruence) || (right; congruence).
Defined.

Lemma result_bind_Ok {A B} (r : result A) (k : A → result B) b :
  result_bind r k = Ok b ↔ ∃ a, r = Ok a ∧ k a = Ok b.
Proof. destruct r; naive_solver. Qed.

(** ** Go's [time.Time] and [time.Duration].
    An instant is the number of nanoseconds since the zero [time.Time]
    (January 1 of year 1, UTC), so [IsZero] is equality with 0; a duration is a
    count of nanoseconds. [Sub] saturates at the int64 range as Go's does. *)
Module GoTime.
Definition nanosecond : Z := 1.
Definition millisecond : Z := 1000000.
Definition second : Z := 1000 * millisecond.
Definition minute : Z := 60 * second.
Definition hour : Z := 60 * minute.

Definition maxDuration : Z := 2 ^ 63 - 1.
Definition minDuration : Z := - 2 ^ 63.

(** Seconds between the zero [time.Time] and the Unix epoch. *)
Definition unixToInternal : Z := 62135596800.

Definition zero : Z := 0.
Definition isZero (t : Z) : bool := bool_decide (t = zero).
Definition unix (t : Z) : Z := t / second - unixToInternal.
Definition add (t d : Z) : Z := t + d.
Definition sub (t u : Z) : Z := Z.max minDuration (Z.min maxDuration (t - u)).
Definition before (t u : Z) : bool := bool_decide (t < u).
Definition after (t u : Z) : bool := bool_decide (u < t).
(** The instant of a Unix timestamp, used by the concrete witnesses. *)
Definition ofUnix (s : Z) : Z := (s + unixToInternal) * second.

Lemma unix_ofUnix s : unix (ofUnix s) = s.
Proof. unfold unix, ofUnix. rewrite Z.div_mul; [lia|done]. Qed.

Lemma unix_mono t u : t ≤ u → unix t ≤ unix u.
Proof.
  intros. unfold unix.
  assert (t / second ≤ u / second) by by (apply Z.div_le_mono; [done|lia]).
  lia.
Qed.

Lemma sub_lt_iff t u d : minDuration < d ≤ maxDuration → sub t u < d ↔ t - u < d.
Proof. unfold sub. lia. Qed.

Lemma sub_ge_iff t u d : minDuration < d ≤ maxDuration → d ≤ sub t u ↔ d ≤ t - u.
Proof. unfold sub. lia. Qed.
End GoTime.

(** ** Iteration over Go maps.
    The order in which [range] (and [sync.Map.Range]) visits a map is
    unspecified: every theorem about a loop is proved for an arbitrary instance
    of this class, and the concrete witnesses use [map_to_list]'s order. *)
Class RangeOrder (K : Type) `{Countable K} := {
  range : ∀ {A : Type}, gmap K A → list (K * A);
  range_perm : ∀ {A : Type} (m : gmap K A), range m ≡ₚ map_to_list m
}.

Definition default_range_order (K : Type) `{Countable K} : RangeOrder K :=
  {| range := λ A m, map_to_list m; range_perm := λ A m, Permutation_refl _ |}.

Section range.
Context {K : Type} `{Countable K} `{!RangeOrder K}.

Lemma elem_of_range {A} (m : gmap K A) k a : (k, a) ∈ range m ↔ m !! k = Some a.
Proof. by rewrite range_perm, elem_of_map_to_list. Qed.

Lemma NoDup_range_fst {A} (m : gmap K A) : NoDup (range m).*1.
Proof. rewrite (range_perm m). apply NoDup_fst_map_to_list. Qed.

(** The first entry satisfying [P] in iteration order: a loop with [break]. *)
Definition range_find {A} (P : K → A → bool) (m : gmap K A) : option (K * A) :=
  snd <$> list_find (λ ka, P ka.1 ka.2 = true) (range m).

Lemma range_find_Some {A} (P : K → A → bool) (m : gmap K A) k a :
  range_find P m = Some (k, a) → m !! k = Some a ∧ P k a = true.
Proof.
  unfold range_find. intros Hf.
  destruct (list_find _ _) as [[i [k' a']]|] eqn:E; simplify_eq/=.
  apply list_find_Some in E as (E & HP & _).
  split; [|done]. apply elem_of_range. by eapply list_elem_of_lookup_2.
Qed.

Lemma range_find_None {A} (P : K → A → bool) (m : gmap K A) :
  range_find P m = None → ∀ k a, m !! k = Some a → P k a = false.
Proof.
  unfold range_find. intros Hf k a Hk.
  destruct (list_find _ _) eqn:E; [done|]. apply list_find_None in E.
  rewrite Forall_forall in E. apply elem_of_range in Hk.
  specialize (E _ Hk). simpl in E. by destruct (P k a).
Qed.

(** [exists] over a map: the loop that sets a flag and breaks. *)
Definition range_any {A} (P : K → A → bool) (m : gmap K A) : bool :=
  existsb (λ ka, P ka.1 ka.2) (range m).

Lemma range_any_true {A} (P : K → A → bool) (m : gmap K A) :
  range_any P m = true ↔ ∃ k a, m !! k = Some a ∧ P k a = true.
Proof.
  unfold range_any. rewrite existsb_exists. split.
  - intros ([k a] & Hin & HP). exists k, a. split; [|done].
    by apply elem_of_range, list_elem_of_In.
  - intros (k & a & Hk & HP). exists (k, a). split; [|done].
    by apply list_elem_of_In, elem_of_range.
Qed.
End range.

(** A loop over a map that rebuilds every entry while threading a state:
    [for k, a := range m { m'[k] = ...; s = ... }]. *)
Section sweep.
Context {K : Type} `{Countable K} `{!RangeOrder K} {A B S : Type}.

Definition sweep_step (g : K → A → S → B * S) (acc : gmap K B * S) (ka : K * A) : gmap K B * S :=
  let r := g ka.1 ka.2 acc.2 in (<[ka.1 := r.1]> acc.1, r.2).

Definition map_sweep (g : K → A → S → B * S) (m : gmap K A) (s : S) : gmap K B * S :=
  foldl (sweep_step g) (∅, s) (range m).

(** Induction along the iteration: the entries already visited, the rebuilt
    map and the state. *)
Lemma map_sweep_ind (P : list (K * A) → gmap K B → S → Prop) g m s :
  P [] ∅ s →
  (∀ l k a m' s', m !! k = Some a → k ∉ l.*1 → P l m' s' →
     P (l ++ [(k, a)]) (<[k := (g k a s').1]> m') (g k a s').2) →
  P (range m) (map_sweep g m s).1 (map_sweep g m s).2.
Proof.
  intros H0 Hstep. unfold map_sweep.
  assert (Hgen : ∀ done todo m' s', range m = done ++ todo → P done m' s' →
    P (range m) (foldl (sweep_step g) (m', s') todo).1 (foldl (sweep_step g) (m', s') todo).2).
  { intros done todo. revert done. induction todo as [|[k a] todo IH]; intros done m' s' Heq HP; simpl.
    - by rewrite app_nil_r in Heq; subst.
    - apply (IH (done ++ [(k, a)])); [by rewrite <-app_assoc|].
      apply Hstep; [| |done].
      + apply elem_of_range. rewrite Heq. set_solver.
      + pose proof (NoDup_range_fst m) as Hnd. rewrite Heq, fmap_app, NoDup_app in Hnd.
        destruct Hnd as (_ & Hnd & _). intros Hin. apply (Hnd _ Hin). set_solver. }
  by apply (Hgen []).
Qed.

(** Every entry of the result comes from the entry with the same key, run in
    some intermediate state; the state itself only moves along [R]. *)
Lemma map_sweep_spec (R : S → S → Prop) `{!PreOrder R} g m s :
  (∀ k a s', m !! k = Some a → R s' (g k a s').2) →
  R s (map_sweep g m s).2 ∧
  (∀ k, match m !! k with
        | None => (map_sweep g m s).1 !! k = None
        | Some a => ∃ s1, R s s1 ∧ R (g k a s1).2 (map_sweep g m s).2 ∧
                          (map_sweep g m s).1 !! k = Some (g k a s1).1
        end).
Proof.
  intros HR.
  pose proof (map_sweep_ind (λ l m' s', R s s' ∧
    (∀ k a, (k, a) ∈ l → ∃ s1, R s s1 ∧ R (g k a s1).2 s' ∧ m' !! k = Some (g k a s1).1) ∧
    (∀ k, k ∉ l.*1 → m' !! k = None)) g m s) as Hind.
  destruct Hind as (HRs & Hin & Hout).
  - split_and!; [done|set_solver|intros; apply lookup_empty].
  - intros l k a m' s' Hk Hnew (HRs & Hin & Hout). split_and!.
    + etrans; [done|]. by apply HR.
    + intros k' a' [Hl|Hl]%elem_of_app.
      * destruct (Hin _ _ Hl) as (s1 & ? & ? & ?). exists s1. split_and!; [done| |].
        { etrans; [done|]. by apply HR. }
        rewrite lookup_insert_ne; [done|]. intros ->. apply Hnew.
        apply list_elem_of_fmap. by exists (k', a').
      * apply list_elem_of_singleton in Hl. simplify_eq. exists s'.
        split_and!; [done|done|]. by rewrite lookup_insert_eq.
    + intros k' Hk'. rewrite fmap_app, elem_of_app in Hk'. simpl in Hk'.
      rewrite lookup_insert_ne by set_solver. apply Hout. set_solver.
  - split; [done|]. intros k. destruct (m !! k) as [a|] eqn:Hk.
    + apply Hin. by apply elem_of_range.
    + apply Hout. intros Hk'. apply list_elem_of_fmap in Hk' as ([k' a] & -> & Hk').
      apply elem_of_range in Hk'. simplify_map_eq.
Qed.

#[local] Instance trivial_preorder : PreOrder (λ _ _ : S, True).
Proof. split; by red. Qed.

Lemma map_sweep_lookup_Some g m s k b :
  (map_sweep g m s).1 !! k = Some b → ∃ a s1, m !! k = Some a ∧ b = (g k a s1).1.
Proof.
  intros Hb. destruct (map_sweep_spec (λ _ _, True) g m s) as [_ Hspec]; [done|].
  specialize (Hspec k). destruct (m !! k) as [a|]; [|congruence].
  destruct Hspec as (s1 & _ & _ & ?). simplify_eq. eauto.
Qed.

Lemma map_sweep_lookup_None g m s k :
  (map_sweep g m s).1 !! k = None ↔ m !! k = None.
Proof.
  destruct (map_sweep_spec (λ _ _, True) g m s) as [_ Hspec]; [done|].
  specialize (Hspec k). destruct (m !! k) as [a|]; [|done].
  destruct Hspec as (s1 & _ & _ & ?). split; congruence.
Qed.

(** What every iteration computes from its element alone. *)
Lemma map_sweep_fmap {C} (p : B → C) (q : A → C) g m s :
  (∀ k a s', p (g k a s').1 = q a) → p <$> (map_sweep g m s).1 = q <$> m.
Proof.
  intros Hpq. apply map_eq. intros k. rewrite !lookup_fmap.
  destruct ((map_sweep g m s).1 !! k) as [b|] eqn:E.
  - destruct (map_sweep_lookup_Some g m s k b E) as (a & s1 & -> & ->). cbn. by rewrite Hpq.
  - apply map_sweep_lookup_None in E. by rewrite E.
Qed.

(** A state invariant kept by every iteration holds at the end. *)
Lemma map_sweep_inv (I : S → Prop) g m s :
  I s → (∀ k a s', m !! k = Some a → I s' → I (g k a s').2) → I (map_sweep g m s).2.
Proof.
  intros Hs Hstep. refine (map_sweep_ind (λ _ _ s', I s') g m s Hs _).
  intros l k a m' s' Hk _ HI. by apply Hstep.
Qed.
End sweep.

(** ** Lists *)
Lemma filter_all {A} (P : A → Prop) `{∀ x, Decision (P x)} (l : list A) :
  Forall P l → filter P l = l.
Proof. induction 1; simpl; [done|]. rewrite filter_cons_True by done. by f_equal. Qed.

Lemma filter_nothing {A} (P : A → Prop) `{∀ x, Decision (P x)} (l : list A) :
  Forall (λ x, ¬ P x) l → filter P l = [].
Proof. induction 1; simpl; [done|]. by rewrite filter_cons_False. Qed.

Lemma last_Some_elem {A} (l : list A) x : last l = Some x → x ∈ l.
Proof.
  intros Hl. apply last_Some in Hl as [l' ->]. set_solver.
Qed.

Lemma length_filter_le {A} (P : A → Prop) `{∀ x, Decision (P x)} (l : list A) :
  (length (filter P l) ≤ length l)%nat.
Proof. apply length_filter. Qed.

(** A list is a permutation of what a test keeps followed by what it drops. *)
Lemma filter_partition {A} (P : A → Prop) `{∀ x, Decision (P x)} (l : list A) :
  l ≡ₚ filter P l ++ filter (λ x, ¬ P x) l.
Proof.
  induction l as [|x l IH]; [done|]. destruct (decide (P x)).
  - rewrite filter_cons_True, filter_cons_False by naive_solver. cbn. by rewrite <-IH.
  - rewrite filter_cons_False, filter_cons_True by naive_solver.
    by rewrite <-Permutation_middle, <-IH.
Qed.

(** Two tests that agree on the elements of a list keep the same ones. *)
Lemma filter_ext_in {A} (P Q : A → Prop) `{∀ x, Decision (P x), ∀ x, Decision (Q x)} (l : list A) :
  (∀ x, x ∈ l → P x ↔ Q x) → filter P l = filter Q l.
Proof.
  induction l as [|x l IH]; intros Hpq; [done|].
  assert (IH' : filter P l = filter Q l) by (apply IH; intros; apply Hpq; set_solver).
  pose proof (Hpq x ltac:(set_solver)). rewrite !filter_cons, IH'.
  destruct (decide (P x)), (decide (Q x)); naive_solver.
Qed.

(** ** Go's [strings], on ASCII
    [ToLower] and [EqualFold] change the letters A to Z, and [TrimSpace] drops the
    ASCII blanks; bytes of longer characters are left as they are. *)
Definition lower_char (c : Ascii.ascii) : Ascii.ascii :=
  let n := Ascii.nat_of_ascii c in
  if (65 <=? n)%nat && (n <=? 90)%nat then Ascii.ascii_of_nat (n + 32) else c.
Fixpoint toLower (s : string) : string :=
  match s with
  | EmptyString => EmptyString
  | String c s => String (lower_char c) (toLower s)
  end.


Definition is_space (c : Ascii.ascii) : bool :=
  let n := Ascii.nat_of_ascii c in ((9 <=? n) && (n <=? 13) || (n =? 32))%nat.
Fixpoint trimLeft (s : string) : string :=
  match s with
  | String c s' => if is_space c then trimLeft s' else s
  | EmptyString => EmptyString
  end.
Fixpoint trimRight (s : string) : string :=
  match s with
  | EmptyString => EmptyString
  | String c s =>
    match trimRight s with
    | EmptyString => if is_space c then EmptyString else String c EmptyString
    | s' => String c s'
    end
  end.
Definition TrimSpace (s : string) : string := trimRight (trimLeft s).

Definition EqualFold (a b : string) : bool := bool_decide (toLower a = toLower b).

Lemma lower_char_idem c : lower_char (lower_char c) = lower_char c.
Proof. by destruct c as [[] [] [] [] [] [] [] []]. Qed.

Lemma is_space_lower c : is_space (lower_char c) = is_space c.
Proof. by destruct c as [[] [] [] [] [] [] [] []]. Qed.

Lemma toLower_idem s : toLower (toLower s) = toLower s.
Proof. induction s as [|c s IH]; cbn; [done|]. by rewrite lower_char_idem, IH. Qed.

Lemma trimRight_idem s : trimRight (trimRight s) = trimRight s.
Proof.
  induction s as [|c s IH]; [done|]. cbn. destruct (trimRight s) as [|d s'] eqn:E.
  - destruct (is_space c) eqn:Hc; [done|]. cbn. by rewrite Hc.
  - change (trimRight (String c (String d s')))
      with (match trimRight (String d s') with
            | EmptyString => if is_space c then EmptyString else String c EmptyString
            | s' => String c s' end).
    by rewrite IH.
Qed.

(** What is left by [trimRight] of a string that starts with no blank. *)
Lemma trimLeft_trimRight s : trimLeft s = s → trimLeft (trimRight s) = trimRight s.
Proof.
  destruct s as [|c s]; [done|]. cbn. destruct (is_space c) eqn:Hc.
  - intros Hs. exfalso. assert (Hlen : ∀ s, (String.length (trimLeft s) ≤ String.length s)%nat).
    { induction s0 as [|d s0 IH]; cbn; [lia|]. destruct (is_space d); cbn; lia. }
    specialize (Hlen s). rewrite Hs in Hlen. cbn in Hlen. lia.
  - intros _. destruct (trimRight s); cbn; by rewrite Hc.
Qed.

Lemma trimLeft_idem s : trimLeft (trimLeft s) = trimLeft s.
Proof. induction s as [|c s IH]; [done|]. cbn. destruct (is_space c) eqn:Hc; [done|]. cbn. by rewrite Hc. Qed.

Lemma TrimSpace_idem s : TrimSpace (TrimSpace s) = TrimSpace s.
Proof.
  unfold TrimSpace. rewrite trimLeft_trimRight by apply trimLeft_idem. apply trimRight_idem.
Qed.

Lemma toLower_trimLeft s : toLower (trimLeft s) = trimLeft (toLower s).
Proof. induction s as [|c s IH]; [done|]. cbn. rewrite is_space_lower. by destruct (is_space c). Qed.

Lemma toLower_trimRight s : toLower (trimRight s) = trimRight (toLower s).
Proof.
  induction s as [|c s IH]; [done|]. cbn. rewrite <-IH, is_space_lower.
  destruct (trimRight s); cbn; [by destruct (is_space c)|done].
Qed.

Lemma toLower_TrimSpace s : toLower (TrimSpace s) = TrimSpace (toLower s).
Proof. unfold TrimSpace. by rewrite toLower_trimRight, toLower_trimLeft. Qed.

(** ** Automation *)
Ltac split_ands := repeat match goal with |- _ ∧ _ => split end.

(** Case analysis on every scrutinee of the goal, innermost first. *)
Ltac destr_goal :=
  repeat match goal with
  | |- context [match ?x with _ => _ end] => destruct x eqn:?
  end.

Create HintDb go.
#[export] Hint Resolve lookup_insert_eq : go.
#[export] Hint Rewrite @lookup_insert_eq @lookup_empty : go.

(** ** Lists with a key *)
Lemma NoDup_key_inj {A B} (f : A → B) (l : list A) x y : NoDup (f <$> l) → x ∈ l → y ∈ l → f x = f y → x = y.
Proof.
  induction l as [|z l IH]; [set_solver|]. rewrite fmap_cons. intros [Hz Hnd]%NoDup_cons Hx Hy Heq.
  assert (Hfmap : ∀ w, w ∈ l → f w ∈ f <$> l) by (intros w Hw; apply list_elem_of_fmap; eauto).
  apply elem_of_cons in Hx as [->|Hx], Hy as [->|Hy]; [done| | |by apply IH].
  - exfalso. apply Hz. rewrite Heq. by apply Hfmap.
  - exfalso. apply Hz. rewrite <-Heq. by apply Hfmap.
Qed.

Lemma NoDup_filter_key {A B} (f : A → B) (P : A → Prop) `{∀ x, Decision (P x)} (l : list A) :
  NoDup (f <$> l) → NoDup (f <$> filter P l).
Proof.
  induction l as [|z l IH]; [done|]. rewrite fmap_cons, filter_cons. intros [Hz Hnd]%NoDup_cons.
  case_decide; [|by apply IH]. rewrite fmap_cons. apply NoDup_cons. split; [|by apply IH].
  intros Hin. apply Hz. apply list_elem_of_fmap in Hin as (w & -> & Hw). apply list_elem_of_filter in Hw as [_ Hw]. apply list_elem_of_fmap. by exists w.
Qed.
