(* ===== verification/GoClock.v ===== *)
(** The texts of instants in UTC, as [time.Format] writes them: [time.RFC3339] and
    [time.RFC3339Nano]. *)

From stdpp Require Import pretty.
From S2P Require Import Prelude.

#[local] Open Scope Z_scope.

(** The date of a day, counted from January 1 of year 1. *)
Definition civil (days : Z) : Z * Z * Z :=
  let z := days + 306 in
  let era := z / 146097 in
  let doe := z mod 146097 in
  let yoe := (doe - doe / 1460 + doe / 36524 - doe / 146096) / 365 in
  let doy := doe - (365 * yoe + yoe / 4 - yoe / 100) in
  let mp := (5 * doy + 2) / 153 in
  let month := if decide (mp < 10) then mp + 3 else mp - 9 in
  (yoe + era * 400 + (if decide (month ≤ 2) then 1 else 0), month, doy - (153 * mp + 2) / 5 + 1).

Fixpoint zeros (n : nat) : string := match n with O => EmptyString | S n => String (Ascii.ascii_of_nat 48) (zeros n) end.
Definition padded (width : nat) (n : Z) : string :=
  let s := pretty n in zeros (width - String.length s) +:+ s.

(** The text up to the seconds. *)
Definition date_time (secs : Z) : string :=
  let '(year, month, day) := civil (secs / 86400) in
  let r := secs mod 86400 in
  padded 4 year +:+ "-" +:+ padded 2 month +:+ "-" +:+ padded 2 day +:+ "T" +:+
  padded 2 (r / 3600) +:+ ":" +:+ padded 2 (r mod 3600 / 60) +:+ ":" +:+ padded 2 (r mod 60).

Definition rfc3339 (t : Z) : string := date_time (t / GoTime.second) +:+ "Z".

(** The digits of a fraction of a second, without its trailing zeros; none of zero. *)
Fixpoint fraction (width : nat) (n : Z) : string :=
  match width with
  | O => ""
  | S width => if n mod 10 =? 0 then fraction width (n / 10) else padded (S width) n
  end.
Definition rfc3339nano (t : Z) : string :=
  let digits := fraction 9 (t mod GoTime.second) in
  date_time (t / GoTime.second) +:+ (if decide (digits = "") then "" else "." +:+ digits) +:+ "Z".

Example clock_texts :
  let t := GoTime.ofUnix 1760000000 in
  rfc3339 t = "2025-10-09T08:53:20Z" ∧ rfc3339nano t = "2025-10-09T08:53:20Z" ∧
  rfc3339nano (t + 50 * GoTime.millisecond) = "2025-10-09T08:53:20.05Z" ∧
  rfc3339nano (t + 1) = "2025-10-09T08:53:20.000000001Z".
Proof. by vm_compute. Qed.
