(* ===== verification/GroupMember.v ===== *)
(** The state of one group member and the operations on it
    ([internal/group/runtime.go], type [groupMemberRuntime]): the sliding failure
    window, the replay ring that makes the health journal's at-least-once
    delivery idempotent, the ordering revision and the eviction flags. *)

From S2P Require Import Prelude.

(** ** Data *)
Record GroupInitialState := mkInitial {
  gi_Standby : bool;
  gi_NodeID : Z;
  gi_FailureHistory : list Z;
  gi_Evicted : bool;
  gi_LastError : string;
  gi_EvictedAt : Z;
  gi_Revision : Z
}.

Record GroupStateEvent := mkEvent {
  ev_GroupID : Z;
  ev_NodeID : Z;
  ev_FailureHistory : list Z;
  ev_Evicted : bool;
  ev_LastError : string;
  ev_EvictedAt : Z;
  ev_CurrentNodeID : Z;
  ev_CurrentChanged : bool;
  ev_StateChanged : bool;
  ev_Recovered : bool;
  ev_Revision : Z
}.

Record RecoveryPolicy := mkPolicy {
  rp_Enabled : bool;
  rp_SuccessThreshold : Z;
  rp_Cooldown : Z
}.

Record groupMemberRuntime := mkMember {
  gm_standby : bool;
  gm_nodeID : Z;
  gm_tag : string;
  gm_failureHistory : list Z;
  gm_evicted : bool;
  gm_lastError : string;
  gm_evictedAt : Z;
  gm_recoverySuccesses : Z;
  gm_appliedProbes : list string;
  gm_revision : Z
}.

(** Field updates of a member. *)
Definition set_history (h : list Z) (m : groupMemberRuntime) : groupMemberRuntime :=
  mkMember (gm_standby m) (gm_nodeID m) (gm_tag m) h (gm_evicted m) (gm_lastError m)
    (gm_evictedAt m) (gm_recoverySuccesses m) (gm_appliedProbes m) (gm_revision m).
Definition set_eviction (e : bool) (at_ : Z) (m : groupMemberRuntime) : groupMemberRuntime :=
  mkMember (gm_standby m) (gm_nodeID m) (gm_tag m) (gm_failureHistory m) e (gm_lastError m)
    at_ (gm_recoverySuccesses m) (gm_appliedProbes m) (gm_revision m).
Definition set_lastError (e : string) (m : groupMemberRuntime) : groupMemberRuntime :=
  mkMember (gm_standby m) (gm_nodeID m) (gm_tag m) (gm_failureHistory m) (gm_evicted m) e
    (gm_evictedAt m) (gm_recoverySuccesses m) (gm_appliedProbes m) (gm_revision m).
Definition set_successes (n : Z) (m : groupMemberRuntime) : groupMemberRuntime :=
  mkMember (gm_standby m) (gm_nodeID m) (gm_tag m) (gm_failureHistory m) (gm_evicted m)
    (gm_lastError m) (gm_evictedAt m) n (gm_appliedProbes m) (gm_revision m).
Definition set_probes (ps : list string) (m : groupMemberRuntime) : groupMemberRuntime :=
  mkMember (gm_standby m) (gm_nodeID m) (gm_tag m) (gm_failureHistory m) (gm_evicted m)
    (gm_lastError m) (gm_evictedAt m) (gm_recoverySuccesses m) ps (gm_revision m).
Definition set_revision (r : Z) (m : groupMemberRuntime) : groupMemberRuntime :=
  mkMember (gm_standby m) (gm_nodeID m) (gm_tag m) (gm_failureHistory m) (gm_evicted m)
    (gm_lastError m) (gm_evictedAt m) (gm_recoverySuccesses m) (gm_appliedProbes m) r.

(** ** Recovery policy *)
Definition defaultRecoverySuccessThreshold : Z := 3.
Definition defaultRecoveryCooldown : Z := 5 * GoTime.minute.

Definition DefaultRecoveryPolicy : RecoveryPolicy :=
  mkPolicy true defaultRecoverySuccessThreshold defaultRecoveryCooldown.

Definition NormalizeRecoveryPolicy (p : RecoveryPolicy) : RecoveryPolicy :=
  mkPolicy (rp_Enabled p)
    (if decide (rp_SuccessThreshold p ≤ 0) then defaultRecoverySuccessThreshold
     else rp_SuccessThreshold p)
    (if decide (rp_Cooldown p < 0) then 0 else rp_Cooldown p).

Definition recoveryPolicyProvided (p : RecoveryPolicy) : bool :=
  rp_Enabled p || negb (bool_decide (rp_SuccessThreshold p = 0))
               || negb (bool_decide (rp_Cooldown p = 0)).

#[global] Instance RecoveryPolicy_eq_dec : EqDecision RecoveryPolicy.
Proof.
  intros [e1 s1 c1] [e2 s2 c2].
  destruct (decide (e1 = e2 ∧ s1 = s2 ∧ c1 = c2)); [left|right]; naive_solver.
Defined.

(** ** The replay ring *)
Definition groupProbeRing : nat := 64.

(** Returns whether the probe was applied before, and the member with the probe
    recorded when it is new. *)
Definition alreadyAppliedProbe (probeID : string) (m : groupMemberRuntime)
    : bool * groupMemberRuntime :=
  if decide (probeID = "") then (false, m)
  else if decide (probeID ∈ gm_appliedProbes m) then (true, m)
  else
    let ring := if decide (groupProbeRing ≤ length (gm_appliedProbes m))%nat
                then drop 1 (gm_appliedProbes m) else gm_appliedProbes m in
    (false, set_probes (ring ++ [probeID]) m).

(** ** The failure window *)
Definition within (cutoff : Z) (h : list Z) : list Z := filter (λ ts, cutoff ≤ ts) h.

(** [history := member.failureHistory[:0]] reuses the member's backing array:
    compacting into [kept] overwrites the first entries of the old slice, which
    stays visible with its old length until the field is assigned. *)
Definition overwritePrefix (kept old : list Z) : list Z := kept ++ drop (length kept) old.

Definition pruneFailures (window now : Z) (m : groupMemberRuntime) : bool * groupMemberRuntime :=
  if decide (gm_failureHistory m = []) then (false, m)
  else
    let cutoff := GoTime.unix (GoTime.add now (- window)) in
    let history := within cutoff (gm_failureHistory m) in
    let m1 := set_history history m in
    let m2 := if decide (history = []) then set_lastError "" m1 else m1 in
    (negb (bool_decide (length history = length (gm_failureHistory m))), m2).

(** A clean, never-failed member. *)
Definition clearMemberEviction (m : groupMemberRuntime) : groupMemberRuntime :=
  set_successes 0 (set_lastError "" (set_history [] (set_eviction false GoTime.zero m))).

(** [touch] takes the next value of the global revision clock. *)
Definition touch (clock : Z) (m : groupMemberRuntime) : groupMemberRuntime * Z :=
  (set_revision (clock + 1) m, clock + 1).

Definition advanceStateRevision (revision clock : Z) : Z := Z.max clock revision.

(** The routing gate shared by selection and the management view. *)
Definition member_ready (m : groupMemberRuntime) : bool :=
  negb (gm_standby m) && negb (gm_evicted m) && bool_decide (gm_failureHistory m = []).
Definition member_admissible (m : groupMemberRuntime) : bool :=
  negb (gm_standby m) && negb (gm_evicted m).

Lemma member_ready_iff m :
  member_ready m = true ↔ gm_standby m = false ∧ gm_evicted m = false ∧ gm_failureHistory m = [].
Proof.
  unfold member_ready. rewrite !andb_true_iff, !negb_true_iff, bool_decide_eq_true. tauto.
Qed.

(** ** Lemmas: the window *)
Lemma elem_of_within cutoff h ts : ts ∈ within cutoff h ↔ cutoff ≤ ts ∧ ts ∈ h.
Proof. apply list_elem_of_filter. Qed.

Lemma within_idemp cutoff h : within cutoff (within cutoff h) = within cutoff h.
Proof.
  apply filter_all, Forall_forall. intros ts Hts. by apply elem_of_within in Hts as [].
Qed.

Lemma within_all cutoff h : Forall (λ ts, cutoff ≤ ts) h → within cutoff h = h.
Proof. apply filter_all. Qed.

Lemma within_compose c1 c2 h : c1 ≤ c2 → within c2 (within c1 h) = within c2 h.
Proof.
  intros Hc. unfold within. rewrite list_filter_filter.
  apply list_filter_iff. intros ts. lia.
Qed.

Lemma length_overwritePrefix kept old :
  (length kept ≤ length old)%nat → length (overwritePrefix kept old) = length old.
Proof. intros. unfold overwritePrefix. rewrite length_app, length_drop. lia. Qed.

Lemma overwritePrefix_same h : overwritePrefix h h = h.
Proof. unfold overwritePrefix. by rewrite drop_all, app_nil_r. Qed.

Lemma pruneFailures_history window now m :
  gm_failureHistory (pruneFailures window now m).2 =
  within (GoTime.unix (GoTime.add now (- window))) (gm_failureHistory m).
Proof.
  unfold pruneFailures. case_decide as Hh; simpl; [by rewrite Hh|].
  by case_decide as Hp; simpl; rewrite ?Hp.
Qed.

Lemma pruneFailures_frame window now m :
  let m' := (pruneFailures window now m).2 in
  gm_standby m' = gm_standby m ∧ gm_nodeID m' = gm_nodeID m ∧ gm_tag m' = gm_tag m ∧
  gm_evicted m' = gm_evicted m ∧ gm_evictedAt m' = gm_evictedAt m ∧
  gm_recoverySuccesses m' = gm_recoverySuccesses m ∧
  gm_appliedProbes m' = gm_appliedProbes m ∧ gm_revision m' = gm_revision m.
Proof. unfold pruneFailures. repeat case_decide; done. Qed.

Lemma pruneFailures_changed window now m :
  (pruneFailures window now m).1 = true ↔
  gm_failureHistory (pruneFailures window now m).2 ≠ gm_failureHistory m.
Proof.
  rewrite pruneFailures_history. unfold pruneFailures. case_decide as Hh; simpl.
  - rewrite Hh. done.
  - rewrite negb_true_iff, bool_decide_eq_false. split; [congruence|].
    intros Hne Hlen. apply Hne. clear -Hlen.
    assert (Hall : Forall (λ ts, GoTime.unix (GoTime.add now (- window)) ≤ ts) (gm_failureHistory m)).
    { revert Hlen. generalize (gm_failureHistory m) as h. induction h as [|ts h IH]; [done|].
      unfold within in *. destruct (decide (GoTime.unix (GoTime.add now (- window)) ≤ ts)).
      - rewrite filter_cons_True by done. simpl. intros. constructor; [done|]. apply IH. lia.
      - rewrite filter_cons_False by done. simpl.
        pose proof (length_filter_le (λ ts, GoTime.unix (GoTime.add now (- window)) ≤ ts) h). lia. }
    by apply within_all.
Qed.

(** ** Lemmas: the ring *)
Lemma alreadyAppliedProbe_frame p m :
  let m' := (alreadyAppliedProbe p m).2 in
  gm_standby m' = gm_standby m ∧ gm_nodeID m' = gm_nodeID m ∧ gm_tag m' = gm_tag m ∧
  gm_failureHistory m' = gm_failureHistory m ∧ gm_evicted m' = gm_evicted m ∧
  gm_lastError m' = gm_lastError m ∧ gm_evictedAt m' = gm_evictedAt m ∧
  gm_recoverySuccesses m' = gm_recoverySuccesses m ∧ gm_revision m' = gm_revision m.
Proof. unfold alreadyAppliedProbe. repeat case_decide; done. Qed.

Lemma alreadyAppliedProbe_hit p m :
  p ≠ "" → p ∈ gm_appliedProbes m → alreadyAppliedProbe p m = (true, m).
Proof. intros. unfold alreadyAppliedProbe. by rewrite decide_False, decide_True. Qed.

Lemma alreadyAppliedProbe_true p m m' :
  alreadyAppliedProbe p m = (true, m') → p ≠ "" ∧ p ∈ gm_appliedProbes m ∧ m' = m.
Proof. unfold alreadyAppliedProbe. repeat case_decide; naive_solver. Qed.

Lemma alreadyAppliedProbe_records p m :
  p ≠ "" → p ∈ gm_appliedProbes (alreadyAppliedProbe p m).2.
Proof.
  intros. unfold alreadyAppliedProbe. rewrite decide_False by done.
  case_decide; simpl; [done|]. set_solver.
Qed.

(** The ring holds distinct, non-empty identifiers and at most [groupProbeRing]
    of them. *)
Definition ring_wf (ps : list string) : Prop :=
  NoDup ps ∧ (length ps ≤ groupProbeRing)%nat ∧ "" ∉ ps.

Lemma alreadyAppliedProbe_wf p m :
  ring_wf (gm_appliedProbes m) → ring_wf (gm_appliedProbes (alreadyAppliedProbe p m).2).
Proof.
  intros (Hnd & Hlen & Hne). unfold alreadyAppliedProbe.
  case_decide as Hp; [done|]. case_decide as Hin; [done|]. simpl.
  set (ring := if decide _ then _ else _).
  assert (Hsub : ring `sublist_of` gm_appliedProbes m).
  { subst ring. case_decide; [apply sublist_drop|done]. }
  assert (Hin' : ∀ x, x ∈ ring → x ∈ gm_appliedProbes m).
  { intros x Hx. eapply elem_of_submseteq; [done|by apply sublist_submseteq]. }
  assert (Hr : (length ring < groupProbeRing)%nat).
  { subst ring. case_decide; rewrite ?length_drop; unfold groupProbeRing in *; lia. }
  split_and!.
  - apply NoDup_app. split_and!; [by eapply sublist_NoDup| |apply NoDup_singleton].
    intros x Hx Hx'. apply list_elem_of_singleton in Hx' as ->. by apply Hin, Hin'.
  - rewrite length_app. simpl. lia.
  - rewrite elem_of_app, list_elem_of_singleton. intros [Hx|Hx]; [by apply Hne, Hin'|done].
Qed.

(** Applying a sequence of probes. *)
Fixpoint applyProbes (ps : list string) (m : groupMemberRuntime) : groupMemberRuntime :=
  match ps with
  | [] => m
  | p :: ps => applyProbes ps (alreadyAppliedProbe p m).2
  end.

(** [p] is in the ring with at most [k] later entries. *)
Definition retained (k : nat) (p : string) (ps : list string) : Prop :=
  ∃ l1 l2, ps = l1 ++ p :: l2 ∧ (length l2 ≤ k)%nat.

Lemma retained_elem k p ps : retained k p ps → p ∈ ps.
Proof. intros (l1 & l2 & -> & _). set_solver. Qed.

Lemma retained_step k p q m :
  (S k < groupProbeRing)%nat → retained k p (gm_appliedProbes m) →
  retained (S k) p (gm_appliedProbes (alreadyAppliedProbe q m).2).
Proof.
  intros Hk (l1 & l2 & Heq & Hl2). unfold alreadyAppliedProbe.
  case_decide; [exists l1, l2; split; [done|lia]|].
  case_decide; [exists l1, l2; split; [done|lia]|]. simpl. rewrite Heq.
  case_decide as Hfull.
  - rewrite length_app in Hfull. simpl in Hfull. destruct l1 as [|x l1]; simpl in *; [lia|].
    exists l1, (l2 ++ [q]). rewrite drop_0, <-app_assoc, length_app. simpl. split; [done|lia].
  - exists l1, (l2 ++ [q]). rewrite <-app_assoc, length_app. simpl. split; [done|lia].
Qed.

Lemma retained_record p m :
  p ≠ "" → p ∉ gm_appliedProbes m → retained 0 p (gm_appliedProbes (alreadyAppliedProbe p m).2).
Proof.
  intros Hp Hin. unfold alreadyAppliedProbe. rewrite !decide_False by done. simpl.
  eexists _, []. split; [done|simpl; lia].
Qed.

Lemma retained_applyProbes p qs k m :
  (k + length qs < groupProbeRing)%nat → retained k p (gm_appliedProbes m) →
  retained (k + length qs) p (gm_appliedProbes (applyProbes qs m)).
Proof.
  revert k m. induction qs as [|q qs IH]; intros k m Hlen Hr; simpl in *.
  - by rewrite Nat.add_0_r.
  - replace (k + S (length qs))%nat with (S k + length qs)%nat by lia.
    apply IH; [lia|]. apply retained_step; [lia|done].
Qed.

Lemma applyProbes_app ps qs m : applyProbes (ps ++ qs) m = applyProbes qs (applyProbes ps m).
Proof. revert m. induction ps as [|p ps IH]; intros m; simpl; [done|]. apply IH. Qed.

(** The ring evolves independently of the rest of the member. *)
Lemma alreadyAppliedProbe_ring_ext p m m' :
  gm_appliedProbes m = gm_appliedProbes m' →
  gm_appliedProbes (alreadyAppliedProbe p m).2 = gm_appliedProbes (alreadyAppliedProbe p m').2.
Proof. intros Heq. unfold alreadyAppliedProbe. rewrite Heq. by repeat case_decide. Qed.

Lemma applyProbes_ring_ext ps m m' :
  gm_appliedProbes m = gm_appliedProbes m' →
  gm_appliedProbes (applyProbes ps m) = gm_appliedProbes (applyProbes ps m').
Proof.
  revert m m'. induction ps as [|p ps IH]; intros m m' Heq; simpl; [done|].
  by apply IH, alreadyAppliedProbe_ring_ext.
Qed.

Lemma applyProbes_hits ps m :
  Forall (λ p, p ≠ "" ∧ p ∈ gm_appliedProbes m) ps → applyProbes ps m = m.
Proof.
  induction 1 as [|p ps [Hp Hin] _ IH]; simpl; [done|].
  by rewrite alreadyAppliedProbe_hit.
Qed.

(** Every probe of a batch that fits the ring and was new when it was applied is
    still in the ring once the whole batch has been applied. *)
Lemma batch_retained ps m :
  NoDup ps → (length ps ≤ groupProbeRing)%nat →
  (∀ p, p ∈ ps → p ≠ "" ∧ p ∉ gm_appliedProbes m) →
  ∀ p, p ∈ ps → p ∈ gm_appliedProbes (applyProbes ps m).
Proof.
  revert m. induction ps as [|q ps IH]; intros m Hnd Hlen Hnew p Hp; [set_solver|].
  apply NoDup_cons in Hnd as [Hq Hnd]. simpl in *.
  destruct (Hnew q) as [Hq0 Hq1]; [set_solver|].
  apply elem_of_cons in Hp as [->|Hp].
  - eapply (retained_elem (0 + length ps)), retained_applyProbes; [lia|].
    by apply retained_record.
  - apply IH; [done|lia| |done]. intros r Hr. split; [by apply Hnew; set_solver|].
    intros Hin. unfold alreadyAppliedProbe in Hin. rewrite !decide_False in Hin by done.
    simpl in Hin. apply elem_of_app in Hin as [Hin|Hin].
    + destruct (Hnew r) as [_ Hr1]; [set_solver|]. apply Hr1. case_decide; [|done].
      rewrite <-(take_drop 1 (gm_appliedProbes m)). set_solver.
    + apply list_elem_of_singleton in Hin as ->. done.
Qed.
