(* ===== verification/GroupRuntime.v ===== *)
(** The process-wide group runtime ([internal/group/runtime.go]): one
    [groupRuntime] per group id, the global eviction marks, the revision clock,
    and every operation the data plane and the control plane call on them.

    Each operation is a function of the whole runtime state ([world]) and of the
    clock readings it makes. Observer callbacks are outside the model: a call to
    [notifyGroupState] appends the event to [notified], so the theorems about
    notifications are about that sequence. *)

From S2P Require Import Prelude GroupMember.

(** ** State *)
Record groupRuntime := mkRuntime {
  (** identity of the allocation: the Go code compares [*groupRuntime] pointers *)
  gr_ptr : Z;
  gr_id : Z;
  gr_window : Z;
  gr_threshold : Z;
  gr_recovery : RecoveryPolicy;
  gr_currentTag : string;
  gr_members : gmap string groupMemberRuntime;
  gr_lastCurrentNotify : Z;
  gr_currentNotifyPending : bool;
  gr_currentPendingNodeID : Z
}.

Record world := mkWorld {
  groupRuntimeStore : gmap Z groupRuntime;
  globalEvictedNodes : gset Z;
  stateRevision : Z;
  notified : list GroupStateEvent;
  nextPtr : Z
}.

Record RuntimeUpdate := mkUpdate {
  ru_FailureWindow : Z;
  ru_FailureThreshold : Z;
  ru_PreferredNodeID : Z;
  ru_Members : gmap string GroupInitialState;
  ru_Recovery : RecoveryPolicy
}.

Record StateSnapshot := mkSnapshot {
  ss_GroupID : Z;
  ss_NodeID : Z;
  ss_FailureHistory : list Z;
  ss_Evicted : bool;
  ss_LastError : string;
  ss_EvictedAt : Z;
  ss_Revision : Z
}.

Record GroupMemberSnapshot := mkMemberSnapshot {
  ms_Standby : bool;
  ms_NodeID : Z;
  ms_Tag : string;
  ms_Status : string;
  ms_FailureCount : Z;
  ms_FailureHistory : list Z;
  ms_LastError : string;
  ms_EvictedAt : Z;
  ms_RecoverySuccesses : Z;
  ms_RecoveryThreshold : Z;
  ms_RecoveryCooldownEnd : Z
}.

Record GroupRuntimeSnapshot := mkGroupSnapshot {
  gs_GroupID : Z;
  gs_CurrentNodeID : Z;
  gs_CurrentTag : string;
  gs_Members : list GroupMemberSnapshot
}.

Definition empty_world : world := mkWorld ∅ ∅ 0 [] 1.

Definition currentTagNotifyInterval : Z := 500 * GoTime.millisecond.

(** Field updates. *)
Definition set_members (ms : gmap string groupMemberRuntime) (rt : groupRuntime) : groupRuntime :=
  mkRuntime (gr_ptr rt) (gr_id rt) (gr_window rt) (gr_threshold rt) (gr_recovery rt)
    (gr_currentTag rt) ms (gr_lastCurrentNotify rt) (gr_currentNotifyPending rt)
    (gr_currentPendingNodeID rt).
Definition set_currentTag (t : string) (rt : groupRuntime) : groupRuntime :=
  mkRuntime (gr_ptr rt) (gr_id rt) (gr_window rt) (gr_threshold rt) (gr_recovery rt)
    t (gr_members rt) (gr_lastCurrentNotify rt) (gr_currentNotifyPending rt)
    (gr_currentPendingNodeID rt).
Definition set_notify (last : Z) (pending : bool) (node : Z) (rt : groupRuntime) : groupRuntime :=
  mkRuntime (gr_ptr rt) (gr_id rt) (gr_window rt) (gr_threshold rt) (gr_recovery rt)
    (gr_currentTag rt) (gr_members rt) last pending node.
Definition set_member (key : string) (m : groupMemberRuntime) (rt : groupRuntime) : groupRuntime :=
  set_members (<[key := m]> (gr_members rt)) rt.

Definition put_runtime (gid : Z) (rt : groupRuntime) (w : world) : world :=
  mkWorld (<[gid := rt]> (groupRuntimeStore w)) (globalEvictedNodes w) (stateRevision w)
    (notified w) (nextPtr w).
Definition set_clock (c : Z) (w : world) : world :=
  mkWorld (groupRuntimeStore w) (globalEvictedNodes w) c (notified w) (nextPtr w).
Definition set_marks (s : gset Z) (w : world) : world :=
  mkWorld (groupRuntimeStore w) s (stateRevision w) (notified w) (nextPtr w).
Definition notifyGroupState (e : GroupStateEvent) (w : world) : world :=
  mkWorld (groupRuntimeStore w) (globalEvictedNodes w) (stateRevision w)
    (notified w ++ [e]) (nextPtr w).

Definition current_event (gid nodeID : Z) : GroupStateEvent :=
  mkEvent gid nodeID [] false "" GoTime.zero nodeID true false false 0.
Definition recovered_event (gid nodeID revision : Z) : GroupStateEvent :=
  mkEvent gid nodeID [] false "" GoTime.zero 0 false true true revision.
Definition state_event (gid : Z) (currentChanged : bool) (m : groupMemberRuntime) : GroupStateEvent :=
  mkEvent gid (gm_nodeID m) (gm_failureHistory m) (gm_evicted m) (gm_lastError m)
    (gm_evictedAt m) 0 currentChanged true false (gm_revision m).

Section GroupRuntime.
Context `{!RangeOrder Z, !RangeOrder string}.

(** A loop over [groupRuntimeStore] that works on one locked runtime at a time. *)
Definition clocklog : Type := Z * list GroupStateEvent.

Definition sweep_store (g : groupRuntime → clocklog → groupRuntime * clocklog) (w : world) : world :=
  let r := map_sweep (λ _ rt s, g rt s) (groupRuntimeStore w) (stateRevision w, notified w) in
  mkWorld r.1 (globalEvictedNodes w) r.2.1 r.2.2 (nextPtr w).

(** ** Eviction is a fact about a node: every group holding it is told. *)
Definition holds_live (nodeID : Z) (_ : string) (m : groupMemberRuntime) : bool :=
  bool_decide (gm_nodeID m = nodeID) && negb (gm_evicted m).

Definition propagate_runtime (nodeID : Z) (lastError : string) (evictedAt : Z)
    (rt : groupRuntime) (s : clocklog) : groupRuntime * clocklog :=
  match range_find (holds_live nodeID) (gr_members rt) with
  | None => (rt, s)
  | Some (key, m) =>
    let changed := bool_decide (gr_currentTag rt = gm_tag m) in
    let m1 := set_successes 0 (set_lastError lastError (set_eviction true evictedAt m)) in
    let '(m2, clock) := touch s.1 m1 in
    let rt1 := set_member key m2 rt in
    let rt2 := if changed then set_currentTag "" rt1 else rt1 in
    (rt2, (clock, s.2 ++ [state_event (gr_id rt) changed m2]))
  end.

Definition propagateEviction (nodeID : Z) (lastError : string) (evictedAt now : Z) (w : world) : world :=
  if decide (nodeID = 0) then w
  else
    let at_ := if GoTime.isZero evictedAt then now else evictedAt in
    sweep_store (propagate_runtime nodeID lastError at_) w.

(** Clears and touches every member satisfying [P]; the state is the clock and
    the revision of the last cleared member. *)
Definition clear_members (P : groupMemberRuntime → bool) (rt : groupRuntime) (clock : Z)
    : groupRuntime * (Z * option Z) :=
  let r := map_sweep (λ (_ : string) m (s : Z * option Z),
             if P m then let '(m', c) := touch s.1 (clearMemberEviction m) in (m', (c, Some c))
             else (m, s)) (gr_members rt) (clock, None) in
  (set_members r.1 rt, r.2).

Definition clear_runtime (P : groupMemberRuntime → bool) (nodeID : Z)
    (rt : groupRuntime) (s : clocklog) : groupRuntime * clocklog :=
  let '(rt', (clock, revision)) := clear_members P rt s.1 in
  match revision with
  | None => (rt', (clock, s.2))
  | Some rev => (rt', (clock, s.2 ++ [recovered_event (gr_id rt) nodeID rev]))
  end.

Definition recover_runtime (nodeID originGroupID : Z) (rt : groupRuntime) (s : clocklog)
    : groupRuntime * clocklog :=
  if decide (gr_id rt = originGroupID) then (rt, s)
  else clear_runtime (λ m, bool_decide (gm_nodeID m = nodeID) && gm_evicted m) nodeID rt s.

Definition recoverEvictedNodeEverywhere (nodeID originGroupID : Z) (w : world) : world :=
  if decide (nodeID = 0) then w
  else sweep_store (recover_runtime nodeID originGroupID)
         (set_marks (globalEvictedNodes w ∖ {[nodeID]}) w).

(** ** Failures *)
Definition RecordFailure (groupID : Z) (tag : string) (cause : option string) (at_ now : Z)
    (w : world) : world * bool :=
  match groupRuntimeStore w !! groupID with
  | None => (w, false)
  | Some rt =>
    match gr_members rt !! tag with
    | None => (w, false)
    | Some m =>
      if gm_evicted m then (put_runtime groupID (set_member tag (set_successes 0 m) rt) w, true)
      else
        let cutoff := GoTime.unix (GoTime.add at_ (- gr_window rt)) in
        let history := within cutoff (gm_failureHistory m) in
        if decide (last history = Some (GoTime.unix at_)) then
          (* early return: the field keeps its old length over the compacted array *)
          let stale := overwritePrefix history (gm_failureHistory m) in
          (put_runtime groupID (set_member tag (set_history stale m) rt) w, gm_evicted m)
        else
          let m1 := set_successes 0 (set_history (history ++ [GoTime.unix at_]) m) in
          let m2 := match cause with Some c => set_lastError c m1 | None => m1 end in
          let currentChanged := bool_decide (gr_currentTag rt = tag) in
          let newlyEvicted := bool_decide (gr_threshold rt ≤ Z.of_nat (length (gm_failureHistory m2))) in
          let m3 := if newlyEvicted then set_eviction true at_ m2 else m2 in
          let '(m4, clock) := touch (stateRevision w) m3 in
          let rt1 := set_member tag m4 rt in
          let rt2 := if currentChanged then set_currentTag "" rt1 else rt1 in
          let event := state_event groupID currentChanged m4 in
          let w1 := notifyGroupState event (set_clock clock (put_runtime groupID rt2 w)) in
          let w2 := if newlyEvicted
                    then propagateEviction (gm_nodeID m4) (gm_lastError m4) (gm_evictedAt m4) now
                           (set_marks ({[gm_nodeID m4]} ∪ globalEvictedNodes w1) w1)
                    else w1 in
          (w2, gm_evicted m4)
    end
  end.

(** The background-probe entry point: the replay and same-second checks run in
    their own critical section before [RecordFailure]. *)
Definition RecordGroupHealthFailure (groupID : Z) (tag probeID : string) (cause : option string)
    (at_ now : Z) (w : world) : world * bool :=
  match groupRuntimeStore w !! groupID with
  | None => RecordFailure groupID tag cause at_ now w
  | Some rt =>
    match gr_members rt !! tag with
    | None => RecordFailure groupID tag cause at_ now w
    | Some m =>
      let '(applied, m1) := alreadyAppliedProbe probeID m in
      let w1 := put_runtime groupID (set_member tag m1 rt) w in
      if applied then (w1, gm_evicted m1)
      else if decide (last (gm_failureHistory m1) = Some (GoTime.unix at_)) then (w1, gm_evicted m1)
      else RecordFailure groupID tag cause at_ now w1
    end
  end.

(** ** Successes and recovery *)
Definition RecordHealthSuccess (groupID : Z) (tag probeID : string) (now : Z) (w : world)
    : world * bool :=
  match groupRuntimeStore w !! groupID with
  | None => (w, false)
  | Some rt =>
    match gr_members rt !! tag with
    | None => (w, false)
    | Some m0 =>
      let '(applied, m) := alreadyAppliedProbe probeID m0 in
      let put m' := put_runtime groupID (set_member tag m' rt) w in
      if applied then (put m, negb (gm_evicted m))
      else if gm_evicted m then
        if negb (rp_Enabled (gr_recovery rt)) then (put (set_successes 0 m), false)
        else if decide (GoTime.sub now (gm_evictedAt m) < rp_Cooldown (gr_recovery rt)) then (put m, false)
        else
          let m1 := set_successes (gm_recoverySuccesses m + 1) m in
          if decide (gm_recoverySuccesses m1 < rp_SuccessThreshold (gr_recovery rt)) then (put m1, false)
          else
            let '(m2, clock) := touch (stateRevision w) (clearMemberEviction m1) in
            let w1 := set_clock clock (put m2) in
            let w2 := set_marks (globalEvictedNodes w1 ∖ {[gm_nodeID m2]}) w1 in
            let w3 := notifyGroupState (recovered_event groupID (gm_nodeID m2) clock) w2 in
            (recoverEvictedNodeEverywhere (gm_nodeID m2) groupID w3, true)
      else if decide (gm_failureHistory m = []) then (put (set_successes 0 m), true)
      else
        let m1 := set_successes 0 (set_lastError "" (set_history [] m)) in
        let '(m2, clock) := touch (stateRevision w) m1 in
        let w1 := set_clock clock (put m2) in
        (notifyGroupState (recovered_event groupID (gm_nodeID m2) clock) w1, true)
    end
  end.

(** The manual counterpart of automatic recovery. *)
Definition RestoreGroupMember (groupID nodeID : Z) (w : world) : world * result unit :=
  match groupRuntimeStore w !! groupID with
  | None => (w, Err "group runtime not found")
  | Some _ =>
    let holds m := bool_decide (gm_nodeID m = nodeID) in
    let found := range_any (λ _ rt, range_any (λ _ m, holds m) (gr_members rt)) (groupRuntimeStore w) in
    let w1 := sweep_store (clear_runtime holds nodeID)
                (set_marks (globalEvictedNodes w ∖ {[nodeID]}) w) in
    (w1, if found then Ok tt else Err "group member not found")
  end.

(** ** Routing gates *)
Definition MemberAvailable (groupID : Z) (tag : string) (now : Z) (w : world) : world * bool :=
  match groupRuntimeStore w !! groupID with
  | None => (w, true)
  | Some rt =>
    match gr_members rt !! tag with
    | None => (w, false)
    | Some m =>
      let m1 := if gm_evicted m then m else (pruneFailures (gr_window rt) now m).2 in
      (put_runtime groupID (set_member tag m1 rt) w, member_ready m1)
    end
  end.

Definition MemberNotEvicted (groupID : Z) (tag : string) (w : world) : bool :=
  match groupRuntimeStore w !! groupID with
  | None => true
  | Some rt =>
    match gr_members rt !! tag with
    | None => false
    | Some m => member_admissible m
    end
  end.

(** ** The current member *)
Definition CurrentTag (groupID now : Z) (w : world) : world * string :=
  match groupRuntimeStore w !! groupID with
  | None => (w, "")
  | Some rt =>
    let drop_current rt :=
      if decide (gr_currentTag rt = "") then (put_runtime groupID rt w, "")
      else
        let rt1 := set_notify (gr_lastCurrentNotify rt) false (gr_currentPendingNodeID rt)
                     (set_currentTag "" rt) in
        (notifyGroupState (current_event groupID 0) (put_runtime groupID rt1 w), "") in
    match gr_members rt !! gr_currentTag rt with
    | None => drop_current rt
    | Some m =>
      if member_admissible m then
        let m1 := (pruneFailures (gr_window rt) now m).2 in
        let rt1 := set_member (gr_currentTag rt) m1 rt in
        if decide (gm_failureHistory m1 = []) then
          let flush := gr_currentNotifyPending rt &&
            bool_decide (currentTagNotifyInterval ≤ GoTime.sub now (gr_lastCurrentNotify rt)) in
          let nodeID := gr_currentPendingNodeID rt in
          if flush then
            (notifyGroupState (current_event groupID nodeID)
               (put_runtime groupID (set_notify now false nodeID rt1) w), gr_currentTag rt)
          else (put_runtime groupID rt1 w, gr_currentTag rt)
        else drop_current rt1
      else drop_current rt
    end
  end.

Definition SetCurrentTag (groupID : Z) (tag : string) (now : Z) (w : world) : world :=
  match groupRuntimeStore w !! groupID with
  | None => w
  | Some rt =>
    let member := gr_members rt !! tag in
    let admissible := match member with Some m => member_admissible m | None => false end in
    if negb (bool_decide (tag = "")) && negb admissible then w
    else if decide (gr_currentTag rt = tag) then w
    else
      let rt1 := set_currentTag tag rt in
      let nodeID := match member with Some m => gm_nodeID m | None => 0 end in
      if negb (GoTime.isZero (gr_lastCurrentNotify rt1)) &&
         bool_decide (GoTime.sub now (gr_lastCurrentNotify rt1) < currentTagNotifyInterval) then
        put_runtime groupID (set_notify (gr_lastCurrentNotify rt1) true nodeID rt1) w
      else
        notifyGroupState (current_event groupID nodeID)
          (put_runtime groupID (set_notify now false (gr_currentPendingNodeID rt1) rt1) w)
  end.

(** ** Topology changes *)

(** [oldByNodeID]: the live members indexed by node; the last one visited wins. *)
Definition index_by_node (ms : gmap string groupMemberRuntime) : gmap Z groupMemberRuntime :=
  foldl (λ acc km, <[gm_nodeID km.2 := km.2]> acc) ∅ (range ms).

Record reconcile_state := mkReconcile {
  rs_marks : gset Z;
  rs_clock : Z;
  rs_events : list GroupStateEvent
}.

(** The state migrated from the previous generation of the node, or restored
    from the persisted initial state of a node that was not a member. *)
Definition migrate_member (tag : string) (initial : GroupInitialState)
    (old : option groupMemberRuntime) (clock : Z) : groupMemberRuntime * Z :=
  match old with
  | Some o =>
    (mkMember (gi_Standby initial) (gi_NodeID initial) tag (gm_failureHistory o) (gm_evicted o)
       (gm_lastError o) (gm_evictedAt o) (gm_recoverySuccesses o) [] (gm_revision o), clock)
  | None =>
    let restored := bool_decide (0 < gi_Revision initial) in
    (mkMember (gi_Standby initial) (gi_NodeID initial) tag (gi_FailureHistory initial)
       (gi_Evicted initial) (gi_LastError initial) (gi_EvictedAt initial) 0 []
       (if restored then gi_Revision initial else 0),
     if restored then advanceStateRevision (gi_Revision initial) clock else clock)
  end.

Definition reconcile_member (groupID window threshold now : Z) (policyChanged : bool)
    (oldByNodeID : gmap Z groupMemberRuntime) (tag : string) (initial : GroupInitialState)
    (s : reconcile_state) : groupMemberRuntime * reconcile_state :=
  let old := oldByNodeID !! gi_NodeID initial in
  let '(m0, clock) := migrate_member tag initial old (rs_clock s) in
  let m1 := if decide (gm_nodeID m0 ∈ rs_marks s) then set_eviction true (gm_evictedAt m0) m0 else m0 in
  let '(pruned, m2) := pruneFailures window now m1 in
  let newlyEvicted := negb (gm_evicted m2) &&
    bool_decide (threshold ≤ Z.of_nat (length (gm_failureHistory m2))) in
  let m3 := if newlyEvicted then set_eviction true now m2 else m2 in
  let marks := if newlyEvicted then {[gm_nodeID m3]} ∪ rs_marks s else rs_marks s in
  let m4 := if gm_evicted m3 && GoTime.isZero (gm_evictedAt m3) then set_eviction true now m3 else m3 in
  let renamed := match old with Some o => negb (bool_decide (gm_tag o = tag)) | None => false end in
  let m5 := if gm_evicted m4 && bool_decide (0 < gm_recoverySuccesses m4) && (policyChanged || renamed)
            then set_successes 0 m4 else m4 in
  if pruned || newlyEvicted then
    let '(m6, clock') := touch clock m5 in
    (m6, mkReconcile marks clock' (rs_events s ++ [state_event groupID false m6]))
  else (m5, mkReconcile marks clock (rs_events s)).

(** Whether some group still holds the node evicted. *)
Definition evicted_somewhere (nodeID : Z) (store : gmap Z groupRuntime) : bool :=
  range_any (λ _ rt, range_any (λ _ m, bool_decide (gm_nodeID m = nodeID) && gm_evicted m)
                       (gr_members rt)) store.

Definition pruneGlobalEvictions (removed : list Z) (w : world) : world :=
  foldl (λ w nodeID,
    if decide (nodeID ∉ globalEvictedNodes w) then w
    else if evicted_somewhere nodeID (groupRuntimeStore w) then w
    else set_marks (globalEvictedNodes w ∖ {[nodeID]}) w) w removed.

Definition holds_preferred (preferred : Z) (_ : string) (m : groupMemberRuntime) : bool :=
  bool_decide (gm_nodeID m = preferred) && member_ready m.

Definition ReconcileSilent (groupID : Z) (update : RuntimeUpdate) (now : Z) (w : world)
    : world * list GroupStateEvent :=
  match groupRuntimeStore w !! groupID with
  | None => (w, [])
  | Some rt =>
    let window := if decide (ru_FailureWindow update ≤ 0) then 5 * GoTime.minute
                  else ru_FailureWindow update in
    let threshold := if decide (ru_FailureThreshold update ≤ 0) then 3
                     else ru_FailureThreshold update in
    let oldByNodeID := index_by_node (gr_members rt) in
    let updateIDs := list_to_set (C := gset Z) (gi_NodeID ∘ snd <$> range (ru_Members update)) in
    let currentNodeID := match gr_members rt !! gr_currentTag rt with
                         | Some m => gm_nodeID m | None => 0 end in
    let policyChanged := recoveryPolicyProvided (ru_Recovery update) &&
      negb (bool_decide (NormalizeRecoveryPolicy (ru_Recovery update) = gr_recovery rt)) in
    let '(next, s) := map_sweep (reconcile_member groupID window threshold now policyChanged oldByNodeID)
                        (ru_Members update)
                        (mkReconcile (globalEvictedNodes w) (stateRevision w) []) in
    let recovery := if recoveryPolicyProvided (ru_Recovery update)
                    then NormalizeRecoveryPolicy (ru_Recovery update) else gr_recovery rt in
    let preferred := if decide (currentNodeID = 0) then ru_PreferredNodeID update else currentNodeID in
    let currentTag := match range_find (holds_preferred preferred) next with
                      | Some (t, _) => t | None => "" end in
    let nextCurrentNodeID := match next !! currentTag with Some m => gm_nodeID m | None => 0 end in
    let events := if decide (nextCurrentNodeID = currentNodeID) then rs_events s
                  else rs_events s ++ [current_event groupID nextCurrentNodeID] in
    let removed := filter (λ n, n ∉ updateIDs) (fst <$> range oldByNodeID) in
    let rt' := mkRuntime (gr_ptr rt) (gr_id rt) window threshold recovery currentTag next
                 (gr_lastCurrentNotify rt) (gr_currentNotifyPending rt) (gr_currentPendingNodeID rt) in
    (pruneGlobalEvictions removed
       (set_marks (rs_marks s) (set_clock (rs_clock s) (put_runtime groupID rt' w))), events)
  end.

(** Completes a silent reconciliation once the pool snapshot is visible. *)
Definition NotifyEvents (events : list GroupStateEvent) (now : Z) (w : world) : world :=
  foldl (λ w e,
    let w1 := notifyGroupState e w in
    if ev_Evicted e then propagateEviction (ev_NodeID e) (ev_LastError e) (ev_EvictedAt e) now w1
    else w1) w events.

(** ** Registration *)
Definition register_member (now : Z) (tag : string) (initial : GroupInitialState)
    (s : gset Z * Z) : groupMemberRuntime * (gset Z * Z) :=
  let marks := if gi_Evicted initial then {[gi_NodeID initial]} ∪ s.1 else s.1 in
  let evicted := gi_Evicted initial || bool_decide (gi_NodeID initial ∈ marks) in
  let evictedAt := if evicted && GoTime.isZero (gi_EvictedAt initial) then now
                   else gi_EvictedAt initial in
  let restored := bool_decide (0 < gi_Revision initial) in
  (mkMember (gi_Standby initial) (gi_NodeID initial) tag (gi_FailureHistory initial) evicted
     (gi_LastError initial) evictedAt 0 [] (if restored then gi_Revision initial else 0),
   (marks, if restored then advanceStateRevision (gi_Revision initial) s.2 else s.2)).

(** Announces the restored evictions to every group; each member is read when
    its turn comes, after the propagations before it. *)
Definition announce_evictions (groupID now : Z) (tags : list string) (w : world) : world :=
  foldl (λ w tag,
    match groupRuntimeStore w !! groupID with
    | None => w
    | Some rt =>
      match gr_members rt !! tag with
      | Some m => if gm_evicted m
                  then propagateEviction (gm_nodeID m) (gm_lastError m) (gm_evictedAt m) now w else w
      | None => w
      end
    end) w tags.

(** Returns the new world and the cleanup token of the registration. *)
Definition Register (groupID failureWindow failureThreshold : Z) (currentTag : string)
    (members : gmap string GroupInitialState) (recovery : option RecoveryPolicy) (now : Z)
    (w : world) : world * option Z :=
  if decide (groupID = 0) then (w, None)
  else
    let policy := match recovery with
                  | Some p => NormalizeRecoveryPolicy p | None => DefaultRecoveryPolicy end in
    let '(ms, (marks, clock)) := map_sweep (register_member now) members
                                   (globalEvictedNodes w, stateRevision w) in
    let keeps_current := match ms !! currentTag with
                         | Some m => member_ready m | None => false end in
    let tag := if keeps_current then currentTag else "" in
    let ptr := nextPtr w in
    let rt := mkRuntime ptr groupID
                (if decide (failureWindow ≤ 0) then 5 * GoTime.minute else failureWindow)
                (if decide (failureThreshold ≤ 0) then 3 else failureThreshold)
                policy tag ms GoTime.zero false 0 in
    let w1 := mkWorld (<[groupID := rt]> (groupRuntimeStore w)) marks clock (notified w) (ptr + 1) in
    let w2 := match ms !! tag with
              | Some m => notifyGroupState (current_event groupID (gm_nodeID m)) w1
              | None => if decide (currentTag = "") then w1
                        else notifyGroupState (current_event groupID 0) w1
              end in
    (announce_evictions groupID now (fst <$> range ms) w2, Some ptr).

(** [groupRuntimeStore.CompareAndDelete]: the cleanup of a registration. *)
Definition Unregister (groupID : Z) (token : option Z) (w : world) : world :=
  match token, groupRuntimeStore w !! groupID with
  | Some ptr, Some rt =>
    if decide (gr_ptr rt = ptr)
    then mkWorld (delete groupID (groupRuntimeStore w)) (globalEvictedNodes w) (stateRevision w)
           (notified w) (nextPtr w)
    else w
  | _, _ => w
  end.

Definition Reset (w : world) : world :=
  mkWorld ∅ ∅ (stateRevision w) (notified w) (nextPtr w).

(** ** Snapshots *)
Definition snapshot_runtime (wanted : gset Z) (rt : groupRuntime) : list StateSnapshot :=
  (foldl (λ acc km,
     let m := km.2 : groupMemberRuntime in
     if decide (gm_nodeID m ∉ wanted) then acc
     else if decide (gm_nodeID m ∈ acc.1) then acc
     else ({[gm_nodeID m]} ∪ acc.1,
           acc.2 ++ [mkSnapshot (gr_id rt) (gm_nodeID m) (gm_failureHistory m) (gm_evicted m)
                       (gm_lastError m) (gm_evictedAt m) (gm_revision m)]))
     ((∅ : gset Z), ([] : list StateSnapshot)) (range (gr_members rt))).2.

Definition SnapshotStates (nodeIDs : list Z) (w : world) : list StateSnapshot :=
  let wanted := list_to_set (C := gset Z) (filter (λ n, n ≠ 0) nodeIDs) in
  flat_map (λ grt, snapshot_runtime wanted grt.2) (range (groupRuntimeStore w)).

Definition member_status (m : groupMemberRuntime) : string :=
  if gm_evicted m then "EVICTED"
  else if decide (gm_failureHistory m = []) then "ALIVE" else "SUSPECT".

Definition member_snapshot (rt : groupRuntime) (now : Z) (m : groupMemberRuntime) : GroupMemberSnapshot :=
  let shown := gm_evicted m && rp_Enabled (gr_recovery rt) in
  let cooldownEnd := GoTime.add (gm_evictedAt m) (rp_Cooldown (gr_recovery rt)) in
  mkMemberSnapshot (gm_standby m) (gm_nodeID m) (gm_tag m) (member_status m)
    (Z.of_nat (length (gm_failureHistory m))) (gm_failureHistory m) (gm_lastError m) (gm_evictedAt m)
    (if shown then gm_recoverySuccesses m else 0)
    (if shown then rp_SuccessThreshold (gr_recovery rt) else 0)
    (if shown && GoTime.after cooldownEnd now then cooldownEnd else GoTime.zero).

Definition snapshot_le (a b : GroupMemberSnapshot) : Prop := ms_NodeID a ≤ ms_NodeID b.
#[global] Instance snapshot_le_dec : RelDecision snapshot_le.
Proof. intros a b. unfold snapshot_le. apply _. Defined.

(** Pruning (when asked for) touches a member whose window expired and announces
    it after the lock is released; the read-only form changes nothing. *)
Definition snapshot_prune (prune : bool) (now : Z) (rt : groupRuntime) (m : groupMemberRuntime)
    (s : clocklog) : groupMemberRuntime * clocklog :=
  if prune && negb (gm_evicted m) then
    let '(changed, m1) := pruneFailures (gr_window rt) now m in
    if changed then
      let '(m2, clock) := touch s.1 m1 in
      (m2, (clock, s.2 ++ [mkEvent (gr_id rt) (gm_nodeID m2) (gm_failureHistory m2) false
                             (gm_lastError m2) GoTime.zero 0 false true false (gm_revision m2)]))
    else (m1, s)
  else (m, s).

Definition snapshotGroupRuntime (rt : groupRuntime) (prune : bool) (now : Z) (s : clocklog)
    : groupRuntime * clocklog * GroupRuntimeSnapshot :=
  let r := map_sweep (λ _ m s, snapshot_prune prune now rt m s) (gr_members rt) (s.1, []) in
  let current := match gr_members rt !! gr_currentTag rt with Some m => gm_nodeID m | None => 0 end in
  let ms := (λ km, member_snapshot rt now km.2) <$> range r.1 in
  (set_members r.1 rt, (r.2.1, s.2 ++ r.2.2),
   mkGroupSnapshot (gr_id rt) current (gr_currentTag rt) (merge_sort snapshot_le ms)).

Definition groupRuntimeSnapshots (prune : bool) (now : Z) (w : world)
    : world * gmap Z GroupRuntimeSnapshot :=
  let r := map_sweep (λ _ rt (s : clocklog * gmap Z GroupRuntimeSnapshot),
             let '(rt', s', snap) := snapshotGroupRuntime rt prune now s.1 in
             (rt', (s', <[gr_id rt := snap]> s.2)))
             (groupRuntimeStore w) ((stateRevision w, notified w), ∅) in
  (mkWorld r.1 (globalEvictedNodes w) r.2.1.1 r.2.1.2 (nextPtr w), r.2.2).
End GroupRuntime.
