(* ===== verification/GroupInvariant.v ===== *)
(** The well-formedness invariant of the group runtime, and that every operation
    keeps it: the runtime as a state machine, its reachable states, and the
    lemmas about store-wide loops the property files build on. *)

From S2P Require Import Prelude GroupMember GroupRuntime.

(** A member is filed under its own tag, its revision was handed out by the
    clock, its replay ring is well formed and its streak is a count. *)
Record member_wf (clock : Z) (key : string) (m : groupMemberRuntime) : Prop := {
  mw_tag : gm_tag m = key;
  mw_revision : gm_revision m ≤ clock;
  mw_ring : ring_wf (gm_appliedProbes m);
  mw_successes : 0 ≤ gm_recoverySuccesses m
}.

Record runtime_wf (clock : Z) (rt : groupRuntime) : Prop := {
  rw_members : ∀ key m, gr_members rt !! key = Some m → member_wf clock key m;
  (** the current tag, when there is one, names an admissible member *)
  rw_current : gr_currentTag rt = "" ∨
    ∃ m, gr_members rt !! gr_currentTag rt = Some m ∧ member_admissible m = true;
  rw_window : 0 < gr_window rt;
  rw_threshold : 0 < gr_threshold rt;
  (** the recovery policy is normalized *)
  rw_recovery : 0 < rp_SuccessThreshold (gr_recovery rt) ∧ 0 ≤ rp_Cooldown (gr_recovery rt)
}.

Definition world_wf (w : world) : Prop :=
  ∀ gid rt, groupRuntimeStore w !! gid = Some rt →
    gr_id rt = gid ∧ gr_ptr rt < nextPtr w ∧ runtime_wf (stateRevision w) rt.

Lemma member_wf_mono c c' key m : c ≤ c' → member_wf c key m → member_wf c' key m.
Proof. intros ? []. split; [done|lia|done|done]. Qed.

Lemma runtime_wf_mono c c' rt : c ≤ c' → runtime_wf c rt → runtime_wf c' rt.
Proof.
  intros ? [Hms Hcur ? ? ?]. split; try done.
  intros key m Hm. eapply member_wf_mono; [done|]. by apply Hms.
Qed.

#[export] Hint Resolve member_wf_mono runtime_wf_mono : go.

Lemma ring_wf_nil : ring_wf [].
Proof. split_and!; [constructor|simpl; unfold groupProbeRing; lia|set_solver]. Qed.

(** Member updates keep the member well formed. *)
Lemma member_wf_touch c key m :
  member_wf c key m → member_wf (touch c m).2 key (touch c m).1.
Proof. intros []. split; simpl; try done. Qed.

Lemma member_wf_clear c key m : member_wf c key m → member_wf c key (clearMemberEviction m).
Proof. intros []. by split. Qed.

Lemma member_wf_probe c key p m :
  member_wf c key m → member_wf c key (alreadyAppliedProbe p m).2.
Proof.
  intros []. destruct (alreadyAppliedProbe_frame p m) as (_ & _ & Ht & _ & _ & _ & _ & Hs & Hr).
  split; rewrite ?Ht, ?Hs, ?Hr; try done. by apply alreadyAppliedProbe_wf.
Qed.

Lemma member_wf_prune c key window now m :
  member_wf c key m → member_wf c key (pruneFailures window now m).2.
Proof.
  intros []. destruct (pruneFailures_frame window now m) as (_ & _ & Ht & _ & _ & Hs & Hp & Hr).
  split; by rewrite ?Ht, ?Hs, ?Hp, ?Hr.
Qed.

Lemma member_admissible_prune window now m :
  member_admissible (pruneFailures window now m).2 = member_admissible m.
Proof.
  destruct (pruneFailures_frame window now m) as (Hs & _ & _ & He & _).
  unfold member_admissible. by rewrite Hs, He.
Qed.

(** Replacing one member: the current tag survives unless the replaced member is
    the current one and lost its admissibility. *)
Lemma runtime_wf_set_member c c' key m m' rt :
  c ≤ c' → runtime_wf c rt → gr_members rt !! key = Some m → member_wf c' key m' →
  (gr_currentTag rt = key → member_admissible m = true → member_admissible m' = true) →
  runtime_wf c' (set_member key m' rt).
Proof.
  intros Hc [Hms Hcur ? ? ?] Hk Hm' Hadm. split; simpl; try done.
  - intros k n. rewrite lookup_insert. case_decide; intros; simplify_eq; [done|].
    eapply member_wf_mono; [done|]. by apply Hms.
  - destruct Hcur as [|(n & Hn & Ha)]; [by left|right].
    rewrite lookup_insert. case_decide as Heq; [|eauto].
    simplify_eq. eexists. split; [done|]. by apply Hadm.
Qed.

Lemma runtime_wf_no_current c rt : runtime_wf c rt → runtime_wf c (set_currentTag "" rt).
Proof. intros []. split; simpl; try done. by left. Qed.

(** Replacing a member that stops being current. *)
Lemma runtime_wf_drop_current c c' key m m' rt (b : bool) :
  c ≤ c' → runtime_wf c rt → gr_members rt !! key = Some m → member_wf c' key m' →
  (b = false → gr_currentTag rt ≠ key) →
  runtime_wf c' (if b then set_currentTag "" (set_member key m' rt) else set_member key m' rt).
Proof.
  intros Hc [Hms Hcur ? ? ?] Hk Hm' Hb.
  assert (Hms' : ∀ k n, gr_members (set_member key m' rt) !! k = Some n → member_wf c' k n).
  { simpl. intros k n. rewrite lookup_insert. case_decide; intros; simplify_eq; [done|].
    eapply member_wf_mono; [done|]. by apply Hms. }
  destruct b; split; simpl; try done; [by left|].
  destruct Hcur as [|(n & Hn & Ha)]; [by left|right].
  exists n. rewrite lookup_insert_ne; [done|]. intros Heq. by apply Hb.
Qed.

Lemma world_wf_put gid rt rt' w :
  world_wf w → groupRuntimeStore w !! gid = Some rt →
  gr_id rt' = gr_id rt → gr_ptr rt' = gr_ptr rt → runtime_wf (stateRevision w) rt' →
  world_wf (put_runtime gid rt' w).
Proof.
  intros Hw Hrt Hid Hptr Hrt' g r. simpl. rewrite lookup_insert. case_decide; intros; simplify_eq.
  - destruct (Hw _ _ Hrt) as (<- & ? & ?). rewrite Hptr. by split_and!.
  - by apply Hw.
Qed.

Lemma world_wf_clock c w : stateRevision w ≤ c → world_wf w → world_wf (set_clock c w).
Proof. intros Hc Hw g r Hr. destruct (Hw _ _ Hr) as (? & ? & ?). simpl. split_and!; eauto with go. Qed.

Lemma world_wf_notify e w : world_wf w → world_wf (notifyGroupState e w).
Proof. done. Qed.

Lemma world_wf_marks s w : world_wf w → world_wf (set_marks s w).
Proof. done. Qed.

(** Combined form: put, then advance the clock to [c]. *)
Lemma world_wf_put_clock gid rt rt' c w :
  world_wf w → groupRuntimeStore w !! gid = Some rt →
  gr_id rt' = gr_id rt → gr_ptr rt' = gr_ptr rt → stateRevision w ≤ c → runtime_wf c rt' →
  world_wf (set_clock c (put_runtime gid rt' w)).
Proof.
  intros Hw Hrt Hid Hptr Hc Hrt' g r. simpl. rewrite lookup_insert. case_decide; intros; simplify_eq.
  - destruct (Hw _ _ Hrt) as (<- & ? & ?). rewrite Hptr. by split_and!.
  - destruct (Hw _ _ H0) as (? & ? & ?). split_and!; eauto with go.
Qed.

Section invariant.
Context `{!RangeOrder Z, !RangeOrder string}.

(** ** Store-wide loops *)

(** What a loop body does to one locked runtime: it keeps the identity, only
    moves the clock forward and only appends to the log. *)
Record body_ok (g : groupRuntime → clocklog → groupRuntime * clocklog) : Prop := {
  bo_id : ∀ rt s, gr_id (g rt s).1 = gr_id rt;
  bo_ptr : ∀ rt s, gr_ptr (g rt s).1 = gr_ptr rt;
  bo_clock : ∀ rt s, s.1 ≤ (g rt s).2.1;
  bo_log : ∀ rt s, s.2 `prefix_of` (g rt s).2.2
}.

Definition clocklog_le (s s' : clocklog) : Prop := s.1 ≤ s'.1 ∧ s.2 `prefix_of` s'.2.
#[global] Instance clocklog_le_preorder : PreOrder clocklog_le.
Proof.
  split; [by intros [c l]; split; [simpl; lia|]|].
  intros x y z [Hc1 Hl1] [Hc2 Hl2]. split; [lia|by etrans].
Qed.

(** Each runtime of the result is the body applied to the old runtime at some
    moment between the old and the new clock. *)
Lemma sweep_store_spec g w :
  body_ok g →
  clocklog_le (stateRevision w, notified w) (stateRevision (sweep_store g w), notified (sweep_store g w)) ∧
  (∀ gid, match groupRuntimeStore w !! gid with
          | None => groupRuntimeStore (sweep_store g w) !! gid = None
          | Some rt => ∃ s, clocklog_le (stateRevision w, notified w) s ∧
              clocklog_le (g rt s).2 (stateRevision (sweep_store g w), notified (sweep_store g w)) ∧
              groupRuntimeStore (sweep_store g w) !! gid = Some (g rt s).1
          end).
Proof.
  intros [Hid Hptr Hclock Hlog].
  destruct (map_sweep_spec clocklog_le (λ _ rt s, g rt s) (groupRuntimeStore w)
              (stateRevision w, notified w)) as [HR Hk].
  { intros k rt s _. split; [apply Hclock|apply Hlog]. }
  unfold sweep_store. simpl. rewrite <-!surjective_pairing. split; [done|]. apply Hk.
Qed.

Lemma sweep_store_wf g w :
  body_ok g → (∀ rt s, runtime_wf s.1 rt → runtime_wf (g rt s).2.1 (g rt s).1) →
  world_wf w → world_wf (sweep_store g w).
Proof.
  intros Hg Hbody Hw gid rt' Hrt'.
  destruct (sweep_store_spec g w Hg) as [_ Hspec]. specialize (Hspec gid).
  destruct (groupRuntimeStore w !! gid) as [rt|] eqn:Hrt; [|congruence].
  destruct Hspec as (s & [Hs _] & [Hs' _] & Heq). simplify_eq. simpl in *.
  destruct (Hw _ _ Hrt) as (? & ? & ?). split_and!.
  - by rewrite bo_id.
  - by rewrite bo_ptr.
  - eapply runtime_wf_mono; [exact Hs'|]. apply Hbody. eauto with go.
Qed.

Lemma sweep_store_marks g w : globalEvictedNodes (sweep_store g w) = globalEvictedNodes w.
Proof. done. Qed.

(** ** The loop bodies *)
Lemma propagate_runtime_ok nodeID e at_ : body_ok (propagate_runtime nodeID e at_).
Proof.
  split; intros rt s; unfold propagate_runtime; destruct (range_find _ _) as [[key m]|]; simpl; try done.
  - by case_bool_decide.
  - by case_bool_decide.
  - lia.
  - by apply prefix_app_r.
Qed.

Lemma propagate_runtime_wf nodeID e at_ rt s :
  runtime_wf s.1 rt →
  runtime_wf (propagate_runtime nodeID e at_ rt s).2.1 (propagate_runtime nodeID e at_ rt s).1.
Proof.
  intros Hrt. unfold propagate_runtime.
  destruct (range_find _ _) as [[key m]|] eqn:Hf; [|done]. cbn zeta iota beta.
  apply range_find_Some in Hf as [Hm _]. destruct (rw_members _ _ Hrt _ _ Hm) as [Ht Hr Hring Hs].
  simpl. eapply runtime_wf_drop_current; [|done|done| |]; [lia|by split|].
  rewrite bool_decide_eq_false, Ht. done.
Qed.

#[local] Instance clock_option_preorder : PreOrder (λ s s' : Z * option Z, s.1 ≤ s'.1).
Proof. split; [by intros ?|intros ???; lia]. Qed.

(** [clear_members]: exactly the selected members are cleared and stamped. *)
Lemma clear_members_spec P rt clock :
  let r := clear_members P rt clock in
  clock ≤ r.2.1 ∧
  (∀ key, match gr_members rt !! key with
          | None => gr_members r.1 !! key = None
          | Some m => if P m then ∃ rev, clock < rev ≤ r.2.1 ∧
                        gr_members r.1 !! key = Some (set_revision rev (clearMemberEviction m))
                      else gr_members r.1 !! key = Some m
          end) ∧
  (r.2.2 = None ↔ ∀ key m, gr_members rt !! key = Some m → P m = false) ∧
  (∀ rev, r.2.2 = Some rev → clock < rev ≤ r.2.1).
Proof.
  unfold clear_members. cbn zeta.
  set (g := λ (_ : string) m (s : Z * option Z),
             if P m then let '(m', c) := touch s.1 (clearMemberEviction m) in (m', (c, Some c))
             else (m, s)).
  simpl.
  destruct (map_sweep_spec (λ s s' : Z * option Z, s.1 ≤ s'.1) g (gr_members rt) (clock, None))
    as [Hle Hk].
  { intros k m s _. unfold g, touch. destruct (P m); simpl; lia. }
  split_and!; [done| | |].
  - intros key. specialize (Hk key). destruct (gr_members rt !! key) as [m|]; [|done].
    destruct Hk as (s1 & Hs1 & Hs2 & Heq). unfold g, touch in Hs2, Heq.
    destruct (P m); cbn in Hs1, Hs2, Heq; [|done]. exists (s1.1 + 1).
    split; [|done]. unfold g, touch. lia.
  - assert (Hinv : (λ s : Z * option Z, s.2 = None) (map_sweep g (gr_members rt) (clock, None)).2 →
      ∀ key m, gr_members rt !! key = Some m → P m = false).
    { intros Hnone key m Hm.
      assert (HF : Forall (λ km : string * groupMemberRuntime, P km.2 = false) (range (gr_members rt))).
      { revert Hnone. apply (map_sweep_ind (λ l _ (s : Z * option Z), s.2 = None →
          Forall (λ km : string * groupMemberRuntime, P km.2 = false) l)); [done|].
        intros l k a m' s' _ _ IH. unfold g, touch. destruct (P a) eqn:HPa; simpl; [done|].
        intros Hs. apply Forall_app; auto. }
      rewrite Forall_forall in HF. by apply (HF (key, m)), elem_of_range. }
    split; [done|]. intros Hall.
    apply (map_sweep_inv (λ s : Z * option Z, s.2 = None)); [done|].
    intros k a s Hka Hs. unfold g. by rewrite (Hall _ _ Hka).
  - intros rev Hrev.
    assert (Hinv : (λ s : Z * option Z, clock ≤ s.1 ∧ ∀ r, s.2 = Some r → clock < r ≤ s.1)
      (map_sweep g (gr_members rt) (clock, None)).2).
    { apply map_sweep_inv; [done|]. intros k a s _ [Hc Hs]. unfold g, touch.
      destruct (P a); simpl; [|done]. split; [lia|]. intros r ?. simplify_eq. lia. }
    by apply Hinv.
Qed.

Lemma clear_members_frame P rt clock :
  let rt' := (clear_members P rt clock).1 in
  gr_id rt' = gr_id rt ∧ gr_ptr rt' = gr_ptr rt ∧ gr_currentTag rt' = gr_currentTag rt ∧
  gr_window rt' = gr_window rt ∧ gr_threshold rt' = gr_threshold rt ∧ gr_recovery rt' = gr_recovery rt.
Proof. done. Qed.

Lemma clear_runtime_fst P nodeID rt s :
  (clear_runtime P nodeID rt s).1 = (clear_members P rt s.1).1.
Proof.
  unfold clear_runtime. destruct (clear_members P rt s.1) as [rt' [c [rev|]]]; done.
Qed.

Lemma clear_runtime_clock P nodeID rt s :
  (clear_runtime P nodeID rt s).2.1 = (clear_members P rt s.1).2.1.
Proof.
  unfold clear_runtime. destruct (clear_members P rt s.1) as [rt' [c [rev|]]]; done.
Qed.

Lemma clear_runtime_ok P nodeID : body_ok (clear_runtime P nodeID).
Proof.
  split; intros rt s.
  - by rewrite clear_runtime_fst.
  - by rewrite clear_runtime_fst.
  - rewrite clear_runtime_clock. by destruct (clear_members_spec P rt s.1).
  - unfold clear_runtime. destruct (clear_members P rt s.1) as [rt' [c [rev|]]]; simpl; [|done].
    by apply prefix_app_r.
Qed.

Lemma clear_runtime_wf P nodeID rt s :
  runtime_wf s.1 rt → runtime_wf (clear_runtime P nodeID rt s).2.1 (clear_runtime P nodeID rt s).1.
Proof.
  intros [Hms Hcur Hwin Hthr Hrec]. rewrite clear_runtime_fst, clear_runtime_clock.
  destruct (clear_members_spec P rt s.1) as (Hle & Hk & _). split; try done.
  - intros key m' Hm'. specialize (Hk key). destruct (gr_members rt !! key) as [m|] eqn:Hm; [|congruence].
    specialize (Hms _ _ Hm). destruct (P m).
    + destruct Hk as (rev & Hrev & Heq). rewrite Heq in Hm'. simplify_eq. destruct Hms.
      split; simpl; try done; by destruct Hrev.
    + simplify_eq. eauto with go.
  - destruct Hcur as [|(m & Hm & Ha)]; [by left|right]. specialize (Hk (gr_currentTag rt)).
    change (gr_currentTag (clear_members P rt s.1).1) with (gr_currentTag rt).
    rewrite Hm in Hk. destruct (P m).
    + destruct Hk as (rev & _ & ->). eexists; split; [done|].
      unfold member_admissible in *. simpl. apply andb_true_iff in Ha as [-> _]. done.
    + eauto.
Qed.

Lemma recover_runtime_ok nodeID origin : body_ok (recover_runtime nodeID origin).
Proof.
  destruct (clear_runtime_ok (λ m, bool_decide (gm_nodeID m = nodeID) && gm_evicted m) nodeID).
  split; intros rt s; unfold recover_runtime; case_decide; simpl; auto with lia.
Qed.

Lemma recover_runtime_wf nodeID origin rt s :
  runtime_wf s.1 rt →
  runtime_wf (recover_runtime nodeID origin rt s).2.1 (recover_runtime nodeID origin rt s).1.
Proof. intros. unfold recover_runtime. case_decide; [done|]. by apply clear_runtime_wf. Qed.

Lemma propagateEviction_wf nodeID e at_ now w : world_wf w → world_wf (propagateEviction nodeID e at_ now w).
Proof.
  intros. unfold propagateEviction. case_decide; [done|].
  apply sweep_store_wf; [apply propagate_runtime_ok| |done]. intros. by apply propagate_runtime_wf.
Qed.

Lemma recoverEverywhere_wf nodeID gid w : world_wf w → world_wf (recoverEvictedNodeEverywhere nodeID gid w).
Proof.
  intros. unfold recoverEvictedNodeEverywhere. case_decide; [done|].
  apply sweep_store_wf; [apply recover_runtime_ok| |done]. intros. by apply recover_runtime_wf.
Qed.
(** ** Every operation keeps the runtime well formed *)
Lemma member_wf_of gid rt tag m w :
  world_wf w → groupRuntimeStore w !! gid = Some rt → gr_members rt !! tag = Some m →
  member_wf (stateRevision w) tag m.
Proof. intros Hw Hrt Hm. by apply (rw_members _ _ (proj2 (proj2 (Hw _ _ Hrt)))). Qed.

Lemma runtime_wf_of gid rt w :
  world_wf w → groupRuntimeStore w !! gid = Some rt → runtime_wf (stateRevision w) rt.
Proof. intros Hw Hrt. by apply (Hw _ _ Hrt). Qed.

(** Replacing a member of a registered group by a well-formed one. *)
Lemma world_wf_set_member gid rt tag m m' w :
  world_wf w → groupRuntimeStore w !! gid = Some rt → gr_members rt !! tag = Some m →
  member_wf (stateRevision w) tag m' →
  (gr_currentTag rt = tag → member_admissible m = true → member_admissible m' = true) →
  world_wf (put_runtime gid (set_member tag m' rt) w).
Proof.
  intros Hw Hrt Hm Hm' Ha. eapply world_wf_put; [done..|].
  eapply (runtime_wf_set_member (stateRevision w)); [done|by eapply runtime_wf_of|done..].
Qed.

Lemma member_wf_frame c key m m' :
  member_wf c key m → gm_tag m' = gm_tag m → gm_revision m' = gm_revision m →
  gm_appliedProbes m' = gm_appliedProbes m → 0 ≤ gm_recoverySuccesses m' → member_wf c key m'.
Proof. intros [] Ht Hr Hp ?. split; by rewrite ?Ht, ?Hr, ?Hp. Qed.

Lemma RecordFailure_wf gid tag cause at_ now w :
  world_wf w → world_wf (RecordFailure gid tag cause at_ now w).1.
Proof.
  intros Hw. unfold RecordFailure. destruct (groupRuntimeStore w !! gid) as [rt|] eqn:Hrt; [|done].
  destruct (gr_members rt !! tag) as [m|] eqn:Hm; [|done].
  pose proof (member_wf_of _ _ _ _ _ Hw Hrt Hm) as Hmw.
  destruct (gm_evicted m) eqn:He.
  { eapply world_wf_set_member; [done..| |]; [by eapply member_wf_frame|done]. }
  cbn zeta. case_decide.
  { eapply world_wf_set_member; [done..| |]; [|done]. eapply member_wf_frame; [done..|]. apply Hmw. }
  set (m3 := if bool_decide (gr_threshold rt ≤ _) then _ else _).
  assert (Hm3 : member_wf (stateRevision w) tag m3).
  { subst m3. eapply member_wf_frame; [done|..]; by repeat case_match. }
  destruct (touch (stateRevision w) m3) as [m4 c] eqn:Ht.
  assert (Hc : stateRevision w ≤ c) by (unfold touch in Ht; simplify_eq; lia).
  assert (Hm4 : member_wf c tag m4).
  { replace m4 with (touch (stateRevision w) m3).1 by (by rewrite Ht).
    replace c with (touch (stateRevision w) m3).2 by (by rewrite Ht). by apply member_wf_touch. }
  assert (Hput : world_wf (set_clock c (put_runtime gid
    (if bool_decide (gr_currentTag rt = tag) then set_currentTag "" (set_member tag m4 rt)
     else set_member tag m4 rt) w))).
  { eapply world_wf_put_clock; [done|done|by case_match|by case_match|done|].
    eapply (runtime_wf_drop_current (stateRevision w)); [done|by eapply runtime_wf_of|done|done|].
    apply bool_decide_eq_false. }
  cbn zeta iota beta delta [fst].
  match goal with |- world_wf (if ?b then _ else _) => destruct b end; [|done].
  by apply propagateEviction_wf.
Qed.

Lemma world_wf_probe gid rt tag m p w :
  world_wf w → groupRuntimeStore w !! gid = Some rt → gr_members rt !! tag = Some m →
  world_wf (put_runtime gid (set_member tag (alreadyAppliedProbe p m).2 rt) w).
Proof.
  intros Hw Hrt Hm. eapply world_wf_set_member; [done..| |].
  - apply member_wf_probe. by eapply member_wf_of.
  - intros _. destruct (alreadyAppliedProbe_frame p m) as (Hs & _ & _ & _ & He & _).
    unfold member_admissible. by rewrite Hs, He.
Qed.

Lemma RecordGroupHealthFailure_wf gid tag p cause at_ now w :
  world_wf w → world_wf (RecordGroupHealthFailure gid tag p cause at_ now w).1.
Proof.
  intros Hw. unfold RecordGroupHealthFailure.
  destruct (groupRuntimeStore w !! gid) as [rt|] eqn:Hrt; [|by apply RecordFailure_wf].
  destruct (gr_members rt !! tag) as [m|] eqn:Hm; [|by apply RecordFailure_wf].
  pose proof (world_wf_probe _ _ _ _ p _ Hw Hrt Hm) as Hput.
  destruct (alreadyAppliedProbe p m) as [applied m1]; simpl in *.
  destruct applied; [done|]. case_decide; [done|]. by apply RecordFailure_wf.
Qed.

(** Replacing a member and advancing the clock to its new revision. *)
Lemma world_wf_touch_member gid rt tag m m' w :
  world_wf w → groupRuntimeStore w !! gid = Some rt → gr_members rt !! tag = Some m →
  member_wf (stateRevision w) tag m' →
  (gr_currentTag rt = tag → member_admissible m = true → member_admissible m' = true) →
  world_wf (set_clock (stateRevision w + 1)
    (put_runtime gid (set_member tag (set_revision (stateRevision w + 1) m') rt) w)).
Proof.
  intros Hw Hrt Hm Hm' Ha. eapply world_wf_put_clock; [done..|lia|].
  eapply (runtime_wf_set_member (stateRevision w)); [lia|by eapply runtime_wf_of|done| |done].
  by apply (member_wf_touch _ _ _ Hm').
Qed.

Lemma RecordHealthSuccess_wf gid tag p now w :
  world_wf w → world_wf (RecordHealthSuccess gid tag p now w).1.
Proof.
  intros Hw. unfold RecordHealthSuccess.
  destruct (groupRuntimeStore w !! gid) as [rt|] eqn:Hrt; [|done].
  destruct (gr_members rt !! tag) as [m0|] eqn:Hm; [|done].
  pose proof (member_wf_probe _ _ p _ (member_wf_of _ _ _ _ _ Hw Hrt Hm)) as Hmw.
  destruct (alreadyAppliedProbe_frame p m0) as (Hs & _ & _ & _ & He & _).
  destruct (alreadyAppliedProbe p m0) as [applied m]. cbn [snd] in *. cbn zeta.
  assert (Hput : ∀ m', member_wf (stateRevision w) tag m' →
    (member_admissible m0 = true → member_admissible m' = true) →
    world_wf (put_runtime gid (set_member tag m' rt) w)).
  { intros m' Hm' Ha. by eapply world_wf_set_member. }
  assert (Hadm : ∀ m', gm_standby m' = gm_standby m → gm_evicted m' = false ∨ gm_evicted m' = gm_evicted m →
    member_admissible m0 = true → member_admissible m' = true).
  { intros m' Hs' He'. unfold member_admissible.
    rewrite !andb_true_iff, !negb_true_iff, <-Hs, <-He. intuition congruence. }
  pose proof (mw_successes _ _ _ Hmw) as Hsucc.
  destruct applied; [by apply Hput; auto|]. destruct (gm_evicted m) eqn:Hev.
  - destruct (negb _); [apply Hput; [by eapply member_wf_frame|by apply Hadm; auto]|].
    case_decide; [by apply Hput; auto|].
    case_decide; [apply Hput; [eapply member_wf_frame; [done..|simpl; lia]|by apply Hadm; auto]|].
    apply recoverEverywhere_wf. simpl.
    eapply (world_wf_touch_member _ _ _ m0); [done..| |intros _; by apply Hadm; auto].
    apply member_wf_clear. eapply member_wf_frame; [done..|simpl; lia].
  - case_decide; [apply Hput; [by eapply member_wf_frame|by apply Hadm; auto]|].
    simpl. eapply (world_wf_touch_member _ _ _ m0); [done..| |intros _; by apply Hadm; auto].
    by eapply member_wf_frame.
Qed.

Lemma RestoreGroupMember_wf gid nodeID w :
  world_wf w → world_wf (RestoreGroupMember gid nodeID w).1.
Proof.
  intros Hw. unfold RestoreGroupMember. destruct (groupRuntimeStore w !! gid); [|done]. simpl.
  apply sweep_store_wf; [apply clear_runtime_ok| |done]. intros. by apply clear_runtime_wf.
Qed.

Lemma MemberAvailable_wf gid tag now w : world_wf w → world_wf (MemberAvailable gid tag now w).1.
Proof.
  intros Hw. unfold MemberAvailable. destruct (groupRuntimeStore w !! gid) as [rt|] eqn:Hrt; [|done].
  destruct (gr_members rt !! tag) as [m|] eqn:Hm; [|done]. cbn zeta.
  pose proof (member_wf_of _ _ _ _ _ Hw Hrt Hm) as Hmw.
  eapply (world_wf_set_member _ _ _ m); [done..| |];
    destruct (gm_evicted m); try done; [by apply member_wf_prune|].
  by rewrite member_admissible_prune.
Qed.

Lemma CurrentTag_wf gid now w : world_wf w → world_wf (CurrentTag gid now w).1.
Proof.
  intros Hw. unfold CurrentTag. destruct (groupRuntimeStore w !! gid) as [rt|] eqn:Hrt; [|done].
  cbn zeta.
  assert (Hdrop : ∀ rt', gr_id rt' = gr_id rt → gr_ptr rt' = gr_ptr rt →
    runtime_wf (stateRevision w) rt' →
    world_wf (if decide (gr_currentTag rt' = "") then (put_runtime gid rt' w, "") else
      (notifyGroupState (current_event gid 0) (put_runtime gid
        (set_notify (gr_lastCurrentNotify rt') false (gr_currentPendingNodeID rt')
          (set_currentTag "" rt')) w), "")).1).
  { intros rt' Hid Hptr Hwf. case_decide; [by eapply world_wf_put|].
    apply world_wf_notify. eapply world_wf_put; [done..|].
    destruct (runtime_wf_no_current _ _ Hwf). by split. }
  pose proof (runtime_wf_of _ _ _ Hw Hrt) as Hrw.
  destruct (gr_members rt !! gr_currentTag rt) as [m|] eqn:Hm; [|by apply Hdrop].
  destruct (member_admissible m) eqn:Ha; [|by apply Hdrop].
  set (rt1 := set_member _ _ rt).
  assert (Hrt1 : runtime_wf (stateRevision w) rt1).
  { eapply runtime_wf_set_member; [done..| |].
    - apply member_wf_prune. by eapply member_wf_of.
    - by rewrite member_admissible_prune. }
  case_decide; [|by apply (Hdrop rt1)].
  match goal with |- context [if ?b then _ else _] => destruct b end.
  - apply world_wf_notify. eapply world_wf_put; [done..|]. by destruct Hrt1.
  - by eapply world_wf_put.
Qed.

Lemma SetCurrentTag_wf gid tag now w : world_wf w → world_wf (SetCurrentTag gid tag now w).
Proof.
  intros Hw. unfold SetCurrentTag. destruct (groupRuntimeStore w !! gid) as [rt|] eqn:Hrt; [|done].
  cbn zeta. match goal with |- world_wf (if ?b then _ else _) => destruct b eqn:Hadm end; [done|].
  destruct (decide (gr_currentTag rt = tag)); [done|].
  assert (Hcur : runtime_wf (stateRevision w) (set_currentTag tag rt)).
  { destruct (runtime_wf_of _ _ _ Hw Hrt). split; simpl; try done.
    apply andb_false_iff in Hadm as [Ht|Ha].
    - left. by apply negb_false_iff, bool_decide_eq_true in Ht.
    - right. apply negb_false_iff in Ha. destruct (gr_members rt !! tag); [eauto|done]. }
  match goal with |- world_wf (if ?b then _ else _) => destruct b end;
    [|apply world_wf_notify]; (eapply world_wf_put; [done..|by destruct Hcur]).
Qed.

Lemma pruneGlobalEvictions_marks removed w :
  pruneGlobalEvictions removed w = set_marks (globalEvictedNodes (pruneGlobalEvictions removed w)) w.
Proof.
  unfold pruneGlobalEvictions. revert w. induction removed as [|n ns IH]; intros w; simpl; [by destruct w|].
  rewrite IH at 1. clear IH. by repeat case_decide; destruct (evicted_somewhere n (groupRuntimeStore w)).
Qed.

Lemma pruneGlobalEvictions_wf removed w : world_wf w → world_wf (pruneGlobalEvictions removed w).
Proof. rewrite pruneGlobalEvictions_marks. done. Qed.

Lemma NotifyEvents_wf events now w : world_wf w → world_wf (NotifyEvents events now w).
Proof.
  unfold NotifyEvents. revert w. induction events as [|e es IH]; intros w Hw; simpl; [done|].
  apply IH. destruct (ev_Evicted e); [|done]. by apply propagateEviction_wf.
Qed.

Lemma announce_evictions_wf gid now tags w : world_wf w → world_wf (announce_evictions gid now tags w).
Proof.
  unfold announce_evictions. revert w. induction tags as [|t ts IH]; intros w Hw; simpl; [done|].
  apply IH. destruct (groupRuntimeStore w !! gid) as [rt|]; [|done].
  destruct (gr_members rt !! t) as [m|]; [|done]. destruct (gm_evicted m); [|done].
  by apply propagateEviction_wf.
Qed.

Lemma Unregister_wf gid token w : world_wf w → world_wf (Unregister gid token w).
Proof.
  intros Hw. unfold Unregister. destruct token; [|done].
  destruct (groupRuntimeStore w !! gid); [|done]. case_decide; [|done].
  intros g' r'. simpl. rewrite lookup_delete_Some. intros [_ Hr]. by apply Hw.
Qed.

Lemma Reset_wf w : world_wf (Reset w).
Proof. intros g r. simpl. by rewrite lookup_empty. Qed.

(** What the rebuilding loops produce: members filed under their tag with a
    revision the clock has reached. *)
Lemma register_member_ok now tag initial (s : gset Z * Z) :
  0 ≤ s.2 →
  s.2 ≤ (register_member now tag initial s).2.2 ∧
  member_wf (register_member now tag initial s).2.2 tag (register_member now tag initial s).1.
Proof.
  intros Hs. unfold register_member. simpl. unfold advanceStateRevision.
  case_bool_decide; (split; [lia|]); split; simpl; (done || lia || apply ring_wf_nil).
Qed.

Lemma reconcile_member_ok gid window threshold now pc old tag initial s c :
  0 ≤ rs_clock s → c ≤ rs_clock s →
  (∀ n o, old !! n = Some o → ∃ key, member_wf c key o) →
  let r := reconcile_member gid window threshold now pc old tag initial s in
  rs_clock s ≤ rs_clock r.2 ∧ member_wf (rs_clock r.2) tag r.1.
Proof.
  intros H0 Hc Hold. unfold reconcile_member. cbn zeta.
  destruct (migrate_member tag initial (old !! gi_NodeID initial) (rs_clock s)) as [m0 clock] eqn:Hmig.
  assert (Hm0 : rs_clock s ≤ clock ∧ member_wf clock tag m0).
  { unfold migrate_member in Hmig. destruct (old !! gi_NodeID initial) as [o|] eqn:Ho; simplify_eq.
    - destruct (Hold _ _ Ho) as [key []]. split; [done|].
      split; simpl; (done || lia || apply ring_wf_nil).
    - unfold advanceStateRevision. case_bool_decide; (split; [lia|]);
        split; simpl; (done || lia || apply ring_wf_nil). }
  destruct Hm0 as [Hle Hm0].
  assert (Hupd : ∀ m e at_, member_wf clock tag m → member_wf clock tag (set_eviction e at_ m)).
  { intros m e at_ []. by split. }
  set (m1 := if decide (_ ∈ rs_marks s) then _ else m0).
  assert (Hm1 : member_wf clock tag m1) by (subst m1; case_decide; auto).
  pose proof (member_wf_prune _ _ window now _ Hm1) as Hm2.
  destruct (pruneFailures window now m1) as [pruned m2]. cbn [snd] in Hm2.
  set (newly := negb (gm_evicted m2) && _).
  set (m3 := if newly then set_eviction true now m2 else m2).
  assert (Hm3 : member_wf clock tag m3) by (subst m3; destruct newly; auto).
  set (m4 := if gm_evicted m3 && _ then _ else m3).
  assert (Hm4 : member_wf clock tag m4).
  { subst m4. destruct (gm_evicted m3 && GoTime.isZero (gm_evictedAt m3)); auto. }
  set (m5 := if gm_evicted m4 && _ && _ then _ else m4).
  assert (Hm5 : member_wf clock tag m5).
  { subst m5. match goal with |- member_wf _ _ (if ?b then _ else _) => destruct b end; [|done].
    by destruct Hm4. }
  destruct (pruned || newly); simpl; [|done].
  split; [lia|]. by apply (member_wf_touch clock).
Qed.

Lemma index_by_node_Some ms n o :
  index_by_node ms !! n = Some o → ∃ key, ms !! key = Some o ∧ gm_nodeID o = n.
Proof.
  unfold index_by_node.
  assert (Hgen : ∀ l (acc : gmap Z groupMemberRuntime), (∀ k m, (k, m) ∈ l → ms !! k = Some m) →
    (∀ n o, acc !! n = Some o → ∃ key, ms !! key = Some o ∧ gm_nodeID o = n) →
    foldl (λ acc km, <[gm_nodeID km.2 := km.2]> acc) acc l !! n = Some o →
    ∃ key, ms !! key = Some o ∧ gm_nodeID o = n).
  { induction l as [|[k m] l IH]; intros acc Hl Hacc; simpl; [apply Hacc|].
    apply IH; [intros; apply Hl; set_solver|]. intros n' o'.
    rewrite lookup_insert. case_decide; intros; simplify_eq/=; [|by apply Hacc].
    exists k. split; [|done]. apply Hl. set_solver. }
  apply Hgen; [|intros ??; rewrite lookup_empty; done].
  intros k m. by rewrite elem_of_range.
Qed.

Lemma NormalizeRecoveryPolicy_wf p :
  0 < rp_SuccessThreshold (NormalizeRecoveryPolicy p) ∧ 0 ≤ rp_Cooldown (NormalizeRecoveryPolicy p).
Proof.
  unfold NormalizeRecoveryPolicy, defaultRecoverySuccessThreshold. simpl.
  repeat case_decide; lia.
Qed.

#[local] Instance reconcile_preorder : PreOrder (λ s s' : reconcile_state, rs_clock s ≤ rs_clock s').
Proof. split; [by intros ?|intros ???; lia]. Qed.

Lemma reconcile_sweep_ok gid window threshold now pc old ms s0 c :
  0 ≤ rs_clock s0 → c ≤ rs_clock s0 →
  (∀ n o, old !! n = Some o → ∃ key, member_wf c key o) →
  let r := map_sweep (reconcile_member gid window threshold now pc old) ms s0 in
  rs_clock s0 ≤ rs_clock r.2 ∧
  (∀ key m, r.1 !! key = Some m → member_wf (rs_clock r.2) key m).
Proof.
  intros H0 Hc Hold. cbn zeta. split.
  - apply (map_sweep_inv (λ s, rs_clock s0 ≤ rs_clock s)); [done|].
    intros k a s _ Hs. etrans; [done|].
    by apply (reconcile_member_ok gid window threshold now pc old k a s c); [lia..|].
  - apply (map_sweep_ind (λ _ m' s, rs_clock s0 ≤ rs_clock s ∧
      ∀ key m, m' !! key = Some m → member_wf (rs_clock s) key m)
      (reconcile_member gid window threshold now pc old) ms s0).
    + split; [done|]. intros ??. by rewrite lookup_empty.
    + intros l k a m' s _ _ [Hs IH].
      destruct (reconcile_member_ok gid window threshold now pc old k a s c) as [Hle Hwf]; [lia..|done|].
      split; [lia|]. intros key m. rewrite lookup_insert. case_decide; intros; simplify_eq; [done|].
      eapply member_wf_mono; [done|]. by apply IH.
Qed.

Lemma ReconcileSilent_wf gid u now w :
  world_wf w → 0 ≤ stateRevision w →
  world_wf (ReconcileSilent gid u now w).1 ∧ stateRevision w ≤ stateRevision (ReconcileSilent gid u now w).1.
Proof.
  intros Hw H0. unfold ReconcileSilent.
  destruct (groupRuntimeStore w !! gid) as [rt|] eqn:Hrt; [|done]. cbn zeta.
  set (window := if decide (ru_FailureWindow u ≤ 0) then _ else _).
  set (threshold := if decide (ru_FailureThreshold u ≤ 0) then _ else _).
  set (pc := recoveryPolicyProvided (ru_Recovery u) && _).
  set (s0 := mkReconcile _ _ []).
  destruct (reconcile_sweep_ok gid window threshold now pc (index_by_node (gr_members rt))
    (ru_Members u) s0 (stateRevision w)) as [Hle Hms]; [done|done| |].
  { intros n o (key & Hk & _)%index_by_node_Some. exists key. by eapply member_wf_of. }
  destruct (map_sweep _ (ru_Members u) s0) as [next s]. cbn [fst snd] in *.
  rewrite pruneGlobalEvictions_marks. split; [|done].
  apply world_wf_marks, world_wf_marks. eapply (world_wf_put_clock gid rt); [done..|].
  split; simpl; [done| | | |].
  - destruct (range_find (holds_preferred _) next) as [[t m]|] eqn:Hf; [right|by left].
    apply range_find_Some in Hf as [Ht Hr]. exists m. split; [done|].
    apply andb_true_iff in Hr as [_ Hr]. apply member_ready_iff in Hr as (Hs & He & _).
    unfold member_admissible. by rewrite Hs, He.
  - subst window. case_decide; [done|lia].
  - subst threshold. case_decide; lia.
  - case_match; [apply NormalizeRecoveryPolicy_wf|]. by eapply rw_recovery, runtime_wf_of.
Qed.

Lemma register_sweep_ok now ms (s0 : gset Z * Z) :
  0 ≤ s0.2 →
  let r := map_sweep (register_member now) ms s0 in
  s0.2 ≤ r.2.2 ∧ (∀ key m, r.1 !! key = Some m → member_wf r.2.2 key m).
Proof.
  intros H0. cbn zeta.
  apply (map_sweep_ind (λ _ m' s, s0.2 ≤ s.2 ∧ ∀ key m, m' !! key = Some m → member_wf s.2 key m)
    (register_member now) ms s0).
  - split; [done|]. intros ??. by rewrite lookup_empty.
  - intros l k a m' s _ _ [Hs IH].
    destruct (register_member_ok now k a s) as [Hle Hwf]; [lia|].
    split; [lia|]. intros key m. rewrite lookup_insert. case_decide; intros; simplify_eq; [done|].
    eapply member_wf_mono; [done|]. by apply IH.
Qed.

(** Only the clock of [propagateEviction] moves, and only forward. *)
Lemma propagateEviction_clock nodeID e at_ now w :
  stateRevision w ≤ stateRevision (propagateEviction nodeID e at_ now w).
Proof.
  unfold propagateEviction. case_decide; [done|]. cbn zeta.
  by destruct (sweep_store_spec _ w (propagate_runtime_ok nodeID e
    (if GoTime.isZero at_ then now else at_))) as [[? _] _].
Qed.

Lemma recoverEverywhere_clock nodeID gid w :
  stateRevision w ≤ stateRevision (recoverEvictedNodeEverywhere nodeID gid w).
Proof.
  unfold recoverEvictedNodeEverywhere. case_decide; [done|].
  by destruct (sweep_store_spec _ (set_marks (globalEvictedNodes w ∖ {[nodeID]}) w)
    (recover_runtime_ok nodeID gid)) as [[? _] _].
Qed.

Lemma announce_evictions_clock gid now tags w :
  stateRevision w ≤ stateRevision (announce_evictions gid now tags w).
Proof.
  unfold announce_evictions. revert w. induction tags as [|t ts IH]; intros w; simpl; [done|].
  etrans; [|apply IH]. destruct (groupRuntimeStore w !! gid) as [rt|]; [|done].
  destruct (gr_members rt !! t) as [m|]; [|done]. destruct (gm_evicted m); [|done].
  apply propagateEviction_clock.
Qed.

Lemma Register_wf gid fw ft ct ms rp now w :
  world_wf w → 0 ≤ stateRevision w →
  world_wf (Register gid fw ft ct ms rp now w).1 ∧
  stateRevision w ≤ stateRevision (Register gid fw ft ct ms rp now w).1.
Proof.
  intros Hw H0. unfold Register. case_decide; [done|]. cbn zeta.
  destruct (register_sweep_ok now ms (globalEvictedNodes w, stateRevision w) H0) as [Hle Hms].
  destruct (map_sweep _ ms _) as [next [marks clock]]. cbn [fst snd] in *.
  set (tag := if match next !! ct with Some m => member_ready m | None => false end then ct else "").
  set (rt := mkRuntime _ gid _ _ _ tag next _ _ _).
  set (w1 := mkWorld _ marks clock (notified w) _).
  assert (Hrt : runtime_wf clock rt).
  { split; simpl; [done| | | |].
    - subst tag. destruct (next !! ct) as [m|] eqn:Hm; [|by left].
      destruct (member_ready m) eqn:Hr; [right|by left]. exists m. split; [done|].
      apply member_ready_iff in Hr as (Hs & He & _). unfold member_admissible. by rewrite Hs, He.
    - case_decide; [done|lia].
    - case_decide; lia.
    - destruct rp; [apply NormalizeRecoveryPolicy_wf|done]. }
  assert (Hw1 : world_wf w1).
  { intros g r. simpl. rewrite lookup_insert. case_decide; intros Hr; simplify_eq/=; [by split_and!; [|lia|]|].
    destruct (Hw _ _ Hr) as (? & ? & ?). split_and!; [done|lia|eauto with go]. }
  set (w2 := match next !! tag with Some m => _ | None => _ end).
  assert (Hw2 : world_wf w2 ∧ stateRevision w2 = clock).
  { subst w2. destruct (next !! tag); [done|]. by case_decide. }
  destruct Hw2 as [Hw2 Hc2]. split; [by apply announce_evictions_wf|].
  etrans; [exact Hle|]. rewrite <-Hc2. apply announce_evictions_clock.
Qed.

Lemma snapshot_prune_ok prune now rt key m (s : clocklog) :
  member_wf s.1 key m →
  s.1 ≤ (snapshot_prune prune now rt m s).2.1 ∧
  member_wf (snapshot_prune prune now rt m s).2.1 key (snapshot_prune prune now rt m s).1 ∧
  member_admissible (snapshot_prune prune now rt m s).1 = member_admissible m.
Proof.
  intros Hm. unfold snapshot_prune. destruct (prune && _); [|done].
  pose proof (member_wf_prune _ _ (gr_window rt) now _ Hm) as Hp.
  pose proof (member_admissible_prune (gr_window rt) now m) as Ha.
  destruct (pruneFailures (gr_window rt) now m) as [changed m1]. cbn [fst snd] in *.
  destruct changed; simpl; [|done]. split_and!; [lia| |done]. by apply (member_wf_touch s.1).
Qed.

Lemma snapshot_members_ok prune now rt (s : clocklog) :
  runtime_wf s.1 rt →
  let r := map_sweep (λ _ m s, snapshot_prune prune now rt m s) (gr_members rt) (s.1, []) in
  s.1 ≤ r.2.1 ∧ runtime_wf r.2.1 (set_members r.1 rt).
Proof.
  intros Hrt. cbn zeta.
  set (r := map_sweep _ _ _).
  assert (Hind : s.1 ≤ r.2.1 ∧ (∀ key m', r.1 !! key = Some m' → member_wf r.2.1 key m') ∧
    (∀ key m, (key, m) ∈ range (gr_members rt) →
       ∃ m', r.1 !! key = Some m' ∧ member_admissible m' = member_admissible m)).
  { apply (map_sweep_ind (λ l ms (c : clocklog), s.1 ≤ c.1 ∧
      (∀ key m', ms !! key = Some m' → member_wf c.1 key m') ∧
      (∀ key m, (key, m) ∈ l → ∃ m', ms !! key = Some m' ∧ member_admissible m' = member_admissible m))).
    - split_and!; [done|intros ??; by rewrite lookup_empty|set_solver].
    - intros l k a ms c Hka Hnew (Hle & Hms & Hadm).
      destruct (snapshot_prune_ok prune now rt k a c) as (Hle' & Hwf & Ha).
      { eapply member_wf_mono; [exact Hle|]. by apply (rw_members _ _ Hrt). }
      split_and!; [lia| |].
      + intros key m'. rewrite lookup_insert. case_decide; intros; simplify_eq; [done|].
        eapply member_wf_mono; [exact Hle'|]. by apply Hms.
      + intros key m [Hl|Hl]%elem_of_app.
        * destruct (Hadm _ _ Hl) as (m' & ? & ?). exists m'. split; [|done].
          rewrite lookup_insert_ne; [done|]. intros ->. apply Hnew.
          apply list_elem_of_fmap. by exists (key, m).
        * apply list_elem_of_singleton in Hl. simplify_eq. eexists. by rewrite lookup_insert_eq. }
  destruct Hind as (Hle & Hms & Hadm). split; [done|]. destruct Hrt. split; simpl; try done.
  destruct rw_current0 as [|(m & Hm & Ha)]; [by left|right].
  destruct (Hadm (gr_currentTag rt) m) as (m' & ? & ?); [by apply elem_of_range|].
  exists m'. split; [done|congruence].
Qed.

Lemma groupRuntimeSnapshots_wf prune now w :
  world_wf w →
  world_wf (groupRuntimeSnapshots prune now w).1 ∧
  stateRevision w ≤ stateRevision (groupRuntimeSnapshots prune now w).1.
Proof.
  intros Hw. unfold groupRuntimeSnapshots. cbn zeta. set (g := λ (_ : Z) rt s, _).
  set (r := map_sweep g _ _).
  assert (Hind : stateRevision w ≤ r.2.1.1 ∧ ∀ gid rt, r.1 !! gid = Some rt →
    gr_id rt = gid ∧ gr_ptr rt < nextPtr w ∧ runtime_wf r.2.1.1 rt).
  { apply (map_sweep_ind (λ _ store (s : clocklog * gmap Z GroupRuntimeSnapshot),
      stateRevision w ≤ s.1.1 ∧ ∀ gid rt, store !! gid = Some rt →
        gr_id rt = gid ∧ gr_ptr rt < nextPtr w ∧ runtime_wf s.1.1 rt)).
    - split; [done|]. intros ??. by rewrite lookup_empty.
    - intros l gid rt store s Hrt _ [Hle IH]. destruct (Hw _ _ Hrt) as (Hid & Hptr & Hwf).
      destruct (snapshot_members_ok prune now rt s.1) as [Hle' Hwf']; [eauto with go|].
      subst g. unfold snapshotGroupRuntime. simpl. split; [lia|]. intros gid' rt'.
      rewrite lookup_insert. case_decide; intros Hr; simplify_eq/=; [by split_and!|].
      destruct (IH _ _ Hr) as (? & ? & ?). split_and!; eauto with go. }
  destruct Hind as [Hle Hms]. split; [|exact Hle]. exact Hms.
Qed.

(** ** The revision clock never goes back. *)
Lemma RecordFailure_clock gid tag cause at_ now w :
  stateRevision w ≤ stateRevision (RecordFailure gid tag cause at_ now w).1.
Proof.
  unfold RecordFailure. destruct (groupRuntimeStore w !! gid) as [rt|]; [|done].
  destruct (gr_members rt !! tag) as [m|]; [|done]. destruct (gm_evicted m); [done|]. cbn zeta.
  case_decide; [done|]. cbn -[propagateEviction].
  match goal with |- _ ≤ stateRevision (if ?b then _ else _) => destruct b end; [|simpl; lia].
  etrans; [|apply propagateEviction_clock]. simpl. lia.
Qed.

Lemma RecordGroupHealthFailure_clock gid tag p cause at_ now w :
  stateRevision w ≤ stateRevision (RecordGroupHealthFailure gid tag p cause at_ now w).1.
Proof.
  unfold RecordGroupHealthFailure.
  destruct (groupRuntimeStore w !! gid) as [rt|]; [|apply RecordFailure_clock].
  destruct (gr_members rt !! tag) as [m|]; [|apply RecordFailure_clock].
  destruct (alreadyAppliedProbe p m) as [applied m1]. cbn zeta.
  destruct applied; [done|]. case_decide; [done|].
  etrans; [|apply RecordFailure_clock]. done.
Qed.

Lemma RecordHealthSuccess_clock gid tag p now w :
  stateRevision w ≤ stateRevision (RecordHealthSuccess gid tag p now w).1.
Proof.
  unfold RecordHealthSuccess.
  destruct (groupRuntimeStore w !! gid) as [rt|]; [|done].
  destruct (gr_members rt !! tag) as [m0|]; [|done].
  destruct (alreadyAppliedProbe p m0) as [applied m]. cbn zeta.
  destruct applied; [done|]. destruct (gm_evicted m).
  - destruct (negb _); [done|]. case_decide; [done|]. case_decide; [done|].
    etrans; [|apply recoverEverywhere_clock]. simpl. lia.
  - case_decide; [done|]. simpl. lia.
Qed.

Lemma RestoreGroupMember_clock gid nodeID w :
  stateRevision w ≤ stateRevision (RestoreGroupMember gid nodeID w).1.
Proof.
  unfold RestoreGroupMember. destruct (groupRuntimeStore w !! gid); [|done]. cbn [fst].
  by destruct (sweep_store_spec _ (set_marks (globalEvictedNodes w ∖ {[nodeID]}) w)
    (clear_runtime_ok (λ m, bool_decide (gm_nodeID m = nodeID)) nodeID)) as [[? _] _].
Qed.

Lemma CurrentTag_clock gid now w : stateRevision (CurrentTag gid now w).1 = stateRevision w.
Proof.
  unfold CurrentTag. destruct (groupRuntimeStore w !! gid) as [rt|]; [|done]. cbn zeta.
  destruct (gr_members rt !! gr_currentTag rt) as [m|]; [|by case_decide].
  destruct (member_admissible m); [|by case_decide].
  case_decide; [by case_match|]. by case_decide.
Qed.

Lemma NotifyEvents_clock events now w : stateRevision w ≤ stateRevision (NotifyEvents events now w).
Proof.
  unfold NotifyEvents. revert w. induction events as [|e es IH]; intros w; simpl; [done|].
  etrans; [|apply IH]. destruct (ev_Evicted e); [|done].
  etrans; [|apply propagateEviction_clock]. done.
Qed.

(** ** The runtime as a state machine: the operations, and the completion of a
    silent reconciliation, which announces the events it returned earlier. *)
Inductive gop : world → world → Prop :=
| GRegister w gid fw ft ct ms rp now : gop w (Register gid fw ft ct ms rp now w).1
| GUnregister w gid token : gop w (Unregister gid token w)
| GReset w : gop w (Reset w)
| GReconcile w gid u now : gop w (ReconcileSilent gid u now w).1
| GFailure w gid tag cause at_ now : gop w (RecordFailure gid tag cause at_ now w).1
| GProbeFailure w gid tag p cause at_ now : gop w (RecordGroupHealthFailure gid tag p cause at_ now w).1
| GSuccess w gid tag p now : gop w (RecordHealthSuccess gid tag p now w).1
| GRestore w gid nodeID : gop w (RestoreGroupMember gid nodeID w).1
| GAvailable w gid tag now : gop w (MemberAvailable gid tag now w).1
| GCurrentTag w gid now : gop w (CurrentTag gid now w).1
| GSetCurrentTag w gid tag now : gop w (SetCurrentTag gid tag now w)
| GSnapshots w prune now : gop w (groupRuntimeSnapshots prune now w).1.

Inductive gstep : world → world → Prop :=
| GOp w w' : gop w w' → gstep w w'
| GNotifyEvents w es now : gstep w (NotifyEvents es now w).

Definition reachable (w : world) : Prop := rtc gstep empty_world w.

Lemma gop_wf w w' :
  gop w w' → world_wf w → 0 ≤ stateRevision w → world_wf w' ∧ stateRevision w ≤ stateRevision w'.
Proof.
  intros Hstep Hw H0. destruct Hstep.
  - by apply Register_wf.
  - split; [by apply Unregister_wf|]. unfold Unregister. by repeat case_match.
  - split; [apply Reset_wf|done].
  - by apply ReconcileSilent_wf.
  - split; [by apply RecordFailure_wf|apply RecordFailure_clock].
  - split; [by apply RecordGroupHealthFailure_wf|apply RecordGroupHealthFailure_clock].
  - split; [by apply RecordHealthSuccess_wf|apply RecordHealthSuccess_clock].
  - split; [by apply RestoreGroupMember_wf|apply RestoreGroupMember_clock].
  - split; [by apply MemberAvailable_wf|]. unfold MemberAvailable. by repeat case_match.
  - split; [by apply CurrentTag_wf|]. by rewrite CurrentTag_clock.
  - split; [by apply SetCurrentTag_wf|]. unfold SetCurrentTag. by repeat case_match.
  - by apply groupRuntimeSnapshots_wf.
Qed.

Lemma gstep_wf w w' :
  gstep w w' → world_wf w → 0 ≤ stateRevision w → world_wf w' ∧ stateRevision w ≤ stateRevision w'.
Proof.
  intros [|] Hw H0; [by apply gop_wf|]. split; [by apply NotifyEvents_wf|apply NotifyEvents_clock].
Qed.

Lemma gsteps_wf w w' :
  rtc gstep w w' → world_wf w → 0 ≤ stateRevision w → world_wf w' ∧ stateRevision w ≤ stateRevision w'.
Proof.
  induction 1 as [|w1 w2 w3 Hstep _ IH]; intros Hw H0; [done|].
  destruct (gstep_wf _ _ Hstep Hw H0) as [? ?]. destruct IH; [done|lia|]. split; [done|lia].
Qed.

Lemma empty_world_wf : world_wf empty_world.
Proof. intros g r. simpl. by rewrite lookup_empty. Qed.
End invariant.
