(* ===== verification/GroupEviction.v ===== *)
(** Properties of the group runtime about eviction and recovery: a node's
    eviction reaches every group that holds it, its recovery clears it
    everywhere, and a recovery takes exactly the configured number of distinct
    successful probes after the cooldown. *)

From S2P Require Import Prelude GroupMember GroupRuntime GroupInvariant.

(** A node is a member of a group under one tag (what [expand] and
    [ReconcileSilent]'s index by node id rely on). *)
Definition unique_nodes (w : world) : Prop :=
  ∀ gid rt k1 k2 m1 m2, groupRuntimeStore w !! gid = Some rt →
    gr_members rt !! k1 = Some m1 → gr_members rt !! k2 = Some m2 →
    gm_nodeID m1 = gm_nodeID m2 → k1 = k2.

Definition unique_nodesb (w : world) : bool :=
  forallb (λ gr, bool_decide (NoDup (gm_nodeID ∘ snd <$> map_to_list (gr_members gr.2))))
    (map_to_list (groupRuntimeStore w)).

Lemma unique_nodesb_sound w : unique_nodesb w = true → unique_nodes w.
Proof.
  unfold unique_nodesb. rewrite forallb_forall. intros Hall gid rt k1 k2 m1 m2 Hrt Hm1 Hm2 Hid.
  assert (Hin : In (gid, rt) (map_to_list (groupRuntimeStore w)))
    by by apply list_elem_of_In, elem_of_map_to_list.
  specialize (Hall _ Hin). apply bool_decide_eq_true in Hall. simpl in Hall.
  apply elem_of_map_to_list, list_elem_of_lookup in Hm1 as [i Hi].
  apply elem_of_map_to_list, list_elem_of_lookup in Hm2 as [j Hj].
  assert (i = j) as <-; [|congruence].
  apply (NoDup_lookup _ i j (gm_nodeID m1) Hall); rewrite list_lookup_fmap; [by rewrite Hi|].
  rewrite Hj, Hid. done.
Qed.

Section eviction.
Context `{!RangeOrder Z, !RangeOrder string}.

(** ** One locked runtime *)
Lemma propagate_runtime_spec nodeID e at_ rt s k m :
  (∀ key m, gr_members rt !! key = Some m → gm_tag m = key) →
  (∀ k1 k2 m1 m2, gr_members rt !! k1 = Some m1 → gr_members rt !! k2 = Some m2 →
     gm_nodeID m1 = gm_nodeID m2 → k1 = k2) →
  gr_members rt !! k = Some m →
  ∃ m', gr_members (propagate_runtime nodeID e at_ rt s).1 !! k = Some m' ∧
    gm_nodeID m' = gm_nodeID m ∧
    gm_evicted m' = gm_evicted m || bool_decide (gm_nodeID m = nodeID).
Proof.
  intros Htag Huniq Hm. unfold propagate_runtime.
  destruct (range_find _ _) as [[key n]|] eqn:Hf.
  - apply range_find_Some in Hf as [Hn Hlive]. apply andb_true_iff in Hlive as [Hid Hlive].
    apply bool_decide_eq_true in Hid. apply negb_true_iff in Hlive.
    set (n' := (touch s.1 (set_successes 0 (set_lastError e (set_eviction true at_ n)))).1).
    exists (if decide (key = k) then n' else m).
    assert (Hmem : gr_members (if bool_decide (gr_currentTag rt = gm_tag n)
      then set_currentTag "" (set_member key n' rt) else set_member key n' rt) !! k =
      Some (if decide (key = k) then n' else m)).
    { destruct (decide (key = k)) as [->|Hne]; case_bool_decide; simpl;
        rewrite ?lookup_insert_eq, ?lookup_insert_ne; done. }
    split; [exact Hmem|]. destruct (decide (key = k)) as [->|Hne].
    + simplify_eq. rewrite (bool_decide_true (gm_nodeID m = _)), orb_true_r by done. done.
    + split; [done|]. rewrite bool_decide_false, orb_false_r; [done|].
      intros Heq. apply Hne. eapply Huniq; [done..|congruence].
  - exists m. split_and!; [done|done|].
    pose proof (range_find_None _ _ Hf _ _ Hm) as Hl. unfold holds_live in Hl.
    case_bool_decide; [|by rewrite orb_false_r]. simpl in Hl. by destruct (gm_evicted m).
Qed.

Lemma propagateEviction_spec nodeID e at_ now w gid rt k m :
  world_wf w → unique_nodes w → nodeID ≠ 0 →
  groupRuntimeStore w !! gid = Some rt → gr_members rt !! k = Some m →
  ∃ rt' m', groupRuntimeStore (propagateEviction nodeID e at_ now w) !! gid = Some rt' ∧
    gr_members rt' !! k = Some m' ∧ gm_nodeID m' = gm_nodeID m ∧
    gm_evicted m' = gm_evicted m || bool_decide (gm_nodeID m = nodeID).
Proof.
  intros Hw Hu Hnz Hrt Hm. unfold propagateEviction. rewrite decide_False by done.
  set (at' := if GoTime.isZero at_ then now else at_).
  destruct (sweep_store_spec _ w (propagate_runtime_ok nodeID e at')) as [_ Hspec].
  specialize (Hspec gid). rewrite Hrt in Hspec. destruct Hspec as (s & _ & _ & Heq).
  destruct (propagate_runtime_spec nodeID e at' rt s k m) as (m' & ? & ? & ?); [| |done|eauto 10].
  - intros key n Hn. by apply (rw_members _ _ (runtime_wf_of _ _ _ Hw Hrt)).
  - intros k1 k2 m1 m2. by apply (Hu gid rt).
Qed.

(** Every member of the result was there before (no member appears). *)
Lemma propagateEviction_members nodeID e at_ now w gid rt' k m' :
  groupRuntimeStore (propagateEviction nodeID e at_ now w) !! gid = Some rt' →
  gr_members rt' !! k = Some m' →
  ∃ rt m, groupRuntimeStore w !! gid = Some rt ∧ gr_members rt !! k = Some m.
Proof.
  unfold propagateEviction. case_decide; [eauto|]. cbn zeta.
  set (at' := if GoTime.isZero at_ then now else at_).
  destruct (sweep_store_spec _ w (propagate_runtime_ok nodeID e at')) as [_ Hspec].
  specialize (Hspec gid). destruct (groupRuntimeStore w !! gid) as [rt|]; [|congruence].
  destruct Hspec as (s & _ & _ & Heq). rewrite Heq. intros ? Hm'. simplify_eq.
  exists rt. unfold propagate_runtime in Hm'.
  destruct (range_find _ _) as [[key n]|] eqn:Hf; [|eauto].
  apply range_find_Some in Hf as [Hn _]. cbn zeta in Hm'.
  destruct (decide (key = k)) as [->|Hne]; [eauto|].
  exists m'. split; [done|]. revert Hm'. simpl. case_bool_decide; simpl; by rewrite lookup_insert_ne.
Qed.

(** The world right after [RecordFailure] updated the member it was told about. *)
Lemma evicted_not_current w gid rt k m :
  world_wf w → groupRuntimeStore w !! gid = Some rt → gr_members rt !! k = Some m →
  gm_evicted m = true → gr_currentTag rt = k → k = "".
Proof.
  intros Hw Hrt Hm He Hk. destruct (rw_current _ _ (runtime_wf_of _ _ _ Hw Hrt)) as [|(n & Hn & Ha)];
    [congruence|]. rewrite Hk in Hn. simplify_eq. unfold member_admissible in Ha.
  by rewrite He, andb_false_r in Ha.
Qed.
Lemma propagateEviction_marks nodeID e at_ now w :
  globalEvictedNodes (propagateEviction nodeID e at_ now w) = globalEvictedNodes w.
Proof. unfold propagateEviction. by case_decide. Qed.

Lemma gr_members_if_current (b : bool) rt :
  gr_members (if b then set_currentTag "" rt else rt) = gr_members rt.
Proof. by destruct b. Qed.

(** Propagation keeps every member in place, with its node, its ring and its
    group's policy. *)
Lemma propagateEviction_keeps nodeID e at_ now w gid rt k m :
  groupRuntimeStore w !! gid = Some rt → gr_members rt !! k = Some m →
  ∃ rt' m', groupRuntimeStore (propagateEviction nodeID e at_ now w) !! gid = Some rt' ∧
    gr_members rt' !! k = Some m' ∧ gm_nodeID m' = gm_nodeID m ∧
    gm_appliedProbes m' = gm_appliedProbes m ∧ (gm_evicted m = true → m' = m).
Proof.
  intros Hrt Hm. unfold propagateEviction. case_decide; [eauto 10|]. cbn zeta.
  set (at' := if GoTime.isZero at_ then now else at_).
  destruct (sweep_store_spec _ w (propagate_runtime_ok nodeID e at')) as [_ Hspec].
  specialize (Hspec gid). rewrite Hrt in Hspec. destruct Hspec as (s & _ & _ & Heq).
  revert Heq. unfold propagate_runtime.
  destruct (range_find _ _) as [[key n]|] eqn:Hf; [|intros Heq; eauto 10].
  apply range_find_Some in Hf as [Hn Hlive]. apply andb_true_iff in Hlive as [Hid Hlive].
  cbn zeta. simpl. intros Heq. rewrite Heq. destruct (decide (key = k)) as [->|Hne].
  - assert (n = m) as -> by congruence. eexists _, _. split; [done|].
    assert (Hne : gm_evicted m = true → ∀ P : Prop, P) by (by destruct (gm_evicted m)).
    rewrite gr_members_if_current. simpl. rewrite lookup_insert_eq.
    split_and!; [done|done|done|intros He'; by apply Hne].
  - eexists _, m. split; [done|]. rewrite gr_members_if_current. simpl. by rewrite lookup_insert_ne.
Qed.

Lemma propagateEviction_window nodeID e at_ now w gid rt rt' :
  groupRuntimeStore w !! gid = Some rt →
  groupRuntimeStore (propagateEviction nodeID e at_ now w) !! gid = Some rt' →
  gr_window rt' = gr_window rt.
Proof.
  intros Hrt. unfold propagateEviction. case_decide; [congruence|]. cbn zeta.
  set (at' := if GoTime.isZero at_ then now else at_).
  destruct (sweep_store_spec _ w (propagate_runtime_ok nodeID e at')) as [_ Hspec].
  specialize (Hspec gid). rewrite Hrt in Hspec. destruct Hspec as (s & _ & _ & Heq).
  rewrite Heq. intros [= <-]. unfold propagate_runtime.
  destruct (range_find _ _) as [[key n]|]; [|done]. cbn zeta. simpl. by destruct (bool_decide _).
Qed.

(** [RecordFailure] keeps the member in place, and its ring. *)
Lemma RecordFailure_member gid tag cause at_ now w rt m :
  groupRuntimeStore w !! gid = Some rt → gr_members rt !! tag = Some m →
  ∃ rt' m', groupRuntimeStore (RecordFailure gid tag cause at_ now w).1 !! gid = Some rt' ∧
    gr_members rt' !! tag = Some m' ∧ gm_nodeID m' = gm_nodeID m ∧
    gm_appliedProbes m' = gm_appliedProbes m.
Proof.
  intros Hrt Hm. unfold RecordFailure. rewrite Hrt, Hm. destruct (gm_evicted m).
  { eexists _, _. simpl. rewrite lookup_insert_eq. split; [done|]. simpl. by rewrite lookup_insert_eq. }
  cbn zeta. case_decide.
  { eexists _, _. simpl. rewrite lookup_insert_eq. split; [done|]. simpl. by rewrite lookup_insert_eq. }
  cbn [touch fst snd].
  set (m4 := set_revision _ _). set (rt2 := if bool_decide (gr_currentTag rt = tag) then _ else _).
  assert (Hrt2 : gr_members rt2 !! tag = Some m4)
    by (subst rt2; case_bool_decide; simpl; apply lookup_insert_eq).
  assert (Hm4 : gm_nodeID m4 = gm_nodeID m ∧ gm_appliedProbes m4 = gm_appliedProbes m).
  { subst m4. simpl. split; by repeat case_match. }
  destruct Hm4 as [Hid Hps].
  match goal with |- context [if ?b then propagateEviction _ _ _ _ _ else _] => destruct b end.
  - match goal with |- context [propagateEviction ?n ?e ?a ?t ?w1] =>
      destruct (propagateEviction_keeps n e a t w1 gid rt2 tag m4)
        as (rt' & m' & ? & ? & ? & ? & _) end; [by simpl; rewrite lookup_insert_eq|done|].
    exists rt', m'. split_and!; [done|done|congruence|congruence].
  - exists rt2, m4. simpl. by rewrite lookup_insert_eq.
Qed.

(** ** The failure that crosses the threshold *)
Lemma RecordFailure_evicts gid tag cause at_ now w rt m :
  world_wf w → unique_nodes w →
  groupRuntimeStore w !! gid = Some rt → gr_members rt !! tag = Some m →
  gm_evicted m = false →
  let history := within (GoTime.unix (GoTime.add at_ (- gr_window rt))) (gm_failureHistory m) in
  last history ≠ Some (GoTime.unix at_) →
  gr_threshold rt ≤ Z.of_nat (length history) + 1 →
  ∃ w1 e, RecordFailure gid tag cause at_ now w = (propagateEviction (gm_nodeID m) e at_ now w1, true) ∧
    world_wf w1 ∧ unique_nodes w1 ∧ globalEvictedNodes w1 = {[gm_nodeID m]} ∪ globalEvictedNodes w.
Proof.
  intros Hw Hu Hrt Hm He history Hlast Hthr.
  unfold RecordFailure. rewrite Hrt, Hm, He. cbn zeta. fold history.
  rewrite decide_False by done.
  set (m2 := match cause with Some c => _ | None => _ end).
  assert (Hm2 : gm_failureHistory m2 = history ++ [GoTime.unix at_] ∧ gm_nodeID m2 = gm_nodeID m)
    by (subst m2; by destruct cause).
  destruct Hm2 as [Hh2 Hn2]. rewrite (bool_decide_true (gr_threshold rt ≤ _))
    by (rewrite Hh2, length_app; simpl; lia).
  cbn [touch fst snd]. eexists _, _. split; [by rewrite <-Hn2|].
  set (m4 := set_revision _ _). set (rt2 := if bool_decide (gr_currentTag rt = tag) then _ else _).
  assert (Hrt2 : gr_members rt2 = <[tag := m4]> (gr_members rt)) by (subst rt2; by case_bool_decide).
  split_and!.
  - apply world_wf_marks, world_wf_notify. subst rt2.
    eapply world_wf_put_clock; [done|done|by case_bool_decide|by case_bool_decide|lia|].
    eapply (runtime_wf_drop_current (stateRevision w)); [lia|by eapply runtime_wf_of|done| |].
    + subst m4. apply (member_wf_touch (stateRevision w)).
      eapply member_wf_frame; [by eapply member_wf_of|by subst m2; destruct cause..].
    + apply bool_decide_eq_false.
  - intros g r k1 k2 n1 n2. simpl. rewrite lookup_insert. case_decide; [|by apply Hu].
    intros [= <-]. rewrite Hrt2, !lookup_insert.
    assert (Hm4 : gm_nodeID m4 = gm_nodeID m) by (subst m4 m2; by destruct cause).
    repeat case_decide; intros; simplify_eq; try done; [| |by eapply (Hu _ rt)].
    + eapply (Hu _ rt _ _ m n2); [done..|congruence].
    + eapply (Hu _ rt _ _ n1 m); [done..|congruence].
  - simpl. by rewrite Hn2.
Qed.

(** C7: when a reported failure fills the window up to the threshold, the node
    is evicted: the call answers true, the node is marked as evicted for groups
    that register it later, and in every group of the process each member that
    holds the node is evicted, is not the group's current member and is refused
    by the routing gates. *)
Theorem eviction_reaches_every_group gid tag cause at_ now w rt m :
  world_wf w → unique_nodes w →
  groupRuntimeStore w !! gid = Some rt → gr_members rt !! tag = Some m →
  gm_evicted m = false → gm_nodeID m ≠ 0 →
  last (within (GoTime.unix (GoTime.add at_ (- gr_window rt))) (gm_failureHistory m))
    ≠ Some (GoTime.unix at_) →
  gr_threshold rt ≤
    Z.of_nat (length (within (GoTime.unix (GoTime.add at_ (- gr_window rt))) (gm_failureHistory m))) + 1 →
  let w' := (RecordFailure gid tag cause at_ now w).1 in
  (RecordFailure gid tag cause at_ now w).2 = true ∧
  gm_nodeID m ∈ globalEvictedNodes w' ∧
  (∃ rt' m', groupRuntimeStore w' !! gid = Some rt' ∧ gr_members rt' !! tag = Some m' ∧
     gm_nodeID m' = gm_nodeID m) ∧
  ∀ g r k n, groupRuntimeStore w' !! g = Some r → gr_members r !! k = Some n →
    gm_nodeID n = gm_nodeID m →
    gm_evicted n = true ∧ (gr_currentTag r = k → k = "") ∧
    MemberNotEvicted g k w' = false ∧ ∀ t, (MemberAvailable g k t w').2 = false.
Proof.
  intros Hw Hu Hrt Hm He Hnz Hlast Hthr w'.
  pose proof (RecordFailure_wf gid tag cause at_ now w Hw) as Hw'. fold w' in Hw'.
  assert (Hstill : ∃ w1 e, w' = propagateEviction (gm_nodeID m) e at_ now w1 ∧
    (RecordFailure gid tag cause at_ now w).2 = true ∧ world_wf w1 ∧ unique_nodes w1 ∧
    globalEvictedNodes w1 = {[gm_nodeID m]} ∪ globalEvictedNodes w).
  { destruct (RecordFailure_evicts gid tag cause at_ now w rt m) as (w1 & e & Heq & ? & ? & ?); [done..|].
    exists w1, e. subst w'. by rewrite Heq. }
  destruct Hstill as (w1 & e & Heq & Hret & Hw1 & Hu1 & Hmarks).
  split_and!; [done| | |].
  - rewrite Heq, propagateEviction_marks, Hmarks. set_solver.
  - destruct (RecordFailure_member gid tag cause at_ now w rt m) as (rt' & m' & ? & ? & ? & _); [done..|].
    by exists rt', m'.
  - intros g r k n Hr Hn Hid.
    assert (Hev : gm_evicted n = true).
    { rewrite Heq in Hr.
      destruct (propagateEviction_members _ _ _ _ _ _ _ _ _ Hr Hn) as (r0 & n0 & Hr0 & Hn0).
      destruct (propagateEviction_spec (gm_nodeID m) e at_ now w1 g r0 k n0)
        as (r' & n' & Hr' & Hn' & Hid' & Hev); [done..|].
      simplify_eq. rewrite Hev, (bool_decide_true (gm_nodeID n0 = _)), orb_true_r; congruence. }
    split_and!; [done|by apply (evicted_not_current w' g r k n)| |].
    + unfold MemberNotEvicted, member_admissible. by rewrite Hr, Hn, Hev, andb_false_r.
    + intros t. unfold MemberAvailable, member_ready. rewrite Hr, Hn, Hev. simpl.
      by rewrite Hev, andb_false_r.
Qed.
(** ** Recovery *)

(** What a recovery leaves of a member that was evicted. *)
Record cleared (rev : Z) (m : groupMemberRuntime) : Prop := {
  cl_evicted : gm_evicted m = false;
  cl_history : gm_failureHistory m = [];
  cl_lastError : gm_lastError m = "";
  cl_successes : gm_recoverySuccesses m = 0;
  cl_revision : rev < gm_revision m
}.

Lemma recover_runtime_spec nodeID origin rt s k m' :
  gr_members (recover_runtime nodeID origin rt s).1 !! k = Some m' →
  ∃ m, gr_members rt !! k = Some m ∧ gm_nodeID m' = gm_nodeID m ∧
    if decide (gr_id rt ≠ origin ∧ gm_nodeID m = nodeID ∧ gm_evicted m = true)
    then cleared s.1 m' else m' = m.
Proof.
  unfold recover_runtime. destruct (decide (gr_id rt = origin)) as [Ho|Ho].
  { simpl. intros Hm. exists m'. split_and!; [done|done|]. case_decide; [|done]. naive_solver. }
  rewrite clear_runtime_fst.
  destruct (clear_members_spec (λ m, bool_decide (gm_nodeID m = nodeID) && gm_evicted m) rt s.1)
    as (_ & Hk & _). intros Hm'. specialize (Hk k).
  destruct (gr_members rt !! k) as [m|]; [|congruence]. exists m. split; [done|].
  case_bool_decide as Hid; cbn [andb] in Hk; [destruct (gm_evicted m) eqn:He|].
  - destruct Hk as (rev & Hrev & Heq). rewrite Heq in Hm'. injection Hm' as <-.
    split; [done|]. rewrite decide_True by done. by split; try done; simpl; destruct Hrev.
  - simplify_eq. split; [done|]. rewrite decide_False; [done|naive_solver].
  - simplify_eq. split; [done|]. rewrite decide_False; [done|naive_solver].
Qed.

Lemma recoverEverywhere_spec nodeID origin w g r' k m' :
  nodeID ≠ 0 →
  groupRuntimeStore (recoverEvictedNodeEverywhere nodeID origin w) !! g = Some r' →
  gr_members r' !! k = Some m' →
  ∃ r m, groupRuntimeStore w !! g = Some r ∧ gr_members r !! k = Some m ∧
    gm_nodeID m' = gm_nodeID m ∧
    if decide (gr_id r ≠ origin ∧ gm_nodeID m = nodeID ∧ gm_evicted m = true)
    then cleared (stateRevision w) m' else m' = m.
Proof.
  intros Hnz. unfold recoverEvictedNodeEverywhere. rewrite decide_False by done.
  set (w0 := set_marks _ w).
  destruct (sweep_store_spec _ w0 (recover_runtime_ok nodeID origin)) as [_ Hspec].
  specialize (Hspec g). intros Hr' Hm'. change (groupRuntimeStore w0) with (groupRuntimeStore w) in *.
  destruct (groupRuntimeStore w !! g) as [r|]; [|congruence].
  destruct Hspec as (s & [Hs _] & _ & Heq). simplify_eq. simpl in Hs.
  apply recover_runtime_spec in Hm' as (m & Hm & Hid & Hcl). exists r, m. split_and!; [done..|].
  case_decide; [|done]. destruct Hcl. split; try done. lia.
Qed.

Lemma recoverEverywhere_marks nodeID origin w :
  globalEvictedNodes (recoverEvictedNodeEverywhere nodeID origin w) =
  if decide (nodeID = 0) then globalEvictedNodes w else globalEvictedNodes w ∖ {[nodeID]}.
Proof. unfold recoverEvictedNodeEverywhere. by case_decide. Qed.

(** The successful probe that completes the streak, past the cooldown. *)
Lemma RecordHealthSuccess_recovers gid tag p now w rt m0 :
  groupRuntimeStore w !! gid = Some rt → gr_members rt !! tag = Some m0 →
  gm_evicted m0 = true → p = "" ∨ p ∉ gm_appliedProbes m0 →
  rp_Enabled (gr_recovery rt) = true →
  rp_Cooldown (gr_recovery rt) ≤ GoTime.sub now (gm_evictedAt m0) →
  rp_SuccessThreshold (gr_recovery rt) ≤ gm_recoverySuccesses m0 + 1 →
  ∃ m1 w1, RecordHealthSuccess gid tag p now w = (recoverEvictedNodeEverywhere (gm_nodeID m0) gid w1, true) ∧
    gm_nodeID m1 = gm_nodeID m0 ∧ gm_appliedProbes m1 = gm_appliedProbes (alreadyAppliedProbe p m0).2 ∧
    cleared (stateRevision w) m1 ∧
    groupRuntimeStore w1 = <[gid := set_member tag m1 rt]> (groupRuntimeStore w) ∧
    stateRevision w1 = stateRevision w + 1 ∧
    globalEvictedNodes w1 = globalEvictedNodes w ∖ {[gm_nodeID m0]}.
Proof.
  intros Hrt Hm He Hp Hen Hcool Hthr. unfold RecordHealthSuccess. rewrite Hrt, Hm.
  destruct (alreadyAppliedProbe p m0) as [applied m] eqn:Hap.
  assert (applied = false) as ->.
  { destruct applied; [|done]. apply alreadyAppliedProbe_true in Hap. naive_solver. }
  pose proof (alreadyAppliedProbe_frame p m0) as (_ & Hn & _ & _ & Hev & _ & Hat & Hsu & _).
  rewrite Hap in Hn, Hev, Hat, Hsu. cbn [snd] in *. cbn zeta.
  rewrite Hev, He, Hen, Hat, Hsu. simpl negb. cbn iota.
  rewrite decide_False by lia. cbn [gm_recoverySuccesses set_successes].
  rewrite decide_False by lia. cbn [touch clearMemberEviction].
  exists (set_revision (stateRevision w + 1)
    (clearMemberEviction (set_successes (gm_recoverySuccesses m0 + 1) m))).
  eexists. split; [by simpl; rewrite Hn|]. simpl. rewrite Hn. split_and!; try done.
  split; simpl; (done || lia).
Qed.

(** The success that completes a recovery (policy enabled, cooldown over,
    streak long enough, probe not replayed) answers true, removes the node's
    eviction mark, and in every group of the process clears every evicted member
    holding the node under a revision newer than any before the call; every
    other member of every group is left exactly as it was. *)
Theorem recovery_clears_every_group gid tag p now w rt m :
  world_wf w → unique_nodes w →
  groupRuntimeStore w !! gid = Some rt → gr_members rt !! tag = Some m →
  gm_evicted m = true → gm_nodeID m ≠ 0 → p = "" ∨ p ∉ gm_appliedProbes m →
  rp_Enabled (gr_recovery rt) = true →
  rp_Cooldown (gr_recovery rt) ≤ GoTime.sub now (gm_evictedAt m) →
  rp_SuccessThreshold (gr_recovery rt) ≤ gm_recoverySuccesses m + 1 →
  let w' := (RecordHealthSuccess gid tag p now w).1 in
  (RecordHealthSuccess gid tag p now w).2 = true ∧
  gm_nodeID m ∉ globalEvictedNodes w' ∧
  ∀ g r' k n', groupRuntimeStore w' !! g = Some r' → gr_members r' !! k = Some n' →
    ∃ r n, groupRuntimeStore w !! g = Some r ∧ gr_members r !! k = Some n ∧
      if decide (gm_nodeID n = gm_nodeID m ∧ gm_evicted n = true)
      then cleared (stateRevision w) n' else n' = n.
Proof.
  intros Hw Hu Hrt Hm He Hnz Hp Hen Hcool Hthr w'.
  destruct (RecordHealthSuccess_recovers gid tag p now w rt m)
    as (m1 & w1 & Heq & Hid1 & _ & Hcl1 & Hstore & Hrev & Hmarks); [done..|].
  subst w'. rewrite Heq. cbn [fst snd]. split_and!; [done| |].
  { rewrite recoverEverywhere_marks, decide_False by done. set_solver. }
  intros g r' k n' Hr' Hn'.
  destruct (recoverEverywhere_spec _ _ _ _ _ _ _ Hnz Hr' Hn') as (r1 & n1 & Hr1 & Hn1 & _ & Hcl).
  destruct (Hw _ _ Hrt) as (Hgid & _ & _). rewrite Hstore in Hr1.
  destruct (decide (gid = g)) as [<-|Hg].
  - rewrite lookup_insert_eq in Hr1. injection Hr1 as <-. simpl in Hn1, Hcl.
    rewrite decide_False in Hcl by naive_solver. subst n'. exists rt.
    destruct (decide (tag = k)) as [<-|Hk].
    + rewrite lookup_insert_eq in Hn1. injection Hn1 as <-. exists m. split_and!; [done..|].
      by rewrite decide_True by done.
    + rewrite lookup_insert_ne in Hn1 by done. exists n1. split_and!; [done..|].
      rewrite decide_False; [done|]. intros [Hsame _]. apply Hk. by eapply (Hu gid rt tag k m n1).
  - rewrite lookup_insert_ne in Hr1 by done.
    exists r1, n1. split_and!; [done..|]. destruct (Hw _ _ Hr1) as (Hid & _ & _).
    rewrite Hid in Hcl. destruct (decide (gm_nodeID n1 = gm_nodeID m ∧ gm_evicted n1 = true)).
    + rewrite decide_True in Hcl by naive_solver. destruct Hcl. split; try done. lia.
    + rewrite decide_False in Hcl by naive_solver. done.
Qed.
(** The recovering group itself is skipped by the sweep. *)
Lemma recoverEverywhere_origin nodeID origin w g r :
  groupRuntimeStore w !! g = Some r → gr_id r = origin →
  ∃ r', groupRuntimeStore (recoverEvictedNodeEverywhere nodeID origin w) !! g = Some r' ∧
    gr_members r' = gr_members r.
Proof.
  intros Hr Ho. unfold recoverEvictedNodeEverywhere. case_decide; [eauto|].
  set (w0 := set_marks _ w).
  destruct (sweep_store_spec _ w0 (recover_runtime_ok nodeID origin)) as [_ Hspec].
  specialize (Hspec g). simpl in Hspec. rewrite Hr in Hspec. destruct Hspec as (s & _ & _ & Heq).
  exists (recover_runtime nodeID origin r s).1. split; [exact Heq|].
  unfold recover_runtime. by rewrite decide_True by done.
Qed.

(** ** The streak *)
Definition runSuccesses (gid : Z) (tag : string) (ps : list (string * Z)) (w : world) : world :=
  foldl (λ w p, (RecordHealthSuccess gid tag p.1 p.2 w).1) w ps.

(** A success that does not complete the streak only counts. *)
Lemma RecordHealthSuccess_counts gid tag p now w rt m0 :
  groupRuntimeStore w !! gid = Some rt → gr_members rt !! tag = Some m0 →
  gm_evicted m0 = true → p ∉ gm_appliedProbes m0 →
  rp_Enabled (gr_recovery rt) = true →
  rp_Cooldown (gr_recovery rt) ≤ GoTime.sub now (gm_evictedAt m0) →
  gm_recoverySuccesses m0 + 1 < rp_SuccessThreshold (gr_recovery rt) →
  RecordHealthSuccess gid tag p now w =
    (put_runtime gid (set_member tag
       (set_successes (gm_recoverySuccesses m0 + 1) (alreadyAppliedProbe p m0).2) rt) w, false).
Proof.
  intros Hrt Hm He Hp Hen Hcool Hthr. unfold RecordHealthSuccess. rewrite Hrt, Hm.
  destruct (alreadyAppliedProbe p m0) as [applied m] eqn:Hap.
  assert (applied = false) as ->.
  { destruct applied; [|done]. apply alreadyAppliedProbe_true in Hap. naive_solver. }
  pose proof (alreadyAppliedProbe_frame p m0) as (_ & Hn & _ & _ & Hev & _ & Hat & Hsu & _).
  rewrite Hap in Hn, Hev, Hat, Hsu. cbn [snd] in *. cbn zeta.
  rewrite Hev, He, Hen, Hat, Hsu. simpl negb. cbn iota.
  rewrite decide_False by lia. cbn [gm_recoverySuccesses set_successes].
  by rewrite decide_True by lia.
Qed.

Lemma alreadyAppliedProbe_ring_incl p q m :
  q ∈ gm_appliedProbes (alreadyAppliedProbe p m).2 → q = p ∨ q ∈ gm_appliedProbes m.
Proof.
  unfold alreadyAppliedProbe. case_decide; [by right|]. case_decide; [by right|]. simpl.
  rewrite elem_of_app, list_elem_of_singleton. intros [Hq|Hq]; [right|by left].
  case_decide; [|done]. rewrite <-(take_drop 1 (gm_appliedProbes m)), elem_of_app. by right.
Qed.

(** The member during an incomplete streak. *)
Lemma streak_prefix gid tag ps w rt m :
  groupRuntimeStore w !! gid = Some rt → gr_members rt !! tag = Some m →
  gm_evicted m = true → gm_recoverySuccesses m = 0 → rp_Enabled (gr_recovery rt) = true →
  NoDup ps.*1 → Forall (λ p, p ∉ gm_appliedProbes m) ps.*1 →
  Forall (λ p : string * Z, rp_Cooldown (gr_recovery rt) ≤ GoTime.sub p.2 (gm_evictedAt m)) ps →
  Z.of_nat (length ps) < rp_SuccessThreshold (gr_recovery rt) →
  let w' := runSuccesses gid tag ps w in
  stateRevision w' = stateRevision w ∧
  ∃ m', groupRuntimeStore w' !! gid = Some (set_member tag m' rt) ∧
    gm_evicted m' = true ∧ gm_recoverySuccesses m' = Z.of_nat (length ps) ∧
    gm_evictedAt m' = gm_evictedAt m ∧ gm_nodeID m' = gm_nodeID m ∧
    (∀ q, q ∈ gm_appliedProbes m' → q ∈ ps.*1 ∨ q ∈ gm_appliedProbes m).
Proof.
  intros Hrt Hm He Hz Hen. cbn zeta. induction ps as [|[p now] ps IH] using rev_ind; simpl.
  { intros _ _ _ Hlt. split; [done|]. exists m. unfold set_member. rewrite (insert_id _ _ _ Hm).
    split_and!; [by destruct rt|done|done|done|done|by right]. }
  rewrite fmap_app, length_app, Forall_app, Forall_app, NoDup_app. simpl.
  rewrite !Forall_singleton. intros (Hnd & Hdis & _) [Hnew Hnewp] [Hcool Hcoolp] Hlt.
  destruct IH as (Hrev & m' & Hrt' & He' & Hs' & Hat' & Hid' & Hring); [done|done|done|lia|].
  assert (Hp : p ∉ gm_appliedProbes m').
  { intros Hin. apply Hring in Hin as [Hin|]; [|done]. apply (Hdis _ Hin). set_solver. }
  unfold runSuccesses in *. rewrite foldl_app. simpl.
  rewrite (RecordHealthSuccess_counts _ _ _ _ _ _ _ Hrt' (lookup_insert_eq _ _ _));
    [|done|done|done|by rewrite Hat'|simpl; lia].
  simpl. split; [done|]. rewrite lookup_insert_eq. eexists. split.
  { f_equal. unfold set_member, set_members. simpl. by rewrite insert_insert_eq. }
  destruct (alreadyAppliedProbe_frame p m') as (_ & Hn & _ & _ & Hev & _ & Hat & Hsu & _).
  simpl. split_and!; [congruence|lia|congruence|congruence|].
  intros q Hq. apply alreadyAppliedProbe_ring_incl in Hq as [->|Hq].
  - left. set_solver.
  - apply Hring in Hq as [|]; [left; set_solver|by right].
Qed.

(** Starting from an evicted member with no successes counted, distinct
    successful probes past the cooldown recover it exactly when their number
    reaches the policy's success threshold: before that the member stays evicted
    and the streak equals the number of probes, at the threshold it is ready to
    route again. *)
Theorem recovery_takes_threshold_successes gid tag ps w rt m :
  world_wf w →
  groupRuntimeStore w !! gid = Some rt → gr_members rt !! tag = Some m →
  gm_evicted m = true → gm_recoverySuccesses m = 0 → gm_nodeID m ≠ 0 →
  rp_Enabled (gr_recovery rt) = true →
  NoDup ps.*1 → Forall (λ p, p ∉ gm_appliedProbes m) ps.*1 →
  Forall (λ p : string * Z, rp_Cooldown (gr_recovery rt) ≤ GoTime.sub p.2 (gm_evictedAt m)) ps →
  Z.of_nat (length ps) ≤ rp_SuccessThreshold (gr_recovery rt) →
  ∃ rt' m', groupRuntimeStore (runSuccesses gid tag ps w) !! gid = Some rt' ∧
    gr_members rt' !! tag = Some m' ∧
    if decide (Z.of_nat (length ps) < rp_SuccessThreshold (gr_recovery rt))
    then gm_evicted m' = true ∧ gm_recoverySuccesses m' = Z.of_nat (length ps)
    else cleared (stateRevision w) m'.
Proof.
  intros Hw Hrt Hm He Hz Hnz Hen Hnd Hnew Hcool Hle.
  destruct (decide (Z.of_nat (length ps) < rp_SuccessThreshold (gr_recovery rt))) as [Hlt|Hge].
  { destruct (streak_prefix gid tag ps w rt m) as (_ & m' & ? & ? & ? & _); [done..|].
    exists (set_member tag m' rt), m'. split_and!; [done|apply lookup_insert_eq|done|done]. }
  destruct (rw_recovery _ _ (runtime_wf_of _ _ _ Hw Hrt)) as [Hpos _].
  destruct ps as [|[p now] ps _] using rev_ind; [simpl in *; lia|].
  rewrite fmap_app, NoDup_app in Hnd. rewrite fmap_app, Forall_app in Hnew.
  rewrite Forall_app in Hcool. rewrite length_app in Hle, Hge. simpl in *.
  rewrite Forall_singleton in Hnew. rewrite Forall_singleton in Hcool.
  destruct Hnd as (Hnd & Hdis & _), Hnew as [Hnew Hnewp], Hcool as [Hcool Hcoolp].
  destruct (streak_prefix gid tag ps w rt m) as (Hrev & m' & Hrt' & He' & Hs' & Hat' & Hid' & Hring);
    [done..|simpl in *; lia|].
  assert (Hp : p ∉ gm_appliedProbes m').
  { intros Hin. apply Hring in Hin as [Hin|]; [|done]. apply (Hdis _ Hin). set_solver. }
  unfold runSuccesses in *. rewrite foldl_app. simpl.
  destruct (RecordHealthSuccess_recovers gid tag p now _ _ m' Hrt' (lookup_insert_eq _ _ _))
    as (m1 & w1 & -> & Hid1 & _ & Hcl1 & Hstore & _); [done|by right|done|by rewrite Hat'|simpl; lia|].
  rewrite Hrev in Hcl1.
  destruct (recoverEverywhere_origin (gm_nodeID m') gid w1 gid
    (set_member tag m1 (set_member tag m' rt))) as (r' & Hr' & Hms).
  { rewrite Hstore. apply lookup_insert_eq. }
  { simpl. by destruct (Hw _ _ Hrt). }
  cbn [fst]. exists r', m1. rewrite Hr', Hms. split_and!; [done|apply lookup_insert_eq|done].
Qed.
End eviction.

(** ** Concrete runs *)
Module GroupExample.
#[export] Instance range_Z : RangeOrder Z := default_range_order Z.
#[export] Instance range_string : RangeOrder string := default_range_order string.

Definition instant (s : Z) : Z := GoTime.ofUnix (1700000000 + s).
Definition healthy (node : Z) : GroupInitialState := mkInitial false node [] false "" GoTime.zero 0.
Definition down (node : Z) : GroupInitialState := mkInitial false node [] true "down" (instant 0) 3.
Definition policy : RecoveryPolicy := mkPolicy true 2 (60 * GoTime.second).

(** Group 1 holds nodes 7 and 8, group 2 holds node 7 as well; two failures
    evict. *)
Definition world1 : world :=
  (Register 2 (300 * GoTime.second) 2 "x" {[ "x" := healthy 7 ]} (Some policy) (instant 0)
    (Register 1 (300 * GoTime.second) 2 "a" {[ "a" := healthy 7; "b" := healthy 8 ]} (Some policy)
       (instant 0) empty_world).1).1.
(** The same groups, restored with node 7 evicted. *)
Definition world2 : world :=
  (Register 2 (300 * GoTime.second) 2 "x" {[ "x" := down 7 ]} (Some policy) (instant 0)
    (Register 1 (300 * GoTime.second) 2 "b" {[ "a" := down 7; "b" := healthy 8 ]} (Some policy)
       (instant 0) empty_world).1).1.
(** [world1] after one failure of node 7 in group 1. *)
Definition world3 : world := (RecordFailure 1 "a" (Some "refused") (instant 10) (instant 10) world1).1.

Definition runtime_of (gid : Z) (w : world) : groupRuntime :=
  default (mkRuntime 0 0 0 0 policy "" ∅ 0 false 0) (groupRuntimeStore w !! gid).
Definition member_of (gid : Z) (tag : string) (w : world) : groupMemberRuntime :=
  default (mkMember false 0 "" [] false "" 0 0 [] 0) (gr_members (runtime_of gid w) !! tag).

Lemma world1_wf : world_wf world1.
Proof. apply Register_wf; [apply Register_wf; [apply empty_world_wf|done]|done]. Qed.
Lemma world2_wf : world_wf world2.
Proof. apply Register_wf; [apply Register_wf; [apply empty_world_wf|done]|done]. Qed.
Lemma world3_wf : world_wf world3.
Proof. apply RecordFailure_wf, world1_wf. Qed.
End GroupExample.
Import GroupExample.

Lemma eviction_reaches_every_group_witness :
  let w' := (RecordFailure 1 "a" (Some "refused") (instant 20) (instant 20) world3).1 in
  7 ∈ globalEvictedNodes w' ∧ MemberNotEvicted 2 "x" w' = false.
Proof.
  destruct (eviction_reaches_every_group 1 "a" (Some "refused") (instant 20) (instant 20) world3
    (runtime_of 1 world3) (member_of 1 "a" world3)) as (_ & Hmark & _ & Hall);
    [exact world3_wf|apply unique_nodesb_sound; vm_compute; reflexivity
    |vm_compute; reflexivity|vm_compute; reflexivity|vm_compute; reflexivity|vm_compute; lia
    |vm_compute; congruence|vm_compute; congruence|].
  split; [exact Hmark|].
  destruct (Hall 2 (runtime_of 2 (RecordFailure 1 "a" (Some "refused") (instant 20) (instant 20) world3).1)
    "x" (member_of 2 "x" (RecordFailure 1 "a" (Some "refused") (instant 20) (instant 20) world3).1))
    as (_ & _ & ? & _); vm_compute; reflexivity.
Defined.

Lemma recovery_clears_every_group_witness :
  let w' := (RecordHealthSuccess 1 "a" "p2" (instant 101)
              (RecordHealthSuccess 1 "a" "p1" (instant 100) world2).1).1 in
  7 ∉ globalEvictedNodes w' ∧ MemberNotEvicted 2 "x" w' = true.
Proof.
  set (w := (RecordHealthSuccess 1 "a" "p1" (instant 100) world2).1).
  destruct (recovery_clears_every_group 1 "a" "p2" (instant 101) w
    (runtime_of 1 w) (member_of 1 "a" w)) as (_ & Hmark & _);
    [apply RecordHealthSuccess_wf, world2_wf|apply unique_nodesb_sound; vm_compute; reflexivity
    |vm_compute; reflexivity|vm_compute; reflexivity|vm_compute; reflexivity|vm_compute; lia
    |right; refine (bool_decide_eq_false_1 _ _); vm_compute; reflexivity|vm_compute; reflexivity
    |vm_compute; congruence|vm_compute; congruence|].
  split; [exact Hmark|vm_compute; reflexivity].
Defined.

Lemma recovery_takes_threshold_successes_witness :
  ∃ rt' m', groupRuntimeStore (runSuccesses 1 "a" [("p1", instant 100); ("p2", instant 130)] world2) !! 1
      = Some rt' ∧ gr_members rt' !! "a" = Some m' ∧ cleared (stateRevision world2) m'.
Proof.
  destruct (recovery_takes_threshold_successes 1 "a" [("p1", instant 100); ("p2", instant 130)] world2
    (runtime_of 1 world2) (member_of 1 "a" world2)) as (rt' & m' & Hrt & Hm & Hcl);
    [exact world2_wf|vm_compute; reflexivity|vm_compute; reflexivity|vm_compute; reflexivity
    |vm_compute; reflexivity|vm_compute; lia|vm_compute; reflexivity
    |refine (bool_decide_eq_true_1 _ _); vm_compute; reflexivity|refine (bool_decide_eq_true_1 _ _); vm_compute; reflexivity
    |repeat constructor; vm_compute; congruence|vm_compute; congruence|].
  exists rt', m'. split; [exact Hrt|split; [exact Hm|exact Hcl]].
Defined.
