(* ===== verification/GroupReplay.v ===== *)
(** Properties of the group runtime about delivery: replayed health-journal
    outcomes change nothing, repeated reports of the same second count once, and
    what happens when a restored history breaks the assumption behind that. *)

From S2P Require Import Prelude GroupMember GroupRuntime GroupInvariant GroupEviction.

(** An outcome of the health journal as the group runtime consumes it. *)
Record outcome := mkOutcome {
  oc_probeID : string;
  oc_success : bool;
  oc_cause : option string;
  oc_at : Z
}.

Section replay.
Context `{!RangeOrder Z, !RangeOrder string}.

Definition applyOutcome (gid : Z) (tag : string) (now : Z) (w : world) (o : outcome) : world :=
  if oc_success o then (RecordHealthSuccess gid tag (oc_probeID o) now w).1
  else (RecordGroupHealthFailure gid tag (oc_probeID o) (oc_cause o) (oc_at o) now w).1.

Definition applyOutcomes (gid : Z) (tag : string) (now : Z) (os : list outcome) (w : world) : world :=
  foldl (applyOutcome gid tag now) w os.

Lemma set_member_same tag m rt : gr_members rt !! tag = Some m → set_member tag m rt = rt.
Proof. intros Hm. unfold set_member, set_members. rewrite (insert_id _ _ _ Hm). by destruct rt. Qed.

Lemma put_runtime_same gid rt w : groupRuntimeStore w !! gid = Some rt → put_runtime gid rt w = w.
Proof. intros Hrt. unfold put_runtime. rewrite (insert_id _ _ _ Hrt). by destruct w. Qed.

(** An outcome the ring remembers changes nothing at all. *)
Lemma applyOutcome_hit gid tag now w rt m o :
  groupRuntimeStore w !! gid = Some rt → gr_members rt !! tag = Some m →
  oc_probeID o ≠ "" → oc_probeID o ∈ gm_appliedProbes m → applyOutcome gid tag now w o = w.
Proof.
  intros Hrt Hm Hne Hin. unfold applyOutcome, RecordHealthSuccess, RecordGroupHealthFailure.
  rewrite Hrt, Hm, (alreadyAppliedProbe_hit _ _ Hne Hin). cbn [fst].
  rewrite (set_member_same _ _ _ Hm), (put_runtime_same _ _ _ Hrt). by destruct (oc_success o).
Qed.

Lemma applyOutcome_wf gid tag now w o : world_wf w → world_wf (applyOutcome gid tag now w o).
Proof.
  intros Hw. unfold applyOutcome. destruct (oc_success o);
    [by apply RecordHealthSuccess_wf|by apply RecordGroupHealthFailure_wf].
Qed.

Lemma RecordHealthSuccess_ring gid tag p now w rt m :
  world_wf w → groupRuntimeStore w !! gid = Some rt → gr_members rt !! tag = Some m →
  ∃ rt' m', groupRuntimeStore (RecordHealthSuccess gid tag p now w).1 !! gid = Some rt' ∧
    gr_members rt' !! tag = Some m' ∧
    gm_appliedProbes m' = gm_appliedProbes (alreadyAppliedProbe p m).2.
Proof.
  intros Hw Hrt Hm. unfold RecordHealthSuccess. rewrite Hrt, Hm.
  destruct (alreadyAppliedProbe p m) as [applied m1] eqn:Hap. cbn zeta. cbn [snd].
  assert (Hput : ∀ m', gm_appliedProbes m' = gm_appliedProbes m1 →
    ∃ rt' n, groupRuntimeStore (put_runtime gid (set_member tag m' rt) w) !! gid = Some rt' ∧
      gr_members rt' !! tag = Some n ∧ gm_appliedProbes n = gm_appliedProbes m1).
  { intros m' Hm'. exists (set_member tag m' rt), m'. simpl. by rewrite !lookup_insert_eq. }
  destruct applied; [by apply Hput|]. destruct (gm_evicted m1).
  - destruct (negb _); [by apply Hput|]. case_decide; [by apply Hput|].
    case_decide; [by apply Hput|]. cbn [touch fst snd].
    set (m2 := set_revision _ _). set (w3 := notifyGroupState _ _).
    destruct (recoverEverywhere_origin (gm_nodeID m2) gid w3 gid (set_member tag m2 rt))
      as (r' & Hr' & Hms); [by simpl; rewrite lookup_insert_eq|simpl; by destruct (Hw _ _ Hrt)|].
    exists r', m2. rewrite Hr', Hms. simpl. by rewrite lookup_insert_eq.
  - case_decide; [by apply Hput|]. by apply (Hput (set_revision _ _)).
Qed.

Lemma RecordGroupHealthFailure_ring gid tag p cause at_ now w rt m :
  groupRuntimeStore w !! gid = Some rt → gr_members rt !! tag = Some m →
  ∃ rt' m', groupRuntimeStore (RecordGroupHealthFailure gid tag p cause at_ now w).1 !! gid = Some rt' ∧
    gr_members rt' !! tag = Some m' ∧
    gm_appliedProbes m' = gm_appliedProbes (alreadyAppliedProbe p m).2.
Proof.
  intros Hrt Hm. unfold RecordGroupHealthFailure. rewrite Hrt, Hm.
  destruct (alreadyAppliedProbe p m) as [applied m1]. cbn zeta. cbn [snd].
  assert (Hput : groupRuntimeStore (put_runtime gid (set_member tag m1 rt) w) !! gid =
    Some (set_member tag m1 rt)) by (simpl; apply lookup_insert_eq).
  assert (Hm1 : gr_members (set_member tag m1 rt) !! tag = Some m1) by apply lookup_insert_eq.
  destruct applied; [by exists (set_member tag m1 rt), m1|].
  case_decide; [by exists (set_member tag m1 rt), m1|].
  destruct (RecordFailure_member gid tag cause at_ now _ _ _ Hput Hm1) as (rt' & m' & ? & ? & _ & ?).
  by exists rt', m'.
Qed.

Lemma applyOutcomes_ring gid tag now os w rt m :
  world_wf w → groupRuntimeStore w !! gid = Some rt → gr_members rt !! tag = Some m →
  ∃ rt' m', groupRuntimeStore (applyOutcomes gid tag now os w) !! gid = Some rt' ∧
    gr_members rt' !! tag = Some m' ∧
    gm_appliedProbes m' = gm_appliedProbes (applyProbes (oc_probeID <$> os) m).
Proof.
  revert w rt m. induction os as [|o os IH]; intros w rt m Hw Hrt Hm; [by exists rt, m|].
  assert (Hone : ∃ rt1 m1, groupRuntimeStore (applyOutcome gid tag now w o) !! gid = Some rt1 ∧
    gr_members rt1 !! tag = Some m1 ∧
    gm_appliedProbes m1 = gm_appliedProbes (alreadyAppliedProbe (oc_probeID o) m).2).
  { unfold applyOutcome. destruct (oc_success o);
      [by eapply RecordHealthSuccess_ring|by eapply RecordGroupHealthFailure_ring]. }
  destruct Hone as (rt1 & m1 & Hrt1 & Hm1 & Hp1).
  destruct (IH (applyOutcome gid tag now w o) rt1 m1) as (rt' & m' & Hrt' & Hm' & Hp');
    [by apply applyOutcome_wf|done|done|].
  exists rt', m'. simpl. split_and!; [done|done|]. rewrite Hp'.
  by apply applyProbes_ring_ext.
Qed.
Lemma applyOutcomes_hits gid tag now os w rt m :
  groupRuntimeStore w !! gid = Some rt → gr_members rt !! tag = Some m →
  (∀ o, o ∈ os → oc_probeID o ≠ "" ∧ oc_probeID o ∈ gm_appliedProbes m) →
  applyOutcomes gid tag now os w = w.
Proof.
  intros Hrt Hm. induction os as [|o os IH]; intros Hin; simpl; [done|].
  destruct (Hin o) as [? ?]; [set_solver|].
  rewrite (applyOutcome_hit _ _ _ _ _ _ _ Hrt Hm); [apply IH; set_solver|done|done].
Qed.

(** A batch of journal outcomes no larger than the replay ring, applied to a
    member, can be delivered again after a crash: the second application leaves
    the whole runtime state (streaks, histories, marks, revisions and
    notifications) exactly as the first one left it. *)
Theorem replayed_batch_changes_nothing gid tag now now' os w rt m :
  world_wf w → groupRuntimeStore w !! gid = Some rt → gr_members rt !! tag = Some m →
  NoDup (oc_probeID <$> os) → (length os ≤ groupProbeRing)%nat →
  (∀ p, p ∈ oc_probeID <$> os → p ≠ "" ∧ p ∉ gm_appliedProbes m) →
  applyOutcomes gid tag now' os (applyOutcomes gid tag now os w) = applyOutcomes gid tag now os w.
Proof.
  intros Hw Hrt Hm Hnd Hlen Hnew.
  destruct (applyOutcomes_ring gid tag now os w rt m Hw Hrt Hm) as (rt' & m' & Hrt' & Hm' & Hring).
  assert (Hin : ∀ o, o ∈ os → oc_probeID o ≠ "" ∧ oc_probeID o ∈ gm_appliedProbes m').
  { intros o Ho. assert (Ho' : oc_probeID o ∈ oc_probeID <$> os) by by apply list_elem_of_fmap_2.
    split; [by apply Hnew|]. rewrite Hring. apply batch_retained; [done| |done|done].
    by rewrite length_fmap. }
  by apply (applyOutcomes_hits gid tag now' os _ rt' m').
Qed.

(** The member after a counted failure: its answer, streak and window. *)
Lemma RecordFailure_fresh gid tag cause at_ now w rt m :
  groupRuntimeStore w !! gid = Some rt → gr_members rt !! tag = Some m → gm_evicted m = false →
  let history := within (GoTime.unix (GoTime.add at_ (- gr_window rt))) (gm_failureHistory m) in
  last history ≠ Some (GoTime.unix at_) →
  let r := RecordFailure gid tag cause at_ now w in
  ∃ rt1 m1, groupRuntimeStore r.1 !! gid = Some rt1 ∧ gr_members rt1 !! tag = Some m1 ∧
    gr_window rt1 = gr_window rt ∧ r.2 = gm_evicted m1 ∧ gm_recoverySuccesses m1 = 0 ∧
    (gm_evicted m1 = false → gm_failureHistory m1 = history ++ [GoTime.unix at_]).
Proof.
  intros Hrt Hm He history Hlast. unfold RecordFailure. rewrite Hrt, Hm, He. cbn zeta.
  fold history. rewrite decide_False by done. cbn [touch fst snd].
  set (m2 := match cause with Some c => _ | None => _ end).
  assert (Hm2 : gm_failureHistory m2 = history ++ [GoTime.unix at_] ∧ gm_recoverySuccesses m2 = 0 ∧
    gm_evicted m2 = false) by (subst m2; by destruct cause).
  destruct Hm2 as (Hh2 & Hs2 & He2).
  set (b := bool_decide (gr_threshold rt ≤ _)).
  set (m4 := set_revision _ _). set (rt2 := if bool_decide (gr_currentTag rt = tag) then _ else _).
  assert (Hrt2 : gr_members rt2 !! tag = Some m4).
  { subst rt2. rewrite gr_members_if_current. apply lookup_insert_eq. }
  assert (Hwin : gr_window rt2 = gr_window rt) by (subst rt2; by case_bool_decide).
  destruct b eqn:Hb.
  - match goal with |- context [propagateEviction ?n ?e ?a ?t ?w1] =>
      destruct (propagateEviction_keeps n e a t w1 gid rt2 tag m4)
        as (rt' & m' & ? & ? & _ & _ & Hsame) end; [by simpl; rewrite lookup_insert_eq|done|].
    rewrite (Hsame eq_refl) in *. exists rt', m4. split_and!; try done.
    erewrite propagateEviction_window; [exact Hwin| |done]. by simpl; rewrite lookup_insert_eq.
  - exists rt2, m4. simpl. rewrite lookup_insert_eq. split_and!; try done.
Qed.

(** ** Failures of one second *)
Lemma unix_sub_window t t' window :
  GoTime.unix t = GoTime.unix t' → window `mod` GoTime.second = 0 →
  GoTime.unix (GoTime.add t (- window)) = GoTime.unix (GoTime.add t' (- window)).
Proof.
  intros Ht Hmod. apply Z.mod_divide in Hmod as [k ->]; [|done]. unfold GoTime.unix, GoTime.add in *.
  rewrite <-!Z.mul_opp_l, !Z.div_add by done. lia.
Qed.

Lemma unix_sub_window_le t window :
  0 ≤ window → GoTime.unix (GoTime.add t (- window)) ≤ GoTime.unix t.
Proof. intros. apply GoTime.unix_mono. unfold GoTime.add. lia. Qed.

(** Two failure reports of one wall-clock second are one piece of evidence:
    when the first of them was counted, the second leaves the runtime exactly as
    it is and repeats the first one's answer (the window being a whole number of
    seconds, as the configuration makes it). *)
Theorem same_second_failure_counts_once gid tag cause cause' at_ at' now now' w rt m :
  world_wf w → groupRuntimeStore w !! gid = Some rt → gr_members rt !! tag = Some m →
  gm_evicted m = false → gr_window rt `mod` GoTime.second = 0 →
  last (within (GoTime.unix (GoTime.add at_ (- gr_window rt))) (gm_failureHistory m))
    ≠ Some (GoTime.unix at_) →
  GoTime.unix at' = GoTime.unix at_ →
  let first := RecordFailure gid tag cause at_ now w in
  RecordFailure gid tag cause' at' now' first.1 = first.
Proof.
  intros Hw Hrt Hm He Hmod Hlast Hsec first.
  pose proof (rw_window _ _ (runtime_wf_of _ _ _ Hw Hrt)) as Hwin.
  destruct (RecordFailure_fresh gid tag cause at_ now w rt m)
    as (rt1 & m1 & Hrt1 & Hm1 & Hw1 & Hret & Hsucc & Hhist); [done..|].
  fold first in Hrt1, Hret. destruct first as [w1 ret]. cbn [fst snd] in *. subst ret.
  unfold RecordFailure. rewrite Hrt1, Hm1. destruct (gm_evicted m1) eqn:He1.
  - f_equal. assert (set_successes 0 m1 = m1) as -> by (destruct m1; unfold set_successes; simpl in *; congruence).
    by rewrite (set_member_same _ _ _ Hm1), (put_runtime_same _ _ _ Hrt1).
  - cbn zeta. rewrite Hw1, (unix_sub_window at' at_) by done.
    assert (Hall : within (GoTime.unix (GoTime.add at_ (- gr_window rt))) (gm_failureHistory m1)
      = gm_failureHistory m1).
    { rewrite (Hhist eq_refl). apply within_all, Forall_app. split.
      - apply Forall_forall. intros ts Hts. by apply elem_of_within in Hts as [].
      - apply Forall_singleton, unix_sub_window_le. lia. }
    rewrite Hall, Hsec, decide_True by (rewrite (Hhist eq_refl); apply last_snoc).
    rewrite overwritePrefix_same. f_equal.
    assert (set_history (gm_failureHistory m1) m1 = m1) as -> by (by destruct m1).
    by rewrite (set_member_same _ _ _ Hm1), (put_runtime_same _ _ _ Hrt1).
Qed.
End replay.

(** ** Concrete runs *)
Import GroupExample.

(** Group 5 restored from the store with two failures the window has already
    left behind and one of the current second; three failures evict. *)
Definition stale_world : world :=
  (Register 5 (300 * GoTime.second) 3 "" {[ "a" := mkInitial false 7
     [1699999000; 1699999100; 1700000000] false "" GoTime.zero 4 ]} (Some policy)
     (instant 0) empty_world).1.

Definition report (s : Z) (w : world) : world * bool :=
  RecordFailure 5 "a" (Some "refused") (instant s) (instant s) w.

(** The same-second early return of [RecordFailure] keeps the old length of
    a slice whose array was just compacted in place, so a failure outside the
    window comes back as a copy of the present one. After a restored history
    with two expired entries, two reports of the restored second and one report
    of the next second evict the member, although the window holds only two
    distinct failure seconds and the threshold is three. *)
Theorem same_second_return_revives_expired_failures :
  gm_failureHistory (member_of 5 "a" (report 0 stale_world).1) = [1700000000; 1699999100; 1700000000] ∧
  gm_failureHistory (member_of 5 "a" (report 0 (report 0 stale_world).1).1)
    = [1700000000; 1700000000; 1700000000] ∧
  (report 1 (report 0 (report 0 stale_world).1).1).2 = true ∧
  (report 1 stale_world).2 = false.
Proof. split_and!; vm_compute; reflexivity. Qed.

Lemma replayed_batch_changes_nothing_witness :
  let os := [mkOutcome "p1" false (Some "refused") (instant 10); mkOutcome "p2" true None (instant 11);
             mkOutcome "p3" false (Some "refused") (instant 12); mkOutcome "p4" false None (instant 13)] in
  applyOutcomes 1 "a" (instant 20) os (applyOutcomes 1 "a" (instant 15) os world1)
    = applyOutcomes 1 "a" (instant 15) os world1 ∧
  gm_evicted (member_of 1 "a" (applyOutcomes 1 "a" (instant 15) os world1)) = true.
Proof.
  split; [|vm_compute; reflexivity].
  apply (replayed_batch_changes_nothing 1 "a" (instant 15) (instant 20) _ world1
    (runtime_of 1 world1) (member_of 1 "a" world1));
    [exact world1_wf|vm_compute; reflexivity|vm_compute; reflexivity
    |refine (bool_decide_eq_true_1 _ _); vm_compute; reflexivity
    |unfold groupProbeRing; simpl; lia|].
  apply Forall_forall. refine (bool_decide_eq_true_1 _ _). vm_compute. reflexivity.
Defined.

Lemma same_second_failure_counts_once_witness :
  let first := report 20 (Register 5 (300 * GoTime.second) 3 "" {[ "a" := healthy 7 ]} (Some policy)
                 (instant 0) empty_world).1 in
  RecordFailure 5 "a" None (instant 20 + 5) (instant 21) first.1 = first.
Proof.
  set (w := (Register 5 (300 * GoTime.second) 3 "" {[ "a" := healthy 7 ]} (Some policy)
              (instant 0) empty_world).1).
  apply (same_second_failure_counts_once 5 "a" (Some "refused") None (instant 20) (instant 20 + 5)
    (instant 20) (instant 21) w (runtime_of 5 w) (member_of 5 "a" w));
    [apply Register_wf; [apply empty_world_wf|done]|vm_compute; reflexivity|vm_compute; reflexivity
    |vm_compute; reflexivity|vm_compute; reflexivity|vm_compute; congruence|vm_compute; reflexivity].
Defined.
