(* ===== verification/GroupTopology.v ===== *)
(** Properties of the group runtime about topology changes: a silent
    reconciliation moves each node's state to its new tag, state readers see
    every member once, a stale cleanup token is harmless, current-tag
    notifications are throttled without being lost, and the reachable states are
    well formed. *)

From S2P Require Import Prelude GroupMember GroupRuntime GroupInvariant GroupEviction.

Section topology.
Context `{!RangeOrder Z, !RangeOrder string}.

(** Every state the runtime reaches is well formed (members filed under
    their tag, replay rings bounded and duplicate free, revisions already handed
    out by the clock, a current tag that names an admissible member, positive
    thresholds and windows), and the revision clock never goes back. *)
Theorem runtime_invariant w w' :
  reachable w → rtc gstep w w' → world_wf w' ∧ stateRevision w ≤ stateRevision w'.
Proof.
  intros Hr Hs. destruct (gsteps_wf _ _ Hr empty_world_wf) as [Hw Hc]; [done|].
  by apply gsteps_wf.
Qed.

(** ** Reconciliation *)
Lemma index_by_node_lookup ms k o :
  (∀ k1 k2 m1 m2, ms !! k1 = Some m1 → ms !! k2 = Some m2 → gm_nodeID m1 = gm_nodeID m2 → k1 = k2) →
  ms !! k = Some o → index_by_node ms !! gm_nodeID o = Some o.
Proof.
  intros Hu Hk. unfold index_by_node.
  assert (Hgen : ∀ l (acc : gmap Z groupMemberRuntime), (∀ k m, (k, m) ∈ l → ms !! k = Some m) →
    (k, o) ∈ l ∨ acc !! gm_nodeID o = Some o →
    foldl (λ acc km, <[gm_nodeID km.2 := km.2]> acc) acc l !! gm_nodeID o = Some o).
  { induction l as [|[k' m'] l IH]; intros acc Hl; simpl; [intros [|]; [set_solver|done]|].
    intros Hor. apply IH; [intros; apply Hl; set_solver|].
    destruct (decide (gm_nodeID m' = gm_nodeID o)) as [He|Hne].
    - right. assert (Hk' : ms !! k' = Some m') by (apply Hl; set_solver).
      assert (k' = k) as -> by by eapply Hu.
      assert (m' = o) as -> by congruence. by rewrite lookup_insert_eq.
    - rewrite lookup_insert_ne by done. destruct Hor as [Hin|]; [|by right]. left.
      apply elem_of_cons in Hin as [|]; [|done]. simplify_eq. }
  apply Hgen; [intros ??; by rewrite elem_of_range|]. left. by apply elem_of_range.
Qed.

Lemma index_by_node_is_Some ms k o :
  ms !! k = Some o → is_Some (index_by_node ms !! gm_nodeID o).
Proof.
  intros Hk. unfold index_by_node.
  assert (Hgen : ∀ l (acc : gmap Z groupMemberRuntime),
    (k, o) ∈ l ∨ is_Some (acc !! gm_nodeID o) →
    is_Some (foldl (λ acc km, <[gm_nodeID km.2 := km.2]> acc) acc l !! gm_nodeID o)).
  { induction l as [|[k' m'] l IH]; intros acc Hor; simpl; [destruct Hor; [set_solver|done]|].
    apply IH. destruct (decide (gm_nodeID m' = gm_nodeID o)) as [->|Hne].
    - right. rewrite lookup_insert_eq. eauto.
    - rewrite lookup_insert_ne by done. destruct Hor as [Hin|]; [|by right]. left.
      apply elem_of_cons in Hin as [|]; [|done]. simplify_eq. }
  apply Hgen. left. by apply elem_of_range.
Qed.

Lemma index_by_node_None ms n :
  (∀ k o, ms !! k = Some o → gm_nodeID o ≠ n) → index_by_node ms !! n = None.
Proof.
  intros Hno. destruct (index_by_node ms !! n) as [o|] eqn:Ho; [|done].
  apply index_by_node_Some in Ho as (k & Hk & Hn). by destruct (Hno k o).
Qed.

(** The history and the eviction a node brings into the new topology. *)
Definition inherited (ms : gmap string groupMemberRuntime) (initial : GroupInitialState)
    (h : list Z) (e : bool) : Prop :=
  (∃ k o, ms !! k = Some o ∧ gm_nodeID o = gi_NodeID initial ∧
     h = gm_failureHistory o ∧ e = gm_evicted o) ∨
  ((∀ k o, ms !! k = Some o → gm_nodeID o ≠ gi_NodeID initial) ∧
     h = gi_FailureHistory initial ∧ e = gi_Evicted initial).

Lemma migrate_member_inherited tag initial ms clock h e :
  (∀ k1 k2 m1 m2, ms !! k1 = Some m1 → ms !! k2 = Some m2 → gm_nodeID m1 = gm_nodeID m2 → k1 = k2) →
  inherited ms initial h e →
  let m := (migrate_member tag initial (index_by_node ms !! gi_NodeID initial) clock).1 in
  gm_failureHistory m = h ∧ gm_evicted m = e ∧ gm_nodeID m = gi_NodeID initial ∧
  gm_standby m = gi_Standby initial.
Proof.
  intros Hu [(k & o & Hk & Hn & -> & ->)|(Hno & -> & ->)].
  - rewrite <-Hn, (index_by_node_lookup _ _ _ Hu Hk). simpl. rewrite Hn. done.
  - by rewrite index_by_node_None.
Qed.

Lemma reconcile_member_spec gid window threshold now pc old tag initial s :
  let m0 := (migrate_member tag initial (old !! gi_NodeID initial) (rs_clock s)).1 in
  let h := within (GoTime.unix (GoTime.add now (- window))) (gm_failureHistory m0) in
  let r := reconcile_member gid window threshold now pc old tag initial s in
  gm_nodeID m0 = gi_NodeID initial → gm_standby m0 = gi_Standby initial →
  gm_nodeID r.1 = gi_NodeID initial ∧ gm_standby r.1 = gi_Standby initial ∧
  gm_failureHistory r.1 = h ∧
  gm_evicted r.1 = gm_evicted m0 || bool_decide (gi_NodeID initial ∈ rs_marks s) ||
    bool_decide (threshold ≤ Z.of_nat (length h)) ∧
  rs_marks s ⊆ rs_marks r.2 ⊆ {[gi_NodeID initial]} ∪ rs_marks s.
Proof.
  cbn zeta. unfold reconcile_member.
  destruct (migrate_member tag initial (old !! gi_NodeID initial) (rs_clock s)) as [m0 clock].
  cbn [fst]. intros Hn Hs. rewrite Hn. cbn zeta.
  set (m1 := if decide (_ ∈ rs_marks s) then _ else m0).
  assert (Hm1 : gm_nodeID m1 = gm_nodeID m0 ∧ gm_standby m1 = gm_standby m0 ∧
    gm_failureHistory m1 = gm_failureHistory m0 ∧
    gm_evicted m1 = gm_evicted m0 || bool_decide (gi_NodeID initial ∈ rs_marks s)).
  { subst m1. case_decide as Hd.
    - rewrite bool_decide_true by done. by rewrite orb_true_r.
    - rewrite bool_decide_false by done. by rewrite orb_false_r. }
  destruct Hm1 as (Hn1 & Hs1 & Hh1 & He1).
  pose proof (pruneFailures_history window now m1) as Hh2.
  pose proof (pruneFailures_frame window now m1) as (Hs2 & Hn2 & _ & He2 & _).
  destruct (pruneFailures window now m1) as [pruned m2]. cbn [snd] in *.
  rewrite Hh1 in Hh2. rewrite <-Hh2.
  set (newly := negb (gm_evicted m2) && _).
  set (m3 := if newly then set_eviction true now m2 else m2).
  assert (Hm3 : gm_nodeID m3 = gm_nodeID m2 ∧ gm_standby m3 = gm_standby m2 ∧
    gm_failureHistory m3 = gm_failureHistory m2 ∧
    gm_evicted m3 = gm_evicted m2 || bool_decide (threshold ≤ Z.of_nat (length (gm_failureHistory m2)))).
  { subst m3 newly. destruct (gm_evicted m2) eqn:He; simpl; [by rewrite He|].
    destruct (bool_decide (threshold ≤ _)); [done|by split_and!]. }
  destruct Hm3 as (Hn3 & Hs3 & Hh3 & He3).
  set (m4 := if gm_evicted m3 && _ then _ else m3).
  assert (Hm4 : gm_nodeID m4 = gm_nodeID m3 ∧ gm_standby m4 = gm_standby m3 ∧
    gm_failureHistory m4 = gm_failureHistory m3 ∧ gm_evicted m4 = gm_evicted m3).
  { subst m4. destruct (gm_evicted m3) eqn:He; simpl; [|done]. by destruct (GoTime.isZero _). }
  destruct Hm4 as (Hn4 & Hs4 & Hh4 & He4).
  set (m5 := if gm_evicted m4 && _ && _ then _ else m4).
  assert (Hm5 : gm_nodeID m5 = gm_nodeID m4 ∧ gm_standby m5 = gm_standby m4 ∧
    gm_failureHistory m5 = gm_failureHistory m4 ∧ gm_evicted m5 = gm_evicted m4).
  { subst m5. by match goal with |- context [if ?b then set_successes 0 m4 else m4] => destruct b end. }
  destruct Hm5 as (Hn5 & Hs5 & Hh5 & He5).
  assert (Hmarks : rs_marks s ⊆ (if newly then {[gm_nodeID m3]} ∪ rs_marks s else rs_marks s)
    ⊆ {[gi_NodeID initial]} ∪ rs_marks s).
  { assert (gm_nodeID m3 = gi_NodeID initial) as -> by congruence. destruct newly; set_solver. }
  destruct (pruned || newly); simpl; (split_and!; [congruence|congruence|congruence|congruence|apply Hmarks..]).
Qed.
Definition unique_initials (ms : gmap string GroupInitialState) : Prop :=
  ∀ k1 k2 i1 i2, ms !! k1 = Some i1 → ms !! k2 = Some i2 → gi_NodeID i1 = gi_NodeID i2 → k1 = k2.

(** What the rebuilding loop did to the entry [k]: identity and standby from the
    update, history and eviction from the node's previous life. *)
Definition rebuilt (ms : gmap string groupMemberRuntime) (marks : gset Z) (cutoff threshold : Z)
    (initial : GroupInitialState) (m : groupMemberRuntime) : Prop :=
  gm_nodeID m = gi_NodeID initial ∧ gm_standby m = gi_Standby initial ∧
  ∀ h e, inherited ms initial h e →
    gm_failureHistory m = within cutoff h ∧
    gm_evicted m = e || bool_decide (gi_NodeID initial ∈ marks) ||
      bool_decide (threshold ≤ Z.of_nat (length (within cutoff h))).

Lemma inherited_total ms initial : ∃ h e, inherited ms initial h e.
Proof.
  destruct (index_by_node ms !! gi_NodeID initial) as [o|] eqn:Ho.
  - apply index_by_node_Some in Ho as (k & Hk & Hn). do 2 eexists. left. by exists k, o.
  - do 2 eexists. right. split; [|done]. intros k o Hk Hn.
    enough (Hsome : is_Some (index_by_node ms !! gi_NodeID initial)) by (rewrite Ho in Hsome; by destruct Hsome).
    rewrite <-Hn. by eapply index_by_node_is_Some.
Qed.

Lemma reconcile_sweep_spec gid window threshold now pc ms ups s0 :
  (∀ k1 k2 m1 m2, ms !! k1 = Some m1 → ms !! k2 = Some m2 → gm_nodeID m1 = gm_nodeID m2 → k1 = k2) →
  unique_initials ups →
  let r := map_sweep (reconcile_member gid window threshold now pc (index_by_node ms)) ups s0 in
  ∀ k i, ups !! k = Some i → ∃ m, r.1 !! k = Some m ∧
    rebuilt ms (rs_marks s0) (GoTime.unix (GoTime.add now (- window))) threshold i m.
Proof.
  intros Hu Hui r k i Hi.
  assert (Hind : (∀ k i, (k, i) ∈ range ups → ups !! k = Some i ∧ ∃ m, r.1 !! k = Some m ∧
      rebuilt ms (rs_marks s0) (GoTime.unix (GoTime.add now (- window))) threshold i m) ∧
    rs_marks s0 ⊆ rs_marks r.2 ∧
    ∀ n, n ∈ rs_marks r.2 → n ∈ rs_marks s0 ∨ ∃ k i, (k, i) ∈ range ups ∧ gi_NodeID i = n).
  { apply (map_sweep_ind (λ l m' s,
      (∀ k i, (k, i) ∈ l → ups !! k = Some i ∧ ∃ m, m' !! k = Some m ∧
        rebuilt ms (rs_marks s0) (GoTime.unix (GoTime.add now (- window))) threshold i m) ∧
      rs_marks s0 ⊆ rs_marks s ∧
      ∀ n, n ∈ rs_marks s → n ∈ rs_marks s0 ∨ ∃ k i, (k, i) ∈ l ∧ gi_NodeID i = n)).
    - split_and!; [set_solver|done|by left].
    - intros l k' a m' s Ha Hnew (Hl & Hsub & Hmk).
      destruct (inherited_total ms a) as (h0 & e0 & Hinh0).
      destruct (migrate_member_inherited k' a ms (rs_clock s) h0 e0 Hu Hinh0) as (_ & _ & Hmn & Hms).
      destruct (reconcile_member_spec gid window threshold now pc (index_by_node ms) k' a s Hmn Hms)
        as (Hn & Hst & Hh & He & Hm1 & Hm2).
      split_and!; [|set_solver|].
      + intros k1 i1 [Hin|Hin]%elem_of_app.
        * destruct (Hl _ _ Hin) as (? & m1 & ? & ?). split; [done|]. exists m1. split; [|done].
          rewrite lookup_insert_ne; [done|]. intros ->. apply Hnew, list_elem_of_fmap. by exists (k1, i1).
        * apply list_elem_of_singleton in Hin. injection Hin as -> ->. split; [done|]. eexists.
          split; [apply lookup_insert_eq|]. split_and!; [done|done|]. intros h e Hinh.
          destruct (migrate_member_inherited k' a ms (rs_clock s) h e Hu Hinh) as (Hh0 & He0 & _).
          rewrite Hh, He, Hh0, He0. split; [done|]. do 2 f_equal.
          apply bool_decide_ext. split; [|set_solver]. intros Hin.
          destruct (Hmk _ Hin) as [|(k2 & i2 & Hin2 & Hi2)]; [done|]. exfalso. apply Hnew.
          destruct (Hl _ _ Hin2) as [Hk2 _]. rewrite (Hui _ _ _ _ Ha Hk2) by done.
          apply list_elem_of_fmap. by exists (k2, i2).
      + intros n Hin. apply Hm2, elem_of_union in Hin as [Hin|Hin].
        * apply elem_of_singleton in Hin. right. exists k', a. split; [set_solver|done].
        * destruct (Hmk _ Hin) as [|(k2 & i2 & ? & ?)]; [by left|]. right. exists k2, i2.
          split; [set_solver|done]. }
  destruct Hind as (Hl & _ & _). apply (Hl k i). by apply elem_of_range.
Qed.

(** A silent reconciliation rebuilds exactly the update's members and tells
    nobody: each member has the update's node and standby flag, keeps the
    failures of its node that are still in the new window (taken from the
    previous generation when the node was a member under any tag, from the
    persisted state otherwise), and is evicted exactly when the node was evicted,
    carries a global eviction mark, or has reached the new threshold. *)
Theorem reconcile_migrates_state_by_node gid u now w rt :
  unique_nodes w → unique_initials (ru_Members u) → groupRuntimeStore w !! gid = Some rt →
  0 < ru_FailureWindow u → 0 < ru_FailureThreshold u →
  let w' := (ReconcileSilent gid u now w).1 in
  notified w' = notified w ∧
  ∃ rt', groupRuntimeStore w' !! gid = Some rt' ∧ gr_ptr rt' = gr_ptr rt ∧
    (∀ g, g ≠ gid → groupRuntimeStore w' !! g = groupRuntimeStore w !! g) ∧
    (∀ k, gr_members rt' !! k = None ↔ ru_Members u !! k = None) ∧
    ∀ k i, ru_Members u !! k = Some i → ∃ m, gr_members rt' !! k = Some m ∧
      rebuilt (gr_members rt) (globalEvictedNodes w)
        (GoTime.unix (GoTime.add now (- ru_FailureWindow u))) (ru_FailureThreshold u) i m.
Proof.
  intros Hu Hui Hrt Hwin Hthr w'. subst w'. unfold ReconcileSilent. rewrite Hrt. cbn zeta.
  rewrite !(decide_False (P := _ ≤ 0)) by lia.
  set (pc := recoveryPolicyProvided (ru_Recovery u) && _).
  set (s0 := mkReconcile _ _ []).
  pose proof (reconcile_sweep_spec gid (ru_FailureWindow u) (ru_FailureThreshold u) now pc
    (gr_members rt) (ru_Members u) s0 (λ k1 k2 m1 m2, Hu gid rt k1 k2 m1 m2 Hrt) Hui) as Hspec.
  pose proof (λ k, map_sweep_lookup_None (reconcile_member gid (ru_FailureWindow u)
    (ru_FailureThreshold u) now pc (index_by_node (gr_members rt))) (ru_Members u) s0 k) as Hnone.
  destruct (map_sweep _ (ru_Members u) s0) as [next s]. cbn [fst snd] in *.
  rewrite pruneGlobalEvictions_marks. simpl. split; [done|]. rewrite lookup_insert_eq.
  eexists. split; [done|]. simpl. split_and!; [done|intros; by rewrite lookup_insert_ne|done|].
  exact Hspec.
Qed.
(** ** State snapshots *)
Definition snapshot_of (rt : groupRuntime) (m : groupMemberRuntime) : StateSnapshot :=
  mkSnapshot (gr_id rt) (gm_nodeID m) (gm_failureHistory m) (gm_evicted m) (gm_lastError m)
    (gm_evictedAt m) (gm_revision m).

Lemma snapshot_runtime_spec wanted rt :
  NoDup (ss_NodeID <$> snapshot_runtime wanted rt) ∧
  (∀ s, s ∈ snapshot_runtime wanted rt → ∃ k m, gr_members rt !! k = Some m ∧
     s = snapshot_of rt m ∧ gm_nodeID m ∈ wanted) ∧
  (∀ k m, gr_members rt !! k = Some m → gm_nodeID m ∈ wanted →
     gm_nodeID m ∈ ss_NodeID <$> snapshot_runtime wanted rt).
Proof.
  unfold snapshot_runtime. set (step := λ (acc : gset Z * list StateSnapshot) (km : string * _), _).
  assert (Hgen : ∀ l done acc, (∀ k m, (k, m) ∈ l → gr_members rt !! k = Some m) →
    (NoDup (ss_NodeID <$> acc.2) ∧ (∀ n, n ∈ acc.1 ↔ n ∈ ss_NodeID <$> acc.2) ∧
     (∀ s, s ∈ acc.2 → ∃ k m, gr_members rt !! k = Some m ∧ s = snapshot_of rt m ∧ gm_nodeID m ∈ wanted) ∧
     (∀ k m, (k, m) ∈ done → gm_nodeID m ∈ wanted → gm_nodeID m ∈ acc.1)) →
    let r := foldl step acc l in
    NoDup (ss_NodeID <$> r.2) ∧ (∀ n, n ∈ r.1 ↔ n ∈ ss_NodeID <$> r.2) ∧
     (∀ s, s ∈ r.2 → ∃ k m, gr_members rt !! k = Some m ∧ s = snapshot_of rt m ∧ gm_nodeID m ∈ wanted) ∧
     (∀ k m, (k, m) ∈ done ++ l → gm_nodeID m ∈ wanted → gm_nodeID m ∈ r.1)).
  { induction l as [|[k m] l IH]; intros seen acc Hl Hacc; simpl; [by rewrite app_nil_r|].
    rewrite (cons_middle (k, m)), (assoc_L (++)). apply IH; [intros; apply Hl; set_solver|].
    destruct Hacc as (Hnd & Hiff & Hsound & Hcompl). subst step. simpl.
    destruct (decide (gm_nodeID m ∉ wanted)) as [Hnw|Hw]; [|apply dec_stable in Hw;
      destruct (decide (gm_nodeID m ∈ acc.1)) as [Hin|Hni]]; simpl.
    - split_and!; [done|done|done|]. intros k' m' [?|Hin']%elem_of_app; [by eapply Hcompl|].
      apply list_elem_of_singleton in Hin'. by simplify_eq.
    - split_and!; [done|done|done|]. intros k' m' [?|Hin']%elem_of_app; [by eapply Hcompl|].
      apply list_elem_of_singleton in Hin'. by simplify_eq.
    - split_and!.
      + rewrite fmap_app. apply NoDup_app. split_and!; [done| |apply NoDup_singleton].
        intros n Hn Hn'. apply Hni, Hiff. set_solver.
      + intros n. specialize (Hiff n). set_solver.
      + intros s [Hs|Hs]%elem_of_app; [by apply Hsound|]. apply list_elem_of_singleton in Hs as ->.
        exists k, m. split_and!; [apply Hl; set_solver|done|done].
      + intros k' m' [Hin'|Hin']%elem_of_app Hw'; [apply elem_of_union_r; by eapply Hcompl|].
        apply list_elem_of_singleton in Hin'. simplify_eq. set_solver. }
  destruct (Hgen (range (gr_members rt)) [] (∅, [])) as (Hnd & Hiff & Hsound & Hcompl).
  - intros k m. by rewrite elem_of_range.
  - split_and!; [constructor|set_solver|set_solver|set_solver].
  - split_and!; [done|done|]. intros k m Hk Hw. apply Hiff. apply (Hcompl k m); [|done].
    simpl. by apply elem_of_range.
Qed.

Lemma NoDup_flat_map_groups (f : groupRuntime → list StateSnapshot) (l : list (Z * groupRuntime)) :
  NoDup l.*1 → (∀ g rt, (g, rt) ∈ l → gr_id rt = g) →
  (∀ g rt, (g, rt) ∈ l → NoDup (ss_NodeID <$> f rt)) →
  (∀ rt s, s ∈ f rt → ss_GroupID s = gr_id rt) →
  NoDup ((λ s, (ss_GroupID s, ss_NodeID s)) <$> flat_map (λ grt, f grt.2) l).
Proof.
  intros Hnd Hid Hf Hg. induction l as [|[g rt] l IH]; simpl; [constructor|].
  apply NoDup_cons in Hnd as [Hni Hnd]. rewrite fmap_app. apply NoDup_app. split_and!.
  - apply (NoDup_fmap_1 snd). rewrite <-list_fmap_compose. apply (Hf g). set_solver.
  - intros [g' n] Hin1 Hin2. apply list_elem_of_fmap in Hin1 as (s1 & Hs1 & Hin1).
    apply list_elem_of_fmap in Hin2 as (s2 & Hs2 & Hin2). injection Hs1 as -> ->.
    injection Hs2 as Heq _. apply list_elem_of_In, in_flat_map in Hin2 as ([g2 rt2] & Hin2 & Hs2).
    apply list_elem_of_In in Hin2, Hs2. rewrite (Hg _ _ Hin1), (Hg _ _ Hs2) in Heq. simpl in Heq.
    apply Hni, list_elem_of_fmap. exists (g2, rt2). split; [|done]. simpl.
    rewrite (Hid g rt), (Hid g2 rt2) in Heq; [done|set_solver|set_solver].
  - apply IH; [done| |].
    + intros g' rt' Hin. apply Hid. set_solver.
    + intros g' rt' Hin. apply (Hf g'). set_solver.
Qed.

(** A state snapshot of a set of nodes has one row per group and node: every
    row is the state of a live member of its group, every live member whose node
    was asked for has a row, and no group and node appear twice. *)
Theorem state_snapshot_complete nodeIDs w :
  world_wf w →
  NoDup ((λ s, (ss_GroupID s, ss_NodeID s)) <$> SnapshotStates nodeIDs w) ∧
  (∀ s, s ∈ SnapshotStates nodeIDs w → ∃ rt k m, groupRuntimeStore w !! ss_GroupID s = Some rt ∧
     gr_members rt !! k = Some m ∧ s = snapshot_of rt m ∧ ss_NodeID s ∈ nodeIDs) ∧
  (∀ gid rt k m, groupRuntimeStore w !! gid = Some rt → gr_members rt !! k = Some m →
     gm_nodeID m ∈ nodeIDs → gm_nodeID m ≠ 0 →
     ∃ s, s ∈ SnapshotStates nodeIDs w ∧ ss_GroupID s = gid ∧ ss_NodeID s = gm_nodeID m).
Proof.
  intros Hw. unfold SnapshotStates. cbn zeta.
  set (wanted := list_to_set (C := gset Z) (filter (λ n, n ≠ 0) nodeIDs)).
  assert (Hwanted : ∀ n, n ∈ wanted ↔ n ≠ 0 ∧ n ∈ nodeIDs).
  { intros n. subst wanted. by rewrite elem_of_list_to_set, list_elem_of_filter. }
  split_and!.
  - apply NoDup_flat_map_groups.
    + apply NoDup_range_fst.
    + intros g rt Hin. apply elem_of_range in Hin. by destruct (Hw _ _ Hin).
    + intros g rt _. apply snapshot_runtime_spec.
    + intros rt s Hs. apply snapshot_runtime_spec in Hs as (k & m & _ & -> & _). done.
  - intros s Hs. apply list_elem_of_In, in_flat_map in Hs as ([g rt] & Hin & Hs).
    apply list_elem_of_In in Hin, Hs. apply elem_of_range in Hin.
    apply snapshot_runtime_spec in Hs as (k & m & Hk & -> & Hn). simpl.
    destruct (Hw _ _ Hin) as (-> & _). exists rt, k, m. split_and!; [done..|]. by apply Hwanted.
  - intros gid rt k m Hrt Hk Hn Hnz.
    destruct (snapshot_runtime_spec wanted rt) as (_ & Hsound & Hcompl).
    assert (Hin : gm_nodeID m ∈ ss_NodeID <$> snapshot_runtime wanted rt).
    { apply (Hcompl k m); [done|]. by apply Hwanted. }
    apply list_elem_of_fmap in Hin as (s & Hs & Hin). exists s. split_and!; [|  |done].
    + apply list_elem_of_In, in_flat_map. exists (gid, rt).
      split; apply list_elem_of_In; [by apply elem_of_range|done].
    + apply Hsound in Hin as (k' & m' & _ & -> & _). simpl. by destruct (Hw _ _ Hrt).
Qed.
(** ** Registration tokens *)
Lemma propagateEviction_ptr nodeID e at_ now w gid :
  gr_ptr <$> (groupRuntimeStore (propagateEviction nodeID e at_ now w) !! gid) =
  gr_ptr <$> (groupRuntimeStore w !! gid).
Proof.
  unfold propagateEviction. case_decide; [done|]. cbn zeta.
  set (at' := if GoTime.isZero at_ then now else at_).
  pose proof (propagate_runtime_ok nodeID e at') as Hok.
  destruct (sweep_store_spec _ w Hok) as [_ Hspec]. specialize (Hspec gid).
  destruct (groupRuntimeStore w !! gid) as [rt|]; [|by rewrite Hspec].
  destruct Hspec as (s & _ & _ & ->). simpl. f_equal. apply Hok.
Qed.

Lemma announce_evictions_ptr gid now tags w g :
  gr_ptr <$> (groupRuntimeStore (announce_evictions gid now tags w) !! g) =
  gr_ptr <$> (groupRuntimeStore w !! g).
Proof.
  unfold announce_evictions. revert w. induction tags as [|t ts IH]; intros w; simpl; [done|].
  rewrite IH. destruct (groupRuntimeStore w !! gid) as [rt|]; [|done].
  destruct (gr_members rt !! t) as [m|]; [|done]. destruct (gm_evicted m); [|done].
  apply propagateEviction_ptr.
Qed.

Lemma Register_ptr gid fw ft ct ms rp now w :
  gid ≠ 0 →
  (Register gid fw ft ct ms rp now w).2 = Some (nextPtr w) ∧
  gr_ptr <$> (groupRuntimeStore (Register gid fw ft ct ms rp now w).1 !! gid) = Some (nextPtr w).
Proof.
  intros Hgid. unfold Register. rewrite decide_False by done. cbn zeta.
  destruct (map_sweep _ ms _) as [next [marks clock]]. cbn [fst snd]. split; [done|].
  rewrite announce_evictions_ptr.
  match goal with |- context [match ?o with Some m => notifyGroupState _ _ | None => _ end] => destruct o end;
    [|case_decide]; simpl; by rewrite lookup_insert_eq.
Qed.

(** The cleanup of a registration removes the group only while that
    registration is the live one: once the group was registered again, the old
    token changes nothing, and the new one removes the group. *)
Theorem stale_cleanup_is_harmless gid fw ft ct ms rp now w token :
  gid ≠ 0 → token < nextPtr w →
  let r := Register gid fw ft ct ms rp now w in
  Unregister gid (Some token) r.1 = r.1 ∧
  groupRuntimeStore (Unregister gid r.2 r.1) !! gid = None ∧
  (∀ g, g ≠ gid → groupRuntimeStore (Unregister gid r.2 r.1) !! g = groupRuntimeStore r.1 !! g).
Proof.
  intros Hgid Htok r. destruct (Register_ptr gid fw ft ct ms rp now w Hgid) as [Hret Hptr].
  fold r in Hret, Hptr. rewrite Hret. unfold Unregister.
  destruct (groupRuntimeStore r.1 !! gid) as [rt|]; [|done]. injection Hptr as Hptr.
  rewrite decide_False by lia. rewrite decide_True by done. simpl.
  split_and!; [done|apply lookup_delete_eq|]. intros. by rewrite lookup_delete_ne.
Qed.
End topology.

(** ** Concrete runs *)
Import GroupExample.

Lemma runtime_invariant_witness : world_wf world3 ∧ stateRevision world1 ≤ stateRevision world3.
Proof.
  apply (runtime_invariant world1 world3).
  - eapply rtc_l; [apply GOp, (GRegister empty_world 1)|].
    apply rtc_once, GOp, GRegister.
  - apply rtc_once, GOp, (GFailure world1 1 "a" (Some "refused") (instant 10) (instant 10)).
Defined.

(** Node 7 moves to the tag "c", node 9 joins with a persisted eviction. *)
Definition moved : RuntimeUpdate :=
  mkUpdate (300 * GoTime.second) 3 0 {[ "c" := healthy 7; "d" := down 9 ]} policy.

Lemma reconcile_migrates_state_by_node_witness :
  notified (ReconcileSilent 1 moved (instant 30) world3).1 = notified world3 ∧
  (∃ m, gr_members (runtime_of 1 (ReconcileSilent 1 moved (instant 30) world3).1) !! "c" = Some m ∧
     gm_failureHistory m = [1700000010] ∧ gm_evicted m = false) ∧
  gm_evicted (member_of 1 "d" (ReconcileSilent 1 moved (instant 30) world3).1) = true.
Proof.
  destruct (reconcile_migrates_state_by_node 1 moved (instant 30) world3 (runtime_of 1 world3))
    as (Hn & rt' & Hrt' & _ & _ & _ & Hall);
    [apply unique_nodesb_sound; vm_compute; reflexivity| |vm_compute; reflexivity
    |vm_compute; reflexivity|vm_compute; reflexivity|].
  - intros k1 k2 i1 i2 H1 H2. change (ru_Members moved) with
      ({[ "c" := healthy 7; "d" := down 9 ]} : gmap string GroupInitialState) in H1, H2.
    rewrite lookup_insert_Some, lookup_singleton_Some in H1, H2. naive_solver.
  - split; [exact Hn|]. split; [|vm_compute; reflexivity].
    destruct (Hall "c" (healthy 7)) as (m & Hm & _ & _ & Hspec); [vm_compute; reflexivity|].
    unfold runtime_of. rewrite Hrt'. exists m. split; [exact Hm|]. simpl in Hspec.
    destruct (Hspec [1700000010] false) as [-> ->]; [|vm_compute; split; reflexivity].
    left. exists "a", (member_of 1 "a" world3). vm_compute. split_and!; reflexivity.
Defined.

Lemma state_snapshot_complete_witness :
  NoDup ((λ s, (ss_GroupID s, ss_NodeID s)) <$> SnapshotStates [7; 8] world1) ∧
  ∃ s, s ∈ SnapshotStates [7; 8] world1 ∧ ss_GroupID s = 2 ∧ ss_NodeID s = 7.
Proof.
  destruct (state_snapshot_complete [7; 8] world1 world1_wf) as (Hnd & _ & Hcompl).
  split; [exact Hnd|].
  apply (Hcompl 2 (runtime_of 2 world1) "x" (member_of 2 "x" world1));
    [vm_compute; reflexivity|vm_compute; reflexivity|vm_compute; left|vm_compute; congruence].
Defined.

Lemma stale_cleanup_is_harmless_witness :
  let r := Register 1 (300 * GoTime.second) 2 "a" {[ "a" := healthy 7 ]} (Some policy) (instant 50) world1 in
  Unregister 1 (Some 1) r.1 = r.1 ∧ groupRuntimeStore (Unregister 1 r.2 r.1) !! 1 = None.
Proof.
  destruct (stale_cleanup_is_harmless 1 (300 * GoTime.second) 2 "a" {[ "a" := healthy 7 ]} (Some policy)
    (instant 50) world1 1) as (H1 & H2 & _); [done|vm_compute; reflexivity|].
  split; [exact H1|exact H2].
Defined.
