(* ===== verification/GroupRevision.v ===== *)
(** Properties of the group runtime about what it tells its observers: durable
    changes carry fresh, strictly increasing revisions (what the store's
    stale-write guard relies on), and current-tag notifications are throttled
    but not lost. *)

From S2P Require Import Prelude GroupMember GroupRuntime GroupInvariant GroupEviction.

(** The revisions of the durable changes among [es], in order. *)
Definition durable (es : list GroupStateEvent) : list Z :=
  ev_Revision <$> filter (λ e, ev_StateChanged e = true) es.

Lemma durable_app es es' : durable (es ++ es') = durable es ++ durable es'.
Proof. unfold durable. by rewrite filter_app, fmap_app. Qed.

(** From clock [s.1] and log [s.2] to [s'.1] and [s'.2]: the log only grows, and
    the new durable changes are numbered in increasing order by fresh values. *)
Definition advances (s s' : clocklog) : Prop :=
  s.1 ≤ s'.1 ∧ ∃ es, s'.2 = s.2 ++ es ∧ StronglySorted Z.lt (durable es) ∧
    Forall (λ r, s.1 < r ≤ s'.1) (durable es).

#[export] Instance advances_preorder : PreOrder advances.
Proof.
  split.
  - intros s. split; [done|]. exists []. rewrite app_nil_r. split_and!; [done|constructor|constructor].
  - intros s1 s2 s3 [Hc1 (es1 & Hl1 & Hs1 & Hf1)] [Hc2 (es2 & Hl2 & Hs2 & Hf2)].
    split; [lia|]. exists (es1 ++ es2). rewrite durable_app. split_and!.
    + by rewrite Hl2, Hl1, (assoc_L (++)).
    + rewrite Forall_forall in Hf1, Hf2. apply StronglySorted_app_2; [|done|done].
      intros x y Hx Hy. apply Hf1 in Hx. apply Hf2 in Hy. lia.
    + rewrite Forall_app, !Forall_forall in *. split; intros x Hx; [apply Hf1 in Hx|apply Hf2 in Hx]; lia.
Qed.

Lemma advances_clock c c' l : c ≤ c' → advances (c, l) (c', l).
Proof. intros. split; [done|]. exists []. rewrite app_nil_r. split_and!; [done|constructor|constructor]. Qed.

Lemma advances_silent c l e : ev_StateChanged e = false → advances (c, l) (c, l ++ [e]).
Proof.
  intros He. split; [done|]. exists [e]. unfold durable. rewrite filter_cons_False by by rewrite He.
  split_and!; [done|constructor|constructor].
Qed.

Lemma advances_durable c c' l e :
  ev_StateChanged e = true → c < ev_Revision e ≤ c' → advances (c, l) (c', l ++ [e]).
Proof.
  intros He Hr. split; [simpl; lia|]. exists [e]. unfold durable. rewrite filter_cons_True by done. simpl.
  split_and!; [done|repeat constructor|]. apply Forall_singleton. simpl. lia.
Qed.

(** The clock and the log of a world. *)
Definition view (w : world) : clocklog := (stateRevision w, notified w).

Section revision.
Context `{!RangeOrder Z, !RangeOrder string}.

Lemma sweep_store_advances g w :
  (∀ rt s, advances s (g rt s).2) → advances (view w) (view (sweep_store g w)).
Proof.
  intros Hg. unfold sweep_store, view. cbn [stateRevision notified].
  rewrite <-surjective_pairing.
  apply (map_sweep_inv (advances (stateRevision w, notified w))); [done|].
  intros k a s _ Hs. etrans; [done|apply Hg].
Qed.

Lemma propagate_runtime_advances nodeID e at_ rt s : advances s (propagate_runtime nodeID e at_ rt s).2.
Proof.
  unfold propagate_runtime. destruct (range_find _ _) as [[key m]|]; [|done]. destruct s as [c l].
  apply advances_durable; simpl; [done|lia].
Qed.

Lemma clear_runtime_advances P nodeID rt s : advances s (clear_runtime P nodeID rt s).2.
Proof.
  destruct (clear_members_spec P rt s.1) as (Hle & _ & _ & Hrev). unfold clear_runtime.
  destruct (clear_members P rt s.1) as [rt' [c [rev|]]]; cbn [fst snd] in *; destruct s as [c0 l].
  - apply advances_durable; simpl; [done|]. by apply Hrev.
  - by apply advances_clock.
Qed.

Lemma propagateEviction_advances nodeID e at_ now w :
  advances (view w) (view (propagateEviction nodeID e at_ now w)).
Proof.
  unfold propagateEviction. case_decide; [done|]. apply sweep_store_advances.
  intros. apply propagate_runtime_advances.
Qed.

Lemma recoverEverywhere_advances nodeID gid w :
  advances (view w) (view (recoverEvictedNodeEverywhere nodeID gid w)).
Proof.
  unfold recoverEvictedNodeEverywhere. case_decide; [done|].
  change (view w) with (view (set_marks (globalEvictedNodes w ∖ {[nodeID]}) w)).
  apply sweep_store_advances. intros rt s. unfold recover_runtime. case_decide; [done|].
  apply clear_runtime_advances.
Qed.

Lemma announce_evictions_advances gid now tags w :
  advances (view w) (view (announce_evictions gid now tags w)).
Proof.
  unfold announce_evictions. revert w. induction tags as [|t ts IH]; intros w; simpl; [done|].
  etrans; [|apply IH]. destruct (groupRuntimeStore w !! gid) as [rt|]; [|done].
  destruct (gr_members rt !! t) as [m|]; [|done]. destruct (gm_evicted m); [|done].
  apply propagateEviction_advances.
Qed.

Lemma RecordFailure_advances gid tag cause at_ now w :
  advances (view w) (view (RecordFailure gid tag cause at_ now w).1).
Proof.
  unfold RecordFailure. destruct (groupRuntimeStore w !! gid) as [rt|]; [|done].
  destruct (gr_members rt !! tag) as [m|]; [|done]. destruct (gm_evicted m); [done|]. cbn zeta.
  case_decide; [done|]. cbn [touch fst snd].
  match goal with |- context [notifyGroupState ?e ?w0] => set (w1 := notifyGroupState e w0) end.
  assert (H1 : advances (view w) (view w1)) by (apply advances_durable; simpl; [done|lia]).
  destruct (bool_decide (gr_threshold rt ≤ _)); [|exact H1].
  etrans; [exact H1|]. etrans; [|apply propagateEviction_advances]. done.
Qed.

Lemma RecordGroupHealthFailure_advances gid tag p cause at_ now w :
  advances (view w) (view (RecordGroupHealthFailure gid tag p cause at_ now w).1).
Proof.
  unfold RecordGroupHealthFailure.
  destruct (groupRuntimeStore w !! gid) as [rt|]; [|apply RecordFailure_advances].
  destruct (gr_members rt !! tag) as [m|]; [|apply RecordFailure_advances].
  destruct (alreadyAppliedProbe p m) as [applied m1]. cbn zeta.
  destruct applied; [done|]. case_decide; [done|].
  apply (RecordFailure_advances gid tag cause at_ now (put_runtime gid (set_member tag m1 rt) w)).
Qed.

Lemma RecordHealthSuccess_advances gid tag p now w :
  advances (view w) (view (RecordHealthSuccess gid tag p now w).1).
Proof.
  unfold RecordHealthSuccess.
  destruct (groupRuntimeStore w !! gid) as [rt|]; [|done].
  destruct (gr_members rt !! tag) as [m0|]; [|done].
  destruct (alreadyAppliedProbe p m0) as [applied m]. cbn zeta.
  destruct applied; [done|]. destruct (gm_evicted m).
  - destruct (negb _); [done|]. case_decide; [done|]. case_decide; [done|]. cbn [touch fst].
    etrans; [|apply recoverEverywhere_advances]. apply advances_durable; simpl; [done|lia].
  - case_decide; [done|]. cbn [touch fst]. apply advances_durable; simpl; [done|lia].
Qed.

Lemma snapshots_advances prune now w :
  advances (view w) (view (groupRuntimeSnapshots prune now w).1).
Proof.
  unfold groupRuntimeSnapshots, view. cbn zeta. cbn [fst stateRevision notified].
  rewrite <-surjective_pairing.
  apply (map_sweep_inv (λ s : clocklog * gmap Z GroupRuntimeSnapshot,
    advances (stateRevision w, notified w) s.1)); [done|].
  intros k rt s _ Hs. etrans; [exact Hs|]. unfold snapshotGroupRuntime. cbn zeta. cbn [fst snd].
  set (r := map_sweep _ _ _).
  assert (Hr : advances (s.1.1, []) r.2).
  { apply (map_sweep_inv (advances (s.1.1, []))); [done|]. intros key m c _ Hc. etrans; [exact Hc|].
    unfold snapshot_prune. destruct (prune && _); [|done].
    destruct (pruneFailures (gr_window rt) now m) as [[] m1]; [|done]. destruct c as [c l].
    apply advances_durable; simpl; [done|lia]. }
  destruct Hr as [Hc (es & Hl & Hes)]. simpl in Hc, Hl, Hes. split; [exact Hc|].
  exists es. simpl. by rewrite Hl.
Qed.

Lemma gop_advances w w' :
  gop w w' → world_wf w → 0 ≤ stateRevision w → advances (view w) (view w').
Proof.
  intros Hop Hw H0. destruct Hop.
  - unfold Register. case_decide; [done|]. cbn zeta.
    destruct (register_sweep_ok now ms (globalEvictedNodes w, stateRevision w) H0) as [Hle _].
    destruct (map_sweep _ ms _) as [next [marks clock]]. cbn [fst snd] in *.
    etrans; [|apply announce_evictions_advances]. cbn [view].
    etrans; [apply (advances_clock _ clock); exact Hle|].
    match goal with |- advances _ (view (match ?o with _ => _ end)) => destruct o end.
    { by apply advances_silent. }
    case_decide; [done|]. by apply advances_silent.
  - unfold Unregister. by repeat case_match.
  - done.
  - pose proof (ReconcileSilent_wf gid u now w Hw H0) as [_ Hc]. revert Hc. unfold ReconcileSilent.
    destruct (groupRuntimeStore w !! gid) as [rt|]; [|done]. cbn zeta.
    destruct (map_sweep _ _ _) as [next s]. cbn [fst]. rewrite pruneGlobalEvictions_marks.
    apply advances_clock.
  - apply RecordFailure_advances.
  - apply RecordGroupHealthFailure_advances.
  - apply RecordHealthSuccess_advances.
  - unfold RestoreGroupMember. destruct (groupRuntimeStore w !! gid); [|done]. cbn [fst].
    change (view w) with (view (set_marks (globalEvictedNodes w ∖ {[nodeID]}) w)).
    apply sweep_store_advances. intros. apply clear_runtime_advances.
  - unfold MemberAvailable. by repeat case_match.
  - unfold CurrentTag. destruct (groupRuntimeStore w !! gid) as [rt|]; [|done]. cbn zeta.
    destruct (gr_members rt !! gr_currentTag rt) as [m|];
      [|by case_decide; [done|apply advances_silent]].
    destruct (member_admissible m); [|by case_decide; [done|apply advances_silent]].
    case_decide; [|by case_decide; [done|apply advances_silent]].
    match goal with |- context [if ?b then _ else _] => destruct b end; [by apply advances_silent|done].
  - unfold SetCurrentTag. destruct (groupRuntimeStore w !! gid) as [rt|]; [|done]. cbn zeta.
    repeat match goal with |- context [if ?b then _ else _] => destruct b end; try done;
      by apply advances_silent.
  - apply snapshots_advances.
Qed.

(** Along any run of operations the observers' log only grows, and the
    durable changes appended to it carry strictly increasing revisions, each
    newer than every revision handed out before the run: writing them in any
    order under the store's "newer revision wins" guard ends with the last. *)
Theorem durable_changes_are_ordered w w' :
  world_wf w → 0 ≤ stateRevision w → rtc gop w w' →
  ∃ es, notified w' = notified w ++ es ∧ StronglySorted Z.lt (durable es) ∧
    Forall (λ r, stateRevision w < r ≤ stateRevision w') (durable es).
Proof.
  intros Hw H0 Hrun.
  enough (Hadv : advances (view w) (view w')) by by destruct Hadv.
  revert Hw H0. induction Hrun as [w|w1 w2 w3 Hop _ IH]; intros Hw H0; [done|].
  destruct (gop_wf _ _ Hop Hw H0) as [Hw2 Hc2].
  etrans; [by apply gop_advances|]. apply IH; [done|lia].
Qed.
(** ** The current-tag throttle *)

(** A member whose window holds no failure at [now]. *)
Definition settled (rt : groupRuntime) (tag : string) (now : Z) : Prop :=
  ∃ m, gr_members rt !! tag = Some m ∧ member_admissible m = true ∧
    within (GoTime.unix (GoTime.add now (- gr_window rt))) (gm_failureHistory m) = [].

(** [CurrentTag] while a notification is due, and while none is. *)
Lemma CurrentTag_settled gid now w rt :
  groupRuntimeStore w !! gid = Some rt → settled rt (gr_currentTag rt) now →
  let flush := gr_currentNotifyPending rt &&
    bool_decide (currentTagNotifyInterval ≤ GoTime.sub now (gr_lastCurrentNotify rt)) in
  ∃ rt' m', CurrentTag gid now w =
      (if flush then notifyGroupState (current_event gid (gr_currentPendingNodeID rt)) (put_runtime gid rt' w)
       else put_runtime gid rt' w, gr_currentTag rt) ∧
    gr_members rt' !! gr_currentTag rt = Some m' ∧ gr_currentTag rt' = gr_currentTag rt ∧
    member_admissible m' = true ∧ gm_failureHistory m' = [] ∧ gr_window rt' = gr_window rt ∧
    gr_currentNotifyPending rt' = gr_currentNotifyPending rt && negb flush ∧
    gr_lastCurrentNotify rt' = (if flush then now else gr_lastCurrentNotify rt) ∧
    gr_currentPendingNodeID rt' = gr_currentPendingNodeID rt.
Proof.
  intros Hrt (m & Hm & Ha & Hh) flush. unfold CurrentTag. rewrite Hrt. cbn zeta. rewrite Hm, Ha.
  rewrite decide_True by by rewrite pruneFailures_history. fold flush.
  set (m1 := (pruneFailures (gr_window rt) now m).2).
  assert (Hm1 : member_admissible m1 = true ∧ gm_failureHistory m1 = []).
  { subst m1. by rewrite member_admissible_prune, pruneFailures_history. }
  destruct Hm1 as [Ha1 Hh1].
  destruct flush eqn:Hf.
  - exists (set_notify now false (gr_currentPendingNodeID rt) (set_member (gr_currentTag rt) m1 rt)), m1.
    simpl. rewrite lookup_insert_eq. subst flush. apply andb_true_iff in Hf as [-> _]. done.
  - exists (set_member (gr_currentTag rt) m1 rt), m1. simpl. rewrite lookup_insert_eq, andb_true_r. done.
Qed.

(** A switch of the current member within 500 ms of the last notification
    is not announced at once, is announced with its node by the first read of the
    current tag after the interval, and is announced only once. *)
Theorem throttled_switch_is_delivered_once gid tag t0 t1 t2 t3 w rt m :
  groupRuntimeStore w !! gid = Some rt → gr_members rt !! tag = Some m →
  tag ≠ "" → gr_currentTag rt ≠ tag → member_admissible m = true →
  gr_lastCurrentNotify rt = t0 → t0 ≠ GoTime.zero →
  GoTime.sub t1 t0 < currentTagNotifyInterval → currentTagNotifyInterval ≤ GoTime.sub t2 t0 →
  within (GoTime.unix (GoTime.add t2 (- gr_window rt))) (gm_failureHistory m) = [] →
  let w1 := SetCurrentTag gid tag t1 w in
  let r2 := CurrentTag gid t2 w1 in
  let r3 := CurrentTag gid t3 r2.1 in
  notified w1 = notified w ∧
  r2.2 = tag ∧ notified r2.1 = notified w ++ [current_event gid (gm_nodeID m)] ∧
  r3.2 = tag ∧ notified r3.1 = notified r2.1.
Proof.
  intros Hrt Hm Hne Hcur Ha Ht0 Hz Hlt Hge Hh w1 r2 r3.
  assert (Hw1 : w1 = put_runtime gid (set_notify t0 true (gm_nodeID m) (set_currentTag tag rt)) w).
  { subst w1. unfold SetCurrentTag. rewrite Hrt. cbn zeta. rewrite Hm, Ha.
    rewrite andb_false_r, decide_False by done. simpl. rewrite Ht0.
    unfold GoTime.isZero. rewrite (bool_decide_false (t0 = _)) by done.
    by rewrite (bool_decide_true (GoTime.sub t1 t0 < _)) by done. }
  set (rt1 := set_notify t0 true (gm_nodeID m) (set_currentTag tag rt)) in *.
  assert (Hrt1 : groupRuntimeStore w1 !! gid = Some rt1) by (rewrite Hw1; apply lookup_insert_eq).
  destruct (CurrentTag_settled gid t2 w1 rt1 Hrt1) as (rt2 & m2 & Hr2 & Hm2 & Ht2 & Ha2 & Hh2 & Hw2 & Hp2 & _).
  { exists m. by split_and!. }
  simpl in Hr2, Hp2, Hm2, Ht2. rewrite (bool_decide_true (_ ≤ GoTime.sub t2 t0)) in Hr2, Hp2 by done.
  subst r3 r2. rewrite Hr2. cbn [fst snd].
  set (w2 := notifyGroupState _ _).
  assert (Hrt2 : groupRuntimeStore w2 !! gid = Some rt2) by (simpl; apply lookup_insert_eq).
  destruct (CurrentTag_settled gid t3 w2 rt2 Hrt2) as (rt3 & m3 & Hr3 & _).
  { exists m2. rewrite Ht2. split_and!; [done|done|]. by rewrite Hh2. }
  rewrite Hp2 in Hr3. cbn [andb negb] in Hr3. rewrite Hr3. cbn [fst snd].
  split_and!; [by rewrite Hw1|done|by subst w2; rewrite Hw1|exact Ht2|done].
Qed.
End revision.

(** ** Concrete runs *)
Import GroupExample.

Lemma durable_changes_are_ordered_witness :
  let w' := (RecordFailure 1 "a" None (instant 20) (instant 20) world3).1 in
  ∃ es, notified w' = notified world1 ++ es ∧ StronglySorted Z.lt (durable es) ∧
    Forall (λ r, stateRevision world1 < r ≤ stateRevision w') (durable es) ∧ length (durable es) = 3%nat.
Proof.
  cbn zeta.
  destruct (durable_changes_are_ordered world1 (RecordFailure 1 "a" None (instant 20) (instant 20) world3).1)
    as (es & Hes & Hsorted & Hfresh); [exact world1_wf|vm_compute; congruence| |].
  { apply (rtc_l _ _ world3); [apply (GFailure world1 1 "a" (Some "refused") (instant 10) (instant 10))|].
    apply rtc_once, (GFailure world3 1 "a" None (instant 20) (instant 20)). }
  exists es. split; [exact Hes|]. split; [exact Hsorted|]. split; [exact Hfresh|].
  assert (Hlen : length (durable (notified (RecordFailure 1 "a" None (instant 20) (instant 20) world3).1))
    = 3%nat) by (vm_compute; reflexivity).
  assert (Hnone : durable (notified world1) = []) by (vm_compute; reflexivity).
  by rewrite Hes, durable_app, Hnone in Hlen.
Defined.

Lemma throttled_switch_is_delivered_once_witness :
  let w := SetCurrentTag 1 "b" (instant 100) world1 in
  let w1 := SetCurrentTag 1 "a" (instant 100 + 1000) w in
  let r2 := CurrentTag 1 (instant 101) w1 in
  notified w1 = notified w ∧ r2.2 = "a" ∧ notified r2.1 = notified w ++ [current_event 1 7].
Proof.
  set (w := SetCurrentTag 1 "b" (instant 100) world1).
  destruct (throttled_switch_is_delivered_once 1 "a" (instant 100) (instant 100 + 1000) (instant 101)
    (instant 102) w (runtime_of 1 w) (member_of 1 "a" w)) as (H1 & H2 & H3 & _);
    [vm_compute; reflexivity|vm_compute; reflexivity|done|vm_compute; congruence|vm_compute; reflexivity
    |vm_compute; reflexivity|vm_compute; congruence|vm_compute; reflexivity|vm_compute; congruence
    |vm_compute; reflexivity|].
  split; [exact H1|split; [exact H2|exact H3]].
Defined.
