(* ===== verification/GroupMembership.v ===== *)
(** What the data plane never changes in the group runtime: the policy of a group
    and which node each of its tags stands for. Only registration, a silent
    reconciliation and a cleanup touch it. *)

From S2P Require Import Prelude GroupMember GroupRuntime GroupInvariant.

(** The configured part of a group. *)
Definition shape (rt : groupRuntime) : Z * Z * RecoveryPolicy * gmap string Z :=
  (gr_window rt, gr_threshold rt, gr_recovery rt, gm_nodeID <$> gr_members rt).

Definition shapes (w : world) : gmap Z (Z * Z * RecoveryPolicy * gmap string Z) :=
  shape <$> groupRuntimeStore w.

Lemma shapes_put gid rt rt' w :
  groupRuntimeStore w !! gid = Some rt → shape rt' = shape rt → shapes (put_runtime gid rt' w) = shapes w.
Proof.
  intros Hrt Hs. unfold shapes. cbn. rewrite fmap_insert, Hs. apply insert_id. by rewrite lookup_fmap, Hrt.
Qed.

Lemma shape_set_member key m m' rt :
  gr_members rt !! key = Some m → gm_nodeID m' = gm_nodeID m → shape (set_member key m' rt) = shape rt.
Proof.
  intros Hm Hid. unfold shape. cbn. f_equal. rewrite fmap_insert, Hid. apply insert_id.
  by rewrite lookup_fmap, Hm.
Qed.

Section shapes.
Context `{!RangeOrder Z, !RangeOrder string}.

Lemma shapes_sweep (g : groupRuntime → clocklog → groupRuntime * clocklog) w :
  (∀ rt s, shape (g rt s).1 = shape rt) → shapes (sweep_store g w) = shapes w.
Proof.
  intros Hg. unfold shapes, sweep_store. cbn. by apply map_sweep_fmap.
Qed.

Lemma shape_propagate nodeID e at_ rt s : shape (propagate_runtime nodeID e at_ rt s).1 = shape rt.
Proof.
  unfold propagate_runtime. destruct (range_find _ _) as [[key m]|] eqn:Hf; [|done].
  apply range_find_Some in Hf as [Hm _].
  set (m' := set_successes 0 (set_lastError e (set_eviction true at_ m))).
  destruct (touch s.1 m') as [m2 c] eqn:Et. cbn [fst].
  assert (gm_nodeID m2 = gm_nodeID m) as Hid by (unfold touch in Et; by simplify_eq).
  transitivity (shape (set_member key m2 rt)); [by destruct (bool_decide _)|].
  by eapply shape_set_member.
Qed.

Lemma shapes_propagate nodeID e at_ now w : shapes (propagateEviction nodeID e at_ now w) = shapes w.
Proof.
  unfold propagateEviction. destruct (decide _); [done|]. apply shapes_sweep. intros. apply shape_propagate.
Qed.

Lemma shapes_NotifyEvents events now w : shapes (NotifyEvents events now w) = shapes w.
Proof.
  unfold NotifyEvents. revert w. induction events as [|e events IH]; intros w; [done|].
  cbn [foldl]. rewrite IH. destruct (ev_Evicted e); [by rewrite shapes_propagate|done].
Qed.

Lemma shapes_MemberAvailable gid tag now w : shapes (MemberAvailable gid tag now w).1 = shapes w.
Proof.
  unfold MemberAvailable. destruct (groupRuntimeStore w !! gid) as [rt|] eqn:Hrt; [|done].
  destruct (gr_members rt !! tag) as [m|] eqn:Hm; [|done]. cbn [fst]. eapply shapes_put; [done|].
  eapply shape_set_member; [done|]. destruct (gm_evicted m); [done|].
  apply (pruneFailures_frame (gr_window rt) now m).
Qed.

Lemma shapes_SetCurrentTag gid tag now w : shapes (SetCurrentTag gid tag now w) = shapes w.
Proof.
  unfold SetCurrentTag. destruct (groupRuntimeStore w !! gid) as [rt|] eqn:Hrt; [|done].
  destruct (_ && _); [done|]. destruct (decide _); [done|].
  destruct (_ && _); [by eapply shapes_put|].
  change (shapes (notifyGroupState ?e ?w)) with (shapes w). by eapply shapes_put.
Qed.

Lemma shapes_prune removed w : shapes (pruneGlobalEvictions removed w) = shapes w.
Proof.
  unfold pruneGlobalEvictions. revert w. induction removed as [|n removed IH]; intros w; [done|].
  cbn [foldl]. rewrite IH. destruct (decide _); [done|]. by destruct (evicted_somewhere n _).
Qed.

Lemma reconcile_member_node gid window threshold now pc old tag initial s :
  gm_nodeID (reconcile_member gid window threshold now pc old tag initial s).1 = gi_NodeID initial.
Proof.
  unfold reconcile_member. destruct (migrate_member _ _ _ _) as [m0 clock] eqn:Em.
  assert (H0 : gm_nodeID m0 = gi_NodeID initial).
  { unfold migrate_member in Em. by destruct (old !! _); simplify_eq. }
  set (m1 := if decide _ then _ else m0).
  assert (H1 : gm_nodeID m1 = gi_NodeID initial) by (unfold m1; destruct (decide _); cbn; congruence). clearbody m1.
  destruct (pruneFailures_frame window now m1) as (_ & H2 & _).
  destruct (pruneFailures window now m1) as [pruned m2]. cbn [snd] in H2.
  cbn zeta. set (b := negb (gm_evicted m2) && _).
  set (m3 := if b then set_eviction true now m2 else m2).
  assert (H3 : gm_nodeID m3 = gi_NodeID initial) by (unfold m3; destruct b; cbn; congruence). clearbody m3.
  set (m4 := if gm_evicted m3 && _ then _ else m3).
  assert (H4 : gm_nodeID m4 = gi_NodeID initial) by (unfold m4; destruct (gm_evicted m3 && _); cbn; congruence). clearbody m4.
  set (m5 := if gm_evicted m4 && _ && _ then _ else m4).
  assert (H5 : gm_nodeID m5 = gi_NodeID initial) by (unfold m5; destruct (gm_evicted m4 && _ && _); cbn; congruence). clearbody m5.
  by destruct (pruned || b).
Qed.

(** The shape a reconciliation installs. *)
Definition updated_shape (u : GroupRuntime.RuntimeUpdate) (recovery : RecoveryPolicy)
    : Z * Z * RecoveryPolicy * gmap string Z :=
  (if decide (ru_FailureWindow u ≤ 0) then 5 * GoTime.minute else ru_FailureWindow u,
   if decide (ru_FailureThreshold u ≤ 0) then 3 else ru_FailureThreshold u,
   if recoveryPolicyProvided (ru_Recovery u) then NormalizeRecoveryPolicy (ru_Recovery u) else recovery,
   gi_NodeID <$> ru_Members u).

Lemma shapes_ReconcileSilent gid u now w :
  shapes (ReconcileSilent gid u now w).1 =
  match groupRuntimeStore w !! gid with
  | Some rt => <[gid := updated_shape u (gr_recovery rt)]> (shapes w)
  | None => shapes w
  end.
Proof.
  unfold ReconcileSilent. destruct (groupRuntimeStore w !! gid) as [rt|] eqn:Hrt; [|done].
  match goal with |- context [map_sweep ?g ?m ?s0] =>
    assert (Hnext : gm_nodeID <$> (map_sweep g m s0).1 = gi_NodeID <$> m)
      by (apply map_sweep_fmap; intros; apply reconcile_member_node);
    destruct (map_sweep g m s0) as [next s] end.
  cbn [fst] in *. rewrite shapes_prune. unfold shapes. cbn. rewrite fmap_insert. f_equal.
  unfold shape, updated_shape. cbn. by rewrite Hnext.
Qed.
End shapes.
