(* ===== verification/GroupHealer.v ===== *)
(** Capacity healing of a group ([internal/group/healer.go]): the healing policy
    and its validation, the pure planner [PlanHealing], and the selection of
    traffic slots [CapacitySelection] the pools share with it. *)

From stdpp Require Import pretty.
From S2P Require Import Prelude.

(** ** Policy *)
Definition PromoteStandby : string := "promote_standby".
Definition ProbeQuarantined : string := "probe_quarantined".
Definition RefreshSubscription : string := "refresh_subscription".
Definition CapacityAlert : string := "capacity_alert".

Record HealPolicy := mkHealPolicy {
  hp_MinHealthy : Z;
  hp_TargetSize : Z;
  hp_Execute : bool;
  hp_Refill : list string
}.

Definition refill_order : list string := [PromoteStandby; ProbeQuarantined; RefreshSubscription].

(** [slices.Index] in the canonical order. *)
Definition refill_index (action : string) : Z :=
  match list_find (λ a, a = action) refill_order with
  | Some (i, _) => Z.of_nat i
  | None => -1
  end.

Definition quoted (s : string) : string :=
  String (Ascii.ascii_of_nat 34) (s +:+ String (Ascii.ascii_of_nat 34) EmptyString).

Fixpoint validate_refill (refill : list string) (seen : gset string) (previous : Z) : option string :=
  match refill with
  | [] => None
  | action :: refill =>
    if negb (bool_decide (action ∈ refill_order)) then
      Some ("unknown refill action " +:+ quoted action)
    else if decide (action ∈ seen) then Some ("duplicate refill action " +:+ quoted action)
    else if decide (refill_index action < previous) then
      Some "refill order must be promote_standby, probe_quarantined, refresh_subscription"
    else validate_refill refill ({[action]} ∪ seen) (refill_index action)
  end.

Definition Validate (p : HealPolicy) : option string :=
  if bool_decide (hp_MinHealthy p < 0) || bool_decide (hp_TargetSize p < 0)
     || bool_decide (hp_TargetSize p < hp_MinHealthy p) || bool_decide (100000 < hp_TargetSize p)
  then Some "capacity requires 0 <= min_healthy <= target_size <= 100000"
  else validate_refill (hp_Refill p) ∅ (-1).

(** ** Planning *)
Record HealCandidate := mkCandidate {
  hc_NodeID : Z;
  hc_Active : bool;
  hc_Status : string;
  hc_Available : bool;
  hc_InitialCheckDone : bool;
  hc_Provisional : bool;
  hc_HealthCheckedAt : Z;
  hc_RecoveryEnabled : bool;
  hc_RecoveryCooldownEnd : Z
}.

Record HealInput := mkHealInput {
  hi_GroupID : Z;
  hi_Policy : HealPolicy;
  hi_Candidates : list HealCandidate;
  hi_SubscriptionIDs : list Z;
  hi_Now : Z;
  hi_MaxHealthAge : Z
}.

Record HealAction := mkAction {
  ha_Kind : string;
  ha_NodeIDs : list Z;
  ha_RemovedIDs : list Z;
  ha_SubscriptionIDs : list Z;
  ha_Reason : string
}.

Record HealPlan := mkPlan {
  pl_GroupID : Z;
  pl_DryRun : bool;
  pl_Healthy : Z;
  pl_Projected : Z;
  pl_Deficit : Z;
  pl_DesiredIDs : list Z;
  pl_StandbyIDs : list Z;
  pl_Actions : list HealAction
}.

(** [slices.Sort] and [sort.Slice] by node id. *)
Definition by_node (a b : HealCandidate) : Prop := hc_NodeID a ≤ hc_NodeID b.
#[global] Instance by_node_dec a b : Decision (by_node a b).
Proof. unfold by_node. apply _. Defined.
#[global] Instance by_node_total : Total by_node.
Proof. intros a b. unfold by_node. lia. Qed.
#[global] Instance by_node_trans : Transitive by_node.
Proof. intros a b c. unfold by_node. lia. Qed.

(** [slices.Compact]: drop the elements equal to their predecessor. *)
Fixpoint compact_from (x : Z) (l : list Z) : list Z :=
  match l with
  | [] => []
  | y :: l => if decide (x = y) then compact_from x l else y :: compact_from y l
  end.
Definition compact (l : list Z) : list Z :=
  match l with [] => [] | x :: l => x :: compact_from x l end.

Definition uniquePositiveIDs (ids : list Z) : list Z :=
  compact (merge_sort Z.le (filter (λ id, 0 < id) ids)).

(** The duplicate check over the sorted candidates. *)
Fixpoint check_candidates (l : list HealCandidate) (seen : gset Z) : option string :=
  match l with
  | [] => None
  | n :: l =>
    if bool_decide (hc_NodeID n ≤ 0) || bool_decide (hc_NodeID n ∈ seen) then
      Some ("invalid or duplicate candidate " +:+ pretty (hc_NodeID n))
    else check_candidates l ({[hc_NodeID n]} ∪ seen)
  end.

Definition healthy (i : HealInput) (n : HealCandidate) : bool :=
  let age := GoTime.sub (hi_Now i) (hc_HealthCheckedAt n) in
  bool_decide (hc_Status n = "ALIVE") && hc_Available n && hc_InitialCheckDone n
  && negb (hc_Provisional n) && negb (GoTime.isZero (hc_HealthCheckedAt n))
  && bool_decide (0 ≤ age) && bool_decide (age ≤ hi_MaxHealthAge i).

(** [selectNode], and the loops that call it on the candidates satisfying [P]. *)
Definition selectNode (target : Z) (selected : gset Z) (n : HealCandidate) : gset Z :=
  if bool_decide (Z.of_nat (size selected) < target) && negb (bool_decide (hc_NodeID n ∈ selected))
  then {[hc_NodeID n]} ∪ selected else selected.

Definition select_where (P : HealCandidate → bool) (target : Z) (l : list HealCandidate)
    (selected : gset Z) : gset Z :=
  foldl (λ s n, if P n then selectNode target s n else s) selected l.

Definition quarantine_due (i : HealInput) (n : HealCandidate) : bool :=
  bool_decide (hc_Status n = "EVICTED") && hc_RecoveryEnabled n
  && negb (GoTime.before (hi_Now i) (hc_RecoveryCooldownEnd n)).

Definition refill_action (i : HealInput) (candidates : list HealCandidate) (action : string)
    : list HealAction :=
  if decide (action = ProbeQuarantined) then
    let ids := hc_NodeID <$> filter (λ n, quarantine_due i n = true) candidates in
    if decide (ids = []) then []
    else [mkAction action ids [] [] "recheck quarantined candidates after recovery cooldown"]
  else if decide (action = RefreshSubscription) then
    let ids := uniquePositiveIDs (hi_SubscriptionIDs i) in
    if decide (ids = []) then []
    else [mkAction action [] [] ids "healthy capacity remains below minimum"]
  else [].

Definition selected_by (selected : gset Z) (n : HealCandidate) : Prop := hc_NodeID n ∈ selected.
#[global] Instance selected_by_dec selected n : Decision (selected_by selected n).
Proof. unfold selected_by. apply _. Defined.

(** The three selection loops. *)
Definition heal_selection (i : HealInput) (candidates : list HealCandidate) : gset Z :=
  let target := hp_TargetSize (hi_Policy i) in
  let s1 := select_where (λ n, hc_Active n && healthy i n) target candidates ∅ in
  let short := bool_decide (Z.of_nat (size s1) < hp_MinHealthy (hi_Policy i)) in
  let canPromote := bool_decide (PromoteStandby ∈ hp_Refill (hi_Policy i)) in
  let s2 := if short && canPromote
            then select_where (λ n, negb (hc_Active n) && healthy i n) target candidates s1 else s1 in
  select_where hc_Active target candidates s2.

Definition plan_selected (i : HealInput) (candidates : list HealCandidate) (selected : gset Z)
    : HealPlan :=
  let chosen := filter (selected_by selected) candidates in
  let rest := filter (λ n, ¬ selected_by selected n) candidates in
  let added := hc_NodeID <$> filter (λ n, hc_Active n = false) chosen in
  let removed := hc_NodeID <$> filter (λ n, hc_Active n = true) rest in
  let projected := Z.of_nat (length (filter (λ n, healthy i n = true) chosen)) in
  let deficit := Z.max 0 (hp_MinHealthy (hi_Policy i) - projected) in
  let promote :=
    if bool_decide (added = []) && bool_decide (removed = []) then []
    else [mkAction PromoteStandby added removed []
            "select fresh healthy members within target capacity"] in
  let recovery :=
    if decide (0 < deficit) then
      concat (refill_action i candidates <$> hp_Refill (hi_Policy i)) ++
      [mkAction CapacityAlert [] [] []
         ("healthy capacity " +:+ pretty projected +:+ " below minimum " +:+
          pretty (hp_MinHealthy (hi_Policy i)))]
    else [] in
  mkPlan (hi_GroupID i) (negb (hp_Execute (hi_Policy i)))
    (Z.of_nat (length (filter (λ n, hc_Active n && healthy i n = true) candidates)))
    projected deficit (hc_NodeID <$> chosen) (hc_NodeID <$> rest) (promote ++ recovery).

Definition PlanHealing (i : HealInput) : HealPlan * option string :=
  let plan := mkPlan (hi_GroupID i) (negb (hp_Execute (hi_Policy i))) 0 0 0 [] [] [] in
  match Validate (hi_Policy i) with
  | Some e => (plan, Some e)
  | None =>
    if decide (hp_TargetSize (hi_Policy i) = 0) then (plan, None)
    else if GoTime.isZero (hi_Now i) || bool_decide (hi_MaxHealthAge i ≤ 0) then
      (plan, Some "healing requires an explicit clock and positive health freshness")
    else
      let candidates := merge_sort by_node (hi_Candidates i) in
      match check_candidates candidates ∅ with
      | Some e => (plan, Some e)
      | None => (plan_selected i candidates (heal_selection i candidates), None)
      end
  end.

(** ** Traffic slots *)
Definition CapacitySelection (candidates : list Z) (previous : option (list Z)) (target : Z)
    : list Z :=
  let ids := uniquePositiveIDs candidates in
  if decide (target ≤ 0) then ids
  else match previous with
  | None => take (Z.to_nat (Z.min target (Z.of_nat (length ids)))) ids
  | Some previous =>
    foldl (λ selected id,
      if bool_decide (id ∈ ids) && bool_decide (Z.of_nat (length selected) < target)
      then selected ++ [id] else selected) [] (uniquePositiveIDs previous)
  end.

(** ** The selection loops *)
Lemma same_node l m n :
  NoDup (hc_NodeID <$> l) → m ∈ l → n ∈ l → hc_NodeID m = hc_NodeID n → m = n.
Proof.
  intros Hnd Hm Hn Hid.
  apply list_elem_of_lookup in Hm as [a Hma]. apply list_elem_of_lookup in Hn as [b Hnb].
  assert (a = b) as ->; [|congruence].
  eapply (NoDup_lookup (hc_NodeID <$> l)); [done|..]; rewrite list_lookup_fmap.
  - by rewrite Hma.
  - rewrite Hnb. cbn. by rewrite Hid.
Qed.

Definition ids_where (P : HealCandidate → bool) (l : list HealCandidate) : gset Z :=
  list_to_set (hc_NodeID <$> filter (λ n, P n = true) l).

Definition count_where (P : HealCandidate → bool) (l : list HealCandidate) : Z :=
  Z.of_nat (length (filter (λ n, P n = true) l)).

Lemma elem_of_ids_where P l id :
  id ∈ ids_where P l ↔ ∃ n, n ∈ l ∧ P n = true ∧ hc_NodeID n = id.
Proof.
  unfold ids_where. rewrite elem_of_list_to_set, list_elem_of_fmap.
  setoid_rewrite list_elem_of_filter. naive_solver.
Qed.

Lemma size_ids_where P l :
  NoDup (hc_NodeID <$> l) → Z.of_nat (size (ids_where P l)) = count_where P l.
Proof.
  intros Hnd. unfold ids_where, count_where. rewrite size_list_to_set; [by rewrite length_fmap|].
  eapply sublist_NoDup; [exact Hnd|]. apply fmap_sublist, sublist_filter.
Qed.

Lemma selectNode_spec target s n :
  s ⊆ selectNode target s n ∧ selectNode target s n ⊆ {[hc_NodeID n]} ∪ s ∧
  (Z.of_nat (size s) ≤ target → Z.of_nat (size (selectNode target s n)) ≤ target) ∧
  (Z.of_nat (size (selectNode target s n)) < target → hc_NodeID n ∈ selectNode target s n).
Proof.
  unfold selectNode. destruct (decide (Z.of_nat (size s) < target)) as [Hlt|Hge].
  - rewrite (bool_decide_true (_ < _)) by done.
    destruct (decide (hc_NodeID n ∈ s)) as [Hin|Hout].
    + rewrite bool_decide_true by done. cbn. split_and!; [done|apply union_subseteq_r|done|done].
    + rewrite bool_decide_false by done. cbn. rewrite size_union, size_singleton by set_solver.
      split_and!; [apply union_subseteq_r|done|lia|].
      intros _. by apply elem_of_union_l, elem_of_singleton_2.
  - rewrite bool_decide_false by done. cbn. split_and!; [done|apply union_subseteq_r|done|lia].
Qed.

Lemma select_where_spec P target l : ∀ s,
  let r := select_where P target l s in
  s ⊆ r ∧ r ⊆ s ∪ ids_where P l ∧
  (Z.of_nat (size s) ≤ target → Z.of_nat (size r) ≤ target) ∧
  (Z.of_nat (size r) < target → ids_where P l ⊆ r).
Proof.
  induction l as [|n l IH]; intros s.
  - cbn. split_and!; [done|set_solver|done|]. unfold ids_where. set_solver.
  - change (select_where P target (n :: l) s)
      with (select_where P target l (if P n then selectNode target s n else s)). cbn zeta.
    destruct (IH (if P n then selectNode target s n else s)) as (A1 & A2 & A3 & A4).
    set (r := select_where _ _ _ _) in *.
    destruct (selectNode_spec target s n) as (B1 & B2 & B3 & B4).
    destruct (P n) eqn:Hp.
    + assert (Hids : ids_where P (n :: l) = {[hc_NodeID n]} ∪ ids_where P l).
      { unfold ids_where. by rewrite filter_cons_True by done. }
      rewrite Hids. split_and!; [by etrans|clear -A2 B2; set_solver|auto|]. intros Hlt.
      assert (Hin : hc_NodeID n ∈ selectNode target s n); [|specialize (A4 Hlt); clear -A1 A4 Hin; set_solver].
      apply B4. pose proof (subseteq_size _ _ A1). lia.
    + assert (Hids : ids_where P (n :: l) = ids_where P l).
      { unfold ids_where. rewrite filter_cons_False; [done|congruence]. }
      by rewrite Hids.
Qed.

(** A loop started from nothing selects as many nodes as the target allows. *)
Lemma select_where_size P target l :
  0 ≤ target → NoDup (hc_NodeID <$> l) →
  Z.of_nat (size (select_where P target l ∅)) = Z.min target (count_where P l).
Proof.
  intros Ht Hnd. destruct (select_where_spec P target l ∅) as (A1 & A2 & A3 & A4).
  set (r := select_where _ _ _ _) in *. rewrite <-size_ids_where by done.
  assert (Z.of_nat (size r) ≤ target) by (apply A3; rewrite size_empty; lia).
  assert (Hsub : r ⊆ ids_where P l) by set_solver.
  pose proof (subseteq_size _ _ Hsub).
  destruct (decide (Z.of_nat (size r) < target)) as [Hlt|]; [|lia].
  pose proof (subseteq_size _ _ (A4 Hlt)). lia.
Qed.

Lemma check_candidates_None l : ∀ seen,
  check_candidates l seen = None →
  NoDup (hc_NodeID <$> l) ∧ Forall (λ n, 0 < hc_NodeID n ∧ hc_NodeID n ∉ seen) l.
Proof.
  induction l as [|n l IH]; intros seen; cbn; [intros _; split; constructor|].
  destruct (decide (hc_NodeID n ≤ 0)) as [|Hpos]; [by rewrite bool_decide_true|].
  rewrite (bool_decide_false (_ ≤ _)) by done.
  destruct (decide (hc_NodeID n ∈ seen)) as [|Hnew]; [by rewrite bool_decide_true|].
  rewrite bool_decide_false by done. cbn. intros Hc.
  destruct (IH _ Hc) as [Hnd Hall]. rewrite Forall_forall in Hall. split.
  - constructor; [|done]. intros Hin. apply list_elem_of_fmap in Hin as (m & Hm & Hl).
    destruct (Hall _ Hl) as [_ Hout]. apply Hout. rewrite Hm. set_solver.
  - constructor; [split; [lia|done]|]. apply Forall_forall. intros m Hm.
    destruct (Hall _ Hm). set_solver.
Qed.

(** What the three loops guarantee about the nodes they select. *)
Section heal_selection.
Context (i : HealInput) (l : list HealCandidate).
Hypothesis Hnd : NoDup (hc_NodeID <$> l).
Hypothesis Htarget : 0 ≤ hp_TargetSize (hi_Policy i).
Hypothesis Hmin : hp_MinHealthy (hi_Policy i) ≤ hp_TargetSize (hi_Policy i).

#[local] Notation target := (hp_TargetSize (hi_Policy i)).
#[local] Notation healthy_active := (λ n, hc_Active n && healthy i n).

Lemma first_loop :
  let s1 := select_where healthy_active target l ∅ in
  s1 ⊆ ids_where healthy_active l ∧
  Z.of_nat (size s1) = Z.min target (count_where healthy_active l) ∧
  (Z.of_nat (size s1) < target → s1 = ids_where healthy_active l).
Proof.
  destruct (select_where_spec healthy_active target l ∅) as (_ & A2 & _ & A4).
  cbn zeta. split_and!; [set_solver|by apply select_where_size|]. intros Hlt.
  apply leibniz_equiv. set_solver.
Qed.

Lemma heal_selection_size : Z.of_nat (size (heal_selection i l)) ≤ target.
Proof.
  unfold heal_selection. destruct first_loop as (_ & Hsz & _).
  apply select_where_spec. destruct (_ && _); [|lia].
  apply select_where_spec. lia.
Qed.

Lemma heal_selection_ids : heal_selection i l ⊆ ids_where (λ _, true) l.
Proof.
  assert (Hw : ∀ P, ids_where P l ⊆ ids_where (λ _, true) l).
  { intros P id. rewrite !elem_of_ids_where. naive_solver. }
  unfold heal_selection. destruct first_loop as (Hsub & _ & _).
  etrans; [apply select_where_spec|].
  apply union_subseteq. split; [|apply Hw].
  destruct (_ && _).
  - etrans; [apply select_where_spec|]. apply union_subseteq. split; [|apply Hw].
    etrans; [exact Hsub|apply Hw].
  - etrans; [exact Hsub|apply Hw].
Qed.

(** The healthy nodes among the selected ones before active members fill the
    remaining slots: as many as there are, up to what is needed. *)
Lemma heal_selection_healthy :
  PromoteStandby ∈ hp_Refill (hi_Policy i) →
  ∃ s, s ⊆ heal_selection i l ∧ s ⊆ ids_where (healthy i) l ∧
    Z.min (hp_MinHealthy (hi_Policy i)) (count_where (healthy i) l) ≤ Z.of_nat (size s).
Proof.
  intros Hp. unfold heal_selection. rewrite (bool_decide_true (PromoteStandby ∈ _)) by done.
  rewrite andb_true_r. destruct first_loop as (Hsub & Hsz & Hall).
  set (s1 := select_where healthy_active target l ∅) in *.
  assert (Hsub1 : s1 ⊆ ids_where (healthy i) l).
  { intros id Hid%Hsub. apply elem_of_ids_where in Hid as (n & ? & Hn & ?).
    apply elem_of_ids_where. exists n. split_and!; [done| |done]. by apply andb_true_iff in Hn as []. }
  destruct (decide (Z.of_nat (size s1) < hp_MinHealthy (hi_Policy i))) as [Hshort|Hshort].
  - rewrite (bool_decide_true (Z.of_nat _ < _)) by done.
    destruct (select_where_spec (λ n, negb (hc_Active n) && healthy i n) target l s1)
      as (A1 & A2 & A3 & A4).
    set (s2 := select_where _ target l s1) in *. exists s2. split_and!.
    + apply select_where_spec.
    + intros id Hid%A2. apply elem_of_union in Hid as [Hid|Hid]; [by apply Hsub1|].
      apply elem_of_ids_where in Hid as (n & ? & Hn & ?). apply elem_of_ids_where. exists n.
      split_and!; [done| |done]. by apply andb_true_iff in Hn as [].
    + destruct (decide (Z.of_nat (size s2) < target)) as [Hlt|]; [|lia].
      rewrite <-size_ids_where by done. assert (Hin : ids_where (healthy i) l ⊆ s2).
      { intros id Hid. apply elem_of_ids_where in Hid as (n & Hn & Hh & Hi).
        destruct (hc_Active n) eqn:Ha.
        - apply A1. rewrite Hall by lia. apply elem_of_ids_where. exists n. by rewrite Ha.
        - apply A4; [done|]. apply elem_of_ids_where. exists n. by rewrite Ha. }
      pose proof (subseteq_size _ _ Hin). lia.
  - rewrite (bool_decide_false (Z.of_nat _ < _)) by done. exists s1. split_and!.
    + apply select_where_spec.
    + done.
    + lia.
Qed.

(** Standby members are only promoted, when healthy, into a group that lacks
    healthy active members and whose policy allows promotion. *)
Lemma heal_selection_promotes n :
  n ∈ l → hc_NodeID n ∈ heal_selection i l → hc_Active n = false →
  healthy i n = true ∧ PromoteStandby ∈ hp_Refill (hi_Policy i) ∧
  count_where healthy_active l < hp_MinHealthy (hi_Policy i).
Proof.
  intros Hn Hin Ha. unfold heal_selection in Hin.
  destruct first_loop as (Hsub & Hsz & _). set (s1 := select_where healthy_active target l ∅) in *.
  assert (Hno : ∀ P, (∀ m, P m = true → hc_Active m = true) → hc_NodeID n ∉ ids_where P l).
  { intros P HP. rewrite elem_of_ids_where. intros (m & Hm & HPm & Hid).
    assert (m = n) as -> by by eapply same_node.
    specialize (HP _ HPm). congruence. }
  assert (Hs1 : hc_NodeID n ∉ s1).
  { intros Hx%Hsub. eapply Hno; [|exact Hx]. by intros m [? ?]%andb_true_iff. }
  apply select_where_spec in Hin. apply elem_of_union in Hin as [Hin|Hin];
    [|exfalso; by eapply (Hno hc_Active)].
  destruct (decide (Z.of_nat (size s1) < hp_MinHealthy (hi_Policy i))) as [Hshort|Hshort].
  2: { rewrite (bool_decide_false (Z.of_nat _ < _)) in Hin by done. done. }
  rewrite (bool_decide_true (Z.of_nat _ < _)) in Hin by done.
  destruct (decide (PromoteStandby ∈ hp_Refill (hi_Policy i))) as [Hp|Hp].
  2: { rewrite (bool_decide_false (PromoteStandby ∈ _)) in Hin by done. done. }
  rewrite (bool_decide_true (PromoteStandby ∈ _)) in Hin by done. cbn in Hin.
  apply select_where_spec in Hin. apply elem_of_union in Hin as [?|Hin]; [done|].
  split_and!; [|done|lia].
  apply elem_of_ids_where in Hin as (m & Hm & [Hna Hh]%andb_true_iff & Hid).
  by assert (m = n) as -> by by eapply same_node.
Qed.
End heal_selection.

(** ** The plan *)
Lemma Validate_bounds p :
  Validate p = None →
  0 ≤ hp_MinHealthy p ∧ hp_MinHealthy p ≤ hp_TargetSize p ∧ hp_TargetSize p ≤ 100000.
Proof.
  unfold Validate. intros Hv.
  destruct (bool_decide (hp_MinHealthy p < 0) || _ || _ || _) eqn:E; [done|].
  rewrite !orb_false_iff, !bool_decide_eq_false in E. lia.
Qed.

Lemma count_where_perm P l l' : l ≡ₚ l' → count_where P l = count_where P l'.
Proof. intros Hp. unfold count_where. by rewrite Hp. Qed.

(** A successful plan for a managed group comes from the sorted, checked
    candidates. *)
Lemma PlanHealing_ok i plan :
  PlanHealing i = (plan, None) → hp_TargetSize (hi_Policy i) ≠ 0 →
  let l := merge_sort by_node (hi_Candidates i) in
  Validate (hi_Policy i) = None ∧ l ≡ₚ hi_Candidates i ∧ NoDup (hc_NodeID <$> l) ∧
  plan = plan_selected i l (heal_selection i l).
Proof.
  unfold PlanHealing. intros Hp Ht. destruct (Validate (hi_Policy i)); [done|].
  rewrite decide_False in Hp by done. destruct (_ || _); [done|].
  destruct (check_candidates _ _) eqn:E; [done|]. apply check_candidates_None in E as [Hnd _].
  split_and!; [done|apply merge_sort_Permutation|done|congruence].
Qed.

Lemma desired_iff i l n :
  NoDup (hc_NodeID <$> l) → n ∈ l →
  hc_NodeID n ∈ pl_DesiredIDs (plan_selected i l (heal_selection i l)) ↔
  hc_NodeID n ∈ heal_selection i l.
Proof.
  intros Hnd Hn. cbn. rewrite list_elem_of_fmap. setoid_rewrite list_elem_of_filter.
  unfold selected_by. split.
  - by intros (m & -> & Hm & _).
  - intros Hin. by exists n.
Qed.

Lemma projected_count i l :
  pl_Projected (plan_selected i l (heal_selection i l)) =
  Z.of_nat (length (filter (λ n, healthy i n = true ∧ selected_by (heal_selection i l) n) l)).
Proof. cbn. by rewrite list_filter_filter. Qed.

Lemma projected_ge i l s :
  s ⊆ heal_selection i l → s ⊆ ids_where (healthy i) l →
  Z.of_nat (size s) ≤ pl_Projected (plan_selected i l (heal_selection i l)).
Proof.
  intros Hs Hh. rewrite projected_count.
  set (chosen := filter _ l).
  assert (Hsub : s ⊆ list_to_set (hc_NodeID <$> chosen)).
  { intros id Hid. apply elem_of_list_to_set, list_elem_of_fmap.
    pose proof (Hh _ Hid) as Hn. apply elem_of_ids_where in Hn as (n & Hn & Hhn & <-).
    exists n. split; [done|]. apply list_elem_of_filter. split_and!; [done| |done].
    unfold selected_by. by apply Hs. }
  pose proof (subseteq_size _ _ Hsub) as Hle.
  assert (size (list_to_set (C := gset Z) (hc_NodeID <$> chosen)) ≤ length chosen)%nat; [|lia].
  clear. induction chosen as [|n chosen IH]; [done|]. cbn [fmap list_fmap list_to_set length].
  rewrite size_union_alt, size_singleton.
  pose proof (subseteq_size (list_to_set (hc_NodeID <$> chosen) ∖ {[hc_NodeID n]} : gset Z)
    (list_to_set (hc_NodeID <$> chosen)) ltac:(set_solver)). lia.
Qed.

Lemma chosen_size i l :
  NoDup (hc_NodeID <$> l) →
  (length (pl_DesiredIDs (plan_selected i l (heal_selection i l))) ≤ size (heal_selection i l))%nat.
Proof.
  intros Hnd. cbn. rewrite length_fmap. set (chosen := filter _ l).
  assert (Hc : NoDup (hc_NodeID <$> chosen)).
  { eapply sublist_NoDup; [exact Hnd|]. apply fmap_sublist, sublist_filter. }
  rewrite <-(length_fmap hc_NodeID chosen), <-(size_list_to_set (C := gset Z)) by done.
  apply subseteq_size. intros id. rewrite elem_of_list_to_set, list_elem_of_fmap.
  intros (n & -> & [Hsel _]%list_elem_of_filter). exact Hsel.
Qed.

(** A plan is a well-formed split of the candidates. Every candidate is
    either desired or on standby and never both, the desired ones fit the target
    size, and a standby member is promoted only if it is freshly healthy, the
    policy allows promotion, and the healthy active members are fewer than the
    minimum: a sufficiently healthy group is never churned. *)
Theorem healing_plan_fits_capacity i plan :
  PlanHealing i = (plan, None) → hp_TargetSize (hi_Policy i) ≠ 0 →
  pl_DesiredIDs plan ++ pl_StandbyIDs plan ≡ₚ hc_NodeID <$> hi_Candidates i ∧
  NoDup (pl_DesiredIDs plan ++ pl_StandbyIDs plan) ∧
  Z.of_nat (length (pl_DesiredIDs plan)) ≤ hp_TargetSize (hi_Policy i) ∧
  (∀ n, n ∈ hi_Candidates i → hc_NodeID n ∈ pl_DesiredIDs plan → hc_Active n = false →
     healthy i n = true ∧ PromoteStandby ∈ hp_Refill (hi_Policy i) ∧
     pl_Healthy plan < hp_MinHealthy (hi_Policy i)).
Proof.
  intros Hp Ht. destruct (PlanHealing_ok _ _ Hp Ht) as (Hv & Hperm & Hnd & ->).
  destruct (Validate_bounds _ Hv) as (Hmin & Hle & _).
  set (l := merge_sort by_node (hi_Candidates i)) in *.
  assert (Hsplit : pl_DesiredIDs (plan_selected i l (heal_selection i l)) ++
                   pl_StandbyIDs (plan_selected i l (heal_selection i l)) ≡ₚ hc_NodeID <$> l).
  { cbn. rewrite <-fmap_app. apply fmap_Permutation. symmetry. apply filter_partition. }
  split_and!.
  - by rewrite Hsplit, Hperm.
  - by rewrite Hsplit.
  - pose proof (chosen_size i l Hnd). pose proof (heal_selection_size i l Hnd ltac:(lia)). lia.
  - intros n Hn Hd Ha. rewrite <-Hperm in Hn. apply desired_iff in Hd; [|done..].
    by apply (heal_selection_promotes i l Hnd ltac:(lia) Hle n).
Qed.

Lemma refill_action_kind i l action a :
  a ∈ refill_action i l action → ha_Kind a ≠ CapacityAlert.
Proof.
  unfold refill_action. destruct (decide (action = ProbeQuarantined)) as [->|].
  - destruct (decide _); [by intros ?%elem_of_nil|]. by intros ->%list_elem_of_singleton.
  - destruct (decide (action = RefreshSubscription)) as [->|]; [|by intros ?%elem_of_nil].
    destruct (decide _); [by intros ?%elem_of_nil|]. by intros ->%list_elem_of_singleton.
Qed.

Lemma alert_iff i l s :
  (∃ a, a ∈ pl_Actions (plan_selected i l s) ∧ ha_Kind a = CapacityAlert) ↔
  0 < pl_Deficit (plan_selected i l s).
Proof.
  cbn [pl_Actions plan_selected pl_Deficit]. set (deficit := Z.max 0 _).
  setoid_rewrite elem_of_app. split.
  - intros (a & [Ha|Ha] & Hk).
    + destruct (_ && _); [by apply elem_of_nil in Ha|].
      by apply list_elem_of_singleton in Ha as ->.
    + destruct (decide (0 < deficit)); [done|]. by apply elem_of_nil in Ha.
  - intros Hd. rewrite (decide_True (P := 0 < deficit)) by done. eexists. split.
    + right. apply elem_of_app. right. by apply list_elem_of_singleton.
    + done.
Qed.

(** A plan that may promote reaches the minimum of healthy members whenever
    enough candidates are healthy; the deficit and the capacity alert tell
    exactly when there are not enough. *)
Theorem healing_plan_reaches_the_minimum i plan :
  PlanHealing i = (plan, None) → hp_TargetSize (hi_Policy i) ≠ 0 →
  PromoteStandby ∈ hp_Refill (hi_Policy i) →
  Z.min (hp_MinHealthy (hi_Policy i)) (count_where (healthy i) (hi_Candidates i))
    ≤ pl_Projected plan ∧
  (pl_Deficit plan = 0 ↔
     hp_MinHealthy (hi_Policy i) ≤ count_where (healthy i) (hi_Candidates i)) ∧
  ((∃ a, a ∈ pl_Actions plan ∧ ha_Kind a = CapacityAlert) ↔ pl_Deficit plan ≠ 0).
Proof.
  intros Hp Ht Hprom. destruct (PlanHealing_ok _ _ Hp Ht) as (Hv & Hperm & Hnd & ->).
  destruct (Validate_bounds _ Hv) as (Hmin & Hle & _).
  set (l := merge_sort by_node (hi_Candidates i)) in *.
  rewrite <-(count_where_perm _ _ _ Hperm).
  assert (Hge : Z.min (hp_MinHealthy (hi_Policy i)) (count_where (healthy i) l)
                ≤ pl_Projected (plan_selected i l (heal_selection i l))).
  { destruct (heal_selection_healthy i l Hnd ltac:(lia) Hle Hprom) as (s & Hs & Hh & Hsz).
    pose proof (projected_ge i l s Hs Hh). lia. }
  assert (Hub : pl_Projected (plan_selected i l (heal_selection i l)) ≤ count_where (healthy i) l).
  { rewrite projected_count. unfold count_where.
    rewrite (list_filter_iff _ (λ n, selected_by (heal_selection i l) n ∧ healthy i n = true))
      by naive_solver.
    rewrite <-list_filter_filter. apply inj_le, length_filter. }
  set (plan := plan_selected i l (heal_selection i l)) in *.
  assert (Hdef : pl_Deficit plan = Z.max 0 (hp_MinHealthy (hi_Policy i) - pl_Projected plan)) by done.
  split_and!; [done|lia|]. unfold plan. rewrite alert_iff. fold plan. lia.
Qed.

(** A group of three members with a minimum of two: node 1 is healthy, node 2 is
    evicted, node 3 is a healthy standby, node 4 a standby never checked. *)
Module HealExample.
Definition now : Z := GoTime.ofUnix 1000.
Definition candidate (id : Z) (active : bool) (status : string) (checked : Z) : HealCandidate :=
  mkCandidate id active status true true false checked true (GoTime.ofUnix 900).
Definition candidates : list HealCandidate :=
  [candidate 3 false "ALIVE" (GoTime.ofUnix 990); candidate 1 true "ALIVE" (GoTime.ofUnix 980);
   candidate 2 true "EVICTED" (GoTime.ofUnix 970); candidate 4 false "ALIVE" GoTime.zero].
Definition input : HealInput :=
  mkHealInput 7 (mkHealPolicy 2 2 true refill_order) candidates [5; 5] now GoTime.minute.
End HealExample.

Lemma healing_plan_fits_capacity_witness :
  pl_DesiredIDs (PlanHealing HealExample.input).1 = [1; 3] ∧
  Z.of_nat (length (pl_DesiredIDs (PlanHealing HealExample.input).1)) ≤ 2.
Proof.
  split; [vm_compute; reflexivity|].
  refine (proj1 (proj2 (proj2 (healing_plan_fits_capacity HealExample.input
    (PlanHealing HealExample.input).1 _ _)))); vm_compute; congruence.
Defined.

Lemma healing_plan_reaches_the_minimum_witness :
  2 ≤ count_where (healthy HealExample.input) (hi_Candidates HealExample.input) ∧
  pl_Deficit (PlanHealing HealExample.input).1 = 0.
Proof.
  assert (H2 : 2 ≤ count_where (healthy HealExample.input) (hi_Candidates HealExample.input))
    by by vm_compute.
  split; [done|].
  refine (proj2 (proj1 (proj2 (healing_plan_reaches_the_minimum HealExample.input
    (PlanHealing HealExample.input).1 _ _ _))) H2).
  - vm_compute. reflexivity.
  - vm_compute. congruence.
  - refine (bool_decide_eq_true_1 _ _). vm_compute. reflexivity.
Defined.

(** ** Traffic slots *)
Lemma elem_of_compact_from x l y : y ∈ x :: compact_from x l ↔ y ∈ x :: l.
Proof.
  revert x. induction l as [|z l IH]; intros x; [done|]. cbn.
  destruct (decide (x = z)) as [->|].
  - rewrite IH. set_solver.
  - rewrite !(elem_of_cons _ y x). by rewrite IH.
Qed.

Lemma compact_from_sorted x l :
  StronglySorted Z.le (x :: l) → StronglySorted Z.lt (x :: compact_from x l).
Proof.
  revert x. induction l as [|z l IH]; intros x Hs; cbn; [repeat constructor|].
  apply StronglySorted_inv in Hs as [Hs Hx]. apply Forall_cons in Hx as [Hxz Hx].
  destruct (decide (x = z)) as [->|Hne]; [by apply IH|].
  constructor; [by apply IH|]. pose proof (StronglySorted_inv Hs) as [_ Hz].
  rewrite Forall_forall in Hz. apply Forall_forall. intros y.
  rewrite elem_of_compact_from, elem_of_cons. intros [->|Hy]; [lia|].
  specialize (Hz _ Hy). lia.
Qed.

Lemma uniquePositiveIDs_spec ids :
  StronglySorted Z.lt (uniquePositiveIDs ids) ∧
  (∀ id, id ∈ uniquePositiveIDs ids ↔ id ∈ ids ∧ 0 < id).
Proof.
  unfold uniquePositiveIDs. set (l := merge_sort Z.le _).
  assert (Hel : ∀ id, id ∈ l ↔ id ∈ ids ∧ 0 < id).
  { intros id. unfold l. rewrite merge_sort_Permutation, list_elem_of_filter. naive_solver. }
  assert (Hs : StronglySorted Z.le l).
  { unfold l. apply (StronglySorted_merge_sort Z.le). }
  clearbody l. unfold compact. destruct l as [|x l].
  - split; [constructor|]. apply Hel.
  - split; [by apply compact_from_sorted|]. intros id. by rewrite elem_of_compact_from.
Qed.

Lemma capacity_fold (ids : list Z) target prev : ∀ acc,
  foldl (λ selected id,
    if bool_decide (id ∈ ids) && bool_decide (Z.of_nat (length selected) < target)
    then selected ++ [id] else selected) acc prev =
  acc ++ take (Z.to_nat (target - Z.of_nat (length acc))) (filter (λ id, id ∈ ids) prev).
Proof.
  induction prev as [|id prev IH]; intros acc; cbn [foldl].
  - by rewrite filter_nil, take_nil, app_nil_r.
  - destruct (decide (id ∈ ids)) as [Hin|Hin].
    + rewrite (bool_decide_true (id ∈ ids)), filter_cons_True by done. cbn [andb].
      destruct (decide (Z.of_nat (length acc) < target)) as [Hlt|Hge].
      * rewrite bool_decide_true by done. rewrite IH, length_app, <-app_assoc. f_equal.
        cbn [length]. replace (Z.to_nat (target - Z.of_nat (length acc))) with
          (S (Z.to_nat (target - Z.of_nat (length acc + 1)))) by lia. done.
      * rewrite bool_decide_false by done. rewrite IH.
        replace (Z.to_nat (target - Z.of_nat (length acc))) with 0%nat by lia. done.
    + rewrite bool_decide_false, filter_cons_False by done. apply IH.
Qed.

Lemma CapacitySelection_explicit candidates previous target :
  0 < target →
  CapacitySelection candidates (Some previous) target =
  take (Z.to_nat target)
    (filter (λ id, id ∈ uniquePositiveIDs candidates) (uniquePositiveIDs previous)).
Proof.
  intros Ht. unfold CapacitySelection. rewrite decide_False by lia.
  rewrite capacity_fold. cbn [length app]. by rewrite Z.sub_0_r.
Qed.

Lemma lt_sorted_NoDup l : StronglySorted Z.lt l → NoDup l.
Proof.
  induction 1 as [|x l Hs IH Hx]; constructor; [|done]. intros Hin.
  rewrite Forall_forall in Hx. specialize (Hx _ Hin). lia.
Qed.

Lemma lt_sorted_unique l1 l2 :
  StronglySorted Z.lt l1 → StronglySorted Z.lt l2 → (∀ x, x ∈ l1 ↔ x ∈ l2) → l1 = l2.
Proof.
  intros H1 H2 Hel.
  assert (AntiSymm (=) Z.lt) by (intros x y ??; lia).
  apply (StronglySorted_unique Z.lt); [done..|].
  apply NoDup_Permutation; [by apply lt_sorted_NoDup..|done].
Qed.

Lemma lt_sorted_sublist l1 l2 : l1 `sublist_of` l2 → StronglySorted Z.lt l2 → StronglySorted Z.lt l1.
Proof.
  induction 1 as [|x l1 l2 Hsub IH|x l1 l2 Hsub IH]; intros Hs; [done|..];
    apply StronglySorted_inv in Hs as [Hs Hx].
  - constructor; [auto|]. rewrite Forall_forall in Hx |- *. intros y Hy. apply Hx.
    by eapply elem_of_sublist.
  - auto.
Qed.

Lemma capacity_selection_bound candidates previous target :
  0 < target → Z.of_nat (length (CapacitySelection candidates previous target)) ≤ target.
Proof.
  intros Ht. destruct previous as [p|].
  - rewrite CapacitySelection_explicit, length_take by done. lia.
  - unfold CapacitySelection. rewrite decide_False by lia. rewrite length_take. lia.
Qed.

(** The traffic slots are a deterministic, stable choice. The selection is
    strictly increasing, fits the target, contains only positive candidates and,
    when slots were already assigned, only those; it depends on the set of
    candidates alone (the pool collects them by ranging over a map), and
    selecting again from the chosen slots changes nothing. *)
Theorem capacity_selection_is_stable candidates previous target :
  0 < target →
  let selected := CapacitySelection candidates previous target in
  StronglySorted Z.lt selected ∧ Z.of_nat (length selected) ≤ target ∧
  (∀ id, id ∈ selected → id ∈ candidates ∧ 0 < id) ∧
  (∀ slots, previous = Some slots → ∀ id, id ∈ selected → id ∈ slots) ∧
  (∀ candidates', (∀ id, id ∈ candidates' ↔ id ∈ candidates) →
     CapacitySelection candidates' previous target = selected) ∧
  CapacitySelection candidates (Some selected) target = selected.
Proof.
  intros Ht. destruct (uniquePositiveIDs_spec candidates) as [Hs Hel].
  assert (Hshape : ∃ source, CapacitySelection candidates previous target = take (Z.to_nat target) source ∧
    source `sublist_of` (match previous with None => uniquePositiveIDs candidates
                                           | Some p => uniquePositiveIDs p end) ∧
    (∀ id, id ∈ source → id ∈ uniquePositiveIDs candidates)).
  { destruct previous as [p|].
    - eexists. split; [by apply CapacitySelection_explicit|]. split; [apply sublist_filter|].
      intros id Hid. by apply list_elem_of_filter in Hid as [].
    - exists (uniquePositiveIDs candidates). split_and!; [|done|done].
      unfold CapacitySelection. rewrite decide_False by lia.
      destruct (Z.min_spec target (Z.of_nat (length (uniquePositiveIDs candidates)))) as [[? ->]|[? ->]];
        [done|]. rewrite !take_ge by lia. done. }
  destruct Hshape as (source & Hsel & Hsub & Hin). cbn zeta. rewrite Hsel.
  assert (Hsorted : StronglySorted Z.lt (take (Z.to_nat target) source)).
  { eapply lt_sorted_sublist; [apply sublist_take|]. eapply lt_sorted_sublist; [exact Hsub|].
    destruct previous; apply uniquePositiveIDs_spec. }
  assert (Hmem : ∀ id, id ∈ take (Z.to_nat target) source → id ∈ source).
  { intros id Hid. eapply elem_of_sublist; [exact Hid|apply sublist_take]. }
  split_and!.
  - done.
  - rewrite length_take. lia.
  - intros id Hid. by apply Hel, Hin, Hmem.
  - intros slots -> id Hid%Hmem. eapply elem_of_sublist in Hid; [|exact Hsub].
    by apply uniquePositiveIDs_spec in Hid as [].
  - intros c' Hc'. rewrite <-Hsel. unfold CapacitySelection.
    assert (uniquePositiveIDs c' = uniquePositiveIDs candidates) as ->; [|done].
    apply lt_sorted_unique; [apply uniquePositiveIDs_spec|done|].
    intros id. rewrite Hel. destruct (uniquePositiveIDs_spec c') as [_ ->]. naive_solver.
  - rewrite CapacitySelection_explicit by done.
    destruct (uniquePositiveIDs_spec (take (Z.to_nat target) source)) as [Hs2 Hel2].
    assert (uniquePositiveIDs (take (Z.to_nat target) source) = take (Z.to_nat target) source) as ->.
    { apply lt_sorted_unique; [done..|]. intros id. rewrite Hel2. split; [naive_solver|].
      intros Hid. split; [done|]. by apply Hel, Hin, Hmem. }
    rewrite filter_all; [by rewrite take_take, Nat.min_id|].
    apply Forall_forall. auto.
Qed.

Lemma capacity_selection_is_stable_witness :
  CapacitySelection [4; 2; 9; 2; 0] (Some [9; 7; 4]) 2 = [4; 9] ∧
  CapacitySelection [4; 2; 9; 2; 0] (Some [4; 9]) 2 = [4; 9].
Proof.
  split; [vm_compute; reflexivity|].
  assert (Ht : 0 < 2) by done.
  exact (proj2 (proj2 (proj2 (proj2 (proj2
    (capacity_selection_is_stable [4; 2; 9; 2; 0] (Some [9; 7; 4]) 2 Ht)))))).
Defined.
