(* ===== verification/HealerCycle.v ===== *)
(** The healing coordinator ([internal/group/healer_coordinator.go]): one [Tick]
    walks the groups, re-reads each group's input before every stage, and performs
    the planned actions under shared budgets, per-target backoff and an audit trail.

    The backend, the context and the clock are the interface the coordinator is
    written against: a class over an abstract backend state. What the coordinator
    calls is recorded in a trace. [Healer.mu] makes a tick atomic. *)

From stdpp Require Import pretty.
From S2P Require Import Prelude GoClock GroupHealer.

(** ** Errors *)
Record DeferredHealing := mkDeferred { dh_Reason : string; dh_Until : Z }.

(** A non-nil error: its text and what [errors.As] finds in its chain. *)
Record goerr := mkErr { ge_Msg : string; ge_Deferred : option DeferredHealing }.

Definition newline : string := String (Ascii.ascii_of_nat 10) EmptyString.

(** [errors.Join] of two errors, [nil] being [None]. *)
Definition join (a b : option goerr) : option goerr :=
  match a, b with
  | None, e | e, None => e
  | Some a, Some b =>
    Some (mkErr (ge_Msg a +:+ newline +:+ ge_Msg b)
                (match ge_Deferred a with Some d => Some d | None => ge_Deferred b end))
  end.

Definition wrapped (prefix : string) (e : goerr) : goerr := mkErr (prefix +:+ ge_Msg e) (ge_Deferred e).
Definition plain (e : option string) : option goerr := (λ m, mkErr m None) <$> e.

(** ** State *)
Record HealAudit := mkAudit { au_GroupID : Z; au_Status : string; au_Action : HealAction; au_At : Z }.

Record healAttempt := mkAttempt { at_next : Z; at_failures : Z }.

Record Healer := mkHealer {
  h_attempts : gmap string healAttempt;
  h_window : Z;
  h_probes : Z;
  h_refreshes : Z;
  h_cursor : Z
}.

Definition NewHealer : Healer := mkHealer ∅ 0 0 0 0.

Definition set_attempts (a : gmap string healAttempt) (h : Healer) : Healer :=
  mkHealer a (h_window h) (h_probes h) (h_refreshes h) (h_cursor h).
Definition set_budget (window probes refreshes : Z) (h : Healer) : Healer :=
  mkHealer (h_attempts h) window probes refreshes (h_cursor h).
Definition set_cursor (c : Z) (h : Healer) : Healer :=
  mkHealer (h_attempts h) (h_window h) (h_probes h) (h_refreshes h) c.

(** What the coordinator asks of its surroundings. *)
Inductive heal_call :=
| Audit (a : HealAudit)
| Apply (groupID : Z) (ids : list Z)
| Probe (groupID id : Z)
| Refresh (groupID id : Z).

(** [HealingBackend], with [h.now] and [ctx.Err]. *)
Class HealingBackend (B : Type) := {
  hb_now : B → Z * B;
  hb_ctxErr : B → option goerr * B;
  HealingInputs : Z → B → (list HealInput * option goerr) * B;
  HealingInput : Z → Z → B → (HealInput * option goerr) * B;
  (** the four calls that act; the answer is the error *)
  hb_call : heal_call → B → option goerr * B
}.

(** An acting call with its answer. *)
Definition heal_event : Type := heal_call * option goerr.

Record heal_state (B : Type) := mkHealState { hs_healer : Healer; hs_backend : B; hs_trace : list heal_event }.
Arguments mkHealState {B} _ _ _.
Arguments hs_healer {B} _.
Arguments hs_backend {B} _.
Arguments hs_trace {B} _.

(** ** The monad of the coordinator *)
Definition healM (B A : Type) : Type := heal_state B → A * heal_state B.
#[global] Instance healM_ret B : MRet (healM B) := λ A a s, (a, s).
#[global] Instance healM_bind B : MBind (healM B) := λ A C k m s, let '(a, s1) := m s in k a s1.

(** Budgets and delays. *)
Definition probe_budget : Z := 20.
Definition refresh_budget : Z := 2.

Definition base_delay (kind : string) : Z :=
  let d := GoTime.minute in
  let d := if decide (kind = RefreshSubscription) then 5 * GoTime.minute else d in
  if decide (kind = PromoteStandby) then 10 * GoTime.second else d.

Definition maxTime (a b : Z) : Z := if GoTime.after a b then a else b.

Definition set_reason (r : string) (a : HealAction) : HealAction :=
  mkAction (ha_Kind a) (ha_NodeIDs a) (ha_RemovedIDs a) (ha_SubscriptionIDs a) r.
Definition set_nodes (ids : list Z) (a : HealAction) : HealAction :=
  mkAction (ha_Kind a) ids (ha_RemovedIDs a) (ha_SubscriptionIDs a) (ha_Reason a).
Definition set_subscriptions (ids : list Z) (a : HealAction) : HealAction :=
  mkAction (ha_Kind a) (ha_NodeIDs a) (ha_RemovedIDs a) ids (ha_Reason a).

(** The wait after the [failures]-th failure in a row. *)
Definition failure_delay (kind : string) (failures : Z) : Z :=
  let delay := base_delay kind * 2 ^ Z.min (failures - 1) 4 in
  let delay := if bool_decide (kind = RefreshSubscription) && bool_decide (3 ≤ failures)
               then 30 * GoTime.minute else delay in
  Z.min delay (30 * GoTime.minute).

(** Status, audited action and bookkeeping after [run] answered [err] at [now]. *)
Definition settle (now : Z) (err : option goerr) (action : HealAction) (previous : healAttempt)
    : string * HealAction * healAttempt :=
  let delay := base_delay (ha_Kind action) in
  match err with
  | Some e =>
    match ge_Deferred e with
    | Some d => ("deferred", set_reason (dh_Reason d) action,
                 mkAttempt (maxTime (GoTime.add now delay) (dh_Until d)) (at_failures previous))
    | None =>
      let failures := at_failures previous + 1 in
      ("failed", set_reason (ge_Msg e) action,
       mkAttempt (GoTime.add now (failure_delay (ha_Kind action) failures)) failures)
    end
  | None => ("succeeded", action, mkAttempt (GoTime.add now delay) 0)
  end.

(** Why an action may not run now; empty when it may. *)
Definition refusal (h : Healer) (now : Z) (key : string) (kind : string) : string :=
  let previous := default (mkAttempt 0 0) (h_attempts h !! key) in
  let reason := if GoTime.before now (at_next previous)
                then "cooldown or failure backoff until " +:+ rfc3339 (at_next previous) else "" in
  let reason := if bool_decide (kind = ProbeQuarantined) && bool_decide (probe_budget ≤ h_probes h)
                then "global recovery probe budget exhausted (20/minute)" else reason in
  if bool_decide (kind = RefreshSubscription) && bool_decide (refresh_budget ≤ h_refreshes h)
  then "global subscription refresh budget exhausted (2/minute)" else reason.

(** The budget counters of an action about to run. *)
Definition charge (kind : string) (h : Healer) : Healer :=
  set_budget (h_window h)
    (if decide (kind = ProbeQuarantined) then h_probes h + 1 else h_probes h)
    (if decide (kind = RefreshSubscription) then h_refreshes h + 1 else h_refreshes h) h.

(** The refresh authorisation a backend checks against a fresh input. *)
Definition HealingActionAllowed (i : HealInput) (action : string) : bool :=
  hp_Execute (hi_Policy i) && bool_decide (0 < hp_TargetSize (hi_Policy i)) &&
  bool_decide (action ∈ hp_Refill (hi_Policy i)).

Section cycle.
Context {B : Type} `{!HealingBackend B}.

#[local] Notation M := (healM B).

(** Calls on the backend. *)
Definition on_backend {A} (f : B → A * B) : M A := λ s,
  let '(a, b) := f (hs_backend s) in (a, mkHealState (hs_healer s) b (hs_trace s)).
Definition h_now : M Z := on_backend hb_now.
Definition ctxErr : M (option goerr) := on_backend hb_ctxErr.
Definition act (c : heal_call) : M (option goerr) := λ s,
  let '(e, b) := hb_call c (hs_backend s) in
  (e, mkHealState (hs_healer s) b (hs_trace s ++ [(c, e)])).

Definition get_healer : M Healer := λ s, (hs_healer s, s).
Definition modify_healer (f : Healer → Healer) : M unit := λ s,
  (tt, mkHealState (f (hs_healer s)) (hs_backend s) (hs_trace s)).

(** A loop that joins errors. *)
Fixpoint join_each {A} (f : A → M (option goerr)) (l : list A) (err : option goerr) : M (option goerr) :=
  match l with
  | [] => mret err
  | x :: l => e ← f x; join_each f l (join err e)
  end.

Definition current (id : Z) : M (HealInput * HealPlan * option goerr) :=
  now ← h_now;
  '(i, err) ← on_backend (HealingInput id now);
  match err with
  | Some e => mret (i, mkPlan 0 false 0 0 0 [] [] [], Some e)
  | None => let '(plan, e) := PlanHealing i in mret (i, plan, plain e)
  end.

Definition audit (id : Z) (status : string) (action : HealAction) : M (option goerr) :=
  now ← h_now; act (Audit (mkAudit id status action now)).

Definition perform (groupID : Z) (key : string) (action : HealAction) (run : heal_call) : M (option goerr) :=
  err ← ctxErr;
  match err with
  | Some e => mret (Some e)
  | None =>
    now ← h_now;
    h ← get_healer;
    let previous := default (mkAttempt 0 0) (h_attempts h !! key) in
    let reason := refusal h now key (ha_Kind action) in
    if decide (reason ≠ "") then audit groupID "deferred" (set_reason reason action)
    else
      planned ← audit groupID "planned" action;
      match planned with
      | Some e => mret (Some e)
      | None =>
        _ ← modify_healer (charge (ha_Kind action));
        err ← act run;
        now ← h_now;
        let '(status, action, attempt) := settle now err action previous in
        _ ← modify_healer (λ h, set_attempts (<[key := attempt]> (h_attempts h)) h);
        auditErr ← audit groupID status action;
        mret (match err with
              | Some (mkErr _ (Some _)) => auditErr
              | _ => join err auditErr
              end)
      end
  end.

(** One planned action of a stage, given the error accumulated by the stage. *)
Definition run_action (i : HealInput) (plan : HealPlan) (action : HealAction) (err : option goerr)
    : M (option goerr) :=
  let g := hi_GroupID i in
  if decide (ha_Kind action = PromoteStandby) then
    perform g ("group:" +:+ pretty g) action (Apply g (pl_DesiredIDs plan))
  else if decide (ha_Kind action = ProbeQuarantined) then
    join_each (λ id, perform g ("probe:" +:+ pretty id) (set_nodes [id] action) (Probe g id))
      (ha_NodeIDs action) err
  else if decide (ha_Kind action = RefreshSubscription) then
    join_each (λ id, perform g ("subscription:" +:+ pretty id) (set_subscriptions [id] action) (Refresh g id))
      (ha_SubscriptionIDs action) err
  else mret err.

Fixpoint run_actions (kind : string) (i : HealInput) (plan : HealPlan) (actions : list HealAction)
    (err result : option goerr) : M (option goerr) :=
  match actions with
  | [] => mret result
  | action :: actions =>
    if decide (ha_Kind action = kind) then
      err ← run_action i plan action err;
      run_actions kind i plan actions err (join result err)
    else run_actions kind i plan actions err result
  end.

(** The input with promotion struck from the policy. *)
Definition without_promotion (i : HealInput) : HealInput :=
  let p := hi_Policy i in
  mkHealInput (hi_GroupID i)
    (mkHealPolicy (hp_MinHealthy p) (hp_TargetSize p) (hp_Execute p)
       (filter (λ v, v ≠ PromoteStandby) (hp_Refill p)))
    (hi_Candidates i) (hi_SubscriptionIDs i) (hi_Now i) (hi_MaxHealthAge i).

(** One stage; [inr] is the loop's early return. *)
Definition stage (id : Z) (kind : string) (result : option goerr) : M (option goerr + option goerr) :=
  '(i, plan, err) ← current id;
  match err with
  | Some e => mret (inr (join result (Some e)))
  | None =>
    if negb (hp_Execute (hi_Policy i)) then mret (inr result)
    else
      let '(plan, err) :=
        if decide (kind = ProbeQuarantined ∨ kind = RefreshSubscription)
        then PlanHealing (without_promotion i) else (plan, None) in
      match err with
      | Some e => mret (inr (join result (plain (Some e))))
      | None => r ← run_actions kind i plan (pl_Actions plan) None result; mret (inl r)
      end
  end.

Fixpoint stages (id : Z) (kinds : list string) (result : option goerr) : M (option goerr + option goerr) :=
  match kinds with
  | [] => mret (inl result)
  | kind :: kinds =>
    r ← stage id kind result;
    match r with
    | inl result => stages id kinds result
    | inr result => mret (inr result)
    end
  end.

Definition stage_order : list string := [PromoteStandby; ProbeQuarantined; PromoteStandby; RefreshSubscription].

Definition capacity_alert (i : HealInput) (plan : HealPlan) : HealAction :=
  mkAction CapacityAlert [] [] []
    ("healthy capacity " +:+ pretty (pl_Healthy plan) +:+ " below minimum " +:+ pretty (hp_MinHealthy (hi_Policy i))).

Definition runGroup (initial : HealInput) : M (option goerr) :=
  let '(plan, err) := PlanHealing initial in
  match err with
  | Some e => mret (plain (Some e))
  | None =>
    if pl_DryRun plan then join_each (audit (hi_GroupID initial) "dry_run") (pl_Actions plan) None
    else
      r ← stages (hi_GroupID initial) stage_order None;
      match r with
      | inr result => mret result
      | inl result =>
        '(i, final, err) ← current (hi_GroupID initial);
        match err with
        | Some e => mret (join result (Some e))
        | None =>
          if hp_Execute (hi_Policy i) && bool_decide (pl_Healthy final < hp_MinHealthy (hi_Policy i)) then
            e ← audit (hi_GroupID i) "alert" (capacity_alert i final);
            mret (join result e)
          else mret result
        end
      end
  end.

(** The budget window and the stale attempts at the start of a tick. *)
Definition open_window (now : Z) (h : Healer) : Healer :=
  let h1 := if GoTime.isZero (h_window h) || bool_decide (GoTime.minute ≤ GoTime.sub now (h_window h))
            then set_budget now 0 0 h else h in
  set_attempts (filter (λ ka, ¬ GoTime.hour < GoTime.sub now (at_next ka.2)) (h_attempts h1)) h1.

Definition by_group (a b : HealInput) : Prop := hi_GroupID a ≤ hi_GroupID b.
#[global] Instance by_group_dec a b : Decision (by_group a b).
Proof. unfold by_group. apply _. Defined.

(** The groups from [offset] on, in rotation. *)
Fixpoint tick_groups (fuel : nat) (inputs : list HealInput) (cursor offset : Z) (result : option goerr)
    : M (option goerr + option goerr) :=
  match fuel with
  | O => mret (inl result)
  | S fuel =>
    err ← ctxErr;
    match err with
    | Some e => mret (inr (join result (Some e)))
    | None =>
      match inputs !! Z.to_nat ((cursor + offset) mod Z.of_nat (length inputs)) with
      | None => mret (inl result)
      | Some i =>
        e ← runGroup i;
        tick_groups fuel inputs cursor (offset + 1)
          (match e with
           | Some e => join result (Some (wrapped ("heal group " +:+ pretty (hi_GroupID i) +:+ ": ") e))
           | None => result
           end)
      end
    end
  end.

Definition Tick : M (option goerr) :=
  now ← h_now;
  _ ← modify_healer (open_window now);
  '(inputs, err) ← on_backend (HealingInputs now);
  match err with
  | Some e => mret (Some e)
  | None =>
    let inputs := merge_sort by_group inputs in
    h ← get_healer;
    r ← tick_groups (length inputs) inputs (h_cursor h) 0 None;
    match r with
    | inr result => mret result
    | inl result =>
      if decide (inputs = []) then mret result
      else
        _ ← modify_healer (λ h, set_cursor ((h_cursor h + 1) mod Z.of_nat (length inputs)) h);
        mret result
    end
  end.
End cycle.

(** ** What an action is for *)
Definition call_kind (c : heal_call) : string :=
  match c with
  | Audit _ => ""
  | Apply _ _ => PromoteStandby
  | Probe _ _ => ProbeQuarantined
  | Refresh _ _ => RefreshSubscription
  end.

(** The deduplication key of a call. *)
Definition target (c : heal_call) : string :=
  match c with
  | Audit _ => ""
  | Apply g _ => "group:" +:+ pretty g
  | Probe _ id => "probe:" +:+ pretty id
  | Refresh _ id => "subscription:" +:+ pretty id
  end.

(** An audited action names the call. *)
Definition names_call (g : Z) (action : HealAction) (c : heal_call) : Prop :=
  ha_Kind action = call_kind c ∧
  match c with
  | Audit _ => False
  | Apply g' _ => g' = g
  | Probe g' id => g' = g ∧ ha_NodeIDs action = [id]
  | Refresh g' id => g' = g ∧ ha_SubscriptionIDs action = [id]
  end.

(** The clock of a backend does not go back. *)
Class MonotoneClock (B : Type) `{!HealingBackend B} := {
  hb_clock : B → Z;
  clock_now b : hb_clock b ≤ (hb_now b).1 ∧ (hb_now b).1 ≤ hb_clock (hb_now b).2;
  clock_ctxErr b : hb_clock b ≤ hb_clock (hb_ctxErr b).2;
  clock_inputs now b : hb_clock b ≤ hb_clock (HealingInputs now b).2;
  clock_input id now b : hb_clock b ≤ hb_clock (HealingInput id now b).2;
  clock_call c b : hb_clock b ≤ hb_clock (hb_call c b).2
}.

(** ** Where the coordinator can go *)
Section moves.
Context {B : Type} `{!HealingBackend B, !MonotoneClock B}.
#[local] Notation st := (heal_state B).
#[local] Notation clock s := (hb_clock (hs_backend s)).

Definition moves (R : st → st → Prop) {A} (m : healM B A) : Prop := ∀ s, R s (m s).2.

(** Reading the surroundings. *)
Definition idle (s s' : st) : Prop :=
  hs_healer s' = hs_healer s ∧ hs_trace s' = hs_trace s ∧ clock s ≤ clock s'.

Definition audited (g : Z) (status : string) (action : HealAction) (e : option goerr) (s s' : st) : Prop :=
  ∃ t, hs_healer s' = hs_healer s ∧
    hs_trace s' = hs_trace s ++ [(Audit (mkAudit g status action t), e)] ∧ clock s ≤ t ≤ clock s'.

(** An action that ran: refused by nothing, planned, called, settled, audited. *)
Definition ran (g : Z) (key : string) (action : HealAction) (run : heal_call) (s s' : st) : Prop :=
  ∃ now t1 err finish status settled attempt t2 e2,
    refusal (hs_healer s) now key (ha_Kind action) = "" ∧
    settle finish err action (default (mkAttempt 0 0) (h_attempts (hs_healer s) !! key))
      = (status, settled, attempt) ∧
    hs_healer s' = set_attempts (<[key := attempt]> (h_attempts (hs_healer s)))
                     (charge (ha_Kind action) (hs_healer s)) ∧
    hs_trace s' = hs_trace s ++ [(Audit (mkAudit g "planned" action t1), None); (run, err);
                                 (Audit (mkAudit g status settled t2), e2)] ∧
    clock s ≤ now ≤ t1 ∧ t1 ≤ finish ≤ t2 ∧ t2 ≤ clock s'.

(** The steps of the monad on a state in constructor form. *)
Lemma now_spec h b l : ∃ t b', h_now (mkHealState h b l) = (t, mkHealState h b' l) ∧
  hb_clock b ≤ t ∧ t ≤ hb_clock b'.
Proof.
  unfold h_now, on_backend. cbn. pose proof (clock_now b). destruct (hb_now b) as [t b'].
  by exists t, b'.
Qed.

Lemma ctxErr_spec h b l : ∃ e b', ctxErr (mkHealState h b l) = (e, mkHealState h b' l) ∧
  hb_clock b ≤ hb_clock b'.
Proof.
  unfold ctxErr, on_backend. cbn. pose proof (clock_ctxErr b). destruct (hb_ctxErr b) as [t b'].
  by exists t, b'.
Qed.

Lemma act_spec c h b l : ∃ e b', act c (mkHealState h b l) = (e, mkHealState h b' (l ++ [(c, e)])) ∧
  hb_clock b ≤ hb_clock b'.
Proof.
  unfold act. cbn. pose proof (clock_call c b). destruct (hb_call c b) as [t b'].
  by exists t, b'.
Qed.

Lemma audit_spec g status action h b l : ∃ t e b',
  audit g status action (mkHealState h b l)
    = (e, mkHealState h b' (l ++ [(Audit (mkAudit g status action t), e)])) ∧
  hb_clock b ≤ t ∧ t ≤ hb_clock b'.
Proof.
  unfold audit, mbind, healM_bind. destruct (now_spec h b l) as (t & b1 & -> & ? & ?).
  destruct (act_spec (Audit (mkAudit g status action t)) h b1 l) as (e & b2 & -> & ?).
  exists t, e, b2. split_and!; [done|lia|lia].
Qed.

(** The four ways of [perform]. *)
Lemma perform_cases g key action run s :
  let s' := (perform g key action run s).2 in
  idle s s' ∨ (∃ reason e, audited g "deferred" (set_reason reason action) e s s') ∨
  (∃ e, audited g "planned" action (Some e) s s') ∨ ran g key action run s s'.
Proof.
  destruct s as [h b l]. unfold perform, mbind, healM_bind, mret, healM_ret. cbn zeta.
  destruct (ctxErr_spec h b l) as (e & b1 & -> & Hb1). destruct e as [e|]; [by left|].
  destruct (now_spec h b1 l) as (now & b2 & -> & Hn1 & Hn2). unfold get_healer. cbn [hs_healer].
  set (reason := refusal h now key (ha_Kind action)). destruct (decide (reason ≠ "")) as [Hr|Hr].
  { right; left. exists reason.
    destruct (audit_spec g "deferred" (set_reason reason action) h b2 l) as (t & e & b3 & -> & ? & ?).
    exists e, t. split_and!; [done|done|cbn; lia|cbn; lia]. }
  destruct (audit_spec g "planned" action h b2 l) as (t1 & e1 & b3 & -> & ? & ?).
  destruct e1 as [e1|].
  { right; right; left. exists e1, t1. split_and!; [done|done|cbn; lia|cbn; lia]. }
  right; right; right. unfold modify_healer at 1. cbn [hs_healer hs_backend hs_trace].
  destruct (act_spec run (charge (ha_Kind action) h) b3 (l ++ [(Audit (mkAudit g "planned" action t1), None)]))
    as (err & b4 & -> & ?).
  edestruct now_spec as (finish & b5 & -> & ? & ?).
  destruct (settle _ _ _ _) as [[status settled] attempt] eqn:Hs.
  unfold modify_healer. cbn [hs_healer hs_backend hs_trace].
  edestruct (audit_spec g status settled) as (t2 & e2 & b6 & -> & ? & ?).
  exists now, t1, err, finish, status, settled, attempt, t2, e2. cbn [hs_healer hs_backend hs_trace snd].
  split_and!; try lia; [|exact Hs|done|].
  - by destruct (decide (reason = "")).
  - by rewrite <-!app_assoc.
Qed.

(** A relation that every elementary move respects is respected by a tick. *)
Section lift.
Context (R : st → st → Prop) `{!PreOrder R}.
Hypothesis R_idle : ∀ s s', idle s s' → R s s'.
Hypothesis R_note : ∀ g status action e s s',
  status = "dry_run" ∨ status = "alert" → audited g status action e s s' → R s s'.
Hypothesis R_perform : ∀ g action run s,
  names_call g action run → R s (perform g (target run) action run s).2.

Lemma moves_ret {A} (a : A) : moves R (mret a : healM B A).
Proof. intros s. cbn. reflexivity. Qed.

Lemma moves_bind {A C} (m : healM B A) (k : A → healM B C) :
  moves R m → (∀ a, moves R (k a)) → moves R (m ≫= k).
Proof.
  intros Hm Hk s. unfold mbind, healM_bind. specialize (Hm s). destruct (m s) as [a s1].
  etrans; [exact Hm|apply Hk].
Qed.

Lemma moves_read {A} (f : B → A * B) :
  (∀ b, hb_clock b ≤ hb_clock (f b).2) → moves R (on_backend f).
Proof.
  intros Hf s. apply R_idle. unfold on_backend, idle. specialize (Hf (hs_backend s)). by destruct (f _).
Qed.

Lemma moves_now : moves R h_now.
Proof. apply moves_read. intros b. pose proof (clock_now b). lia. Qed.

Lemma moves_note g status action :
  status = "dry_run" ∨ status = "alert" → moves R (audit g status action).
Proof.
  intros Hs [h b l]. destruct (audit_spec g status action h b l) as (t & e & b' & -> & ? & ?).
  eapply (R_note g status action e); [done|]. exists t. cbn. split_and!; [done|done|lia|lia].
Qed.

Lemma moves_current id : moves R (current id).
Proof.
  apply moves_bind; [apply moves_now|]. intros now. apply moves_bind.
  - apply moves_read. apply clock_input.
  - intros [i [e|]]; [apply moves_ret|]. destruct (PlanHealing i). apply moves_ret.
Qed.

Lemma moves_join_each {A} (f : A → healM B (option goerr)) l :
  (∀ x, moves R (f x)) → ∀ err, moves R (join_each f l err).
Proof.
  intros Hf. induction l as [|x l IH]; intros err; cbn; [apply moves_ret|].
  apply moves_bind; [apply Hf|]. intros e. apply IH.
Qed.

Lemma moves_run_action i plan action err : moves R (run_action i plan action err).
Proof.
  unfold run_action. case_decide; [|case_decide; [|case_decide; [|apply moves_ret]]].
  - intros s. by apply (R_perform _ _ (Apply _ _)).
  - apply moves_join_each. intros id s. by apply (R_perform _ _ (Probe _ _)).
  - apply moves_join_each. intros id s. by apply (R_perform _ _ (Refresh _ _)).
Qed.

Lemma moves_run_actions kind i plan actions : ∀ err result,
  moves R (run_actions kind i plan actions err result).
Proof.
  induction actions as [|action actions IH]; intros err result; cbn; [apply moves_ret|].
  case_decide; [|apply IH]. apply moves_bind; [apply moves_run_action|]. intros e. apply IH.
Qed.

Lemma moves_stage id kind result : moves R (stage id kind result).
Proof.
  apply moves_bind; [apply moves_current|]. intros [[i plan] [e|]]; [apply moves_ret|].
  case_match; [apply moves_ret|]. destruct (if decide _ then _ else _) as [p [e|]]; [apply moves_ret|].
  apply moves_bind; [apply moves_run_actions|]. intros r. apply moves_ret.
Qed.

Lemma moves_stages id kinds : ∀ result, moves R (stages id kinds result).
Proof.
  induction kinds as [|kind kinds IH]; intros result; cbn; [apply moves_ret|].
  apply moves_bind; [apply moves_stage|]. intros [r|r]; [apply IH|apply moves_ret].
Qed.

Lemma moves_runGroup i : moves R (runGroup i).
Proof.
  unfold runGroup. destruct (PlanHealing i) as [plan [e|]]; [apply moves_ret|].
  case_match; [apply moves_join_each; intros action; apply moves_note; by left|].
  apply moves_bind; [apply moves_stages|]. intros [r|r]; [|apply moves_ret].
  apply moves_bind; [apply moves_current|]. intros [[i' plan'] [e|]]; [apply moves_ret|].
  case_match; [|apply moves_ret]. apply moves_bind; [apply moves_note; by right|].
  intros e. apply moves_ret.
Qed.

Lemma moves_tick_groups fuel inputs cursor : ∀ offset result,
  moves R (tick_groups fuel inputs cursor offset result).
Proof.
  induction fuel as [|fuel IH]; intros offset result; cbn; [apply moves_ret|].
  apply moves_bind; [apply moves_read, clock_ctxErr|]. intros [e|]; [apply moves_ret|].
  destruct (_ !! _) as [i|]; [|apply moves_ret].
  apply moves_bind; [apply moves_runGroup|]. intros e. apply IH.
Qed.

(** The whole tick: its window, then the groups and the rotation. *)
Hypothesis R_cursor : ∀ c s s', hs_healer s' = set_cursor c (hs_healer s) →
  hs_trace s' = hs_trace s → clock s ≤ clock s' → R s s'.

Lemma Tick_after_window s : ∃ now s1,
  hs_healer s1 = open_window now (hs_healer s) ∧ hs_trace s1 = hs_trace s ∧
  clock s ≤ now ≤ clock s1 ∧ R s1 (Tick s).2.
Proof.
  destruct s as [h b l]. unfold Tick. unfold mbind at 1, healM_bind at 1.
  destruct (now_spec h b l) as (now & b1 & -> & ? & ?).
  unfold mbind at 1, healM_bind at 1. unfold modify_healer at 1. cbn [hs_healer hs_backend hs_trace].
  exists now, (mkHealState (open_window now h) b1 l). split_and!; [done..|].
  match goal with |- R ?x (?m ?x).2 => cut (moves R m); [intros Hm; exact (Hm x)|] end.
  apply moves_bind; [apply moves_read, clock_inputs|]. intros [inputs [e|]]; [apply moves_ret|].
  apply moves_bind; [intros s; cbn; reflexivity|]. intros h1.
  apply moves_bind; [apply moves_tick_groups|]. intros [r|r]; [|apply moves_ret].
  case_decide; [apply moves_ret|]. apply moves_bind; [|intros; apply moves_ret].
  intros s. by eapply R_cursor.
Qed.

Hypothesis R_window : ∀ now s s', hs_healer s' = open_window now (hs_healer s) →
  hs_trace s' = hs_trace s → clock s ≤ now ≤ clock s' → R s s'.

Lemma moves_Tick : moves R Tick.
Proof.
  intros s. destruct (Tick_after_window s) as (now & s1 & ? & ? & ? & ?).
  etrans; [by eapply R_window|done].
Qed.
End lift.

(** The life of a coordinator: ticks, and time passing outside them. *)
Inductive heal_step : st → st → Prop :=
| step_tick s : heal_step s (Tick s).2
| step_outside h b b' l : hb_clock b ≤ hb_clock b' → heal_step (mkHealState h b l) (mkHealState h b' l).
End moves.

(** ** The audit trail *)
Definition acts (c : heal_call) : bool := match c with Audit _ => false | _ => true end.

(** The status an answer is audited under. *)
Definition outcome (err : option goerr) : string :=
  match err with
  | None => "succeeded"
  | Some (mkErr _ (Some _)) => "deferred"
  | Some (mkErr _ None) => "failed"
  end.

Inductive journalled : list heal_event → Prop :=
| journalled_nil : journalled []
| journalled_note a e l :
  au_Status a ≠ "planned" ∨ e ≠ None → journalled l → journalled ((Audit a, e) :: l)
| journalled_action a c err b e l :
  au_Status a = "planned" → acts c = true → names_call (au_GroupID a) (au_Action a) c →
  au_Status b = outcome err → au_GroupID b = au_GroupID a → au_At a ≤ au_At b →
  journalled l → journalled ((Audit a, None) :: (c, err) :: (Audit b, e) :: l).

Lemma journalled_app l1 l2 : journalled l1 → journalled l2 → journalled (l1 ++ l2).
Proof. induction 1; intros; cbn; [done|by constructor; auto|by econstructor; eauto]. Qed.

Lemma settle_status finish err action previous status settled attempt :
  settle finish err action previous = (status, settled, attempt) → status = outcome err.
Proof. unfold settle. destruct err as [[msg [d|]]|]; cbn; naive_solver. Qed.

Lemma journalled_around l : journalled l → ∀ i c err, l !! i = Some (c, err) → acts c = true →
  ∃ j a b e, i = S j ∧ l !! j = Some (Audit a, None) ∧ l !! S i = Some (Audit b, e) ∧
    au_Status a = "planned" ∧ names_call (au_GroupID a) (au_Action a) c ∧
    au_Status b = outcome err ∧ au_GroupID b = au_GroupID a ∧ au_At a ≤ au_At b.
Proof.
  induction 1 as [|a e l Ha Hl IH|a c err b e l ? ? ? ? ? ? Hl IH]; intros i c' err' Hi Hc; [done| |].
  - destruct i as [|i]; [naive_solver|]. destruct (IH i _ _ Hi Hc) as (j & a' & b' & e' & -> & ? & ?).
    by exists (S j), a', b', e'.
  - destruct i as [|[|[|i]]]; [naive_solver| |naive_solver|].
    + cbn in Hi. simplify_eq. by exists 0%nat, a, b, e.
    + destruct (IH i _ _ Hi Hc) as (j & a' & b' & e' & -> & ? & ?). by exists (S (S (S j))), a', b', e'.
Qed.

(** The actions of a trail with the instants of their planned audits. *)
Fixpoint executions (last : Z) (l : list heal_event) : list (heal_call * Z) :=
  match l with
  | [] => []
  | (Audit a, _) :: l => executions (au_At a) l
  | (c, _) :: l => (c, last) :: executions last l
  end.

Lemma executions_note a e l : ∀ last, executions last (l ++ [(Audit a, e)]) = executions last l.
Proof. induction l as [|[[] ?] l IH]; intros last; cbn; by rewrite ?IH. Qed.

Lemma executions_action a c err b e l : ∀ last, acts c = true →
  executions last (l ++ [(Audit a, None); (c, err); (Audit b, e)]) = executions last l ++ [(c, au_At a)].
Proof. intros last Hc. revert last. induction l as [|[[] ?] l IH]; intros last; cbn; [by destruct c|by rewrite ?IH..]. Qed.

Section trail.
Context {B : Type} `{!HealingBackend B, !MonotoneClock B}.
#[local] Notation st := (heal_state B).
#[local] Notation clock s := (hb_clock (hs_backend s)).

Definition trail (s : st) : list (heal_call * Z) := executions 0 (hs_trace s).
Definition fresh (b : B) : st := mkHealState NewHealer b [].

Definition journals (s s' : st) : Prop := ∃ l, hs_trace s' = hs_trace s ++ l ∧ journalled l.

#[local] Instance journals_preorder : PreOrder journals.
Proof.
  split.
  - intros s. exists []. rewrite app_nil_r. split; [done|constructor].
  - intros s1 s2 s3 (l1 & E1 & ?) (l2 & E2 & ?). exists (l1 ++ l2).
    rewrite E2, E1, app_assoc. split; [done|by apply journalled_app].
Qed.

Lemma journals_note g status action e s s' :
  status ≠ "planned" ∨ e ≠ None → audited g status action e s s' → journals s s'.
Proof. intros Hs (t & _ & E & _). eexists. split; [exact E|]. by apply journalled_note; [|constructor]. Qed.

Lemma acts_named g action c : names_call g action c → acts c = true.
Proof. unfold names_call. destruct c; naive_solver. Qed.

Lemma Tick_journals (s : st) : journals s (Tick s).2.
Proof.
  assert (Hsame : ∀ s s' : st, hs_trace s' = hs_trace s → journals s s').
  { intros s1 s2 E. exists []. rewrite app_nil_r. split; [done|constructor]. }
  revert s. apply (moves_Tick journals).
  - intros s s' (_ & E & _). by apply Hsame.
  - intros g status action e s s' Hs. apply journals_note. left. by destruct Hs as [->| ->].
  - intros g action run s Hn.
    destruct (perform_cases g (target run) action run s) as [(_ & E & _)|[(r & e & Ha)|[(e & Ha)|Hr]]].
    + by apply Hsame.
    + eapply journals_note; [|exact Ha]. by left.
    + eapply journals_note; [|exact Ha]. by right.
    + destruct Hr as (now & t1 & err & finish & status & settled & attempt & t2 & e2 & _ & Hs & _ & E & ? & ? & ?).
      eexists. split; [exact E|]. eapply journalled_action; cbn; [done|by eapply acts_named|done| |done|lia|constructor].
      by eapply settle_status.
  - intros c s s' _ E _. by apply Hsame.
  - intros now s s' _ E _. by apply Hsame.
Qed.

(** C33: no healing action escapes the audit trail. In any life of a coordinator,
    every selection applied, candidate probed and subscription refreshed is
    immediately preceded by a planned audit the backend accepted, which names that
    group and that target, and immediately followed by the attempt to audit its
    outcome: succeeded, failed or deferred as the call answered. An action whose
    planned audit fails is not performed. *)
Theorem healing_actions_are_audited b s :
  rtc heal_step (fresh b) s →
  ∀ i c err, hs_trace s !! i = Some (c, err) → acts c = true →
  ∃ j planned settled e,
    i = S j ∧ hs_trace s !! j = Some (Audit planned, None) ∧ hs_trace s !! S i = Some (Audit settled, e) ∧
    au_Status planned = "planned" ∧ names_call (au_GroupID planned) (au_Action planned) c ∧
    au_Status settled = outcome err ∧ au_GroupID settled = au_GroupID planned ∧
    au_At planned ≤ au_At settled.
Proof.
  intros Hr. assert (Hj : journals (fresh b) s).
  { induction Hr as [s|s1 s2 s3 Hstep _ IH]; [reflexivity|]. etrans; [|exact IH].
    destruct Hstep as [s|h b1 b2 l _]; [apply Tick_journals|]. exists []. rewrite app_nil_r.
    split; [done|constructor]. }
  destruct Hj as (l & -> & Hl). by apply journalled_around.
Qed.

(** ** Backoff *)
Lemma base_delay_pos kind : 0 < base_delay kind.
Proof. unfold base_delay. repeat case_decide; done. Qed.

Lemma base_delay_max kind : base_delay kind ≤ 30 * GoTime.minute.
Proof. unfold base_delay. repeat case_decide; done. Qed.

Lemma failure_delay_base kind failures : 1 ≤ failures → base_delay kind ≤ failure_delay kind failures.
Proof.
  intros Hf. unfold failure_delay. pose proof (base_delay_pos kind). pose proof (base_delay_max kind).
  assert (1 ≤ 2 ^ Z.min (failures - 1) 4) by (pose proof (Z.pow_pos_nonneg 2 (Z.min (failures - 1) 4)); lia).
  destruct (_ && _); nia.
Qed.

Definition gap (c : heal_call) : Z := base_delay (call_kind c).

Lemma settle_next finish err action previous status settled attempt :
  settle finish err action previous = (status, settled, attempt) → 0 ≤ at_failures previous →
  finish + base_delay (ha_Kind action) ≤ at_next attempt ∧ 0 ≤ at_failures attempt.
Proof.
  unfold settle. intros Hs Hf. destruct err as [[msg [d|]]|]; cbn in Hs; simplify_eq; cbn; [|split; [|lia]|].
  - split; [|done]. unfold maxTime, GoTime.after, GoTime.add. case_bool_decide; lia.
  - unfold GoTime.add. pose proof (failure_delay_base (ha_Kind action) (at_failures previous + 1)). lia.
  - unfold GoTime.add. lia.
Qed.

Definition spaced (es : list (heal_call * Z)) : Prop :=
  ∀ i j c1 t1 c2 t2, (i < j)%nat → es !! i = Some (c1, t1) → es !! j = Some (c2, t2) →
    target c1 = target c2 → t1 + gap c1 ≤ t2.

Record backed_off (s : st) : Prop := {
  bo_spaced : spaced (trail s);
  bo_failures k a : h_attempts (hs_healer s) !! k = Some a → 0 ≤ at_failures a;
  bo_next c t : (c, t) ∈ trail s →
    t + gap c ≤ clock s ∨
    ∃ a, h_attempts (hs_healer s) !! target c = Some a ∧ t + gap c ≤ at_next a
}.

Lemma backed_off_frame (s s' : st) :
  h_attempts (hs_healer s') = h_attempts (hs_healer s) → trail s' = trail s → clock s ≤ clock s' →
  backed_off s → backed_off s'.
Proof.
  intros E1 E2 Hc [H1 H2 H3]. constructor; rewrite ?E1, ?E2; [done|done|]. intros c t [?|?]%H3; [left; lia|by right].
Qed.

Lemma trail_audited g status action e (s s' : st) : audited g status action e s s' → trail s' = trail s.
Proof. intros (t & _ & E & _). unfold trail. rewrite E. apply executions_note. Qed.

Lemma refusal_waits h now key kind :
  refusal h now key kind = "" → at_next (default (mkAttempt 0 0) (h_attempts h !! key)) ≤ now.
Proof.
  unfold refusal. intros Hr. repeat case_match; try done.
  match goal with H : GoTime.before _ _ = false |- _ => apply bool_decide_eq_false in H; lia end.
Qed.

Lemma spaced_snoc es c t :
  spaced es → (∀ c' t', (c', t') ∈ es → target c' = target c → t' + gap c' ≤ t) → spaced (es ++ [(c, t)]).
Proof.
  intros Hs Hn i j c1 t1 c2 t2 Hij Hi Hj Ht.
  destruct (decide (j < length es)%nat) as [|Hge].
  - rewrite lookup_app_l in Hi by lia. rewrite lookup_app_l in Hj by lia. by eapply (Hs i j).
  - rewrite lookup_app_r in Hj by lia. apply list_lookup_singleton_Some in Hj as [Hj [= <- <-]].
    rewrite lookup_app_l in Hi by lia. eapply Hn; [|done]. by eapply list_elem_of_lookup_2.
Qed.

Lemma ran_backed_off g action run (s s' : st) :
  names_call g action run → ran g (target run) action run s s' → backed_off s → backed_off s'.
Proof.
  intros Hn (now & t1 & err & finish & status & settled & attempt & t2 & e2 & Hr & Hs & Eh & Et & ? & ? & ?) [Hsp Hfl Hnx].
  assert (Htrail : trail s' = trail s ++ [(run, t1)]).
  { unfold trail. rewrite Et. apply (executions_action (mkAudit g "planned" action t1)). by eapply acts_named. }
  assert (Hk : ha_Kind action = call_kind run) by apply Hn.
  apply refusal_waits in Hr. apply settle_next in Hs as [Hnext Hfail].
  2:{ destruct (_ !! _) eqn:E; cbn; [by eapply Hfl|done]. }
  constructor; rewrite ?Htrail, ?Eh; cbn [h_attempts set_attempts charge set_budget].
  - apply spaced_snoc; [done|]. intros c t [?|(a & Ha & ?)]%Hnx Htc; [lia|].
    rewrite Htc in Ha. rewrite Ha in Hr. cbn in Hr. lia.
  - intros k a [[<- <-]|[_ Ha]]%lookup_insert_Some; [done|by eapply Hfl].
  - intros c t [Hin|Hin%list_elem_of_singleton]%elem_of_app.
    + destruct (Hnx c t Hin) as [?|(a & Ha & ?)]; [left; lia|].
      destruct (decide (target c = target run)) as [Heq|Hne].
      * left. rewrite Heq in Ha. rewrite Ha in Hr. cbn in Hr. lia.
      * right. exists a. rewrite lookup_insert_ne by done. done.
    + simplify_eq. right. exists attempt. rewrite lookup_insert_eq. split; [done|]. unfold gap. rewrite <-Hk. lia.
Qed.

Lemma open_window_attempts now h :
  h_attempts (open_window now h) = filter (λ ka, ¬ GoTime.hour < GoTime.sub now (at_next ka.2)) (h_attempts h).
Proof. unfold open_window. by destruct (_ || _). Qed.

Lemma Tick_backed_off (s : st) : backed_off s → backed_off (Tick s).2.
Proof.
  revert s. cut (moves (λ s s' : st, backed_off s → backed_off s') Tick); [intros Hm s; apply (Hm s)|].
  apply moves_Tick.
  - split; [by intros s|intros s1 s2 s3; auto].
  - intros s s' (Eh & Et & ?). apply backed_off_frame; [by rewrite Eh|by unfold trail; rewrite Et|done].
  - intros g status action e s s' _ Ha. pose proof (trail_audited _ _ _ _ _ _ Ha).
    destruct Ha as (t & Eh & _ & ?). apply backed_off_frame; [by rewrite Eh|done|lia].
  - intros g action run s Hn.
    destruct (perform_cases g (target run) action run s) as [(Eh & Et & ?)|[(r & e & Ha)|[(e & Ha)|Hr]]].
    + apply backed_off_frame; [by rewrite Eh|by unfold trail; rewrite Et|done].
    + pose proof (trail_audited _ _ _ _ _ _ Ha). destruct Ha as (t & Eh & _ & ?).
      apply backed_off_frame; [by rewrite Eh|done|lia].
    + pose proof (trail_audited _ _ _ _ _ _ Ha). destruct Ha as (t & Eh & _ & ?).
      apply backed_off_frame; [by rewrite Eh|done|lia].
    + by eapply ran_backed_off.
  - intros c s s' Eh Et Hc. apply backed_off_frame; [by rewrite Eh|by unfold trail; rewrite Et|done].
  - intros now s s' Eh Et Hc [Hsp Hfl Hnx].
    assert (Etr : trail s' = trail s) by (unfold trail; by rewrite Et).
    constructor; rewrite ?Etr, ?Eh, ?open_window_attempts; [done| |].
    + intros k a [Ha _]%map_lookup_filter_Some. by eapply Hfl.
    + intros c t [?|(a & Ha & ?)]%Hnx; [left; lia|].
      destruct (decide (GoTime.hour < GoTime.sub now (at_next a))) as [Hold|Hnew].
      * left. assert (GoTime.hour < now - at_next a) by (unfold GoTime.sub in Hold; unfold GoTime.maxDuration, GoTime.minDuration in Hold;
          assert (GoTime.hour = 3600000000000) as Eho by done; rewrite Eho in *; lia).
        assert (GoTime.hour = 3600000000000) by done. lia.
      * right. exists a. split; [|done]. by apply map_lookup_filter_Some.
Qed.

(** A target is never hammered. In any life of a coordinator on a clock that
    does not go back, two actions on the same target (a quarantined node whichever
    group asks, a subscription, a group's selection) are planned at least the base
    delay of their kind apart: a minute, five minutes, ten seconds. *)
Theorem healing_targets_cool_down b s i j c1 t1 c2 t2 :
  rtc heal_step (fresh b) s → (i < j)%nat →
  trail s !! i = Some (c1, t1) → trail s !! j = Some (c2, t2) → target c1 = target c2 →
  t1 + gap c1 ≤ t2.
Proof.
  intros Hr. assert (Hb : backed_off s); [|by apply (bo_spaced s Hb)].
  assert (H0 : backed_off (fresh b)) by (split; [intros ??????? [=]|intros ?? [=]|intros ??; cbn; set_solver]).
  induction Hr as [s|s1 s2 s3 Hstep _ IH]; [done|]. apply IH.
  destruct Hstep as [s|h b1 b2 l Hc]; [by apply Tick_backed_off|].
  by eapply (backed_off_frame (mkHealState h b1 l)).
Qed.
End trail.

(** ** Budgets *)
Definition count {A} (P : A → Prop) `{∀ x, Decision (P x)} (l : list A) : Z := Z.of_nat (length (filter P l)).

Lemma count_app {A} (P : A → Prop) `{∀ x, Decision (P x)} l1 l2 : count P (l1 ++ l2) = count P l1 + count P l2.
Proof. unfold count. rewrite filter_app, length_app. lia. Qed.

Lemma count_nonneg {A} (P : A → Prop) `{∀ x, Decision (P x)} l : 0 ≤ count P l.
Proof. unfold count. lia. Qed.

Lemma count_mono {A} (P Q : A → Prop) `{∀ x, Decision (P x), ∀ x, Decision (Q x)} l :
  (∀ x, x ∈ l → P x → Q x) → count P l ≤ count Q l.
Proof.
  unfold count. induction l as [|x l IH]; intros Hpq; [done|].
  assert (Z.of_nat (length (filter P l)) ≤ Z.of_nat (length (filter Q l))) by (apply IH; set_solver).
  rewrite !filter_cons. pose proof (Hpq x ltac:(set_solver)).
  destruct (decide (P x)), (decide (Q x)); cbn [length]; [lia|tauto|lia|lia].
Qed.

Lemma count_none {A} (P : A → Prop) `{∀ x, Decision (P x)} l : (∀ x, x ∈ l → ¬ P x) → count P l = 0.
Proof. intros Hp. unfold count. rewrite filter_nothing; [done|]. by apply Forall_forall. Qed.

Lemma count_singleton {A} (P : A → Prop) `{∀ x, Decision (P x)} x :
  count P [x] = if decide (P x) then 1 else 0.
Proof. unfold count. rewrite filter_cons. by case_decide. Qed.

(** What a kind may use in one window, and has used. *)
Definition allowance (kind : string) : Z := if decide (kind = ProbeQuarantined) then probe_budget else refresh_budget.
Definition used (kind : string) (h : Healer) : Z :=
  if decide (kind = ProbeQuarantined) then h_probes h else h_refreshes h.

Definition of_kind (kind : string) (e : heal_call * Z) : Prop := call_kind e.1 = kind.
Definition since (kind : string) (t : Z) (e : heal_call * Z) : Prop := of_kind kind e ∧ t < e.2.
Definition in_minute (kind : string) (t : Z) (e : heal_call * Z) : Prop :=
  of_kind kind e ∧ t ≤ e.2 < t + GoTime.minute.
#[global] Instance of_kind_dec kind e : Decision (of_kind kind e).
Proof. unfold of_kind. apply _. Defined.
#[global] Instance since_dec kind t e : Decision (since kind t e).
Proof. unfold since. apply _. Defined.
#[global] Instance in_minute_dec kind t e : Decision (in_minute kind t e).
Proof. unfold in_minute. apply _. Defined.

Definition budgeted (kind : string) : Prop := kind = ProbeQuarantined ∨ kind = RefreshSubscription.

Lemma refusal_budget h now key kind :
  budgeted kind → refusal h now key kind = "" → used kind h < allowance kind.
Proof.
  intros Hk. unfold refusal, used, allowance. destruct Hk as [->| ->]; cbn [andb];
    repeat case_bool_decide; try case_decide; intros; try done; lia.
Qed.

Lemma used_charge kind k h :
  budgeted kind → used kind (charge k h) = used kind h + (if decide (k = kind) then 1 else 0).
Proof.
  intros Hk. unfold used, charge. destruct Hk as [->| ->]; cbn [h_probes h_refreshes set_budget];
    repeat case_decide; subst; try done; lia.
Qed.

Section budget.
Context {B : Type} `{!HealingBackend B, !MonotoneClock B} (kind : string).
Hypothesis Hkind : budgeted kind.
#[local] Notation st := (heal_state B).
#[local] Notation clock s := (hb_clock (hs_backend s)).
#[local] Notation window s := (h_window (hs_healer s)).

(** The actions split at the opening of the current window. *)
Record within_budget (s : st) : Prop := {
  wb_clock : 0 < clock s ∧ window s ≤ clock s;
  wb_past e : e ∈ trail s → e.2 ≤ clock s;
  wb_first : window s = 0 → trail s = [];
  wb_minute t : count (in_minute kind t) (trail s) ≤ 2 * allowance kind;
  wb_split : ∃ old recent, trail s = old ++ recent ∧
    (∀ e, e ∈ old → e.2 ≤ window s) ∧ (∀ e, e ∈ recent → window s ≤ e.2) ∧
    count (of_kind kind) recent ≤ used kind (hs_healer s) ≤ allowance kind ∧
    count (since kind (window s - GoTime.minute)) old ≤ allowance kind
}.

Lemma allowance_pos : 0 < allowance kind.
Proof. unfold allowance. by case_decide. Qed.

Lemma within_budget_frame (s s' : st) :
  window s' = window s → used kind (hs_healer s') = used kind (hs_healer s) → trail s' = trail s →
  clock s ≤ clock s' → within_budget s → within_budget s'.
Proof.
  intros E1 E2 E3 Hc [H1 H2 H3 H4 H5]. constructor; rewrite ?E1, ?E2, ?E3; [lia| |done|done|done].
  intros e He%H2. lia.
Qed.

(** One more action in the current window. *)
Lemma within_budget_action c t (s s' : st) :
  window s' = window s → window s ≠ 0 → trail s' = trail s ++ [(c, t)] → clock s ≤ t → t ≤ clock s' →
  used kind (hs_healer s') = used kind (hs_healer s) + (if decide (call_kind c = kind) then 1 else 0) →
  (call_kind c = kind → used kind (hs_healer s) < allowance kind) →
  within_budget s → within_budget s'.
Proof.
  intros E1 Hw E3 Ht Ht' E2 Hlt [Hclk Hpast _ Hmin (old & recent & Esp & Hold & Hrec & Hused & Hsince)].
  assert (Hnew : count (of_kind kind) (recent ++ [(c, t)]) ≤ used kind (hs_healer s') ≤ allowance kind).
  { rewrite count_app, count_singleton, E2.
    destruct (decide (of_kind kind (c, t))) as [Hk|Hk], (decide (call_kind c = kind)) as [Hc|Hc];
      [specialize (Hlt Hc)|done|done|]; lia. }
  constructor; rewrite ?E1, ?E3; [lia| |done| |].
  - intros e [He|He%list_elem_of_singleton]%elem_of_app; [apply Hpast in He; lia|by subst].
  - intros t0. destruct (decide (in_minute kind t0 (c, t))) as [[Hk Ht0]|Hno].
    + rewrite Esp, <-app_assoc, count_app. cbn [snd] in Ht0.
      assert (count (in_minute kind t0) old ≤ count (since kind (window s - GoTime.minute)) old).
      { apply count_mono. intros e _ [? ?]. split; [done|]. lia. }
      assert (count (in_minute kind t0) (recent ++ [(c, t)]) ≤ count (of_kind kind) (recent ++ [(c, t)])).
      { apply count_mono. by intros e _ [? ?]. }
      lia.
    + rewrite count_app. rewrite (count_none _ [(c, t)]); [specialize (Hmin t0); lia|].
      by intros e He%list_elem_of_singleton; subst.
  - exists old, (recent ++ [(c, t)]). rewrite Esp, app_assoc. split_and!; [done|done| |apply Hnew|apply Hnew|done].
    intros e [He|He%list_elem_of_singleton]%elem_of_app; [by apply Hrec|subst; cbn; lia].
Qed.

(** A new window. *)
Lemma within_budget_window now (s s' : st) :
  hs_healer s' = open_window now (hs_healer s) → hs_trace s' = hs_trace s → clock s ≤ now ≤ clock s' →
  within_budget s → within_budget s' ∧ window s' ≠ 0.
Proof.
  intros Eh Et Hnow Hb. assert (Etr : trail s' = trail s) by (unfold trail; by rewrite Et).
  unfold open_window in Eh. destruct (GoTime.isZero (window s) || _) eqn:Hz.
  - assert (Hw : window s' = now) by (by rewrite Eh).
    assert (Hu : used kind (hs_healer s') = 0) by (rewrite Eh; unfold used; by destruct (decide (kind = _))).
    destruct Hb as [Hclk Hpast Hfirst Hmin (old & recent & Esp & Hold & Hrec & Hused & Hsince)].
    split; [|lia]. pose proof allowance_pos. constructor; rewrite ?Etr, ?Hw; [lia| |lia|done|].
    + intros e He%Hpast. lia.
    + exists (trail s), []. rewrite app_nil_r, Hu. split_and!; [done| |set_solver|done|lia|].
      { intros e He%Hpast. lia. }
      apply orb_prop in Hz as [Hz|Hz]; apply bool_decide_eq_true in Hz.
      * rewrite Hfirst by done. unfold count. cbn. lia.
      * assert (window s + GoTime.minute ≤ now).
        { unfold GoTime.sub, GoTime.minDuration in Hz. assert (GoTime.minute = 60000000000) as Em by done. rewrite Em in *. lia. }
        rewrite Esp, count_app.
        rewrite (count_none _ old); [|intros e He [_ ?]; apply Hold in He; lia].
        etrans; [|apply Hused]. etrans; [|apply Hused]. apply count_mono. by intros e _ [? ?].
  - apply orb_false_iff in Hz as [Hz _]. apply bool_decide_eq_false in Hz. split; [|by rewrite Eh].
    eapply (within_budget_frame s); [by rewrite Eh|by rewrite Eh|done|lia|done].
Qed.

(** A tick opens its window first; what follows never touches it. *)
Definition opened (s : st) : Prop := within_budget s ∧ window s ≠ 0.

Lemma used_attempts a h : used kind (set_attempts a h) = used kind h.
Proof. done. Qed.

Lemma perform_opened g action run (s : st) :
  names_call g action run → opened s → opened (perform g (target run) action run s).2.
Proof.
  intros Hn [Hb Hw]. unfold opened. pose proof (perform_cases g (target run) action run s) as Hcases.
  revert Hcases. generalize (perform g (target run) action run s).2. cbn zeta.
  intros s' [(Eh & Et & ?)|[(r & e & Ha)|[(e & Ha)|Hr]]].
  - rewrite Eh. split; [|done]. eapply (within_budget_frame s); [by rewrite Eh..|by unfold trail; rewrite Et|done|done].
  - pose proof (trail_audited _ _ _ _ _ _ Ha). destruct Ha as (t & Eh & _ & ?). rewrite Eh.
    split; [|done]. eapply (within_budget_frame s); [by rewrite Eh..|done|lia|done].
  - pose proof (trail_audited _ _ _ _ _ _ Ha). destruct Ha as (t & Eh & _ & ?). rewrite Eh.
    split; [|done]. eapply (within_budget_frame s); [by rewrite Eh..|done|lia|done].
  - destruct Hr as (now & t1 & err & finish & status & settled & attempt & t2 & e2 & Hr & _ & Eh & Et & ? & ? & ?).
    rewrite Eh. split; [|done].
    assert (Hk : ha_Kind action = call_kind run) by apply Hn.
    eapply (within_budget_action run t1 s); [by rewrite Eh|done| |lia|lia| | |done].
    + unfold trail. rewrite Et. apply (executions_action (mkAudit g "planned" action t1)). by eapply acts_named.
    + rewrite Eh, used_attempts, used_charge by done. by rewrite Hk.
    + intros Hc. rewrite Hk, Hc in Hr. by eapply refusal_budget.
Qed.

Lemma Tick_within_budget (s : st) : within_budget s → within_budget (Tick s).2.
Proof.
  intros Hb. assert (Hpre : PreOrder (λ s s' : st, opened s → opened s')).
  { split; [by intros ?|intros s1 s2 s3; auto]. }
  edestruct (Tick_after_window (λ s s', opened s → opened s')) with (s := s)
    as (now & s1 & Eh & Et & Hnow & Hstep).
  - intros s1 s2 (Eh & Et & ?) [? ?]. split; [|by rewrite Eh].
    eapply (within_budget_frame s1); [by rewrite Eh..|by unfold trail; rewrite Et|done|done].
  - intros g status action e s1 s2 _ Ha [? ?]. pose proof (trail_audited _ _ _ _ _ _ Ha).
    destruct Ha as (t & Eh & _ & ?). split; [|by rewrite Eh].
    eapply (within_budget_frame s1); [by rewrite Eh..|done|lia|done].
  - intros g action run s1. apply perform_opened.
  - intros c s1 s2 Eh Et ? [? ?]. split; [|by rewrite Eh].
    eapply (within_budget_frame s1); [by rewrite Eh..|by unfold trail; rewrite Et|done|done].
  - apply Hstep. by eapply within_budget_window.
Qed.

Lemma reachable_within_budget b s :
  0 < hb_clock b → rtc heal_step (fresh b) s → within_budget s.
Proof.
  intros Hb Hr. assert (H0 : within_budget (fresh b)).
  { pose proof allowance_pos. constructor; cbn; [lia|by intros e ?%elem_of_nil|done| |].
    - intros t. unfold count. cbn. lia.
    - exists [], []. split_and!; [done|by intros e ?%elem_of_nil..| | |].
      + unfold count, used. case_decide; cbn; lia.
      + unfold used. case_decide; cbn; lia.
      + unfold count. cbn. lia. }
  induction Hr as [s|s1 s2 s3 Hstep _ IH]; [done|]. apply IH.
  destruct Hstep as [s|h b1 b2 l Hc]; [by apply Tick_within_budget|].
  by eapply (within_budget_frame (mkHealState h b1 l)).
Qed.
End budget.

(** Recovery work is bounded however many groups ask for it. In any life of a
    coordinator on a clock that does not go back, any sixty seconds see at most two
    fixed windows' worth of actions over all groups: forty recovery probes and four
    subscription refreshes. *)
Theorem healing_work_is_bounded `{!HealingBackend B, !MonotoneClock B} (b : B) s t :
  0 < hb_clock b → rtc heal_step (fresh b) s →
  count (in_minute ProbeQuarantined t) (trail s) ≤ 40 ∧
  count (in_minute RefreshSubscription t) (trail s) ≤ 4.
Proof.
  intros Hb Hr. split.
  - apply (wb_minute ProbeQuarantined s). by apply (reachable_within_budget _ (or_introl eq_refl) b).
  - apply (wb_minute RefreshSubscription s). by apply (reachable_within_budget _ (or_intror eq_refl) b).
Qed.

(** ** A coordinator at work: two evicted nodes, a failing probe, a deferred refresh. *)
Module HealerExample.
Definition quarantined (id : Z) : HealCandidate := mkCandidate id true "EVICTED" false true false 0 true 0.
Definition policy : HealPolicy := mkHealPolicy 1 2 true refill_order.
Definition input (id now : Z) : HealInput :=
  mkHealInput id policy [quarantined 11; quarantined 12] [5] now GoTime.minute.

#[local] Instance backend : HealingBackend Z := {
  hb_now b := (b, b + 1);
  hb_ctxErr b := (None, b);
  HealingInputs now b := ([input 7 now; input 3 now], None, b);
  HealingInput id now b := (input id now, None, b);
  hb_call c b :=
    (match c with
     | Probe _ 11 => Some (mkErr "timeout" None)
     | Refresh _ _ => Some (mkErr "busy" (Some (mkDeferred "busy" 0)))
     | _ => None
     end, b + 1)
}.

#[local] Program Instance clock : MonotoneClock Z := { hb_clock b := b }.
Solve All Obligations with intros; cbn; lia.

Definition start : Z := GoTime.ofUnix 1700000000.
Lemma started : 0 < hb_clock start.
Proof. vm_compute. reflexivity. Qed.
Definition one : heal_state Z := (Tick (fresh start)).2.
Definition later : heal_state Z :=
  mkHealState (hs_healer one) (hs_backend one + 2 * GoTime.minute) (hs_trace one).
Definition two : heal_state Z := (Tick later).2.

Lemma runs : rtc heal_step (fresh start) two.
Proof.
  eapply rtc_l; [apply step_tick|]. eapply rtc_l; [|eapply rtc_l; [apply step_tick|apply rtc_refl]].
  unfold later. change (Tick (fresh start)).2 with one. destruct one as [h b l]. apply step_outside. cbn.
  assert (0 < GoTime.minute) by done. lia.
Qed.

Lemma first_probe : hs_trace two !! 1%nat = Some (Probe 3 11, Some (mkErr "timeout" None)).
Proof. vm_compute. reflexivity. Qed.
Lemma probed_at : trail two !! 0%nat = Some (Probe 3 11, 63835596800000000004).
Proof. vm_compute. reflexivity. Qed.
Lemma probed_again_at : trail two !! 3%nat = Some (Probe 7 11, 63835596920000000049).
Proof. vm_compute. reflexivity. Qed.
End HealerExample.
#[local] Existing Instances HealerExample.backend HealerExample.clock.

Lemma healing_actions_are_audited_witness :
  ∃ j planned settled e,
    1%nat = S j ∧ hs_trace HealerExample.two !! j = Some (Audit planned, None) ∧
    hs_trace HealerExample.two !! 2%nat = Some (Audit settled, e) ∧
    au_Status planned = "planned" ∧ names_call (au_GroupID planned) (au_Action planned) (Probe 3 11) ∧
    au_Status settled = "failed" ∧ au_GroupID settled = au_GroupID planned ∧
    au_At planned ≤ au_At settled.
Proof.
  exact (healing_actions_are_audited HealerExample.start HealerExample.two HealerExample.runs
           1%nat (Probe 3 11) (Some (mkErr "timeout" None)) HealerExample.first_probe eq_refl).
Defined.

Lemma healing_targets_cool_down_witness :
  63835596800000000004 + gap (Probe 3 11) ≤ 63835596920000000049.
Proof.
  exact (healing_targets_cool_down HealerExample.start HealerExample.two 0 3 (Probe 3 11) _ (Probe 7 11) _
           HealerExample.runs (Nat.lt_0_succ 2) HealerExample.probed_at HealerExample.probed_again_at eq_refl).
Defined.

Lemma healing_work_is_bounded_witness :
  count (in_minute ProbeQuarantined HealerExample.start) (trail HealerExample.two) ≤ 40 ∧
  count (in_minute RefreshSubscription HealerExample.start) (trail HealerExample.two) ≤ 4.
Proof.
  exact (healing_work_is_bounded HealerExample.start HealerExample.two HealerExample.start
           HealerExample.started HealerExample.runs).
Defined.
