(* ===== verification/HealthJournal.v ===== *)
(** The durable health journal ([internal/store/health_events.go]) and the group
    state rows it commits with ([UpsertGroupNodeState] in
    [internal/store/sqlite.go]): an ordered, bounded list of measurements, one
    forward-only cursor per consumer, and one row per group and node.

    The SQL statements are modelled by their effect on the tables. [seq] is an
    AUTOINCREMENT column, so numbers are never reused; timestamps are stored in a
    fixed-width layout, so comparing the texts is comparing the instants. *)

From S2P Require Import Prelude.

(** ** Rows *)
Record HealthEvent := mkHealthEvent {
  he_Seq : Z;
  he_NodeID : Z;
  he_IdentityToken : string;
  he_IdentityRevision : Z;
  he_Tag : string;
  he_ProbeID : string;
  he_Success : bool;
  he_LatencyMs : Z;
  he_Error : string;
  he_CheckedAt : Z;
  he_RecordedAt : Z
}.

Record GroupNodeState := mkGroupNodeState {
  ns_GroupID : Z;
  ns_NodeID : Z;
  ns_FailureHistory : list Z;
  ns_Evicted : bool;
  ns_LastError : string;
  ns_EvictedAt : Z;
  ns_UpdatedAt : Z;
  ns_Revision : Z
}.

Definition state_key (s : GroupNodeState) : Z * Z := (ns_GroupID s, ns_NodeID s).

(** The tables; [db_subjects] holds the group and node pairs the foreign keys of
    [group_node_states] accept. *)
Record journal_db := mkJournal {
  db_events : list HealthEvent;
  db_next : Z;
  db_cursors : gmap string Z;
  db_states : gmap (Z * Z) GroupNodeState;
  db_subjects : gset (Z * Z)
}.

Record HealthEventJournalStats := mkJournalStats {
  js_Count : Z;
  js_MinSeq : Z;
  js_MaxSeq : Z;
  js_OldestRecordedAt : Z
}.

Definition HealthEventJournalLimit : Z := 8192.
Definition ErrHealthEventJournalFull : string := "health event journal full".

(** Timestamps written with [formatTime] keep whole seconds. *)
Definition stored_time (t : Z) : Z := t / GoTime.second * GoTime.second.

(** ** Journal *)
Definition with_seq (seq recordedAt : Z) (e : HealthEvent) : HealthEvent :=
  mkHealthEvent seq (he_NodeID e) (he_IdentityToken e) (he_IdentityRevision e) (he_Tag e)
    (he_ProbeID e) (he_Success e) (he_LatencyMs e) (he_Error e) (he_CheckedAt e) recordedAt.

Definition AppendHealthEvent (event : HealthEvent) (now : Z) (db : journal_db)
    : journal_db * result Z :=
  if decide (HealthEventJournalLimit ≤ Z.of_nat (length (db_events db)))
  then (db, Err ErrHealthEventJournalFull)
  else
    let recordedAt := if GoTime.isZero (he_RecordedAt event) then now else he_RecordedAt event in
    (mkJournal (db_events db ++ [with_seq (db_next db) recordedAt event]) (db_next db + 1)
       (db_cursors db) (db_states db) (db_subjects db), Ok (db_next db)).

Definition ListHealthEventsAfter (after limit : Z) (db : journal_db) : list HealthEvent :=
  let limit := if decide (limit ≤ 0 ∨ 512 < limit) then 512 else limit in
  take (Z.to_nat limit) (filter (λ e, after < he_Seq e) (db_events db)).

Definition MaxHealthEventSeq (db : journal_db) : Z :=
  foldr (λ e m, Z.max (he_Seq e) m) 0 (db_events db).

Definition JournalStats (db : journal_db) : HealthEventJournalStats :=
  let mins f := match db_events db with
                | [] => 0
                | e :: es => foldr (λ e m, Z.min (f e) m) (f e) es
                end in
  mkJournalStats (Z.of_nat (length (db_events db))) (mins he_Seq) (MaxHealthEventSeq db)
    (mins he_RecordedAt).

(** ** Cursors *)
Definition GetHealthEventCursor (consumer : string) (db : journal_db) : option Z :=
  db_cursors db !! consumer.

Definition PutHealthEventCursor (consumer : string) (seq : Z) (db : journal_db) : journal_db :=
  let stored := match db_cursors db !! consumer with
                | None => seq
                | Some old => if decide (old < seq) then seq else old
                end in
  mkJournal (db_events db) (db_next db) (<[consumer := stored]> (db_cursors db)) (db_states db)
    (db_subjects db).

(** ** Group state rows *)
Definition set_states (ss : gmap (Z * Z) GroupNodeState) (db : journal_db) : journal_db :=
  mkJournal (db_events db) (db_next db) (db_cursors db) ss (db_subjects db).

Definition stored_row (now : Z) (s : GroupNodeState) : GroupNodeState :=
  mkGroupNodeState (ns_GroupID s) (ns_NodeID s) (ns_FailureHistory s) (ns_Evicted s) (ns_LastError s)
    (stored_time (ns_EvictedAt s)) (stored_time now) (ns_Revision s).

Definition foreignKeyError : string := "FOREIGN KEY constraint failed".

Definition UpsertGroupNodeState (s : GroupNodeState) (now : Z) (db : journal_db) : result journal_db :=
  if decide (state_key s ∉ db_subjects db) then Err foreignKeyError
  else match db_states db !! state_key s with
  | Some old =>
    if decide (ns_Revision s = 0 ∨ ns_Revision old ≤ ns_Revision s)
    then Ok (set_states (<[state_key s := stored_row now s]> (db_states db)) db)
    else Ok db
  | None => Ok (set_states (<[state_key s := stored_row now s]> (db_states db)) db)
  end.

Definition ClearGroupNodeState (groupID nodeID : Z) (db : journal_db) : journal_db :=
  set_states (delete (groupID, nodeID) (db_states db)) db.

Definition isMissingSubjectErr (e : string) : bool := bool_decide (e = foreignKeyError).

(** The state writes of one transaction: rows whose group or node was deleted
    are dropped. [fault] is the first other error the database reports, if any. *)
Fixpoint upsert_all (states : list GroupNodeState) (now : Z) (db : journal_db) : result journal_db :=
  match states with
  | [] => Ok db
  | s :: states =>
    match UpsertGroupNodeState s now db with
    | Ok db' => upsert_all states now db'
    | Err e => if isMissingSubjectErr e then upsert_all states now db else Err e
    end
  end.

(** The transaction either commits everything or leaves the database as it was:
    a failed statement or commit is the [fault] of the environment. *)
Definition AdvanceHealthCursorWithState (consumer : string) (seq : Z) (states : list GroupNodeState)
    (now : Z) (fault : option string) (db : journal_db) : journal_db * result unit :=
  match fault with
  | Some e => (db, Err e)
  | None =>
    match upsert_all states now db with
    | Err e => (db, Err e)
    | Ok db' =>
      if decide (consumer = "" ∨ seq ≤ 0) then (db', Ok tt)
      else (PutHealthEventCursor consumer seq db', Ok tt)
    end
  end.

(** ** Pruning *)
Definition cursor_or_zero (db : journal_db) (consumer : string) : Z :=
  default 0 (db_cursors db !! consumer).

(** [SELECT MIN(COALESCE(c.seq,0))] over the active consumers. *)
Fixpoint min_cursor (db : journal_db) (consumer : string) (rest : list string) : Z :=
  match rest with
  | [] => cursor_or_zero db consumer
  | c :: cs => Z.min (cursor_or_zero db consumer) (min_cursor db c cs)
  end.

Definition prunable (olderThan : Z) (activeConsumers : list string) (db : journal_db)
    (e : HealthEvent) : bool :=
  bool_decide (he_RecordedAt e < olderThan) &&
  match activeConsumers with
  | [] => true
  | c :: cs => bool_decide (he_Seq e ≤ min_cursor db c cs)
  end.

Definition PruneHealthEvents (olderThan : Z) (activeConsumers : list string) (db : journal_db)
    : journal_db * Z :=
  let kept := filter (λ e, prunable olderThan activeConsumers db e = false) (db_events db) in
  (mkJournal kept (db_next db) (db_cursors db) (db_states db) (db_subjects db),
   Z.of_nat (length (db_events db)) - Z.of_nat (length kept)).

(** ** Well-formedness *)
Record journal_wf (db : journal_db) : Prop := {
  jw_sorted : StronglySorted Z.lt (he_Seq <$> db_events db);
  jw_fresh : Forall (λ e, 0 < he_Seq e < db_next db) (db_events db);
  jw_bounded : Z.of_nat (length (db_events db)) ≤ HealthEventJournalLimit;
  jw_next : 0 < db_next db;
  jw_keys : ∀ k s, db_states db !! k = Some s → state_key s = k ∧ k ∈ db_subjects db
}.

(** ** Lemmas *)
Lemma elem_of_take_sub {A} (n : nat) (l : list A) x : x ∈ take n l → x ∈ l.
Proof. rewrite <-(take_drop n l) at 2. set_solver. Qed.

Lemma StronglySorted_filter_fmap {A} (f : A → Z) (P : A → Prop) `{∀ x, Decision (P x)} l :
  StronglySorted Z.lt (f <$> l) → StronglySorted Z.lt (f <$> filter P l).
Proof.
  induction l as [|x l IH]; simpl; [done|]. intros Hs. apply StronglySorted_inv in Hs as [Hs Hf].
  destruct (decide (P x)); [rewrite filter_cons_True by done|by rewrite filter_cons_False; auto].
  simpl. constructor; [by apply IH|]. rewrite !Forall_fmap in *.
  apply Forall_forall. intros y [_ Hy]%list_elem_of_filter. rewrite Forall_forall in Hf. by apply Hf.
Qed.

Lemma min_cursor_le db c cs c' : c' ∈ c :: cs → min_cursor db c cs ≤ cursor_or_zero db c'.
Proof.
  revert c. induction cs as [|d cs IH]; intros c; simpl.
  - intros ->%list_elem_of_singleton. lia.
  - intros [->|Hin]%elem_of_cons; [lia|]. specialize (IH d Hin). lia.
Qed.

Lemma min_cursor_attained db c cs : ∃ c', c' ∈ c :: cs ∧ min_cursor db c cs = cursor_or_zero db c'.
Proof.
  revert c. induction cs as [|d cs IH]; intros c; simpl; [exists c; split; [left|done]|].
  destruct (IH d) as (c' & Hin & Heq). destruct (decide (cursor_or_zero db c ≤ min_cursor db d cs)).
  - exists c. split; [left|lia].
  - exists c'. split; [by right|lia].
Qed.

Lemma AppendHealthEvent_wf e now db : journal_wf db → journal_wf (AppendHealthEvent e now db).1.
Proof.
  intros Hw. unfold AppendHealthEvent. case_decide; [done|]. cbn [fst].
  destruct Hw as [Hs Hf Hb Hn Hk].
  split; simpl.
  - rewrite fmap_app. apply StronglySorted_app_2; [|done|repeat constructor].
    intros x y Hx Hy%list_elem_of_singleton. subst y. simpl.
    apply list_elem_of_fmap in Hx as (e' & -> & Hin). rewrite Forall_forall in Hf.
    destruct (Hf _ Hin). lia.
  - apply Forall_app. split; [|apply Forall_singleton; simpl; lia].
    eapply Forall_impl; [exact Hf|]. simpl. lia.
  - rewrite length_app. simpl. lia.
  - lia.
  - done.
Qed.

Lemma PutHealthEventCursor_wf c seq db : journal_wf db → journal_wf (PutHealthEventCursor c seq db).
Proof. intros []. by split. Qed.

Lemma UpsertGroupNodeState_wf s now db db' :
  journal_wf db → UpsertGroupNodeState s now db = Ok db' → journal_wf db'.
Proof.
  intros Hw. unfold UpsertGroupNodeState. destruct (decide (state_key s ∉ db_subjects db)) as [|Hin]; [done|].
  apply dec_stable in Hin.
  assert (Hset : journal_wf (set_states (<[state_key s := stored_row now s]> (db_states db)) db)).
  { destruct Hw. split; simpl; try done. intros k r. rewrite lookup_insert.
    case_decide; [|by auto]. intros [= <-]. subst k. done. }
  destruct (db_states db !! state_key s); [case_decide|]; intros [= <-]; done.
Qed.

Lemma upsert_all_wf ss now db db' : journal_wf db → upsert_all ss now db = Ok db' → journal_wf db'.
Proof.
  revert db. induction ss as [|s ss IH]; intros db Hw; simpl; [by intros [= <-]|].
  destruct (UpsertGroupNodeState s now db) as [db1|e] eqn:Hu.
  - apply IH. by eapply UpsertGroupNodeState_wf.
  - destruct (isMissingSubjectErr e); [by apply IH|done].
Qed.

Lemma AdvanceHealthCursorWithState_wf c seq ss now fault db :
  journal_wf db → journal_wf (AdvanceHealthCursorWithState c seq ss now fault db).1.
Proof.
  intros Hw. unfold AdvanceHealthCursorWithState. destruct fault; [done|].
  destruct (upsert_all ss now db) as [db'|] eqn:Hu; [|done].
  pose proof (upsert_all_wf _ _ _ _ Hw Hu). case_decide; [done|]. by apply PutHealthEventCursor_wf.
Qed.

Lemma PruneHealthEvents_wf t cs db : journal_wf db → journal_wf (PruneHealthEvents t cs db).1.
Proof.
  intros []. split; simpl; try done.
  - by apply StronglySorted_filter_fmap.
  - apply Forall_forall. intros e [_ He]%list_elem_of_filter. rewrite Forall_forall in jw_fresh0. auto.
  - etrans; [|done]. pose proof (length_filter_le (λ e, prunable t cs db e = false) (db_events db)). lia.
Qed.

Lemma ClearGroupNodeState_wf g n db : journal_wf db → journal_wf (ClearGroupNodeState g n db).
Proof.
  intros []. split; simpl; try done. intros k s. rewrite lookup_delete_Some. intros [_ ?]. by auto.
Qed.

(** ** Properties *)

Lemma journal_page_nil after limit db :
  ListHealthEventsAfter after limit db = [] ↔ Forall (λ e, he_Seq e ≤ after) (db_events db).
Proof.
  unfold ListHealthEventsAfter. cbn zeta.
  set (n := if decide (limit ≤ 0 ∨ 512 < limit) then 512 else limit).
  assert (Hn : 0 < n) by (subst n; case_decide; lia). clearbody n. rewrite Forall_forall. split.
  - intros Hnil e He. destruct (decide (after < he_Seq e)) as [Hlt|]; [|lia].
    assert (He' : e ∈ filter (λ e, after < he_Seq e) (db_events db)) by by apply list_elem_of_filter.
    destruct (filter (λ e, after < he_Seq e) (db_events db)) as [|x xs]; [set_solver|].
    destruct (Z.to_nat n) eqn:Hz; [lia|done].
  - intros Hall. rewrite filter_nothing; [by rewrite take_nil|].
    apply Forall_forall. intros e He. specialize (Hall e He). lia.
Qed.

(** Reading after a cursor returns, in commit order, exactly the oldest
    events the consumer has not read: every event newer than the cursor comes
    before the end of the page or after its last sequence number, and nothing at
    or before the cursor is returned. *)
Theorem journal_page_is_the_oldest_unread after limit db :
  journal_wf db →
  let page := ListHealthEventsAfter after limit db in
  StronglySorted Z.lt (he_Seq <$> page) ∧
  (0 < limit ≤ 512 → Z.of_nat (length page) ≤ limit) ∧ (length page ≤ 512)%nat ∧
  (∀ e, e ∈ page → e ∈ db_events db ∧ after < he_Seq e) ∧
  (∀ e, e ∈ db_events db → after < he_Seq e → e ∈ page ∨ ∀ e', e' ∈ page → he_Seq e' < he_Seq e) ∧
  (page = [] ↔ ∀ e, e ∈ db_events db → he_Seq e ≤ after).
Proof.
  intros [Hs _ _ _ _]. pose proof (journal_page_nil after limit db) as Hnil.
  unfold ListHealthEventsAfter in *. cbn zeta in *.
  set (n := if decide (limit ≤ 0 ∨ 512 < limit) then 512 else limit) in *.
  assert (Hn : 0 < n ≤ 512) by (subst n; case_decide; lia).
  set (unread := filter (λ e, after < he_Seq e) (db_events db)) in *.
  assert (Hu : StronglySorted Z.lt (he_Seq <$> unread)) by by apply StronglySorted_filter_fmap.
  assert (Hin : ∀ e, e ∈ unread ↔ after < he_Seq e ∧ e ∈ db_events db).
  { intros e. subst unread. by rewrite list_elem_of_filter. }
  clearbody unread. clear Hs. rewrite <-(take_drop (Z.to_nat n) unread), fmap_app in Hu.
  split_and!.
  - by eapply StronglySorted_app_1_l.
  - intros Hl. subst n. rewrite decide_False in * by lia. rewrite length_take. lia.
  - rewrite length_take. lia.
  - intros e He. by apply elem_of_take_sub, Hin in He as [? ?].
  - intros e He Hlt. assert (He' : e ∈ unread) by by apply Hin.
    rewrite <-(take_drop (Z.to_nat n) unread), elem_of_app in He'. destruct He' as [|He']; [by left|right].
    intros e' He2. eapply StronglySorted_app_1_elem_of; [exact Hu|by apply list_elem_of_fmap_2..].
  - rewrite <-Forall_forall. exact Hnil.
Qed.

(** Pruning never removes an event some active consumer has not durably
    acknowledged (a consumer without a cursor acknowledged nothing), never
    removes a row that is not older than the cutoff, and removes every old row
    all active consumers have acknowledged. *)
Theorem prune_keeps_owed_events olderThan consumers db :
  let r := PruneHealthEvents olderThan consumers db in
  (∀ c, c ∈ consumers →
     filter (λ e, cursor_or_zero db c < he_Seq e) (db_events r.1) =
     filter (λ e, cursor_or_zero db c < he_Seq e) (db_events db)) ∧
  (∀ e, e ∈ db_events db → olderThan ≤ he_RecordedAt e → e ∈ db_events r.1) ∧
  (∀ e, e ∈ db_events r.1 → e ∈ db_events db ∧
     (he_RecordedAt e < olderThan → ∃ c, c ∈ consumers ∧ cursor_or_zero db c < he_Seq e)) ∧
  db_cursors r.1 = db_cursors db ∧
  r.2 = Z.of_nat (length (db_events db)) - Z.of_nat (length (db_events r.1)).
Proof.
  unfold PruneHealthEvents. cbn [fst snd db_events db_cursors]. split_and!; [| | |done|done].
  - intros c Hc. rewrite list_filter_filter. apply list_filter_iff. intros e. split; [by intros []|].
    intros Hlt. split; [done|]. unfold prunable. apply andb_false_iff. right.
    destruct consumers as [|c0 cs]; [set_solver|]. apply bool_decide_eq_false.
    pose proof (min_cursor_le db c0 cs c Hc). lia.
  - intros e He Hage. apply list_elem_of_filter. split; [|done]. unfold prunable.
    by rewrite bool_decide_false by lia.
  - intros e [Hp He]%list_elem_of_filter. split; [done|]. intros Hage. unfold prunable in Hp.
    rewrite bool_decide_true in Hp by done. cbn [andb] in Hp. destruct consumers as [|c cs]; [done|].
    apply bool_decide_eq_false in Hp. destruct (min_cursor_attained db c cs) as (c' & Hc' & Heq).
    exists c'. split; [done|]. lia.
Qed.

(** ** State rows *)

(** A write with a revision meets a stored row. *)
Lemma UpsertGroupNodeState_row s now db :
  state_key s ∈ db_subjects db → 0 < ns_Revision s →
  ∃ row, UpsertGroupNodeState s now db = Ok (set_states (<[state_key s := row]> (db_states db)) db) ∧
    row = match db_states db !! state_key s with
          | Some old => if decide (ns_Revision old ≤ ns_Revision s) then stored_row now s else old
          | None => stored_row now s
          end.
Proof.
  intros Hin Hr. unfold UpsertGroupNodeState. rewrite decide_False by tauto.
  eexists. split; [|done]. destruct (db_states db !! state_key s) as [old|] eqn:Ho; [|done].
  destruct (decide (ns_Revision old ≤ ns_Revision s)); [by rewrite decide_True by auto|].
  rewrite decide_False by lia. f_equal. unfold set_states. rewrite (insert_id _ _ _ Ho). by destruct db.
Qed.

Lemma Upsert_swap a b now db :
  0 < ns_Revision a → 0 < ns_Revision b →
  (state_key a = state_key b → ns_Revision a ≠ ns_Revision b) →
  state_key a ∈ db_subjects db → state_key b ∈ db_subjects db →
  result_bind (UpsertGroupNodeState a now db) (UpsertGroupNodeState b now) =
  result_bind (UpsertGroupNodeState b now db) (UpsertGroupNodeState a now).
Proof.
  intros Ha Hb Hne Hia Hib.
  destruct (UpsertGroupNodeState_row a now db Hia Ha) as (ra & -> & Hra).
  destruct (UpsertGroupNodeState_row b now db Hib Hb) as (rb & -> & Hrb). simpl.
  destruct (UpsertGroupNodeState_row b now (set_states (<[state_key a := ra]> (db_states db)) db) Hib Hb)
    as (rb' & -> & Hrb').
  destruct (UpsertGroupNodeState_row a now (set_states (<[state_key b := rb]> (db_states db)) db) Hia Ha)
    as (ra' & -> & Hra').
  simpl in *. unfold set_states. simpl. f_equal. f_equal.
  destruct (decide (state_key a = state_key b)) as [Heq|Hk].
  - specialize (Hne Heq). rewrite <-Heq in *. rewrite lookup_insert_eq in Hrb', Hra'.
    rewrite !insert_insert_eq. f_equal. subst ra rb ra' rb'.
    destruct (db_states db !! state_key a); repeat case_decide; simpl in *; (done || lia).
  - rewrite lookup_insert_ne in Hrb' by done. rewrite lookup_insert_ne in Hra' by done.
    rewrite <-Hrb in Hrb'. rewrite <-Hra in Hra'. subst rb' ra'. by apply insert_insert_ne.
Qed.

(** Writes that miss their subject do not depend on the rest. *)
Lemma Upsert_subjects s now db db' :
  UpsertGroupNodeState s now db = Ok db' → db_subjects db' = db_subjects db.
Proof. unfold UpsertGroupNodeState. repeat case_match; intros; by simplify_eq. Qed.

Definition upsert_drop (now : Z) (db : journal_db) (s : GroupNodeState) : journal_db :=
  match UpsertGroupNodeState s now db with Ok db' => db' | Err _ => db end.

Lemma Upsert_Err s now db e : UpsertGroupNodeState s now db = Err e → e = foreignKeyError.
Proof. unfold UpsertGroupNodeState. repeat case_match; intros; by simplify_eq. Qed.

Lemma upsert_all_foldl ss now db : upsert_all ss now db = Ok (foldl (upsert_drop now) db ss).
Proof.
  revert db. induction ss as [|s ss IH]; intros db; simpl; [done|]. unfold upsert_drop at 2.
  destruct (UpsertGroupNodeState s now db) as [db1|e] eqn:Hu; [apply IH|].
  apply Upsert_Err in Hu as ->. apply IH.
Qed.

Lemma upsert_drop_missing s now db : state_key s ∉ db_subjects db → upsert_drop now db s = db.
Proof. intros Hs. unfold upsert_drop, UpsertGroupNodeState. by rewrite decide_True by done. Qed.

Lemma upsert_drop_subjects s now db : db_subjects (upsert_drop now db s) = db_subjects db.
Proof.
  unfold upsert_drop. destruct (UpsertGroupNodeState s now db) eqn:Hu; [|done].
  by apply Upsert_subjects in Hu.
Qed.

Lemma upsert_drop_swap a b now db :
  0 < ns_Revision a → 0 < ns_Revision b →
  (state_key a = state_key b → ns_Revision a ≠ ns_Revision b) →
  upsert_drop now (upsert_drop now db a) b = upsert_drop now (upsert_drop now db b) a.
Proof.
  intros Ha Hb Hne.
  destruct (decide (state_key a ∈ db_subjects db)) as [Hia|Hia].
  2: { rewrite (upsert_drop_missing a now db Hia), (upsert_drop_missing a); [done|].
       by rewrite upsert_drop_subjects. }
  destruct (decide (state_key b ∈ db_subjects db)) as [Hib|Hib].
  2: { rewrite (upsert_drop_missing b now db Hib), (upsert_drop_missing b); [done|].
       by rewrite upsert_drop_subjects. }
  unfold upsert_drop.
  pose proof (Upsert_swap a b now db Ha Hb Hne Hia Hib) as Hsw.
  destruct (UpsertGroupNodeState_row a now db Hia Ha) as (ra & Hra & _).
  destruct (UpsertGroupNodeState_row b now db Hib Hb) as (rb & Hrb & _).
  rewrite Hra, Hrb in Hsw |- *. simpl in Hsw. rewrite Hsw.
  destruct (UpsertGroupNodeState_row a now (set_states (<[state_key b := rb]> (db_states db)) db) Hia Ha)
    as (? & -> & _). done.
Qed.

(** Revisioned state writes commit to the same table in whatever order their
    writers get there: for writes with positive revisions, distinct for one group
    and node, every permutation of the batch leaves the same database. *)
Theorem state_writes_converge ss ss' now db :
  ss ≡ₚ ss' → Forall (λ s, 0 < ns_Revision s) ss →
  NoDup ((λ s, (state_key s, ns_Revision s)) <$> ss) →
  upsert_all ss now db = upsert_all ss' now db.
Proof.
  intros Hp Hpos Hnd. rewrite !upsert_all_foldl. f_equal. revert db Hpos Hnd.
  induction Hp as [|s l l' Hp IH|a b l|l1 l2 l3 Hp1 IH1 Hp2 IH2]; intros db Hpos Hnd; simpl; [done| | |].
  - apply Forall_cons in Hpos as [_ Hpos]. apply NoDup_cons in Hnd as [_ Hnd]. by apply IH.
  - rewrite !Forall_cons in Hpos. destruct Hpos as (Hb & Ha & _).
    rewrite (upsert_drop_swap b a); [done|done|done|]. intros Hk Hr. simpl in Hnd.
    apply NoDup_cons in Hnd as [Hni _]. apply Hni. rewrite Hk, Hr. left.
  - rewrite IH1 by done. apply IH2; [by rewrite <-Hp1|by rewrite <-Hp1].
Qed.

(** The row a revisioned write leaves is at least as new as the write. *)
Lemma upsert_drop_newer s now db s' :
  0 < ns_Revision s' →
  (∃ row, db_states db !! state_key s = Some row ∧ ns_Revision s ≤ ns_Revision row) →
  ∃ row, db_states (upsert_drop now db s') !! state_key s = Some row ∧ ns_Revision s ≤ ns_Revision row.
Proof.
  intros Hpos (row & Hrow & Hle).
  destruct (decide (state_key s' ∈ db_subjects db)) as [Hin|]; [|by rewrite upsert_drop_missing; eauto].
  destruct (UpsertGroupNodeState_row s' now db Hin Hpos) as (r & Hr & Hreq).
  unfold upsert_drop. rewrite Hr. simpl. destruct (decide (state_key s' = state_key s)) as [Heq|Hne].
  - rewrite Heq, lookup_insert_eq. eexists. split; [done|]. rewrite Heq, Hrow in Hreq.
    case_decide; subst r; simpl; [lia|done].
  - rewrite lookup_insert_ne by done. eauto.
Qed.

Lemma upsert_drop_stores s now db :
  0 < ns_Revision s → state_key s ∈ db_subjects db →
  ∃ row, db_states (upsert_drop now db s) !! state_key s = Some row ∧ ns_Revision s ≤ ns_Revision row.
Proof.
  intros Hpos Hin. destruct (UpsertGroupNodeState_row s now db Hin Hpos) as (r & Hr & Hreq).
  unfold upsert_drop. rewrite Hr. simpl. rewrite lookup_insert_eq. eexists. split; [done|].
  destruct (db_states db !! state_key s); [case_decide|]; subst r; simpl; lia.
Qed.

Lemma foldl_upsert_drop_subjects ss now db :
  db_subjects (foldl (upsert_drop now) db ss) = db_subjects db.
Proof. revert db. induction ss as [|s ss IH]; intros db; simpl; [done|]. by rewrite IH, upsert_drop_subjects. Qed.

Lemma upsert_drop_frame s now db :
  db_events (upsert_drop now db s) = db_events db ∧ db_next (upsert_drop now db s) = db_next db ∧
  db_cursors (upsert_drop now db s) = db_cursors db.
Proof.
  unfold upsert_drop, UpsertGroupNodeState. destruct (decide (state_key s ∉ db_subjects db)); [done|].
  destruct (db_states db !! state_key s) as [old|]; [|done].
  by destruct (decide (ns_Revision s = 0 ∨ ns_Revision old ≤ ns_Revision s)).
Qed.

Lemma foldl_upsert_drop_frame ss now db :
  db_events (foldl (upsert_drop now) db ss) = db_events db ∧
  db_next (foldl (upsert_drop now) db ss) = db_next db ∧
  db_cursors (foldl (upsert_drop now) db ss) = db_cursors db.
Proof.
  revert db. induction ss as [|s ss IH]; intros db; simpl; [done|].
  destruct (IH (upsert_drop now db s)) as (-> & -> & ->). apply upsert_drop_frame.
Qed.

Lemma foldl_upsert_drop_stores ss now db s :
  Forall (λ s, 0 < ns_Revision s) ss → s ∈ ss → state_key s ∈ db_subjects db →
  ∃ row, db_states (foldl (upsert_drop now) db ss) !! state_key s = Some row ∧
    ns_Revision s ≤ ns_Revision row.
Proof.
  revert db. induction ss as [|s1 ss IH]; intros db Hpos Hin Hsub; [set_solver|]. simpl.
  apply Forall_cons in Hpos as [Hp Hpos]. apply elem_of_cons in Hin as [->|Hin].
  - assert (Hkeep : ∃ row, db_states (upsert_drop now db s1) !! state_key s1 = Some row ∧
      ns_Revision s1 ≤ ns_Revision row) by by apply upsert_drop_stores.
    revert Hkeep. generalize (upsert_drop now db s1) as db1. clear -Hpos.
    induction ss as [|s2 ss IH]; intros db1 Hk; simpl; [done|]. apply Forall_cons in Hpos as [Hp Hpos].
    apply IH; [done|]. by apply upsert_drop_newer.
  - apply IH; [done|done|]. by rewrite upsert_drop_subjects.
Qed.

(** Committing delivery progress is all or nothing and never blocked by a
    deleted subject: a database fault leaves every table as it was; otherwise the
    call succeeds, the consumer's cursor reaches the batch without ever moving
    back, and every state whose group and node still exist has a row at least as
    new as the state; journal rows and other consumers' cursors are untouched. *)
Theorem advance_commits_progress_with_state consumer seq ss now fault db :
  Forall (λ s, 0 < ns_Revision s) ss →
  let r := AdvanceHealthCursorWithState consumer seq ss now fault db in
  match fault with
  | Some e => r = (db, Err e)
  | None =>
    r.2 = Ok tt ∧ db_events r.1 = db_events db ∧
    (∀ s, s ∈ ss → state_key s ∈ db_subjects db → ∃ row,
       db_states r.1 !! state_key s = Some row ∧ ns_Revision s ≤ ns_Revision row) ∧
    (∀ c, c ≠ consumer → db_cursors r.1 !! c = db_cursors db !! c) ∧
    (consumer = "" ∨ seq ≤ 0 → db_cursors r.1 = db_cursors db) ∧
    (consumer ≠ "" → 0 < seq →
       db_cursors r.1 !! consumer = Some (match db_cursors db !! consumer with
                                          | Some old => Z.max old seq | None => seq end))
  end.
Proof.
  intros Hpos. unfold AdvanceHealthCursorWithState. destruct fault as [e|]; [done|].
  rewrite upsert_all_foldl. destruct (foldl_upsert_drop_frame ss now db) as (Hev & _ & Hcur).
  set (db1 := foldl (upsert_drop now) db ss) in *. cbn zeta.
  assert (Hrows : ∀ s, s ∈ ss → state_key s ∈ db_subjects db → ∃ row,
    db_states db1 !! state_key s = Some row ∧ ns_Revision s ≤ ns_Revision row).
  { intros s Hs Hsub. by apply foldl_upsert_drop_stores. }
  case_decide as Hskip; simpl; rewrite ?Hcur.
  - split_and!; [done|done|done|done|done|]. intros. naive_solver lia.
  - split_and!; [done|done|done| |done|].
    + intros c Hc. by rewrite lookup_insert_ne.
    + intros _ _. rewrite lookup_insert_eq. f_equal. destruct (db_cursors db !! consumer) as [old|]; [|done].
      destruct (decide (old < seq)); lia.
Qed.

(** ** Concrete runs *)
Module JournalExample.
Definition measured (node : Z) (ok : bool) (at_ : Z) : HealthEvent :=
  mkHealthEvent 0 node "" 0 "n" "probe" ok 12 "" at_ at_.
Definition failed_state (node rev : Z) : GroupNodeState := mkGroupNodeState 1 node [] true "down" 0 0 rev.
Definition journal3 : journal_db :=
  (AppendHealthEvent (measured 7 true 300) 300
    (AppendHealthEvent (measured 8 false 200) 200
      (AppendHealthEvent (measured 7 false 100) 100
        (mkJournal [] 1 {[ "group:1" := 1 ]} ∅ {[ (1, 7); (1, 8) ]})).1).1).1.

Lemma journal3_wf : journal_wf journal3.
Proof.
  do 3 apply AppendHealthEvent_wf. split; simpl; try done; try constructor.
Qed.
End JournalExample.
Import JournalExample.

Lemma journal_page_is_the_oldest_unread_witness :
  Forall (λ e, 1 < he_Seq e) (ListHealthEventsAfter 1 64 journal3) ∧
  length (ListHealthEventsAfter 1 64 journal3) = 2%nat.
Proof.
  split; [|vm_compute; reflexivity]. apply Forall_forall. intros e He.
  by apply (journal_page_is_the_oldest_unread 1 64 journal3 journal3_wf).
Defined.

Lemma state_writes_converge_witness :
  upsert_all [failed_state 7 5; failed_state 7 9; failed_state 8 6] 400 journal3 =
  upsert_all [failed_state 8 6; failed_state 7 9; failed_state 7 5] 400 journal3.
Proof.
  apply state_writes_converge.
  - apply (Permutation_rev [failed_state 7 5; failed_state 7 9; failed_state 8 6]).
  - repeat constructor.
  - refine (bool_decide_eq_true_1 _ _). vm_compute. reflexivity.
Defined.

Lemma advance_commits_progress_with_state_witness :
  db_cursors (AdvanceHealthCursorWithState "group:1" 3 [failed_state 7 5] 400 None journal3).1
    !! "group:1" = Some 3.
Proof.
  destruct (advance_commits_progress_with_state "group:1" 3 [failed_state 7 5] 400 None journal3)
    as (_ & _ & _ & _ & _ & Hcur); [repeat constructor|]. by apply Hcur.
Defined.
