(* ===== verification/HealthSubscription.v ===== *)
(** One consumer of the health journal
    ([internal/monitor/health_event_hub.go], type [healthEventSubscription]): its
    cursor, what it still has to commit, the wakeup flags, and the steps of its
    delivery loop.

    The subscription runs on one goroutine; [step] is one iteration of its loop
    and the other operations are what other goroutines do to it between
    iterations. The journal is [None] when no store is configured. Database
    faults, the close request of another goroutine and clock readings are
    arguments. The callback is a parameter: what it returns may depend on
    everything it was given before, which [sub_log] records. *)

From S2P Require Import Prelude HealthJournal.

Record HealthResultEvent := mkHealthResult {
  hr_Tag : string;
  hr_NodeID : Z;
  hr_Success : bool;
  hr_Latency : Z;
  hr_Error : string;
  hr_ProbeID : string;
  hr_Seq : Z;
  hr_CheckedAt : Z;
  hr_SnapshotOnly : bool
}.

Definition healthEventReadBatch : nat := 64.
Definition healthEventInlineLimit : nat := 1024.

Record subscription := mkSub {
  sub_tags : gset string;
  sub_nodeIDs : gset Z;
  sub_global : bool;
  sub_consumer : string;
  sub_cursor : Z;
  sub_pendingCursor : Z;
  sub_dirty : bool;
  sub_refresh : bool;
  sub_cursorBlocked : bool;
  sub_pendingStates : list GroupNodeState;
  sub_inline : list HealthResultEvent;
  sub_closed : bool;
  sub_delivered : Z;
  sub_gaps : Z;
  sub_dropped : Z;
  sub_readFailures : Z;
  sub_cursorFailures : Z;
  sub_retryScheduled : bool;
  sub_wake : bool;
  sub_log : list HealthResultEvent
}.

(** Field updates. *)
Definition set_sub_cursor (v : Z) (s : subscription) : subscription :=
  mkSub (sub_tags s) (sub_nodeIDs s) (sub_global s) (sub_consumer s) v (sub_pendingCursor s)
    (sub_dirty s) (sub_refresh s) (sub_cursorBlocked s) (sub_pendingStates s) (sub_inline s)
    (sub_closed s) (sub_delivered s) (sub_gaps s) (sub_dropped s) (sub_readFailures s)
    (sub_cursorFailures s) (sub_retryScheduled s) (sub_wake s) (sub_log s).
Definition set_sub_pendingCursor (v : Z) (s : subscription) : subscription :=
  mkSub (sub_tags s) (sub_nodeIDs s) (sub_global s) (sub_consumer s) (sub_cursor s) v (sub_dirty s)
    (sub_refresh s) (sub_cursorBlocked s) (sub_pendingStates s) (sub_inline s) (sub_closed s)
    (sub_delivered s) (sub_gaps s) (sub_dropped s) (sub_readFailures s) (sub_cursorFailures s)
    (sub_retryScheduled s) (sub_wake s) (sub_log s).
Definition set_sub_dirty (v : bool) (s : subscription) : subscription :=
  mkSub (sub_tags s) (sub_nodeIDs s) (sub_global s) (sub_consumer s) (sub_cursor s)
    (sub_pendingCursor s) v (sub_refresh s) (sub_cursorBlocked s) (sub_pendingStates s) (sub_inline s)
    (sub_closed s) (sub_delivered s) (sub_gaps s) (sub_dropped s) (sub_readFailures s)
    (sub_cursorFailures s) (sub_retryScheduled s) (sub_wake s) (sub_log s).
Definition set_sub_refresh (v : bool) (s : subscription) : subscription :=
  mkSub (sub_tags s) (sub_nodeIDs s) (sub_global s) (sub_consumer s) (sub_cursor s)
    (sub_pendingCursor s) (sub_dirty s) v (sub_cursorBlocked s) (sub_pendingStates s) (sub_inline s)
    (sub_closed s) (sub_delivered s) (sub_gaps s) (sub_dropped s) (sub_readFailures s)
    (sub_cursorFailures s) (sub_retryScheduled s) (sub_wake s) (sub_log s).
Definition set_sub_cursorBlocked (v : bool) (s : subscription) : subscription :=
  mkSub (sub_tags s) (sub_nodeIDs s) (sub_global s) (sub_consumer s) (sub_cursor s)
    (sub_pendingCursor s) (sub_dirty s) (sub_refresh s) v (sub_pendingStates s) (sub_inline s)
    (sub_closed s) (sub_delivered s) (sub_gaps s) (sub_dropped s) (sub_readFailures s)
    (sub_cursorFailures s) (sub_retryScheduled s) (sub_wake s) (sub_log s).
Definition set_sub_pendingStates (v : list GroupNodeState) (s : subscription) : subscription :=
  mkSub (sub_tags s) (sub_nodeIDs s) (sub_global s) (sub_consumer s) (sub_cursor s)
    (sub_pendingCursor s) (sub_dirty s) (sub_refresh s) (sub_cursorBlocked s) v (sub_inline s)
    (sub_closed s) (sub_delivered s) (sub_gaps s) (sub_dropped s) (sub_readFailures s)
    (sub_cursorFailures s) (sub_retryScheduled s) (sub_wake s) (sub_log s).
Definition set_sub_inline (v : list HealthResultEvent) (s : subscription) : subscription :=
  mkSub (sub_tags s) (sub_nodeIDs s) (sub_global s) (sub_consumer s) (sub_cursor s)
    (sub_pendingCursor s) (sub_dirty s) (sub_refresh s) (sub_cursorBlocked s) (sub_pendingStates s) v
    (sub_closed s) (sub_delivered s) (sub_gaps s) (sub_dropped s) (sub_readFailures s)
    (sub_cursorFailures s) (sub_retryScheduled s) (sub_wake s) (sub_log s).
Definition set_sub_closed (v : bool) (s : subscription) : subscription :=
  mkSub (sub_tags s) (sub_nodeIDs s) (sub_global s) (sub_consumer s) (sub_cursor s)
    (sub_pendingCursor s) (sub_dirty s) (sub_refresh s) (sub_cursorBlocked s) (sub_pendingStates s)
    (sub_inline s) v (sub_delivered s) (sub_gaps s) (sub_dropped s) (sub_readFailures s)
    (sub_cursorFailures s) (sub_retryScheduled s) (sub_wake s) (sub_log s).
Definition set_sub_delivered (v : Z) (s : subscription) : subscription :=
  mkSub (sub_tags s) (sub_nodeIDs s) (sub_global s) (sub_consumer s) (sub_cursor s)
    (sub_pendingCursor s) (sub_dirty s) (sub_refresh s) (sub_cursorBlocked s) (sub_pendingStates s)
    (sub_inline s) (sub_closed s) v (sub_gaps s) (sub_dropped s) (sub_readFailures s)
    (sub_cursorFailures s) (sub_retryScheduled s) (sub_wake s) (sub_log s).
Definition set_sub_gaps (v : Z) (s : subscription) : subscription :=
  mkSub (sub_tags s) (sub_nodeIDs s) (sub_global s) (sub_consumer s) (sub_cursor s)
    (sub_pendingCursor s) (sub_dirty s) (sub_refresh s) (sub_cursorBlocked s) (sub_pendingStates s)
    (sub_inline s) (sub_closed s) (sub_delivered s) v (sub_dropped s) (sub_readFailures s)
    (sub_cursorFailures s) (sub_retryScheduled s) (sub_wake s) (sub_log s).
Definition set_sub_dropped (v : Z) (s : subscription) : subscription :=
  mkSub (sub_tags s) (sub_nodeIDs s) (sub_global s) (sub_consumer s) (sub_cursor s)
    (sub_pendingCursor s) (sub_dirty s) (sub_refresh s) (sub_cursorBlocked s) (sub_pendingStates s)
    (sub_inline s) (sub_closed s) (sub_delivered s) (sub_gaps s) v (sub_readFailures s)
    (sub_cursorFailures s) (sub_retryScheduled s) (sub_wake s) (sub_log s).
Definition set_sub_readFailures (v : Z) (s : subscription) : subscription :=
  mkSub (sub_tags s) (sub_nodeIDs s) (sub_global s) (sub_consumer s) (sub_cursor s)
    (sub_pendingCursor s) (sub_dirty s) (sub_refresh s) (sub_cursorBlocked s) (sub_pendingStates s)
    (sub_inline s) (sub_closed s) (sub_delivered s) (sub_gaps s) (sub_dropped s) v
    (sub_cursorFailures s) (sub_retryScheduled s) (sub_wake s) (sub_log s).
Definition set_sub_cursorFailures (v : Z) (s : subscription) : subscription :=
  mkSub (sub_tags s) (sub_nodeIDs s) (sub_global s) (sub_consumer s) (sub_cursor s)
    (sub_pendingCursor s) (sub_dirty s) (sub_refresh s) (sub_cursorBlocked s) (sub_pendingStates s)
    (sub_inline s) (sub_closed s) (sub_delivered s) (sub_gaps s) (sub_dropped s) (sub_readFailures s) v
    (sub_retryScheduled s) (sub_wake s) (sub_log s).
Definition set_sub_retryScheduled (v : bool) (s : subscription) : subscription :=
  mkSub (sub_tags s) (sub_nodeIDs s) (sub_global s) (sub_consumer s) (sub_cursor s)
    (sub_pendingCursor s) (sub_dirty s) (sub_refresh s) (sub_cursorBlocked s) (sub_pendingStates s)
    (sub_inline s) (sub_closed s) (sub_delivered s) (sub_gaps s) (sub_dropped s) (sub_readFailures s)
    (sub_cursorFailures s) v (sub_wake s) (sub_log s).
Definition set_sub_wake (v : bool) (s : subscription) : subscription :=
  mkSub (sub_tags s) (sub_nodeIDs s) (sub_global s) (sub_consumer s) (sub_cursor s)
    (sub_pendingCursor s) (sub_dirty s) (sub_refresh s) (sub_cursorBlocked s) (sub_pendingStates s)
    (sub_inline s) (sub_closed s) (sub_delivered s) (sub_gaps s) (sub_dropped s) (sub_readFailures s)
    (sub_cursorFailures s) (sub_retryScheduled s) v (sub_log s).
Definition set_sub_log (v : list HealthResultEvent) (s : subscription) : subscription :=
  mkSub (sub_tags s) (sub_nodeIDs s) (sub_global s) (sub_consumer s) (sub_cursor s)
    (sub_pendingCursor s) (sub_dirty s) (sub_refresh s) (sub_cursorBlocked s) (sub_pendingStates s)
    (sub_inline s) (sub_closed s) (sub_delivered s) (sub_gaps s) (sub_dropped s) (sub_readFailures s)
    (sub_cursorFailures s) (sub_retryScheduled s) (sub_wake s) v.

(** What another goroutine or the environment does while one step runs. *)
Record environment := mkEnv {
  env_readFault : option string;
  env_commitFault : option string;
  env_closeAfter : option nat;
  env_now : Z
}.

Definition calm (now : Z) : environment := mkEnv None None None now.

(** [healthResultEvent]: a journal row in the shape the consumers understand. *)
Definition healthResultEvent (e : HealthEvent) : HealthResultEvent :=
  mkHealthResult (he_Tag e) (he_NodeID e) (he_Success e) (he_LatencyMs e * GoTime.millisecond)
    (he_Error e) (he_ProbeID e) (he_Seq e) (he_CheckedAt e) false.

Definition wakeup (s : subscription) : subscription := set_sub_wake true s.

Definition close_subscription (s : subscription) : subscription :=
  if sub_closed s then s else set_sub_inline [] (set_sub_closed true s).

(** [time.AfterFunc] is the environment's: [retry_fires] is its callback. *)
Definition scheduleRetry (s : subscription) : subscription :=
  if sub_closed s || sub_retryScheduled s then s else set_sub_retryScheduled true s.

Definition retry_fires (s : subscription) : subscription :=
  let s1 := set_sub_retryScheduled false s in
  if sub_closed s1 then s1 else wakeup s1.

(** ** Creation *)

(** Resumes a durable consumer at its persisted cursor and starts any other one
    at the journal tail. The three arguments say whether each query fails. *)
Definition initCursor (getFails tailFails putFails : bool) (journal : option journal_db)
    (s : subscription) : subscription * option journal_db :=
  match journal with
  | None => (s, journal)
  | Some db =>
    match (if bool_decide (sub_consumer s = "") || getFails then None
           else GetHealthEventCursor (sub_consumer s) db) with
    | Some seq => (set_sub_cursor seq s, journal)
    | None =>
      if tailFails then (s, journal)
      else
        let tail := MaxHealthEventSeq db in
        let s1 := set_sub_cursor tail s in
        if bool_decide (sub_consumer s = "") || putFails then (s1, journal)
        else (s1, Some (PutHealthEventCursor (sub_consumer s) tail db))
    end
  end.

Definition newHealthEventSubscription (tags : list string) (nodeIDs : list Z) (global : bool)
    (consumer : string) (getFails tailFails putFails : bool) (journal : option journal_db)
    : subscription * option journal_db :=
  initCursor getFails tailFails putFails journal
    (mkSub (list_to_set (filter (λ t, t ≠ "") tags)) (list_to_set (filter (λ n, n ≠ 0) nodeIDs)) global
       consumer 0 0 false false false [] [] false 0 0 0 0 0 false false []).

(** ** Notification *)
Definition notify (event : HealthResultEvent) (hasJournal : bool) (s : subscription) : subscription :=
  if sub_closed s then s
  else if hr_SnapshotOnly event then wakeup (set_sub_refresh true s)
  else if bool_decide (0 < hr_Seq event) && hasJournal then wakeup (set_sub_dirty true s)
  else if decide (healthEventInlineLimit ≤ length (sub_inline s))%nat
       then set_sub_dropped (sub_dropped s + 1) s
  else wakeup (set_sub_inline (sub_inline s ++ [event]) s).

Definition popInline (s : subscription) : option (HealthResultEvent * subscription) :=
  if sub_closed s then None
  else match sub_inline s with
       | [] => None
       | event :: rest => Some (event, set_sub_inline rest s)
       end.

Definition takeRefresh (s : subscription) : bool * subscription :=
  if sub_closed s || negb (sub_refresh s) then (false, s) else (true, set_sub_refresh false s).

(** ** Pending states *)

(** Replaces the first row of the same group and node, or appends. *)
Fixpoint record_state (state : GroupNodeState) (pending : list GroupNodeState) : list GroupNodeState :=
  match pending with
  | [] => [state]
  | p :: ps => if decide (state_key p = state_key state) then state :: ps
               else p :: record_state state ps
  end.

Definition recordStates (states : list GroupNodeState) (s : subscription) : subscription :=
  set_sub_pendingStates (foldl (λ ps state, record_state state ps) (sub_pendingStates s) states) s.

Definition restore_state (pending : list GroupNodeState) (state : GroupNodeState) : list GroupNodeState :=
  if decide (state_key state ∈ state_key <$> pending) then pending else pending ++ [state].

Definition restoreStates (states : list GroupNodeState) (s : subscription) : subscription :=
  set_sub_pendingStates (foldl restore_state (sub_pendingStates s) states) s.

(** ** Delivery *)
Definition matches (s : subscription) (e : HealthEvent) : bool :=
  sub_global s || bool_decide (he_Tag e ∈ sub_tags s) ||
  (negb (bool_decide (he_NodeID e = 0)) && bool_decide (he_NodeID e ∈ sub_nodeIDs s)).

Section delivery.
Context (callback : list HealthResultEvent → HealthResultEvent → list GroupNodeState).

Definition deliver (event : HealthResultEvent) (s : subscription) : subscription :=
  let states := callback (sub_log s) event in
  let s1 := recordStates states (set_sub_log (sub_log s ++ [event]) s) in
  set_sub_delivered (sub_delivered s1 + 1) s1.

(** The body of the batch loop for one journal row. *)
Definition apply_event (e : HealthEvent) (s : subscription) : subscription :=
  let s1 := if decide (sub_cursor s + 1 < he_Seq e) then set_sub_gaps (sub_gaps s + 1) s else s in
  let s2 := if matches s1 e then deliver (healthResultEvent e) s1 else s1 in
  if decide (sub_cursor s2 < he_Seq e) then
    let s3 := set_sub_cursor (he_Seq e) s2 in
    if decide (sub_consumer s3 = "") then s3 else set_sub_pendingCursor (he_Seq e) s3
  else s2.

(** The batch loop; it gives up when the subscription was closed meanwhile. *)
Fixpoint apply_batch (closeAfter : option nat) (events : list HealthEvent) (s : subscription)
    : bool * subscription :=
  match events with
  | [] => (true, s)
  | e :: es =>
    let s1 := if decide (closeAfter = Some 0%nat) then close_subscription s else s in
    if sub_closed s1 then (false, s1)
    else apply_batch (pred <$> closeAfter) es (apply_event e s1)
  end.

Definition readJournal (env : environment) (journal : option journal_db) (s : subscription)
    : bool * subscription :=
  match journal with
  | None => (false, s)
  | Some db =>
    if sub_closed s || negb (sub_dirty s) || sub_cursorBlocked s then (false, s)
    else
      let s1 := set_sub_dirty false s in
      match env_readFault env with
      | Some _ =>
        (false, scheduleRetry (set_sub_dirty true (set_sub_readFailures (sub_readFailures s1 + 1) s1)))
      | None =>
        let events := ListHealthEventsAfter (sub_cursor s) (Z.of_nat healthEventReadBatch) db in
        match apply_batch (env_closeAfter env) events s1 with
        | (false, s2) => (false, s2)
        | (true, s2) => if decide (length events = healthEventReadBatch)
                        then (true, set_sub_dirty true s2) else (false, s2)
        end
      end
  end.

(** Commits the progress made so far together with the states it produced. *)
Definition flushCursor (env : environment) (journal : option journal_db) (s : subscription)
    : bool * subscription * option journal_db :=
  if sub_closed s || bool_decide (sub_consumer s = "") ||
     (bool_decide (sub_pendingCursor s = 0) && bool_decide (sub_pendingStates s = []))
  then (false, s, journal)
  else
    let pending := sub_pendingCursor s in
    let states := sub_pendingStates s in
    let s1 := set_sub_pendingStates [] s in
    match journal with
    | None => (false, s1, journal)
    | Some db =>
      match AdvanceHealthCursorWithState (sub_consumer s) pending states (env_now env)
              (env_commitFault env) db with
      | (db', Err _) =>
        let s2 := restoreStates states s1 in
        let s3 := set_sub_cursorBlocked true (set_sub_cursorFailures (sub_cursorFailures s2 + 1) s2) in
        (false, scheduleRetry s3, Some db')
      | (db', Ok _) =>
        let s2 := if decide (sub_pendingCursor s1 = pending) then set_sub_pendingCursor 0 s1 else s1 in
        (true, set_sub_cursorBlocked false s2, Some db')
      end
    end.

(** One iteration of the delivery loop; [true] asks for another one. *)
Definition step (env : environment) (journal : option journal_db) (s : subscription)
    : bool * subscription * option journal_db :=
  if sub_cursorBlocked s then
    let '(_, s1, j1) := flushCursor env journal s in (negb (sub_cursorBlocked s1), s1, j1)
  else match popInline s with
  | Some (event, s1) => (true, deliver event s1, journal)
  | None =>
    match readJournal env journal s with
    | (true, s1) => let '(_, s2, j2) := flushCursor env journal s1 in (true, s2, j2)
    | (false, s1) =>
      match flushCursor env journal s1 with
      | (true, s2, j2) => (true, s2, j2)
      | (false, s2, j2) =>
        match takeRefresh s2 with
        | (true, s3) =>
          (true, deliver (mkHealthResult "" 0 false 0 "" "" 0 (env_now env) true) s3, j2)
        | (false, s3) => (false, s3, j2)
        end
      end
    end
  end.

(** [for s.step() {}], at most [fuel] iterations; the flag says the loop ended. *)
Fixpoint drain (fuel : nat) (env : environment) (journal : option journal_db) (s : subscription)
    : bool * subscription * option journal_db :=
  match fuel with
  | O => (false, s, journal)
  | S fuel =>
    match step env journal s with
    | (true, s1, j1) => drain fuel env j1 s1
    | (false, s1, j1) => (true, s1, j1)
    end
  end.
End delivery.
