(* ===== verification/HealthDelivery.v ===== *)
(** What one durable consumer of the health journal is promised: every matching
    event exactly once, in commit order, without gaps, with at most one batch of
    progress not yet durable, and everything delivered once the loop has run.

    The promise is an invariant of the runs of one session: the consumer's own
    steps, under any database faults, interleaved with appends, notifications,
    prunes that count the consumer among the active ones, the progress of other
    consumers and the writes of the asynchronous state persister. *)

From S2P Require Import Prelude HealthJournal HealthSubscription.

(** The session and the ghost list of the events committed since it started. *)
Record session := mkSession {
  se_db : journal_db;
  se_sub : subscription;
  se_appended : list HealthEvent
}.

(** The row [AppendHealthEvent] writes. *)
Definition appended_row (e : HealthEvent) (now : Z) (db : journal_db) : HealthEvent :=
  with_seq (db_next db) (if GoTime.isZero (he_RecordedAt e) then now else he_RecordedAt e) e.

Definition do_append (e : HealthEvent) (now : Z) (x : session) : session :=
  match AppendHealthEvent e now (se_db x) with
  | (db', Ok _) => mkSession db' (se_sub x) (se_appended x ++ [appended_row e now (se_db x)])
  | (db', Err _) => mkSession db' (se_sub x) (se_appended x)
  end.

Section delivery.
Context (callback : list HealthResultEvent → HealthResultEvent → list GroupNodeState).

Definition do_step (env : environment) (x : session) : session :=
  match step callback env (Some (se_db x)) (se_sub x) with
  | (_, s', Some db') => mkSession db' s' (se_appended x)
  | (_, s', None) => mkSession (se_db x) s' (se_appended x)
  end.

Inductive hstep : session → session → Prop :=
| HAppend x e now : hstep x (do_append e now x)
| HNotify x ev : hstep x (mkSession (se_db x) (notify ev true (se_sub x)) (se_appended x))
| HStep x env : hstep x (do_step env x)
| HRetry x : hstep x (mkSession (se_db x) (retry_fires (se_sub x)) (se_appended x))
| HClose x : hstep x (mkSession (se_db x) (close_subscription (se_sub x)) (se_appended x))
| HPrune x t cs : sub_consumer (se_sub x) ∈ cs →
    hstep x (mkSession (PruneHealthEvents t cs (se_db x)).1 (se_sub x) (se_appended x))
| HOther x c seq ss now fault : c ≠ sub_consumer (se_sub x) →
    hstep x (mkSession (AdvanceHealthCursorWithState c seq ss now fault (se_db x)).1 (se_sub x)
               (se_appended x))
| HPersist x s now db' : UpsertGroupNodeState s now (se_db x) = Ok db' →
    hstep x (mkSession db' (se_sub x) (se_appended x)).

(** The deliveries that came from the journal (inline events and refreshes carry
    no sequence number). *)
Definition journal_log (s : subscription) : list HealthResultEvent :=
  filter (λ ev, 0 < hr_Seq ev) (sub_log s).

(** The deliveries owed for a list of journal rows. *)
Definition owed (s : subscription) (es : list HealthEvent) : list HealthResultEvent :=
  healthResultEvent <$> filter (λ e, matches s e = true) es.

(** [c0] is the cursor the session started at, [i] the number of events applied
    since, [k] the number of them durably committed. *)
Record delivery_core (c0 : Z) (k i : nat) (x : session) : Prop := {
  di_start : 0 ≤ c0;
  di_consumer : sub_consumer (se_sub x) ≠ "";
  di_seqs : he_Seq <$> se_appended x = seqZ (c0 + 1) (Z.of_nat (length (se_appended x)));
  di_next : db_next (se_db x) = c0 + 1 + Z.of_nat (length (se_appended x));
  di_order : (k ≤ i ≤ length (se_appended x))%nat;
  di_lag : (i - k ≤ healthEventReadBatch)%nat;
  di_stored : db_cursors (se_db x) !! sub_consumer (se_sub x) = Some (c0 + Z.of_nat k);
  di_cursor : sub_cursor (se_sub x) = c0 + Z.of_nat i;
  di_rows : filter (λ e, c0 + Z.of_nat k < he_Seq e) (db_events (se_db x)) = drop k (se_appended x);
  di_log : journal_log (se_sub x) = owed (se_sub x) (take i (se_appended x));
  di_pending : sub_pendingCursor (se_sub x) = (if decide (k = i) then 0 else c0 + Z.of_nat i);
  di_gaps : sub_gaps (se_sub x) = 0;
  di_inline : Forall (λ ev, hr_Seq ev ≤ 0) (sub_inline (se_sub x))
}.

Definition owes (s : subscription) : Prop := sub_pendingCursor s ≠ 0 ∨ sub_pendingStates s ≠ [].

(** Progress that is not durable parks the consumer, and a parked consumer has
    something to commit. *)
Definition delivery_inv (c0 : Z) (k i : nat) (x : session) : Prop :=
  delivery_core c0 k i x ∧
  (sub_cursorBlocked (se_sub x) = false → sub_closed (se_sub x) = false → k = i) ∧
  (sub_cursorBlocked (se_sub x) = true → sub_closed (se_sub x) = false → owes (se_sub x)).

(** ** Facts about the ghost list *)
Lemma appended_seq c0 (l : list HealthEvent) j e :
  he_Seq <$> l = seqZ (c0 + 1) (Z.of_nat (length l)) → l !! j = Some e → he_Seq e = c0 + 1 + Z.of_nat j.
Proof.
  intros Hs Hj. assert (Hj' : (he_Seq <$> l) !! j = Some (he_Seq e)) by by rewrite list_lookup_fmap, Hj.
  rewrite Hs in Hj'. apply lookup_seqZ in Hj' as [? ?]. lia.
Qed.

Lemma filter_after_drop c0 (l : list HealthEvent) (j : nat) :
  he_Seq <$> l = seqZ (c0 + 1) (Z.of_nat (length l)) →
  filter (λ e, c0 + Z.of_nat j < he_Seq e) l = drop j l.
Proof.
  intros Hs. rewrite <-(take_drop j l) at 1. rewrite filter_app.
  rewrite (filter_all (λ e, c0 + Z.of_nat j < he_Seq e) (drop j l)).
  2: { apply Forall_lookup_2. intros n e Hn. rewrite lookup_drop in Hn.
       rewrite (appended_seq _ _ _ _ Hs Hn). lia. }
  rewrite (filter_nothing (λ e, c0 + Z.of_nat j < he_Seq e) (take j l)); [done|].
  apply Forall_lookup_2. intros n e Hn. apply lookup_take_Some in Hn as [Hn ?].
  rewrite (appended_seq _ _ _ _ Hs Hn). lia.
Qed.

(** The rows newer than any later cursor are the tail of the ghost list. *)
Lemma rows_after c0 k i x :
  delivery_core c0 k i x → ∀ j, (k ≤ j)%nat →
  filter (λ e, c0 + Z.of_nat j < he_Seq e) (db_events (se_db x)) = drop j (se_appended x).
Proof.
  intros Hinv j Hj.
  rewrite <-(filter_after_drop c0 _ j (di_seqs _ _ _ _ Hinv)).
  rewrite <-(take_drop k (se_appended x)), filter_app at 1.
  rewrite (filter_nothing (λ e, c0 + Z.of_nat j < he_Seq e) (take k (se_appended x))).
  2: { apply Forall_lookup_2. intros n e Hn. apply lookup_take_Some in Hn as [Hn ?].
       rewrite (appended_seq _ _ _ _ (di_seqs _ _ _ _ Hinv) Hn). lia. }
  rewrite <-(di_rows _ _ _ _ Hinv), list_filter_filter. simpl.
  apply list_filter_iff. intros e. lia.
Qed.

(** One read returns the next events, at most one batch of them. *)
Lemma read_batch c0 k i x :
  delivery_core c0 k i x →
  ListHealthEventsAfter (sub_cursor (se_sub x)) (Z.of_nat healthEventReadBatch) (se_db x) =
  take healthEventReadBatch (drop i (se_appended x)).
Proof.
  intros Hinv. unfold ListHealthEventsAfter. rewrite decide_False by (unfold healthEventReadBatch; lia).
  rewrite Nat2Z.id, (di_cursor _ _ _ _ Hinv).
  by rewrite (rows_after _ _ _ _ Hinv i) by apply (di_order _ _ _ _ Hinv).
Qed.
(** ** The steps of the loop *)

(** The fields that only say which events a subscription is for. *)
Definition same_filter (s s' : subscription) : Prop :=
  sub_tags s' = sub_tags s ∧ sub_nodeIDs s' = sub_nodeIDs s ∧ sub_global s' = sub_global s ∧
  sub_consumer s' = sub_consumer s.

Lemma same_filter_matches s s' e : same_filter s s' → matches s' e = matches s e.
Proof. unfold matches. by intros (-> & -> & -> & _). Qed.

Lemma same_filter_owed s s' es : same_filter s s' → owed s' es = owed s es.
Proof.
  intros Hf. unfold owed. f_equal. apply list_filter_iff. intros e. by rewrite (same_filter_matches _ _ _ Hf).
Qed.

Lemma deliver_eq ev s :
  ∃ ps d, deliver callback ev s =
    set_sub_delivered d (set_sub_pendingStates ps (set_sub_log (sub_log s ++ [ev]) s)).
Proof. eexists _, _. reflexivity. Qed.

Lemma apply_event_eq e s :
  sub_consumer s ≠ "" → he_Seq e = sub_cursor s + 1 →
  ∃ ps d, apply_event callback e s =
    set_sub_pendingCursor (he_Seq e) (set_sub_cursor (he_Seq e)
      (set_sub_delivered d (set_sub_pendingStates ps
        (set_sub_log (sub_log s ++ if matches s e then [healthResultEvent e] else []) s)))).
Proof.
  intros Hc Hseq. unfold apply_event. rewrite (decide_False (P := sub_cursor s + 1 < he_Seq e)) by lia. destruct (matches s e).
  - destruct (deliver_eq (healthResultEvent e) s) as (ps & d & ->). cbn zeta. simpl.
    rewrite decide_True by lia. rewrite decide_False by done. by eexists _, _.
  - cbn zeta. rewrite decide_True by lia. simpl. rewrite decide_False by done.
    exists (sub_pendingStates s), (sub_delivered s). rewrite app_nil_r. by destruct s.
Qed.

Lemma apply_batch_spec es s closeAfter :
  sub_consumer s ≠ "" → sub_closed s = false →
  (∀ n e, es !! n = Some e → he_Seq e = sub_cursor s + 1 + Z.of_nat n) →
  ∃ j, let r := apply_batch callback closeAfter es s in
    (j ≤ length es)%nat ∧ same_filter s r.2 ∧
    (if r.1 then j = length es ∧ sub_closed r.2 = false ∧ sub_inline r.2 = sub_inline s
     else sub_closed r.2 = true ∧ sub_inline r.2 = []) ∧
    sub_cursor r.2 = sub_cursor s + Z.of_nat j ∧
    sub_pendingCursor r.2 = (if decide (j = 0%nat) then sub_pendingCursor s else sub_cursor s + Z.of_nat j) ∧
    sub_log r.2 = sub_log s ++ owed s (take j es) ∧ sub_gaps r.2 = sub_gaps s ∧
    sub_dirty r.2 = sub_dirty s ∧ sub_cursorBlocked r.2 = sub_cursorBlocked s.
Proof.
  intros Hc. revert s closeAfter Hc. induction es as [|e es IH]; intros s closeAfter Hc Hcl Hseq; cbn zeta.
  { exists 0%nat. simpl. rewrite app_nil_r, Z.add_0_r. split_and!; done. }
  simpl. destruct (decide (closeAfter = Some 0%nat)).
  { exists 0%nat. unfold close_subscription. rewrite Hcl. simpl. rewrite app_nil_r, Z.add_0_r.
    split_and!; (done || lia). }
  rewrite Hcl. pose proof (Hseq 0%nat e eq_refl) as He. rewrite Z.add_0_r in He.
  destruct (apply_event_eq e s Hc He) as (ps & d & Heq). set (s' := apply_event callback e s) in *.
  destruct (IH s' (pred <$> closeAfter)) as (j & Hj & Hf & Hfin & Hcur & Hpend & Hlog & Hgap & Hdirty & Hblk).
  { by rewrite Heq. }
  { by rewrite Heq. }
  { intros n0 e' Hn. rewrite Heq. simpl. rewrite (Hseq (S n0) e' Hn). lia. }
  assert (Hfs : same_filter s s') by by rewrite Heq.
  exists (S j). split_and!.
  - simpl. lia.
  - destruct Hf as (? & ? & ? & ?), Hfs as (? & ? & ? & ?). split_and!; congruence.
  - assert (Hinl : sub_inline s' = sub_inline s) by by rewrite Heq.
    rewrite Hinl in Hfin. destruct (apply_batch _ _ _ _).1; [|done].
    destruct Hfin as (-> & ? & ?). done.
  - rewrite Hcur, Heq. simpl. lia.
  - rewrite Hpend, Heq. simpl. rewrite He. repeat case_decide; lia.
  - rewrite Hlog, (same_filter_owed _ _ _ Hfs), Heq. simpl. unfold owed. rewrite <-(assoc_L (++)). f_equal.
    simpl. destruct (matches s e) eqn:Hm.
    + by rewrite filter_cons_True by done.
    + by rewrite filter_cons_False by (by rewrite Hm).
  - by rewrite Hgap, Heq.
  - by rewrite Hdirty, Heq.
  - by rewrite Hblk, Heq.
Qed.
Lemma apply_event_refresh e s : sub_refresh (apply_event callback e s) = sub_refresh s ∧
  sub_closed (apply_event callback e s) = sub_closed s.
Proof.
  unfold apply_event. cbn zeta.
  set (s1 := if decide (sub_cursor s + 1 < he_Seq e) then _ else s).
  assert (H1 : sub_refresh s1 = sub_refresh s ∧ sub_closed s1 = sub_closed s) by (subst s1; by case_decide).
  set (s2 := if matches s1 e then _ else s1).
  assert (H2 : sub_refresh s2 = sub_refresh s1 ∧ sub_closed s2 = sub_closed s1)
    by (subst s2; by destruct (matches s1 e)).
  destruct H1 as [<- <-], H2 as [<- <-]. by repeat case_decide.
Qed.

Lemma apply_batch_refresh ca es s b s' :
  apply_batch callback ca es s = (b, s') → sub_refresh s' = sub_refresh s.
Proof.
  revert ca s. induction es as [|e es IH]; intros ca s; simpl; [by intros [= _ <-]|].
  set (s1 := if decide (ca = Some 0%nat) then close_subscription s else s).
  assert (H1 : sub_refresh s1 = sub_refresh s).
  { subst s1. case_decide; [|done]. unfold close_subscription. by destruct (sub_closed s). }
  destruct (sub_closed s1); [by intros [= _ <-]|]. intros Hab. apply IH in Hab.
  by rewrite Hab, (proj1 (apply_event_refresh e s1)).
Qed.

Lemma apply_batch_not_closed es s s' :
  apply_batch callback None es s = (false, s') → sub_closed s = true.
Proof.
  revert s. induction es as [|e es IH]; intros s; simpl; [done|].
  destruct (sub_closed s) eqn:Hcl; [done|]. intros Hab. apply IH in Hab.
  by rewrite (proj2 (apply_event_refresh e s)), Hcl in Hab.
Qed.

(** Updates the invariant does not look at. *)
Lemma core_frame c0 k i db s s' app :
  delivery_core c0 k i (mkSession db s app) → same_filter s s' →
  sub_cursor s' = sub_cursor s → sub_pendingCursor s' = sub_pendingCursor s →
  journal_log s' = journal_log s → sub_gaps s' = sub_gaps s →
  Forall (λ ev, hr_Seq ev ≤ 0) (sub_inline s') →
  delivery_core c0 k i (mkSession db s' app).
Proof.
  intros [] Hf Hcur Hpend Hlog Hgap Hinl. destruct Hf as (Ht & Hn & Hg & Hc).
  split; simpl in *; rewrite ?Hc, ?Hcur, ?Hpend, ?Hlog, ?Hgap; try done.
  by rewrite (same_filter_owed s s').
Qed.

Lemma core_deliver_other c0 k i db s app ev :
  delivery_core c0 k i (mkSession db s app) → hr_Seq ev ≤ 0 →
  delivery_core c0 k i (mkSession db (deliver callback ev s) app).
Proof.
  intros Hcore Hev. destruct (deliver_eq ev s) as (ps & d & ->).
  eapply core_frame; [exact Hcore|by split_and!|done|done| |done|apply (di_inline _ _ _ _ Hcore)].
  unfold journal_log. simpl. rewrite filter_app, filter_cons_False by lia. by rewrite filter_nil, app_nil_r.
Qed.

Lemma restore_nonempty states : states ≠ [] → foldl restore_state [] states ≠ [].
Proof.
  destruct states as [|x states]; [done|]. intros _. simpl. unfold restore_state at 2.
  rewrite decide_False by set_solver. simpl.
  assert (Hgen : ∀ ss acc, acc ≠ [] → foldl restore_state acc ss ≠ []).
  { induction ss as [|y ss IH]; intros acc Hacc; simpl; [done|]. apply IH. unfold restore_state.
    case_decide; [done|]. by destruct acc. }
  by apply Hgen.
Qed.

Lemma record_nonempty states acc :
  acc ≠ [] → foldl (λ ps st, record_state st ps) acc states ≠ [].
Proof.
  revert acc. induction states as [|x states IH]; intros acc Hacc; simpl; [done|]. apply IH.
  destruct acc as [|y acc]; [done|]. simpl. by case_decide.
Qed.

Lemma scheduleRetry_eq s : ∃ b, scheduleRetry s = set_sub_retryScheduled b s.
Proof.
  unfold scheduleRetry. destruct (sub_closed s || sub_retryScheduled s); [|by eexists].
  exists (sub_retryScheduled s). by destruct s.
Qed.

(** Committing the progress: the database cursor catches up, or the consumer is
    parked with everything it owes. *)
Lemma flush_spec env c0 k i db s app :
  delivery_core c0 k i (mkSession db s app) →
  ∃ b s' db' k', flushCursor env (Some db) s = (b, s', Some db') ∧
    delivery_core c0 k' i (mkSession db' s' app) ∧ sub_closed s' = sub_closed s ∧
    sub_dirty s' = sub_dirty s ∧ sub_inline s' = sub_inline s ∧ sub_refresh s' = sub_refresh s ∧
    same_filter s s' ∧
    (if b then k' = i ∧ sub_cursorBlocked s' = false ∧ sub_pendingCursor s' = 0 ∧ sub_pendingStates s' = []
     else k' = k ∧
       (env_commitFault env = None → s' = s ∧ (sub_closed s = false → ¬ owes s)) ∧
       (sub_closed s = false → (sub_cursorBlocked s' = true ∧ owes s') ∨
         (k = i ∧ s' = s ∧ sub_pendingCursor s = 0 ∧ sub_pendingStates s = []))).
Proof.
  intros Hcore. pose proof (di_order _ _ _ _ Hcore) as Hord. pose proof (di_pending _ _ _ _ Hcore) as Hpend.
  pose proof (di_start _ _ _ _ Hcore) as H0. simpl in Hord, Hpend.
  unfold flushCursor. rewrite (bool_decide_false (sub_consumer s = "")) by apply (di_consumer _ _ _ _ Hcore).
  rewrite orb_false_r.
  destruct (sub_closed s || (bool_decide (sub_pendingCursor s = 0) && bool_decide (sub_pendingStates s = [])))
    eqn:Hearly.
  { assert (Hnone : sub_closed s = false → sub_pendingCursor s = 0 ∧ sub_pendingStates s = []).
    { intros Hcl. rewrite Hcl in Hearly. simpl in Hearly.
      apply andb_true_iff in Hearly as [Hp Hs]. by apply bool_decide_eq_true in Hp, Hs. }
    exists false, s, db, k. split_and!; try done.
    - intros _. split; [done|]. intros Hcl. destruct (Hnone Hcl). unfold owes. naive_solver.
    - intros Hcl. destruct (Hnone Hcl) as [Hp ?]. right.
      split_and!; [|done|done|done]. rewrite Hp in Hpend. case_decide; [done|lia]. }
  apply orb_false_iff in Hearly as [Hcl Howes].
  unfold AdvanceHealthCursorWithState. destruct (env_commitFault env) as [e|] eqn:Hfault.
  - eexists false, _, db, k. split; [reflexivity|].
    match goal with |- context [scheduleRetry ?t] => destruct (scheduleRetry_eq t) as [r ->] end.
    unfold restoreStates. cbn [sub_closed sub_dirty sub_inline sub_refresh set_sub_retryScheduled].
    split_and!; try done.
    2: { intros _. left. split; [done|]. unfold owes. simpl.
         apply andb_false_iff in Howes as [Hp|Hs]; [left; by apply bool_decide_eq_false in Hp|right].
         apply bool_decide_eq_false in Hs. by apply restore_nonempty. }
    eapply core_frame; [exact Hcore|by repeat split|done..|apply (di_inline _ _ _ _ Hcore)].
  - rewrite upsert_all_foldl. destruct (foldl_upsert_drop_frame (sub_pendingStates s) (env_now env) db)
      as (Hev & Hnext & Hcurs).
    set (db1 := foldl _ db _) in *. simpl sub_pendingCursor.
    rewrite (decide_True (P := sub_pendingCursor s = sub_pendingCursor s)) by done.
    set (db2 := if decide (sub_consumer s = "" ∨ sub_pendingCursor s ≤ 0) then db1
                else PutHealthEventCursor (sub_consumer s) (sub_pendingCursor s) db1).
    eexists true, _, db2, i. split.
    { subst db2. destruct (decide (sub_consumer s = "" ∨ sub_pendingCursor s ≤ 0)); reflexivity. }
    split_and!; try done.
    assert (Hrows : filter (λ e, c0 + Z.of_nat i < he_Seq e) (db_events db) = drop i app).
    { apply (rows_after c0 k i _ Hcore). simpl. lia. }
    assert (Hdb2 : db_events db2 = db_events db ∧ db_next db2 = db_next db ∧
      db_cursors db2 !! sub_consumer s = Some (c0 + Z.of_nat i)).
    { clear Howes. pose proof (di_stored _ _ _ _ Hcore) as Hst. simpl in Hst.
      subst db2. destruct (decide (sub_consumer s = "" ∨ sub_pendingCursor s ≤ 0)) as [Hz|Hz]; simpl.
      - split_and!; [done|done|]. destruct Hz as [Hz|Hz]; [by apply (di_consumer _ _ _ _ Hcore) in Hz|].
        rewrite Hpend in Hz. rewrite Hcurs, Hst. case_decide; [by subst|lia].
      - split_and!; [done|done|]. rewrite lookup_insert_eq, Hcurs, Hst. f_equal.
        rewrite Hpend in Hz |- *. destruct (decide (k = i)); [exfalso; apply Hz; right; lia|].
        case_decide; lia. }
    destruct Hdb2 as (He2 & Hn2 & Hc2). destruct Hcore. simpl in *.
    split; simpl; rewrite ?He2, ?Hn2, ?Hc2; try done; try lia. by rewrite decide_True by done.
Qed.
Lemma flush_true_owes env j s s' j' : flushCursor env j s = (true, s', j') → owes s.
Proof.
  unfold flushCursor, owes. destruct (sub_closed s || bool_decide (sub_consumer s = "")); [done|]. simpl.
  destruct (decide (sub_pendingCursor s = 0)); [|auto].
  destruct (decide (sub_pendingStates s = [])); [|auto]. by rewrite !bool_decide_true.
Qed.

Lemma readJournal_clean env j s s1 :
  sub_dirty s = false → readJournal callback env j s = (false, s1) → owes s1 → owes s.
Proof.
  intros Hd. unfold readJournal. destruct j; [|by intros [= <-]]. rewrite Hd.
  by rewrite orb_true_r; intros [= <-].
Qed.

(** Reading a batch: at most one batch further, and only when nothing is owed. *)
Lemma readJournal_spec env c0 k i db s app :
  delivery_inv c0 k i (mkSession db s app) →
  ∃ b s' i', readJournal callback env (Some db) s = (b, s') ∧
    delivery_core c0 k i' (mkSession db s' app) ∧ (i ≤ i')%nat ∧ same_filter s s' ∧
    sub_cursorBlocked s' = sub_cursorBlocked s ∧
    (b = true → sub_closed s' = false ∧ sub_dirty s' = true ∧ (i + healthEventReadBatch = i')%nat) ∧
    (b = false → sub_closed s = true ∨ sub_cursorBlocked s = true → s' = s ∧ i' = i) ∧
    (env_readFault env = None → env_closeAfter env = None → sub_closed s = false →
       sub_cursorBlocked s = false → sub_closed s' = false ∧ sub_inline s' = sub_inline s ∧
       sub_refresh s' = sub_refresh s ∧
       (b = false → sub_dirty s' = false ∧ (sub_dirty s = true → i' = length app))).
Proof.
  intros (Hcore & Hpark & _). simpl in Hpark. unfold readJournal.
  destruct (sub_closed s || negb (sub_dirty s) || sub_cursorBlocked s) eqn:Hskip.
  { exists false, s, i. split_and!; try done. intros _ _ Hcl Hbl. rewrite Hcl, Hbl in Hskip.
    simpl in Hskip. rewrite orb_false_r in Hskip. apply negb_true_iff in Hskip. rewrite Hskip.
    split_and!; try done. }
  apply orb_false_iff in Hskip as [Hskip Hbl]. apply orb_false_iff in Hskip as [Hcl Hd].
  apply negb_false_iff in Hd. pose proof (Hpark Hbl Hcl) as ->.
  destruct (env_readFault env) as [e|] eqn:Hrf.
  { match goal with |- context [scheduleRetry ?t] => destruct (scheduleRetry_eq t) as [r ->] end.
    eexists false, _, i. split; [reflexivity|]. split_and!; try done.
    - eapply core_frame; [exact Hcore|by repeat split|done..|apply (di_inline _ _ _ _ Hcore)].
    - intros _ [?|?]; congruence. }
  pose proof (read_batch c0 i i (mkSession db s app) Hcore) as Hrb.
  cbn [se_sub se_db se_appended] in Hrb. rewrite Hrb.
  set (es := take healthEventReadBatch (drop i app)).
  pose proof (di_order _ _ _ _ Hcore) as Hord. simpl in Hord.
  assert (Hlen : length es = Nat.min healthEventReadBatch (length app - i)).
  { subst es. by rewrite length_take, length_drop. }
  assert (Hes : ∀ n e, es !! n = Some e → app !! (i + n)%nat = Some e).
  { intros n e Hn. subst es. apply lookup_take_Some in Hn as [Hn _]. by rewrite lookup_drop in Hn. }
  destruct (apply_batch_spec es (set_sub_dirty false s) (env_closeAfter env)) as
    (j & Hj & Hf & Hfin & Hcur & Hpend & Hlog & Hgap & Hdirty & Hblk).
  { apply (di_consumer _ _ _ _ Hcore). }
  { done. }
  { intros n e Hn. simpl. rewrite (appended_seq c0 app (i + n) e (di_seqs _ _ _ _ Hcore) (Hes _ _ Hn)).
    pose proof (di_cursor _ _ _ _ Hcore) as Hcu. simpl in Hcu. lia. }
  destruct (apply_batch callback (env_closeAfter env) es (set_sub_dirty false s)) as [fin s2] eqn:Hab.
  simpl in Hfin, Hf, Hcur, Hpend, Hlog, Hgap, Hdirty, Hblk.
  assert (Hcore2 : delivery_core c0 i (i + j) (mkSession db s2 app)).
  { destruct Hcore, Hf as (Ht & Hn & Hg & Hc). cbn [se_sub se_db se_appended] in *.
    split; cbn [se_sub se_db se_appended]; rewrite ?Hc; try done; try lia.
    - unfold journal_log. rewrite Hlog, filter_app. fold (journal_log s). rewrite di_log0.
      rewrite (same_filter_owed s s2) by by split_and!.
      replace (take (i + j) app) with (take i app ++ take j es).
      2: { subst es. rewrite take_take, Nat.min_l by lia. apply take_take_drop. }
      unfold owed. rewrite filter_app, fmap_app. f_equal.
      apply filter_all, Forall_fmap, Forall_forall. intros e [_ He]%list_elem_of_filter. simpl.
      apply list_elem_of_lookup in He as [n He]. apply lookup_take_Some in He as [He _].
      rewrite (appended_seq c0 app (i + n) e di_seqs0 (Hes _ _ He)). lia.
    - rewrite Hpend, di_pending0. rewrite (decide_True (P := i = i)) by done.
      repeat case_decide; lia.
    - destruct fin; [destruct Hfin as (_ & _ & ->)|destruct Hfin as (_ & ->)]; [done|constructor]. }
  destruct fin.
  - destruct Hfin as (-> & Hcl2 & Hinl). destruct (decide (length es = healthEventReadBatch)) as [Hfull|Hpart].
    + eexists true, _, (i + length es)%nat. split; [reflexivity|].
      pose proof (apply_batch_refresh _ _ _ _ _ Hab) as Hrefr.
      split_and!; try (simpl; (done || lia || congruence)).
      * eapply core_frame; [exact Hcore2|by repeat split|done..|apply (di_inline _ _ _ _ Hcore2)].
      * intros _. simpl. split_and!; [done|done|lia].
    + eexists false, _, (i + length es)%nat. split; [reflexivity|].
      pose proof (apply_batch_refresh _ _ _ _ _ Hab) as Hrefr.
      split_and!; try (simpl; (done || lia || congruence)).
      * intros _ [?|?]; congruence.
      * intros _ _ _ _. split_and!; [done|done|done|]. intros _. split; [done|]. intros _.
        unfold healthEventReadBatch in *. lia.
  - destruct Hfin as [Hcl2 Hinl]. eexists false, _, (i + j)%nat. split; [reflexivity|].
    split_and!; try (simpl; (done || lia || congruence)).
    + intros _ [?|?]; congruence.
    + intros _ Hca. rewrite Hca in Hab. apply apply_batch_not_closed in Hab. simpl in Hab. congruence.
Qed.
Lemma same_filter_refl s : same_filter s s.
Proof. by split_and!. Qed.

Lemma same_filter_trans s1 s2 s3 : same_filter s1 s2 → same_filter s2 s3 → same_filter s1 s3.
Proof. unfold same_filter. intuition congruence. Qed.

(** One iteration of the loop keeps the promise. *)
Lemma step_inv env c0 k i db s app :
  delivery_inv c0 k i (mkSession db s app) →
  ∃ b s' db' k' i', step callback env (Some db) s = (b, s', Some db') ∧
    delivery_inv c0 k' i' (mkSession db' s' app) ∧ (i ≤ i')%nat ∧ same_filter s s'.
Proof.
  intros Hinv. destruct Hinv as (Hcore & Hpark & Howes) eqn:Hd. clear Hd. simpl in Hpark, Howes.
  unfold step. destruct (sub_cursorBlocked s) eqn:Hbl.
  { destruct (flush_spec env c0 k i db s app Hcore)
      as (b & s' & db' & k' & -> & Hc' & Hcl & _ & _ & _ & Hf & Hb).
    eexists _, s', db', k', i. split; [done|]. split_and!; [|lia|done].
    split_and!; [done| |]; simpl; rewrite Hcl; destruct b.
    - by destruct Hb as (-> & _).
    - destruct Hb as (-> & _ & Hb). intros Hbl' Hcl'. destruct (Hb Hcl') as [[? _]|(? & _)]; [congruence|done].
    - destruct Hb as (_ & ? & _). congruence.
    - destruct Hb as (_ & _ & Hb). intros _ Hcl'. destruct (Hb Hcl') as [[_ ?]|(_ & -> & _)]; [done|auto]. }
  unfold popInline. destruct (sub_closed s) eqn:Hcl; [|destruct (sub_inline s) as [|ev rest] eqn:Hinl].
  3: { eexists true, _, db, k, i. split; [done|]. split_and!; [|lia|by split_and!].
       pose proof (di_inline _ _ _ _ Hcore) as Hil. simpl in Hil. rewrite Hinl in Hil.
       apply Forall_cons in Hil as [Hev Hrest]. split_and!.
       - apply core_deliver_other; [|done].
         eapply core_frame; [exact Hcore|by split_and!|done..|exact Hrest].
       - intros _ _. by apply Hpark.
       - simpl. congruence. }
  all: destruct (readJournal_spec env c0 k i db s app Hinv)
      as (b & s1 & i1 & -> & Hc1 & Hi1 & Hf1 & Hbl1 & Ht & Hf & _).
  all: destruct (flush_spec env c0 k i1 db s1 app Hc1)
      as (b2 & s2 & db2 & k2 & Hfl & Hc2 & Hcl2 & _ & _ & _ & Hf2 & Hb2); rewrite Hfl.
  all: assert (Hinv2 : delivery_inv c0 k2 i1 (mkSession db2 s2 app)) by
      (split_and!; [done| |]; simpl; destruct b2;
       [by destruct Hb2 as (-> & _)
       |destruct Hb2 as (-> & _ & Hb2); rewrite Hcl2; intros Hx Hy;
        destruct (Hb2 Hy) as [[? _]|(? & _)]; [congruence|done]
       |destruct Hb2 as (_ & ? & _); congruence
       |destruct Hb2 as (_ & _ & Hb2); rewrite Hcl2; intros Hx Hy;
        destruct (Hb2 Hy) as [[_ ?]|(_ & -> & _)]; [done|congruence]]).
  all: assert (Hfs : same_filter s s2) by by eapply same_filter_trans.
  all: destruct b; [by eexists true, s2, db2, k2, i1|].
  all: destruct b2; [by eexists true, s2, db2, k2, i1|].
  all: destruct (takeRefresh s2) as [br s3] eqn:Htr; unfold takeRefresh in Htr.
  all: destruct (sub_closed s2 || negb (sub_refresh s2)); injection Htr as <- <-;
    [by eexists false, s2, db2, k2, i1|].
  all: eexists true, _, db2, k2, i1; split; [done|]; split_and!; [|lia|done].
  all: destruct Hinv2 as (Hc3 & Hp3 & Ho3).
  all: split_and!; [|exact Hp3|].
  all: try (apply core_deliver_other; [|simpl; lia];
    eapply core_frame; [exact Hc3|by split_and!|done..|apply (di_inline _ _ _ _ Hc3)]).
  all: intros Hx Hy; destruct (Ho3 Hx Hy) as [Hp|Hs]; [left; exact Hp|right].
  all: simpl; by apply record_nonempty.
Qed.
(** ** Runs of a session *)

(** Operations on the subscription that deliver nothing. *)
Lemma inv_frame c0 k i db s s' app :
  delivery_inv c0 k i (mkSession db s app) → same_filter s s' →
  sub_cursor s' = sub_cursor s → sub_pendingCursor s' = sub_pendingCursor s →
  sub_log s' = sub_log s → sub_gaps s' = sub_gaps s → sub_pendingStates s' = sub_pendingStates s →
  sub_cursorBlocked s' = sub_cursorBlocked s → (sub_closed s' = false → sub_closed s = false) →
  Forall (λ ev, hr_Seq ev ≤ 0) (sub_inline s') →
  delivery_inv c0 k i (mkSession db s' app).
Proof.
  intros (Hcore & Hp & Ho) Hf Hcur Hpend Hlog Hgap Hst Hbl Hcl Hinl. simpl in *. split_and!.
  - apply (core_frame c0 k i db s); [done..| |done|done]. unfold journal_log. by rewrite Hlog.
  - simpl. rewrite Hbl. intros ? ?. apply Hp; [done|by apply Hcl].
  - unfold owes in *. simpl in *. rewrite Hbl, Hpend, Hst. intros ? ?. apply Ho; [done|by apply Hcl].
Qed.

(** Changes of the database that keep this consumer's cursor and unread rows. *)
Lemma inv_db_frame c0 k i db db' s app :
  delivery_inv c0 k i (mkSession db s app) → db_next db' = db_next db →
  db_cursors db' !! sub_consumer s = db_cursors db !! sub_consumer s →
  filter (λ e, c0 + Z.of_nat k < he_Seq e) (db_events db') =
    filter (λ e, c0 + Z.of_nat k < he_Seq e) (db_events db) →
  delivery_inv c0 k i (mkSession db' s app).
Proof.
  intros (Hcore & Hp & Ho) Hn Hc Hr. split_and!; [|done|done].
  destruct Hcore. simpl in *. split; simpl; rewrite ?Hn, ?Hc, ?Hr; done.
Qed.

Lemma notify_inv c0 k i db s app ev :
  delivery_inv c0 k i (mkSession db s app) →
  delivery_inv c0 k i (mkSession db (notify ev true s) app) ∧ same_filter s (notify ev true s).
Proof.
  intros Hinv. pose proof (di_inline _ _ _ _ (proj1 Hinv)) as Hinl. simpl in Hinl. unfold notify.
  destruct (sub_closed s) eqn:Hcl; [by split_and!|].
  destruct (hr_SnapshotOnly ev).
  { split; [|by split_and!]. eapply inv_frame; [exact Hinv|by split_and!|done..]. }
  rewrite andb_true_r. case_bool_decide.
  { split; [|by split_and!]. eapply inv_frame; [exact Hinv|by split_and!|done..]. }
  destruct (decide (healthEventInlineLimit ≤ length (sub_inline s))%nat).
  { split; [|by split_and!]. eapply inv_frame; [exact Hinv|by split_and!|done..]. }
  split; [|by split_and!]. eapply inv_frame; [exact Hinv|by split_and!|done..|].
  simpl. apply Forall_app. split; [done|]. apply Forall_singleton. lia.
Qed.

Lemma append_inv c0 k i x e now :
  delivery_inv c0 k i x → delivery_inv c0 k i (do_append e now x).
Proof.
  destruct x as [db s app]. intros Hinv. unfold do_append, AppendHealthEvent. simpl.
  case_decide; [done|]. destruct Hinv as (Hcore & Hp & Ho). split_and!; [|done|done].
  destruct Hcore. cbn [se_db se_sub se_appended] in *.
  split; cbn [se_db se_sub se_appended]; try done.
  - rewrite fmap_app, length_app. cbn [length]. rewrite Nat2Z.inj_add, seqZ_app by lia.
    rewrite di_seqs0. f_equal. rewrite seqZ_cons by lia. simpl. f_equal. lia.
  - simpl. rewrite length_app. simpl. lia.
  - rewrite length_app. lia.
  - simpl. rewrite filter_app, di_rows0, drop_app_le by lia. f_equal.
    rewrite (filter_cons_True (λ e, c0 + Z.of_nat k < he_Seq e)); [done|]. simpl. lia.
  - rewrite take_app_le by lia. done.
Qed.

Lemma hstep_inv c0 k i x x' :
  delivery_inv c0 k i x → hstep x x' →
  ∃ k' i', delivery_inv c0 k' i' x' ∧ (i ≤ i')%nat ∧ same_filter (se_sub x) (se_sub x').
Proof.
  intros Hinv Hstep. destruct Hstep as [x e now|x ev|x env|x|x|x t cs Hin|x c seq ss now fault Hc|x st now db' Hu];
    destruct x as [db s app]; cbn [se_db se_sub se_appended] in *.
  - exists k, i. split_and!; [by apply append_inv|done|]. unfold do_append.
    cbn [se_db se_sub se_appended]. destruct (AppendHealthEvent e now db) as [? []]; by split_and!.
  - exists k, i. destruct (notify_inv c0 k i db s app ev Hinv). done.
  - destruct (step_inv env c0 k i db s app Hinv) as (b & s' & db' & k' & i' & Hst & Hinv' & Hi & Hf).
    exists k', i'. unfold do_step. cbn [se_db se_sub se_appended]. rewrite Hst. done.
  - exists k, i. split_and!; [|done|unfold retry_fires; simpl; by destruct (sub_closed s)].
    pose proof (di_inline _ _ _ _ (proj1 Hinv)). unfold retry_fires. simpl.
    destruct (sub_closed s) eqn:Hcl; (eapply inv_frame; [exact Hinv|by split_and!|done..]).
  - exists k, i. pose proof (di_inline _ _ _ _ (proj1 Hinv)). unfold close_subscription.
    destruct (sub_closed s) eqn:Hcl; [by split_and!|]. split_and!; [|done|by split_and!].
    eapply inv_frame; [exact Hinv|by split_and!|done..|constructor].
  - exists k, i. split_and!; [|done|by split_and!].
    destruct (prune_keeps_owed_events t cs db) as (Hkeep & _ & _ & Hcur & _).
    eapply inv_db_frame; [exact Hinv|done|by rewrite Hcur|].
    specialize (Hkeep _ Hin). unfold cursor_or_zero in Hkeep.
    pose proof (di_stored _ _ _ _ (proj1 Hinv)) as Hst. simpl in Hst. rewrite Hst in Hkeep. exact Hkeep.
  - exists k, i. split_and!; [|done|by split_and!]. unfold AdvanceHealthCursorWithState.
    destruct fault; [done|]. rewrite upsert_all_foldl.
    destruct (foldl_upsert_drop_frame ss now db) as (Hev & Hn & Hcur).
    case_decide; (eapply inv_db_frame; [exact Hinv|..]); simpl; rewrite ?Hev, ?Hn, ?Hcur; try done.
    by rewrite lookup_insert_ne.
  - exists k, i. split_and!; [|done|by split_and!].
    pose proof (upsert_drop_frame st now db) as Hfr. unfold upsert_drop in Hfr. rewrite Hu in Hfr.
    destruct Hfr as (Hev & Hn & Hcur). eapply inv_db_frame; [exact Hinv|done|by rewrite Hcur|by rewrite Hev].
Qed.

Lemma hsteps_inv c0 k i x x' :
  delivery_inv c0 k i x → rtc hstep x x' →
  ∃ k' i', delivery_inv c0 k' i' x' ∧ (i ≤ i')%nat ∧ same_filter (se_sub x) (se_sub x').
Proof.
  intros Hinv Hrun. revert k i Hinv. induction Hrun as [x|x1 x2 x3 Hs _ IH]; intros k i Hinv.
  - exists k, i. split_and!; [done|done|by split_and!].
  - destruct (hstep_inv _ _ _ _ _ Hinv Hs) as (k2 & i2 & Hinv2 & ? & ?).
    destruct (IH _ _ Hinv2) as (k3 & i3 & ? & ? & ?). exists k3, i3.
    split_and!; [done|lia|by eapply same_filter_trans].
Qed.
(** ** The loop ends with everything delivered *)
Definition owesb (s : subscription) : bool :=
  negb (bool_decide (sub_pendingCursor s = 0) && bool_decide (sub_pendingStates s = [])).

Lemma owesb_false s : ¬ owes s → owesb s = false.
Proof.
  unfold owes, owesb. intros Hn. destruct (decide (sub_pendingCursor s = 0)); [|by exfalso; auto].
  destruct (decide (sub_pendingStates s = [])); [|by exfalso; auto]. by rewrite !bool_decide_true.
Qed.

Lemma owesb_true s : owes s → owesb s = true.
Proof.
  unfold owes, owesb. intros [Hn|Hn].
  - by rewrite (bool_decide_false (sub_pendingCursor s = 0)) by done.
  - by rewrite (bool_decide_false (sub_pendingStates s = [])), andb_false_r by done.
Qed.

(** A bound on the iterations still to come. *)
Definition work (n i : nat) (s : subscription) : nat :=
  4 * length (sub_inline s) + 2 * (n - i) + Nat.b2n (sub_dirty s) + Nat.b2n (owesb s) +
  2 * Nat.b2n (sub_refresh s) + Nat.b2n (sub_cursorBlocked s).

Lemma step_calm now c0 k i db s app :
  delivery_inv c0 k i (mkSession db s app) → sub_closed s = false →
  sub_dirty s = true ∨ i = length app →
  ∃ b s' db' k' i', step callback (calm now) (Some db) s = (b, s', Some db') ∧
    delivery_inv c0 k' i' (mkSession db' s' app) ∧ sub_closed s' = false ∧
    (sub_dirty s' = true ∨ i' = length app) ∧
    (if b then (work (length app) i' s' < work (length app) i s)%nat
     else k' = i' ∧ i' = length app ∧ sub_inline s' = [] ∧ sub_refresh s' = false ∧
          sub_cursorBlocked s' = false ∧ ¬ owes s').
Proof.
  intros Hinv Hcl Hd. pose proof Hinv as (Hcore & Hpark & Howes). simpl in Hpark, Howes.
  pose proof (di_order _ _ _ _ Hcore) as Hord. simpl in Hord.
  unfold step. destruct (sub_cursorBlocked s) eqn:Hbl.
  { destruct (flush_spec (calm now) c0 k i db s app Hcore)
      as (b & s' & db' & k' & -> & Hc' & Hcl' & Hd' & Hi' & Hr' & Hf & Hb). destruct b.
    - destruct Hb as (-> & Hb' & Hp' & Hs'). rewrite Hb'. eexists true, s', db', i, i. split; [done|].
      split_and!; [split_and!; [done|done|simpl; congruence]|congruence|by rewrite Hd'|].
      unfold work. rewrite Hi', Hd', Hr', Hb', Hbl. rewrite (owesb_true s) by auto.
      rewrite (owesb_false s') by (unfold owes; rewrite Hp', Hs'; tauto). simpl. lia.
    - destruct Hb as (_ & Hb & _). destruct (Hb eq_refl) as [_ Hn]. exfalso. apply Hn; auto. }
  pose proof (Hpark eq_refl Hcl) as ->. unfold popInline. rewrite Hcl.
  destruct (sub_inline s) as [|ev rest] eqn:Hinl.
  2: { eexists true, _, db, i, i. split; [done|].
       pose proof (di_inline _ _ _ _ Hcore) as Hil. simpl in Hil. rewrite Hinl in Hil.
       apply Forall_cons in Hil as [Hev Hrest]. split_and!; [split_and!| | |]; try done.
       - apply core_deliver_other; [|done].
         eapply core_frame; [exact Hcore|by split_and!|done..|exact Hrest].
       - simpl. congruence.
       - unfold work. simpl. rewrite Hinl. simpl.
         destruct (owesb _), (owesb s); simpl; lia. }
  destruct (readJournal_spec (calm now) c0 i i db s app Hinv)
      as (b & s1 & i1 & Hrj & Hc1 & Hi1 & Hf1 & Hbl1 & Ht & _ & Hcalm). rewrite Hrj.
  destruct (Hcalm eq_refl eq_refl Hcl Hbl) as (Hcl1 & Hinl1 & Hr1 & Hdrained).
  pose proof (di_order _ _ _ _ Hc1) as Hord1. simpl in Hord1.
  destruct (flush_spec (calm now) c0 i i1 db s1 app Hc1)
      as (b2 & s2 & db2 & k2 & Hfl & Hc2 & Hcl2 & Hd2 & Hi2 & Hr2 & Hf2 & Hb2). rewrite Hfl.
  assert (Hafter : k2 = i1 ∧ sub_cursorBlocked s2 = false ∧ ¬ owes s2 ∧ (b2 = false → s2 = s1)).
  { destruct b2.
    - destruct Hb2 as (-> & Hb' & Hp' & Hs'). split_and!; [done|done| |done].
      unfold owes. rewrite Hp', Hs'. tauto.
    - destruct Hb2 as (-> & Hb & Hb'). destruct (Hb eq_refl) as [-> Hn]. specialize (Hn Hcl1).
      destruct (Hb' Hcl1) as [[_ ?]|(? & _)]; [done|]. split_and!; [done|congruence|done|done]. }
  destruct Hafter as (-> & Hbl2 & Hno2 & Hsame).
  assert (Hinv2 : delivery_inv c0 i1 i1 (mkSession db2 s2 app)).
  { split_and!; [done|done|]. simpl. congruence. }
  destruct b.
  { destruct (Ht eq_refl) as (_ & Hd1 & Hstep64). eexists true, s2, db2, i1, i1. split; [done|].
    split_and!; [done|congruence|left; congruence|].
    unfold work. rewrite Hi2, Hd2, Hr2, Hbl2, Hbl, (owesb_false s2 Hno2), Hinl1, Hd1, Hr1, Hinl.
    unfold healthEventReadBatch in Hstep64. destruct (sub_dirty s), (owesb s); simpl; lia. }
  destruct (Hdrained eq_refl) as [Hd1 Hall].
  assert (Hend : i1 = length app).
  { destruct Hd as [Hd| ->]; [by apply Hall|lia]. }
  destruct b2.
  { eexists true, s2, db2, i1, i1. split; [done|]. split_and!; [done|congruence|by right|].
    unfold work. rewrite Hi2, Hd2, Hr2, Hbl2, Hbl, (owesb_false s2 Hno2), Hinl1, Hd1, Hr1, Hinl.
    destruct (sub_dirty s) eqn:Hdd; [simpl; lia|]. rewrite (owesb_true s); [simpl; lia|].
    eapply readJournal_clean; [exact Hdd|exact Hrj|]. eapply flush_true_owes. exact Hfl. }
  rewrite (Hsame eq_refl) in *. unfold takeRefresh. rewrite Hcl1, Hr1. simpl.
  destruct (sub_refresh s) eqn:Href; simpl.
  - eexists true, _, db2, i1, i1. split; [done|]. destruct Hinv2 as (Hc3 & Hp3 & Ho3).
    split_and!; [split_and!| | |]; try done.
    + apply core_deliver_other; [|simpl; lia].
      eapply core_frame; [exact Hc3|by split_and!|done..|apply (di_inline _ _ _ _ Hc3)].
    + simpl. congruence.
    + by right.
    + unfold work. simpl. rewrite Hinl1, Hinl, Hd1, Hbl2, Hbl, Href. simpl.
      destruct (owesb _), (owesb s), (sub_dirty s); simpl; lia.
  - eexists false, s1, db2, i1, i1. split; [done|]. split_and!; try done; [by right|congruence].
Qed.
(** The state a session starts from. *)
Definition resumed (db : journal_db) (s : subscription) : session :=
  mkSession db s (filter (λ e, sub_cursor s < he_Seq e) (db_events db)).

(** Nothing was pruned past the cursor: the unread rows are numbered without a
    hole up to the next number the journal will assign. *)
Definition no_hole (db : journal_db) (s : subscription) : Prop :=
  let unread := filter (λ e, sub_cursor s < he_Seq e) (db_events db) in
  0 ≤ sub_cursor s ∧ he_Seq <$> unread = seqZ (sub_cursor s + 1) (Z.of_nat (length unread)) ∧
  db_next db = sub_cursor s + 1 + Z.of_nat (length unread).

Lemma resumed_inv tags nodeIDs global consumer db0 db s :
  newHealthEventSubscription tags nodeIDs global consumer false false false (Some db0) = (s, Some db) →
  consumer ≠ "" → no_hole db s → delivery_inv (sub_cursor s) 0 0 (resumed db s).
Proof.
  intros Hnew Hc (H0 & Hseqs & Hnext). unfold newHealthEventSubscription, initCursor in Hnew.
  simpl in Hnew. rewrite (bool_decide_false (consumer = "")) in Hnew by done. simpl in Hnew.
  assert (Hs : sub_consumer s = consumer ∧ sub_pendingCursor s = 0 ∧ sub_cursorBlocked s = false ∧
    sub_gaps s = 0 ∧ sub_inline s = [] ∧ sub_log s = [] ∧ sub_pendingStates s = [] ∧
    db_cursors db !! consumer = Some (sub_cursor s)).
  { unfold GetHealthEventCursor in Hnew. destruct (db_cursors db0 !! consumer) as [seq|] eqn:Hcur; simplify_eq/=.
    - done.
    - split_and!; try done. rewrite lookup_insert_eq. by rewrite Hcur. }
  destruct Hs as (Hs1 & Hs2 & Hs3 & Hs4 & Hs5 & Hs6 & Hs7 & Hs8).
  split_and!; [|done|simpl; congruence]. split; cbn [resumed se_db se_sub se_appended]; try done; try lia.
  - congruence.
  - by rewrite Hs1, Hs8, Z.add_0_r.
  - by rewrite Z.add_0_r.
  - unfold journal_log. by rewrite Hs6.
  - by rewrite Hs5.
Qed.

(** C1: over any run of a resumed durable consumer (faults, interleavings,
    prunes and a close included) the events handed to its callback are exactly
    the matching events among the first ones committed after its start, each
    once and in commit order, the cursor counts them, and no gap is recorded. *)
Theorem journal_delivered_in_order_exactly_once tags nodeIDs global consumer db0 db s x :
  newHealthEventSubscription tags nodeIDs global consumer false false false (Some db0) = (s, Some db) →
  consumer ≠ "" → no_hole db s → rtc hstep (resumed db s) x →
  ∃ i : nat, (i ≤ length (se_appended x))%nat ∧
    he_Seq <$> se_appended x = seqZ (sub_cursor s + 1) (Z.of_nat (length (se_appended x))) ∧
    sub_cursor (se_sub x) = sub_cursor s + Z.of_nat i ∧
    journal_log (se_sub x) = owed s (take i (se_appended x)) ∧
    sub_gaps (se_sub x) = 0.
Proof.
  intros Hnew Hc Hh Hrun.
  destruct (hsteps_inv _ _ _ _ _ (resumed_inv _ _ _ _ _ _ _ Hnew Hc Hh) Hrun)
    as (k & i & (Hcore & _) & _ & Hf). exists i.
  destruct Hcore. split_and!; [lia|done|done| |done].
  rewrite di_log0. by apply same_filter_owed.
Qed.

(** In every state of such a run the progress that a crash would lose is at
    most one batch of events, all of it is durable whenever the consumer is not
    parked on a failed commit, and every event a restart would have to replay is
    still in the journal. *)
Theorem unpersisted_progress_is_one_batch tags nodeIDs global consumer db0 db s x :
  newHealthEventSubscription tags nodeIDs global consumer false false false (Some db0) = (s, Some db) →
  consumer ≠ "" → no_hole db s → rtc hstep (resumed db s) x →
  ∃ p, db_cursors (se_db x) !! consumer = Some p ∧
    p ≤ sub_cursor (se_sub x) ≤ p + Z.of_nat healthEventReadBatch ∧
    (sub_cursorBlocked (se_sub x) = false → sub_closed (se_sub x) = false → p = sub_cursor (se_sub x)) ∧
    (∀ e, e ∈ se_appended x → p < he_Seq e → e ∈ db_events (se_db x)).
Proof.
  intros Hnew Hc Hh Hrun.
  assert (Hcons : sub_consumer s = consumer).
  { unfold newHealthEventSubscription, initCursor in Hnew. repeat case_match; by simplify_eq/=. }
  destruct (hsteps_inv _ _ _ _ _ (resumed_inv _ _ _ _ _ _ _ Hnew Hc Hh) Hrun)
    as (k & i & (Hcore & Hp & _) & _ & Hf). destruct Hf as (_ & _ & _ & Hf). simpl in Hf.
  exists (sub_cursor s + Z.of_nat k). destruct Hcore. split_and!.
  - by rewrite <-Hcons, <-Hf.
  - lia.
  - lia.
  - intros Hb Hcl. rewrite (Hp Hb Hcl). lia.
  - intros e He Hlt. assert (Hin : e ∈ drop k (se_appended x)).
    { rewrite <-(filter_after_drop (sub_cursor s)) by done. by apply list_elem_of_filter. }
    rewrite <-di_rows0 in Hin. by apply list_elem_of_filter in Hin as [_ Hin].
Qed.

(** The loop under a calm database. *)
Lemma drain_calm now c0 app fuel k i db s :
  delivery_inv c0 k i (mkSession db s app) → sub_closed s = false →
  sub_dirty s = true ∨ i = length app → (work (length app) i s < fuel)%nat →
  ∃ s' db', drain callback fuel (calm now) (Some db) s = (true, s', Some db') ∧
    delivery_inv c0 (length app) (length app) (mkSession db' s' app) ∧ sub_inline s' = [] ∧
    sub_refresh s' = false ∧ ¬ owes s' ∧ sub_cursorBlocked s' = false ∧ same_filter s s'.
Proof.
  revert k i db s. induction fuel as [|fuel IH]; intros k i db s Hinv Hcl Hd Hw; [lia|]. simpl.
  destruct (step_calm now c0 k i db s app Hinv Hcl Hd)
    as (b & s1 & db1 & k1 & i1 & Hst & Hinv1 & Hcl1 & Hd1 & Hb). rewrite Hst.
  assert (Hf1 : same_filter s s1).
  { destruct (step_inv (calm now) c0 k i db s app Hinv) as (? & ? & ? & ? & ? & Heq & _ & _ & Hf).
    rewrite Hst in Heq. by simplify_eq. }
  destruct b.
  - destruct (IH k1 i1 db1 s1) as (s' & db' & ? & ? & ? & ? & ? & ? & ?); [done|done|done|lia|].
    exists s', db'. split_and!; try done. by eapply same_filter_trans.
  - destruct Hb as (-> & -> & ? & ? & ? & ?). by exists s1, db1.
Qed.

(** C40: a wakeup loses nothing: once a journal event was announced to a durable
    consumer that is running, its loop terminates under a healthy database within
    an explicit number of iterations, having delivered every matching event
    committed so far, committed the cursor to the tail of the journal, and left
    no inline event, refresh request or state behind. *)
Theorem drain_delivers_the_whole_journal tags nodeIDs global consumer db0 db s x ev now fuel :
  newHealthEventSubscription tags nodeIDs global consumer false false false (Some db0) = (s, Some db) →
  consumer ≠ "" → no_hole db s → rtc hstep (resumed db s) x →
  sub_closed (se_sub x) = false → hr_SnapshotOnly ev = false → 0 < hr_Seq ev →
  (4 * length (sub_inline (se_sub x)) + 2 * length (se_appended x) + 6 ≤ fuel)%nat →
  ∃ s' db', drain callback fuel (calm now) (Some (se_db x)) (notify ev true (se_sub x)) = (true, s', Some db') ∧
    journal_log s' = owed s (se_appended x) ∧
    sub_cursor s' = db_next (se_db x) - 1 ∧ db_cursors db' !! consumer = Some (sub_cursor s') ∧
    sub_pendingCursor s' = 0 ∧ sub_pendingStates s' = [] ∧ sub_inline s' = [] ∧ sub_refresh s' = false.
Proof.
  intros Hnew Hc Hh Hrun Hcl Hev Hseq Hfuel.
  assert (Hcons : sub_consumer s = consumer).
  { unfold newHealthEventSubscription, initCursor in Hnew. repeat case_match; by simplify_eq/=. }
  destruct (hsteps_inv _ _ _ _ _ (resumed_inv _ _ _ _ _ _ _ Hnew Hc Hh) Hrun)
    as (k & i & Hinv & _ & Hf). destruct x as [dbx sx app]. cbn [se_db se_sub se_appended] in *.
  destruct (notify_inv _ _ _ _ _ _ ev Hinv) as [Hinv1 Hf1].
  assert (Hn : notify ev true sx = wakeup (set_sub_dirty true sx)).
  { unfold notify. rewrite Hcl, Hev. by rewrite bool_decide_true. }
  rewrite Hn in *.
  destruct (drain_calm now (sub_cursor s) app fuel k i dbx (wakeup (set_sub_dirty true sx)))
    as (s' & db' & Hdr & (Hcore & _) & Hil & Hrf & Hno & _ & Hf2); [done|done|by left| |].
  { unfold work. simpl. destruct (owesb _), (sub_refresh sx), (sub_cursorBlocked sx); simpl; lia. }
  exists s', db'. pose proof (same_filter_trans _ _ _ Hf (same_filter_trans _ _ _ Hf1 Hf2)) as Hfs.
  pose proof (di_next _ _ _ _ (proj1 Hinv)) as Hnx. simpl in Hnx.
  destruct Hcore. cbn [se_db se_sub se_appended] in *. split_and!; try done.
  - rewrite di_log0, take_ge by done. by apply same_filter_owed.
  - lia.
  - destruct Hfs as (_ & _ & _ & Hfc). simpl in Hfc.
    rewrite <-Hcons, <-Hfc. rewrite di_stored0. f_equal. lia.
  - unfold owes in Hno. destruct (decide (sub_pendingCursor s' = 0)); [done|]. exfalso. auto.
  - unfold owes in Hno. destruct (decide (sub_pendingStates s' = [])); [done|]. exfalso. auto.
Qed.
End delivery.

(** ** A transient read fault at registration *)
Lemma MaxHealthEventSeq_ge db e : e ∈ db_events db → he_Seq e ≤ MaxHealthEventSeq db.
Proof.
  unfold MaxHealthEventSeq. induction (db_events db) as [|x l IH]; [set_solver|].
  intros [->|Hin]%elem_of_cons; simpl; [lia|]. specialize (IH Hin). lia.
Qed.

(** A durable consumer whose cursor cannot be read when it registers does
    not resume where it stopped: it starts at the journal tail and overwrites its
    durable cursor with the tail, so every event it still owed is skipped for
    good, although both queries that follow the failed one succeed. *)
Theorem failed_cursor_read_skips_the_backlog tags nodeIDs global consumer db p e s db' :
  journal_wf db → consumer ≠ "" → db_cursors db !! consumer = Some p →
  e ∈ db_events db → p < he_Seq e →
  newHealthEventSubscription tags nodeIDs global consumer true false false (Some db) = (s, Some db') →
  ListHealthEventsAfter p (Z.of_nat healthEventReadBatch) db ≠ [] ∧
  ListHealthEventsAfter (sub_cursor s) (Z.of_nat healthEventReadBatch) db' = [] ∧
  ∃ p', db_cursors db' !! consumer = Some p' ∧ p < p' ∧ he_Seq e ≤ p'.
Proof.
  intros Hw Hc Hp He Hlt Hnew. unfold newHealthEventSubscription, initCursor in Hnew. simpl in Hnew.
  rewrite orb_true_r, (bool_decide_false (consumer = "")) in Hnew by done. simpl in Hnew.
  injection Hnew as <- <-. simpl. pose proof (MaxHealthEventSeq_ge db e He) as Hmax. split_and!.
  - intros Hnil. apply (journal_page_nil p (Z.of_nat healthEventReadBatch) db) in Hnil.
    rewrite Forall_forall in Hnil. specialize (Hnil e He). lia.
  - apply journal_page_nil. simpl. apply Forall_forall. intros e' He'.
    by apply MaxHealthEventSeq_ge.
  - rewrite lookup_insert_eq, Hp. eexists. split; [done|]. case_decide; lia.
Qed.

(** ** Concrete runs *)
Import JournalExample.

(** A group consumer that reports an eviction for each failure it is given. *)
Definition group_callback (log : list HealthResultEvent) (ev : HealthResultEvent) : list GroupNodeState :=
  if hr_Success ev then [] else [failed_state (hr_NodeID ev) (Z.of_nat (length log) + 1)].

(** The consumer of group 1 in [journal3]: its cursor is 1, events 2 and 3 are
    unread, and it follows node 7 only. *)
Definition group_start : subscription * option journal_db :=
  newHealthEventSubscription [] [7] false "group:1" false false false (Some journal3).
Definition group_sub : subscription := group_start.1.
Definition group_session : session := resumed journal3 group_sub.

(** One more failure of node 7 is committed and the commit of the first batch
    fails once. *)
Definition flaky : environment := mkEnv None (Some "database is locked") None 500.
Definition announced : HealthResultEvent := mkHealthResult "n" 7 false 0 "" "probe" 4 400 false.
Definition group_run : session :=
  do_step group_callback (calm 510) (do_step group_callback flaky
    (mkSession (se_db (do_append (measured 7 false 400) 400 group_session))
       (notify announced true group_sub) (se_appended (do_append (measured 7 false 400) 400 group_session)))).

Lemma group_start_eq : group_start = (group_sub, Some journal3).
Proof. vm_compute. reflexivity. Qed.

Lemma group_no_hole : no_hole journal3 group_sub.
Proof. vm_compute. split_and!; congruence. Qed.

Lemma group_run_steps : rtc (hstep group_callback) group_session group_run.
Proof.
  eapply rtc_l; [apply (HAppend group_callback group_session (measured 7 false 400) 400)|].
  eapply rtc_l; [apply (HNotify group_callback _ announced)|].
  eapply rtc_l; [apply (HStep group_callback _ flaky)|].
  apply rtc_once, (HStep group_callback _ (calm 510)).
Qed.

Lemma journal_delivered_in_order_exactly_once_witness :
  ∃ i : nat, journal_log (se_sub group_run) = owed group_sub (take i (se_appended group_run)) ∧
    (hr_Seq <$> journal_log (se_sub group_run)) = [3; 4] ∧
    db_cursors (se_db group_run) !! "group:1" = Some 4.
Proof.
  destruct (journal_delivered_in_order_exactly_once group_callback [] [7] false "group:1" journal3 journal3
    group_sub group_run) as (i & _ & _ & _ & Hlog & _);
    [exact group_start_eq|done|exact group_no_hole|exact group_run_steps|].
  exists i. split; [exact Hlog|]. split; vm_compute; reflexivity.
Defined.

Lemma unpersisted_progress_is_one_batch_witness :
  ∃ p, db_cursors (se_db group_run) !! "group:1" = Some p ∧
    p ≤ sub_cursor (se_sub group_run) ≤ p + 64.
Proof.
  destruct (unpersisted_progress_is_one_batch group_callback [] [7] false "group:1" journal3 journal3
    group_sub group_run) as (p & Hp & Hb & _);
    [exact group_start_eq|done|exact group_no_hole|exact group_run_steps|].
  exists p. split; [exact Hp|exact Hb].
Defined.

Lemma drain_delivers_the_whole_journal_witness :
  ∃ s' db', drain group_callback 40 (calm 600) (Some (se_db group_session))
      (notify announced true (se_sub group_session)) = (true, s', Some db') ∧
    journal_log s' = owed group_sub (se_appended group_session) ∧
    db_cursors db' !! "group:1" = Some (sub_cursor s').
Proof.
  destruct (drain_delivers_the_whole_journal group_callback [] [7] false "group:1" journal3 journal3
    group_sub group_session announced 600 40) as (s' & db' & Hd & Hl & _ & Hc & _);
    [exact group_start_eq|done|exact group_no_hole|apply rtc_refl|vm_compute; reflexivity|done|done
    |vm_compute; lia|].
  exists s', db'. split; [exact Hd|split; [exact Hl|exact Hc]].
Defined.

Lemma failed_cursor_read_skips_the_backlog_witness :
  ∃ s db', newHealthEventSubscription [] [7] false "group:1" true false false (Some journal3) = (s, Some db') ∧
    ListHealthEventsAfter 1 64 journal3 ≠ [] ∧ ListHealthEventsAfter (sub_cursor s) 64 db' = [].
Proof.
  eexists _, _. split; [reflexivity|].
  edestruct (failed_cursor_read_skips_the_backlog [] [7] false "group:1" journal3 1) as (H1 & H2 & _);
    [exact journal3_wf|done|vm_compute; reflexivity|simpl; right; left|vm_compute; reflexivity|reflexivity|].
  split; [exact H1|exact H2].
Defined.
