(* ===== verification/HealthHub.v ===== *)
(** The hub that fans the health journal out to its consumers
    ([internal/monitor/health_event_hub.go], type [healthEventHub], and
    [health_event_prune.go]): the registry of subscriptions with its indexes by
    tag and node, publication, statistics and the retention policy. *)

From S2P Require Import Prelude HealthJournal HealthSubscription.

Record healthEventHub := mkHub {
  hub_nextID : Z;
  hub_byID : gmap Z subscription;
  hub_global : gset Z;
  hub_byTag : gmap string (gset Z);
  hub_byNodeID : gmap Z (gset Z);
  hub_rejected : Z;
  hub_pressurePrunes : Z;
  hub_prunedEvents : Z
}.

Definition newHealthEventHub : healthEventHub := mkHub 0 ∅ ∅ ∅ ∅ 0 0 0.

Definition healthEventConsumedRetention : Z := 5 * GoTime.minute.
Definition healthEventRetention : Z := 30 * GoTime.minute.
Definition healthEventPressureThreshold : Z := HealthEventJournalLimit * 3 / 4.

Definition set_hub_byID (m : gmap Z subscription) (h : healthEventHub) : healthEventHub :=
  mkHub (hub_nextID h) m (hub_global h) (hub_byTag h) (hub_byNodeID h) (hub_rejected h)
    (hub_pressurePrunes h) (hub_prunedEvents h).

(** ** The indexes *)
Section index.
Context {K : Type} `{Countable K}.

Definition index_of (k : K) (m : gmap K (gset Z)) : gset Z := default ∅ (m !! k).

Definition index_add (id : Z) (ks : list K) (m : gmap K (gset Z)) : gmap K (gset Z) :=
  foldl (λ m k, <[k := {[id]} ∪ index_of k m]> m) m ks.

Definition index_del (id : Z) (ks : list K) (m : gmap K (gset Z)) : gmap K (gset Z) :=
  foldl (λ m k, let ids := index_of k m ∖ {[id]} in
                if decide (ids = ∅) then delete k m else <[k := ids]> m) m ks.

Lemma index_of_insert k k' ids m :
  index_of k (<[k' := ids]> m) = if decide (k' = k) then ids else index_of k m.
Proof. unfold index_of. rewrite lookup_insert. by case_decide. Qed.

Lemma elem_of_index_add id ks m k id' :
  id' ∈ index_of k (index_add id ks m) ↔ id' ∈ index_of k m ∨ (id' = id ∧ k ∈ ks).
Proof.
  revert m. induction ks as [|k0 ks IH]; intros m; simpl; [set_solver|].
  rewrite IH, index_of_insert. case_decide; set_solver.
Qed.

Lemma elem_of_index_del id ks m k id' :
  id' ∈ index_of k (index_del id ks m) ↔ id' ∈ index_of k m ∧ (id' = id → k ∉ ks).
Proof.
  revert m. induction ks as [|k0 ks IH]; intros m; simpl; [set_solver|]. rewrite IH. clear IH.
  assert (Hstep : ∀ i, i ∈ index_of k (if decide (index_of k0 m ∖ {[id]} = ∅) then delete k0 m
      else <[k0 := index_of k0 m ∖ {[id]}]> m) ↔ i ∈ index_of k m ∧ (k0 = k → i ≠ id)).
  { intros i. case_decide as He.
    - unfold index_of at 1. destruct (decide (k0 = k)) as [->|Hne].
      + rewrite lookup_delete_eq. simpl. set_solver.
      + rewrite lookup_delete_ne by done. fold (index_of k m). naive_solver.
    - rewrite index_of_insert. case_decide; [subst; set_solver|naive_solver]. }
  rewrite Hstep. set_solver.
Qed.
End index.

Definition string_le (a b : string) : Prop := String.leb a b = true.
#[export] Instance string_le_dec : RelDecision string_le.
Proof. intros a b. unfold string_le. apply _. Defined.

Definition sortedTags (s : subscription) : list string := merge_sort string_le (elements (sub_tags s)).
Definition sortedNodeIDs (s : subscription) : list Z := merge_sort Z.le (elements (sub_nodeIDs s)).

Lemma elem_of_sortedTags s t : t ∈ sortedTags s ↔ t ∈ sub_tags s.
Proof. unfold sortedTags. by rewrite merge_sort_Permutation, elem_of_elements. Qed.

Lemma elem_of_sortedNodeIDs s n : n ∈ sortedNodeIDs s ↔ n ∈ sub_nodeIDs s.
Proof. unfold sortedNodeIDs. by rewrite merge_sort_Permutation, elem_of_elements. Qed.

(** ** Registration *)
Definition register (consumer : string) (tags : list string) (nodeIDs : list Z) (global : bool)
    (getFails tailFails putFails : bool) (journal : option journal_db) (h : healthEventHub)
    : healthEventHub * option journal_db * Z :=
  let '(s, journal') := newHealthEventSubscription tags nodeIDs global consumer getFails tailFails
                          putFails journal in
  let id := hub_nextID h + 1 in
  (mkHub id (<[id := s]> (hub_byID h)) (if global then {[id]} ∪ hub_global h else hub_global h)
     (index_add id (sortedTags s) (hub_byTag h)) (index_add id (sortedNodeIDs s) (hub_byNodeID h))
     (hub_rejected h) (hub_pressurePrunes h) (hub_prunedEvents h), journal', id).

Definition unsubscribe (id : Z) (h : healthEventHub) : healthEventHub * option subscription :=
  match hub_byID h !! id with
  | None => (h, None)
  | Some s =>
    (mkHub (hub_nextID h) (delete id (hub_byID h)) (hub_global h ∖ {[id]})
       (index_del id (sortedTags s) (hub_byTag h)) (index_del id (sortedNodeIDs s) (hub_byNodeID h))
       (hub_rejected h) (hub_pressurePrunes h) (hub_prunedEvents h), Some (close_subscription s))
  end.

Definition close_hub (h : healthEventHub) : healthEventHub * gmap Z subscription :=
  (mkHub (hub_nextID h) ∅ ∅ ∅ ∅ (hub_rejected h) (hub_pressurePrunes h) (hub_prunedEvents h),
   close_subscription <$> hub_byID h).

Definition durableConsumers (h : healthEventHub) : list string :=
  merge_sort string_le (filter (λ c, c ≠ "") (sub_consumer ∘ snd <$> map_to_list (hub_byID h))).

(** ** Publication *)
Definition match_ids (event : HealthResultEvent) (h : healthEventHub) : gset Z :=
  let matched := hub_global h ∪ index_of (hr_Tag event) (hub_byTag h) ∪
    (if decide (hr_NodeID event = 0) then ∅ else index_of (hr_NodeID event) (hub_byNodeID h)) in
  filter (λ id, is_Some (hub_byID h !! id)) matched.

Definition publish (event : HealthResultEvent) (hasJournal : bool) (h : healthEventHub) : healthEventHub :=
  let ids := match_ids event h in
  set_hub_byID (map_imap (λ id s, Some (if decide (id ∈ ids) then notify event hasJournal s else s))
                  (hub_byID h)) h.

Definition broadcast (event : HealthResultEvent) (hasJournal : bool) (h : healthEventHub) : healthEventHub :=
  set_hub_byID (notify event hasJournal <$> hub_byID h) h.

(** ** Retention *)

(** Keeps a short history while there is headroom and reclaims the acknowledged
    prefix under pressure. The journal is absent when no store is configured;
    the two flags say whether the queries fail. *)
Definition prune (now : Z) (ageSweep statsFails pruneFails : bool) (journal : option journal_db)
    (h : healthEventHub) : healthEventHub * option journal_db * result Z :=
  match journal with
  | None => (h, journal, Ok 0)
  | Some db =>
    if statsFails then (h, journal, Err "stats")
    else
      let stats := JournalStats db in
      let pressure := bool_decide (healthEventPressureThreshold ≤ js_Count stats) in
      if bool_decide (js_Count stats = 0) || (negb pressure && negb ageSweep) then (h, journal, Ok 0)
      else
        let consumers := durableConsumers h in
        let window := if pressure then 0
                      else if decide (consumers = []) then healthEventRetention
                      else healthEventConsumedRetention in
        if pruneFails then (h, journal, Err "prune")
        else
          let '(db', removed) := PruneHealthEvents (GoTime.add now (- window)) consumers db in
          (mkHub (hub_nextID h) (hub_byID h) (hub_global h) (hub_byTag h) (hub_byNodeID h)
             (hub_rejected h)
             (if pressure && bool_decide (0 < removed) then hub_pressurePrunes h + 1
              else hub_pressurePrunes h)
             (hub_prunedEvents h + removed), Some db', Ok removed)
  end.

(** ** Statistics *)
Record HealthEventConsumerStats := mkConsumerStats {
  cs_Consumer : string;
  cs_Cursor : Z;
  cs_PendingCursor : Z;
  cs_Delivered : Z;
  cs_Gaps : Z;
  cs_Dropped : Z;
  cs_ReadFailures : Z;
  cs_CursorFailures : Z;
  cs_Backlog : Z
}.

Record HealthEventStats := mkStats {
  st_PressureThreshold : Z;
  st_PressurePrunes : Z;
  st_PrunedEvents : Z;
  st_Capacity : Z;
  st_Count : Z;
  st_MaxSeq : Z;
  st_Backlog : Z;
  st_OldestAgeSeconds : Z;
  st_RejectedMeasurements : Z;
  st_Consumers : list HealthEventConsumerStats
}.

Definition consumer_stats (maxSeq : Z) (s : subscription) : HealthEventConsumerStats :=
  mkConsumerStats (sub_consumer s) (sub_cursor s) (sub_pendingCursor s) (sub_delivered s) (sub_gaps s)
    (sub_dropped s) (sub_readFailures s) (sub_cursorFailures s) (Z.max 0 (maxSeq - sub_cursor s)).

Definition consumer_stats_le (a b : HealthEventConsumerStats) : Prop :=
  string_le (cs_Consumer a) (cs_Consumer b).
#[export] Instance consumer_stats_le_dec : RelDecision consumer_stats_le.
Proof. intros a b. unfold consumer_stats_le. apply _. Defined.

(** The slowest durable cursor, or the row before the first one when nobody
    consumes the journal durably. *)
Definition slowest_cursor (minSeq maxSeq : Z) (durable : list subscription) : Z :=
  Z.max 0 (match durable with
           | [] => minSeq - 1
           | _ => foldr (λ s m, Z.min (sub_cursor s) m) maxSeq durable
           end).

Definition stats (now : Z) (journal : option journal_db) (h : healthEventHub) : HealthEventStats :=
  let js := match journal with Some db => JournalStats db | None => mkJournalStats 0 0 0 0 end in
  let subs := snd <$> map_to_list (hub_byID h) in
  let age := if GoTime.isZero (js_OldestRecordedAt js) then 0
             else Z.quot (GoTime.sub now (js_OldestRecordedAt js)) GoTime.second in
  let durable := filter (λ s, sub_consumer s ≠ "") subs in
  mkStats healthEventPressureThreshold (hub_pressurePrunes h) (hub_prunedEvents h)
    HealthEventJournalLimit (js_Count js) (js_MaxSeq js)
    (Z.max 0 (js_MaxSeq js - slowest_cursor (js_MinSeq js) (js_MaxSeq js) durable)) age (hub_rejected h)
    (merge_sort consumer_stats_le (consumer_stats (js_MaxSeq js) <$> subs)).

(** ** The registry invariant *)
Record hub_wf (h : healthEventHub) : Prop := {
  hw_ids : ∀ id, is_Some (hub_byID h !! id) → 0 < id ≤ hub_nextID h;
  hw_next : 0 ≤ hub_nextID h;
  hw_global : ∀ id, id ∈ hub_global h ↔ ∃ s, hub_byID h !! id = Some s ∧ sub_global s = true;
  hw_tags : ∀ t id, id ∈ index_of t (hub_byTag h) ↔ ∃ s, hub_byID h !! id = Some s ∧ t ∈ sub_tags s;
  hw_nodes : ∀ n id, id ∈ index_of n (hub_byNodeID h) ↔
    ∃ s, hub_byID h !! id = Some s ∧ n ∈ sub_nodeIDs s
}.

Inductive hub_step : healthEventHub → healthEventHub → Prop :=
| HubRegister h consumer tags nodeIDs global f1 f2 f3 journal :
    hub_step h (register consumer tags nodeIDs global f1 f2 f3 journal h).1.1
| HubUnsubscribe h id : hub_step h (unsubscribe id h).1
| HubClose h : hub_step h (close_hub h).1
| HubPublish h event j : hub_step h (publish event j h)
| HubBroadcast h event j : hub_step h (broadcast event j h)
| HubPrune h now sweep f1 f2 journal : hub_step h (prune now sweep f1 f2 journal h).1.1
| HubDeliver h id s s' : hub_byID h !! id = Some s → sub_tags s' = sub_tags s →
    sub_nodeIDs s' = sub_nodeIDs s → sub_global s' = sub_global s → sub_consumer s' = sub_consumer s →
    hub_step h (set_hub_byID (<[id := s']> (hub_byID h)) h).

Lemma newHealthEventSubscription_filter tags nodeIDs global consumer f1 f2 f3 journal :
  let s := (newHealthEventSubscription tags nodeIDs global consumer f1 f2 f3 journal).1 in
  sub_global s = global ∧ sub_consumer s = consumer ∧
  (∀ t, t ∈ sub_tags s ↔ t ∈ tags ∧ t ≠ "") ∧ (∀ n, n ∈ sub_nodeIDs s ↔ n ∈ nodeIDs ∧ n ≠ 0).
Proof.
  unfold newHealthEventSubscription, initCursor.
  assert (Ht : ∀ t, t ∈ (list_to_set (filter (λ t, t ≠ "") tags) : gset string) ↔ t ∈ tags ∧ t ≠ "").
  { intros t. rewrite elem_of_list_to_set, list_elem_of_filter. tauto. }
  assert (Hn : ∀ n, n ∈ (list_to_set (filter (λ n, n ≠ 0) nodeIDs) : gset Z) ↔ n ∈ nodeIDs ∧ n ≠ 0).
  { intros n. rewrite elem_of_list_to_set, list_elem_of_filter. tauto. }
  destruct journal as [db|]; [|done]. simpl.
  destruct (if bool_decide (consumer = "") || f1 then None else GetHealthEventCursor consumer db); [done|].
  destruct f2; [done|]. by destruct (bool_decide (consumer = "") || f3).
Qed.

(** Replacing subscriptions without touching their filters. *)
Lemma hub_wf_refresh h (m : gmap Z subscription) :
  hub_wf h →
  (∀ id, match hub_byID h !! id, m !! id with
         | Some s, Some s' => sub_tags s' = sub_tags s ∧ sub_nodeIDs s' = sub_nodeIDs s ∧
                              sub_global s' = sub_global s
         | None, None => True
         | _, _ => False
         end) →
  hub_wf (set_hub_byID m h).
Proof.
  intros [Hids Hnext Hg Ht Hn] Hm.
  assert (Hex : ∀ (P : subscription → Prop) id,
    (∀ s s', sub_tags s' = sub_tags s → sub_nodeIDs s' = sub_nodeIDs s → sub_global s' = sub_global s → P s ↔ P s') →
    (∃ s, hub_byID h !! id = Some s ∧ P s) ↔ (∃ s, m !! id = Some s ∧ P s)).
  { intros P id HP. specialize (Hm id). destruct (hub_byID h !! id) as [s|], (m !! id) as [s'|]; try done.
    - destruct Hm as (? & ? & ?). specialize (HP s s'). naive_solver. }
  split; simpl.
  - intros id Hid. apply Hids. specialize (Hm id). destruct (hub_byID h !! id), (m !! id); try done;
      by destruct Hid.
  - done.
  - intros id. rewrite Hg. apply (Hex (λ s, sub_global s = true)). by intros s s' _ _ ->.
  - intros t id. rewrite Ht. apply (Hex (λ s, t ∈ sub_tags s)). by intros s s' -> _ _.
  - intros n id. rewrite Hn. apply (Hex (λ s, n ∈ sub_nodeIDs s)). by intros s s' _ -> _.
Qed.

Lemma notify_filter ev j s :
  sub_tags (notify ev j s) = sub_tags s ∧ sub_nodeIDs (notify ev j s) = sub_nodeIDs s ∧
  sub_global (notify ev j s) = sub_global s.
Proof.
  unfold notify. destruct (sub_closed s); [done|]. destruct (hr_SnapshotOnly ev); [done|].
  destruct (bool_decide (0 < hr_Seq ev) && j); [done|]. by case_decide.
Qed.

Lemma ex_lookup_insert {A} (m : gmap Z A) id i s (P : A → Prop) :
  (∃ s', <[id := s]> m !! i = Some s' ∧ P s') ↔
  (id = i ∧ P s) ∨ (id ≠ i ∧ ∃ s', m !! i = Some s' ∧ P s').
Proof.
  destruct (decide (id = i)) as [<-|Hne].
  - rewrite lookup_insert_eq. naive_solver.
  - rewrite lookup_insert_ne by done. naive_solver.
Qed.

Lemma ex_lookup_delete {A} (m : gmap Z A) id i (P : A → Prop) :
  (∃ s', delete id m !! i = Some s' ∧ P s') ↔ i ≠ id ∧ ∃ s', m !! i = Some s' ∧ P s'.
Proof.
  destruct (decide (id = i)) as [<-|Hne].
  - rewrite lookup_delete_eq. naive_solver.
  - rewrite lookup_delete_ne by done. naive_solver.
Qed.

Lemma register_wf consumer tags nodeIDs global f1 f2 f3 journal h :
  hub_wf h → hub_wf (register consumer tags nodeIDs global f1 f2 f3 journal h).1.1.
Proof.
  intros [Hids Hnext Hg Ht Hn]. unfold register.
  destruct (newHealthEventSubscription_filter tags nodeIDs global consumer f1 f2 f3 journal) as (Hsg & _ & _).
  destruct (newHealthEventSubscription tags nodeIDs global consumer f1 f2 f3 journal) as [s j]. simpl in Hsg.
  set (id := hub_nextID h + 1).
  assert (Hfresh : hub_byID h !! id = None).
  { destruct (hub_byID h !! id) eqn:Hl; [|done]. destruct (Hids id); [by eexists|]. lia. }
  split; simpl.
  - intros i. rewrite lookup_insert. case_decide; [subst; lia|]. intros Hi. apply Hids in Hi. lia.
  - lia.
  - intros i. rewrite ex_lookup_insert. destruct (decide (id = i)) as [<-|Hne].
    + assert (id ∉ hub_global h) by (rewrite Hg; by intros (? & ? & _); congruence).
      rewrite Hsg. clear Hg Ht Hn. destruct global; [rewrite elem_of_union, elem_of_singleton|]; naive_solver.
    + assert (Hi : i ∈ (if global then {[id]} ∪ hub_global h else hub_global h) ↔ i ∈ hub_global h)
        by (clear Hg Ht Hn; destruct global; [rewrite elem_of_union, elem_of_singleton|]; naive_solver).
      rewrite Hi, Hg. clear Hg Ht Hn. naive_solver.
  - intros t i. rewrite elem_of_index_add, elem_of_sortedTags, Ht, ex_lookup_insert.
    clear Hg Ht Hn. destruct (decide (id = i)) as [<-|Hne]; [rewrite Hfresh|]; naive_solver.
  - intros n i. rewrite elem_of_index_add, elem_of_sortedNodeIDs, Hn, ex_lookup_insert.
    clear Hg Ht Hn. destruct (decide (id = i)) as [<-|Hne]; [rewrite Hfresh|]; naive_solver.
Qed.

Lemma unsubscribe_wf id h : hub_wf h → hub_wf (unsubscribe id h).1.
Proof.
  intros Hw. unfold unsubscribe. destruct (hub_byID h !! id) as [s|] eqn:Hs; [|done].
  destruct Hw as [Hids Hnext Hg Ht Hn]. split; simpl.
  - intros i. rewrite lookup_delete_is_Some. intros [_ Hi]. by apply Hids.
  - done.
  - intros i. rewrite elem_of_difference, elem_of_singleton, Hg, ex_lookup_delete.
    clear Hg Ht Hn. naive_solver.
  - intros t i. rewrite elem_of_index_del, Ht, ex_lookup_delete. pose proof (elem_of_sortedTags s t).
    clear Hg Ht Hn. destruct (decide (i = id)) as [->|]; [rewrite Hs|]; naive_solver.
  - intros n i. rewrite elem_of_index_del, Hn, ex_lookup_delete. pose proof (elem_of_sortedNodeIDs s n).
    clear Hg Ht Hn. destruct (decide (i = id)) as [->|]; [rewrite Hs|]; naive_solver.
Qed.

Lemma newHealthEventHub_wf : hub_wf newHealthEventHub.
Proof.
  split; simpl; [intros id|done|intros id|intros t id|intros n id]; unfold index_of;
    rewrite ?lookup_empty; simpl.
  - by intros [? ?].
  - split; [set_solver|by intros (? & ? & _)].
  - split; [set_solver|by intros (? & ? & _)].
  - split; [set_solver|by intros (? & ? & _)].
Qed.

Lemma hub_step_wf h h' : hub_step h h' → hub_wf h → hub_wf h'.
Proof.
  intros Hstep Hw. destruct Hstep as [| | | | | |h id s s' Hs Ht Hn Hg Hc].
  - by apply register_wf.
  - by apply unsubscribe_wf.
  - destruct Hw as [_ Hnext _ _ _]. destruct newHealthEventHub_wf as [Hids _ Hg Ht Hn].
    split; [|done..]. intros id Hid. apply Hids in Hid. simpl in Hid. lia.
  - apply hub_wf_refresh; [done|]. intros id. rewrite map_lookup_imap.
    destruct (hub_byID h !! id) as [s|]; [|done]. simpl. case_decide; [apply notify_filter|done].
  - apply hub_wf_refresh; [done|]. intros id. rewrite lookup_fmap.
    destruct (hub_byID h !! id) as [s|]; [|done]. apply notify_filter.
  - unfold prune. destruct journal as [db|]; [|done]. destruct f1; [done|]. cbn zeta.
    destruct (bool_decide (js_Count (JournalStats db) = 0) || _); [done|]. destruct f2; [done|].
    destruct (PruneHealthEvents _ _ db) as [db' removed]. by destruct Hw.
  - apply hub_wf_refresh; [done|]. intros i. rewrite lookup_insert.
    destruct (decide (id = i)) as [<-|]; [by rewrite Hs|]. by destruct (hub_byID h !! i).
Qed.

(** In every reachable state of the hub, announcing a journal row wakes
    exactly the registered subscriptions whose own delivery filter accepts the
    row: no consumer of a row is left asleep, none is woken for a row it would
    skip. *)
Theorem publication_wakes_exactly_the_consumers h e id :
  rtc hub_step newHealthEventHub h →
  id ∈ match_ids (healthResultEvent e) h ↔ ∃ s, hub_byID h !! id = Some s ∧ matches s e = true.
Proof.
  intros Hrun. assert (Hw : hub_wf h).
  { pose proof newHealthEventHub_wf as H0. revert H0. induction Hrun as [|h1 h2 h3 Hs _ IH]; [done|].
    intros H1. apply IH. by eapply hub_step_wf. }
  destruct Hw as [_ _ Hg Ht Hn]. unfold match_ids, matches. simpl.
  rewrite elem_of_filter, !elem_of_union, Hg, Ht.
  setoid_rewrite orb_true_iff. setoid_rewrite orb_true_iff. setoid_rewrite andb_true_iff.
  setoid_rewrite bool_decide_eq_true. setoid_rewrite negb_true_iff. setoid_rewrite bool_decide_eq_false.
  destruct (decide (he_NodeID e = 0)) as [->|Hnz].
  - rewrite elem_of_empty. split; [naive_solver|]. intros (s & Hs & Hm). split; [by eexists|]. naive_solver.
  - rewrite Hn. split; [naive_solver|]. intros (s & Hs & Hm). split; [by eexists|]. naive_solver.
Qed.

Lemma elem_of_durableConsumers h c :
  c ∈ durableConsumers h ↔ c ≠ "" ∧ ∃ id s, hub_byID h !! id = Some s ∧ sub_consumer s = c.
Proof.
  unfold durableConsumers. rewrite merge_sort_Permutation, list_elem_of_filter, list_elem_of_fmap.
  split.
  - intros [Hc ([id s] & -> & Hin)]. apply elem_of_map_to_list in Hin. split; [done|]. by exists id, s.
  - intros (Hc & id & s & Hs & <-). split; [done|]. exists (id, s). split; [done|].
    by apply elem_of_map_to_list.
Qed.

(** The retention policy never takes an event a registered durable consumer
    has not durably acknowledged, however full the journal is; it keeps every
    event younger than the retention window unless the journal is under pressure,
    and without pressure or an age sweep it removes nothing. *)
Theorem retention_keeps_the_debt_of_registered_consumers now sweep f1 f2 db h :
  let '(h', journal', r) := prune now sweep f1 f2 (Some db) h in
  ∃ db', journal' = Some db' ∧ db_cursors db' = db_cursors db ∧
    (∀ id s, hub_byID h !! id = Some s → sub_consumer s ≠ "" →
       filter (λ e, cursor_or_zero db (sub_consumer s) < he_Seq e) (db_events db') =
       filter (λ e, cursor_or_zero db (sub_consumer s) < he_Seq e) (db_events db)) ∧
    (Z.of_nat (length (db_events db)) < healthEventPressureThreshold →
       (sweep = false → db' = db) ∧
       ∀ e, e ∈ db_events db → now - healthEventConsumedRetention ≤ he_RecordedAt e → e ∈ db_events db') ∧
    hub_byID h' = hub_byID h ∧
    (∀ removed, r = Ok removed → hub_prunedEvents h' = hub_prunedEvents h + removed).
Proof.
  unfold prune. destruct f1.
  { exists db. split_and!; try done. }
  cbn zeta. unfold JournalStats. cbn [js_Count].
  destruct (bool_decide (Z.of_nat (length (db_events db)) = 0) || _) eqn:Hskip.
  { exists db. split_and!; try done. intros ? [= <-]. lia. }
  destruct f2; [exists db; by split_and!|].
  set (pressure := bool_decide (healthEventPressureThreshold ≤ Z.of_nat (length (db_events db)))) in *.
  set (window := if pressure then 0 else _).
  destruct (prune_keeps_owed_events (GoTime.add now (- window)) (durableConsumers h) db)
    as (Hkeep & Hyoung & _ & Hcur & Hcount).
  destruct (PruneHealthEvents (GoTime.add now (- window)) (durableConsumers h) db) as [db' removed].
  cbn [fst snd] in *. exists db'. split_and!; try done.
  - intros id s Hs Hc. apply Hkeep, elem_of_durableConsumers. split; [done|]. by exists id, s.
  - intros Hlow. assert (Hp : pressure = false) by (subst pressure; apply bool_decide_eq_false; lia).
    subst window. rewrite Hp in *. apply orb_false_iff in Hskip as [_ Hskip]. simpl in Hskip.
    apply negb_false_iff in Hskip. split; [congruence|]. intros e He Hage. apply Hyoung; [done|].
    unfold GoTime.add, healthEventRetention, healthEventConsumedRetention, GoTime.minute, GoTime.second, GoTime.millisecond in *.
    destruct (decide (durableConsumers h = [])); lia.
  - intros ? [= <-]. done.
Qed.

(** ** Concrete runs *)
Import JournalExample.

Definition hub2 : healthEventHub :=
  (register "group:1" ["n"] [7] false false false false (Some journal3)
     (register "" [] [] true false false false (Some journal3) newHealthEventHub).1.1).1.1.

Lemma publication_wakes_exactly_the_consumers_witness :
  match_ids (healthResultEvent (measured 7 false 500)) hub2 = {[ 1; 2 ]} ∧
  2 ∈ match_ids (healthResultEvent (measured 7 false 500)) hub2.
Proof.
  split; [vm_compute; reflexivity|].
  apply (publication_wakes_exactly_the_consumers hub2 (measured 7 false 500) 2).
  - eapply rtc_l; [apply (HubRegister newHealthEventHub "" [] [] true false false false (Some journal3))|].
    apply rtc_once.
    apply (HubRegister _ "group:1" ["n"] [7] false false false false (Some journal3)).
  - eexists. split; vm_compute; reflexivity.
Defined.
