(* ===== verification/PoolMember.v ===== *)
(** Pool members ([internal/outbound/pool/shared_state.go] and the member types
    of [pool.go]): the failure window and blacklist shared by every pool that
    runs the same outbound tag, the per-outbound lifecycle counters, and the
    immutable references a pool publishes.

    The Go code shares these objects through pointers and compares the pointers,
    so the model keeps a [heap]: an object is an entry of a finite map, a pointer
    is its key, and allocation takes a fresh key. Calls on
    [monitor.EntryHandle] are recorded, in order, in [calls]. *)

From S2P Require Import Prelude.

(** ** Machine integers and errors *)
Definition wrap32 (z : Z) : Z := (z + 2 ^ 31) `mod` 2 ^ 32 - 2 ^ 31.

(** The sentinel values the code tests with [errors.Is]. *)
Inductive sentinel := Canceled | DeadlineExceeded | EOF | ErrClosed.

#[global] Instance sentinel_eq_dec : EqDecision sentinel.
Proof. solve_decision. Defined.

(** An error is its message and the sentinels in its wrap chain. *)
Record goerror := mkError { err_msg : string; err_chain : list sentinel }.

Definition errors_Is (e : goerror) (s : sentinel) : bool := bool_decide (s ∈ err_chain e).

(** ** Objects *)
Record MemberMeta := mkMeta {
  mm_NodeID : Z;
  mm_Name : string;
  mm_URI : string;
  mm_Mode : string;
  mm_ListenAddress : string;
  mm_Port : Z;
  mm_Region : string;
  mm_Country : string
}.

#[global] Instance MemberMeta_eq_dec : EqDecision MemberMeta.
Proof. solve_decision. Defined.

Definition empty_meta : MemberMeta := mkMeta 0 "" "" "" "" 0 "" "".

Record sharedMemberState := mkShared {
  sh_failures : list Z;
  sh_blacklisted : bool;
  sh_blacklistedUntil : Z;
  sh_entry : option Z;
  sh_active : Z;
  sh_totalUpload : Z;
  sh_totalDownload : Z;
  sh_owners : Z
}.

Definition new_shared : sharedMemberState := mkShared [] false GoTime.zero None 0 0 0 0.

Record memberRuntime := mkMemberRuntime {
  mr_outbound : option Z;
  mr_shared : option Z;
  mr_snapshotRefs : Z;
  mr_operations : Z;
  mr_retired : bool;
  mr_released : bool
}.

Record MemberRef := mkRef {
  ref_outbound : option Z;
  ref_tag : string;
  ref_entry : option Z;
  ref_shared : option Z;
  ref_runtime : option Z;
  ref_meta : MemberMeta;
  ref_latencyMs : Z
}.

(** Calls made on a monitor entry, with the handle they were made on. *)
Inductive entry_call :=
| EntryRecordFailure (h : Z) (cause : goerror) (destination : string)
| EntryBlacklist (h until : Z)
| EntryClearBlacklist (h : Z)
| EntryRecordSuccess (h : Z) (destination : string)
| EntryIncActive (h : Z)
| EntryDecActive (h : Z)
| EntryAddTraffic (h upload download : Z).

Record heap := mkHeap {
  cells : gmap Z sharedMemberState;
  sharedStateStore : gmap string Z;
  runtimes : gmap Z memberRuntime;
  refs : gmap Z MemberRef;
  next : Z;
  calls : list entry_call
}.

Definition empty_heap : heap := mkHeap ∅ ∅ ∅ ∅ 1 [].

(** ** Field updates *)
Definition set_cells (c : gmap Z sharedMemberState) (h : heap) : heap :=
  mkHeap c (sharedStateStore h) (runtimes h) (refs h) (next h) (calls h).
Definition set_store (s : gmap string Z) (h : heap) : heap :=
  mkHeap (cells h) s (runtimes h) (refs h) (next h) (calls h).
Definition set_runtimes (r : gmap Z memberRuntime) (h : heap) : heap :=
  mkHeap (cells h) (sharedStateStore h) r (refs h) (next h) (calls h).
Definition set_refs (r : gmap Z MemberRef) (h : heap) : heap :=
  mkHeap (cells h) (sharedStateStore h) (runtimes h) r (next h) (calls h).
Definition call (c : entry_call) (h : heap) : heap :=
  mkHeap (cells h) (sharedStateStore h) (runtimes h) (refs h) (next h) (calls h ++ [c]).
Definition fresh (h : heap) : Z * heap :=
  (next h, mkHeap (cells h) (sharedStateStore h) (runtimes h) (refs h) (next h + 1) (calls h)).

Definition set_window (failures : list Z) (blacklisted : bool) (until : Z)
    (s : sharedMemberState) : sharedMemberState :=
  mkShared failures blacklisted until (sh_entry s) (sh_active s) (sh_totalUpload s)
    (sh_totalDownload s) (sh_owners s).
Definition set_entry (e : option Z) (s : sharedMemberState) : sharedMemberState :=
  mkShared (sh_failures s) (sh_blacklisted s) (sh_blacklistedUntil s) e (sh_active s)
    (sh_totalUpload s) (sh_totalDownload s) (sh_owners s).
Definition add_active (d : Z) (s : sharedMemberState) : sharedMemberState :=
  mkShared (sh_failures s) (sh_blacklisted s) (sh_blacklistedUntil s) (sh_entry s)
    (wrap32 (sh_active s + d)) (sh_totalUpload s) (sh_totalDownload s) (sh_owners s).
Definition set_traffic (up down : Z) (s : sharedMemberState) : sharedMemberState :=
  mkShared (sh_failures s) (sh_blacklisted s) (sh_blacklistedUntil s) (sh_entry s)
    (sh_active s) up down (sh_owners s).
Definition add_owners (d : Z) (s : sharedMemberState) : sharedMemberState :=
  mkShared (sh_failures s) (sh_blacklisted s) (sh_blacklistedUntil s) (sh_entry s)
    (sh_active s) (sh_totalUpload s) (sh_totalDownload s) (sh_owners s + d).

Definition add_snapshotRefs (d : Z) (r : memberRuntime) : memberRuntime :=
  mkMemberRuntime (mr_outbound r) (mr_shared r) (mr_snapshotRefs r + d) (mr_operations r)
    (mr_retired r) (mr_released r).
Definition add_operations (d : Z) (r : memberRuntime) : memberRuntime :=
  mkMemberRuntime (mr_outbound r) (mr_shared r) (mr_snapshotRefs r) (mr_operations r + d)
    (mr_retired r) (mr_released r).
Definition set_retired (b : bool) (r : memberRuntime) : memberRuntime :=
  mkMemberRuntime (mr_outbound r) (mr_shared r) (mr_snapshotRefs r) (mr_operations r)
    b (mr_released r).
Definition set_released (r : memberRuntime) : memberRuntime :=
  mkMemberRuntime (mr_outbound r) (mr_shared r) (mr_snapshotRefs r) (mr_operations r)
    (mr_retired r) true.

Definition set_latency (ms : Z) (r : MemberRef) : MemberRef :=
  mkRef (ref_outbound r) (ref_tag r) (ref_entry r) (ref_shared r) (ref_runtime r)
    (ref_meta r) ms.
Definition set_ref_entry (e : option Z) (r : MemberRef) : MemberRef :=
  mkRef (ref_outbound r) (ref_tag r) e (ref_shared r) (ref_runtime r)
    (ref_meta r) (ref_latencyMs r).
Definition set_ref_runtime (p : Z) (r : MemberRef) : MemberRef :=
  mkRef (ref_outbound r) (ref_tag r) (ref_entry r) (ref_shared r) (Some p)
    (ref_meta r) (ref_latencyMs r).

(** Dereferencing: a pointer the program holds is always allocated. *)
Definition cell (p : Z) (h : heap) : sharedMemberState := default new_shared (cells h !! p).
Definition with_cell (p : Z) (f : sharedMemberState → sharedMemberState) (h : heap) : heap :=
  set_cells (alter f p (cells h)) h.
Definition with_runtime (p : Z) (f : memberRuntime → memberRuntime) (h : heap) : heap :=
  set_runtimes (alter f p (runtimes h)) h.
Definition with_ref (p : Z) (f : MemberRef → MemberRef) (h : heap) : heap :=
  set_refs (alter f p (refs h)) h.

(** A call on the entry attached to a cell, when there is one. *)
Definition on_entry (p : Z) (c : Z → entry_call) (h : heap) : heap :=
  match sh_entry (cell p h) with
  | Some e => call (c e) h
  | None => h
  end.

(** ** The shared store *)
Definition acquireSharedState (tag : string) (h : heap) : Z * heap :=
  match sharedStateStore h !! tag with
  | Some p => (p, h)
  | None =>
    let '(p, h1) := fresh h in
    (p, set_store (<[tag := p]> (sharedStateStore h1)) (set_cells (<[p := new_shared]> (cells h1)) h1))
  end.

Definition lookupSharedState (tag : string) (h : heap) : option Z := sharedStateStore h !! tag.

Definition ResetSharedStateStore (h : heap) : heap := set_store ∅ h.

Definition activeCount (p : Z) (h : heap) : Z := sh_active (cell p h).

Section ActiveConnections.
Context `{!RangeOrder string}.

Definition ActiveConnections (h : heap) : Z :=
  foldl (λ total kp, wrap32 (total + activeCount kp.2 h)) 0 (range (sharedStateStore h)).
End ActiveConnections.

(** ** The failure window and the blacklist *)
Definition attachEntry (entry : option Z) (p : Z) (h : heap) : heap :=
  match entry with
  | None => h
  | Some _ => with_cell p (set_entry entry) h
  end.

Definition entryHandle (p : Z) (h : heap) : option Z := sh_entry (cell p h).

(** The failures that survive one more failure at [now]. *)
Definition record_window (window now : Z) (failures : list Z) : list Z :=
  let failures := failures ++ [now] in
  if decide (0 < window) then filter (λ ts, GoTime.add now (- window) < ts) failures
  else failures.

(** Returns the failures counted, whether the blacklist triggered, and until when. *)
Definition record_shared (threshold duration window now : Z) (s : sharedMemberState)
    : sharedMemberState * (Z * bool * Z) :=
  let failures := record_window window now (sh_failures s) in
  let count := Z.of_nat (length failures) in
  if decide (threshold ≤ count) then
    let until := GoTime.add now duration in
    (set_window [] true until s, (count, true, until))
  else (set_window failures (sh_blacklisted s) (sh_blacklistedUntil s) s,
        (count, false, GoTime.zero)).

Definition recordSharedFailure (cause : goerror) (threshold duration window : Z)
    (destination : string) (now : Z) (p : Z) (h : heap) : heap * (Z * bool * Z) :=
  let r := record_shared threshold duration window now (cell p h) in
  let h1 := with_cell p (λ _, r.1) h in
  let h2 := on_entry p (λ e, EntryRecordFailure e cause destination) h1 in
  (if r.2.1.2 then on_entry p (λ e, EntryBlacklist e r.2.2) h2 else h2, r.2).

Definition recordSharedSuccess (destination : string) (p : Z) (h : heap) : heap :=
  on_entry p (λ e, EntryRecordSuccess e destination) h.

Definition recordEstablishedSuccess (p : Z) (h : heap) : heap :=
  with_cell p (λ s, set_window [] (sh_blacklisted s) (sh_blacklistedUntil s) s) h.

Definition blacklist_expired (now : Z) (s : sharedMemberState) : bool :=
  sh_blacklisted s && GoTime.after now (sh_blacklistedUntil s).

Definition isBlacklisted (now : Z) (p : Z) (h : heap) : heap * bool :=
  let expired := blacklist_expired now (cell p h) in
  let h1 := if expired
            then with_cell p (λ s, set_window (sh_failures s) false GoTime.zero s) h else h in
  let blacklisted := sh_blacklisted (cell p h1) in
  (if expired then on_entry p EntryClearBlacklist h1 else h1, blacklisted).

Definition forceRelease (p : Z) (h : heap) : heap :=
  on_entry p EntryClearBlacklist (with_cell p (set_window [] false GoTime.zero) h).

Definition releaseSharedMember (tag : string) (h : heap) : heap :=
  match lookupSharedState tag h with
  | Some p => forceRelease p h
  | None => h
  end.

(** ** Connections and traffic *)
Definition incActive (p : Z) (h : heap) : heap :=
  on_entry p EntryIncActive (with_cell p (add_active 1) h).
Definition decActive (p : Z) (h : heap) : heap :=
  on_entry p EntryDecActive (with_cell p (add_active (-1)) h).

Definition addTraffic (upload download : Z) (p : Z) (h : heap) : heap :=
  let add s := set_traffic
    (if decide (0 < upload) then sh_totalUpload s + upload else sh_totalUpload s)
    (if decide (0 < download) then sh_totalDownload s + download else sh_totalDownload s) s in
  on_entry p (λ e, EntryAddTraffic e upload download) (with_cell p add h).

(** ** Lifecycle counters of one outbound *)
Definition runtime_of (p : Z) (h : heap) : memberRuntime :=
  default (mkMemberRuntime None None 0 0 false false) (runtimes h !! p).

Definition newMemberRuntime (detour shared : option Z) (h : heap) : Z * heap :=
  let h1 := match shared with Some s => with_cell s (add_owners 1) h | None => h end in
  let '(p, h2) := fresh h1 in
  (p, set_runtimes (<[p := mkMemberRuntime detour shared 0 0 false false]> (runtimes h2)) h2).

(** [sync.Map.CompareAndDelete]. *)
Definition compareAndDelete (tag : string) (p : Z) (h : heap) : heap :=
  if decide (sharedStateStore h !! tag = Some p)
  then set_store (delete tag (sharedStateStore h)) h else h.

Definition releaseOwner (tag : string) (rp : Z) (h : heap) : heap :=
  match runtimes h !! rp with
  | None => h
  | Some r =>
    match mr_shared r with
    | None => h
    | Some s =>
      if mr_released r then h
      else
        let h1 := with_cell s (add_owners (-1)) (with_runtime rp set_released h) in
        if decide (sh_owners (cell s h1) = 0) then compareAndDelete tag s h1 else h1
    end
  end.

(** ** References *)
Definition member (p : Z) (h : heap) : MemberRef :=
  default (mkRef None "" None None None empty_meta 0) (refs h !! p).

Definition new_ref (r : MemberRef) (h : heap) : Z * heap :=
  let '(p, h1) := fresh h in (p, set_refs (<[p := r]> (refs h1)) h1).

Definition ensureMemberRuntime (p : Z) (h : heap) : Z * heap :=
  match ref_runtime (member p h) with
  | Some rp => (rp, h)
  | None =>
    let m := member p h in
    let '(rp, h1) := newMemberRuntime (ref_outbound m) (ref_shared m) h in
    (rp, with_ref p (set_ref_runtime rp) h1)
  end.

Definition acquireOperation (p : Z) (h : heap) : heap * bool :=
  let '(rp, h1) := ensureMemberRuntime p h in
  if mr_retired (runtime_of rp h1) then (h1, false)
  else (with_runtime rp (add_operations 1) h1, true).

Definition releaseOperation (p : Z) (h : heap) : heap :=
  let '(rp, h1) := ensureMemberRuntime p h in with_runtime rp (add_operations (-1)) h1.

Definition incMemberActive (p : Z) (h : heap) : heap :=
  match ref_shared (member p h) with Some s => incActive s h | None => h end.
Definition decMemberActive (p : Z) (h : heap) : heap :=
  match ref_shared (member p h) with Some s => decActive s h | None => h end.

(** The number of open connections selection compares. *)
Definition member_active (p : Z) (h : heap) : Z :=
  match ref_shared (member p h) with Some s => activeCount s h | None => 0 end.

(** ** The blacklist decision against an unpruned reference *)

(** What happens to one cell: passive failures, established responses, looks at
    the blacklist and forced releases. *)
Inductive passive_event :=
| Failed (at_ : Z)
| Established
| Looked (at_ : Z)
| Released.

Inductive passive_outcome :=
| Counted (failures : Z) (tripped : bool) (until : Z)
| Answer (blacklisted : bool)
| Silent.

(** The code: the operations of the cell [p]. *)
Definition passive_step (threshold duration window : Z) (p : Z) (e : passive_event) (h : heap)
    : heap * passive_outcome :=
  match e with
  | Failed now =>
    let '(h1, (count, tripped, until)) :=
      recordSharedFailure (mkError "refused" []) threshold duration window "" now p h in
    (h1, Counted count tripped until)
  | Established => (recordEstablishedSuccess p h, Silent)
  | Looked now => let '(h1, b) := isBlacklisted now p h in (h1, Answer b)
  | Released => (forceRelease p h, Silent)
  end.

Fixpoint passive_run (threshold duration window : Z) (p : Z) (es : list passive_event) (h : heap)
    : heap * list passive_outcome :=
  match es with
  | [] => (h, [])
  | e :: es =>
    let '(h1, o) := passive_step threshold duration window p e h in
    let '(h2, os) := passive_run threshold duration window p es h1 in (h2, o :: os)
  end.

(** The reference: every failure since the last reset is remembered and each one
    is judged by counting those less than a window old; the deadline of the last
    trip since the last release is remembered and never cleared. *)
Definition recent (window now : Z) (history : list Z) : list Z :=
  filter (λ ts, GoTime.add now (- window) < ts) history.

Record passive_ref := mkPassiveRef { pr_history : list Z; pr_deadline : option Z }.

Definition reference_step (threshold duration window : Z) (e : passive_event) (r : passive_ref)
    : passive_ref * passive_outcome :=
  match e with
  | Failed now =>
    let all := pr_history r ++ [now] in
    let count := Z.of_nat (length (recent window now all)) in
    if decide (threshold ≤ count)
    then (mkPassiveRef [] (Some (now + duration)), Counted count true (now + duration))
    else (mkPassiveRef all (pr_deadline r), Counted count false GoTime.zero)
  | Established => (mkPassiveRef [] (pr_deadline r), Silent)
  | Looked now =>
    (r, Answer match pr_deadline r with Some until => bool_decide (now ≤ until) | None => false end)
  | Released => (mkPassiveRef [] None, Silent)
  end.

Fixpoint reference_run (threshold duration window : Z) (es : list passive_event) (r : passive_ref)
    : passive_ref * list passive_outcome :=
  match es with
  | [] => (r, [])
  | e :: es =>
    let '(r1, o) := reference_step threshold duration window e r in
    let '(r2, os) := reference_run threshold duration window es r1 in (r2, o :: os)
  end.

(** The clock readings never go back: each is at or after [lo]. *)
Fixpoint chronological (lo : Z) (es : list passive_event) : Prop :=
  match es with
  | [] => True
  | (Established | Released) :: es => chronological lo es
  | (Failed now | Looked now) :: es => lo ≤ now ∧ chronological now es
  end.

Fixpoint last_reading (lo : Z) (es : list passive_event) : Z :=
  match es with
  | [] => lo
  | (Established | Released) :: es => last_reading lo es
  | (Failed now | Looked now) :: es => last_reading now es
  end.

Lemma recent_recent window lo now history :
  lo ≤ now → recent window now (recent window lo history) = recent window now history.
Proof.
  intros Hle. unfold recent. rewrite list_filter_filter.
  apply list_filter_iff. unfold GoTime.add. lia.
Qed.

(** The cell at time [lo]: its failures are those of the history that were recent
    when it was last pruned, and a remembered deadline that the cell no longer
    carries has passed. *)
Record tracks (window lo : Z) (s : sharedMemberState) (r : passive_ref) : Prop := {
  tr_failures : ∃ pruned, pruned ≤ lo ∧ sh_failures s = recent window pruned (pr_history r);
  tr_flag : sh_blacklisted s = true → pr_deadline r = Some (sh_blacklistedUntil s);
  tr_clear : sh_blacklisted s = false → ∀ until, pr_deadline r = Some until → until < lo
}.

Lemma cell_on_entry p c q h : cell p (on_entry q c h) = cell p h.
Proof. unfold on_entry. by destruct (sh_entry _). Qed.

Lemma cell_with_cell_eq p f h :
  is_Some (cells h !! p) → cell p (with_cell p f h) = f (cell p h).
Proof. intros [s Hs]. unfold cell. cbn. by rewrite lookup_alter_eq, Hs. Qed.

Definition reading (lo : Z) (e : passive_event) : Z :=
  match e with Failed now | Looked now => now | Established | Released => lo end.

Lemma passive_step_allocated threshold duration window p e h :
  is_Some (cells h !! p) → is_Some (cells (passive_step threshold duration window p e h).1 !! p).
Proof.
  assert (Hentry : ∀ c h, cells (on_entry p c h) = cells h).
  { intros c h'. unfold on_entry. by destruct (sh_entry _). }
  intros Hp. destruct e as [now| |now|]; cbn [passive_step].
  - unfold recordSharedFailure. set (r := record_shared _ _ _ _ _). destruct r as [s [[count tripped] until]].
    cbn [fst snd]. destruct tripped; rewrite !Hentry; cbn; by apply lookup_alter_is_Some.
  - cbn. by apply lookup_alter_is_Some.
  - unfold isBlacklisted. destruct (blacklist_expired _ _); cbn [fst]; [rewrite Hentry|done].
    cbn. by apply lookup_alter_is_Some.
  - unfold forceRelease. cbn [fst]. rewrite Hentry. cbn. by apply lookup_alter_is_Some.
Qed.

Lemma passive_step_reference threshold duration window p e lo h r :
  0 < window → lo ≤ reading lo e → is_Some (cells h !! p) → tracks window lo (cell p h) r →
  let a := passive_step threshold duration window p e h in
  let b := reference_step threshold duration window e r in
  a.2 = b.2 ∧ tracks window (reading lo e) (cell p a.1) b.1.
Proof.
  intros Hw Hlo Hp [(pruned & Hpr & Hf) Hflag Hclear]. cbn zeta.
  destruct e as [now| |now|]; cbn [passive_step reference_step reading] in *.
  - assert (Hrec : record_window window now (sh_failures (cell p h)) = recent window now (pr_history r ++ [now])).
    { unfold record_window. rewrite decide_True by done.
      change (recent window now (sh_failures (cell p h) ++ [now]) = recent window now (pr_history r ++ [now])).
      unfold recent at 1 2. rewrite !filter_app. f_equal. rewrite Hf. apply recent_recent. lia. }
    unfold recordSharedFailure, record_shared. rewrite Hrec.
    destruct (decide (threshold ≤ _)) as [Ht|Ht]; cbn [fst snd]; (split; [done|]);
      rewrite !cell_on_entry, cell_with_cell_eq by done; split; cbn; try done.
    + by exists now.
    + by exists now.
    + intros Hb until Hu. specialize (Hclear Hb until Hu). lia.
  - split; [done|]. unfold recordEstablishedSuccess. cbn [fst]. rewrite cell_with_cell_eq by done.
    split; cbn; [by exists lo|done|done].
  - unfold isBlacklisted, blacklist_expired, GoTime.after. cbn [fst snd].
    destruct (sh_blacklisted (cell p h)) eqn:Eb; cbn [andb].
    + rewrite (Hflag eq_refl). destruct (bool_decide (sh_blacklistedUntil (cell p h) < now)) eqn:Et.
      * apply bool_decide_eq_true in Et. rewrite cell_on_entry, cell_with_cell_eq by done. cbn.
        rewrite bool_decide_false by lia. split; [done|]. split; cbn; [exists pruned; split; [lia|done]|done|].
        intros _ until. rewrite (Hflag eq_refl). intros [= <-]. lia.
      * apply bool_decide_eq_false in Et. rewrite Eb, bool_decide_true by lia. split; [done|].
        split; [exists pruned; split; [lia|done]|intros _; by apply Hflag|congruence].
    + rewrite Eb. split.
      * destruct (pr_deadline r) as [until|] eqn:Ed; [|done].
        rewrite bool_decide_false; [done|]. specialize (Hclear eq_refl until eq_refl). lia.
      * split; [exists pruned; split; [lia|done]|congruence|].
        intros _ until Hu. specialize (Hclear eq_refl until Hu). lia.
  - split; [done|]. unfold forceRelease. cbn [fst]. rewrite cell_on_entry, cell_with_cell_eq by done.
    split; cbn; [by exists lo|done|done].
Qed.

Lemma passive_run_reference threshold duration window p es : ∀ lo h r,
  0 < window → chronological lo es → is_Some (cells h !! p) → tracks window lo (cell p h) r →
  let a := passive_run threshold duration window p es h in
  let b := reference_run threshold duration window es r in
  a.2 = b.2 ∧ tracks window (last_reading lo es) (cell p a.1) b.1.
Proof.
  induction es as [|e es IH]; intros lo h r Hw Hc Hp Ht; [done|]. cbn zeta. cbn [passive_run reference_run].
  assert (Hstep : lo ≤ reading lo e ∧ chronological (reading lo e) es ∧
                  last_reading lo (e :: es) = last_reading (reading lo e) es).
  { destruct e; cbn in *; naive_solver lia. }
  destruct Hstep as (Hlo & Hes & ->).
  destruct (passive_step_reference threshold duration window p e lo h r Hw Hlo Hp Ht) as [Ho Ht1].
  pose proof (passive_step_allocated threshold duration window p e h Hp) as Hp1.
  destruct (passive_step threshold duration window p e h) as [h1 o].
  destruct (reference_step threshold duration window e r) as [r1 o']. cbn [fst snd] in *. subst o'.
  specialize (IH (reading lo e) h1 r1 Hw Hes Hp1 Ht1). cbn zeta in IH.
  destruct (passive_run threshold duration window p es h1) as [h2 os].
  destruct (reference_run threshold duration window es r1) as [r2 os']. cbn [fst snd] in *.
  destruct IH as [-> ?]. done.
Qed.

(** C39: the failure window and the blacklist of a cell are what counting the full
    history gives. Take any sequence of passive failures, established responses,
    looks at the blacklist and forced releases with clock readings that never go
    back, on a cell that starts clean. Every failure is counted, trips and sets
    its deadline exactly when [threshold] failures since the last reset lie within
    the window, although the cell drops older ones at every failure; every look
    answers that the cell is blacklisted exactly up to and including the deadline
    of the last trip since the last release, although the first look after it
    clears the flag. In the end the flag is set only with that deadline, and it is
    set as long as the deadline has not passed. *)
Theorem blacklist_counts_exactly_the_window threshold duration window p es lo h s :
  0 < window → chronological lo es →
  cells h !! p = Some s → sh_failures s = [] → sh_blacklisted s = false →
  let '(h', outcomes) := passive_run threshold duration window p es h in
  let '(r, expected) := reference_run threshold duration window es (mkPassiveRef [] None) in
  outcomes = expected ∧
  (sh_blacklisted (cell p h') = true → pr_deadline r = Some (sh_blacklistedUntil (cell p h'))) ∧
  (∀ until, pr_deadline r = Some until → last_reading lo es ≤ until →
     sh_blacklisted (cell p h') = true).
Proof.
  intros Hw Hc Hs Hf Hb.
  assert (Hcell : cell p h = s) by (unfold cell; by rewrite Hs).
  assert (Ht : tracks window lo (cell p h) (mkPassiveRef [] None)).
  { rewrite Hcell. split; cbn; [by exists lo|congruence|done]. }
  destruct (passive_run_reference threshold duration window p es lo h (mkPassiveRef [] None)
              Hw Hc (ex_intro _ s Hs) Ht) as [Ho [_ Hflag Hclear]].
  destruct (passive_run threshold duration window p es h) as [h' os].
  destruct (reference_run threshold duration window es _) as [r os']. cbn [fst snd] in *.
  split; [done|]. split; [done|]. intros deadline Hu Hle.
  destruct (sh_blacklisted (cell p h')); [done|]. specialize (Hclear eq_refl deadline Hu). lia.
Qed.

(** A cell with an entry trips at its third failure within ten, is still
    blacklisted at its deadline, and no longer after it. *)
Lemma blacklist_counts_exactly_the_window_witness :
  let h := with_cell 1 (set_entry (Some 8)) (acquireSharedState "a" empty_heap).2 in
  let es := [Failed 1; Failed 5; Failed 12; Failed 13; Looked 113; Established; Failed 113; Looked 114] in
  let expected := [Counted 1 false GoTime.zero; Counted 2 false GoTime.zero; Counted 2 false GoTime.zero;
                   Counted 3 true 113; Answer true; Silent; Counted 1 false GoTime.zero; Answer false] in
  is_Some (cells h !! 1) ∧ (passive_run 3 100 10 1 es h).2 = expected.
Proof.
  cbn zeta. split; [vm_compute; by eexists|].
  pose proof (blacklist_counts_exactly_the_window 3 100 10 1
    [Failed 1; Failed 5; Failed 12; Failed 13; Looked 113; Established; Failed 113; Looked 114] 0
    (with_cell 1 (set_entry (Some 8)) (acquireSharedState "a" empty_heap).2)
    (set_entry (Some 8) new_shared) eq_refl) as H.
  destruct (passive_run _ _ _ _ _ _) as [h' os].
  specialize (H ltac:(cbn; lia) ltac:(vm_compute; reflexivity) eq_refl eq_refl).
  destruct H as [-> _]. vm_compute. reflexivity.
Defined.

(** A tripped cell stays blacklisted up to and including its deadline, and the
    first look after it releases the cell. *)
Lemma tripped_until threshold duration window now s t :
  (record_shared threshold duration window now s).2.1.2 = true →
  blacklist_expired t (record_shared threshold duration window now s).1
    = bool_decide (now + duration < t).
Proof.
  unfold record_shared. destruct (decide _); [|done]. intros _. cbn [fst].
  unfold blacklist_expired, GoTime.after, GoTime.add. done.
Qed.

(** ** Ownership of the shared cells *)

(** The live runtimes that own a cell. *)
Definition owns (p : Z) (r : memberRuntime) : Prop :=
  mr_shared r = Some p ∧ mr_released r = false.
#[global] Instance owns_dec p r : Decision (owns p r).
Proof. unfold owns. apply _. Defined.

Definition live_owners (p : Z) (rs : gmap Z memberRuntime) : Z :=
  Z.of_nat (size (filter (λ kr, owns p kr.2) rs)).

Record heap_inv (h : heap) : Prop := {
  inv_store : ∀ tag p, sharedStateStore h !! tag = Some p → is_Some (cells h !! p);
  inv_shared : ∀ rp r p, runtimes h !! rp = Some r → mr_shared r = Some p → is_Some (cells h !! p);
  inv_fresh_cells : ∀ p, next h ≤ p → cells h !! p = None;
  inv_fresh_runtimes : ∀ p, next h ≤ p → runtimes h !! p = None;
  inv_owners : ∀ p c, cells h !! p = Some c → sh_owners c = live_owners p (runtimes h)
}.

(** [tags] remembers the tag each runtime was created for: the key the pool
    holds it under, and the tag of the reference that retires it. Every live
    runtime with shared state finds that very state in the store. *)
Definition tags_inv (h : heap) (tags : gmap Z string) : Prop :=
  ∀ rp r p, runtimes h !! rp = Some r → mr_shared r = Some p → mr_released r = false →
  ∃ tag, tags !! rp = Some tag ∧ sharedStateStore h !! tag = Some p.

Lemma with_cell_lookup p f h q :
  cells (with_cell p f h) !! q = (if decide (p = q) then f <$> cells h !! q else cells h !! q).
Proof.
  unfold with_cell, set_cells. cbn [cells]. destruct (decide (p = q)) as [->|Hne].
  - by rewrite lookup_alter_eq.
  - by rewrite lookup_alter_ne.
Qed.

(** Everything but the owner counts of the cells. *)
Definition same_skeleton (h h' : heap) : Prop :=
  sharedStateStore h' = sharedStateStore h ∧ runtimes h' = runtimes h ∧ next h' = next h ∧
  ∀ p, sh_owners <$> cells h' !! p = sh_owners <$> cells h !! p.

#[global] Instance same_skeleton_preorder : PreOrder same_skeleton.
Proof.
  split; [done|]. intros a b c (A1 & A2 & A3 & A4) (B1 & B2 & B3 & B4).
  split_and!; [congruence..|]. intros p. by rewrite B4.
Qed.

Lemma with_cell_skeleton p f h :
  (∀ s, sh_owners (f s) = sh_owners s) → same_skeleton h (with_cell p f h).
Proof.
  intros Hf. split_and!; [done..|]. intros q. rewrite with_cell_lookup.
  destruct (decide (p = q)); [|done]. destruct (cells h !! q); [|done]. cbn. by rewrite Hf.
Qed.

Lemma on_entry_skeleton p c h : same_skeleton h (on_entry p c h).
Proof. unfold on_entry. by destruct (sh_entry (cell p h)). Qed.

Lemma skeleton_inv h h' : same_skeleton h h' → heap_inv h → heap_inv h'.
Proof.
  intros (Hs & Hr & Hn & Ho) [I1 I2 I3 I4 I5].
  assert (Hsome : ∀ p, is_Some (cells h !! p) → is_Some (cells h' !! p)).
  { intros p [c Hc]. specialize (Ho p). rewrite Hc in Ho.
    destruct (cells h' !! p); [by eexists|done]. }
  split.
  - intros tag p. rewrite Hs. eauto.
  - intros rp r p. rewrite Hr. eauto.
  - intros p. rewrite Hn. intros Hp. specialize (Ho p). rewrite (I3 p Hp) in Ho.
    by destruct (cells h' !! p).
  - intros p. rewrite Hn, Hr. eauto.
  - intros p c Hc. specialize (Ho p). rewrite Hc, Hr in *.
    destruct (cells h !! p) eqn:E; [|done]. cbn in Ho. simplify_eq. rewrite Ho. eauto.
Qed.

Lemma skeleton_tags h h' tags : same_skeleton h h' → tags_inv h tags → tags_inv h' tags.
Proof. intros (Hs & Hr & _ & _) Ht rp r p. rewrite Hr, Hs. apply Ht. Qed.

(** What the pools do with shared cells once members exist. *)
Inductive member_op :=
| OpMember (tag : string) (detour : option Z)
| OpRelease (rp : Z)
| OpFailure (p : Z) (cause : goerror) (threshold duration window : Z) (destination : string) (now : Z)
| OpSuccess (p : Z) (destination : string)
| OpEstablished (p : Z)
| OpCheck (p now : Z)
| OpForceRelease (tag : string)
| OpAttach (p : Z) (entry : option Z)
| OpInc (p : Z)
| OpDec (p : Z)
| OpTraffic (p upload download : Z).

(** [initializeMembersLocked] and [reconcileMembersWithPolicyLocked] look the
    cell up and create its runtime in one critical section. *)
Definition add_member (tag : string) (detour : option Z) (h : heap) : Z * heap :=
  let '(p, h1) := acquireSharedState tag h in newMemberRuntime detour (Some p) h1.

Definition run_op (o : member_op) (st : heap * gmap Z string) : heap * gmap Z string :=
  let '(h, tags) := st in
  match o with
  | OpMember tag detour => let '(rp, h1) := add_member tag detour h in (h1, <[rp := tag]> tags)
  | OpRelease rp =>
    match tags !! rp with Some tag => (releaseOwner tag rp h, tags) | None => (h, tags) end
  | OpFailure p cause threshold duration window destination now =>
    ((recordSharedFailure cause threshold duration window destination now p h).1, tags)
  | OpSuccess p destination => (recordSharedSuccess destination p h, tags)
  | OpEstablished p => (recordEstablishedSuccess p h, tags)
  | OpCheck p now => ((isBlacklisted now p h).1, tags)
  | OpForceRelease tag => (releaseSharedMember tag h, tags)
  | OpAttach p entry => (attachEntry entry p h, tags)
  | OpInc p => (incActive p h, tags)
  | OpDec p => (decActive p h, tags)
  | OpTraffic p up down => (addTraffic up down p h, tags)
  end.

Definition run_ops (os : list member_op) : heap * gmap Z string :=
  foldl (λ st o, run_op o st) (empty_heap, ∅) os.

Lemma window_skeleton p f h :
  (∀ s, ∃ a b c, f s = set_window a b c s) → same_skeleton h (with_cell p f h).
Proof. intros Hf. apply with_cell_skeleton. intros s. destruct (Hf s) as (a & b & c & ->). done. Qed.

Lemma constant_cell_skeleton p c h :
  sh_owners c = sh_owners (cell p h) → same_skeleton h (with_cell p (λ _, c) h).
Proof.
  intros Hc. split_and!; [done..|]. intros q. rewrite with_cell_lookup.
  destruct (decide (p = q)) as [<-|]; [|done]. unfold cell in Hc.
  destruct (cells h !! p); [|done]. cbn in *. by rewrite Hc.
Qed.

Lemma record_shared_owners threshold duration window now s :
  sh_owners (record_shared threshold duration window now s).1 = sh_owners s.
Proof. unfold record_shared. by destruct (decide _). Qed.

(** Every operation on an existing cell only moves its window, counters and
    entry; none of them touches the store, the runtimes or the owner counts. *)
Lemma passive_op_skeleton o st :
  match o with OpMember _ _ | OpRelease _ => True | _ => same_skeleton st.1 (run_op o st).1 end.
Proof.
  destruct st as [h tags], o as [| |p cause threshold duration window dest now| | |p now|tag|p e| | |];
    cbn [run_op fst]; [done|done|..].
  - unfold recordSharedFailure. cbn [fst snd]. etrans; [apply (constant_cell_skeleton p)|].
    + apply record_shared_owners.
    + destruct ((record_shared threshold duration window now (cell p h)).2.1.2).
      * etrans; apply on_entry_skeleton.
      * apply on_entry_skeleton.
  - apply on_entry_skeleton.
  - apply window_skeleton. eauto.
  - unfold isBlacklisted. cbn [fst]. destruct (blacklist_expired _ _); [|done].
    etrans; [|apply on_entry_skeleton]. apply window_skeleton. eauto.
  - unfold releaseSharedMember. destruct (lookupSharedState tag h); [|done].
    etrans; [|apply on_entry_skeleton]. apply window_skeleton. eauto.
  - unfold attachEntry. destruct e; [|done]. by apply with_cell_skeleton.
  - etrans; [|apply on_entry_skeleton]. by apply with_cell_skeleton.
  - etrans; [|apply on_entry_skeleton]. by apply with_cell_skeleton.
  - etrans; [|apply on_entry_skeleton]. by apply with_cell_skeleton.
Qed.

Lemma passive_op_tags o st :
  match o with OpMember _ _ | OpRelease _ => True | _ => (run_op o st).2 = st.2 end.
Proof. by destruct st, o. Qed.

Lemma live_owners_insert p rp r rs :
  rs !! rp = None →
  live_owners p (<[rp := r]> rs) = live_owners p rs + (if decide (owns p r) then 1 else 0).
Proof.
  intros Hrp. unfold live_owners. destruct (decide (owns p r)) as [Ho|Ho].
  - rewrite map_filter_insert_True by done. rewrite map_size_insert_None; [lia|].
    apply map_lookup_filter_None. by left.
  - rewrite map_filter_insert_False by done. rewrite delete_id by done. lia.
Qed.

Lemma live_owners_pos p rp r rs : rs !! rp = Some r → owns p r → 0 < live_owners p rs.
Proof.
  intros Hr Ho. unfold live_owners.
  assert (size (filter (λ kr, owns p kr.2) rs) ≠ 0%nat); [|lia].
  apply (map_size_ne_0_lookup_2 _ rp). exists r. by apply map_lookup_filter_Some.
Qed.

Lemma acquire_inv tag h tags :
  heap_inv h → tags_inv h tags →
  heap_inv (acquireSharedState tag h).2 ∧ tags_inv (acquireSharedState tag h).2 tags ∧
  sharedStateStore (acquireSharedState tag h).2 !! tag = Some (acquireSharedState tag h).1 ∧
  is_Some (cells (acquireSharedState tag h).2 !! (acquireSharedState tag h).1).
Proof.
  intros I Ht. pose proof I as [I1 I2 I3 I4 I5]. unfold acquireSharedState.
  destruct (sharedStateStore h !! tag) as [p|] eqn:E; [by eauto|].
  cbn. split_and!.
  - split; cbn.
    + intros tag' p. destruct (decide (tag' = tag)) as [->|Hne].
      * rewrite lookup_insert_eq. intros [= <-]. rewrite lookup_insert_eq. by eexists.
      * rewrite lookup_insert_ne by done. intros Hp.
        destruct (decide (p = next h)) as [->|]; [rewrite lookup_insert_eq; by eexists|].
        rewrite lookup_insert_ne by done. eauto.
    + intros rp r p Hr Hs. destruct (decide (p = next h)) as [->|].
      * rewrite lookup_insert_eq. by eexists.
      * rewrite lookup_insert_ne by done. eauto.
    + intros p Hp. rewrite lookup_insert_ne by lia. apply I3. lia.
    + intros p Hp. apply I4. lia.
    + intros p c Hc. destruct (decide (p = next h)) as [->|].
      * rewrite lookup_insert_eq in Hc. simplify_eq. cbn.
        destruct (decide (live_owners (next h) (runtimes h) = 0)) as [->|Hne]; [done|].
        exfalso. assert (Hne' : size (filter (λ kr, owns (next h) kr.2) (runtimes h)) ≠ 0%nat).
        { unfold live_owners in Hne. lia. }
        apply map_size_ne_0_lookup_1 in Hne' as (rp & r & Hr).
        apply map_lookup_filter_Some in Hr as [Hr [Hs _]].
        destruct (I2 _ _ _ Hr Hs) as [c Hc]. rewrite I3 in Hc by lia. done.
      * rewrite lookup_insert_ne in Hc by done. eauto.
  - intros rp r p Hr Hs Hl. destruct (Ht _ _ _ Hr Hs Hl) as (tag' & Htag & Hst).
    exists tag'. split; [done|]. cbn. rewrite lookup_insert_ne; [done|congruence].
  - by rewrite lookup_insert_eq.
  - rewrite lookup_insert_eq. by eexists.
Qed.

Lemma add_member_inv tag detour h tags :
  heap_inv h → tags_inv h tags →
  heap_inv (add_member tag detour h).2 ∧
  tags_inv (add_member tag detour h).2 (<[(add_member tag detour h).1 := tag]> tags).
Proof.
  intros I Ht. destruct (acquire_inv tag h tags I Ht) as (I' & Ht' & Hst & Hc).
  unfold add_member. destruct (acquireSharedState tag h) as [p h1]. cbn [fst snd] in *.
  destruct I' as [I1 I2 I3 I4 I5]. unfold newMemberRuntime. cbn. split.
  - split; cbn.
    + intros tag' q Hq. destruct (I1 _ _ Hq) as [c ?].
      rewrite (with_cell_lookup p (add_owners 1) h1). destruct (decide (p = q)); [|by eexists].
      exists (add_owners 1 c). by simplify_option_eq.
    + intros rp r q Hr Hs. rewrite (with_cell_lookup p (add_owners 1) h1).
      assert (is_Some (cells h1 !! q)) as [c ?].
      { destruct (decide (rp = next h1)) as [->|].
        - rewrite lookup_insert_eq in Hr. by simplify_eq/=.
        - rewrite lookup_insert_ne in Hr by done. eauto. }
      destruct (decide (p = q)); [|by eexists]. exists (add_owners 1 c). by simplify_option_eq.
    + intros q Hq. rewrite (with_cell_lookup p (add_owners 1) h1), I3 by lia. by destruct (decide _).
    + intros q Hq. rewrite lookup_insert_ne by lia. apply I4. lia.
    + intros q c. rewrite (with_cell_lookup p (add_owners 1) h1), live_owners_insert by (apply I4; lia).
      unfold owns at 2. cbn. destruct (decide (p = q)) as [<-|Hne].
      * rewrite decide_True by done. intros (c' & Hc' & ->)%fmap_Some. cbn.
        by rewrite (I5 _ _ Hc').
      * rewrite decide_False by naive_solver. intros Hc'. rewrite (I5 _ _ Hc'). lia.
  - intros rp r q Hr Hs Hl. cbn. destruct (decide (rp = next h1)) as [->|Hne].
    + cbn in Hr. rewrite lookup_insert_eq in Hr. simplify_eq/=. exists tag.
      by rewrite lookup_insert_eq.
    + cbn in Hr. rewrite lookup_insert_ne in Hr by done. rewrite lookup_insert_ne by done. eauto.
Qed.

Lemma live_owners_release p rp r rs :
  rs !! rp = Some r →
  live_owners p (<[rp := set_released r]> rs) =
    live_owners p rs - (if decide (owns p r) then 1 else 0).
Proof.
  intros Hr. rewrite <-(insert_delete_id rs rp r Hr) at 2.
  rewrite <-insert_delete_eq, !live_owners_insert by apply lookup_delete_eq.
  rewrite (decide_False (P := owns p (set_released r))) by (unfold owns; cbn; naive_solver). lia.
Qed.

Lemma release_inv tag rp h tags :
  heap_inv h → tags_inv h tags → tags !! rp = Some tag →
  heap_inv (releaseOwner tag rp h) ∧ tags_inv (releaseOwner tag rp h) tags.
Proof.
  intros I Ht Htag. unfold releaseOwner.
  destruct (runtimes h !! rp) as [r|] eqn:Hr; [|done].
  destruct (mr_shared r) as [s|] eqn:Hs; [|done].
  destruct (mr_released r) eqn:Hl; [done|].
  pose proof I as [I1 I2 I3 I4 I5].
  set (h1 := with_cell s (add_owners (-1)) (with_runtime rp set_released h)).
  assert (Hrs : runtimes h1 = <[rp := set_released r]> (runtimes h)).
  { unfold h1, with_runtime, with_cell. cbn. apply map_eq. intros k.
    destruct (decide (k = rp)) as [->|].
    - by rewrite lookup_alter_eq, lookup_insert_eq, Hr.
    - by rewrite lookup_alter_ne, lookup_insert_ne by done. }
  assert (Hcells : ∀ q, cells h1 !! q =
            if decide (s = q) then add_owners (-1) <$> cells h !! q else cells h !! q).
  { intros q. unfold h1. by rewrite with_cell_lookup. }
  assert (Hsome : ∀ q, is_Some (cells h !! q) → is_Some (cells h1 !! q)).
  { intros q [c Hc]. rewrite Hcells, Hc. by destruct (decide _). }
  assert (Hown : ∀ q c, cells h1 !! q = Some c → sh_owners c = live_owners q (runtimes h1)).
  { intros q c. rewrite Hcells, Hrs, (live_owners_release q rp r) by done. unfold owns at 2.
    destruct (decide (s = q)) as [<-|Hne].
    - rewrite decide_True by done. intros (c' & Hc' & ->)%fmap_Some. cbn. by rewrite (I5 _ _ Hc').
    - rewrite decide_False by naive_solver. intros Hc'. rewrite (I5 _ _ Hc'). lia. }
  assert (I' : heap_inv h1).
  { split; [by eauto| | | |done].
    - intros rp' r' q. rewrite Hrs. intros [[<- <-]|[? ?]]%lookup_insert_Some Hq; [|by eauto].
      apply Hsome. eauto.
    - intros q Hq. rewrite Hcells, I3 by done. by destruct (decide _).
    - intros q Hq. rewrite Hrs. rewrite lookup_insert_ne; [by apply I4|].
      intros ->. rewrite I4 in Hr by done. done. }
  assert (Ht' : tags_inv h1 tags).
  { intros rp' r' q. rewrite Hrs. intros [[<- <-]|[? ?]]%lookup_insert_Some Hq Hlive; [done|].
    by apply (Ht rp' r'). }
  destruct (decide (sh_owners (cell s h1) = 0)) as [H0|]; [|done].
  unfold compareAndDelete. destruct (decide _) as [Hst|]; [|done]. split.
  - destruct I' as [J1 J2 J3 J4 J5]. split; cbn; [|done..].
    intros tag' q [_ Hq]%lookup_delete_Some. eauto.
  - intros rp' r' q Hr' Hq Hlive. destruct (Ht' _ _ _ Hr' Hq Hlive) as (tag' & Htag' & Hst').
    exists tag'. split; [done|]. cbn. rewrite lookup_delete_ne; [done|]. intros <-.
    assert (q = s) as -> by congruence.
    destruct (inv_shared _ I' _ _ _ Hr' Hq) as [c Hc].
    unfold cell in H0. rewrite Hc in H0. cbn in H0.
    pose proof (live_owners_pos s rp' r' (runtimes h1) Hr' (conj Hq Hlive)).
    rewrite <-(Hown _ _ Hc) in *. lia.
Qed.

Lemma run_ops_inv os : heap_inv (run_ops os).1 ∧ tags_inv (run_ops os).1 (run_ops os).2.
Proof.
  unfold run_ops. assert (Hgen : ∀ st, heap_inv st.1 → tags_inv st.1 st.2 →
    heap_inv (foldl (λ st o, run_op o st) st os).1 ∧
    tags_inv (foldl (λ st o, run_op o st) st os).1 (foldl (λ st o, run_op o st) st os).2).
  { induction os as [|o os IH]; intros st I Ht; [done|]. cbn [foldl]. apply IH.
    - pose proof (passive_op_skeleton o st) as Hsk. destruct o; try by eapply skeleton_inv.
      + destruct st as [h tags]. cbn. pose proof (add_member_inv tag detour h tags I Ht) as [? _].
        by destruct (add_member tag detour h).
      + destruct st as [h tags]. cbn. destruct (tags !! rp) eqn:E; [|done].
        by eapply release_inv.
    - pose proof (passive_op_skeleton o st) as Hsk. pose proof (passive_op_tags o st) as Htg.
      destruct o; try (rewrite Htg; by eapply skeleton_tags).
      + destruct st as [h tags]. cbn. pose proof (add_member_inv tag detour h tags I Ht) as [_ ?].
        by destruct (add_member tag detour h).
      + destruct st as [h tags]. cbn. destruct (tags !! rp) eqn:E; [|done].
        by eapply release_inv. }
  apply Hgen.
  - split; cbn; intros *; rewrite ?lookup_empty; done.
  - intros rp r p Hr. cbn in Hr. by rewrite lookup_empty in Hr.
Qed.

(** Two live members created for the same tag, by whichever pools, share one
    state cell, that cell is the one the store hands out for the tag, and its
    owner count is the number of live members using it: for every sequence of
    member additions, releases, failures, successes, blacklist checks, releases
    and traffic. A late release therefore never deletes the state of a tag that
    was added again. *)
Theorem live_members_share_their_tag os rp1 rp2 r1 r2 p1 p2 tag :
  let h := (run_ops os).1 in let tags := (run_ops os).2 in
  runtimes h !! rp1 = Some r1 → mr_shared r1 = Some p1 → mr_released r1 = false →
  tags !! rp1 = Some tag →
  runtimes h !! rp2 = Some r2 → mr_shared r2 = Some p2 → mr_released r2 = false →
  tags !! rp2 = Some tag →
  p1 = p2 ∧ sharedStateStore h !! tag = Some p1 ∧
  sh_owners (cell p1 h) = live_owners p1 (runtimes h) ∧ 0 < sh_owners (cell p1 h).
Proof.
  intros h tags. pose proof (run_ops_inv os) as [I Ht]. fold h tags in I, Ht.
  intros Hr1 Hs1 Hl1 Ht1 Hr2 Hs2 Hl2 Ht2.
  destruct (Ht _ _ _ Hr1 Hs1 Hl1) as (t1 & ? & Hst1).
  destruct (Ht _ _ _ Hr2 Hs2 Hl2) as (t2 & ? & Hst2). simplify_eq.
  destruct (inv_store _ I _ _ Hst1) as [c Hc].
  unfold cell. rewrite Hc. cbn. rewrite (inv_owners _ I _ _ Hc).
  split_and!; [done..|]. by eapply live_owners_pos.
Qed.

(** Two members for the tag "a": the first one is retired, the tag is added
    again with another outbound, and only then is the first one released. *)
Definition handover : list member_op :=
  [OpMember "a" (Some 100); OpMember "a" (Some 101); OpFailure 1 (mkError "refused" []) 1 60 0 "x" 5;
   OpRelease 2; OpMember "a" (Some 102)].

Lemma live_members_share_their_tag_witness :
  sh_owners (cell 1 (run_ops handover).1) = 2 ∧
  sharedStateStore (run_ops handover).1 !! "a" = Some 1.
Proof.
  split; [vm_compute; reflexivity|].
  refine (proj1 (proj2 (live_members_share_their_tag handover 3 4
    (mkMemberRuntime (Some 101) (Some 1) 0 0 false false)
    (mkMemberRuntime (Some 102) (Some 1) 0 0 false false) 1 1 "a" _ _ _ _ _ _ _ _)));
  vm_compute; reflexivity.
Defined.

(** Looking a cell up and becoming its owner are two separate steps. When
    another pool releases the last owner in between, the cell has left the store
    although the new member uses it: the next member of the same tag gets a
    different cell, and the two no longer share failures and blacklist. *)
Theorem split_acquire_orphans_shared_state :
  let h0 := (add_member "a" (Some 100) empty_heap).2 in
  (** the second pool reads the store ... *)
  let '(p, h1) := acquireSharedState "a" h0 in
  (** ... the first pool releases the last owner ... *)
  let h2 := releaseOwner "a" 2 h1 in
  (** ... and the second pool takes ownership of the orphan. *)
  let '(rp, h3) := newMemberRuntime (Some 101) (Some p) h2 in
  let '(rp', h4) := add_member "a" (Some 102) h3 in
  mr_released (runtime_of rp h4) = false ∧ mr_released (runtime_of rp' h4) = false ∧
  mr_shared (runtime_of rp h4) = Some 1 ∧ mr_shared (runtime_of rp' h4) = Some 4.
Proof. vm_compute. split_and!; reflexivity. Qed.
