(* ===== verification/PoolState.v ===== *)
(** The state of one pool outbound ([internal/outbound/pool/pool.go]): its
    options, its published snapshots, its topology, and the state of the process
    around it (the member heap and the group runtimes). Slices carry the array
    they share, because the code compares slices by the address of their first
    element; a snapshot is a heap object named by its version. *)

From S2P Require Import Prelude GroupMember GroupRuntime GroupHealer PoolMember.

(** ** Options *)
Definition modeSequential : string := "sequential".
Definition modeRandom : string := "random".
Definition modeBalance : string := "balance".
Definition modeBalanceP2C : string := "balance_p2c".
Definition modeFixed : string := "fixed".
Definition modeLowestLatency : string := "lowest_latency".

Definition NetworkTCP : string := "tcp".
Definition NetworkUDP : string := "udp".

Record Options := mkOptions {
  o_CapacityTarget : Z;
  o_ActiveNodeIDs : option (list Z);
  o_Mode : string;
  o_Members : list string;
  o_FailureThreshold : Z;
  o_BlacklistDuration : Z;
  o_Metadata : gmap string MemberMeta;
  o_GroupID : Z;
  o_FailureWindow : Z;
  o_HealthCheckInterval : Z;
  o_PreferredMember : string;
  o_InitialGroupState : gmap string GroupInitialState;
  o_SelectorTag : string;
  o_MonitorObserverOnly : bool;
  o_RecoveryEnabled : bool;
  o_RecoverySuccessThreshold : Z;
  o_RecoveryCooldown : Z
}.

Definition normalizeMode (mode : string) : string :=
  let m := toLower mode in
  if decide (m = modeRandom) then modeRandom
  else if decide (m = modeBalance) then modeBalance
  else if decide (m = modeBalanceP2C) then modeBalanceP2C
  else if decide (m = modeFixed) then modeFixed
  else if decide (m = modeLowestLatency) then modeLowestLatency
  else modeSequential.

Definition set_standby (b : bool) (s : GroupInitialState) : GroupInitialState :=
  mkInitial b (gi_NodeID s) (gi_FailureHistory s) (gi_Evicted s) (gi_LastError s)
    (gi_EvictedAt s) (gi_Revision s).
Definition set_nodeID (id : Z) (s : GroupInitialState) : GroupInitialState :=
  mkInitial (gi_Standby s) id (gi_FailureHistory s) (gi_Evicted s) (gi_LastError s)
    (gi_EvictedAt s) (gi_Revision s).
Definition zero_initial : GroupInitialState := mkInitial false 0 [] false "" GoTime.zero 0.

(** The node id a tag has in the options' metadata. *)
Definition metadata_of (o : Options) (tag : string) : MemberMeta :=
  default empty_meta (o_Metadata o !! tag).

Section Capacity.
Context `{!RangeOrder string}.

(** Changes routing eligibility, not topology. *)
Definition applyCapacitySelection (target : Z) (previous : option (list Z))
    (states : gmap string GroupInitialState) : list Z * gmap string GroupInitialState :=
  let ids := (gi_NodeID ∘ snd) <$> range states in
  let selected := CapacitySelection ids previous target in
  (selected,
   (λ s, set_standby (bool_decide (0 < target) && negb (bool_decide (gi_NodeID s ∈ selected))) s)
     <$> states).

(** The initial state of exactly the members: stale entries are dropped. *)
Definition initial_of (o : Options) (tag : string) : GroupInitialState :=
  match o_InitialGroupState o !! tag with
  | Some state => state
  | None => set_nodeID (mm_NodeID (metadata_of o tag)) zero_initial
  end.

Definition intersect_initial (o : Options) : gmap string GroupInitialState :=
  foldl (λ acc tag, <[tag := initial_of o tag]> acc) ∅ (o_Members o).

Definition normalizeOptions (o : Options) : Options :=
  let threshold := if decide (o_FailureThreshold o ≤ 0) then 3 else o_FailureThreshold o in
  let duration := if decide (o_BlacklistDuration o ≤ 0) then 24 * GoTime.hour
                  else o_BlacklistDuration o in
  let '(active, initial) :=
    if decide (o_GroupID o = 0) then (o_ActiveNodeIDs o, o_InitialGroupState o)
    else let r := applyCapacitySelection (o_CapacityTarget o) (o_ActiveNodeIDs o)
                    (intersect_initial o) in (Some r.1, r.2) in
  mkOptions (o_CapacityTarget o) active (normalizeMode (o_Mode o)) (o_Members o)
    threshold duration (o_Metadata o) (o_GroupID o) (o_FailureWindow o)
    (o_HealthCheckInterval o) (o_PreferredMember o) initial (o_SelectorTag o)
    (o_MonitorObserverOnly o) (o_RecoveryEnabled o) (o_RecoverySuccessThreshold o)
    (o_RecoveryCooldown o).
End Capacity.

Definition poolDependencies (o : Options) : list string :=
  if decide (o_SelectorTag o = "") then [] else [o_SelectorTag o].

Definition recoveryPolicy (o : Options) : RecoveryPolicy :=
  NormalizeRecoveryPolicy
    (mkPolicy (o_RecoveryEnabled o) (o_RecoverySuccessThreshold o) (o_RecoveryCooldown o)).

(** ** Slices of references *)

(** The arrays a snapshot's slices can share. *)
Inductive backing := Topology | Eligible | TcpSubset | UdpSubset | TcpSorted | UdpSorted | Buffer.

#[global] Instance backing_eq_dec : EqDecision backing.
Proof. solve_decision. Defined.

Record slice := mkSlice { array : backing; elts : list Z }.

Definition sameCandidateSlice (left right : slice) : bool :=
  bool_decide (length (elts left) = length (elts right)) &&
  (bool_decide (elts left = []) || bool_decide (array left = array right)).

(** ** Snapshots *)
Record PoolSnapshot := mkSnapshot {
  sn_Members : slice;
  sn_Version : Z;
  sn_mode : string;
  sn_tcpMembers : slice;
  sn_udpMembers : slice;
  sn_allMembers : slice;
  sn_memberIndex : gmap Z nat;
  sn_tcpIndex : gmap Z nat;
  sn_udpIndex : gmap Z nat;
  sn_accepting : bool;
  sn_readers : Z;
  sn_released : bool
}.

Definition set_accepting (b : bool) (s : PoolSnapshot) : PoolSnapshot :=
  mkSnapshot (sn_Members s) (sn_Version s) (sn_mode s) (sn_tcpMembers s) (sn_udpMembers s)
    (sn_allMembers s) (sn_memberIndex s) (sn_tcpIndex s) (sn_udpIndex s) b (sn_readers s)
    (sn_released s).
Definition add_readers (d : Z) (s : PoolSnapshot) : PoolSnapshot :=
  mkSnapshot (sn_Members s) (sn_Version s) (sn_mode s) (sn_tcpMembers s) (sn_udpMembers s)
    (sn_allMembers s) (sn_memberIndex s) (sn_tcpIndex s) (sn_udpIndex s) (sn_accepting s)
    (sn_readers s + d) (sn_released s).
Definition set_snapshot_released (s : PoolSnapshot) : PoolSnapshot :=
  mkSnapshot (sn_Members s) (sn_Version s) (sn_mode s) (sn_tcpMembers s) (sn_udpMembers s)
    (sn_allMembers s) (sn_memberIndex s) (sn_tcpIndex s) (sn_udpIndex s) (sn_accepting s)
    (sn_readers s) true.

(** ** The pool *)
Record poolOutbound := mkPool {
  p_options : Options;
  p_mode : string;
  p_modeAtomic : option string;
  p_current : option Z;
  p_snapshots : gmap Z PoolSnapshot;
  p_topology : list Z;
  p_topologyByTag : gmap string Z;
  p_runtimeByTag : gmap string Z;
  p_currentMember : option Z;
  p_rrCounter : Z;
  p_randomState : Z;
  p_failureThreshold : Z;
  p_failureWindowNanos : Z;
  p_hasSelector : bool;
  p_waitForInitialLatency : bool;
  p_rebuildTimer : option Z;
  p_expiryTimer : option Z;
  p_closed : bool;
  (** the topology the health subscription was last refreshed with *)
  p_healthSubscription : option (list string * list Z);
  p_groupSubscribed : bool;
  p_schedule : option (list Z * Z);
  p_registration : option Z
}.

(** The whole state a pool operation works on. *)
Record state := mkState {
  st_pool : poolOutbound;
  st_heap : heap;
  st_groups : world;
  (** the tags offered to the selector, in order *)
  st_selections : list string
}.

(** ** What the pool reads from the rest of the program *)

(** The part of [monitor.Snapshot] selection uses. *)
Record MonitorSnapshot := mkMonitorSnapshot {
  mo_LastLatencyMs : Z;
  mo_InitialCheckDone : bool;
  mo_Provisional : bool;
  mo_RoutingEligible : bool
}.

(** The answers of [monitor.Manager] at the time of the call. *)
Record MonitorView := mkMonitor {
  mv_probeConfigured : bool;
  mv_SnapshotForTag : string → option MonitorSnapshot;
  mv_SnapshotForNodeID : Z → option MonitorSnapshot;
  mv_HandleForNodeID : Z → option Z;
  mv_MigrateRuntimeTag : Z → string → option Z
}.

(** sing-box: the outbound manager, the networks of an outbound, and whether the
    selector accepts a tag after the selections made so far. *)
Record Env := mkEnv {
  env_monitor : option MonitorView;
  env_outbound : string → option Z;
  env_isSelector : Z → bool;
  env_networks : Z → list string;
  env_selectorAccepts : list string → string → bool
}.

(** ** Field updates *)
Definition with_pool (f : poolOutbound → poolOutbound) (s : state) : state :=
  mkState (f (st_pool s)) (st_heap s) (st_groups s) (st_selections s).
Definition with_heap (f : heap → heap) (s : state) : state :=
  mkState (st_pool s) (f (st_heap s)) (st_groups s) (st_selections s).
Definition with_groups (f : world → world) (s : state) : state :=
  mkState (st_pool s) (st_heap s) (f (st_groups s)) (st_selections s).

Definition set_options (o : Options) (p : poolOutbound) : poolOutbound :=
  mkPool o (p_mode p) (p_modeAtomic p) (p_current p) (p_snapshots p) (p_topology p)
    (p_topologyByTag p) (p_runtimeByTag p) (p_currentMember p) (p_rrCounter p)
    (p_randomState p) (p_failureThreshold p) (p_failureWindowNanos p) (p_hasSelector p)
    (p_waitForInitialLatency p) (p_rebuildTimer p) (p_expiryTimer p) (p_closed p)
    (p_healthSubscription p) (p_groupSubscribed p) (p_schedule p) (p_registration p).
Definition set_mode (m : string) (p : poolOutbound) : poolOutbound :=
  mkPool (p_options p) m (Some m) (p_current p) (p_snapshots p) (p_topology p)
    (p_topologyByTag p) (p_runtimeByTag p) (p_currentMember p) (p_rrCounter p)
    (p_randomState p) (p_failureThreshold p) (p_failureWindowNanos p) (p_hasSelector p)
    (p_waitForInitialLatency p) (p_rebuildTimer p) (p_expiryTimer p) (p_closed p)
    (p_healthSubscription p) (p_groupSubscribed p) (p_schedule p) (p_registration p).
Definition set_snapshots (c : option Z) (ss : gmap Z PoolSnapshot) (p : poolOutbound) : poolOutbound :=
  mkPool (p_options p) (p_mode p) (p_modeAtomic p) c ss (p_topology p)
    (p_topologyByTag p) (p_runtimeByTag p) (p_currentMember p) (p_rrCounter p)
    (p_randomState p) (p_failureThreshold p) (p_failureWindowNanos p) (p_hasSelector p)
    (p_waitForInitialLatency p) (p_rebuildTimer p) (p_expiryTimer p) (p_closed p)
    (p_healthSubscription p) (p_groupSubscribed p) (p_schedule p) (p_registration p).
Definition set_topology (l : list Z) (byTag : gmap string Z) (p : poolOutbound) : poolOutbound :=
  mkPool (p_options p) (p_mode p) (p_modeAtomic p) (p_current p) (p_snapshots p) l
    byTag (p_runtimeByTag p) (p_currentMember p) (p_rrCounter p)
    (p_randomState p) (p_failureThreshold p) (p_failureWindowNanos p) (p_hasSelector p)
    (p_waitForInitialLatency p) (p_rebuildTimer p) (p_expiryTimer p) (p_closed p)
    (p_healthSubscription p) (p_groupSubscribed p) (p_schedule p) (p_registration p).
Definition set_runtimeByTag (m : gmap string Z) (p : poolOutbound) : poolOutbound :=
  mkPool (p_options p) (p_mode p) (p_modeAtomic p) (p_current p) (p_snapshots p) (p_topology p)
    (p_topologyByTag p) m (p_currentMember p) (p_rrCounter p)
    (p_randomState p) (p_failureThreshold p) (p_failureWindowNanos p) (p_hasSelector p)
    (p_waitForInitialLatency p) (p_rebuildTimer p) (p_expiryTimer p) (p_closed p)
    (p_healthSubscription p) (p_groupSubscribed p) (p_schedule p) (p_registration p).
Definition set_currentMember (c : option Z) (p : poolOutbound) : poolOutbound :=
  mkPool (p_options p) (p_mode p) (p_modeAtomic p) (p_current p) (p_snapshots p) (p_topology p)
    (p_topologyByTag p) (p_runtimeByTag p) c (p_rrCounter p)
    (p_randomState p) (p_failureThreshold p) (p_failureWindowNanos p) (p_hasSelector p)
    (p_waitForInitialLatency p) (p_rebuildTimer p) (p_expiryTimer p) (p_closed p)
    (p_healthSubscription p) (p_groupSubscribed p) (p_schedule p) (p_registration p).
Definition set_counters (rr rnd : Z) (p : poolOutbound) : poolOutbound :=
  mkPool (p_options p) (p_mode p) (p_modeAtomic p) (p_current p) (p_snapshots p) (p_topology p)
    (p_topologyByTag p) (p_runtimeByTag p) (p_currentMember p) rr
    rnd (p_failureThreshold p) (p_failureWindowNanos p) (p_hasSelector p)
    (p_waitForInitialLatency p) (p_rebuildTimer p) (p_expiryTimer p) (p_closed p)
    (p_healthSubscription p) (p_groupSubscribed p) (p_schedule p) (p_registration p).
Definition set_thresholds (threshold window : Z) (p : poolOutbound) : poolOutbound :=
  mkPool (p_options p) (p_mode p) (p_modeAtomic p) (p_current p) (p_snapshots p) (p_topology p)
    (p_topologyByTag p) (p_runtimeByTag p) (p_currentMember p) (p_rrCounter p)
    (p_randomState p) threshold window (p_hasSelector p)
    (p_waitForInitialLatency p) (p_rebuildTimer p) (p_expiryTimer p) (p_closed p)
    (p_healthSubscription p) (p_groupSubscribed p) (p_schedule p) (p_registration p).
Definition set_hasSelector (b : bool) (p : poolOutbound) : poolOutbound :=
  mkPool (p_options p) (p_mode p) (p_modeAtomic p) (p_current p) (p_snapshots p) (p_topology p)
    (p_topologyByTag p) (p_runtimeByTag p) (p_currentMember p) (p_rrCounter p)
    (p_randomState p) (p_failureThreshold p) (p_failureWindowNanos p) b
    (p_waitForInitialLatency p) (p_rebuildTimer p) (p_expiryTimer p) (p_closed p)
    (p_healthSubscription p) (p_groupSubscribed p) (p_schedule p) (p_registration p).
Definition set_wait (b : bool) (p : poolOutbound) : poolOutbound :=
  mkPool (p_options p) (p_mode p) (p_modeAtomic p) (p_current p) (p_snapshots p) (p_topology p)
    (p_topologyByTag p) (p_runtimeByTag p) (p_currentMember p) (p_rrCounter p)
    (p_randomState p) (p_failureThreshold p) (p_failureWindowNanos p) (p_hasSelector p)
    b (p_rebuildTimer p) (p_expiryTimer p) (p_closed p)
    (p_healthSubscription p) (p_groupSubscribed p) (p_schedule p) (p_registration p).
Definition set_timers (rebuild expiry : option Z) (p : poolOutbound) : poolOutbound :=
  mkPool (p_options p) (p_mode p) (p_modeAtomic p) (p_current p) (p_snapshots p) (p_topology p)
    (p_topologyByTag p) (p_runtimeByTag p) (p_currentMember p) (p_rrCounter p)
    (p_randomState p) (p_failureThreshold p) (p_failureWindowNanos p) (p_hasSelector p)
    (p_waitForInitialLatency p) rebuild expiry (p_closed p)
    (p_healthSubscription p) (p_groupSubscribed p) (p_schedule p) (p_registration p).
Definition set_closed (p : poolOutbound) : poolOutbound :=
  mkPool (p_options p) (p_mode p) (p_modeAtomic p) (p_current p) (p_snapshots p) (p_topology p)
    (p_topologyByTag p) (p_runtimeByTag p) (p_currentMember p) (p_rrCounter p)
    (p_randomState p) (p_failureThreshold p) (p_failureWindowNanos p) (p_hasSelector p)
    (p_waitForInitialLatency p) (p_rebuildTimer p) (p_expiryTimer p) true
    (p_healthSubscription p) (p_groupSubscribed p) (p_schedule p) (p_registration p).
Definition set_subscriptions (health : option (list string * list Z)) (grp : bool)
    (schedule : option (list Z * Z)) (registration : option Z) (p : poolOutbound) : poolOutbound :=
  mkPool (p_options p) (p_mode p) (p_modeAtomic p) (p_current p) (p_snapshots p) (p_topology p)
    (p_topologyByTag p) (p_runtimeByTag p) (p_currentMember p) (p_rrCounter p)
    (p_randomState p) (p_failureThreshold p) (p_failureWindowNanos p) (p_hasSelector p)
    (p_waitForInitialLatency p) (p_rebuildTimer p) (p_expiryTimer p) (p_closed p)
    health grp schedule registration.

Definition with_snapshot (version : Z) (f : PoolSnapshot → PoolSnapshot) (p : poolOutbound)
    : poolOutbound :=
  set_snapshots (p_current p) (alter f version (p_snapshots p)) p.

(** The snapshot [p.current] points to. *)
Definition current_snapshot (p : poolOutbound) : option PoolSnapshot :=
  v ← p_current p; p_snapshots p !! v.

(** ** Readings shared by the operations *)
Definition memberMeta (s : state) (ref : option Z) : MemberMeta :=
  match ref with
  | None => empty_meta
  | Some r =>
    let m := member r (st_heap s) in
    if decide (ref_meta m = empty_meta) then metadata_of (p_options (st_pool s)) (ref_tag m)
    else ref_meta m
  end.

Definition memberName (s : state) (r : Z) : string :=
  if decide (mm_Name (memberMeta s (Some r)) = "") then ref_tag (member r (st_heap s))
  else mm_Name (memberMeta s (Some r)).

Definition currentFailureThreshold (p : poolOutbound) : Z :=
  let t := p_failureThreshold p in
  let t := if decide (t ≤ 0) then o_FailureThreshold (p_options p) else t in
  if decide (t ≤ 0) then 3 else t.

Definition currentFailureWindow (p : poolOutbound) : Z :=
  let w := p_failureWindowNanos p in
  if decide (w ≤ 0) then o_FailureWindow (p_options p) else w.

Definition hasMember (tag : string) (s : state) : bool :=
  bool_decide (is_Some (p_topologyByTag (st_pool s) !! tag)).

(** ** Capacity slots decide who is on standby *)

Lemma intersect_initial_lookup o tag :
  intersect_initial o !! tag = if decide (tag ∈ o_Members o) then Some (initial_of o tag) else None.
Proof.
  unfold intersect_initial. induction (o_Members o) as [|t l IH] using rev_ind.
  - rewrite decide_False by apply not_elem_of_nil. apply lookup_empty.
  - rewrite foldl_app. cbn [foldl]. destruct (decide (t = tag)) as [->|Hne].
    + rewrite lookup_insert_eq, decide_True; [done|]. set_solver.
    + rewrite lookup_insert_ne, IH by done.
      destruct (decide (tag ∈ l)); [rewrite decide_True|rewrite decide_False]; set_solver.
Qed.

(** After normalization a group pool starts with exactly its configured
    members: stale persisted states are dropped, missing ones are filled in from
    the metadata, no other persisted field is touched, and a member is on
    standby exactly when a capacity target is set and its node holds no slot;
    the slots never exceed the target. *)
Theorem normalized_group_state_is_the_membership `{!RangeOrder string} o tag :
  o_GroupID o ≠ 0 →
  let n := normalizeOptions o in
  (is_Some (o_InitialGroupState n !! tag) ↔ tag ∈ o_Members o) ∧
  (∀ st, o_InitialGroupState n !! tag = Some st →
     ∃ slots, o_ActiveNodeIDs n = Some slots ∧
       (gi_Standby st = true ↔ 0 < o_CapacityTarget o ∧ gi_NodeID st ∉ slots) ∧
       set_standby false st = set_standby false (initial_of o tag) ∧
       (0 < o_CapacityTarget o → Z.of_nat (length slots) ≤ o_CapacityTarget o)).
Proof.
  intros Hg. cbn zeta. unfold normalizeOptions. rewrite decide_False by done.
  cbn [o_InitialGroupState o_ActiveNodeIDs applyCapacitySelection fst snd].
  rewrite lookup_fmap, intersect_initial_lookup. split.
  - destruct (decide (tag ∈ o_Members o)); cbn; [by split|].
    split; [by intros [? ?]|done].
  - intros st. destruct (decide (tag ∈ o_Members o)); [|done]. intros [= <-].
    eexists. split; [done|]. cbn. split_and!.
    + rewrite andb_true_iff, negb_true_iff, bool_decide_eq_true, bool_decide_eq_false. done.
    + by destruct (initial_of o tag).
    + intros Ht. by apply capacity_selection_bound.
Qed.

Lemma normalized_group_state_is_the_membership_witness :
  let o := mkOptions 1 (Some [12]) "Balance" ["a"; "b"] 0 0
             {["a" := mkMeta 11 "" "" "" "" 0 "" ""; "b" := mkMeta 12 "" "" "" "" 0 "" ""]} 7 0 0 ""
             {["b" := mkInitial false 12 [5] false "e" 0 3; "stale" := mkInitial false 13 [] true "" 0 1]}
             "" false false 0 0 in
  let n := @normalizeOptions (default_range_order string) o in
  o_Mode n = modeBalance ∧
  o_InitialGroupState n !! "stale" = None ∧
  gi_Standby <$> o_InitialGroupState n !! "a" = Some true ∧
  is_Some (o_InitialGroupState n !! "b").
Proof.
  cbn zeta. split_and!; [vm_compute; reflexivity..|].
  refine (proj2 (proj1 (@normalized_group_state_is_the_membership (default_range_order string)
    _ "b" _)) _); [vm_compute; congruence|].
  refine (bool_decide_eq_true_1 _ _). vm_compute. reflexivity.
Defined.
