(* ===== verification/PoolView.v ===== *)
(** Publication of a pool snapshot ([publishSnapshotLocked] and its helpers in
    [internal/outbound/pool/pool.go]): which members are eligible, how the
    per-network views share the topology's array, and how references are pinned.
    One publication takes one clock reading [now]. *)

From S2P Require Import Prelude GroupMember GroupRuntime PoolMember PoolState.

(** ** Views *)

(** [own] names the array a first exclusion copies into. *)
Definition snapshotSubset (own : backing) (current all : slice) (index : nat) (keep : bool) : slice :=
  if sameCandidateSlice current all then
    if keep then current else mkSlice own (take index (elts all))
  else if keep then
    match elts all !! index with
    | Some m => mkSlice (array current) (elts current ++ [m])
    | None => current
    end
  else current.

(** A later duplicate wins, as it does when the map is filled in order. *)
Definition snapshotMemberIndex (members : slice) : gmap Z nat :=
  list_to_map (reverse (imap (λ i m, (m, i)) (elts members))).

Definition snapshotNetworkIndex (members existing : slice) (index : gmap Z nat)
    : slice * gmap Z nat :=
  if decide (elts members = elts existing) then (existing, index)
  else (members, snapshotMemberIndex members).

(** ** Eligibility *)
Definition monitorSnapshot (s : state) (mv : MonitorView) (r : Z) : option MonitorSnapshot :=
  let nodeID := mm_NodeID (memberMeta s (Some r)) in
  if o_MonitorObserverOnly (p_options (st_pool s)) && negb (bool_decide (nodeID = 0))
  then mv_SnapshotForNodeID mv nodeID
  else mv_SnapshotForTag mv (ref_tag (member r (st_heap s))).

(** The group part of the test: a provisional result only asks that the member
    is not evicted. *)
Definition groupAdmits (s : state) (now : Z) (provisional : bool) (tag : string) : state * bool :=
  let gid := o_GroupID (p_options (st_pool s)) in
  if decide (gid = 0) then (s, true)
  else if provisional then (s, MemberNotEvicted gid tag (st_groups s))
  else let r := MemberAvailable gid tag now (st_groups s) in
       (with_groups (λ _, r.1) s, r.2).

Definition notBlacklisted (s : state) (now : Z) (r : Z) : state * bool :=
  match ref_shared (member r (st_heap s)) with
  | None => (s, true)
  | Some c => let b := isBlacklisted now c (st_heap s) in (with_heap (λ _, b.1) s, negb b.2)
  end.

Definition groupThenBlacklist (s : state) (now : Z) (provisional : bool) (r : Z) : state * bool :=
  let '(s1, admitted) := groupAdmits s now provisional (ref_tag (member r (st_heap s))) in
  if admitted then notBlacklisted s1 now r else (s1, false).

Definition memberAvailableForSnapshot (env : Env) (s : state) (r now : Z) : state * bool :=
  match env_monitor env with
  | None => groupThenBlacklist s now false r
  | Some mv =>
    let ms := monitorSnapshot s mv r in
    let s1 := match ms with
              | Some m => with_heap (with_ref r (set_latency (mo_LastLatencyMs m))) s
              | None => s
              end in
    let eligible := match ms with Some m => mo_RoutingEligible m | None => false end in
    let provisional := match ms with Some m => mo_Provisional m | None => false end in
    if (negb (bool_decide (o_GroupID (p_options (st_pool s)) = 0)) || mv_probeConfigured mv)
       && negb eligible
    then (s1, false)
    else groupThenBlacklist s1 now provisional r
  end.

(** ** The order of a lowest-latency view *)
Definition latencyMemberLess (s : state) (left right : Z) : bool :=
  let l := member left (st_heap s) in let r := member right (st_heap s) in
  let leftKnown := bool_decide (0 < ref_latencyMs l) in
  let rightKnown := bool_decide (0 < ref_latencyMs r) in
  if negb (Bool.eqb leftKnown rightKnown) then leftKnown
  else if leftKnown && negb (bool_decide (ref_latencyMs l = ref_latencyMs r))
  then bool_decide (ref_latencyMs l < ref_latencyMs r)
  else
    let leftID := mm_NodeID (memberMeta s (Some left)) in
    let rightID := mm_NodeID (memberMeta s (Some right)) in
    if negb (bool_decide (leftID = rightID)) then bool_decide (leftID < rightID)
    else negb (bool_decide (String.le (ref_tag r) (ref_tag l))).

Definition latency_le (s : state) (left right : Z) : Prop := latencyMemberLess s right left = false.
#[global] Instance latency_le_dec s l r : Decision (latency_le s l r).
Proof. unfold latency_le. apply _. Defined.

(** [sort.SliceStable] on a clone of the view. *)
Definition sorted_view (s : state) (own : backing) (v : slice) : slice :=
  mkSlice own (merge_sort (latency_le s) (elts v)).

(** ** Publication *)
Definition networks_of (env : Env) (s : state) (r : Z) : list string :=
  match ref_outbound (member r (st_heap s)) with
  | None => [NetworkTCP; NetworkUDP]
  | Some ob => env_networks env ob
  end.

Definition contains (l : list string) (x : string) : bool := bool_decide (x ∈ l).

(** One iteration: pin the member, test it, and extend the three views. *)
Definition publish_member (env : Env) (now : Z) (all : slice)
    (acc : state * (slice * slice * slice)) (im : nat * Z) : state * (slice * slice * slice) :=
  let '(s, (ms, tcp, udp)) := acc in
  let '(index, r) := im in
  let '(rp, h1) := ensureMemberRuntime r (st_heap s) in
  let s1 := with_heap (λ _, with_runtime rp (add_snapshotRefs 1) h1) s in
  let '(s2, available) := memberAvailableForSnapshot env s1 r now in
  let ms' := snapshotSubset Eligible ms all index available in
  if negb available then
    (s2, (ms', snapshotSubset TcpSubset tcp all index false,
          snapshotSubset UdpSubset udp all index false))
  else
    let networks := networks_of env s2 r in
    (s2, (ms', snapshotSubset TcpSubset tcp all index (available && contains networks NetworkTCP),
          snapshotSubset UdpSubset udp all index (available && contains networks NetworkUDP))).

Definition publish_members (env : Env) (now : Z) (members : list Z) (s : state)
    : state * (slice * slice * slice) :=
  let all := mkSlice Topology members in
  foldl (publish_member env now all) (s, (all, all, all)) (imap pair members).

(** Drop the pins of a snapshot, once. *)
Definition release_pins (members : list Z) (h : heap) : heap :=
  foldl (λ h r, match ref_runtime (member r h) with
                | Some rp => with_runtime rp (add_snapshotRefs (-1)) h
                | None => h
                end) h members.

Definition releaseSnapshotMembers (version : Z) (s : state) : state :=
  match p_snapshots (st_pool s) !! version with
  | None => s
  | Some snap =>
    if sn_released snap then s
    else with_heap (release_pins (elts (sn_allMembers snap)))
           (with_pool (with_snapshot version set_snapshot_released) s)
  end.

Definition releaseSnapshotReader (version : Z) (s : state) : state :=
  let s1 := with_pool (with_snapshot version (add_readers (-1))) s in
  match p_snapshots (st_pool s1) !! version with
  | None => s1
  | Some snap =>
    if bool_decide (sn_readers snap = 0) && negb (sn_accepting snap)
    then releaseSnapshotMembers version s1 else s1
  end.

Definition next_version (p : poolOutbound) : Z :=
  match current_snapshot p with
  | Some previous => (sn_Version previous + 1) `mod` 2 ^ 64
  | None => 1
  end.

(** The three views of a publication, with their indexes. *)
Definition build_snapshot (s : state) (version : Z) (all ms tcp udp : slice) : PoolSnapshot :=
  let mode := p_mode (st_pool s) in
  let '(tcp1, udp1) := if decide (mode = modeLowestLatency)
                       then (sorted_view s TcpSorted tcp, sorted_view s UdpSorted udp)
                       else (tcp, udp) in
  let memberIndex := snapshotMemberIndex ms in
  let '(tcp2, tcpIndex) := snapshotNetworkIndex tcp1 ms memberIndex in
  let '(udp2, udpIndex) := snapshotNetworkIndex udp1 tcp2 tcpIndex in
  let '(udp3, udpIndex3) := if decide (elts udp2 = elts ms) then (ms, memberIndex)
                            else (udp2, udpIndex) in
  mkSnapshot ms version mode tcp2 udp3 all memberIndex tcpIndex udpIndex3 true 0 false.

Definition publishSnapshotLocked (env : Env) (now : Z) (members : list Z) (s : state) : state :=
  let previous := p_current (st_pool s) in
  let version := next_version (st_pool s) in
  let '(s1, (ms, tcp, udp)) := publish_members env now members s in
  let snap := build_snapshot s1 version (mkSlice Topology members) ms tcp udp in
  let s2 := with_pool (λ p, set_snapshots (Some version)
              (<[version := snap]>
                 match previous with
                 | Some v => alter (set_accepting false) v (p_snapshots p)
                 | None => p_snapshots p
                 end) p) s1 in
  match previous with
  | None => s2
  | Some v =>
    match p_snapshots (st_pool s2) !! v with
    | Some old => if decide (sn_readers old = 0) then releaseSnapshotMembers v s2 else s2
    | None => s2
    end
  end.

Definition rebuildCandidatesNow (env : Env) (now : Z) (s : state) : state :=
  if p_closed (st_pool s) || bool_decide (p_topology (st_pool s) = []) then s
  else publishSnapshotLocked env now (p_topology (st_pool s)) s.

(** ** Control-plane reads of a snapshot *)
Definition availableMembers (snap : PoolSnapshot) (network : string) : list Z :=
  if decide (network = NetworkTCP) then elts (sn_tcpMembers snap)
  else if decide (network = NetworkUDP) then elts (sn_udpMembers snap)
  else elts (sn_Members snap).

Definition dataPathMode (s : state) (snap : PoolSnapshot) : string :=
  if decide (sn_mode snap = "") then
    match p_modeAtomic (st_pool s) with Some m => m | None => p_mode (st_pool s) end
  else sn_mode snap.

Definition allInitialChecksDone (env : Env) (s : state) (snap : PoolSnapshot) : bool :=
  match env_monitor env with
  | None => true
  | Some mv => forallb (λ r, match monitorSnapshot s mv r with
                             | Some m => mo_InitialCheckDone m
                             | None => false
                             end) (elts (sn_allMembers snap))
  end.

(** ** The verdicts of one publication *)
Record verdict := mkVerdict { v_available : bool; v_tcp : bool; v_udp : bool }.

(** Pinning and testing one member, without building any view. *)
Definition judge (env : Env) (now : Z) (r : Z) (s : state) : state * verdict :=
  let '(rp, h1) := ensureMemberRuntime r (st_heap s) in
  let s1 := with_heap (λ _, with_runtime rp (add_snapshotRefs 1) h1) s in
  let '(s2, available) := memberAvailableForSnapshot env s1 r now in
  (s2, mkVerdict available (available && contains (networks_of env s2 r) NetworkTCP)
         (available && contains (networks_of env s2 r) NetworkUDP)).

Fixpoint judge_all (env : Env) (now : Z) (members : list Z) (s : state) : state * list verdict :=
  match members with
  | [] => (s, [])
  | r :: members =>
    let '(s1, v) := judge env now r s in
    let '(s2, vs) := judge_all env now members s1 in (s2, v :: vs)
  end.

(** The reference views: the members whose verdict is positive, in order. *)
Fixpoint select {A} (keep : list bool) (l : list A) : list A :=
  match keep, l with
  | b :: keep, x :: l => if b then x :: select keep l else select keep l
  | _, _ => []
  end.

Lemma select_snoc {A} keep b (l : list A) x :
  length keep = length l →
  select (keep ++ [b]) (l ++ [x]) = select keep l ++ (if b then [x] else []).
Proof.
  revert l. induction keep as [|c keep IH]; intros [|y l] Hl; simplify_eq/=; [by destruct b|].
  destruct c; by rewrite IH.
Qed.

Lemma select_all {A} (keep : list bool) (l : list A) :
  length keep = length l → Forall (λ b, b = true) keep → select keep l = l.
Proof.
  revert l. induction keep as [|c keep IH]; intros [|y l] Hl Hall; simplify_eq/=; [done|].
  apply Forall_cons in Hall as [-> Hall]. by rewrite IH.
Qed.

Lemma length_select_lt {A} (keep : list bool) (l : list A) :
  ¬ Forall (λ b, b = true) keep → (length (select keep l) < length keep)%nat.
Proof.
  assert (Hle : ∀ keep (l : list A), (length (select keep l) ≤ length keep)%nat).
  { clear. induction keep as [|c keep IH]; intros [|x l]; cbn; [lia..|].
    specialize (IH l). destruct c; cbn; lia. }
  revert l. induction keep as [|c keep IH]; intros l Hno; [by destruct Hno|].
  destruct l as [|x l]; cbn; [lia|]. destruct c; cbn; [|specialize (Hle keep l); lia].
  assert (length (select keep l) < length keep)%nat; [|lia].
  apply IH. intros Hall. apply Hno. by constructor.
Qed.

Lemma elem_of_select {A} keep (l : list A) x :
  x ∈ select keep l ↔ ∃ i, keep !! i = Some true ∧ l !! i = Some x.
Proof.
  revert l. induction keep as [|b keep IH]; intros l; cbn.
  - split; [by intros ?%elem_of_nil|by intros (i & ? & _)].
  - destruct l as [|y l]; [split; [by intros ?%elem_of_nil|by intros (i & _ & ?)]|].
    destruct b.
    + rewrite elem_of_cons, IH. split.
      * intros [->|(i & ? & ?)]; [by exists 0%nat|by exists (S i)].
      * intros ([|i] & ? & ?); simplify_eq/=; eauto.
    + rewrite IH. split; [intros (i & ? & ?); by exists (S i)|].
      intros ([|i] & ? & ?); simplify_eq/=; eauto.
Qed.

(** A view after some verdicts: it still is the topology, or it is a copy of the
    selected members in its own array. *)
Definition view_ok (own : backing) (all : slice) (keep : list bool) (v : slice) : Prop :=
  (Forall (λ b, b = true) keep ∧ v = all) ∨
  (¬ Forall (λ b, b = true) keep ∧ array v = own ∧
   elts v = select keep (take (length keep) (elts all))).

Lemma same_slice_refl v : sameCandidateSlice v v = true.
Proof.
  unfold sameCandidateSlice. rewrite (bool_decide_true (length _ = _)) by done.
  rewrite (bool_decide_true (array v = _)) by done. by rewrite orb_true_r.
Qed.

Lemma snapshotSubset_ok own all keep v b :
  (length keep < length (elts all))%nat →
  view_ok own all keep v →
  view_ok own all (keep ++ [b]) (snapshotSubset own v all (length keep) b).
Proof.
  intros Hlt [[Hall ->]|(Hno & Hown & Hel)].
  - unfold snapshotSubset. rewrite same_slice_refl. destruct b.
    + left. split; [|done]. apply Forall_app. auto.
    + right. split_and!; [|done|].
      * rewrite Forall_app. intros [_ Hf%Forall_inv]. done.
      * cbn [elts]. rewrite length_app. cbn.
        destruct (lookup_lt_is_Some_2 (elts all) (length keep) Hlt) as [x Hx].
        rewrite Nat.add_1_r, (take_S_r _ _ x) by done.
        rewrite select_snoc by (rewrite length_take; lia).
        rewrite app_nil_r, select_all; [done| |done]. rewrite length_take. lia.
  - assert (Hlen : (length (elts v) < length keep)%nat).
    { rewrite Hel. by apply length_select_lt. }
    unfold snapshotSubset, sameCandidateSlice. rewrite bool_decide_false by lia. cbn [andb].
    destruct (lookup_lt_is_Some_2 (elts all) (length keep) Hlt) as [x Hx].
    right. split_and!.
    + rewrite Forall_app. naive_solver.
    + destruct b; [by rewrite Hx|done].
    + rewrite length_app. cbn. rewrite Nat.add_1_r, (take_S_r _ _ x) by done.
      rewrite select_snoc by (rewrite length_take; lia). rewrite <-Hel.
      destruct b; [by rewrite Hx|by rewrite app_nil_r].
Qed.

Definition views_ok (all : slice) (vs : list verdict) (views : slice * slice * slice) : Prop :=
  let '(ms, tcp, udp) := views in
  view_ok Eligible all (v_available <$> vs) ms ∧ view_ok TcpSubset all (v_tcp <$> vs) tcp ∧
  view_ok UdpSubset all (v_udp <$> vs) udp.

Lemma publish_member_judge env now all vs s views i r :
  i = length vs → (i < length (elts all))%nat → views_ok all vs views →
  (publish_member env now all (s, views) (i, r)).1 = (judge env now r s).1 ∧
  views_ok all (vs ++ [(judge env now r s).2]) (publish_member env now all (s, views) (i, r)).2.
Proof.
  intros -> Hlt. destruct views as [[ms tcp] udp]. intros (Hm & Ht & Hu).
  unfold publish_member, judge. destruct (ensureMemberRuntime r (st_heap s)) as [rp h1].
  destruct (memberAvailableForSnapshot env _ r now) as [s2 b].
  assert (Hstep : ∀ (f : verdict → bool) own v w x,
    length vs = length (f <$> vs) →
    view_ok own all (f <$> vs) v → f w = x →
    view_ok own all (f <$> (vs ++ [w])) (snapshotSubset own v all (length vs) x)).
  { intros f own v w x Hlen Hv <-. rewrite Hlen, fmap_app. apply snapshotSubset_ok; [|done].
    by rewrite <-Hlen. }
  destruct b; cbn [negb]; (split; [done|]); split_and!;
    (eapply Hstep; [by rewrite length_fmap|eassumption|done]).
Qed.

Lemma publish_members_judge env now members s :
  (publish_members env now members s).1 = (judge_all env now members s).1 ∧
  views_ok (mkSlice Topology members) (judge_all env now members s).2
    (publish_members env now members s).2.
Proof.
  unfold publish_members. set (all := mkSlice Topology members).
  assert (Hgen : ∀ rest done_ vs s views,
    members = done_ ++ rest → length vs = length done_ → views_ok all vs views →
    let r := foldl (publish_member env now all) (s, views)
               (imap (λ i x, (length done_ + i, x)%nat) rest) in
    r.1 = (judge_all env now rest s).1 ∧ views_ok all (vs ++ (judge_all env now rest s).2) r.2).
  { induction rest as [|r rest IH]; intros done_ vs s0 views Hm Hl Hv.
    - cbn. by rewrite app_nil_r.
    - cbn [imap foldl judge_all]. rewrite Nat.add_0_r.
      destruct (publish_member_judge env now all vs s0 views (length done_) r) as [Hs Hv'].
      { done. } { unfold all. cbn. rewrite Hm, length_app. cbn. lia. } { done. }
      destruct (judge env now r s0) as [s1 v]. cbn [fst snd] in *.
      destruct (publish_member env now all (s0, views) (length done_, r)) as [s1' views'].
      cbn [fst snd] in *. subst s1'.
      specialize (IH (done_ ++ [r]) (vs ++ [v]) s1 views').
      destruct IH as [IH1 IH2]; [by rewrite <-app_assoc|rewrite !length_app; cbn; lia|done|].
      destruct (judge_all env now rest s1) as [s2 vs2]. cbn [fst snd] in *.
      rewrite <-app_assoc in IH2.
      replace (imap ((λ i x, (length done_ + i, x)%nat) ∘ S) rest)
        with (imap (λ i x, (length (done_ ++ [r]) + i, x)%nat) rest).
      2: { apply imap_ext. intros. cbn. rewrite length_app. cbn. f_equal. lia. }
      by split. }
  specialize (Hgen members [] [] s (all, all, all)). cbn zeta in Hgen. cbn [length] in Hgen.
  replace (imap pair members) with (imap (λ i x, (0 + i, x)%nat) members).
  2: { by apply imap_ext. }
  apply Hgen; [done..|]. split_and!; by left.
Qed.

(** At the end every view holds exactly its selection. *)
Lemma view_ok_elts own all keep v :
  length keep = length (elts all) → view_ok own all keep v → elts v = select keep (elts all).
Proof.
  intros Hl [[Hall ->]|(_ & _ & ->)].
  - by rewrite select_all.
  - by rewrite Hl, firstn_all.
Qed.

Lemma judge_all_length env now members s : length (judge_all env now members s).2 = length members.
Proof.
  revert s. induction members as [|r members IH]; intros s; [done|]. cbn.
  destruct (judge env now r s) as [s1 v]. specialize (IH s1).
  destruct (judge_all env now members s1). cbn in *. by rewrite IH.
Qed.

(** ** What testing members leaves alone *)
Definition ref_static (m : MemberRef) : option Z * string * option Z * MemberMeta :=
  (ref_outbound m, ref_tag m, ref_shared m, ref_meta m).

(** A member of the group [gid] that is on standby or evicted. *)
Definition barred (gid : Z) (tag : string) (w : world) : Prop :=
  ∃ rt m, groupRuntimeStore w !! gid = Some rt ∧ gr_members rt !! tag = Some m ∧
          member_admissible m = false.

Definition blacklisted_at (now : Z) (c : Z) (h : heap) : Prop :=
  sh_blacklisted (cell c h) = true ∧ blacklist_expired now (cell c h) = false.

(** Testing members only records latencies, runtimes and pins, prunes expired
    failures and clears expired blacklists. *)
Record quiet (now : Z) (s s' : state) : Prop := {
  quiet_pool : st_pool s' = st_pool s;
  quiet_refs : ∀ r, ref_static (member r (st_heap s')) = ref_static (member r (st_heap s));
  quiet_barred : ∀ gid tag, barred gid tag (st_groups s) → barred gid tag (st_groups s');
  quiet_blacklist : ∀ c, blacklisted_at now c (st_heap s) → blacklisted_at now c (st_heap s')
}.

#[global] Instance quiet_preorder now : PreOrder (quiet now).
Proof.
  split.
  - by split.
  - intros a b c [A1 A2 A3 A4] [B1 B2 B3 B4]. split; [congruence| |eauto..].
    intros r. by rewrite B2.
Qed.

Lemma member_with_ref r f h q :
  (∀ m, ref_static (f m) = ref_static m) →
  ref_static (member q (with_ref r f h)) = ref_static (member q h).
Proof.
  intros Hf. unfold member, with_ref. cbn. destruct (decide (q = r)) as [->|Hne].
  - rewrite lookup_alter_eq. destruct (refs h !! r); [apply Hf|done].
  - by rewrite lookup_alter_ne.
Qed.

Lemma cell_cells c h h' : cells h = cells h' → cell c h = cell c h'.
Proof. unfold cell. by intros ->. Qed.

Lemma cell_with_cell c f h q :
  cell q (with_cell c f h) =
  if decide (c = q ∧ is_Some (cells h !! q)) then f (cell q h) else cell q h.
Proof.
  unfold cell. rewrite with_cell_lookup. destruct (decide (c = q)) as [->|Hne].
  - destruct (cells h !! q) eqn:E; cbn.
    + rewrite decide_True; [done|]. split; [done|by eexists].
    + rewrite decide_False; [done|]. intros [_ [? ?]]. congruence.
  - rewrite decide_False; [done|naive_solver].
Qed.

Lemma quiet_heap now s f :
  (∀ r, ref_static (member r (f (st_heap s))) = ref_static (member r (st_heap s))) →
  (∀ c, blacklisted_at now c (st_heap s) → blacklisted_at now c (f (st_heap s))) →
  quiet now s (with_heap f s).
Proof. by split. Qed.

Lemma ensure_cells_blacklist now r h c :
  blacklisted_at now c h → blacklisted_at now c (ensureMemberRuntime r h).2.
Proof.
  unfold ensureMemberRuntime. destruct (ref_runtime (member r h)); [done|].
  unfold newMemberRuntime. destruct (ref_shared (member r h)) as [c'|]; [|done].
  unfold blacklisted_at, fresh. cbn [fst snd]. intros Hc.
  rewrite (cell_cells c _ (with_cell c' (add_owners 1) h)) by done.
  rewrite cell_with_cell. by destruct (decide _).
Qed.

Lemma ensure_refs r h q :
  ref_static (member q (ensureMemberRuntime r h).2) = ref_static (member q h).
Proof.
  unfold ensureMemberRuntime. destruct (ref_runtime (member r h)); [done|].
  unfold newMemberRuntime. destruct (fresh _) as [rp h2] eqn:E. cbn.
  rewrite member_with_ref by done. unfold fresh in E. simplify_eq.
  by destruct (ref_shared (member r h)).
Qed.

Lemma quiet_pin now r s :
  quiet now s (with_heap (λ _, with_runtime (ensureMemberRuntime r (st_heap s)).1
    (add_snapshotRefs 1) (ensureMemberRuntime r (st_heap s)).2) s).
Proof.
  apply (quiet_heap now s (λ _, with_runtime _ _ _)).
  - intros q. apply ensure_refs.
  - intros c Hc. apply (ensure_cells_blacklist now r) in Hc. exact Hc.
Qed.

Lemma pruneFailures_admissible window now m :
  member_admissible (pruneFailures window now m).2 = member_admissible m.
Proof. unfold pruneFailures. destruct (decide _); [done|]. cbn. by destruct (decide _). Qed.

Lemma MemberAvailable_barred gid tag now w gid' tag' :
  barred gid' tag' w → barred gid' tag' (MemberAvailable gid tag now w).1.
Proof.
  unfold MemberAvailable. intros (rt & m & Hrt & Hm & Ha).
  destruct (groupRuntimeStore w !! gid) as [rt0|] eqn:E; [|by exists rt, m].
  destruct (gr_members rt0 !! tag) as [m0|] eqn:Em; [|by exists rt, m]. cbn.
  set (m1 := if gm_evicted m0 then m0 else _).
  assert (Hm1 : member_admissible m1 = member_admissible m0).
  { unfold m1. destruct (gm_evicted m0); [done|apply pruneFailures_admissible]. }
  destruct (decide (gid = gid')) as [->|Hne].
  - simplify_eq. exists (set_member tag m1 rt). destruct (decide (tag = tag')) as [->|Hnt].
    + simplify_eq. exists m1. cbn. by rewrite !lookup_insert_eq, Hm1.
    + exists m. cbn. rewrite lookup_insert_eq, lookup_insert_ne by done. done.
  - exists rt, m. cbn. by rewrite lookup_insert_ne.
Qed.

Lemma MemberAvailable_false gid tag now w :
  barred gid tag w → (MemberAvailable gid tag now w).2 = false.
Proof.
  intros (rt & m & Hrt & Hm & Ha). unfold MemberAvailable. rewrite Hrt, Hm. cbn.
  unfold member_ready. set (m1 := if gm_evicted m then m else _).
  assert (Hm1 : member_admissible m1 = false).
  { unfold m1. destruct (gm_evicted m); [done|by rewrite pruneFailures_admissible]. }
  unfold member_admissible in Hm1. by rewrite Hm1.
Qed.

Lemma isBlacklisted_other now p c h :
  blacklisted_at now c h → blacklisted_at now c (isBlacklisted now p h).1.
Proof.
  unfold isBlacklisted, blacklisted_at. cbn. destruct (blacklist_expired now (cell p h)) eqn:E; [|done].
  intros [Hb He]. unfold on_entry.
  assert (Hc : cell c (with_cell p (λ s, set_window (sh_failures s) false GoTime.zero s) h) = cell c h).
  { rewrite cell_with_cell. destruct (decide _) as [[<- _]|]; [congruence|done]. }
  destruct (sh_entry _); cbn [fst]; [rewrite (cell_cells c _
    (with_cell p (λ s, set_window (sh_failures s) false GoTime.zero s) h)) by done|];
  by rewrite Hc.
Qed.

Lemma isBlacklisted_true now c h : blacklisted_at now c h → (isBlacklisted now c h).2 = true.
Proof. intros [Hb He]. unfold isBlacklisted. by rewrite He. Qed.

Lemma isBlacklisted_refs now p h r : member r (isBlacklisted now p h).1 = member r h.
Proof.
  unfold isBlacklisted. cbn. destruct (blacklist_expired now (cell p h)); [|done].
  unfold on_entry. by destruct (sh_entry _).
Qed.

Lemma quiet_groups now s gid tag :
  quiet now s (with_groups (λ _, (MemberAvailable gid tag now (st_groups s)).1) s).
Proof. split; [done|done|intros ??; apply MemberAvailable_barred|done]. Qed.

Lemma quiet_groupAdmits now s provisional tag : quiet now s (groupAdmits s now provisional tag).1.
Proof.
  unfold groupAdmits. destruct (decide _); [done|]. destruct provisional; [done|]. apply quiet_groups.
Qed.

Lemma quiet_notBlacklisted now s r : quiet now s (notBlacklisted s now r).1.
Proof.
  unfold notBlacklisted. destruct (ref_shared _) as [c|]; [|done].
  apply (quiet_heap now s (λ _, (isBlacklisted now c (st_heap s)).1)).
  - intros q. by rewrite isBlacklisted_refs.
  - intros q. apply isBlacklisted_other.
Qed.

Lemma quiet_groupThenBlacklist now s provisional r :
  quiet now s (groupThenBlacklist s now provisional r).1.
Proof.
  unfold groupThenBlacklist.
  pose proof (quiet_groupAdmits now s provisional (ref_tag (member r (st_heap s)))) as Hq.
  destruct (groupAdmits _ _ _ _) as [s1 []]; [|done]. cbn in *.
  etrans; [exact Hq|apply quiet_notBlacklisted].
Qed.

Lemma quiet_latency now s r ms : quiet now s (with_heap (with_ref r (set_latency ms)) s).
Proof. apply quiet_heap; [|done]. intros q. by apply member_with_ref. Qed.

Lemma quiet_memberAvailable env now s r : quiet now s (memberAvailableForSnapshot env s r now).1.
Proof.
  unfold memberAvailableForSnapshot. destruct (env_monitor env) as [mv|];
    [|apply quiet_groupThenBlacklist].
  destruct (monitorSnapshot s mv r) as [m|].
  - destruct (_ && _); [apply quiet_latency|].
    etrans; [apply quiet_latency|apply quiet_groupThenBlacklist].
  - destruct (_ && _); [done|apply quiet_groupThenBlacklist].
Qed.

Lemma judge_unfold env now r s :
  let h1 := ensureMemberRuntime r (st_heap s) in
  let s1 := with_heap (λ _, with_runtime h1.1 (add_snapshotRefs 1) h1.2) s in
  let a := memberAvailableForSnapshot env s1 r now in
  judge env now r s =
    (a.1, mkVerdict a.2 (a.2 && contains (networks_of env a.1 r) NetworkTCP)
            (a.2 && contains (networks_of env a.1 r) NetworkUDP)).
Proof.
  cbn zeta. unfold judge. destruct (ensureMemberRuntime r (st_heap s)) as [rp h1]. cbn [fst snd].
  by destruct (memberAvailableForSnapshot _ _ _ _).
Qed.

Lemma quiet_judge env now r s : quiet now s (judge env now r s).1.
Proof.
  rewrite judge_unfold. cbn [fst]. etrans; [apply quiet_pin|apply quiet_memberAvailable].
Qed.

Lemma quiet_judge_all env now members s : quiet now s (judge_all env now members s).1.
Proof.
  revert s. induction members as [|r members IH]; intros s; [done|]. cbn.
  pose proof (quiet_judge env now r s) as Hq. destruct (judge env now r s) as [s1 v].
  specialize (IH s1). destruct (judge_all env now members s1). cbn in *. by etrans.
Qed.

(** Testing and publishing never talks to the selector. *)
Lemma memberAvailable_selections env s r now :
  st_selections (memberAvailableForSnapshot env s r now).1 = st_selections s.
Proof.
  assert (Hg : ∀ s provisional, st_selections (groupThenBlacklist s now provisional r).1 = st_selections s).
  { clear s. intros s provisional. unfold groupThenBlacklist, groupAdmits.
    assert (Hb : ∀ s, st_selections (notBlacklisted s now r).1 = st_selections s).
    { clear s. intros s. unfold notBlacklisted. by destruct (ref_shared _). }
    destruct (decide _); [apply Hb|]. destruct provisional.
    - destruct (MemberNotEvicted _ _ _); [apply Hb|done].
    - destruct (MemberAvailable _ _ _ _) as [w []]; [|done]. cbn. apply (Hb (with_groups (λ _, w) s)). }
  unfold memberAvailableForSnapshot. destruct (env_monitor env) as [mv|]; [|apply Hg].
  destruct (monitorSnapshot s mv r); destruct (_ && _); try done; by rewrite Hg.
Qed.

Lemma judge_all_selections env now members s :
  st_selections (judge_all env now members s).1 = st_selections s.
Proof.
  revert s. induction members as [|r members IH]; intros s; [done|]. cbn.
  assert (Hj : st_selections (judge env now r s).1 = st_selections s).
  { rewrite judge_unfold. cbn [fst]. by rewrite memberAvailable_selections. }
  destruct (judge env now r s) as [s1 v]. specialize (IH s1).
  destruct (judge_all env now members s1). cbn in *. congruence.
Qed.

Lemma release_selections v s : st_selections (releaseSnapshotMembers v s) = st_selections s.
Proof. unfold releaseSnapshotMembers. destruct (_ !! v); [|done]. by destruct (sn_released _). Qed.

Lemma publish_selections env now members s :
  st_selections (publishSnapshotLocked env now members s) = st_selections s.
Proof.
  unfold publishSnapshotLocked. pose proof (judge_all_selections env now members s) as Hj.
  destruct (publish_members_judge env now members s) as [Hs1 _].
  destruct (publish_members env now members s) as [s1 [[ms tcp] udp]]. cbn [fst] in Hs1. subst s1.
  match goal with |- context [with_pool ?f ?s1] => set (s2 := with_pool f s1) end.
  assert (Hs2 : st_selections s2 = st_selections s) by done. clearbody s2.
  destruct (p_current (st_pool s)); [|done]. destruct (_ !! _); [|done].
  destruct (decide _); [|done]. by rewrite release_selections.
Qed.

(** ** Who may not be routed *)
Definition monitorRefuses (env : Env) (s : state) (r : Z) : Prop :=
  ∃ mv, env_monitor env = Some mv ∧
    (o_GroupID (p_options (st_pool s)) ≠ 0 ∨ mv_probeConfigured mv = true) ∧
    match monitorSnapshot s mv r with
    | Some m => mo_RoutingEligible m = false
    | None => True
    end.

Definition ineligible (env : Env) (now : Z) (s : state) (r : Z) : Prop :=
  (o_GroupID (p_options (st_pool s)) ≠ 0 ∧
   barred (o_GroupID (p_options (st_pool s))) (ref_tag (member r (st_heap s))) (st_groups s)) ∨
  (∃ c, ref_shared (member r (st_heap s)) = Some c ∧ blacklisted_at now c (st_heap s)) ∨
  monitorRefuses env s r.

Lemma quiet_tag now s s' r :
  quiet now s s' → ref_tag (member r (st_heap s')) = ref_tag (member r (st_heap s)).
Proof. intros Hq. pose proof (quiet_refs _ _ _ Hq r). unfold ref_static in *. congruence. Qed.

Lemma quiet_memberMeta now s s' r :
  quiet now s s' → memberMeta s' (Some r) = memberMeta s (Some r).
Proof.
  intros Hq. unfold memberMeta. rewrite (quiet_pool _ _ _ Hq), (quiet_tag _ _ _ r Hq).
  assert (ref_meta (member r (st_heap s')) = ref_meta (member r (st_heap s))) as ->; [|done].
  pose proof (quiet_refs _ _ _ Hq r). unfold ref_static in *. congruence.
Qed.

Lemma quiet_monitorSnapshot now s s' mv r :
  quiet now s s' → monitorSnapshot s' mv r = monitorSnapshot s mv r.
Proof.
  intros Hq. unfold monitorSnapshot.
  by rewrite (quiet_memberMeta _ _ _ r Hq), (quiet_pool _ _ _ Hq), (quiet_tag _ _ _ r Hq).
Qed.

Lemma quiet_ineligible env now s s' r :
  quiet now s s' → ineligible env now s r → ineligible env now s' r.
Proof.
  intros Hq. unfold ineligible, monitorRefuses. rewrite (quiet_pool _ _ _ Hq), (quiet_tag _ _ _ r Hq).
  assert (ref_shared (member r (st_heap s')) = ref_shared (member r (st_heap s))) as ->.
  { pose proof (quiet_refs _ _ _ Hq r). unfold ref_static in *. congruence. }
  intros [[Hg Hb]|[(c & Hc & Hb)|(mv & Hm & Hp & Hr)]].
  - left. split; [done|]. by apply (quiet_barred _ _ _ Hq).
  - right; left. exists c. split; [done|]. by apply (quiet_blacklist _ _ _ Hq).
  - right; right. exists mv. by rewrite (quiet_monitorSnapshot _ _ _ mv r Hq).
Qed.

Lemma groupAdmits_barred now s provisional tag :
  o_GroupID (p_options (st_pool s)) ≠ 0 →
  barred (o_GroupID (p_options (st_pool s))) tag (st_groups s) →
  (groupAdmits s now provisional tag).2 = false.
Proof.
  intros Hg Hb. unfold groupAdmits. rewrite decide_False by done. destruct provisional; cbn.
  - destruct Hb as (rt & m & Hrt & Hm & Ha). unfold MemberNotEvicted. by rewrite Hrt, Hm.
  - by apply MemberAvailable_false.
Qed.

Lemma groupThenBlacklist_false now s provisional r :
  (o_GroupID (p_options (st_pool s)) ≠ 0 ∧
   barred (o_GroupID (p_options (st_pool s))) (ref_tag (member r (st_heap s))) (st_groups s)) ∨
  (∃ c, ref_shared (member r (st_heap s)) = Some c ∧ blacklisted_at now c (st_heap s)) →
  (groupThenBlacklist s now provisional r).2 = false.
Proof.
  intros Hbad. unfold groupThenBlacklist.
  set (tag := ref_tag (member r (st_heap s))) in *.
  assert (Hh : st_heap (groupAdmits s now provisional tag).1 = st_heap s).
  { unfold groupAdmits. destruct (decide _); [done|]. by destruct provisional. }
  pose proof (groupAdmits_barred now s provisional tag) as Hadm.
  destruct (groupAdmits s now provisional tag) as [s1 [|]]; [|done]. cbn in *.
  destruct Hbad as [[Hg Hb]|(c & Hc & Hb)]; [by specialize (Hadm Hg Hb)|].
  unfold notBlacklisted. rewrite Hh, Hc. cbn zeta. cbn [snd]. by rewrite isBlacklisted_true.
Qed.

Lemma memberAvailable_ineligible env now s r :
  ineligible env now s r → (memberAvailableForSnapshot env s r now).2 = false.
Proof.
  intros Hi. unfold memberAvailableForSnapshot. destruct (env_monitor env) as [mv|] eqn:Emv.
  2: { apply groupThenBlacklist_false. destruct Hi as [?|[?|(mv & ? & _)]]; [by left|by right|congruence]. }
  destruct (_ && _) eqn:Erefuse; [done|].
  assert (Hnm : ¬ monitorRefuses env s r).
  { intros (mv' & Hmv' & Hp & Hr). assert (mv' = mv) as -> by congruence. apply andb_false_iff in Erefuse as [He|He].
    - apply orb_false_iff in He as [He1 He2]. rewrite negb_false_iff, bool_decide_eq_true in He1.
      destruct Hp; congruence.
    - rewrite negb_false_iff in He. destruct (monitorSnapshot s mv r); congruence. }
  apply groupThenBlacklist_false.
  assert (Hq : quiet now s match monitorSnapshot s mv r with
    | Some m => with_heap (with_ref r (set_latency (mo_LastLatencyMs m))) s | None => s end).
  { destruct (monitorSnapshot s mv r); [apply quiet_latency|done]. }
  pose proof (quiet_ineligible env now _ _ r Hq Hi) as Hi'.
  destruct Hi' as [?|[?|(mv' & ? & Hp & Hr)]]; [by left|by right|].
  destruct Hnm. exists mv'. rewrite (quiet_pool _ _ _ Hq) in Hp.
  by rewrite (quiet_monitorSnapshot _ _ _ mv' r Hq) in Hr.
Qed.

Lemma judge_ineligible env now r s :
  ineligible env now s r → (judge env now r s).2 = mkVerdict false false false.
Proof.
  intros Hi. rewrite judge_unfold. cbn [snd].
  rewrite memberAvailable_ineligible; [done|]. eapply quiet_ineligible; [apply quiet_pin|done].
Qed.

Lemma judge_all_ineligible env now members s i r v :
  members !! i = Some r → (judge_all env now members s).2 !! i = Some v →
  ineligible env now s r → v = mkVerdict false false false.
Proof.
  revert s i. induction members as [|q members IH]; intros s i Hr Hv Hi; [done|]. cbn in Hv.
  pose proof (quiet_judge env now q s) as Hq. pose proof (judge_ineligible env now q s) as Hj.
  destruct (judge env now q s) as [s1 w]. specialize (IH s1).
  destruct (judge_all env now members s1) as [s2 vs]. cbn in *.
  destruct i as [|i]; simplify_eq/=; [by apply Hj|].
  eapply IH; [done..|]. by eapply quiet_ineligible.
Qed.

(** A network verdict implies availability. *)
Lemma judge_all_network env now members s :
  Forall (λ v, (v_tcp v = true → v_available v = true) ∧ (v_udp v = true → v_available v = true))
    (judge_all env now members s).2.
Proof.
  revert s. induction members as [|r members IH]; intros s; cbn; [constructor|].
  pose proof (judge_unfold env now r s) as Hj. cbn zeta in Hj.
  destruct (judge env now r s) as [s1 v]. specialize (IH s1).
  destruct (judge_all env now members s1) as [s2 vs]. cbn in *. constructor; [|done].
  simplify_eq. cbn. rewrite !andb_true_iff. naive_solver.
Qed.

(** ** The latency order *)
Definition latency_rank (s : state) (r : Z) : Z * Z * Z * string :=
  let ms := ref_latencyMs (member r (st_heap s)) in
  ((if bool_decide (0 < ms) then 0 else 1), (if bool_decide (0 < ms) then ms else 0),
   mm_NodeID (memberMeta s (Some r)), ref_tag (member r (st_heap s))).

Definition rank_le (a b : Z * Z * Z * string) : Prop :=
  let '(a1, a2, a3, a4) := a in let '(b1, b2, b3, b4) := b in
  a1 < b1 ∨ (a1 = b1 ∧ (a2 < b2 ∨ (a2 = b2 ∧ (a3 < b3 ∨ (a3 = b3 ∧ String.le a4 b4))))).

Lemma rank_le_total a b : rank_le a b ∨ rank_le b a.
Proof.
  destruct a as [[[a1 a2] a3] a4], b as [[[b1 b2] b3] b4]. cbn.
  destruct (Z.lt_trichotomy a1 b1) as [?|[->|?]]; [by left; left| |by right; left].
  destruct (Z.lt_trichotomy a2 b2) as [?|[->|?]];
    [by left; right; split; [|left]| |by right; right; split; [|left]].
  destruct (Z.lt_trichotomy a3 b3) as [?|[->|?]];
    [left|destruct (total String.le a4 b4); [left|right]|right];
    (right; split; [done|]; right; split; [done|]); [by left|by right..|by left].
Qed.

Lemma rank_le_trans a b c : rank_le a b → rank_le b c → rank_le a c.
Proof.
  destruct a as [[[a1 a2] a3] a4], b as [[[b1 b2] b3] b4], c as [[[c1 c2] c3] c4]. cbn.
  assert (Htr : String.le a4 b4 → String.le b4 c4 → String.le a4 c4) by (intros; by etrans).
  intros [?|(? & [?|(? & [?|[? ?]])])] [?|(? & [?|(? & [?|[? ?]])])]; first
    [ left; lia | right; split; [lia|]; first
    [ left; lia | right; split; [lia|]; first
    [ left; lia | right; split; [lia|auto] ]]].
Qed.

(** The comparison is the lexicographic order on: known latencies first, then
    latency, node id and tag. *)
Lemma latency_le_rank s l r : latency_le s l r ↔ rank_le (latency_rank s l) (latency_rank s r).
Proof.
  unfold latency_le, latencyMemberLess, rank_le, latency_rank.
  set (ll := ref_latencyMs (member l _)). set (lr := ref_latencyMs (member r _)).
  set (il := mm_NodeID (memberMeta s (Some l))). set (ir := mm_NodeID (memberMeta s (Some r))).
  set (tl := ref_tag (member l _)). set (tr := ref_tag (member r _)).
  repeat case_bool_decide; cbn; try (split; intros; (lia || done || naive_solver lia)).
Qed.

#[global] Instance latency_le_total s : Total (latency_le s).
Proof. intros l r. rewrite !latency_le_rank. apply rank_le_total. Qed.
#[global] Instance latency_le_trans s : Transitive (latency_le s).
Proof. intros a b c. rewrite !latency_le_rank. apply rank_le_trans. Qed.

(** ** The index maps *)
Definition index_exact (index : gmap Z nat) (members : list Z) : Prop :=
  ∀ r i, index !! r = Some i ↔ members !! i = Some r.

Lemma snapshotMemberIndex_elts v w : elts v = elts w → snapshotMemberIndex v = snapshotMemberIndex w.
Proof. unfold snapshotMemberIndex. by intros ->. Qed.

Lemma snapshotMemberIndex_exact v : NoDup (elts v) → index_exact (snapshotMemberIndex v) (elts v).
Proof.
  intros Hnd r i. unfold snapshotMemberIndex. set (l := imap _ _).
  assert (Hl : l.*1 = elts v).
  { unfold l. rewrite fmap_imap. apply list_eq. intros k. rewrite list_lookup_imap.
    by destruct (elts v !! k). }
  rewrite <-elem_of_list_to_map by (by rewrite fmap_reverse, Hl, reverse_Permutation).
  rewrite elem_of_reverse. unfold l. rewrite elem_of_lookup_imap. split.
  - intros (k & x & ? & ?). by simplify_eq.
  - intros Hi. by exists i, r.
Qed.

Lemma snapshotNetworkIndex_spec members existing :
  let r := snapshotNetworkIndex members existing (snapshotMemberIndex existing) in
  elts r.1 = elts members ∧ r.2 = snapshotMemberIndex r.1.
Proof. cbn zeta. unfold snapshotNetworkIndex. by destruct (decide _). Qed.

(** What selection relies on about a published snapshot. *)
Record snapshot_ok (snap : PoolSnapshot) : Prop := {
  ok_members : index_exact (sn_memberIndex snap) (elts (sn_Members snap));
  ok_tcp : index_exact (sn_tcpIndex snap) (elts (sn_tcpMembers snap));
  ok_udp : index_exact (sn_udpIndex snap) (elts (sn_udpMembers snap));
  ok_all : NoDup (elts (sn_allMembers snap));
  ok_alias : ∀ v w,
    v ∈ [sn_Members snap; sn_tcpMembers snap; sn_udpMembers snap] →
    w ∈ [sn_Members snap; sn_tcpMembers snap; sn_udpMembers snap] →
    sameCandidateSlice v w = true → elts v = elts w
}.

Lemma select_submseteq {A} keep (l : list A) : sublist (select keep l) l.
Proof.
  revert l. induction keep as [|b keep IH]; intros l; [apply sublist_nil_l|].
  destruct l as [|x l]; [constructor|]. destruct b; cbn; constructor; apply IH.
Qed.

Lemma NoDup_select {A} keep (l : list A) : NoDup l → NoDup (select keep l).
Proof. intros Hnd. eapply sublist_NoDup; [exact Hnd|apply select_submseteq]. Qed.

(** A network view after the optional sort. *)
Definition network_view (s : state) (own : backing) (v : slice) : slice :=
  if decide (p_mode (st_pool s) = modeLowestLatency) then sorted_view s own v else v.

Lemma network_view_perm s own v : elts (network_view s own v) ≡ₚ elts v.
Proof. unfold network_view. destruct (decide _); [apply merge_sort_Permutation|done]. Qed.

Lemma build_snapshot_views s version all ms tcp udp :
  let snap := build_snapshot s version all ms tcp udp in
  sn_Members snap = ms ∧ sn_allMembers snap = all ∧ sn_Version snap = version ∧
  sn_mode snap = p_mode (st_pool s) ∧
  sn_accepting snap = true ∧ sn_readers snap = 0 ∧ sn_released snap = false ∧
  elts (sn_tcpMembers snap) = elts (network_view s TcpSorted tcp) ∧
  elts (sn_udpMembers snap) = elts (network_view s UdpSorted udp) ∧
  sn_memberIndex snap = snapshotMemberIndex (sn_Members snap) ∧
  sn_tcpIndex snap = snapshotMemberIndex (sn_tcpMembers snap) ∧
  sn_udpIndex snap = snapshotMemberIndex (sn_udpMembers snap).
Proof.
  cbn zeta. unfold build_snapshot, network_view.
  set (views := if decide _ then _ else (tcp, udp)).
  assert (Hv : views = (network_view s TcpSorted tcp, network_view s UdpSorted udp)).
  { unfold views, network_view. by destruct (decide _). }
  rewrite Hv. fold (network_view s TcpSorted tcp) (network_view s UdpSorted udp).
  destruct (snapshotNetworkIndex_spec (network_view s TcpSorted tcp) ms) as [Ht1 Ht2].
  destruct (snapshotNetworkIndex _ ms _) as [tcp2 tcpIndex]. cbn [fst snd] in *. subst tcpIndex.
  destruct (snapshotNetworkIndex_spec (network_view s UdpSorted udp) tcp2) as [Hu1 Hu2].
  destruct (snapshotNetworkIndex _ tcp2 _) as [udp2 udpIndex]. cbn [fst snd] in *. subst udpIndex.
  destruct (decide (elts udp2 = elts ms)) as [He|]; cbn; split_and!; try done. by rewrite <-He.
Qed.

(** The slices of a snapshot come from the three views it was built from. *)
Lemma build_snapshot_slices s version all ms tcp udp :
  let snap := build_snapshot s version all ms tcp udp in
  let views := [ms; network_view s TcpSorted tcp; network_view s UdpSorted udp] in
  ∀ v, v ∈ [sn_Members snap; sn_tcpMembers snap; sn_udpMembers snap] → v ∈ views.
Proof.
  cbn zeta. unfold build_snapshot, network_view.
  destruct (decide (p_mode (st_pool s) = modeLowestLatency));
    unfold snapshotNetworkIndex; repeat destruct (decide (_ = _)); cbn; set_solver.
Qed.

(** Two views share an array only if both still are the topology. *)
Definition own_array (all : slice) (owns : list backing) (v : slice) : Prop :=
  (array v = Topology ∧ elts v = elts all) ∨ array v ∈ owns.

Lemma view_own_array own all keep v : array all = Topology → view_ok own all keep v → own_array all [own] v.
Proof. intros Ha [[_ ->]|(_ & Hown & _)]; [by left|right; set_solver]. Qed.

Lemma own_arrays_alias all owns_v owns_w v w :
  own_array all owns_v v → own_array all owns_w w →
  Topology ∉ owns_v → Topology ∉ owns_w → (∀ b, b ∈ owns_v → b ∈ owns_w → False) →
  sameCandidateSlice v w = true → elts v = elts w.
Proof.
  intros Hv Hw Nv Nw Hdisj. unfold sameCandidateSlice.
  rewrite andb_true_iff, orb_true_iff, !bool_decide_eq_true. intros [Hlen [Hnil|Harr]].
  - rewrite Hnil in *. symmetry. by apply nil_length_inv.
  - destruct Hv as [[Hv ->]|Hv], Hw as [[Hw ->]|Hw]; [done|congruence..|].
    rewrite Harr in Hv. by destruct (Hdisj _ Hv Hw).
Qed.

(** ** The published snapshot *)
Record snapshots_wf (p : poolOutbound) : Prop := {
  wf_current : ∀ v, p_current p = Some v → is_Some (p_snapshots p !! v);
  wf_version : ∀ v snap, p_snapshots p !! v = Some snap → sn_Version snap = v ∧ 0 ≤ v < 2 ^ 64
}.

Definition published (env : Env) (now : Z) (members : list Z) (s : state) : PoolSnapshot :=
  let r := publish_members env now members s in
  build_snapshot r.1 (next_version (st_pool s)) (mkSlice Topology members)
    r.2.1.1 r.2.1.2 r.2.2.

Lemma next_version_fresh p v :
  snapshots_wf p → p_current p = Some v → next_version p ≠ v ∧ 0 ≤ next_version p < 2 ^ 64.
Proof.
  intros [Hc Hv] E. destruct (Hc _ E) as [snap Hs]. destruct (Hv _ _ Hs) as [Hver Hb].
  unfold next_version, current_snapshot. rewrite E. cbn. rewrite Hs, Hver.
  split; [|apply Z.mod_pos_bound; lia].
  destruct (decide (v = 2 ^ 64 - 1)) as [->|Hne]; [by vm_compute|].
  rewrite Z.mod_small; lia.
Qed.

Lemma releaseSnapshotMembers_pool version s :
  p_current (st_pool (releaseSnapshotMembers version s)) = p_current (st_pool s) ∧
  ∀ v, v ≠ version → p_snapshots (st_pool (releaseSnapshotMembers version s)) !! v =
                     p_snapshots (st_pool s) !! v.
Proof.
  unfold releaseSnapshotMembers. destruct (p_snapshots (st_pool s) !! version) as [snap|]; [|done].
  destruct (sn_released snap); [done|]. split; [done|]. intros v Hv. cbn.
  by rewrite lookup_alter_ne.
Qed.

Lemma publish_current env now members s :
  snapshots_wf (st_pool s) →
  current_snapshot (st_pool (publishSnapshotLocked env now members s)) =
    Some (published env now members s) ∧
  p_current (st_pool (publishSnapshotLocked env now members s)) = Some (next_version (st_pool s)).
Proof.
  intros Hwf. unfold publishSnapshotLocked, published.
  destruct (publish_members env now members s) as [s1 [[ms tcp] udp]]. cbn [fst snd].
  set (version := next_version (st_pool s)).
  set (snap := build_snapshot s1 version _ ms tcp udp).
  set (s2 := with_pool _ s1).
  assert (H2 : p_current (st_pool s2) = Some version ∧ p_snapshots (st_pool s2) !! version = Some snap).
  { split; [done|]. unfold s2. cbn. by rewrite lookup_insert_eq. }
  destruct H2 as [Hc Hs]. clearbody s2 snap. unfold current_snapshot.
  destruct (p_current (st_pool s)) as [v|] eqn:E; [|by rewrite Hc; cbn; rewrite Hs].
  destruct (p_snapshots (st_pool s2) !! v) as [old|]; [|by rewrite Hc; cbn; rewrite Hs].
  destruct (decide _); [|by rewrite Hc; cbn; rewrite Hs].
  destruct (releaseSnapshotMembers_pool v s2) as [-> Hne]. rewrite Hc. cbn.
  rewrite Hne; [by rewrite Hs|]. by apply next_version_fresh.
Qed.

(** The three views before the sort are the selections by the verdicts. *)
Lemma published_selections env now members s :
  let vs := (judge_all env now members s).2 in
  let r := publish_members env now members s in
  elts r.2.1.1 = select (v_available <$> vs) members ∧
  elts r.2.1.2 = select (v_tcp <$> vs) members ∧
  elts r.2.2 = select (v_udp <$> vs) members.
Proof.
  cbn zeta. destruct (publish_members_judge env now members s) as [_ Hv].
  destruct (publish_members env now members s) as [s1 [[ms tcp] udp]]. cbn [fst snd] in *.
  destruct Hv as (Hm & Ht & Hu). pose proof (judge_all_length env now members s) as Hl.
  split_and!; (eapply (view_ok_elts _ (mkSlice Topology members)); [|eassumption]);
    by rewrite length_fmap.
Qed.

Lemma published_alias env now members s v w :
  let snap := published env now members s in
  v ∈ [sn_Members snap; sn_tcpMembers snap; sn_udpMembers snap] →
  w ∈ [sn_Members snap; sn_tcpMembers snap; sn_udpMembers snap] →
  sameCandidateSlice v w = true → elts v = elts w.
Proof.
  cbn zeta. unfold published. destruct (publish_members_judge env now members s) as [_ Hok].
  destruct (publish_members env now members s) as [s1 [[ms tcp] udp]]. cbn [fst snd] in *.
  destruct Hok as (Hm & Ht & Hu).
  apply view_own_array in Hm; [|done]. apply view_own_array in Ht; [|done].
  apply view_own_array in Hu; [|done]. set (all := mkSlice Topology members) in *.
  assert (Ht' : own_array all [TcpSubset; TcpSorted] (network_view s1 TcpSorted tcp)).
  { unfold network_view, own_array in *. destruct (decide _); [right; cbn|]; set_solver. }
  assert (Hu' : own_array all [UdpSubset; UdpSorted] (network_view s1 UdpSorted udp)).
  { unfold network_view, own_array in *. destruct (decide _); [right; cbn|]; set_solver. }
  intros Hv%build_snapshot_slices Hw%build_snapshot_slices.
  rewrite !elem_of_cons, elem_of_nil in Hv, Hw.
  destruct Hv as [->|[->|[->|[]]]], Hw as [->|[->|[->|[]]]]; try done;
    (eapply own_arrays_alias; [eassumption..|set_solver|set_solver|set_solver]).
Qed.

Lemma published_ok env now members s :
  NoDup members → snapshot_ok (published env now members s).
Proof.
  intros Hnd. pose proof (published_alias env now members s) as Halias. unfold published in *.
  destruct (publish_members env now members s) as [s1 [[ms tcp] udp]] eqn:E. cbn [fst snd].
  destruct (published_selections env now members s) as (Hm & Ht & Hu).
  rewrite E in Hm, Ht, Hu. cbn [fst snd] in *.
  destruct (build_snapshot_views s1 (next_version (st_pool s)) (mkSlice Topology members) ms tcp udp)
    as (H1 & H2 & _ & _ & _ & _ & _ & H3 & H4 & H5 & H6 & H7).
  set (snap := build_snapshot _ _ _ _ _ _) in *.
  split.
  - rewrite H5. apply snapshotMemberIndex_exact. rewrite H1, Hm. by apply NoDup_select.
  - rewrite H6. apply snapshotMemberIndex_exact. rewrite H3, network_view_perm, Ht. by apply NoDup_select.
  - rewrite H7. apply snapshotMemberIndex_exact. rewrite H4, network_view_perm, Hu. by apply NoDup_select.
  - by rewrite H2.
  - exact Halias.
Qed.

(** *** What the slices of a snapshot share *)
(** The array a view owns once it is no longer the topology: the copy made at
    its first exclusion, or the clone that is sorted. *)
Definition subset_array (mode : string) (own sorted : backing) : backing :=
  if decide (mode = modeLowestLatency) then sorted else own.

(** The topology is one array; the full view is that very slice until a member
    is excluded and a copy of its own afterwards; a network view that lists what
    the full view lists is the full view, the UDP view that lists what the TCP
    view lists is the TCP view, and any other network view has its own array. *)
Record slices_shared (mode : string) (vs : list verdict) (snap : PoolSnapshot) : Prop := {
  shared_all : array (sn_allMembers snap) = Topology;
  shared_members : sn_Members snap =
    if forallb v_available vs then sn_allMembers snap
    else mkSlice Eligible (elts (sn_Members snap));
  shared_tcp : elts (sn_tcpMembers snap) = elts (sn_Members snap) →
    sn_tcpMembers snap = sn_Members snap;
  own_tcp : elts (sn_tcpMembers snap) ≠ elts (sn_Members snap) →
    array (sn_tcpMembers snap) = subset_array mode TcpSubset TcpSorted;
  shared_udp : elts (sn_udpMembers snap) = elts (sn_Members snap) →
    sn_udpMembers snap = sn_Members snap;
  shared_udp_tcp : elts (sn_udpMembers snap) = elts (sn_tcpMembers snap) →
    sn_udpMembers snap = sn_tcpMembers snap;
  own_udp : elts (sn_udpMembers snap) ≠ elts (sn_Members snap) →
    elts (sn_udpMembers snap) ≠ elts (sn_tcpMembers snap) →
    array (sn_udpMembers snap) = subset_array mode UdpSubset UdpSorted
}.

Lemma judge_all_available env now members s :
  Forall (λ v, (v_tcp v = true → v_available v = true) ∧ (v_udp v = true → v_available v = true))
    (judge_all env now members s).2.
Proof.
  revert s. induction members as [|r members IH]; intros s; cbn; [constructor|].
  unfold judge. destruct (ensureMemberRuntime r (st_heap s)) as [rp h1].
  destruct (memberAvailableForSnapshot env _ r now) as [s2 b]. specialize (IH s2).
  destruct (judge_all env now members s2) as [s3 vs]. cbn. constructor; [|exact IH].
  cbn. destruct b; auto.
Qed.

(** A network view that still is the topology excludes nobody, so the full view
    still is the topology too. *)
Lemma network_view_array s all vs own sorted (f : verdict → bool) ms v :
  Forall (λ w, f w = true → v_available w = true) vs →
  view_ok Eligible all (v_available <$> vs) ms → view_ok own all (f <$> vs) v →
  elts (network_view s sorted v) ≠ elts ms →
  array (network_view s sorted v) = subset_array (p_mode (st_pool s)) own sorted.
Proof.
  intros Hf Hms Hv. unfold network_view, subset_array. destruct (decide _); [done|].
  destruct Hv as [[Hall ->]|(_ & -> & _)]; [|done]. destruct Hms as [[_ ->]|[Hno _]]; [done|].
  destruct Hno. rewrite Forall_fmap in *. eapply Forall_impl; [exact (proj2 (Forall_and _ _) (conj Hf Hall))|].
  cbn. naive_solver.
Qed.

Lemma published_sharing env now members s :
  slices_shared (p_mode (st_pool s)) (judge_all env now members s).2 (published env now members s).
Proof.
  unfold published. destruct (publish_members_judge env now members s) as [Hs1 Hok].
  pose proof (quiet_pool _ _ _ (quiet_judge_all env now members s)) as Hp.
  pose proof (judge_all_available env now members s) as Hav.
  destruct (publish_members env now members s) as [s1 [[ms tcp] udp]]. cbn [fst snd] in *.
  rewrite <-Hs1 in Hp. destruct Hok as (Hm & Ht & Hu).
  set (vs := (judge_all env now members s).2) in *. set (all := mkSlice Topology members) in *.
  pose proof (network_view_array s1 all vs TcpSubset TcpSorted v_tcp ms tcp) as Hat.
  pose proof (network_view_array s1 all vs UdpSubset UdpSorted v_udp ms udp) as Hau.
  rewrite Hp in Hat, Hau.
  assert (Hms : ms = if forallb v_available vs then all else mkSlice Eligible (elts ms)).
  { destruct Hm as [[Hall ->]|(Hno & Hown & _)].
    - rewrite (proj2 (forallb_forall _ _)); [done|]. intros v Hv%list_elem_of_In.
      rewrite Forall_fmap, Forall_forall in Hall. by apply Hall.
    - destruct (forallb v_available vs) eqn:E; [|destruct ms; cbn in *; by subst].
      destruct Hno. rewrite forallb_forall in E. apply Forall_fmap, Forall_forall. intros x Hx. cbn.
      apply E. by apply list_elem_of_In. }
  specialize (Hat ltac:(eapply Forall_impl; [exact Hav|naive_solver]) Hm Ht).
  specialize (Hau ltac:(eapply Forall_impl; [exact Hav|naive_solver]) Hm Hu).
  clear Hm Ht Hu Hs1 Hav. unfold build_snapshot.
  assert (Hviews : (if decide (p_mode (st_pool s1) = modeLowestLatency)
    then (sorted_view s1 TcpSorted tcp, sorted_view s1 UdpSorted udp) else (tcp, udp)) =
    (network_view s1 TcpSorted tcp, network_view s1 UdpSorted udp)).
  { unfold network_view. by destruct (decide _). }
  rewrite Hviews. generalize dependent (network_view s1 TcpSorted tcp). intros t Hat _.
  generalize dependent (network_view s1 UdpSorted udp). intros u Hau.
  unfold snapshotNetworkIndex. cbn zeta.
  destruct (decide (elts t = elts ms)); destruct (decide (elts u = _));
    repeat (destruct (decide (elts _ = elts _))); constructor; cbn; try done; try congruence; auto.
Qed.

(** C4: the copy-on-exclusion builder publishes exactly the intended views.
    After a publication the current snapshot accepts readers, its version is the
    successor of the previous one, its full view is the topology, and each view
    lists, in topology order, the members its verdict selects (availability, and
    availability with the network supported); in lowest-latency mode the network
    views are the same members sorted by latency. The three index maps give the
    position of every member of their view and of nothing else. The slices share
    as the code has it ([slices_shared]: the topology's array until the first
    exclusion, one slice for views that list the same members, an array of their
    own otherwise), so views whose slices the data path takes for the same
    ([sameCandidateSlice]) list the same members. *)
Theorem published_views_are_exact env now members s :
  snapshots_wf (st_pool s) → NoDup members →
  let vs := (judge_all env now members s).2 in
  ∃ snap s1, current_snapshot (st_pool (publishSnapshotLocked env now members s)) = Some snap ∧
    s1 = (judge_all env now members s).1 ∧
    sn_Version snap = next_version (st_pool s) ∧
    sn_accepting snap = true ∧ sn_readers snap = 0 ∧ elts (sn_allMembers snap) = members ∧
    elts (sn_Members snap) = select (v_available <$> vs) members ∧
    (if decide (p_mode (st_pool s) = modeLowestLatency) then
       elts (sn_tcpMembers snap) ≡ₚ select (v_tcp <$> vs) members ∧
       StronglySorted (latency_le s1) (elts (sn_tcpMembers snap)) ∧
       elts (sn_udpMembers snap) ≡ₚ select (v_udp <$> vs) members ∧
       StronglySorted (latency_le s1) (elts (sn_udpMembers snap))
     else elts (sn_tcpMembers snap) = select (v_tcp <$> vs) members ∧
          elts (sn_udpMembers snap) = select (v_udp <$> vs) members) ∧
    index_exact (sn_memberIndex snap) (elts (sn_Members snap)) ∧
    index_exact (sn_tcpIndex snap) (elts (sn_tcpMembers snap)) ∧
    index_exact (sn_udpIndex snap) (elts (sn_udpMembers snap)) ∧
    slices_shared (p_mode (st_pool s)) vs snap ∧
    (∀ v w, v ∈ [sn_Members snap; sn_tcpMembers snap; sn_udpMembers snap] →
            w ∈ [sn_Members snap; sn_tcpMembers snap; sn_udpMembers snap] →
            sameCandidateSlice v w = true → elts v = elts w).
Proof.
  intros Hwf Hnd. cbn zeta. pose proof (published_sharing env now members s) as Hshare.
  destruct (publish_current env now members s Hwf) as [Hcur _].
  exists (published env now members s), (judge_all env now members s).1.
  destruct (published_ok env now members s Hnd) as [Hi1 Hi2 Hi3 _ Halias].
  destruct (published_selections env now members s) as (Hm & Ht & Hu).
  destruct (publish_members_judge env now members s) as [Hs1 _].
  pose proof (quiet_pool _ _ _ (quiet_judge_all env now members s)) as Hp.
  unfold published in *. destruct (publish_members env now members s) as [s1 [[ms tcp] udp]].
  cbn [fst snd] in *. subst s1. set (s1 := (judge_all env now members s).1) in *.
  destruct (build_snapshot_views s1 (next_version (st_pool s)) (mkSlice Topology members) ms tcp udp)
    as (H1 & H2 & H3 & _ & H4 & H5 & _ & Hvt & Hvu & _).
  set (snap := build_snapshot _ _ _ _ _ _) in *.
  assert (Hmem : elts (sn_Members snap) = select (v_available <$> (judge_all env now members s).2) members)
    by by rewrite H1.
  split_and!; try done; [by rewrite H2|].
  unfold network_view, sorted_view in Hvt, Hvu. rewrite Hp in Hvt, Hvu.
  destruct (decide (p_mode (st_pool s) = modeLowestLatency)).
  - rewrite Hvt, Hvu. cbn [elts]. rewrite <-Ht, <-Hu.
    split_and!; first [apply merge_sort_Permutation | by apply (StronglySorted_merge_sort _)].
  - by rewrite Hvt, Hvu.
Qed.

(** C5: no published view ever contains a member that must not be routed. For
    every group world, monitor and heap, a member of any of the three views
    belongs to the topology, is neither evicted nor on standby in its group, is
    not blacklisted at the time of the publication, and is routing eligible for
    the monitor whenever the monitor's verdict is required. *)
Theorem routed_members_are_eligible env now members s snap r :
  snapshots_wf (st_pool s) → NoDup members →
  current_snapshot (st_pool (publishSnapshotLocked env now members s)) = Some snap →
  r ∈ elts (sn_Members snap) ∨ r ∈ elts (sn_tcpMembers snap) ∨ r ∈ elts (sn_udpMembers snap) →
  r ∈ members ∧ ¬ ineligible env now s r.
Proof.
  intros Hwf Hnd Hcur Hr. destruct (publish_current env now members s Hwf) as [Hcur' _].
  assert (snap = published env now members s) as -> by congruence. clear Hcur Hcur'.
  destruct (published_selections env now members s) as (Hm & Ht & Hu).
  set (vs := (judge_all env now members s).2) in *.
  assert (Hsel : ∃ f : verdict → bool, f (mkVerdict false false false) = false ∧
                   r ∈ select (f <$> vs) members).
  { unfold published in Hr.
    destruct (publish_members env now members s) as [s1 [[ms tcp] udp]]. cbn [fst snd] in *.
    destruct (build_snapshot_views s1 (next_version (st_pool s)) (mkSlice Topology members) ms tcp udp)
      as (H1 & _ & _ & _ & _ & _ & _ & Hvt & Hvu & _).
    rewrite H1, Hvt, Hvu, !network_view_perm, Hm, Ht, Hu in Hr.
    destruct Hr as [?|[?|?]]; eexists; (split; [|eassumption]); done. }
  destruct Hsel as (f & Hf & Hin). apply elem_of_select in Hin as (i & Hi & Hri).
  split; [by eapply list_elem_of_lookup_2|]. intros Hbad.
  rewrite list_lookup_fmap in Hi. destruct (vs !! i) as [v|] eqn:Hv; simplify_eq/=.
  rewrite (judge_all_ineligible env now members s i r v Hri Hv Hbad) in *. congruence.
Qed.

(** A pool of group 7 with three members: "a" is healthy, "b" was evicted, "c"
    has a blacklisted cell. *)
Module PoolExample.
#[local] Instance order_Z : RangeOrder Z := default_range_order Z.
#[local] Instance order_string : RangeOrder string := default_range_order string.

Definition now : Z := GoTime.ofUnix 1000.
Definition meta (id : Z) : MemberMeta := mkMeta id "" "" "" "" 0 "" "".
Definition initial (id : Z) (evicted : bool) : GroupInitialState :=
  mkInitial false id [] evicted "" GoTime.zero 0.

Definition options (mode : string) (gid : Z) : Options :=
  normalizeOptions (mkOptions 0 None mode ["a"; "b"; "c"] 3 60
    {["a" := meta 11; "b" := meta 12; "c" := meta 13]} gid 300 0 ""
    {["a" := initial 11 false; "b" := initial 12 true; "c" := initial 13 false]}
    "" false false 0 0).

Definition groups : world :=
  (Register 7 0 3 "" (o_InitialGroupState (options "sequential" 7)) None now empty_world).1.

(** Outbounds 101, 102 and 103; "c" only speaks UDP. *)
Definition env : Env :=
  mkEnv None (λ tag, if decide (tag = "a") then Some 101 else if decide (tag = "b") then Some 102
                     else if decide (tag = "c") then Some 103 else None)
    (λ _, false) (λ ob, if decide (ob = 103) then [NetworkUDP] else [NetworkTCP; NetworkUDP])
    (λ _ _, true).

Definition add_ref (tag : string) (ob id : Z) (h : heap) : Z * heap :=
  let '(p, h1) := acquireSharedState tag h in
  let '(rp, h2) := newMemberRuntime (Some ob) (Some p) h1 in
  new_ref (mkRef (Some ob) tag None (Some p) (Some rp) (meta id) (-1)) h2.

(** Reference 3 is "a", 6 is "b", 9 is "c"; the cell of "c" is 7. *)
Definition base_heap : heap :=
  let '(_, h1) := add_ref "a" 101 11 empty_heap in
  let '(_, h2) := add_ref "b" 102 12 h1 in
  let '(_, h3) := add_ref "c" 103 13 h2 in h3.

Definition empty_pool (mode : string) (gid : Z) : poolOutbound :=
  mkPool (options mode gid) mode (Some mode) None ∅ [3; 6; 9]
    {["a" := 3; "b" := 6; "c" := 9]} {["a" := 2; "b" := 5; "c" := 8]} None 0 12345 3 300 false
    false None None false None false None None.

Definition pool_state (mode : string) (gid : Z) (h : heap) : state :=
  mkState (empty_pool mode gid) h groups [].

Definition blacklist_c (h : heap) : heap :=
  (recordSharedFailure (mkError "refused" []) 1 60 300 "x" now 7 h).1.

Lemma empty_pool_wf mode gid : snapshots_wf (empty_pool mode gid).
Proof. split; intros v; [done|]. intros snap. cbn. by rewrite lookup_empty. Qed.
End PoolExample.

Lemma published_views_are_exact_witness :
  let s := PoolExample.pool_state "sequential" 7 PoolExample.base_heap in
  let s' := publishSnapshotLocked PoolExample.env PoolExample.now [3; 6; 9] s in
  (elts ∘ sn_tcpMembers <$> current_snapshot (st_pool s')) = Some [3] ∧
  (elts ∘ sn_udpMembers <$> current_snapshot (st_pool s')) = Some [3; 9] ∧
  ∃ snap, current_snapshot (st_pool s') = Some snap ∧
          index_exact (sn_udpIndex snap) (elts (sn_udpMembers snap)) ∧
          array (sn_allMembers snap) = Topology ∧ array (sn_tcpMembers snap) = TcpSubset ∧
          sn_udpMembers snap = sn_Members snap.
Proof.
  cbn zeta. split_and!; [vm_compute; reflexivity..|].
  destruct (published_views_are_exact PoolExample.env PoolExample.now [3; 6; 9]
    (PoolExample.pool_state "sequential" 7 PoolExample.base_heap)
    (PoolExample.empty_pool_wf _ _)) as (snap & s1 & Hc & _ & _ & _ & _ & _ & _ & _ & _ & _ & Hi & Hsh & _).
  - refine (bool_decide_eq_true_1 _ _). vm_compute. reflexivity.
  - exists snap. split; [exact Hc|split; [exact Hi|split; [exact (shared_all _ _ _ Hsh)|]]].
    vm_compute in Hc. injection Hc as <-. split; reflexivity.
Defined.

Lemma routed_members_are_eligible_witness :
  let s := PoolExample.pool_state "sequential" 7 (PoolExample.blacklist_c PoolExample.base_heap) in
  let s' := publishSnapshotLocked PoolExample.env PoolExample.now [3; 6; 9] s in
  ∃ snap, current_snapshot (st_pool s') = Some snap ∧ elts (sn_Members snap) = [3] ∧
          3 ∈ [3; 6; 9] ∧ ¬ ineligible PoolExample.env PoolExample.now s 3.
Proof.
  cbn zeta. eexists. split; [vm_compute; reflexivity|]. split; [reflexivity|].
  refine (routed_members_are_eligible PoolExample.env PoolExample.now [3; 6; 9]
    (PoolExample.pool_state "sequential" 7 (PoolExample.blacklist_c PoolExample.base_heap)) _ 3
    (PoolExample.empty_pool_wf _ _) _ _ _).
  - refine (bool_decide_eq_true_1 _ _). vm_compute. reflexivity.
  - vm_compute. reflexivity.
  - left. refine (bool_decide_eq_true_1 _ _). vm_compute. reflexivity.
Defined.
