(* ===== verification/PoolSelect.v ===== *)
(** Member selection on the dial path ([internal/outbound/pool/pool.go]): the
    dispatch modes, the two-choice sampler, the lock-free random and round-robin
    counters, the fixed-order walk, and the cursor over one request's attempts.
    [rand.Uint64] is an argument of the operations that draw from it. *)

From S2P Require Import Prelude GroupMember GroupRuntime PoolMember PoolState PoolView.

(** ** The random and round-robin counters *)
Definition u64 (z : Z) : Z := z `mod` 2 ^ 64.
Definition u32 (z : Z) : Z := z `mod` 2 ^ 32.

Definition xor_left (k x : Z) : Z := Z.lxor x (u64 (Z.shiftl x k)).
Definition xor_right (k x : Z) : Z := Z.lxor x (Z.shiftr x k).
Definition xorshift (x : Z) : Z := xor_left 17 (xor_right 7 (xor_left 13 x)).

(** One successful iteration of the compare-and-swap loop. *)
Definition random_step (old : Z) : Z :=
  let next := xorshift old in if decide (next = 0) then 0x9e3779b97f4a7c15 else next.

Definition nextRandom (s : state) : state * Z :=
  let next := random_step (p_randomState (st_pool s)) in
  (with_pool (λ p, set_counters (p_rrCounter p) next p) s, next).

(** [p.rrCounter.Add(1)-1]. *)
Definition nextRoundRobin (s : state) : state * Z :=
  let counter := u32 (p_rrCounter (st_pool s) + 1) in
  (with_pool (λ p, set_counters counter (p_randomState p) p) s, u32 (counter - 1)).

(** ** Modes *)

(** The loop of the balance mode: the first idle member, else the first of the
    least loaded. *)
Fixpoint balance_loop (h : heap) (l : list Z) (index selected : nat) (minActive : Z) : nat :=
  match l with
  | [] => selected
  | m :: l =>
    let active := member_active m h in
    if decide (active = 0) then index
    else if bool_decide (index = 0%nat) || bool_decide (active < minActive)
    then balance_loop h l (S index) index active
    else balance_loop h l (S index) selected minActive
  end.

Definition balanceIndex (h : heap) (candidates : slice) : nat :=
  balance_loop h (elts candidates) 0 0 0.

Definition active_at (h : heap) (candidates : slice) (i : nat) : Z :=
  match elts candidates !! i with Some m => member_active m h | None => 0 end.

Definition two_samples (n random : Z) : nat * nat :=
  let first := u32 random `mod` n in
  let second := Z.shiftr random 32 `mod` (n - 1) in
  (Z.to_nat first, Z.to_nat (if decide (first ≤ second) then second + 1 else second)).

Definition twoChoiceIndex (h : heap) (candidates : slice) (random : Z) : nat :=
  if decide (length (elts candidates) = 1%nat) then 0%nat
  else
    let '(first, second) := two_samples (Z.of_nat (length (elts candidates))) random in
    if decide (active_at h candidates second < active_at h candidates first) then second else first.

Definition index_of (x : Z) (l : list Z) : option nat := fst <$> list_find (λ y, y = x) l.

(** The index map the walk uses; the default case indexes the candidates, the
    first occurrence winning. *)
Definition candidate_index (snap : PoolSnapshot) (candidates : slice) : Z → option nat :=
  if sameCandidateSlice candidates (sn_tcpMembers snap) then λ m, sn_tcpIndex snap !! m
  else if sameCandidateSlice candidates (sn_udpMembers snap) then λ m, sn_udpIndex snap !! m
  else if sameCandidateSlice candidates (sn_Members snap) then λ m, sn_memberIndex snap !! m
  else λ m, index_of m (elts candidates).

Fixpoint fixed_walk (find : Z → option nat) (l : list Z) : nat :=
  match l with
  | [] => 0%nat
  | m :: l => match find m with Some i => i | None => fixed_walk find l end
  end.

(** The members after position [i], in cyclic order, ending with [i] itself. *)
Definition after_cyclic (i : nat) (all : list Z) : list Z :=
  (λ offset, default 0 (all !! ((i + offset) mod length all)%nat)) <$> seq 1 (length all).

Definition nextFixedIndex (snap : PoolSnapshot) (candidates : slice) (previous : option Z) : nat :=
  match previous ≫= (λ m, index_of m (elts (sn_allMembers snap))) with
  | None => 0%nat
  | Some i => fixed_walk (candidate_index snap candidates) (after_cyclic i (elts (sn_allMembers snap)))
  end.

(** The current member's index, when the map and the candidates agree on it. *)
Definition current_index (index : gmap Z nat) (candidates : slice) (current : Z) : option nat :=
  match index !! current with
  | Some i => if decide (elts candidates !! i = Some current) then Some i else None
  | None => None
  end.

Definition stickyIndex (snap : PoolSnapshot) (candidates : slice) (current : option Z) : option nat :=
  match current with
  | None => None
  | Some c =>
    match current_index (sn_memberIndex snap) candidates c with
    | Some i => Some i
    | None =>
      match current_index (sn_tcpIndex snap) candidates c with
      | Some i => Some i
      | None => current_index (sn_udpIndex snap) candidates c
      end
    end
  end.

Definition selectionIndex (random : Z) (snap : PoolSnapshot) (candidates : slice) (s : state)
    : state * nat :=
  let mode := dataPathMode s snap in
  let n := Z.of_nat (length (elts candidates)) in
  if decide (mode = modeRandom) then
    let '(s1, r) := nextRandom s in (s1, Z.to_nat (r `mod` n))
  else if decide (mode = modeBalance) then (s, balanceIndex (st_heap s) candidates)
  else if decide (mode = modeBalanceP2C) then (s, twoChoiceIndex (st_heap s) candidates random)
  else if bool_decide (mode = modeFixed) || bool_decide (mode = modeLowestLatency) then
    let current := p_currentMember (st_pool s) in
    match stickyIndex snap candidates current with
    | Some i => (s, i)
    | None => if decide (mode = modeLowestLatency) then (s, 0%nat)
              else (s, nextFixedIndex snap candidates current)
    end
  else let '(s1, c) := nextRoundRobin s in (s1, Z.to_nat (c `mod` n)).

(** The best candidate by latency, the earliest on ties. *)
Definition best_latency (s : state) (candidates : slice) : option Z :=
  foldl (λ best m, match best with
                   | None => Some m
                   | Some b => if latencyMemberLess s m b then Some m else Some b
                   end) None (elts candidates).

Definition selectMember (random : Z) (snap : PoolSnapshot) (candidates : slice) (s : state)
    : state * option Z :=
  let mode := dataPathMode s snap in
  if bool_decide (mode = modeLowestLatency)
     && negb (sameCandidateSlice candidates (sn_tcpMembers snap))
     && negb (sameCandidateSlice candidates (sn_udpMembers snap)) then
    match p_currentMember (st_pool s) with
    | Some current => if decide (current ∈ elts candidates) then (s, Some current)
                      else (s, best_latency s candidates)
    | None => (s, best_latency s candidates)
    end
  else let '(s1, i) := selectionIndex random snap candidates s in (s1, elts candidates !! i).

(** ** The attempts of one request *)
Record attemptCursor := mkCursor { c_members : slice; c_start : nat; c_used : nat }.

Definition cursor_next (c : attemptCursor) : option Z * attemptCursor :=
  let n := length (elts (c_members c)) in
  if decide (n ≤ c_used c)%nat then (None, c)
  else (elts (c_members c) !! ((c_start c + c_used c) mod n)%nat,
        mkCursor (c_members c) (c_start c) (S (c_used c))).

Definition newAttemptCursor (random : Z) (snap : PoolSnapshot) (network : string) (s : state)
    : state * result attemptCursor :=
  let members := if decide (network = NetworkUDP) then sn_udpMembers snap else sn_tcpMembers snap in
  if decide (elts members = []) then (s, Err "no healthy proxy available")
  else let '(s1, start) := selectionIndex random snap members s in (s1, Ok (mkCursor members start 0)).

(** Calling [next] until it returns nil, at most [fuel] times. *)
Fixpoint attempts (fuel : nat) (c : attemptCursor) : list Z :=
  match fuel with
  | O => []
  | S fuel => let '(m, c1) := cursor_next c in
              match m with Some m => m :: attempts fuel c1 | None => [] end
  end.

(** ** The random word *)
Lemma u64_bound z : 0 ≤ u64 z < 2 ^ 64.
Proof. apply Z.mod_pos_bound. lia. Qed.

Lemma lxor_bound x y : 0 ≤ x < 2 ^ 64 → 0 ≤ y < 2 ^ 64 → 0 ≤ Z.lxor x y < 2 ^ 64.
Proof.
  intros [Hx1 Hx2] [Hy1 Hy2]. assert (Hpos : 0 ≤ Z.lxor x y) by (apply Z.lxor_nonneg; lia).
  split; [done|]. destruct (decide (Z.lxor x y = 0)) as [->|Hne]; [lia|].
  apply Z.log2_lt_pow2; [lia|].
  pose proof (Z.log2_lxor x y Hx1 Hy1).
  assert (∀ z, 0 ≤ z < 2 ^ 64 → Z.log2 z < 64) as Hlog.
  { intros z [Hz1 Hz2]. destruct (decide (z = 0)) as [->|]; [by vm_compute|].
    apply Z.log2_lt_pow2; lia. }
  pose proof (Hlog x ltac:(lia)). pose proof (Hlog y ltac:(lia)). lia.
Qed.

(** Shifting left or right and xoring loses no information: the only word with a
    zero image is zero. *)
Lemma xor_left_nonzero k x : 0 < k → 0 ≤ x < 2 ^ 64 → xor_left k x = 0 → x = 0.
Proof.
  intros Hk Hx Hz. unfold xor_left in Hz. apply Z.lxor_eq in Hz.
  apply Z.bits_inj'. intros n Hn. rewrite Z.bits_0.
  assert (Hbits : ∀ m : nat, (∀ j, 0 ≤ j < Z.of_nat m → Z.testbit x j = false)).
  { induction m as [|m IH]; intros j Hj; [lia|].
    destruct (decide (j = Z.of_nat m)) as [->|]; [|apply IH; lia].
    rewrite Hz. unfold u64. destruct (decide (Z.of_nat m < 64)).
    - rewrite Z.mod_pow2_bits_low by lia. rewrite Z.shiftl_spec by lia.
      destruct (decide (Z.of_nat m < k)); [by rewrite Z.testbit_neg_r by lia|]. apply IH. lia.
    - by rewrite Z.mod_pow2_bits_high by lia. }
  apply (Hbits (S (Z.to_nat n))). lia.
Qed.

Lemma xor_right_nonzero k x : 0 < k → 0 ≤ x < 2 ^ 64 → xor_right k x = 0 → x = 0.
Proof.
  intros Hk Hx Hz. unfold xor_right in Hz. apply Z.lxor_eq in Hz.
  rewrite Z.shiftr_div_pow2 in Hz by lia.
  destruct (decide (x = 0)) as [->|Hne]; [done|].
  assert (x / 2 ^ k < x); [|lia]. apply Z.div_lt; [lia|].
  pose proof (Z.pow_gt_1 2 k ltac:(lia)). lia.
Qed.

Lemma xor_left_bound k x : 0 ≤ x < 2 ^ 64 → 0 ≤ xor_left k x < 2 ^ 64.
Proof. intros. apply lxor_bound; [done|apply u64_bound]. Qed.

Lemma xor_right_bound k x : 0 ≤ k → 0 ≤ x < 2 ^ 64 → 0 ≤ xor_right k x < 2 ^ 64.
Proof.
  intros Hk Hx. apply lxor_bound; [done|]. rewrite Z.shiftr_div_pow2 by done. split.
  - apply Z.div_pos; lia.
  - apply Z.div_lt_upper_bound; [lia|]. nia.
Qed.

(** The lock-free random state is a 64-bit word that never reaches zero, so
    the generator cannot get stuck: from every non-zero word the xorshift step
    yields a non-zero word, the reseeding constant is never used, and the state
    stays within 64 bits for any number of draws. *)
Theorem random_state_never_sticks s n :
  0 < p_randomState (st_pool s) < 2 ^ 64 →
  let s' := Nat.iter n (λ s, (nextRandom s).1) s in
  0 < p_randomState (st_pool s') < 2 ^ 64 ∧
  (nextRandom s').2 = xorshift (p_randomState (st_pool s')) ∧ 0 < (nextRandom s').2 < 2 ^ 64.
Proof.
  intros Hs. assert (Hstep : ∀ x, 0 < x < 2 ^ 64 → random_step x = xorshift x ∧ 0 < xorshift x < 2 ^ 64).
  { intros x Hx. unfold random_step, xorshift.
    pose proof (xor_left_bound 13 x ltac:(lia)) as H1.
    pose proof (xor_right_bound 7 _ ltac:(lia) H1) as H2. pose proof (xor_left_bound 17 _ H2) as H3.
    assert (xor_left 17 (xor_right 7 (xor_left 13 x)) ≠ 0) as Hne.
    { intros Hz%xor_left_nonzero; [|lia|done]. apply xor_right_nonzero in Hz; [|lia|done].
      apply xor_left_nonzero in Hz; lia. }
    rewrite decide_False by done. lia. }
  cbn zeta.
  assert (Hinv : 0 < p_randomState (st_pool (Nat.iter n (λ s, (nextRandom s).1) s)) < 2 ^ 64).
  { induction n as [|n IH]; [done|]. rewrite Nat.iter_succ. revert IH.
    generalize (Nat.iter n (λ s, (nextRandom s).1) s). intros s' IH.
    unfold nextRandom. cbn. destruct (Hstep _ IH) as [-> ?]. done. }
  split; [done|]. revert Hinv. generalize (Nat.iter n (λ s, (nextRandom s).1) s). intros s' Hinv.
  unfold nextRandom. cbn [snd]. by destruct (Hstep _ Hinv) as [-> ?].
Qed.

(** ** The load-based modes *)

(** [i] is the first position with the least load. *)
Definition first_minimum (f : nat → Z) (n i : nat) : Prop :=
  (i < n)%nat ∧ (∀ j, (j < n)%nat → f i ≤ f j) ∧ (∀ j, (j < i)%nat → f i < f j).

Lemma first_minimum_snoc f n i :
  first_minimum f n i →
  first_minimum f (S n) (if bool_decide (f n < f i) then n else i).
Proof.
  intros (Hi & Hle & Hlt). case_bool_decide as Hn.
  - split_and!; [lia| |].
    + intros j Hj. destruct (decide (j = n)) as [->|]; [lia|]. specialize (Hle j ltac:(lia)). lia.
    + intros j Hj. specialize (Hle j ltac:(lia)). lia.
  - split_and!; [lia| |done].
    intros j Hj. destruct (decide (j = n)) as [->|]; [lia|]. apply Hle. lia.
Qed.

(** [f] gives the loads of the whole list, of which [l] is the part from [idx]. *)
Lemma balance_loop_spec h f l : ∀ idx selected minActive,
  (∀ k x, l !! k = Some x → member_active x h = f (idx + k)%nat) →
  (∀ j, (j < idx + length l)%nat → 0 ≤ f j) → (∀ j, (j < idx)%nat → f j ≠ 0) →
  ((0 < idx)%nat → first_minimum f idx selected ∧ minActive = f selected) →
  (0 < idx + length l)%nat →
  first_minimum f (idx + length l) (balance_loop h l idx selected minActive).
Proof.
  induction l as [|m l IH]; intros idx selected minActive Hf Hpos Hne Hmin Hlen; cbn [balance_loop].
  - cbn in *. rewrite Nat.add_0_r in *. by apply Hmin.
  - pose proof (Hf 0%nat m eq_refl) as Hm. rewrite Nat.add_0_r in Hm. cbn [length] in *.
    destruct (decide (member_active m h = 0)) as [H0|H0].
    + split_and!; [lia|intros j Hj; rewrite <-Hm, H0; by apply Hpos|].
      intros j Hj. specialize (Hne j Hj). specialize (Hpos j ltac:(lia)). lia.
    + assert (Hstep : ∀ sel, first_minimum f (S idx) sel →
        first_minimum f (idx + S (length l)) (balance_loop h l (S idx) sel (f sel))).
      { intros sel Hsel. replace (idx + S (length l))%nat with (S idx + length l)%nat by lia.
        apply IH; [|intros; apply Hpos; lia| |done|lia].
        - intros k x Hx. rewrite (Hf (S k) x Hx). f_equal. lia.
        - intros j Hj. destruct (decide (j = idx)) as [->|]; [congruence|]. apply Hne. lia. }
      rewrite Hm. destruct (decide (idx = 0%nat)) as [->|Hidx].
      * apply (Hstep 0%nat). split_and!; [lia| |lia]. intros j Hj.
        assert (j = 0%nat) as -> by lia. done.
      * destruct Hmin as [Hmin ->]; [lia|]. rewrite (bool_decide_false (idx = _)) by done.
        apply first_minimum_snoc in Hmin. cbn [orb]. revert Hmin. case_bool_decide; apply Hstep.
Qed.

(** The balance mode picks the least loaded candidate, the earliest one when
    several are equally loaded, on every non-empty candidate list (open
    connection counts are never negative). *)
Theorem balance_picks_the_least_loaded random snap candidates s :
  dataPathMode s snap = modeBalance → elts candidates ≠ [] →
  (∀ m, m ∈ elts candidates → 0 ≤ member_active m (st_heap s)) →
  let r := selectionIndex random snap candidates s in
  r.1 = s ∧
  first_minimum (active_at (st_heap s) candidates) (length (elts candidates)) r.2.
Proof.
  intros Hmode Hne Hpos. cbn zeta. unfold selectionIndex. rewrite Hmode. split; [done|].
  cbn [snd].
  apply (balance_loop_spec _ (active_at (st_heap s) candidates) (elts candidates) 0%nat).
  - intros k x Hx. unfold active_at. cbn. by rewrite Hx.
  - intros j Hj. unfold active_at. destruct (elts candidates !! j) eqn:E; [|done].
    apply Hpos. by eapply list_elem_of_lookup_2.
  - lia.
  - lia.
  - destruct (elts candidates); [done|cbn; lia].
Qed.

Lemma two_samples_spec n random :
  2 ≤ n → 0 ≤ random →
  let '(first, second) := two_samples n random in
  first ≠ second ∧ Z.of_nat first < n ∧ Z.of_nat second < n.
Proof.
  intros Hn Hr. unfold two_samples.
  pose proof (Z.mod_pos_bound (u32 random) n ltac:(lia)).
  pose proof (Z.mod_pos_bound (Z.shiftr random 32) (n - 1) ltac:(lia)).
  destruct (decide _); split_and!; lia.
Qed.

(** The two-choice mode draws two different candidates, both within the
    list, and picks the less loaded of the two, the first on a tie: for every
    random word and every list of at least two candidates; a single candidate is
    always picked. *)
Theorem two_choices_are_distinct random snap candidates s :
  dataPathMode s snap = modeBalanceP2C → elts candidates ≠ [] → 0 ≤ random →
  let n := length (elts candidates) in
  let r := selectionIndex random snap candidates s in
  let '(first, second) := two_samples (Z.of_nat n) random in
  r.1 = s ∧ (r.2 < n)%nat ∧
  (n = 1%nat → r.2 = 0%nat) ∧
  (n ≠ 1%nat → first ≠ second ∧ (first < n)%nat ∧ (second < n)%nat ∧
     (r.2 = first ∨ r.2 = second) ∧
     active_at (st_heap s) candidates r.2 ≤ active_at (st_heap s) candidates first ∧
     active_at (st_heap s) candidates r.2 ≤ active_at (st_heap s) candidates second).
Proof.
  intros Hmode Hne Hr. cbn zeta. unfold selectionIndex. rewrite Hmode.
  change ((if decide (modeBalanceP2C = modeRandom) then _ else _)) with
    (s, twoChoiceIndex (st_heap s) candidates random). cbn [fst snd].
  unfold twoChoiceIndex. set (n := length (elts candidates)).
  assert (Hn : (0 < n)%nat) by (unfold n; destruct (elts candidates); [done|cbn; lia]).
  pose proof (two_samples_spec (Z.of_nat n) random) as Hs.
  destruct (two_samples (Z.of_nat n) random) as [first second].
  destruct (decide (n = 1%nat)) as [H1|H1].
  - split_and!; [done|lia|done|done].
  - destruct Hs as (Hd & Hf & Hsec); [lia|done|].
    destruct (decide (active_at (st_heap s) candidates second < active_at (st_heap s) candidates first));
      split_and!; try done; try lia; intros _; split_and!; try lia; auto.
Qed.

(** ** Round robin *)
Definition sequential_run (random : Z) (snap : PoolSnapshot) (candidates : slice) (k : nat)
    (s : state) : state := Nat.iter k (λ s, (selectionIndex random snap candidates s).1) s.

Lemma sequential_step random snap candidates s :
  sn_mode snap = modeSequential → 0 ≤ p_rrCounter (st_pool s) < 2 ^ 32 - 1 →
  let r := selectionIndex random snap candidates s in
  p_rrCounter (st_pool r.1) = p_rrCounter (st_pool s) + 1 ∧
  r.2 = Z.to_nat (p_rrCounter (st_pool s) `mod` Z.of_nat (length (elts candidates))).
Proof.
  intros Hmode Hc. cbn zeta. unfold selectionIndex, dataPathMode. rewrite Hmode. cbn.
  unfold u32. rewrite (Z.mod_small (p_rrCounter (st_pool s) + 1)) by lia. split; [done|].
  rewrite Z.add_simpl_r, (Z.mod_small (p_rrCounter (st_pool s)) (2 ^ 32)) by lia. done.
Qed.

Lemma sequential_run_counter random snap candidates k s :
  sn_mode snap = modeSequential → 0 ≤ p_rrCounter (st_pool s) →
  p_rrCounter (st_pool s) + Z.of_nat k ≤ 2 ^ 32 - 1 →
  p_rrCounter (st_pool (sequential_run random snap candidates k s)) =
    p_rrCounter (st_pool s) + Z.of_nat k.
Proof.
  intros Hmode Hpos. induction k as [|k IH]; intros Hle; [cbn; lia|].
  unfold sequential_run in *. rewrite Nat.iter_succ.
  destruct (sequential_step random snap candidates
    (Nat.iter k (λ s, (selectionIndex random snap candidates s).1) s)) as [-> _];
    [done|rewrite IH; lia|]. rewrite IH; lia.
Qed.

(** The sequential mode is fair. In any stretch of as many selections as
    there are candidates, each candidate is chosen exactly once (as long as the
    32-bit counter does not wrap within the stretch). *)
Theorem round_robin_is_fair random snap candidates s i :
  sn_mode snap = modeSequential → (i < length (elts candidates))%nat →
  0 ≤ p_rrCounter (st_pool s) →
  p_rrCounter (st_pool s) + Z.of_nat (length (elts candidates)) ≤ 2 ^ 32 - 1 →
  let chosen k :=
    (selectionIndex random snap candidates (sequential_run random snap candidates k s)).2 in
  ∃ k, (k < length (elts candidates))%nat ∧ chosen k = i ∧
       ∀ k', (k' < length (elts candidates))%nat → chosen k' = i → k' = k.
Proof.
  intros Hmode Hi Hpos Hle. cbn zeta. set (n := length (elts candidates)) in *.
  set (c := p_rrCounter (st_pool s)) in *.
  assert (Hsel : ∀ k, (k < n)%nat →
    (selectionIndex random snap candidates (sequential_run random snap candidates k s)).2 =
    Z.to_nat ((c + Z.of_nat k) `mod` Z.of_nat n)).
  { intros k Hk. pose proof (sequential_run_counter random snap candidates k s Hmode Hpos) as Hc.
    destruct (sequential_step random snap candidates (sequential_run random snap candidates k s))
      as [_ ->]; [done|rewrite Hc; lia|]. by rewrite Hc by lia. }
  pose proof (Z.mod_pos_bound (Z.of_nat i - c) (Z.of_nat n) ltac:(lia)) as Hb.
  exists (Z.to_nat ((Z.of_nat i - c) `mod` Z.of_nat n)). split_and!.
  - lia.
  - rewrite Hsel by lia. rewrite Z2Nat.id by lia.
    rewrite Zplus_mod_idemp_r. replace (c + (Z.of_nat i - c)) with (Z.of_nat i) by lia.
    rewrite Z.mod_small by lia. lia.
  - intros k Hk Hki. rewrite Hsel in Hki by done.
    pose proof (Z.mod_pos_bound (c + Z.of_nat k) (Z.of_nat n) ltac:(lia)).
    assert (Hki' : (c + Z.of_nat k) `mod` Z.of_nat n = Z.of_nat i) by lia.
    rewrite <-Hki', Zminus_mod_idemp_l.
    replace (c + Z.of_nat k - c) with (Z.of_nat k) by lia. rewrite Z.mod_small by lia. lia.
Qed.

(** ** The ordered modes *)
Definition a_view (snap : PoolSnapshot) (v : slice) : Prop :=
  v ∈ [sn_Members snap; sn_tcpMembers snap; sn_udpMembers snap].

Lemma index_of_Some x l i : NoDup l → index_of x l = Some i ↔ l !! i = Some x.
Proof.
  intros Hnd. unfold index_of. rewrite fmap_Some. split.
  - intros ([j y] & Hf & ->). apply list_find_Some in Hf as (? & -> & _). done.
  - intros Hi. exists (i, x). split; [|done]. apply list_find_Some. split_and!; [done|done|].
    intros j y Hj Hlt ->. assert (j = i) by by eapply NoDup_lookup. lia.
Qed.

Lemma index_of_None x l : index_of x l = None ↔ x ∉ l.
Proof.
  unfold index_of. rewrite fmap_None, list_find_None, Forall_forall. naive_solver.
Qed.

(** On a view of the snapshot the walk's index map is the position in the view. *)
Lemma candidate_index_exact snap v m i :
  snapshot_ok snap → a_view snap v → candidate_index snap v m = Some i ↔ elts v !! i = Some m.
Proof.
  intros [Hm Ht Hu _ Halias] Hv. unfold candidate_index.
  destruct (sameCandidateSlice v (sn_tcpMembers snap)) eqn:E1.
  { rewrite (Ht m i), (Halias v (sn_tcpMembers snap)); [done|done|set_solver|done]. }
  destruct (sameCandidateSlice v (sn_udpMembers snap)) eqn:E2.
  { rewrite (Hu m i), (Halias v (sn_udpMembers snap)); [done|done|set_solver|done]. }
  destruct (sameCandidateSlice v (sn_Members snap)) eqn:E3.
  { rewrite (Hm m i), (Halias v (sn_Members snap)); [done|done|set_solver|done]. }
  exfalso. unfold a_view in Hv. rewrite !elem_of_cons, elem_of_nil in Hv.
  destruct Hv as [->|[->|[->|[]]]]; by rewrite same_slice_refl in *.
Qed.

Lemma current_index_Some index v c i :
  current_index index v c = Some i → elts v !! i = Some c.
Proof. unfold current_index. destruct (index !! c) as [j|]; [|done]. case_decide; naive_solver. Qed.

Lemma stickyIndex_spec snap v current :
  snapshot_ok snap → a_view snap v →
  match stickyIndex snap v current with
  | Some i => ∃ c, current = Some c ∧ elts v !! i = Some c
  | None => ∀ c, current = Some c → c ∉ elts v
  end.
Proof.
  intros [Hm Ht Hu _ _] Hv. unfold stickyIndex. destruct current as [c|]; [|done].
  assert (Hfound : ∀ index w, index_exact index (elts w) → v = w → c ∈ elts v →
            is_Some (current_index index v c)).
  { intros index w Hx -> [i Hi]%list_elem_of_lookup. unfold current_index.
    rewrite (proj2 (Hx c i) Hi), decide_True by done. by eexists. }
  destruct (current_index (sn_memberIndex snap) v c) eqn:E1; [by eauto using current_index_Some|].
  destruct (current_index (sn_tcpIndex snap) v c) eqn:E2; [by eauto using current_index_Some|].
  destruct (current_index (sn_udpIndex snap) v c) eqn:E3; [by eauto using current_index_Some|].
  intros c' [= <-] Hin. unfold a_view in Hv. rewrite !elem_of_cons, elem_of_nil in Hv.
  destruct Hv as [Hv|[Hv|[Hv|[]]]];
    [destruct (Hfound _ _ Hm Hv Hin)|destruct (Hfound _ _ Ht Hv Hin)|destruct (Hfound _ _ Hu Hv Hin)];
    congruence.
Qed.

(** Reading a list cyclically from position [st]. *)
Definition cyclic (st : nat) (l : list Z) : list Z :=
  (λ j, default 0 (l !! ((st + j) mod length l)%nat)) <$> seq 0 (length l).

Lemma cyclic_rotation st l : (st ≤ length l)%nat → cyclic st l = drop st l ++ take st l.
Proof.
  intros Hst. apply list_eq. intros j. unfold cyclic. rewrite list_lookup_fmap.
  destruct (decide (j < length l)%nat) as [Hj|Hj].
  2: { rewrite lookup_ge_None_2 by (rewrite length_seq; lia). cbn.
       rewrite lookup_ge_None_2; [done|]. rewrite length_app, length_drop, length_take. lia. }
  rewrite lookup_seq_lt by done. cbn [fmap option_fmap option_map Nat.add].
  destruct (decide (st + j < length l)%nat) as [Hlt|Hge].
  - rewrite Nat.mod_small by done. rewrite lookup_app_l by (rewrite length_drop; lia).
    rewrite lookup_drop. by destruct (lookup_lt_is_Some_2 l (st + j) Hlt) as [x ->].
  - replace ((st + j) mod length l)%nat with (st + j - length l)%nat.
    2: { apply Nat.mod_unique with 1%nat; lia. }
    rewrite lookup_app_r by (rewrite length_drop; lia). rewrite length_drop.
    rewrite lookup_take_lt by lia. replace (j - (length l - st))%nat with (st + j - length l)%nat by lia.
    by destruct (lookup_lt_is_Some_2 l (st + j - length l)%nat ltac:(lia)) as [x ->].
Qed.

Lemma after_cyclic_rotation i all :
  (i < length all)%nat → after_cyclic i all = drop (S i) all ++ take (S i) all.
Proof.
  intros Hi. rewrite <-cyclic_rotation by lia. unfold after_cyclic, cyclic.
  rewrite <-fmap_S_seq, <-list_fmap_compose. apply list_fmap_ext. intros k x _. cbn.
  by rewrite Nat.add_succ_r.
Qed.

Lemma fixed_walk_spec (find : Z → option nat) v l :
  (∀ m i, find m = Some i ↔ elts v !! i = Some m) →
  filter (λ m, m ∈ elts v) l ≠ [] →
  elts v !! fixed_walk find l = head (filter (λ m, m ∈ elts v) l).
Proof.
  intros Hfind. induction l as [|m l IH]; intros Hne; cbn [fixed_walk]; [done|].
  destruct (find m) as [i|] eqn:E.
  - apply Hfind in E. rewrite filter_cons_True; [done|]. by eapply list_elem_of_lookup_2.
  - assert (Hout : m ∉ elts v).
    { intros [i Hi]%list_elem_of_lookup. apply Hfind in Hi. congruence. }
    rewrite filter_cons_False in * by done. auto.
Qed.

Lemma fixed_walk_bound (find : Z → option nat) v l :
  (∀ m i, find m = Some i ↔ elts v !! i = Some m) → (0 < length (elts v))%nat →
  (fixed_walk find l < length (elts v))%nat.
Proof.
  intros Hfind Hlen. induction l as [|m l IH]; cbn; [done|].
  destruct (find m) eqn:E; [|done]. apply Hfind in E. by eapply lookup_lt_Some.
Qed.

(** The ordered modes are sticky and follow the topology. While the current
    member is a candidate it stays selected. Otherwise the lowest-latency mode
    takes the head of its sorted view, and the fixed mode takes the first
    candidate after the previous member in topology order, wrapping around; with
    no previous member in the topology it starts from the first candidate. *)
Theorem ordered_modes_follow_the_topology random snap v s :
  snapshot_ok snap → a_view snap v → elts v ≠ [] →
  dataPathMode s snap = modeFixed ∨ dataPathMode s snap = modeLowestLatency →
  let r := selectionIndex random snap v s in
  r.1 = s ∧
  (∀ c, p_currentMember (st_pool s) = Some c → c ∈ elts v → elts v !! r.2 = Some c) ∧
  ((∀ c, p_currentMember (st_pool s) = Some c → c ∉ elts v) →
     dataPathMode s snap = modeLowestLatency → r.2 = 0%nat) ∧
  (dataPathMode s snap = modeFixed →
   ∀ c i, p_currentMember (st_pool s) = Some c → c ∉ elts v →
     elts (sn_allMembers snap) !! i = Some c →
     let order := drop (S i) (elts (sn_allMembers snap)) ++ take (S i) (elts (sn_allMembers snap)) in
     filter (λ m, m ∈ elts v) order ≠ [] →
     elts v !! r.2 = head (filter (λ m, m ∈ elts v) order)).
Proof.
  intros Hok Hv Hne Hmode. pose proof (stickyIndex_spec snap v (p_currentMember (st_pool s)) Hok Hv) as Hst.
  assert (Hr : selectionIndex random snap v s =
    (s, match stickyIndex snap v (p_currentMember (st_pool s)) with
        | Some i => i
        | None => if decide (dataPathMode s snap = modeLowestLatency) then 0%nat
                  else nextFixedIndex snap v (p_currentMember (st_pool s))
        end)).
  { unfold selectionIndex. destruct Hmode as [->| ->]; cbn; by destruct (stickyIndex _ _ _). }
  cbn zeta. rewrite Hr. cbn [fst snd]. split; [done|].
  destruct (stickyIndex snap v (p_currentMember (st_pool s))) as [j|].
  - destruct Hst as (c & Hc & Hj). assert (c ∈ elts v) by by eapply list_elem_of_lookup_2.
    split_and!.
    + intros c' ??. congruence.
    + intros Hno. by destruct (Hno c Hc).
    + intros _ c' i Hc' Hnot. by simplify_eq.
  - split_and!.
    + intros c Hc Hin. by destruct (Hst c Hc).
    + intros _ ->. done.
    + intros Hf c i Hc Hnot Hi Hsome. rewrite Hf. cbn. unfold nextFixedIndex. rewrite Hc. cbn.
      rewrite (proj2 (index_of_Some c _ i (ok_all _ Hok)) Hi).
      rewrite after_cyclic_rotation by by eapply lookup_lt_Some.
      apply fixed_walk_spec; [|done]. intros m k. by apply candidate_index_exact.
Qed.

(** ** Bounds, and the attempts of a request *)
Lemma balance_loop_bound h l : ∀ idx selected minActive,
  ((0 < idx)%nat → (selected < idx)%nat) → (0 < idx + length l)%nat →
  (balance_loop h l idx selected minActive < idx + length l)%nat.
Proof.
  induction l as [|m l IH]; intros idx selected minActive Hsel Hlen; cbn in *.
  - rewrite Nat.add_0_r in *. auto.
  - destruct (decide _); [lia|]. rewrite Nat.add_succ_r, <-Nat.add_succ_l.
    destruct (_ || _) eqn:E; apply IH; try lia.
    intros _. destruct (decide (idx = 0%nat)) as [->|]; [done|lia].
Qed.

Lemma selection_bound random snap v s :
  snapshot_ok snap → a_view snap v → elts v ≠ [] → 0 ≤ random →
  ((selectionIndex random snap v s).2 < length (elts v))%nat.
Proof.
  intros Hok Hv Hne Hr. assert (Hlen : (0 < length (elts v))%nat) by (destruct (elts v); [done|cbn; lia]).
  unfold selectionIndex. set (mode := dataPathMode s snap).
  destruct (decide (mode = modeRandom)).
  { cbn. pose proof (Z.mod_pos_bound (random_step (p_randomState (st_pool s)))
      (Z.of_nat (length (elts v))) ltac:(lia)). lia. }
  destruct (decide (mode = modeBalance)).
  { cbn. apply (balance_loop_bound (st_heap s) (elts v) 0%nat 0%nat 0); lia. }
  destruct (decide (mode = modeBalanceP2C)).
  { cbn. unfold twoChoiceIndex. destruct (decide _) as [->|]; [lia|].
    pose proof (two_samples_spec (Z.of_nat (length (elts v))) random ltac:(lia) Hr) as Hs.
    destruct (two_samples _ _). destruct (decide _); lia. }
  destruct (_ || _).
  { pose proof (stickyIndex_spec snap v (p_currentMember (st_pool s)) Hok Hv) as Hst.
    destruct (stickyIndex _ _ _).
    - destruct Hst as (c & _ & Hc). by eapply lookup_lt_Some.
    - destruct (decide _); [done|]. cbn. unfold nextFixedIndex. destruct (_ ≫= _); [|done].
      apply fixed_walk_bound; [|done]. intros m k. by apply candidate_index_exact. }
  cbn. match goal with |- (Z.to_nat (?c `mod` ?n) < _)%nat =>
    pose proof (Z.mod_pos_bound c n ltac:(lia)) end. lia.
Qed.

(** Selecting only moves the counters. *)
Lemma selection_quiet random snap v s :
  let s' := (selectionIndex random snap v s).1 in
  st_heap s' = st_heap s ∧ p_hasSelector (st_pool s') = p_hasSelector (st_pool s) ∧
  st_selections s' = st_selections s.
Proof.
  cbn zeta. unfold selectionIndex. destruct (decide _); [done|]. destruct (decide _); [done|].
  destruct (decide _); [done|]. destruct (_ || _); [|done]. destruct (stickyIndex _ _ _); [done|].
  by destruct (decide _).
Qed.

Lemma selection_groups random snap v s : st_groups (selectionIndex random snap v s).1 = st_groups s.
Proof.
  unfold selectionIndex. destruct (decide _); [done|]. destruct (decide _); [done|].
  destruct (decide _); [done|]. destruct (_ || _); [|done]. destruct (stickyIndex _ _ _); [done|].
  by destruct (decide _).
Qed.

Lemma index_exact_NoDup index l : index_exact index l → NoDup l.
Proof.
  intros Hx. apply NoDup_alt. intros i j x Hi Hj.
  apply Hx in Hi. apply Hx in Hj. congruence.
Qed.

Lemma attempts_cyclic v st k : ∀ u fuel,
  (u + k = length (elts v))%nat → (k < fuel)%nat →
  attempts fuel (mkCursor v st u) =
    (λ j, default 0 (elts v !! ((st + j) mod length (elts v))%nat)) <$> seq u k.
Proof.
  induction k as [|k IH]; intros u fuel Hu Hf; destruct fuel as [|fuel]; [lia| |lia|];
    cbn [attempts]; unfold cursor_next; cbn [c_members c_start c_used].
  - by rewrite decide_True by lia.
  - rewrite decide_False by lia. cbn [seq fmap list_fmap].
    destruct (lookup_lt_is_Some_2 (elts v) ((st + u) mod length (elts v))) as [x Hx].
    { apply Nat.mod_upper_bound. lia. }
    rewrite Hx. cbn [default from_option id]. f_equal. apply IH; lia.
Qed.

(** One request tries every eligible member exactly once. On a published
    snapshot, whatever the mode, the network and the random draw, the start
    index is within the view, so no selection is ever out of range; the attempts
    are the view read cyclically from that start: a permutation of the view, of
    which the cursor then reports the end. *)
Theorem attempts_visit_every_candidate_once random snap network s s' c fuel :
  snapshot_ok snap → 0 ≤ random →
  newAttemptCursor random snap network s = (s', Ok c) →
  (length (elts (c_members c)) < fuel)%nat →
  let v := if decide (network = NetworkUDP) then sn_udpMembers snap else sn_tcpMembers snap in
  c_members c = v ∧ (c_start c < length (elts v))%nat ∧
  attempts fuel c = drop (c_start c) (elts v) ++ take (c_start c) (elts v) ∧
  attempts fuel c ≡ₚ elts v ∧ NoDup (attempts fuel c).
Proof.
  intros Hok Hr Hnew Hf. cbn zeta. unfold newAttemptCursor in Hnew.
  set (v := if decide (network = NetworkUDP) then _ else _) in *.
  assert (Hv : a_view snap v) by (unfold a_view, v; destruct (decide _); set_solver).
  assert (Hnd : NoDup (elts v)).
  { unfold v. destruct (decide _); eapply index_exact_NoDup; [apply ok_udp|apply ok_tcp]; done. }
  destruct (decide (elts v = [])) as [|Hne]; [by simplify_eq|].
  pose proof (selection_bound random snap v s Hok Hv Hne Hr) as Hb.
  destruct (selectionIndex random snap v s) as [s1 start]. simplify_eq. cbn [c_members c_start fst snd] in *.
  assert (Hat : attempts fuel (mkCursor v start 0) = drop start (elts v) ++ take start (elts v)).
  { rewrite (attempts_cyclic v start (length (elts v)) 0 fuel) by lia.
    rewrite <-cyclic_rotation by lia. done. }
  assert (Hperm : drop start (elts v) ++ take start (elts v) ≡ₚ elts v).
  { rewrite Permutation_app_comm. by rewrite take_drop. }
  rewrite Hat. split_and!; [done|done|done|done|by rewrite Hperm].
Qed.

(** ** Concrete selections, on the example pool published without a group: all
    three members are eligible, "c" (reference 9) for UDP only. *)
Module SelectExample.
Definition start (mode : string) : state := PoolExample.pool_state mode 0 PoolExample.base_heap.
Definition snap (mode : string) : PoolSnapshot :=
  published PoolExample.env PoolExample.now [3; 6; 9] (start mode).

Lemma snap_ok mode : snapshot_ok (snap mode).
Proof.
  assert (Hnd : NoDup [3; 6; 9]) by (refine (bool_decide_eq_true_1 _ _); vm_compute; reflexivity).
  exact (published_ok PoolExample.env PoolExample.now [3; 6; 9] (start mode) Hnd).
Qed.

Lemma tcp_view mode : a_view (snap mode) (sn_tcpMembers (snap mode)).
Proof. unfold a_view. set_solver. Qed.

(** Two connections on "a", one on "b". *)
Definition loaded (mode : string) : state :=
  with_heap (λ h, incMemberActive 3 (incMemberActive 3 (incMemberActive 6 h))) (start mode).
End SelectExample.

Lemma random_state_never_sticks_witness :
  0 < 12345 < 2 ^ 64 ∧
  0 < p_randomState (st_pool (Nat.iter 3 (λ s, (nextRandom s).1) (SelectExample.start "random"))) < 2 ^ 64.
Proof.
  assert (H : 0 < 12345 < 2 ^ 64) by lia. split; [exact H|].
  exact (proj1 (random_state_never_sticks (SelectExample.start "random") 3 H)).
Defined.

Lemma balance_picks_the_least_loaded_witness :
  let s := SelectExample.loaded "balance" in
  let v := sn_tcpMembers (SelectExample.snap "balance") in
  (selectionIndex 0 (SelectExample.snap "balance") v s).2 = 1%nat ∧
  first_minimum (active_at (st_heap s) v) (length (elts v)) 1.
Proof.
  cbn zeta. split; [vm_compute; reflexivity|].
  refine (proj2 (balance_picks_the_least_loaded 0 (SelectExample.snap "balance")
    (sn_tcpMembers (SelectExample.snap "balance")) (SelectExample.loaded "balance") _ _ _)).
  - vm_compute. reflexivity.
  - vm_compute. discriminate.
  - apply Forall_forall. refine (bool_decide_eq_true_1 _ _). vm_compute. reflexivity.
Defined.

Lemma two_choices_are_distinct_witness :
  let s := SelectExample.loaded "balance_p2c" in
  let v := sn_udpMembers (SelectExample.snap "balance_p2c") in
  let random := 2 ^ 32 + 6 in
  two_samples 3 random = (0%nat, 2%nat) ∧
  (selectionIndex random (SelectExample.snap "balance_p2c") v s).2 = 2%nat ∧
  (selectionIndex random (SelectExample.snap "balance_p2c") v s).1 = s.
Proof.
  cbn zeta. split; [vm_compute; reflexivity|]. split; [vm_compute; reflexivity|].
  refine (proj1 (two_choices_are_distinct (2 ^ 32 + 6) (SelectExample.snap "balance_p2c")
    (sn_udpMembers (SelectExample.snap "balance_p2c")) (SelectExample.loaded "balance_p2c") _ _ _)).
  - vm_compute. reflexivity.
  - vm_compute. discriminate.
  - lia.
Defined.

Lemma round_robin_is_fair_witness :
  let v := sn_udpMembers (SelectExample.snap "sequential") in
  let chosen k := (selectionIndex 0 (SelectExample.snap "sequential") v
    (sequential_run 0 (SelectExample.snap "sequential") v k (SelectExample.start "sequential"))).2 in
  (1 < length (elts v))%nat ∧
  ∃ k, (k < length (elts v))%nat ∧ chosen k = 1%nat ∧
       ∀ k', (k' < length (elts v))%nat → chosen k' = 1%nat → k' = k.
Proof.
  cbn zeta.
  assert (H1 : (1 < length (elts (sn_udpMembers (SelectExample.snap "sequential"))))%nat)
    by (vm_compute; lia).
  split; [exact H1|].
  refine (round_robin_is_fair 0 (SelectExample.snap "sequential")
    (sn_udpMembers (SelectExample.snap "sequential")) (SelectExample.start "sequential") 1 _ H1 _ _);
  vm_compute; congruence.
Defined.

Lemma ordered_modes_follow_the_topology_witness :
  let s := with_pool (set_currentMember (Some 9)) (SelectExample.start "fixed") in
  let v := sn_tcpMembers (SelectExample.snap "fixed") in
  (** "c" cannot carry TCP: the walk wraps around to "a" *)
  elts v !! (selectionIndex 0 (SelectExample.snap "fixed") v s).2 = Some 3 ∧
  (selectionIndex 0 (SelectExample.snap "fixed") v s).1 = s.
Proof.
  cbn zeta. split; [vm_compute; reflexivity|].
  refine (proj1 (ordered_modes_follow_the_topology 0 (SelectExample.snap "fixed")
    (sn_tcpMembers (SelectExample.snap "fixed")) _ (SelectExample.snap_ok "fixed")
    (SelectExample.tcp_view "fixed") _ _)).
  - vm_compute. discriminate.
  - left. vm_compute. reflexivity.
Defined.

Lemma attempts_visit_every_candidate_once_witness :
  ∃ s' c, newAttemptCursor 0 (SelectExample.snap "balance") NetworkUDP (SelectExample.loaded "balance")
            = (s', Ok c) ∧ c_start c = 2%nat ∧ attempts 4 c ≡ₚ [3; 6; 9].
Proof.
  eexists _, _. split; [vm_compute; reflexivity|]. split; [reflexivity|].
  refine (proj1 (proj2 (proj2 (proj2 (attempts_visit_every_candidate_once 0
    (SelectExample.snap "balance") NetworkUDP (SelectExample.loaded "balance") _ _ 4
    (SelectExample.snap_ok "balance") _ _ _))))).
  - lia.
  - vm_compute. reflexivity.
  - cbn. lia.
Defined.
