(* ===== verification/PoolTopology.v ===== *)
(** The topology of a pool ([internal/outbound/pool/pool.go]): building the
    member references at start ([initializeMembersLocked]), replacing them in
    place ([reconcileMembersWithPolicyLocked]), and what happens to the members
    that leave and to the current member. *)

From S2P Require Import Prelude GroupMember GroupRuntime PoolMember PoolState PoolView PoolSelect.

(** ** Monitor attachment *)
Definition attachMonitorMember (env : Env) (r : Z) (s : state) : state :=
  match env_monitor env with
  | None => s
  | Some mv =>
    let m := member r (st_heap s) in
    let nodeID := mm_NodeID (ref_meta m) in
    let observer := o_MonitorObserverOnly (p_options (st_pool s)) in
    let entry := if observer then mv_HandleForNodeID mv nodeID
                 else mv_MigrateRuntimeTag mv nodeID (ref_tag m) in
    match entry with
    | None => s
    | Some e =>
      let s1 := with_heap (with_ref r (set_ref_entry (Some e))) s in
      if observer then s1
      else match ref_shared m with
           | Some c => with_heap (attachEntry (Some e) c) s1
           | None => s1
           end
    end
  end.

(** The durable health subscription follows the topology. *)
Definition refreshHealthSubscriptionLocked (env : Env) (s : state) : state :=
  match env_monitor env with
  | None => s
  | Some _ =>
    let tags := (λ r, ref_tag (member r (st_heap s))) <$> p_topology (st_pool s) in
    let ids := filter (λ id, id ≠ 0)
                 ((λ r, mm_NodeID (memberMeta s (Some r))) <$> p_topology (st_pool s)) in
    with_pool (λ p, set_subscriptions (Some (tags, ids)) (p_groupSubscribed p) (p_schedule p)
                      (p_registration p) p) s
  end.

(** ** Start *)
Definition index_by_tag (members : list Z) (h : heap) : gmap string Z :=
  foldl (λ acc r, <[ref_tag (member r h) := r]> acc) ∅ members.

(** One member at cold start. *)
Definition initialize_member (env : Env) (tag : string) (detour : Z) (s : state) : state * Z :=
  let '(c, h1) := acquireSharedState tag (st_heap s) in
  let '(rp, h2) := newMemberRuntime (Some detour) (Some c) h1 in
  let '(r, h3) := new_ref (mkRef (Some detour) tag (entryHandle c h2) (Some c) (Some rp)
                            (metadata_of (p_options (st_pool s)) tag) (-1)) h2 in
  let s1 := attachMonitorMember env r (with_heap (λ _, h3) s) in
  (with_pool (λ p, set_runtimeByTag (<[tag := rp]> (p_runtimeByTag p)) p) s1, r).

(** The loop stops at the first missing outbound, keeping what it already did. *)
Fixpoint initialize_members (env : Env) (tags : list string) (s : state) : state * result (list Z) :=
  match tags with
  | [] => (s, Ok [])
  | tag :: tags =>
    match env_outbound env tag with
    | None => (s, Err ("pool member not found: " +:+ tag))
    | Some detour =>
      let '(s1, r) := initialize_member env tag detour s in
      let '(s2, rest) := initialize_members env tags s1 in
      (s2, result_bind rest (λ rs, Ok (r :: rs)))
    end
  end.

Definition initialize_selector (env : Env) (s : state) : result bool :=
  let tag := o_SelectorTag (p_options (st_pool s)) in
  if decide (tag = "") then Ok (p_hasSelector (st_pool s))
  else match env_outbound env tag with
       | None => Err ("group selector not found: " +:+ tag)
       | Some ob => if env_isSelector env ob then Ok true
                    else Err ("outbound is not a selector: " +:+ tag)
       end.

Definition initializeMembersLocked (env : Env) (now : Z) (s : state) : state * result unit :=
  match p_current (st_pool s) with
  | Some _ => (s, Ok tt)
  | None =>
    let '(s1, members) := initialize_members env (o_Members (p_options (st_pool s))) s in
    match members with
    | Err e => (s1, Err e)
    | Ok members =>
      match initialize_selector env s1 with
      | Err e => (s1, Err e)
      | Ok sel =>
        let h := st_heap s1 in
        let preferred := filter (λ r, ref_tag (member r h) =
                           o_PreferredMember (p_options (st_pool s1))) members in
        let s2 := with_pool (λ p, set_hasSelector sel (set_topology members (index_by_tag members h) p)) s1 in
        let s3 := match last preferred with
                  | Some r => with_pool (set_currentMember (Some r)) s2
                  | None => s2
                  end in
        (publishSnapshotLocked env now members s3, Ok tt)
      end
    end
  end.

(** ** Reconciliation *)
Record RuntimeMemberSpec := mkSpec { spec_Tag : string; spec_Meta : MemberMeta }.

Definition errClosed : string := "use of closed network connection".

Fixpoint validate_specs (env : Env) (specs : list RuntimeMemberSpec) (seen : gset string)
    : option string :=
  match specs with
  | [] => None
  | spec :: specs =>
    if decide (spec_Tag spec = "") then Some "pool member tag is empty"
    else if decide (spec_Tag spec ∈ seen) then Some ("duplicate pool member: " +:+ spec_Tag spec)
    else match env_outbound env (spec_Tag spec) with
         | None => Some ("pool member not found: " +:+ spec_Tag spec)
         | Some _ => validate_specs env specs ({[spec_Tag spec]} ∪ seen)
         end
  end.

(** The runtime of a tag is kept while its outbound is the same object. *)
Definition member_runtime (tag : string) (detour c : Z) (byTag : gmap string Z) (h : heap)
    : Z * heap * gmap string Z :=
  let new := let '(rp, h1) := newMemberRuntime (Some detour) (Some c) h in
             (rp, h1, <[tag := rp]> byTag) in
  match byTag !! tag with
  | Some rp => if decide (mr_outbound (runtime_of rp h) = Some detour) then (rp, h, byTag) else new
  | None => new
  end.

(** A member whose outbound is new or was replaced. *)
Definition fresh_member (env : Env) (spec : RuntimeMemberSpec) (detour : Z) (s : state) : state * Z :=
  let tag := spec_Tag spec in
  let '(c, h1) := acquireSharedState tag (st_heap s) in
  let '(rp, h2, byTag) := member_runtime tag detour c (p_runtimeByTag (st_pool s)) h1 in
  let h3 := with_runtime rp (set_retired false) h2 in
  let '(r, h4) := new_ref (mkRef (Some detour) tag (entryHandle c h3) (Some c) (Some rp)
                            (spec_Meta spec) (-1)) h3 in
  (attachMonitorMember env r
     (with_pool (set_runtimeByTag byTag) (with_heap (λ _, h4) s)), r).

(** A member kept with other metadata gets a new reference to the same runtime. *)
Definition renamed_member (env : Env) (spec : RuntimeMemberSpec) (old : Z) (s : state) : state * Z :=
  let m := member old (st_heap s) in
  let '(r, h1) := new_ref (mkRef (ref_outbound m) (ref_tag m) (ref_entry m) (ref_shared m)
                            (ref_runtime m) (spec_Meta spec) (ref_latencyMs m)) (st_heap s) in
  (attachMonitorMember env r (with_heap (λ _, h1) s), r).

Definition resolve_member (env : Env) (spec : RuntimeMemberSpec) (s : state) : state * Z :=
  let detour := default 0 (env_outbound env (spec_Tag spec)) in
  match p_topologyByTag (st_pool s) !! spec_Tag spec with
  | None => fresh_member env spec detour s
  | Some old =>
    let m := member old (st_heap s) in
    if decide (ref_outbound m = Some detour) then
      if decide (ref_meta m = spec_Meta spec) then (s, old) else renamed_member env spec old s
    else fresh_member env spec detour s
  end.

Fixpoint resolve_members (env : Env) (specs : list RuntimeMemberSpec) (s : state) : state * list Z :=
  match specs with
  | [] => (s, [])
  | spec :: specs =>
    let '(s1, r) := resolve_member env spec s in
    let '(s2, rs) := resolve_members env specs s1 in (s2, r :: rs)
  end.

(** The member that follows the old current one: by tag, then by node, then, in
    fixed mode, the next surviving member in the old order. *)
Definition next_by_node (s : state) (next : list Z) (nodeID : Z) : option Z :=
  if decide (nodeID = 0) then None
  else head (filter (λ r, mm_NodeID (memberMeta s (Some r)) = nodeID) next).

Definition next_fixed (s : state) (oldTopology : list Z) (oldCurrent : Z) : option Z :=
  match index_of oldCurrent oldTopology with
  | None => None
  | Some i => head (omap (λ r, p_topologyByTag (st_pool s) !! ref_tag (member r (st_heap s)))
                      (after_cyclic i oldTopology))
  end.

Definition nextCurrent (s : state) (oldTopology next : list Z) (oldCurrent : option Z) : option Z :=
  match oldCurrent with
  | None => None
  | Some c =>
    match p_topologyByTag (st_pool s) !! ref_tag (member c (st_heap s)) with
    | Some r => Some r
    | None =>
      match next_by_node s next (mm_NodeID (memberMeta s (Some c))) with
      | Some r => Some r
      | None => if decide (p_mode (st_pool s) = modeFixed) then next_fixed s oldTopology c else None
      end
    end
  end.

(** Close the gate of the members that left. *)
Definition retire (retired : list Z) (h : heap) : heap :=
  foldl (λ h r, match ref_runtime (member r h) with
                | Some rp => with_runtime rp (set_retired true) h
                | None => h
                end) h retired.

Definition current_version (s : state) : Z := default 0 (p_current (st_pool s)).

Definition reconcileMembersWithPolicyLocked (env : Env) (now : Z) (specs : list RuntimeMemberSpec)
    (applyPolicy : state → state) (s : state) : state * result (Z * list Z) :=
  if p_closed (st_pool s) then (s, Err errClosed)
  else
    let oldTopology := p_topology (st_pool s) in
    let oldCurrent := p_currentMember (st_pool s) in
    match validate_specs env specs ∅ with
    | Some e => (s, Err e)
    | None =>
      let '(s1, next) := resolve_members env specs (applyPolicy s) in
      let seen := list_to_set (C := gset string) (spec_Tag <$> specs) in
      let retired := filter (λ r, ref_tag (member r (st_heap s1)) ∉ seen) oldTopology in
      let s2 := with_pool (set_topology next (index_by_tag next (st_heap s1))) s1 in
      let s3 := refreshHealthSubscriptionLocked env s2 in
      let s4 := with_pool (set_currentMember (nextCurrent s3 oldTopology next oldCurrent)) s3 in
      let s5 := with_heap (retire retired) s4 in
      let s6 := publishSnapshotLocked env now next s5 in
      (s6, Ok (current_version s6, retired))
    end.

Definition reconcileMembersLocked (env : Env) (now : Z) (specs : list RuntimeMemberSpec)
    (s : state) : state * result (Z * list Z) :=
  reconcileMembersWithPolicyLocked env now specs (λ s, s) s.

(** ** Retired members *)
Definition Drained (r : Z) (s : state) : bool :=
  match ref_runtime (member r (st_heap s)) with
  | None => true
  | Some rp =>
    let rt := runtime_of rp (st_heap s) in
    bool_decide (mr_snapshotRefs rt = 0) && bool_decide (mr_operations rt = 0) &&
    bool_decide (member_active r (st_heap s) = 0)
  end.

Definition Counts (r : Z) (s : state) : Z * Z * Z :=
  let rt := runtime_of (default 0 (ref_runtime (member r (st_heap s)))) (st_heap s) in
  (mr_snapshotRefs rt, mr_operations rt, member_active r (st_heap s)).

Definition ReleaseState (r : Z) (s : state) : state :=
  let m := member r (st_heap s) in
  match ref_runtime m with
  | None => s
  | Some rp =>
    let s1 := with_heap (releaseOwner (ref_tag m) rp) s in
    with_pool (λ p, if decide (p_runtimeByTag p !! ref_tag m = Some rp)
                    then set_runtimeByTag (delete (ref_tag m) (p_runtimeByTag p)) p else p) s1
  end.

(** ** Validation *)
Definition valid_specs (env : Env) (specs : list RuntimeMemberSpec) : Prop :=
  NoDup (spec_Tag <$> specs) ∧
  Forall (λ spec, spec_Tag spec ≠ "" ∧ is_Some (env_outbound env (spec_Tag spec))) specs.

Lemma validate_specs_None env specs : ∀ seen,
  validate_specs env specs seen = None ↔
  valid_specs env specs ∧ Forall (λ spec, spec_Tag spec ∉ seen) specs.
Proof.
  unfold valid_specs. induction specs as [|spec specs IH]; intros seen; cbn [validate_specs fmap list_fmap].
  { split; [intros _; split_and!; constructor|done]. }
  rewrite NoDup_cons, !Forall_cons.
  destruct (decide (spec_Tag spec = "")); [naive_solver|].
  destruct (decide (spec_Tag spec ∈ seen)); [naive_solver|].
  destruct (env_outbound env (spec_Tag spec)) eqn:E.
  2: { split; [done|]. intros [(_ & [_ [? ?]] & _) _]. congruence. }
  rewrite IH, !Forall_forall. split.
  - intros [[Hnd Hall] Hout]. split_and!; try done.
    + intros (sp & Ht & Hin)%list_elem_of_fmap. specialize (Hout _ Hin). set_solver.
    + intros sp Hin. specialize (Hout _ Hin). set_solver.
  - intros ([[Hnew Hnd] [_ Hall]] & _ & Hout). split_and!; try done.
    intros sp Hin. specialize (Hout _ Hin). rewrite not_elem_of_union, not_elem_of_singleton.
    split; [|done]. intros Heq. apply Hnew. rewrite <-Heq. apply list_elem_of_fmap. eauto.
Qed.

(** Reconciliation validates before it mutates. It succeeds exactly when the
    pool is open and the desired members have distinct, non-empty tags that all
    resolve to an outbound; on any error, whatever policy was to be applied, the
    pool, the heap and the group runtimes are exactly as before. *)
Lemma rejected_reconcile_changes_nothing env now specs applyPolicy s :
  let r := reconcileMembersWithPolicyLocked env now specs applyPolicy s in
  (is_Ok r.2 = true ↔ p_closed (st_pool s) = false ∧ valid_specs env specs) ∧
  (is_Ok r.2 = false → r.1 = s).
Proof.
  cbn zeta. unfold reconcileMembersWithPolicyLocked.
  destruct (p_closed (st_pool s)); [split; [split; [done|by intros [? _]]|done]|].
  pose proof (validate_specs_None env specs ∅) as Hv.
  destruct (validate_specs env specs ∅).
  - split; [|done]. split; [done|]. intros [_ Hok]. exfalso.
    assert (Some s0 = None) as ?; [|done]. apply Hv. split; [done|].
    apply Forall_forall. set_solver.
  - destruct (resolve_members env specs (applyPolicy s)) as [s1 next]. cbn [fst snd is_Ok].
    split; [|done]. split; [|done]. intros _. split; [done|]. by apply Hv.
Qed.

(** ** Resolving the members *)
Definition refs_wf (h : heap) : Prop :=
  (∀ q, next h ≤ q → refs h !! q = None) ∧ (∀ q, next h ≤ q → runtimes h !! q = None).

(** The state only gains references; existing ones keep everything that is not
    an observation (entry, latency). *)
Record extends (s s' : state) : Prop := {
  ext_pool : st_pool s' = set_runtimeByTag (p_runtimeByTag (st_pool s')) (st_pool s);
  ext_wf : refs_wf (st_heap s) → refs_wf (st_heap s');
  ext_refs : ∀ q, refs_wf (st_heap s) → is_Some (refs (st_heap s) !! q) →
    is_Some (refs (st_heap s') !! q) ∧
    ref_static (member q (st_heap s')) = ref_static (member q (st_heap s)) ∧
    ref_runtime (member q (st_heap s')) = ref_runtime (member q (st_heap s));
  ext_runtimes : ∀ rp, is_Some (runtimes (st_heap s) !! rp) → is_Some (runtimes (st_heap s') !! rp)
}.

#[global] Instance extends_preorder : PreOrder extends.
Proof.
  split.
  - intros s. split; [by destruct s as [[]]|done..].
  - intros a b c [A1 A2 A3 A4] [B1 B2 B3 B4]. split; [| | |auto].
    + rewrite B1, A1. by destruct a as [[]].
    + auto.
    + intros q Hwf Hq. destruct (A3 q Hwf Hq) as (Hb & E1 & E2).
      destruct (B3 q (A2 Hwf) Hb) as (? & E3 & E4). split_and!; [done|congruence|congruence].
Qed.

(** Heap operations that leave the references alone. *)
Record same_refs (h h' : heap) : Prop := {
  sr_refs : refs h' = refs h;
  sr_next : next h ≤ next h';
  sr_runtimes : ∀ rp, is_Some (runtimes h !! rp) → is_Some (runtimes h' !! rp);
  sr_fresh : (∀ q, next h ≤ q → runtimes h !! q = None) → ∀ q, next h' ≤ q → runtimes h' !! q = None
}.

#[global] Instance same_refs_preorder : PreOrder same_refs.
Proof.
  split; [by split|]. intros a b c [A1 A2 A3 A4] [B1 B2 B3 B4]. split; [congruence|lia|auto|auto].
Qed.

Lemma same_refs_wf h h' : same_refs h h' → refs_wf h → refs_wf h'.
Proof.
  intros [Hr Hn _ Hf] [Hwf Hwr]. split; [|by apply Hf].
  intros q Hq. rewrite Hr. apply Hwf. lia.
Qed.

Lemma same_refs_member h h' q : same_refs h h' → member q h' = member q h.
Proof. intros [Hr _ _ _]. unfold member. by rewrite Hr. Qed.

(** Operations on the cells, the store and the log alone. *)
Lemma same_refs_cells h h' :
  refs h' = refs h → runtimes h' = runtimes h → next h ≤ next h' → same_refs h h'.
Proof. intros Hr Hrt Hn. split; [done|done|by rewrite Hrt|]. intros Hf q Hq. rewrite Hrt. apply Hf. lia. Qed.

Lemma acquire_same_refs tag h : same_refs h (acquireSharedState tag h).2.
Proof. unfold acquireSharedState. destruct (_ !! _); [done|]. apply same_refs_cells; cbn; done || lia. Qed.

Lemma newRuntime_same_refs d c h : same_refs h (newMemberRuntime d c h).2.
Proof.
  unfold newMemberRuntime. destruct c; (split; cbn; [done|lia| |]).
  1, 3: intros rp [x Hx]; destruct (decide (rp = next h)) as [->|];
    [rewrite lookup_insert_eq; by eexists|rewrite lookup_insert_ne by done; by eexists].
  all: intros Hf q Hq; rewrite lookup_insert_ne by lia; apply Hf; lia.
Qed.

Lemma with_runtime_same_refs rp f h : same_refs h (with_runtime rp f h).
Proof.
  split; cbn; [done|lia| |].
  - intros q Hq. by rewrite lookup_alter_is_Some.
  - intros Hf q Hq. rewrite lookup_alter_None. by apply Hf.
Qed.

Lemma new_ref_spec m h :
  refs_wf h →
  let r := new_ref m h in
  member r.1 r.2 = m ∧ is_Some (refs r.2 !! r.1) ∧ refs_wf r.2 ∧
  ∀ q, is_Some (refs h !! q) → is_Some (refs r.2 !! q) ∧ member q r.2 = member q h.
Proof.
  intros [Hwf Hwr]. cbn. unfold member. cbn. rewrite !lookup_insert_eq. split_and!; [done|by eexists| |].
  - split; intros q Hq; cbn in *; [rewrite lookup_insert_ne by lia; apply Hwf|apply Hwr]; lia.
  - intros q [x Hx]. rewrite lookup_insert_ne; [by rewrite Hx|].
    intros <-. rewrite (Hwf (next h)) in Hx by lia. done.
Qed.

Lemma with_ref_entry_spec r e h q :
  ref_static (member q (with_ref r (set_ref_entry e) h)) = ref_static (member q h) ∧
  ref_runtime (member q (with_ref r (set_ref_entry e) h)) = ref_runtime (member q h) ∧
  (is_Some (refs h !! q) → is_Some (refs (with_ref r (set_ref_entry e) h) !! q)).
Proof.
  unfold member, with_ref. cbn. destruct (decide (q = r)) as [->|Hne].
  - rewrite lookup_alter_eq. destruct (refs h !! r); cbn; [|done]. split_and!; [done|done|by eexists].
  - by rewrite lookup_alter_ne.
Qed.

Lemma extends_heap f s : same_refs (st_heap s) (f (st_heap s)) → extends s (with_heap f s).
Proof.
  intros Hsame. split; [by destruct s as [[]]|by apply same_refs_wf| |by apply sr_runtimes].
  intros q _ Hq. cbn. rewrite (same_refs_member _ _ q Hsame). destruct Hsame as [-> _ _ _]. done.
Qed.

Lemma attach_extends env r s : extends s (attachMonitorMember env r s).
Proof.
  unfold attachMonitorMember. destruct (env_monitor env) as [mv|]; [|done].
  destruct (if o_MonitorObserverOnly _ then _ else _) as [e|]; [|done].
  set (s1 := with_heap (with_ref r (set_ref_entry (Some e))) s).
  assert (H1 : extends s s1).
  { split; [by destruct s as [[]]| | |done].
    - intros [Hwf Hwr]. split; [|done]. intros q Hq. cbn. rewrite lookup_alter_None. by apply Hwf.
    - intros q _ Hq. destruct (with_ref_entry_spec r (Some e) (st_heap s) q) as (?&?&?). auto. }
  destruct (o_MonitorObserverOnly _); [done|]. destruct (ref_shared _); [|done].
  etrans; [exact H1|]. apply extends_heap. by apply same_refs_cells.
Qed.

(** What one resolution yields: a reference to the requested outbound under the
    requested tag and metadata. *)
Definition resolved (env : Env) (spec : RuntimeMemberSpec) (s : state) (r : Z) : Prop :=
  is_Some (refs (st_heap s) !! r) ∧
  ref_outbound (member r (st_heap s)) = env_outbound env (spec_Tag spec) ∧
  ref_tag (member r (st_heap s)) = spec_Tag spec ∧
  ref_meta (member r (st_heap s)) = spec_Meta spec ∧
  ∃ rp, ref_runtime (member r (st_heap s)) = Some rp ∧ is_Some (runtimes (st_heap s) !! rp).

Lemma resolved_extends env spec s s' r :
  refs_wf (st_heap s) → extends s s' → resolved env spec s r → resolved env spec s' r.
Proof.
  intros Hwf [_ _ He Hx] (Hr & Ho & Ht & Hm & rp & Hrt & Hrp). destruct (He r Hwf Hr) as (Hr' & Hs & Hrt').
  unfold ref_static in Hs. unfold resolved. rewrite Hrt'.
  split_and!; [done|congruence..|]. exists rp. auto.
Qed.

(** Allocating one reference and attaching it. *)
Lemma attach_new_ref env m h s f :
  refs_wf (st_heap s) → same_refs (st_heap s) h →
  (∀ p, f p = set_runtimeByTag (p_runtimeByTag (f p)) p) →
  let r := new_ref m h in
  let s' := attachMonitorMember env r.1 (with_pool f (with_heap (λ _, r.2) s)) in
  extends s s' ∧ is_Some (refs (st_heap s') !! r.1) ∧
  ref_static (member r.1 (st_heap s')) = ref_static m ∧
  ref_runtime (member r.1 (st_heap s')) = ref_runtime m ∧ refs (st_heap s) !! r.1 = None.
Proof.
  intros Hwf Hsame Hf. cbn zeta.
  destruct (new_ref_spec m h (same_refs_wf _ _ Hsame Hwf)) as (Hm & His & Hwf' & Hold). cbn zeta in *.
  set (r := (new_ref m h).1) in *. set (h' := (new_ref m h).2) in *.
  assert (Hnone : refs (st_heap s) !! r = None).
  { apply Hwf. destruct Hsame as [_ Hn _ _]. exact Hn. }
  assert (Hruns : runtimes h' = runtimes h) by done.
  clearbody r h'. set (s1 := with_pool f (with_heap (λ _, h') s)).
  assert (H1 : extends s s1).
  { split.
    - cbn. apply Hf.
    - by intros _.
    - intros q _ Hq. assert (Hq' : is_Some (refs h !! q)) by (destruct Hsame as [-> _ _ _]; done).
      destruct (Hold q Hq') as [? Hmem]. cbn. rewrite Hmem, (same_refs_member _ _ q Hsame). done.
    - intros rp Hrp. cbn. rewrite Hruns. by apply (sr_runtimes _ _ Hsame). }
  pose proof (attach_extends env r s1) as H2. destruct H2 as [_ _ He _].
  destruct (He r Hwf' His) as (? & Hst & Hrt). split_and!; [|done|by rewrite Hst; cbn; rewrite Hm|by rewrite Hrt; cbn; rewrite Hm|].
  - etrans; [exact H1|apply attach_extends].
  - done.
Qed.

Record topo_wf (s : state) : Prop := {
  tw_refs : refs_wf (st_heap s);
  tw_byTag : ∀ tag r, p_topologyByTag (st_pool s) !! tag = Some r →
    is_Some (refs (st_heap s) !! r) ∧ ref_tag (member r (st_heap s)) = tag ∧
    (∃ rp, ref_runtime (member r (st_heap s)) = Some rp ∧ is_Some (runtimes (st_heap s) !! rp));
  tw_topology : ∀ r, r ∈ p_topology (st_pool s) →
    p_topologyByTag (st_pool s) !! ref_tag (member r (st_heap s)) = Some r
}.

Lemma extends_fields s s' :
  extends s s' →
  p_topologyByTag (st_pool s') = p_topologyByTag (st_pool s) ∧
  p_topology (st_pool s') = p_topology (st_pool s) ∧
  p_currentMember (st_pool s') = p_currentMember (st_pool s) ∧
  p_options (st_pool s') = p_options (st_pool s) ∧ p_mode (st_pool s') = p_mode (st_pool s) ∧
  p_current (st_pool s') = p_current (st_pool s) ∧
  p_snapshots (st_pool s') = p_snapshots (st_pool s).
Proof. intros [Hp _ _ _]. rewrite Hp. by destruct s as [[]]. Qed.

Lemma extends_topo s s' : extends s s' → topo_wf s → topo_wf s'.
Proof.
  intros He [T1 T2 T3]. pose proof (extends_fields _ _ He) as (E1 & E2 & _). destruct He as [_ Hwf Hr Hx].
  split; [auto| |].
  - intros tag r. rewrite E1. intros Hb. destruct (T2 _ _ Hb) as (Hs & Ht & rp & Hrt & Hrp).
    destruct (Hr r T1 Hs) as (? & Hst & Hrt'). unfold ref_static in Hst.
    split_and!; [done|congruence|]. exists rp. rewrite Hrt'. auto.
  - intros r. rewrite E1, E2. intros Hin. pose proof (T3 r Hin) as Hb.
    destruct (T2 _ _ Hb) as (Hs & _ & _). destruct (Hr r T1 Hs) as (_ & Hst & _).
    unfold ref_static in Hst. congruence.
Qed.

(** A resolution keeps the runtime of an unchanged outbound, and the very
    reference of an unchanged member. *)
Definition keeps (env : Env) (spec : RuntimeMemberSpec) (s s' : state) (r : Z) : Prop :=
  ∀ old, p_topologyByTag (st_pool s) !! spec_Tag spec = Some old →
    ref_outbound (member old (st_heap s)) = env_outbound env (spec_Tag spec) →
    ref_runtime (member r (st_heap s')) = ref_runtime (member old (st_heap s)) ∧
    (ref_meta (member old (st_heap s)) = spec_Meta spec → r = old).

Lemma member_runtime_exists tag detour c byTag h :
  is_Some (runtimes (member_runtime tag detour c byTag h).1.2 !!
           (member_runtime tag detour c byTag h).1.1).
Proof.
  assert (Hnew : is_Some (runtimes (newMemberRuntime (Some detour) (Some c) h).2 !!
                          (newMemberRuntime (Some detour) (Some c) h).1)).
  { cbn. rewrite lookup_insert_eq. by eexists. }
  unfold member_runtime. destruct (byTag !! tag) as [rp|]; [|exact Hnew].
  destruct (decide _) as [Ho|]; [|exact Hnew]. cbn. unfold runtime_of in Ho.
  destruct (runtimes h !! rp); [by eexists|done].
Qed.

Lemma fresh_member_spec env spec detour s :
  refs_wf (st_heap s) → env_outbound env (spec_Tag spec) = Some detour →
  let r := fresh_member env spec detour s in
  extends s r.1 ∧ resolved env spec r.1 r.2.
Proof.
  intros Hwf Hd. cbn zeta. unfold fresh_member.
  pose proof (acquire_same_refs (spec_Tag spec) (st_heap s)) as Ha.
  destruct (acquireSharedState (spec_Tag spec) (st_heap s)) as [c h1]. cbn [snd] in Ha.
  assert (Halloc : same_refs h1 (member_runtime (spec_Tag spec) detour c (p_runtimeByTag (st_pool s)) h1).1.2).
  { unfold member_runtime. destruct (_ !! _) as [rp|]; [destruct (decide _); [done|]|];
      apply (newRuntime_same_refs (Some detour) (Some c) h1). }
  pose proof (member_runtime_exists (spec_Tag spec) detour c (p_runtimeByTag (st_pool s)) h1) as Hrp.
  destruct (member_runtime _ _ _ _ _) as [[rp h2] byTag]. cbn [fst snd] in Halloc, Hrp.
  set (h3 := with_runtime rp (set_retired false) h2).
  assert (H3 : same_refs (st_heap s) h3).
  { etrans; [exact Ha|]. etrans; [exact Halloc|]. apply with_runtime_same_refs. }
  pose proof (attach_new_ref env (mkRef (Some detour) (spec_Tag spec) (entryHandle c h3) (Some c) (Some rp)
    (spec_Meta spec) (-1)) h3 s (set_runtimeByTag byTag) Hwf H3) as Hn.
  destruct Hn as (He & Hs & Hst & Hrt & _); [by intros []|].
  assert (Hruns : runtimes (new_ref (mkRef (Some detour) (spec_Tag spec) (entryHandle c h3) (Some c)
    (Some rp) (spec_Meta spec) (-1)) h3).2 = runtimes h3) by done.
  destruct (new_ref _ h3) as [r h4]. cbn [fst snd] in *. split; [done|].
  unfold ref_static in Hst. cbn in Hst, Hrt. simplify_eq.
  split_and!; [done|congruence|congruence|congruence|]. exists rp. split; [done|].
  apply (ext_runtimes _ _ (attach_extends env _ _)). cbn. rewrite Hruns. cbn.
  by rewrite lookup_alter_is_Some.
Qed.

Lemma resolve_member_spec env spec s :
  topo_wf s → is_Some (env_outbound env (spec_Tag spec)) →
  let r := resolve_member env spec s in
  extends s r.1 ∧ resolved env spec r.1 r.2 ∧ keeps env spec s r.1 r.2.
Proof.
  intros [T1 T2 _] [detour Hd]. cbn zeta. unfold resolve_member, keeps. rewrite Hd. cbn [default from_option id].
  destruct (p_topologyByTag (st_pool s) !! spec_Tag spec) as [old|] eqn:Eb.
  2: { destruct (fresh_member_spec env spec detour s T1 Hd). by split_and!. }
  destruct (T2 _ _ Eb) as (Hs & Ht & Hrt).
  destruct (decide (ref_outbound (member old (st_heap s)) = Some detour)) as [Ho|Ho].
  - destruct (decide (ref_meta (member old (st_heap s)) = spec_Meta spec)) as [Hm|Hm]; cbn [fst snd].
    + split_and!; [done| |by intros ? [= <-]].
      unfold resolved. rewrite Hd. by split_and!.
    + unfold renamed_member. set (m := mkRef _ _ _ _ _ _ _).
      destruct (attach_new_ref env m (st_heap s) s id T1) as (He & His & Hst & Hrt' & _);
        [by split|by intros []|].
      destruct (new_ref m (st_heap s)) as [r h1]. cbn [fst snd] in *.
      change (with_heap (λ _, h1) s) with (with_pool id (with_heap (λ _, h1) s)).
      split_and!; [done| |].
      * unfold resolved. rewrite Hd, Hrt'. unfold ref_static in Hst. cbn in Hst. simplify_eq.
        destruct Hrt as (rp & Hrt & Hrp). split_and!; [done|congruence..|].
        exists rp. split; [exact Hrt|]. by apply (ext_runtimes _ _ He).
      * intros ? [= <-] _. rewrite Hrt'. split; [done|]. intros ?. done.
  - destruct (fresh_member_spec env spec detour s T1 Hd). split_and!; [done..|].
    intros ? [= <-] ?. congruence.
Qed.

Lemma keeps_extends env spec s0 s s' s'' r :
  refs_wf (st_heap s0) → (∀ tag q, p_topologyByTag (st_pool s0) !! tag = Some q → is_Some (refs (st_heap s0) !! q)) →
  extends s0 s → extends s' s'' → refs_wf (st_heap s') → is_Some (refs (st_heap s') !! r) →
  keeps env spec s s' r → keeps env spec s0 s'' r.
Proof.
  intros Hwf0 Hb0 He0 He Hwf Hr Hk old Hb Ho.
  pose proof (extends_fields _ _ He0) as (E1 & _). destruct He0 as [_ _ H0 _].
  destruct (H0 old Hwf0 (Hb0 _ _ Hb)) as (_ & Hst & Hrt). unfold ref_static in Hst.
  destruct (Hk old) as [Hk1 Hk2]; [by rewrite E1|congruence|].
  destruct He as [_ _ H1 _]. destruct (H1 r Hwf Hr) as (_ & _ & Hrt').
  split; [congruence|]. intros Hm. apply Hk2. congruence.
Qed.

Lemma resolve_members_spec env specs : ∀ s,
  topo_wf s → Forall (λ spec, is_Some (env_outbound env (spec_Tag spec))) specs →
  let r := resolve_members env specs s in
  extends s r.1 ∧
  Forall2 (λ spec q, resolved env spec r.1 q ∧ keeps env spec s r.1 q) specs r.2.
Proof.
  induction specs as [|spec specs IH]; intros s Ht Hall; [split; [reflexivity|constructor]|].
  apply Forall_cons in Hall as [Hsp Hall].
  destruct (resolve_member_spec env spec s Ht Hsp) as (He1 & Hr1 & Hk1). cbn.
  destruct (resolve_member env spec s) as [s1 q]. cbn [fst snd] in *.
  pose proof (extends_topo _ _ He1 Ht) as Ht1.
  destruct (IH s1 Ht1 Hall) as [He2 Hf2].
  destruct (resolve_members env specs s1) as [s2 qs]. cbn [fst snd] in *.
  split; [by etrans|]. constructor.
  - split; [by eapply resolved_extends; [apply tw_refs|..]|].
    eapply (keeps_extends env spec s s s1 s2); [apply tw_refs; done| |done|done|by apply tw_refs|by destruct Hr1|done].
    intros tag q' Hq'. by destruct (tw_byTag _ Ht _ _ Hq') as [? _].
  - eapply Forall2_impl; [exact Hf2|]. cbn. intros sp q' [Hr Hk]. split; [done|].
    eapply (keeps_extends env sp s s1 s2 s2); [apply tw_refs; done| |done|done| |by destruct Hr|done].
    + intros tag q'' Hq'. by destruct (tw_byTag _ Ht _ _ Hq') as [? _].
    + apply tw_refs. by eapply extends_topo.
Qed.

(** ** What a publication leaves alone *)
Record frame (h h' : heap) : Prop := {
  fr_wf : refs_wf h → refs_wf h';
  fr_refs : ∀ q, is_Some (refs h !! q) → is_Some (refs h' !! q);
  fr_static : ∀ q, ref_static (member q h') = ref_static (member q h);
  fr_runtime : ∀ q rp, ref_runtime (member q h) = Some rp → ref_runtime (member q h') = Some rp;
  fr_runtimes : ∀ rp, is_Some (runtimes h !! rp) → is_Some (runtimes h' !! rp);
  fr_retired : refs_wf h → ∀ rp, is_Some (runtimes h !! rp) →
    mr_retired (runtime_of rp h') = mr_retired (runtime_of rp h)
}.

#[global] Instance frame_preorder : PreOrder frame.
Proof.
  split; [by split|]. intros a b c [A1 A2 A3 A4 A5 A6] [B1 B2 B3 B4 B5 B6]. split.
  - auto.
  - auto.
  - intros q. by rewrite B3.
  - auto.
  - auto.
  - intros Hwf rp Hrp. rewrite B6, A6 by auto. done.
Qed.

Lemma frame_cells h h' :
  refs h' = refs h → runtimes h' = runtimes h → next h ≤ next h' → frame h h'.
Proof.
  intros Hr Hrt Hn. assert (Hm : ∀ q, member q h' = member q h) by (intros; unfold member; by rewrite Hr).
  split; try (intros; rewrite ?Hm, ?Hr, ?Hrt; done).
  - intros [W1 W2]. split; intros q Hq; [rewrite Hr; apply W1|rewrite Hrt; apply W2]; lia.
  - intros _ rp _. unfold runtime_of. by rewrite Hrt.
Qed.

Lemma runtime_of_with_runtime rp f h q :
  is_Some (runtimes h !! q) →
  runtime_of q (with_runtime rp f h) = if decide (q = rp) then f (runtime_of q h) else runtime_of q h.
Proof.
  intros [x Hx]. unfold runtime_of, with_runtime. cbn. destruct (decide (q = rp)) as [->|].
  - by rewrite lookup_alter_eq, Hx.
  - by rewrite lookup_alter_ne.
Qed.

Lemma frame_with_runtime rp f h :
  (∀ r, mr_retired (f r) = mr_retired r) → frame h (with_runtime rp f h).
Proof.
  intros Hf. split; try done.
  - intros Hwf. eapply same_refs_wf; [apply with_runtime_same_refs|done].
  - intros q. cbn. by rewrite lookup_alter_is_Some.
  - intros _ q Hq. rewrite runtime_of_with_runtime by done. destruct (decide _); [apply Hf|done].
Qed.

Lemma frame_with_ref r f h :
  (∀ m, ref_static (f m) = ref_static m) →
  (∀ m rp, ref_runtime m = Some rp → ref_runtime (f m) = Some rp) → frame h (with_ref r f h).
Proof.
  intros Hs Hrt. split; try done.
  - intros [W1 W2]. split; [|done]. intros q Hq. cbn. rewrite lookup_alter_None. by apply W1.
  - intros q. cbn. by rewrite lookup_alter_is_Some.
  - intros q. by apply member_with_ref.
  - intros q rp. unfold member, with_ref. cbn. destruct (decide (q = r)) as [->|].
    + rewrite lookup_alter_eq. destruct (refs h !! r); cbn; [apply Hrt|done].
    + by rewrite lookup_alter_ne.
Qed.

Lemma frame_new_runtime d c h : frame h (newMemberRuntime d c h).2.
Proof.
  pose proof (newRuntime_same_refs d c h) as Hs. split; [by apply same_refs_wf| | | |by apply sr_runtimes|].
  - intros q. by rewrite (sr_refs _ _ Hs).
  - intros q. by rewrite (same_refs_member _ _ q Hs).
  - intros q rp. by rewrite (same_refs_member _ _ q Hs).
  - intros [_ Hwf] rp [x Hx]. unfold runtime_of.
    assert (runtimes (newMemberRuntime d c h).2 !! rp = runtimes h !! rp) as ->; [|done].
    assert (rp ≠ next h) by (intros ->; rewrite Hwf in Hx by lia; done).
    unfold newMemberRuntime. destruct c; cbn; by rewrite lookup_insert_ne.
Qed.

Lemma frame_ensure r h : frame h (ensureMemberRuntime r h).2.
Proof.
  unfold ensureMemberRuntime. destruct (ref_runtime (member r h)) eqn:E; [done|].
  pose proof (frame_new_runtime (ref_outbound (member r h)) (ref_shared (member r h)) h) as Hf.
  pose proof (newRuntime_same_refs (ref_outbound (member r h)) (ref_shared (member r h)) h) as Hs.
  destruct (newMemberRuntime _ _ h) as [rp h1]. cbn [snd] in *.
  destruct Hf as [F1 F2 F3 F4 F5 F6]. split.
  - intros Hwf. apply F1 in Hwf as [W1 W2]. split; [|done]. intros q Hq. cbn. rewrite lookup_alter_None. by apply W1.
  - intros q Hq. cbn. rewrite lookup_alter_is_Some. auto.
  - intros q. rewrite member_with_ref by done. apply F3.
  - intros q rp' Hq. assert (q ≠ r) by congruence. unfold member, with_ref. cbn.
    rewrite lookup_alter_ne by done. by apply F4.
  - done.
  - done.
Qed.

Lemma frame_isBlacklisted now c h : frame h (isBlacklisted now c h).1.
Proof.
  unfold isBlacklisted. cbn. destruct (blacklist_expired _ _); [|done].
  unfold on_entry. destruct (sh_entry _); by apply frame_cells.
Qed.

Lemma frame_memberAvailable env s r now :
  frame (st_heap s) (st_heap (memberAvailableForSnapshot env s r now).1).
Proof.
  assert (Hg : ∀ s provisional, frame (st_heap s) (st_heap (groupThenBlacklist s now provisional r).1)).
  { clear s. intros s provisional. unfold groupThenBlacklist, groupAdmits.
    assert (Hb : ∀ s, frame (st_heap s) (st_heap (notBlacklisted s now r).1)).
    { clear s. intros s. unfold notBlacklisted. destruct (ref_shared _); [|done]. apply frame_isBlacklisted. }
    destruct (decide _); [apply Hb|]. destruct provisional.
    - destruct (MemberNotEvicted _ _ _); [apply Hb|done].
    - destruct (MemberAvailable _ _ _ _) as [w []]; [|done]. cbn. apply (Hb (with_groups (λ _, w) s)). }
  unfold memberAvailableForSnapshot. destruct (env_monitor env) as [mv|]; [|apply Hg].
  destruct (monitorSnapshot s mv r) as [m|].
  - assert (H1 : frame (st_heap s) (with_ref r (set_latency (mo_LastLatencyMs m)) (st_heap s))).
    { by apply frame_with_ref. }
    destruct (_ && _); [exact H1|]. etrans; [exact H1|].
    apply (Hg (with_heap (with_ref r (set_latency (mo_LastLatencyMs m))) s)).
  - destruct (_ && _); [done|apply Hg].
Qed.

Lemma frame_judge_all env now members s :
  frame (st_heap s) (st_heap (judge_all env now members s).1).
Proof.
  revert s. induction members as [|r members IH]; intros s; [done|]. cbn.
  assert (Hj : frame (st_heap s) (st_heap (judge env now r s).1)).
  { rewrite judge_unfold. cbn [fst]. etrans; [|apply frame_memberAvailable]. cbn [st_heap with_heap].
    etrans; [apply frame_ensure|]. by apply frame_with_runtime. }
  destruct (judge env now r s) as [s1 v]. specialize (IH s1).
  destruct (judge_all env now members s1). cbn in *. by etrans.
Qed.

Lemma frame_release_pins members h : frame h (release_pins members h).
Proof.
  unfold release_pins. revert h. induction members as [|r members IH]; intros h; [done|]. cbn.
  etrans; [|apply IH]. destruct (ref_runtime _); [|done]. by apply frame_with_runtime.
Qed.

Lemma publish_frame env now members s :
  let s' := publishSnapshotLocked env now members s in
  frame (st_heap s) (st_heap s') ∧
  st_pool s' = set_snapshots (p_current (st_pool s')) (p_snapshots (st_pool s')) (st_pool s).
Proof.
  cbn zeta. unfold publishSnapshotLocked.
  destruct (publish_members_judge env now members s) as [Hs1 _].
  pose proof (frame_judge_all env now members s) as Hf.
  pose proof (quiet_pool _ _ _ (quiet_judge_all env now members s)) as Hp.
  destruct (publish_members env now members s) as [s1 [[ms tcp] udp]]. cbn [fst] in Hs1. subst s1.
  set (s1 := (judge_all env now members s).1) in *.
  assert (Hrel : ∀ v s2, frame (st_heap s2) (st_heap (releaseSnapshotMembers v s2)) ∧
    st_pool (releaseSnapshotMembers v s2) =
      set_snapshots (p_current (st_pool (releaseSnapshotMembers v s2)))
        (p_snapshots (st_pool (releaseSnapshotMembers v s2))) (st_pool s2)).
  { intros v s2. unfold releaseSnapshotMembers.
    destruct (_ !! v); [|split; [done|by destruct s2 as [[]]]].
    destruct (sn_released _); [split; [done|by destruct s2 as [[]]]|].
    split; [apply frame_release_pins|by destruct s2 as [[]]]. }
  match goal with |- context [with_pool ?f s1] => set (s2 := with_pool f s1) end.
  assert (H2 : st_pool s2 = set_snapshots (p_current (st_pool s2)) (p_snapshots (st_pool s2)) (st_pool s)).
  { unfold s2. cbn. by rewrite Hp. }
  assert (Hh2 : st_heap s2 = st_heap s1) by done. clearbody s2.
  destruct (p_current (st_pool s)) as [v|]; [|by rewrite Hh2].
  destruct (p_snapshots (st_pool s2) !! v) as [old|]; [|by rewrite Hh2].
  destruct (decide _); [|by rewrite Hh2].
  destruct (Hrel v s2) as [Hr1 Hr2]. split; [etrans; [exact Hf|by rewrite <-Hh2]|].
  rewrite Hr2, H2. done.
Qed.

Lemma frame_topo s s' :
  frame (st_heap s) (st_heap s') →
  p_topologyByTag (st_pool s') = p_topologyByTag (st_pool s) →
  p_topology (st_pool s') = p_topology (st_pool s) → topo_wf s → topo_wf s'.
Proof.
  intros [F1 F2 F3 F4 F5 _] E1 E2 [T1 T2 T3].
  assert (Ht : ∀ q, ref_tag (member q (st_heap s')) = ref_tag (member q (st_heap s))).
  { intros q. pose proof (F3 q). unfold ref_static in *. congruence. }
  split; [auto| |].
  - intros tag r. rewrite E1, Ht. intros Hb. destruct (T2 _ _ Hb) as (Hs & Htag & rp & Hrt & Hrp).
    split_and!; [auto|done|]. exists rp. auto.
  - intros r. rewrite E1, E2, Ht. auto.
Qed.

Lemma frame_resolved env spec s s' r :
  frame (st_heap s) (st_heap s') → resolved env spec s r → resolved env spec s' r.
Proof.
  intros [F1 F2 F3 F4 F5 _] (Hs & Ho & Ht & Hm & rp & Hrt & Hrp).
  pose proof (F3 r) as Hst. unfold ref_static in Hst. unfold resolved.
  split_and!; [auto|congruence..|]. exists rp. auto.
Qed.

Lemma frame_keeps env spec s0 s s' r :
  frame (st_heap s) (st_heap s') → resolved env spec s r →
  keeps env spec s0 s r → keeps env spec s0 s' r.
Proof.
  intros [_ _ _ F4 _ _] (_ & _ & _ & _ & rp & Hrt & _) Hk old Hb Ho.
  destruct (Hk old Hb Ho) as [Hk1 Hk2]. split; [|done]. rewrite <-Hk1, Hrt. by apply F4.
Qed.

Lemma index_by_tag_spec members h tag r :
  NoDup ((λ q, ref_tag (member q h)) <$> members) →
  index_by_tag members h !! tag = Some r ↔ r ∈ members ∧ ref_tag (member r h) = tag.
Proof.
  unfold index_by_tag. induction members as [|q members IH] using rev_ind.
  - intros _. cbn. rewrite lookup_empty. split; [done|]. by intros [?%elem_of_nil _].
  - rewrite fmap_app, NoDup_app. intros (Hnd & Hdisj & _). rewrite foldl_app. cbn [foldl].
    rewrite elem_of_app, list_elem_of_singleton.
    destruct (decide (ref_tag (member q h) = tag)) as [<-|Hne].
    + rewrite lookup_insert_eq. split.
      * intros [= <-]. auto.
      * intros [[Hin| ->] Ht]; [|done]. exfalso. apply (Hdisj (ref_tag (member q h))).
        -- rewrite <-Ht. apply list_elem_of_fmap. eauto.
        -- cbn. set_solver.
    + rewrite lookup_insert_ne, IH by done. naive_solver.
Qed.

Lemma retire_frames retired h :
  refs (retire retired h) = refs h ∧ same_refs h (retire retired h).
Proof.
  unfold retire. revert h. induction retired as [|r retired IH]; intros h; [done|]. cbn.
  set (h1 := match ref_runtime _ with Some rp => _ | None => h end).
  assert (H1 : refs h1 = refs h ∧ same_refs h h1).
  { unfold h1. destruct (ref_runtime _); [|done]. split; [done|apply with_runtime_same_refs]. }
  destruct H1 as [E1 S1], (IH h1) as [E2 S2]. split; [congruence|by etrans].
Qed.

Lemma retire_flags retired h r rp :
  r ∈ retired → ref_runtime (member r h) = Some rp → is_Some (runtimes h !! rp) →
  mr_retired (runtime_of rp (retire retired h)) = true.
Proof.
  assert (Hkeep : ∀ retired h rp, is_Some (runtimes h !! rp) → mr_retired (runtime_of rp h) = true →
            mr_retired (runtime_of rp (retire retired h)) = true).
  { clear. unfold retire. induction retired as [|r retired IH]; intros h rp Hrp Ht; [done|]. cbn.
    destruct (ref_runtime _) as [rp'|]; [|by apply IH]. apply IH.
    - cbn. by rewrite lookup_alter_is_Some.
    - rewrite runtime_of_with_runtime by done. by destruct (decide _). }
  revert h. induction retired as [|q retired IH]; intros h Hin Hrt Hrp; [by apply elem_of_nil in Hin|].
  apply elem_of_cons in Hin as [->|Hin].
  - unfold retire. cbn. rewrite Hrt. apply Hkeep.
    + cbn. by rewrite lookup_alter_is_Some.
    + rewrite runtime_of_with_runtime by done. by rewrite decide_True.
  - unfold retire. cbn. destruct (ref_runtime (member q h)) as [rp'|]; [|by apply IH].
    apply IH; [done|done|]. cbn. by rewrite lookup_alter_is_Some.
Qed.

Lemma alter_version f k (m : gmap Z PoolSnapshot) v :
  (∀ x, sn_Version (f x) = sn_Version x) →
  sn_Version <$> alter f k m !! v = sn_Version <$> m !! v.
Proof.
  intros Hf. destruct (decide (v = k)) as [->|].
  - rewrite lookup_alter_eq. destruct (m !! k); cbn; [by rewrite Hf|done].
  - by rewrite lookup_alter_ne.
Qed.

Lemma release_versions k s v :
  sn_Version <$> p_snapshots (st_pool (releaseSnapshotMembers k s)) !! v =
  sn_Version <$> p_snapshots (st_pool s) !! v.
Proof.
  unfold releaseSnapshotMembers. destruct (p_snapshots (st_pool s) !! k); [|done].
  destruct (sn_released _); [done|]. by apply alter_version.
Qed.

Lemma publish_versions env now members s v :
  v ≠ next_version (st_pool s) →
  sn_Version <$> p_snapshots (st_pool (publishSnapshotLocked env now members s)) !! v =
  sn_Version <$> p_snapshots (st_pool s) !! v.
Proof.
  intros Hv. unfold publishSnapshotLocked.
  pose proof (quiet_pool _ _ _ (quiet_judge_all env now members s)) as Hp.
  destruct (publish_members_judge env now members s) as [Hs1 _].
  destruct (publish_members env now members s) as [s1 [[ms tcp] udp]]. cbn [fst] in Hs1. subst s1.
  match goal with |- context [with_pool ?f ?s1] => set (s2 := with_pool f s1) end.
  assert (H2 : sn_Version <$> p_snapshots (st_pool s2) !! v = sn_Version <$> p_snapshots (st_pool s) !! v).
  { unfold s2. cbn. rewrite Hp, lookup_insert_ne by done.
    destruct (p_current (st_pool s)); [by apply alter_version|done]. }
  clearbody s2. destruct (p_current (st_pool s)) as [k|]; [|done].
  destruct (p_snapshots (st_pool s2) !! k); [|done]. destruct (decide _); [|done].
  by rewrite release_versions.
Qed.

Lemma publish_snapshots_wf env now members s :
  snapshots_wf (st_pool s) → snapshots_wf (st_pool (publishSnapshotLocked env now members s)).
Proof.
  intros Hwf. destruct (publish_current env now members s Hwf) as [Hcur Hc].
  unfold current_snapshot in Hcur. rewrite Hc in Hcur. cbn in Hcur. split.
  - intros v. rewrite Hc. intros [= <-]. by eexists.
  - intros v snap Hs. destruct (decide (v = next_version (st_pool s))) as [->|Hne].
    + rewrite Hcur in Hs. simplify_eq. split; [by apply build_snapshot_views|].
      unfold next_version. destruct (current_snapshot _); [apply Z.mod_pos_bound; lia|lia].
    + pose proof (publish_versions env now members s v Hne) as Hver. rewrite Hs in Hver.
      destruct (p_snapshots (st_pool s) !! v) as [old|] eqn:Hold; [|done]. cbn in Hver.
      destruct (wf_version _ Hwf _ _ Hold). injection Hver as Hver. split; [congruence|done].
Qed.

(** ** Reconciliation *)

(** What a policy may change: everything but the members and the snapshots. *)
Definition policy_frame (f : state → state) : Prop :=
  ∀ s, st_heap (f s) = st_heap s ∧ p_topologyByTag (st_pool (f s)) = p_topologyByTag (st_pool s) ∧
       p_topology (st_pool (f s)) = p_topology (st_pool s) ∧
       p_currentMember (st_pool (f s)) = p_currentMember (st_pool s) ∧
       p_current (st_pool (f s)) = p_current (st_pool s) ∧
       p_snapshots (st_pool (f s)) = p_snapshots (st_pool s).

Lemma policy_frame_topo f s : policy_frame f → topo_wf s → topo_wf (f s).
Proof.
  intros Hf [T1 T2 T3]. destruct (Hf s) as (E1 & E2 & E3 & _).
  split; [by rewrite E1|by intros tag r; rewrite E1, E2; apply T2|by intros r; rewrite E1, E2, E3; apply T3].
Qed.

Lemma refresh_pool env s :
  st_heap (refreshHealthSubscriptionLocked env s) = st_heap s ∧
  ∃ hs, st_pool (refreshHealthSubscriptionLocked env s) =
    set_subscriptions hs (p_groupSubscribed (st_pool s)) (p_schedule (st_pool s))
      (p_registration (st_pool s)) (st_pool s).
Proof.
  unfold refreshHealthSubscriptionLocked. destruct (env_monitor env); [|split; [done|]].
  - split; [done|]. by eexists.
  - exists (p_healthSubscription (st_pool s)). by destruct s as [[]].
Qed.

Lemma index_by_tag_ext members h h' :
  (∀ q, ref_tag (member q h') = ref_tag (member q h)) → index_by_tag members h' = index_by_tag members h.
Proof.
  intros Ht. unfold index_by_tag. generalize (∅ : gmap string Z).
  induction members as [|q members IH]; intros m; [done|]. cbn. by rewrite Ht, IH.
Qed.

(** The heap after the gates were closed. *)
Lemma retire_resolved env spec h h' p r :
  same_refs h h' → resolved env spec (mkState p h empty_world []) r →
  resolved env spec (mkState p h' empty_world []) r.
Proof.
  intros Hs (A & B & C & D & rp & E & F). unfold resolved in *. cbn [st_heap] in *.
  rewrite (same_refs_member _ _ r Hs), (sr_refs _ _ Hs). split_and!; [done..|].
  exists rp. split; [done|]. by apply (sr_runtimes _ _ Hs).
Qed.

(** The state just before the publication of a successful reconciliation. *)
Definition reconciled (env : Env) (specs : list RuntimeMemberSpec) (s : state) : state * list Z :=
  let '(s1, next) := resolve_members env specs s in
  let seen := list_to_set (C := gset string) (spec_Tag <$> specs) in
  let retired := filter (λ r, ref_tag (member r (st_heap s1)) ∉ seen) (p_topology (st_pool s)) in
  let s2 := with_pool (set_topology next (index_by_tag next (st_heap s1))) s1 in
  let s3 := refreshHealthSubscriptionLocked env s2 in
  let s4 := with_pool (set_currentMember
              (nextCurrent s3 (p_topology (st_pool s)) next (p_currentMember (st_pool s)))) s3 in
  (with_heap (retire retired) s4, retired).

Lemma Forall2_tags (env : Env) s specs next :
  Forall2 (λ spec q, resolved env spec s q) specs next →
  (λ q, ref_tag (member q (st_heap s))) <$> next = spec_Tag <$> specs.
Proof.
  induction 1 as [|spec q specs next Hr Hf IH]; [done|]. cbn. f_equal; [|done].
  by destruct Hr as (_ & _ & ? & _).
Qed.

Lemma reconciled_spec env specs s :
  topo_wf s → valid_specs env specs →
  let r := reconciled env specs s in
  topo_wf r.1 ∧
  Forall2 (λ spec q, resolved env spec r.1 q ∧ keeps env spec s r.1 q) specs (p_topology (st_pool r.1)) ∧
  r.2 = filter (λ q, ref_tag (member q (st_heap s)) ∉
                 list_to_set (C := gset string) (spec_Tag <$> specs)) (p_topology (st_pool s)) ∧
  (∀ q rp, q ∈ r.2 → ref_runtime (member q (st_heap s)) = Some rp →
     is_Some (runtimes (st_heap r.1) !! rp) ∧ mr_retired (runtime_of rp (st_heap r.1)) = true) ∧
  p_topologyByTag (st_pool r.1) = index_by_tag (p_topology (st_pool r.1)) (st_heap r.1) ∧
  p_current (st_pool r.1) = p_current (st_pool s) ∧ p_snapshots (st_pool r.1) = p_snapshots (st_pool s).
Proof.
  intros Ht [Hnd Hall]. cbn zeta. unfold reconciled.
  assert (Hall' : Forall (λ spec, is_Some (env_outbound env (spec_Tag spec))) specs).
  { eapply Forall_impl; [exact Hall|]. naive_solver. }
  destruct (resolve_members_spec env specs s Ht Hall') as [He Hf2].
  destruct (resolve_members env specs s) as [s1 next]. cbn [fst snd] in *.
  pose proof (extends_fields _ _ He) as (E1 & E2 & _ & _ & _ & E6 & E7).
  pose proof (extends_topo _ _ He Ht) as Ht1.
  assert (Htags : (λ q, ref_tag (member q (st_heap s1))) <$> next = spec_Tag <$> specs).
  { eapply Forall2_tags, Forall2_impl; [exact Hf2|]. naive_solver. }
  set (retired := filter _ (p_topology (st_pool s))).
  assert (Hret : retired = filter (λ q, ref_tag (member q (st_heap s)) ∉
                 list_to_set (C := gset string) (spec_Tag <$> specs)) (p_topology (st_pool s))).
  { unfold retired. apply filter_ext_in. intros q Hq.
    pose proof (tw_topology _ Ht q Hq) as Hb. destruct (tw_byTag _ Ht _ _ Hb) as (Hs & _).
    destruct (ext_refs _ _ He q (tw_refs _ Ht) Hs) as (_ & Hst & _). unfold ref_static in Hst.
    assert (ref_tag (member q (st_heap s1)) = ref_tag (member q (st_heap s))) as -> by congruence. done. }
  match goal with |- context [refreshHealthSubscriptionLocked env ?x] => set (s2 := x) end.
  destruct (refresh_pool env s2) as [Hh3 [hs Hp3]].
  set (s3 := refreshHealthSubscriptionLocked env s2) in *.
  match goal with |- context [set_currentMember ?c] => set (current := c) end.
  destruct (retire_frames retired (st_heap s3)) as [_ Hsame].
  assert (Hh : st_heap s3 = st_heap s1) by (rewrite Hh3; done). rewrite Hh in Hsame.
  assert (Htop : p_topology (st_pool s3) = next) by (rewrite Hp3; done).
  assert (Hby : p_topologyByTag (st_pool s3) = index_by_tag next (st_heap s1)) by (rewrite Hp3; done).
  assert (Hc : p_current (st_pool s3) = p_current (st_pool s)) by (rewrite Hp3; done).
  assert (Hsn : p_snapshots (st_pool s3) = p_snapshots (st_pool s)) by (rewrite Hp3; done).
  clearbody s3 current. cbn [fst snd st_heap st_pool with_heap with_pool set_currentMember
    p_topology p_topologyByTag p_current p_snapshots].
  rewrite Hh, Htop, Hby.
  assert (Hmem : ∀ q, member q (retire retired (st_heap s1)) = member q (st_heap s1)).
  { intros q. by apply same_refs_member. }
  assert (Hres : ∀ sF, st_heap sF = retire retired (st_heap s1) →
    Forall2 (λ spec q, resolved env spec sF q ∧ keeps env spec s sF q) specs next).
  { intros sF HsF. eapply Forall2_impl; [exact Hf2|]. intros spec q [Hr Hk]. split.
    - unfold resolved. rewrite HsF.
      exact (retire_resolved env spec _ _ (st_pool s) q Hsame Hr).
    - intros old Hb Ho. rewrite HsF, Hmem. by apply Hk. }
  assert (Hindex : ∀ tag r, index_by_tag next (st_heap s1) !! tag = Some r ↔
    r ∈ next ∧ ref_tag (member r (st_heap s1)) = tag).
  { intros tag r. apply index_by_tag_spec. by rewrite Htags. }
  split_and!.
  - split; cbn [st_heap st_pool with_heap with_pool set_currentMember p_topologyByTag p_topology];
      rewrite ?Hh.
    + eapply same_refs_wf; [exact Hsame|apply Ht1].
    + rewrite Hby. intros tag r [Hr Htag]%Hindex. rewrite Hmem.
      apply list_elem_of_lookup in Hr as [i Hi].
      set (sF := mkState (st_pool s) (retire retired (st_heap s1)) empty_world []).
      destruct (Forall2_lookup_r _ _ _ _ _ (Hres sF eq_refl) Hi)
        as (spec & _ & (Hs & _ & _ & _ & rp & Hrt & Hrp) & _).
      cbn [st_heap sF] in *. rewrite Hmem in Hrt. split_and!; [done|done|]. by exists rp.
    + rewrite Hby, Htop. intros r Hr. rewrite Hmem. by apply Hindex.
  - apply Hres. cbn. by rewrite Hh.
  - done.
  - rewrite Hret. intros q rp [Hseen Hq]%list_elem_of_filter Hrt.
    pose proof (tw_topology _ Ht q Hq) as Hb. destruct (tw_byTag _ Ht _ _ Hb) as (Hs & _ & rp' & Hrt' & Hrp).
    assert (rp' = rp) as -> by congruence.
    destruct (ext_refs _ _ He q (tw_refs _ Ht) Hs) as (_ & _ & Hrt1).
    pose proof (ext_runtimes _ _ He rp Hrp) as Hrp1. rewrite <-Hret. split.
    + by apply (sr_runtimes _ _ Hsame).
    + apply (retire_flags retired (st_heap s1) q); [|congruence|done].
      rewrite Hret. by apply list_elem_of_filter.
  - symmetry. apply index_by_tag_ext. intros q. by rewrite Hmem.
  - exact Hc.
  - exact Hsn.
Qed.

Lemma nextCurrent_ext s s' oldTopology next oldCurrent :
  p_topologyByTag (st_pool s') = p_topologyByTag (st_pool s) →
  p_options (st_pool s') = p_options (st_pool s) → p_mode (st_pool s') = p_mode (st_pool s) →
  (∀ q, ref_static (member q (st_heap s')) = ref_static (member q (st_heap s))) →
  nextCurrent s' oldTopology next oldCurrent = nextCurrent s oldTopology next oldCurrent.
Proof.
  intros Hby Ho Hm Hst. unfold nextCurrent, next_by_node, next_fixed. destruct oldCurrent as [c|]; [|done].
  assert (Ht : ∀ q, ref_tag (member q (st_heap s')) = ref_tag (member q (st_heap s))).
  { intros q. pose proof (Hst q). unfold ref_static in *. congruence. }
  assert (Hmeta : ∀ q, memberMeta s' (Some q) = memberMeta s (Some q)).
  { intros q. unfold memberMeta. rewrite Ho, Ht.
    assert (ref_meta (member q (st_heap s')) = ref_meta (member q (st_heap s))) as ->; [|done].
    pose proof (Hst q). unfold ref_static in *. congruence. }
  rewrite Hby, Ht, Hm, Hmeta.
  rewrite (filter_ext_in (λ r, mm_NodeID (memberMeta s' (Some r)) = mm_NodeID (memberMeta s (Some c)))
    (λ r, mm_NodeID (memberMeta s (Some r)) = mm_NodeID (memberMeta s (Some c))))
    by (intros q _; by rewrite Hmeta).
  destruct (_ !! _); [done|]. destruct (if decide _ then None else _); [done|].
  destruct (decide _); [|done]. destruct (index_of c oldTopology) as [i|]; [|done].
  f_equal. apply list_omap_ext. apply Forall_Forall2_diag, Forall_forall. intros q _. by rewrite Ht.
Qed.

Lemma index_by_tag_in members h tag r : index_by_tag members h !! tag = Some r → r ∈ members.
Proof.
  unfold index_by_tag. induction members as [|q members IH] using rev_ind; [cbn; by rewrite lookup_empty|].
  rewrite foldl_app. cbn [foldl]. intros [[_ <-]|[_ Hr]]%lookup_insert_Some; set_solver.
Qed.

Lemma head_elem_of {A} (l : list A) x : head l = Some x → x ∈ l.
Proof. destruct l; [done|]. intros [= ->]. set_solver. Qed.

Lemma nextCurrent_in s oldTopology next oldCurrent :
  (∀ t r, p_topologyByTag (st_pool s) !! t = Some r → r ∈ next) →
  ∀ r, nextCurrent s oldTopology next oldCurrent = Some r → r ∈ next.
Proof.
  intros Hin r. unfold nextCurrent. destruct oldCurrent as [c|]; [|done].
  destruct (p_topologyByTag (st_pool s) !! _) as [q|] eqn:E; [intros [= <-]; by eapply Hin|].
  destruct (next_by_node _ _ _) as [q|] eqn:En.
  - intros [= <-]. unfold next_by_node in En. destruct (decide _); [done|].
    by apply head_elem_of, list_elem_of_filter in En as [_ ?].
  - destruct (decide _); [|done]. unfold next_fixed. destruct (index_of _ _); [|done].
    intros Hh%head_elem_of. apply list_elem_of_omap in Hh as (q & _ & Hq). by eapply Hin.
Qed.

Lemma nextCurrent_cases s oldTopology next c :
  let byTag := p_topologyByTag (st_pool s) in
  let tag r := ref_tag (member r (st_heap s)) in
  let node r := mm_NodeID (memberMeta s (Some r)) in
  let current := nextCurrent s oldTopology next (Some c) in
  (is_Some (byTag !! tag c) → current = byTag !! tag c) ∧
  (byTag !! tag c = None → node c ≠ 0 → (∃ r, r ∈ next ∧ node r = node c) →
     ∃ r, current = Some r ∧ node r = node c) ∧
  (byTag !! tag c = None → (∀ r, r ∈ next → node r ≠ node c ∨ node c = 0) →
     ∀ i, oldTopology !! i = Some c → NoDup oldTopology →
     current = if decide (p_mode (st_pool s) = modeFixed) then
                 head (omap (λ r, byTag !! tag r) (drop (S i) oldTopology ++ take (S i) oldTopology))
               else None).
Proof.
  cbn zeta. unfold nextCurrent. split_and!.
  - by intros [r ->].
  - intros -> Hn (r & Hr & Hnode). unfold next_by_node. rewrite decide_False by done.
    destruct (filter _ next) as [|q l] eqn:E.
    + exfalso. assert (r ∈ ([] : list Z)) as ?%elem_of_nil; [|done].
      rewrite <-E. by apply list_elem_of_filter.
    + exists q. split; [done|].
      assert (q ∈ q :: l) as Hq by set_solver. rewrite <-E in Hq. by apply list_elem_of_filter in Hq as [? _].
  - intros -> Hno i Hi Hnd.
    assert (next_by_node s next (mm_NodeID (memberMeta s (Some c))) = None) as ->.
    { unfold next_by_node. destruct (decide _); [done|]. rewrite filter_nothing; [done|].
      apply Forall_forall. intros r Hr. by destruct (Hno r Hr). }
    destruct (decide _); [|done]. unfold next_fixed.
    rewrite (proj2 (index_of_Some c _ i Hnd) Hi), after_cyclic_rotation; [done|].
    by eapply lookup_lt_Some.
Qed.

(** A successful reconciliation publishes the reconciled state. *)
Lemma reconcile_unfold env now specs applyPolicy s s' version retired :
  policy_frame applyPolicy →
  reconcileMembersWithPolicyLocked env now specs applyPolicy s = (s', Ok (version, retired)) →
  valid_specs env specs ∧
  (s', Ok (version, retired)) =
    let r := reconciled env specs (applyPolicy s) in
    let s6 := publishSnapshotLocked env now (p_topology (st_pool r.1)) r.1 in
    (s6, Ok (current_version s6, r.2)).
Proof.
  intros Hpol Hrec. destruct (Hpol s) as (P1 & P2 & P3 & P4 & P5 & P6).
  unfold reconcileMembersWithPolicyLocked in Hrec. destruct (p_closed (st_pool s)); [done|].
  destruct (validate_specs env specs ∅) eqn:Hval; [done|].
  split; [by apply validate_specs_None in Hval as [? _]|]. rewrite <-Hrec.
  unfold reconciled. rewrite P3, P4. destruct (resolve_members env specs (applyPolicy s)) as [s1 next].
  cbn [fst snd]. destruct (refresh_pool env (with_pool (set_topology next (index_by_tag next (st_heap s1))) s1))
    as [_ [hs Hp]]. set (s3 := refreshHealthSubscriptionLocked env _) in *.
  assert (Htop : p_topology (st_pool s3) = next) by (rewrite Hp; done).
  clearbody s3. cbn [st_pool with_heap with_pool set_currentMember p_topology]. by rewrite Htop.
Qed.

Lemma reconciled_current env specs s :
  let r := reconciled env specs s in
  p_currentMember (st_pool r.1) =
    nextCurrent r.1 (p_topology (st_pool s)) (p_topology (st_pool r.1)) (p_currentMember (st_pool s)).
Proof.
  cbn zeta. unfold reconciled. destruct (resolve_members env specs s) as [s1 next]. cbn [fst].
  set (retired := filter _ (p_topology (st_pool s))).
  match goal with |- context [refreshHealthSubscriptionLocked env ?x] => set (s2 := x) end.
  destruct (refresh_pool env s2) as [_ [hs Hp]].
  set (s3 := refreshHealthSubscriptionLocked env s2) in *.
  assert (Htop : p_topology (st_pool s3) = next) by (rewrite Hp; done). clearbody s3.
  cbn [st_pool with_heap with_pool set_currentMember p_currentMember p_topology]. rewrite Htop.
  symmetry. apply nextCurrent_ext; [done..|]. intros q. cbn.
  destruct (retire_frames retired (st_heap s3)) as [_ Hs]. by rewrite (same_refs_member _ _ q Hs).
Qed.

Lemma reconcile_installed env now specs applyPolicy s s' version retired :
  topo_wf s → snapshots_wf (st_pool s) → policy_frame applyPolicy →
  reconcileMembersWithPolicyLocked env now specs applyPolicy s = (s', Ok (version, retired)) →
  topo_wf s' ∧ snapshots_wf (st_pool s') ∧
  Forall2 (λ spec r, resolved env spec s' r ∧ keeps env spec s s' r) specs (p_topology (st_pool s')) ∧
  (∀ tag r, p_topologyByTag (st_pool s') !! tag = Some r ↔
     r ∈ p_topology (st_pool s') ∧ ref_tag (member r (st_heap s')) = tag) ∧
  retired = filter (λ r, ref_tag (member r (st_heap s)) ∉
              list_to_set (C := gset string) (spec_Tag <$> specs)) (p_topology (st_pool s)) ∧
  (∀ r rp, r ∈ retired → ref_runtime (member r (st_heap s)) = Some rp →
     mr_retired (runtime_of rp (st_heap s')) = true) ∧
  ∃ snap, current_snapshot (st_pool s') = Some snap ∧ sn_Version snap = version ∧
          elts (sn_allMembers snap) = p_topology (st_pool s').
Proof.
  intros Ht Hwf Hpol Hrec. destruct (Hpol s) as (P1 & P2 & P3 & P4 & P5 & P6).
  destruct (reconcile_unfold _ _ _ _ _ _ _ _ Hpol Hrec) as (Hvalid & Heq).
  destruct (reconciled_spec env specs (applyPolicy s) (policy_frame_topo _ _ Hpol Ht) Hvalid)
    as (Ht' & Hf2 & Hret & Hflag & Hby & Hcur & Hsn).
  destruct (reconciled env specs (applyPolicy s)) as [s5 ret]. cbn [fst snd] in *.
  injection Heq as -> -> ->. set (next := p_topology (st_pool s5)) in *.
  destruct (publish_frame env now next s5) as [Hfr Hpool].
  assert (Hwf5 : snapshots_wf (st_pool s5)).
  { destruct Hwf as [W1 W2]. split; [intros v; rewrite Hcur, Hsn, P5, P6; auto|].
    intros v snap. rewrite Hsn, P6. auto. }
  set (s6 := publishSnapshotLocked env now next s5) in *.
  assert (Htop6 : p_topology (st_pool s6) = next) by by rewrite Hpool.
  assert (Hby6 : p_topologyByTag (st_pool s6) = p_topologyByTag (st_pool s5)) by by rewrite Hpool.
  assert (Htag6 : ∀ q, ref_tag (member q (st_heap s6)) = ref_tag (member q (st_heap s5))).
  { intros q. pose proof (fr_static _ _ Hfr q). unfold ref_static in *. congruence. }
  split_and!.
  - by apply (frame_topo s5).
  - by apply publish_snapshots_wf.
  - rewrite Htop6. eapply Forall2_impl; [exact Hf2|]. intros spec q [Hr Hk]. split.
    + by apply (frame_resolved env spec s5).
    + intros old Hb Ho. rewrite <-P2 in Hb. rewrite <-P1 in Ho |- *.
      exact (frame_keeps env spec (applyPolicy s) s5 s6 q Hfr Hr Hk old Hb Ho).
  - intros tag r. rewrite Hby6, Hby, Htop6, Htag6. apply index_by_tag_spec.
    rewrite (Forall2_tags env s5 specs); [by destruct Hvalid|].
    eapply Forall2_impl; [exact Hf2|]. naive_solver.
  - by rewrite Hret, P1, P3.
  - rewrite P1 in Hflag. intros r rp Hr Hrt. destruct (Hflag r rp Hr Hrt) as [Hrp Hfl].
    rewrite (fr_retired _ _ Hfr); [done|apply Ht'|done].
  - destruct (publish_current env now next s5 Hwf5) as [Hc1 Hc2]. fold s6 in Hc1, Hc2.
    exists (published env now next s5). split; [done|]. unfold current_version. rewrite Hc2, Htop6.
    unfold published. destruct (publish_members env now next s5) as [s1 [[ms tcp] udp]].
    cbn [fst snd]. destruct (build_snapshot_views s1 (next_version (st_pool s5))
      (mkSlice Topology next) ms tcp udp) as (_ & -> & -> & _). done.
Qed.

(** A successful reconciliation installs exactly the requested members. The
    new topology has one reference per desired member, in the requested order,
    with the requested tag, metadata and the outbound the manager resolves; a
    member whose outbound is unchanged keeps its runtime counters, and one that is
    unchanged altogether keeps its very reference; the tag index is exact; the
    retired members are exactly the old ones whose tags are gone, their gate is
    closed, and the published snapshot covers the new topology. *)
Theorem reconcile_installs_the_specs env now specs applyPolicy s s' version retired :
  topo_wf s → snapshots_wf (st_pool s) → policy_frame applyPolicy →
  reconcileMembersWithPolicyLocked env now specs applyPolicy s = (s', Ok (version, retired)) →
  topo_wf s' ∧ snapshots_wf (st_pool s') ∧
  Forall2 (λ spec r, resolved env spec s' r ∧ keeps env spec s s' r) specs (p_topology (st_pool s')) ∧
  (∀ tag r, p_topologyByTag (st_pool s') !! tag = Some r ↔
     r ∈ p_topology (st_pool s') ∧ ref_tag (member r (st_heap s')) = tag) ∧
  retired = filter (λ r, ref_tag (member r (st_heap s)) ∉
              list_to_set (C := gset string) (spec_Tag <$> specs)) (p_topology (st_pool s)) ∧
  (∀ r rp, r ∈ retired → ref_runtime (member r (st_heap s)) = Some rp →
     mr_retired (runtime_of rp (st_heap s')) = true) ∧
  ∃ snap, current_snapshot (st_pool s') = Some snap ∧ sn_Version snap = version ∧
          elts (sn_allMembers snap) = p_topology (st_pool s').
Proof. apply reconcile_installed. Qed.

(** ** The current member *)
(** The current member never dangles. After a successful reconciliation it is
    unset or a member of the new topology: the member with the old one's tag if
    that tag survives, otherwise a member of the same node, and otherwise, in
    fixed mode only, the first survivor after the old member in the old order. *)
Theorem current_member_follows_the_topology env now specs applyPolicy s s' version retired :
  topo_wf s → snapshots_wf (st_pool s) → policy_frame applyPolicy →
  reconcileMembersWithPolicyLocked env now specs applyPolicy s = (s', Ok (version, retired)) →
  let byTag := p_topologyByTag (st_pool s') in
  let tag r := ref_tag (member r (st_heap s')) in
  let node r := mm_NodeID (memberMeta s' (Some r)) in
  let current := p_currentMember (st_pool s') in
  (∀ r, current = Some r → r ∈ p_topology (st_pool s')) ∧
  (p_currentMember (st_pool s) = None → current = None) ∧
  ∀ c, p_currentMember (st_pool s) = Some c →
    (is_Some (byTag !! tag c) → current = byTag !! tag c) ∧
    (byTag !! tag c = None → node c ≠ 0 → (∃ r, r ∈ p_topology (st_pool s') ∧ node r = node c) →
       ∃ r, current = Some r ∧ node r = node c) ∧
    (byTag !! tag c = None → (∀ r, r ∈ p_topology (st_pool s') → node r ≠ node c ∨ node c = 0) →
       ∀ i, p_topology (st_pool s) !! i = Some c → NoDup (p_topology (st_pool s)) →
       current = if decide (p_mode (st_pool s') = modeFixed) then
                   head (omap (λ r, byTag !! tag r)
                     (drop (S i) (p_topology (st_pool s)) ++ take (S i) (p_topology (st_pool s))))
                 else None).
Proof.
  intros Ht Hwf Hpol Hrec. destruct (Hpol s) as (P1 & P2 & P3 & P4 & P5 & P6).
  destruct (reconcile_unfold _ _ _ _ _ _ _ _ Hpol Hrec) as (Hvalid & Heq). cbn zeta in Heq.
  destruct (reconciled_spec env specs (applyPolicy s) (policy_frame_topo _ _ Hpol Ht) Hvalid)
    as (Ht' & _ & _ & _ & Hby & _).
  pose proof (reconciled_current env specs (applyPolicy s)) as Hcur. cbn zeta in Hcur.
  rewrite P3, P4 in Hcur.
  destruct (reconciled env specs (applyPolicy s)) as [s5 ret]. cbn [fst snd] in *.
  injection Heq as -> -> ->. set (next := p_topology (st_pool s5)) in *.
  destruct (publish_frame env now next s5) as [Hfr Hpool].
  set (s6 := publishSnapshotLocked env now next s5) in *.
  assert (Htop6 : p_topology (st_pool s6) = next) by by rewrite Hpool.
  assert (Hc6 : p_currentMember (st_pool s6) =
    nextCurrent s6 (p_topology (st_pool s)) next (p_currentMember (st_pool s))).
  { rewrite Hpool at 1. cbn. rewrite Hcur. symmetry.
    apply nextCurrent_ext; [by rewrite Hpool..|]. apply (fr_static _ _ Hfr). }
  assert (Ht6 : topo_wf s6) by (apply (frame_topo s5); [done|by rewrite Hpool..|done]).
  assert (Hin6 : ∀ t r, p_topologyByTag (st_pool s6) !! t = Some r → r ∈ next).
  { intros t r. rewrite Hpool. cbn. rewrite Hby. apply index_by_tag_in. }
  clearbody s6. clear Hcur Hfr Hpool Hby Ht'. cbn zeta. rewrite Hc6, Htop6. split_and!.
  - apply nextCurrent_in. exact Hin6.
  - by intros ->.
  - intros c ->. apply nextCurrent_cases.
Qed.

(** ** Concrete reconciliations *)

(** The well-formedness of a concrete state, by computation. *)
Definition topo_check (s : state) : bool :=
  let h := st_heap s in
  bool_decide (map_Forall (λ q _, q < next h) (refs h)) &&
  bool_decide (map_Forall (λ q _, q < next h) (runtimes h)) &&
  bool_decide (map_Forall (λ tag r, is_Some (refs h !! r) ∧ ref_tag (member r h) = tag ∧
    is_Some (ref_runtime (member r h) ≫= λ rp, runtimes h !! rp)) (p_topologyByTag (st_pool s))) &&
  bool_decide (Forall (λ r, p_topologyByTag (st_pool s) !! ref_tag (member r h) = Some r)
    (p_topology (st_pool s))).

Lemma topo_check_sound s : topo_check s = true → topo_wf s.
Proof.
  unfold topo_check. rewrite !andb_true_iff, !bool_decide_eq_true.
  intros [[[H1 H2] H3] H4]. split.
  - split; intros q Hq.
    + destruct (refs (st_heap s) !! q) eqn:E; [|done]. specialize (H1 _ _ E). cbn in H1. lia.
    + destruct (runtimes (st_heap s) !! q) eqn:E; [|done]. specialize (H2 _ _ E). cbn in H2. lia.
  - intros tag r Hr. destruct (H3 _ _ Hr) as (? & ? & Hrt). split_and!; [done|done|].
    destruct (ref_runtime _) as [rp|]; [by exists rp|by destruct Hrt].
  - by rewrite Forall_forall in H4.
Qed.

(** The example pool after a first publication, with "b" current, asked to drop
    "b" and to rename "c". *)
Module ReconcileExample.
Definition before : state :=
  with_pool (set_currentMember (Some 6))
    (publishSnapshotLocked PoolExample.env PoolExample.now [3; 6; 9]
       (PoolExample.pool_state modeFixed 0 PoolExample.base_heap)).
Definition specs : list RuntimeMemberSpec :=
  [mkSpec "c" (mkMeta 13 "renamed" "" "" "" 0 "" ""); mkSpec "a" (PoolExample.meta 11)].
Definition after : state := (reconcileMembersLocked PoolExample.env PoolExample.now specs before).1.

Lemma before_topo : topo_wf before.
Proof. apply topo_check_sound. vm_compute. reflexivity. Qed.

Lemma before_snapshots : snapshots_wf (st_pool before).
Proof.
  assert (Hwf := publish_snapshots_wf PoolExample.env PoolExample.now [3; 6; 9]
    (PoolExample.pool_state modeFixed 0 PoolExample.base_heap) (PoolExample.empty_pool_wf _ _)).
  destruct Hwf as [W1 W2]. split; [exact W1|exact W2].
Qed.

Lemma no_policy : policy_frame (λ s, s).
Proof. by intros s. Qed.
End ReconcileExample.

Lemma reconcile_installs_the_specs_witness :
  snd (reconcileMembersLocked PoolExample.env PoolExample.now ReconcileExample.specs
         ReconcileExample.before) = Ok (2, [6]) ∧
  topo_wf ReconcileExample.after ∧
  p_topology (st_pool ReconcileExample.after) = [10; 3].
Proof.
  split; [vm_compute; reflexivity|]. split; [|vm_compute; reflexivity].
  refine (proj1 (reconcile_installs_the_specs PoolExample.env PoolExample.now ReconcileExample.specs
    (λ s, s) ReconcileExample.before ReconcileExample.after 2 [6] ReconcileExample.before_topo
    ReconcileExample.before_snapshots ReconcileExample.no_policy _)).
  vm_compute. reflexivity.
Defined.

Lemma current_member_follows_the_topology_witness :
  p_currentMember (st_pool ReconcileExample.after) = Some 10 ∧
  10 ∈ p_topology (st_pool ReconcileExample.after).
Proof.
  assert (Hc : p_currentMember (st_pool ReconcileExample.after) = Some 10) by (vm_compute; reflexivity).
  split; [exact Hc|].
  refine (proj1 (current_member_follows_the_topology PoolExample.env PoolExample.now
    ReconcileExample.specs (λ s, s) ReconcileExample.before ReconcileExample.after 2 [6]
    ReconcileExample.before_topo ReconcileExample.before_snapshots ReconcileExample.no_policy _) 10 Hc).
  vm_compute. reflexivity.
Defined.
