(* ===== verification/PoolDial.v ===== *)
(** The data path of a pool ([internal/outbound/pool/pool.go]): pinning the
    current snapshot, trying its members until one connects, accounting
    failures, the connections handed out, and the current member.

    What the network does is a script: attempt [k] of a request reads the clock,
    gets a connection or an error, and sees the context's state. Group
    notifications are the events of the group runtime's log; the pool's handler
    is [handleGroupState]. *)

From S2P Require Import Prelude GroupMember GroupRuntime PoolMember PoolState PoolView PoolSelect PoolTopology.

Record Attempt := mkAttempt {
  at_now : Z;
  at_error : option goerror;
  (** [ctx.Err()] when the failure is judged, and when the loop checks it *)
  at_ctxJudge : option goerror;
  at_ctxLoop : option goerror
}.

Definition dialFailureAttributable (ctxErr : option goerror) (err : option goerror) : bool :=
  match err with
  | None => false
  | Some e =>
    negb (bool_decide (is_Some ctxErr) && (errors_Is e Canceled || errors_Is e DeadlineExceeded))
  end.

(** ** Pinning *)
Definition loadSnapshot (env : Env) (now : Z) (s : state) : state * result Z :=
  if p_closed (st_pool s) then (s, Err errClosed)
  else match p_current (st_pool s) with
  | Some v => (s, Ok v)
  | None =>
    let '(s1, r) := initializeMembersLocked env now s in
    (s1, result_bind r (λ _, Ok (current_version s1)))
  end.

(** What other goroutines (publishers, other requests, [Close]) do to the pool
    during one round of the acquisition: after the snapshot was loaded, after the
    reader was counted, and after a reader that came too late let go again. *)
Record interference := mkInterference {
  rc_loaded : state → state;
  rc_counted : state → state;
  rc_released : state → state
}.

Definition undisturbed : interference := mkInterference id id id.

Definition is_accepting (v : Z) (s : state) : bool :=
  match p_snapshots (st_pool s) !! v with Some snap => sn_accepting snap | None => false end.

(** One round of the loop; [None] goes round again. *)
Definition acquire_round (env : Env) (now : Z) (rc : interference) (s : state)
    : state * option (result Z) :=
  if p_closed (st_pool s) then (s, Some (Err errClosed))
  else
    let '(s1, r) := loadSnapshot env now s in
    match r with
    | Err e => (s1, Some (Err e))
    | Ok v =>
      let s2 := rc_counted rc (with_pool (with_snapshot v (add_readers 1)) (rc_loaded rc s1)) in
      if is_accepting v s2 then (s2, Some (Ok v))
      else
        let s3 := rc_released rc (releaseSnapshotReader v s2) in
        if p_closed (st_pool s3) then (s3, Some (Err errClosed)) else (s3, None)
    end.

(** One element of [races] is what happens during one round; [None] means that
    the acquisition is still going round after all of them. *)
Fixpoint acquireSnapshot (env : Env) (now : Z) (races : list interference) (s : state)
    : state * option (result Z) :=
  match races with
  | [] => (s, None)
  | rc :: races =>
    let '(s1, r) := acquire_round env now rc s in
    match r with Some r => (s1, Some r) | None => acquireSnapshot env now races s1 end
  end.

(** ** Timers *)
Definition scheduleCandidateRebuild (now : Z) (s : state) : state :=
  if p_closed (st_pool s) then s
  else with_pool (λ p, set_timers (Some (now + 100 * GoTime.millisecond)) (p_expiryTimer p) p) s.

Definition scheduleExpiryRebuild (after now : Z) (s : state) : state :=
  if decide (after ≤ 0) then s
  else if p_closed (st_pool s) then s
  else with_pool (λ p, set_timers (p_rebuildTimer p) (Some (now + after + GoTime.millisecond)) p) s.

Section PoolDial.
Context `{!RangeOrder Z, !RangeOrder string}.

(** ** Accounting *)
Definition recordFailure (env : Env) (m : Z) (cause : goerror) (destination : string) (now : Z)
    (s : state) : state :=
  let o := p_options (st_pool s) in
  let r := member m (st_heap s) in
  if decide (o_GroupID o = 0) then
    match ref_shared r with
    | None => s
    | Some c =>
      let '(h1, (_, blacklisted, until)) :=
        recordSharedFailure cause (currentFailureThreshold (st_pool s)) (o_BlacklistDuration o)
          (currentFailureWindow (st_pool s)) destination now c (st_heap s) in
      let s1 := with_heap (λ _, h1) s in
      if blacklisted
      then scheduleExpiryRebuild (GoTime.sub until now) now (rebuildCandidatesNow env now s1)
      else s1
    end
  else
    let w := (RecordFailure (o_GroupID o) (ref_tag r) (Some (err_msg cause)) now now (st_groups s)).1 in
    let s1 := with_groups (λ _, w) s in
    let s2 := match ref_shared r with
              | Some c => with_heap (on_entry c (λ e, EntryRecordFailure e cause destination)) s1
              | None => s1
              end in
    let s3 := if p_groupSubscribed (st_pool s2) then s2 else rebuildCandidatesNow env now s2 in
    scheduleExpiryRebuild (currentFailureWindow (st_pool s3)) now s3.

Definition recordSuccess (m : Z) (destination : string) (s : state) : state :=
  match ref_shared (member m (st_heap s)) with
  | Some c => with_heap (recordSharedSuccess destination c) s
  | None => s
  end.

(** ** One dial *)
Definition select_outbound (env : Env) (tag : string) (s : state) : state * bool :=
  if p_hasSelector (st_pool s) then
    (mkState (st_pool s) (st_heap s) (st_groups s) (st_selections s ++ [tag]),
     env_selectorAccepts env (st_selections s) tag)
  else (s, true).

Definition make_current (m now : Z) (s : state) : state :=
  let s1 := with_pool (λ p, set_currentMember (Some m) (set_wait false p)) s in
  with_groups (SetCurrentTag (o_GroupID (p_options (st_pool s))) (ref_tag (member m (st_heap s))) now) s1.

Definition dialSelected (env : Env) (a : Attempt) (m : Z) (s : state) : state * option goerror :=
  let tag := ref_tag (member m (st_heap s)) in
  let '(s1, accepted) := select_outbound env tag s in
  if accepted then (make_current m (at_now a) s1, at_error a)
  else (s1, Some (mkError ("selector rejected member: " +:+ tag) [])).

(** ** Connections handed out *)
Record trackedConn := mkConn {
  tc_member : Z;
  tc_destination : string;
  tc_closed : bool;
  tc_errored : bool;
  tc_succeeded : bool
}.

Definition wrapConn (m : Z) (destination : string) (s : state) : state * trackedConn :=
  let '(rp, h1) := ensureMemberRuntime m (st_heap s) in
  (with_heap (λ _, with_runtime rp (add_operations 1) h1) s, mkConn m destination false false false).

Definition recordEstablishedIOError (env : Env) (m : Z) (cause : goerror) (destination : string)
    (now : Z) (s : state) : state :=
  if decide (o_GroupID (p_options (st_pool s)) = 0) then recordFailure env m cause destination now s
  else match ref_shared (member m (st_heap s)) with
       | Some c => with_heap (on_entry c (λ e, EntryRecordFailure e cause destination)) s
       | None => s
       end.

Definition recordIOError (env : Env) (now : Z) (err : option goerror) (sc : state * trackedConn)
    : state * trackedConn :=
  let '(s, c) := sc in
  match err with
  | None => (s, c)
  | Some e =>
    if errors_Is e EOF || errors_Is e ErrClosed || errors_Is e Canceled || tc_errored c then (s, c)
    else (recordEstablishedIOError env (tc_member c) e (tc_destination c) now s,
          mkConn (tc_member c) (tc_destination c) (tc_closed c) true (tc_succeeded c))
  end.

Definition shared_op (f : Z → heap → heap) (m : Z) (s : state) : state :=
  match ref_shared (member m (st_heap s)) with Some c => with_heap (f c) s | None => s end.

(** [n] bytes were read, with [err]. *)
Definition conn_read (env : Env) (now n : Z) (err : option goerror) (sc : state * trackedConn)
    : state * trackedConn :=
  let '(s, c) := sc in
  let s1 := if decide (0 < n) then shared_op (addTraffic 0 n) (tc_member c) s else s in
  let '(s2, c2) :=
    if bool_decide (0 < n) && negb (tc_succeeded c)
    then (shared_op recordEstablishedSuccess (tc_member c) s1,
          mkConn (tc_member c) (tc_destination c) (tc_closed c) (tc_errored c) true)
    else (s1, c) in
  recordIOError env now err (s2, c2).

Definition conn_write (env : Env) (now n : Z) (err : option goerror) (sc : state * trackedConn)
    : state * trackedConn :=
  let '(s, c) := sc in
  let s1 := if decide (0 < n) then shared_op (addTraffic n 0) (tc_member c) s else s in
  recordIOError env now err (s1, c).

Definition conn_close (sc : state * trackedConn) : state * trackedConn :=
  let '(s, c) := sc in
  if tc_closed c then (s, c)
  else (with_heap (λ h, releaseOperation (tc_member c) (decMemberActive (tc_member c) h)) s,
        mkConn (tc_member c) (tc_destination c) true (tc_errored c) (tc_succeeded c)).

(** ** The attempt loop *)
Inductive dial_result :=
| Dialed (c : trackedConn)
| DialError (e : goerror)
(** still acquiring a snapshot *)
| Pinning.

Definition no_proxy : goerror := mkError "no healthy proxy available" [].
Definition all_failed (destination : string) (e : goerror) : goerror :=
  mkError ("all available proxies failed for " +:+ destination +:+ ": " +:+ err_msg e) (err_chain e).
Definition exhausted (destination : string) (lastErr : option goerror) : goerror :=
  match lastErr with Some e => all_failed destination e | None => no_proxy end.

Fixpoint dial_loop (fuel : nat) (env : Env) (script : nat → Attempt) (destination : string)
    (k : nat) (c : attemptCursor) (lastErr : option goerror) (s : state) : state * dial_result :=
  match fuel with
  | O => (s, DialError (exhausted destination lastErr))
  | S fuel =>
    let '(next, c1) := cursor_next c in
    match next with
    | None => (s, DialError (exhausted destination lastErr))
    | Some m =>
      let a := script k in
      let s1 := with_heap (incMemberActive m) s in
      let '(s2, err) := dialSelected env a m s1 in
      match err with
      | None =>
        let '(s3, conn) := wrapConn m destination (recordSuccess m destination s2) in
        (s3, Dialed conn)
      | Some e =>
        let s3 := with_heap (decMemberActive m) s2 in
        let s4 := if dialFailureAttributable (at_ctxJudge a) (Some e)
                  then recordFailure env m e destination (at_now a) s3 else s3 in
        match at_ctxLoop a with
        | Some ce => (s4, DialError ce)
        | None => dial_loop fuel env script destination (S k) c1 (Some e) s4
        end
      end
    end
  end.

(** A request with its snapshot pinned; leaving releases it. *)
Definition dialPinned (env : Env) (random : Z) (script : nat → Attempt)
    (network destination : string) (v : Z) (s : state) : state * dial_result :=
  match p_snapshots (st_pool s) !! v with
  | None => (s, DialError no_proxy)
  | Some snap =>
    let '(s1, rc) := newAttemptCursor random snap network s in
    match rc with
    | Err e => (releaseSnapshotReader v s1, DialError (mkError e []))
    | Ok c =>
      let '(s2, out) := dial_loop (S (length (elts (c_members c)))) env script destination 0 c None s1 in
      (releaseSnapshotReader v s2, out)
    end
  end.

(** [DialContext], and [ListenPacket] with the UDP network. *)
Definition DialContext (env : Env) (now : Z) (races : list interference) (random : Z)
    (script : nat → Attempt) (network destination : string) (s : state) : state * dial_result :=
  let '(s1, r) := acquireSnapshot env now races s in
  match r with
  | None => (s1, Pinning)
  | Some (Err e) => (s1, DialError (mkError e (if decide (e = errClosed) then [ErrClosed] else [])))
  | Some (Ok v) => dialPinned env random script network destination v s1
  end.

Definition ListenPacket (env : Env) (now : Z) (races : list interference) (random : Z)
    (script : nat → Attempt) (destination : string) (s : state) : state * dial_result :=
  DialContext env now races random script NetworkUDP destination s.

(** ** The current member *)
Definition reconcileCurrent (env : Env) (now random : Z) (s : state) : state :=
  let '(s0, r) := loadSnapshot env now s in
  match r with
  | Err _ => s0
  | Ok v =>
    match p_snapshots (st_pool s0) !! v with
    | None => s0
    | Some snap =>
      let gid := o_GroupID (p_options (st_pool s0)) in
      let is_current := match p_currentMember (st_pool s0) with
                        | Some c => bool_decide (c ∈ elts (sn_Members snap)) | None => false end in
      if is_current then with_pool (set_wait false) s0
      else if p_waitForInitialLatency (st_pool s0) && negb (allInitialChecksDone env s0 snap) then s0
      else
        let s1 := with_pool (set_wait false) s0 in
        if decide (elts (sn_Members snap) = []) then
          with_groups (SetCurrentTag gid "" now) (with_pool (set_currentMember None) s1)
        else
          let '(s2, selected) := selectMember random snap (sn_Members snap) s1 in
          match selected with
          | None => s2
          | Some m =>
            let tag := ref_tag (member m (st_heap s2)) in
            let '(s3, accepted) := select_outbound env tag s2 in
            if accepted then
              with_groups (SetCurrentTag gid tag now) (with_pool (set_currentMember (Some m)) s3)
            else s3
          end
    end
  end.

Definition activateNodeID (env : Env) (now nodeID : Z) (s : state) : state * result unit :=
  let '(s0, r) := loadSnapshot env now s in
  match r with
  | Err e => (s0, Err e)
  | Ok v =>
    match p_snapshots (st_pool s0) !! v with
    | None => (s0, Err "node is not a healthy running group member")
    | Some snap =>
      match head (filter (λ m, mm_NodeID (memberMeta s0 (Some m)) = nodeID) (elts (sn_Members snap))) with
      | None => (s0, Err "node is not a healthy running group member")
      | Some m =>
        let '(s1, accepted) := select_outbound env (ref_tag (member m (st_heap s0))) s0 in
        if accepted then (make_current m now s1, Ok tt)
        else (s1, Err "selector rejected group member")
      end
    end
  end.

(** ** Group and health events *)
Definition member_of_node (s : state) (nodeID : Z) : option Z :=
  head (filter (λ m, mm_NodeID (memberMeta s (Some m)) = nodeID) (p_topology (st_pool s))).

Definition handleGroupState (env : Env) (now random : Z) (e : GroupStateEvent) (s : state) : state :=
  if negb (bool_decide (ev_GroupID e = o_GroupID (p_options (st_pool s)))) || p_closed (st_pool s) then s
  else
    let s1 := if ev_CurrentChanged e then
                let current := if decide (ev_CurrentNodeID e = 0) then None
                               else member_of_node s (ev_CurrentNodeID e) in
                with_pool (set_currentMember current) s
              else s in
    let s2 := if ev_StateChanged e then
                if ev_Recovered e then scheduleCandidateRebuild now s1
                else rebuildCandidatesNow env now s1
              else s1 in
    if ev_CurrentChanged e then reconcileCurrent env now random s2 else s2.
End PoolDial.

(** ** What accounting leaves alone *)

(** Open-connection counts, besides the references and runtimes. *)
Record calm (h h' : heap) : Prop := {
  calm_frame : frame h h';
  calm_active : ∀ c, activeCount c h' = activeCount c h;
  calm_cells : ∀ c, is_Some (cells h' !! c) ↔ is_Some (cells h !! c)
}.

#[global] Instance calm_preorder : PreOrder calm.
Proof.
  split; [by split|]. intros a b c [A1 A2 A3] [B1 B2 B3].
  split; [by etrans|intros; by rewrite B2|intros; by rewrite B3].
Qed.

Lemma calm_with_cell c f h : (∀ s, sh_active (f s) = sh_active s) → calm h (with_cell c f h).
Proof.
  intros Hf. split; [by apply frame_cells| |].
  - intros q. unfold activeCount. rewrite cell_with_cell. by destruct (decide _).
  - intros q. cbn. by rewrite lookup_alter_is_Some.
Qed.

Lemma calm_constant_cell c x h : sh_active x = activeCount c h → calm h (with_cell c (λ _, x) h).
Proof.
  intros Hx. split; [by apply frame_cells| |].
  - intros q. unfold activeCount in *. rewrite cell_with_cell. destruct (decide _) as [[<- _]|]; done.
  - intros q. cbn. by rewrite lookup_alter_is_Some.
Qed.

Lemma calm_on_entry c f h : calm h (on_entry c f h).
Proof. unfold on_entry. destruct (sh_entry _); [|done]. split; [by apply frame_cells|done|done]. Qed.

Lemma calm_with_runtime rp f h : (∀ r, mr_retired (f r) = mr_retired r) → calm h (with_runtime rp f h).
Proof. intros Hf. split; [by apply frame_with_runtime|done|done]. Qed.

Lemma calm_ensure r h : calm h (ensureMemberRuntime r h).2.
Proof.
  split; [apply frame_ensure| |]; unfold ensureMemberRuntime; destruct (ref_runtime _); try done;
    unfold newMemberRuntime; destruct (ref_shared _) as [c'|]; try done; cbn [fst snd fresh]; intros c.
  - unfold activeCount. rewrite (cell_cells c _ (with_cell c' (add_owners 1) h)) by done.
    rewrite cell_with_cell. by destruct (decide _).
  - cbn. by rewrite lookup_alter_is_Some.
Qed.

Lemma calm_isBlacklisted now c h : calm h (isBlacklisted now c h).1.
Proof.
  unfold isBlacklisted. cbn [fst]. destruct (blacklist_expired _ _); [|done].
  etrans; [|apply calm_on_entry]. by apply calm_with_cell.
Qed.

Lemma calm_recordSharedFailure cause threshold duration window dst now c h :
  calm h (recordSharedFailure cause threshold duration window dst now c h).1.
Proof.
  unfold recordSharedFailure. cbn [fst].
  set (r := record_shared _ _ _ _ _). assert (Hr : sh_active r.1 = activeCount c h).
  { unfold r, record_shared. by destruct (decide _). }
  assert (H1 : calm h (on_entry c (λ e, EntryRecordFailure e cause dst) (with_cell c (λ _, r.1) h))).
  { etrans; [by apply calm_constant_cell|apply calm_on_entry]. }
  destruct (r.2.1.2); [|exact H1]. etrans; [exact H1|apply calm_on_entry].
Qed.

Lemma calm_memberAvailable env s r now :
  calm (st_heap s) (st_heap (memberAvailableForSnapshot env s r now).1).
Proof.
  assert (Hb : ∀ s, calm (st_heap s) (st_heap (notBlacklisted s now r).1)).
  { clear s. intros s. unfold notBlacklisted. destruct (ref_shared _); [|done]. apply calm_isBlacklisted. }
  assert (Hg : ∀ s provisional, calm (st_heap s) (st_heap (groupThenBlacklist s now provisional r).1)).
  { clear s. intros s provisional. unfold groupThenBlacklist, groupAdmits.
    destruct (decide _); [apply Hb|]. destruct provisional.
    - destruct (MemberNotEvicted _ _ _); [apply Hb|done].
    - destruct (MemberAvailable _ _ _ _) as [w []]; [|done]. cbn. apply (Hb (with_groups (λ _, w) s)). }
  unfold memberAvailableForSnapshot. destruct (env_monitor env) as [mv|]; [|apply Hg].
  destruct (monitorSnapshot s mv r) as [m|]; [|destruct (_ && _); [done|apply Hg]].
  assert (H1 : calm (st_heap s) (with_ref r (set_latency (mo_LastLatencyMs m)) (st_heap s))).
  { split; [by apply frame_with_ref|done|done]. }
  destruct (_ && _); [exact H1|]. etrans; [exact H1|].
  apply (Hg (with_heap (with_ref r (set_latency (mo_LastLatencyMs m))) s)).
Qed.

Lemma calm_judge_all env now members s :
  calm (st_heap s) (st_heap (judge_all env now members s).1).
Proof.
  revert s. induction members as [|r members IH]; intros s; [done|]. cbn.
  assert (Hj : calm (st_heap s) (st_heap (judge env now r s).1)).
  { rewrite judge_unfold. cbn [fst]. etrans; [|apply calm_memberAvailable]. cbn [st_heap with_heap].
    etrans; [apply calm_ensure|]. by apply calm_with_runtime. }
  destruct (judge env now r s) as [s1 v]. specialize (IH s1).
  destruct (judge_all env now members s1). cbn in *. by etrans.
Qed.

Lemma calm_release_pins members h : calm h (release_pins members h).
Proof.
  unfold release_pins. revert h. induction members as [|r members IH]; intros h; [done|]. cbn.
  etrans; [|apply IH]. destruct (ref_runtime _); [|done]. by apply calm_with_runtime.
Qed.

Lemma calm_releaseSnapshotMembers v s : calm (st_heap s) (st_heap (releaseSnapshotMembers v s)).
Proof.
  unfold releaseSnapshotMembers. destruct (_ !! v); [|done]. destruct (sn_released _); [done|].
  apply calm_release_pins.
Qed.

Lemma calm_releaseSnapshotReader v s : calm (st_heap s) (st_heap (releaseSnapshotReader v s)).
Proof.
  unfold releaseSnapshotReader. cbn zeta.
  set (s1 := with_pool _ s). change (st_heap s) with (st_heap s1). clearbody s1.
  destruct (_ !! v); [|done]. destruct (_ && _); [apply calm_releaseSnapshotMembers|done].
Qed.

Lemma calm_publish env now members s :
  calm (st_heap s) (st_heap (publishSnapshotLocked env now members s)).
Proof.
  unfold publishSnapshotLocked. pose proof (calm_judge_all env now members s) as Hj.
  destruct (publish_members_judge env now members s) as [Hs1 _].
  destruct (publish_members env now members s) as [s1 [[ms tcp] udp]]. cbn [fst] in Hs1. subst s1.
  match goal with |- context [with_pool ?f ?s1] => set (s2 := with_pool f s1) end.
  assert (Hh2 : st_heap s2 = st_heap (judge_all env now members s).1) by done. clearbody s2.
  rewrite <-Hh2 in Hj. destruct (p_current (st_pool s)); [|done].
  destruct (_ !! _); [|done]. destruct (decide _); [|done].
  etrans; [exact Hj|apply calm_releaseSnapshotMembers].
Qed.

Lemma calm_rebuild env now s : calm (st_heap s) (st_heap (rebuildCandidatesNow env now s)).
Proof. unfold rebuildCandidatesNow. destruct (_ || _); [done|apply calm_publish]. Qed.

(** The parts of a pool a request's accounting never touches. *)
Definition same_request (s s' : state) : Prop :=
  p_hasSelector (st_pool s') = p_hasSelector (st_pool s) ∧ st_selections s' = st_selections s.

Lemma rebuild_request env now s : same_request s (rebuildCandidatesNow env now s).
Proof.
  unfold rebuildCandidatesNow. destruct (_ || _); [done|].
  destruct (publish_frame env now (p_topology (st_pool s)) s) as [_ Hp]. split; [by rewrite Hp|].
  apply publish_selections.
Qed.

Lemma schedule_expiry_same after now s :
  st_heap (scheduleExpiryRebuild after now s) = st_heap s ∧
  same_request s (scheduleExpiryRebuild after now s).
Proof. unfold scheduleExpiryRebuild. destruct (decide _); [done|]. by destruct (p_closed _). Qed.

Section accounting.
Context `{!RangeOrder Z, !RangeOrder string}.

Lemma recordFailure_calm env m cause dst now s :
  calm (st_heap s) (st_heap (recordFailure env m cause dst now s)) ∧
  same_request s (recordFailure env m cause dst now s).
Proof.
  unfold recordFailure. destruct (decide _) as [Hg|Hg].
  - destruct (ref_shared _) as [c|]; [|done].
    pose proof (calm_recordSharedFailure cause (currentFailureThreshold (st_pool s))
      (o_BlacklistDuration (p_options (st_pool s))) (currentFailureWindow (st_pool s)) dst now c (st_heap s)) as Hc.
    destruct (recordSharedFailure _ _ _ _ _ _ _ _) as [h1 [[n blacklisted] until]]. cbn [fst] in Hc.
    destruct blacklisted; [|done]. cbn zeta.
    set (s1 := with_heap (λ _, h1) s). change h1 with (st_heap s1) in Hc.
    assert (Hr1 : same_request s s1) by done. clearbody s1.
    destruct (schedule_expiry_same (GoTime.sub until now) now (rebuildCandidatesNow env now s1)) as [-> [R1 R2]].
    destruct (rebuild_request env now s1) as [R3 R4]. destruct Hr1 as [R5 R6].
    split; [etrans; [exact Hc|apply calm_rebuild]|]. split; congruence.
  - cbn zeta. set (s1 := with_groups _ s).
    assert (H1 : calm (st_heap s) (st_heap s1) ∧ same_request s s1) by done. clearbody s1.
    set (s2 := match ref_shared _ with Some c => _ | None => s1 end).
    assert (H2 : calm (st_heap s) (st_heap s2) ∧ same_request s s2).
    { destruct H1 as [H1 R1]. unfold s2. destruct (ref_shared _); [|done]. split; [|done].
      cbn. etrans; [exact H1|apply calm_on_entry]. }
    clearbody s2. clear H1. destruct H2 as [H2 [R1 R2]].
    set (s3 := if p_groupSubscribed _ then s2 else _).
    assert (H3 : calm (st_heap s) (st_heap s3) ∧ same_request s s3).
    { unfold s3. destruct (p_groupSubscribed _); [done|]. destruct (rebuild_request env now s2) as [R3 R4].
      split; [etrans; [exact H2|apply calm_rebuild]|split; congruence]. }
    destruct H3 as [H3 [R3 R4]]. clearbody s3.
    destruct (schedule_expiry_same (currentFailureWindow (st_pool s3)) now s3) as [-> [R5 R6]].
    split; [done|]. split; congruence.
Qed.

Lemma recordSuccess_calm m dst s :
  calm (st_heap s) (st_heap (recordSuccess m dst s)) ∧ same_request s (recordSuccess m dst s).
Proof.
  unfold recordSuccess. destruct (ref_shared _); [|done]. split; [apply calm_on_entry|done].
Qed.

(** ** The outcome of a request *)

(** What a request returns, from the candidates in the order they are tried:
    the index and the member that connected, or the error. *)
Fixpoint expected (env : Env) (script : nat → Attempt) (selector : bool) (tag : Z → string)
    (destination : string) (k : nat) (selections : list string) (lastErr : option goerror)
    (l : list Z) : Z + goerror :=
  match l with
  | [] => inr (exhausted destination lastErr)
  | m :: l =>
    let a := script k in
    let err := if negb selector || env_selectorAccepts env selections (tag m) then at_error a
               else Some (mkError ("selector rejected member: " +:+ tag m) []) in
    match err with
    | None => inl m
    | Some e =>
      match at_ctxLoop a with
      | Some ce => inr ce
      | None => expected env script selector tag destination (S k)
                  (if selector then selections ++ [tag m] else selections) (Some e) l
      end
    end
  end.

(** One more connection on a cell. *)
Definition opened (m c : Z) (h : heap) : Z :=
  if decide (ref_shared (member m h) = Some c ∧ is_Some (cells h !! c))
  then wrap32 (activeCount c h + 1) else activeCount c h.

Definition int32_counts (h : heap) : Prop := ∀ c, - 2 ^ 31 ≤ activeCount c h < 2 ^ 31.

Lemma activeCount_add c d f h q :
  (∀ s, sh_active (f s) = wrap32 (sh_active s + d)) →
  activeCount q (with_cell c f h) =
    if decide (c = q ∧ is_Some (cells h !! q)) then wrap32 (activeCount q h + d) else activeCount q h.
Proof. intros Hf. unfold activeCount. rewrite cell_with_cell. destruct (decide _); [apply Hf|done]. Qed.

Lemma inc_opened m h :
  frame h (incMemberActive m h) ∧ (∀ c, activeCount c (incMemberActive m h) = opened m c h) ∧
  (∀ c, is_Some (cells (incMemberActive m h) !! c) ↔ is_Some (cells h !! c)).
Proof.
  unfold incMemberActive, opened. destruct (ref_shared (member m h)) as [x|] eqn:E.
  2: { split_and!; [done| |done]. intros c. by rewrite decide_False by naive_solver. }
  unfold incActive. destruct (calm_on_entry x EntryIncActive (with_cell x (add_active 1) h)) as [C1 C2 C3].
  split_and!.
  - etrans; [|exact C1]. by apply frame_cells.
  - intros c. rewrite C2, (activeCount_add x 1) by done.
    destruct (decide (x = c ∧ is_Some (cells h !! c))); destruct (decide (Some x = Some c ∧ _)); naive_solver.
  - intros c. rewrite C3. cbn. by rewrite lookup_alter_is_Some.
Qed.

Lemma wrap32_inc_dec x : - 2 ^ 31 ≤ x < 2 ^ 31 → wrap32 (wrap32 (x + 1) + -1) = x.
Proof.
  intros Hx. unfold wrap32.
  replace ((x + 1 + 2 ^ 31) `mod` 2 ^ 32 - 2 ^ 31 + -1 + 2 ^ 31)
    with ((x + 1 + 2 ^ 31) `mod` 2 ^ 32 - 1) by lia.
  rewrite Zminus_mod_idemp_l. replace (x + 1 + 2 ^ 31 - 1) with (x + 2 ^ 31) by lia.
  rewrite Z.mod_small; lia.
Qed.

(** Closing undoes opening, whatever happened in between. *)
Lemma dec_opened m h h' c :
  int32_counts h → (∀ q, ref_shared (member q h') = ref_shared (member q h)) →
  (∀ q, is_Some (cells h' !! q) ↔ is_Some (cells h !! q)) →
  (∀ q, activeCount q h' = opened m q h) →
  activeCount c (decMemberActive m h') = activeCount c h.
Proof.
  intros Hint Hsh Hcells Hact. unfold decMemberActive. rewrite Hsh.
  destruct (ref_shared (member m h)) as [x|] eqn:E.
  - unfold decActive. rewrite (calm_active _ _ (calm_on_entry _ _ _)), (activeCount_add x (-1)) by done.
    rewrite Hact. unfold opened. rewrite E. specialize (Hint c).
    destruct (decide (x = c ∧ is_Some (cells h' !! c))) as [[-> Hc]|Hno].
    + rewrite decide_True by (rewrite <-Hcells; done). by apply wrap32_inc_dec.
    + rewrite decide_False; [done|]. rewrite Hcells in Hno. naive_solver.
  - rewrite Hact. unfold opened. rewrite E. by rewrite decide_False by naive_solver.
Qed.

Lemma frame_shared h h' q : frame h h' → ref_shared (member q h') = ref_shared (member q h).
Proof. intros Hf. pose proof (fr_static _ _ Hf q) as Hs. unfold ref_static in Hs. congruence. Qed.

Lemma frame_tag h h' q : frame h h' → ref_tag (member q h') = ref_tag (member q h).
Proof. intros Hf. pose proof (fr_static _ _ Hf q) as Hs. unfold ref_static in Hs. congruence. Qed.

Lemma calm_opened h h' m c : calm h h' → opened m c h' = opened m c h.
Proof.
  intros [Hf Ha Hc]. unfold opened. rewrite (frame_shared _ _ _ Hf), Ha.
  destruct (decide (_ ∧ is_Some (cells h' !! c))) as [[? ?]|Hno].
  - rewrite decide_True; [done|]. by rewrite <-Hc.
  - rewrite decide_False; [done|]. rewrite <-Hc. done.
Qed.

Lemma dec_frame m h :
  frame h (decMemberActive m h) ∧
  ∀ q, is_Some (cells (decMemberActive m h) !! q) ↔ is_Some (cells h !! q).
Proof.
  unfold decMemberActive. destruct (ref_shared _) as [x|]; [|done]. unfold decActive.
  destruct (calm_on_entry x EntryDecActive (with_cell x (add_active (-1)) h)) as [C1 _ C3].
  split; [etrans; [|exact C1]; by apply frame_cells|].
  intros q. rewrite C3. cbn. by rewrite lookup_alter_is_Some.
Qed.

Lemma wrapConn_calm m dst s :
  calm (st_heap s) (st_heap (wrapConn m dst s).1) ∧ tc_member (wrapConn m dst s).2 = m.
Proof.
  unfold wrapConn. pose proof (calm_ensure m (st_heap s)) as He.
  destruct (ensureMemberRuntime m (st_heap s)) as [rp h1]. split; [|done]. cbn in *.
  etrans; [exact He|]. by apply calm_with_runtime.
Qed.

Lemma expected_ext env script selector tag tag' dst l : ∀ k sel lastErr,
  (∀ m, tag' m = tag m) →
  expected env script selector tag' dst k sel lastErr l =
  expected env script selector tag dst k sel lastErr l.
Proof.
  induction l as [|m l IH]; intros k sel lastErr Ht; [done|]. cbn. rewrite Ht.
  destruct (if _ || _ then _ else _); [|done]. destruct (at_ctxLoop _); [done|]. by apply IH.
Qed.

(** Choosing the outbound only moves the current member and the selector. *)
Lemma dialSelected_spec env a m s :
  let tag := ref_tag (member m (st_heap s)) in
  let r := dialSelected env a m s in
  st_heap r.1 = st_heap s ∧ p_hasSelector (st_pool r.1) = p_hasSelector (st_pool s) ∧
  st_selections r.1 = (if p_hasSelector (st_pool s) then st_selections s ++ [tag] else st_selections s) ∧
  r.2 = if negb (p_hasSelector (st_pool s)) || env_selectorAccepts env (st_selections s) tag
        then at_error a else Some (mkError ("selector rejected member: " +:+ tag) []).
Proof.
  cbn zeta. unfold dialSelected, select_outbound. destruct (p_hasSelector (st_pool s)) eqn:E; cbn.
  - destruct (env_selectorAccepts _ _ _); cbn; by rewrite ?E.
  - by rewrite E.
Qed.

(** The same cells, reached from the same references. *)
Definition same_cells (h h' : heap) : Prop :=
  (∀ q, ref_shared (member q h') = ref_shared (member q h)) ∧
  (∀ q, is_Some (cells h' !! q) ↔ is_Some (cells h !! q)).

#[global] Instance same_cells_preorder : PreOrder same_cells.
Proof. split; [by split|]. intros a b c [A1 A2] [B1 B2]. split; intros q; [by rewrite B1|by rewrite B2]. Qed.

Lemma calm_same_cells h h' : calm h h' → same_cells h h'.
Proof. intros [Hf _ Hc]. split; [intros q; by apply frame_shared|done]. Qed.

Definition dial_agrees (expectation : Z + goerror) (h : heap) (out : state * dial_result) : Prop :=
  same_cells h (st_heap out.1) ∧
  match out.2 with
  | Dialed conn => expectation = inl (tc_member conn) ∧
      ∀ q, activeCount q (st_heap out.1) = opened (tc_member conn) q h
  | DialError e => expectation = inr e ∧ ∀ q, activeCount q (st_heap out.1) = activeCount q h
  | Pinning => False
  end.

Lemma dial_loop_agrees env script dst fuel : ∀ k c lastErr s,
  (length (attempts fuel c) < fuel)%nat → int32_counts (st_heap s) →
  dial_agrees
    (expected env script (p_hasSelector (st_pool s)) (λ m, ref_tag (member m (st_heap s))) dst k
       (st_selections s) lastErr (attempts fuel c))
    (st_heap s) (dial_loop fuel env script dst k c lastErr s).
Proof.
  induction fuel as [|fuel IH]; intros k c lastErr s Hlen Hint; [cbn in Hlen; lia|].
  cbn [attempts dial_loop] in *. destruct (cursor_next c) as [[m|] c1]; [|split; done].
  cbn [expected length] in *. set (tag := ref_tag (member m (st_heap s))).
  destruct (inc_opened m (st_heap s)) as (Hf1 & Ha1 & Hc1).
  set (s1 := with_heap (incMemberActive m) s).
  destruct (dialSelected_spec env (script k) m s1) as (Hh & Hsel & Hlog & Herr). cbn zeta in *.
  change (st_heap s1) with (incMemberActive m (st_heap s)) in *.
  rewrite (frame_tag _ _ m Hf1) in Hlog, Herr. fold tag in Hlog, Herr.
  destruct (dialSelected env (script k) m s1) as [s2 err]. cbn [fst snd] in *.
  change (p_hasSelector (st_pool s1)) with (p_hasSelector (st_pool s)) in *.
  change (st_selections s1) with (st_selections s) in *. clearbody s1. rewrite <-Herr.
  destruct err as [e|].
  - set (s3 := with_heap (decMemberActive m) s2).
    assert (H3 : frame (st_heap s) (st_heap s3) ∧ (∀ q, activeCount q (st_heap s3) = activeCount q (st_heap s)) ∧
                 (∀ q, is_Some (cells (st_heap s3) !! q) ↔ is_Some (cells (st_heap s) !! q))).
    { unfold s3. cbn. rewrite Hh. destruct (dec_frame m (incMemberActive m (st_heap s))) as [Hf3 Hc3].
      split_and!; [by etrans| |by intros q; rewrite Hc3, Hc1].
      intros q. apply dec_opened; [done| |done|done]. intros r. by apply frame_shared. }
    assert (Hs3 : p_hasSelector (st_pool s3) = p_hasSelector (st_pool s) ∧ st_selections s3 = st_selections s2) by done.
    clearbody s3.
    set (s4 := if dialFailureAttributable _ _ then _ else s3).
    assert (H4 : calm (st_heap s3) (st_heap s4) ∧ same_request s3 s4).
    { unfold s4. destruct (dialFailureAttributable _ _); [apply recordFailure_calm|done]. }
    clearbody s4. destruct H4 as [Hcalm [R1 R2]], H3 as (Hf3 & Ha3 & Hc3), Hs3 as [P1 P2].
    assert (Ha4 : ∀ q, activeCount q (st_heap s4) = activeCount q (st_heap s)).
    { intros q. by rewrite (calm_active _ _ Hcalm), Ha3. }
    assert (Hsame : same_cells (st_heap s) (st_heap s4)).
    { etrans; [|by apply calm_same_cells]. split; [intros q; by apply frame_shared|done]. }
    destruct (at_ctxLoop (script k)); [split; done|].
    specialize (IH (S k) c1 (Some e) s4). rewrite R1, R2, P1, P2, Hlog in IH.
    rewrite (expected_ext env script _ (λ r, ref_tag (member r (st_heap s)))) in IH.
    2: { intros r. rewrite (frame_tag _ _ r (calm_frame _ _ Hcalm)). by apply frame_tag. }
    unfold dial_agrees in *. destruct (dial_loop fuel env script dst (S k) c1 (Some e) s4) as [s' out].
    cbn [fst snd] in *. specialize (IH ltac:(lia) ltac:(intros q; rewrite Ha4; apply Hint)).
    destruct IH as [IHs IH]. split; [by etrans|]. destruct out.
    + destruct IH as [IH1 IH2]. split; [done|]. intros q. rewrite IH2.
      unfold opened. rewrite Ha4, (frame_shared _ _ _ (calm_frame _ _ Hcalm)), (frame_shared _ _ _ Hf3).
      apply decide_ext. by rewrite (calm_cells _ _ Hcalm), Hc3.
    + destruct IH as [IH1 IH2]. split; [done|]. intros q. by rewrite IH2.
    + done.
  - destruct (recordSuccess_calm m dst s2) as [Hcalm _].
    pose proof (wrapConn_calm m dst (recordSuccess m dst s2)) as [Hw Hm].
    destruct (wrapConn m dst (recordSuccess m dst s2)) as [s3 conn]. cbn [fst snd] in *.
    unfold dial_agrees. cbn [fst snd]. rewrite Hm. split; [|split; [done|]].
    + etrans; [|by apply calm_same_cells]. etrans; [|by apply calm_same_cells]. rewrite Hh.
      split; [intros q; by apply frame_shared|done].
    + intros q. rewrite (calm_active _ _ Hw), (calm_active _ _ Hcalm), Hh. apply Ha1.
Qed.

(** *** Acquiring *)
(** The pool is closed, or its current snapshot accepts readers. *)
Definition settled (s : state) : Prop :=
  p_closed (st_pool s) = true ∨
  ∃ v, p_current (st_pool s) = Some v ∧ is_accepting v s = true.

Lemma is_accepting_with_snapshot w v d s :
  is_accepting w (with_pool (with_snapshot v (add_readers d)) s) = is_accepting w s.
Proof.
  unfold is_accepting. cbn. destruct (decide (v = w)) as [->|].
  - rewrite lookup_alter_eq. by destruct (p_snapshots _ !! w).
  - by rewrite lookup_alter_ne.
Qed.

Lemma is_accepting_release w v s : is_accepting w (releaseSnapshotMembers v s) = is_accepting w s.
Proof.
  unfold releaseSnapshotMembers. destruct (p_snapshots (st_pool s) !! v) as [snap|] eqn:E; [|done].
  destruct (sn_released snap); [done|]. unfold is_accepting. cbn. destruct (decide (v = w)) as [->|].
  - by rewrite lookup_alter_eq, E.
  - by rewrite lookup_alter_ne.
Qed.

Lemma settled_pool s s' :
  p_closed (st_pool s') = p_closed (st_pool s) → p_current (st_pool s') = p_current (st_pool s) →
  (∀ w, is_accepting w s' = is_accepting w s) → settled s → settled s'.
Proof. unfold settled. intros -> -> Ha. intros [?|(v & ? & ?)]; [by left|right; exists v; by rewrite Ha]. Qed.

Lemma settled_count v s : settled s → settled (with_pool (with_snapshot v (add_readers 1)) s).
Proof. by apply settled_pool; [| |intros; apply is_accepting_with_snapshot]. Qed.

Lemma settled_release v s : settled s → settled (releaseSnapshotReader v s).
Proof.
  unfold releaseSnapshotReader. set (s1 := with_pool _ s). intros Hs.
  assert (H1 : settled s1).
  { eapply settled_pool; [..|exact Hs]; [done..|intros; apply is_accepting_with_snapshot]. }
  clearbody s1. cbn zeta. destruct (_ !! v) as [snap|]; [|done]. destruct (_ && _); [|done].
  eapply settled_pool; [| | |exact H1].
  - unfold releaseSnapshotMembers. destruct (_ !! v) as [x|]; [|done]. by destruct (sn_released x).
  - apply releaseSnapshotMembers_pool.
  - intros. apply is_accepting_release.
Qed.

(** A load on an open pool that has a snapshot. *)
Lemma loadSnapshot_settled env now s v :
  p_closed (st_pool s) = false → p_current (st_pool s) = Some v → loadSnapshot env now s = (s, Ok v).
Proof. unfold loadSnapshot. by intros -> ->. Qed.

(** What the acquisition returns is a snapshot that was seen accepting after the
    reader was counted in it. *)
Lemma acquired_accepts env now races : ∀ s s1 v,
  acquireSnapshot env now races s = (s1, Some (Ok v)) → is_accepting v s1 = true.
Proof.
  induction races as [|rc races IH]; intros s s1 v; cbn [acquireSnapshot]; [done|].
  unfold acquire_round. destruct (p_closed (st_pool s)); [done|].
  destruct (loadSnapshot env now s) as [s2 [w|e]]; [|done].
  set (s3 := rc_counted rc _). destruct (is_accepting w s3) eqn:E; [by intros [= <- <-]|].
  destruct (p_closed _); [done|apply IH].
Qed.

(** The check that follows the count decides only about concurrent publishers:
    without interference the first round pins the current snapshot. *)
Theorem undisturbed_acquisition_pins_the_current env now races s v :
  p_closed (st_pool s) = false → p_current (st_pool s) = Some v → is_accepting v s = true →
  acquireSnapshot env now (undisturbed :: races) s =
    (with_pool (with_snapshot v (add_readers 1)) s, Some (Ok v)).
Proof.
  intros Hopen Hcur Hacc. cbn [acquireSnapshot]. unfold acquire_round.
  rewrite Hopen, (loadSnapshot_settled _ _ _ v) by done. cbn [undisturbed rc_loaded rc_counted id].
  by rewrite is_accepting_with_snapshot, Hacc.
Qed.

(** However many rounds other goroutines spoil, the acquisition returns as soon
    as a round is left alone, provided they leave an open pool with a current
    snapshot that accepts readers, which is what a publication does. *)
Theorem acquisition_returns_when_left_alone env now races more s :
  Forall (λ rc, ∀ s, settled s → settled (rc_loaded rc s) ∧ settled (rc_counted rc s) ∧
                              settled (rc_released rc s)) races →
  settled s → (acquireSnapshot env now (races ++ undisturbed :: more) s).2 ≠ None.
Proof.
  intros Hrc. revert s. induction Hrc as [|rc races Hr _ IH]; intros s Hs.
  - cbn [app]. destruct (p_closed (st_pool s)) eqn:Hc.
    + cbn [acquireSnapshot]. unfold acquire_round. by rewrite Hc.
    + destruct Hs as [?|(v & Hv & Ha)]; [congruence|].
      by rewrite (undisturbed_acquisition_pins_the_current _ _ _ s v).
  - cbn [app acquireSnapshot]. unfold acquire_round.
    destruct (p_closed (st_pool s)) eqn:Hc; [done|].
    destruct Hs as [?|(v & Hv & Ha)]; [congruence|].
    rewrite (loadSnapshot_settled _ _ _ v) by done.
    set (s2 := rc_counted rc _).
    assert (H2 : settled s2).
    { apply Hr, settled_count, Hr. right. by exists v. }
    destruct (is_accepting v s2); [done|].
    set (s3 := rc_released rc _).
    assert (H3 : settled s3) by (apply Hr; by apply settled_release).
    destruct (p_closed (st_pool s3)); [done|]. by apply IH.
Qed.

Lemma dialPinned_agrees env random script network dst s v snap :
  p_snapshots (st_pool s) !! v = Some snap → snapshot_ok snap → 0 ≤ random →
  int32_counts (st_heap s) →
  let candidates := if decide (network = NetworkUDP) then sn_udpMembers snap else sn_tcpMembers snap in
  let view := elts candidates in
  let start := (selectionIndex random snap candidates s).2 in
  (view ≠ [] → (start < length view)%nat) ∧
  dial_agrees
    (expected env script (p_hasSelector (st_pool s)) (λ m, ref_tag (member m (st_heap s))) dst 0
       (st_selections s) None (drop start view ++ take start view))
    (st_heap s) (dialPinned env random script network dst v s).
Proof.
  intros Hsnap Hok Hr Hint. cbn zeta. unfold dialPinned. rewrite Hsnap. unfold newAttemptCursor.
  set (v0 := if decide (network = NetworkUDP) then sn_udpMembers snap else sn_tcpMembers snap).
  destruct (decide (elts v0 = [])) as [Hnil|Hne].
  { split; [done|]. rewrite Hnil, drop_nil, take_nil. unfold dial_agrees. cbn. split.
    { apply calm_same_cells, calm_releaseSnapshotReader. }
    split; [done|]. intros q. by rewrite (calm_active _ _ (calm_releaseSnapshotReader v s)). }
  assert (Hv0 : a_view snap v0).
  { unfold a_view, v0. destruct (decide _); set_solver. }
  pose proof (selection_bound random snap v0 s Hok Hv0 Hne Hr) as Hb.
  destruct (selection_quiet random snap v0 s) as (Hh2 & Hsel2 & Hlog2).
  destruct (selectionIndex random snap v0 s) as [s2 start]. cbn [fst snd] in *.
  split; [done|]. cbn [c_members].
  pose proof (dial_loop_agrees env script dst (S (length (elts v0))) 0 (mkCursor v0 start 0) None s2) as Hd.
  assert (Hat : attempts (S (length (elts v0))) (mkCursor v0 start 0) = drop start (elts v0) ++ take start (elts v0)).
  { rewrite (attempts_cyclic v0 start (length (elts v0)) 0) by lia. rewrite <-cyclic_rotation by lia. done. }
  rewrite Hat, Hsel2, Hlog2, Hh2 in Hd.
  destruct (dial_loop _ env script dst 0 (mkCursor v0 start 0) None s2) as [s3 out].
  unfold dial_agrees in *. cbn [fst snd] in *.
  assert (Hcalm : ∀ q, activeCount q (st_heap (releaseSnapshotReader v s3)) = activeCount q (st_heap s3)).
  { intros q. apply (calm_active _ _ (calm_releaseSnapshotReader v s3)). }
  specialize (Hd ltac:(rewrite length_app, length_drop, length_take; lia) Hint).
  destruct Hd as [Hds Hd]. split; [etrans; [exact Hds|]; apply calm_same_cells, calm_releaseSnapshotReader|].
  destruct out; [| |done]; destruct Hd as [Hd1 Hd2]; (split; [done|]); intros q; rewrite Hcalm; apply Hd2.
Qed.

Lemma DialContext_pinned env now races random script network dst s s1 v :
  acquireSnapshot env now races s = (s1, Some (Ok v)) →
  DialContext env now races random script network dst s = dialPinned env random script network dst v s1.
Proof. unfold DialContext. by intros ->. Qed.

(** On a view of the snapshot the member [selectMember] picks is the one at
    [selectionIndex]. *)
Lemma selectMember_network random snap network s :
  let candidates := if decide (network = NetworkUDP) then sn_udpMembers snap else sn_tcpMembers snap in
  (selectMember random snap candidates s).2 =
  elts candidates !! (selectionIndex random snap candidates s).2.
Proof.
  cbn zeta. unfold selectMember. set (v0 := if decide _ then _ else _).
  assert (Hsame : negb (sameCandidateSlice v0 (sn_tcpMembers snap)) &&
                  negb (sameCandidateSlice v0 (sn_udpMembers snap)) = false).
  { unfold v0. destruct (decide _); rewrite same_slice_refl; cbn; [apply andb_false_r|done]. }
  rewrite <-andb_assoc, Hsame, andb_false_r. by destruct (selectionIndex random snap v0 s).
Qed.

(** C6: a request follows the snapshot it pinned, and its accounting balances.
    Whatever publishers, other requests and [Close] do while it acquires one, the
    snapshot it gets was accepting readers after the request was counted. The
    request then returns exactly what trying the members of its network's view
    gives, cyclically from the one [selectMember] picks at that moment (by the
    pool's mode): the first member that connects, the context's error as soon as
    a failure finds it set, or the last failure once every member was tried. The
    outcome does not depend on the snapshots that failures publish meanwhile.
    Afterwards the connected member's state cell counts one connection more and
    every other cell counts as before. *)
Theorem dial_follows_the_pinned_snapshot env now races random script network dst s s1 v snap :
  acquireSnapshot env now races s = (s1, Some (Ok v)) →
  p_snapshots (st_pool s1) !! v = Some snap → snapshot_ok snap → 0 ≤ random →
  int32_counts (st_heap s1) →
  let candidates := if decide (network = NetworkUDP) then sn_udpMembers snap else sn_tcpMembers snap in
  let view := elts candidates in
  let start := (selectionIndex random snap candidates s1).2 in
  sn_accepting snap = true ∧
  (view ≠ [] → (start < length view)%nat ∧
               (selectMember random snap candidates s1).2 = view !! start) ∧
  dial_agrees
    (expected env script (p_hasSelector (st_pool s1)) (λ m, ref_tag (member m (st_heap s1))) dst 0
       (st_selections s1) None (drop start view ++ take start view))
    (st_heap s1) (DialContext env now races random script network dst s).
Proof.
  intros Hacq Hsnap Hok Hr Hint. cbn zeta.
  pose proof (acquired_accepts _ _ _ _ _ _ Hacq) as Ha. unfold is_accepting in Ha. rewrite Hsnap in Ha.
  destruct (dialPinned_agrees env random script network dst s1 v snap Hsnap Hok Hr Hint) as [Hb Hd].
  rewrite (DialContext_pinned _ _ _ _ _ _ _ _ _ _ Hacq).
  split; [done|]. split; [|exact Hd]. intros Hne. split; [by apply Hb|apply selectMember_network].
Qed.

(** ** Failures nobody is charged for *)
Definition window_of (c : Z) (h : heap) : list Z * bool * Z :=
  let s := cell c h in (sh_failures s, sh_blacklisted s, sh_blacklistedUntil s).

(** No failure window, blacklist or group member has moved. *)
Record unblamed (s s' : state) : Prop := {
  un_cells : ∀ c, window_of c (st_heap s') = window_of c (st_heap s);
  un_groups : ∀ gid, gr_members <$> groupRuntimeStore (st_groups s') !! gid =
                     gr_members <$> groupRuntimeStore (st_groups s) !! gid;
  un_refs : refs (st_heap s') = refs (st_heap s)
}.

#[global] Instance unblamed_preorder : PreOrder unblamed.
Proof.
  split; [by split|]. intros a b c [A1 A2 A3] [B1 B2 B3].
  split; [intros; by rewrite B1|intros; by rewrite B2|congruence].
Qed.

Lemma unblamed_heap f s :
  (∀ c, window_of c (f (st_heap s)) = window_of c (st_heap s)) →
  refs (f (st_heap s)) = refs (st_heap s) → unblamed s (with_heap f s).
Proof. by split. Qed.

Lemma on_entry_window c f h q :
  window_of q (on_entry c f h) = window_of q h ∧ refs (on_entry c f h) = refs h.
Proof. unfold on_entry. by destruct (sh_entry _). Qed.

Lemma with_cell_window c f h q :
  (∀ s, (sh_failures (f s), sh_blacklisted (f s), sh_blacklistedUntil (f s)) =
        (sh_failures s, sh_blacklisted s, sh_blacklistedUntil s)) →
  window_of q (with_cell c f h) = window_of q h.
Proof. intros Hf. unfold window_of. rewrite cell_with_cell. destruct (decide _); [apply Hf|done]. Qed.

Lemma unblamed_active m s :
  unblamed s (with_heap (incMemberActive m) s) ∧ unblamed s (with_heap (decMemberActive m) s).
Proof.
  split; apply unblamed_heap; unfold incMemberActive, decMemberActive, incActive, decActive;
    destruct (ref_shared _) as [x|]; try done.
  - intros c. rewrite (proj1 (on_entry_window _ _ _ c)). by apply with_cell_window.
  - by rewrite (proj2 (on_entry_window _ _ _ 0)).
  - intros c. rewrite (proj1 (on_entry_window _ _ _ c)). by apply with_cell_window.
  - by rewrite (proj2 (on_entry_window _ _ _ 0)).
Qed.

Lemma SetCurrentTag_members gid tag now w gid' :
  gr_members <$> groupRuntimeStore (SetCurrentTag gid tag now w) !! gid' =
  gr_members <$> groupRuntimeStore w !! gid'.
Proof.
  unfold SetCurrentTag. destruct (groupRuntimeStore w !! gid) as [rt|] eqn:E; [|done].
  destruct (_ && _); [done|]. destruct (decide (gr_currentTag rt = tag)); [done|].
  destruct (_ && _); cbn; (destruct (decide (gid' = gid)) as [->|];
    [by rewrite lookup_insert_eq, E|by rewrite lookup_insert_ne]).
Qed.

Lemma dialSelected_unblamed env a m s :
  p_hasSelector (st_pool s) = false →
  unblamed s (dialSelected env a m s).1 ∧ (dialSelected env a m s).2 = at_error a ∧
  p_hasSelector (st_pool (dialSelected env a m s).1) = false.
Proof.
  intros Hs. unfold dialSelected, select_outbound. rewrite Hs. cbn. split_and!; [|done|done].
  split; [done| |done]. intros gid. apply SetCurrentTag_members.
Qed.

Lemma release_pins_unblamed members h :
  refs (release_pins members h) = refs h ∧ ∀ c, window_of c (release_pins members h) = window_of c h.
Proof.
  unfold release_pins. revert h. induction members as [|r members IH]; intros h; [done|]. cbn.
  destruct (IH (match ref_runtime (member r h) with
                | Some rp => with_runtime rp (add_snapshotRefs (-1)) h | None => h end)) as [E1 E2].
  split; [rewrite E1|intros c; rewrite E2]; by destruct (ref_runtime _).
Qed.

Lemma releaseSnapshotReader_unblamed v s : unblamed s (releaseSnapshotReader v s).
Proof.
  unfold releaseSnapshotReader, releaseSnapshotMembers. cbn zeta.
  set (s1 := with_pool _ s). assert (H1 : unblamed s s1) by by split. clearbody s1.
  etrans; [exact H1|]. destruct (p_snapshots (st_pool s1) !! v); [|done]. destruct (_ && _); [|done].
  destruct (sn_released _); [done|]. cbn. split; [|done|]; cbn; by apply release_pins_unblamed.
Qed.

Lemma dial_loop_unblamed env script dst fuel : ∀ k c lastErr s,
  p_hasSelector (st_pool s) = false →
  (∀ k e, at_error (script k) = Some e →
     dialFailureAttributable (at_ctxJudge (script k)) (Some e) = false) →
  match (dial_loop fuel env script dst k c lastErr s).2 with
  | DialError _ => unblamed s (dial_loop fuel env script dst k c lastErr s).1
  | _ => True
  end.
Proof.
  induction fuel as [|fuel IH]; intros k c lastErr s Hsel Hun; cbn [dial_loop]; [done|].
  destruct (cursor_next c) as [[m|] c1]; [|done].
  set (s1 := with_heap (incMemberActive m) s).
  assert (H1 : unblamed s s1) by apply unblamed_active.
  destruct (dialSelected_unblamed env (script k) m s1 Hsel) as (H2 & Herr & Hsel2).
  destruct (dialSelected env (script k) m s1) as [s2 err]. cbn [fst snd] in *. subst err.
  destruct (at_error (script k)) as [e|] eqn:Ee; [|by destruct (wrapConn _ _ _)].
  rewrite (Hun _ _ Ee). set (s3 := with_heap (decMemberActive m) s2).
  assert (H3 : unblamed s s3) by (etrans; [exact H1|etrans; [exact H2|apply unblamed_active]]).
  assert (Hsel3 : p_hasSelector (st_pool s3) = false) by done. clearbody s1 s3.
  destruct (at_ctxLoop (script k)); [done|]. specialize (IH (S k) c1 (Some e) s3 Hsel3 Hun).
  destruct (dial_loop fuel env script dst (S k) c1 (Some e) s3) as [s' []]; [done| |done]. cbn in *. by etrans.
Qed.

(** The caller's own cancellation is nobody's fault. If every failed attempt
    of a request is a cancellation or a deadline seen together with a finished
    context, and the request fails, then no failure window, no blacklist and no
    group member has changed since it pinned its snapshot: a client that
    disconnects never evicts a node. *)
Theorem caller_cancellation_charges_nobody env now races random script network dst s s1 v s' e :
  acquireSnapshot env now races s = (s1, Some (Ok v)) → p_hasSelector (st_pool s1) = false →
  (∀ k e, at_error (script k) = Some e →
     is_Some (at_ctxJudge (script k)) ∧ (errors_Is e Canceled = true ∨ errors_Is e DeadlineExceeded = true)) →
  DialContext env now races random script network dst s = (s', DialError e) →
  (∀ c, window_of c (st_heap s') = window_of c (st_heap s1)) ∧
  (∀ gid, gr_members <$> groupRuntimeStore (st_groups s') !! gid =
          gr_members <$> groupRuntimeStore (st_groups s1) !! gid).
Proof.
  intros Hacq Hsel1 Hcancel Hdial.
  assert (Hun : unblamed s1 s'); [|by destruct Hun].
  rewrite (DialContext_pinned _ _ _ _ _ _ _ _ _ _ Hacq) in Hdial. unfold dialPinned in Hdial.
  destruct (p_snapshots (st_pool s1) !! v) as [snap|]; [|by simplify_eq].
  unfold newAttemptCursor in Hdial.
  set (v0 := if decide (network = NetworkUDP) then _ else _) in *.
  destruct (decide (elts v0 = [])).
  { simplify_eq. apply releaseSnapshotReader_unblamed. }
  destruct (selection_quiet random snap v0 s1) as (Hh2 & Hsel2 & _).
  assert (H2 : unblamed s1 (selectionIndex random snap v0 s1).1).
  { split; [by rewrite Hh2| |by rewrite Hh2]. intros gid. by rewrite selection_groups. }
  destruct (selectionIndex random snap v0 s1) as [s2 start]. cbn [fst c_members] in *.
  pose proof (dial_loop_unblamed env script dst (S (length (elts v0))) 0 (mkCursor v0 start 0) None s2) as Hd.
  destruct (dial_loop _ env script dst 0 (mkCursor v0 start 0) None s2) as [s3 out]. cbn in Hd.
  simplify_eq. etrans; [exact H2|].
  etrans; [apply Hd|apply releaseSnapshotReader_unblamed]; [congruence|].
  intros k e' He'. destruct (Hcancel _ _ He') as [Hctx Hkind]. unfold dialFailureAttributable.
  rewrite bool_decide_true by done. destruct Hkind as [->| ->]; by rewrite ?orb_true_r.
Qed.

(** ** The life of a connection *)
Inductive conn_event :=
| ConnRead (now n : Z) (err : option goerror)
| ConnWrite (now n : Z) (err : option goerror)
| ConnClose.

Definition conn_step (env : Env) (sc : state * trackedConn) (e : conn_event) : state * trackedConn :=
  match e with
  | ConnRead now n err => conn_read env now n err sc
  | ConnWrite now n err => conn_write env now n err sc
  | ConnClose => conn_close sc
  end.

Definition conn_run (env : Env) (es : list conn_event) (sc : state * trackedConn)
    : state * trackedConn := foldl (conn_step env) sc es.

Lemma shared_op_calm f m s :
  (∀ c h, calm h (f c h)) → calm (st_heap s) (st_heap (shared_op f m s)).
Proof. intros Hf. unfold shared_op. destruct (ref_shared _); [apply Hf|done]. Qed.

Lemma addTraffic_calm up down c h : calm h (addTraffic up down c h).
Proof. unfold addTraffic. cbn zeta. etrans; [|apply calm_on_entry]. by apply calm_with_cell. Qed.

Lemma recordIOError_calm env now err s c :
  let r := recordIOError env now err (s, c) in
  calm (st_heap s) (st_heap r.1) ∧ tc_member r.2 = tc_member c ∧ tc_closed r.2 = tc_closed c.
Proof.
  cbn zeta. unfold recordIOError. destruct err as [e|]; [|done]. destruct (_ || _); [done|].
  split; [|done]. cbn. unfold recordEstablishedIOError.
  destruct (decide _); [apply recordFailure_calm|]. destruct (ref_shared _); [apply calm_on_entry|done].
Qed.

Lemma conn_io_calm env e s c :
  e ≠ ConnClose →
  let r := conn_step env (s, c) e in
  calm (st_heap s) (st_heap r.1) ∧ tc_member r.2 = tc_member c ∧ tc_closed r.2 = tc_closed c.
Proof.
  intros He. cbn zeta. destruct e as [now n err|now n err|]; [| |done]; cbn [conn_step].
  - unfold conn_read. set (s1 := if decide (0 < n) then _ else s).
    assert (H1 : calm (st_heap s) (st_heap s1)).
    { unfold s1. destruct (decide _); [|done]. apply shared_op_calm. intros. apply addTraffic_calm. }
    clearbody s1. destruct (_ && _).
    + destruct (recordIOError_calm env now err (shared_op recordEstablishedSuccess (tc_member c) s1)
        (mkConn (tc_member c) (tc_destination c) (tc_closed c) (tc_errored c) true)) as (H2 & H3 & H4).
      split; [|done]. etrans; [exact H1|]. etrans; [|exact H2].
      apply shared_op_calm. intros. by apply calm_with_cell.
    + destruct (recordIOError_calm env now err s1 c) as (H2 & H3 & H4). split; [by etrans|done].
  - unfold conn_write. set (s1 := if decide (0 < n) then _ else s).
    assert (H1 : calm (st_heap s) (st_heap s1)).
    { unfold s1. destruct (decide _); [|done]. apply shared_op_calm. intros. apply addTraffic_calm. }
    clearbody s1. destruct (recordIOError_calm env now err s1 c) as (H2 & H3 & H4).
    split; [by etrans|done].
Qed.

Lemma dec_same h h' m c :
  same_cells h h' → (∀ q, activeCount q h' = activeCount q h) →
  activeCount c (decMemberActive m h') = activeCount c (decMemberActive m h).
Proof.
  intros [Hs Hc] Ha. unfold decMemberActive. rewrite Hs. destruct (ref_shared _) as [x|]; [|done].
  unfold decActive. rewrite !(calm_active _ _ (calm_on_entry _ _ _)), !(activeCount_add x (-1)) by done.
  rewrite Ha. apply decide_ext. by rewrite Hc.
Qed.

(** Once closed, a connection no longer counts; until then it counts once. *)
Lemma conn_run_counts env es : ∀ s c,
  let r := conn_run env es (s, c) in
  ∀ q, activeCount q (st_heap r.1) =
    if tc_closed c then activeCount q (st_heap s)
    else if existsb (λ e, match e with ConnClose => true | _ => false end) es
         then activeCount q (decMemberActive (tc_member c) (st_heap s))
         else activeCount q (st_heap s).
Proof.
  induction es as [|e es IH]; intros s c; cbn zeta; intros q; [by destruct (tc_closed c)|].
  change (conn_run env (e :: es) (s, c)) with (conn_run env es (conn_step env (s, c) e)).
  assert (e = ConnClose ∨ e ≠ ConnClose) as [->|Hne] by (destruct e; naive_solver).
  - cbn [conn_step existsb orb]. unfold conn_close. destruct (tc_closed c) eqn:E.
    + rewrite IH, E. done.
    + rewrite IH. cbn [tc_closed st_heap with_heap]. unfold releaseOperation.
      set (h1 := decMemberActive (tc_member c) (st_heap s)).
      destruct (calm_ensure (tc_member c) h1) as [_ Ha _].
      destruct (ensureMemberRuntime (tc_member c) h1) as [rp h2]. apply (Ha q).
  - assert (Hclose : existsb (λ e, match e with ConnClose => true | _ => false end) (e :: es) =
              existsb (λ e, match e with ConnClose => true | _ => false end) es) by (by destruct e).
    rewrite Hclose. destruct (conn_io_calm env e s c Hne) as (Hc & Hm & Hcl). cbn zeta in *.
    destruct (conn_step env (s, c) e) as [s1 c1]. cbn [fst snd] in *. rewrite IH, Hcl, Hm.
    destruct (tc_closed c); [apply Hc|]. destruct (existsb _ es); [|apply Hc].
    apply dec_same; [by apply calm_same_cells|apply Hc].
Qed.

(** Every connection is accounted for exactly once. A request that returns a
    connection, followed by any reads, writes and errors and by at least one
    close (however many), leaves the open-connection count of every state cell
    where it was when the request pinned its snapshot. *)
Theorem closed_connections_leave_no_trace env now races random script network dst s s0 v snap conn s1 es :
  acquireSnapshot env now races s = (s0, Some (Ok v)) →
  p_snapshots (st_pool s0) !! v = Some snap → snapshot_ok snap → 0 ≤ random →
  int32_counts (st_heap s0) →
  DialContext env now races random script network dst s = (s1, Dialed conn) →
  tc_closed conn = false → ConnClose ∈ es →
  ∀ q, activeCount q (st_heap (conn_run env es (s1, conn)).1) = activeCount q (st_heap s0).
Proof.
  intros Hacq Hsnap Hok Hr Hint Hdial Hconn Hclose q.
  destruct (dialPinned_agrees env random script network dst s0 v snap Hsnap Hok Hr Hint) as [_ Hd].
  rewrite (DialContext_pinned _ _ _ _ _ _ _ _ _ _ Hacq) in Hdial.
  rewrite Hdial in Hd. destruct Hd as [[Hs Hc] [_ Hd]]. cbn [fst snd] in *.
  rewrite conn_run_counts, Hconn.
  assert (existsb (λ e, match e with ConnClose => true | _ => false end) es = true) as ->.
  { apply existsb_exists. exists ConnClose. split; [by apply list_elem_of_In|done]. }
  by apply dec_opened.
Qed.
End accounting.

(** ** Witnesses *)
Lemma int32_counts_check h :
  map_Forall (λ _ x, - 2 ^ 31 ≤ sh_active x < 2 ^ 31) (cells h) → int32_counts h.
Proof.
  intros H c. unfold activeCount, cell. destruct (cells h !! c) as [x|] eqn:E; [by eapply H|cbn; lia].
Qed.

#[local] Existing Instances PoolExample.order_Z PoolExample.order_string.

Module DialExample.
Definition started : state :=
  publishSnapshotLocked PoolExample.env PoolExample.now [3; 6; 9] (SelectExample.start "sequential").
Definition refused : goerror := mkError "refused" [].
Definition canceled : goerror := mkError "context canceled" [Canceled].

(** The first member refuses, the second answers. *)
Definition second_answers (k : nat) : Attempt :=
  mkAttempt PoolExample.now (if decide (k = 0%nat) then Some refused else None) None None.
Definition client_left (k : nat) : Attempt :=
  mkAttempt PoolExample.now (Some canceled) (Some canceled) (Some canceled).

(** A publication slips in between the load and the count of the first round. *)
Definition overtaken : interference :=
  mkInterference (publishSnapshotLocked PoolExample.env PoolExample.now [3; 6; 9]) id id.
Definition races : list interference := [overtaken; undisturbed].

Definition acquired : state := (acquireSnapshot PoolExample.env PoolExample.now races started).1.

Definition dialed : state * dial_result :=
  DialContext PoolExample.env PoolExample.now races 5 second_answers NetworkTCP "x:443" started.
Definition left : state * dial_result :=
  DialContext PoolExample.env PoolExample.now races 5 client_left NetworkTCP "x:443" started.

(** The first round sees that snapshot 1 stopped accepting; the second pins 2. *)
Lemma acquires :
  acquireSnapshot PoolExample.env PoolExample.now races started = (acquired, Some (Ok 2)).
Proof. vm_compute. reflexivity. Qed.
Definition snap : PoolSnapshot :=
  default (mkSnapshot (mkSlice Topology []) 0 "" (mkSlice Topology []) (mkSlice Topology [])
             (mkSlice Topology []) ∅ ∅ ∅ false 0 true)
    (p_snapshots (st_pool acquired) !! 2).
Lemma counts : int32_counts (st_heap acquired).
Proof. apply int32_counts_check. refine (bool_decide_eq_true_1 _ _). vm_compute. reflexivity. Qed.
Lemma pinned : p_snapshots (st_pool acquired) !! 2 = Some snap.
Proof. vm_compute. reflexivity. Qed.
Lemma pinned_ok : snapshot_ok snap.
Proof.
  assert (Hnd : NoDup [3; 6; 9]) by (refine (bool_decide_eq_true_1 _ _); vm_compute; reflexivity).
  assert (Hsnap : snap = add_readers 1 (published PoolExample.env PoolExample.now [3; 6; 9] started))
    by (vm_compute; reflexivity).
  rewrite Hsnap. destruct (published_ok PoolExample.env PoolExample.now [3; 6; 9] started Hnd). by split.
Qed.
Lemma no_selector : p_hasSelector (st_pool acquired) = false.
Proof. vm_compute. reflexivity. Qed.
Lemma dialed_second :
  DialContext PoolExample.env PoolExample.now races 5 second_answers NetworkTCP "x:443" started =
  (dialed.1, Dialed (mkConn 6 "x:443" false false false)).
Proof. vm_compute. reflexivity. Qed.
Lemma left_cancels k e :
  at_error (client_left k) = Some e →
  is_Some (at_ctxJudge (client_left k)) ∧ (errors_Is e Canceled = true ∨ errors_Is e DeadlineExceeded = true).
Proof. intros [= <-]. split; [by eexists|by left]. Qed.
Lemma left_canceled :
  DialContext PoolExample.env PoolExample.now races 5 client_left NetworkTCP "x:443" started =
  (left.1, DialError canceled).
Proof. vm_compute. reflexivity. Qed.
End DialExample.

Lemma dial_follows_the_pinned_snapshot_witness :
  acquireSnapshot PoolExample.env PoolExample.now DialExample.races DialExample.started =
    (DialExample.acquired, Some (Ok 2)) ∧
  activeCount 4 (st_heap DialExample.dialed.1) = 1 ∧
  sn_accepting DialExample.snap = true ∧
  ∃ start, (start < 2)%nat ∧
    dial_agrees
      (expected PoolExample.env DialExample.second_answers false
         (λ m, ref_tag (member m (st_heap DialExample.acquired))) "x:443" 0
         [] None (drop start [3; 6] ++ take start [3; 6]))
      (st_heap DialExample.acquired) DialExample.dialed.
Proof.
  split; [exact DialExample.acquires|]. split; [vm_compute; reflexivity|].
  destruct (dial_follows_the_pinned_snapshot PoolExample.env PoolExample.now DialExample.races 5
    DialExample.second_answers NetworkTCP "x:443" DialExample.started DialExample.acquired 2
    DialExample.snap DialExample.acquires DialExample.pinned DialExample.pinned_ok ltac:(lia)
    DialExample.counts) as (Ha & Hb & Hd).
  assert (Hview : elts (if decide (NetworkTCP = NetworkUDP) then sn_udpMembers DialExample.snap
                        else sn_tcpMembers DialExample.snap) = [3; 6]) by (vm_compute; reflexivity).
  assert (Hlog : st_selections DialExample.acquired = []) by (vm_compute; reflexivity).
  rewrite Hview in Hb, Hd. rewrite Hlog, DialExample.no_selector in Hd.
  split; [exact Ha|]. eexists. split; [apply Hb; discriminate|exact Hd].
Defined.

Lemma caller_cancellation_charges_nobody_witness :
  DialExample.left.2 = DialError DialExample.canceled ∧
  window_of 4 (st_heap DialExample.left.1) = window_of 4 (st_heap DialExample.acquired).
Proof.
  split; [vm_compute; reflexivity|].
  refine (proj1 (caller_cancellation_charges_nobody PoolExample.env PoolExample.now DialExample.races 5
    DialExample.client_left NetworkTCP "x:443" DialExample.started DialExample.acquired 2
    DialExample.left.1 DialExample.canceled DialExample.acquires
    DialExample.no_selector _ DialExample.left_canceled) 4).
  exact DialExample.left_cancels.
Defined.

Lemma closed_connections_leave_no_trace_witness :
  let es := [ConnRead PoolExample.now 10 None; ConnClose; ConnClose] in
  let conn := mkConn 6 "x:443" false false false in
  activeCount 4 (st_heap DialExample.dialed.1) = 1 ∧
  activeCount 4 (st_heap (conn_run PoolExample.env es (DialExample.dialed.1, conn)).1) =
  activeCount 4 (st_heap DialExample.acquired).
Proof.
  cbn zeta. split; [vm_compute; reflexivity|].
  refine (closed_connections_leave_no_trace PoolExample.env PoolExample.now DialExample.races 5
    DialExample.second_answers NetworkTCP "x:443" DialExample.started DialExample.acquired 2
    DialExample.snap (mkConn 6 "x:443" false false false)
    DialExample.dialed.1 [ConnRead PoolExample.now 10 None; ConnClose; ConnClose]
    DialExample.acquires DialExample.pinned DialExample.pinned_ok
    ltac:(lia) DialExample.counts DialExample.dialed_second (eq_refl _) _ 4).
  right. left.
Defined.

(** Rounds left alone: the acquisition returns. *)
Lemma acquisition_returns_when_left_alone_witness :
  settled DialExample.started ∧
  (acquireSnapshot PoolExample.env PoolExample.now ([undisturbed] ++ undisturbed :: []) DialExample.started).2 ≠ None.
Proof.
  assert (Hs : settled DialExample.started).
  { right. exists 1. split; vm_compute; reflexivity. }
  split; [exact Hs|]. apply acquisition_returns_when_left_alone; [|exact Hs].
  constructor; [|constructor]. intros s ?. auto.
Defined.
