(* ===== verification/PoolUpdate.v ===== *)
(** The life of a pool ([internal/outbound/pool/pool.go]): construction
    ([newPool]), [Start], the two-phase in-place update ([PrepareUpdate], [Commit],
    [Rollback]) and [Close].

    The monitor's schedules and subscriptions are the fields of the pool that
    hold what is registered; the runtime tag migration is an answer of the
    monitor. A prepared update is a value next to the pool's state. *)

From S2P Require Import Prelude GroupMember GroupRuntime GroupInvariant GroupMembership GroupHealer PoolMember PoolState PoolView PoolSelect PoolTopology PoolDial.

(** ** Updates *)
Record RuntimeUpdate := mkPoolUpdate {
  pu_CapacityTarget : Z;
  pu_ActiveNodeIDs : option (list Z);
  pu_Members : list RuntimeMemberSpec;
  pu_Mode : string;
  pu_FailureWindow : Z;
  pu_FailureThreshold : Z;
  pu_HealthCheckInterval : Z;
  pu_PreferredNodeID : Z;
  pu_InitialGroupState : gmap string GroupInitialState;
  pu_RecoveryEnabled : bool;
  pu_RecoveryThreshold : Z;
  pu_RecoveryCooldown : Z
}.

Record preparedPoolUpdate := mkPrepared {
  up_update : RuntimeUpdate;
  up_rolledBack : bool;
  up_committed : bool
}.

(** The member loop of [PrepareUpdate]. *)
Fixpoint validate_update (env : Env) (specs : list RuntimeMemberSpec) (seen : gset string)
    : option string :=
  match specs with
  | [] => None
  | spec :: specs =>
    if decide (spec_Tag spec = "") then Some "pool member tag is empty"
    else if decide (spec_Tag spec ∈ seen) then Some ("duplicate pool member: " +:+ spec_Tag spec)
    else match env_outbound env (spec_Tag spec) with
         | None => Some ("pool member not found: " +:+ spec_Tag spec)
         | Some ob =>
           if negb (contains (env_networks env ob) NetworkTCP) && negb (contains (env_networks env ob) NetworkUDP)
           then Some ("pool member has no supported network: " +:+ spec_Tag spec)
           else validate_update env specs ({[spec_Tag spec]} ∪ seen)
         end
  end.

(** The group state of the update: one entry per member, under its node id. *)
Definition update_states (given : gmap string GroupInitialState) (specs : list RuntimeMemberSpec)
    : gmap string GroupInitialState :=
  foldl (λ acc spec, <[spec_Tag spec :=
      set_nodeID (mm_NodeID (spec_Meta spec)) (default zero_initial (given !! spec_Tag spec))]> acc)
    ∅ specs.

(** Slots default to the running ones while both sides have a target. *)
Definition update_slots (u : RuntimeUpdate) (o : Options) : option (list Z) :=
  match pu_ActiveNodeIDs u with
  | Some ids => Some ids
  | None => if decide (0 < pu_CapacityTarget u ∧ 0 < o_CapacityTarget o) then o_ActiveNodeIDs o else None
  end.

Section PoolUpdate.
Context `{!RangeOrder Z, !RangeOrder string}.

Definition PrepareUpdate (env : Env) (u : RuntimeUpdate) (s : state) : result preparedPoolUpdate :=
  if decide (pu_Members u = []) then Err "pool update requires at least one member"
  else match validate_update env (pu_Members u) ∅ with
  | Some e => Err e
  | None =>
    let '(slots, states) := applyCapacitySelection (pu_CapacityTarget u)
      (update_slots u (p_options (st_pool s))) (update_states (pu_InitialGroupState u) (pu_Members u)) in
    Ok (mkPrepared
      (mkPoolUpdate (pu_CapacityTarget u) (Some slots) (pu_Members u) (normalizeMode (pu_Mode u))
         (pu_FailureWindow u) (pu_FailureThreshold u) (pu_HealthCheckInterval u) (pu_PreferredNodeID u)
         states (pu_RecoveryEnabled u) (pu_RecoveryThreshold u) (pu_RecoveryCooldown u)) false false)
  end.

Definition Rollback (u : preparedPoolUpdate) : preparedPoolUpdate :=
  mkPrepared (up_update u) true (up_committed u).

(** The options after the policy of an update. *)
Definition updated_options (u : RuntimeUpdate) (o : Options) : Options :=
  mkOptions (pu_CapacityTarget u) (pu_ActiveNodeIDs u) (pu_Mode u) (o_Members o)
    (pu_FailureThreshold u) (o_BlacklistDuration o) (o_Metadata o) (o_GroupID o)
    (pu_FailureWindow u) (pu_HealthCheckInterval u) (o_PreferredMember o) (o_InitialGroupState o)
    (o_SelectorTag o) (o_MonitorObserverOnly o) (pu_RecoveryEnabled u) (pu_RecoveryThreshold u)
    (pu_RecoveryCooldown u).

Definition group_update (u : RuntimeUpdate) (o : Options) : GroupRuntime.RuntimeUpdate :=
  mkUpdate (pu_FailureWindow u) (pu_FailureThreshold u) (pu_PreferredNodeID u)
    (pu_InitialGroupState u) (recoveryPolicy (updated_options u o)).

(** The policy closure of [Commit], and the events it leaves for later. *)
Definition apply_policy (u : RuntimeUpdate) (now : Z) (s : state) : state :=
  let o := p_options (st_pool s) in
  with_groups (λ w, (ReconcileSilent (o_GroupID o) (group_update u o) now w).1)
    (with_pool (λ p, set_thresholds (pu_FailureThreshold u) (pu_FailureWindow u)
                       (set_options (updated_options u o) (set_mode (pu_Mode u) p))) s).

Definition policy_events (u : RuntimeUpdate) (now : Z) (s : state) : list GroupStateEvent :=
  let o := p_options (st_pool s) in
  (ReconcileSilent (o_GroupID o) (group_update u o) now (st_groups s)).2.

Definition set_memberTags (tags : list string) (o : Options) : Options :=
  mkOptions (o_CapacityTarget o) (o_ActiveNodeIDs o) (o_Mode o) tags (o_FailureThreshold o)
    (o_BlacklistDuration o) (o_Metadata o) (o_GroupID o) (o_FailureWindow o) (o_HealthCheckInterval o)
    (o_PreferredMember o) (o_InitialGroupState o) (o_SelectorTag o) (o_MonitorObserverOnly o)
    (o_RecoveryEnabled o) (o_RecoverySuccessThreshold o) (o_RecoveryCooldown o).

Definition update_schedule (env : Env) (u : RuntimeUpdate) (p : poolOutbound) : poolOutbound :=
  if bool_decide (is_Some (env_monitor env)) && negb (bool_decide (o_GroupID (p_options p) = 0)) then
    set_subscriptions (p_healthSubscription p) (p_groupSubscribed p)
      (Some ((λ spec, mm_NodeID (spec_Meta spec)) <$> pu_Members u, pu_HealthCheckInterval u))
      (p_registration p) p
  else p.

Definition errRolledBack : string := "pool update was rolled back".
Definition errCommitted : string := "pool update already committed".

Definition Commit (env : Env) (now random : Z) (su : state * preparedPoolUpdate)
    : state * preparedPoolUpdate * result (Z * list Z) :=
  let '(s, u) := su in
  if up_rolledBack u then (s, u, Err errRolledBack)
  else if up_committed u then (s, u, Err errCommitted)
  else
    let u1 := mkPrepared (up_update u) (up_rolledBack u) true in
    let upd := up_update u in
    if p_closed (st_pool s) then (s, u1, Err errClosed)
    else
      let events := policy_events upd now s in
      let '(s1, r) := reconcileMembersWithPolicyLocked env now (pu_Members upd) (apply_policy upd now) s in
      match r with
      | Err e => (s1, u1, Err e)
      | Ok out =>
        let s2 := with_pool (λ p, set_options
                    (set_memberTags (spec_Tag <$> pu_Members upd) (p_options p)) p) s1 in
        let s3 := with_pool (update_schedule env upd) s2 in
        let s4 := with_groups (NotifyEvents events now) s3 in
        (reconcileCurrent env now random s4, u1, Ok out)
      end.

(** ** Construction and start *)

(** One member's registration with the monitor in [newPool]. *)
Definition register_member_entry (env : Env) (o : Options) (tag : string) (h : heap) : heap :=
  match env_monitor env with
  | None => h
  | Some mv =>
    let '(c, h1) := acquireSharedState tag h in
    match mv_MigrateRuntimeTag mv (mm_NodeID (metadata_of o tag)) tag with
    | Some e => attachEntry (Some e) c h1
    | None => h1
    end
  end.

Definition newPool (env : Env) (options : Options) (nanos now : Z) (h : heap) (w : world) : result state :=
  if decide (o_Members options = []) then Err "pool requires at least one member"
  else
    let o := normalizeOptions options in
    let wait := bool_decide (o_Mode o = modeLowestLatency) && bool_decide (o_PreferredMember o = "") in
    let '(w1, token) := Register (o_GroupID o) (o_FailureWindow o) (o_FailureThreshold o)
                          (o_PreferredMember o) (o_InitialGroupState o) (Some (recoveryPolicy o)) now w in
    let h1 := if o_MonitorObserverOnly o then h
              else foldl (λ h tag, register_member_entry env o tag h) h (o_Members o) in
    Ok (mkState
      (mkPool o (o_Mode o) (Some (o_Mode o)) None ∅ [] ∅ ∅ None 0 (Z.lor (u64 nanos) 1)
         (o_FailureThreshold o) (o_FailureWindow o) false wait None None false None false None token)
      h1 w1 []).

Definition start_schedule (o : Options) : list Z * Z :=
  ((λ tag, mm_NodeID (metadata_of o tag)) <$> o_Members o, o_HealthCheckInterval o).

Definition Start (env : Env) (now random : Z) (s : state) : state * result unit :=
  let '(s1, r) := initializeMembersLocked env now s in
  match r with
  | Err e => (s1, Err e)
  | Ok _ =>
    let s2 := refreshHealthSubscriptionLocked env s1 in
    let o := p_options (st_pool s2) in
    if bool_decide (is_Some (env_monitor env)) && negb (bool_decide (o_GroupID o = 0)) then
      let s3 := with_pool (λ p, set_subscriptions (p_healthSubscription p) (p_groupSubscribed p)
                             (Some (start_schedule o)) (p_registration p) p) s2 in
      let s4 := reconcileCurrent env now random s3 in
      (with_pool (λ p, set_subscriptions (p_healthSubscription p) true (p_schedule p)
                         (p_registration p) p) s4, Ok tt)
    else (s2, Ok tt)
  end.

(** ** Closing *)
Definition stop_snapshot (s : state) : state :=
  match p_current (st_pool s) with
  | None => s
  | Some v =>
    let s1 := with_pool (with_snapshot v (set_accepting false)) s in
    match p_snapshots (st_pool s1) !! v with
    | Some snap => if decide (sn_readers snap = 0) then releaseSnapshotMembers v s1 else s1
    | None => s1
    end
  end.

Definition release_owners (s : state) : state :=
  with_pool (set_runtimeByTag ∅)
    (with_heap (λ h, foldl (λ h tr, releaseOwner tr.1 tr.2 h) h (range (p_runtimeByTag (st_pool s)))) s).

Definition unregister (s : state) : state :=
  with_groups (Unregister (o_GroupID (p_options (st_pool s))) (p_registration (st_pool s)))
    (with_pool (λ p, set_subscriptions None false None (p_registration p) p) s).

Definition Close (s : state) : state :=
  if p_closed (st_pool s) then s
  else
    let s1 := with_pool (λ p, set_timers None None (set_closed p)) s in
    release_owners (unregister (stop_snapshot s1)).
End PoolUpdate.

(** ** Preparation *)

(** The networks an update accepts. *)
Definition supported (env : Env) (spec : RuntimeMemberSpec) : Prop :=
  ∀ ob, env_outbound env (spec_Tag spec) = Some ob →
    contains (env_networks env ob) NetworkTCP || contains (env_networks env ob) NetworkUDP = true.

Lemma validate_update_None env specs : ∀ seen,
  validate_update env specs seen = None ↔
  validate_specs env specs seen = None ∧ Forall (supported env) specs.
Proof.
  induction specs as [|spec specs IH]; intros seen; cbn [validate_update validate_specs]; [naive_solver|].
  rewrite Forall_cons. destruct (decide _); [naive_solver|]. destruct (decide _); [naive_solver|].
  unfold supported at 1. destruct (env_outbound env (spec_Tag spec)) as [ob|] eqn:E; [|naive_solver].
  destruct (contains (env_networks env ob) NetworkTCP) eqn:Et, (contains (env_networks env ob) NetworkUDP) eqn:Eu;
    cbn [negb andb]; rewrite ?IH.
  4: { split; [done|]. intros (_ & Hs & _). specialize (Hs _ eq_refl). by rewrite Et, Eu in Hs. }
  all: split; [intros [? ?]; split_and!; [done| |done]|intros (? & _ & ?); done];
    intros ob' [= <-]; by rewrite Et, Eu.
Qed.

(** The entry of a member before slots are dealt. *)
Definition given_state (given : gmap string GroupInitialState) (spec : RuntimeMemberSpec) : GroupInitialState :=
  set_nodeID (mm_NodeID (spec_Meta spec)) (default zero_initial (given !! spec_Tag spec)).

Lemma update_states_lookup given specs tag st :
  NoDup (spec_Tag <$> specs) →
  update_states given specs !! tag = Some st ↔
  ∃ spec, spec ∈ specs ∧ spec_Tag spec = tag ∧ st = given_state given spec.
Proof.
  unfold update_states. induction specs as [|spec specs IH] using rev_ind; intros Hnd.
  { cbn. rewrite lookup_empty. split; [done|]. intros (? & ?%elem_of_nil & _). done. }
  rewrite fmap_app, NoDup_app in Hnd. destruct Hnd as (Hnd & Hnew & _).
  rewrite foldl_app. cbn [foldl]. destruct (decide (spec_Tag spec = tag)) as [<-|Hne].
  - rewrite lookup_insert_eq. split.
    + intros [= <-]. exists spec. split; [set_solver|done].
    + intros (spec' & Hin & Ht & ->). apply elem_of_app in Hin as [Hin|Hin].
      * exfalso. apply (Hnew (spec_Tag spec')); [apply list_elem_of_fmap; eauto|].
        rewrite Ht. set_solver.
      * by apply list_elem_of_singleton in Hin as ->.
  - rewrite lookup_insert_ne, IH by done. split; intros (spec' & Hin & Ht & Hst); exists spec'.
    + split; [set_solver|done].
    + split; [|done]. apply elem_of_app in Hin as [?|Hin]; [done|].
      by apply list_elem_of_singleton in Hin as ->.
Qed.

Section preparation.
Context `{!RangeOrder Z, !RangeOrder string}.

Lemma prepare_spec env u s p :
  PrepareUpdate env u s = Ok p ↔
  pu_Members u ≠ [] ∧ valid_specs env (pu_Members u) ∧ Forall (supported env) (pu_Members u) ∧
  let r := applyCapacitySelection (pu_CapacityTarget u) (update_slots u (p_options (st_pool s)))
             (update_states (pu_InitialGroupState u) (pu_Members u)) in
  p = mkPrepared (mkPoolUpdate (pu_CapacityTarget u) (Some r.1) (pu_Members u) (normalizeMode (pu_Mode u))
         (pu_FailureWindow u) (pu_FailureThreshold u) (pu_HealthCheckInterval u) (pu_PreferredNodeID u)
         r.2 (pu_RecoveryEnabled u) (pu_RecoveryThreshold u) (pu_RecoveryCooldown u)) false false.
Proof.
  unfold PrepareUpdate. destruct (decide (pu_Members u = [])); [naive_solver|].
  pose proof (validate_update_None env (pu_Members u) ∅) as Hv. rewrite validate_specs_None in Hv.
  destruct (validate_update env (pu_Members u) ∅) as [e|].
  - split; [done|]. intros (_ & H1 & H2 & _). assert (Some e = None) as ?; [|done].
    apply Hv. split_and!; [done| |done]. apply Forall_forall. set_solver.
  - destruct Hv as [Hv _]. destruct (Hv eq_refl) as [[Hv1 _] Hv2].
    destruct (applyCapacitySelection _ _ _) as [slots states]. cbn [fst snd]. naive_solver.
Qed.

(** Preparing an update validates it and describes exactly its members. It
    succeeds exactly when there is a member and the members have distinct,
    non-empty tags that resolve to outbounds with a TCP or UDP network. The
    prepared group state then has one entry per member, under the node id of its
    metadata, with the persisted history, eviction and revision given for that
    tag (or none), and on standby exactly when a positive target leaves the node
    without a slot; slots never exceed a positive target. *)
Theorem prepared_update_describes_its_members env u s :
  (is_Ok (PrepareUpdate env u s) = true ↔
     pu_Members u ≠ [] ∧ valid_specs env (pu_Members u) ∧ Forall (supported env) (pu_Members u)) ∧
  ∀ p, PrepareUpdate env u s = Ok p →
    let upd := up_update p in
    up_rolledBack p = false ∧ up_committed p = false ∧ pu_Members upd = pu_Members u ∧
    (∀ tag, is_Some (pu_InitialGroupState upd !! tag) ↔ tag ∈ spec_Tag <$> pu_Members u) ∧
    ∃ slots, pu_ActiveNodeIDs upd = Some slots ∧
      (0 < pu_CapacityTarget u → Z.of_nat (length slots) ≤ pu_CapacityTarget u) ∧
      ∀ spec, spec ∈ pu_Members u → ∃ st,
        pu_InitialGroupState upd !! spec_Tag spec = Some st ∧
        gi_NodeID st = mm_NodeID (spec_Meta spec) ∧
        set_standby false st = set_standby false (given_state (pu_InitialGroupState u) spec) ∧
        (gi_Standby st = true ↔ 0 < pu_CapacityTarget u ∧ gi_NodeID st ∉ slots).
Proof.
  split.
  - destruct (PrepareUpdate env u s) as [p|e] eqn:E.
    + apply prepare_spec in E as (? & ? & ? & _). by split.
    + split; [done|]. intros (H1 & H2 & H3).
      assert (∃ p, PrepareUpdate env u s = Ok p) as [p Hp]; [|congruence].
      eexists. apply prepare_spec. split_and!; [done..|]. reflexivity.
  - intros p (Hne & [Hnd Hall] & _ & ->)%prepare_spec. cbn [up_update up_rolledBack up_committed
      pu_Members pu_InitialGroupState pu_ActiveNodeIDs applyCapacitySelection fst snd].
    pose proof (λ tag st, update_states_lookup (pu_InitialGroupState u) (pu_Members u) tag st Hnd) as Hl.
    split_and!; [done..| |].
    + intros tag. rewrite lookup_fmap, fmap_is_Some, list_elem_of_fmap. split.
      * intros [st (spec & ? & ? & _)%Hl]. eauto.
      * intros (spec & -> & Hin). eexists. apply Hl. eauto.
    + eexists. split; [done|]. split; [intros; by apply capacity_selection_bound|].
      intros spec Hin. rewrite lookup_fmap.
      rewrite (proj2 (Hl (spec_Tag spec) (given_state (pu_InitialGroupState u) spec))) by eauto.
      eexists. split; [done|]. split_and!; [done|done|].
      cbn. rewrite andb_true_iff, negb_true_iff, bool_decide_eq_true, bool_decide_eq_false. done.
Qed.
End preparation.

(** ** Group policies survive the data plane *)
Section data_plane.
Context `{!RangeOrder Z, !RangeOrder string}.

Lemma shapes_memberAvailable env s r now :
  shapes (st_groups (memberAvailableForSnapshot env s r now).1) = shapes (st_groups s).
Proof.
  assert (Hb : ∀ s, st_groups (notBlacklisted s now r).1 = st_groups s).
  { clear s. intros s. unfold notBlacklisted. destruct (ref_shared _); [|done]. by destruct (isBlacklisted _ _ _). }
  assert (Hg : ∀ s provisional,
    shapes (st_groups (groupThenBlacklist s now provisional r).1) = shapes (st_groups s)).
  { clear s. intros s provisional. unfold groupThenBlacklist, groupAdmits.
    destruct (decide _); [by rewrite Hb|]. destruct provisional.
    - destruct (MemberNotEvicted _ _ _); [by rewrite Hb|done].
    - pose proof (shapes_MemberAvailable (o_GroupID (p_options (st_pool s)))
        (ref_tag (member r (st_heap s))) now (st_groups s)) as Hs.
      destruct (MemberAvailable _ _ _ _) as [w []]; [|exact Hs]. 
      change (shapes (st_groups (notBlacklisted (with_groups (λ _, w) s) now r).1) = shapes (st_groups s)).
      by rewrite Hb. }
  unfold memberAvailableForSnapshot. destruct (env_monitor env) as [mv|]; [|apply Hg].
  destruct (monitorSnapshot s mv r) as [m|]; [|destruct (_ && _); [done|apply Hg]].
  destruct (_ && _); [done|].
  apply (Hg (with_heap (with_ref r (set_latency (mo_LastLatencyMs m))) s)).
Qed.

Lemma shapes_publish env now members s :
  shapes (st_groups (publishSnapshotLocked env now members s)) = shapes (st_groups s).
Proof.
  assert (Hj : ∀ s, shapes (st_groups (judge_all env now members s).1) = shapes (st_groups s)).
  { clear s. induction members as [|r members IH]; intros s; [done|]. cbn.
    assert (Hj : shapes (st_groups (judge env now r s).1) = shapes (st_groups s)).
    { rewrite judge_unfold. cbn [fst]. by rewrite shapes_memberAvailable. }
    destruct (judge env now r s) as [s1 v]. specialize (IH s1).
    destruct (judge_all env now members s1). cbn in *. congruence. }
  unfold publishSnapshotLocked. specialize (Hj s).
  destruct (publish_members_judge env now members s) as [Hs1 _].
  destruct (publish_members env now members s) as [s1 [[ms tcp] udp]]. cbn [fst] in Hs1. subst s1.
  match goal with |- context [with_pool ?f ?s1] => set (s2 := with_pool f s1) end.
  assert (Hs2 : st_groups s2 = st_groups (judge_all env now members s).1) by done. clearbody s2.
  destruct (p_current (st_pool s)); [|congruence]. destruct (_ !! _); [|congruence].
  destruct (decide _); [|congruence]. unfold releaseSnapshotMembers.
  destruct (p_snapshots (st_pool s2) !! _); [|congruence]. destruct (sn_released _); cbn; congruence.
Qed.

Lemma resolve_groups env specs s : st_groups (resolve_members env specs s).1 = st_groups s.
Proof.
  assert (Ha : ∀ r s, st_groups (attachMonitorMember env r s) = st_groups s).
  { clear s. intros r s. unfold attachMonitorMember. by repeat case_match. }
  revert s. induction specs as [|spec specs IH]; intros s; [done|]. cbn [resolve_members].
  assert (Hr : st_groups (resolve_member env spec s).1 = st_groups s).
  { unfold resolve_member, fresh_member, renamed_member. destruct (_ !! spec_Tag spec) as [old|].
    - destruct (decide (ref_outbound _ = _)); [destruct (decide _); [done|]|].
      + destruct (new_ref _ _). cbn [fst]. by rewrite Ha.
      + destruct (acquireSharedState _ _). destruct (member_runtime _ _ _ _ _) as [[? ?] ?].
        destruct (new_ref _ _). cbn [fst]. by rewrite Ha.
    - destruct (acquireSharedState _ _). destruct (member_runtime _ _ _ _ _) as [[? ?] ?].
      destruct (new_ref _ _). cbn [fst]. by rewrite Ha. }
  destruct (resolve_member env spec s) as [s1 r]. specialize (IH s1).
  destruct (resolve_members env specs s1). cbn in *. congruence.
Qed.

Lemma reconcile_shapes env now specs f s s' out :
  reconcileMembersWithPolicyLocked env now specs f s = (s', Ok out) →
  shapes (st_groups s') = shapes (st_groups (f s)).
Proof.
  unfold reconcileMembersWithPolicyLocked. destruct (p_closed _); [done|].
  destruct (validate_specs env specs ∅); [done|].
  pose proof (resolve_groups env specs (f s)) as Hg.
  destruct (resolve_members env specs (f s)) as [s1 next]. cbn zeta.
  match goal with |- context [refreshHealthSubscriptionLocked env ?x] => set (s2 := x) end.
  assert (H3 : st_groups (refreshHealthSubscriptionLocked env s2) = st_groups s1).
  { unfold refreshHealthSubscriptionLocked. by destruct (env_monitor env). }
  intros [= <- _]. rewrite shapes_publish. cbn [st_groups with_heap with_pool]. rewrite H3. cbn in Hg. congruence.
Qed.

(** Choosing a current member on a started pool changes neither topology, nor
    options, nor group policies. *)
Lemma selectMember_frame random snap v s :
  let s' := (selectMember random snap v s).1 in
  st_groups s' = st_groups s ∧ st_heap s' = st_heap s ∧
  p_topology (st_pool s') = p_topology (st_pool s) ∧ p_options (st_pool s') = p_options (st_pool s) ∧
  p_mode (st_pool s') = p_mode (st_pool s) ∧
  currentFailureThreshold (st_pool s') = currentFailureThreshold (st_pool s).
Proof.
  cbn zeta. unfold selectMember. destruct (_ && _).
  { destruct (p_currentMember _); [destruct (decide _)|]; done. }
  assert (H : let s' := (selectionIndex random snap v s).1 in
    st_groups s' = st_groups s ∧ st_heap s' = st_heap s ∧
    p_topology (st_pool s') = p_topology (st_pool s) ∧ p_options (st_pool s') = p_options (st_pool s) ∧
    p_mode (st_pool s') = p_mode (st_pool s) ∧
    currentFailureThreshold (st_pool s') = currentFailureThreshold (st_pool s)).
  { cbn zeta. unfold selectionIndex. destruct (decide _); [done|]. destruct (decide _); [done|].
    destruct (decide _); [done|]. destruct (_ || _); [|done]. destruct (stickyIndex _ _ _); [done|].
    by destruct (decide _). }
  by destruct (selectionIndex random snap v s).
Qed.

Lemma reconcileCurrent_frame env now random s v :
  p_current (st_pool s) = Some v →
  let s' := reconcileCurrent env now random s in
  shapes (st_groups s') = shapes (st_groups s) ∧ st_heap s' = st_heap s ∧
  p_topology (st_pool s') = p_topology (st_pool s) ∧ p_options (st_pool s') = p_options (st_pool s) ∧
  p_mode (st_pool s') = p_mode (st_pool s) ∧
  currentFailureThreshold (st_pool s') = currentFailureThreshold (st_pool s).
Proof.
  intros Hc. cbn zeta. unfold reconcileCurrent, loadSnapshot. rewrite Hc.
  destruct (p_closed (st_pool s)); [done|]. destruct (p_snapshots (st_pool s) !! v) as [snap|]; [|done].
  destruct (match p_currentMember _ with Some _ => _ | None => _ end); [done|]. destruct (_ && _); [done|].
  destruct (decide _); [cbn; by rewrite shapes_SetCurrentTag|].
  set (s1 := with_pool (set_wait false) s).
  destruct (selectMember_frame random snap (sn_Members snap) s1) as (E1 & E2 & E3 & E4 & E5 & E6).
  assert (F : st_groups s1 = st_groups s ∧ st_heap s1 = st_heap s ∧ p_topology (st_pool s1) = p_topology (st_pool s) ∧
    p_options (st_pool s1) = p_options (st_pool s) ∧ p_mode (st_pool s1) = p_mode (st_pool s) ∧
    currentFailureThreshold (st_pool s1) = currentFailureThreshold (st_pool s)) by done.
  destruct F as (F1 & F2 & F3 & F4 & F5 & F6). clearbody s1.
  destruct (selectMember random snap (sn_Members snap) s1) as [s2 [m|]]; cbn [fst] in *; [|split_and!; congruence].
  assert (Hset : ∀ tag f s3, st_pool s3 = st_pool s2 → st_heap s3 = st_heap s2 → st_groups s3 = st_groups s2 →
    (∀ p, f p = set_currentMember (p_currentMember (f p)) p) →
    let s4 := with_groups (SetCurrentTag (o_GroupID (p_options (st_pool s))) tag now) (with_pool f s3) in
    shapes (st_groups s4) = shapes (st_groups s) ∧ st_heap s4 = st_heap s ∧
    p_topology (st_pool s4) = p_topology (st_pool s) ∧ p_options (st_pool s4) = p_options (st_pool s) ∧
    p_mode (st_pool s4) = p_mode (st_pool s) ∧
    currentFailureThreshold (st_pool s4) = currentFailureThreshold (st_pool s)).
  { intros tag f s3 G1 G2 G3 Hf. cbn [st_groups st_heap st_pool with_groups with_pool].
    rewrite shapes_SetCurrentTag, G1, G2, G3, Hf.
    split_and!; [cbn [set_currentMember p_topology p_options p_mode]; congruence..|].
    transitivity (currentFailureThreshold (st_pool s2)); [done|congruence]. }
  unfold select_outbound. destruct (p_hasSelector (st_pool s2)); [destruct (env_selectorAccepts _ _ _)|].
  - by apply Hset.
  - cbn [fst st_groups st_heap st_pool]. split_and!; congruence.
  - by apply Hset.
Qed.

Lemma selectMember_snapshots random snap v s :
  let s' := (selectMember random snap v s).1 in
  p_current (st_pool s') = p_current (st_pool s) ∧ p_snapshots (st_pool s') = p_snapshots (st_pool s).
Proof.
  cbn zeta. unfold selectMember. destruct (_ && _).
  { destruct (p_currentMember _); [destruct (decide _)|]; done. }
  assert (H : let s' := (selectionIndex random snap v s).1 in
    p_current (st_pool s') = p_current (st_pool s) ∧ p_snapshots (st_pool s') = p_snapshots (st_pool s)).
  { cbn zeta. unfold selectionIndex. repeat (destruct (decide _); [done|]). destruct (_ || _); [|done].
    destruct (stickyIndex _ _ _); [done|]. by destruct (decide _). }
  by destruct (selectionIndex random snap v s).
Qed.

Lemma reconcileCurrent_snapshots env now random s v :
  p_current (st_pool s) = Some v →
  let s' := reconcileCurrent env now random s in
  p_current (st_pool s') = p_current (st_pool s) ∧ p_snapshots (st_pool s') = p_snapshots (st_pool s).
Proof.
  intros Hc. cbn zeta. unfold reconcileCurrent, loadSnapshot. rewrite Hc.
  destruct (p_closed (st_pool s)); [by rewrite Hc|].
  destruct (p_snapshots (st_pool s) !! v) as [snap|]; [|by rewrite Hc].
  destruct (match p_currentMember _ with Some _ => _ | None => _ end); [by rewrite <-Hc|].
  destruct (_ && _); [by rewrite Hc|]. destruct (decide _); [by rewrite <-Hc|].
  pose proof (selectMember_snapshots random snap (sn_Members snap) (with_pool (set_wait false) s)) as Hs.
  destruct (selectMember random snap (sn_Members snap) _) as [s2 [m|]]; cbn in Hs; [|by rewrite <-Hc].
  unfold select_outbound. rewrite <-Hc.
  destruct (p_hasSelector (st_pool s2)); [destruct (env_selectorAccepts _ _ _)|]; cbn; apply Hs.
Qed.

(** What a publication leaves: the current snapshot accepts readers, carries the
    pool's mode and all its members, routes only over them, and the one it
    replaces no longer accepts. *)
Record published_over (members : list Z) (previous : option Z) (s : state) (version : Z) (snap : PoolSnapshot)
    : Prop := {
  po_current : current_snapshot (st_pool s) = Some snap;
  po_version : sn_Version snap = version;
  po_accepting : sn_accepting snap = true;
  po_mode : sn_mode snap = p_mode (st_pool s);
  po_all : elts (sn_allMembers snap) = members;
  po_views : ∀ v, v ∈ [sn_Members snap; sn_tcpMembers snap; sn_udpMembers snap] →
    ∀ r, r ∈ elts v → r ∈ members;
  po_previous : ∀ v old, previous = Some v → p_snapshots (st_pool s) !! v = Some old →
    v ≠ version ∧ sn_accepting old = false
}.

Lemma published_view_members env now members s v r :
  let snap := published env now members s in
  v ∈ [sn_Members snap; sn_tcpMembers snap; sn_udpMembers snap] → r ∈ elts v → r ∈ members.
Proof.
  cbn zeta. destruct (published_selections env now members s) as (Hm & Ht & Hu). unfold published.
  destruct (publish_members env now members s) as [s1 [[ms tcp] udp]]. cbn [fst snd] in *.
  destruct (build_snapshot_views s1 (next_version (st_pool s)) (mkSlice Topology members) ms tcp udp)
    as (H1 & _ & _ & _ & _ & _ & _ & Hvt & Hvu & _).
  assert (Hsel : ∀ keep, r ∈ select keep members → r ∈ members).
  { intros keep (i & _ & Hi)%elem_of_select. by eapply list_elem_of_lookup_2. }
  rewrite !elem_of_cons, elem_of_nil. intros [->|[->|[->|[]]]].
  - rewrite H1, Hm. apply Hsel.
  - rewrite Hvt, network_view_perm, Ht. apply Hsel.
  - rewrite Hvu, network_view_perm, Hu. apply Hsel.
Qed.

Lemma publish_stops env now members s v old :
  snapshots_wf (st_pool s) → p_current (st_pool s) = Some v →
  p_snapshots (st_pool (publishSnapshotLocked env now members s)) !! v = Some old → sn_accepting old = false.
Proof.
  intros Hwf Hv. destruct (next_version_fresh _ v Hwf Hv) as [Hne _].
  unfold publishSnapshotLocked.
  pose proof (quiet_pool _ _ _ (quiet_judge_all env now members s)) as Hp.
  destruct (publish_members_judge env now members s) as [Hs1 _].
  destruct (publish_members env now members s) as [s1 [[ms tcp] udp]]. cbn [fst] in Hs1. subst s1.
  match goal with |- context [with_pool ?f ?s1] => set (s2 := with_pool f s1) end.
  assert (H2 : ∀ old, p_snapshots (st_pool s2) !! v = Some old → sn_accepting old = false).
  { intros x. unfold s2. cbn. rewrite Hp, lookup_insert_ne, Hv, lookup_alter_eq by done.
    destruct (p_snapshots (st_pool s) !! v); [|done]. by intros [= <-]. }
  clearbody s2. rewrite Hv. destruct (p_snapshots (st_pool s2) !! v) as [snap|] eqn:E; [|by rewrite E].
  specialize (H2 snap eq_refl). destruct (decide _); [|rewrite E; by intros [= <-]].
  unfold releaseSnapshotMembers. rewrite E. destruct (sn_released snap); [rewrite E; by intros [= <-]|].
  cbn. rewrite lookup_alter_eq, E. by intros [= <-].
Qed.

Lemma publish_published env now members s :
  snapshots_wf (st_pool s) →
  let s' := publishSnapshotLocked env now members s in
  published_over members (p_current (st_pool s)) s' (current_version s') (published env now members s).
Proof.
  intros Hwf. cbn zeta. destruct (publish_current env now members s Hwf) as [Hcur Hc].
  destruct (publish_frame env now members s) as [_ Hpool].
  pose proof (published_view_members env now members s) as Hviews.
  pose proof (quiet_pool _ _ _ (quiet_judge_all env now members s)) as Hp.
  destruct (publish_members_judge env now members s) as [Hs1 _].
  unfold current_version. split; [done|..].
  - rewrite Hc. unfold published. destruct (publish_members env now members s) as [s1 [[ms tcp] udp]].
    apply build_snapshot_views.
  - unfold published. destruct (publish_members env now members s) as [s1 [[ms tcp] udp]].
    apply build_snapshot_views.
  - rewrite Hpool. cbn. unfold published.
    destruct (publish_members env now members s) as [s1 [[ms tcp] udp]]. cbn [fst] in Hs1. subst s1.
    rewrite <-Hp. apply build_snapshot_views.
  - unfold published. destruct (publish_members env now members s) as [s1 [[ms tcp] udp]]. cbn [fst snd].
    by destruct (build_snapshot_views s1 (next_version (st_pool s)) (mkSlice Topology members) ms tcp udp)
      as (_ & -> & _).
  - intros v Hv r. by apply Hviews.
  - intros v old Hprev Hold. rewrite Hc. destruct (next_version_fresh _ v Hwf Hprev) as [Hne _].
    split; [done|]. by eapply publish_stops.
Qed.
End data_plane.

(** ** The prepared update as a one-shot handle *)
Inductive handle_call :=
| CallRollback
| CallCommit (env : Env) (now random : Z) (s : state).

Section handle.
Context `{!RangeOrder Z, !RangeOrder string}.

(** The outcome of a commit: the pool before, the pool after, the answer. *)
Definition handle_step (u : preparedPoolUpdate) (c : handle_call)
    : preparedPoolUpdate * list (state * state * result (Z * list Z)) :=
  match c with
  | CallRollback => (Rollback u, [])
  | CallCommit env now random s =>
    let '(s', u', r) := Commit env now random (s, u) in (u', [(s, s', r)])
  end.

Fixpoint handle_run (u : preparedPoolUpdate) (calls : list handle_call)
    : list (state * state * result (Z * list Z)) :=
  match calls with
  | [] => []
  | c :: calls => let '(u', out) := handle_step u c in out ++ handle_run u' calls
  end.

Definition accepted (out : state * state * result (Z * list Z)) : bool := is_Ok out.2.

Lemma commit_outcome env now random s u :
  let r := Commit env now random (s, u) in
  (is_Ok r.2 = true ↔ up_rolledBack u = false ∧ up_committed u = false ∧
     p_closed (st_pool s) = false ∧ valid_specs env (pu_Members (up_update u))) ∧
  (is_Ok r.2 = false → r.1.1 = s) ∧
  r.1.2 = mkPrepared (up_update u) (up_rolledBack u) (up_committed u || negb (up_rolledBack u)).
Proof.
  cbn zeta. unfold Commit. destruct u as [upd rolled committed]. cbn [up_update up_rolledBack up_committed].
  assert (Hrefused : ∀ P : Prop, ¬ P → (is_Ok (@Err (Z * list Z) errClosed) = true ↔ P)) by (intros P HP; cbn; split; [done|by intros ?%HP]).
  destruct rolled; [cbn; rewrite orb_false_r; split_and!; [apply Hrefused; by intros [? _]|done..]|].
  destruct committed; [cbn; split_and!; [apply Hrefused; by intros (_ & ? & _)|done..]|].
  destruct (p_closed (st_pool s)) eqn:Hc; [cbn; split_and!; [apply Hrefused; by intros (_ & _ & ? & _)|done..]|].
  destruct (rejected_reconcile_changes_nothing env now (pu_Members upd) (apply_policy upd now) s) as [Hok Herr].
  destruct (reconcileMembersWithPolicyLocked env now (pu_Members upd) (apply_policy upd now) s) as [s1 [out|e]];
    cbn [is_Ok fst snd] in *.
  - split_and!; [|done|done]. rewrite Hok. tauto.
  - split_and!; [|by intros _; apply Herr|done]. rewrite Hok. tauto.
Qed.

Lemma spent_handle_is_inert calls : ∀ u,
  up_rolledBack u || up_committed u = true →
  Forall (λ out, accepted out = false ∧ out.1.2 = out.1.1) (handle_run u calls).
Proof.
  induction calls as [|[|env now random s] calls IH]; intros u Hu; cbn [handle_run handle_step].
  - constructor.
  - apply IH. done.
  - destruct (commit_outcome env now random s u) as (Hok & Herr & Hu').
    destruct (Commit env now random (s, u)) as [[s' u'] r]. cbn [fst snd] in *. subst u'.
    assert (is_Ok r = false) as Hr.
    { destruct (is_Ok r); [|done]. destruct (proj1 Hok eq_refl) as (E1 & E2 & _). by rewrite E1, E2 in Hu. }
    constructor; [split; [done|by apply Herr]|]. apply IH. cbn.
    by destruct (up_rolledBack u), (up_committed u).
Qed.

(** A prepared update takes effect at most once and never in part. Whatever
    sequence of commits and rollbacks it sees, at any pool states, at most one
    commit is accepted, a refused commit leaves the pool, the heap and the group
    runtimes as they were, no commit is accepted after a rollback, and the first
    commit of a live handle is accepted exactly when the pool is open and every
    member still resolves. *)
Theorem commit_takes_effect_once upd calls :
  let outs := handle_run (mkPrepared upd false false) calls in
  (length (filter (λ out, accepted out = true) outs) ≤ 1)%nat ∧
  Forall (λ out, accepted out = false → out.1.2 = out.1.1) outs ∧
  (∀ pre post, calls = pre ++ CallRollback :: post →
     ∃ before after, outs = before ++ after ∧ before = handle_run (mkPrepared upd false false) pre ∧
       Forall (λ out, accepted out = false) after) ∧
  (∀ env now random s rest, calls = CallCommit env now random s :: rest →
     ∃ s' r more, outs = (s, s', r) :: more ∧
       (is_Ok r = true ↔ p_closed (st_pool s) = false ∧ valid_specs env (pu_Members upd))).
Proof.
  cbn zeta. set (u0 := mkPrepared upd false false).
  assert (Hinert : ∀ u c, up_rolledBack u || up_committed u = true → handle_run u c = handle_run u c ∧
    Forall (λ out, accepted out = false) (handle_run u c)).
  { intros u c Hu. split; [done|]. eapply Forall_impl; [by apply spent_handle_is_inert|]. naive_solver. }
  split_and!.
  - clear Hinert. induction calls as [|[|env now random s] calls IH]; cbn [handle_run handle_step]; [cbn; lia| |].
    + rewrite filter_nothing; [cbn; lia|]. cbn [app].
      eapply Forall_impl; [by apply spent_handle_is_inert|]. cbn. intros out [-> _]. done.
    + destruct (commit_outcome env now random s u0) as (_ & _ & Hu').
      destruct (Commit env now random (s, u0)) as [[s' u'] r]. cbn [fst snd] in *. subst u'.
      cbn [app]. rewrite filter_cons, filter_nothing; [destruct (decide _); cbn; lia|].
      eapply Forall_impl; [by apply spent_handle_is_inert|]. cbn. intros out [-> _]. done.
  - induction calls as [|[|env now random s] calls IH]; cbn [handle_run handle_step]; [done| |].
    + eapply Forall_impl; [by apply spent_handle_is_inert|]. naive_solver.
    + destruct (commit_outcome env now random s u0) as (_ & Herr & Hu').
      destruct (Commit env now random (s, u0)) as [[s' u'] r]. cbn [fst snd] in *. subst u'.
      constructor; [done|]. eapply Forall_impl; [by apply spent_handle_is_inert|]. naive_solver.
  - intros pre post ->. clear Hinert. generalize u0. clear u0.
    induction pre as [|c pre IH]; intros u; cbn [handle_run app].
    + exists [], (handle_run (Rollback u) post). split_and!; [done..|].
      eapply Forall_impl; [by apply spent_handle_is_inert|]. naive_solver.
    + destruct (handle_step u c) as [u' out]. destruct (IH u') as (before & after & E1 & E2 & Hall).
      exists (out ++ before), after. rewrite E1, E2. by rewrite app_assoc.
  - intros env now random s rest ->. cbn [handle_run handle_step].
    destruct (commit_outcome env now random s u0) as (Hok & _ & _).
    destruct (Commit env now random (s, u0)) as [[s' u'] r]. cbn [fst snd] in *.
    exists s', r, (handle_run u' rest). split; [done|]. rewrite Hok. cbn. naive_solver.
Qed.
End handle.

(** ** A commit moves the pool and its group together *)
Section alignment.
Context `{!RangeOrder Z, !RangeOrder string}.

Lemma recoveryPolicy_provided o : recoveryPolicyProvided (recoveryPolicy o) = true.
Proof.
  unfold recoveryPolicyProvided. destruct (NormalizeRecoveryPolicy_wf
    (mkPolicy (o_RecoveryEnabled o) (o_RecoverySuccessThreshold o) (o_RecoveryCooldown o))) as [Ht _].
  unfold recoveryPolicy. rewrite (bool_decide_false (rp_SuccessThreshold _ = 0)) by lia.
  by rewrite orb_true_r.
Qed.

Lemma NormalizeRecoveryPolicy_idemp p :
  NormalizeRecoveryPolicy (NormalizeRecoveryPolicy p) = NormalizeRecoveryPolicy p.
Proof.
  destruct (NormalizeRecoveryPolicy_wf p) as [H1 H2]. unfold NormalizeRecoveryPolicy at 1.
  rewrite decide_False, decide_False by lia. by destruct (NormalizeRecoveryPolicy p).
Qed.

Lemma policy_frame_apply upd now : policy_frame (apply_policy upd now).
Proof. intros s. done. Qed.

(** What a reconciliation leaves of the rest of the pool. *)
Lemma reconcile_pool_fields env now specs f s s' out :
  topo_wf s → policy_frame f →
  reconcileMembersWithPolicyLocked env now specs f s = (s', Ok out) →
  p_options (st_pool s') = p_options (st_pool (f s)) ∧ p_mode (st_pool s') = p_mode (st_pool (f s)) ∧
  p_failureThreshold (st_pool s') = p_failureThreshold (st_pool (f s)).
Proof.
  intros Ht Hpol Hrec. destruct out as [version retired].
  destruct (reconcile_unfold _ _ _ _ _ _ _ _ Hpol Hrec) as ([_ Hall] & Heq). cbn zeta in Heq.
  injection Heq as -> _ _. destruct (publish_frame env now (p_topology (st_pool (reconciled env specs (f s)).1))
    (reconciled env specs (f s)).1) as [_ Hp]. rewrite Hp. cbn.
  assert (Hext : st_pool (resolve_members env specs (f s)).1 =
    set_runtimeByTag (p_runtimeByTag (st_pool (resolve_members env specs (f s)).1)) (st_pool (f s))).
  { apply ext_pool. apply resolve_members_spec; [by apply policy_frame_topo|].
    eapply Forall_impl; [exact Hall|]. naive_solver. }
  unfold reconciled. destruct (resolve_members env specs (f s)) as [s1 next]. cbn [fst] in Hext.
  match goal with |- context [refreshHealthSubscriptionLocked env ?x] => set (s2 := x) end.
  destruct (refresh_pool env s2) as [_ [hs Hr]].
  cbn [fst st_pool with_heap with_pool set_currentMember p_options p_mode p_failureThreshold].
  rewrite Hr. unfold s2. cbn. by rewrite Hext.
Qed.

Lemma prepared_node_ids env u s p tag id :
  PrepareUpdate env u s = Ok p →
  (gi_NodeID <$> pu_InitialGroupState (up_update p)) !! tag = Some id ↔
  ∃ spec, spec ∈ pu_Members (up_update p) ∧ spec_Tag spec = tag ∧ mm_NodeID (spec_Meta spec) = id.
Proof.
  intros (_ & [Hnd _] & _ & ->)%prepare_spec. cbn [up_update pu_InitialGroupState pu_Members applyCapacitySelection snd].
  rewrite !lookup_fmap. pose proof (λ st, update_states_lookup (pu_InitialGroupState u) (pu_Members u) tag st Hnd) as Hl.
  destruct (update_states _ _ !! tag) as [st|] eqn:E.
  - pose proof (proj1 (Hl st) eq_refl) as (spec & Hin & Htag & ->). cbn. split.
    + intros [= <-]. by exists spec.
    + intros (spec' & Hin' & Htag' & <-). f_equal.
      assert (Some (given_state (pu_InitialGroupState u) spec) = Some (given_state (pu_InitialGroupState u) spec'))
        as [= Heq]; [|done]. apply Hl. eauto.
  - split; [done|]. intros (spec & Hin & Htag & _).
    assert (None = Some (given_state (pu_InitialGroupState u) spec)) as ?; [|done]. apply Hl. eauto.
Qed.

Lemma reconcile_published env now specs applyPolicy s s' version retired :
  topo_wf s → snapshots_wf (st_pool s) → policy_frame applyPolicy →
  reconcileMembersWithPolicyLocked env now specs applyPolicy s = (s', Ok (version, retired)) →
  ∃ snap, published_over (p_topology (st_pool s')) (p_current (st_pool s)) s' version snap.
Proof.
  intros Ht Hwf Hpol Hrec. destruct (Hpol s) as (_ & _ & _ & _ & P5 & P6).
  destruct (reconcile_unfold _ _ _ _ _ _ _ _ Hpol Hrec) as (Hvalid & Heq).
  destruct (reconciled_spec env specs (applyPolicy s) (policy_frame_topo _ _ Hpol Ht) Hvalid)
    as (_ & _ & _ & _ & _ & Hcur & Hsn).
  destruct (reconciled env specs (applyPolicy s)) as [s5 ret]. cbn [fst snd] in *.
  injection Heq as -> -> _.
  assert (Hwf5 : snapshots_wf (st_pool s5)).
  { destruct Hwf as [W1 W2]. split; [intros v; rewrite Hcur, Hsn, P5, P6; auto|].
    intros v snap. rewrite Hsn, P6. auto. }
  pose proof (publish_published env now (p_topology (st_pool s5)) s5 Hwf5) as Hpub.
  destruct (publish_frame env now (p_topology (st_pool s5)) s5) as [_ Hpool].
  assert (Htop : p_topology (st_pool (publishSnapshotLocked env now (p_topology (st_pool s5)) s5)) =
                 p_topology (st_pool s5)) by by rewrite Hpool.
  rewrite Htop. rewrite Hcur, P5 in Hpub. by eexists.
Qed.

Lemma published_over_pool members previous s s' version snap :
  published_over members previous s version snap →
  p_current (st_pool s') = p_current (st_pool s) → p_snapshots (st_pool s') = p_snapshots (st_pool s) →
  p_mode (st_pool s') = p_mode (st_pool s) → published_over members previous s' version snap.
Proof.
  intros [H1 H2 H3 H4 H5 H6 H7] Ec Es Em. unfold current_snapshot in *.
  split; unfold current_snapshot; rewrite ?Ec, ?Es, ?Em; done.
Qed.

End alignment.

(** ** After closing *)

(** A runtime that shares a state cell and has given up its ownership, or owns none. *)
Definition disowned (h : heap) (rp : Z) : Prop :=
  ∀ r, runtimes h !! rp = Some r → is_Some (mr_shared r) → mr_released r = true.

Lemma releaseOwner_runtimes tag rp h q :
  runtimes (releaseOwner tag rp h) !! q = runtimes h !! q ∨
  (q = rp ∧ ∃ r, runtimes h !! q = Some r ∧ runtimes (releaseOwner tag rp h) !! q = Some (set_released r)).
Proof.
  unfold releaseOwner. destruct (runtimes h !! rp) as [r|] eqn:E; [|by left].
  destruct (mr_shared r); [|by left]. destruct (mr_released r); [by left|]. cbn zeta.
  assert (H : runtimes (if decide (sh_owners (cell z (with_cell z (add_owners (-1)) (with_runtime rp set_released h))) = 0)
      then compareAndDelete tag z (with_cell z (add_owners (-1)) (with_runtime rp set_released h))
      else with_cell z (add_owners (-1)) (with_runtime rp set_released h)) !! q =
    alter set_released rp (runtimes h) !! q).
  { destruct (decide _); [|done]. unfold compareAndDelete. by destruct (decide _). }
  rewrite H. destruct (decide (q = rp)) as [->|].
  - right. split; [done|]. exists r. by rewrite lookup_alter_eq, E.
  - left. by rewrite lookup_alter_ne.
Qed.

Lemma releaseOwner_disowns tag rp h : disowned (releaseOwner tag rp h) rp.
Proof.
  intros r. destruct (releaseOwner_runtimes tag rp h rp) as [Heq|(_ & r0 & _ & ->)]; [|by intros [= <-]].
  rewrite Heq. intros Hr Hs. unfold releaseOwner in Heq. rewrite Hr in Heq.
  destruct Hs as [c Hc]. rewrite Hc in Heq. destruct (mr_released r) eqn:E; [done|]. exfalso.
  assert (Hrt : runtimes (if decide (sh_owners (cell c (with_cell c (add_owners (-1)) (with_runtime rp set_released h))) = 0)
      then compareAndDelete tag c (with_cell c (add_owners (-1)) (with_runtime rp set_released h))
      else with_cell c (add_owners (-1)) (with_runtime rp set_released h)) !! rp = Some (set_released r)).
  { transitivity (alter set_released rp (runtimes h) !! rp); [|by rewrite lookup_alter_eq, Hr].
    destruct (decide _); [|done]. unfold compareAndDelete. by destruct (decide _). }
  cbn zeta in Heq. rewrite Hrt in Heq. injection Heq as Heq. by rewrite <-Heq in E.
Qed.

Lemma releaseOwner_keeps_disowned tag rp h q : disowned h q → disowned (releaseOwner tag rp h) q.
Proof.
  intros Hd r. destruct (releaseOwner_runtimes tag rp h q) as [->|(_ & r0 & _ & ->)]; [apply Hd|by intros [= <-]].
Qed.

Section closing.
Context `{!RangeOrder Z, !RangeOrder string}.

Lemma release_owners_disowns l : ∀ h,
  (∀ q, disowned h q → disowned (foldl (λ h tr, releaseOwner tr.1 tr.2 h) h l) q) ∧
  ∀ (tr : string * Z), tr ∈ l → disowned (foldl (λ h tr, releaseOwner tr.1 tr.2 h) h l) tr.2.
Proof.
  induction l as [|tr0 l IH]; intros h; cbn [foldl].
  { split; [done|]. by intros tr ?%elem_of_nil. }
  destruct (IH (releaseOwner tr0.1 tr0.2 h)) as [I1 I2]. split.
  - intros q Hq. by apply I1, releaseOwner_keeps_disowned.
  - intros tr [->|Htr]%elem_of_cons; [|by apply I2]. apply I1, releaseOwner_disowns.
Qed.

Lemma stop_snapshot_frame s :
  st_groups (stop_snapshot s) = st_groups s ∧
  st_pool (stop_snapshot s) = set_snapshots (p_current (st_pool s)) (p_snapshots (st_pool (stop_snapshot s))) (st_pool s).
Proof.
  unfold stop_snapshot. destruct (p_current (st_pool s)) as [v|] eqn:Ec.
  2: { split; [done|]. rewrite <-Ec. by destruct s as [[]]. }
  set (s1 := with_pool (with_snapshot v (set_accepting false)) s).
  assert (H1 : st_groups s1 = st_groups s ∧ st_pool s1 = set_snapshots (p_current (st_pool s)) (p_snapshots (st_pool s1)) (st_pool s))
    by done. rewrite Ec in H1. clearbody s1. destruct H1 as [H1 H2].
  destruct (p_snapshots (st_pool s1) !! v); [|done]. destruct (decide _); [|done].
  unfold releaseSnapshotMembers. destruct (_ !! v); [|done]. destruct (sn_released _); [done|].
  cbn. split; [done|]. by rewrite H2.
Qed.

(** Closing is final and complete. A closed pool refuses to dial, to
    reconcile, to commit an update and to activate a node, and ignores group
    events and rebuilds: none of them changes anything. Closing again does
    nothing. It holds no subscription, schedule or timer, its own group
    registration is gone, and every member runtime it owned has given up its
    share of the state behind its tag. *)
Theorem closed_pool_is_inert s env now race races random script network dst specs policy u e node :
  p_closed (st_pool s) = false →
  let c := Close s in
  (DialContext env now (race :: races) random script network dst c = (c, DialError (mkError errClosed [ErrClosed])) ∧
   reconcileMembersWithPolicyLocked env now specs policy c = (c, Err errClosed) ∧
   (Commit env now random (c, mkPrepared u false false)).1.1 = c ∧
   activateNodeID env now node c = (c, Err errClosed) ∧
   handleGroupState env now random e c = c ∧ rebuildCandidatesNow env now c = c ∧ Close c = c) ∧
  (p_healthSubscription (st_pool c) = None ∧ p_groupSubscribed (st_pool c) = false ∧
   p_schedule (st_pool c) = None ∧ p_rebuildTimer (st_pool c) = None ∧ p_expiryTimer (st_pool c) = None) ∧
  (∀ rt, groupRuntimeStore (st_groups s) !! o_GroupID (p_options (st_pool s)) = Some rt →
     p_registration (st_pool s) = Some (gr_ptr rt) →
     groupRuntimeStore (st_groups c) !! o_GroupID (p_options (st_pool s)) = None) ∧
  (∀ tag rp, p_runtimeByTag (st_pool s) !! tag = Some rp → disowned (st_heap c) rp).
Proof.
  intros Hopen. cbn zeta.
  assert (Hclosed : p_closed (st_pool (Close s)) = true).
  { unfold Close. rewrite Hopen. unfold release_owners, unregister. cbn.
    destruct (stop_snapshot_frame (with_pool (λ p, set_timers None None (set_closed p)) s)) as [_ ->]. done. }
  split.
  - split_and!.
    + unfold DialContext. cbn [acquireSnapshot]. unfold acquire_round. rewrite Hclosed. by rewrite decide_True.
    + unfold reconcileMembersWithPolicyLocked. by rewrite Hclosed.
    + unfold Commit. cbn [up_rolledBack up_committed]. by rewrite Hclosed.
    + unfold activateNodeID, loadSnapshot. by rewrite Hclosed.
    + unfold handleGroupState. by rewrite Hclosed, orb_true_r.
    + unfold rebuildCandidatesNow. by rewrite Hclosed.
    + unfold Close at 1. by rewrite Hclosed.
  - unfold Close. rewrite Hopen. set (s1 := with_pool (λ p, set_timers None None (set_closed p)) s).
    destruct (stop_snapshot_frame s1) as [Hg Hp]. set (s2 := stop_snapshot s1) in *. split_and!.
    + done.
    + done.
    + done.
    + unfold release_owners, unregister. cbn. by rewrite Hp.
    + unfold release_owners, unregister. cbn. by rewrite Hp.
    + intros rt Hrt Hreg. unfold release_owners, unregister. cbn. rewrite Hp, Hg. cbn.
      unfold Unregister. rewrite Hreg, Hrt, decide_True by done. cbn. apply lookup_delete_eq.
    + intros tag rp Hrp. unfold release_owners. cbn [st_heap with_pool with_heap].
      apply (proj2 (release_owners_disowns _ _) (tag, rp)). apply elem_of_range.
      unfold unregister. cbn. by rewrite Hp.
Qed.
End closing.

(** ** A concrete update *)
#[local] Existing Instances PoolExample.order_Z PoolExample.order_string.

Module UpdateExample.
Definition running : state :=
  publishSnapshotLocked PoolExample.env PoolExample.now [3; 6; 9]
    (PoolExample.pool_state modeFixed 7 PoolExample.base_heap).
Definition given : RuntimeUpdate :=
  mkPoolUpdate 1 None [mkSpec "c" (PoolExample.meta 13); mkSpec "a" (PoolExample.meta 11)] "Random"
    0 0 60 11 ∅ false 0 0.
Definition prepared : preparedPoolUpdate :=
  match PrepareUpdate PoolExample.env given running with
  | Ok p => p | Err _ => mkPrepared given true true
  end.
Definition committed : state :=
  (Commit PoolExample.env PoolExample.now 5 (running, prepared)).1.1.
Definition spent : preparedPoolUpdate :=
  (Commit PoolExample.env PoolExample.now 5 (running, prepared)).1.2.

Lemma prepares : PrepareUpdate PoolExample.env given running = Ok prepared.
Proof. vm_compute. reflexivity. Qed.
Lemma running_topo : topo_wf running.
Proof. apply topo_check_sound. vm_compute. reflexivity. Qed.
Lemma running_snapshots : snapshots_wf (st_pool running).
Proof.
  destruct (publish_snapshots_wf PoolExample.env PoolExample.now [3; 6; 9]
    (PoolExample.pool_state modeFixed 7 PoolExample.base_heap) (PoolExample.empty_pool_wf _ _)) as [W1 W2].
  split; [exact W1|exact W2].
Qed.
Lemma commits :
  Commit PoolExample.env PoolExample.now 5 (running, prepared) = (committed, spent, Ok (2, [6])).
Proof. vm_compute. reflexivity. Qed.
Lemma running_open : p_closed (st_pool running) = false.
Proof. vm_compute. reflexivity. Qed.
End UpdateExample.


Lemma closed_pool_is_inert_witness :
  p_runtimeByTag (st_pool UpdateExample.running) !! "a" = Some 2 ∧
  Close (Close UpdateExample.running) = Close UpdateExample.running ∧
  disowned (st_heap (Close UpdateExample.running)) 2.
Proof.
  assert (Ha : p_runtimeByTag (st_pool UpdateExample.running) !! "a" = Some 2) by (vm_compute; reflexivity).
  destruct (closed_pool_is_inert UpdateExample.running PoolExample.env PoolExample.now undisturbed [] 5
    DialExample.second_answers NetworkTCP "x:443" [] (λ s, s) UpdateExample.given (current_event 7 0) 11
    UpdateExample.running_open) as ((_ & _ & _ & _ & _ & _ & Hc) & _ & _ & Hd).
  split; [exact Ha|]. split; [exact Hc|]. exact (Hd "a" 2 Ha).
Defined.
