(* ===== verification/SnapshotPins.v ===== *)
(** The lock-free reader protocol of pool snapshots ([internal/outbound/pool/pool.go]):
    [acquireSnapshot] and [releaseSnapshotReader] on the dial path against
    [publishSnapshotLocked] and [Close], one atomic access per step.

    A reader loads the current snapshot, counts itself, and tests [accepting]; a
    leaving reader decrements the count, and only if it was the last tests
    [accepting] and drops the snapshot's pins. Writers hold the pool's mutex, so
    there is one at a time: it stops the previous snapshot, stores the new one, and
    drops the previous one's pins if it sees no reader. Versions stand for the
    snapshots' addresses. The other files run each of these operations in one go;
    here they interleave. *)

From S2P Require Import Prelude.

(** What the protocol touches of a [PoolSnapshot]; [c_pinned] says that
    [releaseOnce] has not run. *)
Record pin_cell := mkCell { c_accepting : bool; c_readers : Z; c_pinned : bool }.

(** Where a request is. *)
Inductive reader_pc :=
| Idle
| Loaded (v : Z)     (* current loaded *)
| Counted (v : Z)    (* readers incremented *)
| Holding (v : Z)    (* accepting seen: the request uses the snapshot *)
| Leaving (v : Z)    (* not accepting: to be released again *)
| Dropped (v : Z)    (* readers decremented to zero *)
| Freeing (v : Z).   (* and accepting seen false *)

(** Where the holder of the mutex is. *)
Inductive writer_pc :=
| Free
| Built (w v : Z)     (* the new snapshot accepts; the previous one still does *)
| Stopped (w v : Z)   (* previous.accepting is false *)
| Stored (v : Z)      (* current stored, or the closing pool stopped v *)
| Dropping (v : Z).   (* no reader seen *)

Record pins := mkPins {
  pn_current : Z;
  pn_cells : gmap Z pin_cell;
  pn_closed : bool;
  (** [Close] has set the flag and still has to stop the current snapshot *)
  pn_closing : bool;
  pn_readers : gmap nat reader_pc;
  pn_writer : writer_pc
}.

Inductive pin_action :=
| Load (t : nat) | Count (t : nat) | Test (t : nat) | Drop (t : nat) | Retest (t : nat) | Unpin (t : nat)
| Publish | Stop | Store | Look | UnpinPrevious | CloseFlag | CloseStop.

(** A fresh pool with its first snapshot. *)
Definition first_publication : pins := mkPins 1 {[1 := mkCell true 0 true]} false false ∅ Free.

Definition pc_of (t : nat) (s : pins) : reader_pc := default Idle (pn_readers s !! t).
Definition cell_of (v : Z) (s : pins) : pin_cell := default (mkCell false 0 false) (pn_cells s !! v).

Definition goto (t : nat) (pc : reader_pc) (s : pins) : pins :=
  mkPins (pn_current s) (pn_cells s) (pn_closed s) (pn_closing s) (<[t := pc]> (pn_readers s)) (pn_writer s).
Definition writer_goto (pc : writer_pc) (s : pins) : pins :=
  mkPins (pn_current s) (pn_cells s) (pn_closed s) (pn_closing s) (pn_readers s) pc.
Definition set_cell (v : Z) (c : pin_cell) (s : pins) : pins :=
  mkPins (pn_current s) (<[v := c]> (pn_cells s)) (pn_closed s) (pn_closing s) (pn_readers s) (pn_writer s).

(** [readers.Add(d)]. *)
Definition add_reader (d : Z) (v : Z) (s : pins) : pins :=
  let c := cell_of v s in set_cell v (mkCell (c_accepting c) (c_readers c + d) (c_pinned c)) s.
Definition stop_accepting (v : Z) (s : pins) : pins :=
  let c := cell_of v s in set_cell v (mkCell false (c_readers c) (c_pinned c)) s.
(** [releaseOnce.Do]. *)
Definition unpin (v : Z) (s : pins) : pins :=
  let c := cell_of v s in set_cell v (mkCell (c_accepting c) (c_readers c) false) s.

(** One atomic access; [None] when the action is not enabled. The test of [closed]
    that precedes a reader's load is a separate access, so a load may come after
    [Close]; a writer tests it under the mutex. *)
Definition pin_step (a : pin_action) (s : pins) : option pins :=
  match a with
  | Load t =>
    match pc_of t s with
    | Idle => Some (goto t (Loaded (pn_current s)) s)
    | _ => None
    end
  | Count t =>
    match pc_of t s with Loaded v => Some (goto t (Counted v) (add_reader 1 v s)) | _ => None end
  | Test t =>
    match pc_of t s with
    | Counted v => Some (goto t (if c_accepting (cell_of v s) then Holding v else Leaving v) s)
    | _ => None
    end
  | Drop t =>
    match pc_of t s with
    | Holding v | Leaving v =>
      let s1 := add_reader (-1) v s in
      Some (goto t (if decide (c_readers (cell_of v s1) = 0) then Dropped v else Idle) s1)
    | _ => None
    end
  | Retest t =>
    match pc_of t s with
    | Dropped v => Some (goto t (if c_accepting (cell_of v s) then Idle else Freeing v) s)
    | _ => None
    end
  | Unpin t => match pc_of t s with Freeing v => Some (goto t Idle (unpin v s)) | _ => None end
  | Publish =>
    match pn_writer s with
    | Free => if pn_closed s then None
              else let w := pn_current s + 1 in
                   Some (writer_goto (Built w (pn_current s)) (set_cell w (mkCell true 0 true) s))
    | _ => None
    end
  | Stop =>
    match pn_writer s with
    | Built w v => Some (writer_goto (Stopped w v) (stop_accepting v s)) | _ => None
    end
  | Store =>
    match pn_writer s with
    | Stopped w v => Some (mkPins w (pn_cells s) (pn_closed s) (pn_closing s) (pn_readers s) (Stored v)) | _ => None
    end
  | Look =>
    match pn_writer s with
    | Stored v => Some (writer_goto (if decide (c_readers (cell_of v s) = 0) then Dropping v else Free) s)
    | _ => None
    end
  | UnpinPrevious =>
    match pn_writer s with Dropping v => Some (writer_goto Free (unpin v s)) | _ => None end
  | CloseFlag =>
    if pn_closed s then None
    else Some (mkPins (pn_current s) (pn_cells s) true true (pn_readers s) (pn_writer s))
  | CloseStop =>
    match pn_writer s with
    | Free => if pn_closing s then
                let s1 := stop_accepting (pn_current s) s in
                Some (mkPins (pn_current s1) (pn_cells s1) true false (pn_readers s1) (Stored (pn_current s)))
              else None
    | _ => None
    end
  end.

Fixpoint pin_run (acts : list pin_action) (s : pins) : option pins :=
  match acts with
  | [] => Some s
  | a :: acts => s1 ← pin_step a s; pin_run acts s1
  end.

(** Runs of any number of readers against the writers. *)
Inductive pin_reach : pins → Prop :=
| reach_first : pin_reach first_publication
| reach_step s a s' : pin_reach s → pin_step a s = Some s' → pin_reach s'.

(** ** Bookkeeping *)
Definition at_version (pc : reader_pc) : option Z :=
  match pc with
  | Idle => None
  | Loaded v | Counted v | Holding v | Leaving v | Dropped v | Freeing v => Some v
  end.

(** The positions at which a reader is part of the count. *)
Definition counted (v : Z) (pc : reader_pc) : bool :=
  match pc with Counted u | Holding u | Leaving u => bool_decide (u = v) | _ => false end.

Definition readers_at (v : Z) (s : pins) : Z :=
  Z.of_nat (size (filter (λ tp, counted v tp.2 = true) (pn_readers s))).

Lemma readers_at_goto v t pc s :
  readers_at v (goto t pc s) =
  readers_at v s - Z.b2z (counted v (pc_of t s)) + Z.b2z (counted v pc).
Proof.
  unfold readers_at, pc_of. cbn. set (m := pn_readers s).
  assert (Hdel : Z.of_nat (size (filter (λ tp : nat * reader_pc, counted v tp.2 = true) m)) =
    Z.of_nat (size (filter (λ tp : nat * reader_pc, counted v tp.2 = true) (delete t m))) +
    Z.b2z (counted v (default Idle (m !! t)))).
  { destruct (m !! t) as [old|] eqn:E; cbn [default from_option id].
    - rewrite <-(insert_delete_id m t old E) at 1. destruct (counted v old) eqn:Ec.
      + rewrite map_filter_insert_True by done. rewrite map_size_insert_None; [cbn; lia|].
        apply map_lookup_filter_None. left. apply lookup_delete_eq.
      + rewrite map_filter_insert_False by (cbn; congruence). rewrite delete_delete_eq. cbn. lia.
    - rewrite delete_id by done. cbn. lia. }
  rewrite Hdel, <-insert_delete_eq. destruct (counted v pc) eqn:Ec.
  - rewrite map_filter_insert_True by done. rewrite map_size_insert_None; [cbn; lia|].
    apply map_lookup_filter_None. left. apply lookup_delete_eq.
  - rewrite map_filter_insert_False by (cbn; congruence). rewrite delete_delete_eq. cbn. lia.
Qed.

Lemma readers_at_pos v t s : counted v (pc_of t s) = true → 0 < readers_at v s.
Proof.
  intros Hc. pose proof (readers_at_goto v t Idle s) as H. rewrite Hc in H. cbn in H.
  assert (0 ≤ readers_at v (goto t Idle s)) by (unfold readers_at; lia). lia.
Qed.

Lemma readers_at_nonneg v s : 0 ≤ readers_at v s.
Proof. unfold readers_at. lia. Qed.

Lemma pc_of_goto u t pc s : pc_of u (goto t pc s) = if decide (u = t) then pc else pc_of u s.
Proof.
  unfold pc_of. cbn. destruct (decide (u = t)) as [->|]; [by rewrite lookup_insert_eq|by rewrite lookup_insert_ne].
Qed.

Lemma cell_of_set u v c s : cell_of u (set_cell v c s) = if decide (u = v) then c else cell_of u s.
Proof.
  unfold cell_of. cbn. destruct (decide (u = v)) as [->|]; [by rewrite lookup_insert_eq|by rewrite lookup_insert_ne].
Qed.

(** ** The invariant *)

(** The snapshots that accept readers, by what the writer is doing. *)
Definition accepts (s : pins) (v : Z) : Prop :=
  match pn_writer s with
  | Built w u => v = w ∨ v = u
  | Stopped w _ => v = w
  | _ => v = pn_current s ∧ (pn_closed s = false ∨ pn_closing s = true)
  end.

Definition writer_ok (s : pins) : Prop :=
  match pn_writer s with
  | Built w v | Stopped w v =>
    v = pn_current s ∧ w = v + 1 ∧ (pn_closed s = false ∨ pn_closing s = true)
  | Stored v | Dropping v => c_accepting (cell_of v s) = false
  | Free => True
  end.

(** Who will still look at a stopped snapshot. *)
Definition owes (s : pins) (v : Z) : Prop :=
  0 < readers_at v s ∨ (∃ t, pc_of t s = Dropped v ∨ pc_of t s = Freeing v) ∨
  (∃ w, pn_writer s = Stopped w v) ∨ pn_writer s = Stored v ∨ pn_writer s = Dropping v.

Record pins_wf (s : pins) : Prop := {
  pw_count : ∀ v, c_readers (cell_of v s) = readers_at v s;
  pw_bound : ∀ t v, at_version (pc_of t s) = Some v → v ≤ pn_current s;
  pw_accept : ∀ v, c_accepting (cell_of v s) = true ↔ accepts s v;
  pw_writer : writer_ok s;
  pw_closing : pn_closing s = true → pn_closed s = true;
  pw_freeing : ∀ t v, pc_of t s = Freeing v → c_accepting (cell_of v s) = false;
  pw_pinned : ∀ v, c_pinned (cell_of v s) = false → c_accepting (cell_of v s) = false;
  pw_owed : ∀ v, c_accepting (cell_of v s) = false → c_pinned (cell_of v s) = true → owes s v
}.

(** A reader's move from [old] to [pc], which may change counts but neither the
    writer nor which snapshots accept. *)
Lemma reader_move t pc s1 s :
  pins_wf s →
  pn_current s1 = pn_current s → pn_closed s1 = pn_closed s → pn_closing s1 = pn_closing s →
  pn_writer s1 = pn_writer s → pn_readers s1 = pn_readers s →
  (∀ v, c_accepting (cell_of v s1) = c_accepting (cell_of v s)) →
  (∀ v, c_pinned (cell_of v s1) = true → c_pinned (cell_of v s) = true) →
  (∀ v, c_pinned (cell_of v s1) = false → c_pinned (cell_of v s) = false ∨ c_accepting (cell_of v s) = false) →
  (∀ v, c_readers (cell_of v s1) =
        c_readers (cell_of v s) - Z.b2z (counted v (pc_of t s)) + Z.b2z (counted v pc)) →
  (∀ v, at_version pc = Some v → v ≤ pn_current s) →
  (∀ v, pc = Freeing v → c_accepting (cell_of v s) = false) →
  (∀ v, c_accepting (cell_of v s) = false → c_pinned (cell_of v s1) = true → owes s v →
        owes (goto t pc s1) v) →
  pins_wf (goto t pc s1).
Proof.
  intros [W1 W2 W3 W4 W5 W6 W7 W8] E1 E2 E3 E4 E5 Ha Hp Hp' Hr Hb Hf Ho.
  assert (Hpc : ∀ u, pc_of u s1 = pc_of u s) by (intros u; unfold pc_of; by rewrite E5).
  assert (Hra : ∀ v, readers_at v s1 = readers_at v s) by (intros v; unfold readers_at; by rewrite E5).
  split.
  - intros v. rewrite readers_at_goto, Hra, Hpc. change (cell_of v (goto t pc s1)) with (cell_of v s1).
    by rewrite Hr, W1.
  - intros u v. rewrite pc_of_goto, Hpc. cbn. rewrite E1. destruct (decide (u = t)); [apply Hb|apply W2].
  - intros v. change (cell_of v (goto t pc s1)) with (cell_of v s1). rewrite Ha, W3.
    unfold accepts. cbn. by rewrite E1, E2, E3, E4.
  - unfold writer_ok in *. cbn. rewrite E1, E2, E3, E4. destruct (pn_writer s); try done;
      by rewrite <-Ha in W4.
  - cbn. by rewrite E2, E3.
  - intros u v. rewrite pc_of_goto, Hpc. change (cell_of v (goto t pc s1)) with (cell_of v s1).
    rewrite Ha. destruct (decide (u = t)); [apply Hf|apply W6].
  - intros v Hv. change (cell_of v (goto t pc s1)) with (cell_of v s1) in *. rewrite Ha.
    destruct (Hp' v Hv); auto.
  - intros v Hacc Hpin. change (cell_of v (goto t pc s1)) with (cell_of v s1) in *. rewrite Ha in Hacc.
    apply Ho; auto.
Qed.

(** An obligation survives a move that keeps counts, or that passes it on. *)
Lemma owes_move t pc s1 s v :
  pn_writer s1 = pn_writer s → pn_readers s1 = pn_readers s →
  (0 < readers_at v s → 0 < readers_at v s - Z.b2z (counted v (pc_of t s)) + Z.b2z (counted v pc) ∨
     pc = Dropped v ∨ pc = Freeing v) →
  (pc_of t s = Dropped v ∨ pc_of t s = Freeing v → pc = Dropped v ∨ pc = Freeing v) →
  owes s v → owes (goto t pc s1) v.
Proof.
  intros E4 E5 Hc Hd. assert (Hpc : ∀ u, pc_of u s1 = pc_of u s) by (intros u; unfold pc_of; by rewrite E5).
  assert (Hra : readers_at v s1 = readers_at v s) by (unfold readers_at; by rewrite E5).
  assert (Hhere : pc = Dropped v ∨ pc = Freeing v → owes (goto t pc s1) v).
  { intros H. right. left. exists t. by rewrite pc_of_goto, decide_True. }
  intros [Hpos|[[u Hu]|Hw]].
  - destruct (Hc Hpos) as [H|H]; [|by apply Hhere]. left. by rewrite readers_at_goto, Hra, Hpc.
  - destruct (decide (u = t)) as [->|Hne]; [by apply Hhere, Hd|].
    right. left. exists u. by rewrite pc_of_goto, decide_False, Hpc.
  - right. right. cbn. by rewrite E4.
Qed.

Lemma pins_wf_first : pins_wf first_publication.
Proof.
  assert (Hc : ∀ v, cell_of v first_publication = if decide (v = 1) then mkCell true 0 true else mkCell false 0 false).
  { intros v. unfold cell_of. cbn. destruct (decide (v = 1)) as [->|]; [by rewrite lookup_singleton_eq|].
    by rewrite lookup_singleton_ne. }
  assert (Hp : ∀ t, pc_of t first_publication = Idle) by (intros t; unfold pc_of; cbn; by rewrite lookup_empty).
  split.
  - intros v. rewrite Hc. unfold readers_at. cbn. rewrite map_filter_empty. by destruct (decide (v = 1)).
  - intros t v. by rewrite Hp.
  - intros v. rewrite Hc. unfold accepts. cbn. destruct (decide (v = 1)); naive_solver.
  - done.
  - done.
  - intros t v. by rewrite Hp.
  - intros v. rewrite Hc. by destruct (decide (v = 1)).
  - intros v. rewrite Hc. by destruct (decide (v = 1)).
Qed.

(** ** Preservation *)
Lemma add_reader_cell d v s u :
  c_accepting (cell_of u (add_reader d v s)) = c_accepting (cell_of u s) ∧
  c_pinned (cell_of u (add_reader d v s)) = c_pinned (cell_of u s) ∧
  c_readers (cell_of u (add_reader d v s)) = c_readers (cell_of u s) + if decide (u = v) then d else 0.
Proof. unfold add_reader. rewrite cell_of_set. destruct (decide (u = v)) as [->|]; cbn; split_and!; try done. lia. Qed.

Lemma add_reader_count d v s : pins_wf s → c_readers (cell_of v (add_reader d v s)) = readers_at v s + d.
Proof. intros W. by rewrite (proj2 (proj2 (add_reader_cell d v s v))), decide_True, (pw_count _ W). Qed.

(** A move that leaves the cells alone. *)
Lemma reader_goto t pc s :
  pins_wf s →
  (∀ v, counted v pc = counted v (pc_of t s)) →
  (∀ v, at_version pc = Some v → v ≤ pn_current s) →
  (∀ v, pc = Freeing v → c_accepting (cell_of v s) = false) →
  (∀ v, c_accepting (cell_of v s) = false → pc_of t s = Dropped v ∨ pc_of t s = Freeing v →
        pc = Dropped v ∨ pc = Freeing v) →
  pins_wf (goto t pc s).
Proof.
  intros W Hc Hb Hf Hd. apply (reader_move t pc s s W); try done.
  - by left.
  - intros v. rewrite Hc. lia.
  - intros v Ha _ Ho. apply (owes_move t pc s s v); try done; [|by apply Hd].
    intros Hpos. left. rewrite Hc. lia.
Qed.

(** A move that counts the reader in or out. *)
Lemma reader_count t pc d v s :
  pins_wf s →
  (∀ u, (if decide (u = v) then d else 0) = Z.b2z (counted u pc) - Z.b2z (counted u (pc_of t s))) →
  (∀ u, at_version pc = Some u → u ≤ pn_current s) → (∀ u, pc ≠ Freeing u) →
  (∀ u, pc_of t s ≠ Dropped u ∧ pc_of t s ≠ Freeing u) →
  (d = -1 → readers_at v s = 1 → pc = Dropped v) →
  (d = 1 ∨ d = -1) →
  pins_wf (goto t pc (add_reader d v s)).
Proof.
  intros W Hc Hb Hf Hn Hlast Hd.
  pose proof (add_reader_cell d v s) as Hcell.
  apply (reader_move t pc (add_reader d v s) s W); try done.
  - intros u. apply Hcell.
  - intros u. by rewrite (proj1 (proj2 (Hcell u))).
  - intros u. rewrite (proj1 (proj2 (Hcell u))). by left.
  - intros u. rewrite (proj2 (proj2 (Hcell u))), Hc. lia.
  - intros u ->. by destruct (Hf u).
  - intros u _ _ Ho. apply (owes_move t pc _ s u); try done.
    + intros Hpos. specialize (Hc u). destruct (decide (u = v)) as [->|]; [|left; lia].
      destruct (decide (d = -1 ∧ readers_at v s = 1)) as [[H1 H2]|Hno]; [right; left; by apply Hlast|left; lia].
    + intros [H|H]; by destruct (Hn u).
Qed.

Lemma reader_step_wf a s s' :
  match a with Load _ | Count _ | Test _ | Drop _ | Retest _ | Unpin _ => True | _ => False end →
  pins_wf s → pin_step a s = Some s' → pins_wf s'.
Proof.
  intros Ha W. destruct a as [t|t|t|t|t|t| | | | | | |]; try done; clear Ha; cbn [pin_step];
    destruct (pc_of t s) as [|v|v|v|v|v|v] eqn:Hpc; try done; intros [= <-];
    (assert (Hv : ∀ u, at_version (pc_of t s) = Some u → u ≤ pn_current s) by apply (pw_bound _ W));
    rewrite Hpc in Hv; cbn in Hv.
  - apply reader_goto; [done|by rewrite Hpc|cbn; intros ? [= <-]; lia|done|by rewrite Hpc; naive_solver].
  - apply reader_count; rewrite ?Hpc; try done; [|by left].
    intros u. cbn. destruct (decide (u = v)) as [->|]; [by rewrite bool_decide_true|by rewrite bool_decide_false].
  - destruct (c_accepting (cell_of v s)) eqn:E;
      (apply reader_goto; [done|by rewrite Hpc|done|done|by rewrite Hpc; naive_solver]).
  - rewrite (add_reader_count _ v s W).
    apply reader_count; rewrite ?Hpc; try done; [| | |by intros _ ->|by right].
    + intros u. destruct (decide (_ = 0)); cbn;
        (destruct (decide (u = v)) as [->|]; [by rewrite bool_decide_true|by rewrite bool_decide_false]).
    + intros u. destruct (decide (_ = 0)); [apply Hv|done].
    + intros u. by destruct (decide (_ = 0)).
  - rewrite (add_reader_count _ v s W).
    apply reader_count; rewrite ?Hpc; try done; [| | |by intros _ ->|by right].
    + intros u. destruct (decide (_ = 0)); cbn;
        (destruct (decide (u = v)) as [->|]; [by rewrite bool_decide_true|by rewrite bool_decide_false]).
    + intros u. destruct (decide (_ = 0)); [apply Hv|done].
    + intros u. by destruct (decide (_ = 0)).
  - destruct (c_accepting (cell_of v s)) eqn:E;
      (apply reader_goto; [done|by rewrite Hpc|done| |rewrite Hpc]); try done.
    + intros u Hu [[= ->]|?]; congruence.
    + by intros u [= <-].
    + intros u Hu [[= ->]|?]; [by right|congruence].
  - assert (Hcell : ∀ u, c_accepting (cell_of u (unpin v s)) = c_accepting (cell_of u s) ∧
      c_readers (cell_of u (unpin v s)) = c_readers (cell_of u s) ∧
      c_pinned (cell_of u (unpin v s)) = if decide (u = v) then false else c_pinned (cell_of u s)).
    { intros u. unfold unpin. rewrite cell_of_set. by destruct (decide (u = v)) as [->|]. }
    apply (reader_move t Idle (unpin v s) s W); try done.
    + intros u. apply Hcell.
    + intros u. rewrite (proj2 (proj2 (Hcell u))). by destruct (decide (u = v)).
    + intros u. rewrite (proj2 (proj2 (Hcell u))). destruct (decide (u = v)) as [->|]; [|by left].
      right. by apply (pw_freeing _ W t).
    + intros u. rewrite Hpc, (proj1 (proj2 (Hcell u))). cbn. lia.
    + intros u Hacc. rewrite (proj2 (proj2 (Hcell u))). destruct (decide (u = v)) as [|Hne]; [done|].
      intros _. apply owes_move; [done|done| |].
      * intros Hpos. left. rewrite Hpc. cbn. lia.
      * rewrite Hpc. intros [?|[= ?]]; congruence.
Qed.

(** A writer's move leaves the readers where they are. *)
Lemma writer_cells s s1 v :
  pn_cells s1 = pn_cells s → cell_of v s1 = cell_of v s.
Proof. unfold cell_of. by intros ->. Qed.

Lemma owes_readers s s1 v :
  pn_readers s1 = pn_readers s →
  (0 < readers_at v s ∨ ∃ t, pc_of t s = Dropped v ∨ pc_of t s = Freeing v) → owes s1 v.
Proof.
  intros E. unfold owes, readers_at, pc_of. rewrite E. intros [H|H]; [by left|right; by left].
Qed.

Lemma owes_cases s v :
  owes s v →
  (0 < readers_at v s ∨ ∃ t, pc_of t s = Dropped v ∨ pc_of t s = Freeing v) ∨
  ((∃ w, pn_writer s = Stopped w v) ∨ pn_writer s = Stored v ∨ pn_writer s = Dropping v).
Proof. unfold owes. tauto. Qed.

(** A move of the writer alone: counts, marks and readers stay. *)
Lemma writer_move s s1 :
  pins_wf s → pn_cells s1 = pn_cells s → pn_readers s1 = pn_readers s →
  pn_current s ≤ pn_current s1 → (∀ v, accepts s1 v ↔ accepts s v) → writer_ok s1 →
  (pn_closing s1 = true → pn_closed s1 = true) →
  (∀ v, c_accepting (cell_of v s) = false → c_pinned (cell_of v s) = true →
     (∃ w, pn_writer s = Stopped w v) ∨ pn_writer s = Stored v ∨ pn_writer s = Dropping v → owes s1 v) →
  pins_wf s1.
Proof.
  intros [W1 W2 W3 W4 W5 W6 W7 W8] Ec Er Hcur Hacc Hw Hcl Ho.
  assert (Hc : ∀ v, cell_of v s1 = cell_of v s) by (intros v; by apply writer_cells).
  assert (Hpc : ∀ u, pc_of u s1 = pc_of u s) by (intros u; unfold pc_of; by rewrite Er).
  assert (Hra : ∀ v, readers_at v s1 = readers_at v s) by (intros v; unfold readers_at; by rewrite Er).
  split; try (intros; rewrite ?Hc, ?Hra, ?Hpc in *; eauto; done).
  - intros t v. rewrite Hpc. intros Hv%W2. lia.
  - intros v. by rewrite Hc, Hacc.
  - intros v. rewrite Hc. intros Ha Hp. destruct (owes_cases _ _ (W8 v Ha Hp)) as [H|H]; [|by apply Ho].
    by apply (owes_readers s).
Qed.

(** Setting a cell and moving the writer. *)
Lemma writer_cell v c s s1 :
  pins_wf s → pn_cells s1 = <[v := c]> (pn_cells s) → pn_readers s1 = pn_readers s →
  pn_current s1 = pn_current s → c_readers c = readers_at v s →
  (∀ u, (if decide (u = v) then c_accepting c else c_accepting (cell_of u s)) = true ↔ accepts s1 u) →
  writer_ok s1 → (pn_closing s1 = true → pn_closed s1 = true) →
  (c_accepting c = true → c_pinned c = true ∧ ∀ t, pc_of t s ≠ Freeing v) →
  (∀ u, c_accepting (cell_of u s) = false → c_pinned (cell_of u s) = true → u ≠ v →
     (∃ w, pn_writer s = Stopped w u) ∨ pn_writer s = Stored u ∨ pn_writer s = Dropping u → owes s1 u) →
  (c_accepting c = false → c_pinned c = true → owes s1 v) →
  pins_wf s1.
Proof.
  intros [W1 W2 W3 W4 W5 W6 W7 W8] Ec Er Hcur Hrd Hacc Hw Hcl Hpin Ho Hov.
  assert (Hc : ∀ u, cell_of u s1 = if decide (u = v) then c else cell_of u s).
  { intros u. unfold cell_of. rewrite Ec. destruct (decide (u = v)) as [->|];
      [by rewrite lookup_insert_eq|by rewrite lookup_insert_ne]. }
  assert (Hpc : ∀ u, pc_of u s1 = pc_of u s) by (intros u; unfold pc_of; by rewrite Er).
  assert (Hra : ∀ u, readers_at u s1 = readers_at u s) by (intros u; unfold readers_at; by rewrite Er).
  split.
  - intros u. rewrite Hc, Hra. by destruct (decide (u = v)) as [->|].
  - intros t u. rewrite Hpc, Hcur. apply W2.
  - intros u. rewrite Hc, <-Hacc. by destruct (decide (u = v)).
  - done.
  - done.
  - intros t u. rewrite Hpc, Hc. intros Hf. destruct (decide (u = v)) as [->|]; [|by apply (W6 t)].
    destruct (c_accepting c); [|done]. by destruct (proj2 (Hpin eq_refl) t).
  - intros u. rewrite Hc. destruct (decide (u = v)) as [->|]; [|apply W7].
    intros Hp. destruct (c_accepting c); [|done]. destruct (Hpin eq_refl). congruence.
  - intros u. rewrite Hc. destruct (decide (u = v)) as [->|Hne]; [done|]. intros Ha Hp.
    destruct (owes_cases _ _ (W8 u Ha Hp)) as [H|H]; [|by apply Ho]. by apply (owes_readers s).
Qed.

Lemma no_counted_reader v s : (∀ t, counted v (pc_of t s) = false) → readers_at v s = 0.
Proof.
  intros Hno. unfold readers_at.
  destruct (decide (size (filter (λ tp, counted v tp.2 = true) (pn_readers s)) = 0%nat)) as [->|Hne]; [done|].
  exfalso. apply map_size_ne_0_lookup_1 in Hne as (t & pc & Hpc).
  apply map_lookup_filter_Some in Hpc as [Hpc Hc]. specialize (Hno t). unfold pc_of in Hno.
  rewrite Hpc in Hno. cbn in *. congruence.
Qed.

Lemma future_reader_free s v : pins_wf s → pn_current s < v → readers_at v s = 0 ∧ ∀ t u, at_version (pc_of t s) = Some u → u ≠ v.
Proof.
  intros W Hv. assert (Hat : ∀ t u, at_version (pc_of t s) = Some u → u ≠ v).
  { intros t u Hu. apply (pw_bound _ W) in Hu. lia. }
  split; [|done]. apply no_counted_reader. intros t. specialize (Hat t).
  destruct (pc_of t s); cbn in *; try done; apply bool_decide_eq_false; intros ->; by apply (Hat v).
Qed.

Lemma not_accepting s v : pins_wf s → ¬ accepts s v → c_accepting (cell_of v s) = false.
Proof. intros W Hn. destruct (c_accepting _) eqn:E; [|done]. by apply (pw_accept _ W) in E. Qed.

Lemma writer_step_wf a s s' :
  match a with Load _ | Count _ | Test _ | Drop _ | Retest _ | Unpin _ => False | _ => True end →
  pins_wf s → pin_step a s = Some s' → pins_wf s'.
Proof.
  intros Ha W. pose proof (pw_writer _ W) as Hw. pose proof (pw_accept _ W) as Hacc.
  unfold writer_ok in Hw. unfold accepts in Hacc.
  destruct a as [| | | | | | | | | | | |]; try done; clear Ha; cbn [pin_step].
  - destruct (pn_writer s) eqn:Ew; try done. destruct (pn_closed s) eqn:Ecl; [done|]. intros [= <-].
    destruct (future_reader_free s (pn_current s + 1) W) as [Hr Hat]; [lia|].
    eapply (writer_cell (pn_current s + 1) (mkCell true 0 true)); try done.
    + intros u. unfold accepts. cbn. destruct (decide (u = pn_current s + 1)); [naive_solver|].
      rewrite Hacc, ?Ecl. naive_solver.
    + unfold writer_ok. cbn. auto.
    + apply (pw_closing _ W).
    + intros _. split; [done|]. intros t Ht. by apply (Hat t (pn_current s + 1)); rewrite ?Ht.
    + rewrite Ew. naive_solver.
  - destruct (pn_writer s) as [|w v| | |] eqn:Ew; try done. intros [= <-]. destruct Hw as (-> & -> & Hopen).
    eapply (writer_cell (pn_current s)); try done.
    + cbn. apply (pw_count _ W).
    + intros u. unfold accepts. cbn. destruct (decide (u = pn_current s)); [split; [done|lia]|].
      rewrite Hacc. naive_solver lia.
    + apply (pw_closing _ W).
    + rewrite Ew. naive_solver.
    + intros _ _. right. right. left. by eexists.
  - destruct (pn_writer s) as [| |w v| |] eqn:Ew; try done. intros [= <-]. destruct Hw as (-> & -> & Hopen).
    apply (writer_move s); try done.
    + cbn. lia.
    + intros u. unfold accepts. rewrite Ew. cbn. tauto.
    + unfold writer_ok. cbn. rewrite (writer_cells s) by done. apply not_accepting; [done|]. unfold accepts. rewrite Ew. lia.
    + apply (pw_closing _ W).
    + rewrite Ew. intros u _ _ [[w [= <- <-]]|[|]]; try done. right. right. right. by left.
  - destruct (pn_writer s) as [| | |v|] eqn:Ew; try done. intros [= <-].
    rewrite (pw_count _ W). apply (writer_move s); try done.
    + intros u. unfold accepts. rewrite Ew. by destruct (decide _).
    + unfold writer_ok. cbn. by destruct (decide _).
    + apply (pw_closing _ W).
    + rewrite Ew. intros u _ _ [[w ?]|[[= <-]|?]]; try done. destruct (decide _) as [|Hne].
      * right. right. right. by right.
      * left. pose proof (readers_at_nonneg v s). unfold readers_at in *. cbn in *. lia.
  - destruct (pn_writer s) as [| | | |v] eqn:Ew; try done. intros [= <-].
    eapply (writer_cell v); try done.
    + cbn. apply (pw_count _ W).
    + intros u. unfold accepts. cbn. destruct (decide (u = v)) as [->|]; apply Hacc.
    + apply (pw_closing _ W).
    + cbn. rewrite Hw. done.
    + rewrite Ew. naive_solver.
  - destruct (pn_closed s) eqn:Ecl; [done|]. intros [= <-]. apply (writer_move s); try done.
    + intros u. unfold accepts. cbn. rewrite Ecl. destruct (pn_writer s); naive_solver.
    + unfold writer_ok. cbn. destruct (pn_writer s); naive_solver.
    + intros u Ha Hp H. right. right. cbn. done.
  - destruct (pn_writer s) eqn:Ew; try done. destruct (pn_closing s) eqn:Ecl; [|done]. intros [= <-].
    eapply (writer_cell (pn_current s)); try done.
    + cbn. apply (pw_count _ W).
    + intros u. unfold accepts. cbn. destruct (decide (u = pn_current s)); [naive_solver|].
      rewrite Hacc. naive_solver.
    + unfold writer_ok. cbn. unfold cell_of. cbn. by rewrite lookup_insert_eq.
    + rewrite Ew. naive_solver.
    + intros _ _. right. right. right. by left.
Qed.

Lemma pin_step_wf a s s' : pins_wf s → pin_step a s = Some s' → pins_wf s'.
Proof. destruct a; (by apply reader_step_wf) || (by apply writer_step_wf). Qed.

Lemma pin_reach_wf s : pin_reach s → pins_wf s.
Proof. induction 1; [apply pins_wf_first|by eapply pin_step_wf]. Qed.

(** ** No pin is leaked *)

(** C8: no pin is leaked and none is dropped early. Whatever the interleaving of
    readers, publications and the closing, once every reader has left and the
    writer is done, a snapshot is still pinned exactly when it is the current one
    of an open pool: each replaced snapshot, and the last one of a closed pool, has
    let its members go; and at every moment a snapshot that accepts readers is
    pinned. *)
Theorem quiescent_pool_pins_only_the_current_snapshot s :
  pin_reach s →
  (∀ v, c_accepting (cell_of v s) = true → c_pinned (cell_of v s) = true) ∧
  (pn_writer s = Free → (∀ t, pc_of t s = Idle) →
   ∀ v, c_pinned (cell_of v s) = true ↔ v = pn_current s ∧ (pn_closed s = false ∨ pn_closing s = true)).
Proof.
  intros W%pin_reach_wf. split.
  - intros v Ha. destruct (c_pinned _) eqn:E; [done|]. apply (pw_pinned _ W) in E. congruence.
  - intros Hw Hidle v. pose proof (pw_accept _ W v) as Ha. unfold accepts in Ha. rewrite Hw in Ha.
    rewrite <-Ha. split.
    + intros Hp. destruct (c_accepting (cell_of v s)) eqn:E; [done|]. exfalso.
      assert (Hnone : readers_at v s = 0).
      { apply no_counted_reader. intros t. by rewrite Hidle. }
      destruct (pw_owed _ W v E Hp) as [H|[[t H]|[[w H]|H]]]; [lia| |congruence|rewrite Hw in H; by destruct H].
      rewrite Hidle in H. by destruct H.
    + intros Hacc. destruct (c_pinned (cell_of v s)) eqn:E; [done|]. apply (pw_pinned _ W) in E. congruence.
Qed.

(** ** When a held snapshot keeps its pins *)

(** The writer stops a snapshot while no reader is between its last decrement of
    the count and its test of [accepting]. *)
Definition undisturbed (a : pin_action) (s : pins) : Prop :=
  match a, pn_writer s with
  | Stop, Built _ v => ∀ t, pc_of t s ≠ Dropped v
  | CloseStop, _ => ∀ t, pc_of t s ≠ Dropped (pn_current s)
  | _, _ => True
  end.

Inductive calm_reach : pins → Prop :=
| calm_first : calm_reach first_publication
| calm_step s a s' : calm_reach s → undisturbed a s → pin_step a s = Some s' → calm_reach s'.

Lemma calm_reach_reach s : calm_reach s → pin_reach s.
Proof. induction 1; [constructor|by econstructor]. Qed.

(** Nobody holds a snapshot whose last reader has left after it was stopped. *)
Definition unheld (s : pins) : Prop :=
  ∀ v, c_accepting (cell_of v s) = false →
    (∃ t, pc_of t s = Dropped v ∨ pc_of t s = Freeing v) ∨ pn_writer s = Dropping v ∨
    c_pinned (cell_of v s) = false →
    ∀ t, pc_of t s ≠ Holding v.

Lemma no_reader_no_holder v s : readers_at v s = 0 → ∀ t, pc_of t s ≠ Holding v.
Proof.
  intros Hr t Ht. assert (counted v (pc_of t s) = true) as Hc by (rewrite Ht; cbn; by apply bool_decide_eq_true).
  apply readers_at_pos in Hc. lia.
Qed.

Lemma unheld_reader t pc s1 s :
  unheld s → pn_writer s1 = pn_writer s → pn_readers s1 = pn_readers s →
  (∀ v, c_accepting (cell_of v s1) = c_accepting (cell_of v s)) →
  (∀ v, c_pinned (cell_of v s1) = false → c_pinned (cell_of v s) = false ∨ pc_of t s = Freeing v) →
  (∀ v, pc = Holding v → pc_of t s = Holding v ∨ c_accepting (cell_of v s) = true) →
  (∀ v, c_accepting (cell_of v s) = false → pc = Dropped v ∨ pc = Freeing v →
     pc_of t s = Dropped v ∨ pc_of t s = Freeing v ∨ ∀ u, u ≠ t → pc_of u s ≠ Holding v) →
  unheld (goto t pc s1).
Proof.
  intros U Ew Er Ha Hp Hh Hd v Hacc Hreason u. cbn in Hacc.
  change (cell_of v (goto t pc s1)) with (cell_of v s1) in *. rewrite Ha in Hacc.
  assert (Hpc : ∀ u, pc_of u s1 = pc_of u s) by (intros ?; unfold pc_of; by rewrite Er).
  assert (Hold : (∃ t, pc_of t s = Dropped v ∨ pc_of t s = Freeing v) ∨ pn_writer s = Dropping v ∨
    c_pinned (cell_of v s) = false → pc_of u (goto t pc s1) ≠ Holding v).
  { intros Hr. pose proof (U v Hacc Hr) as Hno. rewrite pc_of_goto, Hpc.
    destruct (decide (u = t)) as [->|]; [|apply Hno].
    intros [?|?]%Hh; [by apply (Hno t)|congruence]. }
  destruct Hreason as [[w Hw]|[Hw|Hw]].
  - rewrite pc_of_goto, Hpc in Hw. destruct (decide (w = t)) as [->|]; [|apply Hold; left; by exists w].
    destruct (Hd v Hacc Hw) as [H|[H|H]]; [apply Hold; left; exists t; auto..|].
    rewrite pc_of_goto, Hpc. destruct (decide (u = t)) as [->|Hne]; [|by apply H].
    intros ->. by destruct Hw.
  - cbn in Hw. rewrite Ew in Hw. auto.
  - destruct (Hp v Hw) as [H|H]; [auto|]. apply Hold. left. exists t. by right.
Qed.

Lemma unheld_writer s s1 :
  unheld s → pn_readers s1 = pn_readers s →
  (∀ v, c_accepting (cell_of v s1) = false →
     (c_accepting (cell_of v s) = false ∧
      (pn_writer s1 = Dropping v ∨ c_pinned (cell_of v s1) = false →
       pn_writer s = Dropping v ∨ c_pinned (cell_of v s) = false)) ∨
     (∀ t, pc_of t s ≠ Holding v) ∨
     ((∀ t, pc_of t s ≠ Dropped v ∧ pc_of t s ≠ Freeing v) ∧ pn_writer s1 ≠ Dropping v ∧
      c_pinned (cell_of v s1) = true)) →
  unheld s1.
Proof.
  intros U Er Hv v Hacc Hr t. assert (Hpc : ∀ u, pc_of u s1 = pc_of u s) by (intros u; unfold pc_of; by rewrite Er).
  rewrite Hpc. destruct (Hv v Hacc) as [[Ha Hw]|[Hno|(Hno & Hnw & Hp)]]; [|by apply Hno|].
  - apply (U v Ha). destruct Hr as [[u Hu]|Hr]; [left; exists u; by rewrite <-Hpc|right; auto].
  - exfalso. destruct Hr as [[u Hu]|[?|?]]; [|done|congruence]. rewrite Hpc in Hu.
    destruct (Hno u). by destruct Hu.
Qed.

(** A leaving reader: if it was the last one, nobody else holds the snapshot. *)
Lemma unheld_drop t v s :
  pins_wf s → unheld s → pc_of t s = Holding v ∨ pc_of t s = Leaving v →
  unheld (goto t (if decide (readers_at v s + -1 = 0) then Dropped v else Idle) (add_reader (-1) v s)).
Proof.
  intros W U Hpc. pose proof (add_reader_cell (-1) v s) as Hc. apply (unheld_reader t _ _ s U); try done.
  - apply Hc.
  - intros u. rewrite (proj1 (proj2 (Hc u))). by left.
  - intros u. by destruct (decide _).
  - intros u _ Hd. right. right. destruct (decide (readers_at v s + -1 = 0)) as [Hone|]; [|by destruct Hd].
    assert (v = u) as <- by naive_solver.
    pose proof (readers_at_goto v t Idle s) as Hg.
    assert (counted v (pc_of t s) = true) as Ht by (destruct Hpc as [->| ->]; cbn; by apply bool_decide_eq_true).
    rewrite Ht in Hg. cbn in Hg. intros w Hw Hhold.
    apply (no_reader_no_holder v (goto t Idle s) ltac:(lia) w). by rewrite pc_of_goto, decide_False.
Qed.

Lemma unheld_reader_step a s s' :
  match a with Load _ | Count _ | Test _ | Drop _ | Retest _ | Unpin _ => True | _ => False end →
  pins_wf s → unheld s → pin_step a s = Some s' → unheld s'.
Proof.
  intros Ha W U. destruct a as [t|t|t|t|t|t| | | | | | |]; try done; clear Ha; cbn [pin_step];
    destruct (pc_of t s) as [|v|v|v|v|v|v] eqn:Hpc; try done; intros [= <-].
  - apply (unheld_reader t _ s s U); try done; [by left|naive_solver].
  - pose proof (add_reader_cell 1 v s) as Hc. apply (unheld_reader t _ _ s U); try done; [apply Hc| |naive_solver].
    intros u. rewrite (proj1 (proj2 (Hc u))). by left.
  - destruct (c_accepting (cell_of v s)) eqn:E;
      (apply (unheld_reader t _ s s U); rewrite ?Hpc; try done; naive_solver).
  - rewrite (add_reader_count _ v s W). apply unheld_drop; auto.
  - rewrite (add_reader_count _ v s W). apply unheld_drop; auto.
  - destruct (c_accepting (cell_of v s)) eqn:E; (apply (unheld_reader t _ s s U); rewrite ?Hpc; try done;
      naive_solver).
  - apply (unheld_reader t _ _ s U); rewrite ?Hpc; try done.
    + intros u. unfold unpin. rewrite cell_of_set. by destruct (decide (u = v)) as [->|].
    + intros u. unfold unpin. rewrite cell_of_set. destruct (decide (u = v)) as [->|]; [by right|by left].
    + naive_solver.
Qed.

Lemma stop_accepting_cell v s u :
  cell_of u (stop_accepting v s) =
  if decide (u = v) then mkCell false (c_readers (cell_of v s)) (c_pinned (cell_of v s)) else cell_of u s.
Proof. apply cell_of_set. Qed.

(** Stopping a snapshot nobody is about to test. *)
Lemma unheld_stop v s s1 :
  pins_wf s → unheld s → pn_readers s1 = pn_readers s → accepts s v →
  (∀ t, pc_of t s ≠ Dropped v) → pn_writer s1 ≠ Dropping v →
  (∀ u, pn_writer s1 = Dropping u → pn_writer s = Dropping u) →
  (∀ u, cell_of u s1 = cell_of u (stop_accepting v s)) → unheld s1.
Proof.
  intros W U Er Hacc Hno Hnw Hw Hc. apply (pw_accept _ W) in Hacc.
  apply (unheld_writer s); [done|done|]. intros u. rewrite Hc, stop_accepting_cell.
  destruct (decide (u = v)) as [->|Hne].
  - intros _. right. right. split_and!; [|done|].
    + intros t. split; [apply Hno|]. intros Hf%(pw_freeing _ W). congruence.
    + cbn. destruct (c_pinned (cell_of v s)) eqn:E; [done|]. apply (pw_pinned _ W) in E. congruence.
  - intros Ha. left. split; [done|]. intros [H|H]; [left; by apply Hw|by right].
Qed.

Lemma unheld_writer_step a s s' :
  match a with Load _ | Count _ | Test _ | Drop _ | Retest _ | Unpin _ => False | _ => True end →
  pins_wf s → unheld s → undisturbed a s → pin_step a s = Some s' → unheld s'.
Proof.
  intros Ha W U Hun. pose proof (pw_writer _ W) as Hw. unfold writer_ok in Hw. unfold undisturbed in Hun.
  destruct a as [| | | | | | | | | | | |]; try done; clear Ha; cbn [pin_step].
  - destruct (pn_writer s) eqn:Ew; try done. destruct (pn_closed s); [done|]. intros [= <-].
    apply (unheld_writer s); [done|done|]. intros u.
    change (cell_of u (writer_goto ?p ?x)) with (cell_of u x). rewrite cell_of_set.
    destruct (decide (u = _)) as [|Hne]; [done|]. intros Hacc. left. split; [done|]. cbn. naive_solver.
  - destruct (pn_writer s) as [|w v| | |] eqn:Ew; try done. intros [= <-].
    apply (unheld_stop v s); try done. unfold accepts. rewrite Ew. by right.
  - destruct (pn_writer s) as [| |w v| |] eqn:Ew; try done. intros [= <-].
    apply (unheld_writer s); [done|done|]. intros u. rewrite (writer_cells s) by done. intros Hacc.
    left. split; [done|]. cbn. naive_solver.
  - destruct (pn_writer s) as [| | |v|] eqn:Ew; try done. intros [= <-]. rewrite (pw_count _ W).
    apply (unheld_writer s); [done|done|]. intros u. rewrite (writer_cells s) by done. intros Hacc.
    destruct (decide (readers_at v s = 0)) as [Hz|]; cbn; [|left; split; [done|naive_solver]].
    destruct (decide (u = v)) as [->|]; [|left; split; [done|naive_solver]].
    right. left. by apply no_reader_no_holder.
  - destruct (pn_writer s) as [| | | |v] eqn:Ew; try done. intros [= <-].
    apply (unheld_writer s); [done|done|]. intros u.
    change (cell_of u (writer_goto Free ?x)) with (cell_of u x). unfold unpin. rewrite cell_of_set.
    destruct (decide (u = v)) as [->|]; cbn; intros Hacc; left; (split; [done|]); naive_solver.
  - destruct (pn_closed s); [done|]. intros [= <-]. apply (unheld_writer s); [done|done|].
    intros u. rewrite (writer_cells s) by done. intros Hacc. left. split; [done|]. cbn. done.
  - destruct (pn_writer s) eqn:Ew; try done. destruct (pn_closing s) eqn:Ecl; [|done]. intros [= <-].
    apply (unheld_stop (pn_current s) s); try done. unfold accepts. rewrite Ew. auto.
Qed.

Lemma calm_reach_unheld s : calm_reach s → unheld s.
Proof.
  induction 1 as [|s a s' Hr IH Hun Hstep].
  - intros v _ _ t. unfold pc_of. cbn. by rewrite lookup_empty.
  - pose proof (pin_reach_wf _ (calm_reach_reach _ Hr)) as W.
    destruct a; match type of Hstep with pin_step ?b s = _ =>
      (exact (unheld_reader_step b s s' I W IH Hstep)) || (exact (unheld_writer_step b s s' I W IH Hun Hstep)) end.
Qed.

(** A request keeps the members it was pinned on. In every run in which no
    snapshot is stopped while a leaving reader is between its decrement of the
    count and its test of [accepting], a snapshot some request holds is pinned:
    none of its members is considered drained before the request has left. *)
Theorem held_snapshots_stay_pinned s t v :
  calm_reach s → pc_of t s = Holding v → c_pinned (cell_of v s) = true.
Proof.
  intros Hr Ht. destruct (c_pinned (cell_of v s)) eqn:E; [done|]. exfalso.
  pose proof (pin_reach_wf _ (calm_reach_reach _ Hr)) as W.
  apply (calm_reach_unheld _ Hr v) with t; [by apply (pw_pinned _ W)|auto|done].
Qed.

(** ** When it does not *)
Module PinRace.
(** One request leaves, another arrives between the decrement and the test, and
    the snapshot is replaced in the same gap. *)
Definition schedule : list pin_action :=
  [Load 0; Count 0; Test 0; Drop 0; Load 1; Count 1; Test 1; Publish; Stop; Store; Look; Retest 0; Unpin 0].
Definition calm_schedule : list pin_action :=
  [Load 0; Count 0; Test 0; Load 1; Count 1; Test 1; Drop 0; Publish; Stop; Store; Look].
Definition final : pins := default first_publication (pin_run schedule first_publication).
Definition calm_final : pins := default first_publication (pin_run calm_schedule first_publication).
End PinRace.

Lemma pin_run_reach acts : ∀ s s', pin_reach s → pin_run acts s = Some s' → pin_reach s'.
Proof.
  induction acts as [|a acts IH]; intros s s' Hr; cbn; [by intros [= <-]|].
  destruct (pin_step a s) as [s1|] eqn:E; [|done]. apply IH. by econstructor.
Qed.

(** The two accesses of [releaseSnapshotReader] are not one. There is a run in
    which a request holds a snapshot whose members have been let go: the last
    reader leaves, another request takes the snapshot before the first tests
    [accepting], a publication stops the snapshot and sees that reader, and then
    the first reader's test drops the pins although the count is not zero. *)
Theorem late_test_drops_a_held_pin :
  ∃ s t v, pin_reach s ∧ pc_of t s = Holding v ∧ c_readers (cell_of v s) = 1 ∧
           c_pinned (cell_of v s) = false.
Proof.
  exists PinRace.final, 1%nat, 1. split; [|by vm_compute].
  apply (pin_run_reach PinRace.schedule first_publication); [constructor|]. by vm_compute.
Qed.

(** ** Witnesses *)
#[global] Instance reader_pc_eq_dec : EqDecision reader_pc.
Proof. solve_decision. Defined.

Definition undisturbedb (a : pin_action) (s : pins) : bool :=
  let nobody v := forallb (λ tp, negb (bool_decide (tp.2 = Dropped v))) (map_to_list (pn_readers s)) in
  match a, pn_writer s with
  | Stop, Built _ v => nobody v
  | CloseStop, _ => nobody (pn_current s)
  | _, _ => true
  end.

Lemma undisturbedb_sound a s : undisturbedb a s = true → undisturbed a s.
Proof.
  assert (Hno : ∀ v, forallb (λ tp, negb (bool_decide (tp.2 = Dropped v))) (map_to_list (pn_readers s)) = true →
    ∀ t, pc_of t s ≠ Dropped v).
  { intros v Hall t Ht. rewrite forallb_forall in Hall. unfold pc_of in Ht.
    destruct (pn_readers s !! t) as [pc|] eqn:E; [|done]. cbn in Ht. subst pc.
    apply elem_of_map_to_list, list_elem_of_In in E. specialize (Hall _ E). cbn in Hall.
    by rewrite bool_decide_true in Hall. }
  unfold undisturbedb, undisturbed. destruct a; try done; [destruct (pn_writer s); try done|]; apply Hno.
Qed.

Fixpoint calm_run (acts : list pin_action) (s : pins) : bool :=
  match acts with
  | [] => true
  | a :: acts => undisturbedb a s && match pin_step a s with Some s1 => calm_run acts s1 | None => false end
  end.

Lemma calm_run_reach acts : ∀ s s',
  calm_reach s → calm_run acts s = true → pin_run acts s = Some s' → calm_reach s'.
Proof.
  induction acts as [|a acts IH]; intros s s' Hr Hc; cbn in *; [by intros [= <-]|].
  apply andb_true_iff in Hc as [Hun%undisturbedb_sound Hc].
  destruct (pin_step a s) as [s1|] eqn:E; [|done]. apply IH; [by econstructor|done].
Qed.

Lemma quiescent_pool_pins_only_the_current_snapshot_witness :
  c_pinned (cell_of 1 PinRace.calm_final) = true ∧ c_accepting (cell_of 2 PinRace.calm_final) = true ∧
  c_pinned (cell_of 2 PinRace.calm_final) = true.
Proof.
  split; [vm_compute; reflexivity|]. split; [vm_compute; reflexivity|].
  refine (proj1 (quiescent_pool_pins_only_the_current_snapshot PinRace.calm_final _) 2 _).
  - apply (pin_run_reach PinRace.calm_schedule first_publication); [constructor|]. vm_compute. reflexivity.
  - vm_compute. reflexivity.
Defined.

Lemma held_snapshots_stay_pinned_witness :
  pc_of 1 PinRace.calm_final = Holding 1 ∧ c_pinned (cell_of 1 PinRace.calm_final) = true.
Proof.
  assert (Ht : pc_of 1 PinRace.calm_final = Holding 1) by (vm_compute; reflexivity).
  split; [exact Ht|]. refine (held_snapshots_stay_pinned PinRace.calm_final 1 1 _ Ht).
  apply (calm_run_reach PinRace.calm_schedule first_publication); [constructor|vm_compute; reflexivity|].
  vm_compute. reflexivity.
Defined.
