(* ===== verification/PoolHealth.v ===== *)
(** How a pool consumes the health journal ([internal/outbound/pool/pool.go],
    [handleHealthResult] and [durableStates]): one journal event becomes a group
    transition, the durable rows that transition produced, and a routing rebuild.
    The rows are what the journal commits with its cursor ([HealthJournal]). *)

From S2P Require Import Prelude GroupMember GroupRuntime GroupInvariant GroupEviction GroupTopology HealthJournal HealthSubscription.
From S2P Require Import GroupHealer PoolMember PoolState PoolView PoolSelect PoolTopology PoolDial.

Section PoolHealth.
Context `{!RangeOrder Z, !RangeOrder string}.

Definition durable_row (now : Z) (s : StateSnapshot) : GroupNodeState :=
  mkGroupNodeState (ss_GroupID s) (ss_NodeID s) (ss_FailureHistory s) (ss_Evicted s) (ss_LastError s)
    (ss_EvictedAt s) now (ss_Revision s).

Definition durableStates (nodeID now : Z) (s : state) : list GroupNodeState :=
  if decide (o_GroupID (p_options (st_pool s)) = 0) then []
  else durable_row now <$> SnapshotStates [nodeID] (st_groups s).

(** The tag a result is about: the topology's tag of the node, for group pools. *)
Definition result_tag (e : HealthResultEvent) (s : state) : string :=
  if negb (bool_decide (o_GroupID (p_options (st_pool s)) = 0)) && negb (bool_decide (hr_NodeID e = 0)) then
    match member_of_node s (hr_NodeID e) with
    | Some m => ref_tag (member m (st_heap s))
    | None => hr_Tag e
    end
  else hr_Tag e.

(** The group transition of a result. *)
Definition record_result (now : Z) (e : HealthResultEvent) (tag : string) (s : state) : state :=
  let gid := o_GroupID (p_options (st_pool s)) in
  if hr_Success e then with_groups (λ w, (RecordHealthSuccess gid tag (hr_ProbeID e) now w).1) s
  else
    let s1 := with_groups (λ w, (RecordGroupHealthFailure gid tag (hr_ProbeID e) (Some (hr_Error e))
                                   (hr_CheckedAt e) now w).1) s in
    scheduleExpiryRebuild (currentFailureWindow (st_pool s1)) now s1.

(** Whole milliseconds, at least one for a measured latency. *)
Definition latency_millis (latency : Z) : Z :=
  let ms := Z.quot latency GoTime.millisecond in
  if bool_decide (ms = 0) && bool_decide (0 < latency) then 1 else ms.

Definition store_latency (e : HealthResultEvent) (tag : string) (s : state) : state :=
  match p_topologyByTag (st_pool s) !! tag with
  | Some m => if hr_Success e then with_heap (with_ref m (set_latency (latency_millis (hr_Latency e)))) s
              else s
  | None => s
  end.

Definition handleHealthResult (env : Env) (now random : Z) (e : HealthResultEvent) (s : state)
    : state * list GroupNodeState :=
  if hr_SnapshotOnly e then
    if p_closed (st_pool s) then (s, [])
    else (reconcileCurrent env now random (rebuildCandidatesNow env now s), [])
  else
    let tag := result_tag e s in
    if negb (hasMember tag s) then (s, [])
    else
      let '(s1, states) :=
        if decide (o_GroupID (p_options (st_pool s)) = 0) then (s, [])
        else let s1 := record_result now e tag s in (s1, durableStates (hr_NodeID e) now s1) in
      let s2 := store_latency e tag s1 in
      if hr_Success e then (scheduleCandidateRebuild now s2, states)
      else (reconcileCurrent env now random (rebuildCandidatesNow env now s2), states).

Definition rebuildAndReconcileCandidatesNow (env : Env) (now random : Z) (s : state) : state :=
  reconcileCurrent env now random (rebuildCandidatesNow env now s).
End PoolHealth.

(** ** What the journal stores of a batch *)
Lemma upsert_drop_other s now db key :
  state_key s ≠ key → db_states (upsert_drop now db s) !! key = db_states db !! key.
Proof.
  intros Hk. unfold upsert_drop, UpsertGroupNodeState. destruct (decide _); [done|].
  destruct (db_states db !! state_key s) as [old|]; [destruct (decide _)|]; cbn;
    by rewrite ?lookup_insert_ne.
Qed.

Lemma upsert_drop_exact s now db :
  state_key s ∈ db_subjects db →
  (∀ old, db_states db !! state_key s = Some old → ns_Revision s = 0 ∨ ns_Revision old ≤ ns_Revision s) →
  db_states (upsert_drop now db s) !! state_key s = Some (stored_row now s).
Proof.
  intros Hsub Hold. unfold upsert_drop, UpsertGroupNodeState. rewrite decide_False by tauto.
  destruct (db_states db !! state_key s) as [old|] eqn:E; [rewrite decide_True by auto|];
    cbn; by rewrite lookup_insert_eq.
Qed.

(** In a batch with one row per subject, each row not older than the stored one
    is stored as it is. *)
Lemma batch_stores_exactly ss now s : ∀ db,
  NoDup (state_key <$> ss) → s ∈ ss → state_key s ∈ db_subjects db →
  (∀ old, db_states db !! state_key s = Some old → ns_Revision s = 0 ∨ ns_Revision old ≤ ns_Revision s) →
  db_states (foldl (upsert_drop now) db ss) !! state_key s = Some (stored_row now s).
Proof.
  induction ss as [|s1 ss IH]; intros db Hnd Hin Hsub Hold; [by apply elem_of_nil in Hin|].
  cbn [fmap list_fmap] in Hnd. apply NoDup_cons in Hnd as [Hnew Hnd]. cbn [foldl].
  apply elem_of_cons in Hin as [->|Hin].
  - rewrite <-(upsert_drop_exact s1 now db Hsub Hold). generalize (upsert_drop now db s1). clear -Hnew.
    induction ss as [|s2 ss IH]; intros db; [done|]. cbn [foldl].
    cbn [fmap list_fmap] in Hnew. rewrite not_elem_of_cons in Hnew. destruct Hnew as [Hne Hnew].
    rewrite IH by done. by apply upsert_drop_other.
  - assert (Hne : state_key s1 ≠ state_key s).
    { intros Heq. apply Hnew. rewrite Heq. apply list_elem_of_fmap. eauto. }
    apply IH; [done|done|by rewrite upsert_drop_subjects|]. rewrite upsert_drop_other by done. exact Hold.
Qed.

(** ** From a journal event to the stored rows *)
Section durability.
Context `{!RangeOrder Z, !RangeOrder string}.

Lemma scheduleExpiry_groups after now s : st_groups (scheduleExpiryRebuild after now s) = st_groups s.
Proof. unfold scheduleExpiryRebuild. destruct (decide _); [done|]. by destruct (p_closed _). Qed.

Lemma record_result_wf now e tag s :
  world_wf (st_groups s) → world_wf (st_groups (record_result now e tag s)).
Proof.
  intros Hw. unfold record_result. destruct (hr_Success e).
  - by apply RecordHealthSuccess_wf.
  - rewrite scheduleExpiry_groups. by apply RecordGroupHealthFailure_wf.
Qed.

Lemma record_result_options now e tag s :
  p_options (st_pool (record_result now e tag s)) = p_options (st_pool s).
Proof.
  unfold record_result, scheduleExpiryRebuild. destruct (hr_Success e); [done|].
  destruct (decide _); [done|]. by destruct (p_closed _).
Qed.

Lemma handle_states env now random e s :
  hr_SnapshotOnly e = false → hasMember (result_tag e s) s = true →
  o_GroupID (p_options (st_pool s)) ≠ 0 →
  (handleHealthResult env now random e s).2 =
    durable_row now <$> SnapshotStates [hr_NodeID e] (st_groups (record_result now e (result_tag e s) s)).
Proof.
  intros Hs Hm Hg. unfold handleHealthResult. rewrite Hs, Hm, decide_False by done. cbn [negb].
  assert (Hd : ∀ n, durableStates n now (record_result now e (result_tag e s) s) =
    durable_row now <$> SnapshotStates [n] (st_groups (record_result now e (result_tag e s) s))).
  { intros n. unfold durableStates. by rewrite record_result_options, decide_False. }
  rewrite Hd. by destruct (hr_Success e).
Qed.

(** A row holds the state of a member. *)
Definition row_of_member (row : GroupNodeState) (g : Z) (m : groupMemberRuntime) : Prop :=
  ns_GroupID row = g ∧ ns_NodeID row = gm_nodeID m ∧ ns_FailureHistory row = gm_failureHistory m ∧
  ns_Evicted row = gm_evicted m ∧ ns_LastError row = gm_lastError m ∧
  ns_EvictedAt row = stored_time (gm_evictedAt m) ∧ ns_Revision row = gm_revision m.

(** C3: a consumed health result cannot be forgotten. When the journal commits
    the rows a pool returns for a result, then in one transaction the consumer's
    cursor covers the event and every group holding the node has a row with exactly
    the history, eviction, error and revision its member has after the transition,
    unless the group or node was deleted or a newer row is already stored: a
    restart that sees the event as delivered also sees what it did. *)
Theorem delivered_result_is_durable env now random e s consumer seq at_ db :
  world_wf (st_groups s) → o_GroupID (p_options (st_pool s)) ≠ 0 →
  hr_SnapshotOnly e = false → hr_NodeID e ≠ 0 → hasMember (result_tag e s) s = true →
  let w := st_groups (record_result now e (result_tag e s) s) in
  unique_nodes w →
  let r := AdvanceHealthCursorWithState consumer seq (handleHealthResult env now random e s).2 at_ None db in
  r.2 = Ok tt ∧
  (consumer ≠ "" → 0 < seq → ∃ c, db_cursors r.1 !! consumer = Some c ∧ seq ≤ c) ∧
  ∀ g rt k m, groupRuntimeStore w !! g = Some rt → gr_members rt !! k = Some m →
    gm_nodeID m = hr_NodeID e → (g, hr_NodeID e) ∈ db_subjects db →
    (∀ old, db_states db !! (g, hr_NodeID e) = Some old → ns_Revision old ≤ gm_revision m) →
    ∃ row, db_states r.1 !! (g, hr_NodeID e) = Some row ∧ row_of_member row g m.
Proof.
  intros Hw Hg Hsnap Hnode Hmem. cbn zeta. set (w := st_groups (record_result now e (result_tag e s) s)).
  intros Huniq. rewrite (handle_states env now random e s Hsnap Hmem Hg). fold w.
  set (ss := durable_row now <$> SnapshotStates [hr_NodeID e] w).
  destruct (state_snapshot_complete [hr_NodeID e] w) as (Hnd & Hsound & Hcompl);
    [by apply record_result_wf|].
  assert (Hkeys : NoDup (state_key <$> ss)) by (unfold ss; by rewrite <-list_fmap_compose).
  assert (Hrow : ∀ g rt k m, groupRuntimeStore w !! g = Some rt → gr_members rt !! k = Some m →
    gm_nodeID m = hr_NodeID e →
    ∃ st, st ∈ ss ∧ state_key st = (g, hr_NodeID e) ∧ row_of_member (stored_row at_ st) g m ∧
          ns_Revision st = gm_revision m).
  { intros g rt k m Hrt Hm Hid. destruct (Hcompl g rt k m Hrt Hm) as (st & Hin & Hsg & Hsn);
      [rewrite Hid; set_solver|congruence|].
    destruct (Hsound st Hin) as (rt' & k' & m' & Hrt' & Hm' & -> & _).
    rewrite Hsg, Hrt in Hrt'. injection Hrt' as <-. cbn [ss_NodeID ss_GroupID snapshot_of] in Hsg, Hsn.
    assert (k' = k) as -> by (eapply (Huniq g); [done..|congruence]).
    assert (m' = m) as -> by congruence.
    exists (durable_row now (snapshot_of rt m)). split; [apply list_elem_of_fmap; eauto|].
    split; [unfold state_key; cbn; congruence|]. by split_and!. }
  unfold AdvanceHealthCursorWithState. rewrite upsert_all_foldl.
  destruct (foldl_upsert_drop_frame ss at_ db) as (_ & _ & Hcur).
  set (db1 := foldl (upsert_drop at_) db ss) in *.
  assert (Hstates : ∀ g rt k m, groupRuntimeStore w !! g = Some rt → gr_members rt !! k = Some m →
    gm_nodeID m = hr_NodeID e → (g, hr_NodeID e) ∈ db_subjects db →
    (∀ old, db_states db !! (g, hr_NodeID e) = Some old → ns_Revision old ≤ gm_revision m) →
    ∃ row, db_states db1 !! (g, hr_NodeID e) = Some row ∧ row_of_member row g m).
  { intros g rt k m Hrt Hm Hid Hsub Hold. destruct (Hrow g rt k m Hrt Hm Hid) as (st & Hin & Hk & Hst & Hrev).
    exists (stored_row at_ st). split; [|done]. rewrite <-Hk.
    apply batch_stores_exactly; [done|done|by rewrite Hk|]. rewrite Hk, Hrev. intros old Ho. right. by apply Hold. }
  destruct (decide _) as [Hskip|]; cbn [fst snd].
  - split_and!; [done| |done]. intros Hc Hs. exfalso. destruct Hskip; [done|lia].
  - split_and!; [done| |exact Hstates]. intros _ _. cbn. rewrite lookup_insert_eq, Hcur.
    eexists. split; [done|]. destruct (db_cursors db !! consumer) as [old|]; [|lia].
    destruct (decide (old < seq)); lia.
Qed.
End durability.

#[local] Existing Instances PoolExample.order_Z PoolExample.order_string.

Module DurableExample.
Definition running : state := PoolExample.pool_state "sequential" 7 PoolExample.base_heap.
Definition failed : HealthResultEvent := mkHealthResult "a" 11 false 0 "timeout" "p1" 4 PoolExample.now false.
Definition db : journal_db := mkJournal [] 5 ∅ ∅ {[ (7, 11) ]}.
Definition after : world := st_groups (record_result PoolExample.now failed "a" running).
Definition rows : list GroupNodeState :=
  (handleHealthResult PoolExample.env PoolExample.now 5 failed running).2.
Definition committed : journal_db := (AdvanceHealthCursorWithState "pool:7" 4 rows PoolExample.now None db).1.

Lemma registered : world_wf (st_groups running).
Proof.
  apply (proj1 (Register_wf 7 0 3 "" (o_InitialGroupState (PoolExample.options "sequential" 7)) None
    PoolExample.now empty_world empty_world_wf ltac:(cbn; lia))).
Qed.
Lemma unique : unique_nodes after.
Proof. apply unique_nodesb_sound. vm_compute. reflexivity. Qed.
Lemma tag_of_result : result_tag failed running = "a".
Proof. vm_compute. reflexivity. Qed.
End DurableExample.

Lemma delivered_result_is_durable_witness :
  (ns_FailureHistory <$> db_states DurableExample.committed !! (7, 11)) = Some [1000] ∧
  ∃ c, db_cursors DurableExample.committed !! "pool:7" = Some c ∧ 4 ≤ c.
Proof.
  split; [vm_compute; reflexivity|].
  refine (proj1 (proj2 (delivered_result_is_durable PoolExample.env PoolExample.now 5 DurableExample.failed
    DurableExample.running "pool:7" 4 PoolExample.now DurableExample.db DurableExample.registered _ (eq_refl _) _ _ _)) _ _).
  - vm_compute. discriminate.
  - cbn. lia.
  - rewrite DurableExample.tag_of_result. vm_compute. reflexivity.
  - rewrite DurableExample.tag_of_result. exact DurableExample.unique.
  - discriminate.
  - lia.
Defined.
