(* ===== verification/Text.v ===== *)
(** Go's text primitives: bytes and their classes, cutting and joining strings,
    decimal numbers ([strconv]) and the four base64 alphabets. A Go string is a
    sequence of bytes, here a [string] of 8-bit characters. *)
From S2P Require Import Prelude.

#[local] Open Scope Z_scope.

(** ** Bytes *)
Definition code (c : Ascii.ascii) : Z := Z.of_nat (Ascii.nat_of_ascii c).
Definition char (n : Z) : Ascii.ascii := Ascii.ascii_of_nat (Z.to_nat n).
Definition byte_is (n : Z) (c : Ascii.ascii) : bool := code c =? n.
Definition within (a b : Z) (c : Ascii.ascii) : bool := (a <=? code c) && (code c <=? b).
Definition is_digit : Ascii.ascii → bool := within 48 57.
Definition is_alpha (c : Ascii.ascii) : bool := within 97 122 c || within 65 90 c.
Definition is_alnum (c : Ascii.ascii) : bool := is_alpha c || is_digit c.

(** [c] is one of the characters of [set]. *)
Fixpoint one_of (set : string) (c : Ascii.ascii) : bool :=
  match set with EmptyString => false | String d set => bool_decide (c = d) || one_of set c end.

Definition all_bytes : list Ascii.ascii := map Ascii.ascii_of_nat (seq 0 256).

(** What holds of the 256 bytes holds of every byte. *)
Lemma byte_check (P : Ascii.ascii → bool) : forallb P all_bytes = true → ∀ c, P c = true.
Proof.
  intros HP c. rewrite forallb_forall in HP. apply HP.
  rewrite <-(Ascii.ascii_nat_embedding c). apply in_map, in_seq.
  pose proof (Ascii.nat_ascii_bounded c). lia.
Qed.

Lemma byte_cases (P Q : Ascii.ascii → bool) :
  forallb (λ c, implb (P c) (Q c)) all_bytes = true → ∀ c, P c = true → Q c = true.
Proof. intros H c Hp. pose proof (byte_check _ H c) as Hc. cbv beta in Hc. by rewrite Hp in Hc. Qed.

Ltac by_bytes := apply byte_cases; vm_compute; reflexivity.

(** ** Strings of a class *)
Fixpoint every (P : Ascii.ascii → bool) (s : string) : bool :=
  match s with EmptyString => true | String c s => P c && every P s end.

Definition nonempty (s : string) : bool := negb (bool_decide (s = "")).

Lemma append_cons c (a b : string) : String c a +:+ b = String c (a +:+ b).
Proof. reflexivity. Qed.
Lemma append_nil_l (a : string) : "" +:+ a = a.
Proof. reflexivity. Qed.

Lemma every_app P a b : every P (a +:+ b) = every P a && every P b.
Proof. induction a as [|c a IH]; [done|]. rewrite append_cons. cbn. by rewrite IH, andb_assoc. Qed.

Lemma every_impl (P Q : Ascii.ascii → bool) s :
  (∀ c, P c = true → Q c = true) → every P s = true → every Q s = true.
Proof.
  intros HPQ. induction s as [|c s IH]; cbn; [done|]. intros [? ?]%andb_prop. by rewrite HPQ, IH.
Qed.

Lemma append_assoc (a b c : string) : (a +:+ b) +:+ c = a +:+ b +:+ c.
Proof. induction a as [|x a IH]; [done|]. by rewrite !append_cons, IH. Qed.

Lemma append_nil_r (a : string) : a +:+ "" = a.
Proof. induction a as [|x a IH]; [done|]. by rewrite append_cons, IH. Qed.

(** ** Cutting *)
Fixpoint cut (sep : Ascii.ascii → bool) (s : string) : option (string * string) :=
  match s with
  | EmptyString => None
  | String c s' =>
    if sep c then Some ("", s')
    else match cut sep s' with Some (a, b) => Some (String c a, b) | None => None end
  end.

(** At the last separator. *)
Fixpoint cut_last (sep : Ascii.ascii → bool) (s : string) : option (string * string) :=
  match s with
  | EmptyString => None
  | String c s' =>
    match cut_last sep s' with
    | Some (a, b) => Some (String c a, b)
    | None => if sep c then Some ("", s') else None
    end
  end.

(** [strings.Cut(s, sep)] without the flag. *)
Definition Cut (sep : Ascii.ascii → bool) (s : string) : string * string :=
  match cut sep s with Some p => p | None => (s, "") end.

Definition contains (sep : Ascii.ascii → bool) (s : string) : bool := negb (every (λ c, negb (sep c)) s).

Fixpoint Split (sep : Ascii.ascii → bool) (s : string) : list string :=
  match s with
  | EmptyString => [""]
  | String c s' =>
    let parts := Split sep s' in
    if sep c then "" :: parts
    else match parts with p :: ps => String c p :: ps | [] => [String c ""] end
  end.

Fixpoint Join (sep : Ascii.ascii) (l : list string) : string :=
  match l with
  | [] => ""
  | [p] => p
  | p :: l => p +:+ String sep (Join sep l)
  end.

Fixpoint strip_prefix (p s : string) : option string :=
  match p, s with
  | EmptyString, _ => Some s
  | String a p, String b s => if decide (a = b) then strip_prefix p s else None
  | String _ _, EmptyString => None
  end.

(** The text before the first occurrence of [sub] and after it. *)
Fixpoint find_sub (sub s : string) : option (string * string) :=
  match strip_prefix sub s with
  | Some rest => Some ("", rest)
  | None =>
    match s with
    | EmptyString => None
    | String c s => match find_sub sub s with Some (a, b) => Some (String c a, b) | None => None end
    end
  end.

Lemma cut_hit sep a c b :
  every (λ c, negb (sep c)) a = true → sep c = true → cut sep (a +:+ String c b) = Some (a, b).
Proof.
  induction a as [|x a IH]; intros Ha Hc; [rewrite append_nil_l; cbn; by rewrite Hc|].
  rewrite append_cons. cbn in *.
  apply andb_prop in Ha as [Hx Ha]. apply negb_true_iff in Hx. by rewrite Hx, IH.
Qed.

Lemma cut_miss sep a : every (λ c, negb (sep c)) a = true → cut sep a = None.
Proof.
  induction a as [|x a IH]; cbn; intros Ha; [done|].
  apply andb_prop in Ha as [Hx Ha]. apply negb_true_iff in Hx. by rewrite Hx, IH.
Qed.

Lemma cut_last_miss sep a : every (λ c, negb (sep c)) a = true → cut_last sep a = None.
Proof.
  induction a as [|x a IH]; cbn; intros Ha; [done|].
  apply andb_prop in Ha as [Hx Ha]. apply negb_true_iff in Hx. by rewrite IH, Hx.
Qed.

Lemma cut_last_hit sep a c b :
  every (λ c, negb (sep c)) b = true → sep c = true → cut_last sep (a +:+ String c b) = Some (a, b).
Proof.
  intros Hb Hc. induction a as [|x a IH].
  - rewrite append_nil_l. cbn. by rewrite cut_last_miss, Hc.
  - rewrite append_cons. cbn. by rewrite IH.
Qed.

Lemma contains_false sep s : contains sep s = false ↔ every (λ c, negb (sep c)) s = true.
Proof. unfold contains. apply negb_false_iff. Qed.

Lemma strip_prefix_app p s : strip_prefix p (p +:+ s) = Some s.
Proof. induction p as [|c p IH]; [done|]. rewrite append_cons. cbn. by rewrite decide_True. Qed.

(** A word without the first character of [sub] is cut off whole. *)
Lemma find_sub_hit c sub a b :
  every (λ d, negb (bool_decide (d = c))) a = true →
  find_sub (String c sub) (a +:+ String c sub +:+ b) = Some (a, b).
Proof.
  induction a as [|x a IH]; intros Ha.
  - pose proof (strip_prefix_app (String c sub) b) as Hs. rewrite append_nil_l.
    rewrite append_cons in *. cbn -[strip_prefix]. by rewrite Hs.
  - cbn in Ha. apply andb_prop in Ha as [Hx Ha]. apply negb_true_iff, bool_decide_eq_false in Hx.
    rewrite append_cons. cbn. rewrite decide_False by done. by rewrite IH.
Qed.

Lemma find_sub_miss c sub s : every (λ d, negb (bool_decide (d = c))) s = true → find_sub (String c sub) s = None.
Proof.
  induction s as [|x s IH]; [done|]. cbn. intros [Hx Hs]%andb_prop. apply negb_true_iff, bool_decide_eq_false in Hx.
  rewrite decide_False by done. by rewrite IH.
Qed.

(** ** Decimal numbers *)
Fixpoint digits (fuel : nat) (n : Z) (acc : string) : string :=
  match fuel with
  | O => acc
  | S fuel =>
    let acc := String (char (48 + n mod 10)) acc in
    if n <? 10 then acc else digits fuel (n / 10) acc
  end.
Definition decimal (n : Z) : string := digits (S (Z.to_nat (Z.log2 n))) n "".
Definition Itoa (z : Z) : string := if z <? 0 then "-" +:+ decimal (- z) else decimal z.

Fixpoint parse_digits (max : Z) (s : string) (n : Z) : Z * bool :=
  match s with
  | EmptyString => (n, true)
  | String c s =>
    if is_digit c then
      let n1 := 10 * n + (code c - 48) in
      if max <? n1 then (max, false) else parse_digits max s n1
    else (0, false)
  end.

(** [strconv.ParseUint(s, 10, bits)]: the value, and whether there was no error.
    A number out of range yields the largest one. *)
Definition ParseUint (bits : Z) (s : string) : Z * bool :=
  if nonempty s then parse_digits (2 ^ bits - 1) s 0 else (0, false).

(** [strconv.Atoi] where an [int] has 64 bits. *)
Definition Atoi (s : string) : Z * bool :=
  let unsigned (neg : bool) (s : string) :=
    let '(n, ok) := ParseUint 64 s in
    if negb ok && (n =? 0) then (0, false)
    else if neg then if 2 ^ 63 <? n then (- 2 ^ 63, false) else (- n, ok)
    else if 2 ^ 63 <=? n then (2 ^ 63 - 1, false) else (n, ok) in
  match s with
  | String c s' => if byte_is 45 c then unsigned true s' else if byte_is 43 c then unsigned false s' else unsigned false s
  | EmptyString => (0, false)
  end.

Lemma digit_value d : 0 ≤ d < 10 → is_digit (char (48 + d)) = true ∧ code (char (48 + d)) - 48 = d.
Proof.
  intros Hd. unfold is_digit, within, code, char. rewrite Ascii.nat_ascii_embedding by lia.
  split; [|lia]. apply andb_true_intro. split; apply Z.leb_le; lia.
Qed.

Lemma digits_S fuel n acc :
  digits (S fuel) n acc =
    let acc := String (char (48 + n mod 10)) acc in if n <? 10 then acc else digits fuel (n / 10) acc.
Proof. reflexivity. Qed.

Lemma parse_digits_of fuel max n acc :
  0 ≤ n ≤ max → n < 10 * 2 ^ Z.of_nat fuel →
  parse_digits max (digits (S fuel) n acc) 0 = parse_digits max acc n.
Proof.
  revert n acc. induction fuel as [|fuel IH]; intros n acc Hn Hf; rewrite digits_S; cbv zeta.
  all: destruct (Z.ltb_spec n 10) as [Hlt|Hge].
  1, 3: cbn [parse_digits]; rewrite Z.mod_small by lia;
    destruct (digit_value n ltac:(lia)) as [-> ->];
    destruct (Z.ltb_spec max (10 * 0 + n)); [lia|f_equal; lia].
  - cbn in Hf. lia.
  - replace (Z.of_nat (S fuel)) with (Z.of_nat fuel + 1) in Hf by lia.
    rewrite Z.pow_add_r in Hf by lia. pose proof (Z.div_mod n 10 ltac:(lia)) as Hdm.
    pose proof (Z.mod_pos_bound n 10 ltac:(lia)) as Hm. rewrite IH by lia.
    cbn [parse_digits]. destruct (digit_value (n mod 10) Hm) as [-> ->].
    rewrite <-Hdm. destruct (Z.ltb_spec max n); [lia|done].
Qed.

Lemma digits_digit fuel n acc :
  0 ≤ n → every is_digit acc = true → every is_digit (digits fuel n acc) = true.
Proof.
  revert n acc. induction fuel as [|fuel IH]; intros n acc Hn Ha; cbn [digits]; [done|].
  assert (every is_digit (String (char (48 + n mod 10)) acc) = true).
  { cbn [every]. rewrite Ha, andb_true_r. apply digit_value, Z.mod_pos_bound. lia. }
  destruct (n <? 10); [done|]. apply IH; [apply Z.div_pos; lia|done].
Qed.

Lemma decimal_digits n : 0 ≤ n → every is_digit (decimal n) = true.
Proof. intros Hn. by apply digits_digit. Qed.

Lemma digits_nonempty fuel n acc : acc ≠ "" ∨ fuel ≠ 0%nat → digits fuel n acc ≠ "".
Proof.
  revert n acc. induction fuel as [|fuel IH]; intros n acc Ha; cbn [digits]; [naive_solver|].
  destruct (n <? 10); [done|]. apply IH. by left.
Qed.

Lemma decimal_nonempty n : decimal n ≠ "".
Proof. apply digits_nonempty. by right. Qed.

Lemma ParseUint_decimal bits n : 0 ≤ n < 2 ^ bits → ParseUint bits (decimal n) = (n, true).
Proof.
  intros Hn. unfold ParseUint, nonempty. rewrite bool_decide_eq_false_2 by apply decimal_nonempty. cbn [negb].
  unfold decimal. rewrite parse_digits_of; [done|lia|].
  rewrite Z2Nat.id by apply Z.log2_nonneg. pose proof (Z.pow_nonneg 2 (Z.log2 n)).
  destruct (decide (n = 0)) as [->|]; [done|].
  pose proof (Z.log2_spec n ltac:(lia)) as [_ Hhi]. rewrite Z.pow_succ_r in Hhi by apply Z.log2_nonneg. lia.
Qed.

Lemma nonempty_true s : nonempty s = true ↔ s ≠ "".
Proof. unfold nonempty. by rewrite negb_true_iff, bool_decide_eq_false. Qed.

(** A 64-bit integer reads back as itself. *)
Lemma Atoi_Itoa z : - 2 ^ 63 ≤ z < 2 ^ 63 → Atoi (Itoa z) = (z, true).
Proof.
  intros Hz. unfold Itoa, Atoi. destruct (Z.ltb_spec z 0) as [Hneg|Hpos].
  - rewrite append_cons, append_nil_l. change (byte_is 45 _) with true. cbv iota beta.
    rewrite ParseUint_decimal by lia. cbn [negb andb]. destruct (Z.ltb_spec (2 ^ 63) (- z)); [lia|].
    by rewrite Z.opp_involutive.
  - pose proof (decimal_digits z ltac:(lia)) as Hd. pose proof (decimal_nonempty z) as Hne.
    pose proof (ParseUint_decimal 64 z ltac:(lia)) as Hp.
    destruct (decimal z) as [|c s]; [done|]. cbn in Hd. apply andb_prop in Hd as [Hc _].
    assert (byte_is 45 c = false ∧ byte_is 43 c = false) as [-> ->].
    { unfold is_digit, within, byte_is in *. apply andb_prop in Hc as [H1 H2]. apply Z.leb_le in H1, H2.
      split; apply Z.eqb_neq; lia. }
    rewrite Hp. cbn [negb andb]. by destruct (Z.leb_spec (2 ^ 63) z); [lia|].
Qed.

Lemma parse_digits_range max s n : 0 ≤ n ≤ max → 0 ≤ (parse_digits max s n).1 ≤ max.
Proof.
  revert n. induction s as [|c s IH]; intros n Hn; cbn [parse_digits]; [done|].
  destruct (is_digit c) eqn:Hc; [|cbn; lia]. cbv zeta. destruct (Z.ltb_spec max (10 * n + (code c - 48))); [cbn; lia|].
  apply IH. unfold is_digit, within in Hc. apply andb_prop in Hc as [?%Z.leb_le _]. lia.
Qed.

Lemma ParseUint_range bits s : 0 < bits → 0 ≤ (ParseUint bits s).1 < 2 ^ bits.
Proof.
  intros Hb. pose proof (proj1 (Z.pow_gt_1 2 bits ltac:(lia)) Hb). unfold ParseUint. destruct (nonempty s); [|cbn; lia].
  pose proof (parse_digits_range (2 ^ bits - 1) s 0). lia.
Qed.

Lemma Atoi_range s : - 2 ^ 63 ≤ (Atoi s).1 < 2 ^ 63.
Proof.
  assert (Hu : ∀ neg t, let r := (let '(n, ok) := ParseUint 64 t in
    if negb ok && (n =? 0) then (0, false)
    else if (neg : bool) then if 2 ^ 63 <? n then (- 2 ^ 63, false) else (- n, ok)
    else if 2 ^ 63 <=? n then (2 ^ 63 - 1, false) else (n, ok)) in - 2 ^ 63 ≤ r.1 < 2 ^ 63).
  { intros neg t. pose proof (ParseUint_range 64 t ltac:(lia)) as Hr. destruct (ParseUint 64 t) as [n ok]. cbn [fst] in Hr. cbv zeta.
    destruct (negb ok && (n =? 0)); [cbn; lia|]. destruct neg.
    - destruct (Z.ltb_spec (2 ^ 63) n); cbn [fst]; lia.
    - destruct (Z.leb_spec (2 ^ 63) n); cbn [fst]; lia. }
  unfold Atoi. destruct s as [|c s]; [cbn; lia|].
  destruct (byte_is 45 c); [apply (Hu true)|]. destruct (byte_is 43 c); apply (Hu false).
Qed.

(** ** Base64 *)
Inductive Encoding := StdEncoding | RawStdEncoding | URLEncoding | RawURLEncoding.

Definition urlSafe (e : Encoding) : bool := match e with URLEncoding | RawURLEncoding => true | _ => false end.
Definition padded (e : Encoding) : bool := match e with StdEncoding | URLEncoding => true | _ => false end.

(** The 6-bit value of a symbol, and the symbol of a value. *)
Definition sextet (e : Encoding) (c : Ascii.ascii) : option Z :=
  if within 65 90 c then Some (code c - 65)
  else if within 97 122 c then Some (code c - 71)
  else if is_digit c then Some (code c + 4)
  else if byte_is (if urlSafe e then 45 else 43) c then Some 62
  else if byte_is (if urlSafe e then 95 else 47) c then Some 63
  else None.

Definition symbol (e : Encoding) (v : Z) : Ascii.ascii :=
  if v <? 26 then char (v + 65)
  else if v <? 52 then char (v + 71)
  else if v <? 62 then char (v - 4)
  else if v =? 62 then char (if urlSafe e then 45 else 43) else char (if urlSafe e then 95 else 47).

Definition byte1 (x y : Z) : Ascii.ascii := char (x * 4 + y / 16).
Definition byte2 (y z : Z) : Ascii.ascii := char (y mod 16 * 16 + z / 4).
Definition byte3 (z w : Z) : Ascii.ascii := char (z mod 4 * 64 + w).
Definition is_pad (e : Encoding) (c : Ascii.ascii) : bool := padded e && byte_is 61 c.

(** [Encoding.DecodeString] on a text without line breaks. Trailing bits of an
    incomplete group are ignored, as they are by Go's non-strict decoders. *)
Fixpoint b64_decode (e : Encoding) (s : string) : option string :=
  match s with
  | EmptyString => Some ""
  | String a (String b r2) =>
    match sextet e a, sextet e b with
    | Some x, Some y =>
      match r2 with
      | EmptyString => if padded e then None else Some (String (byte1 x y) "")
      | String c r3 =>
        match r3 with
        | EmptyString =>
          if padded e then None
          else match sextet e c with
               | Some z => Some (String (byte1 x y) (String (byte2 y z) ""))
               | None => None
               end
        | String d r4 =>
          if is_pad e c then
            if is_pad e d && bool_decide (r4 = "") then Some (String (byte1 x y) "") else None
          else match sextet e c with
          | None => None
          | Some z =>
            if is_pad e d then
              if bool_decide (r4 = "") then Some (String (byte1 x y) (String (byte2 y z) "")) else None
            else match sextet e d, b64_decode e r4 with
                 | Some w, Some rest =>
                     Some (String (byte1 x y) (String (byte2 y z) (String (byte3 z w) rest)))
                 | _, _ => None
                 end
          end
        end
      end
    | _, _ => None
    end
  | String _ EmptyString => None
  end.

(** [RawURLEncoding.EncodeToString]. *)
Fixpoint b64_encode (s : string) : string :=
  let sym := symbol RawURLEncoding in
  match s with
  | EmptyString => ""
  | String a EmptyString => String (sym (code a / 4)) (String (sym (code a mod 4 * 16)) "")
  | String a (String b EmptyString) =>
      String (sym (code a / 4)) (String (sym (code a mod 4 * 16 + code b / 16))
        (String (sym (code b mod 16 * 4)) ""))
  | String a (String b (String c rest)) =>
      String (sym (code a / 4)) (String (sym (code a mod 4 * 16 + code b / 16))
        (String (sym (code b mod 16 * 4 + code c / 64)) (String (sym (code c mod 64)) (b64_encode rest))))
  end.

Definition b64_url (c : Ascii.ascii) : bool := is_alnum c || byte_is 45 c || byte_is 95 c.

(** Induction three or four characters at a time. *)
Lemma string_groups (n : nat) (P : string → Prop) :
  (0 < n)%nat → (∀ s, (∀ t, (String.length t + n ≤ String.length s)%nat → P t) → P s) → ∀ s, P s.
Proof.
  intros Hn Hstep s. remember (String.length s) as k eqn:Hk. revert s Hk.
  induction (lt_wf k) as [k _ IH]. intros s ->. apply Hstep. intros t Ht.
  apply (IH (String.length t)); [lia|done].
Qed.

Lemma code_bound c : 0 ≤ code c < 256.
Proof. unfold code. pose proof (Ascii.nat_ascii_bounded c). lia. Qed.

Lemma char_code c : char (code c) = c.
Proof. unfold char, code. by rewrite Nat2Z.id, Ascii.ascii_nat_embedding. Qed.

Lemma sextet_symbol v : 0 ≤ v < 64 → sextet RawURLEncoding (symbol RawURLEncoding v) = Some v ∧ b64_url (symbol RawURLEncoding v) = true.
Proof.
  intros Hv.
  assert (Hall : forallb (λ n, let v := Z.of_nat n in
    bool_decide (sextet RawURLEncoding (symbol RawURLEncoding v) = Some v) && b64_url (symbol RawURLEncoding v)) (seq 0 64) = true)
    by (vm_compute; reflexivity).
  rewrite forallb_forall in Hall. specialize (Hall (Z.to_nat v)). cbv beta zeta in Hall.
  rewrite Z2Nat.id in Hall by lia. destruct (andb_prop _ _ (Hall ltac:(apply in_seq; lia))) as [H1 H2].
  split; [by apply bool_decide_eq_true in H1|done].
Qed.

Lemma sextet_bound e c v : sextet e c = Some v → 0 ≤ v < 64.
Proof.
  unfold sextet, is_digit, within, byte_is. intros H.
  repeat match type of H with context [if ?b then _ else _] => destruct b eqn:? end; simplify_eq; try lia.
  all: match goal with H : (_ <=? _) && (_ <=? _) = true |- _ => apply andb_prop in H as [?%Z.leb_le ?%Z.leb_le] end; lia.
Qed.

Ltac sextets :=
  repeat match goal with
  | |- context [sextet RawURLEncoding (symbol RawURLEncoding ?v)] =>
      rewrite (proj1 (sextet_symbol v ltac:(Z.to_euclidean_division_equations; lia)))
  end.

Lemma char_eq x c : x = code c → char x = c.
Proof. intros ->. apply char_code. Qed.

Lemma b64_url_encode s : every b64_url (b64_encode s) = true.
Proof.
  revert s. apply (string_groups 3); [lia|]. intros s IH.
  assert (Hs : ∀ v, 0 ≤ v < 64 → b64_url (symbol RawURLEncoding v) = true) by (intros; by apply sextet_symbol).
  destruct s as [|a [|b [|c rest]]]; cbn [b64_encode every]; [done|..].
  all: pose proof (code_bound a); try pose proof (code_bound b); try pose proof (code_bound c).
  all: rewrite !Hs by (Z.to_euclidean_division_equations; lia); cbn [andb]; try done.
  apply IH. cbn. lia.
Qed.

Lemma b64_decode_encode s : b64_decode RawURLEncoding (b64_encode s) = Some s.
Proof.
  revert s. apply (string_groups 3); [lia|]. intros s IH.
  destruct s as [|a [|b [|c rest]]]; cbn [b64_encode b64_decode]; [done|..].
  all: pose proof (code_bound a); try pose proof (code_bound b); try pose proof (code_bound c).
  all: sextets; cbn [padded is_pad andb]; try (rewrite IH by (cbn; lia)).
  all: f_equal; unfold byte1, byte2, byte3;
    repeat match goal with |- String _ _ = String _ _ => f_equal end; try done.
  all: apply char_eq; Z.to_euclidean_division_equations; lia.
Qed.

(** A URL-safe text without padding that another decoder accepts has the same
    value there. *)
Lemma sextet_agrees e c v : b64_url c = true → sextet e c = Some v → sextet RawURLEncoding c = Some v.
Proof.
  intros Hc. unfold sextet. cbn [urlSafe]. destruct (within 65 90 c), (within 97 122 c), (is_digit c); try done.
  destruct (urlSafe e); [done|]. intros H. exfalso.
  assert (Hn : negb (byte_is 43 c) && negb (byte_is 47 c) = true) by (clear H; revert c Hc; by_bytes).
  apply andb_prop in Hn as [H1 H2]. rewrite !negb_true_iff in *. by rewrite H1, H2 in H.
Qed.

Lemma not_pad e c : b64_url c = true → is_pad e c = false.
Proof.
  intros Hc. unfold is_pad. destruct (padded e); [|done]. cbn. apply negb_true_iff. revert c Hc. by_bytes.
Qed.

Lemma b64_decode_agrees e s x :
  every b64_url s = true → b64_decode e s = Some x → b64_decode RawURLEncoding s = Some x.
Proof.
  intros Hs. revert s Hs x. apply (string_groups 4 (λ s, every b64_url s = true → ∀ x, b64_decode e s = Some x → b64_decode RawURLEncoding s = Some x)); [lia|].
  intros s IH Hs x Hx.
  destruct s as [|a [|b [|c [|d rest]]]]; cbn [b64_decode] in *; [done|done|..].
  all: cbn [every] in Hs; repeat (apply andb_prop in Hs as [? Hs]).
  all: destruct (sextet e a) eqn:Ha; [|done]; destruct (sextet e b) eqn:Hb; [|done].
  all: rewrite (sextet_agrees e a _ ltac:(done) Ha), (sextet_agrees e b _ ltac:(done) Hb).
  all: repeat rewrite not_pad in * by done; cbn [is_pad padded andb].
  all: try (destruct (padded e); [done|]); try done.
  all: destruct (sextet e c) eqn:Hc; [|done]; rewrite (sextet_agrees e c _ ltac:(done) Hc); try done.
  destruct (sextet e d) eqn:Hd; [|done]. rewrite (sextet_agrees e d _ ltac:(done) Hd).
  destruct (b64_decode e rest) eqn:Hr; [|done]. by rewrite (IH rest ltac:(cbn; lia) Hs _ Hr).
Qed.
