(* ===== verification/NetIP.v ===== *)
(** Go's [net/netip]: IP addresses read from and printed as text. *)
From S2P Require Import Prelude Text.

#[local] Open Scope Z_scope.

Definition dot := byte_is 46.
Definition colon := byte_is 58.
Definition percent := byte_is 37.

(** An address: the four bytes of IPv4, or the eight 16-bit groups of IPv6 with
    its zone. *)
Inductive Addr :=
| V4 (bytes : list Z)
| V6 (groups : list Z) (zone : string).

(** ** Reading *)

(** [parseIPv4Fields]: [fields] are complete, the current one has [len] digits of
    value [v]. *)
Fixpoint ipv4 (s : string) (fields : list Z) (len : nat) (v : Z) : option (list Z) :=
  match s with
  | EmptyString => if (length fields =? 3)%nat && negb (len =? 0)%nat then Some (fields ++ [v]) else None
  | String c s =>
    if is_digit c then
      if (len =? 1)%nat && (v =? 0) then None
      else let v := v * 10 + (code c - 48) in if 255 <? v then None else ipv4 s fields (S len) v
    else if dot c then
      if (len =? 0)%nat || (length fields =? 3)%nat || negb (nonempty s) then None
      else ipv4 s (fields ++ [v]) 0 0
    else None
  end.

Definition hex_digit (c : Ascii.ascii) : option Z :=
  if is_digit c then Some (code c - 48)
  else if within 97 102 c then Some (code c - 87)
  else if within 65 70 c then Some (code c - 55) else None.

(** The leading hexadecimal group: its length, its value and what follows;
    [None] after more than four digits. *)
Fixpoint hex_group (s : string) (len : nat) (acc : Z) : option (nat * Z * string) :=
  match s with
  | EmptyString => Some (len, acc, s)
  | String c s' =>
    match hex_digit c with
    | Some d => if (3 <? len)%nat then None else hex_group s' (S len) (acc * 16 + d)
    | None => Some (len, acc, s)
    end
  end.

(** The end of [parseIPv6]: the groups are moved behind the ellipsis. *)
Definition ipv6_end (gs : list Z) (ell : option nat) (s : string) : option (list Z) :=
  if nonempty s then None
  else if (length gs <? 8)%nat then
    match ell with
    | Some e => Some (take e gs ++ replicate (8 - length gs) 0 ++ drop e gs)
    | None => None
    end
  else match ell with Some _ => None | None => Some gs end.

(** The loop of [parseIPv6] with room for [n] groups; [ell] is the position of an
    ellipsis. *)
Fixpoint ipv6 (n : nat) (gs : list Z) (ell : option nat) (s : string) : option (list Z) :=
  match n with
  | O => ipv6_end gs ell s
  | S n =>
    match hex_group s 0 0 with
    | None | Some (O, _, _) => None
    | Some (_, g, rest) =>
      match rest with
      | EmptyString => ipv6_end (gs ++ [g]) ell ""
      | String c rest' =>
        if dot c then
          if (match ell with None => negb (length gs =? 6)%nat | Some _ => false end) || (8 <? length gs + 2)%nat then None
          else match ipv4 s [] 0 0 with
               | Some [a; b; c; d] => ipv6_end (gs ++ [a * 256 + b; c * 256 + d]) ell ""
               | _ => None
               end
        else if negb (colon c) then None
        else match rest' with
             | EmptyString => None
             | String d rest'' =>
               if colon d then
                 match ell with
                 | Some _ => None
                 | None =>
                   let e := Some (length gs + 1)%nat in
                   if nonempty rest'' then ipv6 n (gs ++ [g]) e rest'' else ipv6_end (gs ++ [g]) e ""
                 end
               else ipv6 n (gs ++ [g]) ell rest'
             end
      end
    end
  end.

Definition parseIPv6 (whole : string) : option Addr :=
  let go (s zone : string) :=
    let groups :=
      match strip_prefix "::" s with
      | Some s => if nonempty s then ipv6 8 [] (Some 0%nat) s else Some (replicate 8 0)
      | None => ipv6 8 [] None s
      end in
    match groups with Some gs => Some (V6 gs zone) | None => None end in
  match cut percent whole with
  | Some (s, zone) => if nonempty zone then go s zone else None
  | None => go whole ""
  end.

Definition parseIPv4 (s : string) : option Addr :=
  match ipv4 s [] 0 0 with Some bytes => Some (V4 bytes) | None => None end.

(** [ParseAddr] decides by the first dot, colon or percent sign. *)
Fixpoint dispatch (whole s : string) : option Addr :=
  match s with
  | EmptyString => None
  | String c s =>
    if dot c then parseIPv4 whole
    else if colon c then parseIPv6 whole
    else if percent c then None
    else dispatch whole s
  end.
Definition ParseAddr (s : string) : option Addr := dispatch s s.

(** ** Printing *)
Definition hex_char (d : Z) : Ascii.ascii := if d <? 10 then char (48 + d) else char (87 + d).

(** [appendHex]: no leading zeros. *)
Definition hex_text (g : Z) : string :=
  let d i := hex_char (g / 16 ^ i mod 16) in
  if g <? 16 then String (d 0) ""
  else if g <? 256 then String (d 1) (String (d 0) "")
  else if g <? 4096 then String (d 2) (String (d 1) (String (d 0) ""))
  else String (d 3) (String (d 2) (String (d 1) (String (d 0) ""))).

Definition colons (gs : list Z) : string := Join (char 58) (hex_text <$> gs).

Fixpoint leading_zeros (zs : list bool) : nat :=
  match zs with true :: zs => S (leading_zeros zs) | _ => O end.

(** The first of the longest runs of at least two zero groups. *)
Fixpoint zero_run (zs : list bool) (i : nat) (best : nat * nat) : nat * nat :=
  match zs with
  | [] => best
  | z :: zs' =>
    let l := leading_zeros zs in
    zero_run zs' (S i) (if (2 <=? l)%nat && (best.2 - best.1 <? l)%nat then (i, (i + l)%nat) else best)
  end.

Definition Is4In6 (gs : list Z) : bool := bool_decide (take 6 gs = [0; 0; 0; 0; 0; 65535]).

Definition v4_text (bytes : list Z) : string := Join (char 46) (decimal <$> bytes).

(** [appendTo6] without the zone. *)
Definition v6_text (gs : list Z) : string :=
  let '(a, b) := zero_run ((λ g, g =? 0) <$> gs) 0 (0%nat, 0%nat) in
  if (a <? b)%nat then colons (take a gs) +:+ "::" +:+ colons (drop b gs) else colons gs.

Definition low_bytes (gs : list Z) : list Z := drop 6 gs ≫= λ g, [g / 256; g mod 256].

Definition Unmap (a : Addr) : Addr :=
  match a with V6 gs _ => if Is4In6 gs then V4 (low_bytes gs) else a | V4 _ => a end.

Definition Addr_String (a : Addr) : string :=
  match a with
  | V4 bytes => v4_text bytes
  | V6 gs zone =>
      (if Is4In6 gs then "::ffff:" +:+ v4_text (low_bytes gs) else v6_text gs)
        +:+ (if nonempty zone then "%" +:+ zone else "")
  end.

Example accepted :
  (fmap (λ a, Addr_String (Unmap a)) ∘ ParseAddr) <$>
    ["203.0.113.1"; "::"; "2001:DB8:0:0:1::1"; "fe80::1%eth0"; "::ffff:1.2.3.4"; "1:2:3:4:5:6:7:8"; "1:2:3:4:5:6:1.2.3.4"; "1::0:0:0:8"; "0:0:1::"]
  = Some <$> ["203.0.113.1"; "::"; "2001:db8::1:0:0:1"; "fe80::1%eth0"; "1.2.3.4"; "1:2:3:4:5:6:7:8"; "1:2:3:4:5:6:102:304"; "1::8"; "0:0:1::"].
Proof. vm_compute. reflexivity. Qed.

Example refused :
  ParseAddr <$>
    [""; "example.com"; "1.2.3"; "1.2.3.256"; "1.02.3.4"; "1..2.3"; "1.2.3.4."; ":1"; "1:2"; "1::2::3"; "12345::";
     "fe80::1%"; "1:2:3:4:5:6:7:8::"; "::1.2.3"; "1:"]
  = replicate 15 None.
Proof. vm_compute. reflexivity. Qed.

(** ** What is printed reads back *)
Fixpoint digits_run (s : string) (len : nat) (v : Z) : option (nat * Z) :=
  match s with
  | EmptyString => Some (len, v)
  | String c s =>
    if is_digit c then
      if (len =? 1)%nat && (v =? 0) then None
      else let v := v * 10 + (code c - 48) in if 255 <? v then None else digits_run s (S len) v
    else None
  end.

Lemma ipv4_digits s rest fields len v l v' :
  digits_run s len v = Some (l, v') → ipv4 (s +:+ rest) fields len v = ipv4 rest fields l v'.
Proof.
  revert len v. induction s as [|c s IH]; intros len v; cbn [digits_run]; [by intros [= -> ->]|].
  rewrite append_cons. cbn [ipv4]. destruct (is_digit c); [|done].
  destruct (_ && _); [done|]. cbv zeta. destruct (255 <? _); [done|]. apply IH.
Qed.

Lemma upto (n : nat) (P : Z → bool) :
  forallb (λ i, P (Z.of_nat i)) (seq 0 n) = true → ∀ z, 0 ≤ z < Z.of_nat n → P z = true.
Proof.
  intros H z Hz. rewrite forallb_forall in H. rewrite <-(Z2Nat.id z) by lia. apply H, in_seq. lia.
Qed.

Lemma decimal_run v : 0 ≤ v < 256 → ∃ l, digits_run (decimal v) 0 0 = Some (S l, v).
Proof.
  intros Hv.
  assert (Hall : match digits_run (decimal v) 0 0 with Some (S _, v') => v' =? v | _ => false end = true).
  { revert v Hv. apply (upto 256). vm_compute. reflexivity. }
  destruct (digits_run _ _ _) as [[[|l] v']|]; try done. apply Z.eqb_eq in Hall as ->. by exists l.
Qed.

Definition is_byte (v : Z) : Prop := 0 ≤ v < 256.
Definition is_group (g : Z) : Prop := 0 ≤ g < 65536.

Lemma ipv4_field v rest fields :
  is_byte v → (length fields < 3)%nat → rest ≠ "" →
  ipv4 (decimal v +:+ String (char 46) rest) fields 0 0 = ipv4 rest (fields ++ [v]) 0 0.
Proof.
  intros Hv Hf Hr. destruct (decimal_run v Hv) as [l Hl]. rewrite (ipv4_digits _ _ _ _ _ _ _ Hl).
  cbn [ipv4]. change (is_digit (char 46)) with false. change (dot (char 46)) with true. cbv iota.
  apply nonempty_true in Hr as ->. cbn. by destruct (Nat.eqb_spec (length fields) 3); [lia|].
Qed.

Lemma ipv4_last v fields : is_byte v → length fields = 3%nat → ipv4 (decimal v) fields 0 0 = Some (fields ++ [v]).
Proof.
  intros Hv Hf. destruct (decimal_run v Hv) as [l Hl]. rewrite <-(append_nil_r (decimal v)).
  rewrite (ipv4_digits _ _ _ _ _ _ _ Hl). cbn [ipv4]. by rewrite Hf.
Qed.

Lemma v4_text_parses bytes : Forall is_byte bytes → length bytes = 4%nat → ipv4 (v4_text bytes) [] 0 0 = Some bytes.
Proof.
  intros Hb Hl. destruct bytes as [|a [|b [|c [|d [|]]]]]; try done.
  rewrite !Forall_cons in Hb. destruct Hb as (Ha & Hb & Hc & Hd & _). unfold v4_text. cbn [fmap list_fmap Join].
  rewrite !ipv4_field by (done || (cbn; lia) || (intros H; pose proof (decimal_nonempty b); pose proof (decimal_nonempty c); pose proof (decimal_nonempty d);
    destruct (decimal b), (decimal c), (decimal d); done)).
  by rewrite ipv4_last.
Qed.

Definition stops (s : string) : Prop := match s with EmptyString => True | String c _ => hex_digit c = None end.

Lemma hex_digit_char d : 0 ≤ d < 16 → hex_digit (hex_char d) = Some d.
Proof.
  intros Hd. apply (bool_decide_eq_true_1 _). revert d Hd.
  apply (upto 16 (λ d, bool_decide (hex_digit (hex_char d) = Some d))). vm_compute. reflexivity.
Qed.

Lemma hex_group_stop s len acc : stops s → hex_group s len acc = Some (len, acc, s).
Proof. destruct s as [|c s]; cbn; [done|]. by intros ->. Qed.

Lemma hex_group_text g rest :
  is_group g → stops rest → ∃ l, hex_group (hex_text g +:+ rest) 0 0 = Some (S l, g, rest).
Proof.
  intros Hg Hr. unfold is_group, hex_text in *. cbv zeta.
  assert (Hd : ∀ i, hex_digit (hex_char (g / 16 ^ i mod 16)) = Some (g / 16 ^ i mod 16)).
  { intros i. apply hex_digit_char, Z.mod_pos_bound. lia. }
  repeat match goal with |- context [if ?a <? ?b then _ else _] => destruct (Z.ltb_spec a b) end.
  all: rewrite !append_cons, append_nil_l; cbn [hex_group]; rewrite !Hd; cbn [Nat.ltb Nat.leb];
    rewrite !hex_group_stop by done.
  all: eexists; do 2 f_equal; f_equal.
  all: change (16 ^ 0) with 1; change (16 ^ 1) with 16; change (16 ^ 2) with 256; change (16 ^ 3) with 4096.
  all: Z.to_euclidean_division_equations; lia.
Qed.

Lemma hex_text_nonempty g : hex_text g ≠ "".
Proof. unfold hex_text. cbv zeta. repeat case_match; done. Qed.

Lemma colons_cons g gs : gs ≠ [] → colons (g :: gs) = hex_text g +:+ String (char 58) (colons gs).
Proof. by destruct gs. Qed.

Lemma hex_starts g : ∃ c s, hex_text g = String c s ∧ colon c = false ∧ dot c = false ∧ is_Some (hex_digit c).
Proof.
  assert (Hd : ∀ i, ∃ c, hex_char (g / 16 ^ i mod 16) = c ∧ colon c = false ∧ dot c = false ∧ is_Some (hex_digit c)).
  { intros i. eexists. split; [done|]. pose proof (Z.mod_pos_bound (g / 16 ^ i) 16 ltac:(lia)) as Hd.
    rewrite hex_digit_char by done. revert Hd. generalize (g / 16 ^ i mod 16). intros d Hd.
    assert (Hall : negb (colon (hex_char d)) && negb (dot (hex_char d)) = true).
    { revert d Hd. apply (upto 16). vm_compute. reflexivity. }
    apply andb_prop in Hall as [H1 H2]. rewrite !negb_true_iff in *. eauto. }
  destruct (Hd 0) as (c0 & E0 & H0), (Hd 1) as (c1 & E1 & H1), (Hd 2) as (c2 & E2 & H2), (Hd 3) as (c3 & E3 & H3).
  unfold hex_text. cbv zeta. rewrite E0, E1, E2, E3. repeat case_match; eauto.
Qed.

Lemma colons_starts gs : gs ≠ [] → Forall is_group gs → ∃ c s, colons gs = String c s ∧ colon c = false.
Proof.
  intros Hne Hg. destruct gs as [|g gs]; [done|]. apply Forall_cons in Hg as [Hg _].
  destruct (hex_starts g) as (c & s & Hs & Hc & _). destruct gs.
  - exists c, s. by cbn.
  - rewrite colons_cons, Hs by done. rewrite append_cons. eauto.
Qed.

(** One group of the text, followed by a single colon. *)
Lemma ipv6_group n acc ell g rest c s :
  is_group g → rest = String c s → colon c = false →
  ipv6 (S n) acc ell (hex_text g +:+ String (char 58) rest) = ipv6 n (acc ++ [g]) ell rest.
Proof.
  intros Hg -> Hc. destruct (hex_group_text g (String (char 58) (String c s)) Hg eq_refl) as [l Hl].
  cbn [ipv6]. rewrite Hl. change (dot (char 58)) with false. change (colon (char 58)) with true. cbn [negb].
  by rewrite Hc.
Qed.

Lemma ipv6_final n acc ell g : is_group g → ipv6 (S n) acc ell (hex_text g) = ipv6_end (acc ++ [g]) ell "".
Proof.
  intros Hg. destruct (hex_group_text g "" Hg I) as [l Hl]. rewrite append_nil_r in Hl. cbn [ipv6]. by rewrite Hl.
Qed.

Lemma ipv6_tail gs n acc ell :
  gs ≠ [] → Forall is_group gs → (length gs ≤ n)%nat →
  ipv6 n acc ell (colons gs) = ipv6_end (acc ++ gs) ell "".
Proof.
  revert n acc. induction gs as [|g gs IH]; intros n acc Hne Hg Hn; [done|].
  apply Forall_cons in Hg as [Hg Hgs]. destruct n as [|n]; [cbn in Hn; lia|].
  destruct (decide (gs = [])) as [->|Hgs'].
  - by apply ipv6_final.
  - destruct (colons_starts gs Hgs' Hgs) as (c & s & Hs & Hc). rewrite colons_cons by done.
    rewrite (ipv6_group _ _ _ _ _ c s) by done. rewrite IH by (done || (cbn in Hn; lia)).
    by rewrite <-app_assoc.
Qed.

(** The groups before an ellipsis. *)
Lemma ipv6_head gs n acc rest :
  gs ≠ [] → Forall is_group gs → (length gs ≤ n)%nat →
  ipv6 n acc None (colons gs +:+ "::" +:+ rest) =
    let e := Some (length (acc ++ gs)) in
    if nonempty rest then ipv6 (n - length gs) (acc ++ gs) e rest else ipv6_end (acc ++ gs) e "".
Proof.
  revert n acc. induction gs as [|g gs IH]; intros n acc Hne Hg Hn; [done|].
  apply Forall_cons in Hg as [Hg Hgs]. destruct n as [|n]; [cbn in Hn; lia|].
  destruct (decide (gs = [])) as [->|Hgs'].
  - change (colons [g]) with (hex_text g).
    destruct (hex_group_text g ("::" +:+ rest) Hg eq_refl) as [l Hl].
    cbn [ipv6 length]. rewrite Hl. rewrite !append_cons, append_nil_l. cbn. rewrite length_app, Nat.sub_0_r. done.
  - destruct (colons_starts gs Hgs' Hgs) as (c & s & Hs & Hc). rewrite colons_cons by done.
    rewrite append_assoc, append_cons.
    rewrite (ipv6_group _ _ _ _ _ c (s +:+ "::" +:+ rest)) by (done || by rewrite Hs).
    rewrite IH by (done || (cbn in Hn; lia)). cbv zeta. rewrite <-!app_assoc. done.
Qed.

Fixpoint patterns (n : nat) : list (list bool) :=
  match n with O => [[]] | S n => patterns n ≫= λ p, [true :: p; false :: p] end.

Lemma patterns_all zs : zs ∈ patterns (length zs).
Proof.
  induction zs as [|z zs IH]; cbn [length patterns]; [set_solver|].
  apply list_elem_of_bind. exists zs. split; [destruct z; set_solver|done].
Qed.

Definition run_ok (zs : list bool) : bool :=
  let '(a, b) := zero_run zs 0 (0%nat, 0%nat) in
  implb (a <? b)%nat ((b <=? 8)%nat && forallb id (take (b - a) (drop a zs))).

Lemma zero_run_zeros gs a b :
  length gs = 8%nat → zero_run ((λ g, g =? 0) <$> gs) 0 (0%nat, 0%nat) = (a, b) → (a < b)%nat →
  (b ≤ 8)%nat ∧ gs = take a gs ++ replicate (b - a) 0 ++ drop b gs.
Proof.
  intros Hl Hr Hab.
  assert (Hall : forallb run_ok (patterns 8) = true) by (vm_compute; reflexivity).
  rewrite forallb_forall in Hall.
  assert (Hok : run_ok ((λ g, g =? 0) <$> gs) = true).
  { apply Hall, list_elem_of_In. rewrite <-Hl, <-(length_fmap (λ g, g =? 0) gs). apply patterns_all. }
  unfold run_ok in Hok. rewrite Hr in Hok. apply Nat.ltb_lt in Hab as Hab'. rewrite Hab' in Hok. cbn in Hok.
  apply andb_prop in Hok as [Hb%Nat.leb_le Hz]. split; [done|].
  rewrite <-fmap_drop, <-fmap_take in Hz.
  assert (Hrep : take (b - a) (drop a gs) = replicate (b - a) 0).
  { symmetry. apply replicate_as_Forall. rewrite length_take, length_drop. split; [lia|].
    rewrite forallb_forall in Hz. apply Forall_forall. intros g Hg. symmetry. apply Z.eqb_eq, Hz.
    apply list_elem_of_In, list_elem_of_fmap. by exists g. }
  rewrite <-Hrep, <-(take_drop a gs) at 1. f_equal.
  rewrite <-(take_drop (b - a) (drop a gs)) at 1. f_equal. rewrite drop_drop. f_equal. lia.
Qed.

(** The characters of a printed address. *)
Definition v4_char (c : Ascii.ascii) : bool := is_digit c || dot c.
Definition v6_char (c : Ascii.ascii) : bool := is_digit c || within 97 102 c || colon c.

Lemma every_Join P sep l :
  P sep = true → Forall (λ s, every P s = true) l → every P (Join sep l) = true.
Proof.
  intros Hs. induction 1 as [|p l Hp Hl IH]; [done|]. destruct l as [|q l]; [done|].
  change (Join sep (p :: q :: l)) with (p +:+ String sep (Join sep (q :: l))).
  rewrite every_app, Hp. change (P sep && every P (Join sep (q :: l)) = true). by rewrite Hs, IH.
Qed.

Lemma hex_char_v6 g i : v6_char (hex_char (g / 16 ^ i mod 16)) = true.
Proof.
  pose proof (Z.mod_pos_bound (g / 16 ^ i) 16 ltac:(lia)) as Hd. revert Hd.
  generalize (g / 16 ^ i mod 16). apply (upto 16). vm_compute. reflexivity.
Qed.

Lemma colons_chars gs : every v6_char (colons gs) = true.
Proof.
  apply every_Join; [done|]. apply Forall_forall. intros s (g & -> & _)%list_elem_of_fmap.
  unfold hex_text. cbv zeta. repeat case_match; cbn [every]; by rewrite !hex_char_v6.
Qed.

Lemma v6_text_chars gs : every v6_char (v6_text gs) = true.
Proof.
  unfold v6_text. destruct (zero_run _ _ _) as [a b]. destruct (a <? b)%nat; [|apply colons_chars].
  by rewrite !every_app, !colons_chars.
Qed.

Lemma v4_text_chars bytes : Forall is_byte bytes → every v4_char (v4_text bytes) = true.
Proof.
  intros Hb. apply every_Join; [done|]. apply Forall_forall. intros s (v & -> & Hv)%list_elem_of_fmap.
  rewrite Forall_forall in Hb. apply (every_impl is_digit); [by_bytes|]. apply decimal_digits. by apply Hb.
Qed.

Lemma dispatch_v6 whole s : every v6_char s = true → contains colon s = true → dispatch whole s = parseIPv6 whole.
Proof.
  induction s as [|c s IH]; [done|]. cbn. intros [Hc Hs]%andb_prop. unfold contains. cbn.
  assert (dot c = false ∧ percent c = false) as [-> ->].
  { assert (Hn : negb (dot c) && negb (percent c) = true) by (revert c Hc; by_bytes).
    apply andb_prop in Hn as [H1 H2]. by rewrite !negb_true_iff in *. }
  destruct (colon c); cbn; [done|]. intros Hcol. by apply IH.
Qed.

Lemma dispatch_v4 whole s : every v4_char s = true → contains dot s = true → dispatch whole s = parseIPv4 whole.
Proof.
  induction s as [|c s IH]; [done|]. cbn. intros [Hc Hs]%andb_prop. unfold contains. cbn.
  destruct (dot c); cbn; [done|]. intros Hdot.
  assert (colon c = false ∧ percent c = false) as [-> ->].
  { assert (Hn : negb (colon c) && negb (percent c) = true) by (revert c Hc; by_bytes).
    apply andb_prop in Hn as [H1 H2]. by rewrite !negb_true_iff in *. }
  by apply IH.
Qed.

Lemma contains_app_r sep a c b : sep c = true → contains sep (a +:+ String c b) = true.
Proof.
  intros Hc. unfold contains. rewrite every_app. cbn. rewrite Hc. cbn. by rewrite andb_false_r.
Qed.

Lemma strip_colons gs rest : Forall is_group gs → gs ≠ [] → strip_prefix "::" (colons gs +:+ rest) = None.
Proof.
  intros Hg Hne. destruct (colons_starts gs Hne Hg) as (c & s & -> & Hc). rewrite append_cons. cbn.
  rewrite decide_False; [done|]. by intros <-.
Qed.

Lemma colons_nonempty gs : gs ≠ [] → Forall is_group gs → nonempty (colons gs) = true.
Proof. intros Hne Hg. apply nonempty_true. destruct (colons_starts gs Hne Hg) as (c & s & -> & _). done. Qed.

Lemma ipv6_end_gap gs a b :
  length gs = 8%nat → (a < b)%nat → (b ≤ 8)%nat → gs = take a gs ++ replicate (b - a) 0 ++ drop b gs →
  ipv6_end (take a gs ++ drop b gs) (Some a) "" = Some gs.
Proof.
  intros Hl Hab Hb Hgs. unfold ipv6_end. cbn [nonempty].
  assert (Hlen : length (take a gs ++ drop b gs) = (8 - (b - a))%nat) by (rewrite length_app, length_take, length_drop; lia).
  rewrite Hlen. destruct (Nat.ltb_spec (8 - (b - a)) 8); [|lia].
  assert (Ha : a = length (take a gs)) by (rewrite length_take; lia).
  rewrite take_app_length', drop_app_length' by done. 
  assert ((8 - (8 - (b - a)) = b - a)%nat) as -> by lia. by rewrite <-Hgs.
Qed.

Lemma v6_text_parses gs : length gs = 8%nat → Forall is_group gs → parseIPv6 (v6_text gs) = Some (V6 gs "").
Proof.
  intros Hl Hg. unfold parseIPv6. rewrite cut_miss; last first.
  { apply (every_impl v6_char); [by_bytes|]. apply v6_text_chars. }
  unfold v6_text. destruct (zero_run _ _ _) as [a b] eqn:Hr. destruct (Nat.ltb_spec a b) as [Hab|Hab].
  - destruct (zero_run_zeros gs a b Hl Hr Hab) as [Hb Hgs]. pose proof (ipv6_end_gap gs a b Hl Hab Hb Hgs) as Hend.
    pose proof (length_take gs a) as Hla. rewrite Nat.min_l in Hla by lia. pose proof (length_drop gs b) as Hlb.
    pose proof (Forall_take _ a _ Hg) as Hga. pose proof (Forall_drop _ b _ Hg) as Hgb.
    destruct (decide (take a gs = [])) as [Ha|Ha].
    + rewrite Ha in *. cbn in Hla. subst a. change (colons []) with "". rewrite append_nil_l, strip_prefix_app.
      rewrite app_nil_l in Hend. destruct (decide (drop b gs = [])) as [Hd|Hd].
      * rewrite Hd in *. cbn in Hend. change (nonempty (colons [])) with false. cbv iota. by injection Hend as <-.
      * rewrite colons_nonempty, ipv6_tail by (done || lia). by rewrite app_nil_l, Hend.
    + rewrite strip_colons, ipv6_head by (done || lia). cbv zeta. rewrite app_nil_l, Hla.
      destruct (decide (drop b gs = [])) as [Hd|Hd].
      * rewrite Hd, app_nil_r in *. change (nonempty (colons [])) with false. cbv iota. by rewrite Hend.
      * by rewrite colons_nonempty, ipv6_tail, Hend by (done || lia).
  - assert (Hne : gs ≠ []) by (by intros ->). rewrite <-(append_nil_r (colons gs)), strip_colons by done.
    rewrite append_nil_r, ipv6_tail by (done || lia). rewrite app_nil_l. unfold ipv6_end. by rewrite Hl.
Qed.

Lemma v6_text_colon gs : length gs = 8%nat → contains colon (v6_text gs) = true.
Proof.
  intros Hl. unfold v6_text. destruct (zero_run _ _ _) as [a b]. destruct (a <? b)%nat.
  - by apply contains_app_r.
  - destruct gs as [|g [|h gs]]; [done..|]. rewrite colons_cons by done. by apply contains_app_r.
Qed.

Lemma v4_text_dot bytes : length bytes = 4%nat → contains dot (v4_text bytes) = true.
Proof. destruct bytes as [|a [|b bytes]]; [done..|]. intros _. by apply (contains_app_r dot (decimal a)). Qed.

(** An address as [ParseAddr] makes them. *)
Definition addr_ok (a : Addr) : Prop :=
  match a with
  | V4 bytes => length bytes = 4%nat ∧ Forall is_byte bytes
  | V6 gs _ => length gs = 8%nat ∧ Forall is_group gs
  end.

(** An address without a zone, printed and read again, is the same address. *)
Lemma ParseAddr_String a :
  addr_ok a → Unmap a = a → match a with V6 _ zone => zone = "" | V4 _ => True end →
  ParseAddr (Addr_String a) = Some a.
Proof.
  destruct a as [bytes|gs zone]; cbn [addr_ok Unmap Addr_String]; intros [Hl Hok] Hu Hz.
  - unfold ParseAddr. rewrite dispatch_v4 by (by apply v4_text_chars || by apply v4_text_dot).
    unfold parseIPv4. by rewrite v4_text_parses.
  - subst zone. destruct (Is4In6 gs); [done|]. change (nonempty "") with false. cbv iota.
    rewrite append_nil_r. unfold ParseAddr.
    rewrite dispatch_v6 by (apply v6_text_chars || by apply v6_text_colon). by apply v6_text_parses.
Qed.

Lemma ipv4_ok s fields len v bytes :
  (length fields ≤ 3)%nat → Forall is_byte fields → is_byte v → ipv4 s fields len v = Some bytes →
  length bytes = 4%nat ∧ Forall is_byte bytes.
Proof.
  revert fields len v. induction s as [|c s IH]; intros fields len v Hl Hf Hv; cbn [ipv4].
  - destruct (length fields =? 3)%nat eqn:E; [|done]. apply Nat.eqb_eq in E. destruct (negb _); [|done].
    intros [= <-]. rewrite length_app, E. split; [done|]. apply Forall_app. split; [done|by constructor].
  - destruct (is_digit c) eqn:Hc.
    + destruct (_ && _); [done|]. cbv zeta. destruct (Z.ltb_spec 255 (v * 10 + (code c - 48))); [done|].
      apply IH; [done..|]. unfold is_digit, within in Hc. apply andb_prop in Hc as [?%Z.leb_le _].
      unfold is_byte in *. lia.
    + destruct (dot c); [|done]. destruct (length fields =? 3)%nat eqn:E; [by rewrite orb_true_r|].
      apply Nat.eqb_neq in E. destruct (_ || _ || _); [done|]. apply IH.
      * rewrite length_app. cbn. lia.
      * apply Forall_app. split; [done|by constructor].
      * done.
Qed.

Lemma hex_digit_bound c d : hex_digit c = Some d → 0 ≤ d < 16.
Proof.
  unfold hex_digit, is_digit, within. intros H.
  repeat match type of H with context [if ?b then _ else _] => destruct b eqn:? end; simplify_eq.
  all: match goal with H : (_ <=? _) && (_ <=? _) = true |- _ => apply andb_prop in H as [?%Z.leb_le ?%Z.leb_le] end; lia.
Qed.

Lemma hex_group_bound s len acc l g rest :
  (len ≤ 4)%nat → 0 ≤ acc < 16 ^ Z.of_nat len → hex_group s len acc = Some (l, g, rest) → is_group g.
Proof.
  assert (Hdone : ∀ len acc, (len ≤ 4)%nat → 0 ≤ acc < 16 ^ Z.of_nat len → is_group acc).
  { intros len' acc' Hlen' Hacc'. unfold is_group. pose proof (Z.pow_le_mono_r 16 (Z.of_nat len') 4 ltac:(lia) ltac:(lia)).
    change (16 ^ 4) with 65536 in *. lia. }
  revert len acc. induction s as [|c s IH]; intros len acc Hlen Hacc; cbn [hex_group].
  - intros [= <- <- <-]. by eapply Hdone.
  - destruct (hex_digit c) as [d|] eqn:Hd; [|intros [= <- <- <-]; by eapply Hdone].
    destruct (Nat.ltb_spec 3 len); [done|]. apply IH; [lia|]. apply hex_digit_bound in Hd.
    rewrite Nat2Z.inj_succ, Z.pow_succ_r by lia. lia.
Qed.

Lemma ipv6_end_ok gs ell s r :
  (length gs ≤ 8)%nat → Forall is_group gs → ipv6_end gs ell s = Some r → length r = 8%nat ∧ Forall is_group r.
Proof.
  intros Hl Hg. unfold ipv6_end. destruct (nonempty s); [done|]. destruct (Nat.ltb_spec (length gs) 8).
  - destruct ell as [e|]; [|done]. intros [= <-].
    rewrite !length_app, length_replicate, length_take, length_drop. split; [lia|].
    rewrite !Forall_app. split_and!; [by apply Forall_take|apply Forall_replicate; unfold is_group; lia|by apply Forall_drop].
  - destruct ell; [done|]. intros [= <-]. split; [lia|done].
Qed.

Lemma ipv6_ok n gs ell s r :
  (length gs + n = 8)%nat → Forall is_group gs → ipv6 n gs ell s = Some r → length r = 8%nat ∧ Forall is_group r.
Proof.
  revert gs ell s. induction n as [|n IH]; intros gs ell s Hl Hg; cbn [ipv6].
  { apply ipv6_end_ok; [lia|done]. }
  destruct (hex_group s 0 0) as [[[[|l] g] rest]|] eqn:Hh; [done| |done].
  assert (Hgr : is_group g) by (eapply (hex_group_bound s 0 0); [lia|cbn; lia|done]).
  assert (Hgs : Forall is_group (gs ++ [g])) by (apply Forall_app; split; [done|by constructor]).
  assert (Hlen : length (gs ++ [g]) = (length gs + 1)%nat) by (by rewrite length_app).
  destruct rest as [|c rest']; [apply ipv6_end_ok; [lia|done]|].
  destruct (dot c).
  - destruct (_ || _) eqn:Hfit; [done|]. apply orb_false_iff in Hfit as [_ Hfit%Nat.ltb_ge].
    destruct (ipv4 s [] 0 0) as [bytes|] eqn:Hb; [|done].
    apply ipv4_ok in Hb as [_ Hb]; [|cbn; lia|by constructor|done].
    destruct bytes as [|b1 [|b2 [|b3 [|b4 [|]]]]]; try done. rewrite !Forall_cons in Hb.
    apply ipv6_end_ok; [rewrite length_app; cbn; lia|]. apply Forall_app. split; [done|].
    unfold is_byte, is_group in *. repeat constructor; lia.
  - destruct (colon c); [|done]. cbn [negb]. destruct rest' as [|d rest'']; [done|]. destruct (colon d).
    + destruct ell; [done|]. destruct (nonempty rest'').
      * apply IH; [lia|done].
      * apply ipv6_end_ok; [lia|done].
    + apply IH; [lia|done].
Qed.

Lemma parseIPv6_ok s a : parseIPv6 s = Some a → addr_ok a.
Proof.
  unfold parseIPv6. intros H.
  assert (Hgo : ∀ s zone a,
    match match strip_prefix "::" s with
          | Some s => if nonempty s then ipv6 8 [] (Some 0%nat) s else Some (replicate 8 0)
          | None => ipv6 8 [] None s
          end with Some gs => Some (V6 gs zone) | None => None end = Some a → addr_ok a).
  { intros s' zone a' Ha. match type of Ha with match ?x with _ => _ end = _ => destruct x as [gs|] eqn:Hs end; [|done].
    injection Ha as <-. cbn. destruct (strip_prefix "::" s') as [t|]; [destruct (nonempty t)|].
    - exact (ipv6_ok 8 [] _ _ _ eq_refl (Forall_nil_2 _) Hs).
    - injection Hs as <-. split; [done|]. unfold is_group. repeat constructor; lia.
    - exact (ipv6_ok 8 [] _ _ _ eq_refl (Forall_nil_2 _) Hs). }
  destruct (cut percent s) as [[t zone]|]; [destruct (nonempty zone); [|done]|]; by eapply Hgo.
Qed.

(** Every address read is well formed. *)
Lemma ParseAddr_ok s a : ParseAddr s = Some a → addr_ok a.
Proof.
  unfold ParseAddr. generalize s at 1 as whole. intros whole.
  induction s as [|c s IH]; cbn [dispatch]; [done|]. destruct (dot c).
  - unfold parseIPv4. destruct (ipv4 whole [] 0 0) as [bytes|] eqn:Hb; [|done]. intros [= <-].
    eapply ipv4_ok; [| | |exact Hb]; [cbn; lia|constructor|unfold is_byte; lia].
  - destruct (colon c); [apply parseIPv6_ok|]. by destruct (percent c).
Qed.

Lemma Unmap_ok a : addr_ok a → addr_ok (Unmap a) ∧ Unmap (Unmap a) = Unmap a.
Proof.
  destruct a as [bytes|gs zone]; cbn; [done|]. intros [Hl Hg]. destruct (Is4In6 gs) eqn:E; cbn; [|by rewrite E].
  split; [|done]. unfold low_bytes. destruct gs as [|g1 [|g2 [|g3 [|g4 [|g5 [|g6 [|g7 [|g8 [|]]]]]]]]]; try done.
  cbn. split; [done|]. rewrite !Forall_cons in Hg. unfold is_group, is_byte in *. destruct Hg as (_ & _ & _ & _ & _ & _ & H7 & H8 & _).
  rewrite !Forall_cons. repeat split; try constructor; Z.to_euclidean_division_equations; lia.
Qed.

(** ** IPv4 texts are canonical *)
Definition prefix_text (len : nat) (v : Z) : string := if (len =? 0)%nat then "" else decimal v.

Lemma decimal_snoc v d : 0 < v → 0 ≤ d < 10 → v * 10 + d < 256 → decimal (v * 10 + d) = decimal v +:+ String (char (48 + d)) "".
Proof.
  intros Hv Hd Hb.
  assert (Hall : forallb (λ n, let z := Z.of_nat n in implb (10 <=? z)
    (bool_decide (decimal z = decimal (z / 10) +:+ String (char (48 + z mod 10)) ""))) (seq 0 256) = true)
    by (vm_compute; reflexivity).
  pose proof (upto 256 (λ z, implb (10 <=? z) (bool_decide (decimal z = decimal (z / 10) +:+ String (char (48 + z mod 10)) "")))
    Hall (v * 10 + d) ltac:(lia)) as H. cbv beta in H.
  destruct (Z.leb_spec 10 (v * 10 + d)); [|lia]. cbn [implb] in H. apply bool_decide_eq_true_1 in H. rewrite H.
  assert ((v * 10 + d) / 10 = v ∧ (v * 10 + d) mod 10 = d) as [-> ->]; [|done].
  split; Z.to_euclidean_division_equations; lia.
Qed.

Lemma decimal_digit d : 0 ≤ d < 10 → decimal d = String (char (48 + d)) "".
Proof.
  intros Hd. apply (bool_decide_eq_true_1 _). revert d Hd.
  apply (upto 10 (λ d, bool_decide (decimal d = String (char (48 + d)) ""))). vm_compute. reflexivity.
Qed.

Lemma is_digit_char c : is_digit c = true → ∃ d, 0 ≤ d < 10 ∧ code c - 48 = d ∧ c = char (48 + d).
Proof.
  unfold is_digit, within. intros [?%Z.leb_le ?%Z.leb_le]%andb_prop. exists (code c - 48). split_and!; [lia..|].
  symmetry. apply char_eq. lia.
Qed.

Lemma v4_text_cons w ws : ws ≠ [] → v4_text (w :: ws) = decimal w +:+ String (char 46) (v4_text ws).
Proof. by destruct ws. Qed.

Lemma ipv4_canonical s fields len v bytes :
  0 ≤ v < 256 → (len = 0%nat → v = 0) → (v = 0 → (len ≤ 1)%nat) → ipv4 s fields len v = Some bytes →
  ∃ w ws, bytes = fields ++ w :: ws ∧ prefix_text len v +:+ s = v4_text (w :: ws).
Proof.
  revert fields len v. induction s as [|c s IH]; intros fields len v Hv Hz H1; cbn [ipv4].
  - destruct (_ =? 3)%nat; [|done]. destruct (Nat.eqb_spec len 0); [done|]. intros [= <-]. exists v, []. split; [done|].
    unfold prefix_text. destruct (Nat.eqb_spec len 0); [done|]. by rewrite append_nil_r.
  - destruct (is_digit c) eqn:Hc.
    + apply is_digit_char in Hc as (d & Hd & Hcd & ->). destruct ((len =? 1)%nat && (v =? 0)) eqn:Hlead; [done|].
      rewrite Hcd. cbv zeta. destruct (Z.ltb_spec 255 (v * 10 + d)) as [|Hle]; [done|]. intros H.
      assert (Hpre : prefix_text len v +:+ String (char (48 + d)) "" = decimal (v * 10 + d)).
      { unfold prefix_text. destruct (Nat.eqb_spec len 0) as [->|Hlen].
        - rewrite (Hz eq_refl), append_nil_l. by rewrite decimal_digit by lia.
        - rewrite decimal_snoc; [done| |lia|lia]. destruct (decide (v = 0)) as [E|]; [|lia].
          specialize (H1 E). assert (len = 1%nat) as -> by lia. by rewrite E in Hlead. }
      apply IH in H as (w & ws & -> & Ht); [|lia|done|].
      * exists w, ws. split; [done|]. rewrite <-Ht. unfold prefix_text at 2. cbn [Nat.eqb]. rewrite <-Hpre.
        by rewrite append_assoc, append_cons, append_nil_l.
      * intros Hv0. assert (v = 0 ∧ d = 0) as [-> ->] by lia. destruct (Nat.eqb_spec len 1); [done|]. specialize (H1 eq_refl). lia.
    + destruct (dot c) eqn:Hdot; [|done]. destruct (Nat.eqb_spec len 0) as [|Hlen]; [done|]. cbn [orb].
      destruct (_ || _); [done|]. intros H. apply IH in H as (w & ws & -> & Ht); [|lia|done|lia].
      exists v, (w :: ws). rewrite <-app_assoc. split; [done|]. rewrite v4_text_cons by done. rewrite <-Ht.
      unfold prefix_text. cbn [Nat.eqb]. destruct (Nat.eqb_spec len 0); [done|]. rewrite append_nil_l.
      assert (c = char 46) as -> by (unfold dot, byte_is in Hdot; apply Z.eqb_eq in Hdot; symmetry; by apply char_eq). done.
Qed.

Lemma parseIPv4_canonical s a : parseIPv4 s = Some a → Addr_String a = s.
Proof.
  unfold parseIPv4. destruct (ipv4 s [] 0 0) as [bytes|] eqn:H; [|done]. intros [= <-].
  apply ipv4_canonical in H as (w & ws & -> & Ht); [|lia|done|lia]. cbn [Addr_String]. rewrite app_nil_l, <-Ht. done.
Qed.

(** A text without colons and percent signs can only be an IPv4 address. *)
Lemma ParseAddr_plain s a :
  contains colon s = false → contains percent s = false → ParseAddr s = Some a → Unmap a = a ∧ Addr_String a = s.
Proof.
  intros Hc Hp. unfold ParseAddr.
  assert (Hd : ∀ t, contains colon t = false → contains percent t = false → dispatch s t = Some a → parseIPv4 s = Some a).
  { induction t as [|c t IH]; [done|]. rewrite !contains_false. cbn. intros [H1 Ht1]%andb_prop [H2 Ht2]%andb_prop.
    rewrite !negb_true_iff in *. rewrite H1, H2. destruct (dot c); [done|]. apply IH; by apply contains_false. }
  intros H%Hd; [|done..]. split; [|by apply parseIPv4_canonical].
  unfold parseIPv4 in H. destruct (ipv4 _ _ _ _); [|done]. by injection H as <-.
Qed.
