(* ===== verification/NetURL.v ===== *)
(** Go's [net/url]: percent-encoding, URLs and query strings. The theorem of the
    file is that a URL made of well-formed parts, rendered and parsed, is the same
    URL. *)
From S2P Require Import Prelude Text NetIP.

#[local] Open Scope Z_scope.

(** ** Percent-encoding *)
Inductive encoding :=
| encodePath | encodeHost | encodeZone | encodeUserPassword | encodeQueryComponent | encodeFragment.

Definition shouldEscape (c : Ascii.ascii) (mode : encoding) : bool :=
  if is_alnum c then false
  else if match mode with encodeHost | encodeZone => one_of "!$&'()*+,;=:[]<>" c || byte_is 34 c | _ => false end
  then false
  else if one_of "-_.~" c then false
  else if one_of "$&+,/:;=?@" c && negb (match mode with encodeHost | encodeZone => true | _ => false end) then
    match mode with
    | encodePath => byte_is 63 c
    | encodeUserPassword => one_of "@/?:" c
    | encodeQueryComponent => true
    | _ => false
    end
  else negb (match mode with encodeFragment => one_of "!()*" c | _ => false end).

Definition upper_hex (d : Z) : Ascii.ascii := if d <? 10 then char (48 + d) else char (55 + d).

Definition escape_byte (mode : encoding) (c : Ascii.ascii) : string :=
  if byte_is 32 c && match mode with encodeQueryComponent => true | _ => false end then "+"
  else if shouldEscape c mode then
    String (char 37) (String (upper_hex (code c / 16)) (String (upper_hex (code c mod 16)) ""))
  else String c "".

Fixpoint escape (mode : encoding) (s : string) : string :=
  match s with EmptyString => "" | String c s => escape_byte mode c +:+ escape mode s end.

(** A "%xy" is refused in a host unless it stands for a byte outside ASCII or is
    "%25"; in a zone it may also be a blank or any character a host may hold. *)
Definition triplet_ok (mode : encoding) (v : Z) : bool :=
  match mode with
  | encodeHost => negb (v <? 128) || (v =? 37)
  | encodeZone => (v =? 37) || (v =? 32) || negb (shouldEscape (char v) encodeHost)
  | _ => true
  end.

Definition plain_ok (mode : encoding) (c : Ascii.ascii) : bool :=
  match mode with
  | encodeHost | encodeZone => negb ((code c <? 128) && shouldEscape c mode)
  | _ => true
  end.

Fixpoint unescape (mode : encoding) (s : string) : option string :=
  match s with
  | EmptyString => Some ""
  | String c s1 =>
    if byte_is 37 c then
      match s1 with
      | String h (String l s2) =>
        match hex_digit h, hex_digit l with
        | Some h, Some l =>
          if triplet_ok mode (h * 16 + l) then
            match unescape mode s2 with Some r => Some (String (char (h * 16 + l)) r) | None => None end
          else None
        | _, _ => None
        end
      | _ => None
      end
    else if byte_is 43 c && match mode with encodeQueryComponent => true | _ => false end then
      match unescape mode s1 with Some r => Some (String (char 32) r) | None => None end
    else if plain_ok mode c || byte_is 43 c then
      match unescape mode s1 with Some r => Some (String c r) | None => None end
    else None
  end.

Definition QueryEscape : string → string := escape encodeQueryComponent.
Definition QueryUnescape : string → option string := unescape encodeQueryComponent.

(** ** URLs *)
Record Userinfo := mkUserinfo { ui_username : string; ui_password : string; ui_passwordSet : bool }.

Record URL := mkURL {
  u_Scheme : string;
  u_Opaque : string;
  u_User : option Userinfo;
  u_Host : string;
  u_Path : string;
  u_RawPath : string;
  u_OmitHost : bool;
  u_ForceQuery : bool;
  u_RawQuery : string;
  u_Fragment : string;
  u_RawFragment : string
}.

Definition User (username : string) : Userinfo := mkUserinfo username "" false.
Definition UserPassword (username password : string) : Userinfo := mkUserinfo username password true.

Definition Userinfo_String (u : Userinfo) : string :=
  if nonempty (ui_username u) || ui_passwordSet u then
    escape encodeUserPassword (ui_username u) +:+
      (if ui_passwordSet u then ":" +:+ escape encodeUserPassword (ui_password u) else "")
  else "".

(** [getScheme]: [None] for a colon that comes first; otherwise the scheme, which
    may be empty, and what follows it. *)
Fixpoint scheme_loop (whole s : string) (i : nat) (taken : string → string) : option (string * string) :=
  match s with
  | EmptyString => Some ("", whole)
  | String c s =>
    if is_alpha c then scheme_loop whole s (S i) (λ r, taken (String c r))
    else if is_digit c || one_of "+-." c then
      if (i =? 0)%nat then Some ("", whole) else scheme_loop whole s (S i) (λ r, taken (String c r))
    else if colon c then if (i =? 0)%nat then None else Some (taken "", s)
    else Some ("", whole)
  end.
Definition getScheme (s : string) : option (string * string) := scheme_loop s s 0 id.

Definition user_char (c : Ascii.ascii) : bool := is_alnum c || one_of "-._:~!$&'()*+,;=%@" c.
Definition validUserinfo : string → bool := every user_char.

(** [validOptionalPort]: empty, or a colon and digits. *)
Definition validOptionalPort (s : string) : bool :=
  match s with EmptyString => true | String c s => colon c && every is_digit s end.

Definition open_bracket := byte_is 91.
Definition close_bracket := byte_is 93.

(** [parseHost]. Only http and https look for the first colon of a host. *)
Definition parseHost (scheme host : string) : option string :=
  match cut_last open_bracket host with
  | Some (before, inside) =>
    if nonempty before then None
    else match cut_last close_bracket inside with
         | None => None
         | Some (hostname, colonPort) =>
           if negb (validOptionalPort colonPort) then None
           else match unescape encodeHost colonPort with
                | None => None
                | Some port =>
                  let name :=
                    match find_sub "%25" hostname with
                    | Some (address, zone) =>
                      match unescape encodeHost address, unescape encodeZone ("%25" +:+ zone) with
                      | Some a, Some z => Some (a +:+ z)
                      | _, _ => None
                      end
                    | None => unescape encodeHost hostname
                    end in
                  match name with
                  | None => None
                  | Some name =>
                    match ParseAddr name with
                    | Some (V6 _ _) => Some ("[" +:+ name +:+ "]" +:+ port)
                    | _ => None
                    end
                  end
                end
         end
  | None =>
    let strict := bool_decide (scheme = "http") || bool_decide (scheme = "https") in
    match (if strict then cut colon host else cut_last colon host) with
    | Some (_, port) => if validOptionalPort (":" +:+ port) then unescape encodeHost host else None
    | None => unescape encodeHost host
    end
  end.

Definition parseAuthority (scheme authority : string) : option (option Userinfo * string) :=
  match cut_last (byte_is 64) authority with
  | None => match parseHost scheme authority with Some h => Some (None, h) | None => None end
  | Some (userinfo, host) =>
    match parseHost scheme host with
    | None => None
    | Some h =>
      if negb (validUserinfo userinfo) then None
      else match cut colon userinfo with
           | None =>
             match unescape encodeUserPassword userinfo with
             | Some name => Some (Some (User name), h)
             | None => None
             end
           | Some (name, password) =>
             match unescape encodeUserPassword name, unescape encodeUserPassword password with
             | Some name, Some password => Some (Some (UserPassword name password), h)
             | _, _ => None
             end
           end
    end
  end.

(** [setPath] and [setFragment]: the decoded text, and the encoded one when it is
    not the default encoding. *)
Definition setPath (p : string) : option (string * string) :=
  match unescape encodePath p with
  | Some path => Some (path, if decide (escape encodePath path = p) then "" else p)
  | None => None
  end.
Definition setFragment (f : string) : option (string * string) :=
  match unescape encodeFragment f with
  | Some frag => Some (frag, if decide (escape encodeFragment frag = f) then "" else f)
  | None => None
  end.

Definition valid_encoded_char (mode : encoding) (c : Ascii.ascii) : bool :=
  one_of "!$&'()*+,;=:@[]%" c || negb (shouldEscape c mode).

Definition escaped (mode : encoding) (raw plain : string) : string :=
  if nonempty raw && every (valid_encoded_char mode) raw && bool_decide (unescape mode raw = Some plain)
  then raw else if decide (plain = "*") then "*" else escape mode plain.
Definition EscapedPath (u : URL) : string := escaped encodePath (u_RawPath u) (u_Path u).
Definition EscapedFragment (u : URL) : string :=
  let raw := u_RawFragment u in
  if nonempty raw && every (valid_encoded_char encodeFragment) raw && bool_decide (unescape encodeFragment raw = Some (u_Fragment u))
  then raw else escape encodeFragment (u_Fragment u).

Definition control (c : Ascii.ascii) : bool := (code c <? 32) || (code c =? 127).

Definition slash := byte_is 47.
Definition question := byte_is 63.

Definition has_prefix (p s : string) : bool := match strip_prefix p s with Some _ => true | None => false end.

(** The query is cut at the first question mark; a single one at the end is only
    remembered. *)
Definition cut_query (rest : string) : string * string * bool :=
  match cut question rest with
  | Some (path, query) => (path, query, negb (nonempty query))
  | None => (rest, "", false)
  end.

(** [parse(rawURL, false)]: everything but the fragment. *)
Definition parse_reference (raw : string) : option URL :=
  if negb (every (λ c, negb (control c)) raw) then None
  else if decide (raw = "*") then Some (mkURL "" "" None "" "*" "" false false "" "" "")
  else match getScheme raw with
  | None => None
  | Some (scheme, rest) =>
    let scheme := toLower scheme in
    let '(rest, query, force) := cut_query rest in
    if negb (has_prefix "/" rest) && nonempty scheme then
      Some (mkURL scheme rest None "" "" "" false force query "" "")
    else if negb (has_prefix "/" rest) && contains colon (Cut slash rest).1 then None
    else
      let authority_path :=
        match strip_prefix "//" rest with
        | Some s =>
          if nonempty scheme || negb (has_prefix "///" rest) then
            let '(authority, path) := match cut slash s with Some (a, p) => (a, "/" +:+ p) | None => (s, "") end in
            match parseAuthority scheme authority with
            | Some (user, host) => Some (user, host, path, false)
            | None => None
            end
          else Some (None, "", rest, nonempty scheme && has_prefix "/" rest)
        | None => Some (None, "", rest, nonempty scheme && has_prefix "/" rest)
        end in
      match authority_path with
      | None => None
      | Some (user, host, path, omit) =>
        match setPath path with
        | Some (path, raw_path) => Some (mkURL scheme "" user host path raw_path omit force query "" "")
        | None => None
        end
      end
  end.

Definition with_fragment (f : string * string) (u : URL) : URL :=
  mkURL (u_Scheme u) (u_Opaque u) (u_User u) (u_Host u) (u_Path u) (u_RawPath u) (u_OmitHost u) (u_ForceQuery u)
    (u_RawQuery u) f.1 f.2.

Definition Parse (raw : string) : option URL :=
  let '(u, frag) := Cut (byte_is 35) raw in
  match parse_reference u with
  | None => None
  | Some url =>
    if nonempty frag then match setFragment frag with Some f => Some (with_fragment f url) | None => None end
    else Some url
  end.

(** [Hostname] and [Port]. *)
Definition splitHostPort (hostPort : string) : string * string :=
  let '(host, port) :=
    match cut_last colon hostPort with
    | Some (h, p) => if every is_digit p then (h, p) else (hostPort, "")
    | None => (hostPort, "")
    end in
  match strip_prefix "[" host with
  | Some s => match cut_last close_bracket s with
              | Some (inside, EmptyString) => (inside, port)
              | _ => (host, port)
              end
  | None => (host, port)
  end.
Definition Hostname (u : URL) : string := (splitHostPort (u_Host u)).1.
Definition Port (u : URL) : string := (splitHostPort (u_Host u)).2.

(** [net.JoinHostPort]. *)
Definition JoinHostPort (host port : string) : string :=
  if contains colon host then "[" +:+ host +:+ "]:" +:+ port else host +:+ ":" +:+ port.

(** [URL.String]. *)
Definition URL_String (u : URL) : string :=
  let scheme := if nonempty (u_Scheme u) then u_Scheme u +:+ ":" else "" in
  let body :=
    if nonempty (u_Opaque u) then u_Opaque u
    else
      let user := match u_User u with Some _ => true | None => false end in
      let authority :=
        if (nonempty (u_Scheme u) || nonempty (u_Host u) || user)
             && negb (u_OmitHost u && negb (nonempty (u_Host u)) && negb user) then
          (if nonempty (u_Host u) || nonempty (u_Path u) || user then "//" else "") +:+
            (match u_User u with Some ui => Userinfo_String ui +:+ "@" | None => "" end) +:+
            escape encodeHost (u_Host u)
        else "" in
      let path := EscapedPath u in
      let slash := if nonempty path && negb (has_prefix "/" path) && nonempty (u_Host u) then "/" else "" in
      let dot :=
        if nonempty (scheme +:+ authority +:+ slash) then ""
        else if contains colon (Cut (byte_is 47) path).1 then "./" else "" in
      authority +:+ slash +:+ dot +:+ path in
  let query := if u_ForceQuery u || nonempty (u_RawQuery u) then "?" +:+ u_RawQuery u else "" in
  let fragment := if nonempty (u_Fragment u) then "#" +:+ EscapedFragment u else "" in
  scheme +:+ body +:+ query +:+ fragment.

(** ** Queries *)
Notation Values := (gmap string (list string)).

Definition Values_Get (v : Values) (k : string) : list string := default [] (v !! k).
Definition Values_Set (v : Values) (k x : string) : Values := <[k := [x]]> v.

Definition add_pair (v : Values) (pair : string) : Values :=
  if contains (byte_is 59) pair || negb (nonempty pair) then v
  else
    let '(k, x) := Cut (byte_is 61) pair in
    match QueryUnescape k, QueryUnescape x with
    | Some k, Some x => <[k := Values_Get v k ++ [x]]> v
    | _, _ => v
    end.

(** [URL.Query]: pairs that do not parse are left out. *)
Definition ParseQuery (query : string) : Values := foldl add_pair ∅ (Split (byte_is 38) query).
Definition Query (u : URL) : Values := ParseQuery (u_RawQuery u).

Definition sorted_keys (v : Values) : list string := merge_sort String.le (elements (dom v)).

Definition encode_pair (k x : string) : string := QueryEscape k +:+ "=" +:+ QueryEscape x.
Definition Values_Encode (v : Values) : string :=
  Join (char 38) (sorted_keys v ≫= λ k, encode_pair k <$> Values_Get v k).

Definition shown (raw : string) : option (string * string * string * Values * string) :=
  match Parse raw with
  | Some u => Some (Hostname u, Port u, EscapedPath u, Query u, u_Fragment u)
  | None => None
  end.

Example parsed :
  shown "HTTP://user:p%40ss@[2001:db8::1]:8080/a%2Fb/c?x=1&y=a+b%21&x=2&z;=3#na%20me"
    = Some ("2001:db8::1", "8080", "/a%2Fb/c", {["x" := ["1"; "2"]; "y" := ["a b!"]]}, "na me").
Proof. vm_compute. reflexivity. Qed.

Example not_parsed :
  Parse <$> [":x"; "http://a b/"; "http://[::1"; "http://[1.2.3.4]/"; "http://h:80a/"; "http://h/%zz"; "http://us er@h/"; "http://a:1:2/"]
    = replicate 8 None.
Proof. vm_compute. reflexivity. Qed.

Example printed :
  (λ u, URL_String <$> Parse u) <$> ["trojan://p%3Aw@h:443?a=b#x%20y"; "http://h/a b"; "http://u:@h"; "mailto:me"; "//h/p"]
    = [Some "trojan://p%3Aw@h:443?a=b#x%20y"; Some "http://h/a%20b"; Some "http://u:@h"; Some "mailto:me"; Some "//h/p"].
Proof. vm_compute. reflexivity. Qed.

(** ** Rendering and parsing *)
Definition hosts (mode : encoding) : bool := match mode with encodeHost | encodeZone => true | _ => false end.

Lemma escape_every (P : Ascii.ascii → bool) mode s :
  forallb (λ c, every P (escape_byte mode c)) all_bytes = true → every P (escape mode s) = true.
Proof.
  intros HP. induction s as [|c s IH]; cbn [escape]; [done|]. rewrite every_app, IH, andb_true_r.
  exact (byte_check _ HP c).
Qed.

Lemma upper_hex_digit d : 0 ≤ d < 16 → hex_digit (upper_hex d) = Some d.
Proof.
  intros Hd. apply (bool_decide_eq_true_1 _). revert d Hd.
  apply (upto 16 (λ d, bool_decide (hex_digit (upper_hex d) = Some d))). vm_compute. reflexivity.
Qed.

(** A byte left as it is is neither a percent sign nor a plus read as a blank. *)
Lemma plain_byte mode c :
  hosts mode = false → shouldEscape c mode = false →
  byte_is 37 c = false ∧ byte_is 43 c && match mode with encodeQueryComponent => true | _ => false end = false ∧
  plain_ok mode c = true.
Proof.
  intros Hm Hc.
  assert (Hall : forallb (λ c, implb (negb (shouldEscape c mode))
    (negb (byte_is 37 c) && negb (byte_is 43 c && match mode with encodeQueryComponent => true | _ => false end)
       && plain_ok mode c)) all_bytes = true).
  { by destruct mode; vm_compute. }
  pose proof (byte_check _ Hall c) as H. cbv beta in H. rewrite Hc in H. cbn [negb implb] in H.
  apply andb_prop in H as [[H1 H2]%andb_prop H3]. by rewrite !negb_true_iff in *.
Qed.

Lemma unescape_byte mode c r :
  hosts mode = false →
  unescape mode (escape_byte mode c +:+ r) = match unescape mode r with Some t => Some (String c t) | None => None end.
Proof.
  intros Hm. unfold escape_byte. destruct (byte_is 32 c && _) eqn:Hsp.
  - apply andb_prop in Hsp as [Hc Hq]. rewrite append_cons, append_nil_l. cbn [unescape].
    destruct mode; try done. assert (c = char 32) as ->.
    { unfold byte_is in Hc. apply Z.eqb_eq in Hc. symmetry. by apply char_eq. }
    reflexivity.
  - destruct (shouldEscape c mode) eqn:Hc.
    + rewrite !append_cons, append_nil_l. pose proof (code_bound c). cbn [unescape].
      change (byte_is 37 (char 37)) with true. cbv iota.
      rewrite !upper_hex_digit by (Z.to_euclidean_division_equations; lia).
      assert (code c / 16 * 16 + code c mod 16 = code c) as -> by (Z.to_euclidean_division_equations; lia).
      rewrite char_code. by destruct mode.
    + rewrite append_cons, append_nil_l. cbn [unescape]. destruct (plain_byte mode c Hm Hc) as (-> & -> & ->). done.
Qed.

Lemma unescape_escape mode s : hosts mode = false → unescape mode (escape mode s) = Some s.
Proof.
  intros Hm. induction s as [|c s IH]; cbn [escape]; [done|]. by rewrite unescape_byte, IH.
Qed.

(** A text of host characters is its own encoding. *)
Definition plain_host : string → bool := every (λ c, negb (shouldEscape c encodeHost)).

Lemma plain_host_escape s : plain_host s = true → escape encodeHost s = s.
Proof.
  induction s as [|c s IH]; cbn [escape]; [done|]. cbn. intros [Hc Hs]%andb_prop. apply negb_true_iff in Hc.
  rewrite (IH Hs). unfold escape_byte. rewrite Hc. by rewrite andb_false_r.
Qed.

Lemma plain_host_unescape s : plain_host s = true → unescape encodeHost s = Some s.
Proof.
  induction s as [|c s IH]; [done|]. cbn. intros [Hc Hs]%andb_prop.
  assert (byte_is 37 c = false ∧ plain_ok encodeHost c = true) as [-> Hp].
  { assert (Hn : negb (byte_is 37 c) && plain_ok encodeHost c = true) by (revert c Hc; by_bytes).
    apply andb_prop in Hn as [H1 H2]. by rewrite negb_true_iff in H1. }
  rewrite andb_false_r, (IH Hs). cbn in Hp. by rewrite Hp.
Qed.

Definition scheme_char (c : Ascii.ascii) : bool := is_alnum c || one_of "+-." c.
Definition scheme_ok (s : string) : Prop :=
  match s with String c _ => is_alpha c = true | EmptyString => False end ∧ every scheme_char s = true ∧ toLower s = s.

Lemma scheme_loop_ok whole s rest i taken :
  every scheme_char s = true → (i = 0%nat → match s with String c _ => is_alpha c = true | EmptyString => False end) →
  scheme_loop whole (s +:+ ":" +:+ rest) i taken = Some (taken s, rest).
Proof.
  revert i taken. induction s as [|c s IH]; intros i taken Hs Hi.
  - rewrite append_nil_l, append_cons, append_nil_l. cbn. destruct i; [by destruct Hi|done].
  - rewrite append_cons. cbn [scheme_loop]. cbn in Hs. apply andb_prop in Hs as [Hc Hs].
    destruct (is_alpha c) eqn:Ha.
    + by rewrite IH.
    + assert (is_digit c || one_of "+-." c = true) as ->.
      { unfold scheme_char, is_alnum in Hc. by rewrite Ha in Hc. }
      destruct i; [by specialize (Hi eq_refl)|]. by rewrite IH.
Qed.

Lemma getScheme_ok s rest : scheme_ok s → getScheme (s +:+ ":" +:+ rest) = Some (s, rest).
Proof. intros (Hc & Hs & _). by apply (scheme_loop_ok _ s rest 0 id). Qed.

Definition user_ok (u : option Userinfo) : Prop :=
  match u with
  | Some ui => (ui_username ui ≠ "" ∨ ui_passwordSet ui = true) ∧ (ui_passwordSet ui = false → ui_password ui = "")
  | None => True
  end.

Definition query_char (c : Ascii.ascii) : bool := negb (control c) && negb (byte_is 35 c).

(** A URL with an authority, none of whose parts keeps a non-default encoding. *)
Record url_ok (u : URL) : Prop := mkUrlOk {
  uo_scheme : scheme_ok (u_Scheme u);
  uo_opaque : u_Opaque u = "";
  uo_raw : u_RawPath u = "" ∧ u_RawFragment u = "";
  uo_flags : u_OmitHost u = false ∧ u_ForceQuery u = false;
  uo_user : user_ok (u_User u);
  uo_host : u_Host u ≠ "" ∧ plain_host (u_Host u) = true ∧ parseHost (u_Scheme u) (u_Host u) = Some (u_Host u);
  uo_path : u_Path u = "" ∨ ∃ p, u_Path u = String (char 47) p;
  uo_query : every query_char (u_RawQuery u) = true
}.

Definition user_text (u : option Userinfo) : string :=
  match u with Some ui => Userinfo_String ui +:+ "@" | None => "" end.

Lemma Userinfo_String_valid ui : validUserinfo (Userinfo_String ui) = true.
Proof.
  assert (He : ∀ s, validUserinfo (escape encodeUserPassword s) = true).
  { intros s. apply escape_every. vm_compute. reflexivity. }
  unfold Userinfo_String. destruct (_ || _); [|done]. destruct (ui_passwordSet ui).
  - unfold validUserinfo in *. by rewrite !every_app, !He.
  - by rewrite append_nil_r, He.
Qed.

Lemma parseAuthority_ok scheme user host :
  user_ok user → plain_host host = true → parseHost scheme host = Some host →
  parseAuthority scheme (user_text user +:+ host) = Some (user, host).
Proof.
  intros Hu Hh Hp. unfold parseAuthority.
  assert (Hat : every (λ c, negb (byte_is 64 c)) host = true) by (revert Hh; apply every_impl; by_bytes).
  destruct user as [ui|]; cbn [user_text].
  - rewrite append_assoc, append_cons, append_nil_l, cut_last_hit by done. rewrite Hp, Userinfo_String_valid.
    destruct ui as [name password set], Hu as [Hne Hpw]. cbn [ui_username ui_password ui_passwordSet negb] in *.
    unfold Userinfo_String. cbn [ui_username ui_password ui_passwordSet].
    assert (Hcol : every (λ c, negb (colon c)) (escape encodeUserPassword name) = true).
    { apply escape_every. vm_compute. reflexivity. }
    destruct set.
    + rewrite orb_true_r, append_cons, append_nil_l, cut_hit by done. by rewrite !unescape_escape.
    + destruct Hne as [Hne|]; [|done]. apply nonempty_true in Hne as ->. cbn [orb].
      rewrite append_nil_r, cut_miss, unescape_escape by done. by rewrite Hpw.
  - by rewrite append_nil_l, cut_last_miss, Hp.
Qed.

Lemma setPath_escape p : setPath (escape encodePath p) = Some (p, "").
Proof. unfold setPath. rewrite unescape_escape by done. by rewrite decide_True. Qed.

Lemma setFragment_escape f : setFragment (escape encodeFragment f) = Some (f, "").
Proof. unfold setFragment. rewrite unescape_escape by done. by rewrite decide_True. Qed.

Lemma path_text u : u_RawPath u = "" → (u_Path u = "" ∨ ∃ p, u_Path u = String (char 47) p) →
  EscapedPath u = escape encodePath (u_Path u) ∧
  (EscapedPath u = "" ∧ u_Path u = "" ∨ ∃ p, EscapedPath u = String (char 47) p).
Proof.
  intros Hr Hp. unfold EscapedPath, escaped. rewrite Hr. cbn [nonempty andb].
  change (nonempty "" && _ && _) with false. cbv iota. rewrite decide_False by (by destruct Hp as [->|[p ->]]).
  split; [done|]. destruct Hp as [->|[p ->]]; [by left|right]. by exists (escape encodePath p).
Qed.

(** The text of a well-formed URL, part by part. *)
Definition url_text (u : URL) : string :=
  u_Scheme u +:+ ":" +:+ "//" +:+ (user_text (u_User u) +:+ u_Host u) +:+ escape encodePath (u_Path u)
    +:+ (if nonempty (u_RawQuery u) then "?" +:+ u_RawQuery u else "").
Definition fragment_text (f : string) : string := if nonempty f then "#" +:+ escape encodeFragment f else "".

Lemma URL_String_ok u : url_ok u → URL_String u = url_text u +:+ fragment_text (u_Fragment u).
Proof.
  intros [Hs Ho [Hrp Hrf] [Hom Hf] _ (Hh & Hph & _) Hp _].
  destruct (path_text u Hrp Hp) as [Hpt Hcase].
  assert (Hsn : nonempty (u_Scheme u) = true).
  { apply nonempty_true. destruct Hs as [Hs _]. by destruct (u_Scheme u). }
  apply nonempty_true in Hh as Hhn.
  unfold URL_String. rewrite Ho, Hom, Hf, Hsn, Hhn. change (nonempty "") with false. cbn [orb andb negb].
  rewrite (plain_host_escape _ Hph).
  assert (Hslash : nonempty (EscapedPath u) && negb (has_prefix "/" (EscapedPath u)) && true = false).
  { by destruct Hcase as [[-> _]|[p ->]]. }
  rewrite Hslash, append_nil_r.
  assert (Hdot : nonempty ((u_Scheme u +:+ ":") +:+ "//" +:+ user_text (u_User u) +:+ u_Host u) = true).
  { apply nonempty_true. destruct Hs as [Hs _]. by destruct (u_Scheme u). }
  unfold user_text in Hdot at 1. rewrite Hdot, append_nil_l, append_nil_l.
  unfold EscapedFragment, url_text, fragment_text. rewrite Hrf, Hpt. change (nonempty "") with false. cbn [andb].
  unfold user_text. by rewrite !append_assoc.
Qed.

(** Neither the authority nor the path holds a character of class [P]. *)
Lemma every_url_text (P : Ascii.ascii → bool) u :
  url_ok u →
  forallb (λ c, implb (scheme_char c || negb (shouldEscape c encodeHost) || user_char c || slash c) (P c)) all_bytes = true →
  forallb (λ c, every P (escape_byte encodePath c)) all_bytes = true →
  every P (u_Scheme u +:+ ":" +:+ "//" +:+ (user_text (u_User u) +:+ u_Host u) +:+ escape encodePath (u_Path u)) = true.
Proof.
  intros Hu HP Hpath.
  assert (Hc : ∀ c, scheme_char c || negb (shouldEscape c encodeHost) || user_char c || slash c = true → P c = true).
  { intros c Hc. pose proof (byte_check _ HP c) as H. cbv beta in H. by rewrite Hc in H. }
  assert (Hin : ∀ (Q : Ascii.ascii → bool) s, every Q s = true →
    (∀ c, Q c = true → scheme_char c || negb (shouldEscape c encodeHost) || user_char c || slash c = true) → every P s = true).
  { intros Q s Hs HQ. apply (every_impl Q); [|done]. auto. }
  assert (Hut : every P (user_text (u_User u)) = true).
  { destruct (u_User u) as [ui|]; cbn [user_text]; [|done]. rewrite every_app.
    rewrite (Hin user_char) by (apply Userinfo_String_valid || by_bytes). cbn. by rewrite Hc. }
  rewrite !every_app, Hut, (escape_every _ _ _ Hpath).
  rewrite (Hin scheme_char (u_Scheme u)) by (apply (uo_scheme u Hu) || by_bytes).
  rewrite (Hin (λ c, negb (shouldEscape c encodeHost)) (u_Host u)) by (apply (uo_host u Hu) || by_bytes).
  cbn. by rewrite !Hc.
Qed.

Lemma every_query (P : Ascii.ascii → bool) q :
  every query_char q = true → P (char 63) = true → (∀ c, query_char c = true → P c = true) →
  every P (if nonempty q then "?" +:+ q else "") = true.
Proof.
  intros Hq H63 HP. destruct (nonempty q); [|done]. rewrite every_app. apply andb_true_intro. split.
  - change (P (char 63) && true = true). by rewrite H63.
  - by apply (every_impl query_char).
Qed.

Lemma cut_query_ok rest q :
  every (λ c, negb (question c)) rest = true →
  cut_query (rest +:+ (if nonempty q then "?" +:+ q else "")) = (rest, q, false).
Proof.
  intros Hr. unfold cut_query. destruct (nonempty q) eqn:Hq.
  - rewrite append_cons, append_nil_l, cut_hit by done. by rewrite Hq.
  - rewrite append_nil_r, cut_miss by done. destruct q; done.
Qed.

Lemma has_prefix_app p s : has_prefix p (p +:+ s) = true.
Proof. unfold has_prefix. by rewrite strip_prefix_app. Qed.

Lemma cut_authority u auth :
  every (λ c, negb (slash c)) auth = true → (u_Path u = "" ∨ ∃ p, u_Path u = String (char 47) p) →
  match cut slash (auth +:+ escape encodePath (u_Path u)) with
  | Some (a, p) => (a, "/" +:+ p)
  | None => (auth +:+ escape encodePath (u_Path u), "")
  end = (auth, escape encodePath (u_Path u)).
Proof.
  intros Ha [->|[p ->]]; cbn [escape].
  - by rewrite append_nil_r, cut_miss.
  - change (escape_byte encodePath (char 47)) with "/". by rewrite append_cons, append_nil_l, cut_hit.
Qed.

Lemma parse_reference_ok u :
  url_ok u → parse_reference (url_text u) = Some (with_fragment ("", "") u).
Proof.
  intros Hu. pose proof (uo_scheme u Hu) as Hs. unfold parse_reference.
  assert (Hctl : every (λ c, negb (control c)) (url_text u) = true).
  { pose proof (every_url_text (λ c, negb (control c)) u Hu eq_refl eq_refl) as H.
    unfold url_text. rewrite !every_app in *. rewrite every_query; [|apply Hu|done|by_bytes].
    rewrite andb_true_r. exact H. }
  assert (Hq : every (λ c, negb (question c))
                 ("//" +:+ (user_text (u_User u) +:+ u_Host u) +:+ escape encodePath (u_Path u)) = true).
  { pose proof (every_url_text (λ c, negb (question c)) u Hu eq_refl eq_refl) as H.
    rewrite every_app in H. apply andb_prop in H as [_ H]. rewrite every_app in H. by apply andb_prop in H as [_ H]. }
  assert (Hsl : every (λ c, negb (slash c)) (user_text (u_User u) +:+ u_Host u) = true).
  { rewrite every_app. apply andb_true_intro. split.
    - destruct (u_User u) as [ui|]; [|done]. cbn [user_text]. rewrite every_app.
      rewrite (every_impl user_char); [done|by_bytes|apply Userinfo_String_valid].
    - apply (every_impl (λ c, negb (shouldEscape c encodeHost))); [by_bytes|apply (uo_host u Hu)]. }
  rewrite Hctl. cbn [negb]. rewrite decide_False; last first.
  { unfold url_text. destruct Hs as [Hs _]. destruct (u_Scheme u) as [|c s]; [done|]. rewrite append_cons.
    intros [= -> _]. done. }
  unfold url_text. rewrite getScheme_ok by done. destruct Hs as (Hsc & _ & Hlow). rewrite Hlow.
  assert (Hsn : nonempty (u_Scheme u) = true) by (apply nonempty_true; by destruct (u_Scheme u)).
  rewrite <-!append_assoc, (append_assoc "//"), cut_query_ok by (by rewrite !append_assoc in *).
  rewrite append_assoc. rewrite Hsn. cbn [negb andb orb].
  assert (Hpre : ∀ x, has_prefix "/" ("//" +:+ x) = true ∧ strip_prefix "//" ("//" +:+ x) = Some x) by done.
  destruct (Hpre ((user_text (u_User u) +:+ u_Host u) +:+ escape encodePath (u_Path u))) as [-> ->].
  cbn [negb andb]. rewrite cut_authority by (done || apply Hu).
  destruct (uo_host u Hu) as (_ & Hph & Hp). rewrite parseAuthority_ok by (done || apply Hu).
  rewrite setPath_escape. destruct (uo_flags u Hu) as [Ho Hf]. destruct (uo_raw u Hu) as [Hr _].
  pose proof (uo_opaque u Hu). destruct u; cbn in *; by subst.
Qed.

(** A URL of well-formed parts is read back from its text. *)
Lemma Parse_String u : url_ok u → Parse (URL_String u) = Some u.
Proof.
  intros Hu. rewrite URL_String_ok by done. unfold Parse, Cut.
  assert (Hh : every (λ c, negb (byte_is 35 c)) (url_text u) = true).
  { pose proof (every_url_text (λ c, negb (byte_is 35 c)) u Hu eq_refl eq_refl) as H.
    unfold url_text. rewrite !every_app in *. rewrite every_query; [|apply Hu|done|by_bytes].
    rewrite andb_true_r. exact H. }
  destruct (uo_raw u Hu) as [_ Hrf]. unfold fragment_text. destruct (nonempty (u_Fragment u)) eqn:Hf.
  - rewrite append_cons, append_nil_l, cut_hit by done. rewrite parse_reference_ok by done.
    assert (nonempty (escape encodeFragment (u_Fragment u)) = true) as ->.
    { apply nonempty_true. apply nonempty_true in Hf. destruct (u_Fragment u) as [|c f]; [done|]. cbn [escape].
      unfold escape_byte. by repeat case_match. }
    rewrite setFragment_escape. destruct u; cbn in *; by subst.
  - rewrite append_nil_r, cut_miss by done. rewrite parse_reference_ok by done. change (nonempty "") with false.
    cbv iota. f_equal. assert (u_Fragment u = "") by (by destruct (u_Fragment u)). destruct u; cbn in *; by subst.
Qed.

(** ** Encoding and parsing a query *)
Lemma Split_Join n l :
  byte_is n (char n) = true → l ≠ [] → Forall (λ s, every (λ c, negb (byte_is n c)) s = true) l →
  Split (byte_is n) (Join (char n) l) = l.
Proof.
  intros Hn.
  assert (Hone : ∀ s, every (λ c, negb (byte_is n c)) s = true → Split (byte_is n) s = [s]).
  { induction s as [|c s IH]; [done|]. cbn. intros [Hc Hs]%andb_prop. apply negb_true_iff in Hc. by rewrite Hc, IH. }
  assert (Happ : ∀ s t, every (λ c, negb (byte_is n c)) s = true →
    Split (byte_is n) (s +:+ String (char n) t) = s :: Split (byte_is n) t).
  { induction s as [|c s IH]; intros t Hs; [rewrite append_nil_l; cbn [Split]; by rewrite Hn|].
    cbn in Hs. apply andb_prop in Hs as [Hc Hs]. apply negb_true_iff in Hc.
    rewrite append_cons. cbn [Split]. by rewrite Hc, IH. }
  intros Hne Hl. induction l as [|s l IH]; [done|]. apply Forall_cons in Hl as [Hs Hl].
  destruct l as [|t l]; [by apply Hone|].
  change (Join (char n) (s :: t :: l)) with (s +:+ String (char n) (Join (char n) (t :: l))).
  by rewrite Happ, IH.
Qed.

Lemma Split_parts n s : Forall (λ p, every (λ c, negb (byte_is n c)) p = true) (Split (byte_is n) s).
Proof.
  induction s as [|c s IH]; [by repeat constructor|]. cbn [Split]. destruct (byte_is n c) eqn:Hc; [by constructor|].
  destruct (Split (byte_is n) s) as [|q ps]; [constructor; [cbn; by rewrite Hc|done]|].
  apply Forall_cons in IH as [Hq Hps]. constructor; [cbn; by rewrite Hc|done].
Qed.

Definition pair_char (c : Ascii.ascii) : bool := is_alnum c || one_of "-_.~%+" c.

Lemma QueryEscape_chars s : every pair_char (QueryEscape s) = true.
Proof. apply escape_every. vm_compute. reflexivity. Qed.

Lemma add_pair_encoded v k x : add_pair v (encode_pair k x) = <[k := Values_Get v k ++ [x]]> v.
Proof.
  unfold add_pair, encode_pair.
  assert (Hs : contains (byte_is 59) (QueryEscape k +:+ "=" +:+ QueryEscape x) = false).
  { apply contains_false. rewrite !every_app.
    assert (He : ∀ s, every (λ c, negb (byte_is 59 c)) (QueryEscape s) = true).
    { intros s. apply (every_impl pair_char); [by_bytes|apply QueryEscape_chars]. }
    by rewrite !He. }
  rewrite Hs.
  assert (nonempty (QueryEscape k +:+ "=" +:+ QueryEscape x) = true) as ->.
  { apply nonempty_true. by destruct (QueryEscape k). }
  cbn [orb negb]. unfold Cut. rewrite append_cons, append_nil_l, cut_hit; [|  |done]; last first.
  { apply (every_impl pair_char); [by_bytes|apply QueryEscape_chars]. }
  unfold QueryUnescape, QueryEscape. by rewrite !unescape_escape.
Qed.

(** Queries with one value per key, which is what [Set] builds. *)
Definition singles (v : Values) : Prop := map_Forall (λ _ l, length l = 1%nat) v.

Lemma foldl_add_pairs (f : string → string) ks v k' :
  NoDup ks → (∀ k, k ∈ ks → v !! k = None) →
  foldl add_pair v ((λ k, encode_pair k (f k)) <$> ks) !! k' = if decide (k' ∈ ks) then Some [f k'] else v !! k'.
Proof.
  revert v. induction ks as [|k ks IH]; intros v Hnd Hv; cbn [fmap list_fmap foldl].
  - by rewrite decide_False by set_solver.
  - apply NoDup_cons in Hnd as [Hk Hnd]. rewrite add_pair_encoded. unfold Values_Get. rewrite (Hv k) by set_solver.
    cbn [default app]. rewrite IH; [|done|].
    + destruct (decide (k' = k)) as [->|Hkk].
      * rewrite decide_False, decide_True by set_solver. by rewrite lookup_insert_eq.
      * rewrite lookup_insert_ne by done. destruct (decide (k' ∈ ks)); [rewrite decide_True by set_solver|rewrite decide_False by set_solver]; done.
    + intros k'' Hk''. rewrite lookup_insert_ne by (intros ->; done). apply Hv. set_solver.
Qed.

Lemma sorted_keys_spec v : NoDup (sorted_keys v) ∧ ∀ k, k ∈ sorted_keys v ↔ is_Some (v !! k).
Proof.
  unfold sorted_keys. rewrite merge_sort_Permutation. split; [apply NoDup_elements|].
  intros k. by rewrite merge_sort_Permutation, elem_of_elements, elem_of_dom.
Qed.

Lemma ParseQuery_Encode v : singles v → v ≠ ∅ → ParseQuery (Values_Encode v) = v.
Proof.
  intros Hs Hne. unfold ParseQuery, Values_Encode. destruct (sorted_keys_spec v) as [Hnd Hin].
  set (f := λ k, default "" (head (Values_Get v k))).
  assert (Hf : ∀ k, k ∈ sorted_keys v → v !! k = Some [f k]).
  { intros k [l Hl]%Hin. rewrite Hl. pose proof (Hs k l Hl) as H1. unfold f, Values_Get. rewrite Hl.
    destruct l as [|x [|]]; done. }
  assert (Hpairs : (sorted_keys v ≫= λ k, encode_pair k <$> Values_Get v k) = (λ k, encode_pair k (f k)) <$> sorted_keys v).
  { clear Hnd Hin. induction (sorted_keys v) as [|k ks IH]; [done|]. cbn. rewrite IH by set_solver.
    unfold Values_Get at 1. by rewrite (Hf k) by set_solver. }
  rewrite Hpairs. rewrite Split_Join; [|done|..].
  - apply map_eq. intros k. rewrite foldl_add_pairs by (done || intros; apply lookup_empty).
    destruct (decide (k ∈ sorted_keys v)) as [Hk|Hk]; [by rewrite (Hf k Hk)|].
    rewrite lookup_empty. destruct (v !! k) as [l|] eqn:Hl; [|done]. exfalso. apply Hk, Hin. by exists l.
  - destruct (map_choose v Hne) as (k & l & Hl). intros H%fmap_nil_inv.
    assert (k ∈ sorted_keys v) as Hk by (apply Hin; by exists l). rewrite H in Hk. set_solver.
  - apply Forall_forall. intros s (k & -> & _)%list_elem_of_fmap. unfold encode_pair. rewrite !every_app.
    assert (He : ∀ s, every (λ c, negb (byte_is 38 c)) (QueryEscape s) = true).
    { intros s. apply (every_impl pair_char); [by_bytes|apply QueryEscape_chars]. }
    by rewrite !He.
Qed.

Lemma ParseQuery_nil : ParseQuery (Values_Encode ∅) = ∅.
Proof. reflexivity. Qed.

Definition encoded_char (c : Ascii.ascii) : bool := pair_char c || byte_is 61 c || byte_is 38 c.

Lemma Values_Encode_chars v : every encoded_char (Values_Encode v) = true.
Proof.
  apply every_Join; [done|]. apply Forall_forall. intros s (k & Hs & _)%list_elem_of_bind.
  apply list_elem_of_fmap in Hs as (x & -> & _). unfold encode_pair. rewrite !every_app.
  assert (He : ∀ s, every encoded_char (QueryEscape s) = true).
  { intros s. apply (every_impl pair_char); [by_bytes|apply QueryEscape_chars]. }
  by rewrite !He.
Qed.
