(* ===== verification/NodeCodec.v ===== *)
(** Proxy links ([internal/nodecodec]): the permissive coercions of [coerce.go],
    the canonical options and the identity of [identity.go], and [spec.go], which
    reads a link into a [Spec] and renders it back.

    The decoder of internationalised host names (golang.org/x/net/idna), the JSON
    codec (sonic) and the digest are parameters. *)
From S2P Require Import Prelude Text NetIP NetURL.

#[local] Open Scope Z_scope.

(** ** Coercions ([coerce.go]) *)

(** A member of a decoded JSON object: a number is carried by its shortest
    decimal text, any other value by what [fmt.Sprint] shows of it. *)
Inductive JsonValue :=
| JsonNil
| JsonString (s : string)
| JsonNumber (shortest : string)
| JsonOther (printed : string).

Definition CoerceString (v : option JsonValue) : string :=
  match v with
  | None | Some JsonNil => ""
  | Some (JsonString s) => s
  | Some (JsonNumber s) => s
  | Some (JsonOther s) => s
  end.

Definition blank (c : Ascii.ascii) : bool := byte_is 13 c || byte_is 10 c || byte_is 32 c || byte_is 9 c.
Fixpoint drop_chars (P : Ascii.ascii → bool) (s : string) : string :=
  match s with EmptyString => "" | String c s => if P c then drop_chars P s else String c (drop_chars P s) end.

Definition first_some {A} (l : list (option A)) : option A := foldr (λ o r, match o with Some a => Some a | None => r end) None l.

Definition DecodeBase64Loose (value : string) : option string :=
  let value := drop_chars blank (TrimSpace value) in
  first_some ((λ e, b64_decode e value) <$> [StdEncoding; RawStdEncoding; URLEncoding; RawURLEncoding]).

Definition is_in (s : string) (l : list string) : bool := bool_decide (s ∈ l).

Definition Truthy (value : string) : bool := is_in (toLower (TrimSpace value)) ["1"; "true"; "yes"; "on"].

Definition DefaultString (value fallback : string) : string :=
  if nonempty (TrimSpace value) then value else fallback.

(** The first value that is not blank. *)
Fixpoint first_value (l : list string) : string :=
  match l with
  | [] => ""
  | v :: l => if nonempty (TrimSpace v) then TrimSpace v else first_value l
  end.

(** The values of the keys that spell [wanted], in the order of the keys. *)
Definition spelled (values : Values) (wanted : string) : list string :=
  filter (λ raw, EqualFold raw wanted = true) (sorted_keys values) ≫= Values_Get values.

Definition LookupOption (values : Values) (key : string) (aliases : list string) : string :=
  first_value ((key :: aliases) ≫= spelled values).

Definition insecure_keys : list string := ["insecure"; "allowInsecure"; "skip-cert-verify"; "skip_cert_verify"].

Definition TLSInsecureOverride (values : Values) : bool * bool :=
  let verdicts := filter (λ v, nonempty v = true) ((λ k, LookupOption values k []) <$> insecure_keys) in
  match verdicts with
  | value :: _ => (Truthy value, true)
  | [] => (false, false)
  end.

Definition BOM : string := String (char 239) (String (char 187) (String (char 191) "")).
Definition TrimPrefix (p s : string) : string := match strip_prefix p s with Some r => r | None => s end.
Definition TrimLink (raw : string) : string := TrimSpace (TrimPrefix BOM (TrimSpace raw)).

Definition NormalizeProtocol (value : string) : string :=
  let v := toLower (TrimSpace value) in
  if decide (v = "shadowsocks") then "ss"
  else if decide (v = "hy2") then "hysteria2"
  else if decide (v = "socks") then "socks5" else v.

Definition URIScheme (raw : string) : string :=
  match find_sub "://" (TrimLink raw) with
  | Some (scheme, _) => if nonempty scheme then NormalizeProtocol scheme else ""
  | None => ""
  end.

Definition TLSServerName (values : Values) : string :=
  LookupOption values "sni" ["peer"; "servername"; "server_name"].

Definition FirstOption (values : gmap string (list string)) (key : string) : string :=
  match values !! key with Some (v :: _) => v | _ => "" end.

(** ** Canonical options ([identity.go]) *)
Definition DefaultPort (protocol : string) : Z :=
  if decide (protocol = "http") then 80
  else if decide (protocol = "socks5") then 1080
  else if decide (protocol = "ss") then 8388 else 443.

Definition normalizeQueryKey (key : string) : string :=
  let key := toLower (TrimSpace key) in
  if is_in key ["allowinsecure"; "skip-cert-verify"; "skip_cert_verify"] then "insecure"
  else if is_in key ["peer"; "servername"; "server_name"] then "sni"
  else if is_in key ["servicename"; "service_name"; "grpc-service-name"] then "servicename"
  else if is_in key ["packetencoding"; "packet_encoding"] then "packetencoding"
  else if is_in key ["alterid"; "aid"] then "alterid"
  else if is_in key ["pluginopts"; "plugin_opts"] then "plugin-opts"
  else key.

Definition isCosmeticQueryKey (key : string) : bool := is_in key ["name"; "remark"; "remarks"; "ps"].

Fixpoint Compact (l : list string) : list string :=
  match l with
  | x :: (y :: _) as t => if decide (x = y) then Compact t else x :: Compact t
  | l => l
  end.
Definition sort_strings (l : list string) : list string := merge_sort String.le l.

Definition splitAndSort (value : string) : list string :=
  Compact (sort_strings ((λ p, toLower (TrimSpace p)) <$> Split (byte_is 44) value)).

Definition normalizeBool (value : string) : string := if Truthy value then "true" else "false".

Definition canonical_value (key value : string) : string :=
  let value := TrimSpace value in
  if decide (key = "insecure") then normalizeBool value
  else if is_in key ["type"; "security"; "encryption"; "network"; "flow"; "fp"; "packetencoding"] then toLower value
  else if decide (key = "alpn") then Join (char 44) (splitAndSort value) else value.

Definition setDefault (values : gmap string (list string)) (key value : string) : gmap string (list string) :=
  if nonempty (FirstOption values key) then values else <[key := [value]]> values.

(** The loop over the raw values. *)
Definition collect_key (acc : gmap string (list string)) (kl : string * list string) : gmap string (list string) :=
  let key := normalizeQueryKey kl.1 in
  if isCosmeticQueryKey key then acc
  else foldl (λ acc v, <[key := Values_Get acc key ++ [canonical_value key v]]> acc) acc kl.2.

Definition protocol_defaults (protocol : string) (o : gmap string (list string)) : gmap string (list string) :=
  if decide (protocol = "vless") then
    setDefault (setDefault (setDefault o "encryption" "none") "type" "tcp") "security" "none"
  else if decide (protocol = "vmess") then
    setDefault (setDefault (setDefault (setDefault o "encryption" "auto") "alterid" "0") "type" "tcp") "security" "none"
  else if decide (protocol = "trojan") then setDefault (setDefault o "type" "tcp") "security" "tls"
  else if is_in protocol ["hysteria2"; "anytls"] then setDefault o "security" "tls"
  else o.

Definition secured (o : gmap string (list string)) : bool := is_in (FirstOption o "security") ["tls"; "reality"].

Definition IdentityVersion : Z := 1.

(** The identity that is persisted; an empty map is left out of the JSON. *)
Record Identity := mkIdentity {
  id_Version : Z;
  id_Protocol : string;
  id_Server : string;
  id_Port : Z;
  id_Auth : option (gmap string string);
  id_Options : option (gmap string (list string))
}.
Record Result := mkResult { re_Identity : Identity; re_CanonicalJSON : string; re_Hash : string; re_EndpointKey : string }.

(** The libraries the codec calls: [idna.Lookup.ToASCII], the JSON object a payload
    decodes to, the canonical JSON of an identity and the digest in hexadecimal. *)
Class CodecLibraries := {
  idna_ToASCII : string → option string;
  json_Unmarshal : string → option (gmap string JsonValue);
  json_MarshalCanonical : Identity → option string;
  sha256_hex : string → string
}.

Definition finish `{!CodecLibraries} (i : Identity) : result Result :=
  let some {A} (m : option (gmap string A)) := match m with Some m => if bool_decide (dom m = ∅) then None else Some m | None => None end in
  let i := mkIdentity (id_Version i) (id_Protocol i) (id_Server i) (id_Port i) (some (id_Auth i)) (some (id_Options i)) in
  match json_MarshalCanonical i with
  | Some canonical =>
      Ok (mkResult i canonical ("v1:" +:+ sha256_hex canonical)
            (id_Protocol i +:+ "|" +:+ id_Server i +:+ "|" +:+ Itoa (id_Port i)))
  | None => Err "marshal identity"
  end.

Definition FallbackHash `{!CodecLibraries} (rawURI : string) : string := "raw-v1:" +:+ sha256_hex (TrimSpace rawURI).

(** ** Links ([spec.go]) *)
Record Auth := mkAuth { a_Username : string; a_Password : string; a_PasswordSet : bool; a_UUID : string }.
Record TLS := mkTLS {
  tls_Enabled : bool;
  tls_Security : string;
  tls_ServerName : string;
  tls_Insecure : bool;
  tls_InsecureStated : bool;
  tls_ALPN : list string;
  tls_Fingerprint : string;
  tls_PublicKey : string;
  tls_ShortID : string
}.
Record Transport := mkTransport { tr_Type : string; tr_Path : string; tr_Host : string; tr_ServiceName : string }.
Record Plugin := mkPlugin { pl_Name : string; pl_Options : string }.

Record Spec := mkSpec {
  sp_Protocol : string;
  sp_Server : string;
  sp_Port : Z;
  sp_Name : string;
  sp_Auth : Auth;
  sp_TLS : TLS;
  sp_Transport : Transport;
  sp_Plugin : Plugin;
  sp_AlterID : Z;
  sp_Cipher : string;
  sp_Flow : string;
  sp_PacketEncoding : string;
  sp_UpMbps : Z;
  sp_DownMbps : Z;
  sp_Obfs : string;
  sp_ObfsPassword : string;
  sp_Network : string;
  sp_canonicalAuth : gmap string string;
  sp_canonicalOptions : gmap string (list string)
}.

Definition no_auth : Auth := mkAuth "" "" false "".
Definition no_tls : TLS := mkTLS false "" "" false false [] "" "" "".
Definition no_transport : Transport := mkTransport "" "" "" "".
Definition no_plugin : Plugin := mkPlugin "" "".

#[global] Instance auth_eq_dec : EqDecision Auth.
Proof. solve_decision. Defined.
#[global] Instance tls_eq_dec : EqDecision TLS.
Proof. solve_decision. Defined.
#[global] Instance transport_eq_dec : EqDecision Transport.
Proof. solve_decision. Defined.
#[global] Instance plugin_eq_dec : EqDecision Plugin.
Proof. solve_decision. Defined.

Definition ParameterIsV2RayTransport (protocol : string) : bool := is_in protocol ["vless"; "vmess"; "trojan"].

Definition AuthString (a : Auth) : string :=
  if a_PasswordSet a then a_Username a +:+ ":" +:+ a_Password a else a_Username a.

Definition splitList (value : string) : list string :=
  filter (λ p, nonempty p = true) (TrimSpace <$> Split (byte_is 44) value).

Definition boolFlag (b : bool) : string := if b then "1" else "0".

(** [resolveFields] on a link of which protocol, server and the canonical parts
    are known; [authority] is its userinfo. *)
Definition resolveAuth (protocol : string) (authority : option Userinfo) (canonicalAuth : gmap string string) : Auth :=
  let uuid := if is_in protocol ["vmess"; "vless"] then default "" (canonicalAuth !! "username") else "" in
  match authority with
  | Some ui => mkAuth (ui_username ui) (if ui_passwordSet ui then ui_password ui else "") (ui_passwordSet ui) uuid
  | None => mkAuth "" "" false uuid
  end.

Definition resolveTLS (protocol server : string) (options values : gmap string (list string)) : TLS :=
  let '(insecure, stated) := TLSInsecureOverride values in
  let security := FirstOption options "security" in
  let name := TLSServerName values in
  mkTLS
    (is_in security ["tls"; "reality"] || is_in protocol ["trojan"; "hysteria2"; "anytls"])
    security
    (if is_in protocol ["hysteria2"; "anytls"] && negb (nonempty name) then server else name)
    insecure stated
    (splitList (LookupOption values "alpn" []))
    (LookupOption values "fp" []) (LookupOption values "pbk" []) (LookupOption values "sid" []).

Definition resolveTransport (protocol : string) (values : Values) : Transport :=
  if ParameterIsV2RayTransport protocol then
    let type := toLower (LookupOption values "type" ["network"]) in
    let path := LookupOption values "path" [] in
    mkTransport (if nonempty type then type else if nonempty path then "ws" else "tcp") path
      (LookupOption values "host" [])
      (LookupOption values "servicename" ["serviceName"; "service_name"; "grpc-service-name"])
  else no_transport.

Definition resolveFields (protocol server : string) (port : Z) (name : string) (canonicalAuth : gmap string string)
    (options : gmap string (list string)) (authority : option Userinfo) (values : Values) : Spec :=
  let on (ps : list string) (s : string) := if is_in protocol ps then s else "" in
  let number (ps : list string) (s : string) := if is_in protocol ps then (Atoi s).1 else 0 in
  mkSpec protocol server port name
    (resolveAuth protocol authority canonicalAuth)
    (resolveTLS protocol server options values)
    (resolveTransport protocol values)
    (mkPlugin (on ["ss"] (LookupOption values "plugin" [])) (on ["ss"] (LookupOption values "plugin-opts" ["plugin_opts"])))
    (number ["vmess"] (DefaultString (FirstOption options "alterid") "0"))
    (on ["vmess"; "vless"] (FirstOption options "encryption"))
    (on ["vless"] (LookupOption values "flow" []))
    (on ["vless"] (LookupOption values "packetencoding" ["packetEncoding"; "packet_encoding"]))
    (number ["hysteria2"] (LookupOption values "upMbps" ["up_mbps"]))
    (number ["hysteria2"] (LookupOption values "downMbps" ["down_mbps"]))
    (on ["hysteria2"] (LookupOption values "obfs" []))
    (on ["hysteria2"] (LookupOption values "obfs-password" ["obfsPassword"; "obfs_password"]))
    (on ["http"; "socks5"] (LookupOption values "network" []))
    canonicalAuth
    (if is_in protocol ["hysteria2"; "anytls"] then setDefault options "sni" server else options).

Definition with_path (path : string) (s : Spec) : Spec :=
  mkSpec (sp_Protocol s) (sp_Server s) (sp_Port s) (sp_Name s) (sp_Auth s) (sp_TLS s)
    (mkTransport (tr_Type (sp_Transport s)) path (tr_Host (sp_Transport s)) (tr_ServiceName (sp_Transport s)))
    (sp_Plugin s) (sp_AlterID s) (sp_Cipher s) (sp_Flow s) (sp_PacketEncoding s) (sp_UpMbps s) (sp_DownMbps s)
    (sp_Obfs s) (sp_ObfsPassword s) (sp_Network s) (sp_canonicalAuth s) (sp_canonicalOptions s).

Definition with_server_name (name : string) (s : Spec) : Spec :=
  let t := sp_TLS s in
  mkSpec (sp_Protocol s) (sp_Server s) (sp_Port s) (sp_Name s) (sp_Auth s)
    (mkTLS (tls_Enabled t) (tls_Security t) name (tls_Insecure t) (tls_InsecureStated t) (tls_ALPN t)
       (tls_Fingerprint t) (tls_PublicKey t) (tls_ShortID t))
    (sp_Transport s)
    (sp_Plugin s) (sp_AlterID s) (sp_Cipher s) (sp_Flow s) (sp_PacketEncoding s) (sp_UpMbps s) (sp_DownMbps s)
    (sp_Obfs s) (sp_ObfsPassword s) (sp_Network s) (sp_canonicalAuth s) (sp_canonicalOptions s).

Definition splitMethodPassword (value : string) : result (string * string) :=
  match cut colon value with
  | Some (m, p) => if nonempty m && nonempty p then Ok (m, p) else Err "shadowsocks userinfo must be method:password"
  | None => Err "shadowsocks userinfo must be method:password"
  end.

Definition decodeSSUserInfo (value : string) : result (string * string) :=
  match DecodeBase64Loose value with
  | Some decoded => splitMethodPassword decoded
  | None =>
    match QueryUnescape value with
    | Some decoded => splitMethodPassword decoded
    | None => Err "invalid URL escape"
    end
  end.

(** A port of a link: nothing, or a number from 1 to 65535. *)
Definition parsePort (value : string) : option Z :=
  let '(n, ok) := ParseUint 16 value in if ok && negb (n =? 0) then Some n else None.

(** The text after "://" up to the first of [stop]. *)
Definition payload_of (raw : string) (stop : Ascii.ascii → bool) : string :=
  match find_sub "://" raw with Some (_, rest) => (Cut stop rest).1 | None => "" end.

Section codec.
Context `{!RangeOrder string, !CodecLibraries}.

Definition normalizeQuery (protocol : string) (values : Values) : gmap string (list string) :=
  let o := (λ l, Compact (sort_strings l)) <$> foldl collect_key ∅ (range values) in
  let o := protocol_defaults protocol o in
  let o := if secured o then setDefault o "insecure" "false" else o in
  if decide (FirstOption o "type" = "tcp") then delete "servicename" (delete "host" (delete "path" o)) else o.

Definition normalizeHost (host : string) : result string :=
  let host := toLower (TrimSpace host) in
  let host := match cut_last dot host with Some (h, EmptyString) => h | _ => host end in
  if negb (nonempty host) then Ok ""
  else match ParseAddr host with
       | Some a => Ok (Addr_String (Unmap a))
       | None => match idna_ToASCII host with
                 | Some ascii => Ok (toLower ascii)
                 | None => Err ("invalid server " +:+ host)
                 end
       end.

Definition specFromURLIdentity (raw protocol : string) : result Spec :=
  match Parse raw with
  | None => Err ("parse " +:+ protocol +:+ " URI")
  | Some u =>
    match normalizeHost (Hostname u) with
    | Err _ | Ok EmptyString => Err (protocol +:+ " URI missing or invalid server")
    | Ok server =>
      let values := Query u in
      let implied := if bool_decide (protocol = "http") && EqualFold (FirstOption values "security") "tls" then 443
                     else DefaultPort protocol in
      match (if nonempty (Port u) then parsePort (Port u) else Some implied) with
      | None => Err (protocol +:+ " URI has invalid port")
      | Some port =>
        let username := match u_User u with Some ui => ui_username ui | None => "" end in
        let auth : gmap string string :=
          match u_User u with
          | Some ui => let a := {["username" := ui_username ui]} in
                       if ui_passwordSet ui then <["password" := ui_password ui]> a else a
          | None => ∅
          end in
        if is_in protocol ["vless"; "vmess"] && negb (nonempty username) then Err (protocol +:+ " URI missing UUID")
        else if is_in protocol ["trojan"; "hysteria2"; "anytls"] && negb (nonempty username)
        then Err (protocol +:+ " URI missing password")
        else
          let auth := if is_in protocol ["vless"; "vmess"] then <["username" := toLower username]> auth else auth in
          let options := normalizeQuery protocol values in
          let options := if secured options then setDefault (setDefault options "sni" server) "insecure" "false" else options in
          let path := EscapedPath u in
          let options := if bool_decide (protocol = "http") && nonempty path && negb (bool_decide (path = "/"))
                         then <["path" := [path]]> options else options in
          let spec := resolveFields protocol server port (u_Fragment u) auth options (u_User u) values in
          Ok (if bool_decide (protocol = "http") && nonempty path then with_path path spec else spec)
      end
    end
  end.

Definition set_present (key value : string) (q : Values) : Values := if nonempty value then Values_Set q key value else q.

Definition specFromVMess (raw : string) : result Spec :=
  let whole := match find_sub "://" raw with Some (_, rest) => rest | None => "" end in
  match DecodeBase64Loose (payload_of raw (byte_is 35)) with
  | Some decoded =>
    match json_Unmarshal decoded with
    | Some data =>
      let field k := CoerceString (data !! k) in
      if nonempty (field "add") then
        let? server := normalizeHost (field "add") in
        let port := let n := (ParseUint 16 (field "port")).1 in if n =? 0 then 443 else n in
        let uuid := toLower (field "id") in
        if negb (nonempty uuid) then Err "vmess URI missing UUID"
        else
          let q := Values_Set ∅ "alterId" (DefaultString (field "aid") "0") in
          let q := Values_Set q "encryption" (DefaultString (field "scy") "auto") in
          let q := Values_Set q "type" (DefaultString (field "net") "tcp") in
          let q := set_present "security" (field "tls") q in
          let q := foldr (λ k, set_present k (field k)) q ["host"; "path"; "sni"; "alpn"; "fp"] in
          let options := normalizeQuery "vmess" q in
          let options := if secured options then setDefault options "sni" server else options in
          let name := match cut (byte_is 35) raw with Some (_, f) => f | None => "" end in
          let spec := resolveFields "vmess" server port name {["username" := uuid]} options None q in
          Ok (if tls_Enabled (sp_TLS spec) && negb (nonempty (tls_ServerName (sp_TLS spec)))
              then with_server_name (tr_Host (sp_Transport spec)) spec else spec)
      else specFromURLIdentity raw "vmess"
    | None => specFromURLIdentity raw "vmess"
    end
  | None => specFromURLIdentity raw "vmess"
  end.

(** The endpoint and credentials of a shadowsocks link. *)
Definition ss_parts (raw : string) (u : URL) : result (string * Z * (string * string)) :=
  match u_User u, nonempty (Hostname u) with
  | Some ui, true =>
    let? server := normalizeHost (Hostname u) in
    match (if nonempty (Port u) then parsePort (Port u) else Some (DefaultPort "ss")) with
    | None => Err "shadowsocks URI has invalid port"
    | Some port => let? mp := decodeSSUserInfo (Userinfo_String ui) in Ok (server, port, mp)
    end
  | _, _ =>
    match DecodeBase64Loose (payload_of raw (λ c, byte_is 35 c || byte_is 63 c)) with
    | None => Err "decode shadowsocks payload"
    | Some text =>
      match cut_last (byte_is 64) text with
      | None => Err "shadowsocks payload missing endpoint"
      | Some (userinfo, endpoint) =>
        let? mp := splitMethodPassword userinfo in
        match Parse ("ss://" +:+ endpoint) with
        | None => Err "parse shadowsocks endpoint"
        | Some host =>
          match parsePort (Port host) with
          | None => Err "shadowsocks payload has invalid port"
          | Some port => let? server := normalizeHost (Hostname host) in Ok (server, port, mp)
          end
        end
      end
    end
  end.

Definition specFromShadowsocks (raw : string) : result Spec :=
  match Parse raw with
  | None => Err "parse shadowsocks URI"
  | Some u =>
    let? parts := ss_parts raw u in
    let '(server, port, (method, password)) := parts in
    if negb (nonempty method && nonempty password && nonempty server)
    then Err "shadowsocks URI missing method, password or server"
    else
      let values := Query u in
      Ok (mkSpec "ss" server port (u_Fragment u) (mkAuth "" password true "") no_tls no_transport
            (mkPlugin (LookupOption values "plugin" []) (LookupOption values "plugin-opts" ["plugin_opts"]))
            0 (toLower method) "" "" 0 0 "" "" ""
            {["password" := password]}
            (<["method" := [toLower method]]> (normalizeQuery "ss" values)))
  end.

Definition FromURI (rawURI : string) : result Spec :=
  let raw := TrimLink rawURI in
  if negb (nonempty raw) then Err "empty proxy URI"
  else
    let scheme := URIScheme raw in
    if negb (nonempty scheme) then Err "proxy URI missing scheme"
    else if decide (scheme = "vmess") then specFromVMess raw
    else if decide (scheme = "ss") then specFromShadowsocks raw
    else if is_in scheme ["vless"; "trojan"; "hysteria2"; "anytls"; "http"; "socks5"] then specFromURLIdentity raw scheme
    else if is_in scheme ["ssr"; "hysteria"] then Err ("unsupported proxy protocol: " +:+ scheme +:+ " is not runnable")
    else Err ("unsupported proxy protocol: " +:+ scheme).

(** [Spec.Result]: a spec that no parser made has no identity. *)
Definition Spec_Result (s : option Spec) : result Result :=
  match s with
  | None => Err "spec was not produced by FromURI"
  | Some s =>
      finish (mkIdentity IdentityVersion (sp_Protocol s) (sp_Server s) (sp_Port s)
                (Some (sp_canonicalAuth s)) (Some (sp_canonicalOptions s)))
  end.

Definition ParseURI (rawURI : string) : result Result :=
  let? s := FromURI rawURI in Spec_Result (Some s).
End codec.

(** ** Rendering *)
Definition set_if (b : bool) (key value : string) (q : Values) : Values := if b then Values_Set q key value else q.

Definition queryValues (s : Spec) : Values :=
  let t := sp_TLS s in
  let tr := sp_Transport s in
  let v2ray := ParameterIsV2RayTransport (sp_Protocol s) in
  let on (p : string) := bool_decide (sp_Protocol s = p) in
  let q : Values := ∅ in
  let q := set_if (nonempty (tls_Security t) && negb (bool_decide (tls_Security t = "none"))) "security" (tls_Security t) q in
  let q := set_if (nonempty (tls_ServerName t)) "sni" (tls_ServerName t) q in
  let q := set_if (negb (bool_decide (tls_ALPN t = []))) "alpn" (Join (char 44) (tls_ALPN t)) q in
  let q := set_if (nonempty (tls_Fingerprint t)) "fp" (tls_Fingerprint t) q in
  let q := set_if (tls_InsecureStated t) "insecure" (boolFlag (tls_Insecure t)) q in
  let q := set_if (nonempty (tls_PublicKey t)) "pbk" (tls_PublicKey t) q in
  let q := set_if (nonempty (tls_ShortID t)) "sid" (tls_ShortID t) q in
  let q := set_if (v2ray && nonempty (tr_Type tr)) "type" (tr_Type tr) q in
  let q := set_if (v2ray && nonempty (tr_Path tr)) "path" (tr_Path tr) q in
  let q := set_if (v2ray && nonempty (tr_Host tr)) "host" (tr_Host tr) q in
  let q := set_if (v2ray && nonempty (tr_ServiceName tr)) "serviceName" (tr_ServiceName tr) q in
  let q := set_if (on "vmess") "alterId" (Itoa (sp_AlterID s)) q in
  let q := set_if (on "vmess") "encryption" (DefaultString (sp_Cipher s) "auto") q in
  let q := set_if (on "vless" && nonempty (sp_Flow s)) "flow" (sp_Flow s) q in
  let q := set_if (on "vless" && nonempty (sp_PacketEncoding s)) "packetencoding" (sp_PacketEncoding s) q in
  let q := set_if (on "hysteria2" && nonempty (sp_Obfs s)) "obfs" (sp_Obfs s) q in
  let q := set_if (on "hysteria2" && nonempty (sp_Obfs s)) "obfs-password" (sp_ObfsPassword s) q in
  let q := set_if (on "hysteria2" && (0 <? sp_UpMbps s)) "upMbps" (Itoa (sp_UpMbps s)) q in
  let q := set_if (on "hysteria2" && (0 <? sp_DownMbps s)) "downMbps" (Itoa (sp_DownMbps s)) q in
  let q := set_if (on "ss" && nonempty (pl_Name (sp_Plugin s))) "plugin" (pl_Name (sp_Plugin s)) q in
  let q := set_if (on "ss" && nonempty (pl_Name (sp_Plugin s)) && nonempty (pl_Options (sp_Plugin s)))
             "plugin-opts" (pl_Options (sp_Plugin s)) q in
  set_if (on "socks5" && nonempty (sp_Network s)) "network" (sp_Network s) q.

Definition rendered_user (s : Spec) : option Userinfo :=
  let a := sp_Auth s in
  let p := sp_Protocol s in
  if is_in p ["vmess"; "vless"] then Some (User (a_UUID a))
  else if decide (p = "ss") then Some (User (b64_encode (sp_Cipher s +:+ ":" +:+ a_Password a)))
  else if is_in p ["trojan"; "hysteria2"; "anytls"] then
    Some (if a_PasswordSet a then UserPassword (a_Username a) (a_Password a) else User (a_Username a))
  else if is_in p ["http"; "socks5"] && (nonempty (a_Username a) || a_PasswordSet a)
  then Some (UserPassword (a_Username a) (a_Password a))
  else None.

Definition rendered_url (s : Spec) : URL :=
  mkURL (sp_Protocol s) "" (rendered_user s) (JoinHostPort (sp_Server s) (Itoa (sp_Port s)))
    (if decide (sp_Protocol s = "http") then tr_Path (sp_Transport s) else "") "" false false
    (Values_Encode (queryValues s)) (sp_Name s) "".

Definition ToURI (s : Spec) : string := URL_String (rendered_url s).

Definition TLS_Equal (t other : TLS) : bool := bool_decide (t = other).

Definition Spec_Equal (s other : Spec) : bool :=
  let p := sp_Protocol s in
  let a := sp_Auth s in
  let b := sp_Auth other in
  bool_decide (p = sp_Protocol other) && bool_decide (sp_Server s = sp_Server other) && (sp_Port s =? sp_Port other) &&
  (if is_in p ["vmess"; "vless"] then bool_decide (a_UUID a = a_UUID b)
   else if decide (p = "ss") then bool_decide (a_Password a = a_Password b)
   else if is_in p ["trojan"; "hysteria2"; "anytls"] then bool_decide (AuthString a = AuthString b)
   else bool_decide (a = b)) &&
  bool_decide (sp_Transport s = sp_Transport other) && bool_decide (sp_Plugin s = sp_Plugin other) &&
  (sp_AlterID s =? sp_AlterID other) && bool_decide (sp_Cipher s = sp_Cipher other) &&
  bool_decide (sp_Flow s = sp_Flow other) && bool_decide (sp_PacketEncoding s = sp_PacketEncoding other) &&
  (sp_UpMbps s =? sp_UpMbps other) && (sp_DownMbps s =? sp_DownMbps other) &&
  bool_decide (sp_Obfs s = sp_Obfs other) && bool_decide (sp_ObfsPassword s = sp_ObfsPassword other) &&
  bool_decide (sp_Network s = sp_Network other) && TLS_Equal (sp_TLS s) (sp_TLS other).
