(* ===== verification/NodeLink.v ===== *)
(** Rendering a parsed proxy link and reading it back: what [ToURI] promises of
    the specs [FromURI] produces ([internal/nodecodec/spec.go]). *)
From S2P Require Import Prelude Text NetIP NetURL NodeCodec.

#[local] Open Scope Z_scope.

(** ** Reading options from a query with known keys *)
Definition trimmed (v : string) : Prop := TrimSpace v = v.

Lemma filter_only {A} (P : A → Prop) `{∀ x, Decision (P x)} (t : A) (l : list A) :
  NoDup l → (∀ x, x ∈ l → P x → x = t) → P t → filter P l = [t] ∧ t ∈ l ∨ filter P l = [] ∧ t ∉ l.
Proof.
  induction l as [|x l IH]; intros Hnd Ht Hp; [right; set_solver|].
  apply NoDup_cons in Hnd as [Hx Hnd]. rewrite filter_cons. destruct (decide (P x)) as [Hpx|Hpx].
  - assert (x = t) as -> by (apply Ht; [set_solver|done]).
    destruct (IH Hnd ltac:(set_solver) Hp) as [[_ ?]|[-> _]]; [done|]. left. set_solver.
  - destruct (IH Hnd ltac:(set_solver) Hp) as [[-> ?]|[-> ?]]; [left; set_solver|right; set_solver].
Qed.

(** Among [keys], [target] is the one spelling of the wanted names. *)
Definition reads (keys wanted : list string) (target : string) : bool :=
  forallb (λ k, implb (existsb (EqualFold k) wanted) (bool_decide (k = target))) keys && existsb (EqualFold target) wanted.

Definition within_keys (keys : list string) (v : Values) : Prop := ∀ k, is_Some (v !! k) → k ∈ keys.

Lemma spelled_target keys wanted target w v :
  reads keys wanted target = true → w ∈ wanted → within_keys keys v →
  spelled v w = if EqualFold target w then Values_Get v target else [].
Proof.
  intros [Hr _]%andb_prop Hw Hv. destruct (sorted_keys_spec v) as [Hnd Hin]. unfold spelled.
  rewrite forallb_forall in Hr.
  assert (Ht : ∀ k, k ∈ sorted_keys v → EqualFold k w = true → k = target).
  { intros k Hk%Hin%Hv Hf. specialize (Hr k ltac:(by apply list_elem_of_In)).
    assert (existsb (EqualFold k) wanted = true) as He.
    { apply existsb_exists. exists w. split; [by apply list_elem_of_In|done]. }
    rewrite He in Hr. by apply bool_decide_eq_true in Hr. }
  destruct (EqualFold target w) eqn:Hf.
  - destruct (filter_only (λ raw, EqualFold raw w = true) target _ Hnd Ht Hf) as [[-> _]|[-> Hn]]; cbn.
    + by rewrite app_nil_r.
    + rewrite Hin in Hn. unfold Values_Get. destruct (v !! target) eqn:E; [|done]. by destruct Hn.
  - rewrite filter_nothing; [done|]. apply Forall_forall. intros k Hk Hkw. by rewrite <-(Ht k Hk Hkw), Hkw in Hf.
Qed.

Lemma first_value_app a b : first_value (a ++ b) = if nonempty (first_value a) then first_value a else first_value b.
Proof.
  induction a as [|x a IH]; [done|]. cbn. destruct (nonempty (TrimSpace x)) eqn:E; [by rewrite E|done].
Qed.

(** What a lookup finds in a query whose keys are known. *)
Lemma LookupOption_one keys key aliases target v :
  reads keys (key :: aliases) target = true → within_keys keys v →
  LookupOption v key aliases = first_value (Values_Get v target).
Proof.
  intros Hr Hv. unfold LookupOption. remember (key :: aliases) as wanted eqn:Ew. clear Ew.
  assert (Hchunks : ∀ ws, (∀ w, w ∈ ws → w ∈ wanted) →
    first_value (ws ≫= spelled v) = if existsb (EqualFold target) ws then first_value (Values_Get v target) else "").
  { induction ws as [|w ws IH]; intros Hws; [done|]. cbn [mbind list_bind existsb].
    rewrite first_value_app, IH by set_solver.
    rewrite (spelled_target keys wanted target w) by (done || set_solver).
    destruct (EqualFold target w); cbn [orb]; [|done].
    destruct (nonempty (first_value (Values_Get v target))) eqn:E; [done|].
    destruct (existsb _ ws); [done|]. by destruct (first_value (Values_Get v target)). }
  rewrite Hchunks by done. apply andb_prop in Hr as [_ ->]. done.
Qed.

Lemma LookupOption_trimmed v key aliases : trimmed (LookupOption v key aliases).
Proof.
  unfold LookupOption, trimmed. induction ((key :: aliases) ≫= spelled v) as [|x l IH]; [done|]. cbn.
  destruct (nonempty (TrimSpace x)); [apply TrimSpace_idem|done].
Qed.

Lemma LookupOption_none keys key aliases v :
  forallb (λ k, negb (existsb (EqualFold k) (key :: aliases))) keys = true → within_keys keys v →
  LookupOption v key aliases = "".
Proof.
  intros Hr Hv. unfold LookupOption. remember (key :: aliases) as wanted eqn:Ew. clear Ew.
  assert (Hnone : ∀ w, w ∈ wanted → spelled v w = []).
  { intros w Hw. unfold spelled. rewrite filter_nothing; [done|]. apply Forall_forall. intros k Hk Hkw.
    rewrite forallb_forall in Hr. specialize (Hr k). rewrite negb_true_iff in Hr.
    assert (existsb (EqualFold k) wanted = true) as He; [|rewrite Hr in He; [done|]].
    - apply existsb_exists. exists w. split; [by apply list_elem_of_In|done].
    - apply list_elem_of_In, Hv. by apply sorted_keys_spec. }
  clear Hr. induction wanted as [|w ws IH]; [done|]. cbn. rewrite Hnone by set_solver. apply IH. set_solver.
Qed.

(** ** Canonical options of any query *)
Lemma FirstOption_setDefault o k v q :
  v ≠ "" → FirstOption (setDefault o k v) q =
    if decide (q = k) then if nonempty (FirstOption o k) then FirstOption o k else v else FirstOption o q.
Proof.
  intros Hv. unfold setDefault. destruct (decide (q = k)) as [->|Hq].
  - destruct (nonempty (FirstOption o k)) eqn:E; [done|]. unfold FirstOption. by rewrite lookup_insert_eq.
  - destruct (nonempty (FirstOption o k)); [done|]. unfold FirstOption. by rewrite lookup_insert_ne.
Qed.

(** The default of a scalar option. *)
Definition default_option (protocol key : string) : string :=
  if decide (key = "security") then
    if is_in protocol ["vless"; "vmess"] then "none" else if is_in protocol ["trojan"; "hysteria2"; "anytls"] then "tls" else ""
  else if decide (key = "encryption") then
    if decide (protocol = "vless") then "none" else if decide (protocol = "vmess") then "auto" else ""
  else if decide (key = "alterid") then if decide (protocol = "vmess") then "0" else "" else "".

Definition scalar_option (key : string) : bool := is_in key ["security"; "encryption"; "alterid"].

Definition or_default (v d : string) : string := if nonempty v then v else d.

Lemma FirstOption_defaults protocol o key :
  scalar_option key = true →
  FirstOption (protocol_defaults protocol o) key = or_default (FirstOption o key) (default_option protocol key).
Proof.
  intros Hk. unfold protocol_defaults, default_option, or_default.
  assert (Hempty : ∀ v, (if nonempty v then v else "") = v) by (intros v; by destruct v).
  assert (Hkey : key = "security" ∨ key = "encryption" ∨ key = "alterid").
  { unfold scalar_option, is_in in Hk. apply bool_decide_eq_true in Hk. set_solver. }
  destruct (decide (protocol = "vless")) as [->|Hvl]; [|destruct (decide (protocol = "vmess")) as [->|Hvm];
    [|destruct (decide (protocol = "trojan")) as [->|Htr]; [|destruct (is_in protocol ["hysteria2"; "anytls"]) eqn:Hh]]].
  all: destruct Hkey as [-> | [-> | ->]]; rewrite ?FirstOption_setDefault by done; cbn; try done.
  all: unfold is_in in *; try (rewrite bool_decide_eq_true in Hh); try (rewrite bool_decide_eq_false in Hh).
  all: repeat (rewrite bool_decide_eq_false_2 by set_solver); repeat (rewrite bool_decide_eq_true_2 by set_solver);
    rewrite ?Hempty; done.
Qed.

Definition collected `{!RangeOrder string} (v : Values) : gmap string (list string) :=
  (λ l, Compact (sort_strings l)) <$> foldl collect_key ∅ (range v).

Section canonical.
Context `{!RangeOrder string}.

Lemma FirstOption_delete o k q : q ≠ k → FirstOption (delete k o) q = FirstOption o q.
Proof. intros Hq. unfold FirstOption. by rewrite lookup_delete_ne. Qed.

(** The scalar options of a query: the first of what was collected, or the
    default of the protocol. *)
Lemma FirstOption_normalize protocol v key :
  scalar_option key = true →
  FirstOption (normalizeQuery protocol v) key = or_default (FirstOption (collected v) key) (default_option protocol key).
Proof.
  intros Hk. rewrite <-FirstOption_defaults by done. unfold normalizeQuery. fold (collected v).
  assert (Hne : key ≠ "insecure" ∧ key ≠ "path" ∧ key ≠ "host" ∧ key ≠ "servicename").
  { unfold scalar_option, is_in in Hk. apply bool_decide_eq_true in Hk. set_solver. }
  destruct Hne as (? & ? & ? & ?). set (o := protocol_defaults protocol (collected v)).
  assert (Hsec : FirstOption (if secured o then setDefault o "insecure" "false" else o) key = FirstOption o key).
  { destruct (secured o); [|done]. by rewrite FirstOption_setDefault, decide_False. }
  destruct (decide _); [|done]. by rewrite !FirstOption_delete.
Qed.

Lemma foldl_append (key q x : string) (l : list string) (acc : gmap string (list string)) :
  Values_Get (foldl (λ acc v, <[key := Values_Get acc key ++ [canonical_value key v]]> acc) acc l) q =
    Values_Get acc q ++ (if decide (q = key) then canonical_value key <$> l else []).
Proof.
  revert acc. induction l as [|y l IH]; intros acc; cbn [foldl fmap list_fmap].
  - destruct (decide _); by rewrite app_nil_r.
  - rewrite IH. unfold Values_Get. destruct (decide (q = key)) as [->|Hq].
    + rewrite lookup_insert_eq. cbn. by rewrite <-app_assoc.
    + by rewrite lookup_insert_ne.
Qed.

(** Everything the raw values contribute to one canonical key, in order. *)
Definition contributions (q : string) (l : list (string * list string)) : list string :=
  l ≫= λ kl, if bool_decide (normalizeQueryKey kl.1 = q) && negb (isCosmeticQueryKey q)
             then canonical_value q <$> kl.2 else [].

Lemma foldl_collect q l acc : Values_Get (foldl collect_key acc l) q = Values_Get acc q ++ contributions q l.
Proof.
  revert acc. induction l as [|[k xs] l IH]; intros acc; cbn [foldl contributions mbind list_bind].
  { by rewrite app_nil_r. }
  rewrite IH. fold (contributions q l). unfold collect_key. cbn [fst snd].
  destruct (isCosmeticQueryKey (normalizeQueryKey k)) eqn:Hc.
  - destruct (decide (normalizeQueryKey k = q)) as [<-|Hq].
    + rewrite bool_decide_eq_true_2 by done. by rewrite Hc.
    + by rewrite bool_decide_eq_false_2.
  - rewrite (foldl_append _ q ""). rewrite <-app_assoc. f_equal. f_equal.
    destruct (decide (q = normalizeQueryKey k)) as [->|Hq].
    + rewrite bool_decide_eq_true_2 by done. by rewrite Hc.
    + by rewrite bool_decide_eq_false_2 by congruence.
Qed.

Lemma collected_lookup v q :
  Values_Get (collected v) q = Compact (sort_strings (contributions q (range v))).
Proof.
  unfold collected. unfold Values_Get at 1. rewrite lookup_fmap.
  pose proof (foldl_collect q (range v) ∅) as H. unfold Values_Get in H. rewrite lookup_empty in H. cbn in H.
  destruct (foldl collect_key ∅ (range v) !! q) as [l|] eqn:E; cbn in *; by rewrite <-H.
Qed.

Lemma Compact_elem x l : x ∈ Compact l → x ∈ l.
Proof.
  induction l as [|y [|z l] IH]; [done|done|]. cbn [Compact]. destruct (decide (y = z)); [set_solver|].
  rewrite !elem_of_cons in *. intros [?|?]; [by left|right]. by apply IH.
Qed.

Lemma FirstOption_Get o q : FirstOption o q = default "" (head (Values_Get o q)).
Proof. unfold FirstOption, Values_Get. destruct (o !! q) as [[|]|]; done. Qed.

(** A collected value is some raw value in canonical form. *)
Lemma collected_canonical v q :
  FirstOption (collected v) q = "" ∨ ∃ x, FirstOption (collected v) q = canonical_value q x.
Proof.
  rewrite FirstOption_Get, collected_lookup.
  destruct (head (Compact (sort_strings (contributions q (range v))))) as [x|] eqn:E; [|by left]. right. cbn.
  assert (Hx : x ∈ contributions q (range v)).
  { apply head_Some_elem_of, Compact_elem in E. unfold sort_strings in E. by rewrite merge_sort_Permutation in E. }
  unfold contributions in Hx. apply list_elem_of_bind in Hx as (kl & Hx & _). destruct (_ && _); [|set_solver].
  apply list_elem_of_fmap in Hx as (y & -> & _). by exists y.
Qed.

(** With one value under the one key that is spelled [q]. *)
Definition canonically (keys : list string) (target : string) : bool :=
  let q := normalizeQueryKey target in
  negb (isCosmeticQueryKey q) && forallb (λ k, implb (bool_decide (normalizeQueryKey k = q)) (bool_decide (k = target))) keys.

Lemma collected_single keys target v :
  canonically keys target = true → within_keys keys v → singles v →
  FirstOption (collected v) (normalizeQueryKey target) =
    match v !! target with Some (x :: _) => canonical_value (normalizeQueryKey target) x | _ => "" end.
Proof.
  intros Hk Hv Hs. set (q := normalizeQueryKey target) in *. rewrite FirstOption_Get, collected_lookup.
  unfold canonically in Hk. fold q in Hk. apply andb_prop in Hk as [Hcos Hone]. rewrite forallb_forall in Hone.
  assert (Hc : contributions q (range v) = match v !! target with Some l => canonical_value q <$> l | None => [] end).
  { assert (Hl : ∀ k l, (k, l) ∈ range v → normalizeQueryKey k = q → k = target).
    { intros k l Hkl%elem_of_range Hq. assert (Hkk : k ∈ keys) by (apply Hv; by exists l).
      specialize (Hone k ltac:(by apply list_elem_of_In)). rewrite bool_decide_eq_true_2 in Hone by done.
      by apply bool_decide_eq_true in Hone. }
    assert (Hrt : ∀ l, (target, l) ∈ range v ↔ v !! target = Some l) by (intros l; apply elem_of_range).
    pose proof (NoDup_range_fst v) as Hnd. unfold contributions.
    assert (Hgen : ∀ r, NoDup r.*1 → (∀ k l, (k, l) ∈ r → normalizeQueryKey k = q → k = target) →
      (r ≫= λ kl, if bool_decide (normalizeQueryKey kl.1 = q) && negb (isCosmeticQueryKey q) then canonical_value q <$> kl.2 else [])
      = match list_find (λ kl, kl.1 = target) r with Some (_, kl) => canonical_value q <$> kl.2 | None => [] end).
    { rewrite Hcos. induction r as [|[k l] r IH]; intros Hndr Hr; [done|]. cbn [mbind list_bind list_find fst snd].
      cbn in Hndr. apply NoDup_cons in Hndr as [Hkr Hndr]. rewrite andb_true_r.
      destruct (decide (k = target)) as [->|Hkt].
      - rewrite bool_decide_eq_true_2 by done. rewrite IH by set_solver.
        destruct (list_find _ r) as [[i [k' l']]|] eqn:E; [|by rewrite app_nil_r]. exfalso.
        apply list_find_Some in E as (Hi & Hkt & _). cbn in Hkt. subst k'. apply Hkr.
        apply list_elem_of_fmap. exists (target, l'). split; [done|by eapply list_elem_of_lookup_2].
      - rewrite bool_decide_eq_false_2 by (intros Hq; apply Hkt; by apply (Hr k l); [left|]).
        rewrite IH by set_solver. cbn. by destruct (list_find _ r) as [[i [k' l']]|]. }
    rewrite Hgen by done. destruct (list_find _ (range v)) as [[i [k l]]|] eqn:E.
    - apply list_find_Some in E as (Hi & Hkt & _). cbn in Hkt. subst k. apply list_elem_of_lookup_2, Hrt in Hi. by rewrite Hi.
    - apply list_find_None in E. destruct (v !! target) as [l|] eqn:Et; [|done]. exfalso.
      apply elem_of_range in Et. rewrite Forall_forall in E. by apply (E (target, l)). }
  rewrite Hc. destruct (v !! target) as [l|] eqn:E; [|done]. pose proof (Hs _ _ E) as Hl.
  destruct l as [|x [|]]; done.
Qed.

Lemma canonical_value_idem q x : q = "security" ∨ q = "encryption" → canonical_value q (canonical_value q x) = canonical_value q x.
Proof.
  assert (H : toLower (TrimSpace (toLower (TrimSpace x))) = toLower (TrimSpace x)).
  { by rewrite <-toLower_TrimSpace, TrimSpace_idem, toLower_idem. }
  intros [-> | ->]; exact H.
Qed.
End canonical.

(** ** The query a spec is rendered to *)
Definition rendered_keys : list string :=
  ["security"; "sni"; "alpn"; "fp"; "insecure"; "pbk"; "sid"; "type"; "path"; "host"; "serviceName"; "alterId"; "encryption";
   "flow"; "packetencoding"; "obfs"; "obfs-password"; "upMbps"; "downMbps"; "plugin"; "plugin-opts"; "network"].

Lemma set_if_ne b k x q j : j ≠ k → set_if b k x q !! j = q !! j.
Proof. intros Hj. unfold set_if, Values_Set. destruct b; [by rewrite lookup_insert_ne|done]. Qed.

Lemma set_if_eq b k x q : q !! k = None → set_if b k x q !! k = if b then Some [x] else None.
Proof. intros Hq. unfold set_if, Values_Set. destruct b; [by rewrite lookup_insert_eq|done]. Qed.

Lemma set_if_keys keys b k x q : k ∈ keys → within_keys keys q → within_keys keys (set_if b k x q).
Proof.
  intros Hk Hq j. unfold set_if, Values_Set. destruct b; [|apply Hq]. destruct (decide (j = k)) as [->|Hj]; [done|].
  rewrite lookup_insert_ne by done. apply Hq.
Qed.

Lemma set_if_singles b k x q : singles q → singles (set_if b k x q).
Proof. intros Hq. unfold set_if, Values_Set. destruct b; [|done]. by apply map_Forall_insert_2. Qed.

Lemma queryValues_keys s : within_keys rendered_keys (queryValues s).
Proof.
  unfold queryValues. cbv zeta. repeat (apply set_if_keys; [apply (bool_decide_unpack _); vm_compute; exact I|]).
  intros k [l Hl]. by rewrite lookup_empty in Hl.
Qed.

Lemma queryValues_singles s : singles (queryValues s).
Proof. unfold queryValues. cbv zeta. repeat apply set_if_singles. by intros ? ? ?%lookup_empty_Some. Qed.

(** The value rendered under a key. *)
Ltac rendered :=
  unfold queryValues; cbv zeta;
  repeat (rewrite set_if_ne by done);
  rewrite set_if_eq; [try done|repeat (rewrite set_if_ne by done); by rewrite lookup_empty].

Section rendered.
Variable s : Spec.
Notation p := (sp_Protocol s).
Notation t := (sp_TLS s).
Notation tr := (sp_Transport s).
Notation on name := (bool_decide (p = name)).

Lemma rendered_security :
  queryValues s !! "security" = if nonempty (tls_Security t) && negb (bool_decide (tls_Security t = "none")) then Some [tls_Security t] else None.
Proof. rendered. Qed.
Lemma rendered_encryption : queryValues s !! "encryption" = if on "vmess" then Some [DefaultString (sp_Cipher s) "auto"] else None.
Proof. rendered. Qed.
Lemma rendered_alterId : queryValues s !! "alterId" = if on "vmess" then Some [Itoa (sp_AlterID s)] else None.
Proof. rendered. Qed.
End rendered.

(** ** Trimmed texts *)
Lemma every_trimLeft P s : every P s = true → every P (trimLeft s) = true.
Proof. induction s as [|c s IH]; [done|]. cbn. intros [Hc Hs]%andb_prop. destruct (is_space c); [by apply IH|]. cbn. by rewrite Hc. Qed.

Lemma every_trimRight P s : every P s = true → every P (trimRight s) = true.
Proof.
  induction s as [|c s IH]; [done|]. cbn. intros [Hc Hs]%andb_prop. specialize (IH Hs).
  destruct (trimRight s); [destruct (is_space c); [done|]; cbn; by rewrite Hc|]. cbn in *. by rewrite Hc.
Qed.

Lemma every_TrimSpace P s : every P s = true → every P (TrimSpace s) = true.
Proof. intros Hs. by apply every_trimRight, every_trimLeft. Qed.

(** A text without blanks is trimmed. *)
Lemma solid_trimmed s : every (λ c, negb (is_space c)) s = true → trimmed s.
Proof.
  unfold trimmed, TrimSpace. intros Hs.
  assert (trimLeft s = s) as ->.
  { destruct s as [|c s]; [done|]. cbn in *. apply andb_prop in Hs as [Hc _]. apply negb_true_iff in Hc. by rewrite Hc. }
  induction s as [|c s IH]; [done|]. cbn in *. apply andb_prop in Hs as [Hc Hs]. apply negb_true_iff in Hc.
  rewrite (IH Hs). destruct s; [by rewrite Hc|done].
Qed.

Lemma length_trimLeft s : (String.length (trimLeft s) ≤ String.length s)%nat.
Proof. induction s as [|c s IH]; cbn; [done|]. destruct (is_space c); cbn; lia. Qed.

Lemma length_trimRight s : (String.length (trimRight s) ≤ String.length s)%nat.
Proof. induction s as [|c s IH]; cbn; [done|]. destruct (trimRight s); [destruct (is_space c)|]; cbn in *; lia. Qed.

Lemma trimmed_ends s : trimmed s → trimLeft s = s ∧ trimRight s = s.
Proof.
  unfold trimmed, TrimSpace. intros Hs. assert (Hl : trimLeft s = s); [|by rewrite Hl in Hs].
  destruct s as [|c s]; [done|]. cbn in *. destruct (is_space c); [|done]. exfalso.
  pose proof (length_trimRight (trimLeft s)). pose proof (length_trimLeft s). rewrite Hs in *. cbn in *. lia.
Qed.

Lemma trimRight_append a b : b ≠ "" → trimRight b = b → trimRight (a +:+ b) = a +:+ b.
Proof.
  intros Hb Hr. induction a as [|c a IH]; [done|]. rewrite append_cons. cbn [trimRight]. rewrite IH.
  destruct a as [|d a]; [by destruct b|done].
Qed.

Lemma trimLeft_append a b : a ≠ "" → trimLeft a = a → trimLeft (a +:+ b) = a +:+ b.
Proof.
  intros Ha Hl. destruct a as [|c a]; [done|]. rewrite append_cons. cbn in *. destruct (is_space c); [|done].
  exfalso. pose proof (length_trimLeft a). rewrite Hl in *. cbn in *. lia.
Qed.

Definition item (v : string) : Prop := trimmed v ∧ v ≠ "" ∧ every (λ c, negb (byte_is 44 c)) v = true.

Lemma Join_cons2 sep a b l : Join sep (a :: b :: l) = a +:+ String sep (Join sep (b :: l)).
Proof. reflexivity. Qed.

Lemma Join_nonempty l : l ≠ [] → Forall item l → Join (char 44) l ≠ "".
Proof.
  intros Hne Hl. destruct l as [|a [|b l]]; [done|..]; apply Forall_cons in Hl as [(_ & Ha & _) _]; [done|].
  rewrite Join_cons2. by destruct a.
Qed.

Lemma Join_trimmed l : Forall item l → trimmed (Join (char 44) l).
Proof.
  intros Hl. destruct l as [|a l]; [done|]. unfold trimmed, TrimSpace.
  pose proof Hl as (Ha & Hane & _)%Forall_inv. destruct (trimmed_ends _ Ha) as [Hal _].
  assert (trimLeft (Join (char 44) (a :: l)) = Join (char 44) (a :: l)) as ->.
  { destruct l as [|b l]; [done|]. rewrite Join_cons2. by apply trimLeft_append. }
  clear Ha Hane Hal. revert a Hl. induction l as [|b l IH]; intros a Hl.
  - apply Forall_inv in Hl as (Ha & _). by apply trimmed_ends.
  - apply Forall_inv_tail in Hl as Hl'. rewrite Join_cons2. apply trimRight_append; [done|].
    cbn [trimRight]. rewrite IH by done. pose proof (Join_nonempty (b :: l) ltac:(done) Hl').
    by destruct (Join (char 44) (b :: l)).
Qed.

Lemma splitList_Join l : Forall item l → splitList (Join (char 44) l) = l.
Proof.
  intros Hl. destruct l as [|a l]; [done|]. unfold splitList. rewrite Split_Join.
  - assert ((TrimSpace <$> a :: l) = a :: l) as ->.
    { clear -Hl. induction Hl as [|v l' (Hv & _) _ IH]; [done|]. cbn. by rewrite Hv, IH. }
    apply filter_all. eapply Forall_impl; [exact Hl|]. intros v (_ & Hv & _). by apply nonempty_true.
  - done.
  - done.
  - eapply Forall_impl; [exact Hl|]. intros v (_ & _ & Hv). exact Hv.
Qed.

Lemma splitList_items v : Forall item (splitList v).
Proof.
  apply Forall_forall. intros x [Hne Hx]%list_elem_of_filter. apply list_elem_of_fmap in Hx as (y & -> & Hy).
  split_and!; [apply TrimSpace_idem|by apply nonempty_true|]. apply every_TrimSpace.
  pose proof (Split_parts 44 v) as H. rewrite Forall_forall in H. by apply H.
Qed.

(** ** Well-formed specs *)
Definition v2ray (p : string) : bool := ParameterIsV2RayTransport p.
Definition forced_tls (p : string) : bool := is_in p ["trojan"; "hysteria2"; "anytls"].
Definition int64 (z : Z) : Prop := - 2 ^ 63 ≤ z < 2 ^ 63.

Definition auth_ok (p : string) (a : Auth) : Prop :=
  (a_PasswordSet a = false → a_Password a = "") ∧
  (if is_in p ["vmess"; "vless"] then a_UUID a ≠ "" ∧ toLower (a_UUID a) = a_UUID a else a_UUID a = "") ∧
  (forced_tls p = true → a_Username a ≠ "").

Definition tls_ok (p : string) (t : TLS) : Prop :=
  tls_Enabled t = is_in (tls_Security t) ["tls"; "reality"] || forced_tls p ∧
  canonical_value "security" (tls_Security t) = tls_Security t ∧
  (default_option p "security" ≠ "" → tls_Security t ≠ "") ∧
  trimmed (tls_ServerName t) ∧ (is_in p ["hysteria2"; "anytls"] = true → tls_ServerName t ≠ "") ∧
  (tls_InsecureStated t = false → tls_Insecure t = false) ∧
  Forall item (tls_ALPN t) ∧ trimmed (tls_Fingerprint t) ∧ trimmed (tls_PublicKey t) ∧ trimmed (tls_ShortID t).

Definition transport_ok (p : string) (tr : Transport) : Prop :=
  if v2ray p then
    trimmed (tr_Type tr) ∧ toLower (tr_Type tr) = tr_Type tr ∧ tr_Type tr ≠ "" ∧
    trimmed (tr_Path tr) ∧ trimmed (tr_Host tr) ∧ trimmed (tr_ServiceName tr)
  else tr_Type tr = "" ∧ tr_Host tr = "" ∧ tr_ServiceName tr = "" ∧
       (if decide (p = "http") then tr_Path tr = "" ∨ ∃ r, tr_Path tr = String (char 47) r else tr_Path tr = "").

(** A scalar that only the protocols [ps] have. *)
Definition only (ps : list string) (p : string) (v : string) : Prop := if is_in p ps then trimmed v else v = "".
Definition only_number (ps : list string) (p : string) (z : Z) : Prop := if is_in p ps then int64 z else z = 0.

Definition protocols : list string := ["vmess"; "vless"; "ss"; "trojan"; "hysteria2"; "anytls"; "http"; "socks5"].

(** A shadowsocks link carries a method, a password and a plugin. *)
Definition ss_ok (s : Spec) : Prop :=
  sp_TLS s = no_tls ∧ sp_Transport s = no_transport ∧ a_Username (sp_Auth s) = "" ∧ a_PasswordSet (sp_Auth s) = true ∧
  a_Password (sp_Auth s) ≠ "" ∧ sp_Cipher s ≠ "" ∧ contains colon (sp_Cipher s) = false ∧ toLower (sp_Cipher s) = sp_Cipher s.

Record link_ok (s : Spec) : Prop := mkLinkOk {
  lo_protocol : sp_Protocol s ∈ protocols;
  lo_ss : sp_Protocol s = "ss" → ss_ok s;
  lo_port : 0 < sp_Port s < 65536;
  lo_auth : auth_ok (sp_Protocol s) (sp_Auth s);
  lo_tls : tls_ok (sp_Protocol s) (sp_TLS s);
  lo_transport : transport_ok (sp_Protocol s) (sp_Transport s);
  lo_plugin : only ["ss"] (sp_Protocol s) (pl_Name (sp_Plugin s)) ∧ only ["ss"] (sp_Protocol s) (pl_Options (sp_Plugin s));
  lo_alter : only_number ["vmess"] (sp_Protocol s) (sp_AlterID s);
  lo_cipher :
    if is_in (sp_Protocol s) ["vmess"; "vless"]
    then canonical_value "encryption" (sp_Cipher s) = sp_Cipher s ∧ sp_Cipher s ≠ ""
    else sp_Protocol s ≠ "ss" → sp_Cipher s = "";
  lo_flow : only ["vless"] (sp_Protocol s) (sp_Flow s) ∧ only ["vless"] (sp_Protocol s) (sp_PacketEncoding s);
  lo_rates : only_number ["hysteria2"] (sp_Protocol s) (sp_UpMbps s) ∧ only_number ["hysteria2"] (sp_Protocol s) (sp_DownMbps s);
  lo_obfs : only ["hysteria2"] (sp_Protocol s) (sp_Obfs s) ∧ only ["hysteria2"] (sp_Protocol s) (sp_ObfsPassword s);
  lo_network : only ["http"; "socks5"] (sp_Protocol s) (sp_Network s)
}.

(** ** What the link format can carry *)
Definition renderable (s : Spec) : bool :=
  let p := sp_Protocol s in
  (negb (bool_decide (tls_Security (sp_TLS s) = "none")) || is_in p ["vmess"; "vless"]) &&
  implb (bool_decide (p = "vless")) (bool_decide (sp_Cipher s = "none")) &&
  implb (bool_decide (p = "http")) (bool_decide (sp_Network s = "") && bool_decide (escape encodePath (tr_Path (sp_Transport s)) = tr_Path (sp_Transport s))) &&
  implb (is_in p ["http"; "socks5"]) (a_PasswordSet (sp_Auth s) || bool_decide (a_Username (sp_Auth s) = "")) &&
  implb (bool_decide (p = "hysteria2"))
    ((nonempty (sp_Obfs s) || bool_decide (sp_ObfsPassword s = "")) && (0 <=? sp_UpMbps s) && (0 <=? sp_DownMbps s)) &&
  implb (bool_decide (p = "ss")) (nonempty (pl_Name (sp_Plugin s)) || bool_decide (pl_Options (sp_Plugin s) = "")) &&
  nonempty (sp_Server s) && negb (contains percent (sp_Server s)) &&
  match cut_last dot (sp_Server s) with Some (_, EmptyString) => false | _ => true end.

Lemma implb_spec a b : implb a b = true → a = true → b = true.
Proof. by destruct a. Qed.

Lemma is_in_spec x l : is_in x l = true ↔ x ∈ l.
Proof. apply bool_decide_eq_true. Qed.

Lemma renderable_spec s :
  renderable s = true →
  let p := sp_Protocol s in
  (tls_Security (sp_TLS s) = "none" → p = "vmess" ∨ p = "vless") ∧
  (p = "vless" → sp_Cipher s = "none") ∧
  (p = "http" → sp_Network s = "" ∧ escape encodePath (tr_Path (sp_Transport s)) = tr_Path (sp_Transport s)) ∧
  (p = "http" ∨ p = "socks5" → a_PasswordSet (sp_Auth s) = true ∨ a_Username (sp_Auth s) = "") ∧
  (p = "hysteria2" → (sp_Obfs s ≠ "" ∨ sp_ObfsPassword s = "") ∧ 0 ≤ sp_UpMbps s ∧ 0 ≤ sp_DownMbps s) ∧
  (p = "ss" → pl_Name (sp_Plugin s) ≠ "" ∨ pl_Options (sp_Plugin s) = "") ∧
  sp_Server s ≠ "" ∧ contains percent (sp_Server s) = false ∧
  match cut_last dot (sp_Server s) with Some (_, EmptyString) => False | _ => True end.
Proof.
  unfold renderable. cbv zeta.
  intros [[[[[[[[H1 H2]%andb_prop H3]%andb_prop H4]%andb_prop H5]%andb_prop H6]%andb_prop H7]%andb_prop H8]%andb_prop H9]%andb_prop.
  split_and!.
  - intros E. rewrite E in H1. cbn in H1. apply is_in_spec in H1. set_solver.
  - intros E. eapply bool_decide_eq_true_2, (implb_spec _ _ H2), bool_decide_eq_true_1 in E. done.
  - intros E. eapply bool_decide_eq_true_2, (implb_spec _ _ H3), andb_prop in E as [?%bool_decide_eq_true_1 ?%bool_decide_eq_true_1]. done.
  - intros E. assert (is_in (sp_Protocol s) ["http"; "socks5"] = true) as E' by (apply is_in_spec; set_solver).
    apply (implb_spec _ _ H4), orb_prop in E' as [?|?%bool_decide_eq_true_1]; [by left|by right].
  - intros E. eapply bool_decide_eq_true_2, (implb_spec _ _ H5), andb_prop in E as [[Hb ?%Z.leb_le]%andb_prop ?%Z.leb_le].
    split; [|done]. apply orb_prop in Hb as [Hb|Hb%bool_decide_eq_true_1]; [left; by apply nonempty_true|by right].
  - intros E. eapply bool_decide_eq_true_2, (implb_spec _ _ H6), orb_prop in E as [Hb|Hb%bool_decide_eq_true_1]; [left; by apply nonempty_true|by right].
  - by apply nonempty_true.
  - by apply negb_true_iff.
  - by destruct (cut_last dot (sp_Server s)) as [[? [|]]|].
Qed.

(** ** Fields resolved from the rendered query *)
Section resolve.
Context `{!RangeOrder string}.
Variable s : Spec.
Notation p := (sp_Protocol s).
Notation q := (queryValues s).
Hypothesis Hok : link_ok s.
Hypothesis Hren : renderable s = true.

Lemma first_value_one x : trimmed x → first_value [x] = x.
Proof. intros Hx. cbn. rewrite Hx. by destruct x. Qed.

(** A field rendered when it holds a value. *)
Lemma look key aliases target (b : bool) (x : string) :
  reads rendered_keys (key :: aliases) target = true → q !! target = (if b then Some [x] else None) → trimmed x →
  LookupOption q key aliases = if b then x else "".
Proof.
  intros Hr Hq Hx. rewrite (LookupOption_one rendered_keys key aliases target) by (done || apply queryValues_keys).
  unfold Values_Get. rewrite Hq. destruct b; [by apply first_value_one|done].
Qed.

Lemma look_field key aliases target (x : string) :
  reads rendered_keys (key :: aliases) target = true → q !! target = (if nonempty x then Some [x] else None) → trimmed x →
  LookupOption q key aliases = x.
Proof. intros Hr Hq Hx. rewrite (look _ _ _ _ _ Hr Hq Hx). by destruct x. Qed.

(** The first spelling of a field wins over its aliases. *)
Lemma look_first key aliases target x :
  reads rendered_keys [key] target = true → q !! target = Some [x] → trimmed x → x ≠ "" →
  LookupOption q key aliases = x.
Proof.
  intros Hr Hq Hx Hne. pose proof (look key [] target true x Hr Hq Hx) as H. unfold LookupOption in *.
  cbn [mbind list_bind] in *. rewrite app_nil_r in H. rewrite first_value_app, H.
  apply nonempty_true in Hne. by rewrite Hne.
Qed.

Lemma resolved_insecure : TLSInsecureOverride q = (tls_Insecure (sp_TLS s), tls_InsecureStated (sp_TLS s)).
Proof.
  pose proof (lo_tls s Hok) as (_ & _ & _ & _ & _ & Hi & _).
  assert (Hq : q !! "insecure" = if tls_InsecureStated (sp_TLS s) then Some [boolFlag (tls_Insecure (sp_TLS s))] else None) by rendered.
  unfold TLSInsecureOverride, insecure_keys. cbn [fmap list_fmap].
  rewrite (look "insecure" [] "insecure" _ _ eq_refl Hq) by (by destruct (tls_Insecure _)).
  rewrite !(LookupOption_none rendered_keys) by (done || apply queryValues_keys).
  destruct (tls_InsecureStated (sp_TLS s)); [by destruct (tls_Insecure (sp_TLS s))|]. by rewrite Hi.
Qed.

Lemma resolved_alpn : splitList (LookupOption q "alpn" []) = tls_ALPN (sp_TLS s).
Proof.
  pose proof (lo_tls s Hok) as (_ & _ & _ & _ & _ & _ & Ha & _).
  assert (Hq : q !! "alpn" = if negb (bool_decide (tls_ALPN (sp_TLS s) = [])) then Some [Join (char 44) (tls_ALPN (sp_TLS s))] else None) by rendered.
  rewrite (look "alpn" [] "alpn" _ _ eq_refl Hq) by (by apply Join_trimmed).
  case_bool_decide as Hn; cbn [negb]; [by rewrite Hn|]. by apply splitList_Join.
Qed.

(** The canonical options of the rendered query. *)
Lemma rendered_option target (b : bool) (x : string) :
  canonically rendered_keys target = true → scalar_option (normalizeQueryKey target) = true →
  q !! target = (if b then Some [x] else None) →
  FirstOption (normalizeQuery p q) (normalizeQueryKey target) =
    or_default (if b then canonical_value (normalizeQueryKey target) x else "") (default_option p (normalizeQueryKey target)).
Proof.
  intros Hc Hk Hq. rewrite FirstOption_normalize by done. f_equal.
  rewrite (collected_single rendered_keys) by (done || apply queryValues_keys || apply queryValues_singles).
  rewrite Hq. by destruct b.
Qed.

Lemma resolved_security : FirstOption (normalizeQuery p q) "security" = tls_Security (sp_TLS s).
Proof.
  pose proof (lo_tls s Hok) as (_ & Hc & Hne & _).
  pose proof (rendered_option "security" _ _ eq_refl eq_refl (rendered_security s)) as H.
  change (normalizeQueryKey "security") with "security" in H. rewrite H. clear H. rewrite Hc.
  destruct (renderable_spec s Hren) as (Hnone & _).
  destruct (nonempty (tls_Security (sp_TLS s))) eqn:Hn; cbn [andb].
  - destruct (decide (tls_Security (sp_TLS s) = "none")) as [E|E].
    + rewrite bool_decide_eq_true_2 in * by done. cbn [negb orb] in *. unfold default_option, or_default.
      cbn. rewrite E. assert (is_in p ["vless"; "vmess"] = true) as -> by (apply is_in_spec; destruct (Hnone E); set_solver). done.
    + rewrite bool_decide_eq_false_2 by done. cbn [negb]. unfold or_default. by rewrite Hn.
  - assert (tls_Security (sp_TLS s) = "") as E by (by destruct (tls_Security (sp_TLS s))). rewrite E in *.
    unfold or_default. change (nonempty "") with false. cbv iota.
    destruct (decide (default_option p "security" = "")) as [->|Hd]; [done|]. by destruct (Hne Hd).
Qed.

Lemma resolved_tls server options :
  server = sp_Server s → FirstOption options "security" = tls_Security (sp_TLS s) →
  resolveTLS p server options q = sp_TLS s.
Proof.
  intros -> Hsec. unfold resolveTLS. rewrite resolved_insecure, Hsec, resolved_alpn.
  pose proof (lo_tls s Hok) as (He & _ & _ & Hn & Hh & _ & _ & Hf & Hp & Hi).
  unfold TLSServerName.
  rewrite (look_field "sni" ["peer"; "servername"; "server_name"] "sni" (tls_ServerName (sp_TLS s)) eq_refl) by (done || rendered).
  rewrite (look_field "fp" [] "fp" (tls_Fingerprint (sp_TLS s)) eq_refl) by (done || rendered).
  rewrite (look_field "pbk" [] "pbk" (tls_PublicKey (sp_TLS s)) eq_refl) by (done || rendered).
  rewrite (look_field "sid" [] "sid" (tls_ShortID (sp_TLS s)) eq_refl) by (done || rendered).
  unfold forced_tls in He. rewrite <-He.
  assert ((if is_in p ["hysteria2"; "anytls"] && negb (nonempty (tls_ServerName (sp_TLS s))) then sp_Server s
           else tls_ServerName (sp_TLS s)) = tls_ServerName (sp_TLS s)) as ->.
  { destruct (is_in p ["hysteria2"; "anytls"]) eqn:Hp'; [|done]. pose proof (Hh eq_refl) as Hne. apply nonempty_true in Hne. by rewrite Hne. }
  by destruct (sp_TLS s).
Qed.

Lemma resolved_transport : resolveTransport p q = if v2ray p then sp_Transport s else no_transport.
Proof.
  unfold resolveTransport. fold (v2ray p). pose proof (lo_transport s Hok) as Ht. unfold transport_ok in Ht.
  destruct (v2ray p) eqn:Hv; [|done]. destruct Ht as (Ht & Hl & Hne & Hp & Hh & Hs).
  assert (Hq : ∀ k (x : string), q !! k = (if v2ray p && nonempty x then Some [x] else None) →
               q !! k = if nonempty x then Some [x] else None) by (intros k x ->; by rewrite Hv).
  assert (Hne' := Hne). apply nonempty_true in Hne'.
  rewrite (look_first "type" ["network"] "type" (tr_Type (sp_Transport s)) eq_refl) by (done || (rewrite (Hq "type" (tr_Type (sp_Transport s))); [by rewrite Hne'|rendered])).
  rewrite (look_field "path" [] "path" (tr_Path (sp_Transport s)) eq_refl) by (done || (apply Hq; rendered)).
  rewrite (look_field "host" [] "host" (tr_Host (sp_Transport s)) eq_refl) by (done || (apply Hq; rendered)).
  rewrite (look_field "servicename" ["serviceName"; "service_name"; "grpc-service-name"] "serviceName"
             (tr_ServiceName (sp_Transport s)) eq_refl) by (done || (apply Hq; rendered)).
  rewrite Hl, Hne'. by destruct (sp_Transport s).
Qed.

(** A text field of the protocol [name] alone. *)
Lemma look_only name key aliases target x :
  reads rendered_keys (key :: aliases) target = true → only [name] p x →
  q !! target = (if bool_decide (p = name) && nonempty x then Some [x] else None) →
  (if is_in p [name] then LookupOption q key aliases else "") = x.
Proof.
  intros Hr Hx Hq. unfold only in Hx. destruct (is_in p [name]) eqn:Hp; [|done].
  apply is_in_spec in Hp. rewrite bool_decide_eq_true_2 in Hq by set_solver. by apply (look_field key aliases target).
Qed.

Lemma solid_Itoa z : trimmed (Itoa z).
Proof.
  apply solid_trimmed. unfold Itoa. destruct (Z.ltb_spec z 0).
  - rewrite every_app. apply andb_true_intro. split; [done|].
    apply (every_impl is_digit); [by_bytes|apply decimal_digits; lia].
  - apply (every_impl is_digit); [by_bytes|apply decimal_digits; lia].
Qed.

Lemma Itoa_nonempty z : nonempty (Itoa z) = true.
Proof.
  apply nonempty_true. unfold Itoa. destruct (z <? 0); [done|]. apply decimal_nonempty.
Qed.

Lemma DefaultString_trimmed v d : trimmed v → v ≠ "" → DefaultString v d = v.
Proof. intros Hv Hne. unfold DefaultString. rewrite Hv. apply nonempty_true in Hne. by rewrite Hne. Qed.

Lemma resolved_alter options :
  FirstOption options "alterid" = FirstOption (normalizeQuery p q) "alterid" →
  (if is_in p ["vmess"] then (Atoi (DefaultString (FirstOption options "alterid") "0")).1 else 0) = sp_AlterID s.
Proof.
  intros ->. pose proof (lo_alter s Hok) as Ha. unfold only_number in Ha. destruct (is_in p ["vmess"]) eqn:Hp; [|done].
  pose proof (rendered_option "alterId" _ _ eq_refl eq_refl (rendered_alterId s)) as H.
  change (normalizeQueryKey "alterId") with "alterid" in H. rewrite H.
  apply is_in_spec in Hp. rewrite bool_decide_eq_true_2 by set_solver.
  change (canonical_value "alterid" (Itoa (sp_AlterID s))) with (TrimSpace (Itoa (sp_AlterID s))).
  rewrite solid_Itoa. unfold or_default. rewrite Itoa_nonempty.
  rewrite DefaultString_trimmed by (apply solid_Itoa || apply nonempty_true, Itoa_nonempty). by rewrite Atoi_Itoa.
Qed.

Lemma resolved_cipher options :
  p ≠ "ss" → FirstOption options "encryption" = FirstOption (normalizeQuery p q) "encryption" →
  (if is_in p ["vmess"; "vless"] then FirstOption options "encryption" else "") = sp_Cipher s.
Proof.
  intros Hss ->. pose proof (lo_cipher s Hok) as Hc. destruct (is_in p ["vmess"; "vless"]) eqn:Hp; [|symmetry; by apply Hc].
  destruct Hc as [Hc Hne].
  pose proof (rendered_option "encryption" _ _ eq_refl eq_refl (rendered_encryption s)) as H.
  change (normalizeQueryKey "encryption") with "encryption" in H. rewrite H.
  destruct (renderable_spec s Hren) as (_ & Hvless & _). apply is_in_spec in Hp. destruct (decide (p = "vmess")) as [E|E].
  - rewrite bool_decide_eq_true_2 by done.
    assert (trimmed (sp_Cipher s)) as Htr.
    { unfold trimmed. rewrite <-Hc. change (canonical_value "encryption" (sp_Cipher s)) with (toLower (TrimSpace (sp_Cipher s))).
      by rewrite <-toLower_TrimSpace, TrimSpace_idem. }
    rewrite DefaultString_trimmed, Hc by done. unfold or_default. apply nonempty_true in Hne. by rewrite Hne.
  - assert (p = "vless") as Hv by set_solver. rewrite bool_decide_eq_false_2 by done. unfold or_default.
    change (nonempty "") with false. cbv iota. rewrite (Hvless Hv), Hv. done.
Qed.

Lemma resolved_rate key aliases target z :
  reads rendered_keys (key :: aliases) target = true → only_number ["hysteria2"] p z → (p = "hysteria2" → 0 ≤ z) →
  q !! target = (if bool_decide (p = "hysteria2") && (0 <? z) then Some [Itoa z] else None) →
  (if is_in p ["hysteria2"] then (Atoi (LookupOption q key aliases)).1 else 0) = z.
Proof.
  intros Hr Hz Hpos Hq. unfold only_number in Hz. destruct (is_in p ["hysteria2"]) eqn:Hp; [|done].
  apply is_in_spec in Hp. assert (p = "hysteria2") as E by set_solver. specialize (Hpos E).
  rewrite (look key aliases target _ _ Hr Hq) by apply solid_Itoa. rewrite bool_decide_eq_true_2 by done. cbn [andb].
  destruct (Z.ltb_spec 0 z); [by rewrite Atoi_Itoa|]. assert (z = 0) as -> by lia. done.
Qed.

(** Every field but the credentials of a link that is not shadowsocks. *)
Lemma resolved_fields options authority cauth :
  p ≠ "ss" → (∀ k, scalar_option k = true → FirstOption options k = FirstOption (normalizeQuery p q) k) →
  let r := resolveFields p (sp_Server s) (sp_Port s) (sp_Name s) cauth options authority q in
  sp_TLS r = sp_TLS s ∧ sp_Transport r = (if v2ray p then sp_Transport s else no_transport) ∧ sp_Plugin r = sp_Plugin s ∧
  sp_AlterID r = sp_AlterID s ∧ sp_Cipher r = sp_Cipher s ∧ sp_Flow r = sp_Flow s ∧ sp_PacketEncoding r = sp_PacketEncoding s ∧
  sp_UpMbps r = sp_UpMbps s ∧ sp_DownMbps r = sp_DownMbps s ∧ sp_Obfs r = sp_Obfs s ∧ sp_ObfsPassword r = sp_ObfsPassword s ∧
  sp_Network r = sp_Network s.
Proof.
  intros Hss Ho. unfold resolveFields.
  cbn [sp_TLS sp_Transport sp_Plugin sp_AlterID sp_Cipher sp_Flow sp_PacketEncoding sp_UpMbps sp_DownMbps sp_Obfs sp_ObfsPassword sp_Network].
  pose proof (lo_plugin s Hok) as [Hpn Hpo]. pose proof (lo_flow s Hok) as [Hfl Hpe].
  pose proof (lo_rates s Hok) as [Hup Hdn]. pose proof (lo_obfs s Hok) as [Hob Hopw]. pose proof (lo_network s Hok) as Hnet.
  assert (Hss' : is_in p ["ss"] = false) by (apply bool_decide_eq_false; set_solver).
  unfold only in Hpn, Hpo. rewrite Hss' in *.
  destruct (renderable_spec s Hren) as (_ & _ & Hhttp & _ & Hhy & _).
  split_and!.
  - apply resolved_tls; [done|]. rewrite Ho by done. apply resolved_security.
  - apply resolved_transport.
  - destruct (sp_Plugin s); cbn in *; by subst.
  - apply resolved_alter. by apply Ho.
  - apply resolved_cipher; [done|]. by apply Ho.
  - apply (look_only "vless" _ _ "flow"); [done|done|rendered].
  - apply (look_only "vless" _ _ "packetencoding"); [done|done|rendered].
  - apply (resolved_rate _ _ "upMbps"); [done|done|naive_solver|rendered].
  - apply (resolved_rate _ _ "downMbps"); [done|done|naive_solver|rendered].
  - apply (look_only "hysteria2" _ _ "obfs"); [done|done|rendered].
  - unfold only in Hopw. destruct (is_in p ["hysteria2"]) eqn:Hp; [|done].
    apply is_in_spec in Hp. assert (p = "hysteria2") as E by set_solver.
    assert (Hq : q !! "obfs-password" = if bool_decide (p = "hysteria2") && nonempty (sp_Obfs s) then Some [sp_ObfsPassword s] else None) by rendered.
    rewrite (look "obfs-password" ["obfsPassword"; "obfs_password"] "obfs-password" _ _ eq_refl Hq Hopw), bool_decide_eq_true_2 by done. cbn [andb].
    destruct (nonempty (sp_Obfs s)) eqn:Hn; [done|]. destruct (Hhy E) as [[H| ->] _]; [|done]. apply nonempty_true in H. by rewrite Hn in H.
  - unfold only in Hnet. destruct (is_in p ["http"; "socks5"]) eqn:Hp; [|done].
    assert (Hq : q !! "network" = if bool_decide (p = "socks5") && nonempty (sp_Network s) then Some [sp_Network s] else None) by rendered.
    rewrite (look "network" [] "network" _ _ eq_refl Hq Hnet). case_bool_decide as E; cbn [andb]; [by destruct (sp_Network s)|].
    apply is_in_spec in Hp. assert (p = "http") as Eh by set_solver. by destruct (Hhttp Eh) as [-> _].
Qed.
End resolve.
