(* ===== verification/LinkRoundTrip.v ===== *)
(** A parsed proxy link, rendered and parsed again, is the same connection: the
    server part, the evaluation of [FromURI] on the text of [ToURI], the invariant
    of the specs [FromURI] makes, and the theorems. *)
From S2P Require Import Prelude Text NetIP NetURL NodeCodec NodeLink.

#[local] Open Scope Z_scope.

(** ** Servers *)
Definition host_char (c : Ascii.ascii) : bool := is_alnum c || byte_is 45 c || byte_is 46 c.
Definition lower_host_char (c : Ascii.ascii) : bool := within 97 122 c || is_digit c || byte_is 45 c || byte_is 46 c.

(** What [idna.Lookup.ToASCII] documents of its results: letters, digits, hyphens
    and dots (the STD3 rules), in lower case a fixed point of the conversion. *)
Class IdnaLaws `{!CodecLibraries} : Prop := {
  idna_ascii h a : idna_ToASCII h = Some a → every host_char a = true;
  idna_stable h a : idna_ToASCII h = Some a → idna_ToASCII (toLower a) = Some (toLower a)
}.

Lemma every_toLower (P Q : Ascii.ascii → bool) s :
  (∀ c, P c = true → Q (lower_char c) = true) → every P s = true → every Q (toLower s) = true.
Proof. intros HPQ. induction s as [|c s IH]; [done|]. cbn. intros [Hc Hs]%andb_prop. by rewrite HPQ, IH. Qed.

Definition steady (c : Ascii.ascii) : bool := bool_decide (lower_char c = c) && negb (is_space c).

Lemma steady_text s : every steady s = true → toLower s = s ∧ trimmed s.
Proof.
  intros Hs. split.
  - induction s as [|c s IH]; [done|]. cbn in *. apply andb_prop in Hs as [[Hc%bool_decide_eq_true_1 _]%andb_prop Hs].
    by rewrite Hc, IH.
  - apply solid_trimmed. revert Hs. apply every_impl. intros c [_ H]%andb_prop. done.
Qed.

Section servers.
Context `{!CodecLibraries, !IdnaLaws}.

(** A server that stands for itself: a host name or an IPv4 address, or an IPv6
    address without zone. *)
Definition server_ok (h : string) : Prop :=
  h ≠ "" ∧ normalizeHost h = Ok h ∧
  (every lower_host_char h = true ∨ (every v6_char h = true ∧ contains colon h = true ∧ ∃ gs, ParseAddr h = Some (V6 gs ""))).

Definition no_trailing_dot (h : string) : Prop := match cut_last dot h with Some (_, EmptyString) => False | _ => True end.

Lemma normalizeHost_steady h :
  every steady h = true → h ≠ "" → no_trailing_dot h →
  normalizeHost h = match ParseAddr h with
                    | Some a => Ok (Addr_String (Unmap a))
                    | None => match idna_ToASCII h with Some a => Ok (toLower a) | None => Err ("invalid server " +:+ h) end
                    end.
Proof.
  intros Hs Hne Hdot. destruct (steady_text h Hs) as [Hl Ht]. unfold normalizeHost. rewrite Ht, Hl.
  assert ((match cut_last dot h with Some (h', EmptyString) => h' | _ => h end) = h) as ->.
  { unfold no_trailing_dot in Hdot. by destruct (cut_last dot h) as [[? [|]]|]. }
  apply nonempty_true in Hne. by rewrite Hne.
Qed.

Lemma contains_none (P sep : Ascii.ascii → bool) s :
  (∀ c, P c = true → negb (sep c) = true) → every P s = true → contains sep s = false.
Proof. intros HP Hs. apply contains_false. by apply (every_impl P). Qed.

(** A normalised host is a server that stands for itself. *)
Lemma normalizeHost_ok host h :
  normalizeHost host = Ok h → h ≠ "" → contains percent h = false → no_trailing_dot h → server_ok h.
Proof.
  unfold normalizeHost. set (host' := match cut_last dot _ with Some (_, EmptyString) => _ | _ => _ end).
  destruct (negb (nonempty host')); [intros [= <-]; done|].
  destruct (ParseAddr host') as [a|] eqn:Ha.
  - intros [= <-] Hne Hp Hdot. destruct (Unmap_ok a (ParseAddr_ok _ _ Ha)) as [Hok Hfix]. revert Hok Hfix Hne Hp Hdot.
    generalize (Unmap a). clear. intros a Hok Hfix Hne Hp Hdot. unfold server_ok.
    assert (Hz : match a with V6 _ zone => zone = "" | V4 _ => True end).
    { destruct a as [|gs zone]; [done|]. cbn in Hp. destruct (nonempty zone) eqn:Hz; [|by destruct zone].
      exfalso. apply contains_false in Hp. rewrite every_app in Hp. apply andb_prop in Hp as [_ Hp]. done. }
    pose proof (ParseAddr_String a Hok Hfix Hz) as Hpa. split; [done|]. destruct a as [bytes|gs zone].
    + assert (Hc : every v4_char (v4_text bytes) = true) by (apply v4_text_chars; apply Hok).
      split; [|left; revert Hc; apply every_impl; by_bytes].
      rewrite normalizeHost_steady; [by rewrite Hpa, Hfix| |done|done]. revert Hc. apply every_impl. by_bytes.
    + subst zone. cbn [Unmap Addr_String] in *. destruct (Is4In6 gs) eqn:E4; [done|].
      change (nonempty "") with false in *. cbv iota in *. rewrite append_nil_r in *.
      split; [|right; split_and!; [apply v6_text_chars|apply v6_text_colon; apply Hok|eauto]].
      rewrite normalizeHost_steady; [|apply (every_impl v6_char); [by_bytes|apply v6_text_chars]|done|done].
      rewrite Hpa. cbn [Unmap]. rewrite E4. cbn [Addr_String]. rewrite E4. by rewrite append_nil_r.
  - destruct (idna_ToASCII host') as [ascii|] eqn:Hi; [|done]. intros [= <-] Hne _ Hdot. unfold server_ok.
    assert (Hc : every lower_host_char (toLower ascii) = true).
    { apply (every_toLower host_char); [by_bytes|by eapply idna_ascii]. }
    split; [done|]. split; [|by left].
    rewrite normalizeHost_steady; [|revert Hc; apply every_impl; by_bytes|done|done].
    destruct (ParseAddr (toLower ascii)) as [a|] eqn:Hpa; [|by rewrite (idna_stable _ _ Hi), toLower_idem].
    assert (Unmap a = a ∧ Addr_String a = toLower ascii) as [-> ->]; [|done].
    apply ParseAddr_plain; [..|done].
    + by apply (contains_none lower_host_char); [by_bytes|].
    + by apply (contains_none lower_host_char); [by_bytes|].
Qed.

Lemma Itoa_digits n : 0 ≤ n → every is_digit (Itoa n) = true ∧ Itoa n ≠ "".
Proof.
  intros Hn. unfold Itoa. destruct (Z.ltb_spec n 0); [lia|]. split; [by apply decimal_digits|apply decimal_nonempty].
Qed.

Definition separated (h : string) (n : Z) : Prop :=
  let host := JoinHostPort h (Itoa n) in
  host ≠ "" ∧ plain_host host = true ∧ (∀ scheme, parseHost scheme host = Some host) ∧ splitHostPort host = (h, Itoa n).

Lemma join_plain h n : every lower_host_char h = true → h ≠ "" → 0 ≤ n → separated h n.
Proof.
  intros Hh Hne Hn. destruct (Itoa_digits n Hn) as [Hd Hdne]. unfold separated, JoinHostPort.
  rewrite (contains_none lower_host_char) by (done || by_bytes).
  assert (Hhc : every (λ c, negb (colon c)) h = true) by (apply (every_impl lower_host_char); [by_bytes|done]).
  assert (Hdc : every (λ c, negb (colon c)) (Itoa n) = true) by (apply (every_impl is_digit); [by_bytes|done]).
  assert (Hpl : plain_host (h +:+ ":" +:+ Itoa n) = true).
  { unfold plain_host. rewrite !every_app. apply andb_true_intro. split.
    - apply (every_impl lower_host_char); [by_bytes|done].
    - apply andb_true_intro. split; [done|]. apply (every_impl is_digit); [by_bytes|done]. }
  split_and!; [by destruct h|done| |].
  - intros scheme. unfold parseHost. rewrite cut_last_miss.
    + rewrite append_cons, append_nil_l. rewrite cut_last_hit, cut_hit by done.
      assert (validOptionalPort (":" +:+ Itoa n) = true) as Hv by (rewrite append_cons, append_nil_l; done).
      destruct (_ || _); rewrite Hv; by apply plain_host_unescape.
    + rewrite !every_app. apply andb_true_intro. split; [apply (every_impl lower_host_char); [by_bytes|done]|].
      apply andb_true_intro. split; [done|]. apply (every_impl is_digit); [by_bytes|done].
  - unfold splitHostPort. rewrite append_cons, append_nil_l, cut_last_hit by done. rewrite Hd.
    destruct (strip_prefix "[" h) as [r|] eqn:E; [|done]. exfalso. destruct h as [|c h]; [done|]. cbn in E.
    destruct (decide _) as [<-|]; [|done]. done.
Qed.

Lemma join_v6 h n gs :
  every v6_char h = true → contains colon h = true → ParseAddr h = Some (V6 gs "") → 0 ≤ n → separated h n.
Proof.
  intros Hh Hcol Hpa Hn. destruct (Itoa_digits n Hn) as [Hd Hdne]. unfold separated, JoinHostPort. rewrite Hcol.
  assert (Hb : every (λ c, negb (close_bracket c)) h = true) by (apply (every_impl v6_char); [by_bytes|done]).
  assert (Hpl : plain_host h = true) by (apply (every_impl v6_char); [by_bytes|done]).
  assert (Hdp : plain_host (Itoa n) = true) by (apply (every_impl is_digit); [by_bytes|done]).
  assert (Hcp : plain_host (":" +:+ Itoa n) = true) by done.
  assert (Hdb : every (λ c, negb (close_bracket c)) (Itoa n) = true) by (apply (every_impl is_digit); [by_bytes|done]).
  assert (Hdo : every (λ c, negb (open_bracket c)) (h +:+ "]:" +:+ Itoa n) = true).
  { rewrite !every_app. apply andb_true_intro. split; [apply (every_impl v6_char); [by_bytes|done]|].
    apply andb_true_intro. split; [done|]. apply (every_impl is_digit); [by_bytes|done]. }
  change ("[" +:+ h +:+ "]:" +:+ Itoa n) with ("" +:+ String (char 91) (h +:+ "]:" +:+ Itoa n)).
  split_and!; [done| | |].
  - rewrite append_nil_l. change (negb (shouldEscape (char 91) encodeHost) && plain_host (h +:+ "]:" +:+ Itoa n) = true).
    unfold plain_host in *. by rewrite !every_app, Hpl, Hdp.
  - intros scheme. unfold parseHost. rewrite cut_last_hit by done. change (nonempty "") with false. cbv iota.
    rewrite append_cons, append_nil_l.
    rewrite (cut_last_hit close_bracket h) by done. rewrite append_cons, append_nil_l.
    match goal with |- context [validOptionalPort ?x] => assert (validOptionalPort x = true) as -> by done end. cbn [negb].
    rewrite plain_host_unescape by done.
    rewrite find_sub_miss; last first.
    { apply (every_impl v6_char); [by_bytes|done]. }
    rewrite plain_host_unescape, Hpa by done. by rewrite append_cons, append_nil_l.
  - unfold splitHostPort. rewrite append_nil_l.
    assert (Hsplit : String (char 91) (h +:+ "]:" +:+ Itoa n) = String (char 91) (h +:+ "]") +:+ String (char 58) (Itoa n)).
    { rewrite (append_cons (char 91)), append_assoc. done. }
    rewrite Hsplit, cut_last_hit by (apply (every_impl is_digit); [by_bytes|done]) || done.
    rewrite Hd. cbn [strip_prefix]. rewrite decide_True by done.
    change (h +:+ "]") with (h +:+ String (char 93) ""). rewrite cut_last_hit by done. done.
Qed.
End servers.

(** ** The text of a spec *)
Lemma scheme_of p : p ∈ protocols → scheme_ok p ∧ NormalizeProtocol p = p.
Proof.
  intros Hp. assert (Hall : Forall (λ p, scheme_ok p ∧ NormalizeProtocol p = p) protocols).
  { repeat constructor; vm_compute; done. }
  rewrite Forall_forall in Hall. by apply Hall.
Qed.

Definition unspaced (c : Ascii.ascii) : bool := negb (is_space c).

Section text.
Context `{!CodecLibraries, !IdnaLaws}.
Variable s : Spec.
Notation p := (sp_Protocol s).
Notation u := (rendered_url s).
Hypothesis Hok : link_ok s.
Hypothesis Hren : renderable s = true.
Hypothesis Hsrv : server_ok (sp_Server s).

Lemma b64_nonempty x : x ≠ "" → b64_encode x ≠ "".
Proof. destruct x as [|a [|b [|c x]]]; done. Qed.

Lemma rendered_user_ok : user_ok (rendered_user s).
Proof.
  pose proof (lo_auth s Hok) as (Hpw & Hid & Hun). unfold rendered_user.
  destruct (is_in p ["vmess"; "vless"]) eqn:E1; [split; [left; by destruct Hid|done]|].
  destruct (decide (p = "ss")) as [E2|E2]; [split; [left; apply b64_nonempty; by destruct (sp_Cipher s)|done]|].
  change (is_in p ["trojan"; "hysteria2"; "anytls"]) with (forced_tls p). destruct (forced_tls p).
  { destruct (a_PasswordSet (sp_Auth s)); split; cbn; try done; [by right|left; by apply Hun]. }
  destruct (is_in p ["http"; "socks5"] && _); [|done]. split; [by right|done].
Qed.

Lemma rendered_separated : separated (sp_Server s) (sp_Port s).
Proof.
  destruct Hsrv as (Hne & _ & [Hh|(Hh & Hc & gs & Hpa)]); pose proof (lo_port s Hok).
  - apply join_plain; [done|done|lia].
  - apply (join_v6 _ _ gs); [done..|lia].
Qed.

Lemma rendered_url_ok : url_ok u.
Proof.
  destruct rendered_separated as (Hne & Hpl & Hph & _). destruct (scheme_of p (lo_protocol s Hok)) as [Hsc _].
  split; cbn; try done.
  - apply rendered_user_ok.
  - destruct (decide (p = "http")) as [E|E]; [|by left]. pose proof (lo_transport s Hok) as Ht. unfold transport_ok in Ht.
    assert (v2ray p = false) as Hv by (by rewrite E). rewrite Hv, decide_True in Ht by done. apply Ht.
  - apply (every_impl encoded_char); [by_bytes|apply Values_Encode_chars].
Qed.

Lemma ToURI_parses : Parse (ToURI s) = Some u.
Proof. apply Parse_String, rendered_url_ok. Qed.

Lemma rendered_host : Hostname u = sp_Server s ∧ Port u = Itoa (sp_Port s).
Proof. destruct rendered_separated as (_ & _ & _ & Hs). unfold Hostname, Port. cbn [u_Host rendered_url]. by rewrite Hs. Qed.

Lemma rendered_query : Query u = queryValues s.
Proof.
  unfold Query. cbn [u_RawQuery rendered_url]. destruct (decide (queryValues s = ∅)) as [->|Hne]; [apply ParseQuery_nil|].
  apply ParseQuery_Encode; [apply queryValues_singles|done].
Qed.

Lemma rendered_path : EscapedPath u = if decide (p = "http") then tr_Path (sp_Transport s) else "".
Proof.
  unfold EscapedPath. cbn [u_RawPath u_Path rendered_url]. unfold escaped. change (nonempty "" && _ && _) with false. cbv iota.
  pose proof (uo_path u rendered_url_ok) as Hpath. cbn in Hpath.
  rewrite decide_False by (by destruct Hpath as [->|[r ->]]).
  destruct (decide (p = "http")) as [E|E]; [|done].
  destruct (renderable_spec s Hren) as (_ & _ & Hh & _). by destruct (Hh E).
Qed.

(** After the scheme: authority, path, query and fragment. *)
Definition rest_text : string :=
  ((user_text (rendered_user s) +:+ u_Host u) +:+ escape encodePath (u_Path u)
     +:+ (if nonempty (u_RawQuery u) then "?" +:+ u_RawQuery u else "")).

Lemma ToURI_text : ToURI s = p +:+ "://" +:+ rest_text +:+ fragment_text (sp_Name s).
Proof.
  unfold ToURI. rewrite URL_String_ok by apply rendered_url_ok. unfold url_text, rest_text. cbn [u_Scheme u_User u_Fragment rendered_url].
  rewrite !append_assoc. reflexivity.
Qed.

Lemma every_rest (P : Ascii.ascii → bool) :
  forallb (λ c, implb (scheme_char c || negb (shouldEscape c encodeHost) || user_char c || slash c || encoded_char c || question c) (P c)) all_bytes = true →
  forallb (λ c, every P (escape_byte encodePath c)) all_bytes = true →
  every P rest_text = true.
Proof.
  intros HP Hpath. pose proof (byte_cases _ _ HP) as Hc. cbv beta in Hc.
  assert (HP' : forallb (λ c, implb (scheme_char c || negb (shouldEscape c encodeHost) || user_char c || slash c) (P c)) all_bytes = true).
  { apply forallb_forall. intros c _. destruct (_ || slash c) eqn:E; [|done]. cbn. apply Hc. by rewrite E. }
  pose proof (every_url_text P u rendered_url_ok HP' Hpath) as Hx.
  unfold rest_text. rewrite !every_app in *. apply andb_prop in Hx as [_ Hx]. apply andb_prop in Hx as [_ Hx].
  apply andb_prop in Hx as [_ Hx]. apply andb_prop in Hx as [Ha Hp']. cbn [u_User rendered_url] in Ha. rewrite Ha, Hp'. cbn [andb].
  destruct (nonempty (u_RawQuery u)); [|done]. rewrite every_app. apply andb_true_intro. split.
  - change (P (char 63) && true = true). by rewrite Hc.
  - apply (every_impl encoded_char); [|apply Values_Encode_chars]. intros c E. apply Hc. by rewrite E, !orb_true_r.
Qed.

Lemma rest_unspaced : every unspaced rest_text = true.
Proof. apply every_rest; vm_compute; reflexivity. Qed.

Lemma protocol_unspaced : every unspaced p = true.
Proof.
  destruct (scheme_of p (lo_protocol s Hok)) as [(_ & Hs & _) _]. revert Hs. apply every_impl. by_bytes.
Qed.

Lemma ToURI_unspaced : every unspaced (ToURI s) = true.
Proof.
  rewrite ToURI_text, !every_app, protocol_unspaced, rest_unspaced. cbn [andb].
  apply andb_true_intro. split; [done|]. unfold fragment_text. destruct (nonempty _); [|done]. rewrite every_app.
  apply andb_true_intro. split; [done|]. apply escape_every. vm_compute. reflexivity.
Qed.

Lemma ToURI_trimmed : TrimLink (ToURI s) = ToURI s ∧ ToURI s ≠ "".
Proof.
  pose proof (solid_trimmed _ ToURI_unspaced) as Ht. destruct (scheme_of p (lo_protocol s Hok)) as [(Hc & _) _].
  unfold TrimLink. rewrite Ht. unfold TrimPrefix. rewrite ToURI_text in *. destruct p as [|c r]; [done|].
  rewrite append_cons in *. split; [|done].
  assert (strip_prefix BOM (String c (r +:+ "://" +:+ rest_text +:+ fragment_text (sp_Name s))) = None) as ->; [|done].
  unfold BOM. cbn [strip_prefix]. rewrite decide_False; [done|]. by intros <-.
Qed.

Lemma find_scheme : find_sub "://" (ToURI s) = Some (p, rest_text +:+ fragment_text (sp_Name s)).
Proof.
  rewrite ToURI_text. apply find_sub_hit. destruct (scheme_of p (lo_protocol s Hok)) as [(_ & Hs & _) _].
  revert Hs. apply every_impl. by_bytes.
Qed.

Lemma ToURI_scheme : URIScheme (ToURI s) = p.
Proof.
  destruct (scheme_of p (lo_protocol s Hok)) as [(Hc & _) Hn]. unfold URIScheme. rewrite (proj1 ToURI_trimmed), find_scheme.
  assert (nonempty p = true) as -> by (apply nonempty_true; by destruct p). done.
Qed.

Lemma b64_decode_chars e x y : b64_decode e x = Some y → every (λ c, negb (byte_is 64 c)) x = true.
Proof.
  assert (Hc : ∀ c v, sextet e c = Some v → byte_is 64 c = false).
  { intros c v Hv. destruct (byte_is 64 c) eqn:E; [|done]. unfold byte_is in E. apply Z.eqb_eq in E.
    assert (c = char 64) as -> by (symmetry; by apply char_eq). by destruct e. }
  assert (Hp : ∀ c, is_pad e c = true → byte_is 64 c = false).
  { intros c [_ E]%andb_prop. unfold byte_is in *. apply Z.eqb_eq in E. rewrite E. done. }
  revert x y. apply (string_groups 4 (λ x, ∀ y, b64_decode e x = Some y → every (λ c, negb (byte_is 64 c)) x = true)); [lia|].
  intros x IH y. destruct x as [|a [|b [|c [|d rest]]]]; cbn [b64_decode]; [done|done|..].
  all: destruct (sextet e a) eqn:Ha; [|done]; destruct (sextet e b) eqn:Hb; [|done]; cbn [every].
  all: rewrite (Hc _ _ Ha), (Hc _ _ Hb); cbn [negb andb].
  - done.
  - destruct (padded e); [done|]. destruct (sextet e c) eqn:Hd; [|done]. by rewrite (Hc _ _ Hd).
  - destruct (is_pad e c) eqn:Pc.
    + destruct (is_pad e d) eqn:Pd; [|done]. cbn [andb]. case_bool_decide as Hr; [|done]. by rewrite (Hp _ Pc), (Hp _ Pd), Hr.
    + destruct (sextet e c) eqn:Hd; [|done]. rewrite (Hc _ _ Hd). destruct (is_pad e d) eqn:Pd.
      * case_bool_decide as Hr; [|done]. by rewrite (Hp _ Pd), Hr.
      * destruct (sextet e d) eqn:He; [|done]. rewrite (Hc _ _ He). destruct (b64_decode e rest) eqn:Hrest; [|done].
        intros _. cbn [negb andb]. eapply IH; [cbn; lia|done].
Qed.

Lemma drop_blank_solid x : every unspaced x = true → drop_chars blank (TrimSpace x) = x.
Proof.
  intros Hx. rewrite (solid_trimmed x Hx). induction x as [|c x IH]; [done|]. cbn in *. apply andb_prop in Hx as [Hc Hx].
  assert (blank c = false) as -> by (apply negb_true_iff; revert c Hc; by_bytes). by rewrite IH.
Qed.

(** The payload of a rendered link has an "@" and is no base64. *)
Lemma not_base64 : rendered_user s ≠ None → DecodeBase64Loose (payload_of (ToURI s) (byte_is 35)) = None.
Proof.
  intros Hu. assert (Hp : payload_of (ToURI s) (byte_is 35) = rest_text).
  { unfold payload_of. rewrite find_scheme. unfold Cut.
    assert (Hr : every (λ c, negb (byte_is 35 c)) rest_text = true) by (apply every_rest; vm_compute; reflexivity).
    unfold fragment_text. destruct (nonempty (sp_Name s)).
    - by rewrite append_cons, append_nil_l, cut_hit.
    - by rewrite append_nil_r, cut_miss. }
  rewrite Hp. unfold DecodeBase64Loose. rewrite drop_blank_solid by apply rest_unspaced.
  assert (Hnone : ∀ e, b64_decode e rest_text = None).
  { intros e. destruct (b64_decode e rest_text) eqn:E; [|done]. apply b64_decode_chars in E. exfalso.
    unfold rest_text in E. destruct (rendered_user s) as [ui|]; [|done]. cbn [user_text] in E.
    rewrite !every_app in E. cbn in E. by rewrite !andb_false_r in E. }
  cbn. by rewrite !Hnone.
Qed.
End text.

(** ** Reading the rendered link *)

(** The fields of a spec that make the connection, and its name. *)
Definition same_connection (s s' : Spec) : Prop :=
  sp_Protocol s' = sp_Protocol s ∧ sp_Server s' = sp_Server s ∧ sp_Port s' = sp_Port s ∧ sp_Name s' = sp_Name s ∧
  (if is_in (sp_Protocol s) ["vmess"; "vless"] then a_UUID (sp_Auth s') = a_UUID (sp_Auth s) else sp_Auth s' = sp_Auth s) ∧
  sp_TLS s' = sp_TLS s ∧ sp_Transport s' = sp_Transport s ∧ sp_Plugin s' = sp_Plugin s ∧
  sp_AlterID s' = sp_AlterID s ∧ sp_Cipher s' = sp_Cipher s ∧ sp_Flow s' = sp_Flow s ∧ sp_PacketEncoding s' = sp_PacketEncoding s ∧
  sp_UpMbps s' = sp_UpMbps s ∧ sp_DownMbps s' = sp_DownMbps s ∧ sp_Obfs s' = sp_Obfs s ∧ sp_ObfsPassword s' = sp_ObfsPassword s ∧
  sp_Network s' = sp_Network s.

Lemma same_connection_Equal s s' : same_connection s s' → Spec_Equal s s' = true.
Proof.
  intros (E1 & E2 & E3 & _ & Ea & E4 & E5 & E6 & E7 & E8 & E9 & E10 & E11 & E12 & E13 & E14 & E15).
  unfold Spec_Equal, TLS_Equal. rewrite E1, E2, E3, E4, E5, E6, E7, E8, E9, E10, E11, E12, E13, E14, E15.
  rewrite !Z.eqb_refl. rewrite !(bool_decide_eq_true_2 (_ = _)) by done.
  destruct (is_in (sp_Protocol s) ["vmess"; "vless"]); rewrite Ea;
    [|destruct (decide (sp_Protocol s = "ss")); [|destruct (is_in (sp_Protocol s) _)]].
  all: rewrite ?(bool_decide_eq_true_2 (_ = _)) by done; done.
Qed.

Lemma same_connection_ToURI s s' : same_connection s s' → ToURI s' = ToURI s.
Proof.
  intros (E1 & E2 & E3 & En & Ea & E4 & E5 & E6 & E7 & E8 & E9 & E10 & E11 & E12 & E13 & E14 & E15).
  assert (Hq : queryValues s' = queryValues s).
  { unfold queryValues. by rewrite E1, E4, E5, E6, E7, E8, E9, E10, E11, E12, E13, E14, E15. }
  assert (Hu : rendered_user s' = rendered_user s).
  { unfold rendered_user. rewrite E1, E8. destruct (is_in (sp_Protocol s) ["vmess"; "vless"]); by rewrite Ea. }
  unfold ToURI, rendered_url. by rewrite E1, E2, E3, E5, En, Hq, Hu.
Qed.

Lemma is_in_swap x a b : is_in x [a; b] = is_in x [b; a].
Proof. unfold is_in. apply bool_decide_ext. set_solver. Qed.

Section reading.
Context `{!RangeOrder string, !CodecLibraries, !IdnaLaws}.
Variable s : Spec.
Notation p := (sp_Protocol s).
Notation u := (rendered_url s).
Hypothesis Hok : link_ok s.
Hypothesis Hren : renderable s = true.
Hypothesis Hsrv : server_ok (sp_Server s).

Lemma rendered_port : parsePort (Itoa (sp_Port s)) = Some (sp_Port s).
Proof.
  pose proof (lo_port s Hok) as Hp. unfold parsePort, Itoa. destruct (Z.ltb_spec (sp_Port s) 0); [lia|].
  rewrite ParseUint_decimal by (cbn; lia). by destruct (Z.eqb_spec (sp_Port s) 0); [lia|].
Qed.

Lemma FromURI_dispatch :
  FromURI (ToURI s) = if decide (p = "ss") then specFromShadowsocks (ToURI s) else specFromURLIdentity (ToURI s) p.
Proof.
  destruct (ToURI_trimmed s Hok Hsrv) as [Ht Hne]. unfold FromURI. rewrite Ht. apply nonempty_true in Hne.
  rewrite Hne, ToURI_scheme by done. destruct (scheme_of p (lo_protocol s Hok)) as [(Hc & _) _].
  assert (nonempty p = true) as -> by (apply nonempty_true; by destruct p). cbn [negb].
  destruct (decide (p = "vmess")) as [E|E].
  - rewrite decide_False by congruence. unfold specFromVMess. rewrite not_base64 by (done || (unfold rendered_user; by rewrite E)).
    by rewrite E.
  - destruct (decide (p = "ss")); [done|]. pose proof (lo_protocol s Hok) as Hp.
    assert (is_in p ["vless"; "trojan"; "hysteria2"; "anytls"; "http"; "socks5"] = true) as ->; [|done].
    apply is_in_spec. unfold protocols in Hp. set_solver.
Qed.

(** The canonical credentials of a URL. *)
Definition url_auth (user : option Userinfo) : gmap string string :=
  match user with
  | Some ui => let a := {["username" := ui_username ui]} in if ui_passwordSet ui then <["password" := ui_password ui]> a else a
  | None => ∅
  end.
Definition url_username (user : option Userinfo) : string := match user with Some ui => ui_username ui | None => "" end.

Lemma rendered_username :
  (is_in p ["vless"; "vmess"] = true ∨ is_in p ["trojan"; "hysteria2"; "anytls"] = true) → url_username (rendered_user s) ≠ "".
Proof.
  clear Hren Hsrv.
  pose proof (lo_auth s Hok) as (_ & Hid & Hun). intros Hp. unfold rendered_user.
  destruct (is_in p ["vmess"; "vless"]) eqn:E1; [apply Hid|].
  assert (Hf : forced_tls p = true).
  { destruct Hp as [Hp|Hp]; [|done]. exfalso. apply is_in_spec in Hp. unfold is_in in E1. apply bool_decide_eq_false in E1. set_solver. }
  assert (p ≠ "ss") as Hss by (intros E; by rewrite E in Hf). rewrite decide_False by done.
  change (is_in p ["trojan"; "hysteria2"; "anytls"]) with (forced_tls p). rewrite Hf. cbn.
  destruct (a_PasswordSet (sp_Auth s)); by apply Hun.
Qed.

Lemma resolved_auth :
  p ≠ "ss" →
  let cauth := url_auth (rendered_user s) in
  let cauth := if is_in p ["vless"; "vmess"] then <["username" := toLower (url_username (rendered_user s))]> cauth else cauth in
  if is_in p ["vmess"; "vless"] then a_UUID (resolveAuth p (rendered_user s) cauth) = a_UUID (sp_Auth s)
  else resolveAuth p (rendered_user s) cauth = sp_Auth s.
Proof.
  clear Hsrv.
  intros Hss. cbv zeta. pose proof (lo_auth s Hok) as (Hpw & Hid & _). unfold resolveAuth.
  pose proof (is_in_swap p "vless" "vmess") as Hsw.
  rewrite Hsw. destruct (is_in p ["vmess"; "vless"]) eqn:E1.
  - unfold rendered_user. rewrite E1. cbn. rewrite lookup_insert_eq. cbn. apply Hid.
  - unfold rendered_user. rewrite E1, decide_False by done.
    assert (Ha : ∀ a, a = sp_Auth s → mkAuth (a_Username a) (a_Password a) (a_PasswordSet a) "" = sp_Auth s).
    { intros a ->. rewrite <-Hid. by destruct (sp_Auth s). }
    destruct (is_in p ["trojan"; "hysteria2"; "anytls"]) eqn:E2.
    + destruct (a_PasswordSet (sp_Auth s)) eqn:Es; cbn; rewrite <-(Ha _ eq_refl), Es; [done|]. by rewrite Hpw.
    + destruct (is_in p ["http"; "socks5"]) eqn:E3; cbn [andb].
      * destruct (renderable_spec s Hren) as (_ & _ & _ & Hu & _).
        assert (Hset : a_PasswordSet (sp_Auth s) = true ∨ a_Username (sp_Auth s) = "") by (apply Hu; apply is_in_spec in E3; set_solver).
        destruct (nonempty (a_Username (sp_Auth s)) || a_PasswordSet (sp_Auth s)) eqn:Eu; cbn; rewrite <-(Ha _ eq_refl).
        -- destruct Hset as [->|Hn]; [done|]. rewrite Hn in Eu. change (nonempty "") with false in Eu. cbn [orb] in Eu. by rewrite Eu.
        -- apply orb_false_iff in Eu as [Hn Hs]. rewrite Hs, Hpw by done. by destruct (a_Username (sp_Auth s)).
      * exfalso. pose proof (lo_protocol s Hok) as Hp. unfold protocols, is_in in *.
        repeat match goal with H : bool_decide _ = false |- _ => apply bool_decide_eq_false in H end. set_solver.
Qed.

(** The options added to the canonical ones are no scalars. *)
Lemma scalar_kept k o key v : scalar_option k = true → scalar_option key = false → v ≠ "" → FirstOption (setDefault o key v) k = FirstOption o k.
Proof. intros Hk Hkey Hv. rewrite FirstOption_setDefault by done. rewrite decide_False; [done|]. intros ->. congruence. Qed.

Lemma link_of_url :
  p ≠ "ss" → ∃ s', specFromURLIdentity (ToURI s) p = Ok s' ∧ same_connection s s'.
Proof.
  intros Hss. unfold specFromURLIdentity. rewrite ToURI_parses by done.
  destruct (rendered_host s Hok Hsrv) as [-> ->]. pose proof Hsrv as (Hne & Hnorm & _). rewrite Hnorm.
  destruct (sp_Server s) as [|c0 h0] eqn:Esrv; [done|]. rewrite <-Esrv in *. clear c0 h0 Esrv.
  rewrite Itoa_nonempty, rendered_port, rendered_query, rendered_path by done. cbn [u_User rendered_url u_Fragment].
  fold (url_username (rendered_user s)). fold (url_auth (rendered_user s)).
  destruct (is_in p ["vless"; "vmess"] && negb (nonempty (url_username (rendered_user s)))) eqn:E1.
  { exfalso. apply andb_prop in E1 as [E1 E2]. pose proof (rendered_username (or_introl E1)) as Hn. apply nonempty_true in Hn. by rewrite Hn in E2. }
  destruct (is_in p ["trojan"; "hysteria2"; "anytls"] && negb (nonempty (url_username (rendered_user s)))) eqn:E2.
  { exfalso. apply andb_prop in E2 as [E2 E3]. pose proof (rendered_username (or_intror E2)) as Hn. apply nonempty_true in Hn. by rewrite Hn in E3. }
  set (cauth := if is_in p ["vless"; "vmess"] then _ else _).
  set (opts := if _ && _ then <["path" := _]> _ else _).
  assert (Hopts : ∀ k, scalar_option k = true → FirstOption opts k = FirstOption (normalizeQuery p (queryValues s)) k).
  { intros k Hk. unfold opts.
    assert (Hs : ∀ o, FirstOption (if secured o then setDefault (setDefault o "sni" (sp_Server s)) "insecure" "false" else o) k = FirstOption o k).
    { intros o. destruct (secured o); [|done]. by rewrite !scalar_kept. }
    match goal with |- context [if ?b then <["path" := _]> _ else _] => destruct b end; [|apply Hs].
    etrans; [|apply Hs]. unfold FirstOption at 1. rewrite lookup_insert_ne; [done|]. by intros <-. }
  pose proof (resolved_fields s Hok Hren opts (rendered_user s) cauth Hss Hopts) as Hr.
  set (path := if decide (p = "http") then tr_Path (sp_Transport s) else "").
  set (r := resolveFields p (sp_Server s) (sp_Port s) (sp_Name s) cauth opts (rendered_user s) (queryValues s)) in *.
  destruct Hr as (R1 & R2 & R3 & R4 & R5 & R6 & R7 & R8 & R9 & R10 & R11 & R12).
  pose proof (resolved_auth Hss) as Hau. cbv zeta in Hau. fold cauth in Hau.
  pose proof (lo_transport s Hok) as Htr. unfold transport_ok in Htr.
  eexists. split; [reflexivity|]. unfold same_connection.
  destruct (decide (p = "http")) as [Eh|Eh].
  - rewrite bool_decide_eq_true_2 by done. cbn [andb].
    assert (Hv : v2ray p = false) by (by rewrite Eh). rewrite Hv in *. destruct Htr as (T1 & T2 & T3 & T4).
    assert (Hid : is_in p ["vmess"; "vless"] = false) by (by rewrite Eh). rewrite Hid in *. fold path.
    destruct (nonempty path) eqn:Hp; cbn [with_path sp_Protocol sp_Server sp_Port sp_Name sp_Auth sp_TLS sp_Transport sp_Plugin
      sp_AlterID sp_Cipher sp_Flow sp_PacketEncoding sp_UpMbps sp_DownMbps sp_Obfs sp_ObfsPassword sp_Network].
    + split_and!; try done. rewrite R2. unfold path. destruct (sp_Transport s); cbn in *; by subst.
    + split_and!; try done. rewrite R2. unfold path in Hp. destruct (sp_Transport s) as [a b c d]; cbn in *. subst. by destruct b.
  - rewrite bool_decide_eq_false_2 by done. cbn [andb]. split_and!; try done.
    rewrite R2. destruct (v2ray p); [done|]. destruct Htr as (T1 & T2 & T3 & T4). destruct (sp_Transport s); cbn in *; by subst.
Qed.

Lemma plain_escape mode x : every (λ c, negb (shouldEscape c mode) && negb (byte_is 32 c)) x = true → escape mode x = x.
Proof.
  induction x as [|c x IH]; [done|]. cbn. intros [[Hc Hb]%andb_prop Hx]%andb_prop. rewrite (IH Hx). unfold escape_byte.
  rewrite !negb_true_iff in *. by rewrite Hb, Hc.
Qed.

(** The user part of a shadowsocks link decodes to what was encoded. *)
Lemma base64_user x : DecodeBase64Loose (escape encodeUserPassword (b64_encode x)) = Some x.
Proof.
  pose proof (b64_url_encode x) as Hu. pose proof (b64_decode_encode x) as Hd.
  rewrite plain_escape by (revert Hu; apply every_impl; by_bytes).
  unfold DecodeBase64Loose. rewrite drop_blank_solid by (revert Hu; apply every_impl; by_bytes).
  assert (Ha : ∀ e y, b64_decode e (b64_encode x) = Some y → y = x).
  { intros e y Hy. apply b64_decode_agrees in Hy; [|done]. congruence. }
  cbn. destruct (b64_decode StdEncoding _) eqn:E1; [by rewrite (Ha _ _ E1)|].
  destruct (b64_decode RawStdEncoding _) eqn:E2; [by rewrite (Ha _ _ E2)|].
  destruct (b64_decode URLEncoding _) eqn:E3; [by rewrite (Ha _ _ E3)|]. by rewrite Hd.
Qed.

Lemma link_of_shadowsocks :
  p = "ss" → ∃ s', specFromShadowsocks (ToURI s) = Ok s' ∧ same_connection s s'.
Proof.
  intros Hss. destruct (lo_ss s Hok Hss) as (Htls & Htr & Hun & Hset & Hpw & Hci & Hcol & Hlow).
  unfold specFromShadowsocks. rewrite ToURI_parses by done. unfold ss_parts.
  destruct (rendered_host s Hok Hsrv) as [-> ->]. pose proof Hsrv as (Hne & Hnorm & _).
  assert (Hu : u_User u = Some (User (b64_encode (sp_Cipher s +:+ ":" +:+ a_Password (sp_Auth s))))).
  { cbn [u_User rendered_url]. unfold rendered_user. by rewrite Hss. }
  rewrite Hu. apply nonempty_true in Hne as Hn. rewrite Hn, Hnorm. cbn [result_bind].
  rewrite Itoa_nonempty, rendered_port.
  assert (Hdec : decodeSSUserInfo (Userinfo_String (User (b64_encode (sp_Cipher s +:+ ":" +:+ a_Password (sp_Auth s)))))
                 = Ok (sp_Cipher s, a_Password (sp_Auth s))).
  { unfold Userinfo_String. cbn [User ui_username ui_passwordSet]. rewrite orb_false_r.
    assert (nonempty (b64_encode (sp_Cipher s +:+ ":" +:+ a_Password (sp_Auth s))) = true) as ->.
    { apply nonempty_true, b64_nonempty. by destruct (sp_Cipher s). }
    rewrite append_nil_r. unfold decodeSSUserInfo. rewrite base64_user. unfold splitMethodPassword.
    apply contains_false in Hcol. rewrite append_cons, append_nil_l, cut_hit by done.
    apply nonempty_true in Hci, Hpw. by rewrite Hci, Hpw. }
  rewrite Hdec. cbn [result_bind]. apply nonempty_true in Hci as Hcn, Hpw as Hpn. rewrite Hcn, Hpn, Hn. cbn [negb andb].
  rewrite rendered_query. pose proof (lo_plugin s Hok) as [Hp1 Hp2]. unfold only in Hp1, Hp2.
  assert (Hin : is_in p ["ss"] = true) by (by rewrite Hss). rewrite Hin in *.
  assert (Hplug : mkPlugin (LookupOption (queryValues s) "plugin" []) (LookupOption (queryValues s) "plugin-opts" ["plugin_opts"]) = sp_Plugin s).
  { destruct (renderable_spec s Hren) as (_ & _ & _ & _ & _ & Hpl & _). specialize (Hpl Hss).
    assert (Q1 : queryValues s !! "plugin" = if bool_decide (p = "ss") && nonempty (pl_Name (sp_Plugin s)) then Some [pl_Name (sp_Plugin s)] else None) by rendered.
    assert (Q2 : queryValues s !! "plugin-opts" = if bool_decide (p = "ss") && nonempty (pl_Name (sp_Plugin s)) && nonempty (pl_Options (sp_Plugin s)) then Some [pl_Options (sp_Plugin s)] else None) by rendered.
    rewrite (look s "plugin" [] "plugin" _ _ eq_refl Q1 Hp1), (look s "plugin-opts" ["plugin_opts"] "plugin-opts" _ _ eq_refl Q2 Hp2).
    rewrite bool_decide_eq_true_2 by done. cbn [andb]. destruct (sp_Plugin s) as [n o]; cbn in *.
    destruct n; cbn [nonempty] in *; [destruct Hpl as [|Hpl]; [done|by subst]|]. by destruct o. }
  rewrite Hplug. eexists. split; [reflexivity|].
  pose proof (lo_auth s Hok) as (_ & Hid & _). rewrite Hss in Hid.
  change (a_UUID (sp_Auth s) = "") in Hid.
  pose proof (lo_alter s Hok) as La. pose proof (lo_flow s Hok) as [Lf Lp]. pose proof (lo_rates s Hok) as [Lu Ld].
  pose proof (lo_obfs s Hok) as [Lo Lw]. pose proof (lo_network s Hok) as Ln.
  unfold only_number, only in *. rewrite Hss in *. cbn in La, Lf, Lp, Lu, Ld, Lo, Lw, Ln.
  unfold same_connection. cbn. rewrite Hss, Htls, Htr. cbn. split_and!; try done.
  destruct (sp_Auth s); cbn in *; by subst.
Qed.

(** The link of a well-formed spec reads back as the same connection. *)
Lemma rendered_link : ∃ s', FromURI (ToURI s) = Ok s' ∧ same_connection s s'.
Proof.
  rewrite FromURI_dispatch. destruct (decide (p = "ss")); [by apply link_of_shadowsocks|by apply link_of_url].
Qed.
End reading.

(** ** What [FromURI] makes *)
Lemma parsePort_range s n : parsePort s = Some n → 0 < n < 65536.
Proof.
  unfold parsePort. pose proof (ParseUint_range 16 s ltac:(lia)) as Hr. destruct (ParseUint 16 s) as [m ok]. cbn in Hr.
  destruct (ok && negb (m =? 0)) eqn:E; [|done]. intros [= <-]. apply andb_prop in E as [_ E%negb_true_iff%Z.eqb_neq]. lia.
Qed.

Lemma DefaultPort_range p : 0 < DefaultPort p < 65536.
Proof. unfold DefaultPort. repeat case_decide; lia. Qed.

Lemma unescape_slash mode r x :
  hosts mode = false → unescape mode (String (char 47) r) = Some x → ∃ y, x = String (char 47) y.
Proof.
  intros Hm. cbn [unescape]. change (byte_is 37 (char 47)) with false. change (byte_is 43 (char 47)) with false. cbn [andb].
  destruct (plain_ok mode (char 47) || false); [|done]. destruct (unescape mode r); [|done]. intros [= <-]. eauto.
Qed.

(** A path behind an authority is empty or starts with a slash. *)
Lemma parsed_path raw u :
  Parse raw = Some u → u_Host u ≠ "" → EscapedPath u = "" ∨ ∃ r, EscapedPath u = String (char 47) r.
Proof.
  intros Hp Hh. unfold Parse in Hp. destruct (Cut (byte_is 35) raw) as [ref frag].
  destruct (parse_reference ref) as [v|] eqn:Hv; [|done].
  assert (Hsame : u_Host u = u_Host v ∧ EscapedPath u = EscapedPath v).
  { destruct (nonempty frag); [|by injection Hp as <-]. destruct (setFragment frag); [|done]. by injection Hp as <-. }
  destruct Hsame as [Eh ->]. rewrite Eh in Hh. clear Hp Eh. unfold parse_reference in Hv.
  destruct (negb (every _ ref)); [done|]. destruct (decide (ref = "*")); [by injection Hv as <-|].
  destruct (getScheme ref) as [[scheme rest0]|]; [|done]. destruct (cut_query rest0) as [[rest query] force].
  destruct (negb _ && nonempty _); [by injection Hv as <-|]. destruct (negb _ && _); [done|].
  match type of Hv with match ?x with _ => _ end = _ => destruct x as [[[[user host] path] omit]|] eqn:Ha end; [|done].
  destruct (setPath path) as [[plain rawp]|] eqn:Hs; [|done]. injection Hv as <-. cbn in Hh.
  assert (Hpath : path = "" ∨ ∃ r, path = String (char 47) r).
  { destruct (strip_prefix "//" rest) as [t|]; [|by injection Ha as <- <- <- <-].
    destruct (_ || _); [|by injection Ha as <- <- <- <-].
    destruct (cut slash t) as [[a q]|].
    - destruct (parseAuthority _ a) as [[us ho]|]; [|done]. injection Ha as <- <- <- <-. right. by exists q.
    - destruct (parseAuthority _ t) as [[us ho]|]; [|done]. injection Ha as <- <- <- <-. by left. }
  unfold setPath in Hs. destruct (unescape encodePath path) as [x|] eqn:Hx; [|done]. injection Hs as <- <-.
  unfold EscapedPath, escaped. cbn [u_RawPath u_Path].
  destruct Hpath as [->|[r ->]].
  - cbn in Hx. injection Hx as <-. left. by destruct (decide _).
  - right. apply unescape_slash in Hx as [y ->]; [|done].
    assert (He : escape encodePath (String (char 47) y) = String (char 47) (escape encodePath y)) by done.
    rewrite He. rewrite (decide_False (P := String (char 47) y = "*")) by done.
    destruct (decide (String (char 47) (escape encodePath y) = String (char 47) r)).
    + change (nonempty "" && _ && _) with false. cbv iota. eauto.
    + destruct (_ && _ && _); eauto.
Qed.

Section parsed.
Context `{!RangeOrder string, !CodecLibraries, !IdnaLaws}.

Lemma solid_server h : server_ok h → trimmed h.
Proof.
  intros (_ & _ & [Hh|[Hh _]]); apply solid_trimmed; revert Hh; apply every_impl; by_bytes.
Qed.

(** The scalar options are canonical and hold the protocol's default at least. *)
Lemma scalar_canonical protocol values key :
  key = "security" ∨ key = "encryption" →
  let v := FirstOption (normalizeQuery protocol values) key in
  canonical_value key v = v ∧ (default_option protocol key ≠ "" → v ≠ "").
Proof.
  intros Hk. assert (Hs : scalar_option key = true) by (by destruct Hk as [-> | ->]). cbv zeta.
  rewrite FirstOption_normalize by done. unfold or_default. split.
  - destruct (nonempty (FirstOption (collected values) key)) eqn:Hn.
    + destruct (collected_canonical values key) as [E|[x ->]]; [by rewrite E in Hn|]. by apply canonical_value_idem.
    + destruct Hk as [-> | ->]; unfold default_option; cbn; repeat case_match; reflexivity.
  - intros Hd. destruct (nonempty (FirstOption (collected values) key)) eqn:Hn; [|done]. by apply nonempty_true.
Qed.

Lemma resolveFields_ok p server port name cauth options authority values :
  p ∈ protocols → p ≠ "ss" → 0 < port < 65536 → server_ok server →
  (∀ k, scalar_option k = true → FirstOption options k = FirstOption (normalizeQuery p values) k) →
  (is_in p ["vmess"; "vless"] = true → ∃ id, cauth !! "username" = Some id ∧ id ≠ "" ∧ toLower id = id) →
  (forced_tls p = true → url_username authority ≠ "") →
  link_ok (resolveFields p server port name cauth options authority values).
Proof.
  intros Hp Hss Hport Hsrv Ho Hid Hun.
  assert (Honly : ∀ ps v, trimmed v → only ps p (if is_in p ps then v else "")).
  { intros ps v Hv. unfold only. by destruct (is_in p ps). }
  assert (Hnum : ∀ ps v, only_number ps p (if is_in p ps then (Atoi v).1 else 0)).
  { intros ps v. unfold only_number. destruct (is_in p ps); [|done]. apply Atoi_range. }
  split; cbn -[LookupOption Atoi is_in]; try done; try (split; apply Honly, LookupOption_trimmed); try (apply Honly, LookupOption_trimmed);
    try (split; apply Hnum); try apply Hnum.
  - unfold auth_ok, resolveAuth. destruct authority as [ui|]; cbn -[is_in]; split_and!; try done.
    + by intros ->.
    + destruct (is_in p ["vmess"; "vless"]); [|done]. destruct Hid as (id & -> & ?); [done|]. done.
    + destruct (is_in p ["vmess"; "vless"]); [|done]. destruct Hid as (id & -> & ?); [done|]. done.
  - destruct (scalar_canonical p values "security" ltac:(by left)) as [Hc Hd].
    unfold tls_ok, resolveTLS. rewrite (Ho "security") by done.
    destruct (TLSInsecureOverride values) as [ins stated] eqn:Hins. cbn -[is_in LookupOption canonical_value splitList].
    split_and!; try done; try apply LookupOption_trimmed; [| | |apply splitList_items].
    + destruct (_ && _); [by apply solid_server|apply LookupOption_trimmed].
    + intros ->. cbn [andb]. destruct (nonempty (TLSServerName values)) eqn:Hn; cbn [negb]; [by apply nonempty_true|apply Hsrv].
    + unfold TLSInsecureOverride in Hins. destruct (filter _ _); by injection Hins as <- <-.
  - unfold transport_ok, resolveTransport. fold (v2ray p). destruct (v2ray p); cbn -[LookupOption].
    + assert (Ht : ∀ v, trimmed v → trimmed (toLower v)) by (intros v Hv; unfold trimmed; by rewrite <-toLower_TrimSpace, Hv).
      split_and!; try apply LookupOption_trimmed.
      * destruct (nonempty (toLower _)); [apply Ht, LookupOption_trimmed|by destruct (nonempty _)].
      * destruct (nonempty (toLower _)); [apply toLower_idem|by destruct (nonempty _)].
      * destruct (nonempty (toLower (LookupOption values "type" ["network"]))) eqn:Hn; [by apply nonempty_true|by case_match].
    + split_and!; try done. destruct (decide (p = "http")); [by left|done].
  - destruct (scalar_canonical p values "encryption" ltac:(by right)) as [Hc Hd]. rewrite (Ho "encryption") by done.
    destruct (is_in p ["vmess"; "vless"]) eqn:Hv; [|done]. split; [done|]. apply Hd. apply is_in_spec in Hv.
    apply elem_of_cons in Hv as [->|Hv%list_elem_of_singleton]; [done|by subst].
Qed.

Definition server_fits (s : Spec) : Prop :=
  sp_Server s ≠ "" ∧ contains percent (sp_Server s) = false ∧ no_trailing_dot (sp_Server s).

Lemma with_path_ok r s :
  sp_Protocol s = "http" → link_ok s → (tr_Type (sp_Transport s) = "" ∧ tr_Host (sp_Transport s) = "" ∧ tr_ServiceName (sp_Transport s) = "") →
  link_ok (with_path (String (char 47) r) s).
Proof.
  intros Hp [] Ht. split; cbn; try done; [by rewrite Hp|]. unfold transport_ok. rewrite Hp. cbn.
  destruct Ht as (-> & -> & ->). split_and!; try done. right. by exists r.
Qed.

Lemma with_server_name_ok name s : sp_Protocol s = "vmess" → trimmed name → link_ok s → link_ok (with_server_name name s).
Proof.
  intros Hp Hn []. split; cbn; try done; [by rewrite Hp|]. unfold tls_ok in *. rewrite Hp in *. cbn.
  destruct lo_tls as (? & ? & ? & ? & ? & ? & ? & ? & ? & ?). split_and!; try done.
Qed.

Lemma from_url_ok raw p s :
  p ∈ protocols → p ≠ "ss" → specFromURLIdentity raw p = Ok s → server_fits s → link_ok s ∧ server_ok (sp_Server s).
Proof.
  intros Hp Hss Hf (Hne & Hper & Hdot). unfold specFromURLIdentity in Hf. destruct (Parse raw) as [u|] eqn:Hu; [|done].
  destruct (normalizeHost (Hostname u)) as [server|] eqn:Hn; [|done].
  assert (Hhost : server ≠ "" → u_Host u ≠ "").
  { intros Hs E. unfold Hostname in Hn. rewrite E in Hn. cbn in Hn. by injection Hn as <-. }
  destruct server as [|c0 h0] eqn:Es; [done|]. rewrite <-Es in *.
  destruct (if nonempty (Port u) then parsePort (Port u) else _) as [port|] eqn:Hport; [|done].
  assert (Hrange : 0 < port < 65536).
  { destruct (nonempty (Port u)); [by apply parsePort_range in Hport|]. injection Hport as <-.
    match goal with |- context [if ?b then 443 else _] => destruct b end; [lia|apply DefaultPort_range]. }
  fold (url_username (u_User u)) in Hf. fold (url_auth (u_User u)) in Hf.
  destruct (is_in p ["vless"; "vmess"] && _) eqn:E1; [done|]. destruct (is_in p ["trojan"; "hysteria2"; "anytls"] && _) eqn:E2; [done|].
  cbv zeta in Hf. set (cauth := if is_in p ["vless"; "vmess"] then _ else _) in Hf.
  set (o := if secured _ then _ else _) in Hf.
  match type of Hf with context [resolveFields p server port (u_Fragment u) cauth ?x (u_User u) (Query u)] => set (opts := x) in Hf end.
  pose proof (is_in_swap p "vless" "vmess") as Hsw.
  assert (Hserver : sp_Server s = server).
  { destruct (bool_decide (p = "http") && nonempty (EscapedPath u)); by injection Hf as <-. }
  rewrite Hserver in *. assert (Hsok : server_ok server) by (eapply normalizeHost_ok; done).
  split; [|done].
  assert (Hopts : ∀ k, scalar_option k = true → FirstOption opts k = FirstOption (normalizeQuery p (Query u)) k).
  { intros k Hk. unfold opts.
    assert (Hso : FirstOption o k = FirstOption (normalizeQuery p (Query u)) k).
    { unfold o. destruct (secured _); [|done]. by rewrite !scalar_kept. }
    match goal with |- context [if ?b then <["path" := _]> _ else _] => destruct b end; [|done].
    rewrite <-Hso. unfold FirstOption at 1. rewrite lookup_insert_ne; [done|]. by intros <-. }
  assert (Hlink : link_ok (resolveFields p server port (u_Fragment u) cauth opts (u_User u) (Query u))).
  { apply resolveFields_ok; [done..| |].
    - intros Hv. unfold cauth. rewrite Hsw, Hv. eexists. split; [apply lookup_insert_eq|].
      rewrite Hsw, Hv in E1. cbn in E1. apply negb_false_iff, nonempty_true in E1. split; [|apply toLower_idem].
      by destruct (url_username (u_User u)).
    - intros Hv. unfold forced_tls in Hv. rewrite Hv in E2. cbn in E2. by apply negb_false_iff, nonempty_true in E2. }
  destruct (bool_decide (p = "http") && nonempty (EscapedPath u)) eqn:Eh; [|by injection Hf as <-].
  injection Hf as <-. apply andb_prop in Eh as [Eh%bool_decide_eq_true_1 Hpath].
  destruct (parsed_path raw u Hu (Hhost ltac:(done))) as [E|[r E]]; [by rewrite E in Hpath|]. rewrite E.
  apply with_path_ok; [done|done|]. subst p. cbn. done.
Qed.

Lemma from_vmess_ok raw s : specFromVMess raw = Ok s → server_fits s → link_ok s ∧ server_ok (sp_Server s).
Proof.
  intros Hf Hfit. assert (Hurl : specFromURLIdentity raw "vmess" = Ok s → link_ok s ∧ server_ok (sp_Server s)).
  { intros Hu. apply (from_url_ok raw "vmess"); [|done..]. unfold protocols. set_solver. }
  unfold specFromVMess in Hf. destruct (DecodeBase64Loose _) as [decoded|]; [|by apply Hurl].
  destruct (json_Unmarshal decoded) as [data|]; [|by apply Hurl].
  destruct (nonempty (CoerceString (data !! "add"))); [|by apply Hurl]. clear Hurl.
  destruct (normalizeHost _) as [server|] eqn:Hn; [|done]. cbn [result_bind] in Hf. cbv zeta in Hf.
  set (id := toLower (CoerceString (data !! "id"))) in *. destruct (negb (nonempty id)) eqn:Hid; [done|].
  apply negb_false_iff, nonempty_true in Hid.
  match type of Hf with context [normalizeQuery "vmess" ?x] => set (values := x) in Hf end.
  set (port := if _ =? 0 then 443 else _) in Hf.
  match type of Hf with context [resolveFields "vmess" server port ?n ?c ?x None values] => set (name := n) in Hf; set (opts := x) in Hf end.
  assert (Hserver : sp_Server s = server) by (destruct (_ && _); by injection Hf as <-).
  destruct Hfit as (Hne & Hper & Hdot). rewrite Hserver in *.
  assert (Hsok : server_ok server) by (eapply normalizeHost_ok; done). split; [|done].
  assert (Hport : 0 < port < 65536).
  { pose proof (ParseUint_range 16 (CoerceString (data !! "port")) ltac:(lia)). unfold port. destruct (Z.eqb_spec (ParseUint 16 (CoerceString (data !! "port"))).1 0); lia. }
  assert (Hlink : link_ok (resolveFields "vmess" server port name {["username" := id]} opts None values)).
  { apply resolveFields_ok; [by apply is_in_spec|done|done|done| | |done].
    - intros k Hk. unfold opts. destruct (secured _); [|done]. by apply scalar_kept.
    - intros _. exists id. rewrite lookup_singleton_eq. split_and!; [done|done|apply toLower_idem]. }
  destruct (_ && _); injection Hf as <-; [|done]. apply with_server_name_ok; [done| |done].
  pose proof (lo_transport _ Hlink) as Ht. apply Ht.
Qed.

Lemma splitMethodPassword_ok v m pw :
  splitMethodPassword v = Ok (m, pw) → m ≠ "" ∧ pw ≠ "" ∧ contains colon m = false.
Proof.
  unfold splitMethodPassword. destruct (cut colon v) as [[a b]|] eqn:Hc; [|done].
  destruct (nonempty a && nonempty b) eqn:E; [|done]. intros [= <- <-]. apply andb_prop in E as [?%nonempty_true ?%nonempty_true].
  split_and!; [done..|]. apply contains_false. clear -Hc. revert a Hc. induction v as [|c v IH]; intros a Hc; [done|]. cbn in Hc.
  destruct (colon c) eqn:Ec; [by injection Hc as <- <-|]. destruct (cut colon v) as [[x y]|]; [|done]. injection Hc as <- <-.
  cbn. by rewrite Ec, (IH x eq_refl).
Qed.

Lemma ss_parts_ok raw u server port m pw :
  ss_parts raw u = Ok (server, port, (m, pw)) →
  0 < port < 65536 ∧ (∃ h, normalizeHost h = Ok server) ∧ m ≠ "" ∧ pw ≠ "" ∧ contains colon m = false.
Proof.
  assert (Hdec : ∀ x, decodeSSUserInfo x = Ok (m, pw) → m ≠ "" ∧ pw ≠ "" ∧ contains colon m = false).
  { intros x. unfold decodeSSUserInfo. destruct (DecodeBase64Loose x); [apply splitMethodPassword_ok|].
    destruct (QueryUnescape x); [apply splitMethodPassword_ok|done]. }
  assert (Hold : match DecodeBase64Loose (payload_of raw (λ c, byte_is 35 c || byte_is 63 c)) with
    | None => Err "decode shadowsocks payload"
    | Some text =>
      match cut_last (byte_is 64) text with
      | None => Err "shadowsocks payload missing endpoint"
      | Some (userinfo, endpoint) =>
        let? mp := splitMethodPassword userinfo in
        match Parse ("ss://" +:+ endpoint) with
        | None => Err "parse shadowsocks endpoint"
        | Some host =>
          match parsePort (Port host) with
          | None => Err "shadowsocks payload has invalid port"
          | Some port => let? server := normalizeHost (Hostname host) in Ok (server, port, mp)
          end
        end
      end
    end = Ok (server, port, (m, pw)) → 0 < port < 65536 ∧ (∃ h, normalizeHost h = Ok server) ∧ m ≠ "" ∧ pw ≠ "" ∧ contains colon m = false).
  { destruct (DecodeBase64Loose _); [|done]. destruct (cut_last _ _) as [[ui ep]|]; [|done].
    destruct (splitMethodPassword ui) as [mp|] eqn:Hs; [|done]. cbn [result_bind].
    destruct (Parse _) as [host|]; [|done]. destruct (parsePort _) as [pt|] eqn:Hp; [|done].
    destruct (normalizeHost (Hostname host)) as [sv|] eqn:Hh; [|done]. cbn [result_bind]. intros [= -> -> ->].
    split; [by eapply parsePort_range|]. split; [by eexists|]. by apply splitMethodPassword_ok in Hs. }
  unfold ss_parts. destruct (u_User u) as [ui|]; [|done]. destruct (nonempty (Hostname u)); [|done].
  destruct (normalizeHost (Hostname u)) as [sv|] eqn:Hh; [|done]. cbn [result_bind].
  destruct (if nonempty (Port u) then _ else _) as [pt|] eqn:Hp; [|done].
  destruct (decodeSSUserInfo _) as [mp|] eqn:Hd; [|done]. cbn [result_bind]. intros [= -> -> ->].
  split; [|split; [by eexists|by eapply Hdec]].
  destruct (nonempty (Port u)); [by apply parsePort_range in Hp|]. injection Hp as <-. apply DefaultPort_range.
Qed.

Lemma from_shadowsocks_ok raw s : specFromShadowsocks raw = Ok s → server_fits s → link_ok s ∧ server_ok (sp_Server s).
Proof.
  intros Hf (Hne & Hper & Hdot). unfold specFromShadowsocks in Hf. destruct (Parse raw) as [u|]; [|done].
  destruct (ss_parts raw u) as [[[server port] [m pw]]|] eqn:Hs; [|done]. cbn [result_bind] in Hf.
  destruct (negb _); [done|]. apply ss_parts_ok in Hs as (Hport & [h Hh] & Hm & Hpw & Hc).
  injection Hf as <-. cbn [sp_Server] in *. split; [|by eapply normalizeHost_ok].
  assert (Hlow : contains colon (toLower m) = false ∧ toLower m ≠ "").
  { split; [|by destruct m]. apply contains_false. apply contains_false in Hc. revert Hc. apply every_toLower. by_bytes. }
  split; cbn -[LookupOption]; try done.
  - by apply is_in_spec.
  - intros _. split_and!; [done..|apply Hlow|apply Hlow|apply toLower_idem].
  - split; apply LookupOption_trimmed.
  - intros Hn. by destruct Hn.
Qed.

(** Every spec [FromURI] makes is well formed, provided its server is one a link
    can carry. *)
Lemma FromURI_ok raw s : FromURI raw = Ok s → server_fits s → link_ok s ∧ server_ok (sp_Server s).
Proof.
  unfold FromURI. cbv zeta. intros Hf Hfit. destruct (negb _); [done|]. destruct (negb _); [done|].
  destruct (decide _); [by eapply from_vmess_ok|]. destruct (decide _) as [|Hss]; [by eapply from_shadowsocks_ok|].
  destruct (is_in (URIScheme (TrimLink raw)) ["vless"; "trojan"; "hysteria2"; "anytls"; "http"; "socks5"]) eqn:Hp;
    [|match type of Hf with context [if ?b then _ else _] => by destruct b end].
  apply (from_url_ok (TrimLink raw) (URIScheme (TrimLink raw)) s); [|exact Hss|exact Hf|exact Hfit]. apply is_in_spec in Hp.
  revert Hp. generalize (URIScheme (TrimLink raw)). clear. unfold protocols. set_solver.
Qed.
End parsed.

(** ** The theorems *)

(** C15: a link that parses, rendered by [ToURI] and parsed again, describes the
    same connection, and rendering it once more gives the same text, whatever its
    protocol and however it was spelled, as long as the spec holds nothing the
    canonical link has no place for ([renderable]). *)
Theorem rendered_links_describe_the_same_connection
    `{!RangeOrder string, !CodecLibraries, !IdnaLaws} (raw : string) (s : Spec) :
  FromURI raw = Ok s → renderable s = true →
  ∃ s', FromURI (ToURI s) = Ok s' ∧ Spec_Equal s s' = true ∧ ToURI s' = ToURI s.
Proof.
  intros Hf Hr. destruct (renderable_spec s Hr) as (_ & _ & _ & _ & _ & _ & Hfit).
  destruct (FromURI_ok raw s Hf Hfit) as [Hok Hsrv]. destruct (rendered_link s Hok Hr Hsrv) as (s' & Hs' & Hsame).
  exists s'. split_and!; [done|by apply same_connection_Equal|by apply same_connection_ToURI].
Qed.

(** A host name of the letters, digits, hyphens and dots of ASCII is its own ASCII
    form, no payload is JSON, and an identity is shown by its endpoint. *)
Module LinkExample.
#[export] Instance libraries : CodecLibraries := {|
  idna_ToASCII h := if every host_char h then Some h else None;
  json_Unmarshal _ := None;
  json_MarshalCanonical i := Some (id_Protocol i +:+ id_Server i);
  sha256_hex x := x
|}.

#[export] Instance laws : IdnaLaws.
Proof.
  split; intros h a; cbn; destruct (every host_char h) eqn:Hh; try done; intros [= <-]; [done|].
  by rewrite (every_toLower host_char host_char) by (by_bytes || done).
Qed.

#[export] Instance order : RangeOrder string := default_range_order string.

Definition reparsed (raw : string) : option bool :=
  match FromURI raw with
  | Ok s => match FromURI (ToURI s) with Ok s' => Some (Spec_Equal s s') | Err _ => None end
  | Err _ => None
  end.

Definition links : list string :=
  ["vless://B831@Example.com?type=ws&path=/x%20y&security=tls&peer=a.b&alpn=h2,%20http/1.1&allowInsecure=yes#my node";
   "hy2://secret@[2001:DB8::1]:8443?obfs=salamander&obfs-password=p&up_mbps=100";
   "ss://YWVzLTEyOC1nY206cGFzcw@203.0.113.7:8388?plugin=obfs-local&plugin_opts=obfs%3Dhttp#n";
   "vmess://4a@h:443?network=grpc&grpc-service-name=x&aid=4&encryption=zero";
   "trojan://pa:ss@h#a/b?c"; "anytls://k@h?fp=chrome"; "http://u:p@h:8080/path?security=tls"; "socks://h?network=tcp"].

Example links_renderable : (λ raw, match FromURI raw with Ok s => renderable s | Err _ => false end) <$> links = replicate 8 true.
Proof. vm_compute. reflexivity. Qed.

Example links_reparsed : reparsed <$> links = replicate 8 (Some true).
Proof. vm_compute. reflexivity. Qed.
End LinkExample.

Lemma rendered_links_describe_the_same_connection_witness :
  let raw := "vless://B831@Example.com?type=ws&path=/x%20y&security=tls&peer=a.b&alpn=h2,%20http/1.1&allowInsecure=yes#my node" in
  ∃ s s', @FromURI LinkExample.order LinkExample.libraries raw = Ok s ∧
          @FromURI LinkExample.order LinkExample.libraries (ToURI s) = Ok s' ∧ Spec_Equal s s' = true ∧ ToURI s' = ToURI s.
Proof.
  intros raw. destruct (@FromURI LinkExample.order LinkExample.libraries raw) as [s|] eqn:Hs; [|vm_compute in Hs; discriminate Hs].
  destruct (@rendered_links_describe_the_same_connection LinkExample.order LinkExample.libraries LinkExample.laws raw s Hs) as (s' & H);
    [|by exists s, s'].
  assert (Hr : match @FromURI LinkExample.order LinkExample.libraries raw with Ok s => renderable s | Err _ => false end = true)
    by (vm_compute; reflexivity).
  by rewrite Hs in Hr.
Defined.

(** What the canonical link has no place for is lost when a parsed link is
    rendered and parsed again, although the result parses: the encryption of a
    vless link, a stated absence of TLS where the protocol defaults to it, the
    absence of a password behind a user name, an escaped path and the networks of
    an http link, and an obfuscation password without obfuscation. *)
Theorem links_lose_what_they_cannot_carry :
  LinkExample.reparsed <$>
    ["vless://id@h?encryption=mlkem768x25519plus.native"; "trojan://pw@h?security=none"; "http://user@h"; "http://h/a%2Fb";
     "http://h?network=tcp"; "hysteria2://pw@h?obfs-password=x"]
  = replicate 6 (Some false).
Proof. vm_compute. reflexivity. Qed.

(** ** The identity of a link *)
Lemma sort_strings_perm l l' : l ≡ₚ l' → sort_strings l = sort_strings l'.
Proof.
  intros Hl. unfold sort_strings. apply (StronglySorted_unique String.le).
  - apply (StronglySorted_merge_sort _).
  - apply (StronglySorted_merge_sort _).
  - by rewrite !merge_sort_Permutation.
Qed.

Lemma Compact_nil l : Compact l = [] ↔ l = [].
Proof.
  split; [|by intros ->]. induction l as [|x [|y l] IH]; [done|done|]. cbn [Compact].
  destruct (decide (x = y)); [|done]. intros H. by specialize (IH H).
Qed.

Lemma foldl_collect_some l acc q xs :
  (∀ q xs, acc !! q = Some xs → xs ≠ []) → foldl collect_key acc l !! q = Some xs → xs ≠ [].
Proof.
  revert acc. induction l as [|[k vs] l IH]; intros acc Hacc; cbn [foldl]; [apply Hacc|].
  apply IH. unfold collect_key. cbn [fst snd]. destruct (isCosmeticQueryKey _); [done|].
  generalize (normalizeQueryKey k). intros key. clear -Hacc. revert acc Hacc.
  induction vs as [|v vs IH]; intros acc Hacc; cbn [foldl]; [done|]. apply IH. intros q xs.
  destruct (decide (q = key)) as [->|Hq]; [|rewrite lookup_insert_ne by done; apply Hacc].
  rewrite lookup_insert_eq. intros [= <-]. by destruct (Values_Get acc key).
Qed.

Lemma collected_order (o1 o2 : RangeOrder string) v : @collected o1 v = @collected o2 v.
Proof.
  assert (Hsome : ∀ (o : RangeOrder string) q xs, @collected o v !! q = Some xs → xs ≠ []).
  { intros o q xs. unfold collected. rewrite lookup_fmap. destruct (foldl _ _ _ !! q) as [ys|] eqn:E; [|done].
    intros [= <-]. apply foldl_collect_some in E; [|by intros ? ? ?%lookup_empty_Some].
    rewrite Compact_nil. intros Hs. apply E. unfold sort_strings in Hs. apply Permutation_nil_r. by rewrite <-(merge_sort_Permutation String.le ys), Hs. }
  assert (Hget : ∀ q, Values_Get (@collected o1 v) q = Values_Get (@collected o2 v) q).
  { intros q. rewrite !collected_lookup. f_equal. apply sort_strings_perm. unfold contributions.
    apply bind_Permutation. by rewrite !range_perm. }
  apply map_eq. intros q. specialize (Hget q). pose proof (Hsome o1 q) as H1. pose proof (Hsome o2 q) as H2. unfold Values_Get in Hget.
  destruct (@collected o1 v !! q) as [x|], (@collected o2 v !! q) as [y|]; cbn in *; [by subst| | |done].
  - by destruct (H1 x eq_refl).
  - by destruct (H2 y eq_refl).
Qed.

(** The spec, the canonical options and so the persisted identity of a link do
    not depend on the order in which Go visits the query map. *)
Theorem link_identity_is_well_defined `{!CodecLibraries} (o1 o2 : RangeOrder string) (raw : string) :
  @FromURI o1 _ raw = @FromURI o2 _ raw ∧ @ParseURI o1 _ raw = @ParseURI o2 _ raw.
Proof.
  assert (Hn : ∀ p v, @normalizeQuery o1 p v = @normalizeQuery o2 p v).
  { intros p v. unfold normalizeQuery. fold (@collected o1 v). fold (@collected o2 v). by rewrite (collected_order o1 o2). }
  assert (Hu : ∀ raw p, @specFromURLIdentity o1 _ raw p = @specFromURLIdentity o2 _ raw p).
  { intros raw' p. unfold specFromURLIdentity. destruct (Parse raw') as [u|]; [|done]. destruct (normalizeHost _) as [[|]|]; [done| |done].
    by rewrite Hn. }
  assert (Hf : @FromURI o1 _ raw = @FromURI o2 _ raw); [|split; [done|]; unfold ParseURI; by rewrite Hf].
  unfold FromURI. cbv zeta. destruct (negb _); [done|]. destruct (negb _); [done|].
  destruct (decide _); [|destruct (decide _); [|by rewrite Hu]].
  - unfold specFromVMess. rewrite Hu. destruct (DecodeBase64Loose _); [|done]. destruct (json_Unmarshal _); [|done].
    destruct (nonempty _); [|done]. destruct (normalizeHost _); [|done]. cbn [result_bind]. cbv zeta. by rewrite Hn.
  - unfold specFromShadowsocks. destruct (Parse _); [|done]. destruct (ss_parts _ _) as [[[? ?] [? ?]]|]; [|done].
    cbn [result_bind]. by rewrite Hn.
Qed.
