(* ===== verification/NodeRegion.v ===== *)
(** Countries and group membership: [internal/noderegion/region.go] (codes, aliases,
    the versioned region buckets), [internal/nodeselect/filter.go] (the membership
    predicate) and [internal/groupmember/filter.go] (its use for groups).

    The table of regions and their names is the [golang.org/x/text] library's: a
    parameter, from which the package's two maps are built as [init] builds them. *)

From stdpp Require Import pretty.
From S2P Require Import Prelude.

(** ** Regions *)
Definition Other : string := "other".
Definition CurrentVersion : Z := 2.

(** What the library says of a region. *)
Record region := mkRegion {
  rg_Code : string;
  rg_IsCountry : bool;
  rg_English : string;
  rg_Simplified : string;
  rg_Traditional : string
}.

Record region_tables := mkTables { names : gmap string string; aliases : gmap string string }.

(** The loop of [init]. *)
Definition add_localized (code : string) (a : gmap string string) (localized : string) : gmap string string :=
  if decide (localized = "") then a else <[localized := code]> a.

Definition add_region (t : region_tables) (r : region) : region_tables :=
  let code := toLower (rg_Code r) in
  if negb (String.length code =? 2)%nat || negb (rg_IsCountry r) then t
  else
    let name := rg_English r in
    if decide (TrimSpace name = "") then t
    else mkTables (<[code := name]> (names t))
           (foldl (add_localized code) (<[toLower name := code]> (<[code := code]> (aliases t)))
              [rg_Simplified r; rg_Traditional r]).

Definition extra_aliases : list (string * string) :=
  [("uk", "gb"); ("usa", "us"); ("中国", "cn"); ("中國", "cn"); ("香港", "hk"); ("台湾", "tw"); ("台灣", "tw");
   ("澳门", "mo"); ("澳門", "mo"); ("韩国", "kr"); ("韓國", "kr"); ("英国", "gb"); ("英國", "gb")].

Definition init_tables (supported : list region) : region_tables :=
  let t := foldl add_region (mkTables ∅ ∅) supported in
  mkTables (names t) (foldl (λ a ac, <[ac.1 := ac.2]> a) (aliases t) extra_aliases).

(** The library's regions. *)
Class RegionLibrary := supported_regions : list region.

(** A flag: two regional indicators, each the UTF-8 bytes F0 9F 87 A6..BF. Any
    other byte sequence decodes to other runes. *)
Definition flag_letter (b : Ascii.ascii) : option Ascii.ascii :=
  let n := Ascii.nat_of_ascii b in
  if (166 <=? n)%nat && (n <=? 191)%nat then Some (Ascii.ascii_of_nat (97 + (n - 166))) else None.

Definition is_byte (n : nat) (c : Ascii.ascii) : bool := (Ascii.nat_of_ascii c =? n)%nat.

Definition flag_code (s : string) : option string :=
  match s with
  | String a (String b (String c (String x (String d (String e (String f (String y EmptyString))))))) =>
    if is_byte 240 a && is_byte 159 b && is_byte 135 c && is_byte 240 d && is_byte 159 e && is_byte 135 f then
      match flag_letter x, flag_letter y with
      | Some x, Some y => Some (String x (String y EmptyString))
      | _, _ => None
      end
    else None
  | _ => None
  end.

Section regions.
Context `{!RegionLibrary}.

Definition region_names : gmap string string := names (init_tables supported_regions).
Definition region_aliases : gmap string string := aliases (init_tables supported_regions).

Definition Normalize (value : string) : string :=
  let value := toLower (TrimSpace value) in
  if decide (value = "") then ""
  else default "" (region_aliases !! default value (flag_code value)).

Definition Valid (code : string) : bool := bool_decide (is_Some (region_names !! code)).

Definition Name (code : string) : string :=
  if decide (code = Other) then "Other"
  else
    let name := default "" (region_names !! Normalize code) in
    if decide (name ≠ "") then name else "Unknown".

Definition Codes : list string := merge_sort String.le (map_to_list region_names).*1.

Definition IsOther (code : string) : bool :=
  let code := Normalize code in
  if decide (code = "") then false
  else negb (bool_decide (code ∈ ["jp"; "kr"; "us"; "hk"; "tw"])).

Definition Legacy (value : string) : string :=
  let value := toLower (TrimSpace value) in
  if decide (value = "") then Other else value.

Fixpoint matches_legacy (value : string) (regions : list string) : bool :=
  match regions with
  | [] => false
  | candidate :: regions =>
    if decide (Legacy candidate = Legacy value) then true else matches_legacy value regions
  end.

Fixpoint matches_code (code : string) (regions : list string) : bool :=
  match regions with
  | [] => false
  | candidate :: regions =>
    if EqualFold (TrimSpace candidate) Other && IsOther code then true
    else if decide (Normalize candidate = code) then true
    else matches_code code regions
  end.

Definition Matches (value : string) (regions : list string) (includeUnknown : bool) (version : Z) : bool :=
  if decide (version < CurrentVersion) then matches_legacy value regions
  else
    let code := Normalize value in
    if decide (code = "") then includeUnknown else matches_code code regions.

(** ** The membership predicate *)
Record Node := mkNode { nd_ID : Z; nd_Region : string; nd_Tags : list string }.

Record Spec := mkSpec {
  sp_Enabled : bool;
  sp_Regions : list string;
  sp_ExcludeRegions : list string;
  sp_RegionRuleVersion : Z;
  sp_IncludeUnknownRegion : bool;
  sp_RequireRegion : bool;
  sp_ExplicitIDs : list Z;
  sp_ExcludedIDs : list Z;
  sp_TagWhitelist : list Z;
  sp_TagBlacklist : list Z;
  sp_TagMatch : string
}.

Record FilterDecision := mkDecision { dc_Allowed : bool; dc_Reason : string }.

Record Filter := mkFilter {
  f_spec : Spec;
  f_explicit : gset Z;
  f_excluded : gset Z;
  f_whitelist : list string;
  f_blacklist : gset string
}.

(** The name of a tag id; an unknown id gets a name no node carries. *)
Definition resolve (tagNames : gmap Z string) (id : Z) : string :=
  let name := default "" (tagNames !! id) in
  if decide (name ≠ "") then name
  else String (Ascii.ascii_of_nat 0) ("unresolved-tag-" +:+ pretty id).

Definition New (spec : Spec) (tagNames : gmap Z string) : Filter :=
  mkFilter spec
    (foldl (λ s id, {[id]} ∪ s) ∅ (sp_ExplicitIDs spec))
    (foldl (λ s id, {[id]} ∪ s) ∅ (sp_ExcludedIDs spec))
    (foldl (λ l id, l ++ [resolve tagNames id]) [] (sp_TagWhitelist spec))
    (foldl (λ s id, {[resolve tagNames id]} ∪ s) ∅ (sp_TagBlacklist spec)).

Definition refuse (reason : string) : FilterDecision := mkDecision false reason.

(** The loop over a node's tags: [None] at a blacklisted one. *)
Fixpoint carry (blacklist : gset string) (tags : list string) (carried : gset string) : option (gset string) :=
  match tags with
  | [] => Some carried
  | tag :: tags => if decide (tag ∈ blacklist) then None else carry blacklist tags ({[tag]} ∪ carried)
  end.

Definition count_matched (carried : gset string) (whitelist : list string) : nat :=
  foldl (λ n tag, if decide (tag ∈ carried) then S n else n) 0%nat whitelist.

(** The tag rules, the last of [Explain]. *)
Definition tag_verdict (blacklist : gset string) (whitelist tags : list string) (all : bool) : FilterDecision :=
  match carry blacklist tags ∅ with
  | None => refuse "tag_blacklisted"
  | Some carried =>
    let matched := count_matched carried whitelist in
    if (0 <? length whitelist)%nat &&
       ((matched =? 0)%nat || (all && negb (matched =? length whitelist)%nat))
    then refuse "tag_whitelist_mismatch"
    else mkDecision true "rules_matched"
  end.

Definition Explain (f : Filter) (node : Node) : FilterDecision :=
  let spec := f_spec f in
  let version := sp_RegionRuleVersion spec in
  if negb (sp_Enabled spec) then refuse "group_disabled"
  else if decide (nd_ID node ∈ f_excluded f) then refuse "explicitly_excluded"
  else if decide (nd_ID node ∈ f_explicit f) then mkDecision true "explicitly_included"
  else if (sp_RequireRegion spec || (0 <? length (sp_Regions spec))%nat)
          && negb (Matches (nd_Region node) (sp_Regions spec) (sp_IncludeUnknownRegion spec) version) then
    if decide (Normalize (nd_Region node) = "") then refuse "unknown_region" else refuse "region_mismatch"
  else if Matches (nd_Region node) (sp_ExcludeRegions spec) false version then refuse "region_excluded"
  else
    tag_verdict (f_blacklist f) (f_whitelist f) (nd_Tags node) (EqualFold (sp_TagMatch spec) "all").

Definition Allow (f : Filter) (node : Node) : bool := dc_Allowed (Explain f node).

(** ** Groups *)
Record GroupPoolConfig := mkGroupConfig {
  gc_Enabled : bool;
  gc_Regions : list string;
  gc_ExcludeRegions : list string;
  gc_RegionRuleVersion : Z;
  gc_IncludeUnknownRegion : bool;
  gc_ExplicitNodeIDs : list Z;
  gc_ExcludedNodeIDs : list Z;
  gc_TagWhitelist : list Z;
  gc_TagBlacklist : list Z;
  gc_TagFilterMatch : string
}.

Definition NewFilter (group : GroupPoolConfig) (tagNames : gmap Z string) : Filter :=
  New (mkSpec (gc_Enabled group) (gc_Regions group) (gc_ExcludeRegions group) (gc_RegionRuleVersion group)
         (gc_IncludeUnknownRegion group) true (gc_ExplicitNodeIDs group) (gc_ExcludedNodeIDs group)
         (gc_TagWhitelist group) (gc_TagBlacklist group) (gc_TagFilterMatch group)) tagNames.

(** The members of a group among the configured nodes; [None] is the nil slice. *)
Definition Nodes (nodes : option (list Node)) (group : GroupPoolConfig) (tagNames : gmap Z string)
    : option (list Node) :=
  match nodes with
  | None => None
  | Some nodes =>
    if negb (gc_Enabled group) then None
    else
      let f := NewFilter group tagNames in
      Some (foldl (λ members node, if Allow f node then members ++ [node] else members) [] nodes)
  end.
End regions.

(** ** What the predicate means *)
Section membership.
Context `{!RegionLibrary}.

(** A region text is among the listed ones: by its lower-case text under version
    1, by country or as one of the less common countries under version 2. *)
Definition in_regions (value : string) (regions : list string) (includeUnknown : bool) (version : Z) : Prop :=
  if decide (version < CurrentVersion) then ∃ r, r ∈ regions ∧ Legacy r = Legacy value
  else if decide (Normalize value = "") then includeUnknown = true
  else ∃ r, r ∈ regions ∧
         (Normalize r = Normalize value ∨
          toLower (TrimSpace r) = Other ∧ IsOther (Normalize value) = true).

Lemma matches_legacy_spec value regions :
  matches_legacy value regions = true ↔ ∃ r, r ∈ regions ∧ Legacy r = Legacy value.
Proof.
  induction regions as [|r regions IH]; cbn; [set_solver|]. case_decide; [set_solver|].
  rewrite IH. set_solver.
Qed.

Lemma matches_code_spec code regions :
  matches_code code regions = true ↔
    ∃ r, r ∈ regions ∧ (Normalize r = code ∨ toLower (TrimSpace r) = Other ∧ IsOther code = true).
Proof.
  induction regions as [|r regions IH]; cbn; [set_solver|].
  destruct (EqualFold (TrimSpace r) Other && IsOther code) eqn:E.
  - apply andb_true_iff in E as [E ?]. apply bool_decide_eq_true in E. cbn in E.
    split; [|done]. intros _. exists r. split; [set_solver|by right].
  - assert (¬ (toLower (TrimSpace r) = Other ∧ IsOther code = true)).
    { intros [Hr Ho]. rewrite Ho, andb_true_r in E. unfold EqualFold in E.
      apply bool_decide_eq_false in E. by apply E. }
    case_decide; [set_solver|]. rewrite IH. set_solver.
Qed.

Lemma Matches_spec value regions includeUnknown version :
  Matches value regions includeUnknown version = true ↔ in_regions value regions includeUnknown version.
Proof.
  unfold Matches, in_regions. case_decide; [apply matches_legacy_spec|]. case_decide; [done|].
  apply matches_code_spec.
Qed.

Lemma union_fold {A} `{Countable A} {C} (f : C → A) l : ∀ (s : gset A) x,
  x ∈ foldl (λ s c, {[f c]} ∪ s) s l ↔ x ∈ s ∨ x ∈ f <$> l.
Proof. induction l as [|c l IH]; intros s x; cbn; [set_solver|]. rewrite IH. set_solver. Qed.

Lemma snoc_fold {A C} (f : C → A) l : ∀ acc, foldl (λ a c, a ++ [f c]) acc l = acc ++ (f <$> l).
Proof. induction l as [|c l IH]; intros acc; cbn; [by rewrite app_nil_r|]. by rewrite IH, <-app_assoc. Qed.

Lemma carry_spec blacklist tags : ∀ carried,
  match carry blacklist tags carried with
  | Some all => (∀ tag, tag ∈ tags → tag ∉ blacklist) ∧ ∀ tag, tag ∈ all ↔ tag ∈ carried ∨ tag ∈ tags
  | None => ∃ tag, tag ∈ tags ∧ tag ∈ blacklist
  end.
Proof.
  induction tags as [|tag tags IH]; intros carried; cbn; [set_solver|]. case_decide; [set_solver|].
  specialize (IH ({[tag]} ∪ carried)). destruct (carry _ _ _); set_solver.
Qed.

Lemma count_matched_from (carried : gset string) whitelist : ∀ n,
  foldl (λ n tag, if decide (tag ∈ carried) then S n else n) n whitelist
    = (n + length (filter (.∈ carried) whitelist))%nat.
Proof.
  induction whitelist as [|tag l IH]; intros n; cbn [foldl]; [cbn; lia|]. rewrite filter_cons, IH.
  case_decide; cbn [length]; lia.
Qed.

Lemma count_matched_some (carried : gset string) whitelist :
  count_matched carried whitelist = 0%nat ↔ ∀ tag, tag ∈ whitelist → tag ∉ carried.
Proof.
  unfold count_matched. rewrite count_matched_from, Nat.add_0_l, length_zero_iff_nil. split.
  - intros Hnil tag Hin Hc. assert (tag ∈ filter (.∈ carried) whitelist) as Hf by by apply list_elem_of_filter.
    rewrite Hnil in Hf. set_solver.
  - intros Hno. apply filter_nothing. by apply Forall_forall.
Qed.

Lemma count_matched_all (carried : gset string) whitelist :
  count_matched carried whitelist = length whitelist ↔ ∀ tag, tag ∈ whitelist → tag ∈ carried.
Proof.
  unfold count_matched. rewrite count_matched_from, Nat.add_0_l. split.
  - intros Hlen tag Hin. pose proof (filter_partition (.∈ carried) whitelist) as Hp.
    apply Permutation_length in Hp as Hl. rewrite length_app in Hl.
    assert (Hnil : filter (λ x, x ∉ carried) whitelist = []) by (apply length_zero_iff_nil; lia).
    rewrite Hp, Hnil, app_nil_r in Hin. by apply list_elem_of_filter in Hin as [? _].
  - intros Hall. rewrite filter_all; [done|]. by apply Forall_forall.
Qed.

Lemma tag_verdict_spec blacklist whitelist tags all :
  dc_Allowed (tag_verdict blacklist whitelist tags all) = true ↔
    (∀ tag, tag ∈ tags → tag ∉ blacklist) ∧
    (whitelist ≠ [] → if all then ∀ tag, tag ∈ whitelist → tag ∈ tags
                      else ∃ tag, tag ∈ whitelist ∧ tag ∈ tags).
Proof.
  unfold tag_verdict. pose proof (carry_spec blacklist tags ∅) as Hc.
  destruct (carry _ _ _) as [carried|]; [|cbn; split; [done|]; destruct Hc as (tag & ? & ?); naive_solver].
  destruct Hc as [Hb Hc]. assert (Hc' : ∀ tag, tag ∈ carried ↔ tag ∈ tags) by set_solver. clear Hc.
  pose proof (count_matched_some carried whitelist) as Hsome.
  pose proof (count_matched_all carried whitelist) as Hall. cbn zeta.
  destruct whitelist as [|w whitelist]; [cbn; split; [done|]; done|].
  set (wl := w :: whitelist) in *. set (m := count_matched carried wl) in *.
  change (0 <? length wl)%nat with true.
  cbn [andb]. assert (Hwl : wl ≠ []) by done.
  destruct (Nat.eqb_spec m 0) as [Hm|Hm]; cbn [orb].
  - cbn. split; [done|]. intros [_ Hw]. specialize (Hw Hwl). exfalso.
    pose proof (proj1 Hsome Hm) as Hno. destruct all.
    + apply (Hno w); [set_solver|]. apply Hc', Hw. set_solver.
    + destruct Hw as (tag & Ht & Hin). by apply (Hno tag Ht), Hc'.
  - assert (Hex : ∃ tag, tag ∈ wl ∧ tag ∈ tags).
    { destruct (decide (Exists (.∈ tags) wl)) as [(tag & ? & ?)%Exists_exists|Hno]; [by exists tag|].
      exfalso. apply Hm, Hsome. intros tag Ht Hcar. apply Hno, Exists_exists. exists tag. split; [done|by apply Hc']. }
    destruct all; cbn [andb]; [|cbn; naive_solver].
    destruct (Nat.eqb_spec m (length wl)) as [Hl|Hl]; cbn.
    + split; [|done]. intros _. split; [done|]. intros _ tag Ht. apply Hc'. by apply (proj1 Hall Hl).
    + split; [done|]. intros [_ Hw]. exfalso. apply Hl, Hall. intros tag Ht. apply Hc'. by apply Hw.
Qed.

(** The same rules over the tag ids of the group. *)
Lemma tag_rules_by_id tagNames black white (tags : list string) (all : bool) :
  ((∀ tag, tag ∈ tags → tag ∉ foldl (λ (s : gset string) id, {[resolve tagNames id]} ∪ s) ∅ black) ∧
   (resolve tagNames <$> white ≠ [] →
      if all then ∀ tag, tag ∈ resolve tagNames <$> white → tag ∈ tags
      else ∃ tag, tag ∈ resolve tagNames <$> white ∧ tag ∈ tags)) ↔
  ((∀ id, id ∈ black → ¬ resolve tagNames id ∈ tags) ∧
   (white ≠ [] → if all then ∀ id, id ∈ white → resolve tagNames id ∈ tags
                 else ∃ id, id ∈ white ∧ resolve tagNames id ∈ tags)).
Proof.
  assert (Hb : ∀ tag, tag ∈ foldl (λ (s : gset string) id, {[resolve tagNames id]} ∪ s) ∅ black ↔
                 ∃ id, tag = resolve tagNames id ∧ id ∈ black).
  { intros tag. rewrite (union_fold (resolve tagNames)), list_elem_of_fmap. set_solver. }
  assert (Hw : ∀ tag, tag ∈ resolve tagNames <$> white ↔ ∃ id, tag = resolve tagNames id ∧ id ∈ white).
  { intros tag. apply list_elem_of_fmap. }
  assert (Hnil : resolve tagNames <$> white ≠ [] ↔ white ≠ []) by (by destruct white).
  rewrite Hnil. f_equiv; [|destruct all]; naive_solver.
Qed.

(** The members of an enabled group are the admitted nodes, in configuration order. *)
Lemma Nodes_spec nodes group tagNames :
  gc_Enabled group = true →
  Nodes (Some nodes) group tagNames = Some (filter (λ n, Allow (NewFilter group tagNames) n = true) nodes).
Proof.
  intros He. unfold Nodes. rewrite He. cbn [negb]. f_equal.
  set (f := NewFilter group tagNames).
  assert (Hgen : ∀ acc, foldl (λ members node, if Allow f node then members ++ [node] else members) acc nodes
    = acc ++ filter (λ n, Allow f n = true) nodes); [|apply (Hgen [])].
  induction nodes as [|n nodes IH]; intros acc; cbn [foldl]; [by rewrite app_nil_r|]. rewrite IH, filter_cons.
  destruct (Allow f n); cbn; [by rewrite <-app_assoc|done].
Qed.

(** C36: the membership predicate is the groups' contract: disabled, then excluded,
    then explicit, then rules. A node is admitted exactly when the group is enabled,
    the node is not excluded, and it is either listed explicitly or passes the
    rules: its region is among the required ones (when regions are required or
    listed) and not among the excluded ones, it carries no blacklisted tag, and of
    the whitelisted tags, if any, it carries all or at least one as the group asks. *)
Theorem membership_is_the_group_contract spec tagNames node :
  let version := sp_RegionRuleVersion spec in
  let carries id := resolve tagNames id ∈ nd_Tags node in
  Allow (New spec tagNames) node = true ↔
    sp_Enabled spec = true ∧ nd_ID node ∉ sp_ExcludedIDs spec ∧
    (nd_ID node ∈ sp_ExplicitIDs spec ∨
     (sp_RequireRegion spec = true ∨ sp_Regions spec ≠ [] →
        in_regions (nd_Region node) (sp_Regions spec) (sp_IncludeUnknownRegion spec) version) ∧
     ¬ in_regions (nd_Region node) (sp_ExcludeRegions spec) false version ∧
     (∀ id, id ∈ sp_TagBlacklist spec → ¬ carries id) ∧
     (sp_TagWhitelist spec ≠ [] →
        if EqualFold (sp_TagMatch spec) "all" then ∀ id, id ∈ sp_TagWhitelist spec → carries id
        else ∃ id, id ∈ sp_TagWhitelist spec ∧ carries id)).
Proof.
  cbn zeta. unfold Allow, Explain, New. cbn [f_spec f_explicit f_excluded f_whitelist f_blacklist].
  assert (Hids : ∀ ids, nd_ID node ∈ foldl (λ s id, {[id]} ∪ s) (∅ : gset Z) ids ↔ nd_ID node ∈ ids).
  { intros ids. rewrite (union_fold id), list_fmap_id. set_solver. }
  destruct (sp_Enabled spec); cbn [negb]; [|split; [done|by intros [? _]]].
  case_decide as Hex; rewrite Hids in Hex; [cbn; split; [done|by intros (_ & ? & _)]|].
  case_decide as Hin; rewrite Hids in Hin; [cbn; tauto|].
  assert (Hreg : (sp_RequireRegion spec || (0 <? length (sp_Regions spec))%nat) = true ↔
                 sp_RequireRegion spec = true ∨ sp_Regions spec ≠ []).
  { rewrite orb_true_iff, Nat.ltb_lt. destruct (sp_Regions spec); cbn; split; intros [?|?]; auto with lia; by right. }
  pose proof (Matches_spec (nd_Region node) (sp_Regions spec) (sp_IncludeUnknownRegion spec)
    (sp_RegionRuleVersion spec)) as Hm.
  pose proof (Matches_spec (nd_Region node) (sp_ExcludeRegions spec) false (sp_RegionRuleVersion spec)) as Hx.
  rewrite <-Hreg, <-Hm, <-Hx. rewrite (snoc_fold (resolve tagNames)). cbn [app].
  destruct (_ || _), (Matches _ (sp_Regions spec) _ _); cbn [andb negb].
  2: { case_decide; cbn; naive_solver. }
  all: destruct (Matches _ (sp_ExcludeRegions spec) _ _); [cbn; naive_solver|].
  all: rewrite tag_verdict_spec, tag_rules_by_id; clear -Hex Hin; naive_solver.
Qed.
End membership.
