(* ===== verification/NodeLocation.v ===== *)
(** Where a node lands: the debounced evidence of [internal/nodeloc/state.go] and
    its persistence ([internal/store/sqlite_location.go]), down to what the groups
    see of it ([NodeRegion]).

    A location row is the columns the statements read and write; the JSON of the
    evidence is the evidence itself. Addresses are those of [NetIP]. *)

From S2P Require Import Prelude NetIP NodeRegion.

(** The error of [netip.ParseAddr] is all the code looks at. *)
Definition is_address (s : string) : bool := match ParseAddr s with Some _ => true | None => false end.

(** ** Evidence *)
Definition SourceLegacy : string := "legacy_unverified".
Definition SourceGeoIPExit : string := "geoip_exit".
Definition SourceExitProbe : string := "exit_probe".
Definition SourceManual : string := "manual".

Record Location := mkLocation {
  lc_ISO : string;
  lc_Country : string;
  lc_Source : string;
  lc_Known : bool;
  lc_CheckedAt : Z
}.
Definition no_location : Location := mkLocation "" "" "" false 0.

Record Token := mkToken { tk_Identity : string; tk_Revision : Z }.
Record Evidence := mkEvidence { ev_Current : Location; ev_Candidate : Location; ev_Confirmations : Z }.

Record State := mkState {
  s_Token : Token;
  s_Evidence : Evidence;
  s_BeforeProbe : Evidence;
  s_LastProbeID : string;
  s_LastStartedAt : Z;
  s_LastSource : string;
  s_LastSucceeded : bool
}.

Record Observation := mkObservation {
  ob_Token : Token;
  ob_ProbeID : string;
  ob_StartedAt : Z;
  ob_CheckedAt : Z;
  ob_IP : string;
  ob_Source : string;
  ob_Succeeded : bool;
  ob_ISO : string;
  ob_Country : string
}.

Record Change := mkChange {
  ch_Location : Location;
  ch_Changed : bool;
  ch_MembershipChanged : bool;
  ch_Applied : bool;
  ch_Reason : string
}.

#[global] Instance location_eq_dec : EqDecision Location.
Proof. solve_decision. Defined.
#[global] Instance token_eq_dec : EqDecision Token.
Proof. solve_decision. Defined.

Definition sourcePriority (source : string) : Z :=
  if decide (source = SourceManual) then 3
  else if decide (source = SourceExitProbe) then 2
  else if decide (source = SourceGeoIPExit) then 1 else 0.

Section decide.
Context `{!RegionLibrary}.

Definition ValidISO (iso : string) : bool := Valid iso.

Definition rejected (state : State) (reason : string) : State * Change :=
  (state, mkChange (ev_Current (s_Evidence state)) false false false reason).

(** Whether an observation names an exit country. *)
Definition succeeds (obs : Observation) : bool :=
  ob_Succeeded obs && ValidISO (Normalize (ob_ISO obs)) &&
  (bool_decide (ob_Source obs = SourceManual) || is_address (TrimSpace (ob_IP obs))).

(** Whether a second classification of the last probe may replace it. *)
Definition outranked (state : State) (obs : Observation) (success : bool) : bool :=
  let p := sourcePriority (ob_Source obs) in
  let q := sourcePriority (s_LastSource state) in
  bool_decide (p < q) || (bool_decide (p = q) && (s_LastSucceeded state || negb success)).

(** The evidence of one applied probe on top of the evidence before it. *)
Definition weigh (obs : Observation) (success : bool) (e : Evidence) : Evidence * string :=
  if negb success then (mkEvidence (ev_Current e) no_location 0, "failed_or_unclassified")
  else if bool_decide (lc_Source (ev_Current e) = SourceManual) && negb (bool_decide (ob_Source obs = SourceManual))
  then (mkEvidence (ev_Current e) no_location 0, "manual_override")
  else
    let iso := Normalize (ob_ISO obs) in
    let country := TrimSpace (ob_Country obs) in
    let country := if bool_decide (iso = lc_ISO (ev_Current e)) && bool_decide (country = "")
                   then lc_Country (ev_Current e) else country in
    let next := mkLocation iso country (ob_Source obs) true (ob_CheckedAt obs) in
    if negb (lc_Known (ev_Current e)) || bool_decide (lc_Source (ev_Current e) = SourceLegacy)
       || bool_decide (iso = lc_ISO (ev_Current e)) || bool_decide (ob_Source obs = SourceManual)
    then (mkEvidence next no_location 0, "accepted")
    else
      let confirmations := (if decide (iso ≠ lc_ISO (ev_Candidate e)) then 0 else ev_Confirmations e) + 1 in
      if decide (2 ≤ confirmations) then (mkEvidence next no_location 0, "confirmed")
      else (mkEvidence (ev_Current e) next confirmations, "awaiting_confirmation").

(** An applied observation, on the evidence [base] of the earlier probes. *)
Definition apply_observation (state : State) (obs : Observation) (success : bool) (base : Evidence)
    : State * Change :=
  let before := ev_Current (s_Evidence state) in
  let '(e, reason) := weigh obs success base in
  let now := ev_Current e in
  let moved := negb (bool_decide (lc_ISO before = lc_ISO now)) || negb (bool_decide (lc_Known before = lc_Known now)) in
  (mkState (s_Token state) e base (ob_ProbeID obs) (ob_StartedAt obs) (ob_Source obs) success,
   mkChange now (moved || negb (bool_decide (lc_Country before = lc_Country now))) moved true reason).

Definition Decide (state : State) (obs : Observation) : State * Change :=
  if bool_decide (tk_Identity (ob_Token obs) = "") || negb (bool_decide (ob_Token obs = s_Token state))
  then rejected state "identity_changed"
  else if bool_decide (ob_ProbeID obs = "") || GoTime.isZero (ob_StartedAt obs)
          || GoTime.before (ob_CheckedAt obs) (ob_StartedAt obs)
  then rejected state "invalid_observation"
  else if decide (sourcePriority (ob_Source obs) = 0) then rejected state "unsupported_source"
  else if GoTime.before (ob_StartedAt obs) (s_LastStartedAt state) then rejected state "older_observation"
  else
    let success := succeeds obs in
    if decide (ob_ProbeID obs = s_LastProbeID state) then
      if decide (ob_StartedAt obs ≠ s_LastStartedAt state) then rejected state "invalid_replay"
      else if outranked state obs success then rejected state "duplicate_observation"
      else apply_observation state obs success (s_BeforeProbe state)
    else apply_observation state obs success (s_Evidence state).

(** ** Rows *)
Record location_row := mkLocationRow {
  lr_State : State;       (* node_locations.state_json *)
  lr_Revision : Z;        (* node_locations.revision *)
  lr_Identity : string;   (* nodes.identity_hash *)
  lr_Region : string;     (* nodes.region *)
  lr_Country : string     (* nodes.country *)
}.

Definition legacy_location (row : location_row) : Location :=
  let iso := toLower (TrimSpace (lr_Region row)) in
  mkLocation iso (TrimSpace (lr_Country row)) SourceLegacy (ValidISO (Normalize iso)) 0.

Definition GetNodeLocation (row : location_row) : State :=
  let s := lr_State row in
  let e := s_Evidence s in
  let e := if decide (lc_Source (ev_Current e) = "")
           then mkEvidence (legacy_location row) (ev_Candidate e) (ev_Confirmations e) else e in
  mkState (mkToken (lr_Identity row) (lr_Revision row)) e (s_BeforeProbe s)
    (s_LastProbeID s) (s_LastStartedAt s) (s_LastSource s) (s_LastSucceeded s).

Definition ApplyNodeLocation (obs : Observation) (row : location_row) : location_row * Change :=
  let '(next, result) := Decide (GetNodeLocation row) obs in
  if negb (ch_Applied result) then (row, result)
  else if ch_Changed result then
    (mkLocationRow next (lr_Revision row) (lr_Identity row) (lc_ISO (ch_Location result)) (lc_Country (ch_Location result)),
     result)
  else (mkLocationRow next (lr_Revision row) (lr_Identity row) (lr_Region row) (lr_Country row), result).
End decide.

(** ** The specification: a debounced history of probes *)

(** What counts of a probe: which it is, and how it was last classified. *)
Record entry := mkEntry { en_Obs : Observation; en_Success : bool }.

Section spec.
Context `{!RegionLibrary}.

(** A well-formed observation of the node with this token. *)
Definition admissible (token : Token) (obs : Observation) : bool :=
  bool_decide (ob_Token obs = token) && negb (bool_decide (tk_Identity token = "")) &&
  negb (bool_decide (ob_ProbeID obs = "")) && negb (GoTime.isZero (ob_StartedAt obs)) &&
  negb (GoTime.before (ob_CheckedAt obs) (ob_StartedAt obs)) && bool_decide (0 < sourcePriority (ob_Source obs)).

(** A better classification of the same probe: by a better source, or by an equal
    one that names the country the earlier one could not. *)
Definition improves (e : entry) (obs : Observation) : bool :=
  let p := sourcePriority (ob_Source obs) in
  let q := sourcePriority (ob_Source (en_Obs e)) in
  bool_decide (q < p) || (bool_decide (p = q) && negb (en_Success e) && succeeds obs).

(** The history after an observation: extended by a new probe, corrected in its
    last probe, or unchanged. *)
Definition take_in (token : Token) (h : list entry) (obs : Observation) : list entry :=
  if negb (admissible token obs) then h
  else
    match last h with
    | None => if decide (ob_StartedAt obs < 0) then h else [mkEntry obs (succeeds obs)]
    | Some e =>
      if decide (ob_StartedAt obs < ob_StartedAt (en_Obs e)) then h
      else if decide (ob_ProbeID obs = ob_ProbeID (en_Obs e)) then
        if bool_decide (ob_StartedAt obs = ob_StartedAt (en_Obs e)) && improves e obs
        then removelast h ++ [mkEntry obs (succeeds obs)] else h
      else h ++ [mkEntry obs (succeeds obs)]
    end.

(** The evidence of a history. *)
Definition settle (e : Evidence) (h : list entry) : Evidence :=
  foldl (λ e x, (weigh (en_Obs x) (en_Success x) e).1) e h.

Definition observe (s : State) (os : list Observation) : State := foldl (λ s o, (Decide s o).1) s os.
Definition history (token : Token) (os : list Observation) : list entry := foldl (take_in token) [] os.

(** A state no probe has touched yet. *)
Definition untouched (s : State) : Prop :=
  s_LastProbeID s = "" ∧ s_LastStartedAt s = 0.

(** The state stands for a history over the evidence it started from. *)
Record stands_for (e0 : Evidence) (s : State) (h : list entry) : Prop := {
  sf_evidence : s_Evidence s = settle e0 h;
  sf_before : h ≠ [] → s_BeforeProbe s = settle e0 (removelast h);
  sf_last : match last h with
            | None => s_LastProbeID s = "" ∧ s_LastStartedAt s = 0
            | Some e => s_LastProbeID s = ob_ProbeID (en_Obs e) ∧ s_LastStartedAt s = ob_StartedAt (en_Obs e) ∧
                        s_LastSource s = ob_Source (en_Obs e) ∧ s_LastSucceeded s = en_Success e
            end
}.

Lemma settle_snoc e0 h x : settle e0 (h ++ [x]) = (weigh (en_Obs x) (en_Success x) (settle e0 h)).1.
Proof. unfold settle. by rewrite foldl_app. Qed.

Lemma apply_observation_stands e0 s obs base h :
  base = settle e0 h →
  stands_for e0 (apply_observation s obs (succeeds obs) base).1 (h ++ [mkEntry obs (succeeds obs)]).
Proof.
  intros ->. unfold apply_observation. destruct (weigh _ _ _) as [e reason] eqn:Hw.
  split; cbn [fst s_Evidence s_BeforeProbe s_LastProbeID s_LastStartedAt s_LastSource s_LastSucceeded].
  - rewrite settle_snoc. cbn [en_Obs en_Success]. by rewrite Hw.
  - intros _. by rewrite removelast_last.
  - by rewrite last_snoc.
Qed.

(** The first checks of [Decide] are admissibility. *)
Lemma Decide_inadmissible s obs :
  admissible (s_Token s) obs = false → ∃ reason, Decide s obs = rejected s reason.
Proof.
  intros Ha. unfold Decide. destruct (_ || negb _) eqn:E1; [eauto|].
  destruct (bool_decide (ob_ProbeID obs = "") || _ || _) eqn:E2; [eauto|].
  destruct (decide (sourcePriority (ob_Source obs) = 0)) as [|Hs]; [eauto|]. exfalso.
  rewrite orb_false_iff, negb_false_iff, bool_decide_eq_true in E1. destruct E1 as [E1 E1'].
  rewrite !orb_false_iff in E2. destruct E2 as [[E2 E3] E4].
  unfold admissible in Ha. rewrite <-E1', E1, E2, E3, E4, (bool_decide_true (ob_Token obs = _)) in Ha by done.
  cbn [andb negb] in Ha. apply bool_decide_eq_false in Ha. apply Ha.
  unfold sourcePriority in *. repeat case_decide; lia.
Qed.

Lemma Decide_admissible s obs :
  admissible (s_Token s) obs = true →
  Decide s obs =
    if GoTime.before (ob_StartedAt obs) (s_LastStartedAt s) then rejected s "older_observation"
    else if decide (ob_ProbeID obs = s_LastProbeID s) then
      if decide (ob_StartedAt obs ≠ s_LastStartedAt s) then rejected s "invalid_replay"
      else if outranked s obs (succeeds obs) then rejected s "duplicate_observation"
      else apply_observation s obs (succeeds obs) (s_BeforeProbe s)
    else apply_observation s obs (succeeds obs) (s_Evidence s).
Proof.
  unfold admissible. rewrite !andb_true_iff, !negb_true_iff, !bool_decide_eq_true.
  intros (((((Ht & Hi) & Hp) & Hz) & Hc) & Hs). unfold Decide.
  rewrite Ht, Hi, (bool_decide_true (s_Token s = _)), Hp, Hz, Hc by done. cbn [orb negb].
  rewrite decide_False by lia. done.
Qed.

(** An applied observation leaves its mark as the last probe. *)
Lemma Decide_applied s obs :
  ch_Applied (Decide s obs).2 = true →
  admissible (s_Token s) obs = true ∧
  s_LastProbeID (Decide s obs).1 = ob_ProbeID obs ∧ s_LastStartedAt (Decide s obs).1 = ob_StartedAt obs ∧
  s_LastSource (Decide s obs).1 = ob_Source obs ∧ s_LastSucceeded (Decide s obs).1 = succeeds obs.
Proof.
  destruct (admissible (s_Token s) obs) eqn:Ha.
  - rewrite Decide_admissible by done. unfold rejected, apply_observation.
    repeat case_match; cbn; intros; simplify_eq; done.
  - by destruct (Decide_inadmissible s obs Ha) as [reason ->].
Qed.

(** The same observation on the state it left is a duplicate. *)
Lemma Decide_replay s obs s' :
  ch_Applied (Decide s obs).2 = true →
  s_Token s' = s_Token s → s_LastProbeID s' = s_LastProbeID (Decide s obs).1 →
  s_LastStartedAt s' = s_LastStartedAt (Decide s obs).1 → s_LastSource s' = s_LastSource (Decide s obs).1 →
  s_LastSucceeded s' = s_LastSucceeded (Decide s obs).1 →
  ch_Applied (Decide s' obs).2 = false.
Proof.
  intros (Ha & -> & -> & -> & ->)%Decide_applied Ht Hid Hst Hsrc Hsuc. rewrite <-Ht in Ha.
  rewrite Decide_admissible, Hid, Hst by done. unfold GoTime.before. rewrite bool_decide_false by lia.
  rewrite decide_True by done. rewrite decide_False by tauto.
  unfold outranked. rewrite Hsrc, Hsuc. rewrite bool_decide_false by lia. rewrite bool_decide_true by done.
  by destruct (succeeds obs).
Qed.

Lemma Decide_stands e0 s h obs :
  stands_for e0 s h → stands_for e0 (Decide s obs).1 (take_in (s_Token s) h obs).
Proof.
  intros Hsf. unfold take_in. destruct (admissible (s_Token s) obs) eqn:Ha; cbn [negb].
  2: { by destruct (Decide_inadmissible s obs Ha) as [reason ->]. }
  rewrite Decide_admissible by done.
  pose proof (sf_last _ _ _ Hsf) as Hlast. unfold GoTime.before.
  destruct (last h) as [e|] eqn:El.
  - destruct Hlast as (-> & -> & Hsrc & Hsuc).
    destruct (decide (ob_StartedAt obs < ob_StartedAt (en_Obs e))) as [Hlt|Hge].
    { by rewrite bool_decide_true by done. }
    rewrite bool_decide_false by done. case_decide as Hid; [|apply apply_observation_stands, Hsf].
    case_decide as Hst; [rewrite bool_decide_false by done; done|].
    rewrite bool_decide_true by done. cbn [andb].
    assert (Himp : improves e obs = negb (outranked s obs (succeeds obs))).
    { unfold improves, outranked. rewrite Hsrc, Hsuc.
      set (p := sourcePriority (ob_Source obs)). set (q := sourcePriority (ob_Source (en_Obs e))).
      destruct (Z.lt_trichotomy p q) as [Hpq|[Hpq|Hpq]].
      - rewrite (bool_decide_true (p < q)), (bool_decide_false (q < p)), (bool_decide_false (p = q)) by lia. done.
      - rewrite (bool_decide_false (p < q)), (bool_decide_false (q < p)), (bool_decide_true (p = q)) by lia.
        by destruct (en_Success e), (succeeds obs).
      - rewrite (bool_decide_false (p < q)), (bool_decide_true (q < p)), (bool_decide_false (p = q)) by lia. done. }
    rewrite Himp. destruct (outranked _ _ _); cbn [negb]; [done|].
    apply apply_observation_stands, Hsf. by intros ->.
  - apply last_None in El. subst h. destruct Hlast as [Hid Hst]. rewrite Hid, Hst.
    assert (ob_ProbeID obs ≠ "").
    { unfold admissible in Ha. rewrite !andb_true_iff, !negb_true_iff, !bool_decide_eq_false in Ha. tauto. }
    destruct (decide (ob_StartedAt obs < 0)); [rewrite bool_decide_true by done; done|].
    rewrite bool_decide_false by done. rewrite decide_False by done. apply (apply_observation_stands _ _ _ _ []), Hsf.
Qed.

Lemma Decide_token s obs : s_Token (Decide s obs).1 = s_Token s.
Proof.
  unfold Decide, rejected, apply_observation. by repeat case_match; simplify_eq.
Qed.

Lemma observe_stands s os :
  untouched s → stands_for (s_Evidence s) (observe s os) (history (s_Token s) os).
Proof.
  intros Hu. unfold observe, history.
  assert (Hgen : ∀ os s1 h, s_Token s1 = s_Token s → stands_for (s_Evidence s) s1 h →
    stands_for (s_Evidence s) (foldl (λ s o, (Decide s o).1) s1 os) (foldl (take_in (s_Token s)) h os)).
  { clear os. induction os as [|o os IH]; intros s1 h Ht Hsf; cbn [foldl]; [done|].
    apply IH; [by rewrite Decide_token|]. rewrite <-Ht. by apply Decide_stands. }
  apply Hgen; [done|]. split; [done|done|apply Hu].
Qed.

(** ** The debounce, told by pairs of probes *)

Definition named_iso (x : entry) : string := Normalize (ob_ISO (en_Obs x)).
Definition is_manual (source : string) : bool := bool_decide (source = SourceManual).

(** What a successful probe says about a node at [c]. *)
Definition place (c : Location) (x : entry) : Location :=
  let country := TrimSpace (ob_Country (en_Obs x)) in
  mkLocation (named_iso x)
    (if decide (named_iso x = lc_ISO c ∧ country = "") then lc_Country c else country)
    (ob_Source (en_Obs x)) true (ob_CheckedAt (en_Obs x)).

(** Whether the probe [x], next after [previous], settles the location of a node at
    [c]: it succeeded, and was set by hand; or the location was not set by hand and
    either nothing reliable was known, or the country is the same, or the probe just
    before named the same other country. *)
Definition settles (c : Location) (previous : option entry) (x : entry) : bool :=
  en_Success x &&
  (is_manual (ob_Source (en_Obs x)) ||
   (negb (is_manual (lc_Source c)) &&
    (negb (lc_Known c) || bool_decide (lc_Source c = SourceLegacy) || bool_decide (named_iso x = lc_ISO c) ||
     match previous with Some y => en_Success y && bool_decide (named_iso y = named_iso x) | None => false end))).

Fixpoint located (c : Location) (previous : option entry) (h : list entry) : Location :=
  match h with
  | [] => c
  | x :: h => located (if settles c previous x then place c x else c) (Some x) h
  end.

(** The evidence of a history that began at [e0]: the location, and the last probe as a
    candidate when it succeeded without settling anything against no hand-set location. *)
Definition debounce (e0 : Evidence) (h : list entry) : Evidence :=
  let c := located (ev_Current e0) None h in
  match last h with
  | None => e0
  | Some x =>
    let before := located (ev_Current e0) None (removelast h) in
    if en_Success x && negb (settles before (last (removelast h)) x) && negb (is_manual (lc_Source before))
    then mkEvidence c (place before x) 1 else mkEvidence c no_location 0
  end.

Lemma located_snoc h x : ∀ c previous,
  let c' := located c previous h in
  located c previous (h ++ [x]) =
    if settles c' (match last h with Some y => Some y | None => previous end) x then place c' x else c'.
Proof.
  induction h as [|y h IH]; intros c previous; [done|]. cbn [located app]. rewrite IH.
  destruct h as [|z h]; [done|]. change (last (y :: z :: h)) with (last (z :: h)).
  assert (is_Some (last (z :: h))) as [w ->] by by apply last_is_Some. done.
Qed.

Lemma debounce_current e0 h : ev_Current (debounce e0 h) = located (ev_Current e0) None h.
Proof. unfold debounce. destruct (last h) eqn:El; [by case_match|]. by apply last_None in El as ->. Qed.

(** What the last probe left behind. *)
Lemma debounce_pending e0 h :
  ev_Confirmations e0 = 0 →
  let e := debounce e0 h in
  (ev_Confirmations e = 0 ∧ ∀ y, last h = Some y → en_Success y = true →
     named_iso y = lc_ISO (ev_Current e) ∨ lc_Source (ev_Current e) = SourceManual) ∨
  (ev_Confirmations e = 1 ∧ ∃ y, last h = Some y ∧ en_Success y = true ∧ lc_ISO (ev_Candidate e) = named_iso y).
Proof.
  intros H0. cbn zeta. destruct h as [|y h _] using rev_ind; [left; split; [done|by intros y]|].
  rewrite debounce_current, located_snoc. unfold debounce. rewrite last_snoc, removelast_last.
  set (c := located _ _ h). replace (match last h with Some z => Some z | None => None end) with (last h) by by destruct (last h).
  destruct (settles c (last h) y) eqn:Hs; [|destruct (en_Success y) eqn:Hy; cbn [andb negb]].
  - rewrite andb_false_r. left. split; [done|]. intros z [= <-] _. by left.
  - destruct (is_manual (lc_Source c)) eqn:Hm; cbn [negb].
    + left. split; [done|]. intros z [= <-] _. right. by apply bool_decide_eq_true in Hm.
    + right. split; [done|]. by exists y.
  - left. split; [done|]. intros z [= <-]. congruence.
Qed.

(** The country kept when the probe does not name one. *)
Lemma kept_country (c : Location) (x : entry) :
  (if bool_decide (named_iso x = lc_ISO c) && bool_decide (TrimSpace (ob_Country (en_Obs x)) = "")
   then lc_Country c else TrimSpace (ob_Country (en_Obs x))) =
  (if decide (named_iso x = lc_ISO c ∧ TrimSpace (ob_Country (en_Obs x)) = "")
   then lc_Country c else TrimSpace (ob_Country (en_Obs x))).
Proof.
  destruct (decide (named_iso x = lc_ISO c)) as [H1|H1]; [rewrite bool_decide_true by done|rewrite bool_decide_false by done]; cbn [andb].
  - case_bool_decide; [by rewrite decide_True|by rewrite decide_False by tauto].
  - by rewrite decide_False by tauto.
Qed.

Lemma weigh_debounce e0 h x :
  ev_Confirmations e0 = 0 →
  (weigh (en_Obs x) (en_Success x) (debounce e0 h)).1 = debounce e0 (h ++ [x]).
Proof.
  intros H0. pose proof (debounce_pending e0 h H0) as Hp. pose proof (debounce_current e0 h) as Hcur. cbn zeta in Hp.
  unfold debounce at 2. rewrite last_snoc, removelast_last, located_snoc. rewrite <-Hcur.
  replace (match last h with Some z => Some z | None => None end) with (last h) by by destruct (last h).
  set (e := debounce e0 h) in *. clearbody e. clear Hcur H0. unfold weigh, settles, place.
  destruct (en_Success x); cbn [andb negb fst]; [|done]. unfold is_manual. fold (named_iso x). rewrite kept_country.
  destruct (bool_decide (ob_Source (en_Obs x) = SourceManual)) eqn:Hxm; cbn [negb orb andb].
  { by rewrite andb_false_r, !orb_true_r. }
  rewrite andb_true_r. destruct (bool_decide (lc_Source (ev_Current e) = SourceManual)) eqn:Hcm; cbn [negb andb fst]; [done|].
  apply bool_decide_eq_false in Hcm. rewrite !orb_false_r.
  destruct (negb (lc_Known (ev_Current e)) || bool_decide (lc_Source (ev_Current e) = SourceLegacy)
            || bool_decide (named_iso x = lc_ISO (ev_Current e))) eqn:Hopen; cbn [orb negb fst]; [done|].
  apply orb_false_iff in Hopen as [_ Hother]. apply bool_decide_eq_false in Hother.
  destruct Hp as [[Hconf Hlast]|(Hconf & y & Hlast & Hy & Hcand)].
  - assert (match last h with Some y => en_Success y && bool_decide (named_iso y = named_iso x) | None => false end = false) as ->.
    { destruct (last h) as [y|]; [|done]. destruct (en_Success y) eqn:Hy; [|done]. cbn. apply bool_decide_eq_false. intros Heq.
      destruct (Hlast y eq_refl Hy) as [Hiso|?]; [|done]. apply Hother. congruence. }
    rewrite Hconf. by destruct (decide (named_iso x ≠ lc_ISO (ev_Candidate e))); cbn; rewrite decide_False by lia.
  - rewrite Hlast, Hy, Hcand, Hconf. cbn [andb].
    destruct (decide (named_iso x ≠ named_iso y)) as [Hne|Heq].
    + rewrite bool_decide_false by congruence. rewrite decide_False by lia. done.
    + apply dec_stable in Heq. rewrite bool_decide_true by congruence. rewrite decide_True by lia. done.
Qed.

Lemma settle_is_debounce e0 h : ev_Confirmations e0 = 0 → settle e0 h = debounce e0 h.
Proof.
  intros H0. induction h as [|x h IH] using rev_ind; [done|]. by rewrite settle_snoc, IH, weigh_debounce.
Qed.

(** C35: The stored evidence is the debounced history of the node's probes. From a state
    no probe has touched, after any observations in any order, the location is what the
    admitted probes give one after the other: a probe settles it if it succeeded and
    nothing reliable was known, or names the same country, or was set by hand, or names
    the same other country as the probe just before it; one probe alone never moves a
    node, and nothing automatic moves a location set by hand. The candidate is the last
    probe if it waits for its confirmation. Each probe counts once under its best
    classification: a duplicate, a replay, an older probe or one of another identity
    contributes nothing, and a better classification of the last probe replaces its
    contribution instead of adding one — also when the better one failed, which takes
    back what the probe had contributed, its location included
    ([failed_classification_erases_location]). *)
Theorem location_is_the_debounced_history s os :
  untouched s → ev_Confirmations (s_Evidence s) = 0 →
  let h := history (s_Token s) os in
  s_Evidence (observe s os) = debounce (s_Evidence s) h ∧
  ev_Current (s_Evidence (observe s os)) = located (ev_Current (s_Evidence s)) None h ∧
  s_Token (observe s os) = s_Token s.
Proof.
  intros Hu H0. cbn zeta. pose proof (sf_evidence _ _ _ (observe_stands s os Hu)) as He.
  rewrite settle_is_debounce in He by done. split_and!; [done|by rewrite He, debounce_current|].
  unfold observe. clear He Hu H0. revert s. induction os as [|o os IH]; intros s; cbn [foldl]; [done|].
  by rewrite IH, Decide_token.
Qed.
End spec.

(** ** Relocation *)
Section relocation.
Context `{!RegionLibrary}.

(** Consecutive entries belong to different probes. *)
Definition neighbours_differ (h : list entry) : Prop :=
  ∀ l1 x y l2, h = l1 ++ x :: y :: l2 → ob_ProbeID (en_Obs x) ≠ ob_ProbeID (en_Obs y).

Lemma neighbours_snoc h z :
  neighbours_differ h → (∀ e, last h = Some e → ob_ProbeID (en_Obs e) ≠ ob_ProbeID (en_Obs z)) →
  neighbours_differ (h ++ [z]).
Proof.
  intros Hn Hz l1 x y l2 Heq. destruct l2 as [|w l2 _] using rev_ind.
  - assert (Heq' : h ++ [z] = (l1 ++ [x]) ++ [y]) by (rewrite Heq, <-app_assoc; done).
    apply app_inj_tail in Heq' as [-> ->]. apply Hz. by rewrite last_snoc.
  - assert (Heq' : h ++ [z] = (l1 ++ x :: y :: l2) ++ [w]) by (rewrite Heq, <-app_assoc; done).
    apply app_inj_tail in Heq' as [-> ->]. by eapply Hn.
Qed.

Lemma neighbours_init h z : neighbours_differ (h ++ [z]) →
  neighbours_differ h ∧ ∀ e, last h = Some e → ob_ProbeID (en_Obs e) ≠ ob_ProbeID (en_Obs z).
Proof.
  intros Hn. split.
  - intros l1 x y l2 ->. apply (Hn l1 x y (l2 ++ [z])). by rewrite <-app_assoc.
  - intros e [l ->]%last_Some. apply (Hn l e z []). by rewrite <-app_assoc.
Qed.

Lemma take_in_cases token h obs :
  take_in token h obs = h ∨
  (admissible token obs = true ∧
   ((take_in token h obs = h ++ [mkEntry obs (succeeds obs)] ∧
     ∀ e, last h = Some e → ob_ProbeID (en_Obs e) ≠ ob_ProbeID obs) ∨
    ∃ h' e, h = h' ++ [e] ∧ ob_ProbeID (en_Obs e) = ob_ProbeID obs ∧
            take_in token h obs = h' ++ [mkEntry obs (succeeds obs)])).
Proof.
  unfold take_in. destruct (admissible token obs) eqn:Ha; cbn [negb]; [|by left].
  destruct (last h) as [e|] eqn:El.
  - case_decide; [by left|]. case_decide as Hid.
    + case_match; [|by left]. right. split; [done|]. right. apply last_Some in El as [h' ->].
      exists h', e. by rewrite removelast_last.
    + right. split; [done|]. left. split; [done|]. naive_solver.
  - apply last_None in El as ->. case_decide; [by left|]. right. split; [done|]. left. by split.
Qed.

(** What holds of every history. *)
Record history_ok (token : Token) (os : list Observation) (h : list entry) : Prop := {
  ho_neighbours : neighbours_differ h;
  ho_entries x : x ∈ h → en_Obs x ∈ os ∧ admissible token (en_Obs x) = true ∧ en_Success x = succeeds (en_Obs x)
}.

Lemma history_is_ok token os : history_ok token os (history token os).
Proof.
  induction os as [|o os IH] using rev_ind; [split; [intros [] ???; done|set_solver]|].
  unfold history in *. rewrite foldl_app. cbn [foldl]. set (h := foldl _ _ _) in *. destruct IH as [Hn He].
  assert (Hold : ∀ x, x ∈ h → en_Obs x ∈ os ++ [o] ∧ admissible token (en_Obs x) = true ∧
                             en_Success x = succeeds (en_Obs x)).
  { intros x (? & ? & ?)%He. split_and!; [set_solver|done|done]. }
  destruct (take_in_cases token h o) as [->|(Ha & [[-> Hd]|(h' & e & Hh & Hid & ->)])]; [by split|..].
  - split; [by apply neighbours_snoc|]. intros x [?|Hx%list_elem_of_singleton]%elem_of_app; [by apply Hold|].
    subst. cbn. split_and!; [set_solver|done|done].
  - rewrite Hh in Hn. apply neighbours_init in Hn as [Hn Hd]. split.
    + apply neighbours_snoc; [done|]. cbn. by rewrite <-Hid.
    + intros x [?|Hx%list_elem_of_singleton]%elem_of_app; [apply Hold; rewrite Hh; set_solver|].
      subst. cbn. split_and!; [set_solver|done|done].
Qed.

(** A probe that named a country. *)
Definition names_country (x : entry) (iso : string) : Prop :=
  en_Success x = true ∧ Normalize (ob_ISO (en_Obs x)) = iso.

Definition confirmed (h : list entry) (iso : string) : Prop :=
  ∃ l1 x y l2, h = l1 ++ x :: y :: l2 ∧ names_country x iso ∧ names_country y iso.

Lemma confirmed_snoc h z iso : confirmed h iso → confirmed (h ++ [z]) iso.
Proof.
  intros (l1 & x & y & l2 & -> & ? & ?). exists l1, x, y, (l2 ++ [z]). by rewrite <-app_assoc.
Qed.

(** Automatic evidence about a node whose location is known and not manual. *)
Record debounced (iso0 : string) (e : Evidence) (h : list entry) : Prop := {
  db_known : lc_Known (ev_Current e) = true;
  db_source : lc_Source (ev_Current e) ≠ SourceLegacy ∧ lc_Source (ev_Current e) ≠ SourceManual;
  db_pending : ev_Confirmations e = 0 ∨
    ev_Confirmations e = 1 ∧ ∃ x, last h = Some x ∧ names_country x (lc_ISO (ev_Candidate e));
  db_current : lc_ISO (ev_Current e) = iso0 ∨ confirmed h (lc_ISO (ev_Current e))
}.

Lemma weigh_debounced iso0 e h x :
  debounced iso0 e h → ob_Source (en_Obs x) ≠ SourceManual → ob_Source (en_Obs x) ≠ SourceLegacy →
  debounced iso0 (weigh (en_Obs x) (en_Success x) e).1 (h ++ [x]).
Proof.
  intros [Hk [Hl Hm] Hp Hc] Hman Hleg. unfold weigh.
  assert (Hc' : lc_ISO (ev_Current e) = iso0 ∨ confirmed (h ++ [x]) (lc_ISO (ev_Current e))).
  { destruct Hc; [by left|right; by apply confirmed_snoc]. }
  destruct (en_Success x) eqn:Hs; cbn [negb]; [|split; cbn; auto].
  rewrite (bool_decide_false (lc_Source _ = SourceManual)) by done. cbn [andb].
  rewrite Hk, (bool_decide_false (lc_Source _ = SourceLegacy)), (bool_decide_false (ob_Source _ = SourceManual)) by done.
  cbn [negb orb]. rewrite orb_false_r.
  set (iso := Normalize (ob_ISO (en_Obs x))).
  destruct (decide (iso = lc_ISO (ev_Current e))) as [Hiso|Hiso].
  { rewrite (bool_decide_true (iso = _)) by done. split; cbn; [done|done|by left|by rewrite Hiso]. }
  rewrite (bool_decide_false (iso = _)) by done. cbn [andb].
  assert (Hx : names_country x iso) by done.
  destruct (decide (iso ≠ lc_ISO (ev_Candidate e))) as [Hcand|Hci].
  - (* another country than the candidate *)
    rewrite decide_False by lia. split; cbn; [done|by split| |done]. right. split; [done|]. exists x.
    by rewrite last_snoc.
  - apply dec_stable in Hci.
    destruct Hp as [Hp|(Hp & y & Hy & Hny)].
    + rewrite Hp. cbn. split; cbn; [done|by split| |done]. right. split; [done|]. exists x. by rewrite last_snoc.
    + rewrite Hp. cbn. split; cbn; [done|done|by left|]. right. fold iso. rewrite <-Hci in Hny.
      apply last_Some in Hy as [h' ->]. exists h', y, x, []. by rewrite <-app_assoc.
Qed.

Lemma settle_debounced iso0 e h :
  debounced iso0 e [] →
  (∀ x, x ∈ h → ob_Source (en_Obs x) ≠ SourceManual ∧ ob_Source (en_Obs x) ≠ SourceLegacy) →
  debounced iso0 (settle e h) h.
Proof.
  intros H0. induction h as [|x h IH] using rev_ind; intros Hsrc; [done|].
  rewrite settle_snoc. destruct (Hsrc x ltac:(set_solver)). apply weigh_debounced; [|done..].
  apply IH. intros y Hy. apply Hsrc. set_solver.
Qed.

Lemma settle_manual e h :
  lc_Source (ev_Current e) = SourceManual → (∀ x, x ∈ h → ob_Source (en_Obs x) ≠ SourceManual) →
  ev_Current (settle e h) = ev_Current e.
Proof.
  intros Hm. induction h as [|x h IH] using rev_ind; intros Hsrc; [done|].
  rewrite settle_snoc. unfold weigh. destruct (en_Success x); cbn [negb fst]; [|apply IH; set_solver].
  rewrite IH by set_solver. rewrite Hm, (bool_decide_true (SourceManual = _)) by done.
  rewrite bool_decide_false by (apply Hsrc; set_solver). done.
Qed.

(** A location does not flap. Automatic observations never move a node whose
    location was set manually. They move a node of known location to another country
    only when two consecutive admitted probes, different ones, both succeeded and
    named that country: one probe, however often it is reclassified or replayed,
    moves nothing. *)
Theorem relocation_takes_two_probes s os :
  untouched s → (∀ o, o ∈ os → ob_Source o ≠ SourceManual) →
  let c := ev_Current (s_Evidence s) in
  let c' := ev_Current (s_Evidence (observe s os)) in
  (lc_Source c = SourceManual → c' = c) ∧
  (lc_Known c = true → lc_Source c ≠ SourceLegacy → ev_Confirmations (s_Evidence s) = 0 →
   lc_ISO c' ≠ lc_ISO c →
   ∃ l1 x y l2, history (s_Token s) os = l1 ++ x :: y :: l2 ∧
     ob_ProbeID (en_Obs x) ≠ ob_ProbeID (en_Obs y) ∧
     names_country x (lc_ISO c') ∧ names_country y (lc_ISO c')).
Proof.
  intros Hu Hauto. cbn zeta. rewrite (sf_evidence _ _ _ (observe_stands s os Hu)).
  set (h := history (s_Token s) os). destruct (history_is_ok (s_Token s) os) as [Hn He]. fold h in Hn, He.
  assert (Hsrc : ∀ x, x ∈ h → ob_Source (en_Obs x) ≠ SourceManual ∧ ob_Source (en_Obs x) ≠ SourceLegacy).
  { intros x (Hin & Ha & _)%He. split; [by apply Hauto|]. intros Heq. unfold admissible in Ha.
    apply andb_true_iff in Ha as [_ Ha]. by rewrite Heq in Ha. }
  split; [intros Hm; apply settle_manual; [done|naive_solver]|].
  intros Hk Hl Hc Hne. destruct (decide (lc_Source (ev_Current (s_Evidence s)) = SourceManual)) as [Hm|Hm].
  { exfalso. apply Hne. f_equal. apply settle_manual; [done|naive_solver]. }
  destruct (settle_debounced (lc_ISO (ev_Current (s_Evidence s))) (s_Evidence s) h) as [_ _ _ [Hcur|Hcur]];
    [by split; auto|done|by rewrite Hcur in Hne|].
  destruct Hcur as (l1 & x & y & l2 & Heq & Hx & Hy). exists l1, x, y, l2. split_and!; [done|by eapply Hn|done|done].
Qed.
End relocation.

(** ** What the groups see *)
Section groups.
Context `{!RegionLibrary}.

(** The region column says where the evidence puts the node. *)
Definition column_agrees (row : location_row) : Prop :=
  let iso := lc_ISO (ev_Current (s_Evidence (GetNodeLocation row))) in
  lr_Region row = iso ∨ toLower (TrimSpace (lr_Region row)) = iso.

Lemma same_text a b :
  a = b ∨ toLower (TrimSpace a) = b → toLower (TrimSpace a) = toLower (TrimSpace b).
Proof. intros [->|<-]; [done|]. by rewrite <-!toLower_TrimSpace, toLower_idem, TrimSpace_idem. Qed.

(** The predicate reads a region text only through its trimmed lower-case form. *)
Lemma Explain_text f id a b tags :
  toLower (TrimSpace a) = toLower (TrimSpace b) →
  Explain f (mkNode id a tags) = Explain f (mkNode id b tags).
Proof.
  intros Heq. assert (Hn : Normalize a = Normalize b) by (unfold Normalize; by rewrite Heq).
  assert (Hl : Legacy a = Legacy b) by (unfold Legacy; by rewrite Heq).
  assert (Hm : ∀ rs u v, Matches a rs u v = Matches b rs u v).
  { intros rs u v. unfold Matches. rewrite Hn. case_decide; [|done].
    induction rs as [|r rs IH]; cbn; [done|]. by rewrite Hl, IH. }
  unfold Explain. cbn [nd_ID nd_Region nd_Tags]. by rewrite !Hm, Hn.
Qed.

Lemma Decide_change s obs :
  let r := Decide s obs in
  (ch_Applied r.2 = false → r = (s, r.2)) ∧
  ch_Location r.2 = ev_Current (s_Evidence r.1) ∧
  (ch_Applied r.2 = true → ch_MembershipChanged r.2 = false →
     lc_ISO (ev_Current (s_Evidence r.1)) = lc_ISO (ev_Current (s_Evidence s))) ∧
  (ch_Applied r.2 = true → ch_Changed r.2 = false → ch_MembershipChanged r.2 = false).
Proof.
  assert (Happly : ∀ success base, let r := apply_observation s obs success base in
    (ch_Applied r.2 = false → r = (s, r.2)) ∧ ch_Location r.2 = ev_Current (s_Evidence r.1) ∧
    (ch_Applied r.2 = true → ch_MembershipChanged r.2 = false →
      lc_ISO (ev_Current (s_Evidence r.1)) = lc_ISO (ev_Current (s_Evidence s))) ∧
    (ch_Applied r.2 = true → ch_Changed r.2 = false → ch_MembershipChanged r.2 = false)).
  { intros success base. unfold apply_observation. destruct (weigh _ _ _) as [e reason]. cbn.
    split_and!; [done|done| |].
    - intros _ [Hm _]%orb_false_iff. by apply negb_false_iff, bool_decide_eq_true in Hm.
    - by intros _ [Hm _]%orb_false_iff. }
  unfold Decide, rejected. repeat case_match; try apply Happly; cbn; naive_solver.
Qed.

Definition apply_all (row : location_row) (os : list Observation) : location_row :=
  foldl (λ row o, (ApplyNodeLocation o row).1) row os.

Lemma ApplyNodeLocation_column obs row :
  column_agrees row →
  let r := ApplyNodeLocation obs row in
  column_agrees r.1 ∧
  (ch_MembershipChanged r.2 = false →
   toLower (TrimSpace (lr_Region row)) = toLower (TrimSpace (lr_Region r.1))).
Proof.
  intros Hc. unfold ApplyNodeLocation. cbn zeta.
  destruct (Decide_change (GetNodeLocation row) obs) as (_ & Hloc & Hiso & Hch).
  destruct (Decide (GetNodeLocation row) obs) as [next result]. cbn [fst snd] in *.
  destruct (ch_Applied result) eqn:Ha; cbn [negb]; [|by split].
  specialize (Hiso eq_refl). specialize (Hch eq_refl).
  assert (Hstored : ∀ revision identity region country,
    region = lc_ISO (ev_Current (s_Evidence next)) ∨ toLower (TrimSpace region) = lc_ISO (ev_Current (s_Evidence next)) →
    column_agrees (mkLocationRow next revision identity region country)).
  { intros revision identity region country Hr. unfold column_agrees, GetNodeLocation. cbn.
    case_decide; cbn; [by right|done]. }
  destruct (ch_Changed result) eqn:Hchg; cbn [fst snd].
  - split; [apply Hstored; left; by rewrite Hloc|]. intros Hm. cbn [lr_Region]. rewrite Hloc, Hiso by done.
    by apply same_text.
  - split; [|done]. apply Hstored.
    unfold column_agrees in Hc. by rewrite (Hiso (Hch eq_refl)).
Qed.

Lemma apply_all_column row os : column_agrees row → column_agrees (apply_all row os).
Proof.
  revert row. induction os as [|o os IH]; intros row Hc; cbn; [done|]. by apply IH, ApplyNodeLocation_column.
Qed.

(** Groups follow the accepted location, and only it. For a row that started
    with no evidence, after any observations, every group decides about the text in
    the node's region column as it decides about the accepted country; and an
    observation that does not report a membership change leaves every group's
    decision about the node as it was, so not re-evaluating the groups is right. *)
Theorem membership_follows_the_evidence row os obs f id tags :
  lc_Source (ev_Current (s_Evidence (lr_State row))) = "" →
  let row1 := apply_all row os in
  let r := ApplyNodeLocation obs row1 in
  Explain f (mkNode id (lr_Region row1) tags)
    = Explain f (mkNode id (lc_ISO (ev_Current (s_Evidence (GetNodeLocation row1)))) tags) ∧
  (ch_MembershipChanged r.2 = false →
   Explain f (mkNode id (lr_Region r.1) tags) = Explain f (mkNode id (lr_Region row1) tags)).
Proof.
  intros H0. cbn zeta. assert (Hc : column_agrees (apply_all row os)).
  { apply apply_all_column. unfold column_agrees, GetNodeLocation. rewrite decide_True by done. by right. }
  split; [by apply Explain_text, same_text|]. intros Hm. symmetry. apply Explain_text.
  by apply ApplyNodeLocation_column.
Qed.
End groups.

(** ** A node seen in Hong Kong, then in Japan. *)
Module LocationExample.
#[local] Instance library : RegionLibrary :=
  [mkRegion "HK" true "Hong Kong SAR China" "" ""; mkRegion "JP" true "Japan" "" ""; mkRegion "US" true "United States" "" ""].

Definition token : Token := mkToken "node" 1.
Definition blank : Evidence := mkEvidence no_location no_location 0.
Definition new_state : State := mkState token blank blank "" 0 "" false.
Definition probe (id : string) (at_ : Z) (source : string) (ok : bool) (iso : string) : Observation :=
  mkObservation token id at_ (at_ + 1) "203.0.113.1" source ok iso "".

Definition seen : Observation := probe "first" 10 SourceGeoIPExit true "HK".
Definition moved : list Observation :=
  [probe "second" 20 SourceGeoIPExit true "JP"; probe "second" 20 SourceExitProbe true "Japan";
   probe "old" 15 SourceExitProbe true "US"; probe "third" 30 SourceGeoIPExit true "jp"].
Definition settled : State := (Decide new_state seen).1.
Definition again : State := mkState token (s_Evidence settled) blank "" 0 "" false.

Definition row : location_row := mkLocationRow new_state 1 "node" " HK " "".
Definition unchanged : Observation := probe "next" 40 SourceGeoIPExit true "JP".

Lemma automatic o : o ∈ moved → ob_Source o ≠ SourceManual.
Proof. intros Ho. unfold moved in Ho. by repeat (apply elem_of_cons in Ho as [->|Ho]; [done|]); apply elem_of_nil in Ho. Qed.
Lemma known : lc_Known (ev_Current (s_Evidence again)) = true.
Proof. vm_compute. reflexivity. Qed.
Lemma verified : lc_Source (ev_Current (s_Evidence again)) ≠ SourceLegacy.
Proof. vm_compute. discriminate. Qed.
Lemma relocated : lc_ISO (ev_Current (s_Evidence (observe again moved))) ≠ lc_ISO (ev_Current (s_Evidence again)).
Proof. vm_compute. discriminate. Qed.
Definition asia : Filter := NewFilter (mkGroupConfig true ["hk"; "jp"] [] 2 false [] [] [] [] "") ∅.
Lemma no_change : ch_MembershipChanged (ApplyNodeLocation unchanged (apply_all row [seen])).2 = false.
Proof. vm_compute. reflexivity. Qed.
End LocationExample.
#[local] Existing Instance LocationExample.library.

Lemma location_is_the_debounced_history_witness :
  let os := LocationExample.seen :: LocationExample.moved in
  lc_ISO (ev_Current (s_Evidence (observe LocationExample.new_state os))) = "jp" ∧
  s_Evidence (observe LocationExample.new_state os) = debounce LocationExample.blank (history LocationExample.token os).
Proof.
  destruct (location_is_the_debounced_history LocationExample.new_state (LocationExample.seen :: LocationExample.moved)
              (conj eq_refl eq_refl) eq_refl) as (Hdebounce & Hcurrent & _).
  split; [rewrite Hcurrent; vm_compute; reflexivity|exact Hdebounce].
Defined.

Lemma relocation_takes_two_probes_witness :
  ∃ l1 x y l2, history LocationExample.token LocationExample.moved = l1 ++ x :: y :: l2 ∧
    ob_ProbeID (en_Obs x) ≠ ob_ProbeID (en_Obs y) ∧
    names_country x (lc_ISO (ev_Current (s_Evidence (observe LocationExample.again LocationExample.moved)))) ∧
    names_country y (lc_ISO (ev_Current (s_Evidence (observe LocationExample.again LocationExample.moved)))).
Proof.
  exact (proj2 (relocation_takes_two_probes LocationExample.again LocationExample.moved (conj eq_refl eq_refl)
           LocationExample.automatic) LocationExample.known LocationExample.verified eq_refl LocationExample.relocated).
Defined.

Lemma membership_follows_the_evidence_witness :
  Explain LocationExample.asia (mkNode 7 (lr_Region (ApplyNodeLocation LocationExample.unchanged
                                     (apply_all LocationExample.row [LocationExample.seen])).1) [])
  = Explain LocationExample.asia (mkNode 7 (lr_Region (apply_all LocationExample.row [LocationExample.seen])) []).
Proof.
  exact (proj2 (membership_follows_the_evidence LocationExample.row [LocationExample.seen] LocationExample.unchanged
           LocationExample.asia 7 [] eq_refl) LocationExample.no_change).
Defined.

(** A failed classification can erase a known location. When the classifier that
    fails outranks the one that accepted the location from the same probe, the
    probe's contribution is withdrawn and nothing replaces it: the node known to be
    in Hong Kong is in no country again, and the change is reported as a change of
    membership. *)
Theorem failed_classification_erases_location :
  let failed := LocationExample.probe "first" 10 SourceExitProbe false "" in
  let s := (Decide LocationExample.new_state LocationExample.seen).1 in
  let r := Decide s failed in
  lc_Known (ev_Current (s_Evidence s)) = true ∧ lc_ISO (ev_Current (s_Evidence s)) = "hk" ∧
  succeeds failed = false ∧
  lc_Known (ev_Current (s_Evidence r.1)) = false ∧ lc_ISO (ev_Current (s_Evidence r.1)) = "" ∧
  ch_MembershipChanged r.2 = true.
Proof. vm_compute. split_and!; reflexivity. Qed.
