(* ===== verification/ProbeApplier.v ===== *)
(** Probe results become facts ([internal/probe/applier.go] on
    [internal/store/landing_probe.go], [internal/store/sqlite_probe.go] and the
    upserts of [internal/store/sqlite.go]): one transaction writes the measurement,
    its effects (the node's location, the health journal) and a receipt; projections
    are retried until the receipt is acknowledged.

    The digest of an event (SHA-256 of its canonical JSON) is a parameter; a stored
    outcome is the outcome itself. A transaction may fail to commit, an argument of
    the operations. *)

From stdpp Require Import pretty.
From S2P Require Import Prelude GoClock HealthJournal NodeRegion NodeLocation.

(** ** Events *)
Definition Latency : string := "latency".
Definition Speed : string := "speed".
Definition Landing : string := "landing".
Definition Quality : string := "quality".
Definition Unlock : string := "unlock".
Definition Health : string := "health".

Definition HealthProbe : string := "health_probe".
Definition ManualDiagnostic : string := "manual_diagnostic".
Definition StartupExit : string := "startup_exit".
Definition UnlockCheck : string := "unlock_check".

Record HealthResult := mkHealthResult { hr_Tag : string; hr_Success : bool; hr_Latency : Z; hr_Error : string }.

(** The three measurement streams of a detection row. *)
Record latency_part := mkLatency {
  LatencyStatus : string; LatencyMs : option Z; LatencyError : string; LatencyCheckedAt : Z }.
Record speed_part := mkSpeed {
  SpeedStatus : string; AverageBytesPerSecond : option Z; PeakBytesPerSecond : option Z;
  BytesDownloaded : Z; SpeedDurationMs : Z; SpeedError : string; SpeedCheckedAt : Z }.
Record exit_part := mkExit {
  ExitIP : string; ExitIPFamily : string; ExitCountry : string; ExitCountryCode : string;
  ExitIPStatus : string; ExitIPError : string; ExitIPCheckedAt : Z }.

Record NodeDetectionResult := mkDetection {
  nd_NodeID : Z;
  nd_TaskID : string;
  nd_latency : latency_part;
  nd_speed : speed_part;
  nd_exit : exit_part;
  nd_UpdatedAt : Z
}.

Record NodeIPQualityResult := mkQuality {
  q_NodeID : Z; q_TaskID : string;
  q_Provider : string; q_Status : string; q_IP : string; q_Family : string; q_Country : string;
  q_CountryCode : string; q_ASN : string; q_Org : string; q_ISP : string;
  q_IsBroadcast : option bool; q_IsResidential : option bool; q_FraudScore : option Z;
  q_Proxy : option bool; q_Hosting : option bool; q_Mobile : option bool;
  q_Reason : string; q_CheckedAt : Z; q_UpdatedAt : Z
}.

(** What the columns keep of a service and of the exit IP; the rest is in [ResultJSON]. *)
Record Service := mkService { sv_Name : string; sv_Status : string }.

Record UnlockResult := mkUnlock {
  u_NodeID : Z; u_Tag : string; u_Name : string; u_Services : list Service;
  u_IP : string; u_IPCountry : string; u_IPISOCode : string; u_IPRegion : string; u_IPPure : bool;
  u_Error : string; u_Duration : Z; u_CheckedAt : Z; u_ResultJSON : string
}.

(** The columns of [node_unlock_results]. *)
Record unlock_row := mkUnlockRow {
  ur_Tag : string; ur_Name : string;
  ur_netflix : string; ur_disney_plus : string; ur_chatgpt : string;
  ur_ip : string; ur_ip_country : string; ur_ip_iso_code : string; ur_ip_region : string; ur_ip_pure : bool;
  ur_error : string; ur_duration : Z; ur_checked_at : Z; ur_result_json : string; ur_updated_at : Z
}.

Record Result := mkResult {
  r_NodeID : Z;
  r_Kind : string;
  r_Origin : string;
  r_Observation : Observation;
  r_Detection : option NodeDetectionResult;
  r_Quality : option NodeIPQualityResult;
  r_Unlock : option UnlockResult;
  r_Health : option HealthResult
}.

Definition no_change : Change := mkChange no_location false false false "".

Record Outcome := mkOutcome {
  out_ReceiptID : string;
  out_Event : Result;
  out_Applied : bool;
  out_Reason : string;
  out_Location : Change;
  out_Seq : Z
}.

Definition Stream (r : Result) : string :=
  match r_Quality r with
  | Some q => if decide (r_Kind r = Quality)
              then Quality +:+ ":" +:+ toLower (TrimSpace (q_Provider q)) else r_Kind r
  | None => r_Kind r
  end.

(** ** Validation *)
Definition untouched_status (status : string) : bool :=
  bool_decide (status = "") || bool_decide (status = "untested").

Definition payloads (r : Result) : nat :=
  (if r_Detection r then 1 else 0) + (if r_Quality r then 1 else 0) +
  (if r_Unlock r then 1 else 0) + (if r_Health r then 1 else 0).

Definition validate_detection (r : Result) : option string :=
  let o := r_Observation r in
  match r_Detection r with
  | None => Some "invalid detection payload"
  | Some d =>
    if decide (nd_NodeID d ≠ r_NodeID r) then Some "invalid detection payload"
    else if decide (r_Kind r ≠ Landing ∧ r_Origin r ≠ ManualDiagnostic) then Some "manual diagnostics require manual origin"
    else if decide (r_Kind r = Landing ∧ ob_Source o ≠ SourceGeoIPExit ∧ ob_Source o ≠ SourceExitProbe)
    then Some "landing requires exit evidence"
    else if (negb (bool_decide (r_Kind r = Latency)) && negb (untouched_status (LatencyStatus (nd_latency d))))
            || (negb (bool_decide (r_Kind r = Speed)) && negb (untouched_status (SpeedStatus (nd_speed d))))
            || (negb (bool_decide (r_Kind r = Landing)) && negb (untouched_status (ExitIPStatus (nd_exit d))))
    then Some "detection event writes another stream"
    else None
  end.

Definition validate (r : Result) : option string :=
  let o := r_Observation r in
  if bool_decide (r_NodeID r ≤ 0) || bool_decide (tk_Identity (ob_Token o) = "") || bool_decide (tk_Revision (ob_Token o) ≤ 0)
     || bool_decide (ob_ProbeID o = "") || GoTime.isZero (ob_StartedAt o) || GoTime.before (ob_CheckedAt o) (ob_StartedAt o)
  then Some "invalid probe identity or time"
  else if negb (bool_decide (r_Origin r ∈ [HealthProbe; ManualDiagnostic; StartupExit; UnlockCheck]))
  then Some "invalid probe origin"
  else if decide ((r_Origin r = HealthProbe ∧ r_Kind r ≠ Health) ∨ (r_Origin r = StartupExit ∧ r_Kind r ≠ Landing)
                  ∨ (r_Origin r = UnlockCheck ∧ r_Kind r ≠ Unlock))
  then Some "probe origin cannot publish this kind"
  else if decide (payloads r ≠ 1%nat) then Some "probe event must contain exactly one payload"
  else if decide (r_Kind r = Health) then
    match r_Health r with
    | Some h => if decide (r_Origin r ≠ HealthProbe ∨ hr_Tag h = "")
                then Some "health events require health probe origin" else None
    | None => Some "health events require health probe origin"
    end
  else if decide (r_Kind r = Latency ∨ r_Kind r = Speed ∨ r_Kind r = Landing) then validate_detection r
  else if decide (r_Kind r = Quality) then
    match r_Quality r with
    | Some q => if decide (r_Origin r ≠ ManualDiagnostic ∨ q_NodeID q ≠ r_NodeID r ∨ TrimSpace (q_Provider q) = "")
                then Some "invalid quality payload" else None
    | None => Some "invalid quality payload"
    end
  else if decide (r_Kind r = Unlock) then
    match r_Unlock r with
    | Some u => if decide ((r_Origin r ≠ ManualDiagnostic ∧ r_Origin r ≠ UnlockCheck) ∨ u_NodeID u ≠ r_NodeID r)
                then Some "invalid unlock payload" else None
    | None => Some "invalid unlock payload"
    end
  else Some ("invalid probe kind " +:+ r_Kind r).

(** ** Tables *)
Record ProbeReceipt := mkReceipt {
  pr_NodeID : Z;
  pr_Stream : string;
  pr_EventID : string;
  pr_Revision : Z;
  pr_StartedAt : Z;
  pr_Result : Outcome;
  pr_Pending : bool
}.

Record probe_db := mkProbeDB {
  pd_locations : gmap Z location_row;
  pd_receipts : gmap (Z * string) ProbeReceipt;
  pd_detections : gmap Z NodeDetectionResult;
  pd_quality : gmap (Z * string) NodeIPQualityResult;
  pd_unlock : gmap Z unlock_row;
  pd_journal : journal_db
}.

Definition PutProbeReceipt (r : ProbeReceipt) (db : probe_db) : probe_db :=
  mkProbeDB (pd_locations db) (<[(pr_NodeID r, pr_Stream r) := r]> (pd_receipts db)) (pd_detections db)
    (pd_quality db) (pd_unlock db) (pd_journal db).

Definition acknowledged (r : ProbeReceipt) : ProbeReceipt :=
  mkReceipt (pr_NodeID r) (pr_Stream r) (pr_EventID r) (pr_Revision r) (pr_StartedAt r) (pr_Result r) false.

Definition AcknowledgeProbeReceipt (nodeID : Z) (stream eventID : string) (db : probe_db) : probe_db :=
  mkProbeDB (pd_locations db)
    (alter (λ r, if decide (pr_EventID r = eventID) then acknowledged r else r) (nodeID, stream) (pd_receipts db))
    (pd_detections db) (pd_quality db) (pd_unlock db) (pd_journal db).

(** [ON CONFLICT DO UPDATE]: an untested stream keeps its columns. *)
Definition stored_latency (l : latency_part) : latency_part :=
  mkLatency (LatencyStatus l) (LatencyMs l) (LatencyError l) (stored_time (LatencyCheckedAt l)).
Definition stored_speed (s : speed_part) : speed_part :=
  mkSpeed (SpeedStatus s) (AverageBytesPerSecond s) (PeakBytesPerSecond s) (BytesDownloaded s) (SpeedDurationMs s)
    (SpeedError s) (stored_time (SpeedCheckedAt s)).
Definition stored_exit (e : exit_part) : exit_part :=
  mkExit (ExitIP e) (ExitIPFamily e) (ExitCountry e) (ExitCountryCode e) (ExitIPStatus e) (ExitIPError e)
    (stored_time (ExitIPCheckedAt e)).

Definition merge_detection (now : Z) (d : NodeDetectionResult) (old : option NodeDetectionResult) : NodeDetectionResult :=
  let l := stored_latency (nd_latency d) in
  let s := stored_speed (nd_speed d) in
  let e := stored_exit (nd_exit d) in
  match old with
  | None => mkDetection (nd_NodeID d) (nd_TaskID d) l s e (stored_time now)
  | Some o =>
    mkDetection (nd_NodeID d) (nd_TaskID d)
      (if decide (LatencyStatus l = "untested") then nd_latency o else l)
      (if decide (SpeedStatus s = "untested") then nd_speed o else s)
      (if decide (ExitIPStatus e = "untested") then nd_exit o else e) (stored_time now)
  end.

Definition UpsertNodeDetectionResult (now : Z) (d : NodeDetectionResult) (db : probe_db) : probe_db :=
  mkProbeDB (pd_locations db) (pd_receipts db)
    (<[nd_NodeID d := merge_detection now d (pd_detections db !! nd_NodeID d)]> (pd_detections db))
    (pd_quality db) (pd_unlock db) (pd_journal db).

Definition UpsertNodeIPQualityResult (now : Z) (q : NodeIPQualityResult) (db : probe_db) : probe_db :=
  let row := mkQuality (q_NodeID q) (q_TaskID q) (q_Provider q) (q_Status q) (q_IP q) (q_Family q) (q_Country q)
               (q_CountryCode q) (q_ASN q) (q_Org q) (q_ISP q) (q_IsBroadcast q) (q_IsResidential q) (q_FraudScore q)
               (q_Proxy q) (q_Hosting q) (q_Mobile q) (q_Reason q) (stored_time (q_CheckedAt q)) (stored_time now) in
  mkProbeDB (pd_locations db) (pd_receipts db) (pd_detections db)
    (<[(q_NodeID q, q_Provider q) := row]> (pd_quality db)) (pd_unlock db) (pd_journal db).

Definition serviceStatus (services : list Service) (name : string) : string :=
  match list_find (λ s, sv_Name s = name) services with
  | Some (_, s) => sv_Status s
  | None => ""
  end.

Definition UpsertUnlockResult (now : Z) (u : UnlockResult) (db : probe_db) : probe_db :=
  let row := mkUnlockRow (u_Tag u) (u_Name u) (serviceStatus (u_Services u) "netflix")
               (serviceStatus (u_Services u) "disney_plus") (serviceStatus (u_Services u) "chatgpt")
               (u_IP u) (u_IPCountry u) (u_IPISOCode u) (u_IPRegion u) (u_IPPure u) (u_Error u) (u_Duration u)
               (stored_time (if GoTime.isZero (u_CheckedAt u) then now else u_CheckedAt u)) (u_ResultJSON u)
               (stored_time now) in
  mkProbeDB (pd_locations db) (pd_receipts db) (pd_detections db) (pd_quality db)
    (<[u_NodeID u := row]> (pd_unlock db)) (pd_journal db).

Definition set_location (node : Z) (row : location_row) (db : probe_db) : probe_db :=
  mkProbeDB (<[node := row]> (pd_locations db)) (pd_receipts db) (pd_detections db) (pd_quality db)
    (pd_unlock db) (pd_journal db).

Definition set_journal (j : journal_db) (db : probe_db) : probe_db :=
  mkProbeDB (pd_locations db) (pd_receipts db) (pd_detections db) (pd_quality db) (pd_unlock db) j.

(** ** Application *)
Section applier.
Context `{!RegionLibrary} (receipt_id : Result → string).

Definition missing_node (node : Z) : string :=
  "read node " +:+ pretty node +:+ " location: sql: no rows in result set".

(** The landing portion of a detection and the observation it is evidence for. *)
Definition landing_observation (o : Observation) (d : NodeDetectionResult) : Observation :=
  let e := nd_exit d in
  mkObservation (ob_Token o) (ob_ProbeID o) (ob_StartedAt o) (ExitIPCheckedAt e) (ExitIP e) (ob_Source o)
    (bool_decide (ExitIPStatus e = "success")) (ExitCountryCode e) (ExitCountry e).

Definition ApplyLandingResult (now : Z) (o : Observation) (d : NodeDetectionResult) (db : probe_db)
    : result (probe_db * Change) :=
  match pd_locations db !! nd_NodeID d with
  | None => Err (missing_node (nd_NodeID d))
  | Some row =>
    let '(row', change) := ApplyNodeLocation (landing_observation o d) row in
    if negb (ch_Applied change) then Ok (db, change)
    else Ok (UpsertNodeDetectionResult now d (set_location (nd_NodeID d) row' db), change)
  end.

Definition health_event (event : Result) (current : State) (h : HealthResult) : HealthEvent :=
  let o := r_Observation event in
  mkHealthEvent 0 (r_NodeID event) (tk_Identity (s_Token current)) (tk_Revision (s_Token current)) (hr_Tag h)
    (ob_ProbeID o) (hr_Success h) (Z.quot (hr_Latency h) GoTime.millisecond) (hr_Error h) (ob_CheckedAt o) 0.

(** The facts of an event: the database, the location change and the journal row;
    the flag is unset when landing evidence is not applied. *)
Definition write_facts (now : Z) (event : Result) (current : State) (db : probe_db)
    : result (probe_db * Change * Z * bool) :=
  if decide (r_Kind event = Landing) then
    match r_Detection event with
    | Some d => let? (db', change) := ApplyLandingResult now (r_Observation event) d db in
                Ok (db', change, 0, ch_Applied change)
    | None => Err "missing landing result"
    end
  else if decide (r_Kind event = Latency ∨ r_Kind event = Speed) then
    match r_Detection event with
    | Some d => Ok (UpsertNodeDetectionResult now d db, no_change, 0, true)
    | None => Err "upsert node detection result: nil result"
    end
  else if decide (r_Kind event = Quality) then
    match r_Quality event with
    | Some q => Ok (UpsertNodeIPQualityResult now q db, no_change, 0, true)
    | None => Err "upsert node IP quality result: nil result"
    end
  else if decide (r_Kind event = Unlock) then
    match r_Unlock event with
    | Some u => Ok (UpsertUnlockResult now u db, no_change, 0, true)
    | None => Err "upsert unlock result: nil result"
    end
  else
    match r_Health event with
    | Some h => match AppendHealthEvent (health_event event current h) now (pd_journal db) with
                | (j, Ok seq) => Ok (set_journal j db, no_change, seq, true)
                | (_, Err e) => Err e
                end
    | None => Err "missing health result"
    end.

(** Why the receipt of a stream refuses an event. *)
Definition stale (event : Result) (current : State) (previous : option ProbeReceipt) : option string :=
  match previous with
  | None => None
  | Some p =>
    if bool_decide (pr_Revision p = tk_Revision (s_Token current)) && negb (bool_decide (r_Kind event = Landing)) then
      if decide (ob_ProbeID (r_Observation (out_Event (pr_Result p))) = ob_ProbeID (r_Observation event))
      then Some "duplicate"
      else if GoTime.before (ob_StartedAt (r_Observation event)) (pr_StartedAt p) then Some "older_probe"
      else None
    else None
  end.

(** The transaction. *)
Definition apply_tx (now : Z) (event : Result) (db : probe_db) : result (probe_db * Outcome) :=
  let id := receipt_id event in
  let node := r_NodeID event in
  match pd_locations db !! node with
  | None => Err (missing_node node)
  | Some row =>
    let current := GetNodeLocation row in
    if decide (s_Token current ≠ ob_Token (r_Observation event))
    then Ok (db, mkOutcome id event false "obsolete_identity" no_change 0)
    else
      match stale event current (pd_receipts db !! (node, Stream event)) with
      | Some reason => Ok (db, mkOutcome id event false reason no_change 0)
      | None =>
        let? (db1, change, seq, applied) := write_facts now event current db in
        if negb applied then Ok (db1, mkOutcome id event false (ch_Reason change) change seq)
        else
          let out := mkOutcome id event true "applied" change seq in
          Ok (PutProbeReceipt (mkReceipt node (Stream event) id (tk_Revision (s_Token current))
                                 (ob_StartedAt (r_Observation event)) out true) db1, out)
      end
  end.

(** A failed transaction is rolled back; [fault] is a failure to commit. *)
Definition Apply (now : Z) (fault : option string) (event : Result) (db : probe_db)
    : probe_db * Outcome * option string :=
  match validate event with
  | Some e => (db, mkOutcome "" event false "" no_change 0, Some e)
  | None =>
    let failed e := (db, mkOutcome "" event false "" no_change 0,
      Some ("apply " +:+ r_Kind event +:+ " result for node " +:+ pretty (r_NodeID event) +:+ ": " +:+ e)) in
    match apply_tx now event db, fault with
    | Err e, _ => failed e
    | Ok _, Some e => failed e
    | Ok (db', out), None => (db', out, None)
    end
  end.

(** Existing exit measurements through the same path: only the landing portion is
    new evidence. *)
Definition ApplyLanding (now : Z) (fault : option string) (o : Observation) (d : option NodeDetectionResult)
    (origin : string) (db : probe_db) : probe_db * Change * option string :=
  match d with
  | None => (db, no_change, Some "missing landing result")
  | Some d =>
    let o := mkObservation (ob_Token o) (ob_ProbeID o) (ob_StartedAt o) (ExitIPCheckedAt (nd_exit d)) (ob_IP o)
               (ob_Source o) (ob_Succeeded o) (ob_ISO o) (ob_Country o) in
    let landing := mkDetection (nd_NodeID d) (nd_TaskID d) (mkLatency "untested" None "" 0)
                     (mkSpeed "untested" None None 0 0 "" 0) (nd_exit d) 0 in
    let '(db', out, err) := Apply now fault (mkResult (nd_NodeID d) Landing origin o (Some landing) None None None) db in
    (db', out_Location out, err)
  end.

Definition Acknowledge (out : Outcome) (db : probe_db) : probe_db :=
  AcknowledgeProbeReceipt (r_NodeID (out_Event out)) (Stream (out_Event out)) (out_ReceiptID out) db.

(** ** Reconciliation *)

(** [ORDER BY started_at, node_id, stream]: the times are compared as the texts they are
    stored as. *)
Definition receipt_le (a b : ProbeReceipt) : Prop :=
  String.ltb (rfc3339nano (pr_StartedAt a)) (rfc3339nano (pr_StartedAt b)) = true ∨
  rfc3339nano (pr_StartedAt a) = rfc3339nano (pr_StartedAt b) ∧
    (pr_NodeID a < pr_NodeID b ∨ pr_NodeID a = pr_NodeID b ∧ String.le (pr_Stream a) (pr_Stream b)).
#[global] Instance receipt_le_dec a b : Decision (receipt_le a b).
Proof. unfold receipt_le. apply _. Defined.

Definition ListPendingProbeReceipts (limit : Z) (db : probe_db) : list ProbeReceipt :=
  let limit := if decide (limit ≤ 0 ∨ 1000 < limit) then 1000 else limit in
  take (Z.to_nat limit)
    (merge_sort receipt_le (filter (λ r, pr_Pending r = true) (map_to_list (pd_receipts db)).*2)).

(** One pending receipt. [consume] answers an error or none; [meanwhile] is what
    others do to the database while it runs. The third result lists the outcomes
    consumed without error. *)
Definition reconcile_one (consume : Outcome → option string) (meanwhile : Outcome → probe_db → probe_db)
    (receipt : ProbeReceipt) (db : probe_db) : probe_db * list string * list Outcome :=
  match pd_receipts db !! (pr_NodeID receipt, pr_Stream receipt) with
  | None => (db, [], [])
  | Some latest =>
    if decide (pr_EventID latest ≠ pr_EventID receipt) then (db, [], [])
    else
      let out := pr_Result receipt in
      match pd_locations db !! pr_NodeID receipt with
      | None => (db, [missing_node (pr_NodeID receipt)], [])
      | Some row =>
        if decide (s_Token (GetNodeLocation row) = ob_Token (r_Observation (out_Event out))) then
          let db1 := meanwhile out db in
          match consume out with
          | Some e => (db1, [e], [])
          | None => (Acknowledge out db1, [], [out])
          end
        else (Acknowledge out db, [], [])
      end
  end.

(** The loop, until the context is cancelled ([ctxErr] at a receipt). *)
Fixpoint reconcile_each (ctxErr : ProbeReceipt → option string) (consume : Outcome → option string)
    (meanwhile : Outcome → probe_db → probe_db) (receipts : list ProbeReceipt) (db : probe_db)
    : probe_db * list string * list Outcome :=
  match receipts with
  | [] => (db, [], [])
  | receipt :: receipts =>
    match ctxErr receipt with Some e => (db, [e], []) | None =>
    let '(db1, errs, outs) := reconcile_one consume meanwhile receipt db in
    let '(db2, errs', outs') := reconcile_each ctxErr consume meanwhile receipts db1 in
    (db2, errs ++ errs', outs ++ outs')
    end
  end.

Definition Reconcile (ctxErr : ProbeReceipt → option string) (consume : Outcome → option string)
    (meanwhile : Outcome → probe_db → probe_db) (db : probe_db) : probe_db * list string * list Outcome :=
  reconcile_each ctxErr consume meanwhile (ListPendingProbeReceipts 1000 db) db.
End applier.

(** ** What an application does *)
Section facts.
Context `{!RegionLibrary}.
(** The status kept for a service: the first of that name. *)
Definition service_reads (services : list Service) (name status : string) : Prop :=
  (Forall (λ s, sv_Name s ≠ name) services ∧ status = "") ∨
  (∃ l1 s l2, services = l1 ++ s :: l2 ∧ Forall (λ s, sv_Name s ≠ name) l1 ∧ sv_Name s = name ∧ status = sv_Status s).

(** The row an unlock check leaves, column by column. *)
Definition unlock_recorded (now : Z) (u : UnlockResult) (row : unlock_row) : Prop :=
  ur_Tag row = u_Tag u ∧ ur_Name row = u_Name u ∧
  service_reads (u_Services u) "netflix" (ur_netflix row) ∧
  service_reads (u_Services u) "disney_plus" (ur_disney_plus row) ∧
  service_reads (u_Services u) "chatgpt" (ur_chatgpt row) ∧
  ur_ip row = u_IP u ∧ ur_ip_country row = u_IPCountry u ∧ ur_ip_iso_code row = u_IPISOCode u ∧
  ur_ip_region row = u_IPRegion u ∧ ur_ip_pure row = u_IPPure u ∧ ur_error row = u_Error u ∧
  ur_duration row = u_Duration u ∧ ur_result_json row = u_ResultJSON u ∧ ur_updated_at row = stored_time now ∧
  (u_CheckedAt u ≠ GoTime.zero → ur_checked_at row = stored_time (u_CheckedAt u)) ∧
  (u_CheckedAt u = GoTime.zero → ur_checked_at row = stored_time now).

(** A quality measurement as it is stored: the same but for the times. *)
Definition quality_recorded (now : Z) (q row : NodeIPQualityResult) : Prop :=
  row = mkQuality (q_NodeID q) (q_TaskID q) (q_Provider q) (q_Status q) (q_IP q) (q_Family q) (q_Country q)
          (q_CountryCode q) (q_ASN q) (q_Org q) (q_ISP q) (q_IsBroadcast q) (q_IsResidential q) (q_FraudScore q)
          (q_Proxy q) (q_Hosting q) (q_Mobile q) (q_Reason q) (q_CheckedAt row) (q_UpdatedAt row) ∧
  q_CheckedAt row = stored_time (q_CheckedAt q) ∧ q_UpdatedAt row = stored_time now.

(** One stream of a detection row: what was measured, unless it says untested and the
    node has a row; then what that row had. *)
Definition stream_recorded {A} (stream : NodeDetectionResult → A) (status : A → string) (measured : A → A → Prop)
    (d : NodeDetectionResult) (old : option NodeDetectionResult) (row : NodeDetectionResult) : Prop :=
  (∀ o, old = Some o → status (stream d) = "untested" → stream row = stream o) ∧
  (old = None ∨ status (stream d) ≠ "untested" → measured (stream d) (stream row)).

Definition latency_measured (l row : latency_part) : Prop :=
  LatencyStatus row = LatencyStatus l ∧ LatencyMs row = LatencyMs l ∧ LatencyError row = LatencyError l ∧
  LatencyCheckedAt row = stored_time (LatencyCheckedAt l).
Definition speed_measured (v row : speed_part) : Prop :=
  SpeedStatus row = SpeedStatus v ∧ AverageBytesPerSecond row = AverageBytesPerSecond v ∧
  PeakBytesPerSecond row = PeakBytesPerSecond v ∧ BytesDownloaded row = BytesDownloaded v ∧
  SpeedDurationMs row = SpeedDurationMs v ∧ SpeedError row = SpeedError v ∧
  SpeedCheckedAt row = stored_time (SpeedCheckedAt v).
Definition exit_measured (e row : exit_part) : Prop :=
  ExitIP row = ExitIP e ∧ ExitIPFamily row = ExitIPFamily e ∧ ExitCountry row = ExitCountry e ∧
  ExitCountryCode row = ExitCountryCode e ∧ ExitIPStatus row = ExitIPStatus e ∧ ExitIPError row = ExitIPError e ∧
  ExitIPCheckedAt row = stored_time (ExitIPCheckedAt e).

Definition detection_recorded (now : Z) (d : NodeDetectionResult) (old : option NodeDetectionResult) (row : NodeDetectionResult) : Prop :=
  nd_NodeID row = nd_NodeID d ∧ nd_TaskID row = nd_TaskID d ∧ nd_UpdatedAt row = stored_time now ∧
  stream_recorded nd_latency LatencyStatus latency_measured d old row ∧
  stream_recorded nd_speed SpeedStatus speed_measured d old row ∧
  stream_recorded nd_exit ExitIPStatus exit_measured d old row.

(** The facts of one stream of one node. *)
Definition facts_written (now : Z) (event : Result) (out : Outcome) (db db' : probe_db) : Prop :=
  let node := r_NodeID event in
  (∀ n, n ≠ node →
     pd_locations db' !! n = pd_locations db !! n ∧ pd_detections db' !! n = pd_detections db !! n ∧
     pd_unlock db' !! n = pd_unlock db !! n ∧ ∀ p, pd_quality db' !! (n, p) = pd_quality db !! (n, p)) ∧
  (r_Kind event ≠ Landing → pd_locations db' = pd_locations db) ∧
  (r_Kind event = Landing → ∃ d row, r_Detection event = Some d ∧ pd_locations db !! node = Some row ∧
     let r := ApplyNodeLocation (landing_observation (r_Observation event) d) row in
     pd_locations db' !! node = Some r.1 ∧ out_Location out = r.2) ∧
  (r_Kind event ≠ Health → pd_journal db' = pd_journal db) ∧
  (r_Kind event = Health → ∃ h row e, r_Health event = Some h ∧ pd_locations db !! node = Some row ∧
     e = with_seq (out_Seq out) now (health_event event (GetNodeLocation row) h) ∧
     out_Seq out = db_next (pd_journal db) ∧
     db_events (pd_journal db') = db_events (pd_journal db) ++ [e] ∧
     db_cursors (pd_journal db') = db_cursors (pd_journal db) ∧ db_states (pd_journal db') = db_states (pd_journal db)) ∧
  (r_Kind event ∉ [Latency; Speed; Landing] → pd_detections db' = pd_detections db) ∧
  (r_Kind event ∈ [Latency; Speed; Landing] → ∃ d row, r_Detection event = Some d ∧
     detection_recorded now d (pd_detections db !! node) row ∧ pd_detections db' = <[node := row]> (pd_detections db)) ∧
  (r_Kind event ≠ Quality → pd_quality db' = pd_quality db) ∧
  (r_Kind event = Quality → ∃ q row, r_Quality event = Some q ∧ quality_recorded now q row ∧
     pd_quality db' = <[(node, q_Provider q) := row]> (pd_quality db)) ∧
  (r_Kind event ≠ Unlock → pd_unlock db' = pd_unlock db) ∧
  (r_Kind event = Unlock → ∃ u row, r_Unlock event = Some u ∧ unlock_recorded now u row ∧
     pd_unlock db' = <[node := row]> (pd_unlock db)).

Lemma serviceStatus_reads services name : service_reads services name (serviceStatus services name).
Proof.
  unfold serviceStatus, service_reads. destruct (list_find _ _) as [[i s]|] eqn:Hf.
  - right. apply list_find_Some in Hf as (Hi & Hn & Hno). exists (take i services), s, (drop (S i) services).
    split_and!; [by rewrite take_drop_middle| |done|done]. apply Forall_lookup. intros k x Hx.
    apply lookup_take_Some in Hx as [Hx Hk]. by apply (Hno k).
  - left. split; [|done]. by apply list_find_None in Hf.
Qed.

Lemma merge_detection_recorded now d old : detection_recorded now d old (merge_detection now d old).
Proof.
  unfold detection_recorded, stream_recorded, latency_measured, speed_measured, exit_measured, merge_detection.
  destruct old as [o|]; cbn; split_and!; try done; intros; simplify_eq; try done; repeat case_decide; naive_solver.
Qed.

Lemma UpsertUnlockResult_recorded now u db :
  ∃ row, unlock_recorded now u row ∧ pd_unlock (UpsertUnlockResult now u db) = <[u_NodeID u := row]> (pd_unlock db).
Proof.
  eexists. split; [|reflexivity]. unfold unlock_recorded. cbn. split_and!; try done; try apply serviceStatus_reads.
  - intros Hz. unfold GoTime.isZero. by rewrite bool_decide_false.
  - intros ->. done.
Qed.

Lemma UpsertNodeIPQualityResult_recorded now q db :
  ∃ row, quality_recorded now q row ∧
    pd_quality (UpsertNodeIPQualityResult now q db) = <[(q_NodeID q, q_Provider q) := row]> (pd_quality db).
Proof. eexists. split; [|reflexivity]. by unfold quality_recorded. Qed.

Lemma ApplyNodeLocation_applied obs row :
  ch_Applied (ApplyNodeLocation obs row).2 = ch_Applied (Decide (GetNodeLocation row) obs).2 ∧
  (ch_Applied (ApplyNodeLocation obs row).2 = false → (ApplyNodeLocation obs row).1 = row).
Proof.
  unfold ApplyNodeLocation. destruct (Decide _ _) as [next res]. cbn.
  destruct (ch_Applied res) eqn:Ha; cbn; [|by rewrite Ha]. by destruct (ch_Changed res); cbn; rewrite Ha.
Qed.

(** A valid event carries the payload of its kind, for its node. *)
Lemma validate_payload event :
  validate event = None →
  (r_Kind event = Health ∧ ∃ h, r_Health event = Some h) ∨
  ((r_Kind event = Latency ∨ r_Kind event = Speed ∨ r_Kind event = Landing) ∧
   ∃ d, r_Detection event = Some d ∧ nd_NodeID d = r_NodeID event) ∨
  (r_Kind event = Quality ∧ ∃ q, r_Quality event = Some q ∧ q_NodeID q = r_NodeID event) ∨
  (r_Kind event = Unlock ∧ ∃ u, r_Unlock event = Some u ∧ u_NodeID u = r_NodeID event).
Proof.
  unfold validate. destruct (_ || _); [done|]. destruct (negb _); [done|].
  do 2 (case_decide; [done|]). case_decide; [destruct (r_Health event); [eauto|done]|].
  case_decide.
  { unfold validate_detection. destruct (r_Detection event) as [d|]; [|done].
    destruct (decide (nd_NodeID d ≠ r_NodeID event)) as [|Hn]; [done|]. intros _. right; left.
    split; [done|]. exists d. split; [done|]. by apply dec_stable. }
  case_decide.
  { destruct (r_Quality event) as [q|]; [|done]. case_decide as Hq; [done|]. intros _. right; right; left.
    split; [done|]. exists q. split; [done|]. apply dec_stable. tauto. }
  case_decide; [|done].
  destruct (r_Unlock event) as [u|]; [|done]. case_decide as Hq; [done|]. intros _. right; right; right.
  split; [done|]. exists u. split; [done|]. apply dec_stable. tauto.
Qed.

Lemma AppendHealthEvent_spec e now j :
  match AppendHealthEvent e now j with
  | (j', Ok seq) => seq = db_next j ∧
      db_events j' = db_events j ++ [with_seq seq (if GoTime.isZero (he_RecordedAt e) then now else he_RecordedAt e) e] ∧
      db_cursors j' = db_cursors j ∧ db_states j' = db_states j
  | (_, Err _) => True
  end.
Proof. unfold AppendHealthEvent. by case_decide. Qed.

Ltac other_rows := intros; cbn; rewrite ?lookup_insert_ne by congruence; split_and!; try done;
  intros; rewrite ?lookup_insert_ne by congruence; done.
(** A clause about another kind than the event's. *)
Ltac other_kind Hk := rewrite ?Hk; intros; first [done | exfalso; set_solver].

(** What [write_facts] writes when the facts apply. *)
Lemma write_facts_spec now event row db db' change seq :
  validate event = None → pd_locations db !! r_NodeID event = Some row →
  write_facts now event (GetNodeLocation row) db = Ok (db', change, seq, true) →
  pd_receipts db' = pd_receipts db ∧
  ∀ id, facts_written now event (mkOutcome id event true "applied" change seq) db db'.
Proof.
  intros Hv Hrow. unfold write_facts, facts_written. cbn [out_Location out_Seq].
  destruct (validate_payload event Hv) as [[Hk [h Hh]]|[[Hk (d & Hd & Hdn)]|[[Hk (q & Hq & Hqn)]|[Hk (u & Hu & Hun)]]]].
  - rewrite Hk, Hh. do 4 (rewrite decide_False by naive_solver).
    pose proof (AppendHealthEvent_spec (health_event event (GetNodeLocation row) h) now (pd_journal db)) as Ha.
    destruct (AppendHealthEvent _ _ _) as [j [s|e]]; [|done]. intros [= <- <- <-]. destruct Ha as (-> & He & Hc & Hs).
    cbn. split; [done|]. intros _. split_and!; try done; [|intros Hin; exfalso; by vm_compute in Hin; set_solver].
    intros _. exists h, row. eexists. split_and!; [done|done|reflexivity|done|done|done|done].
  - assert (∃ d' row', Some d = Some d' ∧ detection_recorded now d' (pd_detections db !! r_NodeID event) row' ∧
      <[nd_NodeID d := merge_detection now d (pd_detections db !! nd_NodeID d)]> (pd_detections db) =
      <[r_NodeID event := row']> (pd_detections db)) as Hrec.
    { exists d, (merge_detection now d (pd_detections db !! nd_NodeID d)). rewrite Hdn. split_and!; [done|apply merge_detection_recorded|done]. }
    assert (r_Kind event ∈ [Latency; Speed; Landing]) as Hin by (destruct Hk as [-> | [-> | ->]]; set_solver).
    destruct (decide (r_Kind event = Landing)) as [Hl|Hl].
    + rewrite Hd, Hl. unfold ApplyLandingResult. rewrite Hdn, Hrow.
      destruct (ApplyNodeLocation _ row) as [row' ch] eqn:Hap. destruct (ch_Applied ch) eqn:Hca; cbn [negb result_bind]; [|rewrite Hca; discriminate]. rewrite Hca.
      intros [= <- <- <-]. cbn. split; [done|]. intros _. split_and!; try done.
      * rewrite Hdn. other_rows.
      * intros _. exists d, row. rewrite Hap. cbn. by rewrite lookup_insert_eq.
      * intros Hno. exfalso. by rewrite Hl in Hin.
    + rewrite decide_True by tauto. rewrite Hd. intros [= <- <- <-]. cbn. split; [done|]. intros _.
      split_and!; try done; [rewrite Hdn; other_rows|..];
        try (intros Hkh; exfalso; by destruct Hk as [Hk|[Hk|Hk]]; rewrite Hk in Hkh).
  - rewrite Hk, Hq. do 2 (rewrite decide_False by naive_solver). rewrite decide_True by done.
    intros [= <- <- <-]. destruct (UpsertNodeIPQualityResult_recorded now q db) as (qrow & Hrec & Heq).
    split; [done|]. intros _. split_and!; try done; [| |].
    + intros n Hn. cbn. split_and!; [done..|]. intros p. by rewrite lookup_insert_ne by congruence.
    + intros Hin. exfalso. by vm_compute in Hin; set_solver.
    + intros _. exists q, qrow. by rewrite <-Hqn.
  - rewrite Hk, Hu. do 3 (rewrite decide_False by naive_solver). rewrite decide_True by done.
    intros [= <- <- <-]. destruct (UpsertUnlockResult_recorded now u db) as (urow & Hrec & Heq).
    split; [done|]. intros _. split_and!; try done; [| |].
    + rewrite <-Hun. other_rows.
    + intros Hin. exfalso. by vm_compute in Hin; set_solver.
    + intros _. exists u, urow. by rewrite <-Hun.
Qed.

Lemma landing_not_applied now o d db db' ch :
  ApplyLandingResult now o d db = Ok (db', ch) → ch_Applied ch = false → db' = db.
Proof.
  unfold ApplyLandingResult. destruct (_ !! _) as [row|]; [|done]. destruct (ApplyNodeLocation _ row) as [row' c].
  destruct (ch_Applied c) eqn:Hc; cbn [negb]; intros [= <- <-] Ha; congruence.
Qed.

Lemma write_facts_refused now event current db db' change seq :
  write_facts now event current db = Ok (db', change, seq, false) →
  db' = db ∧ ∃ d row, r_Kind event = Landing ∧ r_Detection event = Some d ∧ pd_locations db !! nd_NodeID d = Some row ∧
    ch_Applied (ApplyNodeLocation (landing_observation (r_Observation event) d) row).2 = false.
Proof.
  unfold write_facts. destruct (decide (r_Kind event = Landing)) as [Hl|_].
  - destruct (r_Detection event) as [d|]; [|done]. unfold ApplyLandingResult.
    destruct (_ !! _) as [row|] eqn:Hrow; [|done]. destruct (ApplyNodeLocation _ row) as [row' c] eqn:Hap.
    destruct (ch_Applied c) eqn:Hc; cbn [negb result_bind]; rewrite Hc; [discriminate|].
    intros [= <- <- <-]. split; [done|]. exists d, row. by rewrite Hap.
  - repeat case_match; intros; simplify_eq.
Qed.

End facts.

Section application.
Context `{!RegionLibrary} (receipt_id : Result → string).

(** The ways of a transaction. *)
Lemma Apply_cases now fault event db :
  let r := Apply receipt_id now fault event db in
  (out_Applied r.1.2 = false ∧ r.1.1 = db) ∨
  (∃ row db1 change seq,
     r.2 = None ∧ fault = None ∧ validate event = None ∧ pd_locations db !! r_NodeID event = Some row ∧
     s_Token (GetNodeLocation row) = ob_Token (r_Observation event) ∧
     stale event (GetNodeLocation row) (pd_receipts db !! (r_NodeID event, Stream event)) = None ∧
     write_facts now event (GetNodeLocation row) db = Ok (db1, change, seq, true) ∧
     r.1.2 = mkOutcome (receipt_id event) event true "applied" change seq ∧
     r.1.1 = PutProbeReceipt (mkReceipt (r_NodeID event) (Stream event) (receipt_id event)
               (tk_Revision (ob_Token (r_Observation event))) (ob_StartedAt (r_Observation event)) r.1.2 true) db1).
Proof.
  unfold Apply. destruct (validate event) eqn:Hv; [by left|]. unfold apply_tx.
  destruct (pd_locations db !! r_NodeID event) as [row|] eqn:Hrow; [|by left].
  destruct (decide (s_Token (GetNodeLocation row) ≠ ob_Token (r_Observation event))) as [|Ht]; [by left; destruct fault|].
  apply dec_stable in Ht.
  destruct (stale _ _ _) as [reason|] eqn:Hs; [by left; destruct fault|].
  destruct (write_facts now event (GetNodeLocation row) db) as [[[[db1 change] seq] applied]|e] eqn:Hw; [|by left].
  cbn [result_bind]. destruct applied; cbn [negb].
  - destruct fault as [e|]; [by left|]. right. exists row, db1, change, seq. rewrite <-Ht. by split_and!.
  - apply write_facts_refused in Hw as [-> _]. by left; destruct fault.
Qed.

Lemma probe_receipts_of_apply now fault event db :
  let db' := (Apply receipt_id now fault event db).1.1 in
  pd_receipts db' = pd_receipts db ∨
  ∃ out, pd_receipts db' = <[(r_NodeID event, Stream event) :=
           mkReceipt (r_NodeID event) (Stream event) (receipt_id event) (tk_Revision (ob_Token (r_Observation event)))
             (ob_StartedAt (r_Observation event)) out true]> (pd_receipts db) ∧
         out_Event out = event ∧ out_ReceiptID out = receipt_id event.
Proof.
  cbn zeta. destruct (Apply_cases now fault event db)
    as [[_ ->]|(row & db1 & change & seq & _ & _ & Hv & Hrow & _ & _ & Hw & Ho & Hdb)]; [by left|right].
  destruct (write_facts_spec now event row db db1 change seq Hv Hrow Hw) as [Hr _].
  exists (Apply receipt_id now fault event db).1.2. rewrite Hdb, Ho. cbn. by rewrite Hr.
Qed.

(** C32: A measurement, its effects and its receipt are one fact. An application that
    is not reported as applied (invalid, of another identity, a duplicate, an older
    probe, a full journal, a failed commit) leaves the database as it was. One that
    is applied wrote exactly the facts of its stream and node ([facts_written]): a
    detection row with what was measured, column by column, and the streams the event
    leaves untested as they were; a quality row of its provider; an unlock row; for a
    health result its event at the end of the journal; for a landing the location
    decision; and no other table, node or provider. The stream's receipt carries the
    outcome and waits for projection. *)
Theorem probe_facts_commit_with_their_receipt now fault event db :
  let r := Apply receipt_id now fault event db in
  (out_Applied r.1.2 = false → r.1.1 = db) ∧
  (out_Applied r.1.2 = true →
     r.2 = None ∧ validate event = None ∧ out_Event r.1.2 = event ∧
     facts_written now event r.1.2 db r.1.1 ∧
     pd_receipts r.1.1 = <[(r_NodeID event, Stream event) :=
       mkReceipt (r_NodeID event) (Stream event) (receipt_id event) (tk_Revision (ob_Token (r_Observation event)))
         (ob_StartedAt (r_Observation event)) r.1.2 true]> (pd_receipts db)).
Proof.
  cbn zeta. destruct (Apply_cases now fault event db) as [[Ha Hdb]|(row & db1 & change & seq & He & _ & Hv & Hrow & Ht & _ & Hw & Ho & Hdb)].
  - rewrite Ha. by split.
  - rewrite Hdb, Ho, He. split; [done|]. intros _.
    destruct (write_facts_spec now event row db db1 change seq Hv Hrow Hw) as [Hr Hf].
    split_and!; [done|done|done|exact (Hf (receipt_id event))|]. cbn. by rewrite Hr.
Qed.

(** Applying to a row keeps its token and marks the stored state. *)
Lemma ApplyNodeLocation_replay obs row :
  ch_Applied (ApplyNodeLocation obs row).2 = true →
  ch_Applied (ApplyNodeLocation obs (ApplyNodeLocation obs row).1).2 = false.
Proof.
  intros Ha. pose proof Ha as Ha'. rewrite (proj1 (ApplyNodeLocation_applied obs row)) in Ha'.
  rewrite (proj1 (ApplyNodeLocation_applied obs _)).
  apply (Decide_replay (GetNodeLocation row)); [done|..];
    unfold ApplyNodeLocation; destruct (Decide (GetNodeLocation row) obs) as [next res]; cbn in Ha' |- *;
    rewrite Ha'; cbn; by destruct (ch_Changed res).
Qed.

(** A probe result takes effect once. After an application that is reported as
    applied, applying the same event again, at any later time, is reported as not
    applied and changes nothing. *)
Theorem applied_probe_is_not_applied_twice now fault event db now' fault' :
  let r := Apply receipt_id now fault event db in
  out_Applied r.1.2 = true →
  out_Applied (Apply receipt_id now' fault' event r.1.1).1.2 = false ∧
  (Apply receipt_id now' fault' event r.1.1).1.1 = r.1.1.
Proof.
  cbn zeta. intros Happ.
  destruct (Apply_cases now fault event db) as [[Ha _]|(row & db1 & change & seq & _ & _ & Hv & Hrow & Ht & _ & Hw & Ho & Hdb)];
    [congruence|].
  destruct (Apply_cases now' fault' event (Apply receipt_id now fault event db).1.1)
    as [[Ha Heq]|(row' & db2 & change' & seq' & _ & _ & _ & Hrow' & Ht' & Hs' & Hw' & _)]; [done|]. exfalso.
  destruct (write_facts_spec now event row db db1 change seq Hv Hrow Hw) as [Hr Hf].
  destruct (Hf "") as (_ & Hkeep & Hland & _).
  rewrite Hdb in Hrow', Hs'. cbn [pd_locations PutProbeReceipt] in Hrow'.
  destruct (decide (r_Kind event = Landing)) as [Hl|Hl].
  - destruct (Hland Hl) as (d & row0 & Hd & Hrow0 & Hloc & _). assert (row0 = row) as -> by congruence.
    rewrite Hloc in Hrow'. apply (inj Some) in Hrow' as <-.
    assert (Hdn : nd_NodeID d = r_NodeID event).
    { destruct (validate_payload event Hv) as [[Hk _]|[[_ (d' & ? & ?)]|[[Hk _]|[Hk _]]]];
        [by rewrite Hk in Hl|congruence|by rewrite Hk in Hl..]. }
    set (obs := landing_observation (r_Observation event) d) in *.
    assert (Happ1 : ch_Applied (ApplyNodeLocation obs row).2 = true).
    { revert Hw. unfold write_facts, ApplyLandingResult. rewrite Hl, Hd, Hdn, Hrow. cbn. fold obs.
      destruct (ApplyNodeLocation obs row) as [rw c]. cbn. by destruct (ch_Applied c) eqn:Hc; cbn; rewrite ?Hc. }
    revert Hw'. unfold write_facts, ApplyLandingResult. rewrite Hl, Hd, Hdn, Hdb. cbn [pd_locations PutProbeReceipt].
    rewrite Hloc. rewrite decide_True by done. fold obs.
    pose proof (ApplyNodeLocation_replay obs row Happ1) as Hno.
    destruct (ApplyNodeLocation obs (ApplyNodeLocation obs row).1) as [rw c]. cbn in Hno |- *. rewrite Hno. cbn. by rewrite Hno.
  - rewrite Hkeep in Hrow' by done. simplify_eq. revert Hs'. cbn [pd_receipts PutProbeReceipt pr_NodeID pr_Stream].
    rewrite lookup_insert_eq. unfold stale. cbn [pr_Revision pr_Result]. rewrite Ho. cbn [out_Event].
    rewrite Ht, (bool_decide_true (tk_Revision _ = _)) by done. rewrite bool_decide_false by done. cbn [andb negb].
    by rewrite decide_True.
Qed.
End application.

(** ** What a reconciliation acknowledges *)
Section reconciliation.
Context `{!RegionLibrary} (receipt_id : Result → string).

(** A receipt is stored under its stream and carries the outcome of its event. *)
Definition receipt_ok (key : Z * string) (r : ProbeReceipt) : Prop :=
  key = (pr_NodeID r, pr_Stream r) ∧
  r_NodeID (out_Event (pr_Result r)) = pr_NodeID r ∧ Stream (out_Event (pr_Result r)) = pr_Stream r ∧
  out_ReceiptID (pr_Result r) = pr_EventID r ∧ pr_EventID r = receipt_id (out_Event (pr_Result r)).

Definition receipts_wf (db : probe_db) : Prop := map_Forall receipt_ok (pd_receipts db).

(** The node of an event is gone from the identity the event was measured on. *)
Definition obsolete (event : Result) (db : probe_db) : Prop :=
  ∃ row, pd_locations db !! r_NodeID event = Some row ∧
         s_Token (GetNodeLocation row) ≠ ob_Token (r_Observation event).

(** An event of this digest is obsolete. *)
Definition outdated (id : string) (db : probe_db) : Prop := ∃ event, receipt_id event = id ∧ obsolete event db.

(** What other goroutines do: apply results. *)
Inductive applications : probe_db → probe_db → Prop :=
| no_application db : applications db db
| an_application now fault event db db' :
  applications (Apply receipt_id now fault event db).1.1 db' → applications db db'.

Lemma Apply_tokens now fault event db n row :
  pd_locations db !! n = Some row →
  ∃ row', pd_locations (Apply receipt_id now fault event db).1.1 !! n = Some row' ∧
          s_Token (GetNodeLocation row') = s_Token (GetNodeLocation row).
Proof.
  intros Hrow. destruct (Apply_cases receipt_id now fault event db)
    as [[_ ->]|(row0 & db1 & change & seq & _ & _ & Hv & Hrow0 & _ & _ & Hw & _ & ->)]; [by exists row|].
  destruct (write_facts_spec now event row0 db db1 change seq Hv Hrow0 Hw) as [_ Hf].
  destruct (Hf "") as (Hother & Hkeep & Hland & _). cbn [pd_locations PutProbeReceipt].
  destruct (decide (n = r_NodeID event)) as [->|Hn]; [|exists row; by rewrite (proj1 (Hother n Hn))].
  destruct (decide (r_Kind event = Landing)) as [Hl|Hl]; [|exists row; by rewrite Hkeep].
  destruct (Hland Hl) as (d & row1 & _ & Hrow1 & Hloc & _). assert (row1 = row) as -> by congruence.
  eexists. split; [exact Hloc|]. unfold ApplyNodeLocation. destruct (Decide _ _) as [next res].
  by destruct (ch_Applied res); [destruct (ch_Changed res)|].
Qed.

Lemma Apply_receipts now fault event db key r :
  pd_receipts (Apply receipt_id now fault event db).1.1 !! key = Some r →
  pd_receipts db !! key = Some r ∨ (receipt_ok key r ∧ pr_Pending r = true).
Proof.
  destruct (probe_receipts_of_apply receipt_id now fault event db) as [->|(out & -> & He & Hid)]; [by left|].
  intros [[<- <-]|[_ ?]]%lookup_insert_Some; [|by left]. right. split; [|done].
  unfold receipt_ok. cbn. by rewrite He, Hid.
Qed.

(** Pending or accounted for. *)
Definition accounted (before : probe_db) (outs : list Outcome) (db : probe_db) : Prop :=
  receipts_wf db ∧
  ∀ key r, pd_receipts db !! key = Some r → pr_Pending r = false →
    pd_receipts before !! key = Some r ∨
    (∃ out, out ∈ outs ∧ out_ReceiptID out = pr_EventID r) ∨
    outdated (pr_EventID r) db.

Lemma applications_accounted before outs db db' :
  applications db db' → accounted before outs db → accounted before outs db'.
Proof.
  induction 1 as [|now fault event db db' _ IH]; [done|]. intros [Hwf Hacc]. apply IH. split.
  - intros key r [Hr|[? _]]%Apply_receipts; [by apply Hwf|done].
  - intros key r [Hr|[_ Hp]]%Apply_receipts Hn; [|congruence].
    destruct (Hacc key r Hr Hn) as [?|[?|(e & He & row & Hrow & Ht)]]; [by left|by right; left|right; right].
    destruct (Apply_tokens now fault event db _ row Hrow) as (row' & Hrow' & Ht'). exists e. split; [done|].
    exists row'. by rewrite Ht'.
Qed.

Lemma acknowledge_accounted before outs outs' out db :
  accounted before outs db → outs ⊆ outs' →
  out ∈ outs' ∨ outdated (out_ReceiptID out) db →
  accounted before outs' (Acknowledge out db).
Proof.
  intros [Hwf Hacc] Hsub Hout. split.
  - intros key r. unfold Acknowledge, AcknowledgeProbeReceipt. cbn [pd_receipts].
    intros Hr. apply lookup_alter_Some in Hr as [(<- & r0 & Hr0 & ->)|[_ Hr]]; [|by apply Hwf].
    specialize (Hwf _ _ Hr0). by case_decide.
  - intros key r. unfold Acknowledge, AcknowledgeProbeReceipt. cbn [pd_receipts].
    assert (Hold : pd_receipts db !! key = Some r → pr_Pending r = false →
      pd_receipts before !! key = Some r ∨ (∃ o, o ∈ outs' ∧ out_ReceiptID o = pr_EventID r) ∨
      outdated (pr_EventID r) db).
    { intros Hr Hp. destruct (Hacc key r Hr Hp) as [?|[(o & ? & ?)|?]]; [by left| |by right; right].
      right; left. exists o. split; [set_solver|done]. }
    intros Hr Hp. apply lookup_alter_Some in Hr as [(<- & r0 & Hr0 & ->)|[_ Hr]]; [|by apply Hold].
    destruct (decide (pr_EventID r0 = out_ReceiptID out)) as [He|He]; [|by apply Hold].
    right. cbn [acknowledged pr_EventID]. rewrite He. destruct Hout as [Hout|Hobs]; [left; by exists out|by right].
Qed.

Lemma reconcile_one_accounted consume meanwhile before outs receipt db :
  (∀ out db, applications db (meanwhile out db)) →
  (∃ key, receipt_ok key receipt) → accounted before outs db →
  let r := reconcile_one consume meanwhile receipt db in
  accounted before (outs ++ r.2) r.1.1.
Proof.
  intros Hmean [key Hok] Hacc. cbn zeta. unfold reconcile_one.
  assert (Hsame : accounted before (outs ++ []) db) by by rewrite app_nil_r.
  destruct (pd_receipts db !! _) as [latest|]; [|done]. case_decide; [done|].
  destruct (pd_locations db !! pr_NodeID receipt) as [row|] eqn:Hrow; [|done].
  destruct Hok as (_ & Hnode & _ & Hid & Hev).
  case_decide as Ht.
  - pose proof (applications_accounted _ _ _ _ (Hmean (pr_Result receipt) db) Hacc) as Hacc1.
    destruct (consume (pr_Result receipt)); cbn [fst snd]; [by rewrite app_nil_r|].
    apply (acknowledge_accounted before outs); [done|set_solver|left; set_solver].
  - cbn [fst snd]. apply (acknowledge_accounted before outs); [done|set_solver|].
    right. exists (out_Event (pr_Result receipt)). split; [congruence|]. exists row. by rewrite Hnode.
Qed.

Lemma reconcile_each_accounted ctxErr consume meanwhile before receipts :
  (∀ out db, applications db (meanwhile out db)) →
  (∀ r, r ∈ receipts → ∃ key, receipt_ok key r) → ∀ outs db, accounted before outs db →
  let r := reconcile_each ctxErr consume meanwhile receipts db in
  accounted before (outs ++ r.2) r.1.1.
Proof.
  intros Hmean. induction receipts as [|receipt receipts IH]; intros Hok outs db Hacc; cbn [reconcile_each];
    [by rewrite app_nil_r|].
  destruct (ctxErr receipt); [by rewrite app_nil_r|].
  pose proof (reconcile_one_accounted consume meanwhile before outs receipt db Hmean
    (Hok receipt ltac:(set_solver)) Hacc) as Hone.
  destruct (reconcile_one consume meanwhile receipt db) as [[db1 errs] outs1].
  specialize (IH ltac:(set_solver) _ _ Hone). cbn [fst snd] in IH.
  destruct (reconcile_each _ _ _ _ db1) as [[db2 errs2] outs2]. cbn [fst snd] in *. by rewrite app_assoc.
Qed.

Lemma reconcile_each_consumed ctxErr consume meanwhile receipts : ∀ db out,
  out ∈ (reconcile_each ctxErr consume meanwhile receipts db).2 → consume out = None.
Proof.
  induction receipts as [|receipt receipts IH]; intros db out; cbn [reconcile_each]; [by intros ?%elem_of_nil|].
  destruct (ctxErr receipt); [by intros ?%elem_of_nil|].
  destruct (reconcile_one _ _ _ _) as [[db1 errs] outs1] eqn:Hone. specialize (IH db1 out).
  destruct (reconcile_each _ _ _ _ db1) as [[db2 errs2] outs2]. cbn [snd] in *.
  intros [Hin|Hin]%elem_of_app; [|by apply IH]. revert Hone Hin. unfold reconcile_one.
  repeat case_match; intros; simplify_eq; set_solver.
Qed.

Lemma pending_receipts_ok limit db r :
  receipts_wf db → r ∈ ListPendingProbeReceipts limit db → ∃ key, receipt_ok key r.
Proof.
  intros Hwf (i & Hin%list_elem_of_lookup_2 & _)%elem_of_take. rewrite merge_sort_Permutation in Hin.
  apply list_elem_of_filter in Hin as [_ Hin]. apply list_elem_of_fmap in Hin as ([key r'] & -> & Hin).
  apply elem_of_map_to_list in Hin. exists key. by apply Hwf.
Qed.

(** No committed result is acknowledged without having been projected. Whatever
    other applications commit while consumers run, a receipt that a reconciliation
    leaves acknowledged was acknowledged before, or the outcome of the event it
    names was consumed without error in this reconciliation, or the node of that
    event has changed identity since the measurement. A result that replaced the one being projected stays pending. *)
Theorem acknowledged_results_were_projected ctxErr consume meanwhile db key r :
  receipts_wf db →
  (∀ out db, applications db (meanwhile out db)) →
  let run := Reconcile ctxErr consume meanwhile db in
  pd_receipts run.1.1 !! key = Some r → pr_Pending r = false →
  pd_receipts db !! key = Some r ∨
  (∃ out, out ∈ run.2 ∧ consume out = None ∧ out_ReceiptID out = pr_EventID r) ∨
  outdated (pr_EventID r) run.1.1.
Proof.
  intros Hwf Hmean. cbn zeta. intros Hr Hp. unfold Reconcile in *.
  destruct (reconcile_each_accounted ctxErr consume meanwhile db (ListPendingProbeReceipts 1000 db) Hmean)
    with (outs := @nil Outcome) (db := db) as [_ Hacc].
  - intros r'. by apply pending_receipts_ok.
  - split; [done|]. by left.
  - destruct (Hacc key r Hr Hp) as [?|[(out & Hout & ?)|?]]; [by left| |by right; right].
    right; left. exists out. split; [done|]. split; [by eapply reconcile_each_consumed|done].
Qed.
End reconciliation.

(** ** Two nodes with a health result each; one is probed again while consumers run. *)
Module ProbeExample.
#[local] Existing Instance LocationExample.library.

Definition receipt_id (e : Result) : string := ob_ProbeID (r_Observation e).

Definition measured (node : Z) (probe : string) (at_ : Z) (ok : bool) : Result :=
  mkResult node Health HealthProbe
    (mkObservation LocationExample.token probe at_ (at_ + 1) "" SourceGeoIPExit false "" "")
    None None None (Some (mkHealthResult "tag" ok 3000000 "")).

Definition landed (probe : string) (at_ : Z) : Result :=
  mkResult 11 Landing ManualDiagnostic
    (mkObservation LocationExample.token probe at_ (at_ + 1) "" SourceExitProbe false "" "")
    (Some (mkDetection 11 "" (mkLatency "untested" None "" 0) (mkSpeed "untested" None None 0 0 "" 0)
             (mkExit "203.0.113.1" "ipv4" "" "JP" "success" "" (at_ + 1)) 0)) None None None.

Definition empty_db : probe_db :=
  mkProbeDB {[11 := LocationExample.row; 12 := LocationExample.row]} ∅ ∅ ∅ ∅ (mkJournal [] 1 ∅ ∅ ∅).

(** A speed test, then a latency test whose speed status is left empty. *)
Definition diagnosed (kind probe : string) (at_ : Z) (l : latency_part) (v : speed_part) : Result :=
  mkResult 11 kind ManualDiagnostic
    (mkObservation LocationExample.token probe at_ (at_ + 1) "" SourceExitProbe false "" "")
    (Some (mkDetection 11 "" l v (mkExit "" "" "" "" "untested" "" 0) 0)) None None None.
Definition fast : speed_part := mkSpeed "success" (Some 1000) (Some 2000) 5000 10 "" 6.
Definition speed_then_latency (status : string) : probe_db :=
  (Apply receipt_id 101 None
     (diagnosed Latency "p8" 7 (mkLatency "success" (Some 30) "" 8) (mkSpeed status None None 0 0 "" 0))
     (Apply receipt_id 100 None (diagnosed Speed "p7" 5 (mkLatency "untested" None "" 0) fast) empty_db).1.1).1.1.

(** Validation takes an empty status for an untouched stream as well as ["untested"], the
    statement that stores the row only the latter: an event with an empty status erases
    the other stream. *)
Theorem empty_status_erases_another_stream :
  SpeedStatus ∘ nd_speed <$> pd_detections (speed_then_latency "untested") !! 11 = Some "success" ∧
  SpeedStatus ∘ nd_speed <$> pd_detections (speed_then_latency "") !! 11 = Some "" ∧
  out_Reason <$> (pr_Result <$> pd_receipts (speed_then_latency "") !! (11, Latency)) = Some "applied".
Proof. by vm_compute. Qed.

(** The order of the pending receipts is that of the texts: within a second, a time
    without a fraction comes last. *)
Example text_order_is_not_time_order :
  let t := GoTime.ofUnix 1760000000 in
  let receipt at_ := mkReceipt 11 "health" "p" 1 at_ (mkOutcome "p" (diagnosed Latency "p" at_ (mkLatency "" None "" 0) fast) true "" no_change 0) true in
  receipt_le (receipt (t + 500 * GoTime.millisecond)) (receipt t) ∧ ¬ receipt_le (receipt t) (receipt (t + 500 * GoTime.millisecond)).
Proof. split; [apply (bool_decide_unpack _)|apply (bool_decide_unpack _)]; by vm_compute. Qed.

Definition db1 : probe_db := (Apply receipt_id 100 None (measured 11 "p1" 10 false) empty_db).1.1.
Definition db2 : probe_db := (Apply receipt_id 101 None (measured 12 "p2" 11 true) db1).1.1.
Definition meanwhile (_ : Outcome) (db : probe_db) : probe_db :=
  (Apply receipt_id 102 None (measured 11 "p3" 20 true) db).1.1.
Definition run : probe_db * list string * list Outcome :=
  Reconcile (λ _, None) (λ _, None) meanwhile db2.

Lemma applied : out_Applied (Apply receipt_id 100 None (landed "p0" 5) empty_db).1.2 = true.
Proof. vm_compute. reflexivity. Qed.
Lemma others out db : applications receipt_id db (meanwhile out db).
Proof. eapply an_application, no_application. Qed.

Definition done_receipt : ProbeReceipt :=
  mkReceipt 12 "health" "p2" 1 11 (mkOutcome "p2" (measured 12 "p2" 11 true) true "applied" no_change 2) false.
Lemma acknowledged_key : pd_receipts run.1.1 !! (12, "health") = Some done_receipt.
Proof. vm_compute. reflexivity. Qed.
Lemma still_pending : pr_Pending <$> pd_receipts run.1.1 !! (11, "health") = Some true.
Proof. vm_compute. reflexivity. Qed.

Lemma stored : receipts_wf receipt_id db2.
Proof.
  intros key r [Hr|[Hr _]]%Apply_receipts; [|exact Hr].
  revert Hr. intros [Hr|[Hr _]]%Apply_receipts; [|exact Hr]. cbn in Hr. by rewrite lookup_empty in Hr.
Qed.
End ProbeExample.
#[local] Existing Instance LocationExample.library.

Lemma applied_probe_is_not_applied_twice_witness :
  let e := ProbeExample.landed "p0" 5 in
  let db := (Apply ProbeExample.receipt_id 100 None e ProbeExample.empty_db).1.1 in
  out_Applied (Apply ProbeExample.receipt_id 200 None e db).1.2 = false ∧
  (Apply ProbeExample.receipt_id 200 None e db).1.1 = db.
Proof.
  exact (applied_probe_is_not_applied_twice ProbeExample.receipt_id 100 None (ProbeExample.landed "p0" 5)
           ProbeExample.empty_db 200 None ProbeExample.applied).
Defined.

Lemma acknowledged_results_were_projected_witness :
  pd_receipts ProbeExample.db2 !! (12, "health") = Some ProbeExample.done_receipt ∨
  (∃ out, out ∈ ProbeExample.run.2 ∧ None = None (A := string) ∧ out_ReceiptID out = "p2") ∨
  outdated ProbeExample.receipt_id "p2" ProbeExample.run.1.1.
Proof.
  exact (acknowledged_results_were_projected ProbeExample.receipt_id (λ _, None) (λ _, None) ProbeExample.meanwhile
           ProbeExample.db2 (12, "health") ProbeExample.done_receipt ProbeExample.stored ProbeExample.others
           ProbeExample.acknowledged_key eq_refl).
Defined.
