(* ===== verification/Floats.v ===== *)
(** Go's floating-point numbers as the rules of nodes use them: [float64] and
    [float32] are IEEE values ([SpecFloat]), with [strconv.ParseFloat],
    [strconv.FormatFloat(x, 'f', -1, bits)], the conversion [int64(x)] and
    [strconv.ParseBool].

    [ParseFloat] rounds the exact rational the text denotes; the shortest text of
    a float is found by trying one digit more until it parses back, as 17 digits
    always do. What [int64(x)] gives for a value out of the int64 range depends
    on the platform and is a parameter. *)
From Stdlib Require Import Floats.SpecFloat.
From S2P Require Import Prelude Text.

#[local] Open Scope Z_scope.

Definition wrap64 (z : Z) : Z := (z + 2 ^ 63) mod 2 ^ 64 - 2 ^ 63.

Lemma wrap64_id z : - 2 ^ 63 ≤ z < 2 ^ 63 → wrap64 z = z.
Proof. intros. unfold wrap64. rewrite Z.mod_small; lia. Qed.

Lemma wrap64_range z : - 2 ^ 63 ≤ wrap64 z < 2 ^ 63.
Proof. unfold wrap64. pose proof (Z.mod_pos_bound (z + 2 ^ 63) (2 ^ 64) eq_refl). lia. Qed.

(** ** Formats *)
Record format := mkFormat { fm_prec : Z; fm_emax : Z }.
Definition binary64 : format := mkFormat 53 1024.
Definition binary32 : format := mkFormat 24 128.

(** The float nearest to [(-1)^neg * m / d], ties to even. *)
Definition round_ratio (f : format) (neg : bool) (m : Z) (d : positive) : spec_float :=
  match m with
  | Zpos m => SFdiv (fm_prec f) (fm_emax f) (S754_finite neg m 0) (S754_finite false d 0)
  | _ => S754_zero neg
  end.

(** [m * base^e] *)
Definition round_scaled (f : format) (neg : bool) (m base e : Z) : spec_float :=
  if 0 <=? e then round_ratio f neg (m * base ^ e) 1
  else round_ratio f neg m (Z.to_pos (base ^ (- e))).

(** ** [strconv.ParseFloat] *)
Definition lower_is (s : string) (c : Ascii.ascii) : bool := one_of s (lower_char c).
Definition is_hex_letter (c : Ascii.ascii) : bool := let c := lower_char c in within 97 102 c.

(** The state of the digit loop of [readFloat]: the mantissa, the digits after the
    point, and what was seen. *)
Record scan := mkScan { sc_mant : Z; sc_frac : Z; sc_dot : bool; sc_digits : bool; sc_under : bool }.

Definition digit_of (hex : bool) (c : Ascii.ascii) : option Z :=
  if is_digit c then Some (code c - 48)
  else if hex && is_hex_letter c then Some (code (lower_char c) - 97 + 10)
  else None.

Fixpoint scan_digits (hex : bool) (s : string) (st : scan) : scan * string :=
  match s with
  | EmptyString => (st, s)
  | String c rest =>
    if byte_is 95 c then
      scan_digits hex rest (mkScan (sc_mant st) (sc_frac st) (sc_dot st) (sc_digits st) true)
    else if byte_is 46 c then
      if sc_dot st then (st, s)
      else scan_digits hex rest (mkScan (sc_mant st) (sc_frac st) true (sc_digits st) (sc_under st))
    else match digit_of hex c with
         | Some d =>
           scan_digits hex rest
             (mkScan (sc_mant st * (if hex then 16 else 10) + d)
                (sc_frac st + if sc_dot st then 1 else 0) (sc_dot st) true (sc_under st))
         | None => (st, s)
         end
  end.

(** The digits of an exponent, which stops growing past 10000. *)
Fixpoint scan_exponent (s : string) (e : Z) (under : bool) : Z * bool * string :=
  match s with
  | EmptyString => (e, under, s)
  | String c rest =>
    if byte_is 95 c then scan_exponent rest e true
    else if is_digit c then scan_exponent rest (if e <? 10000 then e * 10 + (code c - 48) else e) under
    else (e, under, s)
  end.

(** [underscoreOK], on the text after the sign: what precedes is a digit ([0]), an
    underscore ([_]) or something else. *)
Inductive seen := SeenStart | SeenDigit | SeenUnderscore | SeenOther.
Fixpoint underscores_ok (hex : bool) (s : string) (saw : seen) : bool :=
  match s with
  | EmptyString => match saw with SeenUnderscore => false | _ => true end
  | String c rest =>
    match digit_of hex c with
    | Some _ => underscores_ok hex rest SeenDigit
    | None =>
      if byte_is 95 c then match saw with SeenDigit => underscores_ok hex rest SeenUnderscore | _ => false end
      else match saw with SeenUnderscore => false | _ => underscores_ok hex rest SeenOther end
    end
  end.

Definition sign_of (s : string) : bool * string :=
  match s with
  | String c rest => if byte_is 45 c then (true, rest) else if byte_is 43 c then (false, rest) else (false, s)
  | EmptyString => (false, s)
  end.

(** [special]: infinities with an optional sign, NaN without one. *)
Definition special (s : string) : option spec_float :=
  let '(neg, rest) := sign_of s in
  if bool_decide (toLower rest = "inf") || bool_decide (toLower rest = "infinity") then Some (S754_infinity neg)
  else if bool_decide (toLower s = "nan") then Some S754_nan else None.

(** The exponent after [e] or [p], and whether the rest of the text is it. *)
Definition read_exponent (s : string) : option (Z * bool) :=
  let '(neg, digits) := sign_of s in
  match digits with
  | String c _ =>
    if is_digit c then
      let '(e, under, rest) := scan_exponent digits 0 false in
      if nonempty rest then None else Some ((if neg then - e else e), under)
    else None
  | EmptyString => None
  end.

(** The text as [(-1)^neg * mantissa * base^exponent]. *)
Definition readFloat (s : string) : option (bool * Z * Z * Z) :=
  let '(neg, body) := sign_of s in
  let '(hex, digits) :=
    match body with
    | String z (String x ((String _ _) as r)) => if byte_is 48 z && lower_is "x" x then (true, r) else (false, body)
    | _ => (false, body)
    end in
  let '(st, rest) := scan_digits hex digits (mkScan 0 0 false false false) in
  if negb (sc_digits st) then None
  else
    let finish (e : Z) (under : bool) :=
      if (sc_under st || under) && negb (underscores_ok hex digits (if hex then SeenDigit else SeenStart)) then None
      else Some (neg, sc_mant st, (if hex then 2 else 10), e - sc_frac st * (if hex then 4 else 1)) in
    match rest with
    | EmptyString => if hex then None else finish 0 false
    | String c rest =>
      if lower_is (if hex then "p" else "e") c then
        match read_exponent rest with Some (e, under) => finish e under | None => None end
      else None
    end.

(** [None] when the text is no number or its value overflows. *)
Definition ParseFloat (f : format) (s : string) : option spec_float :=
  match special s with
  | Some x => Some x
  | None =>
    match readFloat s with
    | Some (neg, m, base, e) =>
      match round_scaled f neg m base e with
      | S754_infinity _ => None
      | x => Some x
      end
    | None => None
    end
  end.

(** ** [strconv.FormatFloat(x, 'f', -1, bits)] *)

(** The value of a finite float as a ratio. *)
Definition ratio (m : positive) (e : Z) : Z * positive :=
  if 0 <=? e then (Zpos m * 2 ^ e, 1%positive) else (Zpos m, Z.to_pos (2 ^ (- e))).

Definition float_eqb (x y : spec_float) : bool :=
  match x, y with
  | S754_finite s m e, S754_finite s' m' e' => Bool.eqb s s' && (m =? m')%positive && (e =? e')
  | _, _ => false
  end.

(** [10^k] as a ratio. *)
Definition pow10 (k : Z) : Z * Z := if 0 <=? k then (10 ^ k, 1) else (1, 10 ^ (- k)).

(** The largest power of ten not above [a/b], from an estimate by binary logarithms. *)
Definition power_at_most (a b k : Z) : bool := let '(p, q) := pow10 k in p * b <=? a * q.
Definition decimal_exponent (a b : Z) : Z :=
  let k := (Z.log2 a - Z.log2 b) * 30103 / 100000 in
  let k := if power_at_most a b (k + 1) then k + 1 else k in
  if power_at_most a b k then k else k - 1.

(** The decimals of [n] digits on the two sides of [a/b], the nearer one first. *)
Definition candidates (a b k : Z) : list Z :=
  let '(p, q) := pow10 k in
  let low := a * q / (b * p) in
  if 2 * (a * q - low * (b * p)) <=? b * p then [low; low + 1] else [low + 1; low].

Fixpoint shortest_from (f : format) (x : spec_float) (a b top : Z) (fuel : nat) (n : Z) : Z * Z :=
  let k := top - n + 1 in
  match filter (λ d, float_eqb (round_scaled f false d 10 k) x = true) (candidates a b k) with
  | d :: _ => (d, k)
  | [] => match fuel with O => (0, 0) | S fuel => shortest_from f x a b top fuel (n + 1) end
  end.

(** The shortest decimal [d * 10^k] that rounds to the positive float [m * 2^e]. *)
Definition shortest (f : format) (m : positive) (e : Z) : Z * Z :=
  let '(a, b) := ratio m e in
  shortest_from f (S754_finite false m e) a (Zpos b) (decimal_exponent a (Zpos b)) 17 1.

Fixpoint zeros (n : nat) : string := match n with O => "" | S n => String (char 48) (zeros n) end.

Fixpoint strip_zeros (fuel : nat) (d k : Z) : Z * Z :=
  match fuel with
  | O => (d, k)
  | S fuel => if (d mod 10 =? 0) && (k <? 0) then strip_zeros fuel (d / 10) (k + 1) else (d, k)
  end.

(** [d * 10^k] without an exponent. *)
Definition fixed (d k : Z) : string :=
  let '(d, k) := strip_zeros 20 d k in
  if 0 <=? k then decimal (d * 10 ^ k)
  else
    let frac := decimal (d mod 10 ^ (- k)) in
    decimal (d / 10 ^ (- k)) +:+ "." +:+ zeros (Z.to_nat (- k) - String.length frac) +:+ frac.

Definition FormatFloat (f : format) (x : spec_float) : string :=
  let signed (neg : bool) (s : string) := if neg then "-" +:+ s else s in
  match x with
  | S754_nan => "NaN"
  | S754_infinity neg => if neg then "-Inf" else "+Inf"
  | S754_zero neg => signed neg "0"
  | S754_finite neg m e => signed neg (let '(d, k) := shortest f m e in fixed d k)
  end.

(** ** [int64(x)] *)
Class Platform := float_out_of_range : spec_float → Z.

Definition truncated (x : spec_float) : option Z :=
  match x with
  | S754_zero _ => Some 0
  | S754_finite neg m e =>
    let '(a, b) := ratio m e in
    let t := if neg then - (a / Zpos b) else a / Zpos b in
    if (- 2 ^ 63 <=? t) && (t <? 2 ^ 63) then Some t else None
  | _ => None
  end.

Definition float_to_int64 `{!Platform} (x : spec_float) : Z :=
  match truncated x with Some t => t | None => wrap64 (float_out_of_range x) end.

(** ** Booleans *)
Definition ParseBool (s : string) : option bool :=
  if bool_decide (s ∈ ["1"; "t"; "T"; "TRUE"; "true"; "True"]) then Some true
  else if bool_decide (s ∈ ["0"; "f"; "F"; "FALSE"; "false"; "False"]) then Some false
  else None.
Definition FormatBool (b : bool) : string := if b then "true" else "false".

(** ** Known values *)
Definition reprint (s : string) : option string := FormatFloat binary64 <$> ParseFloat binary64 s.

Example reprints :
  reprint <$> ["1.5"; "-0"; "1e21"; "0.1"; "1_23.50_0_0e+1_2"; "0x1p-2"; "5e-324"; "100"; "0.30000000000000004"; "9007199254740993"; "inf"; "1e-400"]
  = [Some "1.5"; Some "-0"; Some "1000000000000000000000"; Some "0.1"; Some "123500000000000"; Some "0.25";
     Some ("0." +:+ zeros 323 +:+ "5"); Some "100"; Some "0.30000000000000004"; Some "9007199254740992"; Some "+Inf"; Some "0"].
Proof. vm_compute. reflexivity. Qed.

Example numbers_refused : reprint <$> ["1e400"; ""; "."; "1e"; "_1"; "1__0"; "0x1"; "1 "; "+nan"; "12a"]
  = [None; None; None; None; None; None; None; None; None; None].
Proof. vm_compute. reflexivity. Qed.

Example reprinted32 : FormatFloat binary32 <$> ParseFloat binary32 "0.1" = Some "0.1".
Proof. vm_compute. reflexivity. Qed.

Example truncations : (truncated <$> ParseFloat binary64 "-2.9", truncated <$> ParseFloat binary64 "1e19")
  = (Some (Some (-2)), Some None).
Proof. vm_compute. reflexivity. Qed.
