(* ===== verification/NodeFacts.v ===== *)
(** Facts about nodes ([internal/nodefacts]): the tri-state facts of [fact.go] and
    the registry of fields of [schema.go] and [diagnostic.go].

    A field or operator name is the string the code uses; the kinds are an
    enumeration whose [KindZero] is Go's zero value, the kind of an absent fact. *)
From S2P Require Import Prelude Text Floats.

#[local] Open Scope Z_scope.

(** ** Facts ([fact.go]) *)
Record Fact (T : Type) := mkFact { fa_Value : T; fa_Known : bool; fa_CheckedAt : Z }.
Arguments mkFact {T}.
Arguments fa_Value {T}.
Arguments fa_Known {T}.
Arguments fa_CheckedAt {T}.

Definition Known {T} (value : T) : Fact T := mkFact value true GoTime.zero.
Definition KnownAt {T} (value : T) (checkedAt : Z) : Fact T := mkFact value true checkedAt.
Definition Unknown {T} (zero : T) : Fact T := mkFact zero false GoTime.zero.

Inductive Kind := KindZero | KindString | KindEnum | KindInt | KindBool | KindSet.
#[global] Instance Kind_eq_dec : EqDecision Kind.
Proof. solve_decision. Defined.

Record Value := mkValue {
  v_Kind : Kind;
  v_Known : bool;
  v_CheckedAt : Z;
  v_Str : string;
  v_Num : Z;
  v_Bool : bool;
  v_Set : list string
}.

Definition zero_value : Value := mkValue KindZero false GoTime.zero "" 0 false [].

Definition StringValue (f : Fact string) : Value :=
  mkValue KindString (fa_Known f) (fa_CheckedAt f) (fa_Value f) 0 false [].
Definition EnumValue (f : Fact string) : Value :=
  mkValue KindEnum (fa_Known f) (fa_CheckedAt f) (fa_Value f) 0 false [].
Definition IntValue (f : Fact Z) : Value :=
  mkValue KindInt (fa_Known f) (fa_CheckedAt f) "" (fa_Value f) false [].
Definition BoolValue (f : Fact bool) : Value :=
  mkValue KindBool (fa_Known f) (fa_CheckedAt f) "" 0 (fa_Value f) [].
Definition SetValue (f : Fact (list string)) : Value :=
  mkValue KindSet (fa_Known f) (fa_CheckedAt f) "" 0 false (fa_Value f).

Definition forget (v : Value) : Value :=
  mkValue (v_Kind v) false (v_CheckedAt v) (v_Str v) (v_Num v) (v_Bool v) (v_Set v).

Definition Aged (v : Value) (maxAge now : Z) : Value :=
  if negb (v_Known v) || (maxAge <=? 0) || GoTime.isZero (v_CheckedAt v) then v
  else if maxAge <? GoTime.sub now (v_CheckedAt v) then forget v else v.

(** [strings.Join] with a separator of two characters. *)
Fixpoint join_comma (l : list string) : string :=
  match l with [] => "" | [s] => s | s :: l => s +:+ ", " +:+ join_comma l end.

Definition Display (v : Value) : string :=
  if negb (v_Known v) then "-"
  else match v_Kind v with
       | KindInt => Itoa (v_Num v)
       | KindBool => FormatBool (v_Bool v)
       | KindSet => match v_Set v with [] => "[]" | l => join_comma l end
       | _ => v_Str v
       end.

Record NodeFacts := mkNodeFacts {
  nf_NodeID : Z;
  nf_Name : string;
  nf_Region : string;
  nf_Values : gmap string Value
}.

Definition NewNodeFacts (nodeID : Z) (name region : string) : NodeFacts := mkNodeFacts nodeID name region ∅.
Definition value_of (f : NodeFacts) (field : string) : Value := default zero_value (nf_Values f !! field).
Definition set_fact (field : string) (value : Value) (m : gmap string Value) : gmap string Value :=
  if decide (field = "") then m else <[field := value]> m.

(** ** Operators ([schema.go]) *)
Definition Operator : Type := string.
Definition OpEq : Operator := "eq".
Definition OpNe : Operator := "ne".
Definition OpIn : Operator := "in".
Definition OpNotIn : Operator := "not_in".
Definition OpContains : Operator := "contains".
Definition OpNotContains : Operator := "not_contains".
Definition OpGt : Operator := "gt".
Definition OpGte : Operator := "gte".
Definition OpLt : Operator := "lt".
Definition OpLte : Operator := "lte".
Definition OpBetween : Operator := "between".
Definition OpRegex : Operator := "regex".
Definition OpIsUnknown : Operator := "is_unknown".
Definition OpIsKnown : Operator := "is_known".

Inductive Arity := ArityOne | ArityMany | ArityTwo | ArityNone.

Definition operatorDefs : list (Operator * string * Arity) :=
  [(OpEq, "等于", ArityOne); (OpNe, "不等于", ArityOne); (OpIn, "属于", ArityMany); (OpNotIn, "不属于", ArityMany);
   (OpContains, "包含", ArityOne); (OpNotContains, "不包含", ArityOne); (OpGt, "大于", ArityOne);
   (OpGte, "大于等于", ArityOne); (OpLt, "小于", ArityOne); (OpLte, "小于等于", ArityOne);
   (OpBetween, "介于", ArityTwo); (OpRegex, "正则匹配", ArityOne); (OpIsUnknown, "未检测", ArityNone);
   (OpIsKnown, "已检测", ArityNone)].

Definition OperatorArity (op : Operator) : option Arity :=
  snd <$> List.find (λ d, bool_decide (d.1.1 = op)) operatorDefs.

Definition OperatorsForKind (k : Kind) : list Operator :=
  match k with
  | KindInt => [OpEq; OpNe; OpGt; OpGte; OpLt; OpLte; OpBetween; OpIn; OpNotIn; OpIsKnown; OpIsUnknown]
  | KindBool => [OpEq; OpNe; OpIsKnown; OpIsUnknown]
  | KindEnum => [OpEq; OpNe; OpIn; OpNotIn; OpIsKnown; OpIsUnknown]
  | KindSet => [OpContains; OpNotContains; OpIn; OpNotIn; OpIsKnown; OpIsUnknown]
  | _ => [OpEq; OpNe; OpIn; OpNotIn; OpContains; OpNotContains; OpRegex; OpIsKnown; OpIsUnknown]
  end.

(** ** The registry *)
Record Field := mkField {
  fd_Name : string;
  fd_Label : string;
  fd_Group : string;
  fd_Kind : Kind;
  fd_Operators : list Operator;
  fd_SupportsMaxAge : bool;
  fd_Unit : string;
  fd_EnumKey : string;
  fd_Source : string
}.

Definition SupportsOperator (f : Field) (op : Operator) : bool := bool_decide (op ∈ fd_Operators f).

Record Registry := mkRegistry { rg_fields : gmap string Field; rg_order : list string }.

Definition NewRegistry : Registry := mkRegistry ∅ [].

Definition with_operators (f : Field) (ops : list Operator) : Field :=
  mkField (fd_Name f) (fd_Label f) (fd_Group f) (fd_Kind f) ops (fd_SupportsMaxAge f) (fd_Unit f) (fd_EnumKey f) (fd_Source f).

Definition Register (r : Registry) (field : Field) : Registry :=
  if decide (fd_Name field = "") then r
  else
    let field := match fd_Operators field with [] => with_operators field (OperatorsForKind (fd_Kind field)) | _ => field end in
    let order := match rg_fields r !! fd_Name field with None => rg_order r ++ [fd_Name field] | Some _ => rg_order r end in
    mkRegistry (<[fd_Name field := field]> (rg_fields r)) order.

Definition zero_field : Field := mkField "" "" "" KindZero [] false "" "" "".
Definition field_of (r : Registry) (name : string) : option Field := rg_fields r !! name.
Definition Fields (r : Registry) : list Field := (λ name, default zero_field (rg_fields r !! name)) <$> rg_order r.

Definition Groups (r : Registry) : list string :=
  foldl (λ groups f, if bool_decide (fd_Group f ∈ groups) then groups else groups ++ [fd_Group f]) [] (Fields r).

(** ** Field names *)
Definition FieldNodeName : string := "node.name".
Definition FieldNodeCountry : string := "node.country".
Definition FieldNodeRegion : string := "node.region".
Definition FieldNodeProtocol : string := "node.protocol".
Definition FieldNodePort : string := "node.port".
Definition FieldNodeEnabled : string := "node.enabled".
Definition FieldNodeSource : string := "node.source".
Definition FieldSubscriptionIDs : string := "node.subscription_ids".
Definition FieldSubscriptionNames : string := "node.subscription_names".
Definition FieldManualTags : string := "tags.manual".
Definition FieldLatencyMs : string := "latency_ms".
Definition FieldAvailable : string := "available".
Definition FieldBlacklisted : string := "blacklisted".
Definition FieldFailureCount : string := "failure_count".
Definition FieldSuccessCount : string := "success_count".
Definition FieldSpeedBps : string := "speed_bps".
Definition FieldSpeedPeakBps : string := "speed_peak_bps".
Definition FieldExitCountryCode : string := "exit_country_code".
Definition FieldExitIPFamily : string := "exit_ip_family".
Definition FieldUnlockIPPure : string := "unlock.ip.pure".
Definition FieldUnlockIPRiskLevel : string := "unlock.ip.risk_level".
Definition FieldUnlockIPType : string := "unlock.ip.ip_type".
Definition FieldUnlockIPUsageType : string := "unlock.ip.usage_type".
Definition FieldUnlockIPFraudScore : string := "unlock.ip.fraud_score".
Definition FieldUnlockIPASN : string := "unlock.ip.asn".
Definition FieldUnlockIPOrg : string := "unlock.ip.org".
Definition FieldUnlockedCount : string := "unlock.unlocked_count".
Definition FieldUnlockedProviders : string := "unlock.unlocked_providers".
Definition FieldIPQMaxFraudScore : string := "ipq.max.fraud_score".
Definition FieldUnlockState : string := "unlock.state".
Definition FieldSpeedStatus : string := "speed.status".
Definition FieldQualityStatuses : string := "ipq.statuses".

Definition UnlockField (provider attribute : string) : string := "unlock." +:+ provider +:+ "." +:+ attribute.
Definition IPQualityField (provider attribute : string) : string := "ipq." +:+ provider +:+ "." +:+ attribute.
Definition ReducedIPQualityField (reduction attribute : string) : string := "ipq." +:+ reduction +:+ "." +:+ attribute.
Definition ReduceAny : string := "any".
Definition ReduceAll : string := "all".

Definition GroupBasic : string := "基础".
Definition GroupPerf : string := "性能".
Definition GroupIP : string := "IP 质量".
Definition GroupUnlock : string := "解锁".
Definition GroupSources : string := "来源".
Definition EnumRegion : string := "region".
Definition EnumCountryCode : string := "country_code".
Definition EnumProtocol : string := "protocol".
Definition EnumNodeSource : string := "node_source".
Definition EnumIPFamily : string := "ip_family".
Definition EnumRiskLevel : string := "risk_level".
Definition EnumUnlockStatus : string := "unlock_status".
Definition EnumUnlockProvider : string := "unlock_provider".
Definition EnumTagName : string := "tag_name".
Definition EnumSubscriptionID : string := "subscription_id".
Definition EnumSubscriptionName : string := "subscription_name".

(** ** The default registry *)
Definition basic_fields : list Field :=
  [mkField FieldNodeName "节点名称" GroupBasic KindString [] false "" "" "nodes.name";
   mkField FieldNodeRegion "地区" GroupBasic KindEnum [] false "" EnumRegion "nodes.region（空值为未知；旧版规则保留 other 兼容语义）";
   mkField FieldNodeCountry "国家/地区名" GroupBasic KindString [] false "" "" "nodes.country";
   mkField FieldNodeProtocol "协议" GroupBasic KindEnum [] false "" EnumProtocol "nodes.uri 的协议头";
   mkField FieldNodePort "端口" GroupBasic KindInt [] false "" "" "nodes.port";
   mkField FieldNodeEnabled "已启用" GroupBasic KindBool [] false "" "" "nodes.enabled";
   mkField FieldNodeSource "节点来源" GroupBasic KindEnum [] false "" EnumNodeSource "nodes.source";
   mkField FieldManualTags "人工标签" GroupBasic KindSet [] false "" EnumTagName "node_tags (source=manual)";
   mkField FieldSubscriptionIDs "所属订阅 ID" GroupSources KindSet [] false "" EnumSubscriptionID "subscription_nodes.subscription_id";
   mkField FieldSubscriptionNames "所属订阅名称" GroupSources KindSet [] false "" EnumSubscriptionName "subscriptions.name"].
Definition performance_fields : list Field :=
  [mkField FieldLatencyMs "延迟" GroupPerf KindInt [] true "ms" "" "node_detection_results.latency_ms 优先，回退 node_stats.last_latency_ms（-1 视为未检测）";
   mkField FieldAvailable "可用" GroupPerf KindBool [] true "" "" "node_stats.available（仅在 initial_check_done=1 时视为已检测）";
   mkField FieldBlacklisted "已拉黑" GroupPerf KindBool [] false "" "" "node_stats.blacklisted";
   mkField FieldFailureCount "失败次数" GroupPerf KindInt [] false "" "" "node_stats.failure_count";
   mkField FieldSuccessCount "成功次数" GroupPerf KindInt [] false "" "" "node_stats.success_count";
   mkField FieldSpeedBps "平均速度" GroupPerf KindInt [] true "B/s" "" "node_detection_results.average_bytes_per_second";
   mkField FieldSpeedPeakBps "峰值速度" GroupPerf KindInt [] true "B/s" "" "node_detection_results.peak_bytes_per_second"].
Definition ip_fields : list Field :=
  [mkField FieldExitCountryCode "落地国家代码" GroupIP KindEnum [] true "" EnumCountryCode "node_detection_results.exit_country_code（exit_ip_status=success）";
   mkField FieldExitIPFamily "落地 IP 协议族" GroupIP KindEnum [] true "" EnumIPFamily "node_detection_results.exit_ip_family";
   mkField FieldUnlockIPPure "原生 IP" GroupIP KindBool [] true "" "" "node_unlock_results.ip_pure";
   mkField FieldUnlockIPRiskLevel "风险等级" GroupIP KindEnum [] true "" EnumRiskLevel "node_unlock_results.result_json ip.risk_level";
   mkField FieldUnlockIPType "IP 类型" GroupIP KindString [] true "" "" "node_unlock_results.result_json ip.ip_type";
   mkField FieldUnlockIPUsageType "IP 用途" GroupIP KindString [] true "" "" "node_unlock_results.result_json ip.usage_type";
   mkField FieldUnlockIPFraudScore "解锁检测风险分" GroupIP KindInt [] true "" "" "node_unlock_results.result_json ip.fraud_score";
   mkField FieldUnlockIPASN "解锁检测 ASN" GroupIP KindString [] true "" "" "node_unlock_results.result_json ip.asn";
   mkField FieldUnlockIPOrg "解锁检测组织" GroupIP KindString [] true "" "" "node_unlock_results.result_json ip.org"].
Definition unlock_fields : list Field :=
  [mkField FieldUnlockedCount "已解锁服务数" GroupUnlock KindInt [] true "" "" "node_unlock_results.result_json services[] 归约";
   mkField FieldUnlockedProviders "已解锁服务" GroupUnlock KindSet [] true "" EnumUnlockProvider "node_unlock_results.result_json services[] 归约"].
Definition diagnostic_fields : list Field :=
  [mkField FieldUnlockState "解锁汇总状态" GroupUnlock KindString [] true "" "" "node_unlock_results";
   mkField FieldSpeedStatus "测速状态" GroupPerf KindString [] true "" "" "node_detection_results.speed_status";
   mkField FieldQualityStatuses "质量提供商状态" GroupIP KindSet [] true "" "" "node_ip_quality_results.status"].

Definition RegisterAll (r : Registry) (fields : list Field) : Registry := foldl Register r fields.

Record ProviderInfo := mkProvider { pi_Name : string; pi_Label : string }.
Definition provider_label (p : ProviderInfo) : string := if decide (pi_Label p = "") then pi_Name p else pi_Label p.

Definition unlock_provider_fields (p : ProviderInfo) : list Field :=
  let label := provider_label p in
  [mkField (UnlockField (pi_Name p) "status") (label +:+ " 解锁状态") GroupUnlock KindEnum [] true "" EnumUnlockStatus
     "node_unlock_results.result_json services[]";
   mkField (UnlockField (pi_Name p) "region") (label +:+ " 解锁区域") GroupUnlock KindString [] true "" ""
     "node_unlock_results.result_json services[].region";
   mkField (UnlockField (pi_Name p) "detail") (label +:+ " 检测摘要") GroupUnlock KindString [] true "" ""
     "node_unlock_results.result_json services[].detail"].

Definition WithUnlockProviders (providers : list ProviderInfo) (r : Registry) : Registry :=
  RegisterAll r (providers ≫= unlock_provider_fields).

Definition quality_flags : list (string * string) :=
  [("is_residential", "住宅 IP"); ("proxy", "代理"); ("hosting", "机房"); ("mobile", "移动网络"); ("is_broadcast", "广播 IP")].
Definition quality_texts : list (string * string * string) :=
  [("asn", "ASN", ""); ("org", "组织", ""); ("isp", "ISP", ""); ("country_code", "国家代码", EnumCountryCode)].
Definition reduced_flags : list (string * string) :=
  [("is_residential", "住宅 IP"); ("is_broadcast", "广播 IP"); ("proxy", "代理"); ("hosting", "机房")].

Definition quality_provider_fields (p : ProviderInfo) : list Field :=
  let label := provider_label p in
  let source := "node_ip_quality_results (provider=" +:+ pi_Name p +:+ ")" in
  mkField (IPQualityField (pi_Name p) "fraud_score") (label +:+ " 风险分") GroupIP KindInt [] true "" "" source ::
  ((λ flag, mkField (IPQualityField (pi_Name p) flag.1) (label +:+ " " +:+ flag.2) GroupIP KindBool [] true "" "" source)
     <$> quality_flags) ++
  ((λ text, mkField (IPQualityField (pi_Name p) text.1.1) (label +:+ " " +:+ text.1.2) GroupIP
              (if decide (text.2 = "") then KindString else KindEnum) [] true "" text.2 source) <$> quality_texts).

Definition sortedNames (names : list string) : list string := merge_sort String.le names.

Definition reduction_fields (participants : string) : list Field :=
  mkField FieldIPQMaxFraudScore "风险分（任一提供商的最高值）" GroupIP KindInt [] true "" "" participants ::
  (reduced_flags ≫= λ flag,
     [mkField (ReducedIPQualityField ReduceAny flag.1) (flag.2 +:+ "（任一提供商判定为是）") GroupIP KindBool [] true "" "" participants;
      mkField (ReducedIPQualityField ReduceAll flag.1) (flag.2 +:+ "（全部提供商判定为是）") GroupIP KindBool [] true "" "" participants]).

Definition WithIPQualityProviders (providers : list ProviderInfo) (r : Registry) : Registry :=
  let r := RegisterAll r (providers ≫= quality_provider_fields) in
  match providers with
  | [] => r
  | _ => RegisterAll r (reduction_fields ("参与提供商: " +:+ join_comma (sortedNames (pi_Name <$> providers))))
  end.

Definition DefaultRegistry (options : list (Registry → Registry)) : Registry :=
  let r := RegisterAll NewRegistry basic_fields in
  let r := RegisterAll r performance_fields in
  let r := RegisterAll r ip_fields in
  let r := RegisterAll r unlock_fields in
  let r := RegisterAll r diagnostic_fields in
  foldl (λ r option, option r) r options.
