(* ===== verification/NodeRules.v ===== *)
(** The rule language ([internal/nodefacts]): the conditions and their validation
    ([condition.go]) and the evaluator ([evaluate.go]).

    A rule is a tree of groups ([all], [any], [none]) over comparisons of facts.
    The regular expressions and the JSON encoder are parameters. *)
From S2P Require Import Prelude Text Floats NodeRegion NodeFacts.
From Stdlib Require Import Floats.SpecFloat.

#[local] Open Scope Z_scope.

(** ** Conditions ([condition.go]) *)

(** An operand as a decoder or Go code produces it: [AnyInt] stands for the three
    integer types, [AnyNumber] for the text of a [json.Number], [AnyOther] for
    arrays and objects. *)
Inductive Any :=
| AnyNil
| AnyString (s : string)
| AnyBool (b : bool)
| AnyInt (n : Z)
| AnyFloat64 (x : spec_float)
| AnyFloat32 (x : spec_float)
| AnyNumber (text : string)
| AnyOther.

#[global] Instance spec_float_eq_dec : EqDecision spec_float.
Proof. solve_decision. Defined.
#[global] Instance Any_eq_dec : EqDecision Any.
Proof. solve_decision. Defined.

Definition MatchAll : string := "all".
Definition MatchAny : string := "any".
Definition MatchNone : string := "none".

Unset Elimination Schemes.
Inductive Condition := mkCondition {
  c_RegionVersion : Z;
  c_Match : string;
  c_Children : list Condition;
  c_FieldName : string;
  c_Op : Operator;
  c_Value : Any;
  c_Values : list Any;
  c_MaxAgeSeconds : Z;
  c_Negate : bool
}.
Set Elimination Schemes.

(** Induction on a rule: what holds of a condition when it holds of its children. *)
Lemma Condition_ind (P : Condition → Prop) :
  (∀ c, Forall P (c_Children c) → P c) → ∀ c, P c.
Proof.
  intros step. fix IH 1. intros c. apply step. destruct c as [v m children f op x xs age neg]. cbn.
  induction children as [|child children IHc]; constructor; [apply IH|exact IHc].
Qed.

Definition empty_condition : Condition := mkCondition 0 "" [] "" "" AnyNil [] 0 false.

Definition IsGroup (c : Condition) : bool := nonempty (c_Match c).
Definition IsLeaf (c : Condition) : bool := negb (nonempty (c_Match c)) && nonempty (c_FieldName c).
Definition IsEmpty (c : Condition) : bool :=
  negb (nonempty (c_Match c)) && negb (nonempty (c_FieldName c)) && negb (nonempty (c_Op c)) &&
  match c_Children c with [] => true | _ => false end.

Record Limits := mkLimits {
  MaxConditions : Z;
  MaxDepth : Z;
  MaxValueItems : Z;
  MaxRegexLength : Z;
  MaxRuleBytes : Z
}.
Definition DefaultLimits : Limits := mkLimits 50 3 100 200 16384.

(** What the rule code asks of its libraries: the length of a rule's JSON text, the
    decoder and the canonical encoder of rules, and regular expressions. *)
Class RuleLibraries := {
  json_Marshal_length : Condition → option Z;
  json_Unmarshal_rule : string → option Condition;
  json_MarshalCanonical_rule : Condition → option string;
  Regexp : Type;
  regexp_Compile : string → option Regexp;
  MatchString : Regexp → string → bool
}.

Definition ParseRule `{!RuleLibraries} (data : string) : option Condition :=
  if decide (TrimSpace data = "") then Some empty_condition else json_Unmarshal_rule data.

(** [None] when encoding fails; an empty rule is stored as no bytes. *)
Definition MarshalRule `{!RuleLibraries} (c : Condition) : option string :=
  if IsEmpty c then Some "" else json_MarshalCanonical_rule c.

Fixpoint collectFields (c : Condition) (seen : gset string) : gset string :=
  let seen := if nonempty (c_FieldName c) then {[c_FieldName c]} ∪ seen else seen in
  foldl (λ seen child, collectFields child seen) seen (c_Children c).

Definition ReferencedFields (c : Condition) : list string :=
  merge_sort String.le (elements (collectFields c ∅)).

(** ** Operands *)
Definition ParseInt (s : string) : option Z :=
  match Atoi s with (n, true) => Some n | (_, false) => None end.

Section operands.
Context `{!Platform}.

Definition text_int (s : string) : option Z :=
  match ParseInt s with
  | Some n => Some n
  | None => float_to_int64 <$> ParseFloat binary64 s
  end.

Definition operandInt (operand : Any) : option Z :=
  match operand with
  | AnyInt n => Some n
  | AnyFloat64 x | AnyFloat32 x => Some (float_to_int64 x)
  | AnyNumber text => text_int text
  | AnyString s => let trimmed := TrimSpace s in text_int trimmed
  | _ => None
  end.

Definition operandBool (operand : Any) : option bool :=
  match operand with
  | AnyBool b => Some b
  | AnyString s => ParseBool (TrimSpace s)
  | _ => (λ n, negb (n =? 0)) <$> operandInt operand
  end.

Definition operandString (operand : Any) : option string :=
  match operand with
  | AnyString s => Some s
  | AnyBool b => Some (FormatBool b)
  | AnyNumber text => Some text
  | AnyFloat64 x => Some (FormatFloat binary64 x)
  | AnyFloat32 x => Some (FormatFloat binary32 x)
  | AnyInt n => Some (Itoa n)
  | _ => None
  end.
End operands.

(** ** Evaluation ([evaluate.go]) *)
Inductive RuleError :=
| UnknownMatch (m : string)
| BetweenArity (field : string)
| BetweenBound (field : string)
| OperandNotInt (field : string)
| OperandNotBool (field : string)
| OperandNotText (field : string)
| RegexInvalid (field : string)
| Unsupported (kind : Kind) (field : string) (op : Operator).

Definition fieldNodeRegionLegacy : string := "_legacy.node.region".

(** The comparison of strings by their bytes. *)
Definition text_lt (a b : string) : bool := String.ltb a b.
Definition text_le (a b : string) : bool := String.leb a b.

Definition containsFoldText (haystack needle : string) : bool :=
  match find_sub (toLower needle) (toLower haystack) with Some _ => true | None => false end.

Fixpoint containsFold (values : list string) (wanted : string) : bool :=
  match values with [] => false | v :: values => EqualFold v wanted || containsFold values wanted end.

(** [compileCachedRegex] with the contents of the cache. *)
Definition compileCachedRegex `{!RuleLibraries} (cache : gmap string Regexp) (pattern : string)
  : option Regexp * gmap string Regexp :=
  match cache !! pattern with
  | Some expression => (Some expression, cache)
  | None =>
    match regexp_Compile pattern with
    | Some expression => (Some expression, <[pattern := expression]> cache)
    | None => (None, cache)
    end
  end.

Definition is_op (op wanted : Operator) : bool := bool_decide (op = wanted).

Section evaluate.
Context `{!RegionLibrary, !Platform, !RuleLibraries}.

Definition some_int (actual : Z) (operands : list Any) : bool :=
  existsb (λ o, match operandInt o with Some wanted => wanted =? actual | None => false end) operands.

Definition compareInt (actual : Z) (c : Condition) : RuleError + bool :=
  let op := c_Op c in
  if is_op op OpIn || is_op op OpNotIn then inr (Bool.eqb (some_int actual (c_Values c)) (is_op op OpIn))
  else if is_op op OpBetween then
    match c_Values c with
    | [low; high] =>
      match operandInt low, operandInt high with
      | Some low, Some high => inr ((Z.min low high <=? actual) && (actual <=? Z.max low high))
      | _, _ => inl (BetweenBound (c_FieldName c))
      end
    | _ => inl (BetweenArity (c_FieldName c))
    end
  else
    match operandInt (c_Value c) with
    | None => inl (OperandNotInt (c_FieldName c))
    | Some wanted =>
      if is_op op OpEq then inr (actual =? wanted)
      else if is_op op OpNe then inr (negb (actual =? wanted))
      else if is_op op OpGt then inr (wanted <? actual)
      else if is_op op OpGte then inr (wanted <=? actual)
      else if is_op op OpLt then inr (actual <? wanted)
      else if is_op op OpLte then inr (actual <=? wanted)
      else inl (Unsupported KindInt (c_FieldName c) op)
    end.

Definition compareBool (actual : bool) (c : Condition) : RuleError + bool :=
  match operandBool (c_Value c) with
  | None => inl (OperandNotBool (c_FieldName c))
  | Some wanted =>
    if is_op (c_Op c) OpEq then inr (Bool.eqb actual wanted)
    else if is_op (c_Op c) OpNe then inr (negb (Bool.eqb actual wanted))
    else inl (Unsupported KindBool (c_FieldName c) (c_Op c))
  end.

Definition some_text (test : string → bool) (operands : list Any) : bool :=
  existsb (λ o, match operandString o with Some wanted => test wanted | None => false end) operands.

Definition compareSet (actual : list string) (c : Condition) : RuleError + bool :=
  let op := c_Op c in
  if is_op op OpContains || is_op op OpNotContains then
    match operandString (c_Value c) with
    | None => inl (OperandNotText (c_FieldName c))
    | Some wanted => inr (Bool.eqb (containsFold actual wanted) (is_op op OpContains))
    end
  else if is_op op OpIn || is_op op OpNotIn then
    inr (Bool.eqb (some_text (containsFold actual) (c_Values c)) (is_op op OpIn))
  else inl (Unsupported KindSet (c_FieldName c) op).

Definition compareString (actual : string) (c : Condition) : RuleError + bool :=
  let op := c_Op c in
  if is_op op OpIn || is_op op OpNotIn then
    inr (Bool.eqb (some_text (λ wanted, EqualFold wanted actual) (c_Values c)) (is_op op OpIn))
  else if is_op op OpBetween then
    match c_Values c with
    | [low; high] =>
      match operandString low, operandString high with
      | Some low, Some high =>
        let '(low, high) := if text_lt high low then (high, low) else (low, high) in
        inr (text_le low actual && text_le actual high)
      | _, _ => inl (BetweenBound (c_FieldName c))
      end
    | _ => inl (BetweenArity (c_FieldName c))
    end
  else
    match operandString (c_Value c) with
    | None => inl (OperandNotText (c_FieldName c))
    | Some wanted =>
      if is_op op OpEq then inr (EqualFold actual wanted)
      else if is_op op OpNe then inr (negb (EqualFold actual wanted))
      else if is_op op OpContains then inr (containsFoldText actual wanted)
      else if is_op op OpNotContains then inr (negb (containsFoldText actual wanted))
      else if is_op op OpRegex then
        match regexp_Compile wanted with
        | Some expression => inr (MatchString expression actual)
        | None => inl (RegexInvalid (c_FieldName c))
        end
      else if is_op op OpGt then inr (text_lt wanted actual)
      else if is_op op OpGte then inr (text_le wanted actual)
      else if is_op op OpLt then inr (text_lt actual wanted)
      else if is_op op OpLte then inr (text_le actual wanted)
      else inl (Unsupported KindString (c_FieldName c) op)
    end.

Definition compare (v : Value) (c : Condition) : RuleError + bool :=
  match v_Kind v with
  | KindInt => compareInt (v_Num v) c
  | KindBool => compareBool (v_Bool v) c
  | KindSet => compareSet (v_Set v) c
  | _ => compareString (v_Str v) c
  end.

Definition region_match (v : Value) (operand : Any) : bool :=
  match operand with AnyString text => Matches (v_Str v) [text] false 2 | _ => false end.

Definition compareRegion (v : Value) (c : Condition) : RuleError + bool :=
  let op := c_Op c in
  if is_op op OpEq then inr (region_match v (c_Value c))
  else if is_op op OpNe then inr (negb (region_match v (c_Value c)))
  else if is_op op OpIn || is_op op OpNotIn then
    inr (Bool.eqb (is_op op OpIn) (existsb (region_match v) (c_Values c)))
  else compare v c.

(** The fact a comparison reads, aged by its window: the product of seconds is an
    [int64]. *)
Definition aged_value (c : Condition) (now : Z) (v : Value) : Value :=
  if 0 <? c_MaxAgeSeconds c then Aged v (wrap64 (c_MaxAgeSeconds c * GoTime.second)) now else v.

Definition leaf_fact (version : Z) (c : Condition) (facts : NodeFacts) (now : Z) : Value :=
  let key := if bool_decide (c_FieldName c = FieldNodeRegion) && (version =? 1) then fieldNodeRegionLegacy else c_FieldName c in
  aged_value c now (value_of facts key).

(** [evaluateLeaf] on the condition with its [RegionVersion] set to [version]. *)
Definition evaluateLeaf (version : Z) (c : Condition) (facts : NodeFacts) (now : Z) : RuleError + bool :=
  let value := leaf_fact version c facts now in
  if is_op (c_Op c) OpIsUnknown then inr (xorb (c_Negate c) (negb (v_Known value)))
  else if is_op (c_Op c) OpIsKnown then inr (xorb (c_Negate c) (v_Known value))
  else if negb (v_Known value) then inr false
  else
    let compared := if bool_decide (c_FieldName c = FieldNodeRegion) && negb (version =? 1)
                    then compareRegion value c else compare value c in
    match compared with inl e => inl e | inr matched => inr (xorb (c_Negate c) matched) end.

Definition observes_unknown (op : Operator) : bool := is_op op OpIsKnown || is_op op OpIsUnknown.
Definition known_match (m : string) : bool := bool_decide (m ∈ [MatchAll; MatchAny; MatchNone]).

(** The (matched, known) pair of a condition. *)
Fixpoint evaluateTruth (c : Condition) (facts : NodeFacts) (now : Z) : RuleError + bool * bool :=
  if negb (IsGroup c) then
    if negb (observes_unknown (c_Op c)) && negb (v_Known (aged_value c now (value_of facts (c_FieldName c))))
    then inr (false, false)
    else match evaluateLeaf 2 c facts now with inl e => inl e | inr matched => inr (matched, true) end
  else
    (fix children (l : list Condition) (unknown : bool) :=
       match l with
       | child :: l =>
         match evaluateTruth child facts now with
         | inl e => inl e
         | inr (_, false) => children l true
         | inr (matched, true) =>
           if bool_decide (c_Match c = MatchAll) && negb matched then inr (false, true)
           else if bool_decide (c_Match c = MatchAny) && matched then inr (true, true)
           else if bool_decide (c_Match c = MatchNone) && matched then inr (false, true)
           else children l unknown
         end
       | [] =>
         if negb (known_match (c_Match c)) then inl (UnknownMatch (c_Match c))
         else if unknown then inr (false, false)
         else inr (negb (bool_decide (c_Match c = MatchAny)), true)
       end) (c_Children c) false.

(** [Evaluate] on a condition whose [RegionVersion] is 1, as the children of such a
    group inherit it: [evaluateGroup] with its two loops. *)
Fixpoint evaluate_legacy (c : Condition) (facts : NodeFacts) (now : Z) : RuleError + bool :=
  if IsEmpty c then inr false
  else if negb (IsGroup c) then evaluateLeaf 1 c facts now
  else if bool_decide (c_Match c = MatchAll) then
    (fix all (l : list Condition) :=
       match l with
       | child :: l =>
         match evaluate_legacy child facts now with
         | inl e => inl e
         | inr false => inr false
         | inr true => all l
         end
       | [] => inr true
       end) (c_Children c)
  else if known_match (c_Match c) then
    match (fix any (l : list Condition) : RuleError + bool :=
       match l with
       | child :: l =>
         match evaluate_legacy child facts now with
         | inl e => inl e
         | inr true => inr true
         | inr false => any l
         end
       | [] => inr false
       end) (c_Children c) with
    | inl e => inl e
    | inr matchedAny => inr (if bool_decide (c_Match c = MatchNone) then negb matchedAny else matchedAny)
    end
  else inl (UnknownMatch (c_Match c)).

Definition Evaluate (c : Condition) (facts : NodeFacts) (now : Z) : RuleError + bool :=
  if IsEmpty c then inr false
  else if negb (c_RegionVersion c =? 1) then
    match evaluateTruth c facts now with inl e => inl e | inr (matched, known) => inr (matched && known) end
  else evaluate_legacy c facts now.
End evaluate.

(** ** Validation ([condition.go]) *)

(** A text starts with [n] continuation bytes, the first one in a range of its own. *)
Fixpoint continuations (lo hi : Z) (n : nat) (s : string) : bool :=
  match n, s with
  | O, _ => true
  | S n, String c s => within lo hi c && continuations 128 191 n s
  | S _, EmptyString => false
  end.

(** The length of the first rune of a text, an invalid byte being one rune. *)
Definition rune_size (s : string) : nat :=
  match s with
  | EmptyString => 0%nat
  | String c rest =>
    let n := code c in
    if within 194 223 c then if continuations 128 191 1 rest then 2%nat else 1%nat
    else if within 224 239 c then
      let lo := if n =? 224 then 160 else 128 in
      let hi := if n =? 237 then 159 else 191 in
      if continuations lo hi 2 rest then 3%nat else 1%nat
    else if within 240 244 c then
      let lo := if n =? 240 then 144 else 128 in
      let hi := if n =? 244 then 143 else 191 in
      if continuations lo hi 3 rest then 4%nat else 1%nat
    else 1%nat
  end.

(** [utf8.RuneCountInString]: [skip] bytes belong to the rune already counted. *)
Fixpoint rune_count (skip : nat) (s : string) : Z :=
  match s with
  | EmptyString => 0
  | String _ rest =>
    match skip with
    | S skip => rune_count skip rest
    | O => 1 + rune_count (rune_size s - 1) rest
    end
  end.

Example runes_counted : rune_count 0 "a€😀é" = 4 ∧ rune_count 0 (String (char 128) "b") = 2.
Proof. vm_compute. done. Qed.

Inductive RuleFault :=
| BadRegionVersion (v : Z)
| MarshalFailed
| RuleTooLarge (size limit : Z)
| TooDeep (limit : Z)
| TooManyConditions (limit : Z)
| FieldMissing
| LeafWithChildren (field : string)
| MatchUnknown (m : string)
| GroupWithField (field : string)
| GroupWithoutChildren (m : string)
| InChild (index : Z) (fault : RuleFault)
| FieldUnknown (field : string)
| OperatorUnknown (op : Operator)
| OperatorUnsupported (field : string) (op : Operator)
| AgeNegative (field : string)
| AgeUnsupported (field : string)
| ArityMismatch (field : string) (op : Operator)
| TooManyValues (field : string) (count limit : Z)
| OperandInvalid (field : string)
| RegexUnsupported (field : string)
| PatternTooLong (count limit : Z)
| PatternInvalid.

Section validate.
Context `{!Platform, !RuleLibraries}.
Variables (registry : Registry) (limits : Limits).

Definition above (limit n : Z) : bool := (0 <? limit) && (limit <? n).

Definition validateOperand (f : Field) (op : Operator) (operand : Any) : RuleFault + unit :=
  let fits := match fd_Kind f with
              | KindInt => bool_decide (is_Some (operandInt operand))
              | KindBool => bool_decide (is_Some (operandBool operand))
              | _ => bool_decide (is_Some (operandString operand))
              end in
  if negb fits then inl (OperandInvalid (fd_Name f))
  else if is_op op OpRegex && negb (bool_decide (fd_Kind f ∈ [KindString; KindEnum; KindSet]))
  then inl (RegexUnsupported (fd_Name f))
  else inr ().

Fixpoint validateOperands (f : Field) (op : Operator) (operands : list Any) : RuleFault + unit :=
  match operands with
  | [] => inr ()
  | o :: operands => match validateOperand f op o with inl e => inl e | inr _ => validateOperands f op operands end
  end.

Definition validateArity (c : Condition) (f : Field) (arity : Arity) : RuleFault + unit :=
  let mismatch := inl (ArityMismatch (c_FieldName c) (c_Op c)) in
  match arity with
  | ArityNone =>
    if negb (bool_decide (c_Value c = AnyNil)) || (0 <? length (c_Values c))%nat then mismatch else inr ()
  | ArityOne =>
    if bool_decide (c_Value c = AnyNil) then mismatch
    else if (0 <? length (c_Values c))%nat then mismatch
    else validateOperand f (c_Op c) (c_Value c)
  | ArityTwo =>
    if negb (length (c_Values c) =? 2)%nat then mismatch else validateOperands f (c_Op c) (c_Values c)
  | ArityMany =>
    if (length (c_Values c) =? 0)%nat then mismatch
    else if above (MaxValueItems limits) (Z.of_nat (length (c_Values c)))
    then inl (TooManyValues (c_FieldName c) (Z.of_nat (length (c_Values c))) (MaxValueItems limits))
    else validateOperands f (c_Op c) (c_Values c)
  end.

Definition validateRegex (operand : Any) : RuleFault + unit :=
  match operandString operand with
  | None => inl PatternInvalid
  | Some pattern =>
    if above (MaxRegexLength limits) (rune_count 0 pattern)
    then inl (PatternTooLong (rune_count 0 pattern) (MaxRegexLength limits))
    else match regexp_Compile pattern with Some _ => inr () | None => inl PatternInvalid end
  end.

Definition validateLeaf (c : Condition) : RuleFault + unit :=
  match field_of registry (c_FieldName c) with
  | None => inl (FieldUnknown (c_FieldName c))
  | Some f =>
    match OperatorArity (c_Op c) with
    | None => inl (OperatorUnknown (c_Op c))
    | Some arity =>
      if negb (SupportsOperator f (c_Op c)) then inl (OperatorUnsupported (c_FieldName c) (c_Op c))
      else if c_MaxAgeSeconds c <? 0 then inl (AgeNegative (c_FieldName c))
      else if (0 <? c_MaxAgeSeconds c) && negb (fd_SupportsMaxAge f) then inl (AgeUnsupported (c_FieldName c))
      else match validateArity c f arity with
           | inl e => inl e
           | inr _ => if is_op (c_Op c) OpRegex then validateRegex (c_Value c) else inr ()
           end
    end
  end.

(** The checks of a node and the number of conditions seen once its subtree is done. *)
Fixpoint validate (c : Condition) (depth count : Z) : RuleFault + Z :=
  if above (MaxDepth limits) depth then inl (TooDeep (MaxDepth limits))
  else
    let count := count + 1 in
    if above (MaxConditions limits) count then inl (TooManyConditions (MaxConditions limits))
    else if IsGroup c then
      if negb (known_match (c_Match c)) then inl (MatchUnknown (c_Match c))
      else if nonempty (c_FieldName c) || nonempty (c_Op c) then inl (GroupWithField (c_FieldName c))
      else if (length (c_Children c) =? 0)%nat then inl (GroupWithoutChildren (c_Match c))
      else
        (fix children (l : list Condition) (index count : Z) : RuleFault + Z :=
           match l with
           | [] => inr count
           | child :: l =>
             match validate child (depth + 1) count with
             | inl e => inl (InChild (index + 1) e)
             | inr count => children l (index + 1) count
             end
           end) (c_Children c) 0 count
    else if negb (nonempty (c_FieldName c)) then inl FieldMissing
    else if (0 <? length (c_Children c))%nat then inl (LeafWithChildren (c_FieldName c))
    else match validateLeaf c with inl e => inl e | inr _ => inr count end.

Definition Validate (c : Condition) : RuleFault + unit :=
  if (c_RegionVersion c <? 0) || (2 <? c_RegionVersion c) then inl (BadRegionVersion (c_RegionVersion c))
  else if IsEmpty c then inr ()
  else
    let size := if 0 <? MaxRuleBytes limits then
                  match json_Marshal_length c with
                  | None => inl MarshalFailed
                  | Some n => if MaxRuleBytes limits <? n then inl (RuleTooLarge n (MaxRuleBytes limits)) else inr ()
                  end
                else inr () in
    match size with
    | inl e => inl e
    | inr _ => match validate c 1 0 with inl e => inl e | inr _ => inr () end
    end.
End validate.
