(* ===== verification/RuleSoundness.v ===== *)
(** What the rule language guarantees: a rule that validation accepts evaluates on
    every well-typed fact set, to the value its three-valued reading gives, and what it
    admits rests on measured facts. *)
From S2P Require Import Prelude Text Floats NodeRegion NodeFacts NodeRules.

#[local] Open Scope Z_scope.

(** ** The reading of a rule
    A condition is true, false or unknown ([None]). *)
Definition k_not (x : option bool) : option bool := negb <$> x.
Definition k_and (x y : option bool) : option bool :=
  match x, y with
  | Some false, _ | _, Some false => Some false
  | Some true, Some true => Some true
  | _, _ => None
  end.
Definition k_or (x y : option bool) : option bool := k_not (k_and (k_not x) (k_not y)).
Definition k_all (l : list (option bool)) : option bool := foldr k_and (Some true) l.
Definition k_any (l : list (option bool)) : option bool := foldr k_or (Some false) l.

Definition k_combine (m : string) (l : list (option bool)) : option bool :=
  if bool_decide (m = MatchAll) then k_all l
  else if bool_decide (m = MatchAny) then k_any l
  else k_not (k_any l).

(** [y] is [x], or says more where [x] says nothing. *)
Definition k_le (x y : option bool) : Prop := x = None ∨ x = y.

#[global] Instance k_le_preorder : PreOrder k_le.
Proof. split; unfold k_le; [by right|intros x y z]; naive_solver. Qed.

#[global] Instance k_not_mono : Proper (k_le ==> k_le) k_not.
Proof. unfold k_le. intros x y [->| ->]; [by left|by right]. Qed.
#[global] Instance k_and_mono : Proper (k_le ==> k_le ==> k_le) k_and.
Proof.
  unfold k_le. intros x y [->| ->] x' y' [->| ->]; [by left| | |by right].
  - destruct y as [[]|], y' as [[]|]; naive_solver.
  - destruct y as [[]|], y' as [[]|]; naive_solver.
Qed.
#[global] Instance k_or_mono : Proper (k_le ==> k_le ==> k_le) k_or.
Proof. intros x y Hxy x' y' Hxy'. unfold k_or. by rewrite Hxy, Hxy'. Qed.

Lemma k_fold_mono (op : option bool → option bool → option bool) e l l' :
  Proper (k_le ==> k_le ==> k_le) op → Forall2 k_le l l' → k_le (foldr op e l) (foldr op e l').
Proof. intros Hop. induction 1; cbn; [by right|by apply Hop]. Qed.

Lemma k_combine_mono m l l' : Forall2 k_le l l' → k_le (k_combine m l) (k_combine m l').
Proof.
  intros Hl. unfold k_combine, k_all, k_any. repeat case_match.
  - apply k_fold_mono; [apply _|done].
  - apply k_fold_mono; [apply _|done].
  - apply k_not_mono, k_fold_mono; [apply _|done].
Qed.

Section reading.
Context `{!RegionLibrary, !Platform, !RuleLibraries}.

Definition compare_at (version : Z) (v : Value) (c : Condition) : RuleError + bool :=
  if bool_decide (c_FieldName c = FieldNodeRegion) && negb (version =? 1) then compareRegion v c else compare v c.

(** A comparison of an unmeasured fact is unknown, but for [is_known] and [is_unknown]. *)
Definition leaf_truth (version : Z) (c : Condition) (facts : NodeFacts) (now : Z) : option bool :=
  let v := leaf_fact version c facts now in
  if observes_unknown (c_Op c) then Some (xorb (c_Negate c) (Bool.eqb (is_op (c_Op c) OpIsKnown) (v_Known v)))
  else if v_Known v then
    match compare_at version v c with inr matched => Some (xorb (c_Negate c) matched) | inl _ => None end
  else None.

Fixpoint truth (c : Condition) (facts : NodeFacts) (now : Z) : option bool :=
  if IsGroup c then k_combine (c_Match c) ((λ child, truth child facts now) <$> c_Children c)
  else leaf_truth 2 c facts now.

(** The older reading, in which a comparison of an unmeasured fact is false. *)
Fixpoint legacy_truth (c : Condition) (facts : NodeFacts) (now : Z) : bool :=
  if IsGroup c then
    let children := (λ child, legacy_truth child facts now) <$> c_Children c in
    if bool_decide (c_Match c = MatchAll) then forallb id children
    else if bool_decide (c_Match c = MatchAny) then existsb id children
    else negb (existsb id children)
  else default false (leaf_truth 1 c facts now).

Definition reading (c : Condition) (facts : NodeFacts) (now : Z) : bool :=
  if IsEmpty c then false
  else if c_RegionVersion c =? 1 then legacy_truth c facts now
  else default false (truth c facts now).

(** ** Well-typed facts and registries *)

(** Fields take the operators of their kind. *)
Definition registry_wf (r : Registry) : Prop :=
  ∀ name f, field_of r name = Some f → fd_Operators f = OperatorsForKind (fd_Kind f).

(** A measured fact has the kind of its field; [node.region] is also stored in its
    older form. *)
Definition well_typed (r : Registry) (facts : NodeFacts) : Prop :=
  ∀ name f key v, field_of r name = Some f →
    key = name ∨ (name = FieldNodeRegion ∧ key = fieldNodeRegionLegacy) →
    nf_Values facts !! key = Some v → v_Known v = true → v_Kind v = fd_Kind f.

Lemma Aged_kind v maxAge now : v_Kind (Aged v maxAge now) = v_Kind v.
Proof. unfold Aged. repeat case_match; reflexivity. Qed.
Lemma Aged_known v maxAge now : v_Known (Aged v maxAge now) = true → Aged v maxAge now = v ∧ v_Known v = true.
Proof.
  unfold Aged, forget. repeat case_match; cbn; [|done|]; try done.
Qed.
Lemma aged_known c now v : v_Known (aged_value c now v) = true → aged_value c now v = v ∧ v_Known v = true.
Proof. unfold aged_value. case_match; [apply Aged_known|done]. Qed.

Lemma leaf_fact_typed r version c facts now f :
  well_typed r facts → field_of r (c_FieldName c) = Some f →
  v_Known (leaf_fact version c facts now) = true → v_Kind (leaf_fact version c facts now) = fd_Kind f.
Proof.
  intros Ht Hf Hk. unfold leaf_fact in *. apply aged_known in Hk as [-> Hk].
  set (key := if _ && _ then fieldNodeRegionLegacy else c_FieldName c) in *.
  unfold value_of in *. destruct (nf_Values facts !! key) as [v|] eqn:Hv; [|done].
  apply (Ht (c_FieldName c) f key v); [done| |done|done].
  subst key. destruct (bool_decide _ && _) eqn:E; [|by left]. right. split; [|done].
  apply andb_prop in E as [E _]. by apply bool_decide_eq_true in E.
Qed.

(** ** Comparisons of accepted conditions do not fail *)
Variables (registry : Registry) (limits : Limits).

#[local] Hint Unfold OpEq OpNe OpIn OpNotIn OpContains OpNotContains OpGt OpGte OpLt OpLte OpBetween OpRegex OpIsKnown OpIsUnknown : operators.

Lemma validateOperand_fits f op o :
  validateOperand f op o = inr () →
  match fd_Kind f with
  | KindInt => is_Some (operandInt o)
  | KindBool => is_Some (operandBool o)
  | _ => is_Some (operandString o)
  end.
Proof.
  unfold validateOperand. intros Hv. destruct (fd_Kind f); case_bool_decide; by cbn in Hv.
Qed.

Lemma validateOperands_fit f op l :
  validateOperands f op l = inr () → Forall (λ o, validateOperand f op o = inr ()) l.
Proof.
  induction l as [|o l IH]; cbn; [done|]. destruct (validateOperand f op o) as [?|[]] eqn:E; [done|]. auto.
Qed.

Lemma validateArity_operand c f arity :
  validateArity limits c f arity = inr () →
  match arity with
  | ArityNone => True
  | ArityOne => validateOperand f (c_Op c) (c_Value c) = inr ()
  | ArityTwo => ∃ a b, c_Values c = [a; b] ∧ validateOperand f (c_Op c) a = inr () ∧ validateOperand f (c_Op c) b = inr ()
  | ArityMany => True
  end.
Proof.
  unfold validateArity. destruct arity; [|done| |done].
  - by repeat case_match.
  - destruct (c_Values c) as [|a [|b [|]]]; cbn; try done. intros Hv.
    pose proof (validateOperands_fit f (c_Op c) [a; b] Hv) as Hf.
    apply Forall_cons in Hf as [Ha [Hb _]%Forall_cons]. eauto.
Qed.

(** What validation grants a comparison of a field of a given kind. *)
Lemma validateLeaf_inv c :
  registry_wf registry → validateLeaf registry limits c = inr () →
  ∃ f arity, field_of registry (c_FieldName c) = Some f ∧ OperatorArity (c_Op c) = Some arity ∧
    c_Op c ∈ OperatorsForKind (fd_Kind f) ∧ validateArity limits c f arity = inr () ∧
    (c_Op c = OpRegex → ∃ pattern e, operandString (c_Value c) = Some pattern ∧ regexp_Compile pattern = Some e).
Proof.
  intros Hwf. unfold validateLeaf. destruct (field_of registry _) as [f|] eqn:Hf; [|done].
  destruct (OperatorArity _) as [arity|]; [|done]. unfold SupportsOperator.
  rewrite (Hwf _ _ Hf). case_bool_decide as Hop; cbn; [|done]. repeat case_match; try done; intros Hr.
  - exists f, arity. split_and!; try done; [by destruct u|]. intros _. unfold validateRegex in Hr.
    destruct (operandString _) as [pattern|]; [|done]. case_match; [done|].
    destruct (regexp_Compile pattern) eqn:?; [|done]. eauto.
  - exists f, arity. split_and!; try done; [by destruct u|]. intros Ho.
    unfold is_op in *. rewrite bool_decide_eq_false in *. done.
Qed.

(** Evaluate the tests on a known operator. *)
Ltac eval_ops := repeat match goal with
  | |- context [is_op ?a ?b] => let r := eval vm_compute in (is_op a b) in change (is_op a b) with r
  | H : context [is_op ?a ?b] |- _ => let r := eval vm_compute in (is_op a b) in change (is_op a b) with r in H
  end; cbn [orb andb negb].

(** The cases of an operator known to be in a list. *)
Ltac op_cases Hop := repeat (apply elem_of_cons in Hop as [Hop|Hop]); [..|by apply not_elem_of_nil in Hop].

Lemma compare_total c f arity v :
  v_Kind v = fd_Kind f → OperatorArity (c_Op c) = Some arity →
  c_Op c ∈ OperatorsForKind (fd_Kind f) → validateArity limits c f arity = inr () →
  (c_Op c = OpRegex → ∃ pattern e, operandString (c_Value c) = Some pattern ∧ regexp_Compile pattern = Some e) →
  observes_unknown (c_Op c) = false →
  ∃ b, compare v c = inr b.
Proof.
  intros Hk Ha Hop Hv%validateArity_operand Hre Hobs. unfold compare. rewrite Hk.
  unfold observes_unknown, compareInt, compareBool, compareSet, compareString in *.
  destruct (fd_Kind f) eqn:Hkind; cbn [OperatorsForKind] in Hop; op_cases Hop; rewrite ?Hop in *;
    eval_ops; try done; vm_compute in Ha; injection Ha as <-; try (by eauto).
  all: try (apply validateOperand_fits in Hv; rewrite Hkind in Hv; destruct Hv as [w Hw]; rewrite Hw; by eauto).
  all: try (destruct (Hre eq_refl) as (pattern & e & -> & ->); by eauto).
  destruct Hv as (a & b & -> & Hx%validateOperand_fits & Hy%validateOperand_fits).
  rewrite Hkind in Hx, Hy. destruct Hx as [x ->], Hy as [y ->]. by eauto.
Qed.

Lemma compareRegion_total v c b : compare v c = inr b → ∃ b', compareRegion v c = inr b'.
Proof. intros Hb. unfold compareRegion. repeat case_match; eauto. Qed.

Lemma compare_at_total version c facts now :
  registry_wf registry → well_typed registry facts → validateLeaf registry limits c = inr () →
  let v := leaf_fact version c facts now in
  v_Known v = true → observes_unknown (c_Op c) = false → ∃ b, compare_at version v c = inr b.
Proof.
  intros Hwf Ht Hl v Hk Hobs. apply (validateLeaf_inv _ Hwf) in Hl as (f & arity & Hf & Ha & Hop & Hv & Hre).
  destruct (compare_total c f arity v) as [b Hb]; try done.
  { by eapply leaf_fact_typed. }
  unfold compare_at. case_match; [by eapply compareRegion_total|eauto].
Qed.

(** The pair [evaluateTruth] returns for a truth value. *)
Definition verdict (t : option bool) : bool * bool := match t with Some b => (b, true) | None => (false, false) end.

Lemma evaluateLeaf_reading version c facts now :
  registry_wf registry → well_typed registry facts → validateLeaf registry limits c = inr () →
  evaluateLeaf version c facts now = inr (default false (leaf_truth version c facts now)).
Proof.
  intros Hwf Ht Hl. pose proof (compare_at_total version c facts now Hwf Ht Hl) as Htot. cbn zeta in Htot.
  unfold evaluateLeaf, leaf_truth, compare_at, observes_unknown in *.
  destruct (is_op (c_Op c) OpIsKnown) eqn:E1, (is_op (c_Op c) OpIsUnknown) eqn:E2; cbn [orb] in *.
  - unfold is_op in *. apply bool_decide_eq_true in E1, E2. by rewrite E1 in E2.
  - cbn. by destruct (v_Known _).
  - cbn. by destruct (v_Known _).
  - destruct (v_Known _) eqn:Hk; cbn [negb]; [|done]. by destruct (Htot eq_refl eq_refl) as [b ->].
Qed.

Lemma truth_leaf c facts now :
  registry_wf registry → well_typed registry facts → validateLeaf registry limits c = inr () → IsGroup c = false →
  evaluateTruth c facts now = inr (verdict (truth c facts now)).
Proof.
  intros Hwf Ht Hl Hg. pose proof (evaluateLeaf_reading 2 c facts now Hwf Ht Hl) as He.
  pose proof (compare_at_total 2 c facts now Hwf Ht Hl) as Htot. cbn zeta in Htot.
  assert (Hfact : leaf_fact 2 c facts now = aged_value c now (value_of facts (c_FieldName c))).
  { unfold leaf_fact. by rewrite andb_false_r. }
  assert (Ht2 : truth c facts now = leaf_truth 2 c facts now) by (destruct c; cbn [truth]; by rewrite Hg).
  rewrite Ht2. destruct c as [v m ch f op x xs age neg]. cbn [evaluateTruth]. rewrite Hg. cbn [negb].
  rewrite He. cbn [c_Op c_FieldName] in *. rewrite <-Hfact. unfold leaf_truth in *. cbn [c_Op].
  destruct (observes_unknown op) eqn:Hobs; cbn [negb andb]; [done|].
  destruct (v_Known (leaf_fact 2 _ _ _)) eqn:Hk; cbn [negb]; [|done].
  by destruct (Htot eq_refl eq_refl) as [b ->].
Qed.

(** ** Accepted rules *)
Inductive accepted : Condition → Prop :=
| accepted_group c :
    IsGroup c = true → known_match (c_Match c) = true → c_Children c ≠ [] → Forall accepted (c_Children c) → accepted c
| accepted_leaf c :
    IsGroup c = false → c_Children c = [] → nonempty (c_FieldName c) = true → validateLeaf registry limits c = inr () → accepted c.

(** The loop over the children of a group, for any function of a child. *)
Fixpoint loop_children (g : Condition → Z → RuleFault + Z) (l : list Condition) (index count : Z) : RuleFault + Z :=
  match l with
  | [] => inr count
  | child :: l =>
    match g child count with
    | inl e => inl (InChild (index + 1) e)
    | inr count => loop_children g l (index + 1) count
    end
  end.

Fixpoint conditions (c : Condition) : Z := 1 + foldr (λ child n, conditions child + n) 0 (c_Children c).
Fixpoint rule_depth (c : Condition) : Z := 1 + foldr (λ child n, Z.max (rule_depth child) n) 0 (c_Children c).

Lemma validate_group c depth count :
  IsGroup c = true →
  validate registry limits c depth count =
    (if above (MaxDepth limits) depth then inl (TooDeep (MaxDepth limits))
     else if above (MaxConditions limits) (count + 1) then inl (TooManyConditions (MaxConditions limits))
     else if negb (known_match (c_Match c)) then inl (MatchUnknown (c_Match c))
     else if nonempty (c_FieldName c) || nonempty (c_Op c) then inl (GroupWithField (c_FieldName c))
     else if (length (c_Children c) =? 0)%nat then inl (GroupWithoutChildren (c_Match c))
     else loop_children (λ child n, validate registry limits child (depth + 1) n) (c_Children c) 0 (count + 1)).
Proof.
  intros Hg. destruct c as [v m ch f op x xs age neg]. cbn [validate]. rewrite Hg. cbn [c_Children].
  destruct (above _ _); [done|]. destruct (above _ _); [done|]. destruct (negb _); [done|].
  destruct (_ || _); [done|]. destruct (_ =? _)%nat; [done|].
  clear Hg. generalize (count + 1) 0. induction ch as [|child ch IH]; intros n i; cbn; [done|].
  destruct (validate _ _ _ _ _) as [e|n']; [done|]. apply IH.
Qed.

Lemma foldr_conditions_nonneg l : 0 ≤ foldr (λ child n, conditions child + n) 0 l.
Proof.
  assert (Hpos : ∀ c, 0 ≤ conditions c).
  { induction c as [c IH] using Condition_ind. destruct c as [v m ch f op x xs age neg]. cbn in *.
    induction IH; cbn; lia. }
  induction l as [|c l IH]; cbn; [lia|]. pose proof (Hpos c). lia.
Qed.

(** The effect of a loop whose every step counts its child. *)
Lemma loop_children_ok g l index count count' :
  loop_children g l index count = inr count' →
  Forall (λ child, ∀ n n', g child n = inr n' → n' = n + conditions child) l →
  count' = count + foldr (λ child n, conditions child + n) 0 l ∧ Forall (λ child, ∃ n n', g child n = inr n') l.
Proof.
  revert index count. induction l as [|child l IH]; intros index count Hl Hg; cbn in *.
  - split; [by simplify_eq; lia|constructor].
  - apply Forall_cons in Hg as [Hc Hg]. destruct (g child count) as [e|n] eqn:E; [done|].
    destruct (IH _ _ Hl Hg) as [-> Hf]. pose proof (Hc _ _ E). split; [lia|]. constructor; eauto.
Qed.

Lemma loop_children_last g l index count count' :
  loop_children g l index count = inr count' → l ≠ [] → ∃ child n, child ∈ l ∧ g child n = inr count'.
Proof.
  revert index count. induction l as [|child l IH]; intros index count Hl Hne; cbn in *; [done|].
  destruct (g child count) as [e|n] eqn:E; [done|]. destruct l as [|child' l]; cbn in Hl.
  - simplify_eq. exists child, count. set_solver.
  - destruct (IH _ _ Hl) as (x & m & ? & ?); [done|]. exists x, m. set_solver.
Qed.

Lemma validate_accepted c : ∀ depth count count',
  validate registry limits c depth count = inr count' →
  accepted c ∧ count' = count + conditions c ∧
  (0 < MaxConditions limits → count' ≤ MaxConditions limits) ∧
  (0 < MaxDepth limits → depth + rule_depth c - 1 ≤ MaxDepth limits).
Proof.
  induction c as [c IH] using Condition_ind. intros depth count count' Hv.
  destruct (IsGroup c) eqn:Hg.
  - rewrite (validate_group c depth count Hg) in Hv. unfold above in Hv.
    destruct ((_ <? _) && (_ <? depth)) eqn:Hd; [done|]. destruct ((_ <? _) && (_ <? count + 1)) eqn:Hn; [done|].
    destruct (known_match _) eqn:Hm; [|done]. cbn [negb] in Hv. destruct (_ || _); [done|].
    destruct (length (c_Children c) =? 0)%nat eqn:Hlen; [done|]. apply Nat.eqb_neq in Hlen.
    destruct (loop_children_last _ _ _ _ _ Hv) as (last & nl & Hin & Hlast); [by destruct (c_Children c)|].
    apply loop_children_ok in Hv as [-> Hf]; [|eapply Forall_impl; [exact IH|]; cbn; naive_solver].
    assert (Hdepth : 0 < MaxDepth limits → depth + foldr (λ child n, Z.max (rule_depth child) n) 0 (c_Children c) ≤ MaxDepth limits).
    { intros Hpos. clear Hlen Hin Hlast. induction (c_Children c) as [|child l IHl]; cbn; [lia|].
      apply Forall_cons in IH as [Hc IH], Hf as [(n & n' & Hok) Hf]. specialize (IHl IH Hf).
      destruct (Hc _ _ _ Hok) as (_ & _ & _ & Hmax). lia. }
    split_and!.
    + apply accepted_group; [done|done|by destruct (c_Children c)|].
      apply Forall_forall. intros child Hchild. rewrite Forall_forall in IH, Hf.
      destruct (Hf _ Hchild) as (n & n' & Hok). by eapply IH.
    + destruct c; cbn in *. lia.
    + rewrite Forall_forall in IH. by apply (IH _ Hin) in Hlast as (_ & _ & Hmax & _).
    + destruct c; cbn in *. lia.
  - destruct c as [v m ch f op x xs age neg]. cbn [validate] in Hv. rewrite Hg in Hv. cbn in Hv. unfold above in Hv.
    destruct ((_ <? _) && (_ <? depth)) eqn:Hd; [done|]. destruct ((_ <? _) && (_ <? count + 1)) eqn:Hn; [done|].
    destruct (nonempty f) eqn:Hf; [|done]. cbn in Hv. destruct ch; [|done]. cbn in Hv.
    destruct (validateLeaf _ _ _) as [e|[]] eqn:Hl; [done|]. simplify_eq. split_and!; cbn; [|lia|lia|lia].
    by apply accepted_leaf.
Qed.

Lemma Validate_accepted c :
  Validate registry limits c = inr () → IsEmpty c = true ∨ (accepted c ∧ ∃ n, validate registry limits c 1 0 = inr n).
Proof.
  unfold Validate. destruct (_ || _); [done|]. destruct (IsEmpty c); [by left|]. cbn zeta.
  destruct (if 0 <? MaxRuleBytes limits then _ else _) as [e|[]]; [done|].
  destruct (validate _ _ _ _ _) as [e|n] eqn:E; [done|]. right. split; [by apply validate_accepted in E as [? _]|eauto].
Qed.

(** The loop of [evaluateTruth] over the children of a group, for any function of a child. *)
Fixpoint truth_loop (g : Condition → RuleError + bool * bool) (m : string) (l : list Condition) (unknown : bool) : RuleError + bool * bool :=
  match l with
  | child :: l =>
    match g child with
    | inl e => inl e
    | inr (_, false) => truth_loop g m l true
    | inr (matched, true) =>
      if bool_decide (m = MatchAll) && negb matched then inr (false, true)
      else if bool_decide (m = MatchAny) && matched then inr (true, true)
      else if bool_decide (m = MatchNone) && matched then inr (false, true)
      else truth_loop g m l unknown
    end
  | [] =>
    if negb (known_match m) then inl (UnknownMatch m)
    else if unknown then inr (false, false)
    else inr (negb (bool_decide (m = MatchAny)), true)
  end.

Lemma evaluateTruth_group c facts now :
  IsGroup c = true →
  evaluateTruth c facts now = truth_loop (λ child, evaluateTruth child facts now) (c_Match c) (c_Children c) false.
Proof.
  intros Hg. destruct c as [v m ch f op x xs age neg]. cbn [evaluateTruth]. rewrite Hg. cbn [negb c_Children c_Match].
  clear Hg. match goal with |- ?f ch false = truth_loop ?g m ch false => enough (∀ u, f ch u = truth_loop g m ch u) by done end.
  induction ch as [|child ch IH]; intros u; cbn; [done|].
  destruct (evaluateTruth child facts now) as [e|[matched []]]; by rewrite ?IH.
Qed.

Lemma known_match_cases m : known_match m = true → m = MatchAll ∨ m = MatchAny ∨ m = MatchNone.
Proof. unfold known_match. intros Hm%bool_decide_eq_true. set_solver. Qed.

Lemma truth_loop_combines g t m l unknown :
  known_match m = true → Forall (λ child, g child = inr (verdict (t child))) l →
  truth_loop g m l unknown = inr (verdict (k_combine m ((if unknown then [None] else []) ++ (t <$> l)))).
Proof.
  intros Hm Hg. revert unknown. induction Hg as [|child l Hc Hg IH]; intros unknown; cbn [truth_loop].
  - rewrite Hm. cbn [negb]. destruct (known_match_cases m Hm) as [-> |[-> | ->]]; destruct unknown; reflexivity.
  - rewrite Hc. unfold verdict at 1. destruct (t child) as [b|] eqn:Ht; cbn [fmap list_fmap]; rewrite Ht.
    + rewrite !IH. destruct (known_match_cases m Hm) as [-> |[-> | ->]], b, unknown; cbn;
        unfold k_combine; cbn; unfold k_all, k_any; cbn;
        repeat match goal with |- context [foldr ?op ?e ?l] => destruct (foldr op e l) as [[]|] end; reflexivity.
    + rewrite IH. destruct (known_match_cases m Hm) as [-> |[-> | ->]], unknown; cbn;
        unfold k_combine; cbn; unfold k_all, k_any; cbn;
        repeat match goal with |- context [foldr ?op ?e ?l] => destruct (foldr op e l) as [[]|] end; reflexivity.
Qed.

Lemma evaluateTruth_reading c facts now :
  registry_wf registry → well_typed registry facts → accepted c →
  evaluateTruth c facts now = inr (verdict (truth c facts now)).
Proof.
  intros Hwf Ht. induction c as [c IH] using Condition_ind. inversion 1 as [? Hg Hm Hne Hch|? Hg _ _ Hl]; subst.
  - rewrite (evaluateTruth_group c facts now Hg).
    rewrite (truth_loop_combines _ (λ child, truth child facts now)); [|done|].
    + destruct c. cbn [truth]. by rewrite Hg.
    + rewrite Forall_forall in IH, Hch |- *. eauto.
  - by apply truth_leaf.
Qed.

(** The two loops of [evaluateGroup]. *)
Fixpoint all_loop (g : Condition → RuleError + bool) (l : list Condition) : RuleError + bool :=
  match l with
  | child :: l => match g child with inl e => inl e | inr false => inr false | inr true => all_loop g l end
  | [] => inr true
  end.
Fixpoint any_loop (g : Condition → RuleError + bool) (l : list Condition) : RuleError + bool :=
  match l with
  | child :: l => match g child with inl e => inl e | inr true => inr true | inr false => any_loop g l end
  | [] => inr false
  end.

Lemma evaluate_legacy_group c facts now :
  IsGroup c = true →
  let g child := evaluate_legacy child facts now in
  evaluate_legacy c facts now =
    (if bool_decide (c_Match c = MatchAll) then all_loop g (c_Children c)
     else if known_match (c_Match c) then
       match any_loop g (c_Children c) with
       | inl e => inl e
       | inr matchedAny => inr (if bool_decide (c_Match c = MatchNone) then negb matchedAny else matchedAny)
       end
     else inl (UnknownMatch (c_Match c))).
Proof.
  intros Hg g. assert (He : IsEmpty c = false) by (unfold IsEmpty, IsGroup in *; by rewrite Hg).
  destruct c as [v m ch f op x xs age neg]. cbn [evaluate_legacy]. rewrite Hg, He. cbn [negb c_Children c_Match].
  clear Hg He. case_bool_decide.
  - induction ch as [|child ch IH]; cbn; [done|]. unfold g at 1.
    destruct (evaluate_legacy child facts now) as [e|[]]; done.
  - case_match; [|done].
    match goal with |- match ?a with _ => _ end = match ?b with _ => _ end => enough (a = b) as -> by done end.
    induction ch as [|child ch IH]; cbn; [done|]. unfold g at 1.
    destruct (evaluate_legacy child facts now) as [e|[]]; done.
Qed.

Lemma all_loop_reading g t l :
  Forall (λ child, g child = inr (t child)) l → all_loop g l = inr (forallb id (t <$> l)).
Proof. induction 1 as [|child l Hc _ IH]; cbn; [done|]. rewrite Hc. by destruct (t child). Qed.
Lemma any_loop_reading g t l :
  Forall (λ child, g child = inr (t child)) l → any_loop g l = inr (existsb id (t <$> l)).
Proof. induction 1 as [|child l Hc _ IH]; cbn; [done|]. rewrite Hc. by destruct (t child). Qed.

Lemma evaluate_legacy_reading c facts now :
  registry_wf registry → well_typed registry facts → accepted c →
  evaluate_legacy c facts now = inr (legacy_truth c facts now).
Proof.
  intros Hwf Ht. induction c as [c IH] using Condition_ind. inversion 1 as [? Hg Hm Hne Hch|? Hg Hnil Hf Hl]; subst.
  - rewrite (evaluate_legacy_group c facts now Hg).
    assert (Hloop : Forall (λ child, evaluate_legacy child facts now = inr (legacy_truth child facts now)) (c_Children c)).
    { rewrite Forall_forall in IH, Hch |- *. eauto. }
    rewrite (all_loop_reading _ _ _ Hloop), (any_loop_reading _ _ _ Hloop), Hm.
    destruct c as [v m ch f op x xs age neg]. cbn [legacy_truth c_Match c_Children] in *. rewrite Hg.
    destruct (known_match_cases m Hm) as [-> |[-> | ->]]; done.
  - pose proof (evaluateLeaf_reading 1 c facts now Hwf Ht Hl) as He.
    assert (Hemp : IsEmpty c = false) by (unfold IsEmpty; by rewrite Hf, andb_false_r).
    destruct c as [v m ch f op x xs age neg]. cbn [evaluate_legacy legacy_truth]. by rewrite Hg, Hemp.
Qed.
End reading.

(** ** More evidence *)

(** No comparison of the rule observes whether a fact is known. *)
Fixpoint measured_only (c : Condition) : bool :=
  negb (observes_unknown (c_Op c)) && forallb measured_only (c_Children c).

(** [facts'] holds every measured fact of [facts]. *)
Definition evidence_le (facts facts' : NodeFacts) : Prop :=
  ∀ key v, nf_Values facts !! key = Some v → v_Known v = true → nf_Values facts' !! key = Some v.

Section evidence.
Context `{!RegionLibrary, !Platform, !RuleLibraries}.

Lemma Aged_earlier v maxAge now now' :
  now' ≤ now → v_Known (Aged v maxAge now) = true → Aged v maxAge now' = Aged v maxAge now.
Proof.
  intros Hle Hk. destruct (Aged_known _ _ _ Hk) as [Heq Hv]. rewrite Heq. unfold Aged in *.
  destruct (_ || _); [done|]. destruct (maxAge <? GoTime.sub now _) eqn:E; [done|].
  apply Z.ltb_ge in E. destruct (Z.ltb_spec maxAge (GoTime.sub now' (v_CheckedAt v))); [|done].
  unfold GoTime.sub in *. lia.
Qed.

Lemma aged_value_earlier c now now' v :
  now' ≤ now → v_Known (aged_value c now v) = true → aged_value c now' v = aged_value c now v.
Proof. unfold aged_value. case_match; [by apply Aged_earlier|done]. Qed.

Lemma leaf_truth_mono version c facts facts' now now' :
  evidence_le facts facts' → now' ≤ now → observes_unknown (c_Op c) = false →
  k_le (leaf_truth version c facts now) (leaf_truth version c facts' now').
Proof.
  intros He Hle Hobs. unfold leaf_truth. rewrite Hobs. destruct (v_Known (leaf_fact version c facts now)) eqn:Hk; [|by left].
  assert (leaf_fact version c facts' now' = leaf_fact version c facts now) as ->; [|rewrite Hk; by right].
  unfold leaf_fact in *. cbn zeta in *. set (key := if _ && _ then _ else c_FieldName c) in *.
  destruct (aged_known _ _ _ Hk) as [_ Hv]. unfold value_of in *.
  destruct (nf_Values facts !! key) as [v|] eqn:Hf; [|done]. rewrite (He _ _ Hf Hv).
  by apply aged_value_earlier.
Qed.

Lemma truth_mono c facts facts' now now' :
  evidence_le facts facts' → now' ≤ now → measured_only c = true → k_le (truth c facts now) (truth c facts' now').
Proof.
  intros He Hle. induction c as [c IH] using Condition_ind. intros Hm.
  destruct c as [v m ch f op x xs age neg]. cbn [truth measured_only c_Op c_Children c_Match] in *.
  apply andb_prop in Hm as [Ho Hc]. apply negb_true_iff in Ho. destruct (IsGroup _).
  - apply k_combine_mono. clear - IH Hc. induction IH as [|child ch Hch _ IHc]; cbn in *; [constructor|].
    apply andb_prop in Hc as [? ?]. constructor; auto.
  - by apply leaf_truth_mono.
Qed.

(** ** The facts a rule reads *)
Fixpoint occurs (name : string) (c : Condition) : bool :=
  (nonempty (c_FieldName c) && bool_decide (c_FieldName c = name)) || existsb (occurs name) (c_Children c).

Lemma elem_of_collectFields c name : ∀ seen, name ∈ collectFields c seen ↔ name ∈ seen ∨ occurs name c = true.
Proof.
  induction c as [c IH] using Condition_ind. intros seen. destruct c as [v m ch f op x xs age neg].
  cbn [collectFields occurs c_FieldName c_Children] in *.
  rewrite orb_true_iff. set (seen' := if nonempty f then _ else seen).
  assert (name ∈ seen' ↔ name ∈ seen ∨ nonempty f && bool_decide (f = name) = true) as Hseen.
  { subst seen'. destruct (nonempty f); cbn; [rewrite bool_decide_eq_true|]; set_solver. }
  rewrite <-Logic.or_assoc, <-Hseen. clearbody seen'. clear Hseen seen. revert seen'.
  induction IH as [|child ch Hc _ IHch]; intros seen; cbn; [naive_solver|].
  rewrite IHch, Hc, orb_true_iff. naive_solver.
Qed.

Lemma elem_of_ReferencedFields c name : name ∈ ReferencedFields c ↔ occurs name c = true.
Proof.
  unfold ReferencedFields. rewrite merge_sort_Permutation, elem_of_elements, elem_of_collectFields. set_solver.
Qed.

(** Two fact sets a rule cannot tell apart. *)
Definition same_reads (version : Z) (c : Condition) (facts facts' : NodeFacts) : Prop :=
  (∀ name, occurs name c = true → value_of facts name = value_of facts' name) ∧
  (version = 1 → occurs FieldNodeRegion c = true →
   value_of facts fieldNodeRegionLegacy = value_of facts' fieldNodeRegionLegacy).

Lemma same_reads_child version c child facts facts' :
  child ∈ c_Children c → same_reads version c facts facts' → same_reads version child facts facts'.
Proof.
  intros Hin [Hv Hl]. assert (Hup : ∀ name, occurs name child = true → occurs name c = true).
  { intros name Ho. destruct c; cbn in *. apply orb_true_intro. right. apply existsb_exists. exists child.
    split; [by apply list_elem_of_In|done]. }
  split; [intros name Ho; by apply Hv, Hup|intros Hver Ho; by apply Hl, Hup].
Qed.

Lemma leaf_fact_reads version c facts facts' now :
  nonempty (c_FieldName c) = true → same_reads version c facts facts' →
  leaf_fact version c facts now = leaf_fact version c facts' now.
Proof.
  intros Hne [Hv Hl]. assert (Ho : occurs (c_FieldName c) c = true).
  { destruct c; cbn in *. rewrite Hne. by rewrite bool_decide_true. }
  unfold leaf_fact. cbn zeta. case_bool_decide as Hf; cbn [andb]; [|by rewrite (Hv _ Ho)].
  destruct (Z.eqb_spec version 1); [|by rewrite (Hv _ Ho)]. rewrite Hl; [done|done|]. by rewrite <-Hf.
Qed.

Lemma evaluateTruth_reads registry limits c facts facts' now :
  accepted registry limits c → same_reads 2 c facts facts' → evaluateTruth c facts now = evaluateTruth c facts' now.
Proof.
  induction c as [c IH] using Condition_ind. inversion 1 as [? Hg Hm Hne Hch|? Hg Hnil Hf Hl]; subst; intros Hr.
  - rewrite !evaluateTruth_group by done.
    assert (Hsame : Forall (λ child, evaluateTruth child facts now = evaluateTruth child facts' now) (c_Children c)).
    { rewrite Forall_forall in IH, Hch |- *. intros child Hin. apply (IH _ Hin); [by apply Hch|by eapply same_reads_child]. }
    clear - Hsame. generalize false as u. induction Hsame as [|child l Heq _ IH]; intros u; cbn; [done|].
    rewrite Heq. destruct (evaluateTruth child facts' now) as [e|[matched []]]; by rewrite ?IH.
  - pose proof (leaf_fact_reads 2 c facts facts' now Hf Hr) as Hfact.
    assert (Hv : value_of facts (c_FieldName c) = value_of facts' (c_FieldName c)).
    { apply Hr. destruct c; cbn in *. rewrite Hf. by rewrite bool_decide_true. }
    destruct c as [v m ch f op x xs age neg]. cbn [evaluateTruth]. rewrite Hg. cbn [negb c_FieldName] in *. rewrite Hv.
    unfold evaluateLeaf. by rewrite Hfact.
Qed.

Lemma evaluate_legacy_reads registry limits c facts facts' now :
  accepted registry limits c → same_reads 1 c facts facts' → evaluate_legacy c facts now = evaluate_legacy c facts' now.
Proof.
  induction c as [c IH] using Condition_ind. inversion 1 as [? Hg Hm Hne Hch|? Hg Hnil Hf Hl]; subst; intros Hr.
  - rewrite !evaluate_legacy_group by done.
    assert (Hsame : Forall (λ child, evaluate_legacy child facts now = evaluate_legacy child facts' now) (c_Children c)).
    { rewrite Forall_forall in IH, Hch |- *. intros child Hin. apply (IH _ Hin); [by apply Hch|by eapply same_reads_child]. }
    assert (Hall : ∀ l, Forall (λ child, evaluate_legacy child facts now = evaluate_legacy child facts' now) l →
      all_loop (λ child, evaluate_legacy child facts now) l = all_loop (λ child, evaluate_legacy child facts' now) l ∧
      any_loop (λ child, evaluate_legacy child facts now) l = any_loop (λ child, evaluate_legacy child facts' now) l).
    { induction 1 as [|child l Heq _ [IHa IHb]]; cbn; [done|]. by rewrite Heq, IHa, IHb. }
    destruct (Hall _ Hsame) as [Ha Hb]. cbn zeta. by rewrite Ha, Hb.
  - pose proof (leaf_fact_reads 1 c facts facts' now Hf Hr) as Hfact.
    destruct c as [v m ch f op x xs age neg]. cbn [evaluate_legacy]. rewrite Hg. unfold evaluateLeaf. by rewrite Hfact.
Qed.

(** A rule that validation accepts never fails to evaluate on well-typed facts,
    and its answer is its three-valued reading (its two-valued one for a rule of
    region version 1): the short-circuits, the order of the children and the
    bookkeeping of unknown children do not show. *)
Lemma Evaluate_reading registry limits c facts now :
  registry_wf registry → well_typed registry facts → Validate registry limits c = inr () →
  Evaluate c facts now = inr (reading c facts now).
Proof.
  intros Hwf Ht Hv. unfold Evaluate, reading. destruct (Validate_accepted _ _ _ Hv) as [He|[Ha _]].
  - by rewrite He.
  - destruct (IsEmpty c); [done|]. destruct (c_RegionVersion c =? 1); cbn [negb].
    + by eapply evaluate_legacy_reading.
    + rewrite (evaluateTruth_reading registry limits c facts now Hwf Ht Ha). by destruct (truth c facts now) as [[]|].
Qed.
(** ** The properties *)

(** C16: What a rule of the current region reading admits rests on measured facts. The
    rule is accepted by validation, the facts have the kinds of their fields. Then a rule
    that admits a node has the value true in the three-valued reading, where a comparison
    of a fact that is missing or too old is unknown and negation keeps it unknown. If the
    rule does not ask whether a fact is known ([is_known], [is_unknown]), it still admits
    the node when any further facts are measured and at any earlier instant: a missing or
    expired measurement can withdraw a match and never make one. *)
Theorem admission_rests_on_measurements registry limits c facts now :
  registry_wf registry → well_typed registry facts →
  Validate registry limits c = inr () → c_RegionVersion c ≠ 1 →
  Evaluate c facts now = inr true →
  truth c facts now = Some true ∧
  (∀ facts' now', measured_only c = true → well_typed registry facts' → evidence_le facts facts' → now' ≤ now →
     truth c facts' now' = Some true ∧ Evaluate c facts' now' = inr true).
Proof.
  intros Hwf Ht Hv Hver. destruct (Validate_accepted _ _ _ Hv) as [Hem|[Ha _]].
  { unfold Evaluate. by rewrite Hem. }
  unfold Evaluate. destruct (IsEmpty c); [done|]. rewrite (proj2 (Z.eqb_neq _ _) Hver). cbn [negb].
  rewrite (evaluateTruth_reading registry limits c facts now Hwf Ht Ha). intros Htrue.
  assert (truth c facts now = Some true) as Hc by (by destruct (truth c facts now) as [[]|]).
  split; [done|]. intros facts' now' Hm Ht' He Hle.
  rewrite (evaluateTruth_reading registry limits c facts' now' Hwf Ht' Ha).
  destruct (truth_mono c facts facts' now now' He Hle Hm) as [Hn|Heq]; [congruence|]. by rewrite <-Heq, Hc.
Qed.

(** The answer of an accepted rule depends on the facts named by
    [ReferencedFields] only, which a preview shows — with one exception: a rule of
    region version 1 that names [node.region] reads the older form of the region. *)
Theorem rules_read_the_referenced_fields registry limits c facts facts' now :
  Validate registry limits c = inr () →
  (∀ name, name ∈ ReferencedFields c → value_of facts name = value_of facts' name) →
  (c_RegionVersion c = 1 → FieldNodeRegion ∈ ReferencedFields c →
   value_of facts fieldNodeRegionLegacy = value_of facts' fieldNodeRegionLegacy) →
  Evaluate c facts now = Evaluate c facts' now.
Proof.
  intros Hv Hr Hl. destruct (Validate_accepted _ _ _ Hv) as [He|[Ha _]]; unfold Evaluate; [by rewrite He|].
  destruct (IsEmpty c); [done|]. destruct (Z.eqb_spec (c_RegionVersion c) 1) as [Hver|Hver]; cbn [negb].
  - apply (evaluate_legacy_reads registry limits); [done|]. split; [|intros _]; setoid_rewrite <-elem_of_ReferencedFields; eauto.
  - rewrite (evaluateTruth_reads registry limits c facts facts' now Ha); [done|].
    split; [|done]. intros name Ho. by apply Hr, elem_of_ReferencedFields.
Qed.
End evidence.

(** ** Concrete rules *)
Module Samples.
#[export] Instance platform : Platform := λ _, 0.
#[export] Instance rule_libraries : RuleLibraries := {|
  json_Marshal_length := λ _, Some 200;
  json_Unmarshal_rule := λ _, None;
  json_MarshalCanonical_rule := λ _, None;
  Regexp := string;
  regexp_Compile := Some;
  MatchString := λ expression s, containsFoldText s expression
|}.
#[export] Instance regions : RegionLibrary :=
  [mkRegion "HK" true "Hong Kong SAR China" "" ""; mkRegion "JP" true "Japan" "" ""].

Definition leaf (field : string) (op : Operator) (value : Any) : Condition :=
  mkCondition 0 "" [] field op value [] 0 false.
Definition fresh (c : Condition) (seconds : Z) : Condition :=
  mkCondition (c_RegionVersion c) (c_Match c) (c_Children c) (c_FieldName c) (c_Op c) (c_Value c) (c_Values c) seconds (c_Negate c).
Definition group (m : string) (children : list Condition) : Condition :=
  mkCondition 0 m children "" "" AnyNil [] 0 false.
Definition versioned (v : Z) (c : Condition) : Condition :=
  mkCondition v (c_Match c) (c_Children c) (c_FieldName c) (c_Op c) (c_Value c) (c_Values c) (c_MaxAgeSeconds c) (c_Negate c).

Definition now : Z := GoTime.ofUnix 1760000000.
Definition registry : Registry := DefaultRegistry [].

(** Fast in the last hour, or not in Japan. *)
Definition rule : Condition :=
  group MatchAny [fresh (leaf FieldLatencyMs OpLte (AnyInt 300)) 3600;
                  group MatchNone [leaf FieldNodeRegion OpEq (AnyString "japan")]].

Definition measured (l : list (string * Value)) : NodeFacts := mkNodeFacts 1 "node" "" (list_to_map l).
Definition fast : string * Value := (FieldLatencyMs, IntValue (KnownAt 120 (now - GoTime.second))).
Definition in_japan : string * Value := (FieldNodeRegion, EnumValue (Known "jp")).

Lemma registry_is_wf : registry_wf registry.
Proof.
  intros name f Hf.
  assert (Hall : Forall (λ nf, fd_Operators nf.2 = OperatorsForKind (fd_Kind nf.2)) (map_to_list (rg_fields registry))).
  { apply (bool_decide_unpack _). vm_compute. exact I. }
  rewrite Forall_forall in Hall. by apply (Hall (name, f)), elem_of_map_to_list.
Qed.

(** Decided field by field. *)
Definition well_typed_check (r : Registry) (facts : NodeFacts) : bool :=
  forallb (λ kv, negb (v_Known kv.2) ||
    (match field_of r kv.1 with Some f => bool_decide (v_Kind kv.2 = fd_Kind f) | None => true end &&
     (negb (bool_decide (kv.1 = fieldNodeRegionLegacy)) ||
      match field_of r FieldNodeRegion with Some f => bool_decide (v_Kind kv.2 = fd_Kind f) | None => true end)))
    (map_to_list (nf_Values facts)).

Lemma well_typed_checked r facts : well_typed_check r facts = true → well_typed r facts.
Proof.
  intros Hc name f key v Hf Hkey Hv Hk. unfold well_typed_check in Hc. rewrite forallb_forall in Hc.
  specialize (Hc (key, v)). rewrite <-list_elem_of_In, elem_of_map_to_list in Hc. specialize (Hc Hv).
  cbn [fst snd] in Hc. rewrite Hk in Hc. cbn [negb orb] in Hc. apply andb_prop in Hc as [H1 H2].
  destruct Hkey as [->|[-> ->]].
  - rewrite Hf in H1. by apply bool_decide_eq_true in H1.
  - rewrite Hf in H2. rewrite bool_decide_true in H2 by done. by apply bool_decide_eq_true in H2.
Qed.
End Samples.
Import Samples.

Lemma admission_witness :
  truth rule (measured [fast]) (now + GoTime.second) = Some true ∧ Evaluate rule (measured [fast; in_japan]) now = inr true.
Proof.
  destruct (admission_rests_on_measurements registry DefaultLimits rule (measured [fast]) (now + GoTime.second))
    as [Htruth Hmore].
  - apply registry_is_wf.
  - by apply well_typed_checked.
  - reflexivity.
  - discriminate.
  - reflexivity.
  - split; [exact Htruth|]. apply Hmore; [reflexivity|by apply well_typed_checked| |by vm_compute].
    intros key v Hv _. cbn in Hv. apply lookup_insert_Some in Hv as [[<- <-]|[_ Hv]]; [reflexivity|done].
Defined.

Lemma referenced_witness :
  Evaluate rule (measured [fast; in_japan]) now = Evaluate rule (measured [fast; in_japan; (FieldNodePort, IntValue (Known 80))]) now.
Proof.
  apply (rules_read_the_referenced_fields registry DefaultLimits rule); [reflexivity| |discriminate].
  intros name Hn. assert (name = FieldLatencyMs ∨ name = FieldNodeRegion) as [-> | ->]; [|reflexivity|reflexivity].
  vm_compute in Hn. set_solver.
Defined.

(** A freshness window is multiplied into an [int64] of nanoseconds, which
    validation does not bound: a window of 584 years wraps around to 0.29 seconds
    and expires a latency measured a second ago, and one of 292 years is negative
    and never expires anything; an hour keeps the measurement. *)
Theorem long_windows_wrap_around :
  let c := leaf FieldLatencyMs OpLte (AnyInt 300) in
  (∀ seconds, seconds ∈ [3600; 9223372037; 18446744074] → Validate registry DefaultLimits (fresh c seconds) = inr ()) ∧
  Evaluate (fresh c 3600) (measured [fast]) now = inr true ∧
  Evaluate (fresh c 18446744074) (measured [fast]) now = inr false ∧
  Evaluate (fresh c 9223372037) (measured [fast]) (now + 9223372037 * GoTime.second) = inr true.
Proof.
  intros c. split_and!; try reflexivity.
  intros seconds Hs. repeat (apply elem_of_cons in Hs as [->|Hs]; [reflexivity|]). by apply not_elem_of_nil in Hs.
Qed.

(** A rule of region version 1 decides on a fact its preview does not show: both
    nodes show the same facts. *)
Lemma legacy_rules_read_a_hidden_fact :
  let c := versioned 1 (leaf FieldNodeRegion OpEq (AnyString "other")) in
  let unclassified := measured [(fieldNodeRegionLegacy, EnumValue (Known "other"))] in
  let unusual := measured [(fieldNodeRegionLegacy, EnumValue (Known "xx"))] in
  Validate registry DefaultLimits c = inr () ∧
  (λ name, Display (value_of unclassified name)) <$> ReferencedFields c = (λ name, Display (value_of unusual name)) <$> ReferencedFields c ∧
  Evaluate c unclassified now = inr true ∧ Evaluate c unusual now = inr false.
Proof. split_and!; vm_compute; reflexivity. Qed.
