(* ===== verification/RuleBounds.v ===== *)
(** Which rules validation accepts: the conditions a rule must meet, spelled out without
    the order of the checks and the running count, and the proof that [Validate] accepts
    these rules and no others. *)
From S2P Require Import Prelude Text Floats NodeRegion NodeFacts NodeRules RuleSoundness.

#[local] Open Scope Z_scope.

(** A limit that is not positive is no limit. *)
Definition within (limit n : Z) : Prop := 0 < limit → n ≤ limit.

Section bounds.
Context `{!Platform, !RuleLibraries}.
Variables (registry : Registry) (limits : Limits).

(** The operand reads as a value of the field's kind; a pattern applies to text. *)
Definition operand_fits (f : Field) (op : Operator) (o : Any) : Prop :=
  match fd_Kind f with
  | KindInt => is_Some (operandInt o)
  | KindBool => is_Some (operandBool o)
  | _ => is_Some (operandString o)
  end ∧ (op = OpRegex → fd_Kind f ∈ [KindString; KindEnum; KindSet]).

(** As many operands as the operator takes, in the place for them. *)
Definition operands_fit (c : Condition) (f : Field) (arity : Arity) : Prop :=
  match arity with
  | ArityNone => c_Value c = AnyNil ∧ c_Values c = []
  | ArityOne => c_Value c ≠ AnyNil ∧ c_Values c = [] ∧ operand_fits f (c_Op c) (c_Value c)
  | ArityTwo => length (c_Values c) = 2%nat ∧ Forall (operand_fits f (c_Op c)) (c_Values c)
  | ArityMany =>
    c_Values c ≠ [] ∧ within (MaxValueItems limits) (Z.of_nat (length (c_Values c))) ∧
    Forall (operand_fits f (c_Op c)) (c_Values c)
  end.

Definition pattern_fits (o : Any) : Prop :=
  ∃ pattern e, operandString o = Some pattern ∧ within (MaxRegexLength limits) (rune_count 0 pattern) ∧
    regexp_Compile pattern = Some e.

(** A comparison of a known field by one of its operators, with operands that fit. *)
Definition comparison_fits (c : Condition) : Prop :=
  ∃ f arity, field_of registry (c_FieldName c) = Some f ∧ OperatorArity (c_Op c) = Some arity ∧
    c_Op c ∈ fd_Operators f ∧ 0 ≤ c_MaxAgeSeconds c ∧ (0 < c_MaxAgeSeconds c → fd_SupportsMaxAge f = true) ∧
    operands_fit c f arity ∧ (c_Op c = OpRegex → pattern_fits (c_Value c)).

(** A group says how it combines, compares nothing itself and combines something; any
    other condition is a comparison. *)
Inductive well_formed : Condition → Prop :=
| wf_group c : c_Match c ∈ [MatchAll; MatchAny; MatchNone] → c_FieldName c = "" → c_Op c = "" → c_Children c ≠ [] →
    Forall well_formed (c_Children c) → well_formed c
| wf_comparison c : c_Match c = "" → c_FieldName c ≠ "" → c_Children c = [] → comparison_fits c → well_formed c.

(** ** Check by check *)
Lemma above_within limit n : above limit n = false ↔ within limit n.
Proof.
  unfold above, within. rewrite andb_false_iff, !Z.ltb_ge. split; [lia|].
  intros Hw. destruct (Z_lt_dec 0 limit) as [Hl|]; [right; by apply Hw|left; lia].
Qed.

Lemma nonempty_iff s : nonempty s = true ↔ s ≠ "".
Proof. unfold nonempty. by rewrite negb_true_iff, bool_decide_eq_false. Qed.
Lemma nonempty_not s : nonempty s = false ↔ s = "".
Proof. unfold nonempty. by rewrite negb_false_iff, bool_decide_eq_true. Qed.

(** A check that passes is followed by the rest of the checks. *)
Lemma guarded_iff {E A} (b : bool) (e : E) (rest : E + A) (a : A) :
  (if b then inl e else rest) = inr a ↔ b = false ∧ rest = inr a.
Proof. destruct b; naive_solver. Qed.
Lemma sequel_iff {E A} (first : E + unit) (rest : E + A) (a : A) :
  (match first with inl e => inl e | inr _ => rest end) = inr a ↔ first = inr () ∧ rest = inr a.
Proof. destruct first as [|[]]; naive_solver. Qed.

Lemma validateOperand_iff f op o : validateOperand f op o = inr () ↔ operand_fits f op o.
Proof.
  unfold validateOperand, operand_fits. rewrite !guarded_iff, negb_false_iff, andb_false_iff, negb_false_iff.
  unfold is_op. rewrite bool_decide_eq_false, bool_decide_eq_true.
  assert (∀ P : Prop, (op ≠ OpRegex ∨ P) ↔ (op = OpRegex → P)) as Himp.
  { intros P. destruct (decide (op = OpRegex)); naive_solver. }
  rewrite Himp. destruct (fd_Kind f); rewrite bool_decide_eq_true; naive_solver.
Qed.

Lemma validateOperands_iff f op l : validateOperands f op l = inr () ↔ Forall (operand_fits f op) l.
Proof.
  induction l as [|o l IH]; cbn [validateOperands]; [split; [constructor|done]|].
  by rewrite sequel_iff, validateOperand_iff, IH, Forall_cons.
Qed.

Lemma validateArity_iff c f arity : validateArity limits c f arity = inr () ↔ operands_fit c f arity.
Proof.
  assert ((0 <? length (c_Values c))%nat = false ↔ c_Values c = []) as Hnone by (destruct (c_Values c); cbn; naive_solver).
  unfold validateArity, operands_fit. cbn zeta. destruct arity.
  - by rewrite !guarded_iff, bool_decide_eq_false, Hnone, validateOperand_iff.
  - rewrite !guarded_iff, above_within, validateOperands_iff. destruct (c_Values c); naive_solver.
  - by rewrite guarded_iff, negb_false_iff, Nat.eqb_eq, validateOperands_iff.
  - rewrite guarded_iff, orb_false_iff, negb_false_iff, bool_decide_eq_true, Hnone. naive_solver.
Qed.

Lemma validateRegex_iff o : validateRegex limits o = inr () ↔ pattern_fits o.
Proof.
  unfold validateRegex, pattern_fits. destruct (operandString o) as [pattern|]; [|naive_solver].
  rewrite guarded_iff, above_within. destruct (regexp_Compile pattern) eqn:He; naive_solver.
Qed.

Lemma validateLeaf_iff c : validateLeaf registry limits c = inr () ↔ comparison_fits c.
Proof.
  unfold validateLeaf, comparison_fits. destruct (field_of registry _) as [f|]; [|naive_solver].
  destruct (OperatorArity _) as [arity|]; [|naive_solver].
  rewrite !guarded_iff, sequel_iff, validateArity_iff, negb_false_iff, andb_false_iff, negb_false_iff, !Z.ltb_ge.
  unfold SupportsOperator. rewrite bool_decide_eq_true.
  assert ((if is_op (c_Op c) OpRegex then validateRegex limits (c_Value c) else inr ()) = inr () ↔
          (c_Op c = OpRegex → pattern_fits (c_Value c))) as ->.
  { unfold is_op. case_bool_decide; rewrite ?validateRegex_iff; naive_solver. }
  assert ((c_MaxAgeSeconds c ≤ 0 ∨ fd_SupportsMaxAge f = true) ↔ (0 < c_MaxAgeSeconds c → fd_SupportsMaxAge f = true)) as ->.
  { destruct (Z_lt_dec 0 (c_MaxAgeSeconds c)); naive_solver lia. }
  naive_solver.
Qed.

(** ** The walk over a rule *)
Lemma conditions_pos c : 1 ≤ conditions c.
Proof. destruct c as [v m ch f op x xs age neg]. cbn. pose proof (foldr_conditions_nonneg ch). lia. Qed.
Lemma rule_depth_pos c : 1 ≤ rule_depth c.
Proof.
  destruct c as [v m ch f op x xs age neg]. cbn. enough (0 ≤ foldr (λ child n, Z.max (rule_depth child) n) 0 ch) by lia.
  induction ch; cbn; lia.
Qed.

Lemma loop_children_counts g l index count :
  (∀ child n, child ∈ l → n + conditions child ≤ count + foldr (λ child n, conditions child + n) 0 l →
     g child n = inr (n + conditions child)) →
  loop_children g l index count = inr (count + foldr (λ child n, conditions child + n) 0 l).
Proof.
  revert index count. induction l as [|child l IH]; intros index count Hg; cbn [loop_children foldr]; [f_equal; lia|].
  pose proof (foldr_conditions_nonneg l). rewrite Hg; [|by left|cbn; lia].
  rewrite IH; [f_equal; lia|]. intros child' n Hin Hle. apply Hg; [by right|]. cbn. lia.
Qed.

Lemma well_formed_validates c : ∀ depth count,
  well_formed c → within (MaxConditions limits) (count + conditions c) →
  within (MaxDepth limits) (depth + rule_depth c - 1) →
  validate registry limits c depth count = inr (count + conditions c).
Proof.
  induction c as [c IH] using Condition_ind. intros depth count Hwf Hc Hd.
  pose proof (conditions_pos c). pose proof (rule_depth_pos c).
  assert (above (MaxDepth limits) depth = false) as Hd0 by (apply above_within; intros Hp; specialize (Hd Hp); lia).
  assert (above (MaxConditions limits) (count + 1) = false) as Hc0 by (apply above_within; intros Hp; specialize (Hc Hp); lia).
  inversion Hwf as [? Hm Hf Ho Hne Hch|? Hm Hf Hch Hcmp]; subst.
  - assert (IsGroup c = true) as Hg by (apply nonempty_iff; intros Hz; rewrite Hz in Hm; by vm_compute in Hm; set_solver).
    rewrite (validate_group _ _ c depth count Hg), Hd0, Hc0. unfold known_match.
    rewrite bool_decide_true, Hf, Ho by done. cbn [negb orb nonempty].
    destruct (length (c_Children c) =? 0)%nat eqn:Hlen; [apply Nat.eqb_eq, nil_length_inv in Hlen; done|].
    destruct c as [v m ch f op x xs age neg]. cbn [c_Children conditions rule_depth] in *.
    rewrite loop_children_counts; [f_equal; lia|]. intros child n Hin Hle.
    rewrite Forall_forall in IH, Hch. apply (IH _ Hin); [by apply Hch| |].
    + intros Hp. specialize (Hc Hp). lia.
    + intros Hp. specialize (Hd Hp). enough (rule_depth child ≤ foldr (λ child n, Z.max (rule_depth child) n) 0 ch) by lia.
      clear - Hin. induction Hin; cbn; lia.
  - destruct c as [v m ch f op x xs age neg]. cbn [c_Match c_FieldName c_Children] in *. subst m ch.
    apply validateLeaf_iff in Hcmp. apply nonempty_iff in Hf. cbn [validate IsGroup c_Match c_FieldName c_Children]. rewrite Hd0, Hc0, Hf. cbn. by rewrite Hcmp.
Qed.

Lemma validated_well_formed c : ∀ depth count count',
  validate registry limits c depth count = inr count' → well_formed c.
Proof.
  induction c as [c IH] using Condition_ind. intros depth count count' Hv.
  destruct (IsGroup c) eqn:Hg.
  - rewrite (validate_group _ _ c depth count Hg), !guarded_iff in Hv.
    destruct Hv as (_ & _ & Hm & Hfo & Hlen & Hv). apply negb_false_iff, bool_decide_eq_true in Hm.
    apply orb_false_iff in Hfo as [Hf%nonempty_not Ho%nonempty_not].
    apply wf_group; try done; [by intros Hn; rewrite Hn in Hlen|]. clear - IH Hv. revert Hv. generalize (count + 1) 0.
    induction IH as [|child l Hc _ IHl]; intros n i Hv; cbn [loop_children] in Hv; [constructor|].
    destruct (validate _ _ child _ _) as [|n'] eqn:E; [done|]. constructor; [by eapply Hc|by eapply IHl].
  - destruct c as [v m ch f op x xs age neg]. cbn [validate] in Hv. rewrite Hg in Hv.
    rewrite !guarded_iff in Hv. destruct Hv as (_ & _ & Hf & Hch & Hv). apply sequel_iff in Hv as [Hl _].
    apply wf_comparison; [by apply nonempty_not in Hg| | |by apply validateLeaf_iff].
    + apply nonempty_iff. by apply negb_false_iff in Hf.
    + by destruct ch.
Qed.

(** C37: Validation accepts the empty rule and the rules that are within all of the
    bounds, and no other rule: the encoding within [MaxRuleBytes], at most
    [MaxConditions] conditions nested at most [MaxDepth] deep, every group combining
    something in a known way, and every comparison naming a known field, an operator
    that field has, an age only where ages are recorded, as many operands as the operator
    takes (at most [MaxValueItems]), each of the field's kind, and a pattern that compiles
    and is no longer than [MaxRegexLength]. *)
Theorem accepted_rules_are_bounded c :
  Validate registry limits c = inr () ↔
  0 ≤ c_RegionVersion c ≤ 2 ∧
  (IsEmpty c = true ∨
   (0 < MaxRuleBytes limits → ∃ n, json_Marshal_length c = Some n ∧ n ≤ MaxRuleBytes limits) ∧
   within (MaxConditions limits) (conditions c) ∧ within (MaxDepth limits) (rule_depth c) ∧ well_formed c).
Proof.
  unfold Validate. rewrite guarded_iff, orb_false_iff, !Z.ltb_ge. f_equiv.
  destruct (IsEmpty c); [naive_solver|]. rewrite sequel_iff.
  assert ((if 0 <? MaxRuleBytes limits then
             match json_Marshal_length c with
             | None => inl MarshalFailed
             | Some n => if MaxRuleBytes limits <? n then inl (RuleTooLarge n (MaxRuleBytes limits)) else inr ()
             end
           else inr ()) = inr () ↔
          (0 < MaxRuleBytes limits → ∃ n, json_Marshal_length c = Some n ∧ n ≤ MaxRuleBytes limits)) as ->.
  { destruct (Z.ltb_spec 0 (MaxRuleBytes limits)); [|naive_solver lia].
    destruct (json_Marshal_length c) as [n|]; [|naive_solver]. rewrite guarded_iff, Z.ltb_ge. naive_solver. }
  split.
  - intros [Hs Hv]. right. split; [done|]. destruct (validate _ _ _ _ _) as [|n] eqn:E; [done|].
    pose proof (validated_well_formed _ _ _ _ E). apply validate_accepted in E as (_ & -> & Hc & Hd).
    split_and!; [|..|done]; intros Hp; [specialize (Hc Hp)|specialize (Hd Hp)]; lia.
  - intros [|(Hs & Hc & Hd & Hwf)]; [done|]. split; [done|].
    rewrite well_formed_validates; [done|done|..]; intros Hp; [specialize (Hc Hp)|specialize (Hd Hp)]; lia.
Qed.
End bounds.
