(* ===== verification/FactLoader.v ===== *)
(** The loader of facts ([internal/nodefacts/loader.go], [diagnostic.go]): stored rows
    become the fact set of each node. What a rule accepted against the default
    registry reads from loaded facts has the kind its field declares, so that no
    stored rule ever fails on a stored node.

    The rows carry the columns the loader reads. A loop over a Go map literal visits
    its entries in an arbitrary order ([RangeOrder]); the decoder of the extended
    unlock report is a parameter. *)
From S2P Require Import Prelude Text Floats NodeRegion NodeFacts NodeRules RuleSoundness.

#[local] Open Scope Z_scope.

Definition detectionStatusSuccess : string := "success".
Definition unlockStatusUnlocked : string := "unlocked".

(** ** Stored rows *)
Record NodeRow := mkNodeRow {
  nr_ID : Z; nr_URI : string; nr_Name : string; nr_Source : string; nr_Port : Z;
  nr_Region : string; nr_Country : string; nr_Enabled : bool
}.
Record NodeStats := mkStats {
  ns_FailureCount : Z; ns_SuccessCount : Z; ns_Blacklisted : bool; ns_LastLatencyMs : Z;
  ns_Available : bool; ns_InitialCheckDone : bool; ns_UpdatedAt : Z
}.
Record DetectionResult := mkDetection {
  dr_LatencyStatus : string; dr_LatencyMs : option Z; dr_LatencyCheckedAt : Z;
  dr_SpeedStatus : string; dr_Average : option Z; dr_Peak : option Z; dr_SpeedCheckedAt : Z;
  dr_ExitIPFamily : string; dr_ExitCountryCode : string; dr_ExitIPStatus : string; dr_ExitIPCheckedAt : Z
}.
Record UnlockService := mkService { us_Name : string; us_Status : string; us_Region : string; us_Detail : string }.
Record UnlockResult := mkUnlock {
  ur_IP : string; ur_Pure : bool; ur_Services : list UnlockService; ur_Error : string; ur_CheckedAt : Z; ur_ResultJSON : string
}.
Record QualityResult := mkQuality {
  qr_Provider : string; qr_Status : string; qr_FraudScore : option Z; qr_IsResidential : option bool; qr_Proxy : option bool;
  qr_Hosting : option bool; qr_Mobile : option bool; qr_IsBroadcast : option bool;
  qr_ASN : string; qr_Org : string; qr_ISP : string; qr_CountryCode : string; qr_CheckedAt : Z
}.

(** The part of the stored report that has no column of its own. *)
Record unlockPayload := mkPayload {
  pl_ASN : string; pl_Org : string; pl_IPType : string; pl_UsageType : string; pl_RiskLevel : string; pl_FraudScore : option Z
}.
Definition empty_payload : unlockPayload := mkPayload "" "" "" "" "" None.
Class LoaderLibraries := json_Unmarshal_payload : string → option unlockPayload.

(** ** Facts of one node *)
Definition knownText (value : string) : Fact string := if decide (TrimSpace value = "") then Unknown "" else Known value.
Definition knownTextAt (value : string) (checkedAt : Z) : Fact string :=
  if decide (TrimSpace value = "") then Unknown "" else KnownAt value checkedAt.
Definition nullableBool (value : option bool) (checkedAt : Z) : Fact bool :=
  match value with Some b => KnownAt b checkedAt | None => Unknown false end.

Definition uriProtocol (uri : string) : string :=
  match find_sub "://" uri with Some (scheme, _) => toLower (TrimSpace scheme) | None => "" end.

Definition facts_map : Type := gmap string Value.

Definition applyNodeFields `{!RegionLibrary} (node : NodeRow) (m : facts_map) : facts_map :=
  let m := set_fact FieldNodeName (StringValue (Known (nr_Name node))) m in
  let m := set_fact FieldNodeRegion (EnumValue (knownText (Normalize (nr_Region node)))) m in
  let m := set_fact fieldNodeRegionLegacy (EnumValue (Known (Legacy (nr_Region node)))) m in
  let m := set_fact FieldNodeCountry (StringValue (knownText (nr_Country node))) m in
  let m := set_fact FieldNodeProtocol (EnumValue (knownText (uriProtocol (nr_URI node)))) m in
  let m := set_fact FieldNodeSource (EnumValue (knownText (nr_Source node))) m in
  let m := set_fact FieldNodeEnabled (BoolValue (Known (nr_Enabled node))) m in
  set_fact FieldNodePort (IntValue (if 0 <? nr_Port node then Known (nr_Port node) else Unknown 0)) m.

Definition applySourceFields (subscriptionIDs : list Z) (subscriptionNames : gmap Z string) (manualTags : list string)
    (m : facts_map) : facts_map :=
  let ids := Itoa <$> subscriptionIDs in
  let names := filter (λ name, name ≠ "") ((λ id, default "" (subscriptionNames !! id)) <$> subscriptionIDs) in
  let m := set_fact FieldSubscriptionIDs (SetValue (Known (merge_sort String.le ids))) m in
  let m := set_fact FieldSubscriptionNames (SetValue (Known (merge_sort String.le names))) m in
  set_fact FieldManualTags (SetValue (Known manualTags)) m.

Definition applyStatsFields (stats : option NodeStats) (m : facts_map) : facts_map :=
  match stats with
  | None =>
    let m := set_fact FieldAvailable (BoolValue (Unknown false)) m in
    let m := set_fact FieldBlacklisted (BoolValue (Unknown false)) m in
    let m := set_fact FieldFailureCount (IntValue (Unknown 0)) m in
    set_fact FieldSuccessCount (IntValue (Unknown 0)) m
  | Some s =>
    let m := set_fact FieldAvailable
               (BoolValue (if ns_InitialCheckDone s then KnownAt (ns_Available s) (ns_UpdatedAt s) else Unknown false)) m in
    let m := set_fact FieldBlacklisted (BoolValue (Known (ns_Blacklisted s))) m in
    let m := set_fact FieldFailureCount (IntValue (Known (ns_FailureCount s))) m in
    set_fact FieldSuccessCount (IntValue (Known (ns_SuccessCount s))) m
  end.

Definition stats_latency (stats : option NodeStats) : Fact Z :=
  match stats with
  | Some s => if 0 <=? ns_LastLatencyMs s then KnownAt (ns_LastLatencyMs s) (ns_UpdatedAt s) else Unknown 0
  | None => Unknown 0
  end.
Definition latency_fact (detection : option DetectionResult) (stats : option NodeStats) : Fact Z :=
  match detection with
  | Some d =>
    match dr_LatencyMs d with
    | Some ms => if decide (dr_LatencyStatus d = detectionStatusSuccess) then KnownAt ms (dr_LatencyCheckedAt d) else stats_latency stats
    | None => stats_latency stats
    end
  | None => stats_latency stats
  end.

(** A measurement of a stage that succeeded. *)
Definition stage_int (status : string) (value : option Z) (checkedAt : Z) : Fact Z :=
  match value with
  | Some n => if decide (status = detectionStatusSuccess) then KnownAt n checkedAt else Unknown 0
  | None => Unknown 0
  end.
Definition stage_text (status value : string) (checkedAt : Z) : Fact string :=
  if decide (status = detectionStatusSuccess) then knownTextAt value checkedAt else Unknown "".

Definition applyDetectionFields (detection : option DetectionResult) (stats : option NodeStats) (m : facts_map) : facts_map :=
  let m := set_fact FieldLatencyMs (IntValue (latency_fact detection stats)) m in
  let '(speed, peak, country, family) :=
    match detection with
    | Some d => (stage_int (dr_SpeedStatus d) (dr_Average d) (dr_SpeedCheckedAt d),
                 stage_int (dr_SpeedStatus d) (dr_Peak d) (dr_SpeedCheckedAt d),
                 stage_text (dr_ExitIPStatus d) (dr_ExitCountryCode d) (dr_ExitIPCheckedAt d),
                 stage_text (dr_ExitIPStatus d) (dr_ExitIPFamily d) (dr_ExitIPCheckedAt d))
    | None => (Unknown 0, Unknown 0, Unknown "", Unknown "")
    end in
  let m := set_fact FieldSpeedBps (IntValue speed) m in
  let m := set_fact FieldSpeedPeakBps (IntValue peak) m in
  let m := set_fact FieldExitCountryCode (EnumValue country) m in
  set_fact FieldExitIPFamily (EnumValue family) m.

(** *** The unlock report *)
Definition payload_of `{!LoaderLibraries} (result : UnlockResult) : unlockPayload :=
  if decide (ur_ResultJSON result = "") then empty_payload else default empty_payload (json_Unmarshal_payload (ur_ResultJSON result)).

Definition service_provider (s : UnlockService) : string := toLower (TrimSpace (us_Name s)).

(** The loop over the services, with the providers found unlocked. *)
Definition service_step (checkedAt : Z) (acc : facts_map * list string) (s : UnlockService) : facts_map * list string :=
  let '(m, unlocked) := acc in
  let provider := service_provider s in
  if decide (provider = "") then acc
  else
    let m := set_fact (UnlockField provider "status") (EnumValue (knownTextAt (us_Status s) checkedAt)) m in
    let m := set_fact (UnlockField provider "region") (StringValue (knownTextAt (us_Region s) checkedAt)) m in
    let m := set_fact (UnlockField provider "detail") (StringValue (knownTextAt (us_Detail s) checkedAt)) m in
    (m, if EqualFold (us_Status s) unlockStatusUnlocked then unlocked ++ [provider] else unlocked).

Definition applyUnlockFields `{!LoaderLibraries} (result : option UnlockResult) (m : facts_map) : facts_map :=
  match result with
  | None => m
  | Some r =>
    let at_ := ur_CheckedAt r in
    let m := if decide (ur_IP r = "") then m else set_fact FieldUnlockIPPure (BoolValue (KnownAt (ur_Pure r) at_)) m in
    let p := payload_of r in
    let m := set_fact FieldUnlockIPRiskLevel (EnumValue (knownTextAt (pl_RiskLevel p) at_)) m in
    let m := set_fact FieldUnlockIPType (StringValue (knownTextAt (pl_IPType p) at_)) m in
    let m := set_fact FieldUnlockIPUsageType (StringValue (knownTextAt (pl_UsageType p) at_)) m in
    let m := set_fact FieldUnlockIPASN (StringValue (knownTextAt (pl_ASN p) at_)) m in
    let m := set_fact FieldUnlockIPOrg (StringValue (knownTextAt (pl_Org p) at_)) m in
    let m := match pl_FraudScore p with
             | Some score => set_fact FieldUnlockIPFraudScore (IntValue (KnownAt score at_)) m
             | None => m
             end in
    match ur_Services r with
    | [] => m
    | services =>
      let '(m, unlocked) := foldl (service_step at_) (m, []) services in
      let m := set_fact FieldUnlockedCount (IntValue (KnownAt (Z.of_nat (length unlocked)) at_)) m in
      set_fact FieldUnlockedProviders (SetValue (KnownAt (merge_sort String.le unlocked) at_)) m
    end
  end.

(** *** IP quality and its reductions over the providers *)
Record flagReduction := mkReduction { fr_known : bool; fr_anyTrue : bool; fr_allTrue : bool; fr_checkedAt : Z }.
Definition no_reduction : flagReduction := mkReduction false false false GoTime.zero.

Definition older (checkedAt current : Z) : Z :=
  if negb (GoTime.isZero checkedAt) && (GoTime.isZero current || GoTime.before checkedAt current) then checkedAt else current.

Definition observe (r : flagReduction) (fact : Fact bool) : flagReduction :=
  if negb (fa_Known fact) then r
  else
    let allTrue := if fr_known r then fr_allTrue r else true in
    mkReduction true (if fa_Value fact then true else fr_anyTrue r) (if fa_Value fact then allTrue else false)
      (older (fa_CheckedAt fact) (fr_checkedAt r)).

Definition reduced_fact (r : flagReduction) (value : bool) : Fact bool :=
  if negb (fr_known r) then Unknown false else KnownAt value (fr_checkedAt r).

Definition quality_flag_values (row : QualityResult) : gmap string (option bool) :=
  list_to_map [("is_residential", qr_IsResidential row); ("proxy", qr_Proxy row); ("hosting", qr_Hosting row);
               ("mobile", qr_Mobile row); ("is_broadcast", qr_IsBroadcast row)].
Definition quality_text_values (row : QualityResult) : gmap string string :=
  list_to_map [("asn", qr_ASN row); ("org", qr_Org row); ("isp", qr_ISP row)].

Record quality_state := mkQualityState {
  qs_facts : facts_map;
  qs_reductions : gmap string flagReduction;
  qs_maxKnown : bool;
  qs_maxValue : Z;
  qs_maxCheckedAt : Z
}.

Section loader.
Context `{!RangeOrder string, !RegionLibrary, !LoaderLibraries}.

Definition flag_step (provider : string) (checkedAt : Z) (acc : facts_map * gmap string flagReduction)
    (av : string * option bool) : facts_map * gmap string flagReduction :=
  let fact := nullableBool av.2 checkedAt in
  (set_fact (IPQualityField provider av.1) (BoolValue fact) acc.1,
   match acc.2 !! av.1 with Some r => <[av.1 := observe r fact]> acc.2 | None => acc.2 end).

Definition text_step (provider : string) (checkedAt : Z) (m : facts_map) (av : string * string) : facts_map :=
  set_fact (IPQualityField provider av.1) (StringValue (knownTextAt av.2 checkedAt)) m.

Definition quality_step (st : quality_state) (row : QualityResult) : quality_state :=
  let provider := toLower (TrimSpace (qr_Provider row)) in
  if negb (bool_decide (qr_Status row = detectionStatusSuccess)) && negb (bool_decide (qr_Status row = "partial")) then st
  else if decide (provider = "") then st
  else
    let at_ := qr_CheckedAt row in
    let st := match qr_FraudScore row with
              | Some score =>
                mkQualityState (set_fact (IPQualityField provider "fraud_score") (IntValue (KnownAt score at_)) (qs_facts st))
                  (qs_reductions st) true
                  (if negb (qs_maxKnown st) || (qs_maxValue st <? score) then score else qs_maxValue st)
                  (older at_ (qs_maxCheckedAt st))
              | None => st
              end in
    let '(m, reductions) :=
      foldl (flag_step provider at_) (qs_facts st, qs_reductions st) (range (quality_flag_values row)) in
    let m := foldl (text_step provider at_) m (range (quality_text_values row)) in
    let m := set_fact (IPQualityField provider "country_code") (EnumValue (knownTextAt (qr_CountryCode row) at_)) m in
    mkQualityState m reductions (qs_maxKnown st) (qs_maxValue st) (qs_maxCheckedAt st).

Definition tracked_flags : list string := ["is_residential"; "proxy"; "hosting"; "is_broadcast"].

Definition reduction_step (m : facts_map) (ar : string * flagReduction) : facts_map :=
  let m := set_fact (ReducedIPQualityField ReduceAny ar.1) (BoolValue (reduced_fact ar.2 (fr_anyTrue ar.2))) m in
  set_fact (ReducedIPQualityField ReduceAll ar.1) (BoolValue (reduced_fact ar.2 (fr_allTrue ar.2))) m.

Definition applyIPQualityFields (rows : list QualityResult) (m : facts_map) : facts_map :=
  let reductions := list_to_map ((λ a, (a, no_reduction)) <$> tracked_flags) in
  let st := foldl quality_step (mkQualityState m reductions false 0 GoTime.zero) rows in
  let m := set_fact FieldIPQMaxFraudScore
             (IntValue (if qs_maxKnown st then KnownAt (qs_maxValue st) (qs_maxCheckedAt st) else Unknown 0)) (qs_facts st) in
  foldl reduction_step m (range (qs_reductions st)).

(** *** Summaries ([diagnostic.go]) *)
Definition unlock_state (r : UnlockResult) : string :=
  let count (P : string → bool) := length (filter (λ s, P (toLower (us_Status s)) = true) (ur_Services r)) in
  let unlocked := count (λ s, bool_decide (s = "unlocked")) in
  let limited := count (λ s, bool_decide (s ∈ ["locked"; "partial"; "originals_only"])) in
  if negb (bool_decide (ur_Error r = "")) then "failed"
  else if (0 <? length (ur_Services r))%nat && (unlocked =? length (ur_Services r))%nat then "unlocked"
  else if (0 <? unlocked)%nat && (0 <? limited)%nat then "mixed"
  else if (0 <? limited)%nat then "locked"
  else "failed".

Definition status_step (acc : list string * Z) (row : QualityResult) : list string * Z :=
  if decide (qr_Status row = "") then acc
  else (acc.1 ++ [qr_Status row],
        if GoTime.isZero acc.2 || GoTime.before (qr_CheckedAt row) acc.2 then qr_CheckedAt row else acc.2).

Definition applyDiagnosticFields (detection : option DetectionResult) (unlock : option UnlockResult)
    (quality : list QualityResult) (m : facts_map) : facts_map :=
  let m := match detection with
           | Some d => set_fact FieldSpeedStatus (StringValue (knownTextAt (dr_SpeedStatus d) (dr_SpeedCheckedAt d))) m
           | None => m
           end in
  let m := match unlock with
           | Some r => set_fact FieldUnlockState (StringValue (KnownAt (unlock_state r) (ur_CheckedAt r))) m
           | None => m
           end in
  let '(statuses, checkedAt) := foldl status_step ([], GoTime.zero) quality in
  match statuses with
  | [] => m
  | _ => set_fact FieldQualityStatuses (SetValue (KnownAt statuses checkedAt)) m
  end.

(** ** Loading *)

(** The rows of a consistent read; a query may fail. An empty list of ids asks
    [ListNodes] and [ListNodeTags] for every node. *)
Record FactSource := mkSource {
  ListNodes : list Z → result (list NodeRow);
  ListNodeStats : list Z → result (gmap Z NodeStats);
  ListNodeDetectionResultsByIDs : list Z → result (gmap Z DetectionResult);
  ListNodeIPQualityResultsByIDs : list Z → result (gmap Z (list QualityResult));
  ListUnlockResultsByIDs : list Z → result (gmap Z UnlockResult);
  ListNodeSubscriptionIDs : list Z → result (gmap Z (list Z));
  ListManualNodeTags : list Z → result (list (Z * Z));
  ListTagNames : result (list (Z * string));
  ListSubscriptionNames : result (list (Z * string))
}.

(** The names of the manual tags of each node: (node, tag) assignments whose tag has a name. *)
Definition tag_names_step (names : gmap Z string) (m : gmap Z (list string)) (nt : Z * Z) : gmap Z (list string) :=
  let name := default "" (names !! nt.2) in
  if decide (name = "") then m else <[nt.1 := default [] (m !! nt.1) ++ [name]]> m.

Definition by_id (rows : list (Z * string)) : gmap Z string := foldl (λ m r, <[r.1 := r.2]> m) ∅ rows.

Definition manualTagNames (src : FactSource) (ids : list Z) : result (gmap Z (list string)) :=
  let? assignments := ListManualNodeTags src ids in
  match assignments with
  | [] => Ok ∅
  | _ =>
    let? tags := ListTagNames src in
    Ok (merge_sort String.le <$> foldl (tag_names_step (by_id tags)) ∅ assignments)
  end.

Definition subscriptionNames (src : FactSource) : result (gmap Z string) :=
  let? subscriptions := ListSubscriptionNames src in Ok (by_id subscriptions).

(** Everything the loader read about its nodes. *)
Record fact_rows := mkFactRows {
  rows_stats : gmap Z NodeStats;
  rows_detections : gmap Z DetectionResult;
  rows_qualities : gmap Z (list QualityResult);
  rows_unlocks : gmap Z UnlockResult;
  rows_subscriptions : gmap Z (list Z);
  rows_manual : gmap Z (list string);
  rows_subscription_names : gmap Z string
}.

Definition load_node (rows : fact_rows) (node : NodeRow) : NodeFacts :=
  let id := nr_ID node in
  let detection := rows_detections rows !! id in
  let stats := rows_stats rows !! id in
  let unlock := rows_unlocks rows !! id in
  let quality := default [] (rows_qualities rows !! id) in
  let m := applyNodeFields node ∅ in
  let m := applySourceFields (default [] (rows_subscriptions rows !! id)) (rows_subscription_names rows)
             (default [] (rows_manual rows !! id)) m in
  let m := applyStatsFields stats m in
  let m := applyDetectionFields detection stats m in
  let m := applyUnlockFields unlock m in
  let m := applyIPQualityFields quality m in
  let m := applyDiagnosticFields detection unlock quality m in
  mkNodeFacts id (nr_Name node) (Normalize (nr_Region node)) m.

Definition node_le (a b : NodeFacts) : Prop := nf_NodeID a ≤ nf_NodeID b.
#[export] Instance node_le_dec : RelDecision node_le.
Proof. intros a b. unfold node_le. apply _. Defined.

Definition LoadFromNodes (src : FactSource) (nodes : list NodeRow) : result (list NodeFacts) :=
  match nodes with
  | [] => Ok []
  | _ =>
    let ids := nr_ID <$> nodes in
    let? stats := ListNodeStats src ids in
    let? detections := ListNodeDetectionResultsByIDs src ids in
    let? qualities := ListNodeIPQualityResultsByIDs src ids in
    let? unlocks := ListUnlockResultsByIDs src ids in
    let? subscriptions := ListNodeSubscriptionIDs src ids in
    let? manual := manualTagNames src ids in
    let? names := subscriptionNames src in
    Ok (merge_sort node_le (load_node (mkFactRows stats detections qualities unlocks subscriptions manual names) <$> nodes))
  end.

Definition Load (src : FactSource) (nodeIDs : list Z) : result (list NodeFacts) :=
  let? nodes := ListNodes src nodeIDs in LoadFromNodes src nodes.
End loader.

(** ** Every field has one kind *)

(** The kind a field name stands for: by its last part under [unlock.] and [ipq.],
    by its whole name elsewhere. *)
Definition unlock_kinds : list (string * Kind) :=
  [("status", KindEnum); ("region", KindString); ("detail", KindString); ("pure", KindBool); ("risk_level", KindEnum);
   ("ip_type", KindString); ("usage_type", KindString); ("fraud_score", KindInt); ("asn", KindString); ("org", KindString);
   ("unlocked_count", KindInt); ("unlocked_providers", KindSet); ("state", KindString)].
Definition quality_kinds : list (string * Kind) :=
  [("fraud_score", KindInt); ("is_residential", KindBool); ("proxy", KindBool); ("hosting", KindBool); ("mobile", KindBool);
   ("is_broadcast", KindBool); ("asn", KindString); ("org", KindString); ("isp", KindString); ("country_code", KindEnum);
   ("statuses", KindSet)].
Definition plain_kinds : list (string * Kind) :=
  [(FieldNodeName, KindString); (FieldNodeRegion, KindEnum); (fieldNodeRegionLegacy, KindEnum); (FieldNodeCountry, KindString);
   (FieldNodeProtocol, KindEnum); (FieldNodePort, KindInt); (FieldNodeEnabled, KindBool); (FieldNodeSource, KindEnum);
   (FieldManualTags, KindSet); (FieldSubscriptionIDs, KindSet); (FieldSubscriptionNames, KindSet); (FieldLatencyMs, KindInt);
   (FieldAvailable, KindBool); (FieldBlacklisted, KindBool); (FieldFailureCount, KindInt); (FieldSuccessCount, KindInt);
   (FieldSpeedBps, KindInt); (FieldSpeedPeakBps, KindInt); (FieldExitCountryCode, KindEnum); (FieldExitIPFamily, KindEnum);
   (FieldSpeedStatus, KindString)].

Definition assoc (l : list (string * Kind)) (key : string) : option Kind :=
  snd <$> List.find (λ kv, bool_decide (kv.1 = key)) l.

Definition last_part (name : string) : string := match cut_last (byte_is 46) name with Some (_, b) => b | None => name end.

Definition kind_of_field (name : string) : option Kind :=
  match strip_prefix "unlock." name with
  | Some _ => assoc unlock_kinds (last_part name)
  | None =>
    match strip_prefix "ipq." name with
    | Some _ => assoc quality_kinds (last_part name)
    | None => assoc plain_kinds name
    end
  end.

Definition undotted (attribute : string) : bool := every (λ c, negb (byte_is 46 c)) attribute.

Lemma last_part_dotted a b : undotted b = true → last_part (a +:+ "." +:+ b) = b.
Proof.
  intros Hb. unfold last_part. change ("." +:+ b) with (String (char 46) b). by rewrite (cut_last_hit (byte_is 46) a (char 46) b Hb).
Qed.

Lemma kind_of_UnlockField provider attribute :
  undotted attribute = true → kind_of_field (UnlockField provider attribute) = assoc unlock_kinds attribute.
Proof.
  intros Ha. unfold kind_of_field, UnlockField. rewrite strip_prefix_app, <-append_assoc. by rewrite last_part_dotted.
Qed.
Lemma kind_of_IPQualityField provider attribute :
  undotted attribute = true → kind_of_field (IPQualityField provider attribute) = assoc quality_kinds attribute.
Proof.
  intros Ha. unfold kind_of_field, IPQualityField.
  change (strip_prefix "unlock." ("ipq." +:+ provider +:+ "." +:+ attribute)) with (@None string).
  rewrite strip_prefix_app, <-append_assoc. by rewrite last_part_dotted.
Qed.

Lemma kind_of_ReducedField reduction attribute :
  undotted attribute = true → kind_of_field (ReducedIPQualityField reduction attribute) = assoc quality_kinds attribute.
Proof. apply kind_of_IPQualityField. Qed.

(** Facts and registries whose kinds are those of the names. *)
Definition facts_kinds (m : facts_map) : Prop := map_Forall (λ name v, kind_of_field name = Some (v_Kind v)) m.
Definition fields_kinds (r : Registry) : Prop :=
  map_Forall (λ name f, kind_of_field name = Some (fd_Kind f) ∧ fd_Operators f = OperatorsForKind (fd_Kind f)) (rg_fields r).

Lemma set_fact_kinds name v m : kind_of_field name = Some (v_Kind v) → facts_kinds m → facts_kinds (set_fact name v m).
Proof. intros Hk Hm. unfold set_fact. case_decide; [done|]. by apply map_Forall_insert_2. Qed.

Lemma Register_kinds f r :
  kind_of_field (fd_Name f) = Some (fd_Kind f) → fd_Operators f = [] → fields_kinds r → fields_kinds (Register r f).
Proof.
  intros Hk Ho Hr. unfold Register. case_decide; [done|]. rewrite Ho. unfold fields_kinds. cbn [rg_fields].
  by apply map_Forall_insert_2.
Qed.

Lemma RegisterAll_kinds l r :
  Forall (λ f, kind_of_field (fd_Name f) = Some (fd_Kind f) ∧ fd_Operators f = []) l → fields_kinds r → fields_kinds (RegisterAll r l).
Proof.
  intros Hl. revert r. induction Hl as [|f l [Hk Ho] _ IH]; intros r Hr; cbn; [done|]. by apply IH, Register_kinds.
Qed.

(** A registry with any providers: the options the service passes. *)
Definition provider_options (unlock quality : list ProviderInfo) : list (Registry → Registry) :=
  [WithUnlockProviders unlock; WithIPQualityProviders quality].

Lemma default_registry_kinds unlock quality :
  fields_kinds (DefaultRegistry (provider_options unlock quality)).
Proof.
  unfold DefaultRegistry, provider_options. cbn [foldl]. unfold WithIPQualityProviders, WithUnlockProviders.
  assert (Hbase : fields_kinds (RegisterAll (RegisterAll (RegisterAll (RegisterAll (RegisterAll (RegisterAll NewRegistry
    basic_fields) performance_fields) ip_fields) unlock_fields) diagnostic_fields) (unlock ≫= unlock_provider_fields))).
  { apply RegisterAll_kinds.
    { apply Forall_bind, Forall_true. intros p. repeat constructor; cbn; by rewrite kind_of_UnlockField. }
    repeat apply RegisterAll_kinds; [..|done]; repeat (constructor; [split; vm_compute; reflexivity|]); constructor. }
  assert (Hq : fields_kinds (RegisterAll (RegisterAll (RegisterAll (RegisterAll (RegisterAll (RegisterAll (RegisterAll NewRegistry
    basic_fields) performance_fields) ip_fields) unlock_fields) diagnostic_fields) (unlock ≫= unlock_provider_fields))
    (quality ≫= quality_provider_fields))).
  { apply RegisterAll_kinds; [|done]. apply Forall_bind, Forall_true. intros p. unfold quality_provider_fields.
    repeat constructor; cbn; by rewrite kind_of_IPQualityField. }
  destruct quality; [done|]. apply RegisterAll_kinds; [|done].
  repeat (constructor; [split; vm_compute; reflexivity|]). constructor.
Qed.

Create HintDb facts.
#[export] Hint Resolve set_fact_kinds : facts.

Section kinds.
Context `{RO : !RangeOrder string, RL : !RegionLibrary, LL : !LoaderLibraries}.

Lemma service_step_kinds at_ acc s : facts_kinds acc.1 → facts_kinds (service_step at_ acc s).1.
Proof.
  destruct acc as [m unlocked]. cbn. intros Hm. unfold service_step. case_decide; [done|]. cbn [fst].
  by repeat (apply set_fact_kinds; [by rewrite kind_of_UnlockField|]).
Qed.

Lemma foldl_kinds {A B} (g : B → facts_map) (step : B → A → B) l b :
  (∀ b a, a ∈ l → facts_kinds (g b) → facts_kinds (g (step b a))) → facts_kinds (g b) → facts_kinds (g (foldl step b l)).
Proof.
  revert b. induction l as [|a l IH]; intros b Hs Hb; cbn; [done|]. apply IH.
  - intros b' a' Ha'. apply Hs. by right.
  - apply Hs; [by left|done].
Qed.

Lemma applyUnlockFields_kinds r m : facts_kinds m → facts_kinds (applyUnlockFields r m).
Proof.
  intros Hm. unfold applyUnlockFields. destruct r as [r|]; [|done]. cbn zeta.
  set (m1 := if decide (ur_IP r = "") then m else _).
  assert (H1 : facts_kinds m1) by (subst m1; case_decide; [done|]; by apply set_fact_kinds). clearbody m1.
  set (m2 := match pl_FraudScore _ with Some _ => _ | None => _ end).
  assert (H2 : facts_kinds m2) by (subst m2; destruct (pl_FraudScore _); repeat (apply set_fact_kinds; [reflexivity|]); done).
  clearbody m2. destruct (ur_Services r) as [|s services]; [done|].
  pose proof (foldl_kinds fst (service_step (ur_CheckedAt r)) (s :: services) (m2, [])
    (λ b a _, service_step_kinds _ b a) H2) as Hf.
  destruct (foldl _ _ _) as [m3 unlocked]. cbn in Hf. by repeat (apply set_fact_kinds; [reflexivity|]).
Qed.

(** The attributes of a quality row. *)
Lemma quality_text_keys row a v :
  quality_text_values row !! a = Some v → undotted a = true ∧ assoc quality_kinds a = Some KindString.
Proof.
  intros Ha%elem_of_list_to_map_2. assert (a ∈ ["asn"; "org"; "isp"]) as Hin by set_solver. clear - Hin.
  repeat (apply elem_of_cons in Hin as [->|Hin]; [vm_compute; done|]). by apply not_elem_of_nil in Hin.
Qed.
Lemma quality_flag_keys row a v :
  quality_flag_values row !! a = Some v → undotted a = true ∧ assoc quality_kinds a = Some KindBool.
Proof.
  intros Ha%elem_of_list_to_map_2.
  assert (a ∈ ["is_residential"; "proxy"; "hosting"; "mobile"; "is_broadcast"]) as Hin by set_solver. clear - Hin.
  repeat (apply elem_of_cons in Hin as [->|Hin]; [vm_compute; done|]). by apply not_elem_of_nil in Hin.
Qed.

Lemma quality_step_kinds st row : facts_kinds (qs_facts st) → facts_kinds (qs_facts (quality_step st row)).
Proof.
  intros Hm. unfold quality_step. destruct (negb _ && negb _); [done|]. case_decide; [done|].
  set (provider := toLower _). cbn zeta.
  set (st1 := match qr_FraudScore row with Some _ => _ | None => st end).
  assert (H1 : facts_kinds (qs_facts st1)).
  { subst st1. destruct (qr_FraudScore row); [|done]. apply set_fact_kinds; [by rewrite kind_of_IPQualityField|done]. }
  clearbody st1.
  pose proof (foldl_kinds fst (flag_step provider (qr_CheckedAt row)) (range (quality_flag_values row))
    (qs_facts st1, qs_reductions st1)) as Hf.
  destruct (foldl (flag_step _ _) _ _) as [m2 reductions]. cbn in *.
  apply set_fact_kinds; [by rewrite kind_of_IPQualityField|].
  apply (foldl_kinds id).
  - intros m [a v] [Hd Ha]%elem_of_range%quality_text_keys Hk. apply set_fact_kinds; [|done].
    by rewrite kind_of_IPQualityField.
  - apply Hf; [|done]. intros [m rs] [a v] [Hd Ha]%elem_of_range%quality_flag_keys Hk. apply set_fact_kinds; [|done].
    by rewrite kind_of_IPQualityField.
Qed.

(** The reductions keep their keys. *)
Lemma flag_fold_reductions provider at_ l m rs a r :
  (foldl (flag_step provider at_) (m, rs) l).2 !! a = Some r → is_Some (rs !! a).
Proof.
  revert m rs r. induction l as [|[b v] l IH]; intros m rs r; cbn; [eauto|]. intros Hb. apply IH in Hb. cbn in Hb. revert Hb.
  destruct (rs !! b) as [x|] eqn:E; [|done].
  destruct (decide (a = b)) as [->|]; [eauto|by rewrite lookup_insert_ne].
Qed.

Lemma quality_step_reductions st row a r :
  qs_reductions (quality_step st row) !! a = Some r → is_Some (qs_reductions st !! a).
Proof.
  unfold quality_step. destruct (negb _ && negb _); [done|]. case_decide; [done|]. cbn zeta.
  set (st1 := match qr_FraudScore row with Some _ => _ | None => st end).
  assert (qs_reductions st1 = qs_reductions st) as <- by (subst st1; by destruct (qr_FraudScore row)).
  pose proof (flag_fold_reductions (toLower (TrimSpace (qr_Provider row))) (qr_CheckedAt row)
    (range (quality_flag_values row)) (qs_facts st1) (qs_reductions st1) a r) as Hf.
  by destruct (foldl (flag_step _ _) _ _) as [m2 rs2].
Qed.

Lemma quality_fold_reductions rows st a r :
  qs_reductions (foldl quality_step st rows) !! a = Some r → is_Some (qs_reductions st !! a).
Proof.
  revert st r. induction rows as [|row rows IH]; intros st r; cbn; [eauto|]. intros Hr.
  apply IH in Hr as [r' Hr]. by eapply quality_step_reductions.
Qed.

Lemma tracked_reductions rows m a r :
  qs_reductions (foldl quality_step (mkQualityState m (list_to_map ((λ a, (a, no_reduction)) <$> tracked_flags)) false 0 GoTime.zero) rows)
    !! a = Some r → undotted a = true ∧ assoc quality_kinds a = Some KindBool.
Proof.
  intros [r' Hr%elem_of_list_to_map_2]%quality_fold_reductions.
  assert (a ∈ tracked_flags) as Hin by (cbn in Hr; unfold tracked_flags; set_solver). clear - Hin. unfold tracked_flags in Hin.
  repeat (apply elem_of_cons in Hin as [->|Hin]; [vm_compute; done|]). by apply not_elem_of_nil in Hin.
Qed.

Lemma applyIPQualityFields_kinds rows m : facts_kinds m → facts_kinds (applyIPQualityFields rows m).
Proof.
  intros Hm. unfold applyIPQualityFields. cbn zeta. set (st := foldl quality_step _ rows).
  assert (Hst : facts_kinds (qs_facts st)).
  { apply (foldl_kinds qs_facts); [|done]. intros b a _. apply quality_step_kinds. }
  apply (foldl_kinds id); [|by apply set_fact_kinds; [destruct (qs_maxKnown st)|]].
  intros m' [a r] [Hd Ha]%elem_of_range%tracked_reductions Hk. unfold id, reduction_step. cbn [fst snd].
  by repeat (apply set_fact_kinds; [by rewrite kind_of_ReducedField|]).
Qed.

Lemma applyDiagnosticFields_kinds detection unlock quality m :
  facts_kinds m → facts_kinds (applyDiagnosticFields detection unlock quality m).
Proof.
  intros Hm. unfold applyDiagnosticFields. destruct (foldl status_step _ _) as [statuses checkedAt].
  by destruct detection, unlock, statuses; repeat (apply set_fact_kinds; [reflexivity|]).
Qed.

Lemma load_node_kinds rows node : facts_kinds (nf_Values (load_node rows node)).
Proof.
  unfold load_node. cbn [nf_Values].
  apply applyDiagnosticFields_kinds, applyIPQualityFields_kinds, applyUnlockFields_kinds.
  unfold applyDetectionFields. destruct (match rows_detections rows !! nr_ID node with Some _ => _ | None => _ end) as [[[speed peak] country] family].
  repeat (apply set_fact_kinds; [reflexivity|]). unfold applyStatsFields.
  destruct (rows_stats rows !! nr_ID node); repeat (apply set_fact_kinds; [reflexivity|]);
    unfold applySourceFields, applyNodeFields; repeat (apply set_fact_kinds; [reflexivity|]); apply map_Forall_empty.
Qed.

Lemma Load_kinds src ids sets facts : Load src ids = Ok sets → facts ∈ sets → facts_kinds (nf_Values facts).
Proof.
  unfold Load, LoadFromNodes. intros (nodes & _ & Hl)%result_bind_Ok Hin.
  destruct nodes as [|node nodes]; [injection Hl as <-; set_solver|].
  repeat match type of Hl with result_bind _ _ = Ok _ => apply result_bind_Ok in Hl as (? & _ & Hl) end.
  injection Hl as <-. rewrite merge_sort_Permutation in Hin.
  match type of Hin with _ ∈ load_node ?r _ :: _ => change (facts ∈ load_node r <$> node :: nodes) in Hin end. apply list_elem_of_fmap in Hin as (n & -> & _).
  apply load_node_kinds.
Qed.
End kinds.

(** ** The reductions over the providers *)

(** What the providers that reported on an attribute say, with their times. *)
Definition counted (row : QualityResult) : bool :=
  (bool_decide (qr_Status row = detectionStatusSuccess) || bool_decide (qr_Status row = "partial")) &&
  negb (bool_decide (toLower (TrimSpace (qr_Provider row)) = "")).
Definition contribution (attribute : string) (row : QualityResult) : option (bool * Z) :=
  if counted row then
    match quality_flag_values row !! attribute with
    | Some (Some b) => Some (b, qr_CheckedAt row)
    | _ => None
    end
  else None.

Definition oldest (times : list Z) : Z := foldl (λ current t, older t current) GoTime.zero times.

(** The fact a reduction stands for: unknown without a contribution, else its value
    with the oldest time of the contributions. *)
Definition reduction_of (value : list bool → bool) (said : list (bool * Z)) : Value :=
  BoolValue (match said with [] => Unknown false | _ => KnownAt (value said.*1) (oldest said.*2) end).

Definition some_of {A} (l : list A) : bool := match l with [] => false | _ => true end.

Definition reduction_state (said : list (bool * Z)) : flagReduction :=
  mkReduction (some_of said) (existsb id said.*1) (some_of said && forallb id said.*1) (oldest said.*2).

Lemma oldest_snoc times t : oldest (times ++ [t]) = older t (oldest times).
Proof. unfold oldest. by rewrite foldl_app. Qed.

Lemma observe_reduction said o at_ :
  observe (reduction_state said) (nullableBool o at_) =
  reduction_state (said ++ match o with Some b => [(b, at_)] | None => [] end).
Proof.
  destruct o as [b|]; [|by rewrite app_nil_r]. unfold reduction_state. rewrite !fmap_app, existsb_app, forallb_app.
  change ([(b, at_)].*2) with [at_]. rewrite oldest_snoc. unfold observe. cbn [fa_Known fa_Value fa_CheckedAt fr_known fr_anyTrue fr_allTrue fr_checkedAt nullableBool KnownAt negb].
  replace (some_of (said ++ [(b, at_)])) with true by (by destruct said).
  assert (Hall : (if some_of said then some_of said && forallb id said.*1 else true) = forallb id said.*1) by (by destruct said).
  rewrite Hall. destruct b; cbn; by rewrite ?orb_true_r, ?orb_false_r, ?andb_true_r, ?andb_false_r.
Qed.

(** A fold over the entries of a map in which each entry acts on its own key. *)
Section own_keys.
Context {A B : Type} (f : string → A → B → B).

Definition own_step (m : gmap string B) (ka : string * A) : gmap string B :=
  match m !! ka.1 with Some b => <[ka.1 := f ka.1 ka.2 b]> m | None => m end.

Lemma own_step_lookup (l : list (string * A)) m k :
  NoDup l.*1 →
  foldl own_step m l !! k =
    match m !! k with
    | Some b => Some (match (list_to_map l : gmap string A) !! k with Some a => f k a b | None => b end)
    | None => None
    end.
Proof.
  revert m. induction l as [|[k' a] l IH]; intros m Hnd; cbn.
  - by destruct (m !! k).
  - apply NoDup_cons in Hnd as [Hk' Hnd]. rewrite (IH _ Hnd). unfold own_step. cbn [fst snd].
    destruct (decide (k = k')) as [->|Hne].
    + rewrite lookup_insert_eq. rewrite (not_elem_of_list_to_map_1 _ _ Hk').
      destruct (m !! k') as [b|] eqn:E; [by rewrite lookup_insert_eq|by rewrite E].
    + rewrite lookup_insert_ne by done. destruct (m !! k') as [b|]; [|done]. by rewrite lookup_insert_ne.
Qed.
End own_keys.

Section reductions.
Context `{RO : !RangeOrder string, RL : !RegionLibrary, LL : !LoaderLibraries}.

Lemma flag_fold provider at_ l m rs :
  (foldl (flag_step provider at_) (m, rs) l).2 = foldl (own_step (λ _ v r, observe r (nullableBool v at_))) rs l.
Proof.
  revert m rs. induction l as [|[a v] l IH]; intros m rs; [done|]. cbn [foldl].
  unfold flag_step at 2. cbn [fst snd]. by rewrite IH.
Qed.

Lemma quality_step_reduction st row a r :
  qs_reductions st !! a = Some r →
  qs_reductions (quality_step st row) !! a =
    Some (if counted row then observe r (nullableBool (default None (quality_flag_values row !! a)) (qr_CheckedAt row)) else r).
Proof.
  intros Hr. unfold quality_step, counted.
  destruct (bool_decide (qr_Status row = detectionStatusSuccess)), (bool_decide (qr_Status row = "partial")); cbn [negb andb orb]; try done.
  all: case_bool_decide as Hp; [by rewrite decide_True by done|rewrite decide_False by done]; cbn [negb]; cbn zeta.
  all: set (st1 := match qr_FraudScore row with Some _ => _ | None => st end).
  all: assert (qs_reductions st1 = qs_reductions st) as Heq by (subst st1; by destruct (qr_FraudScore row)); clearbody st1.
  all: pose proof (flag_fold (toLower (TrimSpace (qr_Provider row))) (qr_CheckedAt row)
    (range (quality_flag_values row)) (qs_facts st1) (qs_reductions st1)) as Hf.
  all: destruct (foldl (flag_step _ _) _ _) as [m2 rs2]; cbn [snd qs_reductions] in *; rewrite Hf, Heq.
  all: rewrite own_step_lookup by apply NoDup_range_fst; rewrite Hr.
  all: rewrite (list_to_map_proper _ (map_to_list (quality_flag_values row))) by (apply NoDup_range_fst || apply range_perm).
  all: rewrite list_to_map_to_list; by destruct (quality_flag_values row !! a).
Qed.

Lemma quality_fold_reduction rows st a said :
  qs_reductions st !! a = Some (reduction_state said) →
  qs_reductions (foldl quality_step st rows) !! a = Some (reduction_state (said ++ omap (contribution a) rows)).
Proof.
  revert st said. induction rows as [|row rows IH]; intros st said Hs; cbn [foldl]; [by rewrite app_nil_r|].
  pose proof (quality_step_reduction st row a _ Hs) as Hq. rewrite observe_reduction in Hq.
  change (omap (contribution a) (row :: rows)) with
    (match contribution a row with Some x => x :: omap (contribution a) rows | None => omap (contribution a) rows end).
  unfold contribution at 1. destruct (counted row).
  - apply IH in Hq. rewrite Hq, <-app_assoc. by destruct (quality_flag_values row !! a) as [[b|]|].
  - by apply IH in Hq.
Qed.

Lemma Reduced_inj reduction a a' :
  undotted a = true → undotted a' = true → ∀ reduction', ReducedIPQualityField reduction a = ReducedIPQualityField reduction' a' → a = a'.
Proof.
  intros Ha Ha' reduction' Heq. unfold ReducedIPQualityField in Heq. rewrite <-!append_assoc in Heq.
  apply (f_equal last_part) in Heq. by rewrite !append_assoc, <-(append_assoc _ reduction), <-(append_assoc _ reduction'), !last_part_dotted in Heq.
Qed.

Lemma Reduced_any_all a a' : ReducedIPQualityField ReduceAny a ≠ ReducedIPQualityField ReduceAll a'.
Proof. discriminate. Qed.

Lemma set_fact_lookup name v m : name ≠ "" → set_fact name v m !! name = Some v.
Proof. intros. unfold set_fact. rewrite decide_False by done. apply lookup_insert_eq. Qed.
Lemma set_fact_lookup_ne name name' v m : name ≠ name' → set_fact name v m !! name' = m !! name'.
Proof. intros. unfold set_fact. case_decide; [done|]. by rewrite lookup_insert_ne. Qed.

Lemma reduction_fold l m a r :
  NoDup l.*1 → (∀ k s, (k, s) ∈ l → undotted k = true) → (a, r) ∈ l →
  foldl reduction_step m l !! ReducedIPQualityField ReduceAny a = Some (BoolValue (reduced_fact r (fr_anyTrue r))) ∧
  foldl reduction_step m l !! ReducedIPQualityField ReduceAll a = Some (BoolValue (reduced_fact r (fr_allTrue r))).
Proof.
  induction l as [|[b s] l IH] using rev_ind; [set_solver|]. rewrite fmap_app. intros [Hnd [Hdis _]]%NoDup_app Hu Hin.
  rewrite foldl_app. cbn [foldl]. unfold reduction_step at 1 3. cbn [fst snd].
  assert (Hb : undotted b = true) by (apply (Hu b s); set_solver).
  assert (Ha : undotted a = true) by (by apply (Hu a r)).
  destruct (decide (a = b)) as [->|Hne].
  - assert (r = s) as ->.
    { apply elem_of_app in Hin as [Hin|Hin]; [|set_solver]. exfalso. apply (Hdis b); [|set_solver].
      apply list_elem_of_fmap. by exists (b, r). }
    rewrite set_fact_lookup_ne by (apply not_eq_sym, Reduced_any_all). by rewrite !set_fact_lookup.
  - assert (Hin' : (a, r) ∈ l) by set_solver.
    destruct (IH Hnd) as [IH1 IH2]; [intros k s' Hk; apply (Hu k s'); set_solver|done|].
    rewrite !set_fact_lookup_ne; [done|..]; intros Heq;
      first [by apply Reduced_any_all in Heq | by symmetry in Heq; apply Reduced_any_all in Heq
            | by apply Reduced_inj in Heq; [congruence|..]].
Qed.

Lemma reduced_value (value : list bool → bool) said :
  BoolValue (reduced_fact (reduction_state said) (some_of said && value said.*1)) = reduction_of value said.
Proof. unfold reduction_of, reduced_fact, reduction_state. by destruct said. Qed.

Lemma applyIPQualityFields_reductions rows m a :
  a ∈ tracked_flags →
  applyIPQualityFields rows m !! ReducedIPQualityField ReduceAny a =
    Some (reduction_of (existsb id) (omap (contribution a) rows)) ∧
  applyIPQualityFields rows m !! ReducedIPQualityField ReduceAll a =
    Some (reduction_of (forallb id) (omap (contribution a) rows)).
Proof.
  intros Ha. unfold applyIPQualityFields. cbn zeta. set (st0 := mkQualityState _ _ _ _ _).
  assert (H0 : qs_reductions st0 !! a = Some (reduction_state [])).
  { subst st0. unfold tracked_flags in *.
    repeat (apply elem_of_cons in Ha as [->|Ha]; [reflexivity|]). by apply not_elem_of_nil in Ha. }
  pose proof (quality_fold_reduction rows st0 a [] H0) as Hr. cbn [app] in Hr. set (said := omap _ rows) in *.
  set (st := foldl quality_step st0 rows) in *. rewrite <-!reduced_value.
  set (m1 := set_fact FieldIPQMaxFraudScore _ _).
  destruct (reduction_fold (range (qs_reductions st)) m1 a (reduction_state said)) as [-> ->].
  - apply NoDup_range_fst.
  - intros k s Hk%elem_of_range. by apply tracked_reductions in Hk as [? _].
  - by apply elem_of_range.
  - split; [|done]. do 3 f_equal. cbn. by destruct said as [|[] ?].
Qed.

Lemma applyDiagnosticFields_other detection unlock quality m reduction a :
  reduction = ReduceAny ∨ reduction = ReduceAll →
  applyDiagnosticFields detection unlock quality m !! ReducedIPQualityField reduction a = m !! ReducedIPQualityField reduction a.
Proof.
  intros Hr. unfold applyDiagnosticFields. destruct (foldl status_step _ _) as [statuses checkedAt].
  destruct detection, unlock, statuses, Hr as [-> | ->]; by rewrite ?set_fact_lookup_ne.
Qed.
End reductions.

(** ** The properties *)
Section properties.
Context `{RO : !RangeOrder string, RL : !RegionLibrary, LL : !LoaderLibraries, PL : !Platform, RU : !RuleLibraries}.

(** C38: no rule that was accepted against the default registry, whatever the
    providers registered, fails on a node loaded from the store: every fact has the
    kind its field declares. The answer is the rule's reading. *)
Theorem stored_rules_evaluate_on_loaded_nodes src ids sets facts unlock quality limits c now :
  Load src ids = Ok sets → facts ∈ sets →
  Validate (DefaultRegistry (provider_options unlock quality)) limits c = inr () →
  Evaluate c facts now = inr (reading c facts now).
Proof.
  intros Hl Hin Hv. pose proof (Load_kinds _ _ _ _ Hl Hin) as Hm. pose proof (default_registry_kinds unlock quality) as Hr.
  apply (Evaluate_reading (DefaultRegistry (provider_options unlock quality)) limits); [..|done].
  - intros name f Hf. by apply Hr in Hf as [_ ?].
  - intros name f key v Hf Hkey Hval _. apply Hr in Hf as [Hf _]. apply Hm in Hval.
    assert (kind_of_field key = kind_of_field name) as Heq by (destruct Hkey as [->|[-> ->]]; done). congruence.
Qed.

(** The facts [ipq.any.*] and [ipq.all.*] of a loaded node are the disjunction
    and the conjunction of what the providers whose check succeeded say of the
    attribute, as old as the oldest of these statements, and unknown when no
    provider says anything; the iteration orders of the maps do not matter. *)
Theorem reductions_combine_the_providers rows node a :
  a ∈ tracked_flags →
  let said := omap (contribution a) (default [] (rows_qualities rows !! nr_ID node)) in
  value_of (load_node rows node) (ReducedIPQualityField ReduceAny a) = reduction_of (existsb id) said ∧
  value_of (load_node rows node) (ReducedIPQualityField ReduceAll a) = reduction_of (forallb id) said.
Proof.
  intros Ha said. unfold value_of, load_node. cbn [nf_Values].
  rewrite !applyDiagnosticFields_other by auto.
  match goal with |- context [applyIPQualityFields ?rows ?m] =>
    destruct (applyIPQualityFields_reductions rows m a Ha) as [-> ->] end. done.
Qed.
End properties.

(** ** A concrete store *)
Module StoreSample.
Export RuleSoundness.Samples.
#[export] Instance range_strings : RangeOrder string := default_range_order string.
#[export] Instance loader_libraries : LoaderLibraries := λ _, None.

Definition quality (provider : string) (proxy : option bool) (age : Z) : QualityResult :=
  mkQuality provider "success" (Some 10) None proxy None None None "AS1" "" "" "jp" (now - age * GoTime.second).
Definition node : NodeRow := mkNodeRow 7 "trojan://pw@h:443" "n" "manual" 0 "JP" "Japan" true.
Definition rows : fact_rows :=
  mkFactRows {[7 := mkStats 0 3 false (-1) true true now]}
    {[7 := mkDetection "success" (Some 120) (now - GoTime.second) "" None None now "" "" "" now]}
    {[7 := [quality "ipapi" (Some false) 60; quality "other" None 5; quality "scamalytics" (Some true) 90]]}
    {[7 := mkUnlock "1.2.3.4" true [mkService "Netflix" "Unlocked" "US" ""] "" now ""]} {[7 := [4]]} ∅ {[4 := "daily"]}.
Definition source : FactSource :=
  mkSource (λ _, Ok [node]) (λ _, Ok (rows_stats rows)) (λ _, Ok (rows_detections rows)) (λ _, Ok (rows_qualities rows))
    (λ _, Ok (rows_unlocks rows)) (λ _, Ok (rows_subscriptions rows)) (λ _, Ok []) (Ok []) (Ok [(4, "daily")]).
Definition clean : Condition :=
  group MatchAll [fresh (leaf FieldLatencyMs OpLte (AnyString "300")) 3600; leaf "unlock.netflix.status" OpEq (AnyString "unlocked"); leaf (ReducedIPQualityField ReduceAny "proxy") OpEq (AnyBool true)].
End StoreSample.
Import StoreSample.

Lemma stored_rules_witness :
  Load source [] = Ok [load_node rows node] ∧
  Evaluate clean (load_node rows node) now = inr (reading clean (load_node rows node) now) ∧
  reading clean (load_node rows node) now = true.
Proof.
  split_and!; [reflexivity| |vm_compute; reflexivity].
  apply (stored_rules_evaluate_on_loaded_nodes source [] [load_node rows node] _ [mkProvider "netflix" ""]
    [mkProvider "ipapi" ""] DefaultLimits); [reflexivity|by left|vm_compute; reflexivity].
Defined.

Lemma reductions_witness :
  value_of (load_node rows node) (ReducedIPQualityField ReduceAny "proxy") = BoolValue (KnownAt true (now - 90 * GoTime.second)) ∧
  value_of (load_node rows node) (ReducedIPQualityField ReduceAll "proxy") = BoolValue (KnownAt false (now - 90 * GoTime.second)).
Proof. apply (reductions_combine_the_providers rows node "proxy"). right. by left. Defined.
