(* ===== verification/TagResolve.v ===== *)
(** Mutex groups of tags ([internal/nodetag/model.go], [resolver.go]): the rules of the
    automatic tags and the choice, among the rules a node matched, of the tags it
    gets. At most one tag per mutex group; what an operator assigned by hand wins,
    then the highest priority, then the lowest tag id. *)
From S2P Require Import Prelude Text Floats NodeRegion NodeFacts NodeRules.

#[local] Open Scope Z_scope.

(** ** Tags and rules ([model.go]) *)
Definition ReasonLowerPriority : string := "lower_priority".
Definition ReasonManualOccupiesGroup : string := "manual_occupies_group".

Record TagMeta := mkTagMeta { tm_TagID : Z; tm_Name : string; tm_MutexGroupID : Z; tm_Priority : Z }.
Record Rule := mkRule { ru_Meta : TagMeta; ru_RuleVersion : Z; ru_Condition : Condition }.
Record ShadowNote := mkShadow {
  sn_TagID : Z; sn_TagName : string; sn_MutexGroupID : Z; sn_Reason : string; sn_WinnerTagID : Z; sn_WinnerTagName : string
}.
Record TagDecision := mkDecision { de_NodeID : Z; de_TagIDs : list Z; de_RuleVersions : list Z; de_Shadowed : list ShadowNote }.

Definition ru_id (r : Rule) : Z := tm_TagID (ru_Meta r).
Definition ru_group (r : Rule) : Z := tm_MutexGroupID (ru_Meta r).
Definition ru_priority (r : Rule) : Z := tm_Priority (ru_Meta r).

(** A row of the table of tags ([store.Tag]). *)
Record Tag := mkTag {
  tg_ID : Z; tg_Name : string; tg_MutexGroupID : Z; tg_Priority : Z; tg_AutoEnabled : bool;
  tg_RuleJSON : string; tg_RuleVersion : Z; tg_BuiltinKey : string
}.

Definition meta_of (t : Tag) : TagMeta := mkTagMeta (tg_ID t) (tg_Name t) (tg_MutexGroupID t) (tg_Priority t).

Record compiled := mkCompiled { cp_rules : list Rule; cp_meta : gmap Z TagMeta; cp_skipped : list Z }.

Definition compile_step `{!RuleLibraries} (c : compiled) (t : Tag) : compiled :=
  let meta := <[tg_ID t := meta_of t]> (cp_meta c) in
  if negb (tg_AutoEnabled t) || bool_decide (tg_RuleJSON t = "") then mkCompiled (cp_rules c) meta (cp_skipped c)
  else
    match ParseRule (tg_RuleJSON t) with
    | None => mkCompiled (cp_rules c) meta (cp_skipped c ++ [tg_ID t])
    | Some condition =>
      if IsEmpty condition then mkCompiled (cp_rules c) meta (cp_skipped c)
      else mkCompiled (cp_rules c ++ [mkRule (meta_of t) (tg_RuleVersion t) condition]) meta (cp_skipped c)
    end.

Definition CompileRules `{!RuleLibraries} (tags : list Tag) : compiled := foldl compile_step (mkCompiled [] ∅ []) tags.

(** ** The resolver ([resolver.go]) *)

(** The order of the candidates. *)
Definition precedes (a b : Rule) : Prop :=
  ru_priority b < ru_priority a ∨ (ru_priority a = ru_priority b ∧ ru_id a ≤ ru_id b).
#[export] Instance precedes_dec : RelDecision precedes.
Proof. intros a b. unfold precedes. apply _. Defined.

(** The groups taken by hand: the first manual tag of a group is its occupant. *)
Definition manual_step (meta : gmap Z TagMeta) (occupants : gmap Z TagMeta) (tagID : Z) : gmap Z TagMeta :=
  match meta !! tagID with
  | None => occupants
  | Some manual =>
    if decide (tm_MutexGroupID manual = 0) then occupants
    else match occupants !! tm_MutexGroupID manual with
         | Some _ => occupants
         | None => <[tm_MutexGroupID manual := manual]> occupants
         end
  end.
Definition manual_occupants (meta : gmap Z TagMeta) (manualTagIDs : list Z) : gmap Z TagMeta :=
  foldl (manual_step meta) ∅ manualTagIDs.

Record resolving := mkResolving { rs_occupants : gmap Z TagMeta; rs_chosen : list (Z * Z); rs_shadowed : list ShadowNote }.

Definition choose (st : resolving) (r : Rule) : list (Z * Z) := rs_chosen st ++ [(ru_id r, ru_RuleVersion r)].

Definition resolve_step (manualGroups : gset Z) (st : resolving) (r : Rule) : resolving :=
  if decide (ru_group r = 0) then mkResolving (rs_occupants st) (choose st r) (rs_shadowed st)
  else
    match rs_occupants st !! ru_group r with
    | Some winner =>
      let reason := if decide (ru_group r ∈ manualGroups) then ReasonManualOccupiesGroup else ReasonLowerPriority in
      mkResolving (rs_occupants st) (rs_chosen st)
        (rs_shadowed st ++ [mkShadow (ru_id r) (tm_Name (ru_Meta r)) (ru_group r) reason (tm_TagID winner) (tm_Name winner)])
    | None => mkResolving (<[ru_group r := ru_Meta r]> (rs_occupants st)) (choose st r) (rs_shadowed st)
    end.

Definition id_le (a b : Z * Z) : Prop := a.1 ≤ b.1.
#[export] Instance id_le_dec : RelDecision id_le.
Proof. intros a b. unfold id_le. apply _. Defined.
Definition shadow_le (a b : ShadowNote) : Prop := sn_TagID a ≤ sn_TagID b.
#[export] Instance shadow_le_dec : RelDecision shadow_le.
Proof. intros a b. unfold shadow_le. apply _. Defined.

(** [sortByTagID]: the ids with their rule versions. *)
Definition sortByTagID (chosen : list (Z * Z)) : list (Z * Z) := merge_sort id_le chosen.

Definition Resolve (nodeID : Z) (matched : list Rule) (manualTagIDs : list Z) (meta : gmap Z TagMeta) : TagDecision :=
  let ordered := merge_sort precedes matched in
  let occupants := manual_occupants meta manualTagIDs in
  let st := foldl (resolve_step (dom occupants)) (mkResolving occupants [] []) ordered in
  let chosen := sortByTagID (rs_chosen st) in
  mkDecision nodeID chosen.*1 chosen.*2 (merge_sort shadow_le (rs_shadowed st)).

(** ** What the resolver decides *)
#[export] Instance precedes_trans : Transitive precedes.
Proof. intros a b c. unfold precedes. lia. Qed.
#[export] Instance precedes_total : Total precedes.
Proof. intros a b. unfold precedes. lia. Qed.
#[export] Instance id_le_trans : Transitive id_le.
Proof. intros a b c. unfold id_le. lia. Qed.
#[export] Instance id_le_total : Total id_le.
Proof. intros a b. unfold id_le. lia. Qed.
#[export] Instance shadow_le_trans : Transitive shadow_le.
Proof. intros a b c. unfold shadow_le. lia. Qed.
#[export] Instance shadow_le_total : Total shadow_le.
Proof. intros a b. unfold shadow_le. lia. Qed.

(** A rule gets its tag when it is in no group, or when its group is free of manual
    tags and it precedes every other matched rule of the group. *)
Definition selected (occupants : gmap Z TagMeta) (matched : list Rule) (r : Rule) : Prop :=
  ru_group r = 0 ∨
  (occupants !! ru_group r = None ∧ Forall (λ r', ru_group r' = ru_group r → precedes r r') matched).
#[export] Instance selected_dec occupants matched r : Decision (selected occupants matched r).
Proof.
  unfold selected. apply or_dec; [apply _|]. apply and_dec; [apply _|].
  apply Forall_dec. intros r'. apply impl_dec; apply _.
Defined.

(** The note of a rule that lost its group to [winner]. *)
Definition note_of (reason : string) (winner : TagMeta) (r : Rule) : ShadowNote :=
  mkShadow (ru_id r) (tm_Name (ru_Meta r)) (ru_group r) reason (tm_TagID winner) (tm_Name winner).

Definition explained (manualGroups : gset Z) (occupants : gmap Z TagMeta) (matched : list Rule) (note : ShadowNote) : Prop :=
  ∃ r, r ∈ matched ∧ ¬ selected occupants matched r ∧
    ((∃ w, occupants !! ru_group r = Some w ∧
           note = note_of (if decide (ru_group r ∈ manualGroups) then ReasonManualOccupiesGroup else ReasonLowerPriority) w r) ∨
     (∃ w, occupants !! ru_group r = None ∧ w ∈ matched ∧ ru_group w = ru_group r ∧ selected occupants matched w ∧
           note = note_of (if decide (ru_group r ∈ manualGroups) then ReasonManualOccupiesGroup else ReasonLowerPriority) (ru_Meta w) r)).

Definition pair_of (r : Rule) : Z * Z := (ru_id r, ru_RuleVersion r).

(** Selection in a sorted list: what precedes everything comes first. *)
Lemma selected_tail occ r l r' :
  StronglySorted precedes (r :: l) → NoDup (ru_id <$> r :: l) → r' ∈ l →
  selected occ (r :: l) r' ↔
    selected (if decide (ru_group r = 0) then occ
              else match occ !! ru_group r with Some _ => occ | None => <[ru_group r := ru_Meta r]> occ end) l r'.
Proof.
  intros Hs Hnd Hin. apply StronglySorted_inv in Hs as [Hs Hall]. rewrite fmap_cons in Hnd. apply NoDup_cons in Hnd as [Hnew _].
  assert (Hpre : precedes r r') by (by rewrite Forall_forall in Hall; apply Hall).
  assert (Hne : ru_id r ≠ ru_id r') by (intros Heq; apply Hnew, list_elem_of_fmap; eauto).
  assert (Hanti : ¬ precedes r' r) by (unfold precedes in *; lia).
  unfold selected. rewrite Forall_cons. case_decide as H0; [|destruct (occ !! ru_group r) as [w|] eqn:Ho].
  - split; [intros [?|(? & _ & ?)]; auto|]. intros [?|[? ?]]; [by left|].
    destruct (decide (ru_group r' = 0)); [by left|]. right. split_and!; [done| |done]. congruence.
  - split; [intros [?|(? & _ & ?)]; auto|]. intros [?|[? ?]]; [by left|]. right. split_and!; [done| |done].
    intros Heq. congruence.
  - destruct (decide (ru_group r' = ru_group r)) as [Heq|Hg].
    + rewrite Heq, lookup_insert_eq. split; [intros [?|(_ & Hp & _)]; [congruence|]|intros [?|[? _]]; congruence].
      exfalso. by apply Hanti, Hp.
    + rewrite lookup_insert_ne by done. split; [intros [?|(? & _ & ?)]; auto|]. intros [?|[? ?]]; [by left|].
      right. split_and!; [done| |done]. congruence.
Qed.

Lemma selected_head occ r l :
  StronglySorted precedes (r :: l) → selected occ (r :: l) r ↔ ru_group r = 0 ∨ occ !! ru_group r = None.
Proof.
  intros [_ Hall]%StronglySorted_inv. unfold selected. rewrite Forall_cons, Forall_forall in *. unfold precedes in *.
  split; [naive_solver|]. intros [?|?]; [by left|]. right. split_and!; [done|lia|]. intros r' Hr' _. by apply Hall.
Qed.

Lemma filter_cons_ext {P Q : Rule → Prop} `{∀ x, Decision (P x), ∀ x, Decision (Q x)} r l :
  (∀ x, x ∈ l → P x ↔ Q x) → filter P (r :: l) = (if decide (P r) then [r] else []) ++ filter Q l.
Proof. intros Hpq. rewrite filter_cons, (filter_ext_in P Q l Hpq). by case_decide. Qed.

Definition next_occupants (occ : gmap Z TagMeta) (r : Rule) : gmap Z TagMeta :=
  if decide (ru_group r = 0) then occ
  else match occ !! ru_group r with Some _ => occ | None => <[ru_group r := ru_Meta r]> occ end.

Lemma next_occupants_lookup occ r g :
  (next_occupants occ r !! g = Some (ru_Meta r) ∧ ru_group r ≠ 0 ∧ occ !! ru_group r = None ∧ g = ru_group r) ∨
  (next_occupants occ r !! g = occ !! g).
Proof.
  unfold next_occupants. case_decide; [by right|]. destruct (occ !! ru_group r) eqn:Ho; [by right|].
  destruct (decide (g = ru_group r)) as [->|]; [left|right]; [by rewrite lookup_insert_eq|by rewrite lookup_insert_ne].
Qed.

Lemma explained_tail mg occ r l note :
  StronglySorted precedes (r :: l) → NoDup (ru_id <$> r :: l) →
  explained mg (next_occupants occ r) l note → explained mg occ (r :: l) note.
Proof.
  intros Hs Hnd (r' & Hin & Hsel & Hwhy). pose proof (selected_tail occ r l) as Htail. fold (next_occupants occ r) in Htail.
  exists r'. split; [by right|]. split; [by rewrite (Htail r' Hs Hnd Hin)|].
  destruct Hwhy as [(w & Ho & ->)|(w & Ho & Hw & Hg & Hsw & ->)].
  - destruct (next_occupants_lookup occ r (ru_group r')) as [(Hn & _ & Hfree & Heq)|Hn]; rewrite Hn in Ho; [|left; eauto].
    injection Ho as <-. right. exists r. rewrite Heq. repeat split; [done|by left|].
    apply (selected_head occ r l Hs). by right.
  - right. exists w. destruct (next_occupants_lookup occ r (ru_group r')) as [(Hn & _)|Hn]; rewrite Hn in Ho; [done|].
    repeat split; [done|by right|done|]. by apply Htail.
Qed.

Lemma resolve_fold mg l st :
  StronglySorted precedes l → NoDup (ru_id <$> l) →
  let occ := rs_occupants st in
  let st' := foldl (resolve_step mg) st l in
  rs_chosen st' = rs_chosen st ++ (pair_of <$> filter (selected occ l) l) ∧
  (sn_TagID <$> rs_shadowed st') = (sn_TagID <$> rs_shadowed st) ++ (ru_id <$> filter (λ r, ¬ selected occ l r) l) ∧
  ∀ note, note ∈ rs_shadowed st' → note ∈ rs_shadowed st ∨ explained mg occ l note.
Proof.
  revert st. induction l as [|r l IH]; intros st Hs Hnd occ st'; [cbn; rewrite !app_nil_r; auto|].
  pose proof (selected_tail occ r l) as Htail. fold (next_occupants occ r) in Htail.
  assert (Hs' : StronglySorted precedes l) by (by apply StronglySorted_inv in Hs as [? _]).
  assert (Hnd' : NoDup (ru_id <$> l)) by (rewrite fmap_cons in Hnd; by apply NoDup_cons in Hnd as [_ ?]).
  assert (Hocc : rs_occupants (resolve_step mg st r) = next_occupants occ r).
  { unfold resolve_step, next_occupants. fold occ. repeat case_match; done. }
  destruct (IH (resolve_step mg st r) Hs' Hnd') as (Hc & Hsh & Hn). cbn zeta in *. rewrite Hocc in *.
  fold st' in Hc, Hsh, Hn. change (foldl (resolve_step mg) (resolve_step mg st r) l) with st' in *.
  rewrite (filter_cons_ext (Q := selected (next_occupants occ r) l)) by (intros; by apply Htail).
  rewrite (filter_cons_ext (P := λ x, ¬ selected occ (r :: l) x) (Q := λ x, ¬ selected (next_occupants occ r) l x)).
  2: { intros x Hx. by rewrite (Htail x Hs Hnd Hx). }
  assert (Hstep : rs_chosen (resolve_step mg st r) = rs_chosen st ++ (pair_of <$> (if decide (selected occ (r :: l) r) then [r] else [])) ∧
    sn_TagID <$> rs_shadowed (resolve_step mg st r) =
      (sn_TagID <$> rs_shadowed st) ++ (ru_id <$> (if decide (¬ selected occ (r :: l) r) then [r] else [])) ∧
    ∀ note, note ∈ rs_shadowed (resolve_step mg st r) → note ∈ rs_shadowed st ∨ explained mg occ (r :: l) note).
  { pose proof (selected_head occ r l Hs) as Hsel. unfold resolve_step, choose. fold occ.
    destruct (decide (ru_group r = 0)) as [H0|H0]; [|destruct (occ !! ru_group r) as [w|] eqn:Ho].
    - assert (Hyes : selected occ (r :: l) r) by (apply Hsel; by left).
      rewrite (decide_True (P := selected occ (r :: l) r)), (decide_False (P := ¬ selected occ (r :: l) r)) by tauto. cbn. rewrite app_nil_r. auto.
    - assert (Hno : ¬ selected occ (r :: l) r) by (rewrite Hsel; intros [?|?]; done).
      rewrite (decide_False (P := selected occ (r :: l) r)), (decide_True (P := ¬ selected occ (r :: l) r)) by tauto. cbn. rewrite app_nil_r, fmap_app. split_and!; [done|done|].
      intros note [Hold|Hnew]%elem_of_app; [by left|]. apply list_elem_of_singleton in Hnew as ->. right.
      exists r. split; [by left|]. split; [done|]. left. exists w. done.
    - assert (Hyes : selected occ (r :: l) r) by (apply Hsel; by right).
      rewrite (decide_True (P := selected occ (r :: l) r)), (decide_False (P := ¬ selected occ (r :: l) r)) by tauto. cbn. rewrite app_nil_r. auto. }
  destruct Hstep as (Hc1 & Hsh1 & Hn1). split_and!.
  - by rewrite Hc, Hc1, fmap_app, <-app_assoc.
  - by rewrite Hsh, Hsh1, fmap_app, <-app_assoc.
  - intros note Hin. destruct (Hn note Hin) as [Hin'|He]; [by apply Hn1|]. right. by apply explained_tail.
Qed.

(** Only the set of matched rules matters. *)
#[export] Instance selected_proper occ : Proper ((≡ₚ) ==> (=) ==> iff) (selected occ).
Proof. intros l l' Hp r _ <-. unfold selected. by rewrite Hp. Qed.

#[export] Instance explained_proper mg occ : Proper ((≡ₚ) ==> (=) ==> iff) (explained mg occ).
Proof. intros l l' Hp note _ <-. unfold explained. setoid_rewrite Hp. done. Qed.

Lemma filter_perm_ext (P Q : Rule → Prop) `{∀ x, Decision (P x), ∀ x, Decision (Q x)} l l' :
  l ≡ₚ l' → (∀ x, P x ↔ Q x) → filter P l ≡ₚ filter Q l'.
Proof. intros Hp Hpq. rewrite Hp. by rewrite (filter_ext_in P Q). Qed.

(** Sorting by a key that distinguishes the elements has one result. *)
Lemma merge_sort_key_unique {A} (R : relation A) `{!RelDecision R, !Transitive R, !Total R} (l l' : list A) :
  (∀ a b, a ∈ l → b ∈ l → R a b → R b a → a = b) → l ≡ₚ l' → merge_sort R l = merge_sort R l'.
Proof.
  intros Hanti Hp. apply (StronglySorted_unique_strong R).
  - intros a b Ha Hb. rewrite (merge_sort_Permutation R l) in Ha. rewrite (merge_sort_Permutation R l'), <-Hp in Hb.
    by apply Hanti.
  - apply (StronglySorted_merge_sort R).
  - apply (StronglySorted_merge_sort R).
  - by rewrite !merge_sort_Permutation.
Qed.

Lemma sorted_pairs_key (l l' : list Rule) :
  NoDup (ru_id <$> l) → l ≡ₚ l' → merge_sort id_le (pair_of <$> l) = merge_sort id_le (pair_of <$> l').
Proof.
  intros Hnd Hp. apply (merge_sort_key_unique id_le); [|by apply fmap_Permutation].
  intros a b (x & -> & Hx)%list_elem_of_fmap (y & -> & Hy)%list_elem_of_fmap. unfold id_le, pair_of. cbn. intros H1 H2.
  by rewrite (NoDup_key_inj ru_id l x y Hnd Hx Hy ltac:(lia)).
Qed.

(** The contract of the resolver, in terms of the set of matched rules alone. *)
Record resolution (matched : list Rule) (manualTagIDs : list Z) (meta : gmap Z TagMeta) (d : TagDecision) : Prop := {
  rn_chosen : zip (de_TagIDs d) (de_RuleVersions d) =
    merge_sort id_le (pair_of <$> filter (selected (manual_occupants meta manualTagIDs) matched) matched);
  rn_lengths : length (de_TagIDs d) = length (de_RuleVersions d);
  rn_shadowed : (sn_TagID <$> de_Shadowed d) ≡ₚ
    (ru_id <$> filter (λ r, ¬ selected (manual_occupants meta manualTagIDs) matched r) matched);
  rn_sorted : Sorted shadow_le (de_Shadowed d);
  rn_explained : ∀ note, note ∈ de_Shadowed d →
    explained (dom (manual_occupants meta manualTagIDs)) (manual_occupants meta manualTagIDs) matched note
}.

Lemma Resolve_resolution nodeID matched manualTagIDs meta :
  NoDup (ru_id <$> matched) → resolution matched manualTagIDs meta (Resolve nodeID matched manualTagIDs meta).
Proof.
  intros Hnd. set (occ := manual_occupants meta manualTagIDs). set (ordered := merge_sort precedes matched).
  assert (Hp : ordered ≡ₚ matched) by apply merge_sort_Permutation.
  assert (Hs : StronglySorted precedes ordered) by apply (StronglySorted_merge_sort precedes).
  assert (Hnd' : NoDup (ru_id <$> ordered)) by (by rewrite Hp).
  destruct (resolve_fold (dom occ) ordered (mkResolving occ [] []) Hs Hnd') as (Hc & Hsh & Hn). cbn [rs_occupants rs_chosen rs_shadowed app] in *.
  assert (Hsel : filter (selected occ ordered) ordered ≡ₚ filter (selected occ matched) matched).
  { apply filter_perm_ext; [done|]. intros x. by rewrite Hp. }
  assert (Hzip : ∀ l : list (Z * Z), zip l.*1 l.*2 = l) by (intros l; apply zip_fst_snd).
  constructor; unfold Resolve; fold occ ordered; cbn [de_TagIDs de_RuleVersions de_Shadowed].
  - rewrite Hzip, Hc. unfold sortByTagID. apply sorted_pairs_key; [|done]. by apply NoDup_filter_key.
  - by rewrite !length_fmap.
  - rewrite merge_sort_Permutation. cbn in Hsh. rewrite Hsh. apply fmap_Permutation, filter_perm_ext; [done|].
    intros x. by rewrite Hp.
  - apply (Sorted_merge_sort shadow_le).
  - intros note Hin. rewrite merge_sort_Permutation in Hin. destruct (Hn note Hin) as [Hnil|He]; [set_solver|]. by rewrite <-Hp.
Qed.

(** The ids a decision holds are those of the selected rules. *)
Lemma resolution_TagIDs matched manualTagIDs meta d r :
  resolution matched manualTagIDs meta d → NoDup (ru_id <$> matched) → r ∈ matched →
  ru_id r ∈ de_TagIDs d ↔ selected (manual_occupants meta manualTagIDs) matched r.
Proof.
  intros Hd Hnd Hr. pose proof (rn_chosen _ _ _ _ Hd) as Hz. pose proof (rn_lengths _ _ _ _ Hd) as Hlen.
  assert (Hids : de_TagIDs d = (zip (de_TagIDs d) (de_RuleVersions d)).*1) by (symmetry; apply fst_zip; lia).
  rewrite Hids, Hz, merge_sort_Permutation, <-list_fmap_compose, list_elem_of_fmap. split.
  - intros (x & Heq & [Hx Hin]%list_elem_of_filter). cbn in Heq. by rewrite (NoDup_key_inj ru_id matched r x).
  - intros Hs. exists r. split; [done|]. by apply list_elem_of_filter.
Qed.

(** C20: the resolver applies the mutex rule and nothing else. Of the rules a node
    matched, exactly those in no group, or first of their group — highest priority,
    then lowest id — in a group no manual tag occupies, give their tag; every other
    one is reported with the tag that holds its group. So no two automatic tags of
    a node share a group, none shares one with a manual tag, and the order in which
    the rules were matched does not matter. *)
Theorem resolve_enforces_mutex_groups nodeID matched manualTagIDs meta :
  NoDup (ru_id <$> matched) →
  let d := Resolve nodeID matched manualTagIDs meta in
  resolution matched manualTagIDs meta d ∧
  (∀ a b, a ∈ matched → b ∈ matched → ru_id a ∈ de_TagIDs d → ru_id b ∈ de_TagIDs d →
     ru_group a ≠ 0 → ru_group a = ru_group b → a = b ∧ manual_occupants meta manualTagIDs !! ru_group a = None) ∧
  (∀ matched', matched' ≡ₚ matched → Resolve nodeID matched' manualTagIDs meta = d).
Proof.
  intros Hnd d. pose proof (Resolve_resolution nodeID matched manualTagIDs meta Hnd) as Hd. fold d in Hd. split_and!.
  - done.
  - intros a b Ha Hb Hia Hib H0 Hg.
    apply (resolution_TagIDs _ _ _ _ a Hd Hnd Ha) in Hia as [?|[Hfree Hfa]]; [done|].
    apply (resolution_TagIDs _ _ _ _ b Hd Hnd Hb) in Hib as [?|[_ Hfb]]; [congruence|].
    split; [|done]. rewrite Forall_forall in Hfa, Hfb. pose proof (Hfa b Hb (eq_sym Hg)). pose proof (Hfb a Ha Hg).
    apply (NoDup_key_inj ru_id matched); [done..|]. unfold precedes in *. lia.
  - intros matched' Hp. unfold d, Resolve. rewrite (merge_sort_key_unique precedes matched' matched); [done| |done].
    intros a b Ha Hb ? ?. apply (NoDup_key_inj ru_id matched'); [by rewrite Hp|done|done|]. unfold precedes in *. lia.
Qed.

(** Three latency bands in one group, and a manual tag of another. *)
Module ResolveSample.
Definition band (id priority : Z) (name : string) (group : Z) : Rule := mkRule (mkTagMeta id name group priority) 1 empty_condition.
Definition matched : list Rule := [band 3 10 "slow" 1; band 2 20 "ok" 1; band 4 30 "fast" 1; band 5 9 "risky" 2; band 6 0 "native" 0].
Definition meta : gmap Z TagMeta := {[9 := mkTagMeta 9 "trusted" 2 0]}.
End ResolveSample.

Lemma resolve_witness :
  de_TagIDs (Resolve 1 ResolveSample.matched [9] ResolveSample.meta) = [4; 6] ∧
  (sn_TagID <$> de_Shadowed (Resolve 1 ResolveSample.matched [9] ResolveSample.meta)) ≡ₚ [2; 3; 5].
Proof.
  assert (Hnd : NoDup (ru_id <$> ResolveSample.matched)) by (vm_compute; repeat (constructor; [set_solver|]); constructor).
  destruct (resolve_enforces_mutex_groups 1 ResolveSample.matched [9] ResolveSample.meta Hnd) as (Hd & _ & _).
  split; [reflexivity|]. etrans; [apply (rn_shadowed _ _ _ _ Hd)|]. vm_compute. solve_Permutation.
Defined.
