(* ===== verification/TagStore.v ===== *)
(** The tables of tags ([internal/store/sqlite_tags.go]) by the effect of their
    statements: tags, mutex groups, the assignments of tags to nodes by hand or by
    rule, the projection [nodes.tags] and the tag filters of the groups.

    A transaction that fails leaves the tables as they were. Foreign keys are
    enforced, as the connection asks. Colours, descriptions and time stamps are
    left out: nothing here reads them. *)
From S2P Require Import Prelude Text Floats NodeRegion NodeFacts NodeRules TagResolve.

#[local] Open Scope Z_scope.

Inductive tag_source := Auto | Manual.
#[export] Instance tag_source_eq_dec : EqDecision tag_source.
Proof. solve_decision. Defined.
#[export] Instance tag_source_countable : Countable tag_source.
Proof.
  refine (inj_countable' (λ s, match s with Auto => false | Manual => true end) (λ b, if b : bool then Manual else Auto) _).
  by intros [].
Defined.

(** An assignment: node, tag, source; the row holds the version of its rule. *)
Definition row_key : Type := Z * Z * tag_source.
Definition row_node (k : row_key) : Z := k.1.1.
Definition row_tag (k : row_key) : Z := k.1.2.
Definition row_source (k : row_key) : tag_source := k.2.

Record tag_db := mkTagDb {
  db_nodes : gmap Z (list string);
  db_tags : gmap Z Tag;
  db_rows : gmap row_key Z;
  db_filters : gmap Z (list Z * list Z);
  db_mutex : gmap Z string;
  db_next : Z;
  db_nextMutex : Z;
  db_nextNode : Z
}.

Definition with_nodes (db : tag_db) (nodes : gmap Z (list string)) : tag_db :=
  mkTagDb nodes (db_tags db) (db_rows db) (db_filters db) (db_mutex db) (db_next db) (db_nextMutex db) (db_nextNode db).
Definition with_tags (db : tag_db) (tags : gmap Z Tag) : tag_db :=
  mkTagDb (db_nodes db) tags (db_rows db) (db_filters db) (db_mutex db) (db_next db) (db_nextMutex db) (db_nextNode db).
Definition with_rows (db : tag_db) (rows : gmap row_key Z) : tag_db :=
  mkTagDb (db_nodes db) (db_tags db) rows (db_filters db) (db_mutex db) (db_next db) (db_nextMutex db) (db_nextNode db).
Definition with_filters (db : tag_db) (filters : gmap Z (list Z * list Z)) : tag_db :=
  mkTagDb (db_nodes db) (db_tags db) (db_rows db) filters (db_mutex db) (db_next db) (db_nextMutex db) (db_nextNode db).

(** ** Helpers *)
Definition add_new {A} `{EqDecision A} (acc : list A) (x : A) : list A := if decide (x ∈ acc) then acc else acc ++ [x].
Definition dedup {A} `{EqDecision A} (l : list A) : list A := foldl add_new [] l.

Definition normalizeIDList (ids : list Z) : list Z := dedup (filter (λ id, 0 < id) ids).
Definition dedupeSorted (values : list string) : list string := merge_sort String.le (dedup values).

(** [id > 0], or SQL's NULL. *)
Definition nullableID (id : Z) : option Z := if id <=? 0 then None else Some id.

Definition removeID (ids : list Z) (target : Z) : list Z * bool :=
  (filter (λ id, id ≠ target) ids, bool_decide (target ∈ ids)).

(** The names of the tags of a node, in no particular order. *)
Definition node_names (db : tag_db) (node : Z) : list string :=
  omap (λ k, if decide (row_node k = node) then tg_Name <$> db_tags db !! row_tag k else None) (map_to_list (db_rows db)).*1.

Definition refreshNodeTagProjection (nodeIDs : list Z) (db : tag_db) : tag_db :=
  with_nodes db
    (foldl (λ nodes id, match nodes !! id with
                        | Some _ => <[id := dedupeSorted (node_names db id)]> nodes
                        | None => nodes
                        end) (db_nodes db) (normalizeIDList nodeIDs)).

(** ** Assignments *)
Definition delete_rows (P : row_key → bool) (db : tag_db) : tag_db :=
  with_rows db (filter (λ kv, P kv.1 = false) (db_rows db)).

Fixpoint insertNodeTags (node : Z) (tagIDs ruleVersions : list Z) (source : tag_source) (db : tag_db) : result tag_db :=
  match tagIDs with
  | [] => Ok db
  | tag :: tagIDs =>
    if tag <=? 0 then insertNodeTags node tagIDs (tail ruleVersions) source db
    else
      match db_nodes db !! node, db_tags db !! tag with
      | Some _, Some _ =>
        insertNodeTags node tagIDs (tail ruleVersions) source
          (with_rows db (<[(node, tag, source) := default 0 (head ruleVersions)]> (db_rows db)))
      | _, _ => Err "FOREIGN KEY constraint failed"
      end
  end.

Definition of_node (node : Z) (source : tag_source) (k : row_key) : bool :=
  bool_decide (row_node k = node ∧ row_source k = source).

Definition SetManualNodeTags (nodeID : Z) (tagIDs : list Z) (db : tag_db) : result tag_db :=
  let? db := insertNodeTags nodeID (normalizeIDList tagIDs) [] Manual (delete_rows (of_node nodeID Manual) db) in
  Ok (refreshNodeTagProjection [nodeID] db).

Fixpoint insert_all (nodes : list Z) (tagIDs : list Z) (source : tag_source) (db : tag_db) : result tag_db :=
  match nodes with
  | [] => Ok db
  | node :: nodes => let? db := insertNodeTags node tagIDs [] source db in insert_all nodes tagIDs source db
  end.

Definition BatchUpdateManualNodeTags (nodeIDs addTagIDs removeTagIDs : list Z) (db : tag_db) : result tag_db :=
  let nodes := normalizeIDList nodeIDs in
  let adds := normalizeIDList addTagIDs in
  let removes := normalizeIDList removeTagIDs in
  if bool_decide (nodes = []) || (bool_decide (adds = []) && bool_decide (removes = [])) then Ok db
  else
    let? db := insert_all nodes adds Manual db in
    let db := delete_rows (λ k, bool_decide (row_node k ∈ nodes ∧ row_tag k ∈ removes ∧ row_source k = Manual)) db in
    Ok (refreshNodeTagProjection nodes db).

(** [store.NodeAutoTagAssignment]: a node, its tags and the versions of their rules. *)
Record AutoAssignment := mkAssignment { as_NodeID : Z; as_TagIDs : list Z; as_RuleVersions : list Z }.

Fixpoint replace_all (assignments : list AutoAssignment) (db : tag_db) : result tag_db :=
  match assignments with
  | [] => Ok db
  | a :: assignments =>
    if as_NodeID a <=? 0 then replace_all assignments db
    else
      let? db := insertNodeTags (as_NodeID a) (as_TagIDs a) (as_RuleVersions a) Auto (delete_rows (of_node (as_NodeID a) Auto) db) in
      replace_all assignments db
  end.

Definition ReplaceAutoNodeTags (assignments : list AutoAssignment) (db : tag_db) : result tag_db :=
  match assignments with
  | [] => Ok db
  | _ =>
    let? db := replace_all assignments db in
    Ok (refreshNodeTagProjection (filter (λ id, 0 < id) (as_NodeID <$> assignments)) db)
  end.

(** ** Queries *)
Record NodeTag := mkNodeTag { nt_NodeID : Z; nt_TagID : Z; nt_Source : tag_source; nt_RuleVersion : Z }.

Definition source_rank (s : tag_source) : Z := match s with Auto => 0 | Manual => 1 end.
Definition node_tag_le (a b : NodeTag) : Prop :=
  nt_NodeID a < nt_NodeID b ∨
  (nt_NodeID a = nt_NodeID b ∧
   (nt_TagID a < nt_TagID b ∨ (nt_TagID a = nt_TagID b ∧ source_rank (nt_Source a) ≤ source_rank (nt_Source b)))).
#[export] Instance node_tag_le_dec : RelDecision node_tag_le.
Proof. intros a b. unfold node_tag_le. apply _. Defined.

Definition matches_ids (ids : list Z) (id : Z) : bool := match ids with [] => true | _ => bool_decide (id ∈ ids) end.

Definition ListNodeTags (nodeIDs tagIDs : list Z) (source : option tag_source) (db : tag_db) : list NodeTag :=
  merge_sort node_tag_le
    ((λ kv : row_key * Z, mkNodeTag (row_node kv.1) (row_tag kv.1) (row_source kv.1) kv.2) <$>
     filter (λ kv : row_key * Z, matches_ids nodeIDs (row_node kv.1) && matches_ids tagIDs (row_tag kv.1) &&
        match source with Some s => bool_decide (row_source kv.1 = s) | None => true end = true) (map_to_list (db_rows db))).

(** Highest priority first, then by id. *)
Definition tag_le (a b : Tag) : Prop := tg_Priority b < tg_Priority a ∨ (tg_Priority a = tg_Priority b ∧ tg_ID a ≤ tg_ID b).
#[export] Instance tag_le_dec : RelDecision tag_le.
Proof. intros a b. unfold tag_le. apply _. Defined.
Definition ListTags (db : tag_db) : list Tag := merge_sort tag_le (map_to_list (db_tags db)).*2.

Definition GetTagByName (name : string) (db : tag_db) : option Tag :=
  List.find (λ t, bool_decide (tg_Name t = name)) (map_to_list (db_tags db)).*2.

(** ** Tags *)
Definition set_id (id version : Z) (t : Tag) : Tag :=
  mkTag id (tg_Name t) (default 0 (nullableID (tg_MutexGroupID t))) (tg_Priority t) (tg_AutoEnabled t) (tg_RuleJSON t) version (tg_BuiltinKey t).

(** The constraints of the row: a unique name and an existing group. *)
Definition tag_fits (id : Z) (t : Tag) (db : tag_db) : bool :=
  match GetTagByName (tg_Name t) (with_tags db (delete id (db_tags db))) with Some _ => false | None => true end &&
  match nullableID (tg_MutexGroupID t) with Some g => bool_decide (is_Some (db_mutex db !! g)) | None => true end.

Definition CreateTag (t : Tag) (db : tag_db) : result (Z * tag_db) :=
  let version := if tg_RuleVersion t <? 1 then 1 else tg_RuleVersion t in
  let id := db_next db in
  if negb (tag_fits id t db) then Err "create tag"
  else Ok (id, mkTagDb (db_nodes db) (<[id := set_id id version t]> (db_tags db)) (db_rows db) (db_filters db) (db_mutex db) (id + 1) (db_nextMutex db) (db_nextNode db)).

Definition UpdateTag (t : Tag) (db : tag_db) : result tag_db :=
  match db_tags db !! tg_ID t with
  | None => Err "tag not found"
  | Some _ =>
    if negb (tag_fits (tg_ID t) t db) then Err "update tag"
    else Ok (with_tags db (<[tg_ID t := set_id (tg_ID t) (tg_RuleVersion t) t]> (db_tags db)))
  end.

Definition nodeIDsForTag (tag : Z) (db : tag_db) : list Z :=
  dedup (row_node <$> filter (λ k, row_tag k = tag) (map_to_list (db_rows db)).*1).

Definition removeTagFromGroupFilters (tag : Z) (db : tag_db) : tag_db :=
  with_filters db ((λ wb : list Z * list Z, ((removeID wb.1 tag).1, (removeID wb.2 tag).1)) <$> db_filters db).

Definition DeleteTag (id : Z) (db : tag_db) : result tag_db :=
  let affected := nodeIDsForTag id db in
  match db_tags db !! id with
  | None => Err "tag not found"
  | Some _ =>
    let db := delete_rows (λ k, bool_decide (row_tag k = id)) (with_tags db (delete id (db_tags db))) in
    Ok (refreshNodeTagProjection affected (removeTagFromGroupFilters id db))
  end.

(** ** Mutex groups *)
Definition has_name (name : string) (m : gmap Z string) : bool := existsb (λ kv, bool_decide (kv.2 = name)) (map_to_list m).

Definition CreateTagMutexGroup (name : string) (db : tag_db) : result (Z * tag_db) :=
  let id := db_nextMutex db in
  if has_name name (db_mutex db) then Err "create tag mutex group"
  else Ok (id, mkTagDb (db_nodes db) (db_tags db) (db_rows db) (db_filters db) (<[id := name]> (db_mutex db)) (db_next db) (id + 1) (db_nextNode db)).

Definition DeleteTagMutexGroup (id : Z) (db : tag_db) : result tag_db :=
  match db_mutex db !! id with
  | None => Err "tag mutex group not found"
  | Some _ =>
    let detach (t : Tag) := if decide (tg_MutexGroupID t = id)
                            then mkTag (tg_ID t) (tg_Name t) 0 (tg_Priority t) (tg_AutoEnabled t) (tg_RuleJSON t) (tg_RuleVersion t) (tg_BuiltinKey t)
                            else t in
    Ok (mkTagDb (db_nodes db) (detach <$> db_tags db) (db_rows db) (db_filters db) (delete id (db_mutex db)) (db_next db) (db_nextMutex db) (db_nextNode db))
  end.

(** ** Nodes ([sqlite.go], what concerns their tags) *)

(** [INSERT OR IGNORE INTO tags (name)] and the lookup of its id. *)
Definition ensure_tag (name : string) (db : tag_db) : Z * tag_db :=
  match GetTagByName name db with
  | Some t => (tg_ID t, db)
  | None =>
    let id := db_next db in
    (id, mkTagDb (db_nodes db) (<[id := mkTag id name 0 0 false "" 1 ""]> (db_tags db)) (db_rows db) (db_filters db) (db_mutex db)
           (id + 1) (db_nextMutex db) (db_nextNode db))
  end.

Fixpoint ensure_tags (names : list string) (db : tag_db) : list Z * tag_db :=
  match names with
  | [] => ([], db)
  | name :: names =>
    let name := TrimSpace name in
    if decide (name = "") then ensure_tags names db
    else
      let '(id, db) := ensure_tag name db in
      let '(ids, db) := ensure_tags names db in (id :: ids, db)
  end.

Definition materializeManualNodeTags (node : Z) (names : list string) (db : tag_db) : result tag_db :=
  match dedupeSorted names with
  | [] => Ok db
  | wanted =>
    let '(ids, db) := ensure_tags wanted db in
    let? db := insertNodeTags node ids [] Manual db in
    Ok (refreshNodeTagProjection [node] db)
  end.

Definition createNode (names : list string) (db : tag_db) : result (Z * tag_db) :=
  let id := db_nextNode db in
  let db := mkTagDb (<[id := names]> (db_nodes db)) (db_tags db) (db_rows db) (db_filters db) (db_mutex db)
              (db_next db) (db_nextMutex db) (id + 1) in
  let? db := materializeManualNodeTags id names db in Ok (id, db).

(** The rows of a deleted node go with it. *)
Definition DeleteNode (node : Z) (db : tag_db) : result tag_db :=
  match db_nodes db !! node with
  | None => Err "node not found"
  | Some _ => Ok (delete_rows (λ k, bool_decide (row_node k = node)) (with_nodes db (delete node (db_nodes db))))
  end.

(** A node whose connection changed loses its automatic tags with its facts. *)
Definition clearNodeDetectionCache (node : Z) (db : tag_db) : tag_db :=
  refreshNodeTagProjection [node] (delete_rows (of_node node Auto) db).

(** ** Lists without duplicates *)
Lemma elem_of_foldl_add_new {A} `{EqDecision A} (l acc : list A) x : x ∈ foldl add_new acc l ↔ x ∈ acc ∨ x ∈ l.
Proof.
  revert acc. induction l as [|y l IH]; intros acc; cbn; [set_solver|]. rewrite IH. unfold add_new.
  case_decide; set_solver.
Qed.
Lemma NoDup_foldl_add_new {A} `{EqDecision A} (l acc : list A) : NoDup acc → NoDup (foldl add_new acc l).
Proof.
  revert acc. induction l as [|y l IH]; intros acc Hacc; cbn; [done|]. apply IH. unfold add_new. case_decide; [done|].
  apply NoDup_app. split_and!; [done|set_solver|]. repeat constructor. set_solver.
Qed.
Lemma elem_of_dedup {A} `{EqDecision A} (l : list A) x : x ∈ dedup l ↔ x ∈ l.
Proof. unfold dedup. rewrite elem_of_foldl_add_new. set_solver. Qed.
Lemma NoDup_dedup {A} `{EqDecision A} (l : list A) : NoDup (dedup l).
Proof. apply NoDup_foldl_add_new. constructor. Qed.

Lemma elem_of_normalizeIDList ids id : id ∈ normalizeIDList ids ↔ 0 < id ∧ id ∈ ids.
Proof. unfold normalizeIDList. by rewrite elem_of_dedup, list_elem_of_filter. Qed.

Lemma elem_of_dedupeSorted l x : x ∈ dedupeSorted l ↔ x ∈ l.
Proof. unfold dedupeSorted. by rewrite merge_sort_Permutation, elem_of_dedup. Qed.

(** A sorted list of names is determined by its elements. *)
Lemma dedupeSorted_ext l l' : (∀ x, x ∈ l ↔ x ∈ l') → dedupeSorted l = dedupeSorted l'.
Proof.
  intros Hx. unfold dedupeSorted. apply (StronglySorted_unique String.le).
  - apply (StronglySorted_merge_sort String.le).
  - apply (StronglySorted_merge_sort String.le).
  - rewrite !merge_sort_Permutation. apply NoDup_Permutation; [apply NoDup_dedup..|].
    intros x. by rewrite !elem_of_dedup.
Qed.

Lemma dedupeSorted_inj l l' : dedupeSorted l = dedupeSorted l' → ∀ x, x ∈ l ↔ x ∈ l'.
Proof. intros Heq x. by rewrite <-(elem_of_dedupeSorted l), Heq, elem_of_dedupeSorted. Qed.

(** ** The projection *)
Definition projection_of (db : tag_db) (node : Z) : list string := dedupeSorted (node_names db node).

Lemma elem_of_node_names db node x :
  x ∈ node_names db node ↔ ∃ tag source v t, db_rows db !! (node, tag, source) = Some v ∧ db_tags db !! tag = Some t ∧ tg_Name t = x.
Proof.
  unfold node_names. rewrite list_elem_of_omap. split.
  - intros (k & Hk & Hx). apply list_elem_of_fmap in Hk as ([k' v] & -> & Hk%elem_of_map_to_list). cbn in *.
    case_decide as Hn; [|done]. destruct k' as [[n tag] source]. cbn in *. subst n.
    destruct (db_tags db !! tag) as [t|] eqn:Ht; [|done]. cbn in Hx. simplify_eq. eauto 8.
  - intros (tag & source & v & t & Hrow & Ht & <-). exists (node, tag, source). split.
    + apply list_elem_of_fmap. exists (node, tag, source, v). split; [done|]. by apply elem_of_map_to_list.
    + rewrite decide_True by done. cbn. by rewrite Ht.
Qed.

Lemma refresh_lookup ids db node :
  db_nodes (refreshNodeTagProjection ids db) !! node =
    if decide (0 < node ∧ node ∈ ids) then (λ _, projection_of db node) <$> db_nodes db !! node else db_nodes db !! node.
Proof.
  unfold refreshNodeTagProjection. cbn [db_nodes with_nodes].
  assert (Hgen : ∀ l nodes, foldl (λ nodes id, match nodes !! id with
      | Some _ => <[id := dedupeSorted (node_names db id)]> nodes | None => nodes end) nodes l !! node =
      if decide (node ∈ l) then (λ _, projection_of db node) <$> (nodes : gmap Z (list string)) !! node else nodes !! node).
  { induction l as [|id l IH]; intros nodes; cbn; [done|]. rewrite IH. clear IH.
    destruct (decide (node = id)) as [->|Hne].
    - rewrite (decide_True (P := id ∈ id :: l)) by (by left). destruct (nodes !! id) as [names|] eqn:E.
      + rewrite lookup_insert_eq. cbn. by case_decide.
      + rewrite E. by case_decide.
    - assert (Hlook : (match nodes !! id with Some _ => <[id := dedupeSorted (node_names db id)]> nodes | None => nodes end) !! node = nodes !! node).
      { destruct (nodes !! id); [by rewrite lookup_insert_ne|done]. }
      rewrite Hlook. destruct (decide (node ∈ l)); [rewrite decide_True by (by right)|rewrite decide_False by set_solver]; done. }
  rewrite Hgen. destruct (decide (node ∈ normalizeIDList ids)) as [Hin|Hin]; rewrite elem_of_normalizeIDList in Hin.
  - by rewrite decide_True.
  - by rewrite decide_False.
Qed.

(** ** The invariant of the tables *)
Record tag_wf (db : tag_db) : Prop := {
  wf_tags : ∀ id t, db_tags db !! id = Some t → tg_ID t = id ∧ 0 < id < db_next db ∧ tg_Name t ≠ "";
  wf_names : ∀ i j t u, db_tags db !! i = Some t → db_tags db !! j = Some u → tg_Name t = tg_Name u → i = j;
  wf_next : 0 < db_next db ∧ 0 < db_nextNode db;
  wf_rows : ∀ node tag source v, db_rows db !! (node, tag, source) = Some v → is_Some (db_nodes db !! node) ∧ is_Some (db_tags db !! tag);
  wf_nodes : ∀ node, is_Some (db_nodes db !! node) → 0 < node < db_nextNode db
}.

(** The column of every node is the projection of its assignments; or of every node
    but those in [stale], which carry a tag that was renamed and have not been
    rewritten since. *)
Definition projected_but (stale : gset Z) (db : tag_db) : Prop :=
  ∀ node names, db_nodes db !! node = Some names → node ∉ stale → names = projection_of db node.
Definition projected (db : tag_db) : Prop := ∀ node names, db_nodes db !! node = Some names → names = projection_of db node.

Lemma projected_but_none db : projected_but ∅ db ↔ projected db.
Proof. split; intros Hp node names Hn; [apply (Hp node names Hn); set_solver|intros _; by apply Hp]. Qed.

Lemma projection_of_ext db db' node :
  db_tags db = db_tags db' → (∀ tag source, db_rows db !! (node, tag, source) = db_rows db' !! (node, tag, source)) →
  projection_of db node = projection_of db' node.
Proof. intros Ht Hr. apply dedupeSorted_ext. intros x. rewrite !elem_of_node_names. rewrite Ht. by setoid_rewrite Hr. Qed.

Lemma projection_of_refresh ids db node : projection_of (refreshNodeTagProjection ids db) node = projection_of db node.
Proof. by apply projection_of_ext. Qed.

(** Refreshing the nodes whose tags changed restores the invariant. *)
Lemma refresh_projected S ids db db' :
  tag_wf db' → projected_but S db → db_nodes db' = db_nodes db →
  (∀ node, 0 < node → node ∉ ids → node ∉ S → projection_of db' node = projection_of db node) →
  projected_but (S ∖ list_to_set ids) (refreshNodeTagProjection ids db').
Proof.
  intros Hwf Hp Hn Hr node names. rewrite refresh_lookup, projection_of_refresh. case_decide as Hd.
  - rewrite fmap_Some. by intros (? & _ & ->).
  - intros Hnames Hin. rewrite Hn in Hnames.
    assert (Hpos : 0 < node) by (apply (wf_nodes _ Hwf); rewrite Hn, Hnames; done).
    assert (Hids : node ∉ ids) by (intros Hid; by apply Hd).
    assert (HS : node ∉ S) by (intros HS; apply Hin; rewrite elem_of_difference, elem_of_list_to_set; by split).
    rewrite (Hp _ _ Hnames HS). symmetry. by apply Hr.
Qed.

Lemma refresh_wf ids db : tag_wf db → tag_wf (refreshNodeTagProjection ids db).
Proof.
  intros [Ht Hn Hx Hr Hno].
  assert (Hsame : ∀ node, is_Some (db_nodes (refreshNodeTagProjection ids db) !! node) ↔ is_Some (db_nodes db !! node)).
  { intros node. rewrite refresh_lookup. case_decide; [|done]. by rewrite fmap_is_Some. }
  constructor; cbn [db_tags db_rows db_next db_nextNode refreshNodeTagProjection with_nodes]; [done..| |].
  - intros node tag source v Hv. rewrite Hsame. by apply (Hr node tag source v).
  - intros node Hs. by apply Hno, Hsame.
Qed.

Lemma delete_rows_lookup P db k : db_rows (delete_rows P db) !! k = if P k then None else db_rows db !! k.
Proof.
  cbn. destruct (P k) eqn:Hp.
  - apply map_lookup_filter_None. right. intros v _. cbn. by rewrite Hp.
  - destruct (db_rows db !! k) as [v|] eqn:Hk.
    + by apply map_lookup_filter_Some.
    + apply map_lookup_filter_None. by left.
Qed.

Lemma delete_rows_wf P db : tag_wf db → tag_wf (delete_rows P db).
Proof.
  intros [Ht Hn Hx Hr Hno]. constructor; [done..| |done]. intros node tag source v Hv. rewrite delete_rows_lookup in Hv.
  destruct (P _); [done|]. by apply (Hr node tag source v).
Qed.

(** What an insertion changes: rows of the node, of the listed tags, with the source. *)
Lemma insertNodeTags_Ok node ids versions source db db' :
  insertNodeTags node ids versions source db = Ok db' → tag_wf db →
  tag_wf db' ∧ db_nodes db' = db_nodes db ∧ db_tags db' = db_tags db ∧
  (∀ n tag s, (n, s) ≠ (node, source) ∨ tag ∉ ids → db_rows db' !! (n, tag, s) = db_rows db !! (n, tag, s)) ∧
  (NoDup ids → ∀ i tag, ids !! i = Some tag → 0 < tag →
     db_rows db' !! (node, tag, source) = Some (default 0 (versions !! i))).
Proof.
  revert versions db. induction ids as [|t ids IH]; intros versions db Hins Hwf; cbn in Hins; [simplify_eq; by split_and!|].
  assert (Hv : ∀ i, tail versions !! i = versions !! S i) by (by intros i; destruct versions).
  destruct (Z.leb_spec t 0) as [Hneg|Hpos].
  - destruct (IH _ _ Hins Hwf) as (Hwf' & Hn & Ht & Hother & Hnew). split_and!; [done|done|done| |].
    + intros n tag s Hk. apply Hother. set_solver.
    + intros [_ Hnd]%NoDup_cons i tag Hi Htag. destruct i as [|i]; cbn in Hi; [simplify_eq; lia|].
      rewrite <-Hv. by apply Hnew.
  - destruct (db_nodes db !! node) as [names|] eqn:Hnode; [|done]. destruct (db_tags db !! t) as [row|] eqn:Htag; [|done].
    set (v := default 0 (head versions)) in *.
    assert (Hwf1 : tag_wf (with_rows db (<[(node, t, source) := v]> (db_rows db)))).
    { destruct Hwf as [H1 H2 H3 H4 H5]. constructor; [done..| |done]. cbn. intros n tag s w Hw.
      apply lookup_insert_Some in Hw as [[Heq _]|[_ Hw]]; [simplify_eq; by rewrite Hnode, Htag|by apply (H4 n tag s w)]. }
    destruct (IH _ _ Hins Hwf1) as (Hwf' & Hn & Ht & Hother & Hnew). split_and!; [done|done|done| |].
    + intros n tag s Hk. rewrite Hother by set_solver. cbn. apply lookup_insert_ne. intros Heq. simplify_eq. set_solver.
    + intros [Hfresh Hnd]%NoDup_cons i tag Hi Hpt. destruct i as [|i]; cbn in Hi.
      * simplify_eq. rewrite Hother by auto. cbn. rewrite lookup_insert_eq. subst v. by destruct versions.
      * rewrite <-Hv. by apply Hnew.
Qed.

(** The table with other rows for some nodes only. *)
Definition rows_changed (nodes : list Z) (db db' : tag_db) : Prop :=
  tag_wf db' ∧ db_nodes db' = db_nodes db ∧ db_tags db' = db_tags db ∧
  (∀ n tag s, n ∉ nodes → db_rows db' !! (n, tag, s) = db_rows db !! (n, tag, s)).

Lemma rows_changed_trans nodes db1 db2 db3 : rows_changed nodes db1 db2 → rows_changed nodes db2 db3 → rows_changed nodes db1 db3.
Proof.
  intros (_ & Hn & Ht & Hr) (Hwf & Hn' & Ht' & Hr'). split_and!; [done|congruence|congruence|].
  intros n tag s Hin. by rewrite Hr', Hr.
Qed.

Lemma rows_changed_delete P nodes db :
  tag_wf db → (∀ k, P k = true → row_node k ∈ nodes) → rows_changed nodes db (delete_rows P db).
Proof.
  intros Hwf HP. split_and!; [by apply delete_rows_wf|done|done|]. intros n tag s Hin. rewrite delete_rows_lookup.
  destruct (P _) eqn:E; [|done]. by apply HP in E.
Qed.

Lemma rows_changed_insert node ids versions source nodes db db' :
  tag_wf db → node ∈ nodes → insertNodeTags node ids versions source db = Ok db' → rows_changed nodes db db'.
Proof.
  intros Hwf Hin Hok. destruct (insertNodeTags_Ok _ _ _ _ _ _ Hok Hwf) as (? & ? & ? & Hother & _).
  split_and!; [done..|]. intros n tag s Hn. apply Hother. left. intros Heq. simplify_eq. done.
Qed.

Lemma insert_all_changed nodes all ids source db db' :
  tag_wf db → nodes ⊆ all → insert_all nodes ids source db = Ok db' → rows_changed all db db'.
Proof.
  revert db. induction nodes as [|node nodes IH]; intros db Hwf Hsub Hok; cbn in Hok; [simplify_eq; by split_and!|].
  apply result_bind_Ok in Hok as (db1 & H1 & H2).
  assert (Hin : node ∈ all) by set_solver. pose proof (rows_changed_insert _ _ _ _ all _ _ Hwf Hin H1) as Hc.
  eapply rows_changed_trans; [exact Hc|]. apply IH; [apply Hc|set_solver|done].
Qed.

Lemma list_to_map_zip (ids versions : list Z) tag :
  NoDup ids → length ids = length versions →
  (list_to_map (zip ids versions) : gmap Z Z) !! tag =
    match list_find (λ x, x = tag) ids with Some (i, _) => Some (default 0 (versions !! i)) | None => None end.
Proof.
  intros Hnd. revert versions. induction Hnd as [|t ids Ht Hnd IH]; intros [|v versions] Hlen; try done; cbn.
  injection Hlen as Hlen. destruct (decide (t = tag)) as [->|Hne].
  - by rewrite lookup_insert_eq.
  - rewrite lookup_insert_ne by done. rewrite (IH _ Hlen). by destruct (list_find _ ids) as [[i x]|].
Qed.

(** An assignment as the resolver makes them. *)
Definition assignment_ok (a : AutoAssignment) : Prop :=
  NoDup (as_TagIDs a) ∧ Forall (λ t, 0 < t) (as_TagIDs a) ∧ length (as_TagIDs a) = length (as_RuleVersions a).

Definition assigned (a : AutoAssignment) : gmap Z Z := list_to_map (zip (as_TagIDs a) (as_RuleVersions a)).

Lemma replace_one_Ok a db db' :
  tag_wf db → assignment_ok a →
  insertNodeTags (as_NodeID a) (as_TagIDs a) (as_RuleVersions a) Auto (delete_rows (of_node (as_NodeID a) Auto) db) = Ok db' →
  ∀ tag, db_rows db' !! (as_NodeID a, tag, Auto) = assigned a !! tag.
Proof.
  intros Hwf (Hnd & Hpos & Hlen) Hok tag.
  destruct (insertNodeTags_Ok _ _ _ _ _ _ Hok (delete_rows_wf _ _ Hwf)) as (_ & _ & _ & Hother & Hnew).
  unfold assigned. rewrite list_to_map_zip by done. destruct (list_find _ _) as [[i t]|] eqn:Hf.
  - apply list_find_Some in Hf as (Hi & -> & _). apply Hnew; [done|done|].
    rewrite Forall_forall in Hpos. apply Hpos. by eapply list_elem_of_lookup_2.
  - apply list_find_None in Hf. rewrite Hother.
    + rewrite delete_rows_lookup. unfold of_node. by rewrite bool_decide_true.
    + right. intros Hin. rewrite Forall_forall in Hf. by apply (Hf _ Hin).
Qed.

Lemma replace_all_Ok l db db' :
  replace_all l db = Ok db' → tag_wf db →
  rows_changed (filter (λ id, 0 < id) (as_NodeID <$> l)) db db' ∧
  (∀ n tag, db_rows db' !! (n, tag, Manual) = db_rows db !! (n, tag, Manual)) ∧
  (NoDup (as_NodeID <$> l) → ∀ a, a ∈ l → 0 < as_NodeID a → assignment_ok a →
     ∀ tag, db_rows db' !! (as_NodeID a, tag, Auto) = assigned a !! tag).
Proof.
  revert db. induction l as [|a l IH]; intros db Hok Hwf; cbn in Hok.
  { simplify_eq. split_and!; [by split_and!|done|set_solver]. }
  destruct (Z.leb_spec (as_NodeID a) 0) as [Hneg|Hpos].
  - destruct (IH _ Hok Hwf) as ((? & ? & ? & Hr) & Hm & Hex). split_and!; [split_and!; [done..|]|done|].
    + intros n tag s Hn. apply Hr. rewrite fmap_cons, filter_cons_False in Hn by lia. done.
    + intros [_ Hnd]%NoDup_cons b [->|Hb]%elem_of_cons; [lia|]. by apply Hex.
  - apply result_bind_Ok in Hok as (db1 & H1 & H2).
    assert (Hwf0 : tag_wf (delete_rows (of_node (as_NodeID a) Auto) db)) by by apply delete_rows_wf.
    assert (Hc1 : rows_changed [as_NodeID a] db db1).
    { eapply rows_changed_trans; [|eapply rows_changed_insert; [exact Hwf0|by left|exact H1]].
      apply rows_changed_delete; [done|]. unfold of_node. intros k [Hk _]%bool_decide_eq_true. rewrite Hk. by left. }
    destruct Hc1 as (Hwf1 & Hn1 & Ht1 & Hr1). destruct (IH _ H2 Hwf1) as ((Hwf' & Hn & Ht & Hr) & Hm & Hex).
    split_and!; [split_and!; [done|congruence|congruence|]| |].
    + intros n tag s Hin. rewrite fmap_cons, filter_cons_True in Hin by lia. rewrite Hr by set_solver. apply Hr1. set_solver.
    + intros n tag. rewrite Hm.
      destruct (insertNodeTags_Ok _ _ _ _ _ _ H1 Hwf0) as (_ & _ & _ & Hother & _).
      rewrite Hother by (left; intros Heq; simplify_eq). rewrite delete_rows_lookup. unfold of_node.
      by rewrite bool_decide_false by (intros [_ ?]; done).
    + intros [Hnew Hnd]%NoDup_cons b [->|Hb]%elem_of_cons Hbpos Hbok tag; [|by apply Hex].
      rewrite Hr by (intros [_ ?]%list_elem_of_filter; done). by apply (replace_one_Ok a db).
Qed.

(** ** Every operation keeps the invariant *)
Definition good (S : gset Z) (db : tag_db) : Prop := tag_wf db ∧ projected_but S db.

Lemma good_rows_refreshed S nodes db db' :
  good S db → rows_changed nodes db db' → good (S ∖ list_to_set nodes) (refreshNodeTagProjection nodes db').
Proof.
  intros [Hwf Hp] (Hwf' & Hn & Ht & Hr). split; [by apply refresh_wf|]. apply (refresh_projected S nodes db); [done..|].
  intros node _ Hin _. apply projection_of_ext; [done|]. intros tag source. by apply Hr.
Qed.

Lemma good_weaken S S' db : S ⊆ S' → good S db → good S' db.
Proof. intros Hs [Hwf Hp]. split; [done|]. intros node names Hn Hin. apply (Hp _ _ Hn). set_solver. Qed.

Lemma SetManualNodeTags_good S n ids db db' : good S db → SetManualNodeTags n ids db = Ok db' → good (S ∖ {[n]}) db'.
Proof.
  intros Hg (db1 & H1 & [= <-])%result_bind_Ok. replace ({[n]} : gset Z) with (list_to_set [n] : gset Z) by set_solver.
  apply (good_rows_refreshed S [n] db); [done|]. destruct Hg as [Hwf _].
  eapply rows_changed_trans; [|eapply rows_changed_insert; [by apply delete_rows_wf|by left|exact H1]].
  apply rows_changed_delete; [done|]. unfold of_node. intros k [Hk _]%bool_decide_eq_true. rewrite Hk. by left.
Qed.

(** The nodes a batch rewrites. *)
Definition batch_nodes (nodes adds removes : list Z) : list Z :=
  if bool_decide (normalizeIDList adds = []) && bool_decide (normalizeIDList removes = []) then [] else normalizeIDList nodes.

Lemma BatchUpdateManualNodeTags_good S nodes adds removes db db' :
  good S db → BatchUpdateManualNodeTags nodes adds removes db = Ok db' → good (S ∖ list_to_set (batch_nodes nodes adds removes)) db'.
Proof.
  intros Hg. unfold BatchUpdateManualNodeTags, batch_nodes.
  assert (∀ S', good S db → S' = ∅ → good (S ∖ S') db) as Hkeep by (intros S' ? ->; by rewrite difference_empty_L).
  destruct (bool_decide _ && bool_decide _) eqn:Hno; [rewrite orb_true_r; intros [= <-]; by apply Hkeep|].
  rewrite orb_false_r. destruct (bool_decide (normalizeIDList nodes = [])) eqn:Hnone.
  { apply bool_decide_eq_true in Hnone. rewrite Hnone. intros [= <-]. by apply Hkeep. }
  intros (db1 & H1 & [= <-])%result_bind_Ok. apply (good_rows_refreshed S _ db); [done|]. destruct Hg as [Hwf _].
  pose proof (insert_all_changed _ _ _ _ _ _ Hwf (reflexivity _) H1) as Hc.
  eapply rows_changed_trans; [exact Hc|]. apply rows_changed_delete; [apply Hc|].
  by intros k (Hk & _ & _)%bool_decide_eq_true.
Qed.

Lemma ReplaceAutoNodeTags_good S l db db' :
  good S db → ReplaceAutoNodeTags l db = Ok db' → good (S ∖ list_to_set (as_NodeID <$> l)) db'.
Proof.
  intros Hg. destruct l as [|a l]; [intros [= <-]; cbn; by rewrite difference_empty_L|]. unfold ReplaceAutoNodeTags.
  intros (db1 & H1 & [= <-])%result_bind_Ok. split; [apply refresh_wf; by apply replace_all_Ok in H1 as ((? & _) & _); [|apply Hg]|].
  apply replace_all_Ok in H1 as (Hc & _); [|apply Hg]. destruct (good_rows_refreshed S _ db _ Hg Hc) as [Hwf Hp].
  intros node names Hn Hin. apply (Hp _ _ Hn). intros [HS Hd]%elem_of_difference. apply Hin.
  apply elem_of_difference. split; [done|]. intros Hl%elem_of_list_to_set. apply Hd, elem_of_list_to_set, list_elem_of_filter.
  split; [|done]. apply (wf_nodes _ Hwf node). by exists names.
Qed.

Lemma clearNodeDetectionCache_good S n db : good S db → good (S ∖ {[n]}) (clearNodeDetectionCache n db).
Proof.
  intros Hg. replace ({[n]} : gset Z) with (list_to_set [n] : gset Z) by set_solver.
  apply (good_rows_refreshed S [n] db); [done|]. apply rows_changed_delete; [apply Hg|].
  unfold of_node. intros k [Hk _]%bool_decide_eq_true. rewrite Hk. by left.
Qed.

(** Names are unique: the lookup finds the tag. *)
Lemma GetTagByName_Some name db t :
  GetTagByName name db = Some t → tg_Name t = name ∧ ∃ id, db_tags db !! id = Some t.
Proof.
  unfold GetTagByName. intros [Hin Hn]%List.find_some. apply bool_decide_eq_true in Hn. split; [done|].
  apply list_elem_of_In, list_elem_of_fmap in Hin as ([id u] & -> & Hin%elem_of_map_to_list). eauto.
Qed.
Lemma GetTagByName_None name db id t : GetTagByName name db = None → db_tags db !! id = Some t → tg_Name t ≠ name.
Proof.
  unfold GetTagByName. intros Hf Ht Heq. pose proof (List.find_none _ _ Hf t) as Hn.
  assert (Hin : In t (map_to_list (db_tags db)).*2).
  { apply list_elem_of_In, list_elem_of_fmap. exists (id, t). split; [done|by apply elem_of_map_to_list]. }
  specialize (Hn Hin). by apply bool_decide_eq_false in Hn.
Qed.

(** Storing a row whose name no other tag has. *)
Lemma store_tag_wf id t db :
  tag_wf db → tg_ID t = id → 0 < id < db_next db → tg_Name t ≠ "" →
  (∀ j u, j ≠ id → db_tags db !! j = Some u → tg_Name u ≠ tg_Name t) →
  tag_wf (with_tags db (<[id := t]> (db_tags db))).
Proof.
  intros [Ht Hn Hx Hr Hno] Hid Hpos Hne Huniq. constructor; cbn [with_tags db_tags db_rows db_nodes db_next db_nextNode].
  - intros j u Hj. apply lookup_insert_Some in Hj as [[-> ->]|[_ Hj]]; [done|by apply Ht].
  - intros i j u w Hi Hj Heq. apply lookup_insert_Some in Hi as [[-> ->]|[Hi Hi']], Hj as [[-> ->]|[Hj Hj']]; [done| | |].
    + exfalso. by apply (Huniq j w).
    + exfalso. by apply (Huniq i u).
    + by apply (Hn i j u w).
  - done.
  - intros node tag source v Hv. destruct (Hr _ _ _ _ Hv) as [? Hs]. split; [done|]. by apply lookup_insert_is_Some'; right.
  - done.
Qed.

(** A change of the tables that no node sees. *)
Definition quiet (db db' : tag_db) : Prop :=
  tag_wf db' ∧ db_nodes db' = db_nodes db ∧ ∀ node, projection_of db' node = projection_of db node.

Lemma quiet_good S db db' : good S db → quiet db db' → good S db'.
Proof. intros [_ Hp] (Hwf & Hn & Hq). split; [done|]. intros node names Hnames Hin. rewrite Hn in Hnames. by rewrite Hq, <-(Hp _ _ Hnames Hin). Qed.

Lemma quiet_trans db1 db2 db3 : quiet db1 db2 → quiet db2 db3 → quiet db1 db3.
Proof. intros (_ & Hn & Hq) (Hwf & Hn' & Hq'). split_and!; [done|congruence|]. intros node. by rewrite Hq'. Qed.

(** A new tag is on no node. *)
Lemma fresh_tag_quiet t db nextMutex :
  tag_wf db → tg_ID t = db_next db → tg_Name t ≠ "" → (∀ j u, db_tags db !! j = Some u → tg_Name u ≠ tg_Name t) →
  quiet db (mkTagDb (db_nodes db) (<[db_next db := t]> (db_tags db)) (db_rows db) (db_filters db) (db_mutex db)
          (db_next db + 1) nextMutex (db_nextNode db)).
Proof.
  intros [Ht Hn Hx Hr Hno] Hid Hne Huniq.
  assert (Hwf : tag_wf (mkTagDb (db_nodes db) (db_tags db) (db_rows db) (db_filters db) (db_mutex db) (db_next db + 1) nextMutex (db_nextNode db))).
  { constructor; cbn; [|done|lia|done|done]. intros id u Hu. destruct (Ht _ _ Hu) as (? & ? & ?). split_and!; [done|lia|lia|done]. }
  split_and!; [|done|].
  - apply (store_tag_wf (db_next db) t _ Hwf); [done|cbn; lia|done|]. intros j u _ Hj. by apply (Huniq j u).
  - intros node. apply dedupeSorted_ext. intros x.
    rewrite !elem_of_node_names. cbn. apply exist_proper; intros tag. apply exist_proper; intros source. apply exist_proper; intros v.
    apply exist_proper; intros u. split; intros (Hrow & Htag & Hname).
    + destruct (Hr _ _ _ _ Hrow) as [_ [w Hw]]. destruct (Ht _ _ Hw) as (_ & ? & _).
      rewrite lookup_insert_ne in Htag by lia. done.
    + destruct (Ht _ _ Htag) as (_ & ? & _). rewrite lookup_insert_ne by lia. done.
Qed.

Lemma tag_fits_unique id t db j u :
  tag_fits id t db = true → j ≠ id → db_tags db !! j = Some u → tg_Name u ≠ tg_Name t.
Proof.
  unfold tag_fits. intros [Hf _]%andb_prop Hne Hj. destruct (GetTagByName _ _) eqn:E; [done|].
  apply (GetTagByName_None _ _ j u E). cbn. by rewrite lookup_delete_ne.
Qed.

Lemma CreateTag_good S t db id db' : good S db → tg_Name t ≠ "" → CreateTag t db = Ok (id, db') → good S db'.
Proof.
  intros Hg Hne. unfold CreateTag. destruct (tag_fits _ _ _) eqn:Hf; [|done]. intros [= <- <-].
  apply (quiet_good S db); [done|]. apply (fresh_tag_quiet (set_id (db_next db) _ t)); [apply Hg|done|done|]. intros j u Hj. cbn.
  apply (tag_fits_unique (db_next db) t db j u Hf); [|done]. intros ->.
  destruct Hg as [Hwf _]. destruct (wf_tags _ Hwf _ _ Hj) as (_ & ? & _). lia.
Qed.

(** An update keeps the tables well-formed; it changes the names of the nodes that
    carry the tag, when it changes its name. *)
Lemma UpdateTag_wf t db db' :
  tag_wf db → tg_Name t ≠ "" → UpdateTag t db = Ok db' →
  tag_wf db' ∧ db_nodes db' = db_nodes db ∧ db_rows db' = db_rows db ∧
  ∃ old, db_tags db !! tg_ID t = Some old ∧
    ∀ node, tg_Name old = tg_Name t ∨ (∀ source v, db_rows db !! (node, tg_ID t, source) ≠ Some v) →
      projection_of db' node = projection_of db node.
Proof.
  intros Hwf Hne. unfold UpdateTag. destruct (db_tags db !! tg_ID t) as [old|] eqn:Hold; [|done].
  destruct (tag_fits _ _ _) eqn:Hf; [|done]. intros [= <-]. split_and!; [|done|done|].
  - destruct (wf_tags _ Hwf _ _ Hold) as (_ & ? & _). apply store_tag_wf; [done|done|done|done|].
    intros j u Hj Hu. exact (tag_fits_unique (tg_ID t) t db j u Hf Hj Hu).
  - exists old. split; [done|]. intros node Hwhy. apply dedupeSorted_ext. intros x. rewrite !elem_of_node_names. cbn.
    apply exist_proper; intros tag. apply exist_proper; intros source. apply exist_proper; intros v.
    destruct (decide (tag = tg_ID t)) as [->|Htag].
    + rewrite lookup_insert_eq, Hold. destruct Hwhy as [Hn|Hno]; [|naive_solver].
      split; intros (u & Hrow & [= <-] & <-); (eexists; split_and!; [done|done|]); cbn; congruence.
    + by rewrite lookup_insert_ne.
Qed.

(** The nodes whose column an update leaves behind: they carry the tag and its name
    changes. *)
Definition left_behind (t : Tag) (db : tag_db) : gset Z :=
  if decide (tg_Name <$> db_tags db !! tg_ID t = Some (tg_Name t)) then ∅ else list_to_set (nodeIDsForTag (tg_ID t) db).

Lemma elem_of_nodeIDsForTag tag db node :
  node ∈ nodeIDsForTag tag db ↔ ∃ source v, db_rows db !! (node, tag, source) = Some v.
Proof.
  unfold nodeIDsForTag. rewrite elem_of_dedup, list_elem_of_fmap. split.
  - intros (k & -> & [Ht Hk]%list_elem_of_filter). apply list_elem_of_fmap in Hk as ([[[n t] source] v] & -> & Hk%elem_of_map_to_list).
    cbn in *. subst t. eauto.
  - intros (source & v & Hrow). exists (node, tag, source). split; [done|]. apply list_elem_of_filter. split; [done|].
    apply list_elem_of_fmap. exists (node, tag, source, v). split; [done|]. by apply elem_of_map_to_list.
Qed.

Lemma UpdateTag_good S t db db' :
  good S db → tg_Name t ≠ "" → UpdateTag t db = Ok db' → good (S ∪ left_behind t db) db'.
Proof.
  intros [Hwf Hp] Hne Hok. destruct (UpdateTag_wf _ _ _ Hwf Hne Hok) as (Hwf' & Hn & _ & old & Hold & Hproj).
  split; [done|]. intros node names Hnames [HS Hl]%not_elem_of_union. rewrite Hn in Hnames. rewrite (Hp _ _ Hnames HS).
  symmetry. apply Hproj. unfold left_behind in Hl. rewrite Hold in Hl. cbn in Hl.
  case_decide as Hname; [left; congruence|right]. intros source v Hrow. apply Hl.
  rewrite elem_of_list_to_set, elem_of_nodeIDsForTag. eauto.
Qed.

Lemma DeleteTag_good S id db db' :
  good S db → DeleteTag id db = Ok db' → good (S ∖ list_to_set (nodeIDsForTag id db)) db'.
Proof.
  intros [[Ht Hn Hx Hr Hno] Hp]. unfold DeleteTag. destruct (db_tags db !! id) as [old|] eqn:Hold; [|done]. intros [= <-].
  set (db1 := removeTagFromGroupFilters id _).
  assert (Hrow : ∀ node tag source, db_rows db1 !! (node, tag, source) = if decide (tag = id) then None else db_rows db !! (node, tag, source)).
  { intros node tag source. unfold db1, removeTagFromGroupFilters. cbn [db_rows with_filters]. rewrite delete_rows_lookup. cbn.
    case_bool_decide; case_decide; done. }
  assert (Hwf1 : tag_wf db1).
  { constructor; [| |done| |done].
    - intros j u Hj. cbn in Hj. apply lookup_delete_Some in Hj as [_ Hj]. by apply Ht.
    - intros i j u w Hi Hj. cbn in Hi, Hj. apply lookup_delete_Some in Hi as [_ Hi], Hj as [_ Hj]. by apply (Hn i j u w).
    - intros node tag source v. rewrite Hrow. case_decide as Hd; [done|]. intros Hv. destruct (Hr _ _ _ _ Hv) as [? ?].
      split; [done|]. cbn. by rewrite lookup_delete_ne. }
  split; [by apply refresh_wf|]. apply (refresh_projected S _ db); [done|done|done|]. intros node _ Hin _.
  apply dedupeSorted_ext. intros x. rewrite !elem_of_node_names.
  apply exist_proper; intros tag. apply exist_proper; intros source. apply exist_proper; intros v. rewrite Hrow.
  destruct (decide (tag = id)) as [->|Hne].
  - split; [naive_solver|]. intros (t & Hrow' & _). exfalso. apply Hin, elem_of_nodeIDsForTag. eauto.
  - cbn. by rewrite lookup_delete_ne.
Qed.

Lemma CreateTagMutexGroup_good S name db id db' : good S db → CreateTagMutexGroup name db = Ok (id, db') → good S db'.
Proof.
  intros [[Ht Hn Hx Hr Hno] Hp]. unfold CreateTagMutexGroup. destruct (has_name _ _); [done|]. intros [= <- <-]. by split.
Qed.

Lemma DeleteTagMutexGroup_good S id db db' : good S db → DeleteTagMutexGroup id db = Ok db' → good S db'.
Proof.
  intros [[Ht Hn Hx Hr Hno] Hp]. unfold DeleteTagMutexGroup. destruct (db_mutex db !! id); [|done]. intros [= <-].
  set (detach := λ t : Tag, _).
  assert (Hd : ∀ t, tg_ID (detach t) = tg_ID t ∧ tg_Name (detach t) = tg_Name t) by (intros t; unfold detach; case_decide; done).
  clearbody detach.
  split; [constructor; cbn; [| |done| |done]|].
  - intros j u (t & <- & Hj)%lookup_fmap_Some. destruct (Hd t) as [-> ->]. by apply Ht.
  - intros i j u w (t & <- & Hi)%lookup_fmap_Some (t' & <- & Hj)%lookup_fmap_Some.
    destruct (Hd t) as [_ ->], (Hd t') as [_ ->]. by apply (Hn i j t t').
  - intros node tag source v Hv. destruct (Hr _ _ _ _ Hv) as [? ?]. split; [done|]. by rewrite lookup_fmap, fmap_is_Some.
  - intros node names Hnames Hin. cbn in Hnames. rewrite (Hp _ _ Hnames Hin). apply dedupeSorted_ext. intros x. rewrite !elem_of_node_names. cbn.
    apply exist_proper; intros tag. apply exist_proper; intros source. apply exist_proper; intros v.
    rewrite lookup_fmap. destruct (db_tags db !! tag) as [t|]; cbn; [|naive_solver]. destruct (Hd t) as [_ Hname].
    split; intros (u & Hrow & [= <-] & <-); eexists; split_and!; try done; congruence.
Qed.

Lemma ensure_tag_quiet name db id db' : tag_wf db → name ≠ "" → ensure_tag name db = (id, db') → quiet db db'.
Proof.
  intros Hwf Hne. unfold ensure_tag. destruct (GetTagByName name db) eqn:Hf; [by intros [= <- <-]|].
  intros [= <- <-]. apply (fresh_tag_quiet (mkTag _ _ _ _ _ _ _ _)); [done|done|done|].
  intros j u Hj. by eapply GetTagByName_None.
Qed.

Lemma ensure_tags_quiet names db ids db' : tag_wf db → ensure_tags names db = (ids, db') → quiet db db'.
Proof.
  revert db ids. induction names as [|name names IH]; intros db ids Hwf; cbn; [by intros [= <- <-]|].
  case_decide as Hne; [by apply IH|]. destruct (ensure_tag _ _) as [id db1] eqn:E1.
  destruct (ensure_tags names db1) as [ids2 db2] eqn:E2. intros [= <- <-].
  pose proof (ensure_tag_quiet _ _ _ _ Hwf Hne E1) as Hq. eapply quiet_trans; [exact Hq|]. by apply IH with ids2; [apply Hq|].
Qed.

Lemma createNode_good S names db id db' : good S db → createNode names db = Ok (id, db') → good (S ∖ {[id]}) db'.
Proof.
  intros [[Ht Hn Hx Hr Hno] Hp]. unfold createNode. set (db1 := mkTagDb _ _ _ _ _ _ _ _).
  intros (db2 & Hm & [= <- <-])%result_bind_Ok.
  assert (Hfresh : db_nodes db !! db_nextNode db = None).
  { apply eq_None_not_Some. intros Hs. specialize (Hno _ Hs). lia. }
  assert (Hwf1 : tag_wf db1).
  { constructor; cbn; [done|done|lia| |].
    - intros n tag source v Hv. destruct (Hr _ _ _ _ Hv) as [? ?]. split; [|done]. apply lookup_insert_is_Some'. by right.
    - intros n [<-|Hs]%lookup_insert_is_Some'; [lia|]. specialize (Hno _ Hs). lia. }
  assert (Hp1 : ∀ n l, n ≠ db_nextNode db → n ∉ S ∖ {[db_nextNode db]} → db_nodes db1 !! n = Some l → l = projection_of db1 n).
  { intros n l Hne Hin Hl. cbn in Hl. rewrite lookup_insert_ne in Hl by done. rewrite (Hp _ _ Hl) by set_solver. by apply projection_of_ext. }
  unfold materializeManualNodeTags in Hm. destruct (dedupeSorted names) as [|w wanted] eqn:Hw.
  - injection Hm as <-. split; [done|]. intros n l Hl Hin. destruct (decide (n = db_nextNode db)) as [->|Hne]; [|by apply Hp1].
    cbn in Hl. rewrite lookup_insert_eq in Hl. injection Hl as <-.
    assert (names = []) as ->.
    { destruct names as [|x names]; [done|]. exfalso. apply (not_elem_of_nil x). rewrite <-Hw. apply elem_of_dedupeSorted. by left. }
    symmetry. rewrite <-Hw. apply dedupeSorted_ext. intros x. rewrite elem_of_node_names. split; [|set_solver].
    intros (tag & source & v & t & Hrow & _). cbn in Hrow. destruct (Hr _ _ _ _ Hrow) as [Hs _]. rewrite Hfresh in Hs. by destruct Hs.
  - destruct (ensure_tags (w :: wanted) db1) as [ids db3] eqn:E. destruct (ensure_tags_quiet _ _ _ _ Hwf1 E) as (Hwf3 & Hn3 & Hq3).
    apply result_bind_Ok in Hm as (db4 & Hi & [= <-]).
    destruct (rows_changed_insert _ _ _ _ [db_nextNode db] _ _ Hwf3 ltac:(by left) Hi) as (Hwf4 & Hn4 & Ht4 & Hr4).
    split; [by apply refresh_wf|]. intros n l. rewrite refresh_lookup, projection_of_refresh. case_decide as Hd.
    + rewrite fmap_Some. by intros (? & _ & ->).
    + rewrite Hn4, Hn3. intros Hl Hin.
      assert (Hne : n ≠ db_nextNode db) by (intros ->; apply Hd; split; [lia|by left]).
      rewrite (Hp1 n l Hne Hin Hl), <-Hq3. symmetry. apply projection_of_ext; [done|]. intros tag source. apply Hr4. set_solver.
Qed.

Lemma DeleteNode_good S node db db' : good S db → DeleteNode node db = Ok db' → good (S ∖ {[node]}) db'.
Proof.
  intros [[Ht Hn Hx Hr Hno] Hp]. unfold DeleteNode. destruct (db_nodes db !! node) as [names|] eqn:Hnode; [|done]. intros [= <-].
  assert (Hrow : ∀ n tag source v, db_rows (delete_rows (λ k, bool_decide (row_node k = node)) (with_nodes db (delete node (db_nodes db)))) !! (n, tag, source) = Some v →
    n ≠ node ∧ db_rows db !! (n, tag, source) = Some v).
  { intros n tag source v. rewrite delete_rows_lookup. cbn. by case_bool_decide. }
  split; [constructor; [done|done|done| |]|].
  - intros n tag source v Hv. apply Hrow in Hv as [Hne Hv]. destruct (Hr _ _ _ _ Hv) as [? ?]. split; [|done].
    cbn. by rewrite lookup_delete_ne.
  - intros n Hs. cbn in Hs. apply Hno. destruct Hs as [l Hl]. apply lookup_delete_Some in Hl as [_ Hl]. by rewrite Hl.
  - intros n l Hl Hin. cbn in Hl. apply lookup_delete_Some in Hl as [Hne Hl]. rewrite (Hp _ _ Hl) by set_solver. apply projection_of_ext; [done|].
    intros tag source. rewrite delete_rows_lookup. cbn. by rewrite bool_decide_false.
Qed.

(** ** The state machine of the tables *)

(** A change some caller of the store makes; names are checked to be non-empty by the
    handlers. The first component is a ghost: the nodes that carried a tag when it was
    renamed and have not been rewritten since. An update of a tag adds the nodes it leaves
    behind, as [UpdateTag] commits before any recompute; each operation that rewrites nodes
    takes these out. The recompute that [updateTag] of [tag_handlers.go] runs after a
    rename is a step of its own ([step_replace]), which other steps may precede and which
    may never come when it fails. *)
Inductive tag_step : gset Z * tag_db → gset Z * tag_db → Prop :=
| step_set_manual S n ids db db' : SetManualNodeTags n ids db = Ok db' → tag_step (S, db) (S ∖ {[n]}, db')
| step_batch S ns adds removes db db' :
    BatchUpdateManualNodeTags ns adds removes db = Ok db' → tag_step (S, db) (S ∖ list_to_set (batch_nodes ns adds removes), db')
| step_replace S l db db' : ReplaceAutoNodeTags l db = Ok db' → tag_step (S, db) (S ∖ list_to_set (as_NodeID <$> l), db')
| step_clear S n db : tag_step (S, db) (S ∖ {[n]}, clearNodeDetectionCache n db)
| step_create S t id db db' : tg_Name t ≠ "" → CreateTag t db = Ok (id, db') → tag_step (S, db) (S, db')
| step_update S t db db' : tg_Name t ≠ "" → UpdateTag t db = Ok db' → tag_step (S, db) (S ∪ left_behind t db, db')
| step_delete S id db db' : DeleteTag id db = Ok db' → tag_step (S, db) (S ∖ list_to_set (nodeIDsForTag id db), db')
| step_create_group S name id db db' : CreateTagMutexGroup name db = Ok (id, db') → tag_step (S, db) (S, db')
| step_delete_group S id db db' : DeleteTagMutexGroup id db = Ok db' → tag_step (S, db) (S, db')
| step_create_node S names id db db' : createNode names db = Ok (id, db') → tag_step (S, db) (S ∖ {[id]}, db')
| step_delete_node S node db db' : DeleteNode node db = Ok db' → tag_step (S, db) (S ∖ {[node]}, db').

Lemma tag_step_good a b : good a.1 a.2 → tag_step a b → good b.1 b.2.
Proof.
  intros Hg. destruct 1; cbn [fst snd] in *.
  - by eapply SetManualNodeTags_good.
  - by eapply BatchUpdateManualNodeTags_good.
  - by eapply ReplaceAutoNodeTags_good.
  - by apply clearNodeDetectionCache_good.
  - by eapply CreateTag_good.
  - by eapply UpdateTag_good.
  - by eapply DeleteTag_good.
  - by eapply CreateTagMutexGroup_good.
  - by eapply DeleteTagMutexGroup_good.
  - by eapply createNode_good.
  - by eapply DeleteNode_good.
Qed.

Definition empty_db : tag_db := mkTagDb ∅ ∅ ∅ ∅ ∅ 1 1 1.
Lemma empty_db_good : good ∅ empty_db.
Proof. split; [constructor; cbn; intros; try lia; simplify_map_eq; by destruct H|intros node names; cbn; by simplify_map_eq]. Qed.

Lemma steps_good a b : rtc tag_step a b → good a.1 a.2 → good b.1 b.2.
Proof. induction 1 as [|a b c Hab _ IH]; [done|]. intros Hg. apply IH. by apply (tag_step_good a). Qed.


(** ** A node, a tag, and a rename *)
Module TablesExample.
Definition sample_tag (name : string) : Tag := mkTag 0 name 0 0 false "" 0 "".
Definition ok (r : result tag_db) : tag_db := match r with Ok db => db | Err _ => empty_db end.
Definition ok_id (r : result (Z * tag_db)) : tag_db := match r with Ok (_, db) => db | Err _ => empty_db end.
Definition with_node : tag_db := ok_id (createNode ["hk"] empty_db).
Definition with_tag : tag_db := ok_id (CreateTag (sample_tag "iplc") with_node).
Definition tagged : tag_db := ok (SetManualNodeTags 1 [2; 1] with_tag).
Definition renamed_tag : Tag := mkTag 2 "iepl" 0 0 false "" 1 "".
Definition renamed : tag_db := ok (UpdateTag renamed_tag tagged).
Definition recomputed : tag_db := ok (ReplaceAutoNodeTags [mkAssignment 1 [] []] renamed).

Lemma renamed_reached : rtc tag_step (∅, empty_db) ({[1]}, renamed).
Proof.
  eapply rtc_l; [apply (step_create_node ∅ ["hk"] 1 _ with_node); by vm_compute|].
  eapply rtc_l; [apply (step_create _ (sample_tag "iplc") 2 _ with_tag); [done|by vm_compute]|].
  eapply rtc_l; [apply (step_set_manual _ 1 [2; 1] _ tagged); by vm_compute|].
  replace ({[1]} : gset Z) with ((∅ ∖ {[1]} ∖ {[1]}) ∪ left_behind renamed_tag tagged : gset Z) by (by vm_compute).
  apply rtc_once, (step_update _ renamed_tag tagged renamed); [done|by vm_compute].
Qed.

(** Between the commit of the new name and the recompute the node shows the old one. *)
Example renamed_is_stale :
  db_nodes renamed !! 1 = Some ["hk"; "iplc"] ∧ projection_of renamed 1 = ["hk"; "iepl"] ∧
  db_nodes recomputed !! 1 = Some ["hk"; "iepl"].
Proof. by vm_compute. Qed.

End TablesExample.
