(* ===== verification/TagService.v ===== *)
(** The recompute of the automatic tags ([internal/nodetag/service.go]): the rules are
    compiled, the facts of the nodes loaded, every node's rules matched and resolved,
    the nodes that changed rewritten, and the ones whose visible tags changed
    reported. Logging is left out.

    The first half is the code; the second shows that the stored rows are what the
    rules decide, that the report is exact and that a second recompute is idle. *)
From S2P Require Import Prelude Text Floats NodeRegion NodeFacts NodeRules FactLoader TagResolve TagStore.

#[local] Open Scope Z_scope.

(** [Decision.Assignment] *)
Definition Assignment (d : TagDecision) : AutoAssignment := mkAssignment (de_NodeID d) (de_TagIDs d) (de_RuleVersions d).

(** The rows of each node, in the order they were read. *)
Definition group_step {A} (f : NodeTag → A) (m : gmap Z (list A)) (row : NodeTag) : gmap Z (list A) :=
  <[nt_NodeID row := default [] (m !! nt_NodeID row) ++ [f row]]> m.
Definition group_rows {A} (f : NodeTag → A) (rows : list NodeTag) : gmap Z (list A) := foldl (group_step f) ∅ rows.

Definition row_tag_le (a b : NodeTag) : Prop := nt_TagID a ≤ nt_TagID b.
#[export] Instance row_tag_le_dec : RelDecision row_tag_le.
Proof. intros a b. unfold row_tag_le. apply _. Defined.
#[export] Instance row_tag_le_trans : Transitive row_tag_le.
Proof. intros a b c. unfold row_tag_le. lia. Qed.
#[export] Instance row_tag_le_total : Total row_tag_le.
Proof. intros a b. unfold row_tag_le. lia. Qed.

(** [Service.assignments] and [Service.autoAssignments] *)
Definition assignments (nodeIDs : list Z) (source : tag_source) (db : tag_db) : gmap Z (list Z) :=
  merge_sort Z.le <$> group_rows nt_TagID (ListNodeTags nodeIDs [] (Some source) db).
Definition autoAssignments (nodeIDs : list Z) (db : tag_db) : gmap Z (list NodeTag) :=
  merge_sort row_tag_le <$> group_rows id (ListNodeTags nodeIDs [] (Some Auto) db).

Definition ruleVersionsChanged (previous : list NodeTag) (versions : list Z) : bool :=
  negb (bool_decide (length previous = length versions)) ||
  existsb (λ pv : NodeTag * Z, negb (nt_RuleVersion pv.1 =? pv.2)) (zip previous versions).

(** [projection]: the names of the tags, by hand first, without duplicates. *)
Definition name_step (meta : gmap Z TagMeta) (names : list string) (tagID : Z) : list string :=
  match meta !! tagID with
  | None => names
  | Some tag => if decide (tm_Name tag = "") then names else add_new names (tm_Name tag)
  end.
Definition visible_names (auto manual : list Z) (meta : gmap Z TagMeta) : list string :=
  merge_sort String.le (foldl (name_step meta) (foldl (name_step meta) [] manual) auto).

Definition projectionChanged (previousAuto nextAuto manual : list Z) (meta : gmap Z TagMeta) : bool :=
  negb (bool_decide (visible_names previousAuto manual meta = visible_names nextAuto manual meta)).

(** The calls of a recompute that may fail. *)
Inductive store_call := CallListTags | CallListNodes | CallManualRows | CallAutoRows | CallReplace.

Definition checked {A} (fault : option string) (value : result A) : result A :=
  match fault with Some e => Err e | None => value end.

(** The fact source over the tables of tags: the nodes, the manual assignments and
    the names are those of the tables, the rest is another table's. *)
Definition stored_source (columns : Z → NodeRow) (fault : store_call → option string) (src : FactSource) (db : tag_db) : FactSource :=
  let node (id : Z) := let r := columns id in
    mkNodeRow id (nr_URI r) (nr_Name r) (nr_Source r) (nr_Port r) (nr_Region r) (nr_Country r) (nr_Enabled r) in
  mkSource
    (λ ids, checked (fault CallListNodes)
       (Ok (node <$> merge_sort Z.le (filter (λ id, matches_ids ids id = true) (map_to_list (db_nodes db)).*1))))
    (ListNodeStats src) (ListNodeDetectionResultsByIDs src) (ListNodeIPQualityResultsByIDs src) (ListUnlockResultsByIDs src)
    (ListNodeSubscriptionIDs src)
    (λ ids, checked (fault CallManualRows) (Ok ((λ nt, (nt_NodeID nt, nt_TagID nt)) <$> ListNodeTags ids [] (Some Manual) db)))
    (checked (fault CallListTags) (Ok ((λ t, (tg_ID t, tg_Name t)) <$> ListTags db)))
    (ListSubscriptionNames src).

Record recomputed := mkRecomputed { rc_db : tag_db; rc_changed : list Z; rc_notified : list (list Z) }.

Section service.
Context `{RO : !RangeOrder string, RL : !RegionLibrary, LL : !LoaderLibraries, PL : !Platform, RU : !RuleLibraries}.
Context (columns : Z → NodeRow) (src : FactSource) (fault : store_call → option string).

(** [Service.match]: a rule that fails to evaluate does not match. *)
Definition hit (facts : NodeFacts) (now : Z) (r : Rule) : bool :=
  match Evaluate (ru_Condition r) facts now with inr matched => matched | inl _ => false end.
Definition match_rules (facts : NodeFacts) (rules : list Rule) (now : Z) : list Rule :=
  filter (λ r, hit facts now r = true) rules.

(** What one node gets. *)
Definition decision_of (rules : list Rule) (meta : gmap Z TagMeta) (now : Z) (manual : gmap Z (list Z)) (facts : NodeFacts) : TagDecision :=
  Resolve (nf_NodeID facts) (match_rules facts rules now) (default [] (manual !! nf_NodeID facts)) meta.

Definition recompute_step (targeted : bool) (rules : list Rule) (meta : gmap Z TagMeta) (now : Z)
    (manual : gmap Z (list Z)) (previous : gmap Z (list NodeTag)) (acc : list Z * list AutoAssignment) (facts : NodeFacts)
    : list Z * list AutoAssignment :=
  let decision := decision_of rules meta now manual facts in
  let prevRows := default [] (previous !! nf_NodeID facts) in
  let projection := projectionChanged (nt_TagID <$> prevRows) (de_TagIDs decision) (default [] (manual !! nf_NodeID facts)) meta in
  (if projection then acc.1 ++ [nf_NodeID facts] else acc.1,
   if targeted || projection || ruleVersionsChanged prevRows (de_RuleVersions decision)
   then acc.2 ++ [Assignment decision] else acc.2).

Definition Recompute (nodeIDs : option (list Z)) (now : Z) (db : tag_db) : result recomputed :=
  if bool_decide (nodeIDs = Some []) then Ok (mkRecomputed db [] [])
  else
    let ids := default [] nodeIDs in
    let? tags := checked (fault CallListTags) (Ok (ListTags db)) in
    let c := CompileRules tags in
    let? factSets := Load (stored_source columns fault src db) ids in
    match factSets with
    | [] => Ok (mkRecomputed db [] [])
    | _ =>
      let? manual := checked (fault CallManualRows) (Ok (assignments ids Manual db)) in
      let? previous := checked (fault CallAutoRows) (Ok (autoAssignments ids db)) in
      let targeted := bool_decide (is_Some nodeIDs) in
      let '(changed, rewritten) :=
        foldl (recompute_step targeted (cp_rules c) (cp_meta c) now manual previous) ([], []) factSets in
      let? db' := match rewritten with
                  | [] => Ok db
                  | _ => checked (fault CallReplace) (ReplaceAutoNodeTags rewritten db)
                  end in
      Ok (mkRecomputed db' changed (match changed with [] => [] | _ => [changed] end))
    end.

Definition RecomputeAll (now : Z) (db : tag_db) : result recomputed := Recompute None now db.
End service.

(** ** Reading the assignments *)
Lemma group_rows_lookup {A} (f : NodeTag → A) rows m n :
  default [] (foldl (group_step f) m rows !! n) = default [] (m !! n) ++ (f <$> filter (λ r, nt_NodeID r = n) rows).
Proof.
  revert m. induction rows as [|r rows IH]; intros m; [by rewrite app_nil_r|]. cbn [foldl]. rewrite IH, filter_cons. unfold group_step.
  destruct (decide (nt_NodeID r = n)) as [<-|Hne].
  - rewrite lookup_insert_eq. cbn. by rewrite <-(assoc_L (++)).  
  - by rewrite lookup_insert_ne.
Qed.

Lemma elem_of_ListNodeTags ids tags source db r :
  r ∈ ListNodeTags ids tags (Some source) db ↔
    db_rows db !! (nt_NodeID r, nt_TagID r, nt_Source r) = Some (nt_RuleVersion r) ∧ nt_Source r = source ∧
    matches_ids ids (nt_NodeID r) = true ∧ matches_ids tags (nt_TagID r) = true.
Proof.
  unfold ListNodeTags. rewrite merge_sort_Permutation, list_elem_of_fmap. split.
  - intros ([[[n t] s] v] & -> & [Hc Hk]%list_elem_of_filter). apply elem_of_map_to_list in Hk. cbn in *.
    apply andb_prop in Hc as [[? ?]%andb_prop ?%bool_decide_eq_true]. done.
  - intros (Hk & Hs & Hi & Ht). destruct r as [n t s v]. cbn in *. exists (n, t, s, v). split; [done|].
    apply list_elem_of_filter. split; [|by apply elem_of_map_to_list]. cbn. by rewrite Hi, Ht, bool_decide_true.
Qed.

Lemma NoDup_ListNodeTags ids tags source db : NoDup ((λ r, (nt_NodeID r, nt_TagID r, nt_Source r)) <$> ListNodeTags ids tags source db).
Proof.
  unfold ListNodeTags. rewrite merge_sort_Permutation, <-list_fmap_compose.
  rewrite (list_fmap_ext _ fst); [|by intros i [[[n t] s] v] _]. apply NoDup_filter_key, NoDup_fst_map_to_list.
Qed.

(** The tags of one node, with the versions of their rows. *)
Definition node_rows (ids : list Z) (source : tag_source) (db : tag_db) (node : Z) : list NodeTag :=
  filter (λ r, nt_NodeID r = node) (ListNodeTags ids [] (Some source) db).

Lemma elem_of_node_rows ids source db node r :
  matches_ids ids node = true →
  r ∈ node_rows ids source db node ↔
    nt_NodeID r = node ∧ nt_Source r = source ∧ db_rows db !! (node, nt_TagID r, source) = Some (nt_RuleVersion r).
Proof.
  intros Hi. unfold node_rows. rewrite list_elem_of_filter, elem_of_ListNodeTags. split.
  - intros (<- & Hk & Hs & _ & _). rewrite Hs in Hk. done.
  - intros (<- & <- & Hk). done.
Qed.

Lemma NoDup_node_rows ids source db node : NoDup (nt_TagID <$> node_rows ids source db node).
Proof.
  apply (NoDup_fmap_1 (λ t, (node, t, source))). rewrite <-list_fmap_compose. unfold node_rows.
  rewrite (list_fmap_ext _ (λ r, (nt_NodeID r, nt_TagID r, nt_Source r))).
  - apply NoDup_filter_key, NoDup_ListNodeTags.
  - intros i r Hr. apply list_elem_of_lookup_2, list_elem_of_filter in Hr as [Hn Hr]. apply elem_of_ListNodeTags in Hr as (_ & Hs & _).
    cbn. by rewrite Hn, Hs.
Qed.

Lemma default_fmap_sort {A} (R : relation A) `{!RelDecision R} (o : option (list A)) :
  default [] (merge_sort R <$> o) = merge_sort R (default [] o).
Proof. by destruct o. Qed.

Lemma assignments_lookup ids source db node :
  default [] (assignments ids source db !! node) = merge_sort Z.le (nt_TagID <$> node_rows ids source db node).
Proof. unfold assignments. rewrite lookup_fmap, default_fmap_sort. unfold group_rows. by rewrite group_rows_lookup, lookup_empty. Qed.

Lemma autoAssignments_lookup ids db node :
  default [] (autoAssignments ids db !! node) = merge_sort row_tag_le (node_rows ids Auto db node).
Proof.
  unfold autoAssignments. rewrite lookup_fmap, default_fmap_sort. unfold group_rows. rewrite group_rows_lookup, lookup_empty. cbn.
  by rewrite list_fmap_id.
Qed.

(** ** The compiled rules *)
Lemma elem_of_ListTags db t : tag_wf db → t ∈ ListTags db ↔ db_tags db !! tg_ID t = Some t.
Proof.
  intros Hwf. unfold ListTags. rewrite merge_sort_Permutation, list_elem_of_fmap. split.
  - intros ([id t'] & -> & Hin%elem_of_map_to_list). cbn. by destruct (wf_tags _ Hwf _ _ Hin) as (-> & _).
  - intros Ht. exists (tg_ID t, t). split; [done|]. by apply elem_of_map_to_list.
Qed.

Lemma NoDup_ListTags db : tag_wf db → NoDup (tg_ID <$> ListTags db).
Proof.
  intros Hwf. unfold ListTags. rewrite merge_sort_Permutation, <-list_fmap_compose.
  rewrite (list_fmap_ext _ fst); [apply NoDup_fst_map_to_list|].
  intros i [id t] Hin%list_elem_of_lookup_2%elem_of_map_to_list. by destruct (wf_tags _ Hwf _ _ Hin).
Qed.

Section rules.
Context `{RU : !RuleLibraries}.

Lemma compile_step_meta c t : cp_meta (compile_step c t) = <[tg_ID t := meta_of t]> (cp_meta c).
Proof. unfold compile_step. repeat case_match; done. Qed.

Lemma compile_meta l c id :
  NoDup (tg_ID <$> l) →
  (∀ t, t ∈ l → tg_ID t = id → cp_meta (foldl compile_step c l) !! id = Some (meta_of t)) ∧
  ((∀ t, t ∈ l → tg_ID t ≠ id) → cp_meta (foldl compile_step c l) !! id = cp_meta c !! id).
Proof.
  revert c. induction l as [|t l IH]; intros c Hnd; [by split; [set_solver|]|]. rewrite fmap_cons in Hnd.
  apply NoDup_cons in Hnd as [Hnew Hnd]. cbn [foldl]. destruct (IH (compile_step c t) Hnd) as [IH1 IH2]. split.
  - intros u [->|Hu]%elem_of_cons Hid; [|by apply IH1]. rewrite IH2.
    + by rewrite compile_step_meta, Hid, lookup_insert_eq.
    + intros w Hw Heq. apply Hnew. rewrite Hid, <-Heq. apply list_elem_of_fmap. by exists w.
  - intros Hne. rewrite IH2 by set_solver. rewrite compile_step_meta, lookup_insert_ne; [done|]. apply Hne. by left.
Qed.

Lemma compile_rules l c :
  ∃ new, cp_rules (foldl compile_step c l) = cp_rules c ++ new ∧ ru_id <$> new `sublist_of` tg_ID <$> l ∧
    ∀ r, r ∈ new → ∃ t, t ∈ l ∧ ru_Meta r = meta_of t ∧ ru_RuleVersion r = tg_RuleVersion t.
Proof.
  revert c. induction l as [|t l IH]; intros c; [exists []; rewrite app_nil_r; split_and!; [done|constructor|set_solver]|].
  cbn [foldl]. destruct (IH (compile_step c t)) as (new & Hr & Hsub & Hall). rewrite Hr, fmap_cons.
  assert (Hstep : cp_rules (compile_step c t) = cp_rules c ∨
    ∃ r, cp_rules (compile_step c t) = cp_rules c ++ [r] ∧ ru_Meta r = meta_of t ∧ ru_RuleVersion r = tg_RuleVersion t).
  { unfold compile_step. repeat case_match; auto. right. by eexists. }
  destruct Hstep as [->|(r & -> & Hm & Hv)].
  - exists new. split_and!; [done|by apply sublist_cons|set_solver].
  - exists (r :: new). rewrite <-(assoc_L (++)). split_and!; [done| |].
    + cbn. unfold ru_id at 1. rewrite Hm. by apply sublist_skip.
    + intros r' [->|Hin]%elem_of_cons; [exists t; split_and!; [by left|done..]|]. destruct (Hall _ Hin) as (u & ? & ?).
      exists u. split; [by right|done].
Qed.

Definition compiled_of (db : tag_db) : compiled := CompileRules (ListTags db).

Lemma compiled_meta db id : tag_wf db → cp_meta (compiled_of db) !! id = meta_of <$> db_tags db !! id.
Proof.
  intros Hwf. destruct (compile_meta (ListTags db) (mkCompiled [] ∅ []) id (NoDup_ListTags _ Hwf)) as [Hin Hout].
  unfold compiled_of, CompileRules. destruct (db_tags db !! id) as [t|] eqn:Ht; cbn.
  - destruct (wf_tags _ Hwf _ _ Ht) as (Hid & _). apply Hin; [|done]. apply elem_of_ListTags; [done|]. by rewrite Hid.
  - rewrite Hout; [done|]. intros t Hlt Hid. apply elem_of_ListTags in Hlt; [|done]. congruence.
Qed.

Lemma compiled_rules db :
  tag_wf db → NoDup (ru_id <$> cp_rules (compiled_of db)) ∧
  ∀ r, r ∈ cp_rules (compiled_of db) → ∃ t, db_tags db !! ru_id r = Some t ∧ ru_RuleVersion r = tg_RuleVersion t.
Proof.
  intros Hwf. destruct (compile_rules (ListTags db) (mkCompiled [] ∅ [])) as (new & Hr & Hsub & Hall).
  unfold compiled_of, CompileRules. rewrite Hr. cbn [cp_rules app]. split.
  - by eapply sublist_NoDup; [apply (NoDup_ListTags _ Hwf)|].
  - intros r (t & Ht & Hm & Hv)%Hall. exists t. apply elem_of_ListTags in Ht; [|done]. split; [|done]. unfold ru_id. by rewrite Hm.
Qed.
End rules.

(** ** What a node shows *)
Lemma elem_of_name_fold meta l names x :
  x ∈ foldl (name_step meta) names l ↔ x ∈ names ∨ ∃ tag m, tag ∈ l ∧ meta !! tag = Some m ∧ tm_Name m = x ∧ x ≠ "".
Proof.
  revert names. induction l as [|tag l IH]; intros names; cbn [foldl]; [set_solver|]. rewrite IH. unfold name_step.
  destruct (meta !! tag) as [m|] eqn:Hm; [case_decide as Hne|].
  - split; [intros [?|(t & m' & ? & ?)]; [by left|right; exists t, m'; set_solver]|].
    intros [?|(t & m' & [->|Ht]%elem_of_cons & Hm' & Hx & ?)]; [by left| |right; by exists t, m']. congruence.
  - unfold add_new. split.
    + intros [Hx|(t & m' & ? & ?)]; [|right; exists t, m'; set_solver]. case_decide; [by left|].
      apply elem_of_app in Hx as [?|Hx%list_elem_of_singleton]; [by left|]. right. exists tag, m. split; [by left|]. naive_solver.
    + intros [?|(t & m' & [->|Ht]%elem_of_cons & Hm' & Hx & ?)]; [left; case_decide; set_solver| |right; by exists t, m'].
      left. rewrite Hm in Hm'. injection Hm' as <-. case_decide; set_solver.
  - split; [intros [?|(t & m' & ? & ?)]; [by left|right; exists t, m'; set_solver]|].
    intros [?|(t & m' & [->|Ht]%elem_of_cons & Hm' & ?)]; [by left|congruence|right; by exists t, m'].
Qed.

Lemma NoDup_name_fold meta l names : NoDup names → NoDup (foldl (name_step meta) names l).
Proof.
  revert names. induction l as [|tag l IH]; intros names Hnd; [done|]. cbn [foldl]. apply IH. unfold name_step, add_new.
  repeat case_match; try done. case_decide; [done|]. apply NoDup_app. split_and!; [done|set_solver|]. repeat constructor. set_solver.
Qed.

Lemma elem_of_visible_names auto manual meta x :
  x ∈ visible_names auto manual meta ↔ ∃ tag m, (tag ∈ manual ∨ tag ∈ auto) ∧ meta !! tag = Some m ∧ tm_Name m = x ∧ x ≠ "".
Proof. unfold visible_names. rewrite merge_sort_Permutation, !elem_of_name_fold. set_solver. Qed.

Lemma visible_names_ext auto auto' manual manual' meta meta' :
  visible_names auto manual meta = visible_names auto' manual' meta' ↔
  ∀ x, x ∈ visible_names auto manual meta ↔ x ∈ visible_names auto' manual' meta'.
Proof.
  split; [by intros ->|]. intros Hx. unfold visible_names in *. apply (StronglySorted_unique String.le).
  - apply (StronglySorted_merge_sort String.le).
  - apply (StronglySorted_merge_sort String.le).
  - setoid_rewrite merge_sort_Permutation in Hx. rewrite !merge_sort_Permutation.
    apply NoDup_Permutation; [by repeat apply NoDup_name_fold; constructor..|done].
Qed.

Lemma projectionChanged_false prev next manual meta :
  projectionChanged prev next manual meta = false ↔ visible_names prev manual meta = visible_names next manual meta.
Proof. unfold projectionChanged. by rewrite negb_false_iff, bool_decide_eq_true. Qed.

(** ** What a recompute writes *)
Lemma replace_effect l db db' :
  ReplaceAutoNodeTags l db = Ok db' → tag_wf db → NoDup (as_NodeID <$> l) →
  tag_wf db' ∧ db_tags db' = db_tags db ∧
  (∀ n, db_nodes db' !! n =
     if decide (n ∈ as_NodeID <$> l) then (λ _, projection_of db' n) <$> db_nodes db !! n else db_nodes db !! n) ∧
  (∀ n tag, db_rows db' !! (n, tag, Manual) = db_rows db !! (n, tag, Manual)) ∧
  (∀ n tag, n ∉ as_NodeID <$> l → db_rows db' !! (n, tag, Auto) = db_rows db !! (n, tag, Auto)) ∧
  (∀ a, a ∈ l → 0 < as_NodeID a → assignment_ok a → ∀ tag, db_rows db' !! (as_NodeID a, tag, Auto) = assigned a !! tag).
Proof.
  intros Hok Hwf Hnd. destruct l as [|a l]; [injection Hok as <-; split_and!; set_solver|].
  unfold ReplaceAutoNodeTags in Hok. apply result_bind_Ok in Hok as (db1 & H1 & [= <-]).
  destruct (replace_all_Ok _ _ _ H1 Hwf) as ((Hwf1 & Hn & Ht & Hr) & Hm & Hex). split_and!.
  - by apply refresh_wf.
  - done.
  - intros n. rewrite refresh_lookup, Hn, projection_of_refresh.
    destruct (db_nodes db !! n) as [names|] eqn:Hnode; [|by repeat case_decide].
    assert (0 < n) as Hpos by (apply (wf_nodes _ Hwf); by rewrite Hnode).
    apply decide_ext. rewrite list_elem_of_filter. naive_solver.
  - done.
  - intros n tag Hin. apply Hr. intros [_ ?]%list_elem_of_filter. done.
  - by apply Hex.
Qed.

Lemma assignment_row a tag v :
  assignment_ok a → assigned a !! tag = Some v ↔ (tag, v) ∈ zip (as_TagIDs a) (as_RuleVersions a).
Proof.
  intros (Hnd & _ & Hlen). unfold assigned. rewrite <-elem_of_list_to_map; [done|]. by rewrite fst_zip by lia.
Qed.

Section effect.
Context `{RO : !RangeOrder string, RL : !RegionLibrary, LL : !LoaderLibraries, PL : !Platform, RU : !RuleLibraries}.
Context (columns : Z → NodeRow) (src : FactSource) (fault : store_call → option string).

(** The decision of a recompute, read off the tables. *)
Definition decided (ids : list Z) (now : Z) (db : tag_db) (facts : NodeFacts) : TagDecision :=
  decision_of (cp_rules (compiled_of db)) (cp_meta (compiled_of db)) now (assignments ids Manual db) facts.

Lemma match_rules_NoDup db facts now : tag_wf db → NoDup (ru_id <$> match_rules facts (cp_rules (compiled_of db)) now).
Proof. intros Hwf. apply NoDup_filter_key. by apply compiled_rules. Qed.

Lemma decided_pairs ids now db facts :
  tag_wf db → ∃ rules, rules ⊆ cp_rules (compiled_of db) ∧ NoDup (ru_id <$> rules) ∧
    zip (de_TagIDs (decided ids now db facts)) (de_RuleVersions (decided ids now db facts)) = merge_sort id_le (pair_of <$> rules) ∧
    length (de_TagIDs (decided ids now db facts)) = length (de_RuleVersions (decided ids now db facts)).
Proof.
  intros Hwf. pose proof (match_rules_NoDup db facts now Hwf) as Hnd.
  destruct (Resolve_resolution (nf_NodeID facts) _ (default [] (assignments ids Manual db !! nf_NodeID facts)) (cp_meta (compiled_of db)) Hnd)
    as [Hz Hlen _ _ _]. match type of Hz with _ = merge_sort _ (_ <$> ?l) => exists l end. split_and!; [|by apply NoDup_filter_key|exact Hz|exact Hlen].
  intros r [_ [_ Hr]%list_elem_of_filter]%list_elem_of_filter. done.
Qed.

Lemma decided_ok ids now db facts :
  tag_wf db → assignment_ok (Assignment (decided ids now db facts)) ∧
  (∀ tag, tag ∈ de_TagIDs (decided ids now db facts) → is_Some (db_tags db !! tag)).
Proof.
  intros Hwf. destruct (decided_pairs ids now db facts Hwf) as (rules & Hsub & Hnd & Hz & Hlen).
  destruct (compiled_rules db Hwf) as [_ Hrules].
  assert (Hids : de_TagIDs (decided ids now db facts) ≡ₚ ru_id <$> rules).
  { rewrite <-(fst_zip (de_TagIDs _) (de_RuleVersions (decided ids now db facts))) by lia. rewrite Hz, merge_sort_Permutation.
    by rewrite <-list_fmap_compose. }
  assert (Hin : ∀ tag, tag ∈ de_TagIDs (decided ids now db facts) → is_Some (db_tags db !! tag)).
  { intros tag. rewrite Hids, list_elem_of_fmap. intros (r & -> & Hr). destruct (Hrules r (Hsub _ Hr)) as (t & Ht & _). by rewrite Ht. }
  split; [|done]. unfold assignment_ok. cbn. split_and!; [by rewrite Hids| |done].
  apply Forall_forall. intros tag [t Ht]%Hin. by destruct (wf_tags _ Hwf _ _ Ht) as (_ & ? & _); lia.
Qed.

(** The facts of a recompute are those of its nodes, once each. *)
Lemma Load_nodes ids db sets :
  Load (stored_source columns fault src db) ids = Ok sets →
  nf_NodeID <$> sets ≡ₚ filter (λ id, matches_ids ids id = true) (map_to_list (db_nodes db)).*1.
Proof.
  unfold Load, LoadFromNodes. intros (nodes & Hn & Hl)%result_bind_Ok. cbn in Hn. destruct (fault CallListNodes); [done|].
  injection Hn as Hn. set (keys := filter _ _) in *.
  assert (Hkeys : nr_ID <$> nodes ≡ₚ keys) by (by rewrite <-Hn, <-list_fmap_compose, list_fmap_id, merge_sort_Permutation).
  rewrite <-Hkeys. clear Hkeys Hn keys. destruct nodes as [|node nodes]; [by injection Hl as <-|].
  repeat match type of Hl with result_bind _ _ = Ok _ => apply result_bind_Ok in Hl as (? & _ & Hl) end.
  injection Hl as <-. rewrite merge_sort_Permutation. match goal with |- _ <$> load_node ?r _ :: _ ≡ₚ _ =>
    change (nf_NodeID <$> (load_node r <$> node :: nodes) ≡ₚ nr_ID <$> node :: nodes) end.
  by rewrite <-list_fmap_compose.
Qed.

Lemma Load_members ids db sets :
  Load (stored_source columns fault src db) ids = Ok sets →
  NoDup (nf_NodeID <$> sets) ∧ ∀ node, node ∈ nf_NodeID <$> sets ↔ is_Some (db_nodes db !! node) ∧ matches_ids ids node = true.
Proof.
  intros Hl. pose proof (Load_nodes _ _ _ Hl) as Hp. split.
  - rewrite Hp. apply NoDup_filter, NoDup_fst_map_to_list.
  - intros node. rewrite Hp, list_elem_of_filter, list_elem_of_fmap. split.
    + intros (? & [k v] & -> & Hk%elem_of_map_to_list). cbn in *. by rewrite Hk.
    + intros [[v Hv] ?]. split; [done|]. exists (node, v). split; [done|]. by apply elem_of_map_to_list.
Qed.

(** The two questions a recompute asks of a node. *)
Definition changes (ids : list Z) (now : Z) (db : tag_db) (facts : NodeFacts) : bool :=
  projectionChanged (nt_TagID <$> default [] (autoAssignments ids db !! nf_NodeID facts)) (de_TagIDs (decided ids now db facts))
    (default [] (assignments ids Manual db !! nf_NodeID facts)) (cp_meta (compiled_of db)).
Definition rewrites (targeted : bool) (ids : list Z) (now : Z) (db : tag_db) (facts : NodeFacts) : bool :=
  targeted || changes ids now db facts ||
  ruleVersionsChanged (default [] (autoAssignments ids db !! nf_NodeID facts)) (de_RuleVersions (decided ids now db facts)).

Definition rewritten (targeted : bool) (ids : list Z) (now : Z) (db : tag_db) (sets : list NodeFacts) : list AutoAssignment :=
  (λ facts, Assignment (decided ids now db facts)) <$> filter (λ facts, rewrites targeted ids now db facts = true) sets.
Definition reported (ids : list Z) (now : Z) (db : tag_db) (sets : list NodeFacts) : list Z :=
  nf_NodeID <$> filter (λ facts, changes ids now db facts = true) sets.

Lemma recompute_fold targeted ids now db sets acc :
  foldl (recompute_step targeted (cp_rules (compiled_of db)) (cp_meta (compiled_of db)) now (assignments ids Manual db) (autoAssignments ids db)) acc sets =
    (acc.1 ++ reported ids now db sets, acc.2 ++ rewritten targeted ids now db sets).
Proof.
  revert acc. induction sets as [|facts sets IH]; intros acc; [destruct acc; cbn; by rewrite !app_nil_r|]. cbn [foldl]. rewrite IH.
  unfold recompute_step. cbn zeta. fold (decided ids now db facts). fold (changes ids now db facts). fold (rewrites targeted ids now db facts).
  unfold reported, rewritten. rewrite !filter_cons. cbn [fst snd].
  destruct (changes ids now db facts), (rewrites targeted ids now db facts); cbn; by rewrite <-?(assoc_L (++)).
Qed.

Lemma Recompute_Ok nodeIDs now db r :
  Recompute columns src fault nodeIDs now db = Ok r →
  (nodeIDs = Some [] ∧ r = mkRecomputed db [] []) ∨
  (nodeIDs ≠ Some [] ∧ ∃ sets, let ids := default [] nodeIDs in
    Load (stored_source columns fault src db) ids = Ok sets ∧
    ReplaceAutoNodeTags (rewritten (bool_decide (is_Some nodeIDs)) ids now db sets) db = Ok (rc_db r) ∧
    rc_changed r = reported ids now db sets ∧
    rc_notified r = match rc_changed r with [] => [] | _ => [rc_changed r] end).
Proof.
  unfold Recompute. case_bool_decide as Hn; [intros [= <-]; by left|]. cbn zeta. intros Hr. right. split; [done|].
  apply result_bind_Ok in Hr as (tags & Ht & Hr). destruct (fault CallListTags); [done|]. injection Ht as <-.
  apply result_bind_Ok in Hr as (sets & Hl & Hr). exists sets. split; [done|]. fold (compiled_of db) in Hr.
  destruct sets as [|facts sets]; [by injection Hr as <-|].
  apply result_bind_Ok in Hr as (manual & Hm & Hr). destruct (fault CallManualRows); [done|]. injection Hm as <-.
  apply result_bind_Ok in Hr as (previous & Hp & Hr). destruct (fault CallAutoRows); [done|]. injection Hp as <-.
  rewrite (recompute_fold _ _ _ _ (facts :: sets)) in Hr. cbn [fst snd app] in Hr.
  apply result_bind_Ok in Hr as (db' & Hw & [= <-]). cbn [rc_db rc_changed rc_notified]. split_and!; [|done|done].
  destruct (rewritten _ _ _ _ _) as [|a l]; [done|]. by destruct (fault CallReplace).
Qed.

Lemma elem_of_rows ids source db node tag :
  matches_ids ids node = true → tag ∈ nt_TagID <$> node_rows ids source db node ↔ is_Some (db_rows db !! (node, tag, source)).
Proof.
  intros Hi. rewrite list_elem_of_fmap. split.
  - intros (r & -> & Hr). apply elem_of_node_rows in Hr as (_ & _ & Hk); [|done]. by rewrite Hk.
  - intros [v Hv]. exists (mkNodeTag node tag source v). split; [done|]. by apply elem_of_node_rows.
Qed.

(** The names a node shows, when its automatic tags are [autos]. *)
Lemma names_visible ids db db' node autos x :
  tag_wf db → matches_ids ids node = true → db_tags db' = db_tags db →
  (∀ tag, db_rows db' !! (node, tag, Manual) = db_rows db !! (node, tag, Manual)) →
  (∀ tag, tag ∈ autos ↔ is_Some (db_rows db' !! (node, tag, Auto))) →
  x ∈ node_names db' node ↔ x ∈ visible_names autos (default [] (assignments ids Manual db !! node)) (cp_meta (compiled_of db)).
Proof.
  intros Hwf Hi Ht Hm Ha. rewrite elem_of_node_names, elem_of_visible_names, assignments_lookup.
  setoid_rewrite merge_sort_Permutation. setoid_rewrite (elem_of_rows ids Manual db node); [|done].
  setoid_rewrite compiled_meta; [|done]. setoid_rewrite Ha. rewrite Ht. split.
  - intros (tag & source & v & t & Hrow & Htag & <-). exists tag, (meta_of t). rewrite Htag. split_and!; [|done|done|].
    + destruct source; [right; by rewrite Hrow|left; by rewrite <-Hm, Hrow].
    + by destruct (wf_tags _ Hwf _ _ Htag) as (_ & _ & ?).
  - intros (tag & m & Hrow & Hmeta & <- & _). apply fmap_Some in Hmeta as (t & Htag & ->).
    destruct Hrow as [[v Hv]|[v Hv]]; [exists tag, Manual, v, t; by rewrite Hm|by exists tag, Auto, v, t].
Qed.

Lemma rewritten_nodes targeted ids now db sets facts :
  NoDup (nf_NodeID <$> sets) → facts ∈ sets →
  nf_NodeID facts ∈ as_NodeID <$> rewritten targeted ids now db sets ↔ rewrites targeted ids now db facts = true.
Proof.
  intros Hnd Hin. unfold rewritten. rewrite <-list_fmap_compose, list_elem_of_fmap. split.
  - intros (facts' & Heq & [Hr Hin']%list_elem_of_filter). by rewrite (NoDup_key_inj nf_NodeID sets facts facts').
  - intros Hr. exists facts. split; [done|]. by apply list_elem_of_filter.
Qed.

Lemma reported_nodes ids now db sets facts :
  NoDup (nf_NodeID <$> sets) → facts ∈ sets → nf_NodeID facts ∈ reported ids now db sets ↔ changes ids now db facts = true.
Proof.
  intros Hnd Hin. unfold reported. rewrite list_elem_of_fmap. split.
  - intros (facts' & Heq & [Hr Hin']%list_elem_of_filter). by rewrite (NoDup_key_inj nf_NodeID sets facts facts').
  - intros Hr. exists facts. split; [done|]. by apply list_elem_of_filter.
Qed.

Lemma NoDup_rewritten targeted ids now db sets : NoDup (nf_NodeID <$> sets) → NoDup (as_NodeID <$> rewritten targeted ids now db sets).
Proof. intros Hnd. unfold rewritten. rewrite <-list_fmap_compose. by apply (NoDup_filter_key nf_NodeID). Qed.

(** What a recompute did, node by node. *)
Record recompute_effect (nodeIDs : option (list Z)) (now : Z) (db : tag_db) (sets : list NodeFacts) (r : recomputed) : Prop := {
  re_load : Load (stored_source columns fault src db) (default [] nodeIDs) = Ok sets;
  re_distinct : NoDup (nf_NodeID <$> sets);
  re_members : ∀ node, node ∈ nf_NodeID <$> sets ↔ is_Some (db_nodes db !! node) ∧ matches_ids (default [] nodeIDs) node = true;
  re_wf : tag_wf (rc_db r);
  re_tags : db_tags (rc_db r) = db_tags db;
  re_nodes : ∀ node, is_Some (db_nodes (rc_db r) !! node) ↔ is_Some (db_nodes db !! node);
  re_untouched : ∀ node, node ∉ nf_NodeID <$> sets → db_nodes (rc_db r) !! node = db_nodes db !! node;
  re_column : ∀ facts, facts ∈ sets →
    db_nodes (rc_db r) !! nf_NodeID facts =
      if rewrites (bool_decide (is_Some nodeIDs)) (default [] nodeIDs) now db facts
      then Some (projection_of (rc_db r) (nf_NodeID facts)) else db_nodes db !! nf_NodeID facts;
  re_manual : ∀ node tag, db_rows (rc_db r) !! (node, tag, Manual) = db_rows db !! (node, tag, Manual);
  re_others : ∀ node tag, node ∉ nf_NodeID <$> sets → db_rows (rc_db r) !! (node, tag, Auto) = db_rows db !! (node, tag, Auto);
  re_kept : ∀ facts tag, facts ∈ sets → rewrites (bool_decide (is_Some nodeIDs)) (default [] nodeIDs) now db facts = false →
    db_rows (rc_db r) !! (nf_NodeID facts, tag, Auto) = db_rows db !! (nf_NodeID facts, tag, Auto);
  re_stored : ∀ facts tag, facts ∈ sets → rewrites (bool_decide (is_Some nodeIDs)) (default [] nodeIDs) now db facts = true →
    db_rows (rc_db r) !! (nf_NodeID facts, tag, Auto) = assigned (Assignment (decided (default [] nodeIDs) now db facts)) !! tag;
  re_changed : rc_changed r = reported (default [] nodeIDs) now db sets;
  re_notified : rc_notified r = match rc_changed r with [] => [] | _ => [rc_changed r] end
}.

Lemma Recompute_effect nodeIDs now db r :
  tag_wf db → nodeIDs ≠ Some [] → Recompute columns src fault nodeIDs now db = Ok r → ∃ sets, recompute_effect nodeIDs now db sets r.
Proof.
  intros Hwf Hne Hr. destruct (Recompute_Ok _ _ _ _ Hr) as [[? _]|(_ & sets & Hl & Hrep & Hc & Hno)]; [done|].
  destruct (Load_members _ _ _ Hl) as [Hnd Hmem]. set (ids := default [] nodeIDs) in *.
  set (targeted := bool_decide (is_Some nodeIDs)) in *.
  pose proof (NoDup_rewritten targeted ids now db sets Hnd) as Hnd'.
  destruct (replace_effect _ _ _ Hrep Hwf Hnd') as (Hwf' & Ht & Hn & Hm & Hout & Hin).
  assert (Honly : ∀ node, node ∈ as_NodeID <$> rewritten targeted ids now db sets → node ∈ nf_NodeID <$> sets).
  { intros node Hrw. unfold rewritten in Hrw. rewrite <-list_fmap_compose in Hrw.
    apply list_elem_of_fmap in Hrw as (facts & -> & [_ Hf]%list_elem_of_filter). apply list_elem_of_fmap. by exists facts. }
  exists sets. constructor; fold ids targeted; try done.
  - intros node. rewrite Hn. case_decide; [|done]. by rewrite fmap_is_Some.
  - intros node Hnode. rewrite Hn, decide_False; [done|]. by intros ?%Honly.
  - intros facts Hf. assert (Hnode : nf_NodeID facts ∈ nf_NodeID <$> sets) by (apply list_elem_of_fmap; by exists facts).
    apply Hmem in Hnode as [[names Hnames] _]. rewrite Hn, Hnames. pose proof (rewritten_nodes targeted ids now db sets facts Hnd Hf) as Hiff.
    destruct (rewrites targeted ids now db facts); [by rewrite decide_True by by apply Hiff|].
    rewrite decide_False; [done|]. by intros ?%Hiff.
  - intros node tag Hnode. apply Hout. by intros ?%Honly.
  - intros facts tag Hf Hrw. apply Hout. rewrite rewritten_nodes by done. by rewrite Hrw.
  - intros facts tag Hf Hrw. refine (Hin (Assignment (decided ids now db facts)) _ _ _ tag).
    + unfold rewritten. apply list_elem_of_fmap. exists facts. split; [done|]. by apply list_elem_of_filter.
    + cbn. assert (Hnode : nf_NodeID facts ∈ nf_NodeID <$> sets) by (apply list_elem_of_fmap; by exists facts).
      apply Hmem in Hnode as [Hnode _]. by apply (wf_nodes _ Hwf).
    + by apply decided_ok.
Qed.

Lemma changes_rewrites targeted ids now db facts : changes ids now db facts = true → rewrites targeted ids now db facts = true.
Proof. unfold rewrites. intros ->. by rewrite orb_true_r. Qed.

(** The automatic tags of a node after the recompute, as a list. *)
Lemma effect_projection nodeIDs now db sets r facts x :
  tag_wf db → recompute_effect nodeIDs now db sets r → facts ∈ sets →
  rewrites (bool_decide (is_Some nodeIDs)) (default [] nodeIDs) now db facts = true →
  x ∈ node_names (rc_db r) (nf_NodeID facts) ↔
  x ∈ visible_names (de_TagIDs (decided (default [] nodeIDs) now db facts))
        (default [] (assignments (default [] nodeIDs) Manual db !! nf_NodeID facts)) (cp_meta (compiled_of db)).
Proof.
  intros Hwf He Hf Hrw. apply names_visible; [done| |by apply He|intros; by apply He|].
  - assert (Hnode : nf_NodeID facts ∈ nf_NodeID <$> sets) by (apply list_elem_of_fmap; by exists facts).
    by apply (re_members _ _ _ _ _ He) in Hnode as [_ ?].
  - intros tag. rewrite (re_stored _ _ _ _ _ He) by done.
    destruct (decided_ok (default [] nodeIDs) now db facts Hwf) as [Hok _].
    set (d := decided (default [] nodeIDs) now db facts) in *. assert (Hlen : length (de_TagIDs d) = length (de_RuleVersions d)) by apply Hok. split.
    + intros Hin. rewrite <-(fst_zip (de_TagIDs d) (de_RuleVersions d)) in Hin by lia.
      apply list_elem_of_fmap in Hin as ([t v] & -> & Hin). exists v. by apply assignment_row.
    + intros [v Hv%assignment_row]; [|done]. cbn in Hv. by apply elem_of_zip_l in Hv.
Qed.

Lemma current_projection ids db node x :
  tag_wf db → matches_ids ids node = true →
  x ∈ node_names db node ↔
  x ∈ visible_names (nt_TagID <$> default [] (autoAssignments ids db !! node)) (default [] (assignments ids Manual db !! node)) (cp_meta (compiled_of db)).
Proof.
  intros Hwf Hi. apply names_visible; [done..|]. intros tag. rewrite autoAssignments_lookup.
  rewrite (fmap_Permutation nt_TagID _ _ (merge_sort_Permutation row_tag_le _)). by apply elem_of_rows.
Qed.
End effect.

(** ** Idle nodes *)
Lemma filter_none {A} (P : A → Prop) `{∀ x, Decision (P x)} (l : list A) : (∀ x, x ∈ l → ¬ P x) → filter P l = [].
Proof. induction l as [|x l IH]; intros Hno; [done|]. rewrite filter_cons_False by (apply Hno; by left). apply IH. set_solver. Qed.

Lemma sorted_rows_ext ids db db' node :
  matches_ids ids node = true → (∀ tag, db_rows db' !! (node, tag, Auto) = db_rows db !! (node, tag, Auto)) →
  default [] (autoAssignments ids db' !! node) = default [] (autoAssignments ids db !! node).
Proof.
  intros Hi Hr. rewrite !autoAssignments_lookup.
  assert (Hp : node_rows ids Auto db' node ≡ₚ node_rows ids Auto db node).
  { apply NoDup_Permutation; [eapply NoDup_fmap_1, NoDup_node_rows..|]. intros r. rewrite !elem_of_node_rows by done. by rewrite Hr. }
  apply (merge_sort_key_unique row_tag_le); [|done]. intros a b Ha Hb ? ?.
  apply (NoDup_key_inj nt_TagID (node_rows ids Auto db' node)); [apply NoDup_node_rows|done|done|]. unfold row_tag_le in *. lia.
Qed.

(** The rows of an assignment, read back. *)
Lemma sorted_rows_assigned ids db node a :
  matches_ids ids node = true → assignment_ok a → StronglySorted id_le (zip (as_TagIDs a) (as_RuleVersions a)) →
  (∀ tag, db_rows db !! (node, tag, Auto) = assigned a !! tag) →
  let rows := default [] (autoAssignments ids db !! node) in
  (nt_TagID <$> rows) = as_TagIDs a ∧ (nt_RuleVersion <$> rows) = as_RuleVersions a.
Proof.
  intros Hi Hok Hs Hr rows. pose proof Hok as (Hnd & _ & Hlen). unfold rows. rewrite autoAssignments_lookup. clear rows.
  set (rows := node_rows ids Auto db node). set (pair := λ r : NodeTag, (nt_TagID r, nt_RuleVersion r)).
  assert (Hpairs : pair <$> merge_sort row_tag_le rows = zip (as_TagIDs a) (as_RuleVersions a)).
  { assert (Hp : pair <$> merge_sort row_tag_le rows ≡ₚ zip (as_TagIDs a) (as_RuleVersions a)).
    { rewrite (fmap_Permutation pair _ _ (merge_sort_Permutation row_tag_le rows)). apply NoDup_Permutation.
      - apply (NoDup_fmap_1 fst). rewrite <-list_fmap_compose. apply NoDup_node_rows.
      - apply (NoDup_fmap_1 fst). by rewrite fst_zip by lia.
      - intros [tag v]. rewrite <-(assignment_row a tag v Hok), <-Hr, list_elem_of_fmap. split.
        + intros (r & [= -> ->] & Hin). by apply elem_of_node_rows in Hin as (_ & _ & ?).
        + intros Hv. exists (mkNodeTag node tag Auto v). split; [done|]. by apply elem_of_node_rows. }
    apply (StronglySorted_unique_strong id_le); [|by apply StronglySorted_fmap with row_tag_le; [|apply (StronglySorted_merge_sort row_tag_le)]|done|done].
    intros x y Hx Hy ? ?. rewrite Hp in Hx. apply (NoDup_key_inj fst (zip (as_TagIDs a) (as_RuleVersions a))); [|done|done|unfold id_le in *; lia].
    by rewrite fst_zip by lia. }
  split.
  - rewrite <-(fst_zip (as_TagIDs a) (as_RuleVersions a)) by lia. rewrite <-Hpairs, <-list_fmap_compose. done.
  - rewrite <-(snd_zip (as_TagIDs a) (as_RuleVersions a)) by lia. rewrite <-Hpairs, <-list_fmap_compose. done.
Qed.

#[export] Instance node_tag_le_trans : Transitive node_tag_le.
Proof. intros a b c. unfold node_tag_le. lia. Qed.
#[export] Instance node_tag_le_total : Total node_tag_le.
Proof. intros [n t s v] [n' t' s' v']. unfold node_tag_le. cbn. lia. Qed.

Lemma ListNodeTags_ext ids tags source db db' :
  (∀ node tag, db_rows db' !! (node, tag, source) = db_rows db !! (node, tag, source)) →
  ListNodeTags ids tags (Some source) db' = ListNodeTags ids tags (Some source) db.
Proof.
  intros Hr. assert (Hp : ListNodeTags ids tags (Some source) db' ≡ₚ ListNodeTags ids tags (Some source) db).
  { apply NoDup_Permutation; [eapply NoDup_fmap_1, NoDup_ListNodeTags..|].
    intros [n t s v]. rewrite !elem_of_ListNodeTags. cbn. split; intros (Hk & -> & ?); (split; [|done]); congruence. }
  unfold ListNodeTags in *. apply (merge_sort_key_unique node_tag_le); [|by rewrite !merge_sort_Permutation in Hp].
  intros a b Ha Hb Hab Hba. pose proof (NoDup_ListNodeTags ids tags (Some source) db') as Hnd. unfold ListNodeTags in Hnd.
  rewrite merge_sort_Permutation in Hnd. apply (NoDup_key_inj _ _ a b Hnd Ha Hb).
  assert (nt_Source a = source ∧ nt_Source b = source) as [-> ->].
  { apply list_elem_of_fmap in Ha as ([[[n t] s] v] & -> & [Ha%andb_prop _]%list_elem_of_filter).
    apply list_elem_of_fmap in Hb as ([[[n' t'] s'] v'] & -> & [Hb%andb_prop _]%list_elem_of_filter). cbn in *.
    destruct Ha as [_ Ha%bool_decide_eq_true], Hb as [_ Hb%bool_decide_eq_true]. done. }
  unfold node_tag_le in *. by assert (nt_NodeID a = nt_NodeID b ∧ nt_TagID a = nt_TagID b) as [-> ->] by lia.
Qed.

Section idle.
Context `{RO : !RangeOrder string, RL : !RegionLibrary, LL : !LoaderLibraries, PL : !Platform, RU : !RuleLibraries}.
Context (columns : Z → NodeRow) (src : FactSource) (fault : store_call → option string).

(** The facts do not depend on the automatic tags. *)
Lemma Load_ext ids db db' :
  (∀ node, is_Some (db_nodes db' !! node) ↔ is_Some (db_nodes db !! node)) → db_tags db' = db_tags db →
  (∀ node tag, db_rows db' !! (node, tag, Manual) = db_rows db !! (node, tag, Manual)) →
  Load (stored_source columns fault src db') ids = Load (stored_source columns fault src db) ids.
Proof.
  intros Hn Ht Hm.
  assert (Hnodes : ListNodes (stored_source columns fault src db') ids = ListNodes (stored_source columns fault src db) ids).
  { cbn. do 3 f_equal. apply (merge_sort_key_unique Z.le); [intros; lia|].
    apply NoDup_Permutation; [apply NoDup_filter, NoDup_fst_map_to_list..|]. intros id.
    rewrite !list_elem_of_filter, !list_elem_of_fmap. f_equiv. specialize (Hn id). split.
    - intros ([? v] & -> & Hv%elem_of_map_to_list). cbn in *. destruct Hn as [[w Hw] _]; [by rewrite Hv|].
      exists (z, w). split; [done|]. by apply elem_of_map_to_list.
    - intros ([? v] & -> & Hv%elem_of_map_to_list). cbn in *. destruct Hn as [_ [w Hw]]; [by rewrite Hv|].
      exists (z, w). split; [done|]. by apply elem_of_map_to_list. }
  assert (Htags : ListTagNames (stored_source columns fault src db') = ListTagNames (stored_source columns fault src db)).
  { cbn. unfold ListTags. by rewrite Ht. }
  assert (Hman : ∀ l, ListManualNodeTags (stored_source columns fault src db') l = ListManualNodeTags (stored_source columns fault src db) l).
  { intros l. cbn. by rewrite (ListNodeTags_ext l [] Manual db db'). }
  unfold Load. rewrite Hnodes. destruct (ListNodes (stored_source columns fault src db) ids) as [nodes|]; [|done]. cbn [result_bind].
  unfold LoadFromNodes, manualTagNames. destruct nodes; [done|]. by rewrite Htags, Hman.
Qed.

Lemma decided_ext ids now db db' facts :
  db_tags db' = db_tags db → (∀ node tag, db_rows db' !! (node, tag, Manual) = db_rows db !! (node, tag, Manual)) →
  assignments ids Manual db' = assignments ids Manual db ∧ compiled_of db' = compiled_of db ∧
  decided ids now db' facts = decided ids now db facts.
Proof.
  intros Ht Hm.
  assert (Ha : assignments ids Manual db' = assignments ids Manual db) by (unfold assignments; by rewrite (ListNodeTags_ext _ _ _ db db')).
  assert (Hc : compiled_of db' = compiled_of db) by (unfold compiled_of, ListTags; by rewrite Ht).
  split_and!; [done..|]. unfold decided. by rewrite Ha, Hc.
Qed.

Lemma decided_sorted ids now db facts :
  tag_wf db → StronglySorted id_le (zip (de_TagIDs (decided ids now db facts)) (de_RuleVersions (decided ids now db facts))).
Proof. intros Hwf. destruct (decided_pairs ids now db facts Hwf) as (rules & _ & _ & -> & _). apply (StronglySorted_merge_sort id_le). Qed.

Lemma versions_unchanged rows : ruleVersionsChanged rows (nt_RuleVersion <$> rows) = false.
Proof.
  unfold ruleVersionsChanged. rewrite bool_decide_true by (by rewrite length_fmap). cbn.
  induction rows as [|r rows IH]; [done|]. cbn. by rewrite Z.eqb_refl.
Qed.

Lemma ruleVersionsChanged_false rows versions : ruleVersionsChanged rows versions = false → (nt_RuleVersion <$> rows) = versions.
Proof.
  unfold ruleVersionsChanged. intros [Hlen%negb_false_iff%bool_decide_eq_true Hex]%orb_false_iff.
  revert versions Hlen Hex. induction rows as [|r rows IH]; intros [|v versions] Hlen Hex; try done.
  cbn in Hex. apply orb_false_iff in Hex as [Hv%negb_false_iff%Z.eqb_eq Hex]. cbn. rewrite Hv. f_equal. apply IH; [by injection Hlen|done].
Qed.

(** Equal visible names and unequal tags: what is left out is assigned by hand. *)
Lemma visible_covers db a b manual tag :
  tag_wf db → visible_names a manual (cp_meta (compiled_of db)) = visible_names b manual (cp_meta (compiled_of db)) →
  tag ∈ a → is_Some (db_tags db !! tag) → tag ∈ manual ∨ tag ∈ b.
Proof.
  intros Hwf Heq Ha [t Ht]. destruct (wf_tags _ Hwf _ _ Ht) as (_ & _ & Hne).
  assert (Hin : tg_Name t ∈ visible_names a manual (cp_meta (compiled_of db))).
  { apply elem_of_visible_names. exists tag, (meta_of t). rewrite compiled_meta, Ht by done. auto. }
  rewrite Heq in Hin. apply elem_of_visible_names in Hin as (tag' & m & Hin & Hm & Hname & _).
  rewrite compiled_meta in Hm by done. apply fmap_Some in Hm as (t' & Ht' & ->).
  by rewrite (wf_names _ Hwf tag tag' t t' Ht Ht' (eq_sym Hname)).
Qed.

Lemma elem_of_assignments ids source db node tag :
  matches_ids ids node = true → tag ∈ default [] (assignments ids source db !! node) ↔ is_Some (db_rows db !! (node, tag, source)).
Proof. intros Hi. rewrite assignments_lookup, merge_sort_Permutation. by apply elem_of_rows. Qed.

Lemma elem_of_previous ids db node tag :
  matches_ids ids node = true →
  tag ∈ nt_TagID <$> default [] (autoAssignments ids db !! node) ↔ is_Some (db_rows db !! (node, tag, Auto)).
Proof.
  intros Hi. rewrite autoAssignments_lookup, (fmap_Permutation nt_TagID _ _ (merge_sort_Permutation row_tag_le _)). by apply elem_of_rows.
Qed.

Lemma list_differs {A} `{EqDecision A} (a b : list A) : (∀ x, x ∈ a ↔ x ∈ b) ∨ (∃ x, (x ∈ a ∧ x ∉ b) ∨ (x ∈ b ∧ x ∉ a)).
Proof.
  destruct (decide (Forall (λ x, x ∈ b) a)) as [Hab|Hab].
  - destruct (decide (Forall (λ x, x ∈ a) b)) as [Hba|Hba].
    + left. rewrite Forall_forall in Hab, Hba. naive_solver.
    + apply not_Forall_Exists in Hba; [|apply _]. apply Exists_exists in Hba as (x & ? & ?). right. exists x. by right.
  - apply not_Forall_Exists in Hab; [|apply _]. apply Exists_exists in Hab as (x & ? & ?). right. exists x. by left.
Qed.

(** After a full recompute no node asks for another rewrite. *)
Lemma effect_idle now db sets r facts :
  tag_wf db → recompute_effect columns src fault None now db sets r → facts ∈ sets →
  changes [] now (rc_db r) facts = false ∧ rewrites false [] now (rc_db r) facts = false.
Proof.
  intros Hwf He Hf.
  destruct (decided_ext [] now db (rc_db r) facts (re_tags _ _ _ _ _ _ _ _ He) (re_manual _ _ _ _ _ _ _ _ He)) as (Ha & Hc & Hd).
  destruct (rewrites false [] now db facts) eqn:Hrw.
  - destruct (decided_ok [] now db facts Hwf) as [Hok _].
    destruct (sorted_rows_assigned [] (rc_db r) (nf_NodeID facts) (Assignment (decided [] now db facts))) as [Hids Hvers];
      [done|done|by apply decided_sorted| |].
    { intros tag. by apply (re_stored _ _ _ _ _ _ _ _ He). }
    assert (Hch : changes [] now (rc_db r) facts = false).
    { apply projectionChanged_false. rewrite Hids, Hd. done. }
    split; [done|]. unfold rewrites. rewrite Hch, Hd. cbn [orb]. cbn [Assignment as_RuleVersions] in Hvers. rewrite <-Hvers. apply versions_unchanged.
  - assert (Hsame : default [] (autoAssignments [] (rc_db r) !! nf_NodeID facts) = default [] (autoAssignments [] db !! nf_NodeID facts)).
    { apply sorted_rows_ext; [done|]. intros tag. by apply (re_kept _ _ _ _ _ _ _ _ He). }
    assert (Hch : changes [] now db facts = false).
    { destruct (changes [] now db facts) eqn:E; [|done]. by rewrite (changes_rewrites false) in Hrw. }
    unfold rewrites, changes in *. by rewrite Hsame, Ha, Hc, Hd.
Qed.
(** A sweep that leaves a node alone: its rows are the decision's, or a tag in dispute
    is assigned by hand. *)
Lemma skipped_decision ids now db facts :
  tag_wf db → matches_ids ids (nf_NodeID facts) = true → is_Some (db_nodes db !! nf_NodeID facts) →
  rewrites false ids now db facts = false →
  (∀ tag, db_rows db !! (nf_NodeID facts, tag, Auto) = assigned (Assignment (decided ids now db facts)) !! tag) ∨
  (∃ tag, is_Some (db_rows db !! (nf_NodeID facts, tag, Manual)) ∧
     (tag ∈ de_TagIDs (decided ids now db facts) ↔ db_rows db !! (nf_NodeID facts, tag, Auto) = None)).
Proof.
  intros Hwf Hi Hs [[_ Hch]%orb_false_iff Hv%ruleVersionsChanged_false]%orb_false_iff. apply projectionChanged_false in Hch.
  destruct (decided_ok ids now db facts Hwf) as [Hok Htags]. pose proof (decided_sorted ids now db facts Hwf) as Hsorted.
  set (d := decided ids now db facts) in *. set (node := nf_NodeID facts) in *.
  set (prev := default [] (autoAssignments ids db !! node)) in *.
  pose proof (elem_of_previous ids db node) as Hprev. fold prev in Hprev.
  assert (Hlen : length (de_TagIDs d) = length (de_RuleVersions d)) by apply Hok.
  destruct (list_differs (nt_TagID <$> prev) (de_TagIDs d)) as [Hsame|(tag & Hdiff)].
  - left. assert (Hids : nt_TagID <$> prev = de_TagIDs d).
    { apply (StronglySorted_unique Z.le).
      - unfold prev. rewrite autoAssignments_lookup. by apply StronglySorted_fmap with row_tag_le; [|apply (StronglySorted_merge_sort row_tag_le)].
      - rewrite <-(fst_zip (de_TagIDs d) (de_RuleVersions d)) by lia. by apply StronglySorted_fmap with id_le.
      - apply NoDup_Permutation; [|apply Hok|done]. unfold prev.
        rewrite autoAssignments_lookup, (fmap_Permutation nt_TagID _ _ (merge_sort_Permutation row_tag_le _)). apply NoDup_node_rows. }
    intros tag. apply option_eq. intros v. rewrite assignment_row by done. cbn [Assignment as_TagIDs as_RuleVersions].
    rewrite <-Hids, <-Hv, zip_with_fmap_l, zip_with_fmap_r, zip_with_diag, list_elem_of_fmap. unfold prev. rewrite autoAssignments_lookup.
    setoid_rewrite merge_sort_Permutation. split.
    + intros Hrow. exists (mkNodeTag node tag Auto v). split; [done|]. by apply elem_of_node_rows.
    + intros (r & [= -> ->] & Hr). by apply elem_of_node_rows in Hr as (_ & _ & ?).
  - right. exists tag. destruct Hdiff as [[Hp Hn]|[Hn Hp]].
    + pose proof Hp as [v Hrow]%Hprev; [|done]. destruct (wf_rows _ Hwf _ _ _ _ Hrow) as [_ Htag].
      destruct (visible_covers db _ _ _ tag Hwf Hch Hp Htag) as [Hman|?]; [|done].
      apply elem_of_assignments in Hman; [|done]. split; [done|]. rewrite Hrow. naive_solver.
    + destruct (visible_covers db _ _ _ tag Hwf (eq_sym Hch) Hn (Htags _ Hn)) as [Hman|?]; [|done].
      apply elem_of_assignments in Hman; [|done]. split; [done|]. rewrite Hprev in Hp by done.
      apply eq_None_not_Some in Hp. naive_solver.
Qed.
End idle.

(** ** What the recompute promises *)
Section properties.
Context `{RO : !RangeOrder string, RL : !RegionLibrary, LL : !LoaderLibraries, PL : !Platform, RU : !RuleLibraries}.
Context (columns : Z → NodeRow) (src : FactSource) (fault : store_call → option string).

(** The nodes reported are those whose assigned names changed. *)
Lemma reported_projections nodeIDs now db sets r node :
  tag_wf db → recompute_effect columns src fault nodeIDs now db sets r →
  node ∈ rc_changed r ↔ is_Some (db_nodes db !! node) ∧ projection_of (rc_db r) node ≠ projection_of db node.
Proof.
  intros Hwf He. pose proof (re_distinct _ _ _ _ _ _ _ _ He) as Hnd. rewrite (re_changed _ _ _ _ _ _ _ _ He). split.
  - intros Hin. unfold reported in Hin. apply list_elem_of_fmap in Hin as (facts & -> & [Hch Hf]%list_elem_of_filter).
    assert (Hnode : nf_NodeID facts ∈ nf_NodeID <$> sets) by (apply list_elem_of_fmap; by exists facts).
    apply (re_members _ _ _ _ _ _ _ _ He) in Hnode as [Hs Hi]. split; [done|]. intros Heq.
    apply not_false_iff_true in Hch. apply Hch, projectionChanged_false, visible_names_ext. intros x.
    rewrite <-(current_projection (default [] nodeIDs) db) by done.
    rewrite <-(effect_projection _ _ _ _ _ _ _ _ _ x Hwf He Hf) by (apply changes_rewrites; by apply not_false_iff_true).
    unfold projection_of in Heq. by rewrite (dedupeSorted_inj _ _ Heq x).
  - intros [Hs Hproj]. destruct (decide (node ∈ nf_NodeID <$> sets)) as [Hin|Hout].
    + pose proof Hin as (facts & -> & Hf)%list_elem_of_fmap. rewrite reported_nodes by done.
      destruct (changes _ now db facts) eqn:Hch; [done|]. exfalso. apply Hproj, dedupeSorted_ext. intros x.
      apply (re_members _ _ _ _ _ _ _ _ He) in Hin as [_ Hi].
      destruct (rewrites (bool_decide (is_Some nodeIDs)) (default [] nodeIDs) now db facts) eqn:Hrw.
      * rewrite (effect_projection _ _ _ _ _ _ _ _ _ x Hwf He Hf Hrw), (current_projection (default [] nodeIDs) db) by done.
        apply projectionChanged_false in Hch. by rewrite Hch.
      * apply dedupeSorted_inj. change (projection_of (rc_db r) (nf_NodeID facts) = projection_of db (nf_NodeID facts)).
        apply projection_of_ext; [apply He|]. intros tag source. destruct source; [|apply He]. by apply (re_kept _ _ _ _ _ _ _ _ He).
    + exfalso. apply Hproj, projection_of_ext; [apply He|]. intros tag source. destruct source; [|apply He].
      by apply (re_others _ _ _ _ _ _ _ _ He).
Qed.

(** A column that was the projection of its assignments is so afterwards, and changed
    only if the node is reported. *)
Lemma column_in_step nodeIDs now db sets r node :
  tag_wf db → recompute_effect columns src fault nodeIDs now db sets r →
  db_nodes db !! node = Some (projection_of db node) →
  db_nodes (rc_db r) !! node = Some (projection_of (rc_db r) node).
Proof.
  intros Hwf He Hcol. destruct (decide (node ∈ nf_NodeID <$> sets)) as [Hin|Hout].
  - pose proof Hin as (facts & -> & Hf)%list_elem_of_fmap. rewrite (re_column _ _ _ _ _ _ _ _ He facts Hf).
    destruct (rewrites _ _ _ _ _) eqn:Hrw; [done|]. rewrite Hcol. f_equal. symmetry.
    apply projection_of_ext; [apply He|]. intros tag source. destruct source; [|apply He]. by apply (re_kept _ _ _ _ _ _ _ _ He).
  - rewrite (re_untouched _ _ _ _ _ _ _ _ He node Hout), Hcol. f_equal. symmetry.
    apply projection_of_ext; [apply He|]. intros tag source. destruct source; [|apply He]. by apply (re_others _ _ _ _ _ _ _ _ He).
Qed.

Lemma Recompute_reports nodeIDs now db r :
  tag_wf db → Recompute columns src fault nodeIDs now db = Ok r →
  tag_wf (rc_db r) ∧ NoDup (rc_changed r) ∧
  (∀ node, node ∈ rc_changed r ↔ is_Some (db_nodes db !! node) ∧ projection_of (rc_db r) node ≠ projection_of db node) ∧
  (∀ node, db_nodes db !! node = Some (projection_of db node) →
     db_nodes (rc_db r) !! node = Some (projection_of (rc_db r) node) ∧
     (node ∈ rc_changed r ↔ db_nodes (rc_db r) !! node ≠ db_nodes db !! node)) ∧
  (∀ node, is_Some nodeIDs → node ∈ default [] nodeIDs → is_Some (db_nodes db !! node) →
     db_nodes (rc_db r) !! node = Some (projection_of (rc_db r) node)) ∧
  concat (rc_notified r) = rc_changed r ∧ length (rc_notified r) = (if decide (rc_changed r = []) then 0 else 1)%nat ∧
  (∀ node tag, db_rows (rc_db r) !! (node, tag, Manual) = db_rows db !! (node, tag, Manual)).
Proof.
  intros Hwf Hr. destruct (decide (nodeIDs = Some [])) as [->|Hne].
  { cbn in Hr. injection Hr as <-. split_and!; [done|constructor|set_solver| |set_solver|done..].
    intros node Hcol. split; [done|set_solver]. }
  destruct (Recompute_effect _ _ _ _ _ _ _ Hwf Hne Hr) as (sets & He).
  pose proof (λ node, reported_projections _ _ _ _ _ node Hwf He) as Hrep. split_and!; [apply He| |done| | | | |apply He].
  - rewrite (re_changed _ _ _ _ _ _ _ _ He). unfold reported. apply (NoDup_filter_key nf_NodeID), He.
  - intros node Hcol. pose proof (column_in_step _ _ _ _ _ node Hwf He Hcol) as Hcol'. split; [done|].
    rewrite Hrep, Hcol, Hcol'. split; [intros [_ Hp]; congruence|intros Hp; split; [done|congruence]].
  - intros node [ids ->] Hin Hs. cbn in Hin.
    assert (node ∈ nf_NodeID <$> sets) as (facts & -> & Hf)%list_elem_of_fmap.
    { apply (re_members _ _ _ _ _ _ _ _ He). split; [done|]. cbn. destruct ids; [done|]. by apply bool_decide_eq_true. }
    by rewrite (re_column _ _ _ _ _ _ _ _ He facts Hf).
  - rewrite (re_notified _ _ _ _ _ _ _ _ He). destruct (rc_changed r); [done|]. cbn. by rewrite app_nil_r.
  - rewrite (re_notified _ _ _ _ _ _ _ _ He). by destruct (rc_changed r).
Qed.

(** C17: A recompute reports exactly the nodes whose tags it changed, told by their
    names under the tags' present names. It reports a node, once, if and only if the
    sorted set of the names of its assigned tags differs afterwards, whatever nodes it is
    asked for and whichever it rewrites; group membership is told of exactly these nodes,
    or not at all when there are none; no assignment made by hand is touched. Of a node
    whose column [nodes.tags] was that set before, the column is the new set afterwards
    and the node is reported if and only if the column changed. Of a node whose column
    was not, because a tag it carries was renamed, a recompute that lists the node
    rewrites the column as well, but reports the node only if its assignments changed: the
    new name alone is not reported. *)
Theorem recompute_reports_the_changes nodeIDs now db r :
  tag_wf db → Recompute columns src fault nodeIDs now db = Ok r →
  tag_wf (rc_db r) ∧ NoDup (rc_changed r) ∧
  (∀ node, node ∈ rc_changed r ↔ is_Some (db_nodes db !! node) ∧ projection_of (rc_db r) node ≠ projection_of db node) ∧
  (∀ node, db_nodes db !! node = Some (projection_of db node) →
     db_nodes (rc_db r) !! node = Some (projection_of (rc_db r) node) ∧
     (node ∈ rc_changed r ↔ db_nodes (rc_db r) !! node ≠ db_nodes db !! node)) ∧
  (∀ node, is_Some nodeIDs → node ∈ default [] nodeIDs → is_Some (db_nodes db !! node) →
     db_nodes (rc_db r) !! node = Some (projection_of (rc_db r) node)) ∧
  concat (rc_notified r) = rc_changed r ∧ length (rc_notified r) = (if decide (rc_changed r = []) then 0 else 1)%nat ∧
  (∀ node tag, db_rows (rc_db r) !! (node, tag, Manual) = db_rows db !! (node, tag, Manual)).
Proof. apply Recompute_reports. Qed.

(** C18: a recompute stores what the rules decide. For each node it covers, the
    automatic rows are afterwards exactly the tags the resolver chose, each with the
    version of its rule; other nodes keep theirs. The one exception is a sweep over
    all nodes, which leaves the rows of a node alone when the visible names and the
    versions agree: then some tag in dispute is also assigned by hand. *)
Theorem recompute_stores_the_decisions nodeIDs now db r :
  tag_wf db → nodeIDs ≠ Some [] → Recompute columns src fault nodeIDs now db = Ok r →
  ∃ sets, Load (stored_source columns fault src db) (default [] nodeIDs) = Ok sets ∧
  (∀ node, node ∈ nf_NodeID <$> sets ↔ is_Some (db_nodes db !! node) ∧ matches_ids (default [] nodeIDs) node = true) ∧
  (∀ node tag, node ∉ nf_NodeID <$> sets → db_rows (rc_db r) !! (node, tag, Auto) = db_rows db !! (node, tag, Auto)) ∧
  ∀ facts, facts ∈ sets →
    let d := decided (default [] nodeIDs) now db facts in
    (∀ tag, db_rows (rc_db r) !! (nf_NodeID facts, tag, Auto) = assigned (Assignment d) !! tag) ∨
    (nodeIDs = None ∧
     (∀ tag, db_rows (rc_db r) !! (nf_NodeID facts, tag, Auto) = db_rows db !! (nf_NodeID facts, tag, Auto)) ∧
     ∃ tag, is_Some (db_rows db !! (nf_NodeID facts, tag, Manual)) ∧
            (tag ∈ de_TagIDs d ↔ db_rows db !! (nf_NodeID facts, tag, Auto) = None)).
Proof.
  intros Hwf Hne Hr. destruct (Recompute_effect _ _ _ _ _ _ _ Hwf Hne Hr) as (sets & He).
  exists sets. split_and!; [apply He..|]. intros facts Hf d.
  assert (Hnode : nf_NodeID facts ∈ nf_NodeID <$> sets) by (apply list_elem_of_fmap; by exists facts).
  apply (re_members _ _ _ _ _ _ _ _ He) in Hnode as [Hs Hi].
  destruct (rewrites (bool_decide (is_Some nodeIDs)) (default [] nodeIDs) now db facts) eqn:Hrw.
  - left. intros tag. by apply (re_stored _ _ _ _ _ _ _ _ He).
  - assert (Hkept : ∀ tag, db_rows (rc_db r) !! (nf_NodeID facts, tag, Auto) = db_rows db !! (nf_NodeID facts, tag, Auto))
      by (intros tag; by apply (re_kept _ _ _ _ _ _ _ _ He)).
    destruct nodeIDs as [ids|]; [done|]. destruct (skipped_decision columns _ now db facts Hwf Hi Hs Hrw) as [Hd|Hd].
    + left. intros tag. rewrite Hkept. apply Hd.
    + right. by split_and!.
Qed.

(** A full recompute is idle the second time. With the facts, the rules and the
    clock as they were, it writes nothing and reports nothing. *)
Theorem recompute_settles now db r :
  tag_wf db → RecomputeAll columns src fault now db = Ok r →
  RecomputeAll columns src fault now (rc_db r) = Ok (mkRecomputed (rc_db r) [] []).
Proof.
  intros Hg Hr. destruct (Recompute_effect columns src fault None now db r Hg ltac:(done) Hr) as (sets & He).
  pose proof (λ facts Hf, effect_idle columns src fault now db sets r facts Hg He Hf) as Hidle.
  unfold RecomputeAll, Recompute in *. cbn [default from_option is_Some] in *.
  rewrite !bool_decide_false in * by done.
  destruct (fault CallListTags) eqn:F1; [done|]. cbn [checked result_bind] in *. fold (compiled_of db) in Hr. fold (compiled_of (rc_db r)).
  assert (Hload : Load (stored_source columns fault src (rc_db r)) [] = Ok sets).
  { rewrite (Load_ext columns src fault [] db); [apply He|apply He|apply He|intros; by apply He]. }
  cbn in Hload. rewrite Hload. rewrite (re_load _ _ _ _ _ _ _ _ He : Load _ [] = Ok sets) in Hr. cbn [result_bind] in *.
  destruct sets as [|facts sets]; [done|].
  destruct (fault CallManualRows); [done|]. cbn [checked result_bind] in *. destruct (fault CallAutoRows); [done|]. cbn [checked result_bind] in *.
  rewrite (recompute_fold _ _ _ _ (facts :: sets)). cbn [fst snd app].
  unfold reported, rewritten. by rewrite !filter_none by (intros f Hf; apply not_true_iff_false; by apply Hidle).
Qed.
End properties.

(** ** A concrete store *)
Module ServiceSample.
Export FactLoader.StoreSample.
#[export] Instance libraries : RuleLibraries := {|
  json_Marshal_length := λ _, Some 200;
  json_Unmarshal_rule := λ s, if decide (s = "fast") then Some (leaf FieldLatencyMs OpLte (AnyString "300"))
                              else if decide (s = "down") then Some (leaf FieldAvailable OpEq (AnyBool false)) else None;
  json_MarshalCanonical_rule := λ _, None;
  Regexp := string;
  regexp_Compile := Some;
  MatchString := λ expression s, containsFoldText s expression
|}.
Definition no_fault (_ : store_call) : option string := None.
Definition columns (_ : Z) : NodeRow := node.
Definition tag (id : Z) (name rule : string) : Tag := mkTag id name 0 0 true rule 1 "".
Definition tables (rows : gmap row_key Z) (names : list string) : tag_db :=
  mkTagDb {[7 := names]} (list_to_map [(1, tag 1 "jp" ""); (2, tag 2 "fast" "fast"); (3, tag 3 "down" "down")]) rows ∅ ∅ 4 1 8.
(** The node is tagged by hand; nothing has been recomputed. *)
Definition before : tag_db := tables {[(7, 1, Manual) := 0]} ["jp"].
Definition after : tag_db := tables (<[(7, 2, Auto) := 1]> {[(7, 1, Manual) := 0]}) ["fast"; "jp"].
(** The node was down, and an operator assigned both tags by hand. *)
Definition stale : tag_db :=
  tables (list_to_map [((7, 2, Manual), 0); ((7, 3, Manual), 0); ((7, 3, Auto), 1)]) ["down"; "fast"].
(** The tag "jp" gets the name "japan". *)
Definition renamed : tag_db := match UpdateTag (tag 1 "japan" "") after with Ok db => db | Err _ => after end.
End ServiceSample.

Section sample.
Import ServiceSample.

Lemma tables_wf rows names :
  (∀ node tag source v, (rows : gmap row_key Z) !! (node, tag, source) = Some v → node = 7 ∧ 1 ≤ tag ≤ 3) →
  tag_wf (tables rows names).
Proof.
  intros Hr.
  assert (Htags : ∀ i t, db_tags (tables rows names) !! i = Some t → (i = 1 ∧ t = tag 1 "jp" "") ∨ (i = 2 ∧ t = tag 2 "fast" "fast") ∨ (i = 3 ∧ t = tag 3 "down" "down")).
  { intros i t Ht. apply elem_of_list_to_map_2 in Ht. rewrite !elem_of_cons, elem_of_nil in Ht. naive_solver. }
  constructor.
  - intros i t [[-> ->]|[[-> ->]|[-> ->]]]%Htags; by vm_compute.
  - intros i j t u [[-> ->]|[[-> ->]|[-> ->]]]%Htags [[-> ->]|[[-> ->]|[-> ->]]]%Htags; done.
  - done.
  - intros node tag source v [-> Ht]%Hr. split; [by exists names|].
    assert (tag = 1 ∨ tag = 2 ∨ tag = 3) as [->|[->| ->]] by lia; by eexists.
  - intros node [l Hl]. cbn in Hl. apply lookup_singleton_Some in Hl as [<- _]. done.
Qed.

Lemma before_wf : tag_wf before.
Proof.
  apply tables_wf. intros node tag source v Hv. apply lookup_singleton_Some in Hv as [[= <- <- <-] _]. lia.
Qed.

Lemma reports_witness :
  tag_wf before ∧ Recompute columns source no_fault None now before = Ok (mkRecomputed after [7] [[7]]) ∧
  db_nodes after !! 7 ≠ db_nodes before !! 7.
Proof.
  assert (Hr : Recompute columns source no_fault None now before = Ok (mkRecomputed after [7] [[7]])) by (vm_compute; reflexivity).
  split; [apply before_wf|]. split; [done|].
  destruct (recompute_reports_the_changes columns source no_fault None now before _ before_wf Hr) as (_ & _ & _ & Hch & _).
  apply (Hch 7); [by vm_compute|by left].
Defined.

Lemma stores_witness :
  ∃ sets, Load (stored_source columns no_fault source before) [7] = Ok sets ∧ 7 ∈ nf_NodeID <$> sets ∧
    db_rows after !! (7, 2, Auto) = Some 1.
Proof.
  assert (Hr : Recompute columns source no_fault (Some [7]) now before = Ok (mkRecomputed after [7] [[7]])) by (vm_compute; reflexivity).
  destruct (recompute_stores_the_decisions columns source no_fault (Some [7]) now before _ before_wf ltac:(done) Hr) as (sets & Hl & Hmem & _ & _).
  exists sets. split_and!; [done| |by vm_compute]. apply Hmem. by split.
Defined.

Lemma settles_witness :
  RecomputeAll columns source no_fault now after = Ok (mkRecomputed after [] []).
Proof.
  assert (Hr : RecomputeAll columns source no_fault now before = Ok (mkRecomputed after [7] [[7]])) by (vm_compute; reflexivity).
  exact (recompute_settles columns source no_fault now before _ before_wf Hr).
Defined.

(** A sweep does not always store what the rules decide. The node is no longer
    down, so the rules give it the tag "fast" alone; as both tags are also assigned
    by hand, names and versions agree, and the automatic row of "down" stays, while
    a recompute of that node by id replaces it. *)
Theorem sweep_keeps_a_stale_row :
  RecomputeAll columns source no_fault now stale = Ok (mkRecomputed stale [] []) ∧
  (∀ facts, Load (stored_source columns no_fault source stale) [] = Ok [facts] → de_TagIDs (decided [] now stale facts) = [2]) ∧
  db_rows stale !! (7, 3, Auto) = Some 1 ∧ db_rows stale !! (7, 2, Auto) = None ∧
  ∃ db, Recompute columns source no_fault (Some [7]) now stale = Ok (mkRecomputed db [] []) ∧
        db_rows db !! (7, 3, Auto) = None ∧ db_rows db !! (7, 2, Auto) = Some 1.
Proof.
  split_and!; [vm_compute; reflexivity| |vm_compute; reflexivity|vm_compute; reflexivity|].
  - intros facts. intros Hl. vm_compute in Hl. injection Hl as <-. vm_compute. reflexivity.
  - destruct (Recompute columns source no_fault (Some [7]) now stale) as [r|e] eqn:E; [|by vm_compute in E].
    exists (rc_db r). vm_compute in E. injection E as <-. by split_and!; vm_compute.
Qed.

(** What a rename does. The update leaves the old name in the column. The recompute of
    the node that [updateTag] asks for writes the new one and reports nothing; should it
    fail, no sweep over all nodes repairs the column, as each finds the assignments
    unchanged and leaves the node alone. *)
Theorem renames_are_not_reported :
  db_nodes renamed !! 7 = Some ["fast"; "jp"] ∧ projection_of renamed 7 = ["fast"; "japan"] ∧
  (∃ db, Recompute columns source no_fault (Some [7]) now renamed = Ok (mkRecomputed db [] []) ∧
         db_nodes db !! 7 = Some ["fast"; "japan"]) ∧
  RecomputeAll columns source no_fault now renamed = Ok (mkRecomputed renamed [] []).
Proof.
  split_and!; [by vm_compute..| |by vm_compute].
  destruct (Recompute columns source no_fault (Some [7]) now renamed) as [r|e] eqn:E; [|by vm_compute in E].
  exists (rc_db r). vm_compute in E. injection E as <-. by split; vm_compute.
Qed.
End sample.
