(* ===== verification/TagQueue.v ===== *)
(** The queue in front of the recompute ([internal/nodetag/queue.go]) and the queue
    behind it ([internal/app/membership_queue.go]), one atomic access per step: the
    senders on the detection pipeline and the worker of each queue interleave.

    The state of the first is a bounded channel with an overflow flag and the batch
    of its worker; of the second, a set of dirty nodes with a wake-up of capacity
    one. Both carry what is owed: the requests no later successful call covered. *)
From S2P Require Import Prelude Text Floats.

#[local] Open Scope Z_scope.

Module RecomputeQueue.

Definition DefaultDebounce : Z := 2 * GoTime.second.
Definition maxWaitAbsolute : Z := 30 * GoTime.second.
(** The request for every node travels as the id 0. *)
Definition allNodes : Z := 0.

(** [ch_sender] is the node whose send found the buffer full and whose sender has
    not stored the overflow flag yet; the mutex admits one sender at a time. *)
Record channel := mkChannel {
  ch_closed : bool; ch_cancelled : bool; ch_events : list Z; ch_overflow : bool; ch_sender : option Z
}.

(** What a flush does, and the call it makes. *)
Inductive call := Refuse | Nothing | CallAll | CallSome (ids : list Z).
Inductive flush_cause := AtDeadline | AtSweep | AtClose.

(** Where the worker is: in the select; between taking an event and swapping the
    flag; inside a flush; gone, having flushed or not. *)
Inductive worker_pc := Selecting | Received | Flushing (cause : flush_cause) (c : call) | Stopped (flushed : bool).

Record worker := mkWorker {
  w_pc : worker_pc; w_pending : gset Z; w_full : bool; w_firstEvent : Z; w_deadline : option Z
}.

(** ** The operations *)

(** The select of [Enqueue] and [EnqueueAll]: the event is buffered, or the overflow
    flag is going to be set. *)
Definition send (capacity : nat) (n : Z) (c : channel) : channel :=
  if decide (length (ch_events c) < capacity)%nat
  then mkChannel (ch_closed c) (ch_cancelled c) (ch_events c ++ [n]) (ch_overflow c) None
  else mkChannel (ch_closed c) (ch_cancelled c) (ch_events c) (ch_overflow c) (Some n).
Definition store_overflow (c : channel) : channel :=
  mkChannel (ch_closed c) (ch_cancelled c) (ch_events c) true None.
Definition close_events (c : channel) : channel :=
  mkChannel true (ch_cancelled c) (ch_events c) (ch_overflow c) (ch_sender c).
Definition cancel (c : channel) : channel :=
  mkChannel (ch_closed c) true (ch_events c) (ch_overflow c) (ch_sender c).

(** [Enqueue] without interference: the ids that are not positive are skipped. *)
Definition enqueue_one (capacity : nat) (c : channel) (n : Z) : channel :=
  if n <=? 0 then c
  else let c := send capacity n c in match ch_sender c with Some _ => store_overflow c | None => c end.
Definition Enqueue (capacity : nat) (nodeIDs : list Z) (c : channel) : channel :=
  if ch_closed c then c else foldl (enqueue_one capacity) c nodeIDs.
Definition EnqueueAll (capacity : nat) (c : channel) : channel :=
  if ch_closed c then c
  else let c := send capacity allNodes c in match ch_sender c with Some _ => store_overflow c | None => c end.

Definition maxWait (debounce : Z) : Z :=
  let w := wrap64 (debounce * 16) in if maxWaitAbsolute <? w then maxWaitAbsolute else w.

Definition receive (n : Z) (w : worker) : worker :=
  if decide (n = allNodes) then mkWorker Received (w_pending w) true (w_firstEvent w) (w_deadline w)
  else mkWorker Received ({[n]} ∪ w_pending w) (w_full w) (w_firstEvent w) (w_deadline w).

(** How long the batch still waits, [age] after its first event. *)
Definition quiet (debounce age : Z) : Z :=
  if maxWait debounce <? wrap64 (age + debounce)
  then let rest := maxWait debounce - age in if rest <? GoTime.millisecond then GoTime.millisecond else rest
  else debounce.

(** The rest of the receive: the flag swapped, the clock read, the timer reset. *)
Definition settle (debounce : Z) (overflow : bool) (now later : Z) (w : worker) : worker :=
  let full := w_full w || overflow in
  let first := if GoTime.isZero (w_firstEvent w) then now else w_firstEvent w in
  mkWorker Selecting (w_pending w) full first (Some (later + quiet debounce (GoTime.sub later first))).
Definition swap_overflow (c : channel) : channel :=
  mkChannel (ch_closed c) (ch_cancelled c) (ch_events c) false (ch_sender c).

(** [flush]: what it calls, and what it returns when the call answers [ok]. *)
Definition flush_call (cancelled : bool) (pending : gset Z) (full : bool) : call :=
  if cancelled then Refuse
  else if full then CallAll
  else if decide (pending = ∅) then Nothing else CallSome (merge_sort Z.le (elements pending)).
Definition flush_result (c : call) (ok : bool) : bool :=
  match c with Refuse => false | Nothing => true | CallAll | CallSome _ => ok end.

Definition begin_flush (cause : flush_cause) (cancelled : bool) (w : worker) : worker :=
  let full := match cause with AtSweep => true | _ => w_full w end in
  mkWorker (Flushing cause (flush_call cancelled (w_pending w) full)) (w_pending w) (w_full w) (w_firstEvent w) None.

Definition end_flush (debounce : Z) (cause : flush_cause) (flushed : bool) (now : Z) (w : worker) : worker :=
  match cause with
  | AtClose => mkWorker (Stopped flushed) (w_pending w) (w_full w) (w_firstEvent w) (w_deadline w)
  | _ =>
    if flushed then mkWorker Selecting ∅ false GoTime.zero (w_deadline w)
    else
      let full := match cause with AtSweep => true | _ => w_full w end in
      mkWorker Selecting (w_pending w) full (w_firstEvent w) (Some (now + debounce))
  end.

(** ** What is owed *)
Record ledger := mkLedger { g_owed : gset Z; g_inflight : gset Z }.

Definition owe (n : Z) (g : ledger) : ledger := mkLedger ({[n]} ∪ g_owed g) (g_inflight g).
Definition covered (c : call) (owed : gset Z) : gset Z :=
  match c with CallAll => owed | CallSome ids => owed ∩ list_to_set ids | _ => ∅ end.
Definition begin_call (c : call) (g : ledger) : ledger := mkLedger (g_owed g ∖ covered c (g_owed g)) (covered c (g_owed g)).
Definition end_call (flushed : bool) (g : ledger) : ledger :=
  if flushed then mkLedger (g_owed g) ∅ else mkLedger (g_owed g ∪ g_inflight g) ∅.

Record queue := mkQueue { q_channel : channel; q_worker : worker; q_ledger : ledger }.

Definition empty_channel : channel := mkChannel false false [] false None.
Definition idle_worker : worker := mkWorker Selecting ∅ false GoTime.zero None.
Definition NewQueue : queue := mkQueue empty_channel idle_worker (mkLedger ∅ ∅).

Section step.
Context (capacity : nat) (debounce : Z).

(** An access to the queue: by a sender, by [Close], by the worker. *)
Inductive queue_step : queue → queue → Prop :=
| step_send n c w g :
    0 ≤ n → ch_closed c = false → ch_sender c = None →
    queue_step (mkQueue c w g) (mkQueue (send capacity n c) w (owe n g))
| step_overflow n c w g :
    ch_sender c = Some n → queue_step (mkQueue c w g) (mkQueue (store_overflow c) w g)
| step_close c w g :
    ch_closed c = false → ch_sender c = None → queue_step (mkQueue c w g) (mkQueue (close_events c) w g)
| step_cancel c w g :
    ch_closed c = true → queue_step (mkQueue c w g) (mkQueue (cancel c) w g)
| step_receive n events c w g :
    w_pc w = Selecting → ch_events c = n :: events →
    queue_step (mkQueue c w g)
      (mkQueue (mkChannel (ch_closed c) (ch_cancelled c) events (ch_overflow c) (ch_sender c)) (receive n w) g)
| step_settle now later c w g :
    w_pc w = Received →
    queue_step (mkQueue c w g) (mkQueue (swap_overflow c) (settle debounce (ch_overflow c) now later w) g)
| step_deadline d now c w g :
    w_pc w = Selecting → w_deadline w = Some d → d ≤ now →
    let w' := begin_flush AtDeadline (ch_cancelled c) w in
    queue_step (mkQueue c w g) (mkQueue c w' (begin_call (flush_call (ch_cancelled c) (w_pending w) (w_full w)) g))
| step_sweep c w g :
    w_pc w = Selecting →
    queue_step (mkQueue c w g)
      (mkQueue c (begin_flush AtSweep (ch_cancelled c) w) (begin_call (flush_call (ch_cancelled c) (w_pending w) true) g))
| step_drained c w g :
    w_pc w = Selecting → ch_closed c = true → ch_events c = [] →
    queue_step (mkQueue c w g)
      (mkQueue c (begin_flush AtClose (ch_cancelled c) w) (begin_call (flush_call (ch_cancelled c) (w_pending w) (w_full w)) g))
| step_answer cause k ok now c w g :
    w_pc w = Flushing cause k →
    queue_step (mkQueue c w g)
      (mkQueue c (end_flush debounce cause (flush_result k ok) now w) (end_call (flush_result k ok) g))
| step_done c w g :
    w_pc w = Selecting → ch_cancelled c = true →
    queue_step (mkQueue c w g) (mkQueue c (mkWorker (Stopped false) (w_pending w) (w_full w) (w_firstEvent w) (w_deadline w)) g).

(** The worker's batch answers for a node. *)
Definition held (w : worker) (n : Z) : Prop := w_full w = true ∨ n ∈ w_pending w.
(** The batch outlives the flush the worker is in. *)
Definition batch_kept (pc : worker_pc) : Prop :=
  match pc with Selecting | Received | Flushing _ Refuse => True | _ => False end.

(** Where an owed node is. *)
Definition stored (q : queue) (n : Z) : Prop :=
  n ∈ ch_events (q_channel q) ∨ allNodes ∈ ch_events (q_channel q) ∨ ch_overflow (q_channel q) = true ∨
  ch_sender (q_channel q) = Some n ∨ (batch_kept (w_pc (q_worker q)) ∧ held (q_worker q) n).

Definition running (pc : worker_pc) : Prop := match pc with Stopped _ => False | _ => True end.

Record queue_inv (q : queue) : Prop := {
  qi_length : (length (ch_events (q_channel q)) ≤ capacity)%nat;
  qi_stored : running (w_pc (q_worker q)) → ∀ n, n ∈ g_owed (q_ledger q) → stored q n;
  qi_flight : match w_pc (q_worker q) with
              | Flushing cause k => ∀ n, n ∈ g_inflight (q_ledger q) → cause = AtSweep ∨ held (q_worker q) n
              | _ => g_inflight (q_ledger q) = ∅
              end;
  qi_armed : w_pc (q_worker q) = Selecting → w_full (q_worker q) = true ∨ w_pending (q_worker q) ≠ ∅ →
             is_Some (w_deadline (q_worker q));
  qi_closing : match w_pc (q_worker q) with
               | Flushing AtClose k => ch_closed (q_channel q) = true ∧ ch_events (q_channel q) = []
               | Stopped true => ch_closed (q_channel q) = true
               | _ => True
               end;
  qi_sender : ch_closed (q_channel q) = true → ch_sender (q_channel q) = None;
  qi_clean : w_pc (q_worker q) = Stopped true → ch_overflow (q_channel q) = false → g_owed (q_ledger q) = ∅
}.

Lemma inv_new : queue_inv NewQueue.
Proof. constructor; cbn; try done; [lia|intros _ [?|?]; done]. Qed.

Lemma inv_send n c w g :
  0 ≤ n → ch_closed c = false → ch_sender c = None → queue_inv (mkQueue c w g) → queue_inv (mkQueue (send capacity n c) w (owe n g)).
Proof.
  intros Hn Hc Hs [Hl Hst Hf Ha Hcl Hse Hcn]. cbn in *.
  assert (Hopen : ch_closed (send capacity n c) = false) by (unfold send; case_decide; done).
  assert (Hov : ch_overflow (send capacity n c) = ch_overflow c) by (unfold send; case_decide; done).
  constructor; cbn; [| |done|done| |by rewrite Hopen|].
  - unfold send. case_decide; cbn; [rewrite length_app; cbn; lia|done].
  - intros Hrun m [->%elem_of_singleton|Hm]%elem_of_union; unfold stored, send; cbn.
    + case_decide; cbn; [left; set_solver|auto].
    + specialize (Hst Hrun m Hm). unfold stored in Hst. cbn in Hst. rewrite Hs in Hst.
      destruct Hst as [?|[?|[?|[?|?]]]]; [..|done|]; case_decide; cbn; rewrite ?elem_of_app; tauto.
  - destruct (w_pc w) as [| |[]|[]]; try done; rewrite Hopen; [by destruct Hcl as [? _]; congruence|congruence].
  - intros Hpc. rewrite Hpc in Hcl. congruence.
Qed.

Lemma inv_overflow n c w g : ch_sender c = Some n → queue_inv (mkQueue c w g) → queue_inv (mkQueue (store_overflow c) w g).
Proof.
  intros Hs [Hl Hst Hf Ha Hcl Hse Hcn]. constructor; cbn in *; try done. intros _ m _. unfold stored. cbn. auto.
Qed.

Lemma inv_close c w g : ch_closed c = false → ch_sender c = None → queue_inv (mkQueue c w g) → queue_inv (mkQueue (close_events c) w g).
Proof.
  intros Hc Hs [Hl Hst Hf Ha Hcl Hse Hcn]. constructor; cbn in *; try done.
  destruct (w_pc w) as [| |[]|[]]; try done. by destruct Hcl as [? ?].
Qed.

Lemma inv_cancel c w g : queue_inv (mkQueue c w g) → queue_inv (mkQueue (cancel c) w g).
Proof. by intros [Hl Hst Hf Ha Hcl Hse Hcn]. Qed.

Lemma inv_receive n events c w g :
  w_pc w = Selecting → ch_events c = n :: events → queue_inv (mkQueue c w g) →
  queue_inv (mkQueue (mkChannel (ch_closed c) (ch_cancelled c) events (ch_overflow c) (ch_sender c)) (receive n w) g).
Proof.
  intros Hpc He [Hl Hst Hf Ha Hcl Hse Hcn]. cbn in *. rewrite Hpc in *. rewrite He in Hl.
  assert (Hpc' : w_pc (receive n w) = Received) by (unfold receive; case_decide; done).
  constructor; cbn; rewrite ?Hpc'; try done; [cbn in Hl; lia|].
  intros _ m Hm. specialize (Hst I m Hm). unfold stored in *. cbn in *. rewrite Hpc'. rewrite Hpc, He in Hst. cbn in *.
  unfold held, receive in *. case_decide as Hall; cbn; [do 4 right; by auto|].
  rewrite !elem_of_cons in Hst. destruct Hst as [[->|?]|[[?|?]|[?|[?|[_ [?|?]]]]]]; try congruence; try (by auto);
    (do 4 right; split; [done|set_solver]).
Qed.

Lemma inv_settle now later c w g :
  w_pc w = Received → queue_inv (mkQueue c w g) →
  queue_inv (mkQueue (swap_overflow c) (settle debounce (ch_overflow c) now later w) g).
Proof.
  intros Hpc [Hl Hst Hf Ha Hcl Hse Hcn]. cbn in *. rewrite Hpc in *. constructor; cbn; try done.
  intros _ m Hm. specialize (Hst I m Hm). unfold stored, held in *. cbn in *. rewrite Hpc in Hst. cbn in *.
  rewrite orb_true_iff. destruct Hst as [?|[?|[?|[?|[_ [?|?]]]]]]; auto 10.
Qed.

Lemma covered_subset k owed : covered k owed ⊆ owed.
Proof. destruct k; cbn; set_solver. Qed.

(** What a flush does not cover is not in the batch. *)
Lemma flush_call_covers cancelled pending full owed n :
  n ∈ owed → n ∉ covered (flush_call cancelled pending full) owed → flush_call cancelled pending full = Refuse ∨ (full = false ∧ n ∉ pending).
Proof.
  intros Hn. unfold flush_call. destruct cancelled; [by left|]. destruct full; [done|]. intros Hc. right. split; [done|].
  case_decide as Hp; [set_solver|]. cbn in Hc. rewrite elem_of_intersection, elem_of_list_to_set, merge_sort_Permutation in Hc. set_solver.
Qed.

Lemma flush_call_flight cancelled pending full owed n :
  n ∈ covered (flush_call cancelled pending full) owed → full = true ∨ n ∈ pending.
Proof.
  unfold flush_call. destruct cancelled; [done|]. destruct full; [by left|]. case_decide; [done|]. cbn.
  rewrite elem_of_intersection, elem_of_list_to_set, merge_sort_Permutation, elem_of_elements. intros [_ ?]. by right.
Qed.

Lemma inv_begin cause c w g :
  w_pc w = Selecting → (cause = AtClose → ch_closed c = true ∧ ch_events c = []) → queue_inv (mkQueue c w g) →
  let full := match cause with AtSweep => true | _ => w_full w end in
  queue_inv (mkQueue c (begin_flush cause (ch_cancelled c) w) (begin_call (flush_call (ch_cancelled c) (w_pending w) full) g)).
Proof.
  intros Hpc Hclose [Hl Hst Hf Ha Hcl Hse Hcn] full. cbn in *. rewrite Hpc in *.
  assert (Hfull : full = false → w_full w = false) by (unfold full; by destruct cause).
  constructor; cbn; fold full; try done.
  - intros _ m [Hm Hcov]%elem_of_difference. specialize (Hst I m Hm). unfold stored, held in *. cbn in *. fold full. rewrite Hpc in Hst.
    destruct (flush_call_covers _ _ _ _ _ Hm Hcov) as [Hr|[Hff Hp]]; [rewrite Hr; cbn; naive_solver|]. specialize (Hfull Hff). cbn in *.
    destruct Hst as [?|[?|[?|[?|[_ [?|?]]]]]]; auto; congruence.
  - intros m Hm. apply flush_call_flight in Hm. unfold held. cbn. destruct cause; [right|left|right]; done.
  - destruct cause; try done. by apply Hclose.
Qed.

Lemma inv_end cause k ok now c w g :
  w_pc w = Flushing cause k → queue_inv (mkQueue c w g) →
  queue_inv (mkQueue c (end_flush debounce cause (flush_result k ok) now w) (end_call (flush_result k ok) g)).
Proof.
  intros Hpc [Hl Hst Hf Ha Hcl Hse Hcn]. cbn in *. rewrite Hpc in *. cbn in *. specialize (Hst I).
  assert (Hkept : flush_result k ok = true → ¬ batch_kept (w_pc w)) by (rewrite Hpc; destruct k; cbn; [discriminate|tauto..]).
  destruct (flush_result k ok) eqn:Hres.
  - specialize (Hkept eq_refl). destruct cause; constructor; cbn; try done; try (by intros _ [?|?]).
    + intros _ m Hm. specialize (Hst m Hm). unfold stored in *. cbn in *. tauto.
    + intros _ m Hm. specialize (Hst m Hm). unfold stored in *. cbn in *. tauto.
    + by destruct Hcl.
    + intros _ Hov. apply elem_of_equiv_empty_L. intros m Hm. specialize (Hst m Hm). unfold stored in Hst. cbn in Hst.
      destruct Hcl as [Hcl He]. rewrite He, Hov, (Hse Hcl) in Hst. set_solver.
  - destruct cause; constructor; cbn; try done.
    + intros _ m [Hm|Hm]%elem_of_union; unfold stored; cbn.
      * specialize (Hst m Hm). unfold stored in Hst. cbn in Hst. unfold held in *. cbn. tauto.
      * do 4 right. split; [done|]. unfold held. cbn. by destruct (Hf m Hm).
    + intros _ m _. unfold stored, held. cbn. auto 10.
Qed.

Lemma queue_step_inv q q' : queue_step q q' → queue_inv q → queue_inv q'.
Proof.
  destruct 1.
  - by apply inv_send.
  - by apply (inv_overflow n).
  - by apply inv_close.
  - by apply inv_cancel.
  - by apply inv_receive.
  - by apply inv_settle.
  - by apply (inv_begin AtDeadline).
  - by apply (inv_begin AtSweep).
  - by apply (inv_begin AtClose).
  - by apply inv_end.
  - intros [Hl Hst Hf Ha Hcl Hse Hcn]. cbn in *. rewrite H in *. by constructor.
Qed.

Lemma reachable_inv q : rtc queue_step NewQueue q → queue_inv q.
Proof. apply (rtc_ind_r queue_inv); [apply inv_new|]. intros; by eapply queue_step_inv. Qed.

(** C21: the recompute queue keeps what it accepted. At every moment a request no
    successful recompute has covered since is in the buffer, in the worker's batch,
    or marked by the overflow flag (set, or about to be by the sender the buffer had
    no room for). A worker with nothing to do and no timer running owes nothing
    beyond that flag; and when [Close] lets it flush, nothing beyond the flag is
    left. *)
Theorem accepted_requests_are_kept q :
  rtc queue_step NewQueue q →
  let c := q_channel q in
  let w := q_worker q in
  (running (w_pc w) → ∀ n, n ∈ g_owed (q_ledger q) → stored q n) ∧
  (length (ch_events c) ≤ capacity)%nat ∧
  (w_pc w = Selecting → w_deadline w = None → ch_events c = [] → ch_overflow c = false → ch_sender c = None →
     g_owed (q_ledger q) = ∅ ∧ g_inflight (q_ledger q) = ∅) ∧
  (w_pc w = Stopped true → ch_overflow c = false → g_owed (q_ledger q) = ∅ ∧ g_inflight (q_ledger q) = ∅).
Proof.
  intros Hr. destruct (reachable_inv q Hr) as [Hl Hst Hf Ha _ _ Hcn]. destruct q as [c w g]. cbn in *. split_and!; [done|done| |].
  - intros Hpc Hd He Ho Hs. rewrite Hpc in *. split; [|done]. apply elem_of_equiv_empty_L. intros n Hn.
    specialize (Hst I n Hn). unfold stored in Hst. cbn in Hst. rewrite He, Ho, Hs in Hst. rewrite Hd in Ha.
    destruct Hst as [?|[?|[?|[?|[_ Hh]]]]]; [set_solver|set_solver|done|done|].
    destruct Ha as [? ?]; [done| |done]. unfold held in Hh. destruct Hh; [by left|right; set_solver].
  - intros Hpc Ho. split; [by apply Hcn|]. by rewrite Hpc in Hf.
Qed.
End step.

(** ** The overflow flag can miss its event *)
Section race.
Context (capacity : nat) (debounce : Z).

Definition drained_worker (d : Z) : worker := mkWorker Selecting {[5]} false 1 (Some d).

(** The buffered events are taken one after the other. *)
Lemma drain_events k closed sender d g :
  ∃ d', rtc (queue_step capacity debounce)
          (mkQueue (mkChannel closed false (replicate k 5) false sender) (drained_worker d) g)
          (mkQueue (mkChannel closed false [] false sender) (drained_worker d') g).
Proof.
  revert d. induction k as [|k IH]; intros d; [by exists d|].
  destruct (IH (2 + quiet debounce (GoTime.sub 2 1))) as (d' & Hrest). exists d'.
  eapply rtc_l; [by eapply step_receive|]. cbn. eapply rtc_l; [by apply (step_settle capacity debounce 2 2)|].
  replace (settle debounce _ 2 2 _) with (drained_worker (2 + quiet debounce (GoTime.sub 2 1))); [exact Hrest|].
  unfold settle, receive, drained_worker. cbn. by f_equal.
Qed.

Lemma fill_events k q events :
  q_channel q = mkChannel false false events false None → (length events + k ≤ capacity)%nat → 5 ∈ g_owed (q_ledger q) →
  rtc (queue_step capacity debounce) q (mkQueue (mkChannel false false (events ++ replicate k 5) false None) (q_worker q) (q_ledger q)).
Proof.
  destruct q as [c w g]. cbn. intros ->. revert events. induction k as [|k IH]; intros events Hlen Hin; cbn [replicate].
  { by rewrite app_nil_r. }
  eapply rtc_l; [by apply (step_send _ _ 5)|]. unfold send, owe. cbn. rewrite decide_True by lia.
  replace (mkLedger ({[5]} ∪ g_owed g) (g_inflight g)) with g by (destruct g; cbn in *; f_equal; set_solver).
  replace (events ++ 5 :: replicate k 5) with ((events ++ [5]) ++ replicate k 5) by by rewrite <-(assoc_L (++)).
  apply IH; [|done]. rewrite length_app. cbn. lia.
Qed.

(** The overflow flag can be set when nobody is left to see it. A sender that
    finds the buffer full is overtaken before it stores the flag by a worker that
    empties the buffer and recomputes: the worker is then idle, its timer off, and
    the node waits for the next event or sweep; a [Close] in between ends well
    without recomputing it. *)
Theorem overflow_flag_can_be_left_behind :
  (0 < capacity)%nat →
  ∃ q, rtc (queue_step capacity debounce) NewQueue q ∧
    q_worker q = idle_worker ∧ q_channel q = mkChannel false false [] true None ∧ g_owed (q_ledger q) = {[7]} ∧
    ∃ q', rtc (queue_step capacity debounce) q q' ∧ w_pc (q_worker q') = Stopped true ∧ g_owed (q_ledger q') = {[7]}.
Proof.
  intros Hc. assert (Hrep : replicate capacity 5 = 5 :: replicate (capacity - 1) 5).
  { destruct capacity; [lia|]. cbn. by rewrite Nat.sub_0_r. }
  set (g := mkLedger {[7; 5]} ∅). set (idle := mkQueue (mkChannel false false [] true None) idle_worker (mkLedger {[7]} ∅)).
  assert (Hfull : rtc (queue_step capacity debounce) NewQueue
    (mkQueue (mkChannel false false (replicate capacity 5) false (Some 7)) idle_worker g)).
  { eapply rtc_l; [by apply (step_send _ _ 5)|]. unfold send, empty_channel. cbn. rewrite decide_True by lia.
    etrans; [apply (fill_events (capacity - 1) _ [5]); [done|cbn; lia|set_solver]|]. cbn.
    apply rtc_once. rewrite <-Hrep.
    eapply (eq_rect _ (queue_step _ _ _)); [by apply (step_send _ _ 7)|]. unfold send, owe, g. cbn.
    rewrite decide_False by (rewrite length_replicate; lia). done. }
  exists idle. split; [|split_and!; [done..|]].
  - etrans; [exact Hfull|]. rewrite Hrep.
    eapply rtc_l; [by eapply step_receive|]. eapply rtc_l; [by apply (step_settle _ _ 1 1)|].
    set (d := 1 + quiet debounce (GoTime.sub 1 1)).
    replace (settle debounce _ 1 1 _) with (drained_worker d) by (unfold settle, receive, drained_worker; cbn; by f_equal).
    unfold swap_overflow. cbn. destruct (drain_events (capacity - 1) false (Some 7) d g) as (d' & Hd). etrans; [exact Hd|].
    eapply rtc_l; [by apply (step_deadline _ _ d' d')|]. eapply rtc_l; [by apply (step_answer _ _ AtDeadline (CallSome [5]) true 0)|].
    eapply rtc_l; [by apply (step_overflow _ _ 7)|]. cbn.
    apply rtc_refl.
  - eexists. split; [|split].
    + eapply rtc_l; [by apply step_close|]. eapply rtc_l; [by apply step_drained|].
      apply rtc_once. by apply (step_answer _ _ AtClose Nothing true 0).
    + done.
    + cbn. set_solver.
Qed.
End race.

(** ** The age of a batch *)
Section age.
Context (debounce : Z) (small : GoTime.millisecond ≤ debounce ≤ 2 ^ 58).

Lemma maxWait_small : maxWait debounce = Z.min (16 * debounce) maxWaitAbsolute.
Proof. unfold maxWait. cbn zeta. rewrite wrap64_id by (unfold GoTime.millisecond in *; lia). destruct (Z.ltb_spec maxWaitAbsolute (debounce * 16)); lia. Qed.

Lemma quiet_bounds age :
  0 ≤ age ≤ 2 ^ 62 →
  GoTime.millisecond ≤ quiet debounce age ≤ debounce ∧
  (age + quiet debounce age ≤ maxWait debounce ∨ quiet debounce age = GoTime.millisecond).
Proof.
  intros Hage. unfold quiet. cbn zeta. rewrite wrap64_id by (unfold GoTime.millisecond in *; lia).
  destruct (Z.ltb_spec (maxWait debounce) (age + debounce)); [|lia].
  destruct (Z.ltb_spec (maxWait debounce - age) GoTime.millisecond); lia.
Qed.

(** The timer of a batch runs at most for the debounce, and out at the age
    [maxWait] at the latest — or one millisecond after the last event, if that is
    later: never before, and never unarmed. *)
Theorem batch_deadline_is_bounded overflow now later w :
  let first := if GoTime.isZero (w_firstEvent w) then now else w_firstEvent w in
  first ≤ later → later - first ≤ 2 ^ 62 →
  ∃ d, w_deadline (settle debounce overflow now later w) = Some d ∧ w_firstEvent (settle debounce overflow now later w) = first ∧
    later + GoTime.millisecond ≤ d ≤ later + debounce ∧
    d ≤ Z.max (first + Z.min (16 * debounce) maxWaitAbsolute) (later + GoTime.millisecond).
Proof.
  intros first Hle Hage. eexists. split; [done|]. split; [done|]. fold first. rewrite <-maxWait_small.
  assert (Hsub : GoTime.sub later first = later - first) by (unfold GoTime.sub, GoTime.minDuration, GoTime.maxDuration; lia).
  rewrite Hsub. destruct (quiet_bounds (later - first)) as [? [?|?]]; lia.
Qed.

(** A stream of events, one every [step]. *)
Fixpoint stream (t0 step : Z) (k : nat) : worker :=
  match k with
  | O => idle_worker
  | S k => let t := t0 + Z.of_nat k * step in settle debounce false t t (receive (Z.of_nat k + 1) (stream t0 step k))
  end.

(** The age limit does not hold against a steady stream. While events keep coming
    less than a millisecond apart, each finds the timer of the batch still running
    and moves it on: however old the batch is, it is never flushed. *)
Theorem steady_stream_postpones_the_flush t0 step :
  0 < t0 → 0 < step < GoTime.millisecond →
  ∀ k, Z.of_nat k * step ≤ 2 ^ 62 →
  ∃ d, w_deadline (stream t0 step (S k)) = Some d ∧ t0 + Z.of_nat (S k) * step < d ∧ w_firstEvent (stream t0 step (S k)) = t0.
Proof.
  intros Ht Hstep k. induction k as [|k IH]; intros Hk.
  - cbn [stream]. replace (t0 + Z.of_nat 0 * step) with t0 by lia. eexists. split; [done|]. destruct (quiet_bounds (GoTime.sub t0 t0)) as [? _]; [unfold GoTime.sub, GoTime.minDuration, GoTime.maxDuration; lia|].
    split; [|done]. cbn [receive idle_worker w_firstEvent]. change (GoTime.isZero (w_firstEvent (receive (Z.of_nat 0 + 1) idle_worker))) with true. cbn iota. lia.
  - destruct IH as (d & _ & _ & Hfirst); [lia|]. set (w := stream t0 step (S k)) in *.
    change (stream t0 step (S (S k))) with
      (settle debounce false (t0 + Z.of_nat (S k) * step) (t0 + Z.of_nat (S k) * step) (receive (Z.of_nat (S k) + 1) w)).
    assert (Hf : w_firstEvent (receive (Z.of_nat (S k) + 1) w) = t0) by (unfold receive; by case_decide).
    unfold settle. cbn [w_deadline w_firstEvent]. rewrite Hf. assert (GoTime.isZero t0 = false) as -> by (unfold GoTime.isZero, GoTime.zero; apply bool_decide_eq_false; lia).
    eexists. split; [done|]. split; [|done].
    destruct (quiet_bounds (GoTime.sub (t0 + Z.of_nat (S k) * step) t0)) as [? _]; [unfold GoTime.sub, GoTime.minDuration, GoTime.maxDuration; lia|]. lia.
Qed.
End age.

(** ** Concrete runs *)
Lemma kept_witness :
  ∃ q, rtc (queue_step 1 DefaultDebounce) NewQueue q ∧ g_owed (q_ledger q) = {[7; 5]} ∧ stored q 7 ∧ stored q 5.
Proof.
  set (q1 := mkQueue (send 1 5 empty_channel) idle_worker (owe 5 (mkLedger ∅ ∅))).
  set (q2 := mkQueue (send 1 7 (send 1 5 empty_channel)) idle_worker (owe 7 (owe 5 (mkLedger ∅ ∅)))).
  assert (Hr : rtc (queue_step 1 DefaultDebounce) NewQueue q2).
  { eapply (rtc_l _ _ q1); [by apply step_send|]. by apply rtc_once, step_send. }
  exists q2. destruct (accepted_requests_are_kept 1 DefaultDebounce q2 Hr) as (Hst & _). split; [exact Hr|]. split; [cbn; set_solver|].
  split; apply (Hst I); cbn; set_solver.
Defined.

Lemma race_witness : ∃ q, rtc (queue_step 1024 DefaultDebounce) NewQueue q ∧ q_worker q = idle_worker ∧ g_owed (q_ledger q) = {[7]}.
Proof.
  destruct (overflow_flag_can_be_left_behind 1024 DefaultDebounce ltac:(lia)) as (q & Hr & Hw & _ & Ho & _). by exists q.
Defined.

Lemma deadline_witness :
  ∃ d, w_deadline (settle DefaultDebounce false 10 (10 + 31 * GoTime.second) (receive 5 idle_worker)) = Some d ∧ d = 10 + 31 * GoTime.second + GoTime.millisecond.
Proof.
  destruct (batch_deadline_is_bounded DefaultDebounce ltac:(by split) false 10 (10 + 31 * GoTime.second) (receive 5 idle_worker))
    as (d & Hd & _ & ? & ?); [by vm_compute|by vm_compute|].
  exists d. split; [done|]. change (GoTime.isZero (w_firstEvent (receive 5 idle_worker))) with true in *.
  unfold maxWaitAbsolute, DefaultDebounce, GoTime.second, GoTime.millisecond in *. lia.
Defined.

Lemma stream_witness :
  ∃ k d, w_deadline (stream DefaultDebounce 1 500000 (S k)) = Some d ∧ 1 + 60 * GoTime.second < d.
Proof.
  assert (Hk : Z.of_nat (Z.to_nat 120000) = 120000) by (apply Z2Nat.id; lia). exists (Z.to_nat 120000). revert Hk. generalize (Z.to_nat 120000). intros k Hk.
  destruct (steady_stream_postpones_the_flush DefaultDebounce ltac:(by split) 1 500000 ltac:(lia) ltac:(by split) k ltac:(lia)) as (d & Hd & Hlt & _).
  exists d. split; [exact Hd|]. unfold GoTime.second, GoTime.millisecond. lia.
Defined.

End RecomputeQueue.

Module MembershipQueue.

(** Where the worker is: in the select; testing the context; taking the batch; in
    the call; before the failed batch is put back; testing the context again; in
    the retry timer; gone. *)
Inductive member_pc :=
| Waiting | Testing | Taking | Applying (ids : list Z) | Failed (ids : list Z) | Deciding | Sleeping | Done.

Record membership := mkMembership {
  mq_cancelled : bool; mq_pending : gset Z; mq_wake : bool; mq_pc : member_pc;
  (** accepted and not covered by a later successful call: outside one, inside one *)
  mq_owed : gset Z; mq_inflight : gset Z
}.

Definition newMembershipQueue : membership := mkMembership false ∅ false Waiting ∅ ∅.

(** [Enqueue]: the positive ids join the set, and the worker is woken. *)
Definition accepted (ids : list Z) : gset Z := list_to_set (filter (λ id, 0 < id) ids).
Definition Enqueue (ids : list Z) (m : membership) : membership :=
  if mq_cancelled m then m
  else mkMembership false (accepted ids ∪ mq_pending m) true (mq_pc m) (accepted ids ∪ mq_owed m) (mq_inflight m).

Definition goto (pc : member_pc) (m : membership) : membership :=
  mkMembership (mq_cancelled m) (mq_pending m) (mq_wake m) pc (mq_owed m) (mq_inflight m).

(** The batch is taken whole, in increasing order. *)
Definition take_batch (m : membership) : membership :=
  let ids := merge_sort Z.le (elements (mq_pending m)) in
  match ids with
  | [] => mkMembership (mq_cancelled m) ∅ (mq_wake m) Waiting (mq_owed m) (mq_inflight m)
  | _ => mkMembership (mq_cancelled m) ∅ (mq_wake m) (Applying ids) (mq_owed m ∖ list_to_set ids) (list_to_set ids)
  end.

Definition applied (m : membership) : membership :=
  mkMembership (mq_cancelled m) (mq_pending m) (mq_wake m) Testing (mq_owed m) ∅.

(** The failed batch goes back through [Enqueue]: what it held is owed again,
    whether or not a cancelled queue takes it. *)
Definition put_back (ids : list Z) (m : membership) : membership :=
  let m' := Enqueue ids m in
  mkMembership (mq_cancelled m') (mq_pending m') (mq_wake m') Deciding (mq_owed m' ∪ mq_inflight m') ∅.

Inductive member_step : membership → membership → Prop :=
| step_enqueue ids m : member_step m (Enqueue ids m)
| step_cancel m : member_step m (mkMembership true (mq_pending m) (mq_wake m) (mq_pc m) (mq_owed m) (mq_inflight m))
| step_wake m :
    mq_pc m = Waiting → mq_wake m = true →
    member_step m (mkMembership (mq_cancelled m) (mq_pending m) false Testing (mq_owed m) (mq_inflight m))
| step_end m : mq_pc m = Waiting ∨ mq_pc m = Deciding ∨ mq_pc m = Sleeping → mq_cancelled m = true → member_step m (goto Done m)
| step_test m : mq_pc m = Testing → member_step m (goto (if mq_cancelled m then Waiting else Taking) m)
| step_take m : mq_pc m = Taking → member_step m (take_batch m)
| step_applied ids m : mq_pc m = Applying ids → member_step m (applied m)
| step_failed ids m : mq_pc m = Applying ids → member_step m (goto (Failed ids) m)
| step_put_back ids m : mq_pc m = Failed ids → member_step m (put_back ids m)
| step_decide m : mq_pc m = Deciding → mq_cancelled m = false → member_step m (goto Sleeping m)
| step_retry m : mq_pc m = Sleeping → member_step m (goto Testing m).

Record member_inv (m : membership) : Prop := {
  mi_owed : mq_cancelled m = false → mq_owed m ⊆ mq_pending m;
  mi_positive : ∀ n, n ∈ mq_pending m → 0 < n;
  mi_flight : match mq_pc m with
              | Applying ids | Failed ids => mq_inflight m = list_to_set ids ∧ Forall (λ n, 0 < n) ids
              | _ => mq_inflight m = ∅
              end;
  mi_wake : mq_cancelled m = false → mq_pc m = Waiting → mq_pending m ≠ ∅ → mq_wake m = true;
  mi_done : mq_pc m = Done → mq_cancelled m = true
}.

Lemma elem_of_accepted ids n : n ∈ accepted ids ↔ 0 < n ∧ n ∈ ids.
Proof. unfold accepted. by rewrite elem_of_list_to_set, list_elem_of_filter. Qed.

Lemma Enqueue_inv ids m : member_inv m → member_inv (Enqueue ids m).
Proof.
  intros [Ho Hp Hf Hw Hd]. unfold Enqueue. destruct (mq_cancelled m) eqn:Hc; [by constructor; rewrite ?Hc|].
  constructor; cbn; [|intros n [[? _]%elem_of_accepted|?]%elem_of_union; auto|done|done|done].
  specialize (Ho eq_refl). set_solver.
Qed.

Lemma take_batch_inv m : mq_pc m = Taking → member_inv m → member_inv (take_batch m).
Proof.
  intros Hpc [Ho Hp Hf Hw Hd]. rewrite Hpc in Hf.
  assert (Hids : ∀ n, n ∈ merge_sort Z.le (elements (mq_pending m)) ↔ n ∈ mq_pending m) by (intros n; by rewrite merge_sort_Permutation, elem_of_elements).
  unfold take_batch. cbn zeta. destruct (merge_sort _ _) as [|x ids].
  - constructor; cbn; try done. intros Hc n Hn%(Ho Hc). apply Hids in Hn. by apply elem_of_nil in Hn.
  - constructor; cbn [mq_cancelled mq_owed mq_pending mq_pc mq_inflight mq_wake]; try done.
    + intros Hc n [Hn Hnot]%elem_of_difference. apply (Ho Hc) in Hn. rewrite elem_of_list_to_set, Hids in Hnot. done.
    + split; [done|]. apply Forall_forall. intros n Hn. apply Hp. by apply Hids.
Qed.

Lemma put_back_inv ids m : mq_pc m = Failed ids → member_inv m → member_inv (put_back ids m).
Proof.
  intros Hpc Hm. pose proof (Enqueue_inv ids m Hm) as [Ho Hp _ _ _]. destruct Hm as [_ _ Hf _ _]. rewrite Hpc in Hf. destruct Hf as [Hf Hpos].
  constructor; cbn; try done. intros Hc. specialize (Ho Hc). unfold Enqueue in *. destruct (mq_cancelled m) eqn:Hcm; [cbn in *; congruence|].
  cbn in *. rewrite Hf. intros n [Hn|Hn]%elem_of_union; [by apply Ho|]. apply elem_of_union_l, elem_of_accepted.
  rewrite Forall_forall in Hpos. apply elem_of_list_to_set in Hn. auto.
Qed.

Lemma member_step_inv m m' : member_step m m' → member_inv m → member_inv m'.
Proof.
  destruct 1 as [ids m|m|m Hpc Hwk|m Hpc Hca|m Hpc|m Hpc|ids m Hpc|ids m Hpc|ids m Hpc|m Hpc Hca|m Hpc];
    [apply Enqueue_inv| | | | |by apply take_batch_inv| | |by apply put_back_inv| |]; intros [Ho Hp Hf Hw Hd];
    try (rewrite Hpc in * ); constructor; cbn; try done.
  - by destruct Hpc as [Hpc|[Hpc|Hpc]]; rewrite Hpc in Hf.
  - by destruct (mq_cancelled m).
  - by destruct (mq_cancelled m).
  - by destruct (mq_cancelled m).
Qed.

Lemma reachable_member_inv m : rtc member_step newMembershipQueue m → member_inv m.
Proof. apply (rtc_ind_r member_inv); [by constructor; cbn|]. intros; by eapply member_step_inv. Qed.

(** Until it is cancelled the membership queue loses no node and no wake-up. A node
    not reconciled since it was enqueued is in the dirty set or in the batch being
    applied; a failed batch is dirty again before the worker waits; the worker
    sleeps in its select with the wake-up unset only when nothing is owed, and every
    batch holds positive ids. *)
Theorem dirty_nodes_are_reconciled m :
  rtc member_step newMembershipQueue m → mq_cancelled m = false →
  mq_owed m ⊆ mq_pending m ∧
  (mq_pc m = Waiting → mq_wake m = false → mq_pending m = ∅ ∧ mq_owed m = ∅ ∧ mq_inflight m = ∅) ∧
  (∀ ids, mq_pc m = Applying ids ∨ mq_pc m = Failed ids → mq_inflight m = list_to_set ids ∧ Forall (λ n, 0 < n) ids) ∧
  (∀ ids, mq_pc m = Failed ids → list_to_set ids ⊆ mq_pending (put_back ids m)) ∧
  mq_pc m ≠ Done.
Proof.
  intros Hr Hc. destruct (reachable_member_inv m Hr) as [Ho Hp Hf Hw Hd]. specialize (Ho Hc). split_and!; [done| | | |intros Hpc; by rewrite Hd in Hc].
  - intros Hpc Hwk. rewrite Hpc in Hf. assert (He : mq_pending m = ∅).
    { destruct (decide (mq_pending m = ∅)) as [|Hne]; [done|]. by rewrite (Hw Hc Hpc Hne) in Hwk. }
    split_and!; [done|set_solver|done].
  - intros ids [Hpc|Hpc]; by rewrite Hpc in Hf.
  - intros ids Hpc. rewrite Hpc in Hf. destruct Hf as [_ Hpos]. unfold put_back, Enqueue. rewrite Hc. cbn.
    intros n Hn%elem_of_list_to_set. apply elem_of_union_l, elem_of_accepted. rewrite Forall_forall in Hpos. auto.
Qed.

Lemma reconciled_witness :
  ∃ m, rtc member_step newMembershipQueue m ∧ mq_pc m = Failed [3; 4] ∧ mq_owed m = {[9]} ∧ mq_owed m ⊆ mq_pending m.
Proof.
  set (m1 := Enqueue [4; -1; 3] newMembershipQueue). set (m2 := mkMembership false (mq_pending m1) false Testing (mq_owed m1) ∅).
  set (m3 := take_batch (goto Taking m2)). set (m4 := goto (Failed [3; 4]) (Enqueue [9] m3)).
  assert (Hr : rtc member_step newMembershipQueue m4).
  { eapply rtc_l; [by apply (step_enqueue [4; -1; 3])|]. eapply rtc_l; [by apply (step_wake m1)|].
    eapply rtc_l; [by apply (step_test m2)|]. eapply rtc_l; [by apply (step_take (goto Taking m2))|].
    eapply rtc_l; [by apply (step_enqueue [9] m3)|]. apply rtc_once. apply (step_failed [3; 4]). by vm_compute. }
  exists m4. destruct (dirty_nodes_are_reconciled m4 Hr eq_refl) as (Ho & _). split; [exact Hr|]. split; [done|]. split; [by vm_compute|exact Ho].
Defined.
End MembershipQueue.
