(* ===== verification/TagPipeline.v ===== *)
(** From a change of tags to group membership: the recompute of
    [internal/nodetag/service.go] hands its notifications to the membership queue of
    [internal/app/membership_queue.go], as [internal/app/app.go] wires them; and
    [updateTag] of [internal/httpapi/tag_handlers.go], which renames a tag, rewrites the
    nodes that carry it and tells group membership itself, as the recompute does not
    report a new name. Colours, descriptions and the view of the tag in the answer are
    left out. *)
From S2P Require Import Prelude Text Floats NodeRegion NodeFacts NodeRules FactLoader TagResolve TagStore TagService TagQueue.

#[local] Open Scope Z_scope.

(** ** The input of an update *)
Record tagInput := mkTagInput {
  in_Name : option string; in_MutexGroupID : option Z; in_Priority : option Z;
  in_Rule : option Condition; in_AutoEnabled : option bool
}.

(** The calls of the handler that may fail, besides those of the recompute. *)
Inductive handler_call := CallTagAssignments | CallTagByName | CallMutexGroups | CallUpdateTag | CallApplyMembership.

Definition validateTagName (value : string) : result string :=
  let value := TrimSpace value in
  let length := rune_count 0 value in
  if (length <? 1) || (64 <? length) then Err "tag name length" else Ok value.

Definition with_name (name : string) (t : Tag) : Tag :=
  mkTag (tg_ID t) name (tg_MutexGroupID t) (tg_Priority t) (tg_AutoEnabled t) (tg_RuleJSON t) (tg_RuleVersion t) (tg_BuiltinKey t).
Definition with_mutex (group : Z) (t : Tag) : Tag :=
  mkTag (tg_ID t) (tg_Name t) group (tg_Priority t) (tg_AutoEnabled t) (tg_RuleJSON t) (tg_RuleVersion t) (tg_BuiltinKey t).
Definition with_priority (priority : Z) (t : Tag) : Tag :=
  mkTag (tg_ID t) (tg_Name t) (tg_MutexGroupID t) priority (tg_AutoEnabled t) (tg_RuleJSON t) (tg_RuleVersion t) (tg_BuiltinKey t).
Definition with_auto (auto : bool) (t : Tag) : Tag :=
  mkTag (tg_ID t) (tg_Name t) (tg_MutexGroupID t) (tg_Priority t) auto (tg_RuleJSON t) (tg_RuleVersion t) (tg_BuiltinKey t).
Definition with_rule (rule : string) (version : Z) (t : Tag) : Tag :=
  mkTag (tg_ID t) (tg_Name t) (tg_MutexGroupID t) (tg_Priority t) (tg_AutoEnabled t) rule version (tg_BuiltinKey t).
Definition with_region_version (version : Z) (c : Condition) : Condition :=
  mkCondition version (c_Match c) (c_Children c) (c_FieldName c) (c_Op c) (c_Value c) (c_Values c) (c_MaxAgeSeconds c) (c_Negate c).

(** The nodes of some assignments, each once and in order. *)
Definition nodeIDsFromAssignments (rows : list NodeTag) : list Z := merge_sort Z.le (dedup (nt_NodeID <$> rows)).

Record handled := mkHandled {
  hd_db : tag_db; hd_queue : MembershipQueue.membership;
  (** the node lists [ApplyGroupMembershipChanges] took *)
  hd_applied : list (list Z);
  (** whether a recompute of all nodes was asked for *)
  hd_retag : bool;
  hd_error : option string
}.

Section pipeline.
Context `{RO : !RangeOrder string, RL : !RegionLibrary, LL : !LoaderLibraries, PL : !Platform, RU : !RuleLibraries}.
Context (columns : Z → NodeRow) (src : FactSource) (fault : store_call → option string).

Definition deliver (notified : list (list Z)) (m : MembershipQueue.membership) : MembershipQueue.membership :=
  foldl (λ m ids, MembershipQueue.Enqueue ids m) m notified.

Section handler.
Context (registry : Registry) (limits : Limits) (service : bool) (failing : handler_call → option string).

Definition validateMutexGroupID (group : Z) (db : tag_db) : result unit :=
  if group =? 0 then Ok tt
  else if group <? 0 then Err "mutex_group_id is negative"
  else
    let? groups := checked (failing CallMutexGroups) (Ok (db_mutex db)) in
    if decide (is_Some (groups !! group)) then Ok tt else Err "mutex group not found".

(** The parts of [tagFromInput], in its order: the tag so far and whether what it means
    for a recompute has changed. *)
Definition input_name (existing : Tag) (input : tagInput) (db : tag_db) : result Tag :=
  match in_Name input with
  | None => Ok existing
  | Some name =>
    let? name := validateTagName name in
    let? duplicate := checked (failing CallTagByName) (Ok (GetTagByName name db)) in
    match duplicate with
    | Some other => if decide (tg_ID other = tg_ID existing) then Ok (with_name name existing) else Err "tag name is taken"
    | None => Ok (with_name name existing)
    end
  end.

Definition input_mutex (input : tagInput) (db : tag_db) (st : Tag * bool) : result (Tag * bool) :=
  match in_MutexGroupID input with
  | None => Ok st
  | Some group =>
    let? _ := validateMutexGroupID group db in
    Ok (with_mutex group st.1, st.2 || negb (tg_MutexGroupID st.1 =? group))
  end.

Definition input_priority (input : tagInput) (st : Tag * bool) : result (Tag * bool) :=
  match in_Priority input with
  | None => Ok st
  | Some priority =>
    if (priority <? 0) || (1000 <? priority) then Err "priority out of range"
    else Ok (with_priority priority st.1, st.2 || negb (tg_Priority st.1 =? priority))
  end.

(** A rule without a region version keeps that of the stored rule. *)
Definition input_rule (existing : Tag) (input : tagInput) (st : Tag * bool) : result (Tag * bool) :=
  match in_Rule input with
  | None => Ok st
  | Some rule =>
    let rule := if c_RegionVersion rule =? 0 then
                  match ParseRule (tg_RuleJSON existing) with
                  | Some previous => with_region_version (c_RegionVersion previous) rule
                  | None => rule
                  end
                else rule in
    if negb service then Err "tag service unavailable"
    else
      match Validate registry limits rule with
      | inl _ => Err "rule rejected"
      | inr _ =>
        match MarshalRule rule with
        | None => Err "rule not encoded"
        | Some json =>
          if decide (tg_RuleJSON st.1 = json) then Ok st
          else Ok (with_rule json (wrap64 (tg_RuleVersion st.1 + 1)) st.1, true)
        end
      end
  end.

Definition input_auto (input : tagInput) (st : Tag * bool) : result (Tag * bool) :=
  let st := match in_AutoEnabled input with
            | None => st
            | Some auto => (with_auto auto st.1, st.2 || negb (eqb (tg_AutoEnabled st.1) auto))
            end in
  if tg_AutoEnabled st.1 && bool_decide (TrimSpace (tg_RuleJSON st.1) = "") then Err "automatic tagging needs a rule"
  else Ok (if tg_RuleVersion st.1 <? 1 then with_rule (tg_RuleJSON st.1) 1 st.1 else st.1, st.2).

Definition tagFromInput (existing : Tag) (input : tagInput) (db : tag_db) : result (Tag * bool) :=
  let? named := input_name existing input db in
  let? st := input_mutex input db (named, false) in
  let? st := input_priority input st in
  let? st := input_rule existing input st in
  input_auto input st.

(** [refreshGroupMembership], of a server whose node manager applies membership changes. *)
Definition refreshGroupMembership (nodeIDs : list Z) : result (list (list Z)) :=
  match nodeIDs with
  | [] => Ok []
  | _ => checked (failing CallApplyMembership) (Ok [nodeIDs])
  end.

Definition refused (db : tag_db) (m : MembershipQueue.membership) (err : string) : handled := mkHandled db m [] false (Some err).

(** The request for tag [id], which [GetTag] reads first. *)
Definition updateTag (id : Z) (input : tagInput) (now : Z) (db : tag_db) (m : MembershipQueue.membership) : handled :=
  match db_tags db !! id with
  | None => refused db m "tag not found"
  | Some existing =>
    match checked (failing CallTagAssignments) (Ok (ListNodeTags [] [id] None db)) with
    | Err e => refused db m e
    | Ok rows =>
      let affected := nodeIDsFromAssignments rows in
      match tagFromInput existing input db with
      | Err e => refused db m e
      | Ok (updated, semanticChanged) =>
        let rename := negb (bool_decide (tg_Name updated = tg_Name existing)) && (0 <? length affected)%nat in
        if rename && negb service then refused db m "tag service unavailable"
        else
          match checked (failing CallUpdateTag) (UpdateTag updated db) with
          | Err e => refused db m e
          | Ok db1 =>
            if rename then
              match Recompute columns src fault (Some affected) now db1 with
              | Err e => refused db1 m e
              | Ok r =>
                let m := deliver (rc_notified r) m in
                match refreshGroupMembership affected with
                | Err e => refused (rc_db r) m e
                | Ok applied => mkHandled (rc_db r) m applied semanticChanged None
                end
              end
            else mkHandled db1 m [] semanticChanged None
          end
      end
    end
  end.
End handler.

(** ** What the parts do *)
Lemma deliver_spec r m :
  length (rc_notified r) = (if decide (rc_changed r = []) then 0 else 1)%nat → concat (rc_notified r) = rc_changed r →
  deliver (rc_notified r) m = if decide (rc_changed r = []) then m else MembershipQueue.Enqueue (rc_changed r) m.
Proof.
  intros Hlen Hcat. destruct (rc_notified r) as [|ids [|]]; cbn in *; [by case_decide|rewrite app_nil_r in Hcat; subst ids; by case_decide|].
  by case_decide.
Qed.

(** The nodes a recompute reports become dirty, and no others. *)
Lemma reported_nodes_queued nodeIDs now db r m :
  tag_wf db → MembershipQueue.mq_cancelled m = false → Recompute columns src fault nodeIDs now db = Ok r →
  let m' := deliver (rc_notified r) m in
  (∀ node, node ∈ MembershipQueue.mq_pending m' ↔ node ∈ MembershipQueue.mq_pending m ∨ node ∈ rc_changed r) ∧
  (∀ node, node ∈ rc_changed r → node ∈ MembershipQueue.mq_owed m' ∧ MembershipQueue.mq_wake m' = true) ∧
  (rc_changed r = [] → m' = m).
Proof.
  intros Hwf Hc Hr m'. destruct (Recompute_reports columns src fault nodeIDs now db r Hwf Hr) as (_ & _ & Hch & _ & _ & Hcat & Hlen & _).
  assert (Hpos : ∀ node, node ∈ rc_changed r → 0 < node).
  { intros node [Hs _]%Hch. by apply (wf_nodes _ Hwf). }
  unfold m'. rewrite deliver_spec by done. case_decide as He; [rewrite He; split_and!; [set_solver|set_solver|done]|].
  unfold MembershipQueue.Enqueue. rewrite Hc. cbn. split_and!; [| |done].
  - intros node. rewrite elem_of_union, MembershipQueue.elem_of_accepted. naive_solver.
  - intros node Hin. split; [|done]. apply elem_of_union_l, MembershipQueue.elem_of_accepted. auto.
Qed.

Lemma checked_Ok {A} f (v : A) w : checked f (Ok v) = Ok w → v = w.
Proof. destruct f; [done|]. by intros [= ->]. Qed.

Lemma validateTagName_named value name : validateTagName value = Ok name → name ≠ "".
Proof. unfold validateTagName. destruct (_ || _) eqn:E; [done|]. intros [= <-] Hnil. by rewrite Hnil in E. Qed.

(** An accepted input leaves the tag its id and a name. *)
Lemma tagFromInput_Ok registry limits service failing existing input db updated changed :
  tg_Name existing ≠ "" → tagFromInput registry limits service failing existing input db = Ok (updated, changed) →
  tg_ID updated = tg_ID existing ∧ tg_Name updated ≠ "".
Proof.
  intros Hne. unfold tagFromInput.
  intros (t & H1 & ([t2 c2] & H2 & ([t3 c3] & H3 & ([t4 c4] & H4 & H5)%result_bind_Ok)%result_bind_Ok)%result_bind_Ok)%result_bind_Ok.
  assert (tg_ID t = tg_ID existing ∧ tg_Name t ≠ "") as [<- Hn].
  { unfold input_name in H1. destruct (in_Name input); [|by injection H1 as <-].
    apply result_bind_Ok in H1 as (name & Hname%validateTagName_named & (dup & _ & H1)%result_bind_Ok).
    destruct dup; [case_decide; [|done]|]; by injection H1 as <-. }
  assert (tg_ID t2 = tg_ID t ∧ tg_Name t2 = tg_Name t) as [<- E2].
  { unfold input_mutex in H2. destruct (in_MutexGroupID input); [|by injection H2 as <- _].
    apply result_bind_Ok in H2 as (_ & _ & [= <- _]). done. }
  assert (tg_ID t3 = tg_ID t2 ∧ tg_Name t3 = tg_Name t2) as [<- E3].
  { unfold input_priority in H3. destruct (in_Priority input); [|by injection H3 as <- _].
    destruct (_ || _); [done|]. by injection H3 as <- _. }
  assert (tg_ID t4 = tg_ID t3 ∧ tg_Name t4 = tg_Name t3) as [<- E4].
  { unfold input_rule in H4. destruct (in_Rule input); [|by injection H4 as <- _]. cbn zeta in H4.
    destruct (negb service); [done|]. destruct (Validate _ _ _); [done|]. destruct (MarshalRule _); [|done].
    case_decide; by injection H4 as <- _. }
  unfold input_auto in H5. destruct (in_AutoEnabled input) as [b|]; cbn in H5;
    (destruct (_ && _); [done|]); destruct (_ <? 1); injection H5 as <- _; cbn; split; congruence.
Qed.

Lemma elem_of_affected tag db node :
  node ∈ nodeIDsFromAssignments (ListNodeTags [] [tag] None db) ↔ ∃ source v, db_rows db !! (node, tag, source) = Some v.
Proof.
  unfold nodeIDsFromAssignments, ListNodeTags. rewrite merge_sort_Permutation, elem_of_dedup, list_elem_of_fmap.
  setoid_rewrite merge_sort_Permutation. split.
  - intros (row & -> & Hrow). apply list_elem_of_fmap in Hrow as ([[[n t] source] v] & -> & [Hc Hk%elem_of_map_to_list]%list_elem_of_filter).
    cbn in *. rewrite andb_true_r in Hc. apply bool_decide_eq_true, list_elem_of_singleton in Hc. subst t. eauto.
  - intros (source & v & Hrow). exists (mkNodeTag node tag source v). split; [done|]. apply list_elem_of_fmap.
    exists (node, tag, source, v). split; [done|]. apply list_elem_of_filter. split; [|by apply elem_of_map_to_list].
    cbn. by rewrite bool_decide_true by by left.
Qed.

Lemma left_behind_affected t db existing node :
  db_tags db !! tg_ID t = Some existing →
  node ∈ left_behind t db → tg_Name t ≠ tg_Name existing ∧ node ∈ nodeIDsFromAssignments (ListNodeTags [] [tg_ID t] None db).
Proof.
  intros Ht. unfold left_behind. rewrite Ht. cbn. case_decide as Hname; [set_solver|].
  rewrite elem_of_list_to_set, elem_of_nodeIDsForTag, elem_of_affected. split; [congruence|done].
Qed.

Lemma projected_column db node names : projected db → db_nodes db !! node = Some names → db_nodes db !! node = Some (projection_of db node).
Proof. intros Hp Hn. by rewrite Hn, (Hp _ _ Hn). Qed.

(** What [updateTag] leaves behind, when the columns were right before. *)
Lemma updateTag_columns registry limits service failing id input now db m :
  tag_wf db → projected db →
  let h := updateTag registry limits service failing id input now db m in
  (hd_error h = None → projected (hd_db h)) ∧
  (∀ node names, db_nodes (hd_db h) !! node = Some names → names ≠ projection_of (hd_db h) node →
     hd_error h ≠ None ∧ ∃ source v, db_rows db !! (node, id, source) = Some v) ∧
  (∀ node, db_nodes (hd_db h) !! node ≠ db_nodes db !! node →
     node ∈ concat (hd_applied h) ∨ (hd_error h ≠ None ∧ hd_error h = failing CallApplyMembership)).
Proof.
  intros Hwf Hp. unfold updateTag.
  assert (∀ e, let h := refused db m e in
    (hd_error h = None → projected (hd_db h)) ∧
    (∀ node names, db_nodes (hd_db h) !! node = Some names → names ≠ projection_of (hd_db h) node →
       hd_error h ≠ None ∧ ∃ source v, db_rows db !! (node, id, source) = Some v) ∧
    (∀ node, db_nodes (hd_db h) !! node ≠ db_nodes db !! node →
       node ∈ concat (hd_applied h) ∨ (hd_error h ≠ None ∧ hd_error h = failing CallApplyMembership))) as Hrefused.
  { intros e. cbn. split_and!; [done| |done]. intros node names Hn Hne. by apply Hp in Hn. }
  destruct (db_tags db !! id) as [existing|] eqn:Hid; [|apply Hrefused].
  destruct (wf_tags _ Hwf _ _ Hid) as (Hexisting & _ & Hnamed).
  destruct (checked (failing CallTagAssignments) _) as [rows|e] eqn:Hrows; [|apply Hrefused]. apply checked_Ok in Hrows as <-.
  destruct (tagFromInput _ _ _ _ _ _ _) as [[updated changed]|e] eqn:Hin; [|apply Hrefused].
  destruct (tagFromInput_Ok _ _ _ _ _ _ _ _ _ Hnamed Hin) as [Hkeep Hname]. rewrite Hexisting in Hkeep.
  set (affected := nodeIDsFromAssignments _). set (rename := negb _ && _).
  destruct (rename && negb service); [apply Hrefused|].
  destruct (checked (failing CallUpdateTag) _) as [db1|e] eqn:Hup; [|apply Hrefused].
  assert (UpdateTag updated db = Ok db1) as Hupdate by by destruct (failing CallUpdateTag). clear Hup Hrefused.
  assert (good ∅ db) as Hgood by (split; [done|by apply projected_but_none]).
  destruct (UpdateTag_good _ _ _ _ Hgood Hname Hupdate) as [Hwf1 Hp1]. rewrite union_empty_l_L in Hp1.
  destruct (UpdateTag_wf _ _ _ Hwf Hname Hupdate) as (_ & Hn1 & Hr1 & _).
  assert (∀ node, node ∈ left_behind updated db → rename = true ∧ node ∈ affected) as Hleft.
  { intros node Hl. pose proof Hid as Hid'. rewrite <-Hkeep in Hid'.
    apply (left_behind_affected _ _ _ _ Hid') in Hl as [Hne Haff]. rewrite Hkeep in Haff. fold affected in Haff. split; [|done].
    unfold rename. rewrite bool_decide_false by done. by destruct affected; [apply elem_of_nil in Haff|]. }
  destruct rename.
  2: { cbn. assert (projected db1) as Hp1' by (intros node names Hn; apply (Hp1 _ _ Hn); intros [? _]%Hleft; done).
    split_and!; [done| |by rewrite Hn1]. intros node names Hn Hne. by apply Hp1' in Hn. }
  assert (∀ node, node ∈ left_behind updated db → ∃ source v, db_rows db !! (node, id, source) = Some v) as Hcarry.
  { intros node [_ Ha]%Hleft. by apply elem_of_affected in Ha. }
  destruct (Recompute _ _ _ _ _ db1) as [r|e] eqn:Hrec.
  2: { cbn. split_and!; [done| |by rewrite Hn1]. intros node names Hn Hne. split; [done|].
    destruct (decide (node ∈ left_behind updated db)) as [Hl|Hl]; [by apply Hcarry|]. by apply (Hp1 _ _ Hn) in Hl. }
  destruct (Recompute_reports columns src fault _ _ _ _ Hwf1 Hrec) as (_ & _ & _ & Hcol & Hlisted & _).
  assert (projected (rc_db r)) as Hdone.
  { intros node names Hn. assert (is_Some (db_nodes db1 !! node)) as [names1 Hnames1].
    { destruct (decide (Some affected = Some [])) as [[= Hnil]|Hne]; [rewrite Hnil in Hrec; injection Hrec as <-; by exists names|].
      destruct (Recompute_effect columns src fault _ _ _ _ Hwf1 Hne Hrec) as (sets & He). apply (re_nodes _ _ _ _ _ _ _ _ He). by rewrite Hn. }
    enough (db_nodes (rc_db r) !! node = Some (projection_of (rc_db r) node)) by congruence.
    destruct (decide (node ∈ left_behind updated db)) as [Hl|Hl].
    - apply Hleft in Hl as [_ Ha]. by apply Hlisted; [eexists| |eexists].
    - apply Hcol. by rewrite Hnames1, (Hp1 _ _ Hnames1 Hl). }
  assert (∀ node, db_nodes (rc_db r) !! node ≠ db_nodes db !! node → node ∈ affected) as Hmoved.
  { intros node Hne. destruct (decide (node ∈ affected)) as [|Hout]; [done|]. exfalso. apply Hne. rewrite <-Hn1.
    destruct (decide (Some affected = Some [])) as [[= Hnil]|Hnn]; [rewrite Hnil in Hrec; by injection Hrec as <-|].
    destruct (Recompute_effect columns src fault _ _ _ _ Hwf1 Hnn Hrec) as (sets & He). apply (re_untouched _ _ _ _ _ _ _ _ He).
    intros [_ Hm]%(re_members _ _ _ _ _ _ _ _ He). cbn in Hm. destruct affected; [done|]. by apply bool_decide_eq_true in Hm. }
  assert (∀ node names, db_nodes (rc_db r) !! node = Some names → names ≠ projection_of (rc_db r) node → False) as Hnone.
  { intros node names Hn Hne. by apply Hdone in Hn. }
  unfold refreshGroupMembership. destruct affected as [|first rest] eqn:Haff.
  { cbn. split_and!; [done|naive_solver|]. intros node ?%Hmoved. set_solver. }
  destruct (failing CallApplyMembership) as [e|]; cbn.
  - split_and!; [done|naive_solver|]. intros node _. by right.
  - split_and!; [done|naive_solver|]. intros node ?%Hmoved. left. by rewrite app_nil_r.
Qed.

End pipeline.

(** ** A rename, with and without trouble *)
Section sample.
Import ServiceSample.

Definition rename_input : tagInput := mkTagInput (Some " japan ") None None None (Some false).
Definition rename_with (failing : handler_call → option string) : handled :=
  updateTag columns source no_fault RuleSoundness.Samples.registry DefaultLimits true failing 1 rename_input now after
    MembershipQueue.newMembershipQueue.

(** The node is handed to group membership, not to the queue. *)
Example renamed_and_told :
  let h := rename_with (λ _, None) in
  db_nodes (hd_db h) !! 7 = Some ["fast"; "japan"] ∧ hd_applied h = [[7]] ∧ hd_error h = None ∧
  MembershipQueue.mq_pending (hd_queue h) = ∅.
Proof. by vm_compute. Qed.

(** The recompute fails after the name was stored: the column keeps the old name. *)
Example rename_half_done :
  let h := updateTag columns source (λ c, match c with CallReplace => Some "disk full" | _ => None end)
             RuleSoundness.Samples.registry DefaultLimits true (λ _, None) 1 rename_input now after MembershipQueue.newMembershipQueue in
  db_nodes (hd_db h) !! 7 = Some ["fast"; "jp"] ∧ projection_of (hd_db h) 7 = ["fast"; "japan"] ∧ hd_error h = Some "disk full".
Proof. by vm_compute. Qed.

Lemma before_projected : projected before.
Proof. intros node names Hn. cbn in Hn. apply lookup_singleton_Some in Hn as [<- <-]. by vm_compute. Qed.

End sample.
