(* ===== verification/MonitorRegistry.v ===== *)
(** The monitor's registry of nodes ([internal/monitor/node_registry.go]) and the
    entries it holds ([internal/monitor/manager.go]): the index of runtime tags and
    the index of node ids, reload generations, health counters, the timeline, and
    the projection of committed probe results ([internal/monitor/health_applier.go]).

    An entry is a cell of a heap, named by its address: pools keep handles of entries
    the registry has let go. Each operation holds the registry's lock and the
    entry's, so it is one step; readings of the clock are arguments. The functions
    stored in an entry are named by integers. Traffic speeds are left out: they are
    display values computed in floating point. *)
From S2P Require Import Prelude Text Floats NetIP NetURL NodeCodec.
From S2P Require NodeLocation ProbeApplier.

#[local] Open Scope Z_scope.

(** ** Entries *)
Record NodeInfo := mkInfo {
  ni_NodeID : Z; ni_Tag : string; ni_Name : string; ni_URI : string; ni_Mode : string;
  ni_ListenAddress : string; ni_Port : Z; ni_Region : string; ni_Country : string
}.

Record TimelineEvent := mkEvent {
  te_Time : Z; te_Success : bool; te_LatencyMs : Z; te_Error : string; te_Destination : string
}.
Definition maxTimelineSize : nat := 20.

Record entry := mkEntry {
  en_info : NodeInfo;
  en_receiptID : string;
  en_receiptAt : Z;
  en_failure : Z;
  en_success : Z;
  en_timeline : list TimelineEvent;
  en_blacklist : bool;
  en_until : Z;
  en_lastError : string;
  en_lastFail : Z;
  en_lastOK : Z;
  en_lastProbe : Z;
  en_lastHealthCheck : Z;
  en_active : Z;
  en_totalUpload : Z;
  en_totalDownload : Z;
  en_probe : option Z;
  en_release : option Z;
  en_dialer : option Z;
  en_initialCheckDone : bool;
  en_available : bool;
  en_healthSource : string;
  en_healthUpdatedAt : Z;
  en_reloadGen : Z
}.

(** Field updates. *)
Definition set_en_info (v : NodeInfo) (s : entry) : entry :=
  mkEntry v (en_receiptID s) (en_receiptAt s) (en_failure s) (en_success s) (en_timeline s)
    (en_blacklist s) (en_until s) (en_lastError s) (en_lastFail s) (en_lastOK s) (en_lastProbe s)
    (en_lastHealthCheck s) (en_active s) (en_totalUpload s) (en_totalDownload s) (en_probe s)
    (en_release s) (en_dialer s) (en_initialCheckDone s) (en_available s) (en_healthSource s)
    (en_healthUpdatedAt s) (en_reloadGen s).
Definition set_en_receiptID (v : string) (s : entry) : entry :=
  mkEntry (en_info s) v (en_receiptAt s) (en_failure s) (en_success s) (en_timeline s) (en_blacklist s)
    (en_until s) (en_lastError s) (en_lastFail s) (en_lastOK s) (en_lastProbe s) (en_lastHealthCheck s)
    (en_active s) (en_totalUpload s) (en_totalDownload s) (en_probe s) (en_release s) (en_dialer s)
    (en_initialCheckDone s) (en_available s) (en_healthSource s) (en_healthUpdatedAt s) (en_reloadGen s).
Definition set_en_receiptAt (v : Z) (s : entry) : entry :=
  mkEntry (en_info s) (en_receiptID s) v (en_failure s) (en_success s) (en_timeline s) (en_blacklist s)
    (en_until s) (en_lastError s) (en_lastFail s) (en_lastOK s) (en_lastProbe s) (en_lastHealthCheck s)
    (en_active s) (en_totalUpload s) (en_totalDownload s) (en_probe s) (en_release s) (en_dialer s)
    (en_initialCheckDone s) (en_available s) (en_healthSource s) (en_healthUpdatedAt s) (en_reloadGen s).
Definition set_en_failure (v : Z) (s : entry) : entry :=
  mkEntry (en_info s) (en_receiptID s) (en_receiptAt s) v (en_success s) (en_timeline s)
    (en_blacklist s) (en_until s) (en_lastError s) (en_lastFail s) (en_lastOK s) (en_lastProbe s)
    (en_lastHealthCheck s) (en_active s) (en_totalUpload s) (en_totalDownload s) (en_probe s)
    (en_release s) (en_dialer s) (en_initialCheckDone s) (en_available s) (en_healthSource s)
    (en_healthUpdatedAt s) (en_reloadGen s).
Definition set_en_success (v : Z) (s : entry) : entry :=
  mkEntry (en_info s) (en_receiptID s) (en_receiptAt s) (en_failure s) v (en_timeline s)
    (en_blacklist s) (en_until s) (en_lastError s) (en_lastFail s) (en_lastOK s) (en_lastProbe s)
    (en_lastHealthCheck s) (en_active s) (en_totalUpload s) (en_totalDownload s) (en_probe s)
    (en_release s) (en_dialer s) (en_initialCheckDone s) (en_available s) (en_healthSource s)
    (en_healthUpdatedAt s) (en_reloadGen s).
Definition set_en_timeline (v : list TimelineEvent) (s : entry) : entry :=
  mkEntry (en_info s) (en_receiptID s) (en_receiptAt s) (en_failure s) (en_success s) v (en_blacklist s)
    (en_until s) (en_lastError s) (en_lastFail s) (en_lastOK s) (en_lastProbe s) (en_lastHealthCheck s)
    (en_active s) (en_totalUpload s) (en_totalDownload s) (en_probe s) (en_release s) (en_dialer s)
    (en_initialCheckDone s) (en_available s) (en_healthSource s) (en_healthUpdatedAt s) (en_reloadGen s).
Definition set_en_blacklist (v : bool) (s : entry) : entry :=
  mkEntry (en_info s) (en_receiptID s) (en_receiptAt s) (en_failure s) (en_success s) (en_timeline s) v
    (en_until s) (en_lastError s) (en_lastFail s) (en_lastOK s) (en_lastProbe s) (en_lastHealthCheck s)
    (en_active s) (en_totalUpload s) (en_totalDownload s) (en_probe s) (en_release s) (en_dialer s)
    (en_initialCheckDone s) (en_available s) (en_healthSource s) (en_healthUpdatedAt s) (en_reloadGen s).
Definition set_en_until (v : Z) (s : entry) : entry :=
  mkEntry (en_info s) (en_receiptID s) (en_receiptAt s) (en_failure s) (en_success s) (en_timeline s)
    (en_blacklist s) v (en_lastError s) (en_lastFail s) (en_lastOK s) (en_lastProbe s)
    (en_lastHealthCheck s) (en_active s) (en_totalUpload s) (en_totalDownload s) (en_probe s)
    (en_release s) (en_dialer s) (en_initialCheckDone s) (en_available s) (en_healthSource s)
    (en_healthUpdatedAt s) (en_reloadGen s).
Definition set_en_lastError (v : string) (s : entry) : entry :=
  mkEntry (en_info s) (en_receiptID s) (en_receiptAt s) (en_failure s) (en_success s) (en_timeline s)
    (en_blacklist s) (en_until s) v (en_lastFail s) (en_lastOK s) (en_lastProbe s)
    (en_lastHealthCheck s) (en_active s) (en_totalUpload s) (en_totalDownload s) (en_probe s)
    (en_release s) (en_dialer s) (en_initialCheckDone s) (en_available s) (en_healthSource s)
    (en_healthUpdatedAt s) (en_reloadGen s).
Definition set_en_lastFail (v : Z) (s : entry) : entry :=
  mkEntry (en_info s) (en_receiptID s) (en_receiptAt s) (en_failure s) (en_success s) (en_timeline s)
    (en_blacklist s) (en_until s) (en_lastError s) v (en_lastOK s) (en_lastProbe s)
    (en_lastHealthCheck s) (en_active s) (en_totalUpload s) (en_totalDownload s) (en_probe s)
    (en_release s) (en_dialer s) (en_initialCheckDone s) (en_available s) (en_healthSource s)
    (en_healthUpdatedAt s) (en_reloadGen s).
Definition set_en_lastOK (v : Z) (s : entry) : entry :=
  mkEntry (en_info s) (en_receiptID s) (en_receiptAt s) (en_failure s) (en_success s) (en_timeline s)
    (en_blacklist s) (en_until s) (en_lastError s) (en_lastFail s) v (en_lastProbe s)
    (en_lastHealthCheck s) (en_active s) (en_totalUpload s) (en_totalDownload s) (en_probe s)
    (en_release s) (en_dialer s) (en_initialCheckDone s) (en_available s) (en_healthSource s)
    (en_healthUpdatedAt s) (en_reloadGen s).
Definition set_en_lastProbe (v : Z) (s : entry) : entry :=
  mkEntry (en_info s) (en_receiptID s) (en_receiptAt s) (en_failure s) (en_success s) (en_timeline s)
    (en_blacklist s) (en_until s) (en_lastError s) (en_lastFail s) (en_lastOK s) v
    (en_lastHealthCheck s) (en_active s) (en_totalUpload s) (en_totalDownload s) (en_probe s)
    (en_release s) (en_dialer s) (en_initialCheckDone s) (en_available s) (en_healthSource s)
    (en_healthUpdatedAt s) (en_reloadGen s).
Definition set_en_lastHealthCheck (v : Z) (s : entry) : entry :=
  mkEntry (en_info s) (en_receiptID s) (en_receiptAt s) (en_failure s) (en_success s) (en_timeline s)
    (en_blacklist s) (en_until s) (en_lastError s) (en_lastFail s) (en_lastOK s) (en_lastProbe s) v
    (en_active s) (en_totalUpload s) (en_totalDownload s) (en_probe s) (en_release s) (en_dialer s)
    (en_initialCheckDone s) (en_available s) (en_healthSource s) (en_healthUpdatedAt s) (en_reloadGen s).
Definition set_en_active (v : Z) (s : entry) : entry :=
  mkEntry (en_info s) (en_receiptID s) (en_receiptAt s) (en_failure s) (en_success s) (en_timeline s)
    (en_blacklist s) (en_until s) (en_lastError s) (en_lastFail s) (en_lastOK s) (en_lastProbe s)
    (en_lastHealthCheck s) v (en_totalUpload s) (en_totalDownload s) (en_probe s) (en_release s)
    (en_dialer s) (en_initialCheckDone s) (en_available s) (en_healthSource s) (en_healthUpdatedAt s)
    (en_reloadGen s).
Definition set_en_totalUpload (v : Z) (s : entry) : entry :=
  mkEntry (en_info s) (en_receiptID s) (en_receiptAt s) (en_failure s) (en_success s) (en_timeline s)
    (en_blacklist s) (en_until s) (en_lastError s) (en_lastFail s) (en_lastOK s) (en_lastProbe s)
    (en_lastHealthCheck s) (en_active s) v (en_totalDownload s) (en_probe s) (en_release s)
    (en_dialer s) (en_initialCheckDone s) (en_available s) (en_healthSource s) (en_healthUpdatedAt s)
    (en_reloadGen s).
Definition set_en_totalDownload (v : Z) (s : entry) : entry :=
  mkEntry (en_info s) (en_receiptID s) (en_receiptAt s) (en_failure s) (en_success s) (en_timeline s)
    (en_blacklist s) (en_until s) (en_lastError s) (en_lastFail s) (en_lastOK s) (en_lastProbe s)
    (en_lastHealthCheck s) (en_active s) (en_totalUpload s) v (en_probe s) (en_release s) (en_dialer s)
    (en_initialCheckDone s) (en_available s) (en_healthSource s) (en_healthUpdatedAt s) (en_reloadGen s).
Definition set_en_probe (v : option Z) (s : entry) : entry :=
  mkEntry (en_info s) (en_receiptID s) (en_receiptAt s) (en_failure s) (en_success s) (en_timeline s)
    (en_blacklist s) (en_until s) (en_lastError s) (en_lastFail s) (en_lastOK s) (en_lastProbe s)
    (en_lastHealthCheck s) (en_active s) (en_totalUpload s) (en_totalDownload s) v (en_release s)
    (en_dialer s) (en_initialCheckDone s) (en_available s) (en_healthSource s) (en_healthUpdatedAt s)
    (en_reloadGen s).
Definition set_en_release (v : option Z) (s : entry) : entry :=
  mkEntry (en_info s) (en_receiptID s) (en_receiptAt s) (en_failure s) (en_success s) (en_timeline s)
    (en_blacklist s) (en_until s) (en_lastError s) (en_lastFail s) (en_lastOK s) (en_lastProbe s)
    (en_lastHealthCheck s) (en_active s) (en_totalUpload s) (en_totalDownload s) (en_probe s) v
    (en_dialer s) (en_initialCheckDone s) (en_available s) (en_healthSource s) (en_healthUpdatedAt s)
    (en_reloadGen s).
Definition set_en_dialer (v : option Z) (s : entry) : entry :=
  mkEntry (en_info s) (en_receiptID s) (en_receiptAt s) (en_failure s) (en_success s) (en_timeline s)
    (en_blacklist s) (en_until s) (en_lastError s) (en_lastFail s) (en_lastOK s) (en_lastProbe s)
    (en_lastHealthCheck s) (en_active s) (en_totalUpload s) (en_totalDownload s) (en_probe s)
    (en_release s) v (en_initialCheckDone s) (en_available s) (en_healthSource s) (en_healthUpdatedAt s)
    (en_reloadGen s).
Definition set_en_initialCheckDone (v : bool) (s : entry) : entry :=
  mkEntry (en_info s) (en_receiptID s) (en_receiptAt s) (en_failure s) (en_success s) (en_timeline s)
    (en_blacklist s) (en_until s) (en_lastError s) (en_lastFail s) (en_lastOK s) (en_lastProbe s)
    (en_lastHealthCheck s) (en_active s) (en_totalUpload s) (en_totalDownload s) (en_probe s)
    (en_release s) (en_dialer s) v (en_available s) (en_healthSource s) (en_healthUpdatedAt s)
    (en_reloadGen s).
Definition set_en_available (v : bool) (s : entry) : entry :=
  mkEntry (en_info s) (en_receiptID s) (en_receiptAt s) (en_failure s) (en_success s) (en_timeline s)
    (en_blacklist s) (en_until s) (en_lastError s) (en_lastFail s) (en_lastOK s) (en_lastProbe s)
    (en_lastHealthCheck s) (en_active s) (en_totalUpload s) (en_totalDownload s) (en_probe s)
    (en_release s) (en_dialer s) (en_initialCheckDone s) v (en_healthSource s) (en_healthUpdatedAt s)
    (en_reloadGen s).
Definition set_en_healthSource (v : string) (s : entry) : entry :=
  mkEntry (en_info s) (en_receiptID s) (en_receiptAt s) (en_failure s) (en_success s) (en_timeline s)
    (en_blacklist s) (en_until s) (en_lastError s) (en_lastFail s) (en_lastOK s) (en_lastProbe s)
    (en_lastHealthCheck s) (en_active s) (en_totalUpload s) (en_totalDownload s) (en_probe s)
    (en_release s) (en_dialer s) (en_initialCheckDone s) (en_available s) v (en_healthUpdatedAt s)
    (en_reloadGen s).
Definition set_en_healthUpdatedAt (v : Z) (s : entry) : entry :=
  mkEntry (en_info s) (en_receiptID s) (en_receiptAt s) (en_failure s) (en_success s) (en_timeline s)
    (en_blacklist s) (en_until s) (en_lastError s) (en_lastFail s) (en_lastOK s) (en_lastProbe s)
    (en_lastHealthCheck s) (en_active s) (en_totalUpload s) (en_totalDownload s) (en_probe s)
    (en_release s) (en_dialer s) (en_initialCheckDone s) (en_available s) (en_healthSource s) v
    (en_reloadGen s).
Definition set_en_reloadGen (v : Z) (s : entry) : entry :=
  mkEntry (en_info s) (en_receiptID s) (en_receiptAt s) (en_failure s) (en_success s) (en_timeline s)
    (en_blacklist s) (en_until s) (en_lastError s) (en_lastFail s) (en_lastOK s) (en_lastProbe s)
    (en_lastHealthCheck s) (en_active s) (en_totalUpload s) (en_totalDownload s) (en_probe s)
    (en_release s) (en_dialer s) (en_initialCheckDone s) (en_available s) (en_healthSource s)
    (en_healthUpdatedAt s) v.

(** A zero entry: a fresh [entry{}] literal with its [info], source and generation. *)
Definition new_entry (info : NodeInfo) (reload : Z) : entry :=
  mkEntry info "" GoTime.zero 0 0 [] false GoTime.zero "" GoTime.zero GoTime.zero 0 GoTime.zero 0 0 0 None None None
    false false "none" GoTime.zero reload.

(** [appendTimelineLocked]: the oldest event leaves a full timeline. *)
Definition appendTimeline (ev : TimelineEvent) (e : entry) : entry :=
  let t := en_timeline e in
  set_en_timeline (if decide (maxTimelineSize ≤ length t)%nat then tail t ++ [ev] else t ++ [ev]) e.

(** Milliseconds of a duration, truncated towards zero. *)
Definition Milliseconds (d : Z) : Z := Z.quot d GoTime.millisecond.

Definition recordFailure (now : Z) (err destination : string) (e : entry) : entry :=
  let e := set_en_failure (en_failure e + 1) e in
  let e := set_en_lastError err e in
  let e := set_en_lastFail now e in
  appendTimeline (mkEvent now false 0 err destination) e.

Definition recordSuccess (now : Z) (destination : string) (e : entry) : entry :=
  let e := set_en_success (en_success e + 1) e in
  let e := set_en_lastOK now e in
  appendTimeline (mkEvent now true 0 "" destination) e.

Definition recordSuccessWithLatency (now latency : Z) (e : entry) : entry :=
  let e := set_en_success (en_success e + 1) e in
  let e := set_en_lastOK now e in
  let e := set_en_lastProbe latency e in
  let e := set_en_available true e in
  let e := set_en_initialCheckDone true e in
  let e := set_en_healthSource "runtime" e in
  let e := set_en_healthUpdatedAt now e in
  let ms := Milliseconds latency in
  appendTimeline (mkEvent now true (if (ms =? 0) && (0 <? latency) then 1 else ms) "" "") e.

Definition blacklistUntil (until : Z) (e : entry) : entry := set_en_until until (set_en_blacklist true e).
Definition clearBlacklist (e : entry) : entry := set_en_until GoTime.zero (set_en_blacklist false e).

(** The counter of connections is an int32. *)
Definition wrap32 (z : Z) : Z := (z + 2 ^ 31) mod 2 ^ 32 - 2 ^ 31.
Definition incActive (e : entry) : entry := set_en_active (wrap32 (en_active e + 1)) e.
Definition decActive (e : entry) : entry := set_en_active (wrap32 (en_active e - 1)) e.

Definition MarkInitialCheckDone (available : bool) (e : entry) : entry :=
  set_en_available available (set_en_initialCheckDone true e).

Definition AddTraffic (upload download : Z) (e : entry) : entry :=
  let e := if 0 <? upload then set_en_totalUpload (wrap64 (en_totalUpload e + upload)) e else e in
  if 0 <? download then set_en_totalDownload (wrap64 (en_totalDownload e + download)) e else e.
Definition SetTraffic (upload download : Z) (e : entry) : entry :=
  set_en_totalDownload download (set_en_totalUpload upload e).

(** ** Snapshots *)
Definition StartupAvailabilityOptimistic : string := "optimistic".
Definition StartupAvailabilityStrict : string := "strict".
Definition NormalizeStartupAvailabilityPolicy (policy : string) : string :=
  if EqualFold (TrimSpace policy) StartupAvailabilityStrict then StartupAvailabilityStrict else StartupAvailabilityOptimistic.

(** What a snapshot adds to the entry it copies. *)
Record Snapshot := mkSnapshot {
  sn_entry : entry; sn_LastLatencyMs : Z; sn_Provisional : bool; sn_RoutingEligible : bool; sn_HealthSource : string
}.

(** [entry.snapshot] and [Manager.decorateSnapshot] *)
Definition snapshot (e : entry) : Snapshot :=
  let ms := Milliseconds (en_lastProbe e) in
  mkSnapshot e (if 0 <? en_lastProbe e then (if ms =? 0 then 1 else ms) else -1) false false (en_healthSource e).
Definition decorateSnapshot (policy : string) (s : Snapshot) : Snapshot :=
  let e := sn_entry s in
  let provisional := negb (en_initialCheckDone e) && bool_decide (policy = StartupAvailabilityOptimistic) && negb (en_blacklist e) in
  mkSnapshot e (sn_LastLatencyMs s) provisional
    (negb (en_blacklist e) && ((en_initialCheckDone e && en_available e) || provisional))
    (if decide (sn_HealthSource s = "") then "none" else sn_HealthSource s).

(** The order of [SnapshotFiltered]: by latency, unmeasured nodes last, then by name. *)
Definition snapshot_le (a b : Snapshot) : Prop :=
  let la := sn_LastLatencyMs a in
  let lb := sn_LastLatencyMs b in
  let names := String.le (ni_Name (en_info (sn_entry a))) (ni_Name (en_info (sn_entry b))) in
  if la <? 0 then lb < 0 ∧ names
  else if lb <? 0 then True
  else la < lb ∨ (la = lb ∧ names).
#[export] Instance snapshot_le_dec : RelDecision snapshot_le.
Proof. intros a b. unfold snapshot_le. cbn zeta. repeat case_match; apply _. Defined.

(** ** The registry *)
Record nodeRegistry := mkRegistry {
  rg_heap : gmap Z entry;
  rg_next : Z;
  rg_byTag : gmap string Z;
  rg_byID : gmap Z Z;
  rg_reload : Z
}.

Definition newNodeRegistry : nodeRegistry := mkRegistry ∅ 1 ∅ ∅ 0.

Definition with_heap (h : gmap Z entry) (r : nodeRegistry) : nodeRegistry :=
  mkRegistry h (rg_next r) (rg_byTag r) (rg_byID r) (rg_reload r).
Definition with_index (byTag : gmap string Z) (byID : gmap Z Z) (r : nodeRegistry) : nodeRegistry :=
  mkRegistry (rg_heap r) (rg_next r) byTag byID (rg_reload r).

Definition entry_at (p : Z) (r : nodeRegistry) : entry := default (new_entry (mkInfo 0 "" "" "" "" "" 0 "" "") 0) (rg_heap r !! p).
Definition update_entry (p : Z) (f : entry → entry) (r : nodeRegistry) : nodeRegistry :=
  with_heap (<[p := f (entry_at p r)]> (rg_heap r)) r.

Definition byTagEntry (tag : string) (r : nodeRegistry) : option Z := rg_byTag r !! tag.
Definition byNodeID (nodeID : Z) (r : nodeRegistry) : option Z := if nodeID =? 0 then None else rg_byID r !! nodeID.
Definition count (r : nodeRegistry) : nat := size (rg_byTag r).

(** The reload generation is a uint64. *)
Definition beginReload (r : nodeRegistry) : nodeRegistry :=
  mkRegistry (rg_heap r) (rg_next r) (rg_byTag r) (rg_byID r) ((rg_reload r + 1) mod 2 ^ 64).

(** [delete(byID, nodeID)], if the index still names this entry. *)
Definition forget_id (nodeID p : Z) (byID : gmap Z Z) : gmap Z Z :=
  if negb (nodeID =? 0) && bool_decide (byID !! nodeID = Some p) then delete nodeID byID else byID.
Definition record_id (nodeID p : Z) (byID : gmap Z Z) : gmap Z Z := if nodeID =? 0 then byID else <[nodeID := p]> byID.

(** What [register] and [migrate] do to the entry that already has the tag. *)
Definition adopt (p : Z) (info : NodeInfo) (r : nodeRegistry) : nodeRegistry :=
  let old := ni_NodeID (en_info (entry_at p r)) in
  let r := update_entry p (λ e, set_en_reloadGen (rg_reload r) (set_en_info info e)) r in
  let byID := if old =? ni_NodeID info then rg_byID r else forget_id old p (rg_byID r) in
  with_index (rg_byTag r) (record_id (ni_NodeID info) p byID) r.

Definition allocate (e : entry) (r : nodeRegistry) : Z * nodeRegistry :=
  (rg_next r, mkRegistry (<[rg_next r := e]> (rg_heap r)) (rg_next r + 1) (rg_byTag r) (rg_byID r) (rg_reload r)).

Definition register (info : NodeInfo) (r : nodeRegistry) : Z * nodeRegistry :=
  match rg_byTag r !! ni_Tag info with
  | Some p => (p, adopt p info r)
  | None =>
    let '(p, r) := allocate (new_entry info (rg_reload r)) r in
    (p, with_index (<[ni_Tag info := p]> (rg_byTag r)) (record_id (ni_NodeID info) p (rg_byID r)) r)
  end.

Definition unregister (tag : string) (r : nodeRegistry) : nodeRegistry :=
  match rg_byTag r !! tag with
  | None => r
  | Some p =>
    let info := en_info (entry_at p r) in
    if decide (ni_Tag info = tag)
    then with_index (delete tag (rg_byTag r)) (forget_id (ni_NodeID info) p (rg_byID r)) r
    else r
  end.

Definition clear (r : nodeRegistry) : nodeRegistry := with_index ∅ ∅ r.

Section monitor.
Context `{RS : !RangeOrder string, CL : !CodecLibraries}.

Definition sweep_entry (r : nodeRegistry) (acc : gmap string Z * gmap Z Z) (tp : string * Z) : gmap string Z * gmap Z Z :=
  let e := entry_at tp.2 r in
  if en_reloadGen e =? rg_reload r then acc
  else (delete tp.1 acc.1, forget_id (ni_NodeID (en_info e)) tp.2 acc.2).
Definition sweepStale (r : nodeRegistry) : nodeRegistry :=
  let '(byTag, byID) := foldl (sweep_entry r) (rg_byTag r, rg_byID r) (range (rg_byTag r)) in with_index byTag byID r.

(** The connection a link describes, as [nodecodec] identifies it. *)
Definition identityChanged (before after : string) : bool :=
  if bool_decide (before = "") || bool_decide (before = after) then false
  else match ParseURI before, ParseURI after with
       | Ok previous, Ok current => negb (bool_decide (re_Hash previous = re_Hash current))
       | _, _ => true
       end.

(** A migrated entry must prove itself again; one whose connection changed starts over. *)
Definition await_check (e : entry) : entry :=
  let e := set_en_initialCheckDone false e in
  let e := set_en_available false e in
  let e := set_en_lastHealthCheck GoTime.zero e in
  if decide (en_healthSource e = "none") then e else set_en_healthSource "previous_generation" e.
Definition forget_health (e : entry) : entry :=
  let e := set_en_success 0 (set_en_failure 0 e) in
  let e := set_en_initialCheckDone false (set_en_available false (set_en_blacklist false e)) in
  let e := set_en_lastOK GoTime.zero (set_en_lastFail GoTime.zero (set_en_until GoTime.zero e)) in
  let e := set_en_healthUpdatedAt GoTime.zero (set_en_lastHealthCheck GoTime.zero e) in
  let e := set_en_healthSource "none" (set_en_lastError "" e) in
  set_en_lastProbe 0 e.

Definition migrate_entry (oldTag : string) (info : NodeInfo) (reload : Z) (e : entry) : entry :=
  let changed := identityChanged (ni_URI (en_info e)) (ni_URI info) in
  let e := set_en_reloadGen reload (set_en_info info e) in
  let e := if bool_decide (oldTag = "") || bool_decide (oldTag = ni_Tag info) then e else await_check e in
  if changed then forget_health e else e.

(** [migrate] on an entry taken out of the index of tags. *)
Definition place (nodeID p : Z) (oldTag : string) (info : NodeInfo) (r : nodeRegistry) : nodeRegistry :=
  let r := update_entry p (migrate_entry oldTag info (rg_reload r)) r in
  let byID := if nodeID =? ni_NodeID info then rg_byID r else forget_id nodeID p (rg_byID r) in
  with_index (<[ni_Tag info := p]> (rg_byTag r)) (record_id (ni_NodeID info) p byID) r.

Definition migrate (nodeID : Z) (info : NodeInfo) (r : nodeRegistry) : Z * nodeRegistry :=
  match rg_byTag r !! ni_Tag info with
  | Some p => (p, adopt p info r)
  | None =>
    match rg_byID r !! nodeID with
    | Some p =>
      let oldTag := ni_Tag (en_info (entry_at p r)) in
      (p, place nodeID p oldTag info (with_index (delete oldTag (rg_byTag r)) (rg_byID r) r))
    | None =>
      let '(p, r) := allocate (new_entry (mkInfo 0 "" "" "" "" "" 0 "" "") 0) r in (p, place nodeID p "" info r)
    end
  end.

(** ** The manager over the registry *)
Definition entries (r : nodeRegistry) : list Z := (range (rg_byTag r)).*2.

Definition relocate (nodeID : Z) (region country : string) (e : entry) : entry :=
  let i := en_info e in
  if ni_NodeID i =? nodeID
  then set_en_info (mkInfo (ni_NodeID i) (ni_Tag i) (ni_Name i) (ni_URI i) (ni_Mode i) (ni_ListenAddress i) (ni_Port i)
                      (toLower (TrimSpace region)) (TrimSpace country)) e
  else e.
Definition UpdateNodeLocation (nodeID : Z) (region country : string) (r : nodeRegistry) : nodeRegistry :=
  foldl (λ r p, update_entry p (relocate nodeID region country) r) r (entries r).

Definition SnapshotForTag (policy tag : string) (r : nodeRegistry) : option Snapshot :=
  (λ p, decorateSnapshot policy (snapshot (entry_at p r))) <$> byTagEntry tag r.
Definition SnapshotForNodeID (policy : string) (nodeID : Z) (r : nodeRegistry) : option Snapshot :=
  (λ p, decorateSnapshot policy (snapshot (entry_at p r))) <$> byNodeID nodeID r.
Definition SnapshotFiltered (policy : string) (onlyAvailable : bool) (r : nodeRegistry) : list Snapshot :=
  merge_sort snapshot_le
    (filter (λ s, negb (onlyAvailable && en_initialCheckDone (sn_entry s) && negb (en_available (sn_entry s))) = true)
       ((λ p, decorateSnapshot policy (snapshot (entry_at p r))) <$> entries r)).

(** [PersistedHealthState] *)
Record PersistedHealthState := mkPersisted {
  ph_FailureCount : Z; ph_SuccessCount : Z; ph_Blacklisted : bool; ph_BlacklistedUntil : Z; ph_LastError : string;
  ph_LastFailure : Z; ph_LastSuccess : Z; ph_LastLatencyMs : Z; ph_Available : bool;
  ph_TotalUpload : Z; ph_TotalDownload : Z; ph_UpdatedAt : Z
}.

Definition restore_entry (now : Z) (s : PersistedHealthState) (e : entry) : entry :=
  let e := set_en_success (ph_SuccessCount s) (set_en_failure (ph_FailureCount s) e) in
  let e := set_en_blacklist (ph_Blacklisted s && (GoTime.isZero (ph_BlacklistedUntil s) || GoTime.after (ph_BlacklistedUntil s) now)) e in
  let e := set_en_lastError (ph_LastError s) (set_en_until (ph_BlacklistedUntil s) e) in
  let e := set_en_lastOK (ph_LastSuccess s) (set_en_lastFail (ph_LastFailure s) e) in
  let e := if 0 <? ph_LastLatencyMs s then set_en_lastProbe (wrap64 (ph_LastLatencyMs s * GoTime.millisecond)) e else e in
  let e := set_en_initialCheckDone false (set_en_available (ph_Available s) e) in
  let e := set_en_healthUpdatedAt (ph_UpdatedAt s) (set_en_healthSource "persisted" e) in
  SetTraffic (ph_TotalUpload s) (ph_TotalDownload s) e.

Definition restore_step (now : Z) (acc : nodeRegistry * Z) (ns : Z * PersistedHealthState) : nodeRegistry * Z :=
  match byNodeID ns.1 acc.1 with
  | None => acc
  | Some p => (update_entry p (restore_entry now ns.2) acc.1, acc.2 + 1)
  end.
Definition RestorePersistedHealth `{!RangeOrder Z} (now : Z) (states : gmap Z PersistedHealthState) (r : nodeRegistry) : nodeRegistry * Z :=
  foldl (restore_step now) (r, 0) (range states).

(** ** Committed results reach the entries *)

(** What a projection publishes to the hub. *)
Record HealthResultEvent := mkResultEvent {
  he_Tag : string; he_NodeID : Z; he_Success : bool; he_Latency : Z; he_Error : string; he_ProbeID : string; he_Seq : Z; he_CheckedAt : Z
}.

(** [err] is the error's text, [None] for a success; [now] dates the counters. *)
Definition project_entry (now : Z) (destination : string) (latency : Z) (err : option string) (checkedAt : Z) (e : entry) : entry :=
  match err with
  | Some text =>
    let e := recordFailure now text destination e in
    let e := set_en_initialCheckDone true (set_en_available false e) in
    let e := set_en_lastHealthCheck checkedAt (set_en_lastProbe 0 e) in
    set_en_healthUpdatedAt checkedAt (set_en_healthSource "runtime" e)
  | None =>
    let e := recordSuccessWithLatency now latency e in
    set_en_healthUpdatedAt checkedAt (set_en_healthSource "runtime" (set_en_lastHealthCheck checkedAt e))
  end.

Definition projectHealthResult (now : Z) (destination : string) (p latency : Z) (err : option string) (checkedAt seq : Z)
    (probeID : string) (r : nodeRegistry) : nodeRegistry * HealthResultEvent :=
  let checkedAt := if GoTime.isZero checkedAt then now else checkedAt in
  let r := update_entry p (project_entry now destination latency err checkedAt) r in
  let info := en_info (entry_at p r) in
  (r, mkResultEvent (ni_Tag info) (ni_NodeID info) (match err with Some _ => false | None => true end) latency (default "" err)
        probeID seq checkedAt).

(** [Manager.ProjectHealthOutcome]: the registry, and what was published. *)
Definition ProjectHealthOutcome (probeEpoch now : Z) (destination : string) (out : ProbeApplier.Outcome) (r : nodeRegistry)
    : result (nodeRegistry * list HealthResultEvent) :=
  let event := ProbeApplier.out_Event out in
  let obs := ProbeApplier.r_Observation event in
  match ProbeApplier.r_Health event with
  | Some h =>
    if negb (bool_decide (ProbeApplier.r_Kind event = ProbeApplier.Health) && bool_decide (ProbeApplier.r_Origin event = ProbeApplier.HealthProbe))
    then Err "invalid health projection"
    else if GoTime.before (NodeLocation.ob_StartedAt obs) probeEpoch then Ok (r, [])
    else
      match byTagEntry (ProbeApplier.hr_Tag h) r with
      | None => Ok (r, [])
      | Some p =>
        if negb (bool_decide (byNodeID (ProbeApplier.r_NodeID event) r = Some p)) then Ok (r, [])
        else
          let e := entry_at p r in
          if negb (ni_NodeID (en_info e) =? ProbeApplier.r_NodeID event) || negb (bool_decide (ni_Tag (en_info e) = ProbeApplier.hr_Tag h))
             || bool_decide (ProbeApplier.out_ReceiptID out = en_receiptID e)
             || negb (GoTime.after (NodeLocation.ob_CheckedAt obs) (en_receiptAt e))
          then Ok (r, [])
          else
            let err := if ProbeApplier.hr_Success h then None else Some (ProbeApplier.hr_Error h) in
            let '(r, ev) := projectHealthResult now destination p (ProbeApplier.hr_Latency h) err (NodeLocation.ob_CheckedAt obs)
                              (ProbeApplier.out_Seq out) (NodeLocation.ob_ProbeID obs) r in
            Ok (update_entry p (λ e, set_en_receiptAt (NodeLocation.ob_CheckedAt obs) (set_en_receiptID (ProbeApplier.out_ReceiptID out) e)) r, [ev])
      end
  | None => Err "invalid health projection"
  end.
End monitor.
