(* ===== verification/MonitorReload.v ===== *)
(** The indexes of the monitor's registry: they agree with the entries through every
    sequence of operations, a reload leaves exactly the nodes it migrated, and a
    migrated node keeps its entry. *)
From S2P Require Import Prelude Text Floats NetIP NetURL NodeCodec MonitorRegistry.
From S2P Require NodeLocation ProbeApplier LinkRoundTrip.

#[local] Open Scope Z_scope.

Definition tag_of (p : Z) (r : nodeRegistry) : string := ni_Tag (en_info (entry_at p r)).
Definition id_of (p : Z) (r : nodeRegistry) : Z := ni_NodeID (en_info (entry_at p r)).

(** ** What the indexes promise *)
Record index_ok (r : nodeRegistry) : Prop := {
  io_next : ∀ p e, rg_heap r !! p = Some e → p < rg_next r;
  io_tag : ∀ t p, rg_byTag r !! t = Some p → is_Some (rg_heap r !! p) ∧ tag_of p r = t;
  io_id : ∀ n p, rg_byID r !! n = Some p → n ≠ 0 ∧ id_of p r = n ∧ rg_byTag r !! tag_of p r = Some p;
  io_gen : ∀ t p, rg_byTag r !! t = Some p → 0 ≤ en_reloadGen (entry_at p r) ≤ rg_reload r
}.

(** One entry [p] is written with the node [i] and every other one is left alone. *)
Record placed (i : NodeInfo) (p : Z) (r r' : nodeRegistry) : Prop := {
  pl_reload : rg_reload r' = rg_reload r;
  pl_next : p < rg_next r' ∧ rg_next r ≤ rg_next r';
  pl_other : ∀ q, q ≠ p → rg_heap r' !! q = rg_heap r !! q;
  pl_entry : ∃ e, rg_heap r' !! p = Some e ∧ en_info e = i ∧ en_reloadGen e = rg_reload r;
  pl_tag : rg_byTag r' !! ni_Tag i = Some p;
  pl_tags : ∀ t q, q ≠ p → rg_byTag r' !! t = Some q ↔ rg_byTag r !! t = Some q;
  pl_own : ∀ t, rg_byTag r' !! t = Some p → t = ni_Tag i;
  pl_id : ni_NodeID i ≠ 0 → rg_byID r' !! ni_NodeID i = Some p;
  pl_ids : ∀ n q, q ≠ p → (rg_byID r' !! n = Some q ↔ rg_byID r !! n = Some q ∧ (n = ni_NodeID i → n = 0));
  pl_own_id : ∀ n, rg_byID r' !! n = Some p → n = ni_NodeID i ∧ n ≠ 0
}.

Lemma entry_at_lookup p e r : rg_heap r !! p = Some e → entry_at p r = e.
Proof. unfold entry_at. by intros ->. Qed.

Lemma entry_at_update p q f r : entry_at q (update_entry p f r) = if decide (q = p) then f (entry_at p r) else entry_at q r.
Proof.
  unfold entry_at at 1, update_entry; simpl.
  destruct (decide (q = p)) as [->|Hne]; [by rewrite lookup_insert_eq|by rewrite lookup_insert_ne].
Qed.

Lemma entry_at_index p byTag byID r : entry_at p (with_index byTag byID r) = entry_at p r.
Proof. done. Qed.

Section placed.
  Context (i : NodeInfo) (p : Z) (r r' : nodeRegistry) (Hpl : placed i p r r').

Lemma placed_at : en_info (entry_at p r') = i ∧ en_reloadGen (entry_at p r') = rg_reload r.
  Proof using Hpl. destruct (pl_entry _ _ _ _ Hpl) as (e & He & Hi & Hg). by rewrite (entry_at_lookup _ _ _ He). Qed.

Lemma placed_other q : q ≠ p → entry_at q r' = entry_at q r.
  Proof using Hpl. intros Hne. unfold entry_at. by rewrite (pl_other _ _ _ _ Hpl q Hne). Qed.

Lemma placed_ok : index_ok r → 0 ≤ rg_reload r → index_ok r'.
  Proof using Hpl.
    intros [Hnext Htag Hid Hgen] Hr. pose proof placed_at as [Hi Hg].
    destruct (pl_next _ _ _ _ Hpl) as [Hp Hle]. split.
    - intros q e Hq. destruct (decide (q = p)) as [->|Hne]; [done|].
      rewrite (pl_other _ _ _ _ Hpl q Hne) in Hq. specialize (Hnext q e Hq). lia.
    - intros t q Hq. destruct (decide (q = p)) as [->|Hne].
      + apply (pl_own _ _ _ _ Hpl) in Hq as ->. unfold tag_of. rewrite Hi. split; [|done].
        destruct (pl_entry _ _ _ _ Hpl) as (e & He & _). eauto.
      + apply (pl_tags _ _ _ _ Hpl t q Hne) in Hq. unfold tag_of.
        rewrite (pl_other _ _ _ _ Hpl q Hne), (placed_other q Hne). by apply Htag.
    - intros n q Hq. unfold id_of, tag_of. destruct (decide (q = p)) as [->|Hne].
      + apply (pl_own_id _ _ _ _ Hpl) in Hq as [-> Hn]. rewrite Hi. repeat split; [done|apply Hpl].
      + apply (pl_ids _ _ _ _ Hpl n q Hne) in Hq as [Hq _]. rewrite (placed_other q Hne).
        destruct (Hid n q Hq) as (Hn & He & Ht). repeat split; [done..|]. by apply (pl_tags _ _ _ _ Hpl).
    - intros t q Hq. rewrite (pl_reload _ _ _ _ Hpl). destruct (decide (q = p)) as [->|Hne]; [lia|].
      rewrite (placed_other q Hne). apply (pl_tags _ _ _ _ Hpl t q Hne) in Hq. by eapply Hgen.
  Qed.
End placed.

Lemma lookup_record_id n q m p byID :
  record_id n q byID !! m = Some p ↔ (m = n ∧ n ≠ 0 ∧ p = q) ∨ ((m = n → n = 0) ∧ byID !! m = Some p).
Proof.
  unfold record_id. destruct (Z.eqb_spec n 0) as [->|Hn]; [naive_solver|].
  rewrite lookup_insert_Some. naive_solver.
Qed.

Lemma lookup_forget_id n q m p byID :
  forget_id n q byID !! m = Some p ↔ byID !! m = Some p ∧ ¬ (m = n ∧ n ≠ 0 ∧ p = q).
Proof.
  unfold forget_id. destruct (Z.eqb_spec n 0) as [->|Hn]; simpl; [naive_solver|].
  case_bool_decide as Hq; [rewrite lookup_delete_Some; naive_solver|naive_solver].
Qed.

(** Both ways an entry is taken over: [p] was known under one tag and one id at most. *)
Lemma adopt_placed p i r : index_ok r → rg_byTag r !! ni_Tag i = Some p → placed i p r (adopt p i r).
Proof.
  intros Hok Hp. destruct (io_tag _ Hok _ _ Hp) as [[e He] Ht].
  assert (Hold : ∀ n, rg_byID r !! n = Some p → n = id_of p r ∧ n ≠ 0).
  { intros n Hn. destruct (io_id _ Hok _ _ Hn) as (? & ? & _). done. }
  unfold adopt. rewrite (entry_at_lookup _ _ _ He) in *. unfold tag_of, id_of in *. rewrite (entry_at_lookup _ _ _ He) in *.
  split; simpl.
  - done.
  - split; [by eapply io_next|lia].
  - intros q Hne. by rewrite lookup_insert_ne.
  - eexists. rewrite lookup_insert_eq. split; [done|]. done.
  - done.
  - done.
  - intros t Htp. destruct (io_tag _ Hok _ _ Htp) as [_ Ht']. unfold tag_of in Ht'. rewrite (entry_at_lookup _ _ _ He) in Ht'. congruence.
  - intros Hn. apply lookup_record_id. auto.
  - intros n q Hne. rewrite lookup_record_id. destruct (Z.eqb_spec (ni_NodeID (en_info e)) (ni_NodeID i)) as [Heq|Heq].
    + naive_solver.
    + rewrite lookup_forget_id. naive_solver.
  - intros n Hn. apply lookup_record_id in Hn as [(-> & Hi & _)|[Hne Hn]]; [done|].
    destruct (Z.eqb_spec (ni_NodeID (en_info e)) (ni_NodeID i)) as [Heq|Heq].
    + destruct (Hold n Hn) as [-> ?]. done.
    + apply lookup_forget_id in Hn as [Hn Hne']. destruct (Hold n Hn) as [-> ?]. naive_solver.
Qed.

Section operations.
Context `{RS : !RangeOrder string, CL : !CodecLibraries}.

Lemma migrate_entry_info old i reload e : en_info (migrate_entry old i reload e) = i ∧ en_reloadGen (migrate_entry old i reload e) = reload.
Proof. unfold migrate_entry, await_check. by repeat case_match. Qed.

(** [p] is in the index of ids under [nodeID] at most, and in that of tags not at all. *)
Lemma place_placed nodeID p old i r :
  rg_byTag r !! ni_Tag i = None → (∀ t, rg_byTag r !! t ≠ Some p) →
  (∀ n, rg_byID r !! n = Some p → n = nodeID ∧ n ≠ 0) → p < rg_next r →
  placed i p r (place nodeID p old i r).
Proof.
  intros Hfree Hp Hid Hnext. unfold place. split; simpl.
  - done.
  - lia.
  - intros q Hne. by rewrite lookup_insert_ne.
  - eexists. rewrite lookup_insert_eq. split; [done|]. apply migrate_entry_info.
  - apply lookup_insert_eq.
  - intros t q Hne. rewrite lookup_insert_Some. naive_solver congruence.
  - intros t Ht. apply lookup_insert_Some in Ht as [[-> _]|[_ Ht]]; [done|]. by apply Hp in Ht.
  - intros Hn. apply lookup_record_id. auto.
  - intros n q Hne. rewrite lookup_record_id. destruct (Z.eqb_spec nodeID (ni_NodeID i)) as [Heq|Heq].
    + naive_solver.
    + rewrite lookup_forget_id. naive_solver.
  - intros n Hn. apply lookup_record_id in Hn as [(-> & Hi & _)|[Hne Hn]]; [done|].
    destruct (Z.eqb_spec nodeID (ni_NodeID i)) as [Heq|Heq].
    + destruct (Hid n Hn) as [-> ?]. done.
    + apply lookup_forget_id in Hn as [Hn Hne']. destruct (Hid n Hn) as [-> ?]. naive_solver.
Qed.

Lemma index_ok_fresh r : index_ok r →
  (∀ t, rg_byTag r !! t ≠ Some (rg_next r)) ∧ (∀ n, rg_byID r !! n ≠ Some (rg_next r)).
Proof.
  intros Hok. assert (∀ t, rg_byTag r !! t ≠ Some (rg_next r)) as Ht.
  { intros t Ht. destruct (io_tag _ Hok _ _ Ht) as [[e He] _]. apply (io_next _ Hok) in He. lia. }
  split; [done|]. intros n Hn. destruct (io_id _ Hok _ _ Hn) as (_ & _ & Hp). by apply Ht in Hp.
Qed.

(** Where the entry of a migrated node comes from. *)
Definition migration_source (nodeID : Z) (i : NodeInfo) (r : nodeRegistry) : Z :=
  match rg_byTag r !! ni_Tag i with
  | Some p => p
  | None => default (rg_next r) (rg_byID r !! nodeID)
  end.

Lemma migrate_placed nodeID i r : index_ok r →
  (migrate nodeID i r).1 = migration_source nodeID i r ∧ placed i (migration_source nodeID i r) r (migrate nodeID i r).2.
Proof.
  intros Hok. unfold migrate, migration_source.
  destruct (rg_byTag r !! ni_Tag i) as [p|] eqn:Htag; [split; [done|by apply adopt_placed]|].
  destruct (rg_byID r !! nodeID) as [p|] eqn:Hid; simpl.
  - split; [done|]. destruct (io_id _ Hok _ _ Hid) as (Hn & Hnode & Htp). destruct (io_tag _ Hok _ _ Htp) as [[e He] _].
    assert (placed i p (with_index (delete (tag_of p r) (rg_byTag r)) (rg_byID r) r)
              (place nodeID p (tag_of p r) i (with_index (delete (tag_of p r) (rg_byTag r)) (rg_byID r) r))) as Hpl.
    { apply place_placed; simpl.
      - apply lookup_delete_None. auto.
      - intros t Ht. apply lookup_delete_Some in Ht as [Hne Ht]. apply (io_tag _ Hok) in Ht as [_ Ht]. congruence.
      - intros n Hnp. destruct (io_id _ Hok _ _ Hnp) as (? & ? & _). split; congruence.
      - by eapply io_next. }
    destruct Hpl; split; simpl in *; try done.
    intros t q Hne. rewrite pl_tags0 by done. rewrite lookup_delete_Some. split; [naive_solver|].
    intros Ht. split; [|done]. intros <-. congruence.
  - split; [done|]. destruct (index_ok_fresh r Hok) as [Hft Hfi].
    match goal with |- placed _ _ _ (place _ _ _ _ ?r1) =>
      assert (placed i (rg_next r) r1 (place nodeID (rg_next r) "" i r1)) as Hpl end.
    { apply place_placed; simpl; [done|done| |lia]. intros n Hn. by apply Hfi in Hn. }
    destruct Hpl; split; simpl in *; try done; [lia|].
    intros q Hne. rewrite pl_other0 by done. by rewrite lookup_insert_ne.
Qed.

Lemma register_placed i r : index_ok r → placed i (register i r).1 r (register i r).2.
Proof.
  intros Hok. unfold register. destruct (rg_byTag r !! ni_Tag i) as [p|] eqn:Htag; [by apply adopt_placed|].
  destruct (index_ok_fresh r Hok) as [Hft Hfi]. simpl. split; simpl.
  - done.
  - lia.
  - intros q Hne. by rewrite lookup_insert_ne.
  - eexists. rewrite lookup_insert_eq. done.
  - apply lookup_insert_eq.
  - intros t q Hne. rewrite lookup_insert_Some. naive_solver congruence.
  - intros t Ht. apply lookup_insert_Some in Ht as [[-> _]|[_ Ht]]; [done|]. by apply Hft in Ht.
  - intros Hn. apply lookup_record_id. auto.
  - intros n q Hne. rewrite lookup_record_id. naive_solver.
  - intros n Hn. apply lookup_record_id in Hn as [(-> & Hi & _)|[Hne Hn]]; [done|]. by apply Hfi in Hn.
Qed.

(** ** Taking entries out *)

(** The registry with some entries left out of both indexes. *)
Record pruned (keep : Z → Prop) (r r' : nodeRegistry) : Prop := {
  pr_heap : rg_heap r' = rg_heap r;
  pr_next : rg_next r' = rg_next r;
  pr_reload : rg_reload r' = rg_reload r;
  pr_tag : ∀ t p, rg_byTag r' !! t = Some p ↔ rg_byTag r !! t = Some p ∧ keep p;
  pr_id : ∀ n p, rg_byID r' !! n = Some p ↔ rg_byID r !! n = Some p ∧ keep p
}.

Lemma pruned_ok keep r r' : pruned keep r r' → index_ok r → index_ok r'.
Proof.
  intros [Hh Hn Hr Ht Hi] [Hnext Htag Hid Hgen]. unfold tag_of, id_of, entry_at in *.
  split; unfold tag_of, id_of, entry_at; rewrite ?Hh, ?Hn, ?Hr; [done|..].
  - intros t p Hp. apply Ht in Hp as [Hp _]. by apply Htag.
  - intros n p Hp. apply Hi in Hp as [Hp Hk].
    destruct (Hid n p Hp) as (? & ? & ?). repeat split; [done..|]. by apply Ht.
  - intros t p Hp. apply Ht in Hp as [Hp _]. by eapply Hgen.
Qed.

Lemma unregister_pruned tag r : index_ok r →
  pruned (λ p, rg_byTag r !! tag ≠ Some p) r (unregister tag r).
Proof.
  intros Hok. unfold unregister. destruct (rg_byTag r !! tag) as [p|] eqn:Hp.
  - destruct (io_tag _ Hok _ _ Hp) as [[e He] Ht]. unfold tag_of in Ht. rewrite decide_True by done.
    split; simpl; try done.
    + intros t q. rewrite lookup_delete_Some. split; [|naive_solver].
      intros [Hne Hq]. split; [done|]. intros [= <-]. destruct (io_tag _ Hok _ _ Hq) as [_ Hq']. unfold tag_of in Hq'. congruence.
    + intros n q. rewrite lookup_forget_id. split; [|naive_solver].
      intros [Hq Hne]. split; [done|]. intros [= <-]. destruct (io_id _ Hok _ _ Hq) as (? & ? & _). unfold id_of in *. naive_solver.
  - split; simpl; try done; naive_solver.
Qed.

Lemma clear_pruned r : pruned (λ _, False) r (clear r).
Proof. split; simpl; try done; intros; rewrite lookup_empty; naive_solver. Qed.

Definition sweep_stale_of (r : nodeRegistry) (p : Z) : Prop := en_reloadGen (entry_at p r) ≠ rg_reload r.

Lemma sweep_fold r l bt bi :
  let out := foldl (sweep_entry r) (bt, bi) l in
  (∀ t p, out.1 !! t = Some p ↔ bt !! t = Some p ∧ ¬ (∃ q, (t, q) ∈ l ∧ sweep_stale_of r q)) ∧
  (∀ n p, out.2 !! n = Some p ↔ bi !! n = Some p ∧ ¬ (∃ t, (t, p) ∈ l ∧ sweep_stale_of r p ∧ id_of p r = n ∧ n ≠ 0)).
Proof.
  revert bt bi. induction l as [|[t0 p0] l IH]; intros bt bi; simpl.
  - split; intros; setoid_rewrite elem_of_nil; naive_solver.
  - unfold sweep_entry at 2 4. simpl. destruct (Z.eqb_spec (en_reloadGen (entry_at p0 r)) (rg_reload r)) as [Hg|Hg].
    + destruct (IH bt bi) as [IH1 IH2]. split; intros; [rewrite IH1|rewrite IH2]; setoid_rewrite elem_of_cons;
        unfold sweep_stale_of in *; naive_solver.
    + destruct (IH (delete t0 bt) (forget_id (ni_NodeID (en_info (entry_at p0 r))) p0 bi)) as [IH1 IH2]. split; intros.
      * rewrite IH1, lookup_delete_Some. setoid_rewrite elem_of_cons. unfold sweep_stale_of in *. naive_solver.
      * rewrite IH2, lookup_forget_id. setoid_rewrite elem_of_cons. unfold sweep_stale_of, id_of in *. naive_solver.
Qed.

Lemma sweepStale_pruned r : index_ok r → pruned (λ p, en_reloadGen (entry_at p r) = rg_reload r) r (sweepStale r).
Proof.
  intros Hok. unfold sweepStale. pose proof (sweep_fold r (range (rg_byTag r)) (rg_byTag r) (rg_byID r)) as Hf.
  destruct (foldl _ _ _) as [bt bi]. destruct Hf as [Ht Hi]. split; simpl in *; try done.
  - intros t p. rewrite Ht. setoid_rewrite elem_of_range. split.
    + intros [Hp Hn]. split; [done|]. apply dec_stable. intros Hst. apply Hn. by exists p.
    + intros [Hp Hg]. split; [done|]. intros (q & Hq & Hst). simplify_eq. by apply Hst.
  - intros n p. rewrite Hi. setoid_rewrite elem_of_range. split.
    + intros [Hp Hn]. split; [done|]. apply dec_stable. intros Hst. apply Hn.
      destruct (io_id _ Hok _ _ Hp) as (? & ? & ?). eexists; split; [done|]. done.
    + intros [Hp Hg]. split; [done|]. intros (t & Hq & Hst & _). by apply Hst.
Qed.

(** ** Every sequence of operations keeps the indexes in agreement *)

(** What a handle, or the manager on its behalf, does to an entry. *)
Inductive entry_op :=
  | OpFailure (now : Z) (err destination : string)
  | OpSuccess (now : Z) (destination : string)
  | OpLatency (now latency : Z)
  | OpBlacklist (until : Z)
  | OpClearBlacklist
  | OpIncActive
  | OpDecActive
  | OpProbe (fn : option Z)
  | OpRelease (fn : option Z)
  | OpDialer (fn : option Z)
  | OpInitialCheck (available : bool)
  | OpAddTraffic (upload download : Z)
  | OpSetTraffic (upload download : Z)
  | OpRestore (now : Z) (s : PersistedHealthState)
  | OpRelocate (nodeID : Z) (region country : string)
  | OpProject (now : Z) (destination : string) (latency : Z) (err : option string) (checkedAt : Z)
  | OpReceipt (id : string) (at_ : Z).

Definition run_entry_op (op : entry_op) (e : entry) : entry :=
  match op with
  | OpFailure now err destination => recordFailure now err destination e
  | OpSuccess now destination => recordSuccess now destination e
  | OpLatency now latency => recordSuccessWithLatency now latency e
  | OpBlacklist until => blacklistUntil until e
  | OpClearBlacklist => clearBlacklist e
  | OpIncActive => incActive e
  | OpDecActive => decActive e
  | OpProbe fn => set_en_probe fn e
  | OpRelease fn => set_en_release fn e
  | OpDialer fn => set_en_dialer fn e
  | OpInitialCheck available => MarkInitialCheckDone available e
  | OpAddTraffic upload download => AddTraffic upload download e
  | OpSetTraffic upload download => SetTraffic upload download e
  | OpRestore now s => restore_entry now s e
  | OpRelocate nodeID region country => relocate nodeID region country e
  | OpProject now destination latency err checkedAt => project_entry now destination latency err checkedAt e
  | OpReceipt id at_ => set_en_receiptAt at_ (set_en_receiptID id e)
  end.

Lemma entry_op_identity op e :
  ni_Tag (en_info (run_entry_op op e)) = ni_Tag (en_info e) ∧
  ni_NodeID (en_info (run_entry_op op e)) = ni_NodeID (en_info e) ∧
  en_reloadGen (run_entry_op op e) = en_reloadGen e.
Proof.
  destruct op; simpl; unfold AddTraffic, relocate, restore_entry, project_entry; repeat case_match; done.
Qed.

Lemma update_entry_ok p op r : index_ok r → is_Some (rg_heap r !! p) → index_ok (update_entry p (run_entry_op op) r).
Proof.
  intros [Hnext Htag Hid Hgen] [e0 He0].
  assert (∀ q, ni_Tag (en_info (entry_at q (update_entry p (run_entry_op op) r))) = tag_of q r ∧
               ni_NodeID (en_info (entry_at q (update_entry p (run_entry_op op) r))) = id_of q r ∧
               en_reloadGen (entry_at q (update_entry p (run_entry_op op) r)) = en_reloadGen (entry_at q r)) as Hsame.
  { intros q. rewrite entry_at_update. case_decide as Hq; [|done]. rewrite Hq. apply entry_op_identity. }
  assert (∀ q, is_Some (rg_heap r !! q) → is_Some (rg_heap (update_entry p (run_entry_op op) r) !! q)) as Hsome.
  { intros q Hq. simpl. destruct (decide (q = p)) as [->|Hne]; [rewrite lookup_insert_eq; eauto|by rewrite lookup_insert_ne]. }
  split.
  - intros q e Hq. simpl in *. apply lookup_insert_Some in Hq as [[<- _]|[_ Hq]]; eauto.
  - intros t q Hq. destruct (Htag t q Hq) as [Hh <-]. split; [by apply Hsome|]. apply Hsame.
  - intros n q Hq. destruct (Hid n q Hq) as (Hn & <- & Ht). unfold id_of, tag_of.
    destruct (Hsame q) as (Ht' & Hi' & _). rewrite Ht', Hi'. done.
  - intros t q Hq. destruct (Hsame q) as (_ & _ & ->). by eapply Hgen.
Qed.

(** One operation. The generation is a uint64, which no process exhausts. *)
Inductive registry_step (r : nodeRegistry) : nodeRegistry → Prop :=
  | step_register i : registry_step r (register i r).2
  | step_migrate n i : registry_step r (migrate n i r).2
  | step_unregister tag : registry_step r (unregister tag r)
  | step_begin : rg_reload r < 2 ^ 64 - 1 → registry_step r (beginReload r)
  | step_sweep : registry_step r (sweepStale r)
  | step_clear : registry_step r (clear r)
  | step_entry p op : is_Some (rg_heap r !! p) → registry_step r (update_entry p (run_entry_op op) r).

Definition reachable_registry : nodeRegistry → Prop := rtc registry_step newNodeRegistry.

Lemma reachable_steps r r' : reachable_registry r → rtc registry_step r r' → reachable_registry r'.
Proof. unfold reachable_registry. by etrans. Qed.

Lemma beginReload_reload r : 0 ≤ rg_reload r < 2 ^ 64 - 1 → rg_reload (beginReload r) = rg_reload r + 1.
Proof. intros. unfold beginReload; simpl. apply Z.mod_small. lia. Qed.

Lemma beginReload_ok r : index_ok r → 0 ≤ rg_reload r < 2 ^ 64 - 1 → index_ok (beginReload r).
Proof.
  intros [Hnext Htag Hid Hgen] Hr. split; try done.
  intros t p Hp. rewrite beginReload_reload by done. specialize (Hgen t p Hp).
  change (entry_at p (beginReload r)) with (entry_at p r). lia.
Qed.

Lemma registry_step_ok r r' : registry_step r r' → index_ok r ∧ 0 ≤ rg_reload r → index_ok r' ∧ 0 ≤ rg_reload r'.
Proof.
  intros Hs [Hok Hr]. destruct Hs as [i|n i|tag|Hlt| | |p op Hp].
  - pose proof (register_placed i r Hok) as Hpl. split; [by eapply placed_ok|]. by rewrite (pl_reload _ _ _ _ Hpl).
  - destruct (migrate_placed n i r Hok) as [_ Hpl]. split; [by eapply placed_ok|]. by rewrite (pl_reload _ _ _ _ Hpl).
  - pose proof (unregister_pruned tag r Hok) as Hpr. split; [by eapply pruned_ok|]. by rewrite (pr_reload _ _ _ Hpr).
  - split; [by apply beginReload_ok|]. rewrite beginReload_reload; lia.
  - pose proof (sweepStale_pruned r Hok) as Hpr. split; [by eapply pruned_ok|]. by rewrite (pr_reload _ _ _ Hpr).
  - split; [|done]. eapply pruned_ok; [apply clear_pruned|done].
  - split; [by apply update_entry_ok|done].
Qed.

Lemma reachable_ok r : reachable_registry r → index_ok r ∧ 0 ≤ rg_reload r.
Proof.
  revert r. apply (rtc_ind_r (λ r, index_ok r ∧ 0 ≤ rg_reload r) newNodeRegistry).
  - split; [split; simpl; intros *; by rewrite lookup_empty|done].
  - eauto using registry_step_ok.
Qed.

(** In every reachable registry the two indexes and the entries agree: a tag is
    indexed by the one entry that carries it, and an id by a registered entry that
    carries it, so two tags, or two ids, never name one entry. *)
Theorem indexes_agree_with_entries r :
  reachable_registry r →
  (∀ t p, byTagEntry t r = Some p → tag_of p r = t) ∧
  (∀ n p, byNodeID n r = Some p → id_of p r = n ∧ byTagEntry (tag_of p r) r = Some p) ∧
  (∀ t1 t2 p, byTagEntry t1 r = Some p → byTagEntry t2 r = Some p → t1 = t2).
Proof.
  intros [Hok _]%reachable_ok. unfold byTagEntry, byNodeID. split_ands.
  - intros t p Hp. by apply (io_tag _ Hok).
  - intros n p. case_match; [done|]. intros Hp. by apply (io_id _ Hok) in Hp as (_ & ? & ?).
  - intros t1 t2 p [_ <-]%(io_tag _ Hok) [_ <-]%(io_tag _ Hok). done.
Qed.

(** ** A reload *)

(** [BeginReload], the migrations of the rebuilt outbounds, [SweepStaleNodes]. *)
Definition migrate_all (infos : list NodeInfo) (r : nodeRegistry) : nodeRegistry :=
  foldl (λ r i, (migrate (ni_NodeID i) i r).2) r infos.
Definition reload_nodes (infos : list NodeInfo) (r : nodeRegistry) : nodeRegistry :=
  sweepStale (migrate_all infos (beginReload r)).

(** The nodes of a reload: no tag twice, no id twice. *)
Definition stable_ids (infos : list NodeInfo) : list Z := filter (λ n, n ≠ 0) (ni_NodeID <$> infos).
Definition distinct_nodes (infos : list NodeInfo) : Prop := NoDup (ni_Tag <$> infos) ∧ NoDup (stable_ids infos).

(** During the reload: the migrated nodes, and only they, carry the new generation. *)
Record reloaded (done : list NodeInfo) (r : nodeRegistry) : Prop := {
  rl_ok : index_ok r;
  rl_nonneg : 0 ≤ rg_reload r;
  rl_in : ∀ i, i ∈ done → ∃ p, rg_byTag r !! ni_Tag i = Some p ∧ en_info (entry_at p r) = i ∧
            en_reloadGen (entry_at p r) = rg_reload r ∧ (ni_NodeID i ≠ 0 → rg_byID r !! ni_NodeID i = Some p);
  rl_only : ∀ t p, rg_byTag r !! t = Some p → en_reloadGen (entry_at p r) = rg_reload r → ∃ i, i ∈ done ∧ ni_Tag i = t
}.

Lemma reloaded_step done i r :
  reloaded done r → ni_Tag i ∉ ni_Tag <$> done → (ni_NodeID i ≠ 0 → ni_NodeID i ∉ ni_NodeID <$> done) →
  reloaded (done ++ [i]) (migrate (ni_NodeID i) i r).2.
Proof.
  intros [Hok Hr Hin Honly] Htag Hid.
  destruct (migrate_placed (ni_NodeID i) i r Hok) as [_ Hpl]. remember (migration_source (ni_NodeID i) i r) as p eqn:Hsrc.
  assert (∀ j q, j ∈ done → rg_byTag r !! ni_Tag j = Some q → en_info (entry_at q r) = j → q ≠ p) as Hfresh.
  { intros j q Hj Hq Hinfo ->. unfold migration_source in *. destruct (rg_byTag r !! ni_Tag i) as [p'|] eqn:Ht.
    - apply (io_tag _ Hok) in Ht as [_ Ht]. subst p'. unfold tag_of in Ht. rewrite Hinfo in Ht.
      apply Htag. rewrite <-Ht. by apply list_elem_of_fmap_2.
    - destruct (rg_byID r !! ni_NodeID i) as [p'|] eqn:Hi; simpl in *.
      + apply (io_id _ Hok) in Hi as (Hne & Hi & _). subst p'. unfold id_of in Hi. rewrite Hinfo in Hi.
        apply (Hid Hne). rewrite <-Hi. by apply list_elem_of_fmap_2.
      + subst p. by apply (index_ok_fresh r Hok) in Hq. }
  destruct (placed_at _ _ _ _ Hpl) as [Hpi Hpg]. split.
  - by eapply placed_ok.
  - by rewrite (pl_reload _ _ _ _ Hpl).
  - intros j [Hj|Hj%list_elem_of_singleton]%elem_of_app; rewrite (pl_reload _ _ _ _ Hpl).
    + destruct (Hin j Hj) as (q & Hq & Hinfo & Hgen & Hjid). exists q.
      pose proof (Hfresh j q Hj Hq Hinfo) as Hne. rewrite (placed_other _ _ _ _ Hpl q Hne).
      split_ands; [by apply (pl_tags _ _ _ _ Hpl)|done..|].
      intros Hj0. apply (pl_ids _ _ _ _ Hpl); [done|]. split; [by apply Hjid|].
      intros Heq. exfalso. rewrite Heq in Hj0. apply (Hid Hj0). rewrite <-Heq. by apply list_elem_of_fmap_2.
    + subst j. exists p. split_ands; [apply Hpl|done..|apply Hpl].
  - intros t q Hq. rewrite (pl_reload _ _ _ _ Hpl). destruct (decide (q = p)) as [->|Hne].
    + intros _. exists i. split; [apply elem_of_app; right; by apply list_elem_of_singleton|].
      symmetry. by eapply pl_own.
    + rewrite (placed_other _ _ _ _ Hpl q Hne). apply (pl_tags _ _ _ _ Hpl t q Hne) in Hq.
      intros Hg. destruct (Honly t q Hq Hg) as (j & Hj & Ht). exists j. split; [apply elem_of_app; by left|done].
Qed.

Lemma reloaded_fold done infos r :
  reloaded done r → distinct_nodes (done ++ infos) → reloaded (done ++ infos) (migrate_all infos r).
Proof.
  revert done r. induction infos as [|i infos IH]; intros done r Hre Hd; simpl; [by rewrite app_nil_r|].
  rewrite (cons_middle i done infos) in Hd |- *. rewrite (assoc_L (++)) in Hd |- *. apply IH; [|done].
  destruct Hd as [Ht Hi]. rewrite !fmap_app in Ht. unfold stable_ids in Hi. rewrite !fmap_app, !filter_app in Hi.
  apply NoDup_app in Ht as (Ht & _ & _). apply NoDup_app in Ht as (_ & Ht & _).
  apply NoDup_app in Hi as (Hi & _ & _). apply NoDup_app in Hi as (_ & Hi & _).
  apply reloaded_step; [done| |].
  - intros Hin. eapply Ht; [exact Hin|]. simpl. by apply list_elem_of_singleton.
  - intros Hne Hin. apply (Hi (ni_NodeID i)).
    + by apply list_elem_of_filter.
    + apply list_elem_of_filter. split; [done|]. simpl. by apply list_elem_of_singleton.
Qed.

(** C30: A reload leaves exactly the nodes it migrated: each is registered under its
    tag with its own description and resolves by its id, and no other tag and no
    other id resolves any more. *)
Theorem reload_leaves_exactly_the_migrated infos r :
  reachable_registry r → rg_reload r < 2 ^ 64 - 1 → distinct_nodes infos →
  (∀ i, i ∈ infos → ∃ p, byTagEntry (ni_Tag i) (reload_nodes infos r) = Some p ∧
      en_info (entry_at p (reload_nodes infos r)) = i ∧
      (ni_NodeID i ≠ 0 → byNodeID (ni_NodeID i) (reload_nodes infos r) = Some p)) ∧
  (∀ t, is_Some (byTagEntry t (reload_nodes infos r)) ↔ t ∈ ni_Tag <$> infos) ∧
  (∀ n, is_Some (byNodeID n (reload_nodes infos r)) ↔ n ∈ stable_ids infos).
Proof.
  intros [Hok Hr]%reachable_ok Hlt Hd.
  assert (reloaded [] (beginReload r)) as H0.
  { split; [by apply beginReload_ok|rewrite beginReload_reload; lia|by intros i ?%elem_of_nil|].
    intros t p Hp. rewrite beginReload_reload by lia. apply (io_gen _ Hok) in Hp.
    change (entry_at p (beginReload r)) with (entry_at p r). lia. }
  apply (reloaded_fold [] infos) in H0; [|done]. simpl in H0. unfold reload_nodes.
  destruct H0 as [Hok1 _ Hin Honly]. set (r1 := migrate_all infos (beginReload r)) in *.
  pose proof (sweepStale_pruned r1 Hok1) as Hpr. set (r2 := sweepStale r1) in *.
  assert (∀ p, entry_at p r2 = entry_at p r1) as Hat by (intros p; unfold entry_at; by rewrite (pr_heap _ _ _ Hpr)).
  assert (∀ i, i ∈ infos → ∃ p, rg_byTag r2 !! ni_Tag i = Some p ∧ en_info (entry_at p r2) = i ∧
      (ni_NodeID i ≠ 0 → rg_byID r2 !! ni_NodeID i = Some p)) as Hmain.
  { intros i Hi. destruct (Hin i Hi) as (p & Hp & Hinfo & Hg & Hid). exists p. rewrite Hat.
    split_ands; [by apply (pr_tag _ _ _ Hpr)|done|]. intros Hne. apply (pr_id _ _ _ Hpr). auto. }
  unfold byTagEntry, byNodeID. split_ands.
  - intros i Hi. destruct (Hmain i Hi) as (p & Hp & Hinfo & Hid). exists p. split_ands; [done..|].
    intros Hne. rewrite (proj2 (Z.eqb_neq _ _) Hne). auto.
  - intros t. rewrite list_elem_of_fmap. split.
    + intros [p Hp]. apply (pr_tag _ _ _ Hpr) in Hp as [Hp Hg]. destruct (Honly t p Hp Hg) as (i & Hi & <-). eauto.
    + intros (i & -> & Hi). destruct (Hmain i Hi) as (p & Hp & _). eauto.
  - intros n. unfold stable_ids. rewrite list_elem_of_filter, list_elem_of_fmap. split.
    + intros [p Hp]. destruct (Z.eqb_spec n 0) as [|Hne]; [done|]. split; [done|].
      apply (pr_id _ _ _ Hpr) in Hp as [Hp Hg]. destruct (io_id _ Hok1 _ _ Hp) as (_ & Hid & Ht).
      destruct (Honly _ p Ht Hg) as (i & Hi & Hti). destruct (Hin i Hi) as (q & Hq & Hinfo & _).
      rewrite Hti in Hq. unfold id_of in Hid. rewrite Ht in Hq. simplify_eq. eauto.
    + intros (Hne & i & -> & Hi). destruct (Hmain i Hi) as (p & _ & _ & Hid).
      rewrite (proj2 (Z.eqb_neq _ _) Hne). eauto.
Qed.
End operations.

(** ** Example: two nodes, one of which is moved, one removed, and a third added *)
Module ReloadExample.
Definition order := LinkRoundTrip.LinkExample.order.
Definition libs := LinkRoundTrip.LinkExample.libraries.
Definition node (n : Z) (tag : string) : NodeInfo := mkInfo n tag tag "http://h:1" "pool" "" 0 "" "".
Definition nodes : list NodeInfo := [node 1 "a"; node 2 "b"].
Definition after_reload : list NodeInfo := [node 1 "a2"; node 0 "c"].
Definition start : nodeRegistry := (@migrate order libs 2 (node 2 "b") (register (node 1 "a") newNodeRegistry).2).2.

Lemma start_reachable : @reachable_registry order libs start.
Proof. eapply rtc_l; [apply (@step_register order libs _ (node 1 "a"))|]. eapply rtc_l; [apply (@step_migrate order libs _ 2 (node 2 "b"))|done]. Qed.

Lemma agree_witness :
  byTagEntry "a" start = Some 1 ∧ tag_of 1 start = "a" ∧ byNodeID 2 start = Some 2 ∧ byTagEntry (tag_of 2 start) start = Some 2.
Proof.
  destruct (@indexes_agree_with_entries order libs start start_reachable) as (Htag & Hid & _).
  assert (byTagEntry "a" start = Some 1) as Ha by (vm_compute; reflexivity).
  assert (byNodeID 2 start = Some 2) as Hb by (vm_compute; reflexivity).
  split_ands; [exact Ha|exact (Htag _ _ Ha)|exact Hb|exact (proj2 (Hid _ _ Hb))].
Defined.

Lemma reload_witness :
  ∃ p, byTagEntry "a2" (@reload_nodes order libs after_reload start) = Some p ∧ byNodeID 1 (@reload_nodes order libs after_reload start) = Some p ∧
       byTagEntry "b" (@reload_nodes order libs after_reload start) = None.
Proof.
  destruct (@reload_leaves_exactly_the_migrated order libs after_reload start start_reachable) as (Hin & Ht & _);
    [reflexivity|split; apply (bool_decide_unpack _); vm_compute; exact I|].
  destruct (Hin (node 1 "a2")) as (p & Hp & _ & Hid); [left|]. exists p. split_ands; [exact Hp|apply Hid; discriminate|].
  apply eq_None_not_Some. rewrite (Ht "b"). apply (bool_decide_unpack _). vm_compute. exact I.
Defined.
End ReloadExample.
