(* ===== verification/MonitorHealth.v ===== *)
(** What the monitor's entries promise: committed results are projected once and in
    any order, a replaced outbound must prove itself again, the timeline holds the
    last events, and who may be routed to. *)
From S2P Require Import Prelude Text Floats NetIP NetURL NodeCodec MonitorRegistry MonitorReload.
From S2P Require NodeLocation ProbeApplier LinkRoundTrip.

#[local] Open Scope Z_scope.

(** ** The timeline *)
Lemma appendTimeline_last ev e :
  (length (en_timeline e) ≤ maxTimelineSize)%nat →
  en_timeline (appendTimeline ev e) =
    drop (length (en_timeline e ++ [ev]) - maxTimelineSize) (en_timeline e ++ [ev]).
Proof.
  intros Hlen. unfold appendTimeline. rewrite length_app; simpl. case_decide as Hfull.
  - replace (length (en_timeline e) + 1 - maxTimelineSize)%nat with 1%nat by lia.
    destruct (en_timeline e); [unfold maxTimelineSize in Hfull; simpl in Hfull; lia|done].
  - replace (length (en_timeline e) + 1 - maxTimelineSize)%nat with 0%nat by lia. done.
Qed.

Lemma drop_last_app {A} (k : nat) (l l' : list A) :
  drop (length (drop (length l - k) l ++ l') - k) (drop (length l - k) l ++ l') = drop (length (l ++ l') - k) (l ++ l').
Proof.
  rewrite !length_app, length_drop.
  destruct (decide (length l ≤ k)%nat) as [Hle|Hgt].
  - replace (length l - k)%nat with 0%nat by lia. rewrite drop_0. f_equal. lia.
  - pose proof (take_drop (length l - k) l) as Hl. pose proof (length_take l (length l - k)) as Ht.
    pose proof (length_drop l (length l - k)) as Hd.
    remember (take (length l - k) l) as front. remember (drop (length l - k) l) as back. clear Heqfront Heqback.
    rewrite <-Hl at 4. rewrite <-(assoc_L (++)), (drop_app front), (drop_ge front) by lia. simpl. f_equal. lia.
Qed.

(** However many events an entry records, its timeline is the last twenty of
    them, in the order they were recorded. *)
Theorem timeline_is_the_recent_events evs e :
  (length (en_timeline e) ≤ maxTimelineSize)%nat →
  let all := en_timeline e ++ evs in
  en_timeline (foldl (λ e ev, appendTimeline ev e) e evs) = drop (length all - maxTimelineSize) all.
Proof.
  revert e. induction evs as [|ev evs IH]; intros e Hlen; simpl.
  - rewrite app_nil_r. replace (length (en_timeline e) - maxTimelineSize)%nat with 0%nat by lia. done.
  - assert (length (en_timeline (appendTimeline ev e)) ≤ maxTimelineSize)%nat as Hlen'.
    { rewrite appendTimeline_last by done. rewrite length_drop. lia. }
    rewrite (IH _ Hlen'), (appendTimeline_last ev e Hlen). rewrite drop_last_app. by rewrite <-(assoc_L (++)).
Qed.

(** ** Replaced outbounds *)

(** What a replacement never touches. *)
Definition history (e : entry) :=
  (en_timeline e, en_active e, en_totalUpload e, en_totalDownload e, (en_receiptID e, en_receiptAt e),
   (en_probe e, en_release e, en_dialer e)).
(** What belongs to one connection. *)
Definition verdict (e : entry) :=
  (en_failure e, en_success e, en_blacklist e, en_until e, en_lastError e, en_lastFail e, en_lastOK e, en_lastProbe e).

Section replace.
Context `{RS : !RangeOrder string, CL : !CodecLibraries}.

Lemma migrate_entry_at n i r p :
  index_ok r → byTagEntry (ni_Tag i) r = None → byNodeID n r = Some p →
  migrate n i r = (p, (migrate n i r).2) ∧
  entry_at p (migrate n i r).2 = migrate_entry (tag_of p r) i (rg_reload r) (entry_at p r) ∧
  rg_byTag (migrate n i r).2 = <[ni_Tag i := p]> (delete (tag_of p r) (rg_byTag r)).
Proof.
  intros Hok Htag Hid. unfold byTagEntry, byNodeID in *. destruct (n =? 0); [done|].
  unfold migrate. rewrite Htag, Hid. simpl. split_ands; [done| |done].
  unfold place. rewrite entry_at_index, entry_at_update, decide_True by done. done.
Qed.

(** A node moved to a new tag keeps its entry and its history, and leaves its old
    tag; its availability must be proved again. Its verdict (counters, blacklist, last
    error and latency) survives exactly when the link describes the same connection. So
    it is routed to only provisionally, under the optimistic policy, unless blacklisted. *)
Theorem migration_keeps_the_history n i r p policy :
  reachable_registry r → byTagEntry (ni_Tag i) r = None → byNodeID n r = Some p → tag_of p r ≠ "" →
  let e := entry_at p r in
  let r' := (migrate n i r).2 in
  let e' := entry_at p r' in
  (migrate n i r).1 = p ∧ byTagEntry (ni_Tag i) r' = Some p ∧ byTagEntry (tag_of p r) r' = None ∧
  en_info e' = i ∧ history e' = history e ∧ en_initialCheckDone e' = false ∧ en_available e' = false ∧
  verdict e' = (if identityChanged (ni_URI (en_info e)) (ni_URI i)
                then (0, 0, false, GoTime.zero, "", GoTime.zero, GoTime.zero, 0) else verdict e) ∧
  sn_RoutingEligible (decorateSnapshot policy (snapshot e')) =
    bool_decide (policy = StartupAvailabilityOptimistic) && negb (en_blacklist e').
Proof.
  intros [Hok _]%reachable_ok Htag Hid Hne.
  destruct (migrate_entry_at n i r p Hok Htag Hid) as (Hp & He & Hbt).
  assert (tag_of p r ≠ ni_Tag i) as Hdiff.
  { intros Heq. unfold byNodeID in Hid. destruct (n =? 0); [done|].
    apply (io_id _ Hok) in Hid as (_ & _ & Hin). unfold byTagEntry in Htag. congruence. }
  cbv zeta. set (r' := (migrate n i r).2) in *. rewrite Hp. unfold byTagEntry. rewrite Hbt, He.
  rewrite lookup_insert_eq, lookup_insert_ne, lookup_delete_eq by done. clearbody r'. clear Hp He Hbt.
  unfold migrate_entry. rewrite !bool_decide_eq_false_2 by done. simpl.
  unfold await_check, forget_health. generalize (entry_at p r). intros e.
  destruct (identityChanged _ _); case_decide; split_ands; try done; simpl; by destruct (bool_decide _), (en_blacklist _).
Qed.

(** ** Committed results *)
Implicit Type (out : ProbeApplier.Outcome) (r : nodeRegistry).

Definition checked_at out : Z := NodeLocation.ob_CheckedAt (ProbeApplier.r_Observation (ProbeApplier.out_Event out)).
Definition started_at out : Z := NodeLocation.ob_StartedAt (ProbeApplier.r_Observation (ProbeApplier.out_Event out)).

(** A health result of the node's current generation. *)
Definition concerns (epoch : Z) (tag : string) (n : Z) out : Prop :=
  match ProbeApplier.r_Health (ProbeApplier.out_Event out) with
  | Some h => ProbeApplier.hr_Tag h = tag ∧ ProbeApplier.r_NodeID (ProbeApplier.out_Event out) = n ∧ epoch ≤ started_at out
  | None => False
  end.
#[export] Instance concerns_dec epoch tag n out : Decision (concerns epoch tag n out).
Proof. unfold concerns. destruct (ProbeApplier.r_Health _); apply _. Defined.

Definition health_projection out : Prop :=
  ProbeApplier.r_Kind (ProbeApplier.out_Event out) = ProbeApplier.Health ∧
  ProbeApplier.r_Origin (ProbeApplier.out_Event out) = ProbeApplier.HealthProbe ∧
  is_Some (ProbeApplier.r_Health (ProbeApplier.out_Event out)).

(** The result an entry has not seen and that is newer than all it has seen. *)
Definition news out (e : entry) : Prop := ProbeApplier.out_ReceiptID out ≠ en_receiptID e ∧ en_receiptAt e < checked_at out.
#[export] Instance news_dec out e : Decision (news out e).
Proof. unfold news. apply _. Defined.

Definition apply_news (now : Z) (destination : string) (e : entry) out : entry :=
  match ProbeApplier.r_Health (ProbeApplier.out_Event out) with
  | Some h =>
    let at_ := if GoTime.isZero (checked_at out) then now else checked_at out in
    set_en_receiptAt (checked_at out) (set_en_receiptID (ProbeApplier.out_ReceiptID out)
      (project_entry now destination (ProbeApplier.hr_Latency h)
         (if ProbeApplier.hr_Success h then None else Some (ProbeApplier.hr_Error h)) at_ e))
  | None => e
  end.

(** Same indexes, and every entry keeps its place in them. *)
Definition same_index r r' : Prop :=
  rg_byTag r' = rg_byTag r ∧ rg_byID r' = rg_byID r ∧ ∀ q, tag_of q r' = tag_of q r ∧ id_of q r' = id_of q r.

#[local] Instance same_index_refl : Reflexive same_index.
Proof. done. Qed.
#[local] Instance same_index_trans : Transitive same_index.
Proof. intros r1 r2 r3 (? & ? & H1) (? & ? & H2). unfold same_index. split_ands; [congruence..|]. intros q. destruct (H1 q), (H2 q). split; congruence. Qed.

Lemma same_index_ops p op1 op2 r : same_index r (update_entry p (run_entry_op op2) (update_entry p (run_entry_op op1) r)).
Proof.
  unfold same_index. split_ands; [done..|]. intros q. unfold tag_of, id_of. rewrite !entry_at_update. rewrite (decide_True (P := p = p)) by done.
  case_decide as Hq; [|done]. rewrite Hq.
  destruct (entry_op_identity op2 (run_entry_op op1 (entry_at p r))) as (-> & -> & _).
  destruct (entry_op_identity op1 (entry_at p r)) as (-> & -> & _). done.
Qed.

(** The projection of a well-formed result: what it does to any entry that is
    registered under an id. *)
Definition projected epoch now destination out r (out_state : nodeRegistry * list HealthResultEvent) : Prop :=
  rtc registry_step r out_state.1 ∧ same_index r out_state.1 ∧
  (out_state = (r, []) ∨ ∃ n p, byNodeID n r = Some p ∧ concerns epoch (tag_of p r) n out ∧ news out (entry_at p r)) ∧
  ∀ n p, byNodeID n r = Some p →
    (concerns epoch (tag_of p r) n out ∧ news out (entry_at p r) →
       entry_at p out_state.1 = apply_news now destination (entry_at p r) out ∧ length out_state.2 = 1%nat) ∧
    (¬ (concerns epoch (tag_of p r) n out ∧ news out (entry_at p r)) → entry_at p out_state.1 = entry_at p r).

Lemma not_projected epoch now destination out r :
  (∀ n p, byNodeID n r = Some p → ¬ (concerns epoch (tag_of p r) n out ∧ news out (entry_at p r))) →
  projected epoch now destination out r (r, []).
Proof. intros Hn. unfold projected. split_ands; [done..|by left|]. intros n p Hp. split; [by intros ?%(Hn n p)|done]. Qed.

Lemma byNodeID_registered n p r : index_ok r → byNodeID n r = Some p → id_of p r = n ∧ rg_byTag r !! tag_of p r = Some p.
Proof. intros Hok. unfold byNodeID. destruct (n =? 0); [done|]. by intros (_ & ? & ?)%(io_id _ Hok). Qed.

Lemma project_effect epoch now destination out r :
  index_ok r → health_projection out →
  ∃ st, ProjectHealthOutcome epoch now destination out r = Ok st ∧ projected epoch now destination out r st.
Proof.
  intros Hok (Hk & Ho & [h Hh]). unfold ProjectHealthOutcome. rewrite Hh, !bool_decide_eq_true_2 by done. simpl.
  assert (∀ tag n, concerns epoch tag n out ↔
    ProbeApplier.hr_Tag h = tag ∧ ProbeApplier.r_NodeID (ProbeApplier.out_Event out) = n ∧ epoch ≤ started_at out) as Hc
    by (intros; unfold concerns; by rewrite Hh).
  unfold GoTime.before, byTagEntry, GoTime.after. fold (started_at out) (checked_at out). case_bool_decide as Hepoch.
  { eexists. split; [done|]. apply not_projected. intros n p _ [(_ & _ & ?)%Hc _]. lia. }
  destruct (rg_byTag r !! ProbeApplier.hr_Tag h) as [q|] eqn:Hq.
  2:{ eexists. split; [done|]. apply not_projected. intros n p (_ & Hp)%byNodeID_registered [(Ht & _)%Hc _]; [congruence|done]. }
  assert (∀ n p, byNodeID n r = Some p → concerns epoch (tag_of p r) n out →
            p = q ∧ n = ProbeApplier.r_NodeID (ProbeApplier.out_Event out)) as Hsame.
  { intros n p (_ & Hp)%byNodeID_registered (Ht & Hn & _)%Hc; [|done]. split; congruence. }
  pose proof (proj2 (io_tag _ Hok _ _ Hq)) as Hqt. unfold tag_of in Hqt. rewrite Hqt.
  rewrite (bool_decide_eq_true_2 (ProbeApplier.hr_Tag h = _)) by done.
  case_bool_decide as Hnode; simpl.
  2:{ eexists. split; [done|]. apply not_projected. intros n p Hp [Hcon _]. destruct (Hsame n p Hp Hcon) as [-> ->]. done. }
  destruct (byNodeID_registered _ _ _ Hok Hnode) as [Hnd _]. unfold id_of in Hnd. rewrite Hnd, Z.eqb_refl. simpl.
  case_bool_decide as Hrec; simpl.
  { eexists. split; [done|]. apply not_projected. intros n p Hp [Hcon [Hn _]]. by destruct (Hsame n p Hp Hcon) as [-> _]. }
  case_bool_decide as Hnew; simpl.
  2:{ eexists. split; [done|]. apply not_projected. intros n p Hp [Hcon [_ Hn]]. by destruct (Hsame n p Hp Hcon) as [-> _]. }
  set (err := if ProbeApplier.hr_Success h then _ else _). set (at_ := if GoTime.isZero _ then _ else _).
  assert (concerns epoch (tag_of q r) (ProbeApplier.r_NodeID (ProbeApplier.out_Event out)) out ∧ news out (entry_at q r)) as Hmine.
  { split; [apply Hc; split_ands; [by rewrite <-Hqt|done|lia]|done]. }
  assert (is_Some (rg_heap r !! q)) as Hsome by (by destruct (io_tag _ Hok _ _ Hq)).
  eexists. split; [done|]. unfold projected. split_ands; simpl.
  - eapply rtc_l; [apply (step_entry r q (OpProject now destination (ProbeApplier.hr_Latency h) err at_)), Hsome|].
    eapply rtc_l; [|done]. apply (step_entry _ q (OpReceipt (ProbeApplier.out_ReceiptID out) (checked_at out))).
    simpl. rewrite lookup_insert_eq. eauto.
  - apply (same_index_ops q (OpProject now destination (ProbeApplier.hr_Latency h) err at_)
             (OpReceipt (ProbeApplier.out_ReceiptID out) (checked_at out))).
  - right. eauto.
  - intros n p Hp. rewrite !entry_at_update. rewrite (decide_True (P := q = q)) by done. split.
    + intros [Hcon _]. destruct (Hsame n p Hp Hcon) as [-> _]. rewrite decide_True by done.
      split; [|done]. unfold apply_news. by rewrite Hh.
    + intros Hnot. rewrite !(decide_False (P := p = q)); [done|intros ->..].
      all: apply Hnot; destruct (byNodeID_registered _ _ _ Hok Hp) as [<- _];
        destruct (byNodeID_registered _ _ _ Hok Hnode) as [Heq _]; by rewrite Heq.
Qed.

(** Projecting a committed result a second time, at any later moment, publishes
    nothing and changes nothing. *)
Theorem projection_is_idempotent epoch now now' destination out r r' evs :
  reachable_registry r → health_projection out →
  ProjectHealthOutcome epoch now destination out r = Ok (r', evs) →
  ProjectHealthOutcome epoch now' destination out r' = Ok (r', []).
Proof.
  intros Hr Hout H1. destruct (project_effect epoch now destination out r (proj1 (reachable_ok _ Hr)) Hout) as (st & Hst & Hpr).
  rewrite H1 in Hst. injection Hst as <-. destruct Hpr as (Hsteps & (Ht & Hi & Hsame) & _ & Hent). simpl in *.
  assert (index_ok r') as Hok' by (apply reachable_ok; by eapply reachable_steps).
  destruct (project_effect epoch now' destination out r' Hok' Hout) as (st & -> & (_ & _ & [->|(n & p & Hp & Hcon & Hnew)] & _)); [done|].
  exfalso. destruct (Hsame p) as [Htag _]. rewrite Htag in Hcon. unfold byNodeID in *. rewrite Hi in Hp.
  destruct (Hent n p Hp) as [Hyes Hno]. destruct (decide (news out (entry_at p r))) as [Hn|Hn].
  - destruct (Hyes (conj Hcon Hn)) as [He _]. destruct Hnew as [Hrec _]. rewrite He in Hrec.
    destruct Hout as (_ & _ & [h Hh]). unfold apply_news in Hrec. by rewrite Hh in Hrec.
  - rewrite Hno in Hnew by naive_solver. done.
Qed.

(** A batch of results, each with the clock of its projection. *)
Fixpoint project_all (epoch : Z) (destination : string) (outs : list (Z * ProbeApplier.Outcome)) r
    : result (nodeRegistry * list HealthResultEvent) :=
  match outs with
  | [] => Ok (r, [])
  | (now, out) :: outs =>
    let? (r, evs) := ProjectHealthOutcome epoch now destination out r in
    let? (r, more) := project_all epoch destination outs r in Ok (r, evs ++ more)
  end.

(** The same for one entry. *)
Definition entry_news (epoch : Z) (destination tag : string) (n : Z) (e : entry) (o : Z * ProbeApplier.Outcome) : entry :=
  if decide (concerns epoch tag n o.2 ∧ news o.2 e) then apply_news o.1 destination e o.2 else e.

Lemma project_all_entry epoch destination outs r n p :
  reachable_registry r → (∀ o, o ∈ outs.*2 → health_projection o) → byNodeID n r = Some p →
  ∃ r' evs, project_all epoch destination outs r = Ok (r', evs) ∧
    entry_at p r' = foldl (entry_news epoch destination (tag_of p r) n) (entry_at p r) outs.
Proof.
  revert r. induction outs as [|[now out] outs IH]; intros r Hr Hall Hp; simpl; [eauto|].
  destruct (project_effect epoch now destination out r (proj1 (reachable_ok _ Hr)) (Hall out ltac:(simpl; left)))
    as ([r1 evs1] & -> & (Hsteps & (Ht & Hi & Hsame) & _ & Hent)). simpl in *.
  destruct (IH r1) as (r' & evs & -> & He); [by eapply reachable_steps|intros o Ho; apply Hall; by right|unfold byNodeID in *; by rewrite Hi|].
  simpl. eexists _, _. split; [done|]. rewrite He, (proj1 (Hsame p)). f_equal.
  destruct (Hent n p Hp) as [Hyes Hno]. unfold entry_news; simpl. case_decide as Hd; [by apply Hyes|by apply Hno].
Qed.

(** The health an entry shows, and the health a result reports. *)
Definition status (e : entry) :=
  (en_initialCheckDone e, en_available e, en_lastProbe e, en_lastHealthCheck e, en_healthSource e, en_healthUpdatedAt e,
   (en_receiptID e, en_receiptAt e)).
Definition reported out :=
  match ProbeApplier.r_Health (ProbeApplier.out_Event out) with
  | Some h => (true, ProbeApplier.hr_Success h, (if ProbeApplier.hr_Success h then ProbeApplier.hr_Latency h else 0), checked_at out,
               "runtime", checked_at out, (ProbeApplier.out_ReceiptID out, checked_at out))
  | None => (true, false, 0, 0, "", 0, ("", 0))
  end.

(** [e], once [e0], shows the newest of [outs] it did not know, or what it showed before. *)
Definition newest epoch tag n (e0 : entry) (outs : list ProbeApplier.Outcome) (e : entry) : Prop :=
  (status e = status e0 ∧ ∀ o, o ∈ outs → concerns epoch tag n o → checked_at o ≤ en_receiptAt e0) ∨
  (∃ o, o ∈ outs ∧ concerns epoch tag n o ∧ en_receiptAt e0 < checked_at o ∧ status e = reported o ∧
     ∀ o', o' ∈ outs → concerns epoch tag n o' → checked_at o' ≤ checked_at o).

Lemma apply_news_status now destination e out :
  health_projection out → 0 < checked_at out → status (apply_news now destination e out) = reported out.
Proof.
  intros (_ & _ & [h Hh]) Hpos. unfold apply_news, reported. rewrite Hh. unfold GoTime.isZero, GoTime.zero.
  rewrite bool_decide_eq_false_2 by lia. by destruct (ProbeApplier.hr_Success h).
Qed.

Lemma status_reported e o : health_projection o → status e = reported o →
  en_receiptID e = ProbeApplier.out_ReceiptID o ∧ en_receiptAt e = checked_at o.
Proof. intros (_ & _ & [h Hh]). unfold status, reported. rewrite Hh. intros ?. split; congruence. Qed.

Lemma newest_fold epoch destination tag n e0 outs :
  0 ≤ en_receiptAt e0 → (∀ o, o ∈ outs.*2 → health_projection o) →
  NoDup (en_receiptID e0 :: (ProbeApplier.out_ReceiptID <$> outs.*2)) →
  newest epoch tag n e0 outs.*2 (foldl (entry_news epoch destination tag n) e0 outs).
Proof.
  intros H0. induction outs as [|[now out] outs IH] using rev_ind; intros Hall Hnd.
  { left. split; [done|]. by intros o ?%elem_of_nil. }
  rewrite foldl_snoc. rewrite !fmap_app in *. simpl in *.
  rewrite app_comm_cons in Hnd. apply NoDup_app in Hnd as (Hnd & Hfresh & _).
  specialize (IH (λ o Ho, Hall o (proj2 (elem_of_app _ _ _) (or_introl Ho))) Hnd).
  set (e := foldl _ e0 outs) in *. unfold entry_news; simpl.
  assert (ProbeApplier.out_ReceiptID out ≠ en_receiptID e) as Hid.
  { intros Heq. apply (Hfresh (en_receiptID e)); [|rewrite Heq; apply list_elem_of_singleton; done].
    destruct IH as [[Hst _]|(o & Ho & _ & _ & Hst & _)].
    - unfold status in Hst. assert (en_receiptID e = en_receiptID e0) as -> by congruence. by left.
    - right. apply status_reported in Hst as [-> _]; [by apply list_elem_of_fmap_2|set_solver]. }
  assert (en_receiptAt e0 ≤ en_receiptAt e ∧
          ∀ o, o ∈ outs.*2 → concerns epoch tag n o → checked_at o ≤ en_receiptAt e) as [Hge Hmax].
  { destruct IH as [[Hst Hle]|(o & Ho & _ & Hlt & Hst & Hle)].
    - unfold status in Hst. assert (en_receiptAt e = en_receiptAt e0) as -> by congruence. done.
    - apply status_reported in Hst as [_ ->]; [split; [lia|done]|set_solver]. }
  case_decide as Hd.
  - destruct Hd as [Hcon [_ Hnew]]. right. exists out. rewrite apply_news_status by (try apply Hall; try lia; set_solver).
    split_ands; [set_solver|done|lia|done|].
    intros o' [Ho'| ->%list_elem_of_singleton]%elem_of_app Hc'; [specialize (Hmax o' Ho' Hc'); lia|lia].
  - assert (concerns epoch tag n out → checked_at out ≤ en_receiptAt e) as Hold.
    { intros Hcon. unfold news in Hd. destruct (decide (en_receiptAt e < checked_at out)); [naive_solver|lia]. }
    destruct IH as [[Hst Hle]|(o & Ho & Hc & Hlt & Hst & Hle)]; [left|right].
    + split; [done|]. assert (en_receiptAt e = en_receiptAt e0) as Heq by (unfold status in Hst; congruence).
      intros o [Ho| ->%list_elem_of_singleton]%elem_of_app Hc; [auto|]. specialize (Hold Hc). lia.
    + exists o. pose proof (status_reported e o ltac:(set_solver) Hst) as [_ Heq]. split_ands; [set_solver|done..|].
      intros o' [Ho'| ->%list_elem_of_singleton]%elem_of_app Hc'; [auto|]. specialize (Hold Hc'). lia.
Qed.

(** C29: Committed health results may be projected in any order and repeatedly mixed
    with results of other nodes: a registered node ends up showing the newest result
    of its current tag it had not seen, or, if there is none, what it showed before. *)
Theorem projections_converge_to_the_newest epoch destination outs r n p :
  reachable_registry r → byNodeID n r = Some p → 0 ≤ en_receiptAt (entry_at p r) →
  (∀ o, o ∈ outs.*2 → health_projection o) →
  NoDup (en_receiptID (entry_at p r) :: (ProbeApplier.out_ReceiptID <$> outs.*2)) →
  ∃ r' evs, project_all epoch destination outs r = Ok (r', evs) ∧
    newest epoch (tag_of p r) n (entry_at p r) outs.*2 (entry_at p r').
Proof.
  intros Hr Hp H0 Hall Hnd. destruct (project_all_entry epoch destination outs r n p Hr Hall Hp) as (r' & evs & Hrun & He).
  exists r', evs. split; [done|]. rewrite He. by apply newest_fold.
Qed.
End replace.

(** ** Example: a node that is moved, then probed twice, out of order *)
Module HealthExample.
Definition order := ReloadExample.order.
Definition libs := ReloadExample.libs.
Definition start := ReloadExample.start.

Definition result_of (id tag : string) (n : Z) (success : bool) (checked : Z) : ProbeApplier.Outcome :=
  ProbeApplier.mkOutcome id
    (ProbeApplier.mkResult n ProbeApplier.Health ProbeApplier.HealthProbe
       (NodeLocation.mkObservation (NodeLocation.mkToken "" 0) id 50 checked "" "" success "" "")
       None None None (Some (ProbeApplier.mkHealthResult tag success 7 (if success then "" else "timeout"))))
    true "" ProbeApplier.no_change 1.
Definition late : ProbeApplier.Outcome := result_of "r2" "a" 1 true 200.
Definition early : ProbeApplier.Outcome := result_of "r1" "a" 1 false 100.
Definition other : ProbeApplier.Outcome := result_of "r3" "b" 2 false 300.

Lemma projection_ok id tag n success checked : health_projection (result_of id tag n success checked).
Proof. split; [reflexivity|split; [reflexivity|eexists; reflexivity]]. Qed.

Lemma timeline_witness :
  en_timeline (foldl (λ e ev, appendTimeline ev e) (new_entry (ReloadExample.node 1 "a") 0)
                 ((λ n : nat, mkEvent (Z.of_nat n) true 0 "" "") <$> seq 0 25))
  = (λ n : nat, mkEvent (Z.of_nat n) true 0 "" "") <$> seq 5 20.
Proof. rewrite timeline_is_the_recent_events; [reflexivity|apply le_0_n]. Defined.

Lemma migration_witness :
  let r' := (@migrate order libs 1 (ReloadExample.node 1 "a2") start).2 in
  byTagEntry "a2" r' = Some 1 ∧ byTagEntry "a" r' = None ∧ en_available (entry_at 1 r') = false.
Proof.
  assert (byNodeID 1 start = Some 1) as Hp by (vm_compute; reflexivity).
  assert (byTagEntry "a2" start = None) as Ht by (vm_compute; reflexivity).
  assert (tag_of 1 start ≠ "") as Hne by (vm_compute; discriminate).
  destruct (@migration_keeps_the_history order libs 1 (ReloadExample.node 1 "a2") start 1 StartupAvailabilityStrict
              ReloadExample.start_reachable Ht Hp Hne) as (_ & H1 & H2 & _ & _ & _ & H3 & _).
  intros r'; split_ands; [exact H1|exact H2|exact H3].
Defined.

Lemma idempotent_witness :
  ∃ r', ProjectHealthOutcome 10 250 "probe" late start = Ok (r', [mkResultEvent "a" 1 true 7 "" "r2" 1 200]) ∧
        ProjectHealthOutcome 10 999 "probe" late r' = Ok (r', []).
Proof.
  destruct (ProjectHealthOutcome 10 250 "probe" late start) as [[r' evs]|] eqn:H; [|vm_compute in H; discriminate H].
  exists r'. split.
  - f_equal. f_equal. assert (match ProjectHealthOutcome 10 250 "probe" late start with Ok (_, evs) => evs | Err _ => [] end =
      [mkResultEvent "a" 1 true 7 "" "r2" 1 200]) as He by (vm_compute; reflexivity). rewrite H in He. exact He.
  - exact (@projection_is_idempotent order libs 10 250 999 "probe" late start r' evs
             ReloadExample.start_reachable (projection_ok _ _ _ _ _) H).
Defined.

Lemma converge_witness :
  ∃ r' evs, project_all 10 "probe" [(250, late); (310, other); (320, early)] start = Ok (r', evs) ∧
    newest 10 "a" 1 (entry_at 1 start) [late; other; early] (entry_at 1 r').
Proof.
  apply (@projections_converge_to_the_newest order libs 10 "probe" [(250, late); (310, other); (320, early)] start 1 1 ReloadExample.start_reachable).
  - vm_compute. reflexivity.
  - vm_compute. discriminate.
  - intros o Ho.
    repeat (apply elem_of_cons in Ho as [->|Ho]; [apply projection_ok|]). by apply elem_of_nil in Ho.
  - apply (bool_decide_unpack _). vm_compute. exact I.
Defined.
End HealthExample.
