(* ===== verification/ProbeSchedule.v ===== *)
(** When the monitor probes which node ([internal/monitor/manager.go]): the probe
    policy, the schedules of the groups, the next due probe, and the probe target.

    Durations are int64 nanoseconds; the schedules are locked by one mutex, so a
    registration, its removal and a snapshot are steps. The order in which the maps of
    groups and the sets of their nodes are walked is that of [RangeOrder]; the result
    does not depend on it. *)
From S2P Require Import Prelude Text Floats NetIP NetURL NodeCodec MonitorRegistry.

#[local] Open Scope Z_scope.

(** ** The policy *)
Record ProbePolicy := mkPolicy {
  pp_Concurrency : Z; pp_StartupTimeout : Z; pp_RoutineTimeout : Z; pp_DialTimeout : Z; pp_ResponseTimeout : Z;
  pp_RoutineRetries : Z
}.

Definition normalizeProbePolicy (p : ProbePolicy) : ProbePolicy :=
  let positive (d : Z) (seconds : Z) := if d <=? 0 then seconds * GoTime.second else d in
  mkPolicy
    (if (pp_Concurrency p <? 0) || (512 <? pp_Concurrency p) then 0 else pp_Concurrency p)
    (positive (pp_StartupTimeout p) 5) (positive (pp_RoutineTimeout p) 10) (positive (pp_DialTimeout p) 3)
    (positive (pp_ResponseTimeout p) 2)
    (if pp_RoutineRetries p <? 0 then 0 else if 2 <? pp_RoutineRetries p then 2 else pp_RoutineRetries p).

(** The number of nodes is a length, so [nodeCount + 9] does not wrap. *)
Definition autoProbeConcurrency (nodeCount : Z) : Z :=
  let workerLimit := Z.quot (nodeCount + 9) 10 in
  let workerLimit := if workerLimit <? 32 then 32 else workerLimit in
  if 128 <? workerLimit then 128 else workerLimit.

Definition EffectiveProbeConcurrency (configured nodeCount : Z) : Z :=
  let workerLimit := if configured <=? 0 then autoProbeConcurrency nodeCount else configured in
  let workerLimit := if nodeCount <? workerLimit then nodeCount else workerLimit in
  if workerLimit <? 1 then 0 else workerLimit.

(** ** The schedules *)
Record groupHealthSchedule := mkSchedule { gs_tags : gset string; gs_nodeIDs : gset Z; gs_interval : Z; gs_token : Z }.

Record schedules := mkSchedules {
  sd_interval : Z; sd_started : bool; sd_groups : gmap Z groupHealthSchedule; sd_next : Z
}.

Definition defaultInterval : Z := 2 * GoTime.hour.

Definition StartPeriodicHealthCheck (interval : Z) (s : schedules) : schedules :=
  mkSchedules (if interval <=? 0 then defaultInterval else interval) true (sd_groups s) (sd_next s).
Definition SetHealthCheckInterval (d : Z) (s : schedules) : schedules :=
  if d <=? 0 then s else mkSchedules d (sd_started s) (sd_groups s) (sd_next s).

(** Registering yields the token its closure removes; [None] is the empty closure. *)
Definition register_schedule (groupID : Z) (tags : gset string) (nodeIDs : gset Z) (interval : Z) (s : schedules) : schedules * option Z :=
  if (groupID =? 0) || (interval <=? 0) then (s, None)
  else
    let token := (sd_next s + 1) mod 2 ^ 64 in
    (mkSchedules (sd_interval s) (sd_started s) (<[groupID := mkSchedule tags nodeIDs interval token]> (sd_groups s)) token, Some token).
Definition RegisterGroupHealthSchedule (groupID : Z) (tags : list string) (interval : Z) (s : schedules) : schedules * option Z :=
  register_schedule groupID (list_to_set (filter (λ t, t ≠ "") tags)) ∅ interval s.
Definition RegisterGroupHealthScheduleByNodeID (groupID : Z) (nodeIDs : list Z) (interval : Z) (s : schedules) : schedules * option Z :=
  register_schedule groupID ∅ (list_to_set (filter (λ n, n ≠ 0) nodeIDs)) interval s.

(** The closure a registration returned. *)
Definition unregister_schedule (groupID : Z) (token : option Z) (s : schedules) : schedules :=
  match token with
  | None => s
  | Some token =>
    match sd_groups s !! groupID with
    | Some current =>
      if gs_token current =? token
      then mkSchedules (sd_interval s) (sd_started s) (delete groupID (sd_groups s)) (sd_next s) else s
    | None => s
    end
  end.

Record probeScheduleSnapshot := mkScheduleSnapshot {
  ss_started : bool; ss_base : Z; ss_byTag : gmap string Z; ss_byNodeID : gmap Z Z
}.

(** [if current := m[key]; current == 0 || interval < current { m[key] = interval }] *)
Definition lower {K} `{Countable K} (interval : Z) (m : gmap K Z) (key : K) : gmap K Z :=
  let current := default 0 (m !! key) in
  if (current =? 0) || (interval <? current) then <[key := interval]> m else m.

Section schedule.
Context `{RZ : !RangeOrder Z}.

Definition add_schedule (acc : gmap string Z * gmap Z Z) (g : Z * groupHealthSchedule) : gmap string Z * gmap Z Z :=
  let interval := gs_interval g.2 in
  if interval <=? 0 then acc
  else (foldl (lower interval) acc.1 (elements (gs_tags g.2)), foldl (lower interval) acc.2 (elements (gs_nodeIDs g.2))).

Definition snapshot_schedules (s : schedules) : probeScheduleSnapshot :=
  let '(byTag, byNodeID) := foldl add_schedule (∅, ∅) (range (sd_groups s)) in
  mkScheduleSnapshot (sd_started s) (if sd_interval s <=? 0 then defaultInterval else sd_interval s) byTag byNodeID.

Definition intervalFor (tag : string) (nodeID : Z) (s : probeScheduleSnapshot) : Z :=
  let interval := ss_base s in
  let candidate := default 0 (ss_byTag s !! tag) in
  let interval := if (0 <? candidate) && (candidate <? interval) then candidate else interval in
  let candidate := default 0 (ss_byNodeID s !! nodeID) in
  if (0 <? candidate) && (candidate <? interval) then candidate else interval.

Definition probeDue (tag : string) (nodeID lastCheck now : Z) (s : schedules) : bool :=
  if GoTime.isZero lastCheck then true
  else negb (GoTime.before now (GoTime.add lastCheck (intervalFor tag nodeID (snapshot_schedules s)))).

(** ** The next probe *)

(** When an entry's next probe is due. *)
Definition due_at (now : Z) (s : probeScheduleSnapshot) (e : entry) : Z :=
  if GoTime.isZero (en_lastHealthCheck e) then now
  else GoTime.add (en_lastHealthCheck e) (intervalFor (ni_Tag (en_info e)) (ni_NodeID (en_info e)) s).

Definition earlier (now : Z) (s : probeScheduleSnapshot) (earliest : option Z) (e : entry) : option Z :=
  match en_probe e with
  | None => earliest
  | Some _ =>
    let due := due_at now s e in
    match earliest with
    | Some t => if GoTime.before due t then Some due else Some t
    | None => Some due
    end
  end.

(** [ready] tells whether a probe target is configured. *)
Definition nextProbeDelay (now : Z) (ready : bool) (es : list entry) (s : schedules) : option Z :=
  if negb ready then None
  else
    let schedule := snapshot_schedules s in
    if negb (ss_started schedule) then None
    else
      match foldl (earlier now schedule) None es with
      | None => None
      | Some earliest => let delay := GoTime.sub earliest now in Some (if delay <? 0 then 0 else delay)
      end.

(** What [collectBatchProbeItems] selects before it reserves the leases. *)
Definition batch_selects (dueOnly : bool) (now : Z) (s : probeScheduleSnapshot) (e : entry) : bool :=
  match en_probe e with
  | None => false
  | Some _ =>
    negb (dueOnly && negb (GoTime.isZero (en_lastHealthCheck e)) &&
          GoTime.before now (GoTime.add (en_lastHealthCheck e) (intervalFor (ni_Tag (en_info e)) (ni_NodeID (en_info e)) s)))
  end.
End schedule.

(** ** The probe target *)

(** sing's socket addresses. *)
Class SocksLibrary := {
  Socksaddr : Type;
  ParseSocksaddrHostPort : string → Z → Socksaddr;
  IsValid : Socksaddr → bool
}.

Record ProbeTarget `{SocksLibrary} := mkTarget {
  pt_Scheme : string; pt_Host : string; pt_ServerName : string; pt_RequestURI : string; pt_Destination : Socksaddr
}.

Definition ParseProbeTarget `{SocksLibrary} (raw : string) : result ProbeTarget :=
  let raw := TrimSpace raw in
  if decide (raw = "") then Err "probe target is empty"
  else
    let raw := match String.index 0 "://" raw with Some _ => raw | None => "http://" +:+ raw end in
    match Parse raw with
    | None => Err "parse probe target"
    | Some parsed =>
      let scheme := toLower (u_Scheme parsed) in
      if negb (bool_decide (scheme = "http")) && negb (bool_decide (scheme = "https")) then Err "unsupported probe target scheme"
      else
        match u_User parsed with
        | Some _ => Err "probe target must not contain credentials"
        | None =>
          let hostname := Hostname parsed in
          if decide (hostname = "") then Err "probe target is missing host"
          else
            let rawPort := Port parsed in
            let? port :=
              (if decide (rawPort = "") then Ok (if decide (scheme = "https") then 443 else 80)
               else let '(value, ok) := ParseUint 16 rawPort in
                    if negb ok || (value =? 0) then Err "probe target has invalid port" else Ok value) in
            let requestURI := EscapedPath parsed in
            let requestURI := if decide (requestURI = "") then "/generate_204" else requestURI in
            let requestURI := if decide (u_RawQuery parsed = "") then requestURI else requestURI +:+ "?" +:+ u_RawQuery parsed in
            let destination := ParseSocksaddrHostPort hostname port in
            if negb (IsValid destination) then Err "probe target destination is invalid"
            else Ok (mkTarget _ scheme (u_Host parsed) hostname requestURI destination)
        end
    end.

(** ** Bounds of the policy *)

(** A normalized policy is within its limits and stable, and a wave of it runs at
    least one worker, never more than there are nodes, and never more than 512. *)
Theorem concurrency_is_bounded p n :
  normalizeProbePolicy (normalizeProbePolicy p) = normalizeProbePolicy p ∧
  0 < pp_StartupTimeout (normalizeProbePolicy p) ∧ 0 < pp_RoutineTimeout (normalizeProbePolicy p) ∧
  0 ≤ pp_RoutineRetries (normalizeProbePolicy p) ≤ 2 ∧
  let workers := EffectiveProbeConcurrency (pp_Concurrency (normalizeProbePolicy p)) n in
  (n ≤ 0 → workers = 0) ∧ (0 < n → 1 ≤ workers ≤ Z.min n 512).
Proof.
  unfold normalizeProbePolicy, EffectiveProbeConcurrency, autoProbeConcurrency, GoTime.second, GoTime.millisecond.
  destruct p as [c st ro di re rr]; simpl. split_ands.
  - f_equal; repeat (case_match; try lia).
  - repeat (case_match; try lia).
  - repeat (case_match; try lia).
  - repeat (case_match; try lia).
  - repeat (case_match; try lia).
  - intros Hn. repeat (case_match; try lia).
  - intros Hn. repeat (case_match; try lia).
Qed.

(** ** The shortest interval *)

(** The least of [l], or 0 if there is none. *)
Definition least (v : Z) (l : list Z) : Prop := (l = [] ∧ v = 0) ∨ (v ∈ l ∧ ∀ x, x ∈ l → v ≤ x).

Lemma least_snoc v l i :
  0 < i → (∀ x, x ∈ l → 0 < x) → least v l → least (if (v =? 0) || (i <? v) then i else v) (l ++ [i]).
Proof.
  intros Hi Hpos [[-> ->]|[Hin Hle]]; right.
  - split; [by left|]. intros x ->%list_elem_of_singleton. simpl. lia.
  - pose proof (Hpos v Hin). destruct (Z.eqb_spec v 0); [lia|]. simpl. destruct (Z.ltb_spec i v); (split; [set_solver|]);
      intros x [Hx| ->%list_elem_of_singleton]%elem_of_app; try lia; specialize (Hle x Hx); lia.
Qed.

Section fold_lower.
Context {K : Type} `{Countable K}.
Implicit Types (m : gmap K Z) (k : K).

Lemma lower_lookup i m k0 k :
  default 0 (lower i m k0 !! k) =
    if decide (k = k0) then (let v := default 0 (m !! k) in if (v =? 0) || (i <? v) then i else v) else default 0 (m !! k).
Proof.
  unfold lower. destruct (decide (k = k0)) as [->|Hne]; case_match; [by rewrite lookup_insert_eq|done|by rewrite lookup_insert_ne|done].
Qed.

Lemma lower_fold i m (keys : list K) k :
  NoDup keys →
  default 0 (foldl (lower i) m keys !! k) =
    if decide (k ∈ keys) then (let v := default 0 (m !! k) in if (v =? 0) || (i <? v) then i else v) else default 0 (m !! k).
Proof.
  revert m. induction keys as [|k0 keys IH]; intros m Hnd; simpl; [done|].
  apply NoDup_cons in Hnd as [Hk0 Hnd]. rewrite IH by done. rewrite lower_lookup. simpl.
  destruct (decide (k = k0)) as [->|Hne].
  - rewrite (decide_False (P := k0 ∈ keys)), (decide_True (P := k0 ∈ k0 :: keys)) by set_solver. done.
  - destruct (decide (k ∈ keys)); [rewrite decide_True by set_solver|rewrite decide_False by set_solver]; done.
Qed.
End fold_lower.

Section schedule_laws.
Context `{RZ : !RangeOrder Z}.

Definition effective (g : groupHealthSchedule) : bool := 0 <? gs_interval g.
Definition tag_intervals (tag : string) (l : list (Z * groupHealthSchedule)) : list Z :=
  gs_interval <$> filter (λ g, effective g = true ∧ tag ∈ gs_tags g) l.*2.
Definition node_intervals (n : Z) (l : list (Z * groupHealthSchedule)) : list Z :=
  gs_interval <$> filter (λ g, effective g = true ∧ n ∈ gs_nodeIDs g) l.*2.

Lemma add_schedule_least l tag n :
  let acc := foldl add_schedule (∅, ∅) l in
  least (default 0 (acc.1 !! tag)) (tag_intervals tag l) ∧ least (default 0 (acc.2 !! n)) (node_intervals n l).
Proof.
  induction l as [|[id g] l IH] using rev_ind; [split; left; done|].
  rewrite foldl_snoc. simpl. unfold tag_intervals, node_intervals in *. rewrite !fmap_app, !filter_app, !fmap_app. simpl.
  destruct IH as [IHt IHn]. set (acc := foldl _ _ l) in *. unfold add_schedule; simpl.
  assert (∀ P (HP : ∀ g, Decision (P g)) x, x ∈ gs_interval <$> filter (λ g, effective g = true ∧ P g) l.*2 → 0 < x) as Hpos.
  { intros P HP x (g' & -> & [He _]%list_elem_of_filter)%list_elem_of_fmap. apply Z.ltb_lt, He. }
  destruct (Z.leb_spec (gs_interval g) 0) as [Hle|Hlt]; simpl.
  - assert (effective g = false) as He by (unfold effective; lia).
    rewrite !filter_cons_False by (rewrite He; naive_solver). by rewrite !filter_nil, !app_nil_r.
  - assert (effective g = true) as He by (unfold effective; lia).
    rewrite !lower_fold by apply NoDup_elements. split.
    + case_decide as Hin; rewrite elem_of_elements in Hin.
      * rewrite filter_cons_True by done. rewrite filter_nil. simpl. apply least_snoc; [done|apply Hpos|done].
      * rewrite filter_cons_False by naive_solver. by rewrite filter_nil, app_nil_r.
    + case_decide as Hin; rewrite elem_of_elements in Hin.
      * rewrite filter_cons_True by done. rewrite filter_nil. simpl. apply least_snoc; [done|apply Hpos|done].
      * rewrite filter_cons_False by naive_solver. by rewrite filter_nil, app_nil_r.
Qed.

(** A group asks for the node by its tag or by its id. *)
Definition asks (tag : string) (n : Z) (g : groupHealthSchedule) : Prop := effective g = true ∧ (tag ∈ gs_tags g ∨ n ∈ gs_nodeIDs g).
Definition base_interval (s : schedules) : Z := if sd_interval s <=? 0 then defaultInterval else sd_interval s.

(** What the least of the intervals of some groups says about those groups. *)
Lemma least_groups s (P : groupHealthSchedule → Prop) (HP : ∀ g, Decision (P g)) v :
  least v (gs_interval <$> filter (λ g, effective g = true ∧ P g) (range (sd_groups s)).*2) →
  (v = 0 ∨ ∃ k g, sd_groups s !! k = Some g ∧ effective g = true ∧ P g ∧ v = gs_interval g) ∧
  ∀ k g, sd_groups s !! k = Some g → effective g = true → P g → v ≤ gs_interval g ∧ 0 < v.
Proof.
  assert (∀ v, v ∈ gs_interval <$> filter (λ g, effective g = true ∧ P g) (range (sd_groups s)).*2 ↔
            ∃ k g, sd_groups s !! k = Some g ∧ effective g = true ∧ P g ∧ v = gs_interval g) as Hin.
  { intros w. rewrite list_elem_of_fmap. setoid_rewrite list_elem_of_filter. setoid_rewrite list_elem_of_fmap. split.
    - intros (g & -> & [He HPg] & [k g'] & -> & Hk%elem_of_range). exists k, g'. done.
    - intros (k & g & Hk & He & HPg & ->). exists g. split_ands; [done..|]. exists (k, g). split; [done|by apply elem_of_range]. }
  intros [[Hnil ->]|[Hv Hle]].
  - split; [by left|]. intros k g Hk He HPg. exfalso.
    assert (gs_interval g ∈ gs_interval <$> filter (λ g, effective g = true ∧ P g) (range (sd_groups s)).*2) as Hg
      by (apply Hin; by exists k, g).
    rewrite Hnil in Hg. by apply elem_of_nil in Hg.
  - pose proof (proj1 (Hin v) Hv) as Hex. split; [by right|]. intros k g Hk He HPg.
    split; [apply Hle, Hin; by exists k, g|]. destruct Hex as (k' & g' & _ & He' & _ & ->). apply Z.ltb_lt, He'.
Qed.

(** The interval of a node is at most the base interval. *)
Lemma interval_is_short s tag n : intervalFor tag n (snapshot_schedules s) ≤ base_interval s.
Proof.
  unfold intervalFor, snapshot_schedules. destruct (foldl _ _ _); simpl. fold (base_interval s).
  repeat (case_match; simpl in *; try lia).
Qed.

(** A node shared by groups is probed at the shortest interval among the base
    interval and those of the groups that hold it, by tag or by id; the order of the
    maps does not matter. *)
Theorem interval_is_the_shortest s tag n :
  let i := intervalFor tag n (snapshot_schedules s) in
  (i = base_interval s ∨ ∃ k g, sd_groups s !! k = Some g ∧ asks tag n g ∧ i = gs_interval g) ∧
  i ≤ base_interval s ∧ (∀ k g, sd_groups s !! k = Some g → asks tag n g → i ≤ gs_interval g).
Proof.
  pose proof (add_schedule_least (range (sd_groups s)) tag n) as [Ht Hn].
  unfold snapshot_schedules. destruct (foldl add_schedule _ _) as [bt bn]. simpl in Ht, Hn. unfold intervalFor; simpl.
  fold (base_interval s). set (vt := default 0 (bt !! tag)) in *. set (vn := default 0 (bn !! n)) in *.
  apply least_groups in Ht as [Ht1 Ht2]. apply least_groups in Hn as [Hn1 Hn2]. unfold asks.
  set (i := if _ && (vn <? _) then _ else _).
  assert ((i = base_interval s ∨ (i = vt ∧ 0 < vt) ∨ (i = vn ∧ 0 < vn)) ∧ i ≤ base_interval s ∧
          (0 < vt → i ≤ vt) ∧ (0 < vn → i ≤ vn)) as (Hi & Hbase & Hvt & Hvn).
  { subst i. clearbody vt vn. clear. destruct (Z.ltb_spec 0 vt), (Z.ltb_spec vt (base_interval s)), (Z.ltb_spec 0 vn); simpl;
      try match goal with |- context [vn <? ?x] => destruct (Z.ltb_spec vn x) end; lia. }
  split_ands; [|done|].
  - destruct Hi as [Hi|[[Hi Hpos]|[Hi Hpos]]]; [by left|right..].
    + destruct Ht1 as [?|(k & g & Hk & He & HP & Hv)]; [lia|]. exists k, g. split_ands; [done..|by left|congruence].
    + destruct Hn1 as [?|(k & g & Hk & He & HP & Hv)]; [lia|]. exists k, g. split_ands; [done..|by right|congruence].
  - intros k g Hk [He [Hg|Hg]]; [destruct (Ht2 k g Hk He Hg)|destruct (Hn2 k g Hk He Hg)]; lia.
Qed.

(** A group's removal takes out only its own registration: the closure of an
    earlier registration of the same group changes nothing, however late it runs. *)
Theorem stale_removal_is_harmless groupID tags1 nodes1 i1 tags2 nodes2 i2 s :
  0 ≤ sd_next s < 2 ^ 64 - 2 → groupID ≠ 0 → 0 < i1 → 0 < i2 →
  let s1 := register_schedule groupID tags1 nodes1 i1 s in
  let s2 := register_schedule groupID tags2 nodes2 i2 s1.1 in
  unregister_schedule groupID s1.2 s2.1 = s2.1 ∧
  sd_groups (unregister_schedule groupID s1.2 s1.1) = delete groupID (sd_groups s) ∧
  sd_groups (unregister_schedule groupID s2.2 s2.1) = delete groupID (sd_groups s).
Proof.
  intros Hnext Hid H1 H2. unfold register_schedule.
  rewrite (proj2 (Z.eqb_neq _ _) Hid), (proj2 (Z.leb_gt _ _) H1), (proj2 (Z.leb_gt _ _) H2). simpl.
  rewrite !Z.mod_small by (rewrite ?Z.mod_small by lia; lia).
  rewrite !lookup_insert_eq. simpl. rewrite !Z.eqb_refl. simpl.
  destruct (Z.eqb_spec (sd_next s + 1 + 1) (sd_next s + 1)); [lia|].
  split_ands; [done|by rewrite delete_insert_eq|by rewrite insert_insert_eq, delete_insert_eq].
Qed.

(** ** The next probe *)
Lemma batch_selects_due t now s e :
  en_probe e ≠ None → en_lastHealthCheck e ≤ now → now ≤ t →
  batch_selects true t s e = (due_at now s e <=? t).
Proof.
  intros Hp Hlast Ht. unfold batch_selects, due_at, GoTime.before, GoTime.isZero. destruct (en_probe e); [|done].
  case_bool_decide as Hz; simpl; [lia|]. case_bool_decide as Hb; simpl; lia.
Qed.

Lemma earliest_spec now s es : 
  match foldl (earlier now s) None es with
  | None => ∀ e, e ∈ es → en_probe e = None
  | Some t => (∃ e, e ∈ es ∧ en_probe e ≠ None ∧ due_at now s e = t) ∧ ∀ e, e ∈ es → en_probe e ≠ None → t ≤ due_at now s e
  end.
Proof.
  induction es as [|e es IH] using rev_ind; simpl; [by intros e ?%elem_of_nil|].
  rewrite foldl_snoc. set (acc := foldl _ _ es) in *. unfold earlier at 1. destruct (en_probe e) eqn:He.
  - destruct acc as [t|].
    + destruct IH as [(e0 & Hin & Hp & Ht) Hle]. unfold GoTime.before. case_bool_decide as Hb; (split; [set_solver|]);
        intros e' [Hin'| ->%list_elem_of_singleton]%elem_of_app Hp'; try lia; specialize (Hle e' Hin' Hp'); lia.
    + split; [set_solver|]. intros e' [Hin'| ->%list_elem_of_singleton]%elem_of_app Hp'; [by rewrite IH in Hp'|lia].
  - destruct acc as [t|].
    + destruct IH as [Hex Hle]. split; [set_solver|]. intros e' [Hin'| ->%list_elem_of_singleton]%elem_of_app Hp'; auto. congruence.
    + intros e' [Hin'| ->%list_elem_of_singleton]%elem_of_app; auto.
Qed.

(** The periodic timer is set for the first probe that falls due: a periodic round
    at that instant selects some node, none would have been selected earlier, and there
    is no timer exactly when probing has not started or nothing can be probed. *)
Theorem periodic_timer_is_the_first_due now es s :
  (∀ e, e ∈ es → en_lastHealthCheck e ≤ now) → sd_interval s ≤ GoTime.maxDuration →
  match nextProbeDelay now true es s with
  | Some d => 0 ≤ d ∧ (∃ e, e ∈ es ∧ batch_selects true (now + d) (snapshot_schedules s) e = true) ∧
              ∀ t e, now ≤ t < now + d → e ∈ es → batch_selects true t (snapshot_schedules s) e = false
  | None => sd_started s = false ∨ ∀ e, e ∈ es → en_probe e = None
  end.
Proof.
  intros Hpast Hint. unfold nextProbeDelay; simpl.
  assert (ss_started (snapshot_schedules s) = sd_started s) as -> by (unfold snapshot_schedules; by destruct (foldl _ _ _)).
  destruct (sd_started s); simpl; [|by left]. pose proof (earliest_spec now (snapshot_schedules s) es) as He.
  destruct (foldl _ None es) as [t|]; [|by right]. destruct He as [(e & Hin & Hp & Ht) Hle].
  assert (t - now ≤ GoTime.maxDuration) as Hmax.
  { rewrite <-Ht. unfold due_at, GoTime.isZero, GoTime.add. case_bool_decide; [unfold GoTime.maxDuration; lia|].
    pose proof (interval_is_short s (ni_Tag (en_info e)) (ni_NodeID (en_info e))) as Hi. specialize (Hpast e Hin).
    unfold base_interval in Hi. unfold GoTime.maxDuration, defaultInterval, GoTime.hour, GoTime.minute, GoTime.second, GoTime.millisecond in *.
    destruct (sd_interval s <=? 0); lia. }
  set (d := GoTime.sub t now).
  assert (t ≤ now + (if d <? 0 then 0 else d) ∧ (now < now + (if d <? 0 then 0 else d) → now + (if d <? 0 then 0 else d) = t)) as [Hd1 Hd2].
  { subst d. unfold GoTime.sub, GoTime.minDuration in *. destruct (Z.ltb_spec (Z.max (- 2 ^ 63) (Z.min GoTime.maxDuration (t - now))) 0); lia. }
  split_ands; [destruct (Z.ltb_spec d 0); lia| |].
  - exists e. split; [done|]. rewrite (batch_selects_due _ now) by (auto; destruct (Z.ltb_spec d 0); lia). lia.
  - intros u e' Hu He'. destruct (en_probe e') eqn:Hpe; [|by unfold batch_selects; rewrite Hpe].
    rewrite (batch_selects_due _ now) by (rewrite ?Hpe; auto; lia).
    specialize (Hle e' He' ltac:(by rewrite Hpe)). apply Z.leb_gt. lia.
Qed.
End schedule_laws.

(** An accepted target is complete: a supported scheme, a host, a request line and a
    valid destination on a real port. *)
Lemma accepted_target_is_complete `{SocksLibrary} raw t :
  ParseProbeTarget raw = Ok t →
  (pt_Scheme t = "http" ∨ pt_Scheme t = "https") ∧ pt_ServerName t ≠ "" ∧ pt_RequestURI t ≠ "" ∧
  ∃ port, 1 ≤ port ≤ 65535 ∧ pt_Destination t = ParseSocksaddrHostPort (pt_ServerName t) port ∧ IsValid (pt_Destination t) = true.
Proof.
  unfold ParseProbeTarget. case_decide; [done|]. destruct (Parse _) as [parsed|]; [|done]. set (scheme := toLower _).
  destruct (negb (bool_decide (scheme = "http")) && _) eqn:Hscheme; [done|]. destruct (u_User parsed); [done|].
  destruct (decide (Hostname parsed = "")) as [|Hhost]; [done|]. intros (port & Hport & Hrest)%result_bind_Ok.
  assert (1 ≤ port ≤ 65535) as Hrange.
  { destruct (decide (Port parsed = "")); [simplify_eq; case_decide; lia|]. pose proof (ParseUint_range 16 (Port parsed) ltac:(lia)) as Hr.
    destruct (ParseUint 16 (Port parsed)) as [v ok]. simpl in Hr. destruct (negb ok); [done|]. simpl in Hport.
    destruct (Z.eqb_spec v 0); simplify_eq. lia. }
  destruct (IsValid _) eqn:Hvalid; simplify_eq/=. split_ands; [|done| |by exists port].
  - apply andb_false_iff in Hscheme as [Hs|Hs]; apply negb_false_iff, bool_decide_eq_true in Hs; auto.
  - destruct (decide (u_RawQuery parsed = "")), (decide (EscapedPath parsed = "")); try done; by destruct (EscapedPath parsed).
Qed.

Module ScheduleExample.
#[local] Instance ordered : RangeOrder Z := default_range_order Z.
Definition s0 : schedules := mkSchedules (5 * GoTime.minute) true ∅ 0.
Definition member (last : Z) : entry :=
  set_en_lastHealthCheck last (set_en_probe (Some 1) (new_entry (mkInfo 7 "a" "a" "" "" "" 0 "" "") 0)).

Lemma removal_witness :
  let s1 := register_schedule 3 {["a"]} ∅ GoTime.minute s0 in
  let s2 := register_schedule 3 {["b"]} ∅ GoTime.second s1.1 in
  unregister_schedule 3 s1.2 s2.1 = s2.1 ∧ sd_groups (unregister_schedule 3 s2.2 s2.1) = delete 3 (sd_groups s0).
Proof.
  intros s1 s2.
  destruct (stale_removal_is_harmless 3 {["a"]} ∅ GoTime.minute {["b"]} ∅ GoTime.second s0) as (H1 & _ & H2);
    [split; reflexivity || (intros H; discriminate H)|discriminate|reflexivity|reflexivity|]. exact (conj H1 H2).
Defined.

Lemma timer_witness :
  let s := (register_schedule 3 ∅ {[7]} GoTime.minute s0).1 in
  nextProbeDelay 1000 true [member 990] s = Some (GoTime.minute - 10) ∧
  ∀ t e, 1000 ≤ t < 1000 + (GoTime.minute - 10) → e ∈ [member 990] → batch_selects true t (snapshot_schedules s) e = false.
Proof.
  intros s. assert (nextProbeDelay 1000 true [member 990] s = Some (GoTime.minute - 10)) as Hd by (vm_compute; reflexivity).
  split; [exact Hd|]. pose proof (periodic_timer_is_the_first_due 1000 [member 990] s) as H. rewrite Hd in H.
  apply H; [|vm_compute; discriminate]. intros e ->%list_elem_of_singleton. vm_compute. discriminate.
Defined.
End ScheduleExample.
