(* ===== verification/ProbeScheduler.v ===== *)
(** The probe scheduler ([internal/monitor/probe_scheduler.go]): the actor that owns
    startup convergence, periodic and manual rounds, and the leases of tags.

    The actor's goroutine, its callers, the executor of a wave and the holders of single
    leases run concurrently. A step of the relation below is one turn of the actor (the
    top of its loop, or one branch of its select), one call that sends a command, one
    result or the end of a wave, or one lease taken or returned. What the actor reads of
    the manager (registry, schedules, policy, clock, cancelled contexts) is a view, any
    at each step. A round's context is cancelled with its request's or the manager's.
    The worker counters of the status belong to the calls of probes ([ProbeCalls]). *)
From S2P Require Import Prelude Text Floats NetIP NetURL NodeCodec MonitorRegistry ProbeSchedule.

#[local] Open Scope Z_scope.

(** ** Rounds *)
Inductive ProbeRoundKind := ProbeRoundNone | ProbeRoundStartup | ProbeRoundPeriodic | ProbeRoundManual.
#[export] Instance ProbeRoundKind_eq_dec : EqDecision ProbeRoundKind.
Proof. solve_decision. Defined.

(** A node reserved for a probe: the entry's address, and what was read of it. *)
Record probeWorkItem := mkWork { wk_entry : Z; wk_tag : string; wk_name : string; wk_probe : option Z }.

Record ProbeBatchResult := mkBatchResult { br_Tag : string; br_Name : string; br_Latency : Z; br_Err : option string; br_Attempts : Z }.
Record ProbeBatchSummary := mkSummary { sm_Total : Z; sm_Success : Z; sm_Failed : Z }.

(** [rq_id] names the request of a caller of [RunProbeBatch], who waits for one
    response; the actor's own requests have the manager's context and no response. *)
Record request := mkRequest { rq_id : option Z; rq_kind : ProbeRoundKind; rq_dueOnly : bool }.

Record round := mkRound {
  ar_id : Z; ar_request : request; ar_items : gmap string probeWorkItem; ar_retry : list probeWorkItem;
  ar_summary : ProbeBatchSummary; ar_policy : ProbePolicy; ar_startup : bool; ar_convergence : bool; ar_attempt : Z
}.
Definition with_items (items : gmap string probeWorkItem) (retry : list probeWorkItem) (a : round) : round :=
  mkRound (ar_id a) (ar_request a) items retry (ar_summary a) (ar_policy a) (ar_startup a) (ar_convergence a) (ar_attempt a).
Definition with_summary (sm : ProbeBatchSummary) (a : round) : round :=
  mkRound (ar_id a) (ar_request a) (ar_items a) (ar_retry a) sm (ar_policy a) (ar_startup a) (ar_convergence a) (ar_attempt a).
Definition with_attempt (n : Z) (a : round) : round :=
  mkRound (ar_id a) (ar_request a) (ar_items a) (ar_retry a) (ar_summary a) (ar_policy a) (ar_startup a) (ar_convergence a) n.

Record ProbeRoundStatus := mkRoundStatus {
  rs_InFlight : bool; rs_Kind : ProbeRoundKind; rs_StartedAt : Z; rs_Total : Z; rs_Completed : Z; rs_Success : Z; rs_Failed : Z;
  rs_Attempt : Z; rs_LastProgressAt : Z
}.
Definition no_status : ProbeRoundStatus := mkRoundStatus false ProbeRoundNone GoTime.zero 0 0 0 0 0 GoTime.zero.

(** An event of the executor: a result of a round, or ([None]) that its wave ended. *)
Record event := mkEvent { ev_round : Z; ev_result : option ProbeBatchResult }.

(** The wave in execution: its round, the items without a result, its attempt. *)
Record wave := mkWave { wv_round : Z; wv_rest : list probeWorkItem; wv_attempt : Z; wv_limit : Z }.

Inductive command :=
  | enqueueInitialCommand (tags : list string) (ack : Z)
  | routineProbeCommand (dueOnly : bool)
  | runBatchCommand (r : request)
  | wakeProbeCommand.

(** What leaves the actor: the calls of a caller's callbacks and its response, with the
    error of the round's context, and the acknowledgements of queued tags. *)
Inductive output :=
  | OnStart (r : request) (total : Z)
  | OnResult (r : request) (result : ProbeBatchResult)
  | Respond (id : Z) (summary : ProbeBatchSummary) (err : option string)
  | Ack (ack : Z).

(** ** Startup convergence *)
Definition maxConvergenceStallRounds : Z := 5.

(** [initialQueue], [initialRunning], [initialQueued] and the two stall counters. *)
Record convergence := mkConv {
  cv_queue : gset string; cv_running : bool; cv_queued : Z; cv_stall : Z; cv_lastPending : Z
}.
Definition with_queue (q : gset string) (c : convergence) : convergence :=
  mkConv q (cv_running c) (cv_queued c) (cv_stall c) (cv_lastPending c).
Definition resetConvergenceStall (c : convergence) : convergence :=
  mkConv (cv_queue c) (cv_running c) (cv_queued c) 0 0.
Definition updateInitialStatus (c : convergence) : convergence :=
  mkConv (cv_queue c) (cv_running c) (Z.of_nat (size (cv_queue c))) (cv_stall c) (cv_lastPending c).
(** [setInitialRunning(false)] and [clear(queue)]. *)
Definition stop_converging (c : convergence) : convergence :=
  mkConv ∅ false (cv_queued c) (cv_stall c) (cv_lastPending c).

Definition work_of (tag : string) (p : Z) (r : nodeRegistry) : probeWorkItem :=
  mkWork p tag (ni_Name (en_info (entry_at p r))) (en_probe (entry_at p r)).

(** The registered nodes without a committed health result. *)
Definition pending (r : nodeRegistry) : gmap string probeWorkItem :=
  map_imap (λ tag p, if en_initialCheckDone (entry_at p r) then None else Some (work_of tag p r)) (rg_byTag r).
Definition pendingTags (r : nodeRegistry) : gset string := dom (pending r).

Definition finishInitialConvergence (pend : gset string) (c : convergence) : convergence :=
  if decide (pend = ∅) then (if cv_running c then stop_converging c else c)
  else with_queue (cv_queue c ∪ pend) c.

Definition refreshInitialQueue (pend : gset string) (c : convergence) : convergence :=
  let n := Z.of_nat (size pend) in
  if decide (pend = ∅) then finishInitialConvergence pend (resetConvergenceStall c)
  else
    let requeue c := mkConv (cv_queue c ∪ pend) (cv_running c) (cv_queued c) (cv_stall c) n in
    if n =? cv_lastPending c then
      let c := mkConv (cv_queue c) (cv_running c) (cv_queued c) (cv_stall c + 1) (cv_lastPending c) in
      if maxConvergenceStallRounds <=? cv_stall c
      then let c := resetConvergenceStall c in if cv_running c then stop_converging c else c
      else requeue c
    else requeue (resetConvergenceStall c).

Definition enqueue_tags (tags : list string) (c : convergence) : convergence :=
  let c := if cv_running c then c else resetConvergenceStall (mkConv (cv_queue c) true (cv_queued c) (cv_stall c) (cv_lastPending c)) in
  updateInitialStatus (with_queue (cv_queue c ∪ list_to_set (filter (λ t, t ≠ "") tags)) c).

(** What the scheduler answers to [InitialProbeStatus]. *)
Definition initialStatus (pend : Z) (c : convergence) : bool * Z * Z := (cv_running c, pend, cv_queued c).

(** ** The state of the scheduler

    [sc_watch] and [sc_retry] tell whether [activeC] and [retryC] are set; [sc_waiting]
    whether the actor is at its select. [sc_external] is ghost state: the leases held by
    the callers of [BeginProbeLease]; [sc_quit], that an executor left because the manager
    stops. *)
Record scheduler := mkScheduler {
  sc_manual : list request;
  sc_routine : bool;
  sc_dueOnly : bool;
  sc_active : option round;
  sc_watch : bool;
  sc_retry : bool;
  sc_periodic : option Z;
  sc_nextRound : Z;
  sc_leases : gset string;
  sc_dirty : bool;
  sc_conv : convergence;
  sc_commands : list command;
  sc_events : list event;
  sc_wave : option wave;
  sc_out : list output;
  sc_status : ProbeRoundStatus;
  sc_waiting : bool;
  sc_stopped : bool;
  sc_external : gset string;
  sc_quit : bool
}.

(** Field updates. *)
Definition set_sc_manual (v : list request) (s : scheduler) : scheduler :=
  mkScheduler v (sc_routine s) (sc_dueOnly s) (sc_active s) (sc_watch s) (sc_retry s) (sc_periodic s)
    (sc_nextRound s) (sc_leases s) (sc_dirty s) (sc_conv s) (sc_commands s) (sc_events s) (sc_wave s)
    (sc_out s) (sc_status s) (sc_waiting s) (sc_stopped s) (sc_external s) (sc_quit s).
Definition set_sc_routine (v : bool) (s : scheduler) : scheduler :=
  mkScheduler (sc_manual s) v (sc_dueOnly s) (sc_active s) (sc_watch s) (sc_retry s) (sc_periodic s)
    (sc_nextRound s) (sc_leases s) (sc_dirty s) (sc_conv s) (sc_commands s) (sc_events s) (sc_wave s)
    (sc_out s) (sc_status s) (sc_waiting s) (sc_stopped s) (sc_external s) (sc_quit s).
Definition set_sc_dueOnly (v : bool) (s : scheduler) : scheduler :=
  mkScheduler (sc_manual s) (sc_routine s) v (sc_active s) (sc_watch s) (sc_retry s) (sc_periodic s)
    (sc_nextRound s) (sc_leases s) (sc_dirty s) (sc_conv s) (sc_commands s) (sc_events s) (sc_wave s)
    (sc_out s) (sc_status s) (sc_waiting s) (sc_stopped s) (sc_external s) (sc_quit s).
Definition set_sc_active (v : option round) (s : scheduler) : scheduler :=
  mkScheduler (sc_manual s) (sc_routine s) (sc_dueOnly s) v (sc_watch s) (sc_retry s) (sc_periodic s)
    (sc_nextRound s) (sc_leases s) (sc_dirty s) (sc_conv s) (sc_commands s) (sc_events s) (sc_wave s)
    (sc_out s) (sc_status s) (sc_waiting s) (sc_stopped s) (sc_external s) (sc_quit s).
Definition set_sc_watch (v : bool) (s : scheduler) : scheduler :=
  mkScheduler (sc_manual s) (sc_routine s) (sc_dueOnly s) (sc_active s) v (sc_retry s) (sc_periodic s)
    (sc_nextRound s) (sc_leases s) (sc_dirty s) (sc_conv s) (sc_commands s) (sc_events s) (sc_wave s)
    (sc_out s) (sc_status s) (sc_waiting s) (sc_stopped s) (sc_external s) (sc_quit s).
Definition set_sc_retry (v : bool) (s : scheduler) : scheduler :=
  mkScheduler (sc_manual s) (sc_routine s) (sc_dueOnly s) (sc_active s) (sc_watch s) v (sc_periodic s)
    (sc_nextRound s) (sc_leases s) (sc_dirty s) (sc_conv s) (sc_commands s) (sc_events s) (sc_wave s)
    (sc_out s) (sc_status s) (sc_waiting s) (sc_stopped s) (sc_external s) (sc_quit s).
Definition set_sc_periodic (v : option Z) (s : scheduler) : scheduler :=
  mkScheduler (sc_manual s) (sc_routine s) (sc_dueOnly s) (sc_active s) (sc_watch s) (sc_retry s) v
    (sc_nextRound s) (sc_leases s) (sc_dirty s) (sc_conv s) (sc_commands s) (sc_events s) (sc_wave s)
    (sc_out s) (sc_status s) (sc_waiting s) (sc_stopped s) (sc_external s) (sc_quit s).
Definition set_sc_nextRound (v : Z) (s : scheduler) : scheduler :=
  mkScheduler (sc_manual s) (sc_routine s) (sc_dueOnly s) (sc_active s) (sc_watch s) (sc_retry s)
    (sc_periodic s) v (sc_leases s) (sc_dirty s) (sc_conv s) (sc_commands s) (sc_events s) (sc_wave s)
    (sc_out s) (sc_status s) (sc_waiting s) (sc_stopped s) (sc_external s) (sc_quit s).
Definition set_sc_leases (v : gset string) (s : scheduler) : scheduler :=
  mkScheduler (sc_manual s) (sc_routine s) (sc_dueOnly s) (sc_active s) (sc_watch s) (sc_retry s)
    (sc_periodic s) (sc_nextRound s) v (sc_dirty s) (sc_conv s) (sc_commands s) (sc_events s)
    (sc_wave s) (sc_out s) (sc_status s) (sc_waiting s) (sc_stopped s) (sc_external s) (sc_quit s).
Definition set_sc_dirty (v : bool) (s : scheduler) : scheduler :=
  mkScheduler (sc_manual s) (sc_routine s) (sc_dueOnly s) (sc_active s) (sc_watch s) (sc_retry s)
    (sc_periodic s) (sc_nextRound s) (sc_leases s) v (sc_conv s) (sc_commands s) (sc_events s)
    (sc_wave s) (sc_out s) (sc_status s) (sc_waiting s) (sc_stopped s) (sc_external s) (sc_quit s).
Definition set_sc_conv (v : convergence) (s : scheduler) : scheduler :=
  mkScheduler (sc_manual s) (sc_routine s) (sc_dueOnly s) (sc_active s) (sc_watch s) (sc_retry s)
    (sc_periodic s) (sc_nextRound s) (sc_leases s) (sc_dirty s) v (sc_commands s) (sc_events s)
    (sc_wave s) (sc_out s) (sc_status s) (sc_waiting s) (sc_stopped s) (sc_external s) (sc_quit s).
Definition set_sc_commands (v : list command) (s : scheduler) : scheduler :=
  mkScheduler (sc_manual s) (sc_routine s) (sc_dueOnly s) (sc_active s) (sc_watch s) (sc_retry s)
    (sc_periodic s) (sc_nextRound s) (sc_leases s) (sc_dirty s) (sc_conv s) v (sc_events s) (sc_wave s)
    (sc_out s) (sc_status s) (sc_waiting s) (sc_stopped s) (sc_external s) (sc_quit s).
Definition set_sc_events (v : list event) (s : scheduler) : scheduler :=
  mkScheduler (sc_manual s) (sc_routine s) (sc_dueOnly s) (sc_active s) (sc_watch s) (sc_retry s)
    (sc_periodic s) (sc_nextRound s) (sc_leases s) (sc_dirty s) (sc_conv s) (sc_commands s) v
    (sc_wave s) (sc_out s) (sc_status s) (sc_waiting s) (sc_stopped s) (sc_external s) (sc_quit s).
Definition set_sc_wave (v : option wave) (s : scheduler) : scheduler :=
  mkScheduler (sc_manual s) (sc_routine s) (sc_dueOnly s) (sc_active s) (sc_watch s) (sc_retry s)
    (sc_periodic s) (sc_nextRound s) (sc_leases s) (sc_dirty s) (sc_conv s) (sc_commands s)
    (sc_events s) v (sc_out s) (sc_status s) (sc_waiting s) (sc_stopped s) (sc_external s) (sc_quit s).
Definition set_sc_out (v : list output) (s : scheduler) : scheduler :=
  mkScheduler (sc_manual s) (sc_routine s) (sc_dueOnly s) (sc_active s) (sc_watch s) (sc_retry s)
    (sc_periodic s) (sc_nextRound s) (sc_leases s) (sc_dirty s) (sc_conv s) (sc_commands s)
    (sc_events s) (sc_wave s) v (sc_status s) (sc_waiting s) (sc_stopped s) (sc_external s) (sc_quit s).
Definition set_sc_status (v : ProbeRoundStatus) (s : scheduler) : scheduler :=
  mkScheduler (sc_manual s) (sc_routine s) (sc_dueOnly s) (sc_active s) (sc_watch s) (sc_retry s)
    (sc_periodic s) (sc_nextRound s) (sc_leases s) (sc_dirty s) (sc_conv s) (sc_commands s)
    (sc_events s) (sc_wave s) (sc_out s) v (sc_waiting s) (sc_stopped s) (sc_external s) (sc_quit s).
Definition set_sc_waiting (v : bool) (s : scheduler) : scheduler :=
  mkScheduler (sc_manual s) (sc_routine s) (sc_dueOnly s) (sc_active s) (sc_watch s) (sc_retry s)
    (sc_periodic s) (sc_nextRound s) (sc_leases s) (sc_dirty s) (sc_conv s) (sc_commands s)
    (sc_events s) (sc_wave s) (sc_out s) (sc_status s) v (sc_stopped s) (sc_external s) (sc_quit s).
Definition set_sc_stopped (v : bool) (s : scheduler) : scheduler :=
  mkScheduler (sc_manual s) (sc_routine s) (sc_dueOnly s) (sc_active s) (sc_watch s) (sc_retry s)
    (sc_periodic s) (sc_nextRound s) (sc_leases s) (sc_dirty s) (sc_conv s) (sc_commands s)
    (sc_events s) (sc_wave s) (sc_out s) (sc_status s) (sc_waiting s) v (sc_external s) (sc_quit s).
Definition set_sc_external (v : gset string) (s : scheduler) : scheduler :=
  mkScheduler (sc_manual s) (sc_routine s) (sc_dueOnly s) (sc_active s) (sc_watch s) (sc_retry s)
    (sc_periodic s) (sc_nextRound s) (sc_leases s) (sc_dirty s) (sc_conv s) (sc_commands s)
    (sc_events s) (sc_wave s) (sc_out s) (sc_status s) (sc_waiting s) (sc_stopped s) v (sc_quit s).
Definition set_sc_quit (v : bool) (s : scheduler) : scheduler :=
  mkScheduler (sc_manual s) (sc_routine s) (sc_dueOnly s) (sc_active s) (sc_watch s) (sc_retry s)
    (sc_periodic s) (sc_nextRound s) (sc_leases s) (sc_dirty s) (sc_conv s) (sc_commands s)
    (sc_events s) (sc_wave s) (sc_out s) (sc_status s) (sc_waiting s) (sc_stopped s) (sc_external s) v.

Definition newProbeScheduler : scheduler :=
  mkScheduler [] false false None false false None 0 ∅ false (mkConv ∅ false 0 0 0) [] [] None [] no_status false false ∅ false.

Definition emit_output (o : list output) (s : scheduler) : scheduler := set_sc_out (sc_out s ++ o) s.

(** The channels' capacities. A wake-up is dropped when the channel is full. *)
Definition command_capacity : nat := 128.
Definition event_capacity : nat := 256.
Definition send_command (c : command) (s : scheduler) : scheduler := set_sc_commands (sc_commands s ++ [c]) s.
Definition signal (s : scheduler) : scheduler :=
  if decide (length (sc_commands s) < command_capacity)%nat then send_command wakeProbeCommand s else s.
Definition reschedulePeriodic (s : scheduler) : scheduler := signal (set_sc_dirty true s).

Definition releaseTagProbe (tag : string) (wake : bool) (s : scheduler) : scheduler :=
  let s := set_sc_leases (sc_leases s ∖ {[tag]}) s in
  if wake then signal s else s.
Definition release_tags (tags : list string) (s : scheduler) : scheduler :=
  foldl (λ s tag, releaseTagProbe tag false s) s tags.

(** [BeginProbeLease] and [EndProbeLease] *)
Definition beginTagProbe (tag : string) (s : scheduler) : bool * scheduler :=
  if decide (tag ∈ sc_leases s) then (false, s)
  else (true, set_sc_external (sc_external s ∪ {[tag]}) (set_sc_leases (sc_leases s ∪ {[tag]}) s)).
Definition endTagProbe (tag : string) (s : scheduler) : scheduler :=
  releaseTagProbe tag true (set_sc_external (sc_external s ∖ {[tag]}) (set_sc_dirty true s)).

(** What the actor reads of the manager. [vw_errs] holds the errors of the contexts of
    callers, [vw_done] that the manager's is cancelled. *)
Record view := mkView {
  vw_registry : nodeRegistry; vw_schedules : schedules; vw_policy : ProbePolicy; vw_ready : bool; vw_now : Z;
  vw_errs : gmap Z string; vw_done : bool
}.

Definition canceled : string := "context canceled".
Definition ctx_err (v : view) (r : request) : option string :=
  if vw_done v then Some canceled else match rq_id r with Some id => vw_errs v !! id | None => None end.

Section actor.
Context `{RZ : !RangeOrder Z, RS : !RangeOrder string}.

(** ** Choosing the nodes of a round *)
Definition reserve (acc : list probeWorkItem * gset string) (item : probeWorkItem) : list probeWorkItem * gset string :=
  if decide (wk_tag item ∈ acc.2) then acc else (acc.1 ++ [item], acc.2 ∪ {[wk_tag item]}).
Definition reserveBatchProbeItems (items : list probeWorkItem) (s : scheduler) : list probeWorkItem * scheduler :=
  let acc := foldl reserve ([], sc_leases s) items in (acc.1, set_sc_leases acc.2 s).

Definition entry_work (r : nodeRegistry) (p : Z) : probeWorkItem := work_of (ni_Tag (en_info (entry_at p r))) p r.
Definition collectBatchProbeItems (v : view) (dueOnly : bool) (s : scheduler) : list probeWorkItem * scheduler :=
  let r := vw_registry v in
  let schedule := snapshot_schedules (vw_schedules v) in
  let selected := filter (λ p, batch_selects dueOnly (vw_now v) schedule (entry_at p r) = true) (entries r) in
  reserveBatchProbeItems (entry_work r <$> selected) s.

(** The pending nodes nobody holds. *)
Definition free_items (leases : gset string) (pend : gmap string probeWorkItem) (queue : gset string) : list probeWorkItem :=
  omap (λ tag, if decide (tag ∈ leases) then None else pend !! tag) (elements queue).

(** The items, the number of pending nodes, and the state: the queue keeps busy nodes. *)
Definition collectInitialProbeItems (r : nodeRegistry) (s : scheduler) : list probeWorkItem * Z * scheduler :=
  let pend := pending r in
  let queue := (cv_queue (sc_conv s) ∩ dom pend) ∪ dom pend in
  let items := free_items (sc_leases s) pend queue in
  let tags : gset string := list_to_set (wk_tag <$> items) in
  (items, Z.of_nat (size pend),
   set_sc_leases (sc_leases s ∪ tags) (set_sc_conv (with_queue (queue ∖ tags) (sc_conv s)) s)).

(** ** Starting a round *)
Definition item_map (items : list probeWorkItem) : gmap string probeWorkItem :=
  foldl (λ m item, <[wk_tag item := item]> m) ∅ items.

Definition newActiveRound (v : view) (id : Z) (req : request) (items : list probeWorkItem) (conv : bool) : round :=
  mkRound id req (item_map items) [] (mkSummary (Z.of_nat (length items)) 0 0) (vw_policy v)
    (bool_decide (rq_kind req = ProbeRoundStartup)) conv 1.

(** [CollectLimited] starts the items in order, [limit] of them at a time. *)
Definition wave_limit (configured : Z) (items : list probeWorkItem) : Z :=
  let n := Z.of_nat (length items) in
  let limit := EffectiveProbeConcurrency configured n in
  let limit := if limit <? 1 then 1 else limit in
  if n <? limit then n else limit.
Definition launch_wave (a : round) (items : list probeWorkItem) (attempt : Z) (s : scheduler) : scheduler :=
  set_sc_wave (Some (mkWave (ar_id a) items attempt (wave_limit (pp_Concurrency (ar_policy a)) items))) s.

Definition start_status (v : view) (a : round) : ProbeRoundStatus :=
  mkRoundStatus true (rq_kind (ar_request a)) (vw_now v) (sm_Total (ar_summary a)) 0 0 0 (ar_attempt a) (vw_now v).
Definition to_caller (r : request) (o : list output) : list output := match rq_id r with Some _ => o | None => [] end.

Definition startActiveRound (v : view) (a : round) (s : scheduler) : scheduler :=
  let s := set_sc_status (start_status v a) s in
  let s := emit_output (to_caller (ar_request a) [OnStart (ar_request a) (sm_Total (ar_summary a))]) s in
  if sm_Total (ar_summary a) =? 0 then set_sc_events (sc_events s ++ [mkEvent (ar_id a) None]) s
  else launch_wave a ((range (ar_items a)).*2) 1 s.

Definition begin_round (v : view) (req : request) (items : list probeWorkItem) (conv : bool) (s : scheduler) : scheduler :=
  let id := (sc_nextRound s + 1) mod 2 ^ 64 in
  let a := newActiveRound v id req items conv in
  startActiveRound v a (set_sc_nextRound id (set_sc_watch true (set_sc_active (Some a) s))).

(** Requests whose caller has gone are answered without a round. *)
Definition refuse (r : request) (err : string) : list output :=
  match rq_id r with Some id => [Respond id (mkSummary 0 0 0) (Some err)] | None => [] end.
Fixpoint drop_cancelled (v : view) (l : list request) : list output * list request :=
  match l with
  | [] => ([], [])
  | r :: l' =>
    match ctx_err v r with
    | Some err => let '(o, rest) := drop_cancelled v l' in (refuse r err ++ o, rest)
    | None => ([], l)
    end
  end.

Definition batch_round (v : view) (req : request) (s : scheduler) : scheduler :=
  let c := collectBatchProbeItems v (rq_dueOnly req) s in begin_round v req c.1 false c.2.

Definition on_conv (f : convergence → convergence) (s : scheduler) : scheduler := set_sc_conv (f (sc_conv s)) s.

(** The next round of the convergence, or its end. *)
Definition converge (v : view) (s : scheduler) : scheduler :=
  let '(items, pend, s) := collectInitialProbeItems (vw_registry v) s in
  let s := on_conv updateInitialStatus s in
  match items with
  | [] =>
    if pend =? 0
    then on_conv updateInitialStatus (on_conv (finishInitialConvergence (pendingTags (vw_registry v))) s)
    else s
  | _ => begin_round v (mkRequest None ProbeRoundStartup false) items true s
  end.

Definition startNext (v : view) (s : scheduler) : scheduler :=
  match sc_active s with
  | Some _ => s
  | None =>
    if sc_retry s then s
    else
      let d := drop_cancelled v (sc_manual s) in
      let s := emit_output d.1 (set_sc_manual d.2 s) in
      match d.2 with
      | req :: rest => batch_round v req (set_sc_manual rest s)
      | [] =>
        if cv_running (sc_conv s) then converge v s
        else if sc_routine s then
          batch_round v (mkRequest None ProbeRoundPeriodic (sc_dueOnly s)) (set_sc_dueOnly false (set_sc_routine false s))
        else s
      end
  end.

(** ** The turns of the actor *)
Definition minimum_delay : Z := 10 * GoTime.millisecond.
Definition next_deadline (v : view) : option Z :=
  let r := vw_registry v in
  (λ delay, vw_now v + (if delay <? minimum_delay then minimum_delay else delay)) <$>
    nextProbeDelay (vw_now v) (vw_ready v) ((λ p, entry_at p r) <$> entries r) (vw_schedules v).
Definition resetPeriodicTimer (v : view) (s : scheduler) : scheduler := set_sc_periodic (next_deadline v) s.

(** The top of the loop, up to its select. *)
Definition top (v : view) (s : scheduler) : scheduler :=
  let s := if sc_dirty s then resetPeriodicTimer v (set_sc_dirty false s) else s in
  set_sc_waiting true (startNext v s).

(** The items of [a] that wait for a retry give up. *)
Definition without_retry (a : round) : round :=
  with_items (foldl (λ m item, delete (wk_tag item) m) (ar_items a) (ar_retry a)) [] a.

Definition finish_status (st : ProbeRoundStatus) : ProbeRoundStatus :=
  mkRoundStatus false (rs_Kind st) (rs_StartedAt st) (rs_Total st) (rs_Completed st) (rs_Success st)
    (rs_Failed st) (rs_Attempt st) (rs_LastProgressAt st).
Definition respond (a : round) (err : option string) : list output :=
  match rq_id (ar_request a) with Some id => [Respond id (ar_summary a) err] | None => [] end.

Definition finishActiveRound (v : view) (a : round) (s : scheduler) : scheduler :=
  let s := set_sc_status (finish_status (sc_status s)) s in
  let s := emit_output (respond a (ctx_err v (ar_request a))) s in
  if ar_convergence a then on_conv (refreshInitialQueue (pendingTags (vw_registry v))) s else s.

(** The end of a round, wherever it is found. *)
Definition end_round (v : view) (a : round) (s : scheduler) : scheduler :=
  let s := on_conv updateInitialStatus (finishActiveRound v a s) in
  resetPeriodicTimer v (set_sc_watch false (set_sc_active None s)).
Definition abandon_retry (v : view) (a : round) (s : scheduler) : scheduler :=
  end_round v (without_retry a) (release_tags (wk_tag <$> ar_retry a) s).

Definition progress (v : view) (ok : bool) (st : ProbeRoundStatus) : ProbeRoundStatus :=
  mkRoundStatus (rs_InFlight st) (rs_Kind st) (rs_StartedAt st) (rs_Total st) (rs_Completed st + 1)
    (rs_Success st + (if ok then 1 else 0)) (rs_Failed st + (if ok then 0 else 1)) (rs_Attempt st) (vw_now v).
Definition tally (ok : bool) (sm : ProbeBatchSummary) : ProbeBatchSummary :=
  mkSummary (sm_Total sm) (sm_Success sm + (if ok then 1 else 0)) (sm_Failed sm + (if ok then 0 else 1)).
Definition succeeded (res : ProbeBatchResult) : bool := match br_Err res with Some _ => false | None => true end.

(** A failed first attempt of a startup round is tried again. *)
Definition retries (v : view) (a : round) (res : ProbeBatchResult) : option probeWorkItem :=
  if ar_startup a && (ar_attempt a =? 1) && negb (succeeded res) && bool_decide (ctx_err v (ar_request a) = None) then
    match ar_items a !! br_Tag res with
    | Some item =>
      if bool_decide (is_Some (wk_probe item)) &&
         bool_decide (ni_Tag (en_info (entry_at (wk_entry item) (vw_registry v))) = wk_tag item)
      then Some item else None
    | None => None
    end
  else None.

Definition settle_item (a : round) (res : ProbeBatchResult) : round :=
  with_summary (tally (succeeded res) (ar_summary a)) (with_items (delete (br_Tag res) (ar_items a)) (ar_retry a) a).

Definition handleExecutionResult (v : view) (a : round) (res : ProbeBatchResult) (s : scheduler) : scheduler :=
  match retries v a res with
  | Some item => set_sc_active (Some (with_items (ar_items a) (ar_retry a ++ [item]) a)) s
  | None =>
    let s := releaseTagProbe (br_Tag res) true s in
    let s := set_sc_active (Some (settle_item a res)) s in
    let s := set_sc_status (progress v (succeeded res) (sc_status s)) s in
    emit_output (to_caller (ar_request a) [OnResult (ar_request a) res]) s
  end.

Definition handle_command (c : command) (s : scheduler) : scheduler :=
  match c with
  | enqueueInitialCommand tags ack => emit_output [Ack ack] (on_conv (enqueue_tags tags) s)
  | routineProbeCommand dueOnly =>
    let due := if negb (sc_routine s) then dueOnly else if negb dueOnly then false else sc_dueOnly s in
    set_sc_routine true (set_sc_dueOnly due s)
  | runBatchCommand r =>
    if bool_decide (is_Some (sc_active s)) || sc_retry s || negb (bool_decide (length (sc_manual s) = 0%nat))
    then emit_output (refuse r "probe round already in progress") s
    else set_sc_manual (sc_manual s ++ [r]) s
  | wakeProbeCommand => s
  end.

Definition handle_event (v : view) (e : event) (s : scheduler) : scheduler :=
  match sc_active s with
  | None => s
  | Some a =>
    if negb (ev_round e =? ar_id a) then s
    else
      match ev_result e with
      | Some res => handleExecutionResult v a res s
      | None =>
        if ar_startup a && (ar_attempt a =? 1) && negb (bool_decide (length (ar_retry a) = 0%nat)) then
          match ctx_err v (ar_request a) with
          | None => set_sc_retry true s
          | Some _ => abandon_retry v a s
          end
        else end_round v a s
      end
  end.

Definition attempt_status (st : ProbeRoundStatus) : ProbeRoundStatus :=
  mkRoundStatus (rs_InFlight st) (rs_Kind st) (rs_StartedAt st) (rs_Total st) (rs_Completed st)
    (rs_Success st) (rs_Failed st) 2 (rs_LastProgressAt st).
Definition handle_retry (v : view) (s : scheduler) : scheduler :=
  let s := set_sc_retry false s in
  match sc_active s with
  | None => s
  | Some a =>
    match ctx_err v (ar_request a) with
    | Some _ => abandon_retry v a s
    | None =>
      let a := with_attempt 2 a in
      launch_wave a (ar_retry a) 2 (set_sc_status (attempt_status (sc_status s)) (set_sc_active (Some a) s))
    end
  end.

Definition handle_cancel (v : view) (s : scheduler) : scheduler :=
  match sc_active s with
  | None => set_sc_watch false s
  | Some a => if sc_retry s then abandon_retry v a (set_sc_retry false s) else set_sc_watch false s
  end.

Definition handle_periodic (s : scheduler) : scheduler :=
  let due := if negb (sc_routine s) then true else sc_dueOnly s in
  set_sc_routine true (set_sc_dueOnly due (set_sc_periodic None s)).

Definition stop_actor (s : scheduler) : scheduler :=
  let s := match sc_active s with Some a => release_tags ((range (ar_items a)).*1) s | None => s end in
  set_sc_stopped true (set_sc_manual [] (emit_output (sc_manual s ≫= λ r, refuse r canceled) s)).

(** ** The steps *)

(** The requests of callers, wherever they are; a new request is a fresh object. *)
Definition command_request (c : command) : option Z := match c with runBatchCommand r => rq_id r | _ => None end.
Definition answered_request (o : output) : option Z := match o with Respond id _ _ => Some id | _ => None end.
Definition answered (s : scheduler) : list Z := omap answered_request (sc_out s).
Definition active_request (s : scheduler) : list Z :=
  match sc_active s with Some a => option_list (rq_id (ar_request a)) | None => [] end.
Definition request_ids (s : scheduler) : list Z :=
  omap command_request (sc_commands s) ++ omap rq_id (sc_manual s) ++ active_request s ++ answered s.

Inductive scheduler_step (v : view) (s : scheduler) : scheduler → Prop :=
  | step_top : sc_waiting s = false → sc_stopped s = false → scheduler_step v s (top v s)
  | step_command c rest : sc_waiting s = true → sc_stopped s = false → sc_commands s = c :: rest →
      scheduler_step v s (set_sc_waiting false (handle_command c (set_sc_commands rest s)))
  | step_event e rest : sc_waiting s = true → sc_stopped s = false → sc_events s = e :: rest →
      scheduler_step v s (set_sc_waiting false (handle_event v e (set_sc_events rest s)))
  | step_retry : sc_waiting s = true → sc_stopped s = false → sc_retry s = true →
      scheduler_step v s (set_sc_waiting false (handle_retry v s))
  | step_cancel a : sc_waiting s = true → sc_stopped s = false → sc_watch s = true →
      sc_active s = Some a → ctx_err v (ar_request a) ≠ None →
      scheduler_step v s (set_sc_waiting false (handle_cancel v s))
  | step_periodic t : sc_waiting s = true → sc_stopped s = false → sc_periodic s = Some t → t ≤ vw_now v →
      scheduler_step v s (set_sc_waiting false (handle_periodic s))
  | step_stop : sc_waiting s = true → sc_stopped s = false → vw_done v = true → scheduler_step v s (stop_actor s)
  | step_send c : (length (sc_commands s) < command_capacity)%nat → (∀ r, c ≠ runBatchCommand r) →
      scheduler_step v s (send_command c s)
  | step_submit id kind dueOnly : (length (sc_commands s) < command_capacity)%nat → id ∉ request_ids s →
      scheduler_step v s (send_command (runBatchCommand (mkRequest (Some id) kind dueOnly)) s)
  | step_reschedule : scheduler_step v s (reschedulePeriodic s)
  | step_signal : scheduler_step v s (signal s)
  | step_begin tag : scheduler_step v s (beginTagProbe tag s).2
  | step_end tag : tag ∈ sc_external s → scheduler_step v s (endTagProbe tag s)
  | step_result w i item res : sc_wave s = Some w → wv_rest w !! i = Some item → (Z.of_nat i < wv_limit w) →
      br_Tag res = wk_tag item → (length (sc_events s) < event_capacity)%nat →
      scheduler_step v s (set_sc_events (sc_events s ++ [mkEvent (wv_round w) (Some res)])
                           (set_sc_wave (Some (mkWave (wv_round w) (delete i (wv_rest w)) (wv_attempt w) (wv_limit w))) s))
  | step_done w : sc_wave s = Some w → wv_rest w = [] → (length (sc_events s) < event_capacity)%nat →
      scheduler_step v s (set_sc_events (sc_events s ++ [mkEvent (wv_round w) None]) (set_sc_wave None s))
  | step_quit w : sc_wave s = Some w → vw_done v = true → scheduler_step v s (set_sc_quit true (set_sc_wave None s)).

Definition any_step (s s' : scheduler) : Prop := ∃ v, scheduler_step v s s'.
Definition reachable_scheduler : scheduler → Prop := rtc any_step newProbeScheduler.
End actor.
