(* ===== verification/ProbeRounds.v ===== *)
(** The rounds of the probe scheduler: what every interleaving preserves. Leases are
    held exactly by the items of the round and by their other owners, and the wave, the
    events and the summary account for every item. *)
From S2P Require Import Prelude Text Floats NetIP NetURL NodeCodec MonitorRegistry ProbeSchedule ProbeScheduler.

#[local] Open Scope Z_scope.

Definition event_tags (es : list event) : list string := omap (λ e, br_Tag <$> ev_result e) es.
Definition is_done (e : event) : Prop := ev_result e = None.

(** Where a round is: its wave runs (or was left by the executor), its end is queued, or
    it waits for the retry. [rest] are the tags whose probe has not reported. *)
Inductive phase (id : Z) (s : scheduler) : list string → Prop :=
  | phase_wave w : sc_wave s = Some w → wv_round w = id → sc_retry s = false → Forall (λ e, ¬ is_done e) (sc_events s) →
      phase id s (wk_tag <$> wv_rest w)
  | phase_quit rest : sc_wave s = None → sc_quit s = true → sc_retry s = false → Forall (λ e, ¬ is_done e) (sc_events s) →
      phase id s rest
  | phase_end es : sc_wave s = None → sc_retry s = false → sc_events s = es ++ [mkEvent id None] →
      Forall (λ e, ¬ is_done e) es → phase id s []
  | phase_retry : sc_wave s = None → sc_retry s = true → sc_events s = [] → phase id s [].

Definition held_back (a : round) : list string := if ar_attempt a =? 1 then wk_tag <$> ar_retry a else [].

(** A round in progress: every item is to be probed, reported, or held back, once. *)
Record round_inv (a : round) (s : scheduler) : Prop := {
  ri_events : Forall (λ e, ev_round e = ar_id a) (sc_events s);
  ri_attempt : ar_attempt a = 1 ∨ ar_attempt a = 2;
  ri_retry : sc_retry s = true → ar_attempt a = 1 ∧ ar_startup a = true;
  ri_startup : ar_startup a = false → ar_retry a = [] ∧ ar_attempt a = 1;
  ri_keys : map_Forall (λ tag item, wk_tag item = tag) (ar_items a);
  ri_items : ∃ rest, phase (ar_id a) s rest ∧ rest ++ event_tags (sc_events s) ++ held_back a ≡ₚ elements (dom (ar_items a));
  ri_total : sm_Total (ar_summary a) = sm_Success (ar_summary a) + sm_Failed (ar_summary a) + Z.of_nat (size (ar_items a))
}.

Definition work_tags (s : scheduler) : gset string :=
  if sc_stopped s then ∅ else match sc_active s with Some a => dom (ar_items a) | None => ∅ end.

(** The counts of a response without an error add up. *)
Definition complete_answer (o : output) : Prop :=
  match o with Respond _ sm None => sm_Total sm = sm_Success sm + sm_Failed sm | _ => True end.

Record scheduler_inv (s : scheduler) : Prop := {
  si_leases : sc_leases s = work_tags s ∪ sc_external s;
  si_disjoint : work_tags s ## sc_external s;
  si_round : sc_stopped s = false →
    match sc_active s with
    | Some a => round_inv a s
    | None => sc_wave s = None ∧ sc_events s = [] ∧ sc_retry s = false
    end;
  si_answers : Forall complete_answer (sc_out s)
}.

(** ** States that agree on all of this *)
Definition core (s : scheduler) :=
  (sc_leases s, sc_external s, sc_active s, sc_wave s, sc_events s, sc_retry s, sc_stopped s, sc_quit s).

Lemma core_inv s s' : core s = core s' → Forall complete_answer (sc_out s') → scheduler_inv s → scheduler_inv s'.
Proof.
  unfold core. intros [= Hl He Ha Hw Hv Hr Hst Hq] Hout [H1 H2 H3 _]. unfold work_tags in *.
  split; unfold work_tags; rewrite <-?Hl, <-?He, <-?Ha, <-?Hst; [done..| |done].
  intros Hs. specialize (H3 Hs). destruct (sc_active s) as [a|]; [|congruence].
  destruct H3 as [He' Hatt Hret Hsu Hk (rest & Hph & Hperm) Htot].
  split; rewrite <-?Hv, <-?Hr; try done. exists rest. split; [|done].
  destruct Hph; [eapply phase_wave|eapply phase_quit|eapply phase_end|eapply phase_retry]; rewrite <-?Hw, <-?Hr, <-?Hv, <-?Hq; try done.
Qed.

(** The wake-ups and the bookkeeping of the actor leave it alone. *)
Lemma core_signal s : core (signal s) = core s ∧ sc_out (signal s) = sc_out s.
Proof. unfold signal. by case_decide. Qed.

Lemma core_release tag wake s :
  core (releaseTagProbe tag wake s) = core (set_sc_leases (sc_leases s ∖ {[tag]}) s) ∧ sc_out (releaseTagProbe tag wake s) = sc_out s.
Proof. unfold releaseTagProbe. destruct wake; [|done]. apply (core_signal (set_sc_leases (sc_leases s ∖ {[tag]}) s)). Qed.

Lemma core_release_tags tags s :
  core (release_tags tags s) = core (set_sc_leases (sc_leases s ∖ list_to_set tags) s) ∧ sc_out (release_tags tags s) = sc_out s.
Proof.
  revert s. induction tags as [|tag tags IH]; intros s.
  - split; [|done]. unfold core; simpl. by rewrite difference_empty_L.
  - change (release_tags (tag :: tags) s) with (release_tags tags (releaseTagProbe tag false s)).
    destruct (IH (releaseTagProbe tag false s)) as [-> ->]. split; [|done]. unfold core; simpl.
    by rewrite difference_difference_l_L.
Qed.

Lemma Forall_emit o s : Forall complete_answer (sc_out s) → Forall complete_answer o → Forall complete_answer (sc_out (emit_output o s)).
Proof. intros; by apply Forall_app. Qed.

Lemma refuse_complete r err : Forall complete_answer (refuse r err).
Proof. unfold refuse. destruct (rq_id r); repeat constructor. Qed.

(** ** Beginning a round *)
Lemma item_map_spec (items : list probeWorkItem) :
  NoDup (wk_tag <$> items) →
  map_Forall (λ tag item, wk_tag item = tag) (item_map items) ∧ dom (item_map items) = list_to_set (wk_tag <$> items) ∧
  size (item_map items) = length items.
Proof.
  intros Hnd. unfold item_map.
  assert (∀ m : gmap string probeWorkItem, map_Forall (λ tag item, wk_tag item = tag) m → dom m ## list_to_set (wk_tag <$> items) →
     let m' := foldl (λ m item, <[wk_tag item := item]> m) m items in
     map_Forall (λ tag item, wk_tag item = tag) m' ∧ dom m' = dom m ∪ list_to_set (wk_tag <$> items) ∧ size m' = (size m + length items)%nat) as H.
  { induction items as [|item items IH]; intros m Hm Hd; simpl in *; [split_ands; [done|set_solver|lia]|].
    apply NoDup_cons in Hnd as [Hnot Hnd].
    destruct (IH Hnd (<[wk_tag item := item]> m)) as (H1 & H2 & H3).
    - by apply map_Forall_insert_2.
    - rewrite dom_insert_L. intros t. rewrite elem_of_union, elem_of_singleton. intros [->|Ht] Hin.
      + apply elem_of_list_to_set in Hin. done.
      + set_solver.
    - split_ands; [done|rewrite H2, dom_insert_L; set_solver|]. rewrite H3, map_size_insert_None; [lia|].
      apply not_elem_of_dom. set_solver. }
  destruct (H ∅) as (H1 & H2 & H3); [apply map_Forall_empty|set_solver|].
  split_ands; [done|rewrite H2; set_solver|]. rewrite H3, map_size_empty. lia.
Qed.

Section rounds.
Context `{RZ : !RangeOrder Z, RS : !RangeOrder string}.

Lemma range_tags (m : gmap string probeWorkItem) :
  map_Forall (λ tag item, wk_tag item = tag) m → wk_tag <$> (range m).*2 ≡ₚ elements (dom m).
Proof.
  intros Hk. assert (wk_tag <$> (range m).*2 = (range m).*1) as ->.
  { rewrite <-list_fmap_compose. apply list_fmap_ext. intros i [k x] Hx.
    apply list_elem_of_lookup_2, elem_of_range in Hx. simpl. by apply Hk. }
  apply NoDup_Permutation; [apply NoDup_range_fst|apply NoDup_elements|].
  intros tag. rewrite elem_of_elements, elem_of_dom, list_elem_of_fmap. split.
  - intros ([k x] & -> & Hx%elem_of_range). eauto.
  - intros [x Hx]. exists (tag, x). split; [done|by apply elem_of_range].
Qed.

(** The state in which a round begins: nothing runs, and its items are leased. *)
Record ready_for (items : list probeWorkItem) (s : scheduler) : Prop := {
  rf_stopped : sc_stopped s = false;
  rf_wave : sc_wave s = None;
  rf_events : sc_events s = [];
  rf_retry : sc_retry s = false;
  rf_nodup : NoDup (wk_tag <$> items);
  rf_free : list_to_set (wk_tag <$> items) ## sc_external s;
  rf_leases : sc_leases s = list_to_set (wk_tag <$> items) ∪ sc_external s;
  rf_out : Forall complete_answer (sc_out s)
}.

Lemma begin_round_inv v req items conv s :
  (conv = true → rq_kind req = ProbeRoundStartup) → ready_for items s → scheduler_inv (begin_round v req items conv s).
Proof.
  intros Hconv [Hst Hw He Hr Hnd Hfree Hl Hout].
  destruct (item_map_spec items Hnd) as (Hkeys & Hdom & Hsize).
  set (s' := begin_round v req items conv s).
  assert (Forall complete_answer (sc_out s')) as Hout'.
  { subst s'. unfold begin_round, startActiveRound. case_match; apply Forall_emit; try done;
      unfold to_caller; case_match; by repeat constructor. }
  assert (sc_stopped s' = false ∧ sc_active s' = Some (newActiveRound v ((sc_nextRound s + 1) mod 2 ^ 64) req items conv) ∧
          sc_leases s' = sc_leases s ∧ sc_external s' = sc_external s ∧ sc_retry s' = false) as (Hst' & Ha & Hl' & Hx & Hr').
  { subst s'. unfold begin_round, startActiveRound. by case_match. }
  split; unfold work_tags; rewrite ?Hst', ?Ha, ?Hl', ?Hx; simpl; rewrite ?Hdom; [done..| |done].
  intros _. split; simpl.
  - subst s'. unfold begin_round, startActiveRound. simpl. case_match; simpl; rewrite He; repeat constructor.
  - by left.
  - by rewrite Hr'.
  - done.
  - done.
  - subst s'. unfold begin_round, startActiveRound, held_back. simpl. destruct (Z.eqb_spec (Z.of_nat (length items)) 0) as [H0|H0].
    + exists []. split.
      * apply (phase_end _ _ []); simpl; rewrite ?He; done || by rewrite ?Hw, ?Hr.
      * simpl. rewrite He. simpl. destruct items; [|simpl in H0; lia]. simpl in Hdom. by rewrite Hdom, elements_empty.
    + eexists. split; [eapply phase_wave; simpl; rewrite ?He; done|]. simpl. rewrite He. simpl. rewrite app_nil_r. by apply range_tags.
  - lia.
Qed.

Lemma reserve_fold items acc :
  let out := foldl reserve acc items in
  NoDup (wk_tag <$> acc.1) → (∀ t, t ∈ wk_tag <$> acc.1 → t ∈ acc.2) →
  ∃ new, out.1 = acc.1 ++ new ∧ NoDup (wk_tag <$> new) ∧ (list_to_set (wk_tag <$> new) : gset string) ## acc.2 ∧
    out.2 = acc.2 ∪ list_to_set (wk_tag <$> new).
Proof.
  revert acc. induction items as [|item items IH]; intros acc; simpl; intros Hnd Hin.
  { exists []. rewrite app_nil_r. split_ands; [done|constructor|set_solver|set_solver]. }
  unfold reserve at 2 4. case_decide as Hb; [by apply IH|].
  destruct (IH (acc.1 ++ [item], acc.2 ∪ {[wk_tag item]})) as (new & H1 & H2 & H3 & H4); simpl in *.
  - rewrite fmap_app. simpl. apply NoDup_app. split_ands; [done| |apply NoDup_singleton].
    intros t Ht ->%list_elem_of_singleton. by apply Hb, Hin.
  - intros t. rewrite fmap_app, elem_of_app. simpl. set_solver.
  - exists (item :: new). rewrite H1, H4. simpl. split_ands; [by rewrite <-(assoc_L (++))| | |set_solver].
    + apply NoDup_cons. split; [|done]. intros Ht. apply (H3 (wk_tag item)); set_solver.
    + set_solver.
Qed.

Lemma batch_round_inv v req s :
  scheduler_inv s → sc_stopped s = false → sc_active s = None → scheduler_inv (batch_round v req s).
Proof.
  intros [Hl Hd Hr Hout] Hst Ha. specialize (Hr Hst). unfold work_tags in *. rewrite Hst, Ha in *. destruct Hr as (Hw & He & Hr).
  unfold batch_round. apply begin_round_inv; [done|]. unfold collectBatchProbeItems, reserveBatchProbeItems. simpl.
  match goal with |- context [foldl reserve ?acc ?items] =>
    destruct (reserve_fold items acc) as (new & H1 & H2 & H3 & H4); [constructor|by intros t ?%elem_of_nil|] end.
  simpl in *. rewrite H1. split; simpl; try done.
  - rewrite Hl in H3. set_solver.
  - rewrite H4, Hl. set_solver.
Qed.

Lemma free_items_tags leases (pend : gmap string probeWorkItem) queue :
  map_Forall (λ tag item, wk_tag item = tag) pend →
  NoDup (wk_tag <$> free_items leases pend queue) ∧ (list_to_set (wk_tag <$> free_items leases pend queue) : gset string) ## leases.
Proof.
  intros Hk. unfold free_items. pose proof (NoDup_elements queue) as Hnd. revert Hnd. generalize (elements queue). intros l Hnd.
  assert (∀ t, t ∈ wk_tag <$> omap (λ tag, if decide (tag ∈ leases) then None else pend !! tag) l → t ∈ l ∧ t ∉ leases) as Hin.
  { intros t (item & -> & (tag & Htag & Hi)%list_elem_of_omap)%list_elem_of_fmap. case_decide; [done|].
    by rewrite (Hk _ _ Hi). }
  split; [|set_solver]. clear -Hnd Hk. induction Hnd as [|tag l Hnot Hnd IH]; simpl; [constructor|].
  case_decide; [done|]. destruct (pend !! tag) as [item|] eqn:Hi; [|done]. simpl. apply NoDup_cons. split; [|done].
  rewrite (Hk _ _ Hi). intros (item' & Heq & (tag' & Htag & Hi')%list_elem_of_omap)%list_elem_of_fmap. case_decide; [done|].
  apply Hk in Hi'. congruence.
Qed.

Lemma pending_keys r : map_Forall (λ tag item, wk_tag item = tag) (pending r).
Proof.
  intros tag item. unfold pending. rewrite map_lookup_imap. destruct (rg_byTag r !! tag); [|done]. simpl.
  case_match; [done|]. by intros [= <-].
Qed.

Lemma converge_inv v s :
  scheduler_inv s → sc_stopped s = false → sc_active s = None → scheduler_inv (converge v s).
Proof.
  intros Hs Hst Ha. pose proof Hs as [Hl Hd Hr Hout]. specialize (Hr Hst). unfold work_tags in Hl. rewrite Hst, Ha in *.
  destruct Hr as (Hw & He & Hr). unfold converge, collectInitialProbeItems.
  destruct (free_items_tags (sc_leases s) (pending (vw_registry v))
              (cv_queue (sc_conv s) ∩ dom (pending (vw_registry v)) ∪ dom (pending (vw_registry v))) (pending_keys _)) as [Hnd Hfree].
  destruct (free_items _ _ _) as [|item items] eqn:Hitems.
  - assert (∀ c, scheduler_inv (set_sc_conv c (set_sc_leases (sc_leases s ∪ ∅) s))) as Hc.
    { intros c. eapply (core_inv s); [|done|done]. unfold core; simpl. by rewrite union_empty_r_L. }
    simpl. case_match; apply Hc.
  - rewrite <-Hitems in *. apply begin_round_inv; [done|]. split; simpl; try done; set_solver.
Qed.

Lemma drop_cancelled_complete v l : Forall complete_answer (drop_cancelled v l).1.
Proof.
  induction l as [|r l IH]; simpl; [constructor|]. destruct (ctx_err v r); [|constructor].
  destruct (drop_cancelled v l). apply Forall_app. split; [apply refuse_complete|done].
Qed.

Lemma startNext_inv v s : scheduler_inv s → sc_stopped s = false → scheduler_inv (startNext v s).
Proof.
  intros Hs Hst. unfold startNext. destruct (sc_active s) as [a|] eqn:Ha; [done|]. destruct (sc_retry s); [done|].
  assert (scheduler_inv (emit_output (drop_cancelled v (sc_manual s)).1 (set_sc_manual (drop_cancelled v (sc_manual s)).2 s))) as Hs'.
  { eapply core_inv; [|apply Forall_emit; [by apply Hs|apply drop_cancelled_complete]|exact Hs]. done. }
  destruct (drop_cancelled v (sc_manual s)) as [o manual]. simpl in *. destruct manual as [|req rest].
  - case_match; [by apply converge_inv|]. case_match; [|done]. apply batch_round_inv; [|done..].
    eapply core_inv; [|by apply Hs'|exact Hs']. done.
  - apply batch_round_inv; [|done..]. eapply core_inv; [|by apply Hs'|exact Hs']. done.
Qed.

Lemma top_inv v s : scheduler_inv s → sc_stopped s = false → scheduler_inv (top v s).
Proof.
  intros Hs Hst. unfold top. set (s0 := if sc_dirty s then _ else s).
  assert (scheduler_inv s0 ∧ sc_stopped s0 = false) as [Hs0 Hst0].
  { subst s0. destruct (sc_dirty s); [|done]. split; [|done]. eapply core_inv; [|by apply Hs|exact Hs]. done. }
  pose proof (startNext_inv v s0 Hs0 Hst0) as H. eapply core_inv; [|by apply H|exact H]. done.
Qed.

(** ** The end of a round *)
Lemma end_round_inv v a s :
  sc_stopped s = false → sc_leases s = sc_external s → sc_wave s = None → sc_events s = [] → sc_retry s = false →
  Forall complete_answer (sc_out s) →
  (ctx_err v (ar_request a) = None → sm_Total (ar_summary a) = sm_Success (ar_summary a) + sm_Failed (ar_summary a)) →
  scheduler_inv (end_round v a s).
Proof.
  intros Hst Hl Hw He Hr Hout Hsum.
  assert (Forall complete_answer (respond a (ctx_err v (ar_request a)))) as Hresp.
  { unfold respond. destruct (rq_id (ar_request a)); [|constructor]. constructor; [|constructor]. simpl. by case_match; auto. }
  unfold end_round, finishActiveRound. destruct (ar_convergence a); (split; unfold work_tags; simpl; rewrite ?Hst);
    rewrite ?Hl; try set_solver; try (by apply Forall_app); by intros _.
Qed.

Lemma without_retry_dom a : dom (ar_items (without_retry a)) = dom (ar_items a) ∖ list_to_set (wk_tag <$> ar_retry a).
Proof.
  unfold without_retry; simpl. generalize (ar_items a). induction (ar_retry a) as [|item l IH]; intros m; simpl; [set_solver|].
  rewrite IH, dom_delete_L. set_solver.
Qed.

(** Ending early releases what waits for its retry, which is all there is. *)
Lemma abandon_inv v a s :
  sc_stopped s = false → sc_leases s = dom (ar_items a) ∪ sc_external s → dom (ar_items a) ## sc_external s →
  sc_wave s = None → sc_events s = [] → sc_retry s = false → Forall complete_answer (sc_out s) →
  wk_tag <$> ar_retry a ≡ₚ elements (dom (ar_items a)) → ctx_err v (ar_request a) ≠ None →
  scheduler_inv (abandon_retry v a s).
Proof.
  intros Hst Hl Hd Hw He Hr Hout Hperm Hctx. unfold abandon_retry.
  destruct (core_release_tags (wk_tag <$> ar_retry a) s) as [Hcore Ho]. unfold core in Hcore. simpl in Hcore.
  injection Hcore as Hl' Hx' Ha' Hw' He' Hr' Hst' Hq'.
  assert ((list_to_set (wk_tag <$> ar_retry a) : gset string) = dom (ar_items a)) as Hset.
  { rewrite Hperm. apply list_to_set_elements_L. }
  apply end_round_inv; try congruence; [|by intros ?%Hctx].
  rewrite Hl', Hx', Hl, Hset. set_solver.
Qed.

(** What the invariant says of a round whose end was reached. *)
Lemma round_end_empty a s :
  round_inv a s → sc_events s = [mkEvent (ar_id a) None] → sc_wave s = None ∧ sc_retry s = false ∧ held_back a ≡ₚ elements (dom (ar_items a)).
Proof.
  intros [_ _ _ _ _ (rest & Hph & Hperm) _] He. rewrite He in Hperm. simpl in Hperm.
  destruct Hph as [w Hw _ _ Hnd|rest _ _ _ Hnd|es Hw Hr Hev Hnd|_ _ Hev].
  - rewrite He in Hnd. rewrite Forall_singleton in Hnd. by destruct (Hnd eq_refl).
  - rewrite He in Hnd. rewrite Forall_singleton in Hnd. by destruct (Hnd eq_refl).
  - done.
  - by rewrite He in Hev.
Qed.

(** ** The events of the executor *)
Lemma phase_tail id s s' rest e es :
  phase id s rest → sc_events s = e :: es → ¬ is_done e → sc_events s' = es → sc_wave s' = sc_wave s →
  sc_retry s' = sc_retry s → sc_quit s' = sc_quit s → phase id s' rest.
Proof.
  intros Hph He Hnd He' Hw Hr Hq. destruct Hph as [w Hw0 Hid Hr0 Hf|rest Hw0 Hq0 Hr0 Hf|es0 Hw0 Hr0 Hev Hf|Hw0 Hr0 Hev].
  - apply phase_wave; try congruence. rewrite He in Hf. rewrite He'. by apply Forall_cons in Hf as [_ ?].
  - apply phase_quit; try congruence. rewrite He in Hf. rewrite He'. by apply Forall_cons in Hf as [_ ?].
  - rewrite He in Hev. destruct es0 as [|e0 es0]; simplify_eq/=; [by destruct Hnd|].
    apply (phase_end _ _ es0); try congruence. by apply Forall_cons in Hf as [_ ?].
  - congruence.
Qed.

Lemma phase_done id s rest e es :
  phase id s rest → sc_events s = e :: es → is_done e → es = [] ∧ e = mkEvent id None ∧ rest = [].
Proof.
  intros Hph He Hd. destruct Hph as [w Hw0 Hid Hr0 Hf|rest Hw0 Hq0 Hr0 Hf|es0 Hw0 Hr0 Hev Hf|Hw0 Hr0 Hev]; rewrite He in *.
  - by apply Forall_cons in Hf as [? _].
  - by apply Forall_cons in Hf as [? _].
  - destruct es0; simplify_eq/=; [done|]. by apply Forall_cons in Hf as [? _].
  - done.
Qed.

Lemma elements_remove (tag : string) l (X : gset string) : tag :: l ≡ₚ elements X → l ≡ₚ elements (X ∖ {[tag]}) ∧ tag ∈ X.
Proof.
  intros Hp. assert (NoDup (tag :: l)) as [Hnot Hnd]%NoDup_cons by (rewrite Hp; apply NoDup_elements).
  assert (∀ t, t ∈ X ↔ t = tag ∨ t ∈ l) as Hin by (intros t; rewrite <-elem_of_elements, <-Hp; apply elem_of_cons).
  split; [|apply Hin; by left]. apply NoDup_Permutation; [done|apply NoDup_elements|].
  intros t. rewrite elem_of_elements, elem_of_difference, elem_of_singleton, Hin. naive_solver congruence.
Qed.

Lemma result_inv v a res es s :
  scheduler_inv s → sc_stopped s = false → sc_active s = Some a → sc_events s = mkEvent (ar_id a) (Some res) :: es →
  scheduler_inv (handleExecutionResult v a res (set_sc_events es s)).
Proof.
  intros Hs Hst Ha He. pose proof Hs as [Hl Hd Hr Hout]. specialize (Hr Hst). unfold work_tags in Hl, Hd. rewrite Hst, Ha in *.
  destruct Hr as [Hev Hatt Hret Hsu Hk (rest & Hph & Hperm) Htot]. rewrite He in Hev. apply Forall_cons in Hev as [_ Hev].
  rewrite He in Hperm. simpl in Hperm.
  assert (∀ s', sc_events s' = es → sc_wave s' = sc_wave s → sc_retry s' = sc_retry s → sc_quit s' = sc_quit s → phase (ar_id a) s' rest) as Hph'
    by (intros; by eapply phase_tail).
  rewrite <-Permutation_middle in Hperm.
  unfold handleExecutionResult. destruct (retries v a res) as [item|] eqn:Hre.
  - unfold retries in Hre. destruct (ar_startup a) eqn:Hstart; [|done]. destruct (Z.eqb_spec (ar_attempt a) 1) as [Hone|]; [|done].
    destruct (negb (succeeded res)), (bool_decide (ctx_err v (ar_request a) = None)); try done. simpl in Hre.
    destruct (ar_items a !! br_Tag res) as [item'|] eqn:Hi; [|done]. destruct (_ && _); simplify_eq.
    split; unfold work_tags; simpl; rewrite ?Hst; simpl; try done. intros _. split; simpl; try done.
    + by rewrite Hstart.
    + exists rest. split; [by apply Hph'|]. rewrite <-Hperm. unfold held_back; simpl. rewrite Hone. simpl.
      rewrite fmap_app. simpl. rewrite (Hk _ _ Hi). rewrite !(assoc_L (++)). rewrite <-Permutation_cons_append. done.
  - apply elements_remove in Hperm as [Hperm Hin]. apply elem_of_dom in Hin as [item Hi].
    assert (∀ s', sc_leases s' = sc_leases s ∖ {[br_Tag res]} → sc_external s' = sc_external s → sc_active s' = Some (settle_item a res) →
      sc_stopped s' = false → sc_events s' = es → sc_wave s' = sc_wave s → sc_retry s' = sc_retry s → sc_quit s' = sc_quit s →
      Forall complete_answer (sc_out s') → scheduler_inv s') as Hgoal.
    { intros s' Hl' Hx' Ha' Hst' He' Hw' Hr' Hq' Hout'. split; unfold work_tags; rewrite ?Hl', ?Hx', ?Ha', ?Hst'; simpl.
      - rewrite Hl, dom_delete_L. apply elem_of_dom_2 in Hi. set_solver.
      - rewrite dom_delete_L. set_solver.
      - intros _. split; simpl; rewrite ?He', ?Hr'; try done.
        + by apply map_Forall_delete.
        + exists rest. split; [by apply Hph'|]. rewrite dom_delete_L. done.
        + rewrite map_size_delete, Hi. assert (size (ar_items a) ≠ 0%nat) by (apply map_size_ne_0_lookup; eauto).
          destruct (succeeded res); lia.
      - done. }
    destruct (core_release (br_Tag res) true (set_sc_events es s)) as [Hcore Ho].
    set (s1 := releaseTagProbe _ _ _) in *. clearbody s1. unfold core in Hcore. simpl in Hcore.
    injection Hcore as Hl' Hx' Ha' Hw' He' Hr' Hst' Hq'. apply Hgoal; simpl; try congruence.
    rewrite Ho. simpl. apply Forall_app. split; [done|]. unfold to_caller. case_match; repeat constructor.
Qed.

Lemma done_inv v a e s :
  scheduler_inv s → sc_stopped s = false → sc_active s = Some a → sc_events s = [e] → is_done e →
  scheduler_inv (handle_event v e (set_sc_events [] s)).
Proof.
  intros Hs Hst Ha He Hdone. pose proof Hs as [Hl Hd Hr Hout]. specialize (Hr Hst). unfold work_tags in Hl, Hd. rewrite Hst, Ha in *.
  pose proof Hr as [Hev Hatt Hret Hsu Hk (rest & Hph & _) Htot].
  destruct (phase_done _ _ _ _ _ Hph He Hdone) as (_ & -> & _).
  destruct (round_end_empty a s Hr He) as (Hw & Hr0 & Hperm).
  unfold handle_event. simpl. rewrite Ha, Z.eqb_refl. simpl.
  destruct (ar_startup a && (ar_attempt a =? 1) && negb (bool_decide (length (ar_retry a) = 0%nat))) eqn:Hagain.
  - apply andb_prop in Hagain as [[Hstart Hone]%andb_prop _]. apply Z.eqb_eq in Hone.
    unfold held_back in Hperm. rewrite Hone in Hperm. simpl in Hperm. destruct (ctx_err v (ar_request a)) eqn:Hctx.
    + apply abandon_inv; simpl; try done. by rewrite Hctx.
    + split; unfold work_tags; simpl; rewrite ?Hst, ?Ha; try done. intros _. split; simpl; try done.
      exists []. split; [by apply phase_retry|]. unfold held_back. by rewrite Hone.
  - assert (held_back a = []) as Hnil.
    { unfold held_back. destruct (Z.eqb_spec (ar_attempt a) 1) as [Hone|]; [|done]. simpl in Hagain.
      destruct (ar_startup a); [|by destruct (Hsu eq_refl) as [-> _]]. simpl in Hagain. rewrite ?Hone in Hagain.
      by destruct (ar_retry a). }
    rewrite Hnil in Hperm. symmetry in Hperm. apply Permutation_nil_r, elements_empty_inv in Hperm. apply leibniz_equiv in Hperm.
    apply dom_empty_inv_L in Hperm. apply end_round_inv; simpl; try done.
    + rewrite Hl, Hperm. set_solver.
    + intros _. rewrite Htot, Hperm, map_size_empty. lia.
Qed.

Lemma event_inv v e es s :
  scheduler_inv s → sc_stopped s = false → sc_events s = e :: es → scheduler_inv (handle_event v e (set_sc_events es s)).
Proof.
  intros Hs Hst He. pose proof (si_round _ Hs Hst) as Hr. destruct (sc_active s) as [a|] eqn:Ha.
  2:{ destruct Hr as (_ & Hnil & _). congruence. }
  pose proof (ri_events _ _ Hr) as Hev. rewrite He in Hev. apply Forall_cons in Hev as [Hid _].
  destruct e as [id [res|]]; simpl in Hid; subst id.
  - unfold handle_event. simpl. rewrite Ha, Z.eqb_refl. simpl. by apply result_inv.
  - destruct (ri_items _ _ Hr) as (rest & Hph & _). destruct (phase_done _ _ _ _ _ Hph He eq_refl) as (-> & _ & _).
    by apply done_inv with a.
Qed.

(** ** The other turns *)
Lemma waiting_retry a s :
  round_inv a s → sc_retry s = true →
  sc_wave s = None ∧ sc_events s = [] ∧ ar_attempt a = 1 ∧ ar_startup a = true ∧ wk_tag <$> ar_retry a ≡ₚ elements (dom (ar_items a)).
Proof.
  intros [_ _ Hret _ _ (rest & Hph & Hperm) _] Hr. destruct (Hret Hr) as [Hone Hstart].
  destruct Hph; try congruence. unfold held_back in Hperm. rewrite Hone in Hperm.
  match goal with H : sc_events s = [] |- _ => rewrite H in Hperm end. done.
Qed.

Lemma retry_inv v s : scheduler_inv s → sc_stopped s = false → sc_retry s = true → scheduler_inv (handle_retry v s).
Proof.
  intros Hs Hst Hr. pose proof Hs as [Hl Hd Hround Hout]. specialize (Hround Hst). unfold work_tags in Hl, Hd. rewrite Hst in *.
  unfold handle_retry. simpl. destruct (sc_active s) as [a|] eqn:Ha; [|by destruct Hround as (_ & _ & ?); congruence].
  destruct (waiting_retry a s Hround Hr) as (Hw & He & Hone & Hstart & Hperm).
  destruct (ctx_err v (ar_request a)) eqn:Hctx; [apply abandon_inv; simpl; try done; by rewrite Hctx|].
  destruct Hround as [Hev Hatt Hret Hsu Hk Hit Htot].
  split; unfold work_tags; simpl; rewrite ?Hst; try done. intros _. split; simpl; try done.
  - by right.
  - by rewrite Hstart.
  - eexists. split; [eapply phase_wave; simpl; try done; by rewrite He|]. simpl. rewrite He. unfold held_back; simpl. by rewrite app_nil_r.
Qed.

Lemma cancel_inv v a s :
  scheduler_inv s → sc_stopped s = false → sc_active s = Some a → ctx_err v (ar_request a) ≠ None → scheduler_inv (handle_cancel v s).
Proof.
  intros Hs Hst Ha Hctx. unfold handle_cancel. rewrite Ha. destruct (sc_retry s) eqn:Hr; [|by eapply (core_inv s); [|by apply Hs|]].
  destruct Hs as [Hl Hd Hround Hout]. specialize (Hround Hst). unfold work_tags in Hl, Hd. rewrite Hst, Ha in *.
  destruct (waiting_retry a s Hround Hr) as (Hw & He & Hone & Hstart & Hperm). by apply abandon_inv.
Qed.

Lemma command_inv c s : scheduler_inv s → scheduler_inv (handle_command c s).
Proof.
  intros Hs. pose proof (si_answers _ Hs) as Hout. destruct c as [tags ack|due|r|]; simpl; [| | |done].
  - eapply (core_inv s); [done| |done]. apply Forall_app. split; [done|]. by repeat constructor.
  - by eapply (core_inv s).
  - case_match; eapply (core_inv s); try done. apply Forall_app. split; [done|apply refuse_complete].
Qed.

Lemma refuse_all_complete l err : Forall complete_answer (l ≫= λ r, refuse r err).
Proof. induction l as [|r l IH]; simpl; [constructor|]. apply Forall_app. split; [apply refuse_complete|done]. Qed.

Lemma stop_inv s : scheduler_inv s → sc_stopped s = false → scheduler_inv (stop_actor s).
Proof.
  intros [Hl Hd _ Hout] Hst. unfold stop_actor, work_tags in *. rewrite Hst in *.
  assert (∀ s0, sc_leases s0 = sc_external s → sc_external s0 = sc_external s → sc_out s0 = sc_out s →
    scheduler_inv (set_sc_stopped true (set_sc_manual [] (emit_output (sc_manual s0 ≫= λ r, refuse r canceled) s0)))) as Hgoal.
  { intros s0 Hl' Hx Ho. split; unfold work_tags; simpl; [by rewrite Hl', Hx, union_empty_l_L|apply disjoint_empty_l|done|].
    rewrite Ho. apply Forall_app. split; [done|apply refuse_all_complete]. }
  destruct (sc_active s) as [a|] eqn:Ha; [|apply Hgoal; [by rewrite Hl, union_empty_l_L|done..]].
  destruct (core_release_tags ((range (ar_items a)).*1) s) as [Hcore Ho]. set (s0 := release_tags _ s) in *. clearbody s0.
  unfold core in Hcore. simpl in Hcore. injection Hcore as Hl' Hx' Ha' Hw' He' Hr' Hst' Hq'.
  apply Hgoal; [|done..].
  assert ((list_to_set (range (ar_items a)).*1 : gset string) = dom (ar_items a)) as Hdom.
  { apply set_eq. intros t. rewrite elem_of_list_to_set, list_elem_of_fmap, elem_of_dom. split.
    - intros ([k x] & -> & Hx%elem_of_range). eauto.
    - intros [x Hx]. exists (t, x). split; [done|by apply elem_of_range]. }
  rewrite Hl', Hdom, Hl. clear -Hd. set_solver.
Qed.

Lemma lease_inv tag s : scheduler_inv s → scheduler_inv (beginTagProbe tag s).2.
Proof.
  intros [Hl Hd Hround Hout]. unfold beginTagProbe. case_decide as Hin; [done|]. simpl.
  rewrite Hl in Hin. split; unfold work_tags in *; simpl; [rewrite Hl; set_solver|set_solver| |done].
  intros Hst. specialize (Hround Hst). destruct (sc_active s) as [a|]; [|done].
  destruct Hround as [H1 H2 H3 H4 H5 (rest & Hph & Hp) H7]. split; try done. exists rest. split; [|done].
  destruct Hph; [by eapply phase_wave|by eapply phase_quit|by eapply phase_end|by eapply phase_retry].
Qed.

Lemma unlease_inv tag s : tag ∈ sc_external s → scheduler_inv s → scheduler_inv (endTagProbe tag s).
Proof.
  intros Hin [Hl Hd Hround Hout]. unfold endTagProbe.
  set (s1 := set_sc_external _ (set_sc_dirty true s)). destruct (core_release tag true s1) as [Hcore Ho].
  eapply (core_inv (set_sc_leases (sc_leases s1 ∖ {[tag]}) s1)); [done|by rewrite Ho|].
  split; unfold work_tags in *; simpl; [rewrite Hl; set_solver|set_solver| |done].
  intros Hst. specialize (Hround Hst). destruct (sc_active s) as [a|]; [|done].
  destruct Hround as [H1 H2 H3 H4 H5 (rest & Hph & Hp) H7]. split; try done. exists rest. split; [|done].
  destruct Hph; [by eapply phase_wave|by eapply phase_quit|by eapply phase_end|by eapply phase_retry].
Qed.
(** ** The executor *)
Lemma report_inv w i item res s :
  scheduler_inv s → sc_wave s = Some w → wv_rest w !! i = Some item → br_Tag res = wk_tag item →
  scheduler_inv (set_sc_events (sc_events s ++ [mkEvent (wv_round w) (Some res)])
                  (set_sc_wave (Some (mkWave (wv_round w) (delete i (wv_rest w)) (wv_attempt w) (wv_limit w))) s)).
Proof.
  intros [Hl Hd Hround Hout] Hw Hi Htag. split; unfold work_tags in *; simpl; try done. intros Hst. specialize (Hround Hst).
  destruct (sc_active s) as [a|]; [|destruct Hround; congruence].
  destruct Hround as [Hev Hatt Hret Hsu Hk (rest & Hph & Hperm) Htot].
  destruct Hph as [w' Hw' Hid Hr Hf|? Hw'|? Hw'|Hw']; try congruence. assert (w' = w) as -> by congruence.
  split; simpl; try done.
  - apply Forall_app. split; [done|]. by repeat constructor.
  - eexists. split; [eapply phase_wave; simpl; try done|].
    + apply Forall_app. split; [done|]. by repeat constructor.
    + simpl. rewrite <-Hperm. pose proof (delete_Permutation _ _ _ Hi) as Hdel. apply (fmap_Permutation wk_tag) in Hdel.
      rewrite Hdel. simpl. unfold event_tags. rewrite omap_app. simpl. rewrite Htag. rewrite <-!(assoc_L (++)). simpl.
      by rewrite <-!Permutation_middle.
Qed.

Lemma finish_wave_inv w s :
  scheduler_inv s → sc_wave s = Some w → wv_rest w = [] →
  scheduler_inv (set_sc_events (sc_events s ++ [mkEvent (wv_round w) None]) (set_sc_wave None s)).
Proof.
  intros [Hl Hd Hround Hout] Hw Hnil. split; unfold work_tags in *; simpl; try done. intros Hst. specialize (Hround Hst).
  destruct (sc_active s) as [a|]; [|destruct Hround; congruence].
  destruct Hround as [Hev Hatt Hret Hsu Hk (rest & Hph & Hperm) Htot].
  destruct Hph as [w' Hw' Hid Hr Hf|? Hw'|? Hw'|Hw']; try congruence. assert (w' = w) as -> by congruence.
  split; simpl; try done.
  - apply Forall_app. split; [done|]. by repeat constructor.
  - exists []. split; [by eapply phase_end; simpl; rewrite ?Hid|]. rewrite Hnil in Hperm. simpl in *.
    unfold event_tags in *. rewrite omap_app. simpl. by rewrite app_nil_r.
Qed.

Lemma quit_inv w s : scheduler_inv s → sc_wave s = Some w → scheduler_inv (set_sc_quit true (set_sc_wave None s)).
Proof.
  intros [Hl Hd Hround Hout] Hw. split; unfold work_tags in *; simpl; try done. intros Hst. specialize (Hround Hst).
  destruct (sc_active s) as [a|]; [|destruct Hround; congruence].
  destruct Hround as [Hev Hatt Hret Hsu Hk (rest & Hph & Hperm) Htot].
  destruct Hph as [w' Hw' Hid Hr Hf|? Hw'|? Hw'|Hw']; try congruence.
  split; simpl; try done. eexists. split; [by apply phase_quit|done].
Qed.

Lemma round_step_inv v s s' : scheduler_step v s s' → scheduler_inv s → scheduler_inv s'.
Proof.
  intros Hstep Hs. assert (∀ s0, scheduler_inv s0 → scheduler_inv (set_sc_waiting false s0)) as Hwait.
  { intros s0 H0. eapply (core_inv s0); [done|by apply H0|done]. }
  assert (∀ s0, core s = core s0 → sc_out s0 = sc_out s → scheduler_inv s0) as Hcore.
  { intros s0 Hc Ho. eapply (core_inv s); [done|rewrite Ho; apply Hs|done]. }
  destruct Hstep.
  - by apply top_inv.
  - apply Hwait, command_inv. by apply Hcore.
  - by apply Hwait, event_inv.
  - by apply Hwait, retry_inv.
  - apply Hwait. by eapply cancel_inv.
  - apply Hwait. by apply Hcore.
  - by apply stop_inv.
  - by apply Hcore.
  - by apply Hcore.
  - unfold reschedulePeriodic. apply Hcore; symmetry; apply (core_signal (set_sc_dirty true s)) || apply eq_sym, (core_signal (set_sc_dirty true s)).
  - apply Hcore; [symmetry|]; apply core_signal.
  - by apply lease_inv.
  - by apply unlease_inv.
  - by eapply report_inv.
  - by eapply finish_wave_inv.
  - by eapply quit_inv.
Qed.

Lemma reachable_scheduler_inv s : reachable_scheduler s → scheduler_inv s.
Proof.
  revert s. apply (rtc_ind_r (λ s, scheduler_inv s) newProbeScheduler).
  - split; simpl; try done.
  - intros s s' _ [v Hstep] Hs. by eapply round_step_inv.
Qed.

(** C12: Leases never leak: at every moment the leased tags are exactly the items of the
    round in progress and the leases their other owners hold, apart from each other, so
    no node is probed twice at once; between rounds, and after the actor has stopped, only
    the other owners hold any. *)
Theorem leases_are_the_work s :
  reachable_scheduler s →
  sc_leases s = work_tags s ∪ sc_external s ∧ work_tags s ## sc_external s ∧
  (sc_active s = None ∨ sc_stopped s = true → sc_leases s = sc_external s) ∧
  (∀ w, sc_stopped s = false → sc_wave s = Some w →
     NoDup (wk_tag <$> wv_rest w) ∧ ∀ item, item ∈ wv_rest w → wk_tag item ∈ sc_leases s).
Proof.
  intros Hs%reachable_scheduler_inv. pose proof Hs as [Hl Hd Hround _]. split_ands; [done..| |].
  - rewrite Hl. unfold work_tags. intros [-> | ->]; destruct (sc_stopped s); by rewrite union_empty_l_L.
  - intros w Hst Hw. specialize (Hround Hst). unfold work_tags in Hl. rewrite Hst in Hl.
    destruct (sc_active s) as [a|]; [|destruct Hround; congruence].
    destruct (ri_items _ _ Hround) as (rest & Hph & Hperm).
    destruct Hph as [w' Hw' Hid Hr Hf|? Hw'|? Hw'|Hw']; try congruence. assert (w' = w) as -> by congruence.
    assert (NoDup ((wk_tag <$> wv_rest w) ++ event_tags (sc_events s) ++ held_back a)) as [Hnd _]%NoDup_app
      by (rewrite Hperm; apply NoDup_elements).
    split; [done|]. intros item Hin. rewrite Hl. apply elem_of_union_l, elem_of_elements. rewrite <-Hperm.
    apply elem_of_app. left. by apply list_elem_of_fmap_2.
Qed.

(** The actor never waits on its own event channel, and a round always ends: when a
    round begins the channel is empty, and while one runs its wave, its queued end or its
    retry is under way, unless the manager stops. *)
Theorem rounds_always_end s :
  reachable_scheduler s → sc_stopped s = false →
  match sc_active s with
  | None => sc_events s = [] ∧ sc_wave s = None ∧ sc_retry s = false
  | Some a => is_Some (sc_wave s) ∨ last (sc_events s) = Some (mkEvent (ar_id a) None) ∨ sc_retry s = true ∨ sc_quit s = true
  end.
Proof.
  intros Hs%reachable_scheduler_inv Hst. pose proof (si_round _ Hs Hst) as Hr. destruct (sc_active s) as [a|].
  - destruct (ri_items _ _ Hr) as (rest & Hph & _). destruct Hph as [w Hw|? Hw Hq|es Hw _ He|Hw Hr']; [left; eauto|auto..].
    right. left. rewrite He. by rewrite last_snoc.
  - by destruct Hr as (? & ? & ?).
Qed.
End rounds.
