(* ===== verification/ProbeRequests.v ===== *)
(** The callers of the probe scheduler: every manual round is answered once, busy rounds
    refuse it, and startup convergence gives up after a bounded number of fruitless
    rounds. *)
From S2P Require Import Prelude Text Floats NetIP NetURL NodeCodec MonitorRegistry ProbeSchedule ProbeScheduler ProbeRounds.

#[local] Open Scope Z_scope.

(** ** Requests are conserved *)
Definition requests (s : scheduler) :=
  (omap command_request (sc_commands s), omap rq_id (sc_manual s), active_request s, answered s).

Lemma requests_ids s s' : requests s = requests s' → request_ids s = request_ids s'.
Proof. unfold requests, request_ids. by intros [= -> -> -> ->]. Qed.

Lemma requests_at s c m a o : requests s = (c, m, a, o) → request_ids s = c ++ m ++ a ++ o.
Proof. unfold requests, request_ids. by intros [= -> -> -> ->]. Qed.

Lemma requests_perm s s' : requests s = requests s' → request_ids s ≡ₚ request_ids s'.
Proof. by intros ->%requests_ids. Qed.

Lemma requests_signal s : requests (signal s) = requests s.
Proof. unfold signal, requests. case_decide; [|done]. simpl. rewrite omap_app. simpl. by rewrite app_nil_r. Qed.

Lemma requests_release tag wake s : requests (releaseTagProbe tag wake s) = requests s.
Proof. unfold releaseTagProbe. destruct wake; [|done]. by rewrite requests_signal. Qed.

Lemma requests_release_tags tags s : requests (release_tags tags s) = requests s.
Proof.
  revert s. induction tags as [|tag tags IH]; intros s; [done|].
  change (release_tags (tag :: tags) s) with (release_tags tags (releaseTagProbe tag false s)). etrans; [apply IH|].
  apply requests_release.
Qed.

Lemma answered_emit o s : answered (emit_output o s) = answered s ++ omap answered_request o.
Proof. unfold answered; simpl. by rewrite omap_app. Qed.

Lemma refused_id r err : omap answered_request (refuse r err) = option_list (rq_id r).
Proof. unfold refuse. by destruct (rq_id r). Qed.

Lemma refused_all_ids l err : omap answered_request (l ≫= λ r, refuse r err) = omap rq_id l.
Proof. induction l as [|r l IH]; [done|]. rewrite bind_cons, omap_app, refused_id, IH. simpl. by destruct (rq_id r). Qed.

Lemma to_caller_answers r o : omap answered_request o = [] → omap answered_request (to_caller r o) = [].
Proof. unfold to_caller. by destruct (rq_id r). Qed.

Lemma respond_id a err : omap answered_request (respond a err) = option_list (rq_id (ar_request a)).
Proof. unfold respond. by destruct (rq_id (ar_request a)). Qed.

Section requests.
Context `{RZ : !RangeOrder Z, RS : !RangeOrder string}.

Lemma begin_round_requests v req items conv s :
  sc_active s = None →
  request_ids (begin_round v req items conv s) ≡ₚ option_list (rq_id req) ++ request_ids s.
Proof.
  intros Ha. assert (requests (begin_round v req items conv s) =
    (omap command_request (sc_commands s), omap rq_id (sc_manual s), option_list (rq_id req), answered s)) as Hr.
  { unfold begin_round, startActiveRound, requests. case_match; simpl; unfold answered, active_request; simpl; rewrite omap_app, to_caller_answers, app_nil_r; done. }
  apply requests_at in Hr. rewrite Hr. unfold request_ids, active_request. rewrite Ha. simpl.
  rewrite !(assoc_L (++)). f_equiv. rewrite (Permutation_app_comm _ (option_list _)). by rewrite !(assoc_L (++)).
Qed.

Lemma drop_cancelled_ids v l :
  omap answered_request (drop_cancelled v l).1 ++ omap rq_id (drop_cancelled v l).2 = omap rq_id l.
Proof.
  induction l as [|r l IH]; simpl; [done|]. destruct (ctx_err v r); [|done]. destruct (drop_cancelled v l) as [o rest]; simpl in *.
  rewrite omap_app, refused_id, <-(assoc_L (++)), IH. by destruct (rq_id r).
Qed.

Lemma startNext_requests v s : request_ids (startNext v s) ≡ₚ request_ids s.
Proof.
  unfold startNext. destruct (sc_active s) as [a|] eqn:Ha; [done|]. destruct (sc_retry s); [done|].
  set (s1 := emit_output _ _).
  assert (request_ids s1 ≡ₚ request_ids s) as H1.
  { subst s1. unfold request_ids. rewrite answered_emit. unfold active_request; simpl. rewrite Ha. simpl.
    rewrite <-(drop_cancelled_ids v (sc_manual s)). f_equiv. rewrite !(assoc_L (++)).
    rewrite (Permutation_app_comm _ (omap answered_request _)). by rewrite !(assoc_L (++)). }
  assert (sc_active s1 = None) as Ha1 by done.
  assert (sc_manual s1 = (drop_cancelled v (sc_manual s)).2) as Hm1 by done.
  clearbody s1. rewrite <-H1. clear H1. destruct (drop_cancelled v (sc_manual s)) as [o [|req rest]]; simpl in *.
  - case_match; [|case_match; [|done]].
    + unfold converge. destruct (collectInitialProbeItems (vw_registry v) s1) as [[items pend] s2] eqn:Hc.
      assert (requests s2 = requests s1 ∧ sc_active s2 = None) as [Hr Ha2] by (unfold collectInitialProbeItems in Hc; simplify_eq/=; done).
      destruct items; [case_match; by apply requests_perm|]. rewrite begin_round_requests by done. simpl.
      by apply requests_perm.
    + unfold batch_round. by rewrite begin_round_requests.
  - unfold batch_round. rewrite begin_round_requests by done. unfold request_ids; simpl. rewrite Hm1. simpl.
    destruct (rq_id req); simpl; [|done]. by rewrite Permutation_middle.
Qed.

Lemma end_round_requests v a s :
  (match sc_active s with Some a0 => ar_request a0 = ar_request a | None => False end) → request_ids (end_round v a s) ≡ₚ request_ids s.
Proof.
  intros Ha. assert (requests (end_round v a s) =
    (omap command_request (sc_commands s), omap rq_id (sc_manual s), [], answered s ++ option_list (rq_id (ar_request a)))) as Hr.
  { rewrite <-(respond_id a (ctx_err v (ar_request a))), <-answered_emit.
    unfold end_round, finishActiveRound, requests. by destruct (ar_convergence a). }
  apply requests_at in Hr. rewrite Hr. unfold request_ids, active_request.
  destruct (sc_active s) as [a0|]; [|done]. rewrite Ha. f_equiv. f_equiv. simpl. apply Permutation_app_comm.
Qed.

Lemma abandon_requests v a s :
  (match sc_active s with Some a0 => ar_request a0 = ar_request a | None => False end) → request_ids (abandon_retry v a s) ≡ₚ request_ids s.
Proof.
  intros Ha. unfold abandon_retry. rewrite end_round_requests.
  - apply requests_perm, requests_release_tags.
  - destruct (core_release_tags (wk_tag <$> ar_retry a) s) as [Hcore _]. unfold core in Hcore. injection Hcore as _ _ Ha' _.
    by rewrite Ha'.
Qed.

Lemma event_requests v e s : request_ids (handle_event v e s) ≡ₚ request_ids s.
Proof.
  unfold handle_event. destruct (sc_active s) as [a|] eqn:Ha; [|done]. case_match; [done|]. destruct (ev_result e) as [res|].
  - unfold handleExecutionResult. destruct (retries v a res).
    + unfold request_ids, active_request, answered; simpl. by rewrite Ha.
    + apply requests_perm. rewrite <-(requests_release (br_Tag res) true s).
      set (s1 := releaseTagProbe _ _ _). assert (sc_active s1 = Some a) as Ha1.
      { destruct (core_release (br_Tag res) true s) as [Hcore _]. unfold core in Hcore. injection Hcore as _ _ Ha' _.
        by rewrite <-Ha. }
      clearbody s1. unfold requests, active_request, answered. simpl. rewrite Ha1, omap_app, to_caller_answers, app_nil_r by done. done.
  - case_match; [case_match; [apply abandon_requests|done]|apply end_round_requests]; by rewrite Ha.
Qed.

Lemma step_requests v s s' : scheduler_step v s s' →
  request_ids s' ≡ₚ request_ids s ∨ ∃ id, id ∉ request_ids s ∧ request_ids s' ≡ₚ id :: request_ids s.
Proof.
  intros Hstep. destruct Hstep as [| c rest _ _ Hc|e rest _ _ He| |a _ _ _ Ha _| | |c Hlen Hc|id kind due Hlen Hid| | |tag|tag| | |].
  - left. unfold top. set (s0 := if sc_dirty s then _ else s).
    assert (request_ids s0 = request_ids s) as Hs0 by (subst s0; by destruct (sc_dirty s)).
    change (request_ids (set_sc_waiting true (startNext v s0))) with (request_ids (startNext v s0)).
    by rewrite startNext_requests, Hs0.
  - left. change (request_ids (set_sc_waiting false ?x)) with (request_ids x).
    unfold request_ids at 2. rewrite Hc. simpl. destruct c as [tags ack|d|r|]; simpl.
    + unfold request_ids. rewrite answered_emit. simpl. by rewrite app_nil_r.
    + done.
    + case_match.
      * unfold request_ids. rewrite answered_emit, refused_id. unfold active_request; simpl. fold (active_request s).
        rewrite !(assoc_L (++)). rewrite Permutation_app_comm. by destruct (rq_id r).
      * unfold request_ids. simpl. rewrite omap_app. simpl. destruct (rq_id r) as [id|]; simpl; rewrite ?app_nil_r; [|done].
        rewrite <-(assoc_L (++)). simpl. by rewrite <-!Permutation_middle.
    + done.
  - left. change (request_ids (set_sc_waiting false ?x)) with (request_ids x). by rewrite event_requests.
  - left. change (request_ids (set_sc_waiting false ?x)) with (request_ids x). unfold handle_retry.
    destruct (sc_active (set_sc_retry false s)) as [a|] eqn:Ha; [|done]. simpl in Ha. case_match.
    + rewrite abandon_requests; simpl; [done|by rewrite Ha].
    + unfold request_ids, active_request, answered; simpl. by rewrite Ha.
  - left. change (request_ids (set_sc_waiting false ?x)) with (request_ids x). unfold handle_cancel. rewrite Ha.
    case_match; [|done]. rewrite abandon_requests; simpl; [done|by rewrite Ha].
  - by left.
  - left. unfold stop_actor. set (s1 := match sc_active s with Some _ => _ | None => s end).
    assert (requests s1 = requests s) as Hr.
    { subst s1. destruct (sc_active s); [apply requests_release_tags|done]. }
    assert (request_ids s = request_ids s1) as -> by (symmetry; by apply requests_ids). clearbody s1.
    change (request_ids (set_sc_stopped true ?x)) with (request_ids x).
    assert (omap answered_request (sc_manual s1 ≫= λ r, refuse r canceled) = omap rq_id (sc_manual s1)) as Ho by apply refused_all_ids.
    unfold request_ids at 1. unfold answered; simpl. rewrite omap_app, Ho. fold (answered s1). unfold request_ids. f_equiv.
    rewrite (assoc_L (++)). by rewrite Permutation_app_comm.
  - left. unfold request_ids; simpl. rewrite omap_app. simpl. destruct c; simpl; rewrite ?app_nil_r; try done. by destruct (Hc r).
  - right. exists id. split; [done|]. unfold request_ids; simpl. rewrite omap_app. simpl. rewrite <-(assoc_L (++)). simpl.
    by rewrite <-Permutation_middle.
  - left. apply requests_perm, (requests_signal (set_sc_dirty true s)).
  - left. apply requests_perm, requests_signal.
  - left. unfold beginTagProbe. by case_decide.
  - left. apply requests_perm. unfold endTagProbe. etrans; [apply requests_release|done].
  - by left.
  - by left.
  - by left.
Qed.
Lemma reachable_requests s : reachable_scheduler s → NoDup (request_ids s).
Proof.
  revert s. apply (rtc_ind_r (λ s, NoDup (request_ids s)) newProbeScheduler); [constructor|].
  intros s s' _ [v Hstep] Hnd. destruct (step_requests v s s' Hstep) as [->|(id & Hid & ->)]; [done|by constructor].
Qed.

Lemma steps_keep_requests s s' id : rtc any_step s s' → id ∈ request_ids s → id ∈ request_ids s'.
Proof.
  intros Hsteps. induction Hsteps as [|s s1 s2 [v Hstep] _ IH]; [done|]. intros Hid. apply IH.
  destruct (step_requests v s s1 Hstep) as [->|(id' & _ & ->)]; [done|by right].
Qed.

(** C13: Whatever the interleaving, a request for a round is answered at most once, so the
    actor never blocks on a response; it is never lost, and once the scheduler has no
    command, no queued request and no round, it has been answered. *)
Theorem requests_are_answered_once s s' id :
  reachable_scheduler s → rtc any_step s s' → id ∈ request_ids s →
  NoDup (answered s') ∧ id ∈ request_ids s' ∧
  (sc_commands s' = [] → sc_manual s' = [] → sc_active s' = None → id ∈ answered s').
Proof.
  intros Hr Hsteps Hid. pose proof (steps_keep_requests s s' id Hsteps Hid) as Hid'.
  assert (reachable_scheduler s') as Hr' by (unfold reachable_scheduler in *; by etrans).
  pose proof (reachable_requests s' Hr') as Hnd. split_ands; [|done|].
  - unfold request_ids in Hnd. apply NoDup_app in Hnd as (_ & _ & Hnd). apply NoDup_app in Hnd as (_ & _ & Hnd).
    by apply NoDup_app in Hnd as (_ & _ & Hnd).
  - intros Hc Hm Ha. unfold request_ids, active_request in Hid'. by rewrite Hc, Hm, Ha in Hid'.
Qed.

(** A manual round is refused, at once and with the error that one is in progress,
    exactly when a round runs, a retry is awaited or another request is queued; otherwise
    it is queued and nothing is answered. *)
Theorem busy_rounds_refuse_requests r id s :
  rq_id r = Some id →
  let busy := sc_active s ≠ None ∨ sc_retry s = true ∨ sc_manual s ≠ [] in
  let s' := handle_command (runBatchCommand r) s in
  (busy → sc_out s' = sc_out s ++ [Respond id (mkSummary 0 0 0) (Some "probe round already in progress")] ∧ sc_manual s' = sc_manual s) ∧
  (¬ busy → sc_out s' = sc_out s ∧ sc_manual s' = [r]).
Proof.
  intros Hr. simpl. unfold refuse. rewrite Hr.
  destruct (sc_active s) as [a|]; [rewrite bool_decide_eq_true_2 by eauto; simpl; naive_solver|].
  rewrite bool_decide_eq_false_2 by (by intros []). simpl. destruct (sc_retry s); simpl; [naive_solver|].
  destruct (sc_manual s) eqn:Hm; simpl; split.
  - by intros [?|[?|?]].
  - done.
  - done.
  - intros Hidle. destruct Hidle. by right; right.
Qed.

(** ** Convergence *)
Lemma on_conv_running f s : sc_conv (on_conv f s) = f (sc_conv s).
Proof. done. Qed.

Lemma conv_release tag wake s : sc_conv (releaseTagProbe tag wake s) = sc_conv s.
Proof. unfold releaseTagProbe, signal. destruct wake; [|done]. by case_decide. Qed.

Lemma conv_release_tags tags s : sc_conv (release_tags tags s) = sc_conv s.
Proof.
  revert s. induction tags as [|tag tags IH]; intros s; [done|].
  change (release_tags (tag :: tags) s) with (release_tags tags (releaseTagProbe tag false s)). by rewrite IH.
Qed.

Lemma conv_result v a res s : sc_conv (handleExecutionResult v a res s) = sc_conv s.
Proof.
  unfold handleExecutionResult. case_match; [done|].
  trans (sc_conv (releaseTagProbe (br_Tag res) true s)); [done|apply conv_release].
Qed.

(** When [refreshInitialQueue] ends a convergence. *)
Definition gives_up (pend : gset string) (c : convergence) : Prop :=
  Z.of_nat (size pend) = cv_lastPending c ∧ maxConvergenceStallRounds ≤ cv_stall c + 1.

Lemma refresh_running pend c :
  cv_running c = true → cv_running (refreshInitialQueue pend c) = false → pend = ∅ ∨ gives_up pend c.
Proof.
  intros Hrun. unfold refreshInitialQueue, gives_up. case_decide as Hp; [by left|].
  destruct (Z.eqb_spec (Z.of_nat (size pend)) (cv_lastPending c)); simpl; [|congruence].
  destruct (Z.leb_spec maxConvergenceStallRounds (cv_stall c + 1)); simpl; [auto|congruence].
Qed.

Lemma conv_begin v req items conv s : sc_conv (begin_round v req items conv s) = sc_conv s.
Proof. unfold begin_round, startActiveRound. by case_match. Qed.

Lemma end_round_running v a s :
  cv_running (sc_conv s) = true → cv_running (sc_conv (end_round v a s)) = false →
  pendingTags (vw_registry v) = ∅ ∨ gives_up (pendingTags (vw_registry v)) (sc_conv s).
Proof.
  intros Hrun. unfold end_round, finishActiveRound. destruct (ar_convergence a); simpl; [by apply refresh_running|congruence].
Qed.

Lemma abandon_running v a s :
  cv_running (sc_conv s) = true → cv_running (sc_conv (abandon_retry v a s)) = false →
  pendingTags (vw_registry v) = ∅ ∨ gives_up (pendingTags (vw_registry v)) (sc_conv s).
Proof.
  intros Hrun Hend. unfold abandon_retry in Hend. apply end_round_running in Hend; by rewrite conv_release_tags in *.
Qed.

Lemma converge_running v s :
  cv_running (sc_conv s) = true → cv_running (sc_conv (converge v s)) = false → pendingTags (vw_registry v) = ∅.
Proof.
  intros Hrun. unfold converge. destruct (collectInitialProbeItems (vw_registry v) s) as [[items pend] s1] eqn:Hc.
  assert (cv_running (sc_conv s1) = true) as Hrun1 by (unfold collectInitialProbeItems in Hc; simplify_eq/=; done).
  destruct items; [|rewrite conv_begin; simpl; congruence]. case_match; simpl; [|congruence].
  unfold finishInitialConvergence. case_decide; [done|]. simpl. congruence.
Qed.

Lemma startNext_running v s :
  cv_running (sc_conv s) = true → cv_running (sc_conv (startNext v s)) = false → pendingTags (vw_registry v) = ∅.
Proof.
  intros Hrun. unfold startNext. destruct (sc_active s); [congruence|]. destruct (sc_retry s); [congruence|].
  destruct (drop_cancelled v (sc_manual s)) as [o [|req rest]]; simpl.
  - rewrite Hrun. by apply converge_running.
  - unfold batch_round. rewrite conv_begin. simpl. congruence.
Qed.

(** Startup convergence ends only when no registered node is without a health
    result, or when the number of such nodes has not changed for five rounds: no other
    event of the scheduler ends it. *)
Theorem convergence_ends_only_when_settled v s s' :
  scheduler_step v s s' → cv_running (sc_conv s) = true → cv_running (sc_conv s') = false →
  pendingTags (vw_registry v) = ∅ ∨ gives_up (pendingTags (vw_registry v)) (sc_conv s).
Proof.
  intros Hstep Hrun. assert (cv_running (sc_conv s) ≠ false) as Hne by congruence. destruct Hstep; simpl; try done.
  - intros Hend. left. unfold top in Hend. simpl in Hend. apply startNext_running in Hend; [done|]. by destruct (sc_dirty s).
  - destruct c; simpl; try done; [|by case_match]. unfold enqueue_tags. rewrite Hrun. done.
  - unfold handle_event. simpl. destruct (sc_active s) as [a|]; [|done]. case_match; [done|].
    destruct (ev_result e) as [res|]; [by rewrite conv_result|].
    case_match; [case_match; [by apply (abandon_running _ _ (set_sc_events rest s))|done]|by apply (end_round_running _ _ (set_sc_events rest s))].
  - unfold handle_retry. simpl. destruct (sc_active s) as [a|]; [|done]. case_match; [by apply (abandon_running _ _ (set_sc_retry false s))|done].
  - unfold handle_cancel. destruct (sc_active s); [|done]. case_match; [by apply (abandon_running _ _ (set_sc_retry false s))|done].
  - unfold stop_actor. destruct (sc_active s); simpl; [by rewrite conv_release_tags|done].
  - unfold reschedulePeriodic, signal. by case_decide.
  - unfold signal. by case_decide.
  - unfold beginTagProbe. by case_decide.
  - unfold endTagProbe. by rewrite conv_release.
Qed.
End requests.

(** C34: Rounds after which as many nodes are pending as before are bounded: from a fresh
    start five of them requeue the pending nodes and the sixth gives up, whichever the
    nodes are. *)
Theorem fruitless_convergence_gives_up c pends n :
  cv_running c = true → cv_stall c = 0 → cv_lastPending c = 0 → (0 < n)%nat → Forall (λ p, size p = n) pends →
  let c' := foldl (λ c p, refreshInitialQueue p c) c pends in
  ((length pends ≤ 5)%nat → cv_running c' = true ∧ ∀ p, p ∈ pends → p ⊆ cv_queue c') ∧
  (length pends = 6%nat → cv_running c' = false ∧ cv_queue c' = ∅).
Proof.
  intros Hrun Hst Hl Hn Hall.
  assert (∀ pends, Forall (λ p : gset string, size p = n) pends → (length pends ≤ 5)%nat →
    let c' := foldl (λ c p, refreshInitialQueue p c) c pends in
    cv_running c' = true ∧ (pends ≠ [] → cv_lastPending c' = Z.of_nat n ∧ cv_stall c' = Z.of_nat (length pends) - 1) ∧
    ∀ p, p ∈ pends → p ⊆ cv_queue c') as Hmain.
  { clear pends Hall. intros pends. induction pends as [|p pends IH] using rev_ind; intros Hall Hlen; simpl; [split_ands; [done..|by intros ? ?%elem_of_nil]|].
    apply Forall_app in Hall as [Hall Hp]. rewrite Forall_singleton in Hp. rewrite length_app in Hlen |- *. simpl in Hlen |- *.
    destruct (IH Hall ltac:(lia)) as (IH1 & IH2 & IH3). rewrite foldl_snoc. set (c' := foldl _ _ _) in *.
    assert (p ≠ ∅) as Hne by (intros ->; rewrite size_empty in Hp; lia).
    unfold refreshInitialQueue. rewrite decide_False by done. rewrite Hp.
    destruct pends as [|p0 pends].
    - subst c'. simpl. rewrite Hl. destruct (Z.eqb_spec (Z.of_nat n) 0); [lia|]. simpl. split_ands; [done|done|set_solver].
    - destruct IH2 as [IHl IHs]; [done|]. rewrite IHl, Z.eqb_refl, IHs. cbv zeta. cbn [cv_stall].
      unfold maxConvergenceStallRounds. destruct (Z.leb_spec 5 (Z.of_nat (length (p0 :: pends)) - 1 + 1)); [simpl in *; lia|].
      cbn [cv_running cv_lastPending cv_stall cv_queue]. split_ands; [done|intros _; split; [done|lia]|]. intros q [Hq|Hq%list_elem_of_singleton]%elem_of_app.
      + specialize (IH3 q Hq). set_solver.
      + set_solver. }
  split.
  - intros Hlen. destruct (Hmain pends Hall Hlen) as (H1 & _ & H3). done.
  - intros Hlen. destruct pends as [|p pends _] using rev_ind; [done|]. rewrite length_app in Hlen. simpl in Hlen.
    apply Forall_app in Hall as [Hall Hp]. rewrite Forall_singleton in Hp. destruct (Hmain pends Hall ltac:(lia)) as (H1 & H2 & _).
    rewrite foldl_snoc. set (c' := foldl _ _ _) in *. destruct H2 as [H2 H2']; [by intros ->|].
    assert (p ≠ ∅) as Hne by (intros ->; rewrite size_empty in Hp; lia).
    unfold refreshInitialQueue. rewrite decide_False by done. rewrite Hp, H2, Z.eqb_refl, H2'. cbv zeta. cbn [cv_stall].
    unfold maxConvergenceStallRounds. destruct (Z.leb_spec 5 (Z.of_nat (length pends) - 1 + 1)); [|lia].
    unfold resetConvergenceStall. simpl. by rewrite H1.
Qed.

(** ** Example runs *)
Module SchedulerExample.
#[local] Instance ordered_ids : RangeOrder Z := default_range_order Z.
#[local] Instance ordered_tags : RangeOrder string := default_range_order string.

Definition node (n : Z) (tag : string) (r : nodeRegistry) : nodeRegistry :=
  let '(p, r) := register (mkInfo n tag tag "" "" "" 0 "" "") r in update_entry p (set_en_probe (Some n)) r.
Definition two_nodes : nodeRegistry := node 2 "b" (node 1 "a" newNodeRegistry).
Definition policy : ProbePolicy := normalizeProbePolicy (mkPolicy 0 0 0 0 0 0).
Definition never : schedules := mkSchedules 0 false ∅ 0.
Definition here : view := mkView two_nodes never policy true 1000 ∅ false.
Definition nothing : view := mkView newNodeRegistry never policy true 1000 ∅ false.

Definition ask : command := runBatchCommand (mkRequest (Some 7) ProbeRoundManual false).
Definition report (tag : string) (err : option string) : ProbeBatchResult := mkBatchResult tag tag 5 err 1.

(** A turn of the actor on the first command or event. *)
Definition next_command (v : view) (s : scheduler) : scheduler :=
  match sc_commands s with c :: rest => set_sc_waiting false (handle_command c (set_sc_commands rest s)) | [] => s end.
Definition next_event (v : view) (s : scheduler) : scheduler :=
  match sc_events s with e :: rest => set_sc_waiting false (handle_event v e (set_sc_events rest s)) | [] => s end.
Definition report_first (err : option string) (s : scheduler) : scheduler :=
  match sc_wave s with
  | Some w =>
    match wv_rest w !! 0%nat with
    | Some item =>
      set_sc_events (sc_events s ++ [mkEvent (wv_round w) (Some (report (wk_tag item) err))])
        (set_sc_wave (Some (mkWave (wv_round w) (delete 0%nat (wv_rest w)) (wv_attempt w) (wv_limit w))) s)
    | None => s
    end
  | None => s
  end.
Definition finish_wave (s : scheduler) : scheduler :=
  match sc_wave s with
  | Some w => set_sc_events (sc_events s ++ [mkEvent (wv_round w) None]) (set_sc_wave None s)
  | None => s
  end.

Lemma reach_top (v : view) s : reachable_scheduler s → sc_waiting s = false → sc_stopped s = false → reachable_scheduler (top v s).
Proof. intros Hr Hw Hs. eapply rtc_r; [exact Hr|]. exists v. by apply step_top. Qed.
Lemma reach_command (v : view) s : reachable_scheduler s → sc_waiting s = true → sc_stopped s = false → sc_commands s ≠ [] →
  reachable_scheduler (next_command v s).
Proof.
  intros Hr Hw Hs Hc. unfold next_command. destruct (sc_commands s) as [|c rest] eqn:Heq; [done|].
  eapply rtc_r; [exact Hr|]. exists v. by apply step_command.
Qed.
Lemma reach_event (v : view) s : reachable_scheduler s → sc_waiting s = true → sc_stopped s = false → sc_events s ≠ [] →
  reachable_scheduler (next_event v s).
Proof.
  intros Hr Hw Hs Hc. unfold next_event. destruct (sc_events s) as [|c rest] eqn:Heq; [done|].
  eapply rtc_r; [exact Hr|]. exists v. by apply step_event.
Qed.
Lemma reach_send (v : view) s c : reachable_scheduler s → (length (sc_commands s) < command_capacity)%nat → (∀ r, c ≠ runBatchCommand r) →
  reachable_scheduler (send_command c s).
Proof. intros Hr Hl Hc. eapply rtc_r; [exact Hr|]. exists v. by apply step_send. Qed.
Lemma reach_report (v : view) s err w : reachable_scheduler s → sc_wave s = Some w → 0 < wv_limit w →
  (length (sc_events s) < event_capacity)%nat → reachable_scheduler (report_first err s).
Proof.
  intros Hr Hw Hlim Hl. unfold report_first. rewrite Hw. destruct (wv_rest w !! 0%nat) eqn:Hi; [|done].
  eapply rtc_r; [exact Hr|]. exists v. by eapply step_result.
Qed.
Lemma reach_finish (v : view) s w : reachable_scheduler s → sc_wave s = Some w → wv_rest w = [] → (length (sc_events s) < event_capacity)%nat →
  reachable_scheduler (finish_wave s).
Proof. intros Hr Hw Hn Hl. unfold finish_wave. rewrite Hw. eapply rtc_r; [exact Hr|]. exists v. by apply step_done. Qed.

(** A manual round of two nodes, one of which fails. *)
Definition asked : scheduler := send_command ask newProbeScheduler.
Definition running : scheduler := top here (next_command here (top here asked)).
Definition reported : scheduler := finish_wave (report_first (Some "timeout") (report_first None running)).
Definition turn (s : scheduler) : scheduler := top here (next_event here s).
Definition finished : scheduler := next_event here (turn (turn reported)).

Lemma asked_reachable : reachable_scheduler asked.
Proof. eapply rtc_l; [exists here; apply (step_submit here newProbeScheduler 7 ProbeRoundManual false)|constructor]; [apply (bool_decide_unpack _); exact I|intros H; inversion H]. Qed.

Ltac computed := first [vm_compute; reflexivity | vm_compute; discriminate | apply (bool_decide_unpack _); vm_compute; exact I].

Lemma running_reachable : reachable_scheduler running.
Proof. unfold running. apply reach_top; [apply reach_command; [apply reach_top; [apply asked_reachable|..]|..]|..]; computed. Qed.

Lemma reported_reachable : reachable_scheduler reported.
Proof.
  unfold reported. eapply (reach_finish here); [eapply (reach_report here); [eapply (reach_report here); [apply running_reachable|..]|..]|..]; computed.
Qed.

Lemma finished_reachable : reachable_scheduler finished.
Proof.
  unfold finished, turn.
  apply reach_event; [apply reach_top; [apply reach_event; [apply reach_top; [apply reach_event; [apply reported_reachable|..]|..]|..]|..]|..]; computed.
Qed.

Lemma leases_witness : sc_leases running = {["a"; "b"]} ∧ sc_leases running = work_tags running ∪ sc_external running ∧ sc_leases finished = sc_external finished.
Proof.
  destruct (leases_are_the_work running running_reachable) as (H1 & _).
  destruct (leases_are_the_work finished finished_reachable) as (_ & _ & H2 & _).
  split_ands; [computed|exact H1|apply H2; left; computed].
Defined.

Lemma rounds_witness : is_Some (sc_wave running) ∧ sc_events finished = [].
Proof.
  split; [eexists; vm_compute; reflexivity|].
  assert (sc_stopped finished = false) as Hs by (vm_compute; reflexivity).
  assert (sc_active finished = None) as Ha by (vm_compute; reflexivity).
  pose proof (rounds_always_end finished finished_reachable Hs) as H. rewrite Ha in H. exact (proj1 H).
Defined.

Lemma answered_witness : 7 ∈ answered finished ∧ NoDup (answered finished).
Proof.
  destruct (requests_are_answered_once finished finished 7 finished_reachable (rtc_refl _ _)) as (H1 & _ & H2); [|split; [|exact H1]].
  - vm_compute. repeat (apply elem_of_cons; first [left; reflexivity|right]).
  - vm_compute. repeat (apply elem_of_cons; first [left; reflexivity|right]).
Defined.

Lemma busy_witness :
  sc_manual (handle_command (runBatchCommand (mkRequest (Some 8) ProbeRoundManual true)) running) = [] ∧
  sc_manual (handle_command (runBatchCommand (mkRequest (Some 8) ProbeRoundManual true)) newProbeScheduler) = [mkRequest (Some 8) ProbeRoundManual true].
Proof.
  destruct (busy_rounds_refuse_requests (mkRequest (Some 8) ProbeRoundManual true) 8 running eq_refl) as [Hbusy _].
  destruct (busy_rounds_refuse_requests (mkRequest (Some 8) ProbeRoundManual true) 8 newProbeScheduler eq_refl) as [_ Hfree].
  split.
  - assert (sc_active running ≠ None) as Ha by (vm_compute; discriminate).
    transitivity (sc_manual running); [exact (proj2 (Hbusy (or_introl Ha)))|vm_compute; reflexivity].
  - apply Hfree. intros [H|[H|H]]; [exact (H eq_refl)|discriminate H|exact (H eq_refl)].
Defined.

(** The nodes pending after each round are never the same, and still it gives up. *)
Lemma fruitless_witness :
  cv_running (foldl (λ c p, refreshInitialQueue p c) (mkConv ∅ true 0 0 0) [{["a"]}; {["b"]}; {["c"]}; {["d"]}; {["e"]}; {["f"]}]) = false.
Proof.
  destruct (fruitless_convergence_gives_up (mkConv ∅ true 0 0 0) [{["a"]}; {["b"]}; {["c"]}; {["d"]}; {["e"]}; {["f"]}] 1) as [_ H];
    [reflexivity..|apply le_n|repeat constructor|apply H; reflexivity].
Defined.

Lemma convergence_witness :
  let s := next_command nothing (top nothing (send_command (enqueueInitialCommand ["x"] 1) newProbeScheduler)) in
  cv_running (sc_conv s) = true ∧ cv_running (sc_conv (top nothing s)) = false ∧ pendingTags newNodeRegistry = ∅.
Proof.
  intros s. split; [computed|]. split; [computed|].
  destruct (convergence_ends_only_when_settled nothing s (top nothing s)) as [H|[_ H]];
    [apply step_top; reflexivity|computed|computed|exact H|exfalso; apply H; reflexivity].
Defined.

(** A routine round was asked for while another one ran; convergence, also asked for,
    finds every node settled. *)
Definition routine_runs : scheduler :=
  top nothing (next_command nothing (top nothing (send_command (routineProbeCommand false) newProbeScheduler))).
Definition both_asked : scheduler := send_command (routineProbeCommand false) (send_command (enqueueInitialCommand ["x"] 1) routine_runs).
Definition parked : scheduler :=
  top nothing (next_event nothing (top nothing (next_command nothing (top nothing (next_command nothing both_asked))))).

Lemma both_asked_reachable : reachable_scheduler both_asked.
Proof.
  unfold both_asked, routine_runs.
  apply (reach_send nothing); [apply (reach_send nothing); [apply reach_top; [apply reach_command; [apply reach_top;
    [apply (reach_send nothing); [constructor|..]|..]|..]|..]|..]|..]; try computed; intros r H; inversion H.
Qed.

(** A routine round can be left waiting by an idle scheduler: when a convergence is
    found to have nothing pending, the actor goes back to its select without looking at
    the routine request that waits behind it. No command, event or timer is due, so the
    request waits for the next call. *)
Theorem routine_request_is_left_waiting :
  reachable_scheduler parked ∧ sc_routine parked = true ∧ sc_waiting parked = true ∧ sc_stopped parked = false ∧
  sc_active parked = None ∧ cv_running (sc_conv parked) = false ∧
  sc_commands parked = [] ∧ sc_events parked = [] ∧ sc_periodic parked = None ∧ sc_retry parked = false.
Proof.
  split.
  - unfold parked.
    apply reach_top; [apply reach_event; [apply reach_top; [apply reach_command; [apply reach_top; [apply reach_command;
      [apply both_asked_reachable|..]|..]|..]|..]|..]|..]; computed.
  - repeat split; vm_compute; reflexivity.
Qed.
End SchedulerExample.
