(* ===== verification/ProbeSummaries.v ===== *)
(** The summaries of probe rounds: what a caller is told at the end of its round is the
    count of the results it was told one by one, and those are one for every node of the
    round. *)
From S2P Require Import Prelude Text Floats NetIP NetURL NodeCodec MonitorRegistry ProbeSchedule ProbeScheduler ProbeRounds ProbeRequests.

#[local] Open Scope Z_scope.

(** The results reported to the caller of a request. *)
Definition results_of (id : Z) (out : list output) : list ProbeBatchResult :=
  omap (λ o, match o with
             | OnResult r res => if decide (rq_id r = Some id) then Some res else None
             | _ => None
             end) out.

Lemma reported_app id out out' : results_of id (out ++ out') = results_of id out ++ results_of id out'.
Proof. apply omap_app. Qed.

Definition count (ok : bool) (l : list ProbeBatchResult) : Z :=
  Z.of_nat (length (filter (λ res, succeeded res = ok) l)).

Lemma count_snoc ok l res : count ok (l ++ [res]) = count ok l + (if Bool.eqb (succeeded res) ok then 1 else 0).
Proof.
  unfold count. rewrite filter_app, length_app, filter_cons. destruct (decide (succeeded res = ok)) as [<-|Hne].
  - rewrite eqb_reflx. cbn. lia.
  - apply eqb_false_iff in Hne. rewrite Hne. cbn. lia.
Qed.

Lemma count_total l : count true l + count false l = Z.of_nat (length l).
Proof.
  induction l as [|res l IH] using rev_ind; [done|]. rewrite !count_snoc, length_app. destruct (succeeded res); cbn; lia.
Qed.

(** What an output of the actor leaves alone: no result, no answer without an error. *)
Definition plain (o : output) : Prop :=
  match o with OnResult _ _ | Respond _ _ None => False | _ => True end.

Lemma reported_plain id o : Forall plain o → results_of id o = [].
Proof.
  unfold results_of. induction 1 as [|x o Hx _ IH]; [done|]. cbn [omap list_omap]. destruct x; [done|done|done|done].
Qed.

Lemma refuse_plain r err : Forall plain (refuse r err).
Proof. unfold refuse. destruct (rq_id r); repeat constructor. Qed.

Lemma plain_answer o id sm : Forall plain o → Respond id sm None ∉ o.
Proof. intros Hp Hin. rewrite Forall_forall in Hp. by apply Hp in Hin. Qed.

(** A round and a record of results: everything settled is recorded, once. *)
Record round_log (a : round) (l : list ProbeBatchResult) : Prop := {
  rl_tags : NoDup (br_Tag <$> l);
  rl_open : ∀ res, res ∈ l → br_Tag res ∉ dom (ar_items a);
  rl_total : sm_Total (ar_summary a) = Z.of_nat (length l) + Z.of_nat (size (ar_items a));
  rl_success : sm_Success (ar_summary a) = count true l;
  rl_failed : sm_Failed (ar_summary a) = count false l
}.

(** A summary of results: each of them once, under what it was. *)
Definition summarises (sm : ProbeBatchSummary) (l : list ProbeBatchResult) : Prop :=
  NoDup (br_Tag <$> l) ∧ sm_Total sm = Z.of_nat (length l) ∧ sm_Success sm = count true l ∧ sm_Failed sm = count false l.

Lemma settle_log a l res :
  round_log a l → br_Tag res ∈ dom (ar_items a) → round_log (settle_item a res) (l ++ [res]).
Proof.
  intros [H1 H2 H3 H4 H5] Hin. split; cbn.
  - rewrite fmap_app. apply NoDup_app. split_and!; [done| |apply NoDup_singleton].
    intros t (x & Ht & Hx)%list_elem_of_fmap Heq%list_elem_of_singleton. apply (H2 x Hx). by rewrite <-Ht, Heq.
  - intros x [Hx| ->%list_elem_of_singleton]%elem_of_app; rewrite dom_delete_L; [|set_solver].
    specialize (H2 x Hx). set_solver.
  - rewrite H3, length_app, map_size_delete. apply elem_of_dom in Hin as [item Hi]. rewrite Hi.
    assert (size (ar_items a) ≠ 0%nat) by (apply map_size_ne_0_lookup; eauto). cbn. lia.
  - rewrite H4, count_snoc. by destruct (succeeded res).
  - rewrite H5, count_snoc. by destruct (succeeded res).
Qed.

(** ** What one step does to the round and to the log *)
Definition same_work (a a' : option round) : Prop :=
  match a, a' with
  | None, None => True
  | Some a, Some a' => ar_request a' = ar_request a ∧ ar_items a' = ar_items a ∧ ar_summary a' = ar_summary a
  | _, _ => False
  end.

Inductive effect (s s' : scheduler) : Prop :=
| eff_same o : sc_out s' = sc_out s ++ o → Forall plain o → same_work (sc_active s) (sc_active s') → effect s s'
| eff_begin a n o : sc_active s = None → sc_active s' = Some a → sc_out s' = sc_out s ++ o → Forall plain o →
    sc_stopped s' = false → ar_summary a = mkSummary n 0 0 →
    (∀ id, rq_id (ar_request a) = Some id → id ∈ omap rq_id (sc_manual s)) → effect s s'
| eff_settle a res : sc_active s = Some a → br_Tag res ∈ dom (ar_items a) → sc_active s' = Some (settle_item a res) →
    sc_out s' = sc_out s ++ to_caller (ar_request a) [OnResult (ar_request a) res] → effect s s'
| eff_end a err : sc_active s = Some a → sc_active s' = None → sc_out s' = sc_out s ++ respond a err →
    (err = None → ar_items a = ∅) → effect s s'.

Lemma same_work_refl a : same_work a a.
Proof. by destruct a. Qed.

(** Steps that touch neither. *)
Lemma effect_quiet s s' : sc_out s' = sc_out s → sc_active s' = sc_active s → effect s s'.
Proof. intros Ho Ha. apply (eff_same _ _ []); [by rewrite app_nil_r|done|]. rewrite Ha. apply same_work_refl. Qed.

Lemma effect_ext s s1 s' s2 :
  sc_out s1 = sc_out s → sc_active s1 = sc_active s → sc_manual s1 = sc_manual s →
  sc_out s2 = sc_out s' → sc_active s2 = sc_active s' → sc_stopped s2 = sc_stopped s' → effect s1 s' → effect s s2.
Proof.
  intros Ho Ha Hm Ho2 Ha2 Hs2 [o H1 H2 H3|a n o H1 H2 H3 H4 H5 H6 H7|a res H1 H2 H3 H4|a err H1 H2 H3 H4].
  - apply (eff_same _ _ o); congruence.
  - apply (eff_begin _ _ a n o); [congruence..|]. rewrite <-Hm. exact H7.
  - apply (eff_settle _ _ a res); congruence.
  - apply (eff_end _ _ a err); [congruence..|exact H4].
Qed.

Section summaries.
Context `{RZ : !RangeOrder Z, RS : !RangeOrder string}.

Lemma begin_effect v req items conv s s0 o :
  sc_active s = None → sc_stopped s = false → sc_active s0 = None → sc_out s = sc_out s0 ++ o → Forall plain o →
  (∀ id, rq_id req = Some id → id ∈ omap rq_id (sc_manual s0)) →
  effect s0 (begin_round v req items conv s).
Proof.
  intros Ha Hst Ha0 Ho Hp Hreq. unfold begin_round, startActiveRound.
  set (a := newActiveRound _ _ _ _ _).
  apply (eff_begin _ _ a (Z.of_nat (length items)) (o ++ to_caller req [OnStart req (sm_Total (ar_summary a))])); [done|..].
  - by destruct (sm_Total (ar_summary a) =? 0).
  - rewrite (assoc_L (++)), <-Ho. by destruct (sm_Total (ar_summary a) =? 0).
  - apply Forall_app. split; [done|]. unfold to_caller. destruct (rq_id req); repeat constructor.
  - by destruct (sm_Total (ar_summary a) =? 0).
  - done.
  - exact Hreq.
Qed.

Lemma drop_cancelled_plain v l : Forall plain (drop_cancelled v l).1 ∧ (drop_cancelled v l).2 ⊆ l.
Proof.
  induction l as [|r l [IH1 IH2]]; cbn; [by split|]. destruct (ctx_err v r); [|by split].
  destruct (drop_cancelled v l) as [o rest]. cbn in *. split; [apply Forall_app; split; [apply refuse_plain|done]|set_solver].
Qed.

Lemma startNext_effect v s : sc_stopped s = false → effect s (startNext v s).
Proof.
  intros Hst. unfold startNext. destruct (sc_active s) as [a|] eqn:Ha; [by apply effect_quiet|].
  destruct (sc_retry s); [by apply effect_quiet|].
  destruct (drop_cancelled_plain v (sc_manual s)) as [Hp Hsub].
  destruct (drop_cancelled v (sc_manual s)) as [o rest]. cbn [fst snd] in *.
  destruct rest as [|req rest].
  - destruct (cv_running _).
    + unfold converge, collectInitialProbeItems. set (items := free_items _ _ _). clearbody items.
      destruct items as [|item items].
      * destruct (_ =? 0); (apply (eff_same _ _ o); [done|done|]; cbn; by rewrite Ha).
      * apply (begin_effect _ _ _ _ _ _ o); try done.
    + destruct (sc_routine _); [|apply (eff_same _ _ o); [done|done|]; cbn; by rewrite Ha].
      unfold batch_round. apply (begin_effect _ _ _ _ _ _ o); try done.
  - unfold batch_round. apply (begin_effect _ _ _ _ _ _ o); try done. intros id Hid.
    apply list_elem_of_omap. exists req. split; [apply Hsub; by left|done].
Qed.

Lemma end_effect v a a0 s s0 :
  sc_active s0 = Some a0 → sc_out s = sc_out s0 → ar_request a = ar_request a0 → ar_summary a = ar_summary a0 →
  (ctx_err v (ar_request a) = None → ar_items a0 = ∅) → effect s0 (end_round v a s).
Proof.
  intros Ha Ho Hr Hsm Hend. apply (eff_end _ _ a0 (ctx_err v (ar_request a))); [done|..|done].
  - unfold end_round, finishActiveRound. by destruct (ar_convergence a).
  - rewrite <-Ho. replace (respond a0 (ctx_err v (ar_request a))) with (respond a (ctx_err v (ar_request a)))
      by (unfold respond; by rewrite Hr, Hsm).
    unfold end_round, finishActiveRound. by destruct (ar_convergence a).
Qed.

Lemma abandon_effect v a s s0 :
  sc_active s0 = Some a → sc_out s = sc_out s0 → ctx_err v (ar_request a) ≠ None → effect s0 (abandon_retry v a s).
Proof.
  intros Ha Ho Hctx. unfold abandon_retry. apply (end_effect _ _ a); try done.
  rewrite (proj2 (core_release_tags _ _)). done.
Qed.

(** When the end of a wave ends the round, nothing of it is open. *)
Lemma round_over a s :
  round_inv a s → sc_events s = [mkEvent (ar_id a) None] →
  ar_startup a && (ar_attempt a =? 1) && negb (bool_decide (length (ar_retry a) = 0%nat)) = false → ar_items a = ∅.
Proof.
  intros Hr He Hagain. destruct (round_end_empty a s Hr He) as (_ & _ & Hperm). destruct Hr as [_ _ _ Hsu _ _ _].
  assert (held_back a = []) as Hnil.
  { unfold held_back. destruct (Z.eqb_spec (ar_attempt a) 1) as [Hone|]; [|done]. cbn in Hagain.
    destruct (ar_startup a); [|by destruct (Hsu eq_refl) as [-> _]]. cbn in Hagain. rewrite ?Hone in Hagain.
    by destruct (ar_retry a). }
  rewrite Hnil in Hperm. symmetry in Hperm. apply Permutation_nil_r, elements_empty_inv in Hperm. apply leibniz_equiv in Hperm.
  by apply dom_empty_inv_L in Hperm.
Qed.

Lemma result_effect v a res s :
  sc_active s = Some a → br_Tag res ∈ dom (ar_items a) → effect s (handleExecutionResult v a res s).
Proof.
  intros Ha Hin. unfold handleExecutionResult. destruct (retries v a res) as [item|].
  - apply (eff_same _ _ []); [by rewrite app_nil_r|done|]. cbn. by rewrite Ha.
  - apply (eff_settle _ _ a res); [done..|].
    unfold emit_output. cbn [sc_out set_sc_out set_sc_status set_sc_active]. f_equal. apply core_release.
Qed.

Lemma event_effect v e es s :
  scheduler_inv s → sc_stopped s = false → sc_events s = e :: es → effect s (handle_event v e (set_sc_events es s)).
Proof.
  intros Hs Hst He. unfold handle_event. cbn [sc_active set_sc_events].
  destruct (sc_active s) as [a|] eqn:Ha; [|by apply effect_quiet].
  pose proof (si_round _ Hs Hst) as Hr. rewrite Ha in Hr.
  destruct (negb (ev_round e =? ar_id a)); [by apply effect_quiet|].
  destruct (ri_items _ _ Hr) as (rest & Hph & Hperm).
  destruct e as [id [res|]]; cbn [ev_result].
  - assert (br_Tag res ∈ dom (ar_items a)) as Hin.
    { apply elem_of_elements. rewrite <-Hperm, He. cbn. set_solver. }
    eapply (effect_ext s (set_sc_events es s)); [..|by apply result_effect]; done.
  - destruct (phase_done _ _ _ _ _ Hph He eq_refl) as (-> & [= ->] & ->).
    destruct (ar_startup a && (ar_attempt a =? 1) && negb (bool_decide (length (ar_retry a) = 0%nat))) eqn:Hagain.
    + destruct (ctx_err v (ar_request a)) eqn:Hctx; [|by apply effect_quiet].
      apply abandon_effect; [done|done|by rewrite Hctx].
    + apply (end_effect _ _ a); try done. intros _. by apply (round_over a s).
Qed.

Lemma command_effect c s : effect s (handle_command c s).
Proof.
  destruct c as [tags ack|d|r|]; cbn.
  - apply (eff_same _ _ [Ack ack]); [done|repeat constructor|apply same_work_refl].
  - by apply effect_quiet.
  - destruct (_ || _); [|by apply effect_quiet].
    apply (eff_same _ _ (refuse r "probe round already in progress")); [done|apply refuse_plain|apply same_work_refl].
  - by apply effect_quiet.
Qed.

Lemma stop_effect s : effect s (stop_actor s).
Proof.
  unfold stop_actor. set (s1 := match sc_active s with Some _ => _ | None => s end).
  assert (sc_out s1 = sc_out s ∧ sc_active s1 = sc_active s) as [Ho Ha].
  { subst s1. destruct (sc_active s) as [a|] eqn:E; [|done].
    destruct (core_release_tags (range (ar_items a)).*1 s) as [Hcore Hout]. unfold core in Hcore.
    injection Hcore as _ _ Ha _. by rewrite Hout, Ha. }
  clearbody s1. apply (eff_same _ _ (sc_manual s1 ≫= λ r, refuse r canceled)); cbn.
  - by rewrite Ho.
  - generalize (sc_manual s1). intros l. induction l as [|r l IH]; [constructor|]. rewrite bind_cons.
    apply Forall_app. split; [apply refuse_plain|done].
  - rewrite Ha. apply same_work_refl.
Qed.

Lemma step_effect v s s' : scheduler_inv s → scheduler_step v s s' → effect s s'.
Proof.
  intros Hs Hstep.
  assert (∀ s1 b, effect s s1 → effect s (set_sc_waiting b s1)) as Hwait by (intros s1 b; by apply effect_ext).
  destruct Hstep as [_ Hst|c rest _ _ Hc|e rest _ Hst He| |a _ _ _ Ha Hctx| | | | | | |tag|tag| | |].
  - unfold top. apply Hwait. set (s0 := if sc_dirty s then _ else s).
    assert (sc_out s0 = sc_out s ∧ sc_active s0 = sc_active s ∧ sc_manual s0 = sc_manual s ∧ sc_stopped s0 = sc_stopped s)
      as (E1 & E2 & E3 & E4) by (subst s0; by destruct (sc_dirty s)).
    eapply (effect_ext s s0); [done..|]. apply startNext_effect. congruence.
  - apply Hwait. eapply (effect_ext s (set_sc_commands rest s)); [done..|]. apply command_effect.
  - apply Hwait. by apply event_effect.
  - apply Hwait. unfold handle_retry. cbn [sc_active set_sc_retry].
    destruct (sc_active s) as [a|] eqn:Ha; [|by apply effect_quiet].
    destruct (ctx_err v (ar_request a)) eqn:Hctx; [apply abandon_effect; [done|done|by rewrite Hctx]|].
    apply (eff_same _ _ []); [cbn; by rewrite app_nil_r|done|]. cbn. by rewrite Ha.
  - apply Hwait. unfold handle_cancel. rewrite Ha. destruct (sc_retry s); [by apply abandon_effect|by apply effect_quiet].
  - by apply effect_quiet.
  - apply stop_effect.
  - by apply effect_quiet.
  - by apply effect_quiet.
  - destruct (core_signal (set_sc_dirty true s)) as [Hcore Ho]. unfold core in Hcore. injection Hcore as _ _ Ha _.
    by apply effect_quiet.
  - destruct (core_signal s) as [Hcore Ho]. unfold core in Hcore. injection Hcore as _ _ Ha _. by apply effect_quiet.
  - unfold beginTagProbe. case_decide; by apply effect_quiet.
  - unfold endTagProbe. destruct (core_release tag true (set_sc_external (sc_external s ∖ {[tag]}) (set_sc_dirty true s))) as [Hcore Ho].
    unfold core in Hcore. injection Hcore as _ _ Ha _. by apply effect_quiet.
  - by apply effect_quiet.
  - by apply effect_quiet.
  - by apply effect_quiet.
Qed.
(** ** The log of every reachable state *)
Record log_inv (s : scheduler) : Prop := {
  li_active : ∀ a id, sc_active s = Some a → rq_id (ar_request a) = Some id → round_log a (results_of id (sc_out s));
  li_answers : ∀ id sm, Respond id sm None ∈ sc_out s → summarises sm (results_of id (sc_out s));
  li_reported : ∀ id, results_of id (sc_out s) ≠ [] → id ∈ active_request s ++ answered s
}.

Lemma answered_out id sm err s : Respond id sm err ∈ sc_out s → id ∈ answered s.
Proof. intros Hin. apply list_elem_of_omap. by eexists. Qed.

(** The rounds and the answers of a state belong to different requests. *)
Lemma active_unanswered s a id :
  NoDup (request_ids s) → sc_active s = Some a → rq_id (ar_request a) = Some id → id ∉ answered s.
Proof.
  unfold request_ids, active_request. intros Hnd Ha Hid. rewrite Ha, Hid in Hnd.
  apply NoDup_app in Hnd as (_ & _ & Hnd). apply NoDup_app in Hnd as (_ & _ & Hnd). apply NoDup_app in Hnd as (_ & Hd & _).
  apply Hd. cbn. by left.
Qed.

Lemma manual_unreported s id :
  NoDup (request_ids s) → log_inv s → id ∈ omap rq_id (sc_manual s) → results_of id (sc_out s) = [].
Proof.
  unfold request_ids. intros Hnd Hs Hm. apply NoDup_app in Hnd as (_ & _ & Hnd). apply NoDup_app in Hnd as (_ & Hd & _).
  destruct (results_of id (sc_out s)) eqn:E; [done|]. exfalso. apply (Hd id Hm), (li_reported s Hs). by rewrite E.
Qed.

Lemma round_log_same a a' l : ar_items a' = ar_items a → ar_summary a' = ar_summary a → round_log a l → round_log a' l.
Proof. intros Hi Hsm [H1 H2 H3 H4 H5]. split; rewrite ?Hi, ?Hsm; done. Qed.

Lemma begin_log a n : ar_summary a = mkSummary n 0 0 → sm_Total (ar_summary a) = Z.of_nat (size (ar_items a)) → round_log a [].
Proof. intros Hsm Ht. split; [constructor|by intros ? ?%elem_of_nil|by rewrite Ht|by rewrite Hsm..]. Qed.

Lemma reported_response id a err : results_of id (respond a err) = [].
Proof. unfold respond. by destruct (rq_id (ar_request a)). Qed.

Lemma reported_result id r res :
  results_of id (to_caller r [OnResult r res]) = if decide (rq_id r = Some id) then [res] else [].
Proof. unfold to_caller, results_of. destruct (rq_id r) as [q|] eqn:E; cbn; rewrite ?E; by destruct (decide _). Qed.

Lemma effect_log s s' :
  scheduler_inv s' → NoDup (request_ids s) → NoDup (request_ids s') → effect s s' → log_inv s → log_inv s'.
Proof.
  intros Hs' Hnd Hnd' Heff Hlog. pose proof Hlog as [Hact Hans Hrep].
  destruct Heff as [o Ho Hp Hw|a n o Ha Ha' Ho Hp Hst Hsm Hid|a res Ha Hin Ha' Ho|a err Ha Ha' Ho Hend].
  - assert (∀ id, results_of id (sc_out s') = results_of id (sc_out s)) as Hsame.
    { intros id. by rewrite Ho, reported_app, (reported_plain id o), app_nil_r. }
    assert (∀ id, id ∈ active_request s ++ answered s → id ∈ active_request s' ++ answered s') as Hkeep.
    { intros id. unfold active_request, answered. rewrite Ho, omap_app, !elem_of_app.
      destruct (sc_active s) as [a|], (sc_active s') as [a'|]; try done; [destruct Hw as (-> & _)|]; tauto. }
    split.
    + intros a' id Ha' Hid. rewrite Hsame. rewrite Ha' in Hw. destruct (sc_active s) as [a|] eqn:Ha; [|done].
      destruct Hw as (Hr & Hi & Hsm). apply (round_log_same a); [done|done|]. apply Hact; [done|by rewrite <-Hr].
    + intros id sm. rewrite Ho, elem_of_app, <-Ho, Hsame. intros [?|Hin]; [by apply Hans|]. by apply plain_answer in Hin.
    + intros id. rewrite Hsame. intros ?%Hrep. by apply Hkeep.
  - assert (∀ id, results_of id (sc_out s') = results_of id (sc_out s)) as Hsame.
    { intros id. by rewrite Ho, reported_app, (reported_plain id o), app_nil_r. }
    split.
    + intros a' id. rewrite Ha'. intros [= <-] Hq. rewrite Hsame, (manual_unreported s id) by auto.
      pose proof (si_round s' Hs' Hst) as Hr. rewrite Ha' in Hr. apply (begin_log a n); [done|].
      rewrite (ri_total a s' Hr), Hsm. cbn. lia.
    + intros id sm. rewrite Ho, elem_of_app, <-Ho, Hsame. intros [?|Hin]; [by apply Hans|]. by apply plain_answer in Hin.
    + intros id. rewrite Hsame. intros Hr%Hrep. unfold active_request, answered in *. rewrite Ha in Hr. rewrite Ho, omap_app. set_solver.
  - assert (∀ id, rq_id (ar_request a) ≠ Some id → results_of id (sc_out s') = results_of id (sc_out s)) as Hother.
    { intros id Hne. by rewrite Ho, reported_app, reported_result, decide_False, app_nil_r. }
    assert (omap answered_request (to_caller (ar_request a) [OnResult (ar_request a) res]) = []) as Hto by by apply to_caller_answers.
    assert (answered s' = answered s) as Hanswered by (unfold answered; by rewrite Ho, omap_app, Hto, app_nil_r).
    split.
    + intros a' id. rewrite Ha'. intros [= <-] Hq. cbn in Hq.
      rewrite Ho, reported_app, reported_result, decide_True by done. apply settle_log; [by apply Hact|done].
    + intros id sm Hresp. assert (id ∈ answered s) as Hid by (rewrite <-Hanswered; by eapply answered_out).
      assert (Respond id sm None ∈ sc_out s) as Hin'.
      { rewrite Ho, elem_of_app in Hresp. destruct Hresp as [?|Hresp]; [done|]. unfold to_caller in Hresp.
        destruct (rq_id (ar_request a)); [by apply list_elem_of_singleton in Hresp|by apply elem_of_nil in Hresp]. }
      rewrite Hother; [by apply Hans|]. intros Hq. by apply (active_unanswered s a id).
    + intros id Hne. rewrite Hanswered. unfold active_request. rewrite Ha'. cbn.
      destruct (decide (rq_id (ar_request a) = Some id)) as [->|Hq]; [by left|].
      rewrite Hother in Hne by done. specialize (Hrep id Hne). unfold active_request in Hrep. by rewrite Ha in Hrep.
  - assert (∀ id, results_of id (sc_out s') = results_of id (sc_out s)) as Hsame.
    { intros id. by rewrite Ho, reported_app, reported_response, app_nil_r. }
    split.
    + intros a'. by rewrite Ha'.
    + intros id sm. rewrite Ho, elem_of_app, <-Ho, Hsame. intros [?|Hin]; [by apply Hans|].
      unfold respond in Hin. destruct (rq_id (ar_request a)) as [q|] eqn:Hq; [|by apply elem_of_nil in Hin].
      apply list_elem_of_singleton in Hin. injection Hin as -> -> <-.
      destruct (Hact a q Ha Hq) as [H1 _ H3 H4 H5]. split_and!; [done| |done|done].
      rewrite H3, (Hend eq_refl), map_size_empty. lia.
    + intros id. rewrite Hsame. intros Hr%Hrep. unfold active_request, answered in *. rewrite Ha in Hr. rewrite Ha', Ho, omap_app, respond_id.
      cbn. rewrite elem_of_app in *. destruct Hr; [by right|by left].
Qed.

Lemma reachable_log s : reachable_scheduler s → log_inv s.
Proof.
  revert s. apply (rtc_ind_r (λ s, log_inv s) newProbeScheduler).
  - split; cbn; [done|by intros id sm ?%elem_of_nil|done].
  - intros s s' Hr [v Hstep] Hlog.
    assert (reachable_scheduler s') as Hr' by (eapply rtc_r; [exact Hr|by exists v]).
    apply (effect_log s); [by apply reachable_scheduler_inv|by apply reachable_requests..| |done].
    eapply step_effect; [by apply reachable_scheduler_inv|exact Hstep].
Qed.

(** ** A round from some moment on *)

(** What the caller of [id] has been told since [base], when [tags] were open: the tags
    told and those still open, or, once it was answered without an error, all of them. *)
Definition told (id : Z) (base : list ProbeBatchResult) (tags : gset string) (s : scheduler) : Prop :=
  ∃ since, results_of id (sc_out s) = base ++ since ∧
    ((∃ a, sc_active s = Some a ∧ rq_id (ar_request a) = Some id ∧
           (br_Tag <$> since) ++ elements (dom (ar_items a)) ≡ₚ elements tags) ∨
     (id ∈ answered s ∧ ∀ sm, Respond id sm None ∈ sc_out s → br_Tag <$> since ≡ₚ elements tags)).

Lemma effect_told id base tags s s' :
  NoDup (request_ids s) → effect s s' → told id base tags s → told id base tags s'.
Proof.
  intros Hnd Heff (since & Hrep & Hcase).
  destruct Heff as [o Ho Hp Hw|a n o Ha Ha' Ho Hp Hst Hsm Hid|a res Ha Hin Ha' Ho|a err Ha Ha' Ho Hend].
  - exists since. rewrite Ho, reported_app, (reported_plain id o), app_nil_r by done. split; [done|].
    destruct Hcase as [(a & Ha & Hq & Hperm)|[Hans Hfinal]]; [left|right].
    + rewrite Ha in Hw. destruct (sc_active s') as [a'|]; [|done]. destruct Hw as (Hr & Hi & _).
      exists a'. by rewrite Hr, Hi.
    + split; [unfold answered; rewrite Ho, omap_app; set_solver|]. intros sm. rewrite elem_of_app.
      intros [?|Hresp]; [by eapply Hfinal|]. by apply plain_answer in Hresp.
  - exists since. rewrite Ho, reported_app, (reported_plain id o), app_nil_r by done. split; [done|].
    destruct Hcase as [(a0 & Ha0 & _)|[Hans Hfinal]]; [congruence|right].
    split; [unfold answered; rewrite Ho, omap_app; set_solver|]. intros sm. rewrite elem_of_app.
    intros [?|Hresp]; [by eapply Hfinal|]. by apply plain_answer in Hresp.
  - rewrite <-(app_nil_r (answered s)) in Hcase. unfold told. rewrite Ho, reported_app, reported_result.
    destruct Hcase as [(a0 & Ha0 & Hq & Hperm)|[Hans Hfinal]].
    + assert (a0 = a) as -> by congruence. exists (since ++ [res]). rewrite decide_True, Hrep, (assoc_L (++)) by done.
      split; [done|left]. exists (settle_item a res). split; [done|]. split; [done|]. cbn.
      rewrite <-Hperm, fmap_app, dom_delete_L, <-(assoc_L (++)). cbn. f_equiv.
      rewrite <-(elements_union_singleton (dom (ar_items a) ∖ {[br_Tag res]})) by set_solver.
      f_equiv. rewrite <-union_difference_singleton_L by done. done.
    + rewrite app_nil_r in Hans. exists since. rewrite decide_False, app_nil_r.
      2: { intros Hq. by apply (active_unanswered s a id). }
      split; [done|right]. split; [unfold answered; rewrite Ho, omap_app; set_solver|]. intros sm.
      rewrite elem_of_app. intros [?|Hresp]; [by eapply Hfinal|]. unfold to_caller in Hresp.
      destruct (rq_id (ar_request a)); [by apply list_elem_of_singleton in Hresp|by apply elem_of_nil in Hresp].
  - exists since. rewrite Ho, reported_app, reported_response, app_nil_r. split; [done|right].
    destruct Hcase as [(a0 & Ha0 & Hq & Hperm)|[Hans Hfinal]].
    + assert (a0 = a) as -> by congruence. split.
      * unfold answered. rewrite Ho, omap_app, respond_id, Hq. set_solver.
      * intros sm. rewrite elem_of_app. intros [Hresp|Hresp].
        -- exfalso. apply answered_out in Hresp. by apply (active_unanswered s a id).
        -- unfold respond in Hresp. rewrite Hq in Hresp. apply list_elem_of_singleton in Hresp. injection Hresp as _ <-.
           rewrite (Hend eq_refl), dom_empty_L, elements_empty, app_nil_r in Hperm. done.
    + split; [unfold answered; rewrite Ho, omap_app; set_solver|]. intros sm. rewrite elem_of_app.
      intros [?|Hresp]; [by eapply Hfinal|]. unfold respond in Hresp.
      destruct (rq_id (ar_request a)) as [q|] eqn:Hq; [|by apply elem_of_nil in Hresp].
      apply list_elem_of_singleton in Hresp. injection Hresp as -> _ _. exfalso. by apply (active_unanswered s a q).
Qed.

Lemma steps_told id base tags s s' :
  reachable_scheduler s → rtc any_step s s' → told id base tags s → told id base tags s'.
Proof.
  intros Hr Hsteps. induction Hsteps as [|s s1 s2 [v Hstep] _ IH]; [done|]. intros Htold.
  apply IH; [eapply rtc_r; [exact Hr|by exists v]|].
  apply (effect_told id base tags s); [by apply reachable_requests| |done].
  eapply step_effect; [by apply reachable_scheduler_inv|exact Hstep].
Qed.

(** C14: A caller whose round completed without an error was told every node of the round
    once, and its summary counts what it was told. Take any moment of the round: each node
    still open then (all of them when nothing has been counted yet) has one result among
    those told since, and there are no others. Over the whole round no node is told
    twice; the total is the number of results, the successes are the results without an
    error and the failures those with one. A node that failed first and was retried is
    told and counted once, by its last result. *)
Theorem completed_rounds_count_every_node s0 s a id sm :
  reachable_scheduler s0 → sc_active s0 = Some a → rq_id (ar_request a) = Some id →
  rtc any_step s0 s → Respond id sm None ∈ sc_out s →
  ∃ before since,
    results_of id (sc_out s0) = before ∧ results_of id (sc_out s) = before ++ since ∧
    (sm_Success (ar_summary a) = 0 → sm_Failed (ar_summary a) = 0 → before = []) ∧
    br_Tag <$> since ≡ₚ elements (dom (ar_items a)) ∧
    NoDup (br_Tag <$> before ++ since) ∧
    sm_Total sm = Z.of_nat (length (before ++ since)) ∧
    sm_Success sm = Z.of_nat (length (filter (λ res, br_Err res = None) (before ++ since))) ∧
    sm_Failed sm = Z.of_nat (length (filter (λ res, br_Err res ≠ None) (before ++ since))).
Proof.
  intros Hr Ha Hq Hsteps Hresp. exists (results_of id (sc_out s0)).
  assert (told id (results_of id (sc_out s0)) (dom (ar_items a)) s0) as Htold.
  { exists []. split; [by rewrite app_nil_r|]. left. by exists a. }
  pose proof (steps_told id _ _ s0 s Hr Hsteps Htold) as (since & Hrep & Hcase). exists since.
  assert (reachable_scheduler s) as Hr' by (unfold reachable_scheduler in *; by etrans).
  destruct (li_answers s (reachable_log s Hr') id sm Hresp) as (H1 & H2 & H3 & H4). rewrite Hrep in H1, H2, H3, H4.
  split; [done|]. split; [done|]. split; [|split].
  - intros Hs Hf. destruct (li_active s0 (reachable_log s0 Hr) a id Ha Hq) as [_ _ _ Ls Lf]. rewrite Hs in Ls. rewrite Hf in Lf.
    pose proof (count_total (results_of id (sc_out s0))). apply nil_length_inv. lia.
  - destruct Hcase as [(a' & Ha' & Hq' & _)|[_ Hfinal]]; [|by eapply Hfinal].
    exfalso. apply answered_out in Hresp. apply (active_unanswered s a' id); [by apply reachable_requests|done..].
  - split; [done|]. split; [done|]. unfold count in *. rewrite H3, H4. split; do 2 f_equal; apply list_filter_iff;
      intros res; unfold succeeded; destruct (br_Err res); naive_solver.
Qed.
End summaries.

(** ** The example round of [ProbeRequests]: "a" answers and "b" times out. *)
Module SummaryExample.
Import SchedulerExample.
#[local] Existing Instances SchedulerExample.ordered_ids SchedulerExample.ordered_tags.

Lemma run_top (v : view) s0 s : rtc any_step s0 s → sc_waiting s = false → sc_stopped s = false → rtc any_step s0 (top v s).
Proof. intros Hr Hw Hs. eapply rtc_r; [exact Hr|]. exists v. by apply step_top. Qed.
Lemma run_event (v : view) s0 s : rtc any_step s0 s → sc_waiting s = true → sc_stopped s = false → sc_events s ≠ [] →
  rtc any_step s0 (next_event v s).
Proof.
  intros Hr Hw Hs Hc. unfold next_event. destruct (sc_events s) as [|c rest] eqn:Heq; [done|].
  eapply rtc_r; [exact Hr|]. exists v. by apply step_event.
Qed.
Lemma run_report (v : view) s0 s err w : rtc any_step s0 s → sc_wave s = Some w → 0 < wv_limit w →
  (length (sc_events s) < event_capacity)%nat → rtc any_step s0 (report_first err s).
Proof.
  intros Hr Hw Hlim Hl. unfold report_first. rewrite Hw. destruct (wv_rest w !! 0%nat) eqn:Hi; [|done].
  eapply rtc_r; [exact Hr|]. exists v. by eapply step_result.
Qed.
Lemma run_finish (v : view) s0 s w : rtc any_step s0 s → sc_wave s = Some w → wv_rest w = [] → (length (sc_events s) < event_capacity)%nat →
  rtc any_step s0 (finish_wave s).
Proof. intros Hr Hw Hn Hl. unfold finish_wave. rewrite Hw. eapply rtc_r; [exact Hr|]. exists v. by apply step_done. Qed.

Lemma finished_after_running : rtc any_step running finished.
Proof.
  assert (rtc any_step running reported) as Hrep.
  { unfold reported. eapply (run_finish here); [eapply (run_report here); [eapply (run_report here); [apply rtc_refl|..]|..]|..]; computed. }
  unfold finished, turn.
  apply run_event; [apply run_top; [apply run_event; [apply run_top; [apply run_event; [exact Hrep|..]|..]|..]|..]|..]; computed.
Qed.

Definition first_round : round := default (newActiveRound here 0 (mkRequest None ProbeRoundManual false) [] false) (sc_active running).

Lemma summary_witness :
  (br_Tag <$> results_of 7 (sc_out finished)) ≡ₚ ["a"; "b"] ∧ NoDup (br_Tag <$> results_of 7 (sc_out finished)).
Proof.
  assert (Respond 7 (mkSummary 2 1 1) None ∈ sc_out finished) as Hin.
  { vm_compute. repeat (apply elem_of_cons; first [left; reflexivity|right]). }
  assert (sc_active running = Some first_round) as Ha by (vm_compute; reflexivity).
  destruct (completed_rounds_count_every_node running finished first_round 7 (mkSummary 2 1 1) running_reachable Ha
    ltac:(vm_compute; reflexivity) finished_after_running Hin)
    as (before & since & _ & Hall & Hnone & Htags & Hnd & _).
  assert (before = []) as -> by (apply Hnone; vm_compute; reflexivity). cbn [app] in *. rewrite Hall.
  split; [|exact Hnd]. rewrite Htags. apply Permutation_refl'. vm_compute. reflexivity.
Defined.
End SummaryExample.
