(* ===== verification/ProbeCalls.v ===== *)
(** The calls of probe functions ([probe_scheduler.go], [manager.go]): the bounded table
    of outstanding calls of [runProbeAttempt], the calls [Manager.Probe] makes beside it,
    and when an attempt's result is committed.

    A call may ignore its context and return long after its caller gave up. The steps of
    a call's goroutine (its result, its removal from the table) and of its caller (taking
    the result, giving up) interleave freely; each holds the table's lock. *)
From S2P Require Import Prelude Text Floats NetIP NetURL NodeCodec MonitorRegistry ProbeSchedule ProbeScheduler.

#[local] Open Scope Z_scope.

(** ** The table of outstanding calls *)
Definition maxOutstandingProbeCalls : nat := 512.

(** [probeAttemptKey]: the entry and the runtime tag. *)
Definition probeAttemptKey : Type := Z * string.

(** A call: its key, whether its result was sent, whether it left the table, and whether
    its caller waits. Its number is the identity of its [probeAttemptState]. *)
Record call := mkCall { cl_key : probeAttemptKey; cl_sent : bool; cl_left : bool; cl_waiting : bool }.

(** [tb_running] maps a key to the call and its [detached] mark. *)
Record calls := mkCalls {
  tb_running : gmap probeAttemptKey (Z * bool); tb_calls : gmap Z call; tb_next : Z;
  tb_detached : Z; tb_DetachedProbes : Z; tb_ActiveWorkers : Z; tb_HardTimeouts : Z
}.
Definition no_calls : calls := mkCalls ∅ ∅ 0 0 0 0 0.

Definition running_call (key : probeAttemptKey) (s : calls) : option (Z * bool) := tb_running s !! key.

Definition updateWorkerStatus (delta : Z) (s : calls) : calls :=
  let workers := tb_ActiveWorkers s + delta in
  mkCalls (tb_running s) (tb_calls s) (tb_next s) (tb_detached s) (tb_DetachedProbes s)
    (if workers <? 0 then 0 else workers) (tb_HardTimeouts s).
Definition with_calls (c : gmap Z call) (s : calls) : calls :=
  mkCalls (tb_running s) c (tb_next s) (tb_detached s) (tb_DetachedProbes s) (tb_ActiveWorkers s) (tb_HardTimeouts s).

Inductive begin_error := StillRunning | CallLimit.

(** [runProbeAttempt] up to its select: the number of the call, or the refusal. *)
Definition begin_call (key : probeAttemptKey) (s : calls) : begin_error + (Z * calls) :=
  match running_call key s with
  | Some _ => inl StillRunning
  | None =>
    if decide (maxOutstandingProbeCalls ≤ size (tb_running s))%nat then inl CallLimit
    else
      let id := tb_next s in
      inr (id, updateWorkerStatus 1
                 (mkCalls (<[key := (id, false)]> (tb_running s)) (<[id := mkCall key false false true]> (tb_calls s)) (id + 1)
                    (tb_detached s) (tb_DetachedProbes s) (tb_ActiveWorkers s) (tb_HardTimeouts s)))
  end.

(** The goroutine: the probe function returned, and its result is in the channel. *)
Definition send_result (id : Z) (c : call) (s : calls) : calls :=
  with_calls (<[id := mkCall (cl_key c) true (cl_left c) (cl_waiting c)]> (tb_calls s)) s.

(** The goroutine leaves the table, if it is still its call's entry. *)
Definition leave_table (id : Z) (c : call) (s : calls) : calls :=
  let s := with_calls (<[id := mkCall (cl_key c) (cl_sent c) true (cl_waiting c)]> (tb_calls s)) s in
  match running_call (cl_key c) s with
  | Some (owner, detached) =>
    if owner =? id then
      let count := if detached then tb_detached s - 1 else tb_detached s in
      mkCalls (delete (cl_key c) (tb_running s)) (tb_calls s) (tb_next s) count
        (if detached then count else tb_DetachedProbes s) (tb_ActiveWorkers s) (tb_HardTimeouts s)
    else s
  | None => s
  end.

(** The caller takes the result. *)
Definition take_result (id : Z) (c : call) (s : calls) : calls :=
  updateWorkerStatus (-1) (with_calls (<[id := mkCall (cl_key c) (cl_sent c) (cl_left c) false]> (tb_calls s)) s).

(** The caller's context is done: a call still in the table is detached. *)
Definition abandon_call (deadline : bool) (id : Z) (c : call) (s : calls) : calls :=
  let s := with_calls (<[id := mkCall (cl_key c) (cl_sent c) (cl_left c) false]> (tb_calls s)) s in
  updateWorkerStatus (-1)
    match running_call (cl_key c) s with
    | Some (owner, _) =>
      if owner =? id then
        mkCalls (<[cl_key c := (id, true)]> (tb_running s)) (tb_calls s) (tb_next s) (tb_detached s + 1) (tb_detached s + 1)
          (tb_ActiveWorkers s) (if deadline then tb_HardTimeouts s + 1 else tb_HardTimeouts s)
      else s
    | None => s
    end.

(** A round begins with a fresh status; every wave before it has returned. *)
Definition start_round_status (s : calls) : calls :=
  mkCalls (tb_running s) (tb_calls s) (tb_next s) (tb_detached s) (tb_detached s) 0 0.

Inductive call_step (s : calls) : calls → Prop :=
  | call_begin key id s' : begin_call key s = inr (id, s') → call_step s s'
  | call_send id c : tb_calls s !! id = Some c → cl_sent c = false → call_step s (send_result id c s)
  | call_leave id c : tb_calls s !! id = Some c → cl_sent c = true → cl_left c = false → call_step s (leave_table id c s)
  | call_take id c : tb_calls s !! id = Some c → cl_sent c = true → cl_waiting c = true → call_step s (take_result id c s)
  | call_abandon id c deadline : tb_calls s !! id = Some c → cl_waiting c = true → call_step s (abandon_call deadline id c s)
  | call_round : map_Forall (λ _ c, cl_waiting c = false) (tb_calls s) → call_step s (start_round_status s).

(** ** The calls beside the table

    [Manager.Probe] calls the probe function itself, once after another, in the
    goroutine of its caller: no table, no limit, and no giving up before the function
    returns. What keeps two of them apart is the lease of the tag, which the rounds take
    too. A direct call is the entry and the tag. *)
Record probing := mkProbing { pb_table : calls; pb_leases : gset string; pb_direct : list probeAttemptKey }.
Definition no_probing : probing := mkProbing no_calls ∅ [].

Definition begin_direct (key : probeAttemptKey) (s : probing) : option probing :=
  if decide (key.2 ∈ pb_leases s) then None
  else Some (mkProbing (pb_table s) ({[key.2]} ∪ pb_leases s) (key :: pb_direct s)).
Definition end_direct (key : probeAttemptKey) (s : probing) : probing :=
  mkProbing (pb_table s) (pb_leases s ∖ {[key.2]}) (filter (λ k, k ≠ key) (pb_direct s)).

Inductive probing_step (s : probing) : probing → Prop :=
  | probing_table t : call_step (pb_table s) t → probing_step s (mkProbing t (pb_leases s) (pb_direct s))
  | probing_lease tag : tag ∉ pb_leases s → probing_step s (mkProbing (pb_table s) ({[tag]} ∪ pb_leases s) (pb_direct s))
  | probing_release tag : tag ∉ (pb_direct s).*2 → probing_step s (mkProbing (pb_table s) (pb_leases s ∖ {[tag]}) (pb_direct s))
  | probing_direct key s' : begin_direct key s = Some s' → probing_step s s'
  | probing_return key : key ∈ pb_direct s → probing_step s (end_direct key s).

Definition reachable_probing : probing → Prop := rtc probing_step no_probing.

Definition waiting_calls (s : calls) : nat := size (filter (λ x, cl_waiting x.2 = true) (tb_calls s)).
Definition detached_calls (s : calls) : nat := size (filter (λ x, x.2.2 = true) (tb_running s)).

(** The table holds exactly the calls that have not left it. *)
Record calls_inv (s : calls) : Prop := {
  ci_running : ∀ key id d, tb_running s !! key = Some (id, d) →
    ∃ c, tb_calls s !! id = Some c ∧ cl_key c = key ∧ cl_left c = false ∧ (d = true → cl_waiting c = false) ∧
    (cl_sent c = false → cl_waiting c = false → d = true);
  ci_calls : ∀ id c, tb_calls s !! id = Some c → cl_left c = false →
    ∃ d, tb_running s !! cl_key c = Some (id, d);
  ci_next : ∀ id c, tb_calls s !! id = Some c → id < tb_next s;
  ci_bound : (size (tb_running s) ≤ maxOutstandingProbeCalls)%nat;
  ci_detached : tb_detached s = Z.of_nat (detached_calls s);
  ci_workers : tb_ActiveWorkers s = Z.of_nat (waiting_calls s)
}.

(** ** Counting *)
Section counting.
Context {K A : Type} `{Countable K} (P : K * A → Prop) `{∀ x, Decision (P x)}.
Implicit Types m : gmap K A.

Lemma count_insert m k x :
  m !! k = None → size (filter P (<[k := x]> m)) = (size (filter P m) + if decide (P (k, x)) then 1 else 0)%nat.
Proof.
  intros Hk. case_decide as Hp.
  - rewrite map_filter_insert_True by done. rewrite map_size_insert_None; [lia|]. apply map_lookup_filter_None. auto.
  - rewrite map_filter_insert_not' by naive_solver. lia.
Qed.

Lemma count_delete m k x :
  m !! k = Some x → size (filter P m) = (size (filter P (delete k m)) + if decide (P (k, x)) then 1 else 0)%nat.
Proof. intros Hk. rewrite <-(insert_delete_id m k x Hk) at 1. apply count_insert, lookup_delete_eq. Qed.

Lemma count_replace m k x y :
  m !! k = Some x →
  (size (filter P (<[k := y]> m)) + (if decide (P (k, x)) then 1 else 0) = size (filter P m) + (if decide (P (k, y)) then 1 else 0))%nat.
Proof.
  intros Hk. rewrite (count_delete m k x Hk). rewrite <-(insert_delete_eq m k y). rewrite count_insert by apply lookup_delete_eq. lia.
Qed.
End counting.

(** ** The invariant *)
Lemma begin_call_inv key id s s' : begin_call key s = inr (id, s') → calls_inv s → calls_inv s'.
Proof.
  unfold begin_call. destruct (running_call key s) as [[? ?]|] eqn:Hk; [done|]. unfold running_call in Hk. case_decide as Hfull; [done|].
  intros [= <- <-] [Hrun Hcalls Hnext Hbound Hdet Hwork].
  assert (tb_calls s !! tb_next s = None) as Hfresh.
  { destruct (tb_calls s !! tb_next s) eqn:Hc; [|done]. apply Hnext in Hc. lia. }
  split; simpl.
  - intros key' id' d. rewrite lookup_insert_Some. intros [[<- [= <- <-]]|[Hne Hl]].
    + eexists. by rewrite lookup_insert_eq.
    + destruct (Hrun key' id' d Hl) as (c & Hc & Hrest). exists c. split; [|done]. rewrite lookup_insert_ne; [done|].
      intros <-. congruence.
  - intros id' c. rewrite lookup_insert_Some. intros [[<- <-]|[Hne Hl]] Hleft; simpl.
    + exists false. by rewrite lookup_insert_eq.
    + destruct (Hcalls id' c Hl Hleft) as (d & Hd). exists d. rewrite lookup_insert_ne; [done|]. congruence.
  - intros id' c. rewrite lookup_insert_Some. intros [[<- _]|[_ Hl]]; [lia|]. apply Hnext in Hl. lia.
  - rewrite map_size_insert_None by done. lia.
  - unfold detached_calls in *; simpl. rewrite count_insert by done. simpl. rewrite Hdet. lia.
  - unfold waiting_calls in *; simpl. rewrite count_insert by done. rewrite Hwork. simpl.
    destruct (Z.ltb_spec (Z.of_nat (size (filter (λ x : Z * call, cl_waiting x.2 = true) (tb_calls s))) + 1) 0); lia.
Qed.

(** A call's flags change; [tb_running] keeps its place. *)
Lemma mark_call_inv id c c' s :
  tb_calls s !! id = Some c → cl_key c' = cl_key c → cl_left c' = cl_left c → cl_waiting c' = cl_waiting c → cl_sent c' = true →
  calls_inv s → calls_inv (with_calls (<[id := c']> (tb_calls s)) s).
Proof.
  intros Hc Hkey Hleft Hwait Hsent [Hrun Hcalls Hnext Hbound Hdet Hwork]. split; simpl; try done.
  - intros key id' d Hl. destruct (Hrun key id' d Hl) as (c0 & Hc0 & Hk & Hlf & Hd & Hu). destruct (decide (id' = id)) as [->|Hne].
    + exists c'. rewrite lookup_insert_eq. rewrite Hc in Hc0. injection Hc0 as <-. by rewrite Hkey, Hleft, Hwait, Hsent.
    + exists c0. by rewrite lookup_insert_ne.
  - intros id' c0. rewrite lookup_insert_Some. intros [[<- <-]|[Hne Hl]] Hlf; [rewrite Hkey; apply Hcalls; congruence|eauto].
  - intros id' c0. rewrite lookup_insert_Some. intros [[<- _]|[_ Hl]]; eauto.
  - unfold waiting_calls in *; simpl. rewrite Hwork. pose proof (count_replace (λ x, cl_waiting x.2 = true) _ _ _ c' Hc) as H.
    simpl in H. rewrite Hwait in H. f_equal. destruct (decide (cl_waiting c = true)); lia.
Qed.

Lemma leave_call_inv id c s :
  tb_calls s !! id = Some c → cl_left c = false → calls_inv s → calls_inv (leave_table id c s).
Proof.
  intros Hc Hleft [Hrun Hcalls Hnext Hbound Hdet Hwork]. destruct (Hcalls id c Hc Hleft) as [d Hd].
  unfold leave_table, running_call. simpl. rewrite Hd, Z.eqb_refl. split; simpl.
  - intros key id' d'. rewrite lookup_delete_Some. intros [Hne Hl]. destruct (Hrun key id' d' Hl) as (c0 & Hc0 & Hrest).
    exists c0. split; [|done]. rewrite lookup_insert_ne; [done|]. intros <-. destruct Hrest as (Hk & _). congruence.
  - intros id' c0. rewrite lookup_insert_Some. intros [[<- <-]|[Hne Hl]] Hlf; [done|].
    destruct (Hcalls id' c0 Hl Hlf) as [d' Hd']. exists d'. rewrite lookup_delete_ne; [done|]. intros Hk. rewrite Hk in Hd. congruence.
  - intros id' c0. rewrite lookup_insert_Some. intros [[<- _]|[_ Hl]]; eauto.
  - rewrite map_size_delete, Hd. lia.
  - unfold detached_calls in *; simpl. pose proof (count_delete (λ x, x.2.2 = true) _ _ _ Hd) as H. simpl in H.
    rewrite Hdet, H. destruct d; simpl; lia.
  - unfold waiting_calls in *; simpl. rewrite Hwork.
    pose proof (count_replace (λ x, cl_waiting x.2 = true) _ _ _ (mkCall (cl_key c) (cl_sent c) true (cl_waiting c)) Hc) as H.
    simpl in H. f_equal. destruct (decide (cl_waiting c = true)); lia.
Qed.

(** The caller goes away: one waiting call less, and the counter is never clamped. *)
Lemma caller_leaves id c s :
  tb_calls s !! id = Some c → cl_waiting c = true → calls_inv s →
  let s' := with_calls (<[id := mkCall (cl_key c) (cl_sent c) (cl_left c) false]> (tb_calls s)) s in
  tb_ActiveWorkers s - 1 = Z.of_nat (waiting_calls s') ∧
  (∀ id' c', tb_calls s' !! id' = Some c' → cl_left c' = false → ∃ d, tb_running s !! cl_key c' = Some (id', d)) ∧
  (∀ id' c', tb_calls s' !! id' = Some c' → id' < tb_next s) ∧
  ∀ key id' d, tb_running s !! key = Some (id', d) →
    ∃ c', tb_calls s' !! id' = Some c' ∧ cl_key c' = key ∧ cl_left c' = false ∧ (d = true → cl_waiting c' = false) ∧
      (id' ≠ id → cl_sent c' = false → cl_waiting c' = false → d = true) ∧ (id' = id → c' = mkCall (cl_key c) (cl_sent c) (cl_left c) false).
Proof.
  intros Hc Hwait [Hrun Hcalls Hnext Hbound Hdet Hwork]. cbv zeta. split_ands; simpl.
  - unfold waiting_calls in *; simpl. rewrite Hwork.
    pose proof (count_replace (λ x, cl_waiting x.2 = true) _ _ _ (mkCall (cl_key c) (cl_sent c) (cl_left c) false) Hc) as H.
    simpl in H. rewrite Hwait in H. simpl in H. lia.
  - intros id' c'. rewrite lookup_insert_Some. intros [[<- <-]|[Hne Hl]] Hlf; simpl in *; eauto.
  - intros id' c'. rewrite lookup_insert_Some. intros [[<- _]|[_ Hl]]; eauto.
  - intros key id' d Hl. destruct (Hrun key id' d Hl) as (c0 & Hc0 & Hk & Hlf & Hd & Hu). destruct (decide (id' = id)) as [->|Hne].
    + eexists. rewrite lookup_insert_eq. split; [done|]. simpl. rewrite Hc in Hc0. by injection Hc0 as <-.
    + exists c0. by rewrite lookup_insert_ne.
Qed.

Lemma take_result_inv id c s :
  tb_calls s !! id = Some c → cl_sent c = true → cl_waiting c = true → calls_inv s → calls_inv (take_result id c s).
Proof.
  intros Hc Hsent Hwait Hs. destruct (caller_leaves id c s Hc Hwait Hs) as (Hw & H1 & H2 & H3). destruct Hs as [_ _ _ Hbound Hdet _].
  unfold take_result. split; simpl; try done.
  - intros key id' d Hl. destruct (H3 key id' d Hl) as (c' & Hc' & Hk & Hlf & Hd & Hu & Hme). exists c'. split_ands; [done..|].
    intros Hs' Hw'. destruct (decide (id' = id)) as [->|]; [|auto]. rewrite (Hme eq_refl) in Hs'. simpl in Hs'. congruence.
  - unfold waiting_calls in *; simpl in *. rewrite <-Hw. destruct (Z.ltb_spec (tb_ActiveWorkers s + -1) 0); lia.
Qed.

Lemma abandon_call_inv deadline id c s :
  tb_calls s !! id = Some c → cl_waiting c = true → calls_inv s → calls_inv (abandon_call deadline id c s).
Proof.
  intros Hc Hwait Hs. destruct (caller_leaves id c s Hc Hwait Hs) as (Hw & H1 & H2 & H3).
  pose proof Hs as [Hrun Hcalls _ Hbound Hdet _]. unfold abandon_call, running_call. simpl.
  assert ((∀ d, tb_running s !! cl_key c ≠ Some (id, d)) → ∀ s0, tb_running s0 = tb_running s → tb_detached s0 = tb_detached s → tb_next s0 = tb_next s →
    tb_calls s0 = <[id := mkCall (cl_key c) (cl_sent c) (cl_left c) false]> (tb_calls s) → tb_ActiveWorkers s0 = tb_ActiveWorkers s →
    calls_inv (updateWorkerStatus (-1) s0)) as Hkeep.
  { intros Hno s0 E1 E2 E3 E4 E5. split; simpl; rewrite ?E1, ?E2, ?E3, ?E4, ?E5; try done.
    - intros key id' d Hl. destruct (H3 key id' d Hl) as (c' & Hc' & Hk & Hlf & Hd & Hu & Hme). exists c'. split_ands; [done..|].
      intros Hs' Hw'. destruct (decide (id' = id)) as [->|]; [|auto]. exfalso. rewrite (Hme eq_refl) in Hk. simpl in Hk. subst key. by apply (Hno d).
    - by unfold detached_calls in *; simpl; rewrite E1.
    - unfold waiting_calls in *; simpl in *. rewrite E4. rewrite <-Hw. destruct (Z.ltb_spec (tb_ActiveWorkers s + -1) 0); lia. }
  destruct (tb_running s !! cl_key c) as [[owner d]|] eqn:Hd; [|by apply Hkeep].
  destruct (Z.eqb_spec owner id) as [->|Hne]; [|apply Hkeep; [intros d'; congruence|done..]]. clear Hkeep.
  assert (d = false) as ->.
  { destruct (Hrun _ _ _ Hd) as (c0 & Hc0 & _ & _ & Hdw & _). rewrite Hc in Hc0. injection Hc0 as <-. destruct d; [|done]. specialize (Hdw eq_refl). congruence. }
  split; simpl.
  - intros key id' d'. rewrite lookup_insert_Some. intros [[<- [= <- <-]]|[Hne Hl]].
    + destruct (H3 _ _ _ Hd) as (c' & Hc' & Hk & Hlf & _ & _ & Hme). exists c'. split_ands; [done..| |done]. by rewrite (Hme eq_refl).
    + destruct (H3 key id' d' Hl) as (c' & Hc' & Hk & Hlf & Hdw & Hu & Hme). exists c'. split_ands; [done..|].
      intros Hs' Hw'. destruct (decide (id' = id)) as [->|]; [|auto]. rewrite (Hme eq_refl) in Hk. simpl in Hk. by destruct Hne.
  - intros id' c' Hl Hlf. destruct (H1 id' c' Hl Hlf) as [d' Hd']. destruct (decide (cl_key c' = cl_key c)) as [Heq|Hne].
    + exists true. rewrite Heq, lookup_insert_eq. rewrite Heq, Hd in Hd'. by injection Hd' as <- _.
    + exists d'. by rewrite lookup_insert_ne.
  - done.
  - by rewrite map_size_insert_Some.
  - unfold detached_calls in *; simpl. pose proof (count_replace (λ x, x.2.2 = true) _ _ _ (id, true) Hd) as H. simpl in H. rewrite Hdet. lia.
  - unfold waiting_calls in *; simpl in *. rewrite <-Hw. destruct (Z.ltb_spec (tb_ActiveWorkers s + -1) 0); lia.
Qed.

Lemma start_round_inv s : map_Forall (λ _ c, cl_waiting c = false) (tb_calls s) → calls_inv s → calls_inv (start_round_status s).
Proof.
  intros Hnone [Hrun Hcalls Hnext Hbound Hdet Hwork]. split; simpl; try done.
  unfold waiting_calls; simpl. replace (filter _ (tb_calls s)) with (∅ : gmap Z call); [by rewrite map_size_empty|].
  symmetry. apply map_empty. intros i. apply map_lookup_filter_None. right. intros x Hx Hw. simpl in Hw.
  apply Hnone in Hx. congruence.
Qed.

Lemma call_step_inv s s' : call_step s s' → calls_inv s → calls_inv s'.
Proof.
  intros Hstep Hs. destruct Hstep.
  - by eapply begin_call_inv.
  - by eapply mark_call_inv.
  - by apply leave_call_inv.
  - by apply take_result_inv.
  - by apply abandon_call_inv.
  - by apply start_round_inv.
Qed.

(** Every direct call has the lease of its tag to itself. *)
Record probing_inv (s : probing) : Prop := {
  pi_table : calls_inv (pb_table s);
  pi_leased : ∀ key, key ∈ pb_direct s → key.2 ∈ pb_leases s;
  pi_direct : NoDup (pb_direct s).*2
}.

Lemma probing_step_inv s s' : probing_step s s' → probing_inv s → probing_inv s'.
Proof.
  intros Hstep [Htab Hleased Hnd]. destruct Hstep as [t Ht|tag Hfree|tag Hnone|key s' Hbegin|key Hin]; [split; simpl; [|done..]|split; simpl; [done| |done]..| |].
  - by apply (call_step_inv _ _ Ht).
  - set_solver.
  - intros key Hkey. apply elem_of_difference. split; [by apply Hleased|]. intros Heq%elem_of_singleton. apply Hnone.
    rewrite <-Heq. apply list_elem_of_fmap. by exists key.
  - unfold begin_direct in Hbegin. case_decide as Hfree; [done|]. injection Hbegin as <-. split; simpl; [done|set_solver|].
    apply NoDup_cons. split; [|done]. intros (k & Heq & Hk)%list_elem_of_fmap. apply Hfree. rewrite Heq. by apply Hleased.
  - split; simpl; [done| |by apply NoDup_filter_key].
    intros k [Hne Hk]%list_elem_of_filter. apply elem_of_difference. split; [by apply Hleased|].
    intros Heq%elem_of_singleton. apply Hne. by apply (NoDup_key_inj snd (pb_direct s)).
Qed.

Lemma reachable_probing_inv s : reachable_probing s → probing_inv s.
Proof.
  revert s. apply (rtc_ind_r (λ s, probing_inv s) no_probing).
  - split; simpl; [|set_solver|constructor].
    split; simpl; try done; try (intros *; by rewrite lookup_empty). rewrite map_size_empty. unfold maxOutstandingProbeCalls. lia.
  - intros s s' _ Hstep. by apply probing_step_inv.
Qed.

(** C23: Calls of probe functions that ignore their deadline cannot pile up. Of the calls
    made through [runProbeAttempt], which are those of the rounds, at most 512 are
    outstanding, whether their caller waits or not, and never two for one entry and tag;
    the worker count is the number of waiting callers, and the detached count that of the
    marked calls, which has every outstanding call whose caller left without a result.
    The calls [Manager.Probe] makes are outside that table and its limit; of these there
    is at most one for each tag, and its lease is taken. *)
Theorem outstanding_calls_are_bounded s :
  reachable_probing s →
  let t := pb_table s in
  (size (tb_running t) ≤ 512)%nat ∧
  (∀ id c, tb_calls t !! id = Some c → cl_left c = false →
     (∃ d, tb_running t !! cl_key c = Some (id, d)) ∧
     (cl_sent c = false → cl_waiting c = false → tb_running t !! cl_key c = Some (id, true))) ∧
  tb_detached t = Z.of_nat (detached_calls t) ∧ tb_ActiveWorkers t = Z.of_nat (waiting_calls t) ∧
  NoDup (pb_direct s).*2 ∧ (∀ key, key ∈ pb_direct s → key.2 ∈ pb_leases s) ∧
  (length (pb_direct s) ≤ size (pb_leases s))%nat.
Proof.
  intros [[Hrun Hcalls _ Hbound Hdet Hwork] Hleased Hnd]%reachable_probing_inv. cbn zeta. split_ands; [done| |done..|].
  - intros id c Hc Hleft. destruct (Hcalls id c Hc Hleft) as [d Hd]. split; [by exists d|]. intros Hs Hw.
    destruct (Hrun _ _ _ Hd) as (c0 & Hc0 & _ & _ & _ & Hu). rewrite Hc in Hc0. injection Hc0 as <-. by rewrite (Hu Hs Hw) in Hd.
  - replace (length (pb_direct s)) with (length (pb_direct s).*2) by apply length_fmap.
    rewrite <-(size_list_to_set (C := gset string) _ Hnd). apply subseteq_size.
    intros tag (key & -> & Hkey)%elem_of_list_to_set%list_elem_of_fmap. by apply Hleased.
Qed.

(** ** Attempts and commits

    What an attempt meets: the context before and after, the entry's tag before and
    after, the ticket, the calls, and the error of the commit. A commit is the latency
    and the error handed to [commitHealthResult]. *)
Inductive probe_error := Refused (e : begin_error) | Failed (text : string).
Definition error_text (e : probe_error) : string :=
  match e with
  | Refused StillRunning => "previous probe call is still running"
  | Refused CallLimit => "outstanding probe call limit reached"
  | Failed text => text
  end.
Definition is_limit (e : option probe_error) : bool := match e with Some (Refused CallLimit) => true | _ => false end.

(** [errors.Join] *)
Definition join_errors (a : option string) (b : string) : option string :=
  Some (match a with Some t => t +:+ String (Ascii.ascii_of_nat 10) b | None => b end).

Definition staleGeneration : string := "probe runtime generation changed".
Definition notConfigured : string := "probe function not configured".

Record attempt_env := mkAttemptEnv {
  ae_ctx : option string; ae_tag : string; ae_begin : option string;
  ae_call : nat → Z * option probe_error; ae_call_ctx : nat → option string;
  ae_ctx_after : option string; ae_tag_after : string; ae_commit : option string
}.

Definition commit : Type := Z * option string.

(** The result after the commit, if there is one. *)
Definition commit_result (env : attempt_env) (tag name : string) (attempts latency : Z) (err : option string) (may : bool)
    : ProbeBatchResult * option commit :=
  if may && bool_decide (ae_ctx_after env = None) && bool_decide (ae_tag_after env = tag)
  then (mkBatchResult tag name latency (match ae_commit env with Some e => join_errors err e | None => err end) attempts, Some (latency, err))
  else (mkBatchResult tag name latency err attempts, None).

Definition probeInitialAttempt (env : attempt_env) (item : probeWorkItem) (attempt : Z) (commitFailure : bool)
    : ProbeBatchResult * option commit :=
  let failed err := (mkBatchResult (wk_tag item) (wk_name item) 0 (Some err) attempt, None) in
  match ae_ctx env with
  | Some err => failed err
  | None =>
    if negb (bool_decide (ae_tag env = wk_tag item)) then failed staleGeneration
    else
      match ae_begin env with
      | Some err => failed err
      | None =>
        let '(latency, err) := match wk_probe item with None => (0, Some (Failed notConfigured)) | Some _ => ae_call env 0 end in
        if is_limit err then (mkBatchResult (wk_tag item) (wk_name item) latency (error_text <$> err) attempt, None)
        else commit_result env (wk_tag item) (wk_name item) attempt latency (error_text <$> err)
               (bool_decide (err = None) || commitFailure || bool_decide (wk_probe item = None))
      end
  end.

(** The retry loop: call [k] and its context, until a success, a done context or the last
    retry. The fuel is the number of calls the policy allows. *)
Fixpoint call_loop (env : attempt_env) (fuel k : nat) : nat * (Z * option probe_error) :=
  let r := ae_call env k in
  match fuel with
  | S (S _ as fuel') =>
    if bool_decide (r.2 = None) || negb (bool_decide (ae_call_ctx env k = None)) then (S k, r) else call_loop env fuel' (S k)
  | _ => (S k, r)
  end.
Definition allowed_calls (p : ProbePolicy) : nat := Z.to_nat (pp_RoutineRetries p + 1).

Definition probeRoutineItem (env : attempt_env) (p : ProbePolicy) (item : probeWorkItem) : ProbeBatchResult * option commit :=
  let failed err := (mkBatchResult (wk_tag item) (wk_name item) 0 (Some err) 0, None) in
  if negb (bool_decide (ae_tag env = wk_tag item)) then failed staleGeneration
  else
    match ae_begin env with
    | Some err => failed err
    | None =>
      match wk_probe item with
      | None => failed notConfigured
      | Some _ =>
        let '(attempts, (latency, err)) := call_loop env (allowed_calls p) 0 in
        commit_result env (wk_tag item) (wk_name item) (Z.of_nat attempts) latency (error_text <$> err) (negb (is_limit err))
      end
    end.

(** [Manager.Probe] on a registered tag, holding its lease; [deadline] is the error of
    the probe's own context after the calls. *)
Definition Probe (env : attempt_env) (p : ProbePolicy) (tag : string) (probe : option Z) (leased : bool) (deadline : option string)
    : result Z * option commit :=
  match ae_ctx env with
  | Some err => (Err err, None)
  | None =>
    match probe with
    | None => (Err "probe not available for this node", None)
    | Some _ =>
      if negb leased then (Err "probe already in progress for this node", None)
      else
        match ae_begin env with
        | Some err => (Err err, None)
        | None =>
          let '(_, (latency, err)) := call_loop env (allowed_calls p) 0 in
          match ae_ctx_after env with
          | Some err => (Err err, None)
          | None =>
            let err := match deadline with Some e => Some e | None => error_text <$> err end in
            if bool_decide (ae_tag_after env = tag) then
              (match ae_commit env with
               | Some e => Err e
               | None => match err with Some e => Err e | None => Ok latency end
               end, Some (latency, err))
            else (match err with Some e => Err e | None => Ok latency end, None)
          end
        end
    end
  end.

(** ** What is committed *)
Lemma call_loop_S env fuel k :
  call_loop env (S (S fuel)) k =
    if bool_decide ((ae_call env k).2 = None) || negb (bool_decide (ae_call_ctx env k = None)) then (S k, ae_call env k)
    else call_loop env (S fuel) (S k).
Proof. done. Qed.

Lemma call_loop_spec env fuel k :
  let out := call_loop env fuel k in
  let most := (k + match fuel with O => 1 | S _ => fuel end)%nat in
  (k < out.1)%nat ∧ (out.1 ≤ most)%nat ∧ out.2 = ae_call env (out.1 - 1) ∧
  (∀ j, (k ≤ j < out.1 - 1)%nat → (ae_call env j).2 ≠ None ∧ ae_call_ctx env j = None) ∧
  (out.1 = most ∨ (ae_call env (out.1 - 1)).2 = None ∨ ae_call_ctx env (out.1 - 1) ≠ None).
Proof.
  revert k. induction fuel as [|fuel IH]; intros k; [simpl; split_ands; [lia|lia|f_equal; lia|intros; lia|left; lia]|].
  destruct fuel as [|fuel]; [simpl; split_ands; [lia|lia|f_equal; lia|intros; lia|left; lia]|]. rewrite call_loop_S.
  destruct (bool_decide ((ae_call env k).2 = None) || negb (bool_decide (ae_call_ctx env k = None))) eqn:Hstop.
  - simpl. replace (k - 0)%nat with k by lia. split_ands; [lia|lia|done|intros; lia|right].
    apply orb_true_iff in Hstop as [Hs|Hs]; [left; by apply bool_decide_eq_true in Hs|right].
    by apply negb_true_iff, bool_decide_eq_false in Hs.
  - apply orb_false_iff in Hstop as [Hs1 Hs2]. apply bool_decide_eq_false in Hs1. apply negb_false_iff, bool_decide_eq_true in Hs2.
    destruct (IH (S k)) as (H1 & H2 & H3 & H4 & H5). generalize dependent (call_loop env (S fuel) (S k)). intros out H1 H2 H3 H4 H5.
    cbv zeta. split_ands; [lia|lia|done| |].
    + intros j Hj. destruct (decide (j = k)) as [->|]; [done|]. apply H4. lia.
    + destruct H5 as [H5|H5]; [left; lia|by right].
Qed.

Lemma commit_result_spec env tag name attempts latency err may res c :
  commit_result env tag name attempts latency err may = (res, Some c) →
  may = true ∧ ae_ctx_after env = None ∧ ae_tag_after env = tag ∧ c = (latency, err).
Proof.
  unfold commit_result. destruct may; simpl; [|done]. repeat case_bool_decide; simpl; try done. by intros [= _ <-].
Qed.

(** C24: A probe commits only a measurement of the generation it reserved: the context is
    alive and the entry still has the tag after the calls. The first attempt of a startup
    probe never commits a failure, a call refused by the limit is never committed, and a
    routine probe commits the outcome of its last call: at most retries plus one calls,
    of which all but the last failed. *)
Theorem commits_are_current_measurements env p item attempt commitFailure res1 res2 c :
  0 ≤ pp_RoutineRetries p →
  (probeInitialAttempt env item attempt commitFailure = (res1, Some c) →
     ae_ctx env = None ∧ ae_ctx_after env = None ∧ ae_tag env = wk_tag item ∧ ae_tag_after env = wk_tag item ∧
     (commitFailure = false → wk_probe item ≠ None → c.2 = None) ∧
     (wk_probe item ≠ None → c = ((ae_call env 0).1, error_text <$> (ae_call env 0).2) ∧ is_limit (ae_call env 0).2 = false)) ∧
  (probeRoutineItem env p item = (res2, Some c) →
     ae_ctx_after env = None ∧ ae_tag env = wk_tag item ∧ ae_tag_after env = wk_tag item ∧
     ∃ n, (n ≤ Z.to_nat (pp_RoutineRetries p))%nat ∧ br_Attempts res2 = Z.of_nat n + 1 ∧
       c = ((ae_call env n).1, error_text <$> (ae_call env n).2) ∧ is_limit (ae_call env n).2 = false ∧
       ∀ j, (j < n)%nat → (ae_call env j).2 ≠ None).
Proof.
  intros Hretries. split.
  - unfold probeInitialAttempt. destruct (ae_ctx env); [done|]. case_bool_decide as Htag; [|done]. simpl. destruct (ae_begin env); [done|].
    destruct (wk_probe item) as [fn|] eqn:Hprobe.
    + destruct (ae_call env 0) as [latency err]. destruct (is_limit err) eqn:Hlim; [done|].
      intros (Hmay & Hctx & Hafter & ->)%commit_result_spec. split_ands; try done. intros -> _. simpl.
      rewrite orb_false_r in Hmay. rewrite orb_false_r in Hmay. apply bool_decide_eq_true in Hmay as ->. done.
    + intros (Hmay & Hctx & Hafter & ->)%commit_result_spec. split_ands; done.
  - unfold probeRoutineItem. case_bool_decide as Htag; [|done]. simpl. destruct (ae_begin env); [done|].
    destruct (wk_probe item); [|done]. pose proof (call_loop_spec env (allowed_calls p) 0) as (H1 & H2 & H3 & H4 & _).
    destruct (call_loop env (allowed_calls p) 0) as [n [latency err]]. simpl in *. intros Hc.
    assert (br_Attempts res2 = Z.of_nat n) as Hatt.
    { unfold commit_result in Hc. by case_match; simplify_eq/=. }
    apply commit_result_spec in Hc as (Hmay & Hctx & Hafter & ->). apply negb_true_iff in Hmay.
    split_ands; [done..|]. exists (n - 1)%nat. rewrite <-H3.
    assert (n ≤ Z.to_nat (pp_RoutineRetries p + 1))%nat as Hn by (unfold allowed_calls in H2; destruct (Z.to_nat (pp_RoutineRetries p + 1)) eqn:Hz; lia).
    split_ands; [lia|lia|done..|]. intros j Hj. apply H4. lia.
Qed.

(** A manual probe that reports a latency either committed it as a success or found
    the node moved to another tag; a caller's cancellation commits nothing, and a probe
    whose own deadline passed is committed as a failure whatever the call returned. *)
Theorem manual_probe_reports_its_commit env p tag probe leased deadline res c :
  Probe env p tag probe leased deadline = (res, c) →
  (∀ latency, res = Ok latency → deadline = None ∧ ae_ctx_after env = None ∧
     (c = Some (latency, None) ∨ (c = None ∧ ae_tag_after env ≠ tag))) ∧
  (ae_ctx_after env ≠ None → c = None ∧ is_Ok res = false) ∧
  (∀ e latency err, deadline = Some e → c = Some (latency, err) → err = Some e ∧ is_Ok res = false).
Proof.
  unfold Probe. destruct (ae_ctx env) as [e0|]; [by intros [= <- <-]|]. destruct probe; [|by intros [= <- <-]].
  destruct leased; simpl; [|by intros [= <- <-]]. destruct (ae_begin env); [by intros [= <- <-]|].
  destruct (call_loop env (allowed_calls p) 0) as [n [latency err]].
  destruct (ae_ctx_after env) as [e1|]; [by intros [= <- <-]|]. case_bool_decide as Htag.
  - intros [= <- <-]. split_ands; [|done|].
    + intros l. destruct (ae_commit env); [done|]. destruct deadline; [done|]. destruct err; [done|]. simpl. intros [= <-]. auto.
    + intros e l e2 ->. intros [= <- <-]. split; [done|]. by destruct (ae_commit env).
  - intros [= <- <-]. split_ands; [|done|done]. intros l. destruct deadline; [done|]. destruct err; [done|]. simpl. intros [= <-]. auto.
Qed.

(** ** Examples *)
Module CallsExample.
Definition key : probeAttemptKey := (1, "a").
Definition begun : calls := match begin_call key no_calls with inr (_, s) => s | inl _ => no_calls end.
Definition stuck : calls := abandon_call true 0 (mkCall key false false true) begun.

(** The round gave the stuck call up and released the lease; then the node is probed by
    hand. *)
Definition beside : probing := mkProbing stuck {["a"]} [key].

Lemma beside_reachable : reachable_probing beside.
Proof.
  eapply rtc_l; [apply (probing_table no_probing begun), (call_begin no_calls key 0 begun); reflexivity|].
  eapply rtc_l; [eapply (probing_table _ stuck), (call_abandon begun 0 (mkCall key false false true) true); reflexivity|].
  eapply rtc_l; [apply (probing_direct _ key beside); vm_compute; reflexivity|constructor].
Qed.

(** A probe by hand calls the function of a node whose previous call is stuck, which the
    table refuses to the rounds. *)
Theorem manual_calls_bypass_the_table :
  ∃ s, reachable_probing s ∧ tb_running (pb_table s) !! key = Some (0, true) ∧ key ∈ pb_direct s ∧
       begin_call key (pb_table s) = inl StillRunning.
Proof. exists beside. split_ands; [exact beside_reachable|reflexivity|by left|reflexivity]. Qed.

(** The stuck call is counted, holds its slot, and blocks another of its key. *)
Lemma calls_bounded_witness :
  tb_detached stuck = 1 ∧ tb_running stuck !! key = Some (0, true) ∧ begin_call key stuck = inl StillRunning ∧
  (size (tb_running stuck) ≤ 512)%nat.
Proof.
  destruct (outstanding_calls_are_bounded beside beside_reachable) as (H1 & H2 & _ & _).
  split_ands; [reflexivity| |reflexivity|exact H1].
  exact (proj2 (H2 0 (mkCall key false false false) eq_refl eq_refl) eq_refl eq_refl).
Defined.

Definition env (commit_err : option string) : attempt_env :=
  mkAttemptEnv None "a" None (λ k, if decide (k = 1)%nat then (9, None) else (0, Some (Failed "timeout"))) (λ _, None) None "a" commit_err.
Definition item : probeWorkItem := mkWork 1 "a" "a" (Some 1).
Definition policy : ProbePolicy := normalizeProbePolicy (mkPolicy 0 0 0 0 0 2).

Lemma commit_witness :
  (probeInitialAttempt (env None) item 1 false).2 = None ∧ (probeInitialAttempt (env None) item 2 true).2 = Some (0, Some "timeout") ∧
  ∃ n, (probeRoutineItem (env None) policy item).2 = Some (9, None) ∧ br_Attempts (probeRoutineItem (env None) policy item).1 = Z.of_nat n + 1 ∧
    (ae_call (env None) n).1 = 9.
Proof.
  split; [reflexivity|]. split; [reflexivity|].
  destruct (commits_are_current_measurements (env None) policy item 1 false (probeRoutineItem (env None) policy item).1
              (probeRoutineItem (env None) policy item).1 (9, None)) as [_ H]; [vm_compute; discriminate|].
  destruct H as (_ & _ & _ & n & _ & Hn & Hc & _); [vm_compute; reflexivity|]. exists n.
  split; [vm_compute; reflexivity|]. split; [exact Hn|]. injection Hc as H9 _. symmetry. exact H9.
Defined.

Lemma probe_witness :
  Probe (env None) policy "a" (Some 1) true None = (Ok 9, Some (9, None)) ∧
  ∀ latency, (Probe (env None) policy "a" (Some 1) true None).1 = Ok latency → Some (9, None : option string) = Some (latency, None) ∨ (Some (9, None : option string) = None ∧ "a" ≠ "a").
Proof.
  split; [vm_compute; reflexivity|]. intros latency Hl.
  destruct (manual_probe_reports_its_commit (env None) policy "a" (Some 1) true None (Ok 9) (Some (9, None))) as (H & _); [vm_compute; reflexivity|].
  apply H. rewrite <-Hl. vm_compute. reflexivity.
Defined.
End CallsExample.
