(* ===== verification/HealthCommit.v ===== *)
(** The life of one health measurement ([internal/monitor/health_applier.go] over
    [internal/probe/applier.go], [internal/store/landing_probe.go] and
    [internal/store/probe_id.go]): the identity of the connection is captured before
    dialing, the result is committed with its journal row and its receipt, projected
    into the registry and published, then acknowledged.

    The database and the registry change under the operation: [su_afterCommit] and
    [su_afterProjection] are what others do to both after the commit and after the
    projection. Failed reads, failed commits and failed acknowledgements are
    arguments. *)
From stdpp Require Import pretty.
From S2P Require Import Prelude Text Floats NetIP NetURL NodeCodec LinkRoundTrip MonitorRegistry MonitorReload MonitorHealth.
From S2P Require NodeRegion NodeLocation HealthJournal ProbeApplier.

#[local] Open Scope Z_scope.

(** [store.NewProbeID]: the clock in nanoseconds and a process-wide uint64 counter. *)
Definition UnixNano (t : Z) : Z := wrap64 (t - GoTime.unixToInternal * GoTime.second).
Definition NewProbeID (prefix : string) (now seq : Z) : string :=
  prefix +:+ ":" +:+ pretty (UnixNano now) +:+ ":" +:+ pretty seq.
Definition next_seq (seq : Z) : Z := (seq + 1) mod 2 ^ 64.

(** What the manager's health path works on: the store, whether one is bound
    ([resultApplier]), the registry, the counter of measurements rejected by a full
    journal, and the counter of probe ids. *)
Record health_state := mkHealth {
  hs_db : ProbeApplier.probe_db; hs_bound : bool; hs_registry : nodeRegistry; hs_rejected : Z; hs_probeSeq : Z
}.

Definition with_db (db : ProbeApplier.probe_db) (s : health_state) : health_state :=
  mkHealth db (hs_bound s) (hs_registry s) (hs_rejected s) (hs_probeSeq s).
Definition with_registry (r : nodeRegistry) (s : health_state) : health_state :=
  mkHealth (hs_db s) (hs_bound s) r (hs_rejected s) (hs_probeSeq s).
Definition with_rejected (n : Z) (s : health_state) : health_state :=
  mkHealth (hs_db s) (hs_bound s) (hs_registry s) n (hs_probeSeq s).
Definition with_probeSeq (n : Z) (s : health_state) : health_state :=
  mkHealth (hs_db s) (hs_bound s) (hs_registry s) (hs_rejected s) n.

(** [SetProbeStore], called before nodes are registered: a ticket is committed to the
    store it was begun on. *)
Definition SetProbeStore (db : option ProbeApplier.probe_db) (s : health_state) : health_state :=
  match db with
  | None => mkHealth (hs_db s) false (hs_registry s) (hs_rejected s) (hs_probeSeq s)
  | Some db => mkHealth db true (hs_registry s) (hs_rejected s) (hs_probeSeq s)
  end.

Section commit.
Context `{RS : !RangeOrder string, CL : !CodecLibraries, RL : !NodeRegion.RegionLibrary} (receipt_id : ProbeApplier.Result → string).

(** The identity a link stands for. *)
Definition connection_identity (uri : string) : string :=
  match ParseURI uri with
  | Ok parsed => re_Hash parsed
  | Err _ => FallbackHash uri
  end.

(** [BeginLandingProbe] with no probe id: [readErr] is a failed read of the location. *)
Definition BeginLandingProbe (now : Z) (readErr : option string) (nodeID : Z) (uri : string) (s : health_state)
    : health_state * result NodeLocation.Observation :=
  match readErr, ProbeApplier.pd_locations (hs_db s) !! nodeID with
  | Some e, _ => (s, Err e)
  | None, None => (s, Err (ProbeApplier.missing_node nodeID))
  | None, Some row =>
    let token := NodeLocation.s_Token (NodeLocation.GetNodeLocation row) in
    if decide (NodeLocation.tk_Identity token ≠ connection_identity uri)
    then (s, Err ("node " +:+ pretty nodeID +:+ " outbound identity changed"))
    else
      let seq := next_seq (hs_probeSeq s) in
      (with_probeSeq seq s,
       Ok (NodeLocation.mkObservation token (NewProbeID ("landing:" +:+ pretty nodeID) now seq) now GoTime.zero ""
             NodeLocation.SourceGeoIPExit false "" ""))
  end.

(** [beginHealthResult] and [Applier.Begin]: no ticket when no store is bound. *)
Definition beginHealthResult (now : Z) (readErr : option string) (p : Z) (s : health_state)
    : health_state * result (option ProbeApplier.Result) :=
  if negb (hs_bound s) then (s, Ok None)
  else
    let info := en_info (entry_at p (hs_registry s)) in
    if bool_decide (ni_NodeID info ≤ 0) then (s, Err "health node has no persisted identity")
    else
      match BeginLandingProbe now readErr (ni_NodeID info) (ni_URI info) s with
      | (s, Err e) => (s, Err e)
      | (s, Ok obs) =>
        (s, Ok (Some (ProbeApplier.mkResult (ni_NodeID info) ProbeApplier.Health ProbeApplier.HealthProbe obs None None None
                        (Some (ProbeApplier.mkHealthResult (ni_Tag info) false 0 "")))))
      end.

(** The ticket with the measurement filled in; [probeErr] is the error's text. *)
Definition completed (ticket : ProbeApplier.Result) (latency : Z) (probeErr : option string) (checkedAt : Z) : ProbeApplier.Result :=
  let o := ProbeApplier.r_Observation ticket in
  let tag := match ProbeApplier.r_Health ticket with Some h => ProbeApplier.hr_Tag h | None => "" end in
  ProbeApplier.mkResult (ProbeApplier.r_NodeID ticket) (ProbeApplier.r_Kind ticket) (ProbeApplier.r_Origin ticket)
    (NodeLocation.mkObservation (NodeLocation.ob_Token o) (NodeLocation.ob_ProbeID o) (NodeLocation.ob_StartedAt o) checkedAt
       (NodeLocation.ob_IP o) (NodeLocation.ob_Source o) (NodeLocation.ob_Succeeded o) (NodeLocation.ob_ISO o) (NodeLocation.ob_Country o))
    (ProbeApplier.r_Detection ticket) (ProbeApplier.r_Quality ticket) (ProbeApplier.r_Unlock ticket)
    (Some (ProbeApplier.mkHealthResult tag (match probeErr with None => true | Some _ => false end) latency (default "" probeErr))).

(** [errors.Is(err, store.ErrHealthEventJournalFull)] for an error of [Apply]. *)
Definition journal_full (now : Z) (event : ProbeApplier.Result) (db : ProbeApplier.probe_db) : bool :=
  match ProbeApplier.validate event with
  | Some _ => false
  | None => match ProbeApplier.apply_tx receipt_id now event db with
            | Err e => bool_decide (e = HealthJournal.ErrHealthEventJournalFull)
            | Ok _ => false
            end
  end.

(** What surrounds a commit: the clocks of the database and of the counters, the
    probe destination, the epoch of the manager, and the faults. *)
Record surroundings := mkSurroundings {
  su_epoch : Z; su_dbNow : Z; su_now : Z; su_destination : string;
  su_fault : option string; su_ackErr : option string;
  su_afterCommit : health_state → health_state; su_afterProjection : health_state → health_state
}.

Definition acknowledge (out : ProbeApplier.Outcome) (s : health_state) : health_state :=
  with_db (ProbeApplier.Acknowledge out (hs_db s)) s.

(** [commitHealthResult]: the state, the published events, the error. *)
Definition commitHealthResult (v : surroundings) (p : Z) (ticket : option ProbeApplier.Result) (latency : Z)
    (probeErr : option string) (checkedAt : Z) (s : health_state) : health_state * list HealthResultEvent * option string :=
  match ticket with
  | None =>
    let '(r, ev) := projectHealthResult (su_now v) (su_destination v) p latency probeErr checkedAt 0 "" (hs_registry s) in
    (with_registry r s, [ev], None)
  | Some ticket =>
    let event := completed ticket latency probeErr checkedAt in
    match ProbeApplier.Apply receipt_id (su_dbNow v) (su_fault v) event (hs_db s) with
    | (_, _, Some err) =>
      (if journal_full (su_dbNow v) event (hs_db s) then with_rejected (hs_rejected s + 1) s else s, [], Some err)
    | (db, out, None) =>
      if negb (ProbeApplier.out_Applied out) then (with_db db s, [], Some ("health result rejected: " +:+ ProbeApplier.out_Reason out))
      else
        let s1 := su_afterCommit v (with_db db s) in
        match ProjectHealthOutcome (su_epoch v) (su_now v) (su_destination v) out (hs_registry s1) with
        | Err e => (s1, [], Some e)
        | Ok (r, evs) =>
          let s2 := su_afterProjection v (with_registry r s1) in
          match su_ackErr v with
          | Some e => (s2, evs, Some e)
          | None => (acknowledge out s2, evs, None)
          end
        end
    end
  end.

(** ** What becomes visible is durable *)

(** The stored traces of a published event: the last row of the journal and the
    pending receipt of the node's health stream. *)
Definition recorded (event : ProbeApplier.Result) (ev : HealthResultEvent)
    (db db' : ProbeApplier.probe_db) : Prop :=
  ∃ row receipt,
    HealthJournal.db_events (ProbeApplier.pd_journal db') = HealthJournal.db_events (ProbeApplier.pd_journal db) ++ [row] ∧
    HealthJournal.he_Seq row = he_Seq ev ∧ HealthJournal.he_NodeID row = he_NodeID ev ∧
    HealthJournal.he_Tag row = he_Tag ev ∧ HealthJournal.he_ProbeID row = he_ProbeID ev ∧
    HealthJournal.he_Success row = he_Success ev ∧ HealthJournal.he_Error row = he_Error ev ∧
    HealthJournal.he_LatencyMs row = Milliseconds (he_Latency ev) ∧ HealthJournal.he_CheckedAt row = he_CheckedAt ev ∧
    ProbeApplier.pd_receipts db' !! (he_NodeID ev, ProbeApplier.Health) = Some receipt ∧
    ProbeApplier.pr_Pending receipt = true ∧ ProbeApplier.pr_EventID receipt = receipt_id event ∧
    ProbeApplier.out_Event (ProbeApplier.pr_Result receipt) = event.

Lemma project_entry_info now destination latency err checkedAt e :
  en_info (project_entry now destination latency err checkedAt e) = en_info e.
Proof. unfold project_entry. by destruct err. Qed.

(** What a projection publishes is what the outcome says. *)
Lemma project_published epoch now destination out r r' evs ev :
  ProjectHealthOutcome epoch now destination out r = Ok (r', evs) → ev ∈ evs →
  ∃ h, let event := ProbeApplier.out_Event out in let obs := ProbeApplier.r_Observation event in
    ProbeApplier.r_Health event = Some h ∧
    ev = mkResultEvent (ProbeApplier.hr_Tag h) (ProbeApplier.r_NodeID event) (ProbeApplier.hr_Success h) (ProbeApplier.hr_Latency h)
           (if ProbeApplier.hr_Success h then "" else ProbeApplier.hr_Error h) (NodeLocation.ob_ProbeID obs) (ProbeApplier.out_Seq out)
           (if GoTime.isZero (NodeLocation.ob_CheckedAt obs) then now else NodeLocation.ob_CheckedAt obs).
Proof.
  unfold ProjectHealthOutcome. destruct (ProbeApplier.r_Health _) as [h|]; [|done].
  destruct (negb _); [done|]. destruct (GoTime.before _ _); [by intros [= _ <-] ?%elem_of_nil|].
  destruct (byTagEntry _ r) as [p|]; [|by intros [= _ <-] ?%elem_of_nil].
  destruct (negb (bool_decide (byNodeID _ _ = _))); [by intros [= _ <-] ?%elem_of_nil|].
  destruct (_ || _) eqn:Hguard; [by intros [= _ <-] ?%elem_of_nil|]. cbn [projectHealthResult].
  intros [= _ <-] ->%list_elem_of_singleton. exists h. split; [done|].
  repeat rewrite orb_false_iff in Hguard. destruct Hguard as (((Hn & Ht) & _) & _).
  apply negb_false_iff, Z.eqb_eq in Hn. apply negb_false_iff, bool_decide_eq_true_1 in Ht.
  unfold entry_at, update_entry. cbn. rewrite lookup_insert_eq. cbn. rewrite project_entry_info.
  change (default _ (rg_heap r !! p)) with (entry_at p r). rewrite Hn, Ht. by destruct (ProbeApplier.hr_Success h).
Qed.

Lemma begin_ticket now readErr p s s' t :
  beginHealthResult now readErr p s = (s', Ok (Some t)) →
  let info := en_info (entry_at p (hs_registry s)) in
  ∃ row probeID,
    ProbeApplier.pd_locations (hs_db s) !! ni_NodeID info = Some row ∧
    NodeLocation.tk_Identity (NodeLocation.s_Token (NodeLocation.GetNodeLocation row)) = connection_identity (ni_URI info) ∧
    t = ProbeApplier.mkResult (ni_NodeID info) ProbeApplier.Health ProbeApplier.HealthProbe
          (NodeLocation.mkObservation (NodeLocation.s_Token (NodeLocation.GetNodeLocation row)) probeID now GoTime.zero ""
             NodeLocation.SourceGeoIPExit false "" "") None None None (Some (ProbeApplier.mkHealthResult (ni_Tag info) false 0 "")).
Proof.
  unfold beginHealthResult. destruct (negb (hs_bound s)); [done|]. cbn zeta. case_bool_decide; [done|].
  unfold BeginLandingProbe. destruct readErr; [done|].
  destruct (ProbeApplier.pd_locations _ !! _) as [row|] eqn:Hrow; [|done].
  destruct (decide _) as [|Hid]; [done|]. apply dec_stable in Hid. intros [= _ <-]. by exists row; eexists.
Qed.

(** An applied health result: its token is still the node's, and its row and receipt are there. *)
Lemma applied_health now fault event db h :
  let a := ProbeApplier.Apply receipt_id now fault event db in
  ProbeApplier.r_Kind event = ProbeApplier.Health → ProbeApplier.r_Health event = Some h →
  ProbeApplier.out_Applied a.1.2 = true →
  let obs := ProbeApplier.r_Observation event in
  ∃ loc row receipt,
    ProbeApplier.pd_locations db !! ProbeApplier.r_NodeID event = Some loc ∧
    NodeLocation.s_Token (NodeLocation.GetNodeLocation loc) = NodeLocation.ob_Token obs ∧
    GoTime.before (NodeLocation.ob_CheckedAt obs) (NodeLocation.ob_StartedAt obs) = false ∧
    a.2 = None ∧ ProbeApplier.out_Event a.1.2 = event ∧ ProbeApplier.out_ReceiptID a.1.2 = receipt_id event ∧
    HealthJournal.db_events (ProbeApplier.pd_journal a.1.1) = HealthJournal.db_events (ProbeApplier.pd_journal db) ++ [row] ∧
    row = HealthJournal.with_seq (ProbeApplier.out_Seq a.1.2) now (ProbeApplier.health_event event (NodeLocation.GetNodeLocation loc) h) ∧
    ProbeApplier.pd_receipts a.1.1 !! (ProbeApplier.r_NodeID event, ProbeApplier.Health) = Some receipt ∧
    ProbeApplier.pr_Pending receipt = true ∧ ProbeApplier.pr_EventID receipt = receipt_id event ∧
    ProbeApplier.pr_Result receipt = a.1.2.
Proof.
  cbn zeta. intros Hk Hh Happ.
  destruct (ProbeApplier.Apply_cases receipt_id now fault event db)
    as [[Ha _]|(loc & db1 & change & seq & He & _ & Hv & Hloc & Ht & _ & Hw & Ho & Hdb)]; [congruence|].
  destruct (ProbeApplier.write_facts_spec now event loc db db1 change seq Hv Hloc Hw) as [_ Hf].
  destruct (Hf (receipt_id event)) as (_ & _ & _ & _ & Hhealth & _).
  destruct (Hhealth Hk) as (h' & loc' & row & Hh' & Hloc' & Hrow & _ & Hev & _ & _). simplify_eq.
  assert (ProbeApplier.Stream event = ProbeApplier.Health) as Hst.
  { unfold ProbeApplier.Stream. rewrite Hk. by destruct (ProbeApplier.r_Quality event). }
  assert (GoTime.before (NodeLocation.ob_CheckedAt (ProbeApplier.r_Observation event))
            (NodeLocation.ob_StartedAt (ProbeApplier.r_Observation event)) = false) as Hbefore.
  { revert Hv. unfold ProbeApplier.validate. cbn zeta. destruct (_ || _) eqn:Hor; [done|]. by apply orb_false_iff in Hor as [_ ?]. }
  rewrite Hst in Hdb. rewrite Hdb, He, Ho. do 3 eexists.
  split_and!; try done; [apply lookup_insert_eq|done..].
Qed.

(** C2: Nothing about a node's health becomes visible that is not durable. A measurement
    begun on an entry and committed later, whatever others did meanwhile, either
    leaves the database and the registry as they were, publishes nothing and reports
    an error; or it is published, and then the node of the entry still has, in the
    database, the connection the probe dialed, and the commit put at the end of the
    journal a row that says exactly what is published, under the sequence number that
    is published, and left a pending receipt of the very measurement. *)
Theorem visible_health_is_durable v t0 readErr p s0 s1 ticket latency probeErr checkedAt s s' evs err :
  0 < t0 →
  beginHealthResult t0 readErr p s0 = (s1, Ok (Some ticket)) →
  commitHealthResult v p (Some ticket) latency probeErr checkedAt s = (s', evs, err) →
  let info := en_info (entry_at p (hs_registry s0)) in
  let event := completed ticket latency probeErr checkedAt in
  let a := ProbeApplier.Apply receipt_id (su_dbNow v) (su_fault v) event (hs_db s) in
  (ProbeApplier.out_Applied a.1.2 = false →
     evs = [] ∧ hs_db s' = hs_db s ∧ hs_registry s' = hs_registry s ∧ err ≠ None) ∧
  (∀ ev, ev ∈ evs →
     ProbeApplier.out_Applied a.1.2 = true ∧
     he_NodeID ev = ni_NodeID info ∧ he_Tag ev = ni_Tag info ∧
     he_Success ev = bool_decide (probeErr = None) ∧ he_Error ev = default "" probeErr ∧
     he_Latency ev = latency ∧ he_CheckedAt ev = checkedAt ∧
     (∃ row, ProbeApplier.pd_locations (hs_db s) !! ni_NodeID info = Some row ∧
        NodeLocation.tk_Identity (NodeLocation.s_Token (NodeLocation.GetNodeLocation row)) = connection_identity (ni_URI info)) ∧
     recorded event ev (hs_db s) a.1.1).
Proof.
  intros Ht0 (row & id & Hrow & Hid & ->)%begin_ticket. cbn zeta. set (info := en_info _) in *.
  set (event := completed _ _ _ _). set (a := ProbeApplier.Apply _ _ _ _ _). unfold commitHealthResult. fold event a.
  pose proof (ProbeApplier.Apply_cases receipt_id (su_dbNow v) (su_fault v) event (hs_db s)) as Hcases.
  pose proof (applied_health (su_dbNow v) (su_fault v) event (hs_db s) _ eq_refl eq_refl) as Happ.
  cbn zeta in Hcases, Happ. fold a in Hcases, Happ. destruct a as [[db out] aerr]. cbn [fst snd] in *.
  destruct (ProbeApplier.out_Applied out) eqn:Hout.
  2:{ assert (db = hs_db s) as -> by (destruct Hcases as [[_ ?]|(? & ? & ? & ? & _ & _ & _ & _ & _ & _ & _ & -> & _)]; [done|discriminate Hout]).
      destruct aerr as [e|]; cbn [negb]; intros [= <- <- <-]; (split; [|by intros ? ?%elem_of_nil]); intros _; [by destruct (journal_full _ _ _)|done]. }
  destruct (Happ eq_refl) as (loc & jrow & receipt & Hloc & Htok & Hbefore & -> & Hev & Hrid & Hj & Hjrow & Hrec & Hp & Hpe & Hpr).
  cbn [negb]. intros Hrun. split; [done|]. intros ev Hin.
  destruct (ProjectHealthOutcome _ _ _ _ _) as [[r evs0]|e] eqn:Hproj; [|by simplify_eq; apply elem_of_nil in Hin].
  assert (evs = evs0) as -> by (by destruct (su_ackErr v); simplify_eq).
  destruct (project_published _ _ _ _ _ _ _ _ Hproj Hin) as (h & Hh & ->). rewrite Hev in Hh |- *. cbn in Hh. injection Hh as <-.
  unfold GoTime.before in Hbefore. apply bool_decide_eq_false_1 in Hbefore. cbn in Hbefore.
  cbn. unfold GoTime.isZero, GoTime.zero. rewrite (bool_decide_eq_false_2 (checkedAt = 0)) by lia. cbn in Htok.
  split_and!; try done; [by destruct probeErr|by destruct probeErr| |].
  - exists loc. split; [done|]. rewrite <-Hid. by apply (f_equal NodeLocation.tk_Identity) in Htok.
  - exists jrow, receipt. subst jrow. split_and!; try done. all: by (rewrite Hpr || destruct probeErr).
Qed.

(** After a restart or a lost acknowledgement the receipt is still pending; a commit
    that reports no error has acknowledged what it committed, unless a newer result of
    the node took the receipt over meanwhile. *)
Theorem successful_commits_are_acknowledged v p ticket latency probeErr checkedAt s s' evs r :
  ProbeApplier.r_Kind ticket = ProbeApplier.Health →
  commitHealthResult v p (Some ticket) latency probeErr checkedAt s = (s', evs, None) →
  let event := completed ticket latency probeErr checkedAt in
  ProbeApplier.pd_receipts (hs_db s') !! (ProbeApplier.r_NodeID event, ProbeApplier.Health) = Some r →
  ProbeApplier.pr_EventID r = receipt_id event → ProbeApplier.pr_Pending r = false.
Proof.
  intros Hk. unfold commitHealthResult. cbn zeta. set (event := completed _ _ _ _).
  pose proof (applied_health (su_dbNow v) (su_fault v) event (hs_db s) _ Hk eq_refl) as Happ. cbn zeta in Happ.
  destruct (ProbeApplier.Apply _ _ _ event _) as [[db out] [e|]]; [done|]. cbn [fst snd] in Happ.
  destruct (ProbeApplier.out_Applied out) eqn:Hout; [|done]. cbn [negb].
  destruct (Happ eq_refl) as (_ & _ & _ & _ & _ & _ & _ & Hev & Hrid & _).
  destruct (ProjectHealthOutcome _ _ _ _ _) as [[r0 evs0]|]; [|done]. destruct (su_ackErr v); [done|].
  intros [= <- _]. unfold acknowledge, ProbeApplier.Acknowledge, ProbeApplier.AcknowledgeProbeReceipt. cbn.
  rewrite Hev. assert (ProbeApplier.Stream event = ProbeApplier.Health) as ->.
  { unfold ProbeApplier.Stream. cbn. rewrite Hk. by destruct (ProbeApplier.r_Quality ticket). }
  rewrite lookup_alter_eq, fmap_Some. intros (r1 & _ & ->). rewrite Hrid. by case_decide.
Qed.
End commit.

(** ** Example: one node measured, then measured again after its connection was replaced *)
Module CommitExample.
Definition order := LinkExample.order.
Definition libs := LinkExample.libraries.
Definition regions := NodeLocation.LocationExample.library.
Definition receipt_id (e : ProbeApplier.Result) : string := NodeLocation.ob_ProbeID (ProbeApplier.r_Observation e).

Definition node : NodeInfo := ReloadExample.node 11 "a".
Definition identity : string := @connection_identity order libs (ni_URI node).
Definition located (identity : string) (revision : Z) : NodeLocation.location_row :=
  NodeLocation.mkLocationRow (NodeLocation.mkState (NodeLocation.mkToken identity revision)
    NodeLocation.LocationExample.blank NodeLocation.LocationExample.blank "" 0 "" false) revision identity "" "".
Definition database (identity : string) (revision : Z) : ProbeApplier.probe_db :=
  ProbeApplier.mkProbeDB {[11 := located identity revision]} ∅ ∅ ∅ ∅ (HealthJournal.mkJournal [] 1 ∅ ∅ ∅).
Definition state (db : ProbeApplier.probe_db) : health_state :=
  mkHealth db true (register node newNodeRegistry).2 0 0.
Definition quiet : surroundings := mkSurroundings 0 120 130 "probe" None None id id.

Definition started : health_state := state (database identity 1).
Definition begun := @beginHealthResult order libs regions 100 None 1 started.
Definition ticket : ProbeApplier.Result :=
  match begun.2 with Ok (Some t) => t | _ => ProbeApplier.mkResult 0 "" "" (NodeLocation.mkObservation (NodeLocation.mkToken "" 0) "" 0 0 "" "" false "" "") None None None None end.
Definition committed := @commitHealthResult regions receipt_id quiet 1 (Some ticket) 3000000 None 110 begun.1.

Lemma durable_witness :
  ∃ ev, committed.1.2 = [ev] ∧ he_Seq ev = 1 ∧ he_Tag ev = "a" ∧ he_Success ev = true ∧
    recorded receipt_id (completed ticket 3000000 None 110) ev (hs_db begun.1)
      (@ProbeApplier.Apply regions receipt_id 120 None (completed ticket 3000000 None 110) (hs_db begun.1)).1.1.
Proof.
  assert (begun = (begun.1, Ok (Some ticket))) as Hb by (vm_compute; reflexivity).
  assert (committed.1.2 = [mkResultEvent "a" 11 true 3000000 "" (NodeLocation.ob_ProbeID (ProbeApplier.r_Observation ticket)) 1 110]) as He
    by (vm_compute; reflexivity).
  assert (0 < 100) as H0 by reflexivity.
  destruct (@visible_health_is_durable order libs regions receipt_id quiet 100 None 1 started begun.1 ticket 3000000 None 110
              begun.1 committed.1.1 committed.1.2 committed.2 H0 Hb
              ltac:(unfold committed; destruct (commitHealthResult _ _ _ _ _ _ _ _) as [[? ?] ?]; reflexivity)) as [_ Hv].
  eexists. split; [exact He|]. split; [reflexivity|]. split; [reflexivity|]. split; [reflexivity|].
  apply Hv. rewrite He. left.
Defined.

Lemma acknowledged_witness :
  ∃ r, ProbeApplier.pd_receipts (hs_db committed.1.1) !! (11, ProbeApplier.Health) = Some r ∧ ProbeApplier.pr_Pending r = false.
Proof.
  destruct (ProbeApplier.pd_receipts (hs_db committed.1.1) !! (11, ProbeApplier.Health)) as [r|] eqn:Hr;
    [|vm_compute in Hr; discriminate Hr].
  exists r. split; [reflexivity|].
  assert (committed.2 = None) as Hok by (vm_compute; reflexivity).
  assert (ProbeApplier.pr_EventID <$> ProbeApplier.pd_receipts (hs_db committed.1.1) !! (11, ProbeApplier.Health)
          = Some (receipt_id (completed ticket 3000000 None 110))) as Hid by (vm_compute; reflexivity).
  rewrite Hr in Hid. injection Hid as Hid.
  refine (@successful_commits_are_acknowledged regions receipt_id quiet 1 ticket 3000000 None 110 begun.1
            committed.1.1 committed.1.2 r _ _ Hr Hid); [vm_compute; reflexivity|].
  rewrite <-Hok. unfold committed. destruct (commitHealthResult _ _ _ _ _ _ _ _) as [[? ?] ?]; reflexivity.
Defined.

(** The connection of the node was replaced after dialing: nothing happens. *)
Example replaced_connection_is_refused :
  let r := @commitHealthResult regions receipt_id quiet 1 (Some ticket) 3000000 None 110 (state (database identity 2)) in
  (r.1.2, r.2) = ([], Some "health result rejected: obsolete_identity").
Proof. vm_compute. reflexivity. Qed.
End CommitExample.
