(* ===== verification/LoginLimiter.v ===== *)
(** The login rate limiter and the login handler ([internal/controlplane/auth.go],
    [internal/httpapi/server_auth.go]): failures per source, their window and the
    lockout.

    The limiter's methods hold its mutex, so each is one step with a reading of the
    clock. Requests of several sources, and several requests of one source, interleave
    freely: a history is a list of steps. Random delays and response bodies are left
    out. *)
From S2P Require Import Prelude.

(** ** The limiter *)
Definition MaxLoginFailuresWithin : Z := 8.
Definition LoginFailureWindow : Z := 10 * GoTime.minute.
Definition LoginLockout : Z := 5 * GoTime.minute.

Record loginFailureState := mkFailures { lf_count : Z; lf_firstSeen : Z; lf_lockedUntil : Z }.
Record limiter := mkLimiter { lm_failures : gmap string loginFailureState; lm_last : Z }.
Definition new_limiter : limiter := mkLimiter ∅ GoTime.zero.

(** The hourly sweep of [loginAllowed]. *)
Definition forgotten (now : Z) (f : loginFailureState) : bool :=
  (LoginFailureWindow <? GoTime.sub now (lf_firstSeen f)) && GoTime.after now (lf_lockedUntil f).
Definition sweep_failures (now : Z) (l : limiter) : limiter :=
  if GoTime.hour <? GoTime.sub now (lm_last l)
  then mkLimiter (filter (λ kf, forgotten now kf.2 = false) (lm_failures l)) now
  else l.

Definition loginAllowed (now : Z) (source : string) (l : limiter) : limiter * bool :=
  let l := sweep_failures now l in
  match lm_failures l !! source with
  | None => (mkLimiter (<[source := mkFailures 0 now GoTime.zero]> (lm_failures l)) (lm_last l), true)
  | Some f =>
    if GoTime.before now (lf_lockedUntil f) then (l, false)
    else if LoginFailureWindow <? GoTime.sub now (lf_firstSeen f)
    then (mkLimiter (<[source := mkFailures 0 now (lf_lockedUntil f)]> (lm_failures l)) (lm_last l), true)
    else (l, true)
  end.

Definition recordLoginResult (now : Z) (source : string) (success : bool) (l : limiter) : limiter :=
  if success then mkLimiter (delete source (lm_failures l)) (lm_last l)
  else
    let f := match lm_failures l !! source with
             | None => mkFailures 1 now GoTime.zero
             | Some f =>
               let count := lf_count f + 1 in
               if MaxLoginFailuresWithin <=? count then mkFailures 0 now (GoTime.add now LoginLockout)
               else mkFailures count (lf_firstSeen f) (lf_lockedUntil f)
             end in
    mkLimiter (<[source := f]> (lm_failures l)) (lm_last l).

(** [LoginAllowed] and the password half of [Authenticate]. *)
Definition LoginAllowed (now : Z) (configured source : string) (l : limiter) : limiter * bool :=
  if decide (configured = "") then (l, true) else loginAllowed now source l.

Inductive auth_error := ErrPasswordNotRequired | ErrInvalidCredentials.
Definition SecureCompare (a b : string) : bool := bool_decide (a = b).
Definition check_password (now : Z) (configured source password : string) (l : limiter) : limiter * option auth_error :=
  if decide (configured = "") then (l, Some ErrPasswordNotRequired)
  else if SecureCompare password configured then (recordLoginResult now source true l, None)
  else (recordLoginResult now source false l, Some ErrInvalidCredentials).

(** ** The handler: the status of its answer. The body is the password it decodes to,
    if it decodes; [sessionErr] is a failed creation of the session. *)
Inductive http_status := StatusOK | StatusBadRequest | StatusUnauthorized | StatusInternalServerError.
#[export] Instance http_status_eq_dec : EqDecision http_status.
Proof. solve_decision. Defined.

Definition handleAuthLogin (now now' : Z) (configured source : string) (body : option string) (sessionErr : bool) (l : limiter)
    : limiter * http_status :=
  if decide (configured = "") then (l, StatusOK)
  else
    let '(l, allowed) := LoginAllowed now configured source l in
    if negb allowed then (l, StatusUnauthorized)
    else match body with
         | None => (l, StatusBadRequest)
         | Some password =>
           match check_password now' configured source password l with
           | (l, Some ErrInvalidCredentials) => (l, StatusUnauthorized)
           | (l, Some ErrPasswordNotRequired) => (l, StatusInternalServerError)
           | (l, None) => (l, if sessionErr then StatusInternalServerError else StatusOK)
           end
         end.

(** ** Histories *)

(** A call of the limiter by a request of [source], at a time. *)
Inductive login_call :=
| Allowed (source : string) (now : Z)
| Recorded (source : string) (now : Z) (success : bool).

Definition call_time (c : login_call) : Z := match c with Allowed _ t | Recorded _ t _ => t end.

Definition run_call (l : limiter) (c : login_call) : limiter :=
  match c with
  | Allowed source now => (loginAllowed now source l).1
  | Recorded source now success => recordLoginResult now source success l
  end.

(** A wrong password of [s] was evaluated. *)
Definition is_guess (s : string) (c : login_call) : bool :=
  match c with Recorded source _ false => bool_decide (source = s) | _ => false end.
Definition guesses (s : string) (cs : list login_call) : nat := length (filter (λ c, is_guess s c = true) cs).

(** The requests of [s] come one after the other and all fail; those of others are
    arbitrary. The flag says whether a request of [s] has passed the check and not yet
    been recorded. *)
Inductive guessing (s : string) : limiter → bool → list login_call → Prop :=
| guessing_done l b : guessing s l b []
| guessing_ask l now cs :
    guessing s (run_call l (Allowed s now)) (loginAllowed now s l).2 cs → guessing s l false (Allowed s now :: cs)
| guessing_fail l now cs :
    guessing s (run_call l (Recorded s now false)) false cs → guessing s l true (Recorded s now false :: cs)
| guessing_malformed l cs : guessing s l false cs → guessing s l true cs
| guessing_other l b c cs :
    (match c with Allowed source _ | Recorded source _ _ => source ≠ s end) →
    guessing s (run_call l c) b cs → guessing s l b (c :: cs).

(** The clock of the process does not go back. *)
Inductive in_order : Z → list login_call → Prop :=
| in_order_nil t : in_order t []
| in_order_cons t c cs : t ≤ call_time c → in_order (call_time c) cs → in_order t (c :: cs).

(** ** Guessing is throttled *)

(** Every stored count is short of the limit. *)
Definition limiter_ok (l : limiter) : Prop :=
  map_Forall (λ _ f, 0 ≤ lf_count f < MaxLoginFailuresWithin) (lm_failures l).

Lemma limiter_ok_new : limiter_ok new_limiter.
Proof. apply map_Forall_empty. Qed.

Lemma expired_iff now t : (LoginFailureWindow <? GoTime.sub now t) = true ↔ LoginFailureWindow < now - t.
Proof. rewrite Z.ltb_lt. unfold GoTime.sub, GoTime.minDuration, GoTime.maxDuration, LoginFailureWindow, GoTime.minute, GoTime.second, GoTime.millisecond. lia. Qed.

Lemma sweep_ok now l : limiter_ok l → limiter_ok (sweep_failures now l).
Proof.
  intros Hl. unfold sweep_failures. destruct (GoTime.hour <? _); [|done].
  intros k f [Hk _]%map_lookup_filter_Some. by apply (Hl k).
Qed.

(** The sweep forgets a failure state or leaves it. *)
Lemma sweep_lookup now l s :
  lm_failures (sweep_failures now l) !! s = lm_failures l !! s ∨
  (lm_failures (sweep_failures now l) !! s = None ∧
   ∃ f, lm_failures l !! s = Some f ∧ LoginFailureWindow < now - lf_firstSeen f ∧ lf_lockedUntil f < now).
Proof.
  unfold sweep_failures. destruct (GoTime.hour <? _); [|by left]. cbn.
  destruct (lm_failures l !! s) as [f|] eqn:Hf.
  2:{ left. apply map_lookup_filter_None. by left. }
  destruct (forgotten now f) eqn:Hg.
  - right. split; [apply map_lookup_filter_None; right; intros ? ?; simplify_eq; cbn; congruence|].
    exists f. apply andb_true_iff in Hg as [Hw%expired_iff Ha]. unfold GoTime.after in Ha. by apply bool_decide_eq_true_1 in Ha.
  - left. by apply map_lookup_filter_Some.
Qed.

Lemma run_call_ok l c : limiter_ok l → limiter_ok (run_call l c).
Proof.
  intros Hl. destruct c as [s now|s now [|]]; cbn.
  - pose proof (sweep_ok now l Hl) as Hs. unfold loginAllowed. destruct (lm_failures (sweep_failures now l) !! s) as [f|] eqn:Hf.
    + destruct (GoTime.before _ _); [done|]. destruct (_ <? _); [|done]. apply map_Forall_insert_2; [done|done].
    + by apply map_Forall_insert_2.
  - by apply map_Forall_delete.
  - unfold recordLoginResult. cbn. apply map_Forall_insert_2; [|done].
    destruct (lm_failures l !! s) as [f|] eqn:Hf; [|done]. specialize (Hl s f Hf). cbn in Hl.
    unfold MaxLoginFailuresWithin in *. case_match eqn:Hm; cbn; [lia|]. apply Z.leb_gt in Hm. lia.
Qed.

(** How many more wrong passwords a state admits before [until]. *)
Definition budget (until : Z) (f : option loginFailureState) : Z :=
  match f with
  | None => MaxLoginFailuresWithin
  | Some f =>
    if until <? lf_lockedUntil f then 0
    else if lf_firstSeen f + LoginFailureWindow <? until then 2 * MaxLoginFailuresWithin - 1 - lf_count f
    else MaxLoginFailuresWithin - lf_count f
  end.

Section throttle.
Context (s : string) (from until : Z) (Hspan : until < from + LoginLockout).

Lemma budget_nonneg l : limiter_ok l → 0 ≤ budget until (lm_failures l !! s).
Proof using Type.
  intros Hl. unfold budget, MaxLoginFailuresWithin in *. destruct (lm_failures l !! s) as [f|] eqn:Hf; [|lia].
  specialize (Hl s f Hf). cbn in Hl. unfold MaxLoginFailuresWithin in Hl. repeat case_match; lia.
Qed.

Lemma budget_sweep now l : limiter_ok l → from ≤ now ≤ until →
  budget until (lm_failures (sweep_failures now l) !! s) ≤ budget until (lm_failures l !! s).
Proof using Type.
  intros Hl Hnow. destruct (sweep_lookup now l s) as [->|(-> & f & Hf & Hw & Hu)]; [done|]. specialize (Hl s f Hf). cbn in Hl.
  rewrite Hf. cbn. unfold MaxLoginFailuresWithin in *. replace (until <? _) with false by (symmetry; apply Z.ltb_ge; lia).
  replace (_ <? until) with true by (symmetry; apply Z.ltb_lt; lia). lia.
Qed.

(** Asking costs nothing; it is refused while the source is locked out. *)
Lemma budget_ask now l : limiter_ok l → from ≤ now ≤ until →
  budget until (lm_failures (loginAllowed now s l).1 !! s) ≤ budget until (lm_failures l !! s) ∧
  ((loginAllowed now s l).2 = true →
   ∀ f, lm_failures (loginAllowed now s l).1 !! s = Some f → lf_lockedUntil f ≤ now ∨ f = mkFailures 0 now GoTime.zero).
Proof using Hspan.
  intros Hl Hnow. pose proof (budget_sweep now l Hl Hnow) as Hb. pose proof (sweep_ok now l Hl) as Hl'.
  unfold loginAllowed. destruct (lm_failures (sweep_failures now l) !! s) as [f|] eqn:Hf.
  - specialize (Hl' s f Hf). cbn in Hl'. unfold GoTime.before. case_bool_decide as Hlock; cbn [fst snd]; [by rewrite Hf|].
    destruct (LoginFailureWindow <? _) eqn:Hw; cbn [fst snd lm_failures].
    + apply expired_iff in Hw. rewrite lookup_insert_eq. split; [|intros _ ? [= <-]; left; cbn; lia].
      etrans; [|exact Hb]. cbn. unfold LoginLockout, LoginFailureWindow, GoTime.minute, GoTime.second, GoTime.millisecond, MaxLoginFailuresWithin in *.
      repeat case_match; lia.
    + rewrite Hf. split; [done|]. intros _ ? [= <-]. left. lia.
  - cbn. rewrite lookup_insert_eq. split; [|intros _ ? [= <-]; by right]. etrans; [|exact Hb]. cbn. unfold GoTime.zero.
    unfold LoginLockout, LoginFailureWindow, GoTime.minute, GoTime.second, GoTime.millisecond, MaxLoginFailuresWithin in *.
    repeat case_match; lia.
Qed.

Definition unlocked (l : limiter) : Prop := ∀ f, lm_failures l !! s = Some f → lf_lockedUntil f ≤ until.

Lemma budget_fail now l : limiter_ok l → from ≤ now ≤ until → 0 ≤ from → unlocked l →
  budget until (lm_failures (recordLoginResult now s false l) !! s) + 1 ≤ budget until (lm_failures l !! s).
Proof using Hspan.
  intros Hl Hnow Hfrom Hun. unfold recordLoginResult. cbn [lm_failures]. rewrite lookup_insert_eq.
  destruct (lm_failures l !! s) as [f|] eqn:Hf; cbn [budget].
  - specialize (Hl s f Hf). specialize (Hun f Hf). cbn in Hl. replace (until <? lf_lockedUntil f) with false by (symmetry; apply Z.ltb_ge; lia).
    unfold GoTime.add, MaxLoginFailuresWithin in *. destruct (8 <=? _) eqn:Hm; cbn [lf_count lf_firstSeen lf_lockedUntil].
    + replace (until <? now + LoginLockout) with true by (symmetry; apply Z.ltb_lt; lia). case_match; lia.
    + replace (until <? lf_lockedUntil f) with false by (symmetry; apply Z.ltb_ge; lia). case_match; lia.
  - cbn. unfold GoTime.zero, LoginLockout, LoginFailureWindow, GoTime.minute, GoTime.second, GoTime.millisecond, MaxLoginFailuresWithin in *.
    repeat case_match; lia.
Qed.

Lemma other_lookup l c : (match c with Allowed source _ | Recorded source _ _ => source ≠ s end) →
  lm_failures (run_call l c) !! s = lm_failures l !! s ∨
  ∃ now, call_time c = now ∧ lm_failures (run_call l c) !! s = lm_failures (sweep_failures now l) !! s.
Proof using Type.
  destruct c as [source now|source now [|]]; cbn; intros Hne.
  - right. exists now. split; [done|]. unfold loginAllowed. repeat case_match; cbn; by rewrite ?lookup_insert_ne.
  - left. by rewrite lookup_delete_ne.
  - left. by rewrite lookup_insert_ne.
Qed.

Lemma guesses_cons c cs : guesses s (c :: cs) = ((if is_guess s c then 1 else 0) + guesses s cs)%nat.
Proof using Type. unfold guesses. rewrite filter_cons. by destruct (is_guess s c). Qed.

Lemma guesses_within_budget l b cs : guessing s l b cs → ∀ t, limiter_ok l → 0 ≤ from ≤ t → in_order t cs →
  (∀ c, c ∈ cs → call_time c ≤ until) → (b = true → unlocked l) →
  Z.of_nat (guesses s cs) ≤ budget until (lm_failures l !! s).
Proof using Hspan.
  induction 1 as [l b|l now cs _ IH|l now cs _ IH|l cs _ IH|l b c cs Hne _ IH]; intros t Hl Ht Hord Hend Hun.
  - by apply budget_nonneg.
  - inversion_clear Hord as [|? ? ? Htime Hord']. cbn in Htime, Hord'. rewrite guesses_cons. cbn [is_guess].
    assert (now ≤ until) as Hnow by (apply (Hend (Allowed s now)); left).
    destruct (budget_ask now l Hl ltac:(lia)) as [Hb Hu]. etrans; [|exact Hb].
    apply (IH now); [by apply (run_call_ok l (Allowed s now))|lia|done|intros; apply Hend; by right|].
    intros Hok f Hf. destruct (Hu Hok f Hf) as [?| ->]; [lia|]. cbn. unfold GoTime.zero. lia.
  - inversion_clear Hord as [|? ? ? Htime Hord']. cbn in Htime, Hord'. rewrite guesses_cons. cbn [is_guess]. rewrite bool_decide_true by done.
    assert (now ≤ until) as Hnow by (apply (Hend (Recorded s now false)); left).
    pose proof (budget_fail now l Hl ltac:(lia) ltac:(lia) (Hun eq_refl)) as Hb.
    specialize (IH now (run_call_ok l (Recorded s now false) Hl) ltac:(lia) Hord' ltac:(intros; apply Hend; by right) ltac:(done)). cbn [run_call] in IH. lia.
  - by apply (IH t).
  - inversion_clear Hord as [|? ? ? Htime Hord']. rewrite guesses_cons.
    assert (is_guess s c = false) as -> by (destruct c as [|? ? []]; cbn; [done|done|by rewrite bool_decide_false]).
    assert (call_time c ≤ until) as Hnow by (apply Hend; left).
    specialize (IH (call_time c) (run_call_ok l c Hl) ltac:(lia) Hord' ltac:(intros; apply Hend; by right)).
    destruct (other_lookup l c Hne) as [He|(now & <- & He)]; rewrite He in IH; unfold unlocked in IH; rewrite He in IH.
    + by apply IH.
    + etrans; [apply IH|apply budget_sweep; [done|lia]].
      intros Hb f Hf. apply (Hun Hb). destruct (sweep_lookup (call_time c) l s) as [<-|[Hn _]]; [done|congruence].
Qed.
End throttle.

(** The limiter after a history. *)
Definition limiter_after (past : list login_call) : limiter := foldl run_call new_limiter past.

Lemma limiter_after_ok past : limiter_ok (limiter_after past).
Proof.
  unfold limiter_after. generalize limiter_ok_new. generalize new_limiter.
  induction past as [|c past IH]; intros l Hl; [done|]. by apply IH, run_call_ok.
Qed.

(** C28: A source that sends its passwords one after the other has at most fifteen wrong
    ones evaluated in any stretch of time shorter than a lockout, whatever happened
    before and whatever other sources do in between; a source the limiter does not
    remember, eight. *)
Theorem sequential_guessing_is_throttled s past from until cs :
  0 ≤ from → until < from + LoginLockout →
  guessing s (limiter_after past) false cs → in_order from cs → (∀ c, c ∈ cs → call_time c ≤ until) →
  (guesses s cs ≤ 15)%nat ∧ (lm_failures (limiter_after past) !! s = None → (guesses s cs ≤ 8)%nat).
Proof.
  pose proof (limiter_after_ok past) as Hl. generalize dependent (limiter_after past). intros l Hl Hfrom Hspan Hg Hord Hend.
  pose proof (guesses_within_budget s from until Hspan l false cs Hg from Hl ltac:(lia) Hord Hend ltac:(done)) as Hb.
  unfold budget, MaxLoginFailuresWithin in Hb. destruct (lm_failures l !! s) as [f|] eqn:Hf; [|split; [lia|intros; lia]].
  split; [|done]. specialize (Hl s f Hf). cbn in Hl. unfold MaxLoginFailuresWithin in Hl. repeat case_match; lia.
Qed.

(** A lockout ends: once its time has passed a source may try again. *)
Theorem lockouts_end s l now : (∀ f, lm_failures l !! s = Some f → lf_lockedUntil f ≤ now) → (loginAllowed now s l).2 = true.
Proof.
  intros Hl. unfold loginAllowed. destruct (lm_failures (sweep_failures now l) !! s) as [f|] eqn:Hf; [|done].
  destruct (sweep_lookup now l s) as [He|[He _]]; rewrite He in Hf; [|done].
  unfold GoTime.before. rewrite bool_decide_false; [|specialize (Hl f Hf); lia]. by destruct (_ <? _).
Qed.

(** ** What the limiter does not do *)

(** The answers of the limiter to the requests of a history. *)
Fixpoint answers (l : limiter) (cs : list login_call) : list bool :=
  match cs with
  | [] => []
  | c :: cs => match c with
               | Allowed s now => (loginAllowed now s l).2 :: answers (run_call l c) cs
               | Recorded _ _ _ => answers (run_call l c) cs
               end
  end.

Lemma answers_app l cs cs' : answers l (cs ++ cs') = answers l cs ++ answers (foldl run_call l cs) cs'.
Proof. revert l. induction cs as [|[s now|s now ok] cs IH]; intros l; cbn; [done|by rewrite IH|apply IH]. Qed.

Lemma answers_recorded l s now ok n : answers l (replicate n (Recorded s now ok)) = [].
Proof. revert l. induction n; cbn; auto. Qed.

Lemma loginAllowed_fresh now s l :
  lm_failures l !! s = None ∨ lm_failures l !! s = Some (mkFailures 0 now GoTime.zero) → 0 ≤ now →
  (loginAllowed now s l).2 = true ∧ lm_failures (loginAllowed now s l).1 !! s = Some (mkFailures 0 now GoTime.zero).
Proof.
  intros Hl Hnow. unfold loginAllowed. destruct (lm_failures (sweep_failures now l) !! s) as [f|] eqn:Hf; [|cbn; by rewrite lookup_insert_eq].
  assert (f = mkFailures 0 now GoTime.zero) as ->.
  { destruct (sweep_lookup now l s) as [He|[He _]]; rewrite He in Hf; [|done]. destruct Hl as [Hl|Hl]; congruence. }
  cbn. unfold GoTime.before, GoTime.zero. rewrite bool_decide_false by lia.
  assert ((LoginFailureWindow <? GoTime.sub now now) = false) as ->; [|done].
  apply not_true_iff_false. rewrite expired_iff. unfold LoginFailureWindow, GoTime.minute, GoTime.second, GoTime.millisecond. lia.
Qed.

Lemma answers_at_once s now n : 0 ≤ now → ∀ l,
  lm_failures l !! s = None ∨ lm_failures l !! s = Some (mkFailures 0 now GoTime.zero) →
  answers l (replicate n (Allowed s now)) = replicate n true.
Proof.
  intros Hnow. induction n as [|n IH]; intros l Hl; [done|]. cbn.
  destruct (loginAllowed_fresh now s l Hl Hnow) as [-> Hf]. f_equal. apply IH. by right.
Qed.

(** Requests sent at once are not limited at all: [LoginAllowed] reserves nothing, so
    any number of requests of one unknown source that arrive before the first of them
    is recorded all pass the check, and all their passwords are evaluated. *)
Theorem concurrent_guesses_are_not_limited s now n : 0 ≤ now →
  let cs := replicate n (Allowed s now) ++ replicate n (Recorded s now false) in
  answers new_limiter cs = replicate n true ∧ guesses s cs = n.
Proof.
  intros Hnow. cbn zeta. rewrite answers_app, answers_recorded, app_nil_r, answers_at_once by (done || by left). split; [done|].
  unfold guesses. rewrite filter_app, length_app.
  assert (∀ m, length (filter (λ c, is_guess s c = true) (replicate m (Allowed s now))) = 0%nat) as ->
    by (intros m; induction m as [|m IH]; [done|]; rewrite replicate_S, filter_cons_False; done).
  assert (∀ m, length (filter (λ c, is_guess s c = true) (replicate m (Recorded s now false))) = m) as ->; [|done].
  intros m. induction m as [|m IH]; [done|]. rewrite replicate_S, filter_cons_True; [cbn [length]; by rewrite IH|]. cbn. by rewrite bool_decide_true.
Qed.

(** The answer to a wrong password does not depend on a lockout, but the answer to a
    malformed body does: a source learns from it whether it is locked out. *)
Theorem malformed_body_reveals_the_lockout now now' configured source password sessionErr l :
  configured ≠ "" → password ≠ configured →
  (handleAuthLogin now now' configured source (Some password) sessionErr l).2 = StatusUnauthorized ∧
  ((handleAuthLogin now now' configured source None sessionErr l).2 = StatusUnauthorized ↔ (loginAllowed now source l).2 = false).
Proof.
  intros Hc Hp. unfold handleAuthLogin, LoginAllowed, check_password, SecureCompare. rewrite !decide_False by done.
  destruct (loginAllowed now source l) as [l' [|]]; cbn; [|done]. rewrite !decide_False by done. rewrite bool_decide_false by done. done.
Qed.

(** ** Example: one client that guesses as fast as it may *)
Module LoginExample.
Definition minutes (n : Z) : Z := GoTime.ofUnix (n * 60).
Definition guess (t : Z) : list login_call := [Allowed "10.0.0.1" t; Recorded "10.0.0.1" t false].

(** Seven guesses in the last minute of a window, eight in the next. *)
Definition past : list login_call := [Allowed "10.0.0.1" (minutes 0); Allowed "10.0.0.2" (minutes 9)].
Definition burst : list login_call :=
  mjoin (replicate 7 (guess (minutes 10))) ++ [Allowed "10.0.0.2" (minutes 11)] ++ mjoin (replicate 8 (guess (minutes 11))) ++ [Allowed "10.0.0.1" (minutes 11)].

Lemma burst_guessing : guessing "10.0.0.1" (limiter_after past) false burst.
Proof.
  unfold burst, guess. cbn [mjoin list_join replicate app].
  repeat first [apply guessing_done | apply guessing_other; [vm_compute; discriminate|] | apply guessing_ask
               | match goal with |- guessing _ _ ?b (Recorded _ _ _ :: _) => assert (b = true) as -> by (vm_compute; reflexivity) end; apply guessing_fail].
Qed.

Lemma throttled_witness : guesses "10.0.0.1" burst = 15%nat ∧ (guesses "10.0.0.1" burst ≤ 15)%nat.
Proof.
  split; [reflexivity|].
  apply (sequential_guessing_is_throttled "10.0.0.1" past (minutes 10) (minutes 11) burst).
  - vm_compute. discriminate.
  - vm_compute. reflexivity.
  - exact burst_guessing.
  - unfold burst. cbn. repeat (apply in_order_cons; [vm_compute; discriminate|]). apply in_order_nil.
  - intros c Hc. assert (Forall (λ c, call_time c ≤ minutes 11) burst) as Hall by (apply (bool_decide_unpack _); vm_compute; exact I).
    rewrite Forall_forall in Hall. by apply Hall.
Defined.

Lemma concurrent_witness :
  answers new_limiter (replicate 1000 (Allowed "10.0.0.1" (minutes 0)) ++ replicate 1000 (Recorded "10.0.0.1" (minutes 0) false)) = replicate 1000 true.
Proof. apply (concurrent_guesses_are_not_limited "10.0.0.1" (minutes 0) 1000). vm_compute. discriminate. Defined.

Lemma reveals_witness :
  (handleAuthLogin (minutes 1) (minutes 1) "secret" "10.0.0.1" None false (limiter_after (mjoin (replicate 8 (guess (minutes 0)))))).2 = StatusUnauthorized.
Proof.
  apply (proj2 (malformed_body_reveals_the_lockout (minutes 1) (minutes 1) "secret" "10.0.0.1" "guess" false _ ltac:(discriminate) ltac:(discriminate))).
  vm_compute. reflexivity.
Defined.
End LoginExample.
