(* ===== verification/Sessions.v ===== *)
(** Management sessions ([internal/controlplane/auth.go]): the cache and the table of
    sessions, the gate that serializes cache misses with revocations, eviction and the
    periodic cleanup.

    A request is a process that advances one critical section or one statement at a
    time, so requests interleave as goroutines do; [advance] executes one of them. A
    failed statement changes nothing. What a step meets is its environment: the clock,
    a failed store call, an expired wait, the random token. A new token is one that
    nothing in the state has named before. *)
From stdpp Require pretty.
From S2P Require Import Prelude.

Definition MaxSessions : nat := 256.
Definition DefaultSessionTTL : Z := 24 * GoTime.hour.

Record Session := mkSession { se_CreatedAt : Z; se_ExpiresAt : Z }.

(** The table keeps instants in RFC 3339, to the second. *)
Definition to_second (t : Z) : Z := t - t mod GoTime.second.
Definition stored_session (s : Session) : Session := mkSession (to_second (se_CreatedAt s)) (to_second (se_ExpiresAt s)).

(** How a request ends. *)
Inductive answer :=
| Valid (token : string)
| Invalid (token : string)
| Revoked (token : string)
| RevokeFailed (token : string)
| Created (token : string)
| CreateFailed
| Cleaned.

(** Where a request is. *)
Inductive stage :=
| Validating (token : string)
| ValidateWait (token : string)                  (* missed the cache *)
| ValidateRead (token : string)                  (* holds the gate *)
| ValidateLoaded (token : string) (s : Session)  (* holds the gate, has read the row *)
| ValidateFound (token : string) (s : Session)   (* has read it in the cache *)
| ValidateExpired (token : string)               (* the session it read has expired *)
| ValidateDrop (token : string)                  (* has dropped it from the cache *)
| Revoking (token : string)
| RevokeDelete (token : string)                  (* holds the gate *)
| RevokeForget (token : string)                  (* holds the gate, has deleted the row *)
| Creating
| CreateStore (token : string) (s : Session)
| CreateCache (token : string) (s : Session)
| Cleaning
| CleanupStore
| Returned (a : answer).

Record auth := mkAuth {
  au_ttl : Z;
  au_store : option (gmap string Session);  (* the table of the bound store *)
  au_sessions : gmap string Session;
  au_gate : option nat                      (* the request that holds [sessionStoreGate] *)
}.
Definition with_store (db : gmap string Session) (a : auth) : auth := mkAuth (au_ttl a) (Some db) (au_sessions a) (au_gate a).
Definition with_sessions (m : gmap string Session) (a : auth) : auth := mkAuth (au_ttl a) (au_store a) m (au_gate a).
Definition with_gate (g : option nat) (a : auth) : auth := mkAuth (au_ttl a) (au_store a) (au_sessions a) g.

Record env := mkEnv { ev_now : Z; ev_storeErr : bool; ev_timeout : bool; ev_randErr : bool; ev_token : string }.

(** A statement of the bound store. *)
Definition store_exec (e : env) (f : gmap string Session → gmap string Session) (a : auth) : auth :=
  match au_store a with
  | Some db => if ev_storeErr e then a else with_store (f db) a
  | None => a
  end.

(** [NewAuth]'s lifetime of sessions. *)
Definition session_ttl (configured : Z) : Z := if configured <=? 0 then DefaultSessionTTL else configured.

Section sessions.
Context `{!RangeOrder string}.

(** [evictOldestLocked] *)
Definition older (acc : option (string * Z)) (ts : string * Session) : option (string * Z) :=
  match acc with
  | Some (token, oldest) =>
    if bool_decide (token = "") || GoTime.before (se_CreatedAt ts.2) oldest then Some (ts.1, se_CreatedAt ts.2) else acc
  | None => Some (ts.1, se_CreatedAt ts.2)
  end.
Definition evictOldest (e : env) (a : auth) : auth :=
  match foldl older None (range (au_sessions a)) with
  | None => a
  | Some (token, _) =>
    if decide (token = "") then a
    else store_exec e (delete token) (with_sessions (delete token (au_sessions a)) a)
  end.

Definition expired (now : Z) (s : Session) : bool := GoTime.after now (se_ExpiresAt s).

(** [acquireSessionStore]: the gate, or the end of the wait. *)
Definition acquire (p : nat) (e : env) (a : auth) (failed : answer) (held : stage) : option (auth * stage) :=
  if ev_timeout e then Some (a, Returned failed)
  else match au_gate a with
       | Some _ => None
       | None => Some (with_gate (Some p) a, held)
       end.

(** One step of request [p]; [None] when it has to wait or is over. *)
Definition advance (p : nat) (e : env) (st : stage) (a : auth) : option (auth * stage) :=
  match st with
  | Validating token =>
    if decide (token = "") then Some (a, Returned (Invalid token))
    else match au_sessions a !! token with
         | None => Some (a, ValidateWait token)
         | Some s => Some (a, ValidateFound token s)
         end
  | ValidateFound token s =>
    if expired (ev_now e) s then Some (a, ValidateExpired token) else Some (a, Returned (Valid token))
  | ValidateExpired token => Some (with_sessions (delete token (au_sessions a)) a, ValidateDrop token)
  | ValidateDrop token => Some (store_exec e (delete token) a, Returned (Invalid token))
  | ValidateWait token => acquire p e a (Invalid token) (ValidateRead token)
  | ValidateRead token =>
    let refused := Some (with_gate None a, Returned (Invalid token)) in
    match au_store a with
    | None => refused
    | Some db => if ev_storeErr e then refused
                 else match db !! token with
                      | None => refused
                      | Some s => Some (a, ValidateLoaded token s)
                      end
    end
  | ValidateLoaded token s =>
    if expired (ev_now e) s then Some (with_gate None (store_exec e (delete token) a), Returned (Invalid token))
    else Some (with_gate None (with_sessions (<[token := s]> (au_sessions a)) a), Returned (Valid token))
  | Revoking token =>
    if decide (token = "") then Some (a, Returned (Revoked token))
    else acquire p e a (RevokeFailed token) (RevokeDelete token)
  | RevokeDelete token =>
    if bool_decide (au_store a ≠ None) && ev_storeErr e then Some (with_gate None a, Returned (RevokeFailed token))
    else Some (store_exec e (delete token) a, RevokeForget token)
  | RevokeForget token =>
    Some (with_gate None (with_sessions (delete token (au_sessions a)) a), Returned (Revoked token))
  | Creating =>
    if ev_randErr e then Some (a, Returned CreateFailed)
    else Some (a, CreateStore (ev_token e) (mkSession (ev_now e) (GoTime.add (ev_now e) (au_ttl a))))
  | CreateStore token s => Some (store_exec e (insert token (stored_session s)) a, CreateCache token s)
  | CreateCache token s =>
    let a := if (MaxSessions <=? size (au_sessions a))%nat then evictOldest e a else a in
    Some (with_sessions (<[token := s]> (au_sessions a)) a, Returned (Created token))
  | Cleaning => Some (with_sessions (filter (λ ts, expired (ev_now e) ts.2 = false) (au_sessions a)) a, CleanupStore)
  | CleanupStore =>
    Some (store_exec e (filter (λ ts, to_second (ev_now e) ≤ to_second (se_ExpiresAt ts.2))) a, Returned Cleaned)
  | Returned _ => None
  end.

(** ** Interleavings *)

(** The sessions and the requests made so far. *)
Record system := mkSystem { sy_auth : auth; sy_requests : gmap nat stage }.

Definition names (st : stage) : option string :=
  match st with
  | Validating t | ValidateWait t | ValidateRead t | ValidateLoaded t _ | ValidateFound t _ | ValidateExpired t | ValidateDrop t | Revoking t 
  | RevokeDelete t | RevokeForget t | CreateStore t _ | CreateCache t _ => Some t
  | Returned (Valid t) | Returned (Invalid t) | Returned (Revoked t) | Returned (RevokeFailed t) | Returned (Created t) => Some t
  | _ => None
  end.

(** The session is being created: its token has not left the process. *)
Definition in_creation (token : string) (y : system) : Prop :=
  ∃ p s, sy_requests y !! p = Some (CreateStore token s) ∨ sy_requests y !! p = Some (CreateCache token s).

Definition fresh (token : string) (y : system) : Prop :=
  token ≠ "" ∧ au_sessions (sy_auth y) !! token = None ∧ (∀ db, au_store (sy_auth y) = Some db → db !! token = None) ∧
  ∀ p st, sy_requests y !! p = Some st → names st ≠ Some token.

Inductive session_step (y : system) : system → Prop :=
| request_arrives p st :
  sy_requests y !! p = None →
  (st = Creating ∨ st = Cleaning ∨ ∃ token, (st = Validating token ∨ st = Revoking token) ∧ ¬ in_creation token y) →
  session_step y (mkSystem (sy_auth y) (<[p := st]> (sy_requests y)))
| request_advances p e st a' st' :
  sy_requests y !! p = Some st → (st = Creating → fresh (ev_token e) y) →
  advance p e st (sy_auth y) = Some (a', st') →
  session_step y (mkSystem a' (<[p := st']> (sy_requests y))).

(** A process starts with an empty cache and the table it finds. *)
Definition started (ttl : Z) (db : option (gmap string Session)) : system :=
  mkSystem (mkAuth (session_ttl ttl) db ∅ None) ∅.

(** ** What a step may do *)
Definition holds (st : stage) : bool :=
  match st with ValidateRead _ | ValidateLoaded _ _ | RevokeDelete _ | RevokeForget _ => true | _ => false end.

Record effect (p : nat) (e : env) (st : stage) (a : auth) (a' : auth) (st' : stage) : Prop := mkEffect {
  ef_cached : ∀ t s, au_sessions a' !! t = Some s → au_sessions a !! t = Some s ∨ st = ValidateLoaded t s ∨ st = CreateCache t s;
  ef_stored : ∀ db' t s, au_store a' = Some db' → db' !! t = Some s →
    ∃ db, au_store a = Some db ∧ (db !! t = Some s ∨ ∃ s0, st = CreateStore t s0);
  ef_found : ∀ t s, st' = ValidateFound t s → au_sessions a !! t = Some s;
  ef_loaded : ∀ t s, st' = ValidateLoaded t s → ∃ db, au_store a = Some db ∧ db !! t = Some s;
  ef_creating : ∀ t s, st' = CreateStore t s ∨ st' = CreateCache t s → (st = Creating ∧ t = ev_token e) ∨ st = CreateStore t s;
  ef_gate : au_gate a' = (if holds st' then (if holds st then au_gate a else Some p) else if holds st then None else au_gate a) ∧
            (holds st = false → holds st' = true → au_gate a = None);
  ef_names : ∀ t, names st = Some t → names st' = Some t;
  ef_delete : ∀ t, st' = RevokeDelete t → st = Revoking t;
  ef_forget : ∀ t, st' = RevokeForget t → st = RevokeDelete t ∧ ∀ db', au_store a' = Some db' → db' !! t = None;
  ef_revoked : ∀ t, st' = Returned (Revoked t) → t = "" ∨ (st = RevokeForget t ∧ au_sessions a' !! t = None)
}.

Lemma store_exec_sessions e f a : au_sessions (store_exec e f a) = au_sessions a ∧ au_gate (store_exec e f a) = au_gate a.
Proof. unfold store_exec. destruct (au_store a); [|done]. by destruct (ev_storeErr e). Qed.

Lemma store_exec_stored e f a db' : au_store (store_exec e f a) = Some db' →
  ∃ db, au_store a = Some db ∧ (db' = db ∨ db' = f db).
Proof.
  unfold store_exec. destruct (au_store a) as [db|] eqn:H; [|congruence].
  destruct (ev_storeErr e); [rewrite H|cbn]; intros [= <-]; eauto.
Qed.

Lemma evictOldest_effect e a :
  (∀ t s, au_sessions (evictOldest e a) !! t = Some s → au_sessions a !! t = Some s) ∧
  (∀ db' t s, au_store (evictOldest e a) = Some db' → db' !! t = Some s → ∃ db, au_store a = Some db ∧ db !! t = Some s) ∧
  au_gate (evictOldest e a) = au_gate a.
Proof.
  unfold evictOldest. destruct (foldl older None _) as [[t0 c]|]; [|split_and!; eauto]. case_decide; [split_and!; eauto|].
  destruct (store_exec_sessions e (delete t0) (with_sessions (delete t0 (au_sessions a)) a)) as [-> ->]. split_and!; [|intros db' t s Hdb Ht|done].
  - cbn. by intros t s [_ ?]%lookup_delete_Some.
  - apply store_exec_stored in Hdb as (db & Hdb & [-> | ->]); exists db; [done|]. by apply lookup_delete_Some in Ht as [_ ?].
Qed.

Ltac effect_case := split; cbn; intros; naive_solver.

Lemma advance_effect p e st a a' st' : advance p e st a = Some (a', st') → effect p e st a a' st'.
Proof.
  destruct st as [t|t|t|t s|t s|t|t|t|t|t| |t s|t s| | |ans]; cbn [advance]; unfold acquire.
  - case_decide; [intros [= <- <-]; effect_case|]. destruct (au_sessions a !! t) as [s|] eqn:Hm; [|intros [= <- <-]; effect_case].
    intros [= <- <-]. effect_case.
  - destruct (ev_timeout e); [intros [= <- <-]; effect_case|]. destruct (au_gate a) eqn:Hg; [done|]. intros [= <- <-]. effect_case.
  - destruct (au_store a) as [db|] eqn:Hdb; [|intros [= <- <-]; effect_case]. destruct (ev_storeErr e); [intros [= <- <-]; effect_case|].
    destruct (db !! t) eqn:Ht; intros [= <- <-]; effect_case.
  - destruct (expired _ _); intros [= <- <-].
    + destruct (store_exec_sessions e (delete t) a) as [Hs Hg]. split; cbn; rewrite ?Hs, ?Hg; try naive_solver.
      intros db' t' s' (db & ? & [-> | ->])%store_exec_stored ?; exists db; [naive_solver|]. split; [done|]. left. by eapply lookup_delete_Some.
    + split; cbn; try naive_solver. intros t' s' [[<- <-]|[_ ?]]%lookup_insert_Some; [by right; left|by left].
  - destruct (expired _ _); intros [= <- <-]; effect_case.
  - intros [= <- <-]. split; cbn; try naive_solver. intros t' s' [_ ?]%lookup_delete_Some. by left.
  - intros [= <- <-]. destruct (store_exec_sessions e (delete t) a) as [Hs Hg]. split; cbn; rewrite ?Hs, ?Hg; try naive_solver.
    intros db' t' s' (db & ? & [-> | ->])%store_exec_stored ?; exists db; [naive_solver|]. split; [done|]. left. by eapply lookup_delete_Some.
  - case_decide; [intros [= <- <-]; effect_case|]. destruct (ev_timeout e); [intros [= <- <-]; effect_case|].
    destruct (au_gate a) eqn:Hg; [done|]. intros [= <- <-]. effect_case.
  - destruct (bool_decide _ && _) eqn:Hf; intros [= <- <-]; [effect_case|].
    destruct (store_exec_sessions e (delete t) a) as [Hs Hg]. split; cbn; rewrite ?Hs, ?Hg; try naive_solver.
    + intros db' t' s' (db & ? & [-> | ->])%store_exec_stored ?; exists db; [naive_solver|]. split; [done|]. left. by eapply lookup_delete_Some.
    + intros t' [= <-]. split; [done|]. unfold store_exec. destruct (au_store a) eqn:Hst; [|by rewrite Hst].
      rewrite bool_decide_true in Hf by done. cbn in Hf. rewrite Hf. intros db' [= <-]. apply lookup_delete_eq.
  - intros [= <- <-]. split; cbn; try naive_solver.
    + intros t' s' [_ ?]%lookup_delete_Some. by left.
    + intros t' [= <-]. right. split; [done|apply lookup_delete_eq].
  - destruct (ev_randErr e); intros [= <- <-]; effect_case.
  - intros [= <- <-]. destruct (store_exec_sessions e (insert t (stored_session s)) a) as [Hs Hg]. split; cbn; rewrite ?Hs, ?Hg; try naive_solver.
    intros db' t' s' (db & ? & [-> | ->])%store_exec_stored Hl; exists db; [naive_solver|]. split; [done|].
    apply lookup_insert_Some in Hl as [[<- <-]|[_ ?]]; eauto.
  - destruct (evictOldest_effect e a) as (Hm & Hd & Hg). generalize (MaxSessions <=? size (au_sessions a))%nat. intros b [= <- <-].
    destruct b; split; cbn; rewrite ?Hg; try naive_solver;
      intros t' s' [[<- <-]|[_ ?]]%lookup_insert_Some; eauto.
  - intros [= <- <-]. split; cbn; try naive_solver. intros t' s' [? _]%map_lookup_filter_Some. by left.
  - intros [= <- <-]. destruct (store_exec_sessions e (filter (λ ts, to_second (ev_now e) ≤ to_second (se_ExpiresAt ts.2))) a) as [Hs Hg].
    split; cbn; rewrite ?Hs, ?Hg; try naive_solver.
    intros db' t' s' (db & ? & [-> | ->])%store_exec_stored Hl; exists db; [naive_solver|]. split; [done|]. by apply map_lookup_filter_Some in Hl as [? _]; left.
  - done.
Qed.

(** ** Revocation *)
Definition named (t : string) (y : system) : Prop := ∃ p st, sy_requests y !! p = Some st ∧ names st = Some t.

(** The session is nowhere, and nobody is about to put it anywhere. *)
Record gone (t : string) (y : system) : Prop := mkGone {
  gn_named : named t y;
  gn_cache : au_sessions (sy_auth y) !! t = None;
  gn_store : ∀ db, au_store (sy_auth y) = Some db → db !! t = None;
  gn_loaded : ∀ p s, sy_requests y !! p ≠ Some (ValidateLoaded t s);
  gn_creation : ¬ in_creation t y
}.

Lemma named_at p st t y : sy_requests y !! p = Some st → names st = Some t → named t y.
Proof. by exists p, st. Qed.

Lemma named_step y y' t : session_step y y' → named t y → named t y'.
Proof.
  intros [p st Hp _|p e st a' st' Hp _ Hadv] (q & st0 & Hq & Hn).
  - exists q, st0. cbn. rewrite lookup_insert_ne by congruence. done.
  - destruct (decide (p = q)) as [<-|Hne].
    + exists p, st'. cbn. rewrite lookup_insert_eq. split; [done|]. apply (ef_names _ _ _ _ _ _ (advance_effect _ _ _ _ _ _ Hadv)). congruence.
    + exists q, st0. cbn. by rewrite lookup_insert_ne.
Qed.

Lemma creation_step y y' t : session_step y y' → in_creation t y' → named t y → in_creation t y.
Proof.
  intros [p st Hp Harr|p e st a' st' Hp Hfresh Hadv] (q & s & Hq) (r & st0 & Hr & Hn); cbn in Hq; destruct (decide (p = q)) as [<-|Hne].
  - rewrite lookup_insert_eq in Hq. naive_solver.
  - rewrite lookup_insert_ne in Hq by done. by exists q, s.
  - rewrite lookup_insert_eq in Hq.
    assert (st' = CreateStore t s ∨ st' = CreateCache t s) as Hst by naive_solver.
    destruct (ef_creating _ _ _ _ _ _ (advance_effect _ _ _ _ _ _ Hadv) t s Hst) as [[Hc ->]| ->].
    + destruct (Hfresh Hc) as (_ & _ & _ & Hun). by destruct (Hun r st0 Hr).
    + exists p, s. by left.
  - rewrite lookup_insert_ne in Hq by done. by exists q, s.
Qed.

Lemma stored_step y p e st a' st' t : sy_requests y !! p = Some st → advance p e st (sy_auth y) = Some (a', st') →
  ¬ in_creation t y → (∀ db, au_store (sy_auth y) = Some db → db !! t = None) → ∀ db', au_store a' = Some db' → db' !! t = None.
Proof.
  intros Hp Hadv Hc Hdb db' Hdb'. destruct (db' !! t) as [s|] eqn:Ht; [|done].
  destruct (ef_stored _ _ _ _ _ _ (advance_effect _ _ _ _ _ _ Hadv) db' t s Hdb' Ht) as (db & Hd & [Hs|[s0 ->]]).
  - by rewrite (Hdb db Hd) in Hs.
  - destruct Hc. exists p, s0. by left.
Qed.

Lemma gone_step y y' t : session_step y y' → gone t y → gone t y'.
Proof.
  intros Hstep [Hn Hm Hs Hl Hc]. pose proof (named_step _ _ _ Hstep Hn) as Hn'.
  assert (¬ in_creation t y') as Hc' by (intros H; by apply Hc, (creation_step y y')).
  destruct Hstep as [p st Hp Harr|p e st a' st' Hp Hfresh Hadv]; split; try done; cbn.
  - intros q s. destruct (decide (p = q)) as [<-|Hne]; [rewrite lookup_insert_eq|by rewrite lookup_insert_ne]. naive_solver.
  - destruct (au_sessions a' !! t) as [s|] eqn:Ht; [|done].
    destruct (ef_cached _ _ _ _ _ _ (advance_effect _ _ _ _ _ _ Hadv) t s Ht) as [?|[-> | ->]]; [congruence|by destruct (Hl p s)|].
    destruct Hc. exists p, s. by right.
  - exact (stored_step y p e _ _ _ t Hp Hadv Hc Hs).
  - intros q s. destruct (decide (p = q)) as [<-|Hne]; [rewrite lookup_insert_eq|by rewrite lookup_insert_ne]. intros [= ->].
    destruct (ef_loaded _ _ _ _ _ _ (advance_effect _ _ _ _ _ _ Hadv) t s eq_refl) as (db & Hdb & Ht). by rewrite (Hs db Hdb) in Ht.
Qed.

Record session_inv (y : system) : Prop := mkSessionInv {
  si_gate : ∀ p st, sy_requests y !! p = Some st → holds st = true → au_gate (sy_auth y) = Some p;
  si_revoking : ∀ p t, sy_requests y !! p = Some (Revoking t) ∨ sy_requests y !! p = Some (RevokeDelete t) ∨
    sy_requests y !! p = Some (RevokeForget t) → ¬ in_creation t y;
  si_forget : ∀ p t, sy_requests y !! p = Some (RevokeForget t) → ∀ db, au_store (sy_auth y) = Some db → db !! t = None;
  si_revoked : ∀ p t, sy_requests y !! p = Some (Returned (Revoked t)) → t ≠ "" → gone t y
}.

Lemma si_gate_step y p e st a' st' : session_inv y → sy_requests y !! p = Some st → advance p e st (sy_auth y) = Some (a', st') →
  ∀ q st0, <[p := st']> (sy_requests y) !! q = Some st0 → holds st0 = true → au_gate a' = Some q.
Proof.
  intros Hy Hp Hadv q st0 Hq Hh. destruct (ef_gate _ _ _ _ _ _ (advance_effect _ _ _ _ _ _ Hadv)) as [-> Hfree].
  destruct (decide (p = q)) as [<-|Hne].
  - rewrite lookup_insert_eq in Hq. injection Hq as ->. rewrite Hh. destruct (holds st) eqn:Hst; [|done]. by apply (si_gate y Hy p st).
  - rewrite lookup_insert_ne in Hq by done. pose proof (si_gate y Hy q st0 Hq Hh) as Hgq.
    destruct (holds st) eqn:Hst; [pose proof (si_gate y Hy p st Hp Hst); congruence|].
    destruct (holds st') eqn:Hst'; [|done]. rewrite Hfree in Hgq by done. done.
Qed.

Lemma session_step_inv y y' : session_step y y' → session_inv y → session_inv y'.
Proof.
  intros Hstep Hy. assert (∀ t, named t y → ¬ in_creation t y → ¬ in_creation t y') as Hkeep
    by (intros t Hn Hc Hc'; by apply Hc, (creation_step y y')).
  assert (∀ t, gone t y → gone t y') as Hgone by (intros t; by apply gone_step).
  destruct Hstep as [p st Hp Harr|p e st a' st' Hp Hfresh Hadv]; split; cbn [sy_auth sy_requests] in *.
  - intros q st0 Hq Hh. apply lookup_insert_Some in Hq as [[<- <-]|[_ Hq]]; [naive_solver|by apply (si_gate y Hy q st0)].
  - intros q t Hq. destruct (decide (p = q)) as [<-|Hne].
    + rewrite lookup_insert_eq in Hq. destruct Harr as [->|[->|(t' & Hst & Hc)]]; [naive_solver..|].
      assert (t' = t) as -> by naive_solver. intros (r & s & Hr). apply Hc. exists r, s. cbn in Hr.
      destruct (decide (p = r)) as [<-|]; [rewrite lookup_insert_eq in Hr; naive_solver|by rewrite lookup_insert_ne in Hr].
    + rewrite lookup_insert_ne in Hq by done. apply Hkeep; [|by apply (si_revoking y Hy q)].
      destruct Hq as [Hq|[Hq|Hq]]; exact (named_at _ _ _ _ Hq eq_refl).
  - intros q t Hq. apply lookup_insert_Some in Hq as [[_ ->]|[_ Hq]]; [naive_solver|by apply (si_forget y Hy q)].
  - intros q t Hq Ht. apply lookup_insert_Some in Hq as [[_ ->]|[_ Hq]]; [naive_solver|by apply Hgone, (si_revoked y Hy q)].
  - by eapply si_gate_step.
  - intros q t Hq. destruct (decide (p = q)) as [<-|Hne].
    + rewrite lookup_insert_eq in Hq. pose proof (advance_effect _ _ _ _ _ _ Hadv) as Hef.
      assert (st = Revoking t ∨ st = RevokeDelete t) as Hst.
      { destruct Hq as [[= ->]|[[= ->]|[= ->]]]; [|left; by apply (ef_delete _ _ _ _ _ _ Hef)|right; by apply (ef_forget _ _ _ _ _ _ Hef)].
        exfalso. revert Hadv. clear. destruct st; cbn [advance]; unfold acquire; repeat case_match; intros; simplify_eq. }
      apply Hkeep; [exists p, st; split; [done|by destruct Hst as [-> | ->]]|]. apply (si_revoking y Hy p). destruct Hst as [-> | ->]; auto.
    + rewrite lookup_insert_ne in Hq by done. apply Hkeep; [|by apply (si_revoking y Hy q)].
      destruct Hq as [Hq|[Hq|Hq]]; exact (named_at _ _ _ _ Hq eq_refl).
  - intros q t Hq. destruct (decide (p = q)) as [<-|Hne].
    + rewrite lookup_insert_eq in Hq. injection Hq as ->. by apply (ef_forget _ _ _ _ _ _ (advance_effect _ _ _ _ _ _ Hadv)).
    + rewrite lookup_insert_ne in Hq by done. apply (stored_step y p e st a' st' t Hp Hadv); [apply (si_revoking y Hy q); auto|by apply (si_forget y Hy q)].
  - intros q t Hq Ht. destruct (decide (p = q)) as [<-|Hne].
    2:{ rewrite lookup_insert_ne in Hq by done. by apply Hgone, (si_revoked y Hy q). }
    rewrite lookup_insert_eq in Hq. injection Hq as ->. pose proof (advance_effect _ _ _ _ _ _ Hadv) as Hef.
    destruct (ef_revoked _ _ _ _ _ _ Hef t eq_refl) as [?|[-> Hm]]; [done|].
    pose proof (si_revoking y Hy p t (or_intror (or_intror Hp))) as Hc. split; cbn; try done.
    + exists p, (Returned (Revoked t)). split; [apply lookup_insert_eq|done].
    + exact (stored_step y p e _ _ _ t Hp Hadv Hc (si_forget y Hy p t Hp)).
    + intros q s Hq. apply lookup_insert_Some in Hq as [[_ ?]|[Hne Hq]]; [done|].
      pose proof (si_gate y Hy q _ Hq eq_refl). pose proof (si_gate y Hy p _ Hp eq_refl). congruence.
    + apply Hkeep; [by exists p, (RevokeForget t)|done].
Qed.

Lemma started_inv ttl db : session_inv (started ttl db).
Proof. split; cbn; intros *; rewrite ?lookup_empty; naive_solver. Qed.

Lemma reachable_session_inv ttl db y : rtc session_step (started ttl db) y → session_inv y.
Proof. apply (rtc_ind_r _ _ (started_inv ttl db)). intros ? ? _ Hs. by apply session_step_inv. Qed.

Lemma gone_rtc y y' t : rtc session_step y y' → gone t y → gone t y'.
Proof. induction 1; [done|]. intros. by eauto using gone_step. Qed.

Lemma advance_valid p e st a a' t : advance p e st a = Some (a', Returned (Valid t)) →
  ∃ s, st = ValidateLoaded t s ∨ st = ValidateFound t s.
Proof. destruct st; cbn [advance]; unfold acquire; repeat case_match; intros; simplify_eq; eauto. Qed.

(** Who is told that [t] is valid although it is gone had found the session before. *)
Lemma gone_accepts y y' t q : rtc session_step y y' → gone t y → sy_requests y' !! q = Some (Returned (Valid t)) →
  sy_requests y !! q = Some (Returned (Valid t)) ∨ ∃ s, sy_requests y !! q = Some (ValidateFound t s).
Proof.
  induction 1 as [y|y y1 y' Hstep _ IH]; [by left|]. intros Hg Hq. destruct (IH (gone_step _ _ _ Hstep Hg) Hq) as [Hq1|[s Hq1]]; clear IH Hq;
    destruct Hstep as [p st Hp Harr|p e st a' st' Hp _ Hadv]; cbn in Hq1;
    (destruct (decide (p = q)) as [<-|Hne]; [rewrite lookup_insert_eq in Hq1; injection Hq1 as ->|rewrite lookup_insert_ne in Hq1 by done; eauto]);
    try naive_solver.
  - destruct (advance_valid _ _ _ _ _ _ Hadv) as [s [-> | ->]]; [by destruct (gn_loaded t y Hg p s)|eauto].
  - pose proof (ef_found _ _ _ _ _ _ (advance_effect _ _ _ _ _ _ Hadv) t s eq_refl) as Hs. by rewrite (gn_cache t y Hg) in Hs.
Qed.

(** C10: A session whose revocation was reported as done is gone for good: whatever
    requests are in flight or arrive later, in any interleaving and with any failed
    statements, neither the cache nor the table ever holds it again, and whoever is
    told that it is valid either had been told so by then, or had already read the
    session in the cache when the revocation was reported, with only the clock left to
    look at. So every request that looks its token up from then on is refused. *)
Theorem revoked_sessions_stay_revoked ttl db y p t y' q :
  rtc session_step (started ttl db) y → sy_requests y !! p = Some (Returned (Revoked t)) → t ≠ "" →
  rtc session_step y y' →
  au_sessions (sy_auth y') !! t = None ∧ (∀ db', au_store (sy_auth y') = Some db' → db' !! t = None) ∧
  (sy_requests y' !! q = Some (Returned (Valid t)) →
   sy_requests y !! q = Some (Returned (Valid t)) ∨ ∃ s, sy_requests y !! q = Some (ValidateFound t s)).
Proof.
  intros Hy%reachable_session_inv Hp Ht Hrun. pose proof (si_revoked y Hy p t Hp Ht) as Hg.
  pose proof (gone_rtc y y' t Hrun Hg) as [_ Hm Hs _ _]. split_and!; [done|done|]. by apply gone_accepts.
Qed.

(** The holder of the gate can always go on, so a request waits for at most one other. *)
Lemma gate_holder_advances p e st a : holds st = true → is_Some (advance p e st a).
Proof. destruct st; intros Hh; try discriminate Hh; cbn [advance]; repeat case_match; eexists; reflexivity. Qed.

(** ** One request at a time *)
Fixpoint run_alone (fuel : nat) (p : nat) (e : env) (st : stage) (a : auth) : option (auth * answer) :=
  match st with
  | Returned ans => Some (a, ans)
  | _ => match fuel with
         | O => None
         | S fuel => match advance p e st a with
                     | Some (a, st) => run_alone fuel p e st a
                     | None => None
                     end
         end
  end.

(** Nothing fails, and the clock stands still. *)
Definition calm (now : Z) (token : string) : env := mkEnv now false false false token.

(** The session a request for [token] finds: the cache hides the table. *)
Definition known (token : string) (a : auth) : option Session :=
  match au_sessions a !! token with
  | Some s => Some s
  | None => au_store a ≫= lookup token
  end.

Lemma validation_accepts p now t a :
  au_gate a = None → t ≠ "" →
  ∃ a', run_alone 4 p (calm now "") (Validating t) a =
    Some (a', if match known t a with Some s => negb (expired now s) | None => false end then Valid t else Invalid t) ∧
    au_gate a' = None ∧
    (∀ s, known t a = Some s → expired now s = true → known t a' = None).
Proof.
  intros Hg Ht. unfold known. cbn. rewrite decide_False by done. unfold store_exec. cbn.
  destruct (au_sessions a !! t) as [s|] eqn:Hm.
  - cbn. destruct (expired now s) eqn:He; cbn; [|exists a; split_and!; [done|done|congruence]].
    eexists. split; [done|]. unfold store_exec. cbn. destruct (au_store a) as [db|] eqn:Hdb; cbn; (split; [done|]); intros ? _ _; rewrite lookup_delete_eq.
    + cbn. apply lookup_delete_eq.
    + by rewrite Hdb.
  - unfold acquire. cbn. rewrite Hg. cbn. destruct (au_store a) as [db|] eqn:Hdb; cbn; [|eexists; split_and!; [done|done|]; intros; congruence].
    destruct (db !! t) as [s|] eqn:Hs; cbn; [|eexists; split_and!; [done|done|]; intros; congruence].
    destruct (expired now s) eqn:He; cbn; eexists; (split; [done|]); (split; [unfold store_exec; cbn; by rewrite ?Hdb|]); intros s'; [|congruence].
    intros _ _. unfold store_exec. cbn. rewrite Hdb. cbn. rewrite Hm. cbn. apply lookup_delete_eq.
Qed.

(** Alone and without failures a token is accepted exactly when it names a session,
    of the cache or else of the table, that has not expired; an expired one is removed
    on the way. Four steps are enough. *)
Theorem validation_accepts_the_live_sessions p now t a :
  au_gate a = None → t ≠ "" →
  ∃ a', run_alone 4 p (calm now "") (Validating t) a =
    Some (a', if match known t a with Some s => negb (expired now s) | None => false end then Valid t else Invalid t) ∧
    au_gate a' = None ∧
    (∀ s, known t a = Some s → expired now s = true → known t a' = None).
Proof. apply validation_accepts. Qed.

(** A session outlives the process that created it: whoever opens the table afterwards
    accepts its token until the second in which it expires. *)
Theorem sessions_survive_a_restart p q now later token ttl db ttl' :
  token ≠ "" → later ≤ to_second (now + session_ttl ttl) →
  ∃ a, run_alone 3 p (calm now token) Creating (sy_auth (started ttl (Some db))) = Some (a, Created token) ∧
  ∃ a', run_alone 4 q (calm later "") (Validating token) (sy_auth (started ttl' (au_store a))) = Some (a', Valid token).
Proof.
  intros Ht Hlater. eexists. split; [done|].
  destruct (validation_accepts q later token (sy_auth (started ttl' (au_store (with_sessions
    {[token := mkSession now (now + session_ttl ttl)]} (with_store (<[token := stored_session (mkSession now (now + session_ttl ttl))]> db)
      (sy_auth (started ttl (Some db)))))))) eq_refl Ht) as (a' & Ha' & _).
  exists a'. refine (eq_trans Ha' _). unfold known. cbn. rewrite lookup_insert_eq, lookup_empty.
  assert (expired later (stored_session (mkSession now (now + session_ttl ttl))) = false) as ->; [|done].
  unfold expired, GoTime.after. apply bool_decide_false. cbn. lia.
Qed.

(** ** The size of the cache *)
Lemma older_fold l acc t c : foldl older acc l = Some (t, c) → (∀ ts, ts ∈ l → ts.1 ≠ "") → (∀ t0 c0, acc = Some (t0, c0) → t0 ≠ "") →
  (acc = Some (t, c) ∨ ∃ s, (t, s) ∈ l ∧ se_CreatedAt s = c) ∧
  (∀ t0 c0, acc = Some (t0, c0) → c ≤ c0) ∧ (∀ ts, ts ∈ l → c ≤ se_CreatedAt ts.2).
Proof.
  revert acc. induction l as [|[k s] l IH]; intros acc; cbn; intros Hf Hl Hacc.
  { split_and!; [by left|naive_solver|by intros ? ?%elem_of_nil]. }
  destruct (IH _ Hf) as (Hin & Hc & Hall); [intros; apply Hl; by right| |].
  - intros t0 c0. destruct acc as [[t1 c1]|]; cbn; [destruct (_ || _)|]; intros [= <- <-]; first [by eapply Hacc|apply (Hl (k, s)); left].
  - assert (∃ t1 c1, older acc (k, s) = Some (t1, c1) ∧ c1 ≤ se_CreatedAt s ∧ (∀ t0 c0, acc = Some (t0, c0) → c1 ≤ c0) ∧
             (acc = Some (t1, c1) ∨ (t1, c1) = (k, se_CreatedAt s))) as (t1 & c1 & Ho & Hs & Ha & Hor).
    { destruct acc as [[t1 c1]|]; cbn; [|do 2 eexists; split_and!; [done|lia|done|by right]].
      rewrite (bool_decide_false (t1 = "")) by (by eapply Hacc). cbn. unfold GoTime.before. case_bool_decide; do 2 eexists; split_and!; try done; try lia; try naive_solver lia. }
    specialize (Hc _ _ Ho). split_and!.
    + destruct Hin as [Hin|(s0 & Hin & Hs0)]; [|right; exists s0; split; [by right|done]]. destruct Hor as [?|[= -> ->]]; [left; congruence|].
      right. exists s. split; [|congruence]. assert (t = k) as -> by congruence. left.
    + intros t0 c0 H0. specialize (Ha _ _ H0). lia.
    + intros ts [->|Hts]%elem_of_cons; [cbn; lia|by apply Hall].
Qed.

(** A full cache loses a session no younger than any other, from the table too, unless
    the statement fails. *)
Theorem eviction_removes_an_oldest_session e a :
  au_sessions a ≠ ∅ → au_sessions a !! "" = None →
  ∃ t s, au_sessions a !! t = Some s ∧ (∀ t' s', au_sessions a !! t' = Some s' → se_CreatedAt s ≤ se_CreatedAt s') ∧
    au_sessions (evictOldest e a) = delete t (au_sessions a) ∧
    (∀ db, au_store a = Some db → au_store (evictOldest e a) = Some (if ev_storeErr e then db else delete t db)).
Proof.
  intros Hne Hempty. assert (∀ ts, ts ∈ range (au_sessions a) → ts.1 ≠ "") as Hnames.
  { intros [t s] Hts%elem_of_range. cbn. intros ->. congruence. }
  unfold evictOldest. destruct (foldl older None _) as [[t c]|] eqn:Hf.
  - destruct (older_fold _ _ _ _ Hf Hnames) as ([?|(s & Hs%elem_of_range & Hc)] & _ & Hall); [done..|].
    rewrite decide_False by (intros ->; congruence). exists t, s. split_and!; [done| |by destruct (store_exec_sessions e (delete t) (with_sessions (delete t (au_sessions a)) a)) as [-> _]|].
    + intros t' s' Hs'. rewrite Hc. by apply (Hall (t', s')), elem_of_range.
    + intros db Hdb. unfold store_exec. cbn. rewrite Hdb. by destruct (ev_storeErr e).
  - exfalso. destruct (map_choose _ Hne) as (t & s & Hts). apply elem_of_range in Hts. revert Hts Hf. generalize (range (au_sessions a)).
    assert (∀ l x, foldl older (Some x) l ≠ None) as Hsome.
    { induction l as [|ts l IH]; intros [k c]; cbn; [done|]. destruct (_ || _); apply IH. }
    intros [|ts l]; [by intros ?%elem_of_nil|]. intros _. cbn. apply Hsome.
Qed.

(** So a login keeps the cache within its cap. *)
Lemma login_keeps_the_cap p e t s a a' st :
  (size (au_sessions a) ≤ MaxSessions)%nat → au_sessions a !! "" = None → advance p e (CreateCache t s) a = Some (a', st) →
  (size (au_sessions a') ≤ MaxSessions)%nat.
Proof.
  intros Hsize Hempty. cbn [advance].
  assert (∀ (m : gmap string Session), (size (<[t:=s]> m) ≤ S (size m))%nat) as Hins.
  { intros m. destruct (m !! t) eqn:Ht; [rewrite map_size_insert_Some by eauto; lia|by rewrite map_size_insert_None]. }
  destruct (MaxSessions <=? size (au_sessions a))%nat eqn:Hb; intros [= <- _]; cbn [au_sessions with_sessions].
  2:{ apply Nat.leb_gt in Hb. specialize (Hins (au_sessions a)). lia. }
  apply Nat.leb_le in Hb. assert (au_sessions a ≠ ∅) as Hne.
  { intros H. rewrite H, map_size_empty in Hb. unfold MaxSessions in Hb. lia. }
  destruct (eviction_removes_an_oldest_session e a Hne Hempty) as (t0 & s0 & Ht0 & _ & -> & _).
  specialize (Hins (delete t0 (au_sessions a))). rewrite map_size_delete_Some in Hins by eauto. unfold MaxSessions in *. lia.
Qed.

(** Tokens presented one after the other. *)
Fixpoint validate_all (now : Z) (tokens : list string) (a : auth) : option auth :=
  match tokens with
  | [] => Some a
  | t :: tokens => match run_alone 4 0%nat (calm now "") (Validating t) a with
                   | Some (a, Valid _) => validate_all now tokens a
                   | _ => None
                   end
  end.

Lemma validate_all_size now db tokens : NoDup tokens → (∀ t, t ∈ tokens → t ≠ "" ∧ ∃ s, db !! t = Some s ∧ expired now s = false) →
  ∀ a, au_gate a = None → au_store a = Some db → (∀ t, t ∈ tokens → au_sessions a !! t = None) →
  ∃ a', validate_all now tokens a = Some a' ∧ size (au_sessions a') = (size (au_sessions a) + length tokens)%nat.
Proof.
  induction 1 as [|t tokens Hnin _ IH]; intros Hlive a Hg Hdb Hun; [exists a; split; [done|cbn; lia]|].
  destruct (Hlive t) as (Ht & s & Hs & He); [left|]. pose proof (Hun t ltac:(left)) as Hm.
  assert (run_alone 4 0%nat (calm now "") (Validating t) a = Some (with_gate None (with_sessions (<[t:=s]> (au_sessions a)) (with_gate (Some 0%nat) a)), Valid t)) as Hrun.
  { cbn. rewrite decide_False by done. rewrite Hm. unfold acquire. cbn. rewrite Hg. cbn. rewrite Hdb. cbn. rewrite Hs. cbn. by rewrite He. }
  cbn [validate_all]. rewrite Hrun.
  destruct (IH ltac:(intros; apply Hlive; by right) (with_gate None (with_sessions (<[t:=s]> (au_sessions a)) (with_gate (Some 0%nat) a)))) as (a' & Ha' & Hsize); [done|done| |].
  - intros t' Ht'. cbn. rewrite lookup_insert_ne by (intros ->; done). apply Hun. by right.
  - exists a'. split; [done|]. rewrite Hsize. cbn. rewrite map_size_insert_None by done. lia.
Qed.

(** The cap does not hold. The sessions of the table are read back into the cache
    without evicting: a process that starts on a table of any number of live sessions
    holds them all once their tokens have been presented. *)
Theorem restored_sessions_exceed_the_cap now ttl db tokens :
  NoDup tokens → (∀ t, t ∈ tokens → t ≠ "" ∧ ∃ s, db !! t = Some s ∧ expired now s = false) →
  ∃ a, validate_all now tokens (sy_auth (started ttl (Some db))) = Some a ∧ size (au_sessions a) = length tokens.
Proof.
  intros Hnd Hlive. destruct (validate_all_size now db tokens Hnd Hlive (sy_auth (started ttl (Some db)))) as (a & Ha & Hs); [done..|].
  exists a. split; [done|]. by rewrite Hs.
Qed.
End sessions.

(** ** Example: a login, a logout, and a request that comes after it *)
Module SessionExample.
Definition order : RangeOrder string := default_range_order string.
Definition boot : system := started 0 (Some ∅).
Definition at_ (now : Z) : env := mkEnv now false false false "t".

(** The steps of request [p], if it can be made to end. *)
Fixpoint finish (fuel p : nat) (e : env) (y : system) : system :=
  match fuel with
  | O => y
  | S fuel => match sy_requests y !! p with
              | Some st => match @advance order p e st (sy_auth y) with
                           | Some (a, st) => finish fuel p e (mkSystem a (<[p := st]> (sy_requests y)))
                           | None => y
                           end
              | None => y
              end
  end.

Lemma finish_reachable fuel p e y : (sy_requests y !! p = Some Creating → fresh (ev_token e) y) → rtc (@session_step order) y (finish fuel p e y).
Proof.
  revert y. induction fuel as [|fuel IH]; intros y Hf; [done|]. cbn. destruct (sy_requests y !! p) as [st|] eqn:Hp; [|done].
  destruct (advance p e st (sy_auth y)) as [[a st']|] eqn:Ha; [|done].
  eapply rtc_l; [eapply (@request_advances order y p e st); [done|intros ->; by apply Hf|done]|]. apply IH. cbn.
  rewrite lookup_insert_eq. intros [= ->]. exfalso. revert Ha. clear. destruct st; cbn [advance]; unfold acquire; repeat case_match; intros; simplify_eq.
Qed.

Definition arrived (p : nat) (st : stage) (y : system) : system := mkSystem (sy_auth y) (<[p := st]> (sy_requests y)).
Definition logged_in : system := finish 4 0 (at_ 10) (arrived 0 Creating boot).
Definition logged_out : system := finish 4 1 (at_ 20) (arrived 1 (Revoking "t") logged_in).
Definition asked_again : system := finish 4 2 (at_ 30) (arrived 2 (Validating "t") logged_out).

Definition not_creating (st : stage) : bool := match st with CreateStore _ _ | CreateCache _ _ => false | _ => true end.
Lemma nobody_creates y : bool_decide (map_Forall (λ _ st, not_creating st = true) (sy_requests y)) = true → ∀ t, ¬ in_creation t y.
Proof. intros H%bool_decide_eq_true_1 t (p & s & [Hp|Hp]); discriminate (H p _ Hp). Qed.

Lemma logged_out_reachable : rtc (@session_step order) boot logged_out.
Proof.
  unfold logged_out, logged_in. eapply rtc_l; [apply (@request_arrives order boot 0 Creating); [reflexivity|by left]|].
  etrans; [apply (finish_reachable 4 0 (at_ 10))|].
  - intros _. split; [done|]. split; [reflexivity|]. split; [by intros db [= <-]|].
    intros p st. cbn. intros [[_ <-]|[_ Hp]]%lookup_insert_Some; [done|]. by rewrite lookup_empty in Hp.
  - eapply rtc_l; [apply (@request_arrives order _ 1 (Revoking "t")); [reflexivity|right; right; exists "t"; split; [by right|]]|apply (finish_reachable 4 1 (at_ 20)); by intros ?].
    apply nobody_creates. vm_compute. reflexivity.
Qed.

Lemma asked_again_reachable : rtc (@session_step order) logged_out asked_again.
Proof.
  eapply rtc_l; [apply (@request_arrives order logged_out 2 (Validating "t")); [reflexivity|right; right; exists "t"; split; [by left|]]|apply (finish_reachable 4 2 (at_ 30)); by intros ?].
  apply nobody_creates. vm_compute. reflexivity.
Qed.

(** A request that reads the session in the cache before the logout is answered after it
    was reported: nothing looks at the cache twice. *)
Definition overtaken : system := finish 4 1 (at_ 20) (arrived 1 (Revoking "t") (finish 1 2 (at_ 15) (arrived 2 (Validating "t") logged_in))).
Example a_request_under_way_outruns_the_logout :
  sy_requests overtaken !! 1%nat = Some (Returned (Revoked "t")) ∧ au_sessions (sy_auth overtaken) !! "t" = None ∧
  sy_requests (finish 4 2 (at_ 30) overtaken) !! 2%nat = Some (Returned (Valid "t")).
Proof. split_and!; vm_compute; reflexivity. Qed.

Lemma revoked_witness :
  sy_requests asked_again !! 2%nat = Some (Returned (Invalid "t")) ∧ au_sessions (sy_auth asked_again) !! "t" = None ∧
  sy_requests asked_again !! 2%nat ≠ Some (Returned (Valid "t")).
Proof.
  destruct (@revoked_sessions_stay_revoked order 0 (Some ∅) logged_out 1 "t" asked_again 2 logged_out_reachable) as (Hm & _ & Hv).
  - vm_compute. reflexivity.
  - discriminate.
  - exact asked_again_reachable.
  - split; [vm_compute; reflexivity|]. split; [exact Hm|]. intros H. destruct (Hv H) as [H0|[s H0]]; vm_compute in H0; discriminate H0.
Defined.

Lemma accepts_witness :
  ∃ a', @run_alone order 4 7 (calm 20 "") (Validating "t") (sy_auth logged_in) = Some (a', Valid "t").
Proof.
  destruct (@validation_accepts_the_live_sessions order 7 20 "t" (sy_auth logged_in)) as (a' & Ha & _).
  - vm_compute. reflexivity.
  - discriminate.
  - exists a'. rewrite Ha. vm_compute. reflexivity.
Defined.

(** 300 sessions on a table. *)
Definition tokens : list string := (λ n : nat, String.append "s" (pretty.pretty n)) <$> seq 0 300.
Definition table : gmap string Session := list_to_map ((λ t, (t, mkSession 0 (GoTime.ofUnix 0))) <$> tokens).

Lemma exceed_witness :
  ∃ a, @validate_all order 5 tokens (sy_auth (started 0 (Some table))) = Some a ∧ size (au_sessions a) = 300%nat.
Proof.
  apply (@restored_sessions_exceed_the_cap order 5 0 table tokens).
  - apply (bool_decide_unpack _). vm_compute. exact I.
  - intros t Ht.
    assert (Forall (λ t, t ≠ "" ∧ (match table !! t with Some s => expired 5 s | None => true end) = false) tokens) as Hall
      by (apply (bool_decide_unpack _); vm_compute; exact I).
    rewrite Forall_forall in Hall. destruct (Hall t Ht) as [Hne Hlive]. split; [exact Hne|].
    destruct (table !! t) as [s|]; [exists s; split; [reflexivity|exact Hlive]|discriminate Hlive].
Defined.
End SessionExample.
