(* ===== verification/KeyUsage.v ===== *)
(** When API keys were last used ([internal/controlplane/auth_usage.go] and the
    [api_keys] statements of [internal/store/sqlite.go]): observations are kept in
    memory, one entry per key, and written by one worker.

    Each critical section of [Auth.mu] is one step, with the statement before it: what
    happens between the two might as well have happened before both. The worker's pass
    is in flight between its steps. Logging and the worker's start are left out;
    [sent] says whether a section woke the worker. A store is its table of keys; a pass
    that outlives its binding writes to the store it began with, which is no longer
    looked at. *)
From S2P Require Import Prelude Sessions.

Definition apiKeyUseInterval : Z := GoTime.minute.
Definition apiKeyUseRetry : Z := 5 * GoTime.second.
Definition maxAPIKeyUseEntries : nat := 1024.

Record apiKeyUse := mkUse { us_pending : Z; us_next : Z; us_seen : Z }.
Definition no_use : apiKeyUse := mkUse GoTime.zero GoTime.zero GoTime.zero.
Definition maxTimestamp (a b : Z) : Z := if GoTime.after b a then b else a.

(** ** The table: the second of the last use; identifiers are never reused. *)
Record key_table := mkKeys { kt_used : gmap Z Z; kt_next : Z }.
Definition CreateAPIKey (t : key_table) : key_table := mkKeys (<[kt_next t := GoTime.zero]> (kt_used t)) (kt_next t + 1).
Definition delete_key (id : Z) (t : key_table) : key_table := mkKeys (delete id (kt_used t)) (kt_next t).
Definition TouchAPIKey (id usedAt : Z) (t : key_table) : key_table :=
  mkKeys (alter (λ v, Z.max v (to_second usedAt)) id (kt_used t)) (kt_next t).

(** Every row was numbered by the sequence of its table. *)
Definition keys_ok (t : option key_table) : Prop := ∀ t0 id v, t = Some t0 → kt_used t0 !! id = Some v → id < kt_next t0.

(** ** The entries *)
Record apiKeyUsage := mkUsage {
  ku_entries : gmap Z apiKeyUse;
  ku_generation : Z;
  ku_closed : bool;
  ku_dropped : Z
}.
Definition with_entries (m : gmap Z apiKeyUse) (u : apiKeyUsage) : apiKeyUsage :=
  mkUsage m (ku_generation u) (ku_closed u) (ku_dropped u).

(** An entry that owes nothing and may be written again. *)
Definition settled (now : Z) (e : apiKeyUse) : bool := GoTime.isZero (us_pending e) && negb (GoTime.before now (us_next e)).

(** [recordAPIKeyUse]: whether the observation was taken and whether the worker was woken. *)
Definition recordAPIKeyUse (bound : bool) (now id : Z) (u : apiKeyUsage) : apiKeyUsage * bool * bool :=
  if bool_decide (id ≤ 0) || negb bound || ku_closed u then (u, false, false)
  else
    let full := bool_decide (ku_entries u !! id = None) && (maxAPIKeyUseEntries <=? size (ku_entries u))%nat in
    let entries := if full then filter (λ ie, settled now ie.2 = false) (ku_entries u) else ku_entries u in
    if full && (maxAPIKeyUseEntries <=? size entries)%nat
    then (mkUsage entries (ku_generation u) (ku_closed u) (ku_dropped u + 1), false, false)
    else
      let e := default no_use (ku_entries u !! id) in
      let e' := mkUse (maxTimestamp (us_pending e) (maxTimestamp (us_seen e) now)) (us_next e) (maxTimestamp (us_seen e) now) in
      (with_entries (<[id := e']> entries) u, true, negb (GoTime.before now (us_next e))).

(** [flushAPIKeyUsage], its first section: what is due, and the entries kept. *)
Definition due (final : bool) (now : Z) (e : apiKeyUse) : bool :=
  negb (GoTime.isZero (us_pending e)) && (final || negb (GoTime.before now (us_next e))).
Definition idle (now : Z) (e : apiKeyUse) : bool :=
  GoTime.isZero (us_pending e) && (10 * GoTime.minute <? GoTime.sub now (us_seen e)).
Definition flush_batch (final : bool) (now : Z) (u : apiKeyUsage) : gmap Z Z :=
  us_pending <$> filter (λ ie, due final now ie.2 = true) (ku_entries u).
Definition flush_sweep (now : Z) (u : apiKeyUsage) : apiKeyUsage :=
  with_entries (filter (λ ie, idle now ie.2 = false) (ku_entries u)) u.

(** Its second section, after a touch. *)
Definition touched (now observed : Z) (ok : bool) (e : apiKeyUse) : apiKeyUse :=
  if ok then mkUse (if GoTime.after (us_pending e) observed then us_pending e else GoTime.zero) (GoTime.add now apiKeyUseInterval) (us_seen e)
  else mkUse (us_pending e) (GoTime.add now apiKeyUseRetry) (us_seen e).
Definition flush_result (generation now id observed : Z) (ok : bool) (u : apiKeyUsage) : apiKeyUsage :=
  if decide (generation = ku_generation u) then with_entries (alter (touched now observed ok) id (ku_entries u)) u else u.

(** [SetStore] to another store, and [Close]. *)
Definition rebind (u : apiKeyUsage) : apiKeyUsage := mkUsage ∅ (ku_generation u + 1) (ku_closed u) (ku_dropped u).
Definition close_usage (u : apiKeyUsage) : apiKeyUsage := mkUsage (ku_entries u) (ku_generation u) true (ku_dropped u).
Definition forget_key (id : Z) (u : apiKeyUsage) : apiKeyUsage := with_entries (delete id (ku_entries u)) u.

(** ** Interleavings *)

(** A pass in flight: the binding it began under and what is left of its batch. *)
Record pass := mkPass { ps_generation : Z; ps_left : list (Z * Z) }.

(** [kg_taken] lists the observations taken under the current binding (not stored). *)
Record key_system := mkKeySystem {
  kg_usage : apiKeyUsage;
  kg_table : option key_table;
  kg_pass : option pass;
  kg_taken : list (Z * Z)
}.

Section usage.
Context `{!RangeOrder Z}.

Inductive usage_step (y : key_system) : key_system → Prop :=
(* a request authenticated by a key of the bound store *)
| use_key now id u taken sent :
  0 < now → (∀ t, kg_table y = Some t → id < kt_next t) →
  recordAPIKeyUse (bool_decide (kg_table y ≠ None)) now id (kg_usage y) = (u, taken, sent) →
  usage_step y (mkKeySystem u (kg_table y) (kg_pass y) (if taken then (id, now) :: kg_taken y else kg_taken y))
| create_key t :
  kg_table y = Some t → usage_step y (mkKeySystem (kg_usage y) (Some (CreateAPIKey t)) (kg_pass y) (kg_taken y))
(* DeleteAPIKey: the statement, then the entry *)
| delete_row id t :
  kg_table y = Some t → usage_step y (mkKeySystem (kg_usage y) (Some (delete_key id t)) (kg_pass y) (kg_taken y))
| delete_entry id t :
  kg_table y = Some t → kt_used t !! id = None → id < kt_next t →
  usage_step y (mkKeySystem (forget_key id (kg_usage y)) (Some t) (kg_pass y) (kg_taken y))
| bind_store t :
  keys_ok t → usage_step y (mkKeySystem (rebind (kg_usage y)) t (kg_pass y) [])
| close_service :
  usage_step y (mkKeySystem (close_usage (kg_usage y)) (kg_table y) (kg_pass y) (kg_taken y))
(* the worker *)
| begin_pass final now :
  kg_pass y = None → kg_table y ≠ None →
  usage_step y (mkKeySystem (flush_sweep now (kg_usage y)) (kg_table y)
    (Some (mkPass (ku_generation (kg_usage y)) (range (flush_batch final now (kg_usage y))))) (kg_taken y))
| sweep_only now :
  kg_pass y = None → kg_table y = None →
  usage_step y (mkKeySystem (flush_sweep now (kg_usage y)) None None (kg_taken y))
| touch_next g id observed left now (ok : bool) :
  kg_pass y = Some (mkPass g ((id, observed) :: left)) →
  usage_step y (mkKeySystem (flush_result g now id observed ok (kg_usage y))
    (if ok && bool_decide (g = ku_generation (kg_usage y)) then TouchAPIKey id observed <$> kg_table y else kg_table y)
    (Some (mkPass g left)) (kg_taken y))
(* the batch is done, or the context is over *)
| end_pass ps :
  kg_pass y = Some ps → usage_step y (mkKeySystem (kg_usage y) (kg_table y) None (kg_taken y)).

Definition fresh_usage : apiKeyUsage := mkUsage ∅ 0 false 0.
Definition keys_started (t : option key_table) : key_system := mkKeySystem fresh_usage t None [].

(** ** No observation is lost *)
Lemma to_second_mono t u : t ≤ u → to_second t ≤ to_second u.
Proof.
  intros. unfold to_second, GoTime.second, GoTime.millisecond.
  rewrite !Z.mod_eq by done. pose proof (Z.div_le_mono t u (1000 * 1000000)). lia.
Qed.

Lemma maxTimestamp_max a b : maxTimestamp a b = Z.max a b.
Proof. unfold maxTimestamp, GoTime.after. case_bool_decide; lia. Qed.

(** Waiting to be written, or written. *)
Definition kept (u : apiKeyUsage) (t : key_table) (id at_ : Z) : Prop :=
  ∀ v, kt_used t !! id = Some v → (∃ e, ku_entries u !! id = Some e ∧ at_ ≤ us_pending e) ∨ to_second at_ ≤ v.

Record usage_inv (y : key_system) : Prop := mkUsageInv {
  ui_size : (size (ku_entries (kg_usage y)) ≤ maxAPIKeyUseEntries)%nat;
  ui_ids : keys_ok (kg_table y);
  ui_taken : ∀ id at_, (id, at_) ∈ kg_taken y → 0 < at_ ∧ ∃ t, kg_table y = Some t ∧ id < kt_next t;
  ui_kept : ∀ id at_ t, (id, at_) ∈ kg_taken y → kg_table y = Some t → kept (kg_usage y) t id at_
}.

(** Entries leave only when they owe nothing. *)
Lemma kept_filter P `{!∀ ie : Z * apiKeyUse, Decision (P ie)} u t id at_ :
  (∀ i e, us_pending e ≠ GoTime.zero → P (i, e)) → 0 < at_ → kept u t id at_ → kept (with_entries (filter P (ku_entries u)) u) t id at_.
Proof.
  intros HP Hat Hk v Hv. destruct (Hk v Hv) as [(e & He & Hle)|?]; [|by right]. left. exists e. split; [|done].
  apply map_lookup_filter_Some. split; [done|]. apply HP. unfold GoTime.zero. lia.
Qed.

Lemma not_settled now (i : Z) e : us_pending e ≠ GoTime.zero → settled now (i, e).2 = false.
Proof. intros. unfold settled, GoTime.isZero. cbn. by rewrite bool_decide_false. Qed.
Lemma not_idle now (i : Z) e : us_pending e ≠ GoTime.zero → idle now (i, e).2 = false.
Proof. intros. unfold idle, GoTime.isZero. cbn. by rewrite bool_decide_false. Qed.

(** The entries an observation leaves. *)
Lemma record_cases bound now id u u' taken sent :
  recordAPIKeyUse bound now id u = (u', taken, sent) →
  ∃ m, (m = ku_entries u ∨ m = filter (λ ie : Z * apiKeyUse, settled now ie.2 = false) (ku_entries u)) ∧
    if taken then bound = true ∧ u' = with_entries (<[id := mkUse (Z.max (us_pending (default no_use (ku_entries u !! id))) (Z.max (us_seen (default no_use (ku_entries u !! id))) now))
                     (us_next (default no_use (ku_entries u !! id))) (Z.max (us_seen (default no_use (ku_entries u !! id))) now)]> m) u ∧
                   (ku_entries u !! id = None → size m < maxAPIKeyUseEntries)%nat ∧ (is_Some (ku_entries u !! id) → m = ku_entries u)
    else ku_entries u' = m.
Proof.
  unfold recordAPIKeyUse. destruct (_ || _) eqn:Hr; [intros [= <- <- _]; eauto|].
  apply orb_false_iff in Hr as [[_ Hb%negb_false_iff]%orb_false_iff _].
  rewrite !maxTimestamp_max. case_bool_decide as Hnew; cbn [andb].
  - destruct (maxAPIKeyUseEntries <=? size (ku_entries u))%nat eqn:Hfull; cbn [andb].
    + match goal with |- context [(maxAPIKeyUseEntries <=? ?b)%nat] => destruct (maxAPIKeyUseEntries <=? b)%nat eqn:Hstill end; intros [= <- <- _]; eexists; (split; [by right|]); [done|].
      apply Nat.leb_gt in Hstill. split_and!; [done|done|done|]. intros [? ?]. congruence.
    + intros [= <- <- _]. eexists; split; [by left|]. apply Nat.leb_gt in Hfull. split_and!; done.
  - intros [= <- <- _]. eexists; split; [by left|]. split_and!; done.
Qed.

Lemma size_filter_le P `{!∀ ie : Z * apiKeyUse, Decision (P ie)} (m : gmap Z apiKeyUse) : (size (filter P m) ≤ size m)%nat.
Proof. rewrite <-!size_dom. apply subseteq_size, dom_filter_subseteq. Qed.

Lemma size_insert_le (m : gmap Z apiKeyUse) id e : (size (<[id := e]> m) ≤ S (size m))%nat.
Proof. destruct (m !! id) eqn:Hm; [rewrite map_size_insert_Some by eauto; lia|by rewrite map_size_insert_None]. Qed.

Lemma use_inv y now id u taken sent :
  0 < now → (∀ t, kg_table y = Some t → id < kt_next t) →
  recordAPIKeyUse (bool_decide (kg_table y ≠ None)) now id (kg_usage y) = (u, taken, sent) → usage_inv y →
  usage_inv (mkKeySystem u (kg_table y) (kg_pass y) (if taken then (id, now) :: kg_taken y else kg_taken y)).
Proof.
  intros Hnow Hid Hrec [Hsize Hids Htaken Hkept].
  destruct (record_cases _ _ _ _ _ _ _ Hrec) as (m & Hm & Hcase).
  assert (size m ≤ maxAPIKeyUseEntries)%nat as Hsm by (destruct Hm as [-> | ->]; [done|etrans; [apply size_filter_le|done]]).
  assert (∀ i at_ t, (i, at_) ∈ kg_taken y → kg_table y = Some t → kept (with_entries m (kg_usage y)) t i at_) as Hold.
  { intros i at_ t Hin Ht. destruct Hm as [-> | ->]; [by apply (Hkept i at_)|].
    apply kept_filter; [intros; by apply not_settled|by apply (Htaken i)|by apply Hkept]. }
  destruct taken.
  - destruct Hcase as (Hb & -> & Hnew & Hsame). apply bool_decide_eq_true_1 in Hb. destruct (kg_table y) as [t|] eqn:Ht; [|done].
    split; cbn [kg_usage kg_table kg_taken ku_entries with_entries]; [|done| |].
    + destruct (ku_entries (kg_usage y) !! id) as [e|] eqn:He.
      * rewrite (Hsame ltac:(eauto)). rewrite map_size_insert_Some by eauto. done.
      * specialize (Hnew eq_refl). etrans; [apply size_insert_le|done].
    + intros i at_ [[= -> ->]|Hin]%elem_of_cons; [|by apply Htaken]. split; [done|]. exists t. split; [done|by apply Hid].
    + intros i at_ t0 Hin [= <-] v Hv. cbn. destruct (decide (i = id)) as [->|Hne].
      * rewrite lookup_insert_eq. apply elem_of_cons in Hin as [[= ->]|Hin]; [left; eexists; split; [done|]; cbn; lia|].
        destruct (Hkept id at_ t Hin eq_refl v Hv) as [(e & He & Hle)|?]; [|by right]. left. eexists. split; [done|]. rewrite He. cbn. lia.
      * rewrite lookup_insert_ne by done. apply elem_of_cons in Hin as [[= ? _]|Hin]; [done|]. by apply (Hold i at_ t Hin eq_refl).
  - split; cbn [kg_usage kg_table kg_taken]; [by rewrite Hcase|done..|].
    intros i at_ t Hin Ht v Hv. rewrite Hcase. by apply (Hold i at_ t Hin Ht).
Qed.

Lemma sweep_inv y now ps : usage_inv y → usage_inv (mkKeySystem (flush_sweep now (kg_usage y)) (kg_table y) ps (kg_taken y)).
Proof.
  intros [Hsize Hids Htaken Hkept]. split; cbn [kg_usage kg_table kg_taken]; [|done..|].
  - cbn. etrans; [apply size_filter_le|done].
  - intros i at_ t Hin Ht. apply kept_filter; [intros; by apply not_idle|by apply (Htaken i)|by apply Hkept].
Qed.

Lemma touch_inv y now id observed (ok : bool) g ps : usage_inv y →
  usage_inv (mkKeySystem (flush_result g now id observed ok (kg_usage y))
    (if ok && bool_decide (g = ku_generation (kg_usage y)) then TouchAPIKey id observed <$> kg_table y else kg_table y) ps (kg_taken y)).
Proof.
  intros Hy. pose proof Hy as [Hsize Hids Htaken Hkept]. unfold flush_result. destruct (decide _) as [->|Hg].
  2:{ rewrite bool_decide_false by done. by rewrite andb_false_r. }
  rewrite bool_decide_true by done. rewrite andb_true_r.
  assert (∀ t, (if ok then TouchAPIKey id observed <$> kg_table y else kg_table y) = Some t →
    ∃ t0, kg_table y = Some t0 ∧ kt_next t = kt_next t0 ∧ ∀ i v, kt_used t !! i = Some v →
      ∃ v0, kt_used t0 !! i = Some v0 ∧ v0 ≤ v ∧ (ok = true → i = id → to_second observed ≤ v)) as Htable.
  { intros t. destruct ok; [|intros Ht; exists t; split_and!; [done|done|]; intros i v ?; exists v; split_and!; [done|lia|done]].
    intros (t0 & Ht0 & ->)%fmap_Some. exists t0. split_and!; [done|done|]. intros i v. cbn. intros Hv.
    apply lookup_alter_Some in Hv as [(<- & v0 & Hv0 & ->)|[? Hv]]; [|exists v; split_and!; [done|lia|done]].
    exists v0. split_and!; [done|lia|lia]. }
  split; cbn [kg_usage kg_table kg_taken].
  - cbn. rewrite <-size_dom, dom_alter_L, size_dom. done.
  - intros t i v Ht Hv. destruct (Htable t Ht) as (t0 & Ht0 & -> & Hold). destruct (Hold i v Hv) as (v0 & Hv0 & _). by apply (Hids t0 i v0).
  - intros i at_ Hin. destruct (Htaken i at_ Hin) as [? (t & Ht & Hlt)]. split; [done|]. rewrite Ht. destruct ok; eexists; (split; [done|]); done.
  - intros i at_ t Hin Ht v Hv. destruct (Htable t Ht) as (t0 & Ht0 & _ & Hold). destruct (Hold i v Hv) as (v0 & Hv0 & Hle & Hobs).
    destruct (Hkept i at_ t0 Hin Ht0 v0 Hv0) as [(e & He & Hpe)|?]; [|right; lia]. cbn.
    destruct (decide (i = id)) as [->|Hne]; [|left; exists e; split; [by rewrite lookup_alter_ne|done]].
    rewrite lookup_alter_eq, He. cbn. unfold touched, GoTime.after. destruct ok; [|left; by eexists].
    case_bool_decide; [left; by eexists|]. right. specialize (Hobs eq_refl eq_refl). pose proof (to_second_mono at_ observed). lia.
Qed.

Lemma usage_step_inv y y' : usage_step y y' → usage_inv y → usage_inv y'.
Proof.
  intros Hstep Hy. pose proof Hy as [Hsize Hids Htaken Hkept].
  destruct Hstep as [now id u taken sent Hnow Hid Hrec|t Ht|id t Ht|id t Ht Hgone Hlt|t Ht| |final now Hp Ht|now Hp Ht|g id observed left_ now ok Hp|ps Hp].
  - by eapply use_inv.
  - split; cbn [kg_usage kg_table kg_taken]; [done|..].
    + intros t0 i v [= <-]. cbn. intros [[<- _]|[_ Hv]]%lookup_insert_Some; [lia|]. specialize (Hids t i v Ht Hv). lia.
    + intros i at_ Hin. destruct (Htaken i at_ Hin) as [? (t0 & Ht0 & Hlt)]. simplify_eq. split; [done|]. eexists. split; [done|cbn; lia].
    + intros i at_ t0 Hin [= <-] v. cbn. intros [[<- _]|[_ Hv]]%lookup_insert_Some; [|by apply (Hkept i at_ t)].
      destruct (Htaken _ _ Hin) as [_ (t0 & Ht0 & Hlt)]. simplify_eq. lia.
  - split; cbn [kg_usage kg_table kg_taken]; [done|..].
    + intros t0 i v [= <-]. cbn. intros [_ Hv]%lookup_delete_Some. by apply (Hids t i v).
    + intros i at_ Hin. destruct (Htaken i at_ Hin) as [? (t0 & Ht0 & Hlt)]. simplify_eq. split; [done|]. by eexists.
    + intros i at_ t0 Hin [= <-] v. cbn. intros [_ Hv]%lookup_delete_Some. by apply (Hkept i at_ t).
  - split; cbn [kg_usage kg_table kg_taken].
    + cbn. etrans; [|exact Hsize]. rewrite <-!size_dom, dom_delete_L. apply subseteq_size. set_solver.
    + intros t0 i v [= <-]. by apply Hids.
    + intros i at_ Hin. destruct (Htaken i at_ Hin) as [? (t0 & Ht0 & Hlt')]. simplify_eq. split; [done|]. by eexists.
    + intros i at_ t0 Hin [= <-] v Hv. destruct (Hkept i at_ t Hin Ht v Hv) as [(e & He & Hle)|?]; [|by right]. left. exists e.
      split; [|done]. cbn. rewrite lookup_delete_ne; [done|]. intros ->. congruence.
  - split; cbn [kg_usage kg_table kg_taken]; [cbn; rewrite map_size_empty; lia|done|by intros ? ? ?%elem_of_nil|by intros ? ? ? ?%elem_of_nil].
  - by split.
  - by apply sweep_inv.
  - pose proof (sweep_inv y now None Hy) as H. by rewrite Ht in H.
  - by apply touch_inv.
  - by split.
Qed.

Lemma keys_started_inv t : keys_ok t → usage_inv (keys_started t).
Proof. intros Ht. split; cbn [keys_started kg_usage kg_table kg_taken]; [cbn; rewrite map_size_empty; lia|done|by intros ? ? ?%elem_of_nil|by intros ? ? ? ?%elem_of_nil]. Qed.

Lemma reachable_usage_inv t y : keys_ok t → rtc usage_step (keys_started t) y → usage_inv y.
Proof. intros Ht. apply (rtc_ind_r _ _ (keys_started_inv t Ht)). intros ? ? _ Hs. by apply usage_step_inv. Qed.

(** C11: Whatever the order of requests, failed statements, passes, rebindings and
    deletions, an observation that was taken is never lost: as long as its key exists,
    either it is waiting in the entry of the key, under an instant no earlier, or the
    table already shows a last use no earlier (to the second the table keeps). And
    there are never more than 1024 entries. *)
Theorem taken_uses_are_never_lost t0 y id at_ t v :
  keys_ok t0 → rtc usage_step (keys_started t0) y →
  (size (ku_entries (kg_usage y)) ≤ maxAPIKeyUseEntries)%nat ∧
  ((id, at_) ∈ kg_taken y → kg_table y = Some t → kt_used t !! id = Some v →
   (∃ e, ku_entries (kg_usage y) !! id = Some e ∧ at_ ≤ us_pending e) ∨ to_second at_ ≤ v).
Proof.
  intros Ht0 Hy. destruct (reachable_usage_inv t0 y Ht0 Hy) as [Hsize _ _ Hkept]. split; [done|].
  intros Hin Ht Hv. by apply (Hkept id at_ t).
Qed.

(** ** The last pass *)

(** The pass that [Close] asks for, when the store answers every statement. *)
Definition write_use (g now : Z) (ut : apiKeyUsage * key_table) (io : Z * Z) : apiKeyUsage * key_table :=
  (flush_result g now io.1 io.2 true ut.1, TouchAPIKey io.1 io.2 ut.2).
Definition final_pass (now : Z) (u : apiKeyUsage) (t : key_table) : apiKeyUsage * key_table :=
  foldl (write_use (ku_generation u) now) (flush_sweep now u, t) (range (flush_batch true now u)).

Lemma write_uses_table g now l : ∀ ut id v, kt_used ut.2 !! id = Some v →
  ∃ v', kt_used (foldl (write_use g now) ut l).2 !! id = Some v' ∧ v ≤ v' ∧ ∀ o, (id, o) ∈ l → to_second o ≤ v'.
Proof.
  induction l as [|[i o] l IH]; intros ut id v Hv; [exists v; split_and!; [done|lia|by intros ? ?%elem_of_nil]|].
  assert (∃ v1, kt_used (write_use g now ut (i, o)).2 !! id = Some v1 ∧ v ≤ v1 ∧ (i = id → to_second o ≤ v1)) as (v1 & Hv1 & Hle & Ho).
  { cbn. destruct (decide (i = id)) as [->|Hne]; [rewrite lookup_alter_eq, Hv|rewrite lookup_alter_ne by done; rewrite Hv];
      eexists; split_and!; [done|lia|lia|done|lia|done]. }
  destruct (IH _ id v1 Hv1) as (v' & Hv' & Hle' & Hall). exists v'. split_and!; [done|lia|].
  intros o' [[= -> ->]|Hin]%elem_of_cons; [specialize (Ho eq_refl); lia|by apply Hall].
Qed.

Lemma write_uses_entries g now l : ∀ ut id e, ku_generation ut.1 = g →
  ku_entries (foldl (write_use g now) ut l).1 !! id = Some e →
  ∃ e0, ku_entries ut.1 !! id = Some e0 ∧
    (us_pending e = GoTime.zero ∨ (us_pending e = us_pending e0 ∧ ∀ o, (id, o) ∈ l → o < us_pending e0)).
Proof.
  induction l as [|[i o] l IH]; intros ut id e Hg He; [exists e; split; [done|]; right; split; [done|by intros ? ?%elem_of_nil]|].
  destruct (IH (write_use g now ut (i, o)) id e) as (e1 & He1 & Hor); [|done|].
  { cbn. unfold flush_result. by destruct (decide _). }
  revert He1. cbn. unfold flush_result. rewrite decide_True by done. cbn. intros He1.
  apply lookup_alter_Some in He1 as [(<- & e0 & He0 & ->)|[Hne He0]].
  - exists e0. split; [done|]. destruct Hor as [?|[Hp Hall]]; [by left|]. unfold touched, GoTime.after in Hp, Hall.
    case_bool_decide; [|left; by rewrite Hp]. right. cbn in Hp, Hall. split; [done|].
    intros o' [[= ->]|Hin]%elem_of_cons; [done|by apply Hall].
  - exists e1. split; [done|]. destruct Hor as [?|[Hp Hall]]; [by left|]. right. split; [done|].
    intros o' [[= ? ?]|Hin]%elem_of_cons; [done|by apply Hall].
Qed.

(** Closing writes everything down: after a last pass that the store answers, every
    observation that was waiting for a key that still exists is in the table, and
    nothing waits any more. *)
Theorem last_pass_writes_everything now u t :
  let r := final_pass now u t in
  (∀ id e, ku_entries r.1 !! id = Some e → us_pending e = GoTime.zero) ∧
  (∀ id e v, ku_entries u !! id = Some e → us_pending e ≠ GoTime.zero → kt_used t !! id = Some v →
     ∃ v', kt_used r.2 !! id = Some v' ∧ to_second (us_pending e) ≤ v').
Proof.
  assert (∀ id e, ku_entries u !! id = Some e → us_pending e ≠ GoTime.zero → (id, us_pending e) ∈ range (flush_batch true now u)) as Hbatch.
  { intros id e He Hp. apply elem_of_range. unfold flush_batch. rewrite lookup_fmap, fmap_Some. exists e. split; [|done].
    apply map_lookup_filter_Some. split; [done|]. unfold due, GoTime.isZero. cbn. by rewrite bool_decide_false. }
  cbn zeta. unfold final_pass. split.
  - intros id e He. apply write_uses_entries in He as (e0 & He0 & [?|[Hp Hall]]); [done| |done].
    cbn in He0. apply map_lookup_filter_Some in He0 as [He0 _]. rewrite Hp. destruct (decide (us_pending e0 = GoTime.zero)) as [?|Hnz]; [done|].
    specialize (Hall _ (Hbatch id e0 He0 Hnz)). lia.
  - intros id e v He Hp Hv. destruct (write_uses_table (ku_generation u) now (range (flush_batch true now u)) (flush_sweep now u, t) id v Hv)
      as (v' & Hv' & _ & Hall). exists v'. split; [done|]. apply Hall. by apply Hbatch.
Qed.
End usage.

(** ** Example: a key used while the store fails, then written *)
Module UsageExample.
Definition order : RangeOrder Z := default_range_order Z.
Definition table : key_table := CreateAPIKey (mkKeys ∅ 1).
Definition now : Z := GoTime.ofUnix 100.

Lemma table_ok : keys_ok (Some table).
Proof. intros t id v [= <-]. cbn. intros [[<- _]|[_ Hv]]%lookup_insert_Some; [lia|]. by rewrite lookup_empty in Hv. Qed.

Definition used : key_system :=
  mkKeySystem (recordAPIKeyUse true now 1 fresh_usage).1.1 (Some table) None [(1, now)].
Definition failed : key_system :=
  mkKeySystem (flush_result 0 (now + 5) 1 now false (flush_sweep now (kg_usage used))) (Some table) (Some (mkPass 0 [])) [(1, now)].

Lemma failed_reachable : rtc (@usage_step order) (keys_started (Some table)) failed.
Proof.
  eapply rtc_l; [eapply (@use_key order (keys_started (Some table)) now 1); [reflexivity|by intros t [= <-]|vm_compute; reflexivity]|].
  eapply rtc_l; [apply (@begin_pass order used false now); [reflexivity|discriminate]|].
  eapply rtc_l; [apply (@touch_next order _ 0 1 now [] (now + 5) false); vm_compute; reflexivity|].
  apply rtc_refl.
Qed.

Lemma lost_witness :
  (∃ e, ku_entries (kg_usage failed) !! 1 = Some e ∧ now ≤ us_pending e) ∨ to_second now ≤ 0.
Proof.
  destruct (@taken_uses_are_never_lost order (Some table) failed 1 now table 0 table_ok failed_reachable) as [_ H].
  apply H; [left|reflexivity|reflexivity].
Defined.
End UsageExample.
