(* ===== verification/RuntimeConfig.v ===== *)
(** The nodes of the runtime configuration: their keys, the stored nodes that may run
    ([internal/runtimenodes]), the tags of their outbounds ([internal/runtimetag]), and
    the ports they listen on ([NormalizeWithPortMap] and [BuildPortMap] of
    [internal/config/config.go], [reassignConflictingPort] of
    [internal/boxmgr/manager.go]).

    A configuration is the part of [Config] these functions read. Whether a port can be
    bound is an argument; ports are uint16. The caches [CanonicalJSON] and
    [EndpointKey], which nothing here reads, are left out. *)
From stdpp Require Import pretty.
From S2P Require Import Prelude Text NetURL NodeCodec LinkRoundTrip.

#[local] Open Scope Z_scope.

Record NodeConfig := mkNode {
  nc_ID : Z; nc_Name : string; nc_URI : string; nc_Port : Z; nc_Username : string; nc_Password : string;
  nc_Source : string; nc_Disabled : bool; nc_Region : string; nc_Country : string; nc_Tags : list string; nc_IdentityHash : string
}.
#[export] Instance node_eq_dec : EqDecision NodeConfig.
Proof. solve_decision. Defined.

Record MultiPortConfig := mkMultiPort {
  mp_Enabled : bool; mp_Address : string; mp_BasePort : Z; mp_Username : string; mp_Password : string
}.
Record Config := mkConfig {
  cf_Nodes : list NodeConfig; cf_MultiPort : MultiPortConfig; cf_ListenerEnabled : bool; cf_ListenerPort : Z;
  cf_SkipCertVerify : bool
}.

Definition with_port (p : Z) (n : NodeConfig) : NodeConfig :=
  mkNode (nc_ID n) (nc_Name n) (nc_URI n) p (nc_Username n) (nc_Password n) (nc_Source n) (nc_Disabled n) (nc_Region n)
    (nc_Country n) (nc_Tags n) (nc_IdentityHash n).
Definition with_name (name uri : string) (n : NodeConfig) : NodeConfig :=
  mkNode (nc_ID n) name uri (nc_Port n) (nc_Username n) (nc_Password n) (nc_Source n) (nc_Disabled n) (nc_Region n)
    (nc_Country n) (nc_Tags n) (nc_IdentityHash n).
Definition with_credentials (user password : string) (n : NodeConfig) : NodeConfig :=
  mkNode (nc_ID n) (nc_Name n) (nc_URI n) (nc_Port n) user password (nc_Source n) (nc_Disabled n) (nc_Region n)
    (nc_Country n) (nc_Tags n) (nc_IdentityHash n).
Definition with_nodes (nodes : list NodeConfig) (c : Config) : Config :=
  mkConfig nodes (cf_MultiPort c) (cf_ListenerEnabled c) (cf_ListenerPort c) (cf_SkipCertVerify c).

(** A row of [nodes], as far as the runtime reads it. *)
Record Node := mkRow {
  nr_ID : Z; nr_URI : string; nr_Name : string; nr_Source : string; nr_Port : Z; nr_Username : string; nr_Password : string;
  nr_Region : string; nr_Country : string; nr_Enabled : bool; nr_Tags : list string; nr_IdentityHash : string
}.
Definition NodeSourceManual : string := "manual".
Definition NodeSourceSubscription : string := "subscription".

(** [runtimenodes.IdentityKey], [nodeConfig] and [Load]. *)
Definition IdentityKey (n : Node) : string :=
  if decide (nr_IdentityHash n = "") then TrimSpace (nr_URI n) else nr_IdentityHash n.
Definition nodeConfig (uri : string) (n : Node) : NodeConfig :=
  mkNode (nr_ID n) (nr_Name n) uri (nr_Port n) (nr_Username n) (nr_Password n) (nr_Source n) false (nr_Region n)
    (nr_Country n) (nr_Tags n) (nr_IdentityHash n).
Definition convert (acc : list NodeConfig * gset string) (n : Node) : list NodeConfig * gset string :=
  let uri := TrimSpace (nr_URI n) in
  if negb (nr_Enabled n) || bool_decide (uri = "") || bool_decide (IdentityKey n ∈ acc.2) then acc
  else (acc.1 ++ [nodeConfig uri n], {[IdentityKey n]} ∪ acc.2).
(** [regular] is every row, [effective] the rows an enabled subscription reaches. *)
Definition runtime_nodes (regular effective : list Node) : list NodeConfig :=
  (foldl convert ([], ∅) (filter (λ n, nr_Source n ≠ NodeSourceSubscription) regular ++ effective)).1.

(** ** Tags of outbounds *)
Definition InitialVersion : Z := 1.
Definition hex_lower (c : Ascii.ascii) : bool := within 48 57 c || within 97 102 c.
Definition FormatTag (nodeKey : string) (version : Z) : result string :=
  if version =? 0 then Err "runtime tag version must be greater than zero"
  else
    let digest := match cut_last (byte_is 58) nodeKey with Some (_, d) => d | None => nodeKey end in
    if (String.length digest <? 16)%nat then Err "node key does not contain 16 hexadecimal characters"
    else
      let digest := toLower (String.substring 0 16 digest) in
      if every hex_lower digest then Ok (digest +:+ "@v" +:+ pretty version)
      else Err "node key prefix is not hexadecimal".

Section config.
Context `{!RangeOrder string, !CodecLibraries}.

Definition NodeKey (n : NodeConfig) : string :=
  if decide (nc_IdentityHash n = "") then match ParseURI (nc_URI n) with Ok r => re_Hash r | Err _ => nc_URI n end
  else nc_IdentityHash n.

(** ** Ports across reloads *)
Definition BuildPortMap (c : Config) : gmap string Z :=
  foldl (λ m n, if 0 <? nc_Port n then <[NodeKey n := nc_Port n]> m else m) ∅ (cf_Nodes c).

Definition name_of_uri (uri : string) : string :=
  match Parse uri with
  | Some u => if decide (u_Fragment u = "") then "" else default (u_Fragment u) (QueryUnescape (u_Fragment u))
  | None => ""
  end.

(** The first pass of [NormalizeWithPortMap]: names, and the ports that are given. *)
Definition keep_port (multi : bool) (portMap : gmap string Z) (n : NodeConfig) : NodeConfig :=
  if multi then match portMap !! NodeKey n with
                | Some p => if 0 <? p then with_port p n else n
                | None => n
                end
  else n.
Fixpoint first_pass (multi : bool) (portMap : gmap string Z) (idx : nat) (nodes : list NodeConfig) (used : gset Z)
    : result (list NodeConfig * gset Z) :=
  match nodes with
  | [] => Ok ([], used)
  | n :: nodes =>
    let uri := TrimSpace (nc_URI n) in
    if decide (uri = "") then Err ("node " +:+ pretty idx +:+ " is missing uri")
    else
      let name := TrimSpace (nc_Name n) in
      let name := if decide (name = "") then name_of_uri uri else name in
      let name := if decide (name = "") then "node-" +:+ pretty idx else name in
      let n := keep_port multi portMap (with_name name uri n) in
      let used := if multi && (0 <? nc_Port n) then {[nc_Port n]} ∪ used else used in
      let? (rest, used) := first_pass multi portMap (S idx) nodes used in
      Ok (n :: rest, used)
  end.

(** The second pass: a cursor that only moves up. *)
Fixpoint next_port (fuel : nat) (taken : Z → bool) (cursor : Z) : option Z :=
  match fuel with
  | O => None
  | S fuel => if 65535 <? cursor then None
              else if taken cursor then next_port fuel taken (cursor + 1) else Some cursor
  end.
Definition port_fuel : nat := Z.to_nat 65537.

Definition dress (mp : MultiPortConfig) (n : NodeConfig) : NodeConfig :=
  if decide (nc_Username n = "") then with_credentials (mp_Username mp) (mp_Password mp) n else n.
Fixpoint second_pass (avail : Z → bool) (mp : MultiPortConfig) (cursor : Z) (nodes : list NodeConfig) (used : gset Z)
    : result (list NodeConfig) :=
  match nodes with
  | [] => Ok []
  | n :: nodes =>
    if nc_Port n =? 0 then
      match next_port port_fuel (λ p, bool_decide (p ∈ used) || negb (avail p)) cursor with
      | None => Err ("no available ports found starting from " +:+ pretty (mp_BasePort mp))
      | Some p => let? rest := second_pass avail mp (p + 1) nodes ({[p]} ∪ used) in Ok (dress mp (with_port p n) :: rest)
      end
    else let? rest := second_pass avail mp cursor nodes used in Ok (dress mp n :: rest)
  end.

(** [NormalizeWithPortMap] on a configuration whose defaults have been applied. *)
Definition NormalizeWithPortMap (avail : Z → bool) (portMap : gmap string Z) (c : Config) : result Config :=
  let mp := cf_MultiPort c in
  if decide (cf_Nodes c = []) then Err "config.nodes cannot be empty (no inline, subscription, or manual nodes available)"
  else
    let used : gset Z := if cf_ListenerEnabled c && mp_Enabled mp then {[cf_ListenerPort c]} else ∅ in
    let? (nodes, used) := first_pass (mp_Enabled mp) portMap 0 (cf_Nodes c) used in
    if mp_Enabled mp then let? nodes := second_pass avail mp (mp_BasePort mp) nodes used in Ok (with_nodes nodes c)
    else Ok (with_nodes nodes c).

(** ** A port that turned out to be taken *)
Definition reassignConflictingPort (avail : Z → bool) (conflictPort : Z) (c : Config) : Config * bool :=
  if negb (mp_Enabled (cf_MultiPort c)) then (c, false)
  else
    let used : gset Z := (if cf_ListenerEnabled c then {[cf_ListenerPort c]} else ∅) ∪ list_to_set (nc_Port <$> cf_Nodes c) in
    match list_find (λ n, nc_Port n = conflictPort) (cf_Nodes c) with
    | None => (c, false)
    | Some (idx, n) =>
      match next_port port_fuel (λ p, bool_decide (p ∈ used) || negb (avail p)) (conflictPort + 1) with
      | None => (c, false)
      | Some p => (with_nodes (<[idx := with_port p n]> (cf_Nodes c)) c, true)
      end
    end.

(** ** What the ports of a normalized configuration are *)
Lemma next_port_spec fuel taken cursor p : next_port fuel taken cursor = Some p → cursor ≤ p ≤ 65535 ∧ taken p = false.
Proof.
  revert cursor. induction fuel as [|fuel IH]; intros cursor; cbn; [done|].
  destruct (65535 <? cursor) eqn:Hc; [done|]. apply Z.ltb_ge in Hc.
  destruct (taken cursor) eqn:Ht; [intros [? ?]%IH; split; [lia|done]|intros [= <-]; split; [lia|done]].
Qed.

(** The search gives up only when every port from the cursor on is taken. *)
Lemma next_port_complete fuel taken cursor : 0 ≤ cursor → 65536 - cursor < Z.of_nat fuel → next_port fuel taken cursor = None →
  ∀ p, cursor ≤ p ≤ 65535 → taken p = true.
Proof.
  revert cursor. induction fuel as [|fuel IH]; intros cursor H0 Hf; cbn; [lia|].
  destruct (65535 <? cursor) eqn:Hc; [apply Z.ltb_lt in Hc; intros _ p; lia|].
  destruct (taken cursor) eqn:Ht; [|done]. intros Hn p Hp. destruct (decide (p = cursor)) as [->|]; [done|].
  apply (IH (cursor + 1)); [lia|lia|done|lia].
Qed.

Lemma first_pass_spec multi portMap nodes : ∀ idx used nodes' used',
  first_pass multi portMap idx nodes used = Ok (nodes', used') →
  length nodes' = length nodes ∧
  (∀ i n, nodes !! i = Some n → ∃ name, nodes' !! i = Some (keep_port multi portMap (with_name name (TrimSpace (nc_URI n)) n))) ∧
  used ⊆ used' ∧ (multi = true → ∀ n', n' ∈ nodes' → 0 < nc_Port n' → nc_Port n' ∈ used').
Proof.
  induction nodes as [|n nodes IH]; intros idx used nodes' used'; cbn [first_pass].
  { intros [= <- <-]. split_and!; [done|by intros ? ? ?|done|by intros _ ? ?%elem_of_nil]. }
  case_decide; [done|]. set (name := if decide (_ = "") then _ else _). set (n1 := keep_port _ _ _).
  intros ([rest used1] & Hrest & [= <- <-])%result_bind_Ok.
  destruct (IH _ _ _ _ Hrest) as (Hlen & Hnth & Hsub & Hports). split_and!.
  - cbn. by rewrite Hlen.
  - intros [|i] m; cbn; [intros [= <-]; by eexists|apply Hnth].
  - etrans; [|exact Hsub]. case_match; set_solver.
  - intros Hm n' [->|Hin]%elem_of_cons Hp; [|by apply Hports]. apply Hsub. rewrite Hm. cbn.
    replace (0 <? nc_Port n1) with true by (symmetry; by apply Z.ltb_lt). set_solver.
Qed.

Lemma dress_same mp n : nc_Port (dress mp n) = nc_Port n ∧ nc_URI (dress mp n) = nc_URI n ∧ nc_ID (dress mp n) = nc_ID n ∧
  nc_IdentityHash (dress mp n) = nc_IdentityHash n.
Proof. unfold dress. by case_decide. Qed.

Lemma second_pass_spec avail mp nodes : ∀ cursor used nodes',
  second_pass avail mp cursor nodes used = Ok nodes' →
  length nodes' = length nodes ∧
  (∀ i n', nodes' !! i = Some n' → ∃ n, nodes !! i = Some n ∧ nc_URI n' = nc_URI n ∧ nc_ID n' = nc_ID n ∧ nc_IdentityHash n' = nc_IdentityHash n ∧
     if nc_Port n =? 0 then cursor ≤ nc_Port n' ≤ 65535 ∧ avail (nc_Port n') = true ∧ nc_Port n' ∉ used else nc_Port n' = nc_Port n) ∧
  (∀ i j n m n' m', i ≠ j → nodes !! i = Some n → nodes !! j = Some m → nc_Port n = 0 → nc_Port m = 0 →
     nodes' !! i = Some n' → nodes' !! j = Some m' → nc_Port n' ≠ nc_Port m').
Proof.
  induction nodes as [|n nodes IH]; intros cursor used nodes'; cbn [second_pass].
  { intros [= <-]. done. }
  destruct (nc_Port n =? 0) eqn:Hz.
  - destruct (next_port _ _ cursor) as [p|] eqn:Hp; [|done]. intros (rest & Hrest & [= <-])%result_bind_Ok.
    apply next_port_spec in Hp as [Hrange Htaken]. apply orb_false_iff in Htaken as [Hu%bool_decide_eq_false_1 Ha%negb_false_iff].
    destruct (IH _ _ _ Hrest) as (Hlen & Hnth & Hdist). destruct (dress_same mp (with_port p n)) as (Hdp & Hdu & Hdi & Hdh). split_and!.
    + cbn. by rewrite Hlen.
    + intros [|i] n'; cbn; [intros [= <-]; exists n; rewrite Hdp, Hdu, Hdi, Hdh, Hz; split_and!; try done; cbn; lia|].
      intros Hi. destruct (Hnth i n' Hi) as (m & Hm & ? & ? & ? & Hport). exists m. split_and!; [done..|]. destruct (nc_Port m =? 0); [|done].
      destruct Hport as (? & ? & Hnin). split_and!; [lia|lia|done|set_solver].
    + assert (∀ j m m', nodes !! j = Some m → nc_Port m = 0 → rest !! j = Some m' → nc_Port m' ≠ p) as Hfirst.
      { intros j m m' Hm Hmz Hm'. destruct (Hnth j m' Hm') as (m1 & Hm1 & _ & _ & _ & Hport). simplify_eq. rewrite Hmz in Hport. cbn in Hport. lia. }
      intros [|i] [|j] a b a' b' Hne; cbn; [done|..].
      * intros [= <-] Hb _ Hbz [= <-] Hb'. rewrite Hdp. cbn. intros Heq. by apply (Hfirst j b b').
      * intros Ha1 [= <-] Haz _ Ha' [= <-]. rewrite Hdp. cbn. by apply (Hfirst i a a').
      * apply (Hdist i j). by intros ->.
  - intros (rest & Hrest & [= <-])%result_bind_Ok. destruct (IH _ _ _ Hrest) as (Hlen & Hnth & Hdist). destruct (dress_same mp n) as (Hdp & Hdu & Hdi & Hdh). split_and!.
    + cbn. by rewrite Hlen.
    + intros [|i] n'; cbn; [intros [= <-]; exists n; rewrite Hdp, Hdu, Hdi, Hdh, Hz; by split_and!|apply Hnth].
    + apply Z.eqb_neq in Hz. intros [|i] [|j] a b a' b' Hne; cbn; [done|intros; congruence|intros; congruence|]. apply (Hdist i j). by intros ->.
Qed.

(** The port a node comes with: the one its key had, or else its own. *)
Definition given_port (portMap : gmap string Z) (n : NodeConfig) : Z :=
  match portMap !! NodeKey (with_name (nc_Name n) (TrimSpace (nc_URI n)) n) with
  | Some p => if 0 <? p then p else nc_Port n
  | None => nc_Port n
  end.

Lemma keep_port_given portMap name n : nc_Port (keep_port true portMap (with_name name (TrimSpace (nc_URI n)) n)) = given_port portMap n.
Proof.
  unfold keep_port, given_port. change (NodeKey (with_name name (TrimSpace (nc_URI n)) n)) with (NodeKey (with_name (nc_Name n) (TrimSpace (nc_URI n)) n)).
  destruct (portMap !! _) as [p|]; [|done]. by destruct (0 <? p).
Qed.

(** C27: Ports survive a reload and new ones never collide. When a configuration in
    multi-port mode, the mode in which nodes have a port of their own, is normalized
    with the ports of the running one, every node keeps the port its key had, or else
    the port it brought; a node that had neither gets a port that can be bound, from the base on, different from the port of the entry and from the port of
    every other node. So two nodes share a port only if both were given it. *)
Theorem normalized_ports_are_distinct avail portMap c c' :
  mp_Enabled (cf_MultiPort c) = true → 0 ≤ mp_BasePort (cf_MultiPort c) → NormalizeWithPortMap avail portMap c = Ok c' →
  length (cf_Nodes c') = length (cf_Nodes c) ∧
  (∀ i n n', cf_Nodes c !! i = Some n → cf_Nodes c' !! i = Some n' →
     if given_port portMap n =? 0
     then mp_BasePort (cf_MultiPort c) ≤ nc_Port n' ≤ 65535 ∧ avail (nc_Port n') = true ∧
          (cf_ListenerEnabled c = true → nc_Port n' ≠ cf_ListenerPort c)
     else nc_Port n' = given_port portMap n) ∧
  (∀ i j n n' m', i ≠ j → cf_Nodes c !! i = Some n → given_port portMap n = 0 →
     cf_Nodes c' !! i = Some n' → cf_Nodes c' !! j = Some m' → nc_Port n' ≠ nc_Port m').
Proof.
  intros Hmulti Hbase. unfold NormalizeWithPortMap. case_decide; [done|].
  intros ([nodes used] & Hfirst & Hsecond)%result_bind_Ok. rewrite Hmulti, andb_true_r in Hfirst. rewrite Hmulti in Hsecond.
  apply result_bind_Ok in Hsecond as (nodes' & Hsecond & [= <-]). cbn [cf_Nodes with_nodes].
  destruct (first_pass_spec _ _ _ _ _ _ _ Hfirst) as (Hlen1 & Hnth1 & Hsub & Hports).
  destruct (second_pass_spec _ _ _ _ _ _ Hsecond) as (Hlen2 & Hnth2 & Hdist).
  assert (∀ i n n', cf_Nodes c !! i = Some n → nodes' !! i = Some n' → ∃ n1, nodes !! i = Some n1 ∧ nc_Port n1 = given_port portMap n ∧
     if given_port portMap n =? 0 then mp_BasePort (cf_MultiPort c) ≤ nc_Port n' ≤ 65535 ∧ avail (nc_Port n') = true ∧ nc_Port n' ∉ used
     else nc_Port n' = given_port portMap n) as Hnode.
  { intros i n n' Hn Hn'. destruct (Hnth1 i n Hn) as (name & Hn1). destruct (Hnth2 i n' Hn') as (n1 & Hn1' & _ & _ & _ & Hport). simplify_eq.
    rewrite keep_port_given in Hport. eexists. split; [done|]. split; [apply keep_port_given|done]. }
  split; [congruence|]. split.
  - intros i n n' Hn Hn'. destruct (Hnode i n n' Hn Hn') as (_ & _ & _ & Hport). destruct (given_port portMap n =? 0); [|done].
    destruct Hport as (? & ? & Hnin). split_and!; [lia|lia|done|]. intros Hl Heq. apply Hnin, Hsub. rewrite Hl, Heq. set_solver.
  - intros i j n n' m' Hne Hn Hg Hn' Hm'. destruct (Hnode i n n' Hn Hn') as (n1 & Hn1 & Hgn & Hport). rewrite Hg in Hport. cbn in Hport.
    destruct (Hnth2 j m' Hm') as (m1 & Hm1 & _ & _ & _ & Hpm).
    destruct (nc_Port m1 =? 0) eqn:Hz; [apply Z.eqb_eq in Hz; eapply (Hdist i j); try done; congruence|].
    apply Z.eqb_neq in Hz. rewrite Hpm. destruct (decide (0 < nc_Port m1)) as [Hpos|]; [|lia].
    intros Heq. apply (proj2 (proj2 Hport)). rewrite Heq. apply Hports; [done|by eapply list_elem_of_lookup_2|done].
Qed.

(** When the listener of a node cannot be started, exactly that node moves, to a port
    that can be bound and that nothing else uses. *)
Theorem conflicting_node_moves_to_a_free_port avail p c c' :
  reassignConflictingPort avail p c = (c', true) →
  ∃ i n q, cf_Nodes c !! i = Some n ∧ nc_Port n = p ∧ cf_Nodes c' = <[i := with_port q n]> (cf_Nodes c) ∧
    p < q ≤ 65535 ∧ avail q = true ∧ (cf_ListenerEnabled c = true → q ≠ cf_ListenerPort c) ∧
    ∀ m, m ∈ cf_Nodes c → nc_Port m ≠ q.
Proof.
  unfold reassignConflictingPort. destruct (negb _); [done|]. cbn zeta.
  destruct (list_find _ _) as [[i n]|] eqn:Hf; [|done]. apply list_find_Some in Hf as (Hn & Hp & _).
  destruct (next_port _ _ _) as [q|] eqn:Hq; [|done]. intros [= <-]. apply next_port_spec in Hq as [Hr Ht].
  apply orb_false_iff in Ht as [Hu%bool_decide_eq_false_1 Ha%negb_false_iff].
  exists i, n, q. split_and!; [done|done|done|lia|lia|done| |].
  - intros Hl ->. apply Hu. rewrite Hl. set_solver.
  - intros m Hm Heq. apply Hu, elem_of_union_r, elem_of_list_to_set, list_elem_of_fmap. eauto.
Qed.
End config.

(** ** Which stored nodes run *)
Definition runnable (n : Node) : Prop := nr_Enabled n = true ∧ TrimSpace (nr_URI n) ≠ "".

Lemma convert_fold rows : ∀ acc,
  ∃ kept, sublist kept rows ∧
    foldl convert acc rows = (acc.1 ++ ((λ n, nodeConfig (TrimSpace (nr_URI n)) n) <$> kept), list_to_set (IdentityKey <$> kept) ∪ acc.2) ∧
    NoDup (IdentityKey <$> kept) ∧ (∀ n, n ∈ kept → runnable n ∧ IdentityKey n ∉ acc.2) ∧
    (∀ n, n ∈ rows → runnable n → IdentityKey n ∈ acc.2 ∨ IdentityKey n ∈ IdentityKey <$> kept).
Proof.
  induction rows as [|n rows IH]; intros [l seen].
  { exists []. cbn. rewrite app_nil_r, union_empty_l_L. split_and!; [constructor|done|constructor|by intros ? ?%elem_of_nil|by intros ? ?%elem_of_nil ?]. }
  cbn [foldl]. unfold convert at 2. cbn [fst snd]. cbv zeta.
  destruct (negb (nr_Enabled n) || bool_decide (TrimSpace (nr_URI n) = "") || bool_decide (IdentityKey n ∈ seen)) eqn:Hskip.
  - destruct (IH (l, seen)) as (kept & Hsub & Hf & Hnd & Hin & Hall). exists kept. split_and!; [by constructor|done|done|done|].
    intros m [->|Hm]%elem_of_cons Hr; [|by apply Hall]. left. destruct Hr as [He Hu]. rewrite He, (bool_decide_false (_ = "")) in Hskip by done.
    by apply bool_decide_eq_true_1 in Hskip.
  - repeat rewrite orb_false_iff in Hskip. destruct Hskip as ((He%negb_false_iff & Hu%bool_decide_eq_false_1) & Hk%bool_decide_eq_false_1).
    destruct (IH (l ++ [nodeConfig (TrimSpace (nr_URI n)) n], {[IdentityKey n]} ∪ seen)) as (kept & Hsub & Hf & Hnd & Hin & Hall).
    exists (n :: kept). cbn [fst snd fmap list_fmap list_to_set] in *. split_and!.
    + by constructor.
    + rewrite Hf. f_equal; [by rewrite <-app_assoc|set_solver].
    + constructor; [|done]. intros (m & Heq & Hm)%list_elem_of_fmap. destruct (Hin m Hm) as [_ Hn]. set_solver.
    + intros m [->|Hm]%elem_of_cons; [done|]. destruct (Hin m Hm) as [? ?]. split; [done|set_solver].
    + intros m [->|Hm]%elem_of_cons Hr; [right; left|]. destruct (Hall m Hm Hr) as [Hs|?]; [|by right; right].
      apply elem_of_union in Hs as [->%elem_of_singleton|?]; [right; left|by left].
Qed.

(** The nodes that run are exactly the enabled ones that are not subscribed or that an
    enabled subscription reaches, once per identity, the first of each in order. *)
Theorem runtime_set_is_the_enabled_nodes regular effective :
  ∃ kept, sublist kept (filter (λ n, nr_Source n ≠ NodeSourceSubscription) regular ++ effective) ∧
    runtime_nodes regular effective = (λ n, nodeConfig (TrimSpace (nr_URI n)) n) <$> kept ∧
    NoDup (IdentityKey <$> kept) ∧ (∀ n, n ∈ kept → runnable n) ∧
    (∀ n, runnable n → (n ∈ regular ∧ nr_Source n ≠ NodeSourceSubscription) ∨ n ∈ effective → IdentityKey n ∈ IdentityKey <$> kept).
Proof.
  unfold runtime_nodes. destruct (convert_fold (filter (λ n, nr_Source n ≠ NodeSourceSubscription) regular ++ effective) ([], ∅))
    as (kept & Hsub & Hf & Hnd & Hin & Hall). exists kept. rewrite Hf. cbn. split_and!; [done|done|done| |].
  - intros n Hn. by apply Hin.
  - intros n Hr Hn. destruct (Hall n) as [?|?]; [|done|set_solver|done]. apply elem_of_app. destruct Hn as [[? ?]|?]; [left|by right].
    by apply list_elem_of_filter.
Qed.

(** ** Example: three nodes, one of them new *)
Module PortExample.
Definition node (id : Z) (key : string) (port : Z) : NodeConfig :=
  mkNode id key "http://h:1" port "" "" NodeSourceManual false "" "" [] key.
Definition multi : MultiPortConfig := mkMultiPort true "0.0.0.0" 24000 "u" "p".
Definition config (nodes : list NodeConfig) : Config := mkConfig nodes multi true 24001 false.
Definition before : Config := config [node 1 "a" 24000; node 2 "b" 24005].
Definition after : Config := config [node 2 "b" 0; node 3 "c" 0; node 1 "a" 24002; node 4 "d" 0].
Definition avail (p : Z) : bool := negb (p =? 24002).

#[local] Existing Instance LinkExample.order.
#[local] Existing Instance LinkExample.libraries.
Definition normalized := NormalizeWithPortMap avail (BuildPortMap before) after.

Lemma normalized_ports : (λ c, nc_Port <$> cf_Nodes c) <$> (match normalized with Ok c => Some c | Err _ => None end) = Some [24005; 24003; 24000; 24004].
Proof. vm_compute. reflexivity. Qed.

Lemma distinct_witness : ∃ c', normalized = Ok c' ∧ length (cf_Nodes c') = 4%nat ∧
  (∀ i j n n' m', i ≠ j → cf_Nodes after !! i = Some n → given_port (BuildPortMap before) n = 0 →
     cf_Nodes c' !! i = Some n' → cf_Nodes c' !! j = Some m' → nc_Port n' ≠ nc_Port m').
Proof.
  destruct normalized as [c'|e] eqn:Hn; [|vm_compute in Hn; discriminate Hn]. exists c'. split; [reflexivity|].
  destruct (normalized_ports_are_distinct avail (BuildPortMap before) after c' eq_refl ltac:(vm_compute; discriminate) Hn) as (Hl & _ & Hd).
  split; [exact Hl|exact Hd].
Defined.

(** A node that comes back with a port another one was given meanwhile shares it. *)
Example given_twice :
  (λ c, nc_Port <$> cf_Nodes c) <$> (match NormalizeWithPortMap avail (BuildPortMap before) (config [node 1 "a" 0; node 7 "z" 24000]) with Ok c => Some c | Err _ => None end)
  = Some [24000; 24000].
Proof. vm_compute. reflexivity. Qed.

Lemma moves_witness : ∃ c', reassignConflictingPort avail 24000 before = (c', true) ∧
  ∃ i n q, cf_Nodes c' = <[i := with_port q n]> (cf_Nodes before) ∧ 24000 < q.
Proof.
  destruct (reassignConflictingPort avail 24000 before) as [c' ok] eqn:Hr. assert (ok = true) as -> by (vm_compute in Hr; congruence).
  exists c'. split; [reflexivity|].
  destruct (conflicting_node_moves_to_a_free_port avail 24000 before c' Hr) as (i & n & q & _ & _ & Hn & Hq & _).
  exists i, n, q. split; [exact Hn|exact (proj1 Hq)].
Defined.
End PortExample.
