(* ===== verification/NodeManager.v ===== *)
(** Editing nodes while the proxy runs ([internal/boxmgr/manager.go], from [CreateNode]
    to [prepareNodeLocked], on the node statements of [internal/store/sqlite.go]):
    creation one by one and in batches, updates, enabling, deletion.

    Every operation holds the manager's lock, so it is a function of the configuration
    and the table of nodes; one that fails changes neither. A statement's failure is an
    argument. Whether the outbound of a node can be built, and the tags a node keeps
    when its automatic ones are dropped ([TagStore]), are arguments too. *)
From stdpp Require Import pretty.
From S2P Require Import Prelude Text NetURL NodeCodec LinkRoundTrip RuntimeConfig.

#[local] Open Scope Z_scope.

(** ** Errors *)
Inductive edit_error :=
| ErrConfigUnavailable
| ErrCancelled
| ErrInvalidNode (reason : string)
| ErrNameConflict (name : string)
| ErrPortConflict (port : Z)
| ErrNodeNotFound
| NodeDuplicateError (existingID : Z) (existingName : string)
| StoreError (call : string).
Definition edit (A : Type) : Type := edit_error + A.
Definition edit_bind {A B} (r : edit A) (k : A → edit B) : edit B :=
  match r with inl e => inl e | inr a => k a end.
#[local] Notation "'let!' x ':=' r 'in' k" := (edit_bind r (λ x, k)) (at level 10, x pattern, r at level 100, k at level 200).
Definition require (b : bool) (e : edit_error) : edit unit := if b then inr () else inl e.

Lemma edit_bind_inr {A B} (r : edit A) (k : A → edit B) b : edit_bind r k = inr b ↔ ∃ a, r = inr a ∧ k a = inr b.
Proof. destruct r; naive_solver. Qed.
Lemma require_inr b e u : require b e = inr u ↔ b = true.
Proof. unfold require. destruct b, u; naive_solver. Qed.

(** ** The table of nodes, its rows in the order of their ids *)
Record node_db := mkNodes { nd_rows : list Node; nd_next : Z }.

Definition with_id (id : Z) (r : Node) : Node :=
  mkRow id (nr_URI r) (nr_Name r) (nr_Source r) (nr_Port r) (nr_Username r) (nr_Password r) (nr_Region r) (nr_Country r)
    (nr_Enabled r) (nr_Tags r) (nr_IdentityHash r).
Definition with_identity (hash : string) (r : Node) : Node :=
  mkRow (nr_ID r) (nr_URI r) (nr_Name r) (nr_Source r) (nr_Port r) (nr_Username r) (nr_Password r) (nr_Region r) (nr_Country r)
    (nr_Enabled r) (nr_Tags r) hash.
Definition with_enabled (b : bool) (r : Node) : Node :=
  mkRow (nr_ID r) (nr_URI r) (nr_Name r) (nr_Source r) (nr_Port r) (nr_Username r) (nr_Password r) (nr_Region r) (nr_Country r)
    b (nr_Tags r) (nr_IdentityHash r).

Definition find_row (P : Node → bool) (db : node_db) : option Node := snd <$> list_find (λ r, P r = true) (nd_rows db).
Definition GetNode (id : Z) (db : node_db) : option Node := find_row (λ r, bool_decide (nr_ID r = id)) db.
Definition GetNodeByIdentity (hash : string) (db : node_db) : option Node :=
  find_row (λ r, bool_decide (nr_IdentityHash r = hash)) db.
Definition GetNodeByURI (uri : string) (db : node_db) : option Node := find_row (λ r, bool_decide (nr_URI r = uri)) db.
Definition GetNodeByName (name : string) (db : node_db) : option Node :=
  let name := TrimSpace name in
  if decide (name = "") then None else find_row (λ r, bool_decide (nr_Name r = name)) db.

(** The unique constraints: links, and identities that are known. *)
Definition collides (r r' : Node) : bool :=
  bool_decide (nr_URI r = nr_URI r') || (negb (bool_decide (nr_IdentityHash r = "")) && bool_decide (nr_IdentityHash r = nr_IdentityHash r')).

Inductive NodeCreateOutcome :=
| NodeCreated (id : Z)
| NodeDuplicate (existingID : Z) (existingName : string).

(** ** Ports of created nodes: uint16 arithmetic that skips 0 *)
Fixpoint cycle_port (fuel : nat) (taken : Z → bool) (port : Z) : option Z :=
  match fuel with
  | O => None
  | S fuel => if negb (taken port) && negb (port =? 0) then Some port
              else let p := (port + 1) mod 2 ^ 16 in cycle_port fuel taken (if p =? 0 then 1 else p)
  end.
Definition free_port (taken : Z → bool) (base : Z) : Z :=
  let base := if base =? 0 then 24000 else base in
  default base (cycle_port (Z.to_nat (2 ^ 16)) taken base).

Definition used_ports (c : Config) : gset Z := list_to_set (filter (λ p, 0 < p) (nc_Port <$> cf_Nodes c)).
Definition nextAvailablePortLocked (c : Config) : Z := free_port (λ p, bool_decide (p ∈ used_ports c)) (mp_BasePort (cf_MultiPort c)).
Definition nextUnreservedPortLocked (used : gset Z) (c : Config) : Z := free_port (λ p, bool_decide (p ∈ used)) (mp_BasePort (cf_MultiPort c)).

Definition nodeIndexLocked (name : string) (c : Config) : option (nat * NodeConfig) := list_find (λ n, nc_Name n = name) (cf_Nodes c).
Definition nodeIndexByIDLocked (id : Z) (c : Config) : option (nat * NodeConfig) :=
  if id <=? 0 then None else list_find (λ n, nc_ID n = id) (cf_Nodes c).
Definition portInUseLocked (port : Z) (currentName : string) (c : Config) : bool :=
  if port =? 0 then false
  else existsb (λ n, negb (bool_decide (nc_Name n = currentName)) && (nc_Port n =? port)) (cf_Nodes c).

(** ** Preparing a node *)
Definition with_identifiers (id : Z) (source : string) (n : NodeConfig) : NodeConfig :=
  mkNode id (nc_Name n) (nc_URI n) (nc_Port n) (nc_Username n) (nc_Password n) source (nc_Disabled n) (nc_Region n)
    (nc_Country n) (nc_Tags n) (nc_IdentityHash n).

Definition fragment_name (uri : string) : string :=
  match cut_last (byte_is 35) uri with
  | Some (_, fragment) => if decide (fragment = "") then "" else default "" (QueryUnescape fragment)
  | None => ""
  end.
Definition choose_name (name uri currentName : string) (c : Config) : string :=
  let name := TrimSpace name in
  if decide (name = "") then
    let name := if decide (currentName = "") then fragment_name uri else currentName in
    if decide (name = "") then "node-" +:+ pretty (length (cf_Nodes c) + 1)%nat else name
  else name.

Definition prepareNodeLocked (n : NodeConfig) (currentName : string) (c : Config) : edit NodeConfig :=
  let uri := TrimSpace (nc_URI n) in
  let! _ := require (negb (bool_decide (uri = ""))) (ErrInvalidNode "URI") in
  let name := choose_name (nc_Name n) uri currentName c in
  let! _ := require (bool_decide (nodeIndexLocked name c = None) || negb (bool_decide (currentName = "")) && bool_decide (name = currentName))
              (ErrNameConflict name) in
  let n := with_name name uri n in
  if mp_Enabled (cf_MultiPort c) then
    if nc_Port n =? 0 then inr (dress (cf_MultiPort c) (with_port (nextAvailablePortLocked c) n))
    else
      let! _ := require (negb (portInUseLocked (nc_Port n) currentName c)) (ErrPortConflict (nc_Port n)) in
      inr (dress (cf_MultiPort c) n)
  else inr n.

(** ** The statements *)

(** The tags of a node without its automatic ones. *)
Section edits.
Context `{RS : !RangeOrder string, CL : !CodecLibraries} (manual_tags : Z → list string).

Definition identity_of (uri : string) : string := match ParseURI uri with Ok x => re_Hash x | Err _ => FallbackHash uri end.
Definition populateNodeIdentity (r : Node) : Node := with_identity (identity_of (nr_URI r)) r.

(** [createNode] on a populated row: [None] when a unique constraint fails. *)
Definition createNode (r : Node) (db : node_db) : option (node_db * Z) :=
  if existsb (collides r) (nd_rows db) then None
  else Some (mkNodes (nd_rows db ++ [with_id (nd_next db) r]) (nd_next db + 1), nd_next db).
Definition existingNodeConflict (r : Node) (db : node_db) : Z * string :=
  let by_uri := match GetNodeByURI (nr_URI r) db with Some r' => (nr_ID r', nr_Name r') | None => (0, "") end in
  if decide (nr_IdentityHash r = "") then by_uri
  else match GetNodeByIdentity (nr_IdentityHash r) db with Some r' => (nr_ID r', nr_Name r') | None => by_uri end.

(** [store.CreateNode] and [store.CreateNodes]; a failed transaction is [None]. *)
Definition store_CreateNode (fault : bool) (r : Node) (db : node_db) : option (node_db * Z) :=
  if fault then None else createNode (populateNodeIdentity r) db.
Definition create_outcome (acc : node_db * list NodeCreateOutcome) (r : Node) : node_db * list NodeCreateOutcome :=
  let r := populateNodeIdentity r in
  match createNode r acc.1 with
  | Some (db, id) => (db, acc.2 ++ [NodeCreated id])
  | None => let '(id, name) := existingNodeConflict r acc.1 in (acc.1, acc.2 ++ [NodeDuplicate id name])
  end.
Definition store_CreateNodes (fault : bool) (rows : list Node) (db : node_db) : option (node_db * list NodeCreateOutcome) :=
  if fault && negb (bool_decide (rows = [])) then None else Some (foldl create_outcome (db, []) rows).

(** [updateNode]: tags belong to the tagging layer; a change of identity drops the
    location and the automatic tags. *)
Definition updated (r old : Node) : Node :=
  let changed := negb (bool_decide (nr_IdentityHash old = "")) && negb (bool_decide (nr_IdentityHash old = nr_IdentityHash r)) in
  mkRow (nr_ID old) (nr_URI r) (nr_Name r) (nr_Source r) (nr_Port r) (nr_Username r) (nr_Password r)
    (if changed then "" else nr_Region old) (if changed then "" else nr_Country old) (nr_Enabled r)
    (if changed then manual_tags (nr_ID old) else nr_Tags old) (nr_IdentityHash r).
Definition store_UpdateNode (fault : bool) (r : Node) (db : node_db) : option node_db :=
  let r := populateNodeIdentity r in
  if fault || bool_decide (GetNode (nr_ID r) db = None) ||
     existsb (λ r', negb (bool_decide (nr_ID r' = nr_ID r)) && collides r r') (nd_rows db)
  then None
  else Some (mkNodes ((λ r', if decide (nr_ID r' = nr_ID r) then updated r r' else r') <$> nd_rows db) (nd_next db)).
Definition store_DeleteNode (fault : bool) (id : Z) (db : node_db) : option node_db :=
  if fault || bool_decide (GetNode id db = None) then None
  else Some (mkNodes (filter (λ r, nr_ID r ≠ id) (nd_rows db)) (nd_next db)).

(** ** The operations *)

(** What the manager edits; [mg_store] is [None] when no store is bound. *)
Record manager := mkManager { mg_cfg : option Config; mg_store : option node_db }.

(** What may fail: the context, and the calls of the store. *)
Record faults := mkFaults { ft_ctx : bool; ft_get : bool; ft_lookup : bool; ft_list : bool; ft_write : bool; ft_again : bool }.

Definition enter (f : faults) (m : manager) : edit Config :=
  let! _ := require (negb (ft_ctx f)) ErrCancelled in
  match mg_cfg m with Some c => inr c | None => inl ErrConfigUnavailable end.
Definition call {A} (r : option A) (name : string) : edit A := match r with Some a => inr a | None => inl (StoreError name) end.
Definition read {A} (fault : bool) (a : A) (name : string) : edit A := call (if fault then None else Some a) name.

Definition stored_node (n : NodeConfig) : Node :=
  mkRow 0 (nc_URI n) (nc_Name n) (nc_Source n) (nc_Port n) (nc_Username n) (nc_Password n) "" "" true [] "".
Definition append_nodes (nodes : list NodeConfig) (c : Config) : Config := with_nodes (cf_Nodes c ++ nodes) c.
Definition put (c : Config) (db : option node_db) : manager := mkManager (Some c) db.

Definition parseable (uri : string) : edit string :=
  match ParseURI uri with Ok x => inr (re_Hash x) | Err e => inl (ErrInvalidNode e) end.

Definition CreateNode (f : faults) (n : NodeConfig) (m : manager) : edit (manager * NodeConfig) :=
  let! c := enter f m in
  let! n := prepareNodeLocked n "" c in
  let n := with_identifiers (nc_ID n) NodeSourceManual n in
  match mg_store m with
  | None => inr (put (append_nodes [n] c) None, n)
  | Some db =>
    let! hash := parseable (nc_URI n) in
    let! existing := read (ft_lookup f) (GetNodeByIdentity hash db) "lookup node identity" in
    match existing with
    | Some r => inl (NodeDuplicateError (nr_ID r) (nr_Name r))
    | None =>
      match store_CreateNode (ft_write f) (stored_node n) db with
      | None => match (if ft_again f then None else GetNodeByIdentity hash db) with
                | Some r => inl (NodeDuplicateError (nr_ID r) (nr_Name r))
                | None => inl (StoreError "save to store")
                end
      | Some (db, id) => let n := with_identifiers id NodeSourceManual n in inr (put (append_nodes [n] c) (Some db), n)
      end
    end
  end.

(** [nodeNameTakenLocked] *)
Definition nodeNameTakenLocked (f : faults) (name : string) (excludeID : Z) (c : Config) (store : option node_db) : edit bool :=
  if existsb (λ n, bool_decide (nc_Name n = name) && negb (nc_ID n =? excludeID)) (cf_Nodes c) then inr true
  else match store with
       | None => inr false
       | Some db => let! rows := read (ft_list f) (nd_rows db) "list stored node names" in
                    inr (existsb (λ r, bool_decide (nr_Name r = name) && negb (nr_ID r =? excludeID)) rows)
       end.

Definition edited_row (n : NodeConfig) (r : Node) : Node :=
  mkRow (nr_ID r) (nc_URI n) (nc_Name n) (nr_Source r) (nc_Port n) (nc_Username n) (nc_Password n) (nr_Region r) (nr_Country r)
    (nr_Enabled r) (nr_Tags r) (nr_IdentityHash r).

Definition UpdateNodeByID (f : faults) (id : Z) (n : NodeConfig) (m : manager) : edit (manager * NodeConfig) :=
  let! c := enter f m in
  let runtime := nodeIndexByIDLocked id c in
  let! persisted :=
    match mg_store m with
    | Some db => let! r := read (ft_get f) (GetNode id db) "lookup in store" in
                 match r with Some r => inr (Some r) | None => inl ErrNodeNotFound end
    | None => let! _ := require (bool_decide (runtime ≠ None)) ErrNodeNotFound in inr None
    end in
  let '(previousName, previousSource) :=
    match persisted, runtime with
    | Some r, _ => (nr_Name r, nr_Source r)
    | None, Some (_, n) => (nc_Name n, nc_Source n)
    | None, None => ("", NodeSourceManual)
    end in
  let! n := prepareNodeLocked n previousName c in
  let n := with_identifiers id previousSource n in
  let! taken := if decide (nc_Name n = previousName) then inr false
                else nodeNameTakenLocked f (nc_Name n) id c (mg_store m) in
  let! _ := require (negb taken) (ErrNameConflict (nc_Name n)) in
  let! store :=
    match persisted, mg_store m with
    | Some r, Some db =>
      let! hash := parseable (nc_URI n) in
      let! duplicate := read (ft_lookup f) (GetNodeByIdentity hash db) "lookup node identity" in
      match duplicate with
      | Some d => if decide (nr_ID d = id)
                  then let! db := call (store_UpdateNode (ft_write f) (edited_row n r) db) "update in store" in inr (Some db)
                  else inl (NodeDuplicateError (nr_ID d) (nr_Name d))
      | None => let! db := call (store_UpdateNode (ft_write f) (edited_row n r) db) "update in store" in inr (Some db)
      end
    | _, store => inr store
    end in
  inr (put (match runtime with Some (idx, _) => with_nodes (<[idx := n]> (cf_Nodes c)) c | None => c end) store, n).

(** [append(nodes[:idx], nodes[idx+1:]...)] at the first node with the id. *)
Definition drop_node (id : Z) (c : Config) : Config :=
  match nodeIndexByIDLocked id c with Some (idx, _) => with_nodes (delete idx (cf_Nodes c)) c | None => c end.

Definition SetNodeEnabledByID (f : faults) (id : Z) (enabled : bool) (m : manager) : edit manager :=
  let! c := enter f m in
  let! store :=
    match mg_store m with
    | Some db =>
      let! existing := read (ft_get f) (GetNode id db) "lookup in store" in
      match existing with
      | None => inl ErrNodeNotFound
      | Some r => let! db := call (store_UpdateNode (ft_write f) (with_enabled enabled r) db) "update in store" in inr (Some db)
      end
    | None => let! _ := require (bool_decide (nodeIndexByIDLocked id c ≠ None)) ErrNodeNotFound in inr None
    end in
  inr (put (if enabled then c else drop_node id c) store).

Definition DeleteNodeByID (f : faults) (id : Z) (m : manager) : edit manager :=
  let! c := enter f m in
  let! store :=
    match mg_store m with
    | Some db =>
      let! existing := read (ft_get f) (GetNode id db) "lookup in store" in
      let! _ := require (bool_decide (existing ≠ None)) ErrNodeNotFound in
      let! db := call (store_DeleteNode (ft_write f) id db) "delete from store" in inr (Some db)
    | None => let! _ := require (bool_decide (nodeIndexByIDLocked id c ≠ None)) ErrNodeNotFound in inr None
    end in
  inr (put (drop_node id c) store).

(** [nodeIDByName] takes and releases the lock before the operation it serves. *)
Definition nodeIDByName (f : faults) (name : string) (m : manager) : edit Z :=
  let name := TrimSpace name in
  let! _ := require (negb (bool_decide (name = ""))) ErrNodeNotFound in
  match mg_store m with
  | Some db => let! r := read (ft_get f) (GetNodeByName name db) "lookup in store" in
               match r with Some r => inr (nr_ID r) | None => inl ErrNodeNotFound end
  | None => match mg_cfg m with
            | None => inl ErrConfigUnavailable
            | Some c => match nodeIndexLocked name c with Some (_, n) => inr (nc_ID n) | None => inl ErrNodeNotFound end
            end
  end.
Definition UpdateNode (f : faults) (name : string) (n : NodeConfig) (before m : manager) : edit (manager * NodeConfig) :=
  let! id := nodeIDByName f name before in UpdateNodeByID f id n m.
Definition SetNodeEnabled (f : faults) (name : string) (enabled : bool) (before m : manager) : edit manager :=
  let! id := nodeIDByName f name before in SetNodeEnabledByID f id enabled m.
Definition DeleteNode (f : faults) (name : string) (before m : manager) : edit manager :=
  let! id := nodeIDByName f name before in DeleteNodeByID f id m.

(** ** Batches *)

(** [build] answers why the outbound of a node cannot be built. *)
Context (build : string → NodeConfig → bool → option string).

Definition validateNodeBuildLocked (n : NodeConfig) (c : Config) : edit unit :=
  match FormatTag (NodeKey n) InitialVersion with
  | Err e => inl (ErrInvalidNode e)
  | Ok tag => match build tag n (cf_SkipCertVerify c) with Some e => inl (ErrInvalidNode e) | None => inr () end
  end.

Record NodeCreateFailure := mkFailure { fl_Index : nat; fl_Name : string; fl_URI : string; fl_Err : edit_error }.
Definition nodeCreateFailure (index : nat) (n : NodeConfig) (e : edit_error) : NodeCreateFailure :=
  mkFailure index (nc_Name n) (nc_URI n) e.
Record NodeBatchResult := mkBatch { nb_Planned : list NodeConfig; nb_Created : list NodeConfig; nb_Failed : list NodeCreateFailure }.

(** The loop over the rows of the request: the names and the ports that are taken, the
    plan, the failures. *)
Record planning := mkPlanning {
  pl_reserved : gset string; pl_used : gset Z; pl_prepared : list NodeConfig; pl_failed : list NodeCreateFailure
}.
Definition fail_row (index : nat) (n : NodeConfig) (e : edit_error) (p : planning) : planning :=
  mkPlanning (pl_reserved p) (pl_used p) (pl_prepared p) (pl_failed p ++ [nodeCreateFailure index n e]).
Definition reserve_port (c : Config) (n : NodeConfig) (p : planning) : NodeConfig * planning :=
  if mp_Enabled (cf_MultiPort c) then
    let n := if decide (nc_Port n ∈ pl_used p) then with_port (nextUnreservedPortLocked (pl_used p) c) n else n in
    (n, mkPlanning (pl_reserved p) ({[nc_Port n]} ∪ pl_used p) (pl_prepared p) (pl_failed p))
  else (n, p).
Definition plan_row (c : Config) (p : planning) (row : nat * NodeConfig) : planning :=
  let '(index, raw) := row in
  match prepareNodeLocked raw "" c with
  | inl e => fail_row index raw e p
  | inr n =>
    let '(n, p) := reserve_port c n p in
    if decide (nc_Name n ∈ pl_reserved p) then fail_row index n (ErrNameConflict (nc_Name n)) p
    else match validateNodeBuildLocked n c with
         | inl e => fail_row index n e p
         | inr _ =>
           let n := with_identifiers (nc_ID n) NodeSourceManual n in
           mkPlanning ({[nc_Name n]} ∪ pl_reserved p) (pl_used p) (pl_prepared p ++ [n]) (pl_failed p)
         end
  end.
Definition plan_start (c : Config) (stored : list Node) : planning :=
  mkPlanning (list_to_set (nc_Name <$> cf_Nodes c) ∪ list_to_set (nr_Name <$> stored)) (used_ports c) [] [].
Definition plan (c : Config) (stored : list Node) (nodes : list NodeConfig) : planning :=
  foldl (plan_row c) (plan_start c stored) (imap pair nodes).

(** The outcomes of the store, in the order of the plan. *)
Definition take_outcome (acc : list NodeConfig * list NodeCreateFailure) (row : nat * (NodeConfig * NodeCreateOutcome))
    : list NodeConfig * list NodeCreateFailure :=
  let '(index, (n, out)) := row in
  match out with
  | NodeCreated id => (acc.1 ++ [with_identifiers id (nc_Source n) n], acc.2)
  | NodeDuplicate id name => (acc.1, acc.2 ++ [nodeCreateFailure index n (NodeDuplicateError id name)])
  end.

Definition CreateNodes (f : faults) (nodes : list NodeConfig) (dryRun : bool) (m : manager) : edit (manager * NodeBatchResult) :=
  let! c := enter f m in
  let! stored := match mg_store m with Some db => read (ft_list f) (nd_rows db) "list stored node names" | None => inr [] end in
  let p := plan c stored nodes in
  let prepared := pl_prepared p in
  if dryRun || bool_decide (prepared = []) then inr (m, mkBatch prepared [] (pl_failed p))
  else
    match mg_store m with
    | None => inr (put (append_nodes prepared c) None, mkBatch prepared prepared (pl_failed p))
    | Some db =>
      let! out := call (store_CreateNodes (ft_write f) (stored_node <$> prepared) db) "save batch to store" in
      let '(created, failed) := foldl take_outcome ([], pl_failed p) (imap pair (zip prepared out.2)) in
      inr (put (append_nodes created c) (Some out.1), mkBatch prepared created failed)
    end.

(** ** Histories of edits *)
Inductive edit_op :=
| Create (n : NodeConfig)
| CreateBatch (nodes : list NodeConfig) (dryRun : bool)
| Update (id : Z) (n : NodeConfig)
| SetEnabled (id : Z) (enabled : bool)
| Delete (id : Z).

Definition run_edit (f : faults) (op : edit_op) (m : manager) : edit manager :=
  match op with
  | Create n => let! r := CreateNode f n m in inr r.1
  | CreateBatch nodes dryRun => let! r := CreateNodes f nodes dryRun m in inr r.1
  | Update id n => let! r := UpdateNodeByID f id n m in inr r.1
  | SetEnabled id enabled => SetNodeEnabledByID f id enabled m
  | Delete id => DeleteNodeByID f id m
  end.

(** ** The search for a port *)
Lemma cycle_port_next port : 1 ≤ port ≤ 65535 →
  (if (port + 1) mod 2 ^ 16 =? 0 then 1 else (port + 1) mod 2 ^ 16) = 1 + port mod 65535.
Proof.
  intros Hp. destruct (decide (port = 65535)) as [->|]; [done|].
  rewrite !Z.mod_small by lia. destruct (port + 1 =? 0) eqn:H; [apply Z.eqb_eq in H|]; lia.
Qed.

Lemma cycle_port_complete fuel taken : ∀ port k, 1 ≤ port ≤ 65535 → 0 ≤ k < Z.of_nat fuel →
  taken (1 + (port - 1 + k) mod 65535) = false →
  ∃ p, cycle_port fuel taken port = Some p ∧ 1 ≤ p ≤ 65535 ∧ taken p = false.
Proof.
  induction fuel as [|fuel IH]; intros port k Hp Hk Hfree; [lia|]. cbn [cycle_port].
  destruct (taken port) eqn:Ht; cbn.
  2:{ exists port. destruct (port =? 0) eqn:H0; [apply Z.eqb_eq in H0; lia|done]. }
  change (2 ^ 16) with (2 ^ 16)%Z. rewrite cycle_port_next by done. pose proof (Z.mod_pos_bound port 65535 ltac:(lia)).
  destruct (decide (k = 0)) as [->|].
  { rewrite Z.add_0_r, Z.mod_small in Hfree by lia. replace (1 + (port - 1)) with port in Hfree by lia. congruence. }
  apply (IH _ (k - 1)); [lia|lia|].
  rewrite <-Hfree. do 2 f_equal. replace (1 + port mod 65535 - 1 + (k - 1)) with (port mod 65535 + (k - 1)) by lia.
  rewrite Zplus_mod_idemp_l. f_equal. lia.
Qed.

(** With fewer than 65535 ports taken a free one is found. *)
Lemma free_port_spec (used : gset Z) base : 0 ≤ base ≤ 65535 → Z.of_nat (size used) < 65535 →
  let p := free_port (λ p, bool_decide (p ∈ used)) base in 1 ≤ p ≤ 65535 ∧ p ∉ used.
Proof.
  intros Hb Hsize. cbn zeta. unfold free_port. set (base' := if base =? 0 then 24000 else base).
  assert (1 ≤ base' ≤ 65535) as Hb' by (unfold base'; destruct (base =? 0) eqn:H; [lia|apply Z.eqb_neq in H; lia]).
  assert (∃ q, q ∈ seqZ 1 65535 ∧ q ∉ used) as (q & Hq & Hfree).
  { destruct (decide (Exists (λ q, q ∉ used) (seqZ 1 65535))) as [Hex|Hall]; [by apply Exists_exists|].
    apply not_Exists_Forall in Hall; [|intros ?; exact _].
    assert (list_to_set (seqZ 1 65535) ⊆ used) as Hsub.
    { intros q Hq%elem_of_list_to_set. rewrite Forall_forall in Hall. by apply dec_stable, Hall. }
    apply subseteq_size in Hsub. rewrite size_list_to_set, length_seqZ in Hsub by apply NoDup_seqZ.
    exfalso. lia. }
  apply elem_of_seqZ in Hq.
  destruct (cycle_port_complete (Z.to_nat (2 ^ 16)) (λ p, bool_decide (p ∈ used)) base' ((q - base') mod 65535)) as (p & -> & Hp & Ht).
  - done.
  - pose proof (Z.mod_pos_bound (q - base') 65535 ltac:(lia)). lia.
  - apply bool_decide_eq_false. rewrite Zplus_mod_idemp_r. replace (base' - 1 + (q - base')) with (q - 1) by lia.
    rewrite Z.mod_small by lia. by replace (1 + (q - 1)) with q by lia.
  - cbn. split; [done|]. by apply bool_decide_eq_false in Ht.
Qed.

#[local] Opaque free_port.

(** ** What a prepared node is *)
Lemma choose_name_nonempty name uri cur c : choose_name name uri cur c ≠ "".
Proof. unfold choose_name. case_decide; [|done]. by case_decide. Qed.

Lemma nodeIndexLocked_None name c : nodeIndexLocked name c = None ↔ name ∉ nc_Name <$> cf_Nodes c.
Proof.
  unfold nodeIndexLocked. rewrite list_find_None, Forall_forall, list_elem_of_fmap. split.
  - intros H (n & -> & Hn). by apply (H n Hn).
  - intros H n Hn <-. apply H. by exists n.
Qed.

Lemma dress_name mp n : nc_Name (dress mp n) = nc_Name n.
Proof. unfold dress. by case_decide. Qed.

Lemma size_insert_set (x : Z) (s : gset Z) : (size ({[x]} ∪ s) ≤ S (size s))%nat.
Proof. rewrite size_union_alt, size_singleton. pose proof (subseteq_size (s ∖ {[x]}) s ltac:(set_solver)). lia. Qed.

Lemma size_list_set (l : list Z) : (size (list_to_set l : gset Z) ≤ length l)%nat.
Proof. induction l as [|x l IH]; cbn; [by rewrite size_empty|]. pose proof (size_insert_set x (list_to_set l)). lia. Qed.

Lemma used_ports_size c : Z.of_nat (size (used_ports c)) ≤ Z.of_nat (length (cf_Nodes c)).
Proof.
  unfold used_ports. apply inj_le. etrans; [apply size_list_set|]. etrans; [apply length_filter|]. by rewrite length_fmap.
Qed.

(** Ports are uint16, and some port is left for [more] nodes. *)
Definition room (more : nat) (c : Config) : Prop :=
  0 ≤ mp_BasePort (cf_MultiPort c) ≤ 65535 ∧ Z.of_nat (length (cf_Nodes c) + more) < 65535.

Lemma prepareNodeLocked_spec n cur c n' more :
  prepareNodeLocked n cur c = inr n' → 0 ≤ nc_Port n ≤ 65535 → room more c →
  nc_ID n' = nc_ID n ∧ nc_Name n' ≠ "" ∧ (nc_Name n' ∈ nc_Name <$> cf_Nodes c → cur ≠ "" ∧ nc_Name n' = cur) ∧
  (mp_Enabled (cf_MultiPort c) = true →
     1 ≤ nc_Port n' ≤ 65535 ∧ ∀ m, m ∈ cf_Nodes c → nc_Name m ≠ cur → nc_Port m ≠ nc_Port n').
Proof.
  intros Hprep Hp [Hb Hroom]. unfold prepareNodeLocked in Hprep. cbn zeta in Hprep.
  apply edit_bind_inr in Hprep as (u1 & _ & Hprep). apply edit_bind_inr in Hprep as (u2 & Hname%require_inr & Hprep).
  set (name := choose_name _ _ _ _) in *.
  assert (name ∈ nc_Name <$> cf_Nodes c → cur ≠ "" ∧ name = cur) as Hin.
  { intros Hin. apply orb_true_iff in Hname as [Hn%bool_decide_eq_true|[H1 H2]%andb_true_iff]; [by apply nodeIndexLocked_None in Hn|].
    by rewrite negb_true_iff, bool_decide_eq_false in H1; rewrite bool_decide_eq_true in H2. }
  assert (name ≠ "") as Hne by apply choose_name_nonempty.
  destruct (mp_Enabled _); [|by injection Hprep as <-]. destruct (nc_Port (with_name _ _ _) =? 0) eqn:H0; cbn in H0.
  - injection Hprep as <-. destruct (dress_same (cf_MultiPort c) (with_port (nextAvailablePortLocked c) (with_name name (TrimSpace (nc_URI n)) n)))
      as (Hport & _ & Hid & _). rewrite Hport, Hid, dress_name. cbn. split_and!; [done|done|done|].
    destruct (free_port_spec (used_ports c) (mp_BasePort (cf_MultiPort c)) Hb) as [Hr Hfree]; [pose proof (used_ports_size c); lia|].
    intros _. split; [done|]. intros m Hm _ He. apply Hfree. unfold nextAvailablePortLocked in He. rewrite <-He.
    apply elem_of_list_to_set, list_elem_of_filter. split; [rewrite He; lia|by apply list_elem_of_fmap_2].
  - apply edit_bind_inr in Hprep as (u3 & Huse%require_inr & [= <-]). apply Z.eqb_neq in H0.
    destruct (dress_same (cf_MultiPort c) (with_name name (TrimSpace (nc_URI n)) n)) as (Hport & _ & Hid & _).
    rewrite Hport, Hid, dress_name. cbn. split_and!; [done|done|done|]. intros _. split; [lia|]. intros m Hm Hcur He.
    apply negb_true_iff in Huse. unfold portInUseLocked in Huse. cbn in Huse. destruct (nc_Port n =? 0) eqn:Hz; [apply Z.eqb_eq in Hz; lia|].
    assert (existsb (λ n0, negb (bool_decide (nc_Name n0 = cur)) && (nc_Port n0 =? nc_Port n)) (cf_Nodes c) = true) as Hex; [|congruence].
    apply existsb_exists. exists m. split; [by apply list_elem_of_In|]. rewrite bool_decide_false by done. by apply Z.eqb_eq.
Qed.

(** ** The rows *)
Record rows_ok (db : node_db) : Prop := mkRowsOk {
  ro_next : 0 < nd_next db;
  ro_ids : NoDup (nr_ID <$> nd_rows db);
  ro_range : ∀ r, r ∈ nd_rows db → 0 < nr_ID r < nd_next db;
  ro_unique : ∀ r r', r ∈ nd_rows db → r' ∈ nd_rows db → nr_ID r ≠ nr_ID r' → collides r r' = false
}.

Lemma collides_sym r r' : collides r r' = collides r' r.
Proof.
  unfold collides. f_equal; [by apply bool_decide_ext|]. apply eq_iff_eq_true. rewrite !andb_true_iff, !negb_true_iff, !bool_decide_eq_false, !bool_decide_eq_true.
  naive_solver congruence.
Qed.

Lemma find_row_Some P db r : find_row P db = Some r → r ∈ nd_rows db ∧ P r = true.
Proof.
  unfold find_row. destruct (list_find _ _) as [[i r0]|] eqn:H; [|done]. intros [= <-].
  apply list_find_Some in H as (H & HP & _). split; [by eapply list_elem_of_lookup_2|done].
Qed.

Lemma GetNode_Some id db r : GetNode id db = Some r → r ∈ nd_rows db ∧ nr_ID r = id.
Proof. intros [H ?%bool_decide_eq_true]%find_row_Some. done. Qed.

Lemma row_by_id db r r' : rows_ok db → r ∈ nd_rows db → r' ∈ nd_rows db → nr_ID r = nr_ID r' → r = r'.
Proof.
  intros Hok [i Hi]%list_elem_of_lookup [j Hj]%list_elem_of_lookup He.
  assert (i = j) as ->; [|congruence]. apply (NoDup_lookup (nr_ID <$> nd_rows db) i j (nr_ID r)); [by apply (ro_ids db Hok)|by rewrite list_lookup_fmap, Hi|by rewrite list_lookup_fmap, Hj, He].
Qed.

Lemma createNode_ok db r db' id : rows_ok db → createNode r db = Some (db', id) →
  rows_ok db' ∧ id = nd_next db ∧ nd_rows db' = nd_rows db ++ [with_id id r] ∧ nd_next db' = nd_next db + 1.
Proof.
  intros Hok. unfold createNode. destruct (existsb _ _) eqn:Hex; [done|]. intros [= <- <-]. split; [|done].
  assert (∀ r', r' ∈ nd_rows db → collides r r' = false) as Hnew.
  { intros r' Hr'. apply not_true_iff_false. intros Hc. apply not_true_iff_false in Hex. apply Hex, existsb_exists. exists r'.
    split; [by apply list_elem_of_In|done]. }
  assert (∀ r', r' ∈ nd_rows db → 0 < nr_ID r' < nd_next db) as Hrange by apply (ro_range db Hok).
  destruct Hok as [Hnext Hids _ Huniq]. split; cbn.
  - lia.
  - rewrite fmap_app. apply NoDup_app. split_and!; [done| |by apply NoDup_singleton].
    intros x Hx%list_elem_of_fmap Hs. destruct Hx as (r' & -> & Hr'). cbn in Hs. apply list_elem_of_singleton in Hs.
    specialize (Hrange r' Hr'). lia.
  - intros r' [Hr' | ->%list_elem_of_singleton]%elem_of_app; [specialize (Hrange r' Hr')|]; cbn; lia.
  - intros a b [Ha| ->%list_elem_of_singleton]%elem_of_app [Hb| ->%list_elem_of_singleton]%elem_of_app Hne; [by apply Huniq| | |done].
    + rewrite collides_sym. by apply (Hnew a).
    + by apply (Hnew b).
Qed.

Lemma store_UpdateNode_ok db fault r old db' : rows_ok db → old ∈ nd_rows db → nr_ID old = nr_ID r →
  store_UpdateNode fault r db = Some db' →
  rows_ok db' ∧ updated (populateNodeIdentity r) old ∈ nd_rows db' ∧ (∀ r', r' ∈ nd_rows db → nr_ID r' ≠ nr_ID r → r' ∈ nd_rows db').
Proof.
  intros Hok Hold Hid. unfold store_UpdateNode. destruct (_ || _) eqn:Hguard; [done|]. intros [= <-].
  apply orb_false_iff in Hguard as [_ Hex].
  set (p := populateNodeIdentity r) in *. change (nr_ID p) with (nr_ID r) in *.
  assert (∀ r', r' ∈ nd_rows db → nr_ID r' ≠ nr_ID r → collides p r' = false) as Hnew.
  { intros r' Hr' Hne. apply not_true_iff_false. intros Hc. apply not_true_iff_false in Hex. apply Hex, existsb_exists. exists r'.
    split; [by apply list_elem_of_In|]. by rewrite bool_decide_false. }
  assert (∀ r', nr_ID (if decide (nr_ID r' = nr_ID r) then updated p r' else r') = nr_ID r') as Hsame by (intros; by case_decide).
  split; [|split].
  - split; cbn.
    + apply (ro_next db Hok).
    + rewrite <-list_fmap_compose. rewrite (list_fmap_ext _ nr_ID); [apply (ro_ids db Hok)|]. intros i r' _. apply Hsame.
    + intros r' (r0 & -> & Hr0)%list_elem_of_fmap. rewrite Hsame. by apply (ro_range db Hok).
    + intros a b (a0 & -> & Ha)%list_elem_of_fmap (b0 & -> & Hb)%list_elem_of_fmap. rewrite !Hsame. intros Hne.
      case_decide; case_decide; [congruence|by apply (Hnew b0)|rewrite collides_sym; by apply (Hnew a0)|by apply (ro_unique db Hok)].
  - apply list_elem_of_fmap. exists old. by rewrite decide_True.
  - intros r' Hr' Hne. apply list_elem_of_fmap. exists r'. by rewrite decide_False.
Qed.

Lemma store_DeleteNode_ok db fault id db' : rows_ok db → store_DeleteNode fault id db = Some db' →
  rows_ok db' ∧ ∀ r, r ∈ nd_rows db' ↔ r ∈ nd_rows db ∧ nr_ID r ≠ id.
Proof.
  intros [Hn Hids Hrange Hu]. unfold store_DeleteNode. destruct (_ || _); [done|]. intros [= <-].
  assert (∀ r, r ∈ filter (λ r, nr_ID r ≠ id) (nd_rows db) ↔ r ∈ nd_rows db ∧ nr_ID r ≠ id) as Hin by (intros r; rewrite list_elem_of_filter; naive_solver).
  split; [|done]. split; cbn; [done| |intros r [? _]%Hin; by apply Hrange|intros a b [? _]%Hin [? _]%Hin; by apply Hu].
  eapply sublist_NoDup; [exact Hids|]. apply fmap_sublist, sublist_filter.
Qed.

(** ** The configuration and the table in step *)

(** What the runtime runs of a stored node. *)
Definition matched (n : NodeConfig) (r : Node) : Prop :=
  nr_ID r = nc_ID n ∧ nr_Enabled r = true ∧ nr_URI r = nc_URI n ∧ nr_Name r = nc_Name n ∧ nr_Source r = nc_Source n.

(** Names are distinct and known, and so are the ports when nodes have them. *)
Record listed (multi : bool) (nodes : list NodeConfig) : Prop := mkListed {
  li_names : NoDup (nc_Name <$> nodes);
  li_named : "" ∉ nc_Name <$> nodes;
  li_ports : multi = true → NoDup (nc_Port <$> nodes) ∧ ∀ n, n ∈ nodes → 1 ≤ nc_Port n ≤ 65535
}.

Record in_step (c : Config) (db : node_db) : Prop := mkInStep {
  st_rows : rows_ok db;
  st_nodes : ∀ n, n ∈ cf_Nodes c → ∃ r, r ∈ nd_rows db ∧ matched n r;
  st_ids : NoDup (nc_ID <$> cf_Nodes c);
  st_listed : listed (mp_Enabled (cf_MultiPort c)) (cf_Nodes c)
}.

Lemma NoDup_insert_fresh {A} (l : list A) i x x' : NoDup l → l !! i = Some x →
  (∀ j y, j ≠ i → l !! j = Some y → y ≠ x') → NoDup (<[i := x']> l).
Proof.
  intros Hl Hi Hother. apply NoDup_alt. intros a b y Ha Hb. apply lookup_lt_Some in Hi.
  destruct (decide (a = i)) as [->|Hna], (decide (b = i)) as [->|Hnb]; [done|..].
  - rewrite list_lookup_insert_eq in Ha by done. injection Ha as <-. rewrite list_lookup_insert_ne in Hb by done.
    by destruct (Hother b x').
  - rewrite list_lookup_insert_eq in Hb by done. injection Hb as <-. rewrite list_lookup_insert_ne in Ha by done.
    by destruct (Hother a x').
  - rewrite list_lookup_insert_ne in Ha, Hb by done. by eapply NoDup_lookup.
Qed.

Lemma fmap_lookup_NoDup {A B} (f : A → B) (l : list A) i j x y : NoDup (f <$> l) → l !! i = Some x → l !! j = Some y → f x = f y → i = j.
Proof. intros Hl Hi Hj He. eapply (NoDup_lookup (f <$> l)); [done|by rewrite list_lookup_fmap, Hi|by rewrite list_lookup_fmap, Hj, He]. Qed.

(** A key per node that new nodes do not share. *)
Lemma NoDup_fmap_app {A B} (f : A → B) (l k : list A) : NoDup (f <$> l) → NoDup (f <$> k) →
  (∀ x, x ∈ k → f x ∉ f <$> l) → NoDup (f <$> (l ++ k)).
Proof.
  intros Hl Hk Hd. rewrite fmap_app. apply NoDup_app. split_and!; [done| |done].
  intros y Hy (x & -> & Hx)%list_elem_of_fmap. by apply (Hd x Hx).
Qed.

Lemma in_step_append c db db' new : in_step c db → rows_ok db' → (∀ r, r ∈ nd_rows db → r ∈ nd_rows db') →
  (∀ n, n ∈ new → (∃ r, r ∈ nd_rows db' ∧ matched n r) ∧ nc_ID n ∉ nc_ID <$> cf_Nodes c ∧ nc_Name n ≠ "" ∧ nc_Name n ∉ nc_Name <$> cf_Nodes c ∧
     (mp_Enabled (cf_MultiPort c) = true → 1 ≤ nc_Port n ≤ 65535 ∧ nc_Port n ∉ nc_Port <$> cf_Nodes c)) →
  NoDup (nc_ID <$> new) → NoDup (nc_Name <$> new) → (mp_Enabled (cf_MultiPort c) = true → NoDup (nc_Port <$> new)) →
  in_step (append_nodes new c) db'.
Proof.
  intros [Hrows Hnodes Hids [Hnames Hnamed Hports]] Hrows' Hsub Hnew Hnid Hnname Hnport. split; cbn; [done| | |split; [| |intros Hm; split]].
  - intros n [Hn|Hn]%elem_of_app; [|by apply Hnew]. destruct (Hnodes n Hn) as (r & Hr & Hmatch). exists r. split; [by apply Hsub|done].
  - apply NoDup_fmap_app; [done|done|]. intros n Hn. by destruct (Hnew n Hn) as (_ & ? & _).
  - apply NoDup_fmap_app; [done|done|]. intros n Hn. by destruct (Hnew n Hn) as (_ & _ & _ & ? & _).
  - rewrite fmap_app. intros [?|(n & He & Hn)%list_elem_of_fmap]%elem_of_app; [done|]. by destruct (Hnew n Hn) as (_ & _ & ? & _).
  - apply NoDup_fmap_app; [by apply Hports|by apply Hnport|]. intros n Hn. destruct (Hnew n Hn) as (_ & _ & _ & _ & H). by destruct (H Hm).
  - intros n [Hn|Hn]%elem_of_app; [by apply Hports|]. destruct (Hnew n Hn) as (_ & _ & _ & _ & H). by destruct (H Hm).
Qed.

Lemma in_step_insert c db db' idx old n r : in_step c db → rows_ok db' → cf_Nodes c !! idx = Some old → nc_ID n = nc_ID old →
  (∀ r', r' ∈ nd_rows db → nr_ID r' ≠ nc_ID old → r' ∈ nd_rows db') → r ∈ nd_rows db' → matched n r →
  nc_Name n ≠ "" → (nc_Name n = nc_Name old ∨ nc_Name n ∉ nc_Name <$> cf_Nodes c) →
  (mp_Enabled (cf_MultiPort c) = true → 1 ≤ nc_Port n ≤ 65535 ∧ ∀ m, m ∈ cf_Nodes c → nc_Name m ≠ nc_Name old → nc_Port m ≠ nc_Port n) →
  in_step (with_nodes (<[idx := n]> (cf_Nodes c)) c) db'.
Proof.
  intros [Hrows Hnodes Hids [Hnames Hnamed Hports]] Hrows' Hidx Hid Hkeep Hr Hmatch Hne Hname Hport.
  assert (∀ {B} (f : NodeConfig → B), NoDup (f <$> cf_Nodes c) → (∀ j m, j ≠ idx → cf_Nodes c !! j = Some m → f m ≠ f n) →
            NoDup (f <$> <[idx := n]> (cf_Nodes c))) as Hins.
  { intros B f Hf Hother. rewrite list_fmap_insert. eapply NoDup_insert_fresh; [done|by rewrite list_lookup_fmap, Hidx|].
    intros j y Hj Hy. rewrite list_lookup_fmap in Hy. destruct (cf_Nodes c !! j) as [m|] eqn:Hm; [|done]. injection Hy as <-. by apply (Hother j). }
  assert (∀ m, m ∈ <[idx := n]> (cf_Nodes c) → m = n ∨ ∃ j, j ≠ idx ∧ cf_Nodes c !! j = Some m) as Hin.
  { intros m [j Hj]%list_elem_of_lookup. destruct (decide (j = idx)) as [->|Hne'].
    - rewrite list_lookup_insert_eq in Hj by (by eapply lookup_lt_Some). left. congruence.
    - rewrite list_lookup_insert_ne in Hj by done. eauto. }
  split; cbn; [done| | |split; [| |intros Hm; split]].
  - intros m [-> |(j & Hj & Hm)]%Hin; [by exists r|]. destruct (Hnodes m) as (r' & Hr' & Hmm); [by eapply list_elem_of_lookup_2|].
    exists r'. split; [|done]. apply Hkeep; [done|]. destruct Hmm as [-> _]. intros He. apply Hj. by eapply (fmap_lookup_NoDup nc_ID).
  - apply Hins; [done|]. intros j m Hj Hm He. apply Hj. eapply (fmap_lookup_NoDup nc_ID); [done|done|exact Hidx|congruence].
  - apply Hins; [done|]. intros j m Hj Hm He. destruct Hname as [Hn|Hn].
    + apply Hj. eapply (fmap_lookup_NoDup nc_Name); [exact Hnames|exact Hm|exact Hidx|congruence].
    + apply Hn. rewrite <-He. apply list_elem_of_fmap_2. by eapply list_elem_of_lookup_2.
  - intros (m & He & Hm)%list_elem_of_fmap. apply Hin in Hm as [-> |(j & _ & Hm)]; [done|]. apply Hnamed. rewrite He.
    apply list_elem_of_fmap_2. by eapply list_elem_of_lookup_2.
  - apply Hins; [by apply Hports|]. intros j m Hj Hmj. apply (Hport Hm); [by eapply list_elem_of_lookup_2|].
    intros He. apply Hj. eapply (fmap_lookup_NoDup nc_Name); [exact Hnames|exact Hmj|exact Hidx|done].
  - intros m [-> |(j & _ & Hmj)]%Hin; [by apply Hport|]. apply (Hports Hm). by eapply list_elem_of_lookup_2.
Qed.

Lemma nodeIndexByIDLocked_Some id c idx n : nodeIndexByIDLocked id c = Some (idx, n) → cf_Nodes c !! idx = Some n ∧ nc_ID n = id.
Proof. unfold nodeIndexByIDLocked. destruct (id <=? 0); [done|]. by intros (? & ? & _)%list_find_Some. Qed.

Lemma nodeIndexByIDLocked_None id c : 0 < id → nodeIndexByIDLocked id c = None → ∀ n, n ∈ cf_Nodes c → nc_ID n ≠ id.
Proof.
  unfold nodeIndexByIDLocked. destruct (id <=? 0) eqn:H; [apply Z.leb_le in H; lia|]. rewrite list_find_None, Forall_forall. naive_solver.
Qed.

Lemma drop_node_spec id c db : in_step c db → 0 < id →
  ∀ n, n ∈ cf_Nodes (drop_node id c) → n ∈ cf_Nodes c ∧ nc_ID n ≠ id.
Proof.
  intros [_ _ Hids _] Hid n. unfold drop_node. destruct (nodeIndexByIDLocked id c) as [[idx m]|] eqn:H.
  - apply nodeIndexByIDLocked_Some in H as [Hidx Hm]. cbn. rewrite delete_take_drop. intros Hn.
    assert (∃ j, j ≠ idx ∧ cf_Nodes c !! j = Some n) as (j & Hj & Hl).
    { apply elem_of_app in Hn as [Hn|Hn]; apply list_elem_of_lookup in Hn as [j Hj].
      - apply lookup_take_Some in Hj as [Hj ?]. exists j. split; [lia|done].
      - rewrite lookup_drop in Hj. exists (S idx + j)%nat. split; [lia|done]. }
    split; [by eapply list_elem_of_lookup_2|]. intros He. apply Hj. eapply (fmap_lookup_NoDup nc_ID); [done|done|exact Hidx|congruence].
  - intros Hn. split; [done|]. by eapply nodeIndexByIDLocked_None.
Qed.

Lemma drop_node_sublist id c : cf_Nodes (drop_node id c) `sublist_of` cf_Nodes c ∧ cf_MultiPort (drop_node id c) = cf_MultiPort c.
Proof. unfold drop_node. destruct (nodeIndexByIDLocked id c) as [[idx m]|]; split; [apply sublist_delete|done..]. Qed.

Lemma listed_sublist multi nodes nodes' : nodes' `sublist_of` nodes → listed multi nodes → listed multi nodes'.
Proof.
  intros Hs [Hn Hne Hp]. split; [by eapply sublist_NoDup, fmap_sublist| |].
  - intros Hin. apply Hne. by eapply elem_of_submseteq, sublist_submseteq, fmap_sublist.
  - intros [Hp1 Hp2]%Hp. split; [by eapply sublist_NoDup, fmap_sublist|]. intros n Hn'. apply Hp2.
    by eapply elem_of_submseteq, sublist_submseteq.
Qed.

(** A node that leaves the runtime, whatever happens to its row. *)
Lemma in_step_drop c db db' id : in_step c db → rows_ok db' → 0 < id →
  (∀ r, r ∈ nd_rows db → nr_ID r ≠ id → r ∈ nd_rows db') → in_step (drop_node id c) db'.
Proof.
  intros Hin Hrows' Hid Hkeep. destruct (drop_node_sublist id c) as [Hsub Hmp]. pose proof (drop_node_spec id c db Hin Hid) as Hdrop.
  destruct Hin as [Hrows Hnodes Hids Hl]. split; [done| | |].
  - intros n [Hn Hne]%Hdrop. destruct (Hnodes n Hn) as (r & Hr & Hm). exists r. split; [|done]. apply Hkeep; [done|].
    destruct Hm as [-> _]. done.
  - by eapply sublist_NoDup, fmap_sublist.
  - rewrite Hmp. by eapply listed_sublist.
Qed.

(** ** The plan of a batch *)
Record plan_ok (c : Config) (k : nat) (p : planning) : Prop := mkPlanOk {
  po_size : (size (pl_used p) ≤ length (cf_Nodes c) + k)%nat;
  po_cfg : ∀ n, n ∈ cf_Nodes c → nc_Name n ∈ pl_reserved p ∧ (0 < nc_Port n → nc_Port n ∈ pl_used p);
  po_reserved : ∀ n, n ∈ pl_prepared p → nc_Name n ∈ pl_reserved p;
  po_names : NoDup (nc_Name <$> pl_prepared p);
  po_new : ∀ n, n ∈ pl_prepared p → nc_Name n ≠ "" ∧ nc_Name n ∉ nc_Name <$> cf_Nodes c;
  po_ports : mp_Enabled (cf_MultiPort c) = true →
    NoDup (nc_Port <$> pl_prepared p) ∧
    ∀ n, n ∈ pl_prepared p → nc_Port n ∈ pl_used p ∧ 1 ≤ nc_Port n ≤ 65535 ∧ nc_Port n ∉ nc_Port <$> cf_Nodes c
}.

Lemma plan_start_ok c stored : plan_ok c 0 (plan_start c stored).
Proof.
  split; cbn; try (by intros n ?%elem_of_nil) || apply NoDup_nil_2.
  - pose proof (used_ports_size c). lia.
  - intros n Hn. split; [apply elem_of_union; left; by apply elem_of_list_to_set, list_elem_of_fmap_2|].
    intros Hp. apply elem_of_list_to_set, list_elem_of_filter. split; [done|by apply list_elem_of_fmap_2].
  - intros _. split; [apply NoDup_nil_2|by intros n ?%elem_of_nil].
Qed.

Lemma fail_row_ok c k p i n e : plan_ok c k p → plan_ok c k (fail_row i n e p).
Proof. by intros []. Qed.

Lemma plan_ok_mono c k k' p : plan_ok c k p → (k ≤ k')%nat → plan_ok c k' p.
Proof. intros [] ?. split; [lia|done..]. Qed.

(** The port of a row is outside everything taken, and is taken from then on. *)
Lemma reserve_port_ok c k p n n' p' more : plan_ok c k p → room more c → (k < more)%nat →
  reserve_port c n p = (n', p') →
  (mp_Enabled (cf_MultiPort c) = true → 1 ≤ nc_Port n ≤ 65535) →
  nc_Name n' = nc_Name n ∧ plan_ok c (S k) p' ∧ pl_reserved p' = pl_reserved p ∧ pl_prepared p' = pl_prepared p ∧
  (mp_Enabled (cf_MultiPort c) = true → 1 ≤ nc_Port n' ≤ 65535 ∧ nc_Port n' ∉ pl_used p ∧ nc_Port n' ∈ pl_used p').
Proof.
  intros Hok [Hb Hroom] Hk. unfold reserve_port. destruct (mp_Enabled _) eqn:Hm.
  2:{ intros [= <- <-] _. split_and!; [done|apply (plan_ok_mono _ k); [done|lia]|done..]. }
  set (n1 := if decide _ then _ else _). intros [= <- <-] Hrange. specialize (Hrange eq_refl).
  assert (nc_Name n1 = nc_Name n ∧ 1 ≤ nc_Port n1 ≤ 65535 ∧ nc_Port n1 ∉ pl_used p) as (Hname & Hr & Hfresh).
  { unfold n1. case_decide as Hin; [|done]. split; [done|]. cbn.
    apply free_port_spec; [done|]. pose proof (po_size c k p Hok). lia. }
  destruct Hok as [Hsize Hcfg Hres Hnames Hnew Hports]. split_and!; [done| |done|done|].
  - split; cbn; [|intros m Hm'; destruct (Hcfg m Hm') as [? ?]; split; [done|set_solver]|done..|].
    + pose proof (size_insert_set (nc_Port n1) (pl_used p)). lia.
    + intros _. destruct (Hports Hm) as [? Hp]. split; [done|]. intros m Hm'. destruct (Hp m Hm') as (? & ? & ?). split_and!; [set_solver|lia|lia|done].
  - intros _. split_and!; [lia|lia|done|cbn; set_solver].
Qed.

Lemma plan_row_ok c k p i raw more : plan_ok c k p → room more c → (k < more)%nat → 0 ≤ nc_Port raw ≤ 65535 →
  plan_ok c (S k) (plan_row c p (i, raw)).
Proof.
  intros Hok Hroom Hk Hraw. unfold plan_row. destruct (prepareNodeLocked raw "" c) as [e|n] eqn:Hprep.
  { apply (plan_ok_mono _ k); [by apply fail_row_ok|lia]. }
  destruct (prepareNodeLocked_spec raw "" c n more Hprep Hraw Hroom) as (_ & Hne & Hname & Hport).
  destruct (reserve_port c n p) as [n1 p1] eqn:Hres.
  destruct (reserve_port_ok c k p n n1 p1 more Hok Hroom Hk Hres) as (Hn1 & Hok1 & Hr1 & Hp1 & Hport1); [by intros Hm; apply Hport|].
  case_decide as Htaken; [by apply fail_row_ok|]. destruct (validateNodeBuildLocked n1 c) as [e|u]; [by apply fail_row_ok|].
  assert (nc_Name n1 ∉ nc_Name <$> cf_Nodes c) as Hnc by (rewrite Hn1; intros [? _]%Hname; done).
  pose proof (po_cfg c k p Hok) as Hcfg0. destruct Hok1 as [Hsize Hcfg Hreserved Hnames Hnew Hports]. split; cbn.
  - done.
  - intros m Hm. destruct (Hcfg m Hm). split; [set_solver|done].
  - intros m [Hm| ->%list_elem_of_singleton]%elem_of_app; [specialize (Hreserved m Hm); set_solver|cbn; set_solver].
  - apply NoDup_fmap_app; [done|apply NoDup_singleton|]. intros m ->%list_elem_of_singleton. cbn.
    intros (m & He & Hm)%list_elem_of_fmap. apply Htaken. rewrite He. by apply Hreserved.
  - intros m [Hm| ->%list_elem_of_singleton]%elem_of_app; [by apply Hnew|]. cbn. split; [by rewrite Hn1|done].
  - intros Hm. destruct (Hports Hm) as [Hnd Hall]. destruct (Hport1 Hm) as (Hr & Hfresh & Hin). split.
    + apply NoDup_fmap_app; [done|apply NoDup_singleton|]. intros m ->%list_elem_of_singleton. cbn.
      intros (m & He & Hm')%list_elem_of_fmap. rewrite Hp1 in Hm'. apply Hfresh. rewrite He. by apply (po_ports c k p Hok Hm).
    + intros m [Hm'| ->%list_elem_of_singleton]%elem_of_app; [by apply Hall|]. cbn. split_and!; [done|lia|lia|].
      intros (m & He & Hm')%list_elem_of_fmap. apply Hfresh. rewrite He. apply Hcfg0; [done|]. lia.
Qed.

Lemma plan_rows_ok c more rows : ∀ k p, plan_ok c k p → room more c → (k + length rows ≤ more)%nat →
  (∀ row, row ∈ rows → 0 ≤ nc_Port row.2 ≤ 65535) → plan_ok c (k + length rows) (foldl (plan_row c) p rows).
Proof.
  induction rows as [|[i raw] rows IH]; intros k p Hok Hroom Hk Hports; cbn; [by rewrite Nat.add_0_r|].
  cbn in Hk. rewrite <-Nat.add_succ_comm. apply IH; [|done|lia|].
  - eapply plan_row_ok; [done|done|lia|]. apply (Hports (i, raw)). left.
  - intros row Hrow. apply Hports. by right.
Qed.

Lemma plan_spec c stored nodes : room (length nodes) c → (∀ n, n ∈ nodes → 0 ≤ nc_Port n ≤ 65535) →
  plan_ok c (length nodes) (plan c stored nodes).
Proof.
  intros Hroom Hports. unfold plan. rewrite <-(length_imap pair nodes) at 1.
  apply (plan_rows_ok c (length nodes) _ 0%nat); [apply plan_start_ok|done|by rewrite length_imap|].
  intros row Hrow. apply elem_of_lookup_imap in Hrow as (i & n & -> & Hn). apply Hports. by eapply list_elem_of_lookup_2.
Qed.

(** ** What a batch stores *)
Definition created_node (row : NodeConfig * NodeCreateOutcome) : option NodeConfig :=
  match row.2 with NodeCreated id => Some (with_identifiers id (nc_Source row.1) row.1) | NodeDuplicate _ _ => None end.

Lemma take_outcomes rows : ∀ (g : nat → nat) cr fl,
  (foldl take_outcome (cr, fl) (imap (λ j, pair (g j)) rows)).1 = cr ++ omap created_node rows.
Proof.
  induction rows as [|[n out] rows IH]; intros g cr fl; cbn; [by rewrite app_nil_r|].
  change ((λ j, pair (g j)) ∘ S) with (λ j, @pair nat (NodeConfig * NodeCreateOutcome) ((g ∘ S) j)).
  destruct out as [id|id name]; cbn; rewrite IH; [by rewrite <-app_assoc|done].
Qed.

Record stored_batch (db db' : node_db) (ns created : list NodeConfig) : Prop := mkStoredBatch {
  sb_rows : rows_ok db';
  sb_next : nd_next db ≤ nd_next db';
  sb_keep : ∀ r, r ∈ nd_rows db → r ∈ nd_rows db';
  sb_created : ∀ n, n ∈ created → nd_next db ≤ nc_ID n ∧ ∃ r, r ∈ nd_rows db' ∧ matched n r;
  sb_ids : NoDup (nc_ID <$> created);
  sb_names : (nc_Name <$> created) `sublist_of` (nc_Name <$> ns);
  sb_ports : (nc_Port <$> created) `sublist_of` (nc_Port <$> ns)
}.

Lemma create_outcomes ns : ∀ db, rows_ok db →
  ∃ db' outs, (∀ acc, foldl create_outcome (db, acc) (stored_node <$> ns) = (db', acc ++ outs)) ∧
    stored_batch db db' ns (omap created_node (zip ns outs)).
Proof.
  induction ns as [|n ns IH]; intros db Hok.
  { exists db, []. split; [intros acc; cbn; by rewrite app_nil_r|]. split; cbn; try done; [by intros ? ?%elem_of_nil|apply NoDup_nil_2]. }
  destruct (createNode (populateNodeIdentity (stored_node n)) db) as [[db1 id]|] eqn:Hc.
  - destruct (createNode_ok _ _ _ _ Hok Hc) as (Hok1 & Hid & Hrows & Hnext). destruct (IH db1 Hok1) as (db' & outs & Hf & Hb).
    exists db', (NodeCreated id :: outs). split.
    { intros acc. cbn [fmap list_fmap foldl]. unfold create_outcome at 2. cbn [fst snd]. rewrite Hc, Hf, <-app_assoc. done. }
    destruct Hb as [Hr Hn Hk Hcr Hids Hnames Hports]. split; cbn.
    + done.
    + lia.
    + intros r Hr'. apply Hk. rewrite Hrows. apply elem_of_app. by left.
    + intros m [-> |Hm]%elem_of_cons; [|destruct (Hcr m Hm) as [? ?]; split; [lia|done]]. cbn. split; [lia|].
      exists (with_id id (populateNodeIdentity (stored_node n))). split; [|done]. apply Hk. rewrite Hrows. apply elem_of_app. right. by left.
    + apply NoDup_cons. split; [|done]. intros (m & He & Hm)%list_elem_of_fmap. cbn in He. destruct (Hcr m Hm) as [? _]. lia.
    + by apply sublist_skip.
    + by apply sublist_skip.
  - destruct (IH db Hok) as (db' & outs & Hf & Hb).
    destruct (existingNodeConflict (populateNodeIdentity (stored_node n)) db) as [eid ename] eqn:He.
    exists db', (NodeDuplicate eid ename :: outs). split.
    { intros acc. cbn [fmap list_fmap foldl]. unfold create_outcome at 2. cbn [fst snd]. rewrite Hc, He, Hf, <-app_assoc. done. }
    destruct Hb as [Hr Hn Hk Hcr Hids Hnames Hports]. split; cbn; [done..| |]; by apply sublist_cons.
Qed.

(** ** Every edit keeps the configuration and the table in step *)
Definition edit_ports (op : edit_op) : list Z :=
  match op with Create n | Update _ n => [nc_Port n] | CreateBatch nodes _ => nc_Port <$> nodes | SetEnabled _ _ | Delete _ => [] end.
(** The ports of the request are uint16, and the ports do not run out. *)
Definition sized (op : edit_op) (c : Config) : Prop := (∀ p, p ∈ edit_ports op → 0 ≤ p ≤ 65535) ∧ room (length (edit_ports op)) c.

Definition kept (m : manager) : Prop := ∃ c db, m = put c (Some db) ∧ in_step c db.

Lemma enter_put f c store r : enter f (put c store) = inr r → r = c.
Proof. unfold enter. intros (u & _ & [= <-])%edit_bind_inr. done. Qed.

Lemma read_inr {A} fault (a : A) name r : read fault a name = inr r → r = a.
Proof. unfold read, call. destruct fault; [done|]. by intros [= <-]. Qed.

Lemma call_inr {A} (r : option A) name a : call r name = inr a → r = Some a.
Proof. unfold call. destruct r; [by intros [= <-]|done]. Qed.

Lemma room_less more more' c : room more c → (more' ≤ more)%nat → room more' c.
Proof. intros [? ?] ?. split; [done|lia]. Qed.

Lemma Create_kept f n c db m' n' : in_step c db → 0 ≤ nc_Port n ≤ 65535 → room 1 c →
  CreateNode f n (put c (Some db)) = inr (m', n') → kept m'.
Proof.
  intros Hin Hp Hroom (c0 & ->%enter_put & (n1 & Hprep & Hrest)%edit_bind_inr)%edit_bind_inr. cbn [mg_store put] in Hrest.
  apply edit_bind_inr in Hrest as (hash & _ & Hrest). apply edit_bind_inr in Hrest as (ex & _ & Hrest).
  destruct ex as [r|]; [done|]. destruct (store_CreateNode _ _ db) as [[db' id]|] eqn:Hc.
  2:{ by destruct (if ft_again f then None else _). }
  injection Hrest as <- <-. unfold store_CreateNode in Hc. destruct (ft_write f); [done|].
  destruct (createNode_ok _ _ _ _ (st_rows c db Hin) Hc) as (Hok & -> & Hrows & _).
  destruct (prepareNodeLocked_spec n "" c n1 1 Hprep Hp Hroom) as (_ & Hne & Hname & Hport).
  assert (nc_Name n1 ∉ nc_Name <$> cf_Nodes c) as Hfresh by (intros [? _]%Hname; done).
  eexists _, db'. split; [reflexivity|]. apply (in_step_append c db); [done|done| | |apply NoDup_singleton|apply NoDup_singleton|intros _; apply NoDup_singleton].
  - intros r Hr. rewrite Hrows. apply elem_of_app. by left.
  - intros m ->%list_elem_of_singleton. cbn. split_and!; [| |done|done|].
    + eexists. split; [rewrite Hrows; apply elem_of_app; right; by left|]. done.
    + intros (m & He & Hm)%list_elem_of_fmap. destruct (st_nodes c db Hin m Hm) as (r & Hr & Hmatch & _).
      pose proof (ro_range db (st_rows c db Hin) r Hr). lia.
    + intros Hmulti. destruct (Hport Hmulti) as [Hr Hother]. split; [done|]. intros (m & He & Hm)%list_elem_of_fmap.
      apply (Hother m Hm); [|done]. intros Hempty. apply (li_named _ _ (st_listed c db Hin)). rewrite <-Hempty. by apply list_elem_of_fmap_2.
Qed.

Lemma CreateBatch_kept f nodes dryRun c db m' res : in_step c db → (∀ n, n ∈ nodes → 0 ≤ nc_Port n ≤ 65535) → room (length nodes) c →
  CreateNodes f nodes dryRun (put c (Some db)) = inr (m', res) → kept m'.
Proof.
  intros Hin Hp Hroom (c0 & ->%enter_put & Hrest)%edit_bind_inr. apply edit_bind_inr in Hrest as (stored & _ & Hrest).
  cbn zeta in Hrest. pose proof (plan_spec c stored nodes Hroom Hp) as [_ _ _ Hnames Hnew Hports]. set (p := plan c stored nodes) in *.
  destruct (dryRun || _); [injection Hrest as <- _; by exists c, db|]. cbn [mg_store put] in Hrest.
  apply edit_bind_inr in Hrest as ([db' outs] & Hcall%call_inr & Hrest).
  unfold store_CreateNodes in Hcall. destruct (ft_write f && _); [done|]. injection Hcall as Hcall.
  destruct (create_outcomes (pl_prepared p) db (st_rows c db Hin)) as (db1 & outs1 & Hf & [Hr Hnx Hk Hcr Hids Hsn Hsp]).
  rewrite Hf in Hcall. injection Hcall as -> <-. cbn [snd fst app] in Hrest.
  pose proof (take_outcomes (zip (pl_prepared p) outs1) id [] (pl_failed p)) as Htake.
  change (λ j, @pair nat (NodeConfig * NodeCreateOutcome) (id j)) with (@pair nat (NodeConfig * NodeCreateOutcome)) in Htake.
  destruct (foldl take_outcome _ _) as [created failed]. cbn in Htake. subst created. injection Hrest as <- _.
  assert (∀ n, n ∈ omap created_node (zip (pl_prepared p) outs1) → ∃ n0, n0 ∈ pl_prepared p ∧ nc_Name n = nc_Name n0 ∧ nc_Port n = nc_Port n0) as Hfrom.
  { intros n ([n0 out] & Hz & Hn)%list_elem_of_omap. exists n0. split; [by apply elem_of_zip_l in Hz|].
    destruct out; [|done]. by injection Hn as <-. }
  eexists _, db'. split; [reflexivity|]. apply (in_step_append c db); [done..| |done| |].
  - intros n Hn. destruct (Hcr n Hn) as [Hge Hmatch]. destruct (Hfrom n Hn) as (n0 & Hn0 & -> & ->). destruct (Hnew n0 Hn0) as [Hne Hnn].
    split_and!; [done| |done|done|intros Hm; by apply Hports]. intros (m & He & Hm)%list_elem_of_fmap.
    destruct (st_nodes c db Hin m Hm) as (r & Hr' & Hid & _). pose proof (ro_range db (st_rows c db Hin) r Hr'). lia.
  - by eapply sublist_NoDup.
  - intros Hm. eapply sublist_NoDup; [by apply Hports|done].
Qed.

(** A row rewritten for an update of a node keeps the node matched. *)
Lemma updated_matched n r : nr_Enabled r = true → nr_ID r = nc_ID n → nr_Source r = nc_Source n →
  matched n (updated (populateNodeIdentity (edited_row n r)) r).
Proof. done. Qed.

Lemma Update_kept f id n c db m' n' : in_step c db → 0 ≤ nc_Port n ≤ 65535 → room 1 c →
  UpdateNodeByID f id n (put c (Some db)) = inr (m', n') → kept m'.
Proof.
  intros Hin Hp Hroom (c0 & ->%enter_put & Hrest)%edit_bind_inr. cbn [mg_store put] in Hrest.
  apply edit_bind_inr in Hrest as (persisted & Hget & Hrest).
  apply edit_bind_inr in Hget as (r0 & Hr0%read_inr & Hget). destruct r0 as [r|]; [|done]. injection Hget as <-.
  symmetry in Hr0. apply GetNode_Some in Hr0 as [Hr Hrid]. cbn in Hrest.
  apply edit_bind_inr in Hrest as (n1 & Hprep & Hrest). apply edit_bind_inr in Hrest as (taken & Htaken & Hrest).
  apply edit_bind_inr in Hrest as (u & _ & Hrest). apply edit_bind_inr in Hrest as (store & Hstore & Hrest).
  injection Hrest as <- <-. set (n2 := with_identifiers id (nr_Source r) n1) in *.
  apply edit_bind_inr in Hstore as (hash & _ & Hstore). apply edit_bind_inr in Hstore as (dup & _ & Hstore).
  assert (∃ db', store = Some db' ∧ store_UpdateNode (ft_write f) (edited_row n2 r) db = Some db') as (db' & -> & Hupd).
  { destruct dup as [d|]; [case_decide; [|done]|]; apply edit_bind_inr in Hstore as (db' & Hsu%call_inr & [= <-]); by eexists. }
  clear Hstore dup. pose proof (st_rows c db Hin) as Hok.
  destruct (store_UpdateNode_ok db (ft_write f) (edited_row n2 r) r db' Hok Hr eq_refl Hupd) as (Hok' & Hnew & Hkeep).
  destruct (prepareNodeLocked_spec n (nr_Name r) c n1 1 Hprep Hp Hroom) as (_ & Hne & Hname & Hport).
  destruct (nodeIndexByIDLocked id c) as [[idx old]|] eqn:Hidx.
  - apply nodeIndexByIDLocked_Some in Hidx as [Hidx Hold].
    destruct (st_nodes c db Hin old) as (r' & Hr' & Hm); [by eapply list_elem_of_lookup_2|].
    assert (r' = r) as -> by (apply (row_by_id db); [done..|]; destruct Hm as [-> _]; by rewrite Hold, Hrid).
    destruct Hm as (Hid & Hen & _ & Hnm & _).
    eexists _, db'. split; [reflexivity|]. apply (in_step_insert c db _ idx old n2 (updated (populateNodeIdentity (edited_row n2 r)) r));
      [done|done|done|by cbn|intros r' Hr'' Hne'; apply Hkeep; [done|]; cbn; congruence|done|by apply updated_matched|done| |].
    + cbn. destruct (decide (nc_Name n1 ∈ nc_Name <$> cf_Nodes c)) as [Hin'|]; [|by right]. left. destruct (Hname Hin') as [_ ->]. done.
    + cbn. intros Hmulti. destruct (Hport Hmulti) as [? Hother]. split; [done|]. intros m Hm Hnn. apply Hother; [done|]. by rewrite Hnm.
  - exists c, db'. split; [done|]. destruct Hin as [_ Hnodes Hids Hl]. split; [done| |done|done].
    intros m Hm. destruct (Hnodes m Hm) as (r' & Hr' & Hmm). exists r'. split; [|done]. apply Hkeep; [done|].
    destruct Hmm as [-> _]. cbn. rewrite Hrid. eapply nodeIndexByIDLocked_None; [|done|done].
    rewrite <-Hrid. by apply (ro_range db Hok).
Qed.

Lemma SetEnabled_kept f id b c db m' : in_step c db → SetNodeEnabledByID f id b (put c (Some db)) = inr m' → kept m'.
Proof.
  intros Hin (c0 & ->%enter_put & Hrest)%edit_bind_inr. cbn [mg_store put] in Hrest.
  apply edit_bind_inr in Hrest as (store & Hstore & [= <-]). apply edit_bind_inr in Hstore as (r0 & Hr0%read_inr & Hstore).
  destruct r0 as [r|]; [|done]. symmetry in Hr0. apply GetNode_Some in Hr0 as [Hr Hrid].
  apply edit_bind_inr in Hstore as (db' & Hupd%call_inr & [= <-]). pose proof (st_rows c db Hin) as Hok.
  destruct (store_UpdateNode_ok db (ft_write f) (with_enabled b r) r db' Hok Hr eq_refl Hupd) as (Hok' & Hnew & Hkeep). cbn in Hkeep.
  eexists _, db'. split; [reflexivity|]. destruct b.
  - destruct Hin as [_ Hnodes Hids Hl]. split; [done| |done|done]. intros m Hm. destruct (Hnodes m Hm) as (r' & Hr' & Hmm).
    destruct (decide (nr_ID r' = nr_ID r)) as [He|Hne]; [|exists r'; split; [by apply Hkeep|done]].
    assert (r' = r) as -> by by apply (row_by_id db). eexists. split; [exact Hnew|]. by destruct Hmm as (? & ? & ? & ? & ?).
  - apply (in_step_drop c db); [done|done|rewrite <-Hrid; by apply (ro_range db Hok)|]. intros r' Hr' Hne. apply Hkeep; [done|by rewrite Hrid].
Qed.

Lemma Delete_kept f id c db m' : in_step c db → DeleteNodeByID f id (put c (Some db)) = inr m' → kept m'.
Proof.
  intros Hin (c0 & ->%enter_put & Hrest)%edit_bind_inr. cbn [mg_store put] in Hrest.
  apply edit_bind_inr in Hrest as (store & Hstore & [= <-]). apply edit_bind_inr in Hstore as (r0 & Hr0%read_inr & Hstore).
  apply edit_bind_inr in Hstore as (u & Hsome%require_inr & Hstore). apply bool_decide_eq_true in Hsome.
  destruct r0 as [r|]; [|done]. symmetry in Hr0. apply GetNode_Some in Hr0 as [Hr Hrid].
  apply edit_bind_inr in Hstore as (db' & Hdel%call_inr & [= <-]). pose proof (st_rows c db Hin) as Hok.
  destruct (store_DeleteNode_ok db (ft_write f) id db' Hok Hdel) as [Hok' Hrows].
  eexists _, db'. split; [reflexivity|]. apply (in_step_drop c db); [done|done|rewrite <-Hrid; by apply (ro_range db Hok)|].
  intros r' Hr' Hne. by apply Hrows.
Qed.

Lemma run_edit_kept f op c db m' : in_step c db → sized op c → run_edit f op (put c (Some db)) = inr m' → kept m'.
Proof.
  intros Hin [Hports Hroom]. destruct op as [n|nodes dryRun|id n|id b|id]; cbn [run_edit edit_ports] in *.
  - intros ([m n'] & Hr & [= <-])%edit_bind_inr. eapply Create_kept; [done|apply Hports; by left|done|done].
  - intros ([m res] & Hr & [= <-])%edit_bind_inr. rewrite length_fmap in Hroom. eapply CreateBatch_kept; [done| |done|done].
    intros n Hn. apply Hports. by apply list_elem_of_fmap_2.
  - intros ([m n'] & Hr & [= <-])%edit_bind_inr. eapply Update_kept; [done|apply Hports; by left|done|done].
  - by apply SetEnabled_kept.
  - by apply Delete_kept.
Qed.

(** Edits one after the other, the ones that fail included. *)
Inductive edits : manager → manager → Prop :=
| edits_done m : edits m m
| edits_ok f op m m1 m' : (∀ c, mg_cfg m = Some c → sized op c) → run_edit f op m = inr m1 → edits m1 m' → edits m m'
| edits_failed f op m e m' : run_edit f op m = inl e → edits m m' → edits m m'.

(** C25: Editing keeps the runtime and the table in step. From a configuration and a
    table that agree, after any edits, failed ones included: every node that runs is an
    enabled row with the same link, name and source; no two rows share a link or an
    identity; and no two running nodes share a name or, in multi-port mode, a port.
    The ports of an edit are ports, and one is left for each node it adds ([sized]). *)
Theorem edits_keep_the_runtime_in_step m m' c db : edits m m' → m = put c (Some db) → in_step c db →
  ∃ c' db', m' = put c' (Some db') ∧ in_step c' db'.
Proof.
  intros Hedits. revert c db. induction Hedits as [m|f op m m1 m' Hsized Hrun _ IH|f op m e m' _ _ IH]; intros c db -> Hin; [eauto| |by eapply IH].
  destruct (run_edit_kept f op c db m1 Hin (Hsized c eq_refl) Hrun) as (c1 & db1 & -> & Hin1). by eapply IH.
Qed.

(** A dry run answers with the plan the real run carries out. *)
Theorem dry_run_shows_the_plan f nodes m m' r :
  CreateNodes f nodes false m = inr (m', r) →
  ∃ d, CreateNodes f nodes true m = inr (m, d) ∧ nb_Planned d = nb_Planned r ∧
    nb_Failed d `prefix_of` nb_Failed r.
Proof.
  unfold CreateNodes. intros (c & -> & Hrest)%edit_bind_inr. cbn [edit_bind]. apply edit_bind_inr in Hrest as (stored & -> & Hrest).
  cbn [edit_bind] in *. cbn zeta in *. set (p := plan c stored nodes) in *. cbn [orb]. eexists. split; [reflexivity|]. cbn.
  case_bool_decide; cbn [orb] in Hrest; [by injection Hrest as _ <-|]. destruct (mg_store m) as [db|]; [|by injection Hrest as _ <-].
  apply edit_bind_inr in Hrest as (out & _ & Hrest).
  assert (∀ rows acc, acc.2 `prefix_of` (foldl take_outcome acc rows).2) as Hpre.
  { induction rows as [|[i [n o]] rows IH]; intros acc; [done|]. cbn. etrans; [|apply IH]. destruct o; cbn; [done|by eexists]. }
  specialize (Hpre (imap pair (zip (pl_prepared p) out.2)) ([], pl_failed p)). destruct (foldl take_outcome _ _) as [created failed].
  by injection Hrest as _ <-.
Qed.
End edits.

(** ** Examples *)
Module EditExample.
#[local] Existing Instance LinkExample.order.
#[local] Instance libraries : CodecLibraries := {|
  idna_ToASCII h := Some h;
  json_Unmarshal _ := None;
  json_MarshalCanonical i := Some (id_Protocol i +:+ id_Server i);
  sha256_hex x := "0123456789abcdef" +:+ x
|}.
Definition no_tags (id : Z) : list string := [].
Definition builds (tag : string) (n : NodeConfig) (skip : bool) : option string := None.
Definition calm : faults := mkFaults false false false false false false.
Definition broken : faults := mkFaults false false false false true false.

Definition multi : MultiPortConfig := mkMultiPort true "0.0.0.0" 24000 "u" "p".
Definition empty_config : Config := mkConfig [] multi true 24001 false.
Definition start : manager := put empty_config (Some (mkNodes [] 1)).
Definition link (host : string) : string := "trojan://pw@" +:+ host +:+ ":443".
Definition asked (name host : string) (port : Z) : NodeConfig :=
  mkNode 0 name (link host) port "" "" "" false "" "" [] "".

Definition edited (f : faults) (op : edit_op) (m : manager) : manager :=
  match run_edit no_tags builds f op m with inr m' => m' | inl _ => m end.
Definition one : manager := edited calm (Create (asked "a" "a.example" 0)) start.
Definition two : manager := edited calm (CreateBatch [asked "b" "b.example" 0; asked "c" "c.example" 24001; asked "b" "d.example" 0] false) one.
Definition three : manager := edited calm (Update 2 (asked "e" "e.example" 24000)) two.
Definition four : manager := edited calm (Delete 1) three.

Definition runtime (m : manager) : list (Z * string * Z) :=
  match mg_cfg m with Some c => (λ n, (nc_ID n, nc_Name n, nc_Port n)) <$> cf_Nodes c | None => [] end.

(** The second row of the batch is moved to another port, the third is refused; the
    update that asks for a port in use is refused. *)
Example edited_runtimes :
  runtime one = [(1, "a", 24000)] ∧ runtime two = [(1, "a", 24000); (2, "b", 24001); (3, "c", 24002)] ∧
  three = two ∧ runtime four = [(2, "b", 24001); (3, "c", 24002)].
Proof. vm_compute. done. Qed.

Lemma start_in_step : in_step empty_config (mkNodes [] 1).
Proof.
  split; [split; cbn; [done|apply NoDup_nil_2|by intros r ?%elem_of_nil|by intros r r' ?%elem_of_nil]|by intros n ?%elem_of_nil|apply NoDup_nil_2|].
  split; cbn; [apply NoDup_nil_2|by intros ?%elem_of_nil|]. intros _. split; [apply NoDup_nil_2|by intros n ?%elem_of_nil].
Qed.

Lemma sized_small op c : Forall (λ p, 0 ≤ p ≤ 65535) (edit_ports op) → room (length (edit_ports op)) c → sized op c.
Proof. intros H Hr. split; [by rewrite Forall_forall in H|done]. Qed.

Lemma edited_four : edits no_tags builds start four.
Proof.
  apply (edits_ok _ _ calm (Create (asked "a" "a.example" 0)) start one); [|vm_compute; reflexivity|].
  { intros c [= <-]. apply sized_small; [by repeat constructor|split; cbn; lia]. }
  apply (edits_failed _ _ broken (Delete 1) one (StoreError "delete from store")); [vm_compute; reflexivity|].
  apply (edits_ok _ _ calm (CreateBatch [asked "b" "b.example" 0; asked "c" "c.example" 24001; asked "b" "d.example" 0] false) one two).
  { vm_compute mg_cfg. intros c [= <-]. apply sized_small; [by repeat constructor|split; cbn; lia]. }
  { vm_compute. reflexivity. }
  apply (edits_failed _ _ calm (Update 2 (asked "e" "e.example" 24000)) two (ErrPortConflict 24000)); [vm_compute; reflexivity|].
  apply (edits_ok _ _ calm (Delete 1) two four); [|vm_compute; reflexivity|apply edits_done].
  vm_compute mg_cfg. intros c [= <-]. apply sized_small; [by repeat constructor|split; cbn; lia].
Qed.

Lemma in_step_witness : ∃ c' db', four = put c' (Some db') ∧ length (cf_Nodes c') = 2%nat ∧ in_step c' db'.
Proof.
  destruct (edits_keep_the_runtime_in_step no_tags builds start four empty_config (mkNodes [] 1) edited_four eq_refl start_in_step)
    as (c' & db' & Hm & Hin).
  exists c', db'. split; [exact Hm|]. split; [|exact Hin]. vm_compute in Hm. injection Hm as <- <-. reflexivity.
Defined.

Lemma dry_run_witness : ∃ d, CreateNodes builds calm [asked "b" "b.example" 0; asked "a" "c.example" 0] true one = inr (one, d) ∧ length (nb_Planned d) = 1%nat.
Proof.
  destruct (CreateNodes builds calm [asked "b" "b.example" 0; asked "a" "c.example" 0] false one) as [e|[m' r]] eqn:Hrun; [vm_compute in Hrun; discriminate Hrun|].
  destruct (dry_run_shows_the_plan builds calm _ one m' r Hrun) as (d & Hd & Hp & _). exists d. split; [exact Hd|]. rewrite Hp.
  vm_compute in Hrun. injection Hrun as _ <-. reflexivity.
Defined.

(** Two running nodes may carry one name (two subscriptions may ship it). The check for
    a port in use passes over every node of that name, so the update of one of them
    takes the port of the other. *)
Definition row (id : Z) (host : string) (port : Z) : Node :=
  mkRow id (link host) "same" NodeSourceSubscription port "u" "p" "" "" true [] (identity_of (link host)).
Definition running (id : Z) (host : string) (port : Z) : NodeConfig :=
  mkNode id "same" (link host) port "u" "p" NodeSourceSubscription false "" "" [] "".
Definition twins : manager :=
  put (with_nodes [running 1 "a.example" 24000; running 2 "b.example" 24005] empty_config)
    (Some (mkNodes [row 1 "a.example" 24000; row 2 "b.example" 24005] 3)).
Example same_names_share_a_port :
  runtime (edited calm (Update 1 (asked "same" "a.example" 24005)) twins) = [(1, "same", 24005); (2, "same", 24005)].
Proof. vm_compute. reflexivity. Qed.

(** The name made up for a node is the number of nodes that run, plus one: after a
    deletion it is the name of the last node, and the creation is refused. *)
Definition unnamed (host : string) : edit_op := Create (asked "" host 0).
Definition shrunk : manager :=
  edited calm (Delete 1) (edited calm (unnamed "c.example") (edited calm (unnamed "b.example") (edited calm (unnamed "a.example") start))).
Example made_up_name_is_refused :
  run_edit no_tags builds calm (unnamed "d.example") shrunk = inl (ErrNameConflict "node-3").
Proof. vm_compute. reflexivity. Qed.

(** A disabled node keeps its name from a batch, not from a single creation. *)
Definition disabled : manager := edited calm (SetEnabled 1 false) one.
Example single_creation_takes_a_disabled_name :
  runtime (edited calm (Create (asked "a" "b.example" 0)) disabled) = [(2, "a", 24000)] ∧
  runtime (edited calm (CreateBatch [asked "a" "b.example" 0] false) disabled) = [].
Proof. vm_compute. done. Qed.

(** The port of the listener, 24001 here, is given to the second node. *)
Example created_node_gets_the_port_of_the_listener :
  runtime (edited calm (Create (asked "b" "b.example" 0)) one) = [(1, "a", 24000); (2, "b", 24001)].
Proof. vm_compute. reflexivity. Qed.
End EditExample.
