(* ===== verification/BoxReload.v ===== *)
(** Reloads of the proxy ([internal/boxmgr/manager.go], [reload_rebase.go],
    [landing_location.go]): the configuration a reload is built from, the route it takes
    (nothing to do, new members for the running instance, a new instance), the rollback,
    the idle state.

    The manager holds its configuration by pointer, and other operations change the
    configuration behind the pointer while a reload runs: configurations live in a heap.
    A reload never reads the published configuration between its choice of a route and
    its commit or rollback, so all those changes together are one function, the window of
    a round. Instances of sing-box are numbers; which attempts fail, and how, is a
    script; so are the landing locations found and the answers of the running pool and
    of the group runtimes. The monitor and the listeners are told of a reload after it is
    decided and are left out. *)
From S2P Require Import Prelude Text NetURL NodeCodec LinkRoundTrip RuntimeConfig.

#[local] Open Scope Z_scope.

(** ** Changes that landed during a reload ([reload_rebase.go]) *)
Definition nodeFactsDiffer (a b : NodeConfig) : bool :=
  negb (bool_decide (nc_Region a = nc_Region b)) || negb (bool_decide (nc_Country a = nc_Country b)) || negb (bool_decide (nc_Tags a = nc_Tags b)).

Definition with_facts (runtime n : NodeConfig) : NodeConfig :=
  mkNode (nc_ID n) (nc_Name n) (nc_URI n) (nc_Port n) (nc_Username n) (nc_Password n) (nc_Source n) (nc_Disabled n)
    (nc_Region runtime) (nc_Country runtime) (nc_Tags runtime) (nc_IdentityHash n).

(** [ApplyGroupMembershipChanges], what it writes to the configuration: the facts of the
    changed nodes that the store still has. *)
Definition refresh_node (changed : gset Z) (stored : gmap Z Node) (n : NodeConfig) : NodeConfig :=
  if decide (nc_ID n ∈ changed) then
    match stored !! nc_ID n with
    | None => n
    | Some r => mkNode (nc_ID n) (nc_Name n) (nc_URI n) (nc_Port n) (nc_Username n) (nc_Password n) (nc_Source n) (nc_Disabled n)
                  (nr_Region r) (nr_Country r) (nr_Tags r) (nc_IdentityHash n)
    end
  else n.
Definition refresh_facts (changed : gset Z) (stored : gmap Z Node) (c : Config) : Config :=
  with_nodes (refresh_node changed stored <$> cf_Nodes c) c.

Section reload.
Context `{RS : !RangeOrder string, CL : !CodecLibraries}.

Definition by_key (nodes : list NodeConfig) : gmap string NodeConfig := foldl (λ m n, <[NodeKey n := n]> m) ∅ nodes.
Definition index_by_key (nodes : list NodeConfig) : gmap string nat :=
  foldl (λ m (row : nat * NodeConfig), <[NodeKey row.2 := row.1]> m) ∅ (imap pair nodes).

(** The loop over the runtime nodes: the new nodes, their indexes, the count. *)
Definition rebase_node (oldByKey : gmap string NodeConfig) (acc : list NodeConfig * gmap string nat * nat) (runtime : NodeConfig)
    : list NodeConfig * gmap string nat * nat :=
  let '(nodes, newByKey, mutated) := acc in
  let key := NodeKey runtime in
  match oldByKey !! key, newByKey !! key with
  | None, None => (nodes ++ [runtime], <[key := length nodes]> newByKey, S mutated)
  | None, Some _ | Some _, None => acc
  | Some old, Some index => if nodeFactsDiffer old runtime then (alter (with_facts runtime) index nodes, newByKey, S mutated) else acc
  end.
Definition rebase (snapshot runtime nodes : list NodeConfig) : list NodeConfig * gmap string nat * nat :=
  foldl (rebase_node (by_key snapshot)) (nodes, index_by_key nodes, 0%nat) runtime.
Definition rebaseReloadedNodes (snapshot runtime new : Config) : Config * nat :=
  let r := rebase (cf_Nodes snapshot) (cf_Nodes runtime) (cf_Nodes new) in (with_nodes r.1.1 new, r.2).

(** ** The configuration of a reload ([TriggerReload]) *)

(** An inline node takes its identity and facts from the stored one. *)
Definition adopt_stored (n inline : NodeConfig) : NodeConfig :=
  mkNode (nc_ID n) (nc_Name inline) (nc_URI inline) (nc_Port inline) (nc_Username inline) (nc_Password inline) (nc_Source inline)
    (nc_Disabled inline) (if decide (nc_Region inline = "") then nc_Region n else nc_Region inline)
    (if decide (nc_Country inline = "") then nc_Country n else nc_Country inline) (nc_Tags n) (nc_IdentityHash inline).
Definition merge_stored (inline : gmap string nat) (nodes : list NodeConfig) (n : NodeConfig) : list NodeConfig :=
  match inline !! NodeKey n with Some idx => alter (adopt_stored n) idx nodes | None => nodes ++ [n] end.
Definition merge_runtime_nodes (inline stored : list NodeConfig) : list NodeConfig :=
  foldl (merge_stored (index_by_key inline)) inline stored.

Inductive reload_error :=
| ConfigUnavailable
| DatabasePathChanged
| RuntimeNodesUnavailable
| NotNormalized (reason : string)
| NotStarted
| AlreadyRunning
| CreateFailed
| StartFailed
| RetriesExhausted
| RebuildFailed
| GroupRetryFailed
| IncrementalFailed
| LostOwnership
| GroupSyncFailed.

(** Where a triggered reload goes: to the idle state, or to a full reload. *)
Inductive plan := GoIdle (c : Config) | GoReload (c : Config).

(** [disk] is the configuration read from its file, [None] when there is no file or it
    cannot be read; [stored] the runtime set, [None] when no store is bound. *)
Definition TriggerReload (avail : Z → bool) (current : option Config) (lastBasePort : Z) (disk : option Config) (samePath : bool)
    (stored : option (result (list NodeConfig))) : reload_error + plan :=
  let portMap := match current with Some c => BuildPortMap c | None => ∅ end in
  match (match disk with Some c => Some c | None => current end) with
  | None => inl ConfigUnavailable
  | Some new =>
    if negb samePath then inl DatabasePathChanged
    else
      match (match stored with
             | None => Ok new
             | Some (Err e) => Err e
             | Some (Ok rows) => Ok (with_nodes (merge_runtime_nodes (cf_Nodes new) rows) new)
             end) with
      | Err _ => inl RuntimeNodesUnavailable
      | Ok new =>
        if decide (cf_Nodes new = []) then inr (GoIdle new)
        else
          let changed := mp_Enabled (cf_MultiPort new) && negb (mp_BasePort (cf_MultiPort new) =? lastBasePort) in
          let new := if changed then with_nodes (with_port 0 <$> cf_Nodes new) new else new in
          match NormalizeWithPortMap avail (if changed then ∅ else portMap) new with
          | Err e => inl (NotNormalized e)
          | Ok new => inr (GoReload new)
          end
      end
  end.

(** ** Instances *)
Record boxes := mkBoxes {
  bx_configs : gmap nat Config;      (* the heap *)
  bx_cfg : option nat;               (* m.cfg *)
  bx_current : option nat;           (* m.currentBox *)
  bx_idle : bool;
  bx_running : gset nat;             (* the instances that hold listeners (not stored) *)
  bx_next : nat;                     (* the next instance *)
  bx_generation : Z;
  bx_basePort : Z
}.
Definition set_current (b : option nat) (s : boxes) : boxes :=
  mkBoxes (bx_configs s) (bx_cfg s) b (bx_idle s) (bx_running s) (bx_next s) (bx_generation s) (bx_basePort s).
Definition set_idle (b : bool) (s : boxes) : boxes :=
  mkBoxes (bx_configs s) (bx_cfg s) (bx_current s) b (bx_running s) (bx_next s) (bx_generation s) (bx_basePort s).
Definition set_config (p : nat) (c : Config) (s : boxes) : boxes :=
  mkBoxes (<[p := c]> (bx_configs s)) (bx_cfg s) (bx_current s) (bx_idle s) (bx_running s) (bx_next s) (bx_generation s) (bx_basePort s).
Definition set_cfg (p : option nat) (s : boxes) : boxes :=
  mkBoxes (bx_configs s) p (bx_current s) (bx_idle s) (bx_running s) (bx_next s) (bx_generation s) (bx_basePort s).
Definition start_box (s : boxes) : boxes * nat :=
  (mkBoxes (bx_configs s) (bx_cfg s) (bx_current s) (bx_idle s) ({[bx_next s]} ∪ bx_running s) (S (bx_next s)) (bx_generation s) (bx_basePort s),
   bx_next s).
Definition close_box (b : nat) (s : boxes) : boxes :=
  mkBoxes (bx_configs s) (bx_cfg s) (bx_current s) (bx_idle s) (bx_running s ∖ {[b]}) (bx_next s) (bx_generation s) (bx_basePort s).
Definition set_applied (generation basePort : Z) (s : boxes) : boxes :=
  mkBoxes (bx_configs s) (bx_cfg s) (bx_current s) (bx_idle s) (bx_running s) (bx_next s) generation basePort.
Definition config_at (p : nat) (s : boxes) : option Config := bx_configs s !! p.

(** An attempt to build and start an instance; a failed start names the port that is in
    use, or 0. An instance that fails to start is closed. *)
Inductive attempt := CreateFails | StartFails (conflictPort : Z) | Starts.

Definition maxRetries : nat := 10.
Fixpoint start_attempts (avail : Z → bool) (script : nat → attempt) (fuel retry : nat) (c : Config) : (reload_error + unit) * Config :=
  match fuel with
  | O => (inl RetriesExhausted, c)
  | S fuel =>
    match script retry with
    | CreateFails => (inl CreateFailed, c)
    | Starts => (inr (), c)
    | StartFails port =>
      if 0 <? port then let '(c, reassigned) := reassignConflictingPort avail port c in
                        if reassigned then start_attempts avail script fuel (S retry) c else (inl StartFailed, c)
      else (inl StartFailed, c)
    end
  end.

(** [rollbackToOldConfig] and [markRollbackDegraded] *)
Definition markRollbackDegraded (s : boxes) : boxes :=
  if bool_decide (bx_current s = None) && negb (bx_idle s) then set_idle true s else s.
Definition rollbackToOldConfig (a : attempt) (oldCfg : option nat) (s : boxes) : boxes :=
  match oldCfg with
  | None => s
  | Some p => match a with
              | Starts => let '(s, b) := start_box s in set_cfg (Some p) (set_current (Some b) s)
              | _ => markRollbackDegraded s
              end
  end.

(** *** Landing locations *)

(** What a look-up answers for a node: its region and country. *)
Definition found : Type := Z * (string * string).

Definition locate (region country : string) (n : NodeConfig) : NodeConfig :=
  mkNode (nc_ID n) (nc_Name n) (nc_URI n) (nc_Port n) (nc_Username n) (nc_Password n) (nc_Source n) (nc_Disabled n)
    region country (nc_Tags n) (nc_IdentityHash n).

(** [setLandingNodeLocation]: the first node of that identifier, and whether it moved. *)
Fixpoint set_location (f : found) (nodes : list NodeConfig) : list NodeConfig * bool :=
  match nodes with
  | [] => ([], false)
  | n :: rest =>
    if decide (nc_ID n = f.1) then
      if decide (nc_Region n = f.2.1 ∧ nc_Country n = f.2.2) then (nodes, false)
      else (locate f.2.1 f.2.2 n :: rest, true)
    else let r := set_location f rest in (n :: r.1, r.2)
  end.
Definition setLandingNodeLocation (f : found) (c : Config) : Config * bool :=
  if decide (f.1 = 0) then (c, false)
  else let r := set_location f (cf_Nodes c) in (with_nodes r.1 c, r.2).

(** [applyCachedNodeLocations] writes what the store has; [detectMissingNodeLocations]
    what the probes of unlocated nodes found, and says whether anything changed. *)
Definition applyCachedNodeLocations (cached : list found) (c : Config) : Config :=
  foldl (λ c f, (setLandingNodeLocation f c).1) c cached.
Definition detect_one (acc : Config * bool) (f : found) : Config * bool :=
  if decide (f.2.1 = "") then acc
  else let r := setLandingNodeLocation f acc.1 in (r.1, acc.2 || r.2).
Definition detectMissingNodeLocations (outcomes : list found) (c : Config) : Config * bool :=
  foldl detect_one (c, false) outcomes.

(** *** Routes *)

(** What the YAML of a configuration shows of a node: neither its identifier, nor its
    source, nor what is known of it. *)
Definition yaml_node (n : NodeConfig) : string * string * Z * string * string :=
  (nc_Name n, nc_URI n, nc_Port n, nc_Username n, nc_Password n).
#[local] Instance multi_port_eq_dec : EqDecision MultiPortConfig.
Proof. solve_decision. Defined.

(** [rest] says that the other settings and the groups agree. *)
Definition runtimeConfigEqual (rest : bool) (a b : Config) : bool :=
  rest && bool_decide (yaml_node <$> cf_Nodes a = yaml_node <$> cf_Nodes b) && bool_decide (cf_MultiPort a = cf_MultiPort b)
  && Bool.eqb (cf_ListenerEnabled a) (cf_ListenerEnabled b) && (cf_ListenerPort a =? cf_ListenerPort b)
  && Bool.eqb (cf_SkipCertVerify a) (cf_SkipCertVerify b).

(** [geoip]: one of the two divides its entry by regions. *)
Definition incrementalReloadEligible (rest geoip : bool) (old new : Config) : bool :=
  negb (bool_decide (cf_Nodes old = []) || bool_decide (cf_Nodes new = []) || mp_Enabled (cf_MultiPort old)
        || mp_Enabled (cf_MultiPort new) || geoip)
  && runtimeConfigEqual rest (with_nodes [] old) (with_nodes [] new).

(** What one round of a reload meets: the cached locations; whether settings outside the
    model agree; what others do to the published configuration meanwhile; the locations
    the probes find; whether the running pool takes the new members; whether the failed
    group runtimes come back, and whether all of them follow. *)
Record round := mkRound {
  rd_cached : list found; rd_rest : bool; rd_geoip : bool; rd_window : Config → Config; rd_found : list found;
  rd_members : bool; rd_retried : bool; rd_groups : bool
}.
(** A round in which nothing happens. *)
Definition quiet_round : round := mkRound [] true false id [] true true true.

(** What a reload meets besides: the attempts, the rebuild that follows when locations
    were found, the attempt of a rollback. *)
Record weather := mkWeather {
  we_avail : Z → bool; we_attempts : nat → attempt; we_rebuild : attempt; we_rollback : attempt; we_rounds : list round
}.

Definition land (r : round) (s : boxes) : boxes :=
  match bx_cfg s with
  | None => s
  | Some p => match config_at p s with Some c => set_config p (rd_window r c) s | None => s end
  end.

Definition group_result (r : round) : option reload_error := if rd_groups r then None else Some GroupSyncFailed.

(** The attempts of a reload of the configuration at [new], the rollback or the commit,
    and the group runtimes. *)
Definition reload_from (w : weather) (r : round) (new : nat) (oldCfg : option nat) (reloadGeneration : Z) (s : boxes)
    : boxes * option reload_error :=
  let roll e s := (rollbackToOldConfig (we_rollback w) oldCfg s, Some e) in
  match config_at new s with
  | None => (s, Some ConfigUnavailable)
  | Some newCfg =>
    let '(started, newCfg) := start_attempts (we_avail w) (we_attempts w) maxRetries 0 newCfg in
    let s := set_config new newCfg s in
    match started with
    | inl e => roll e s
    | inr _ =>
      let '(s, instance) := start_box s in
      let '(newCfg, located) := detectMissingNodeLocations (rd_found r) newCfg in
      let s := set_config new newCfg s in
      let rebuilt := if located then
                       match we_rebuild w with
                       | Starts => inr (start_box (close_box instance s))
                       | _ => inl (close_box instance s)
                       end
                     else inr (s, instance) in
      match rebuilt with
      | inl s => roll RebuildFailed s
      | inr (s, instance) =>
        let runtimeCfg := match bx_cfg s with Some p => config_at p s | None => None end in
        let snapshotCfg := match oldCfg with Some p => config_at p s | None => None end in
        let newCfg := match snapshotCfg, runtimeCfg with
                      | Some snapshot, Some runtime => (rebaseReloadedNodes snapshot runtime newCfg).1
                      | _, _ => newCfg
                      end in
        let s := set_config new newCfg s in
        let s := set_cfg (Some new) (set_current (Some instance) s) in
        (set_idle false (set_applied reloadGeneration (mp_BasePort (cf_MultiPort newCfg)) s), group_result r)
      end
    end
  end.

(** [reloadNodesIncrementally]: the running instance takes the members, or refuses them
    and nothing changes. *)
Definition reloadNodesIncrementally (r : round) (instance new : nat) (s : boxes) : boxes * option reload_error :=
  if negb (rd_members r) then (s, Some IncrementalFailed)
  else if negb (bool_decide (bx_current s = Some instance)) then (s, Some LostOwnership)
  else (set_applied (bx_generation s + 1) (bx_basePort s) (set_cfg (Some new) s), None).

(** Either a reload is over, or it starts again with the locations it found. *)
Inductive verdict := Again | Done (e : option reload_error).

(** The detection after a route that kept the instance, and what follows from it. *)
Definition detect_or (r : round) (new : nat) (answer : option reload_error) (s : boxes) : boxes * verdict :=
  match config_at new s with
  | None => (s, Done answer)
  | Some c =>
    let '(c, located) := detectMissingNodeLocations (rd_found r) c in
    (set_config new c s, if located then Again else Done answer)
  end.

Definition unchanged_route (r : round) (new : nat) (oldCfg newCfg : option Config) (s : boxes) : bool :=
  match oldCfg, newCfg with
  | Some old, Some c => runtimeConfigEqual (rd_rest r || bool_decide (bx_cfg s = Some new)) old c
  | _, _ => false
  end.
Definition incremental_route (r : round) (oldCfg newCfg : option Config) : bool :=
  match oldCfg, newCfg with
  | Some old, Some c => incrementalReloadEligible (rd_rest r) (rd_geoip r) old c
  | _, _ => false
  end.
Definition published_config (s : boxes) : option Config := p ← bx_cfg s; config_at p s.
Definition cache_locations (r : round) (new : nat) (s : boxes) : boxes :=
  match config_at new s with
  | Some c => set_config new (applyCachedNodeLocations (rd_cached r) c) s
  | None => s
  end.

(** One call of [reload] up to its return or its next call. *)
Definition reload_round (w : weather) (r : round) (new : nat) (s : boxes) : boxes * verdict :=
  let s := cache_locations r new s in
  let oldCfg := published_config s in
  let newCfg := config_at new s in
  if bool_decide (bx_current s = None) && negb (bx_idle s) then (s, Done (Some NotStarted))
  else
    match bx_current s with
    | Some instance =>
      if unchanged_route r new oldCfg newCfg s then
        detect_or r new (if rd_retried r then None else Some GroupRetryFailed) (land r s)
      else if incremental_route r oldCfg newCfg then
        let '(s, e) := reloadNodesIncrementally r instance new (land r s) in
        match e with
        | Some e => (s, Done (Some e))
        | None => detect_or r new (group_result r) s
        end
      else
        let '(s, e) := reload_from w r new (bx_cfg s) (bx_generation s + 1) (land r (close_box instance (set_current None s))) in
        (s, Done e)
    | None =>
      let '(s, e) := reload_from w r new (bx_cfg s) (bx_generation s + 1) (land r (set_current None s)) in (s, Done e)
    end.

(** The rounds of a reload; when the script is over nothing more is found, so that the
    last round returns. *)
Fixpoint reload_rounds (w : weather) (rounds : list round) (new : nat) (s : boxes) : boxes * option reload_error :=
  match rounds with
  | [] => let '(s, v) := reload_round w quiet_round new s in (s, match v with Done e => e | Again => None end)
  | r :: rounds =>
    let '(s, v) := reload_round w r new s in
    match v with Done e => (s, e) | Again => reload_rounds w rounds new s end
  end.

(** [reload] *)
Definition reload (w : weather) (new : nat) (s : boxes) : boxes * option reload_error :=
  match config_at new s with
  | None => (s, Some ConfigUnavailable)
  | Some _ => reload_rounds w (we_rounds w) new s
  end.

(** [Start]: the configuration is published as a clone at [new], which the attempts work
    on; a failure leaves nothing running. *)
Definition Start (w : weather) (r : round) (new : nat) (s : boxes) : boxes * option reload_error :=
  match published_config s with
  | None => (s, Some ConfigUnavailable)
  | Some c =>
    if bool_decide (bx_current s ≠ None) then (s, Some AlreadyRunning)
    else
      let '(started, c) := start_attempts (we_avail w) (we_attempts w) maxRetries 0 (applyCachedNodeLocations (rd_cached r) c) in
      let s := set_cfg (Some new) (set_config new c s) in
      match started with
      | inl e => (s, Some e)
      | inr _ =>
        let '(s, instance) := start_box s in
        let '(c, located) := detectMissingNodeLocations (rd_found r) c in
        let s := set_config new c s in
        let finish (s : boxes) (instance : nat) :=
          (set_applied InitialVersion (mp_BasePort (cf_MultiPort c)) (set_current (Some instance) s), None) in
        if located then
          match we_rebuild w with
          | Starts => let '(s, instance) := start_box (close_box instance s) in finish s instance
          | _ => (close_box instance s, Some RebuildFailed)
          end
        else finish s instance
      end
  end.

(** [enterIdle] *)
Definition enterIdle (new : nat) (s : boxes) : boxes :=
  let oldBox := bx_current s in
  let wasIdle := bx_idle s in
  let s := set_cfg (Some new) (set_idle true (set_current None s)) in
  if wasIdle then s else match oldBox with Some b => close_box b s | None => s end.

(** ** Keys *)
Lemma by_key_app l n : by_key (l ++ [n]) = <[NodeKey n := n]> (by_key l).
Proof. unfold by_key. by rewrite foldl_app. Qed.

Lemma by_key_Some l k n : NoDup (NodeKey <$> l) → by_key l !! k = Some n ↔ n ∈ l ∧ NodeKey n = k.
Proof.
  induction l as [|m l IH] using rev_ind; intros Hnd; [cbn; rewrite lookup_empty; set_solver|].
  rewrite fmap_app in Hnd. apply NoDup_app in Hnd as (Hl & Hd & _). rewrite by_key_app, lookup_insert_Some, (IH Hl), elem_of_app, list_elem_of_singleton.
  split; [naive_solver|]. intros [[Hn | ->] <-]; [|by left]. right. split_and!; [|done|done]. intros He. apply (Hd (NodeKey n)).
  - by apply list_elem_of_fmap_2.
  - cbn. rewrite <-He. by left.
Qed.

Lemma by_key_None l k : by_key l !! k = None ↔ k ∉ NodeKey <$> l.
Proof.
  induction l as [|m l IH] using rev_ind; [cbn; rewrite lookup_empty; set_solver|].
  rewrite by_key_app, lookup_insert_None, IH, fmap_app, elem_of_app. cbn. rewrite list_elem_of_singleton. naive_solver.
Qed.

Lemma index_by_key_app l n : index_by_key (l ++ [n]) = <[NodeKey n := length l]> (index_by_key l).
Proof. unfold index_by_key. rewrite imap_app, foldl_app. cbn. by rewrite Nat.add_0_r. Qed.

Lemma index_by_key_Some l k i : index_by_key l !! k = Some i → ∃ n, l !! i = Some n ∧ NodeKey n = k.
Proof.
  revert i. induction l as [|m l IH] using rev_ind; intros i; [cbn; by rewrite lookup_empty|].
  rewrite index_by_key_app, lookup_insert_Some. intros [[<- <-]|[Hne (n & Hn & Hk)%IH]].
  - exists m. split; [by rewrite lookup_app_r, Nat.sub_diag by lia|done].
  - exists n. split; [|done]. apply lookup_app_l_Some. done.
Qed.

Lemma index_by_key_None l k : index_by_key l !! k = None ↔ k ∉ NodeKey <$> l.
Proof.
  induction l as [|m l IH] using rev_ind; [cbn; rewrite lookup_empty; set_solver|].
  rewrite index_by_key_app, lookup_insert_None, IH, fmap_app, elem_of_app. cbn. rewrite list_elem_of_singleton. naive_solver.
Qed.

Lemma with_facts_key r n : NodeKey (with_facts r n) = NodeKey n.
Proof. done. Qed.
Lemma adopt_stored_key r n : NodeKey (adopt_stored r n) = NodeKey n.
Proof. done. Qed.

Lemma alter_keys (f : NodeConfig → NodeConfig) (i : nat) (l : list NodeConfig) : (∀ n, NodeKey (f n) = NodeKey n) → NodeKey <$> alter f i l = NodeKey <$> l.
Proof.
  intros Hf. apply list_eq. intros j. rewrite !list_lookup_fmap. destruct (decide (i = j)) as [<-|Hne].
  - rewrite list_lookup_alter_eq. destruct (l !! i); cbn; [by rewrite Hf|done].
  - by rewrite list_lookup_alter_ne.
Qed.

Lemma by_key_alter (f : NodeConfig → NodeConfig) (i : nat) (l : list NodeConfig) n : (∀ n, NodeKey (f n) = NodeKey n) → NoDup (NodeKey <$> l) → l !! i = Some n →
  by_key (alter f i l) = <[NodeKey n := f n]> (by_key l).
Proof.
  intros Hf Hnd Hi. apply map_eq. intros k. apply option_eq. intros m.
  rewrite by_key_Some by by rewrite alter_keys. rewrite lookup_insert_Some, by_key_Some by done.
  assert (∀ j x, l !! j = Some x → NodeKey x = NodeKey n → j = i) as Huniq.
  { intros j x Hj He. eapply (NoDup_lookup (NodeKey <$> l)); [done|by rewrite list_lookup_fmap, Hj|by rewrite list_lookup_fmap, Hi, He]. }
  split.
  - intros [[j Hj]%list_elem_of_lookup <-]. destruct (decide (i = j)) as [<-|Hne].
    + rewrite list_lookup_alter_eq, Hi in Hj. injection Hj as <-. left. by rewrite Hf.
    + rewrite list_lookup_alter_ne in Hj by done. right. split_and!; [|by eapply list_elem_of_lookup_2|done].
      intros He. apply Hne. symmetry. by apply (Huniq j m).
  - intros [[<- <-]|(Hne & [j Hj]%list_elem_of_lookup & <-)].
    + split; [|by rewrite Hf]. apply list_elem_of_lookup. exists i. by rewrite list_lookup_alter_eq, Hi.
    + split; [|done]. apply list_elem_of_lookup. exists j. rewrite list_lookup_alter_ne; [done|]. intros <-. apply Hne. congruence.
Qed.
(** ** The rebase *)

(** What becomes of a key: the node in the snapshot, in the runtime and in the new
    configuration. *)
Definition rebased (snapshot runtime new : option NodeConfig) : option NodeConfig :=
  match new, snapshot, runtime with
  | Some n, Some s, Some r => Some (if nodeFactsDiffer s r then with_facts r n else n)
  | Some n, _, _ => Some n
  | None, None, r => r
  | None, Some _, _ => None
  end.

Lemma rebased_no_runtime s n : rebased s None n = n.
Proof. by destruct n, s. Qed.

Record rebase_ok (snapshot new done : list NodeConfig) (acc : list NodeConfig * gmap string nat * nat) : Prop := mkRebaseOk {
  rb_keys : NoDup (NodeKey <$> acc.1.1);
  rb_index : ∀ k i, acc.1.2 !! k = Some i → ∃ n, acc.1.1 !! i = Some n ∧ NodeKey n = k;
  rb_absent : ∀ k, acc.1.2 !! k = None ↔ k ∉ NodeKey <$> acc.1.1;
  rb_order : (NodeKey <$> new) `prefix_of` (NodeKey <$> acc.1.1);
  rb_nodes : ∀ k, by_key acc.1.1 !! k = rebased (by_key snapshot !! k) (by_key done !! k) (by_key new !! k)
}.

Lemma rebase_node_ok snapshot new done acc r : NoDup (NodeKey <$> (done ++ [r])) → rebase_ok snapshot new done acc →
  rebase_ok snapshot new (done ++ [r]) (rebase_node (by_key snapshot) acc r).
Proof.
  intros Hdone [Hkeys Hindex Habsent Horder Hnodes]. destruct acc as [[nodes idx] m]. cbn [fst snd] in *.
  assert (by_key done !! NodeKey r = None) as Hfirst.
  { apply by_key_None. rewrite fmap_app in Hdone. apply NoDup_app in Hdone as (_ & Hd & _). intros Hin. apply (Hd _ Hin). by left. }
  assert (∀ k, k ≠ NodeKey r → by_key (done ++ [r]) !! k = by_key done !! k) as Hother by (intros; by rewrite by_key_app, lookup_insert_ne).
  assert (by_key (done ++ [r]) !! NodeKey r = Some r) as Hr by (by rewrite by_key_app, lookup_insert_eq).
  pose proof (Hnodes (NodeKey r)) as Hk. rewrite Hfirst, rebased_no_runtime in Hk.
  (* the accumulator is kept *)
  assert (rebased (by_key snapshot !! NodeKey r) (Some r) (by_key new !! NodeKey r) = by_key new !! NodeKey r →
          rebase_ok snapshot new (done ++ [r]) (nodes, idx, m)) as Hskip.
  { intros Hs. split; try done. intros k. cbn. rewrite Hnodes. destruct (decide (k = NodeKey r)) as [-> |Hne]; [|by rewrite Hother].
    by rewrite Hr, Hs, Hfirst, rebased_no_runtime. }
  unfold rebase_node. destruct (by_key snapshot !! NodeKey r) as [old|] eqn:Hold; destruct (idx !! NodeKey r) as [i|] eqn:Hi.
  - destruct (Hindex _ _ Hi) as (n & Hn & Hkn). assert (by_key nodes !! NodeKey r = Some n) as Hbn.
    { apply by_key_Some; [done|]. split; [by eapply list_elem_of_lookup_2|done]. }
    destruct (nodeFactsDiffer old r) eqn:Hd; [|apply Hskip; rewrite <-Hk, Hbn; cbn; by rewrite Hd].
    split; cbn [fst snd]; [by rewrite alter_keys| |by intros k; rewrite alter_keys|by rewrite alter_keys|].
    + intros k j Hj. destruct (Hindex k j Hj) as (n' & Hn' & Hk'). destruct (decide (i = j)) as [<-|Hne].
      * exists (with_facts r n'). by rewrite list_lookup_alter_eq, Hn'.
      * exists n'. by rewrite list_lookup_alter_ne.
    + intros k. rewrite (by_key_alter _ _ _ n), Hkn by done. destruct (decide (k = NodeKey r)) as [-> |Hne].
      * rewrite lookup_insert_eq, Hr, Hold, <-Hk, Hbn. cbn. by rewrite Hd.
      * by rewrite lookup_insert_ne, Hnodes, Hother.
  - apply Hskip. rewrite <-Hk. apply Habsent in Hi. rewrite (proj2 (by_key_None _ _) Hi). done.
  - destruct (Hindex _ _ Hi) as (n & Hn & Hkn). apply Hskip. rewrite <-Hk.
    rewrite (proj2 (by_key_Some nodes (NodeKey r) n Hkeys)); [done|]. split; [by eapply list_elem_of_lookup_2|done].
  - pose proof (proj1 (Habsent _) Hi) as Hfresh. rewrite (proj2 (by_key_None _ _) Hfresh) in Hk. split; cbn [fst snd].
    + rewrite fmap_app. apply NoDup_app. split_and!; [done| |apply NoDup_singleton]. intros k Hin Hs. cbn in Hs. apply list_elem_of_singleton in Hs. congruence.
    + intros k j [[<- <-]|[Hne (n & Hn & Hkn)%Hindex]]%lookup_insert_Some.
      * exists r. by rewrite lookup_app_r, Nat.sub_diag by lia.
      * exists n. split; [by apply lookup_app_l_Some|done].
    + intros k. rewrite lookup_insert_None, Habsent, fmap_app, elem_of_app. cbn. rewrite list_elem_of_singleton. naive_solver.
    + rewrite fmap_app. by apply prefix_app_r.
    + intros k. rewrite by_key_app. destruct (decide (k = NodeKey r)) as [-> |Hne].
      * by rewrite lookup_insert_eq, Hr, Hold, <-Hk.
      * by rewrite lookup_insert_ne, Hnodes, Hother.
Qed.

Lemma rebase_start_ok snapshot new : NoDup (NodeKey <$> new) → rebase_ok snapshot new [] (new, index_by_key new, 0%nat).
Proof.
  intros Hnd. split; cbn [fst snd]; [done|apply index_by_key_Some|apply index_by_key_None|done|].
  intros k. cbn. by rewrite lookup_empty, rebased_no_runtime.
Qed.

Lemma rebase_spec snapshot runtime new : NoDup (NodeKey <$> runtime) → NoDup (NodeKey <$> new) →
  rebase_ok snapshot new runtime (rebase snapshot runtime new).
Proof.
  intros Hrun Hnew. unfold rebase. induction runtime as [|r runtime IH] using rev_ind; [by apply rebase_start_ok|].
  rewrite foldl_app. apply rebase_node_ok; [done|]. apply IH. rewrite fmap_app in Hrun. by apply NoDup_app in Hrun as (? & _ & _).
Qed.

(** The rebase of distinct configurations does what it is for. Key by key: a node the
    reload keeps is kept, with the region, country and tags of the runtime when those
    changed since the snapshot; a node created since the snapshot is added behind; a
    node the reload drops stays dropped; and the nodes of the reload keep their order. *)
Theorem rebase_merges_the_window snapshot runtime new :
  NoDup (NodeKey <$> cf_Nodes runtime) → NoDup (NodeKey <$> cf_Nodes new) →
  let r := (rebaseReloadedNodes snapshot runtime new).1 in
  (NodeKey <$> cf_Nodes new) `prefix_of` (NodeKey <$> cf_Nodes r) ∧
  ∀ k, by_key (cf_Nodes r) !! k = rebased (by_key (cf_Nodes snapshot) !! k) (by_key (cf_Nodes runtime) !! k) (by_key (cf_Nodes new) !! k).
Proof.
  intros Hrun Hnew. destruct (rebase_spec (cf_Nodes snapshot) _ _ Hrun Hnew) as [_ _ _ Horder Hnodes]. by split.
Qed.

Lemma nodeFactsDiffer_same n : nodeFactsDiffer n n = false.
Proof. unfold nodeFactsDiffer. by rewrite !bool_decide_true. Qed.

Lemma rebase_same nodes new : NoDup (NodeKey <$> nodes) → (rebase nodes nodes new).1.1 = new.
Proof.
  intros Hnd. unfold rebase. assert (∀ acc l, l ⊆ nodes → foldl (rebase_node (by_key nodes)) acc l = acc) as Hskip.
  { intros acc l. revert acc. induction l as [|r l IH]; intros [[ns idx] m] Hl; [done|]. cbn [foldl].
    assert (rebase_node (by_key nodes) (ns, idx, m) r = (ns, idx, m)) as ->; [|apply IH; set_solver].
    unfold rebase_node. rewrite (proj2 (by_key_Some nodes (NodeKey r) r Hnd)) by (split; [set_solver|done]).
    rewrite nodeFactsDiffer_same. by destruct (idx !! NodeKey r). }
  by rewrite Hskip.
Qed.
(** ** What a reload leaves behind *)

(** Between operations: the current instance is the one that runs, instance numbers are
    not reused, and either something runs or the manager is idle. *)
Record settled (s : boxes) : Prop := mkSettled {
  sd_running : bx_running s = match bx_current s with Some b => {[b]} | None => ∅ end;
  sd_next : ∀ b, b ∈ bx_running s → (b < bx_next s)%nat;
  sd_ready : bx_current s ≠ None ∨ bx_idle s = true
}.

(** While a reload works: nothing is current, and nothing runs but what it started. *)
Definition bare (s : boxes) : Prop := bx_current s = None ∧ bx_running s = ∅.

Lemma close_current s b : settled s → bx_current s = Some b → bare (close_box b (set_current None s)).
Proof. intros [Hr _ _] Hb. split; [done|]. cbn. rewrite Hr, Hb. set_solver. Qed.

Lemma land_bare r s : bare s → bare (land r s).
Proof. intros [? ?]. unfold land, bare. destruct (bx_cfg s); [|done]. by destruct (config_at _ s). Qed.

Lemma land_frame r s : bx_cfg (land r s) = bx_cfg s ∧ bx_idle (land r s) = bx_idle s ∧
  bx_current (land r s) = bx_current s ∧ bx_running (land r s) = bx_running s ∧ bx_next (land r s) = bx_next s ∧
  bx_generation (land r s) = bx_generation s.
Proof. unfold land. destruct (bx_cfg s) eqn:H; [|done]. destruct (config_at _ s); cbn; by rewrite ?H. Qed.

Lemma settled_frame s s' : settled s →
  bx_running s' = bx_running s → bx_current s' = bx_current s → bx_idle s' = bx_idle s → bx_next s' = bx_next s → settled s'.
Proof. intros [H1 H2 H3] R C I N. split; rewrite ?R, ?C, ?I, ?N; done. Qed.

Lemma land_settled r s : settled s → settled (land r s).
Proof. intros Hs. destruct (land_frame r s) as (_ & ? & ? & ? & ? & _). by apply (settled_frame s). Qed.

Lemma rollback_settled a p s : bare s →
  settled (rollbackToOldConfig a (Some p) s) ∧ (bx_cfg s = Some p → bx_cfg (rollbackToOldConfig a (Some p) s) = Some p).
Proof.
  intros [Hc Hr]. cbn.
  assert (settled (markRollbackDegraded s) ∧ (bx_cfg s = Some p → bx_cfg (markRollbackDegraded s) = Some p)) as Hdegraded.
  { unfold markRollbackDegraded. rewrite bool_decide_true by done. destruct (bx_idle s) eqn:Hi; cbn.
    - split; [|done]. split; [by rewrite Hc, Hr|intros b; rewrite Hr; set_solver|by right].
    - split; [|done]. split; cbn; [by rewrite Hc|intros b; rewrite Hr; set_solver|by right]. }
  destruct a; [done|done|]. split; [|done]. split; cbn; rewrite ?Hr; [set_solver|set_solver by lia|by left].
Qed.

Lemma start_box_settled s s' b : bare s → start_box s = (s', b) → bx_running s' = {[b]} ∧ (b < bx_next s')%nat ∧ bx_cfg s' = bx_cfg s ∧ bx_configs s' = bx_configs s.
Proof. intros [_ Hr] [= <- <-]. cbn. rewrite Hr. split_and!; [set_solver|lia|done|done]. Qed.

Lemma close_started s s' b new c : bare s → start_box s = (s', b) → bare (close_box b (set_config new c s')).
Proof. intros [Hc Hr] [= <- <-]. split; [done|]. cbn. rewrite Hr. set_solver. Qed.

(** The old instance, if any, has stopped. *)
Definition stopped (s : boxes) : boxes :=
  match bx_current s with Some b => close_box b (set_current None s) | None => set_current None s end.

Lemma stopped_bare r s : settled s → bare (land r (stopped s)).
Proof.
  intros Hs. apply land_bare. unfold stopped. destruct (bx_current s) as [b|] eqn:Hb; [by apply close_current|].
  split; [done|]. cbn. by rewrite (sd_running s Hs), Hb.
Qed.

Lemma land_config r new s : config_at new s ≠ None → config_at new (land r s) ≠ None.
Proof.
  unfold land. destruct (bx_cfg s) as [p|]; [|done]. destruct (config_at p s); [|done]. unfold config_at. cbn.
  destruct (decide (p = new)) as [-> |Hne]; [by rewrite lookup_insert_eq|by rewrite lookup_insert_ne].
Qed.

Lemma cache_frame r new s : let s' := cache_locations r new s in
  bx_cfg s' = bx_cfg s ∧ bx_idle s' = bx_idle s ∧ bx_current s' = bx_current s ∧ bx_running s' = bx_running s ∧
  bx_next s' = bx_next s ∧ (config_at new s ≠ None → config_at new s' ≠ None).
Proof.
  cbn zeta. unfold cache_locations. destruct (config_at new s) eqn:E; [|by rewrite E].
  split_and!; try done. intros _. unfold config_at. cbn. by rewrite lookup_insert_eq.
Qed.

Lemma start_attempts_error avail script fuel : ∀ retry c c' e,
  start_attempts avail script fuel retry c = (inl e, c') → e ∈ [CreateFailed; StartFailed; RetriesExhausted].
Proof.
  induction fuel as [|fuel IH]; intros retry c c' e; cbn; [intros [= <- _]; set_solver|].
  destruct (script retry); [intros [= <- _]; set_solver| |done].
  destruct (0 <? conflictPort); [|intros [= <- _]; set_solver].
  destruct (reassignConflictingPort _ _ _) as [c1 []]; [apply IH|intros [= <- _]; set_solver].
Qed.

(** The errors after which the manager is back on the old configuration. *)
Definition rolled_back (e : reload_error) : Prop := e ∈ [CreateFailed; StartFailed; RetriesExhausted; RebuildFailed].

Lemma reload_from_settled w r new p generation s :
  bare s → bx_cfg s = Some p → config_at new s ≠ None →
  let q := reload_from w r new (Some p) generation s in
  settled q.1 ∧
  ((∃ e, q.2 = Some e ∧ rolled_back e ∧ bx_cfg q.1 = Some p) ∨
   (q.2 = group_result r ∧ bx_cfg q.1 = Some new ∧ bx_current q.1 ≠ None ∧ bx_idle q.1 = false)).
Proof.
  intros Hbare Hp Hnew. cbn zeta. unfold reload_from. destruct (config_at new s) as [c|]; [|done].
  destruct (start_attempts (we_avail w) (we_attempts w) maxRetries 0 c) as [[e|[]] c1] eqn:Hatt.
  - destruct (rollback_settled (we_rollback w) p (set_config new c1 s)) as [Hset Hkeep]; [exact Hbare|]. split; [exact Hset|].
    left. exists e. split; [done|]. split; [|by apply Hkeep]. apply start_attempts_error in Hatt. unfold rolled_back. set_solver.
  - set (s2 := set_config new c1 s). assert (bare s2) as Hbare2 by exact Hbare.
    destruct (start_box s2) as [s3 b3] eqn:H3. destruct (start_box_settled s2 s3 b3 Hbare2 H3) as (Hr3 & Hn3 & Hc3 & _).
    destruct (detectMissingNodeLocations (rd_found r) c1) as [c2 located].
    assert (bare (close_box b3 (set_config new c2 s3))) as Hclosed by by eapply close_started.
    destruct located; [destruct (we_rebuild w)|].
    1-2: destruct (rollback_settled (we_rollback w) p _ Hclosed) as [? Hk]; (split; [done|]); left; exists RebuildFailed;
      (split; [done|]); (split; [unfold rolled_back; set_solver|]); apply Hk; cbn; by rewrite Hc3.
    + destruct (start_box (close_box b3 (set_config new c2 s3))) as [s4 b4] eqn:H4.
      destruct (start_box_settled _ s4 b4 Hclosed H4) as (Hr4 & Hn4 & _ & _).
      split; [|by right]. split; cbn; [done|rewrite Hr4; set_solver|by left].
    + split; [|by right]. split; cbn; [done|rewrite Hr3; set_solver|by left].
Qed.

(** *** One round *)
Lemma detect_or_frame r new answer s : let q := detect_or r new answer s in
  bx_cfg q.1 = bx_cfg s ∧ bx_idle q.1 = bx_idle s ∧ bx_current q.1 = bx_current s ∧ bx_running q.1 = bx_running s ∧
  bx_next q.1 = bx_next s ∧ (config_at new s ≠ None → config_at new q.1 ≠ None) ∧ (q.2 = Again ∨ q.2 = Done answer).
Proof.
  cbn zeta. unfold detect_or. destruct (config_at new s) eqn:E; [|cbn; rewrite E; split_and!; auto].
  destruct (detectMissingNodeLocations _ _) as [c' located]. split_and!; try done.
  - intros _. unfold config_at. cbn. by rewrite lookup_insert_eq.
  - destruct located; auto.
Qed.

Lemma detect_or_settled r new answer s : settled s → settled (detect_or r new answer s).1.
Proof. intros Hs. destruct (detect_or_frame r new answer s) as (_ & ? & ? & ? & ? & _). by apply (settled_frame s). Qed.

(** How a call of [reload] that began with the configuration [p] published ends. *)
Definition outcome_ok (p new : nat) (current : option nat) (s : boxes) (e : option reload_error) : Prop :=
  match e with
  | None => bx_current s ≠ None ∧ (bx_current s = current ∨ bx_idle s = false) ∧
      (bx_cfg s = Some new ∨ (bx_cfg s = Some p ∧ bx_current s = current))
  | Some GroupSyncFailed => bx_current s ≠ None ∧ (bx_current s = current ∨ bx_idle s = false) ∧ bx_cfg s = Some new
  | Some GroupRetryFailed => bx_current s ≠ None ∧ bx_current s = current ∧ (bx_cfg s = Some new ∨ bx_cfg s = Some p)
  | Some IncrementalFailed => bx_current s ≠ None ∧ bx_current s = current ∧ bx_cfg s = Some p
  | Some e => rolled_back e ∧ bx_cfg s = Some p
  end.

Lemma detect_or_keeps r new answer s p : config_at p s ≠ None → config_at p (detect_or r new answer s).1 ≠ None.
Proof.
  intros Hp. unfold detect_or. destruct (config_at new s); [|done].
  destruct (detectMissingNodeLocations _ _) as [c' located]. unfold config_at. cbn.
  destruct (decide (p = new)) as [-> |]; [by rewrite lookup_insert_eq|by rewrite lookup_insert_ne].
Qed.

Lemma cache_keeps r new s p : config_at p s ≠ None → config_at p (cache_locations r new s) ≠ None.
Proof.
  intros Hp. unfold cache_locations. destruct (config_at new s); [|done]. unfold config_at. cbn.
  destruct (decide (p = new)) as [-> |]; [by rewrite lookup_insert_eq|by rewrite lookup_insert_ne].
Qed.

Lemma runtimeConfigEqual_refl c : runtimeConfigEqual true c c = true.
Proof. unfold runtimeConfigEqual. rewrite !bool_decide_true, !eqb_reflx, Z.eqb_refl by done. done. Qed.

Lemma unchanged_same r new s c :
  bx_cfg s = Some new → config_at new s = Some c → unchanged_route r new (published_config s) (config_at new s) s = true.
Proof.
  intros Hp Hc. unfold unchanged_route, published_config. rewrite Hp. cbn. rewrite Hc, bool_decide_true by done.
  rewrite orb_true_r. apply runtimeConfigEqual_refl.
Qed.

(** A route that keeps the instance. *)
Lemma kept_route_settled r new p answer s s1 :
  settled s1 → bx_current s1 = bx_current s → bx_current s ≠ None →
  bx_cfg s1 = Some new ∨ bx_cfg s1 = Some p → config_at new s1 ≠ None → config_at p s1 ≠ None →
  outcome_ok p new (bx_current s) (detect_or r new answer s1).1 answer →
  let q := detect_or r new answer s1 in
  settled q.1 ∧
  match q.2 with
  | Done e => outcome_ok p new (bx_current s) q.1 e
  | Again => bx_current q.1 = bx_current s ∧ bx_current s ≠ None ∧ (bx_cfg q.1 = Some new ∨ bx_cfg q.1 = Some p) ∧
             config_at new q.1 ≠ None ∧ config_at p q.1 ≠ None
  end.
Proof.
  intros Hs Hcur Hne Hcfg Hnew Hp Hout. cbn zeta. split; [by apply detect_or_settled|].
  destruct (detect_or_frame r new answer s1) as (E1 & _ & E3 & _ & _ & E6 & E7).
  pose proof (detect_or_keeps r new answer s1 p Hp) as Hp'.
  destruct E7 as [->| ->]; [|done]. rewrite E1, E3. split_and!; [done|done|done|by apply E6|done].
Qed.

Lemma reload_round_settled w r new p s :
  settled s → bx_cfg s = Some p → config_at new s ≠ None → config_at p s ≠ None →
  let q := reload_round w r new s in
  settled q.1 ∧
  match q.2 with
  | Done e => outcome_ok p new (bx_current s) q.1 e
  | Again => bx_current q.1 = bx_current s ∧ bx_current s ≠ None ∧ (bx_cfg q.1 = Some new ∨ bx_cfg q.1 = Some p) ∧
             config_at new q.1 ≠ None ∧ config_at p q.1 ≠ None
  end.
Proof.
  intros Hs Hcfg Hnew Hp. cbn zeta. unfold reload_round.
  destruct (cache_frame r new s) as (F1 & F2 & F3 & F4 & F5 & F6). cbn zeta in *.
  pose proof (cache_keeps r new s p Hp) as Hp0.
  set (s0 := cache_locations r new s) in *. assert (settled s0) as Hs0 by by apply (settled_frame s).
  rewrite <-F3. specialize (F6 Hnew). rewrite <-F1 in Hcfg. clearbody s0.
  destruct (bool_decide (bx_current s0 = None) && negb (bx_idle s0)) eqn:Hguard.
  { exfalso. apply andb_true_iff in Hguard as [Hc%bool_decide_eq_true Hi%negb_true_iff].
    destruct (sd_ready s0 Hs0); congruence. }
  destruct (bx_current s0) as [b|] eqn:Hb.
  2: { pose proof (stopped_bare r s0 Hs0) as Hbare. unfold stopped in Hbare. rewrite Hb in Hbare.
    destruct (reload_from_settled w r new p (bx_generation s0 + 1) _ Hbare) as [Hq Hout];
      [by rewrite (proj1 (land_frame _ _))|by apply land_config|].
    rewrite Hcfg. destruct (reload_from _ _ _ _ _ _) as [q e]. cbn [fst snd] in *. split; [done|].
    destruct Hout as [(e' & -> & He & Hc)|(-> & ? & ? & ?)].
    - unfold outcome_ok. unfold rolled_back in He. rewrite !elem_of_cons, elem_of_nil in He.
      destruct He as [->|[->|[->|[->|[]]]]]; (split; [unfold rolled_back; set_solver|done]).
    - unfold group_result. destruct (rd_groups r); cbn; auto. }
  destruct (land_frame r s0) as (L1 & _ & L3 & _ & _ & _).
  destruct (unchanged_route _ _ _ _ _).
  { apply (kept_route_settled r new p _ (set_current (Some b) s)); cbn [bx_current set_current];
      [by apply land_settled|by rewrite L3, Hb|done|right; by rewrite L1|by apply land_config|by apply land_config|].
    destruct (detect_or_frame r new (if rd_retried r then None else Some GroupRetryFailed) (land r s0)) as (E1 & _ & E3 & _).
    destruct (rd_retried r); cbn; rewrite E1, E3, L1, L3, Hb; auto. }
  destruct (incremental_route _ _ _).
  { unfold reloadNodesIncrementally. rewrite L3, Hb, bool_decide_true by done. cbn [negb].
    destruct (rd_members r); cbn [negb].
    - set (s1 := set_applied _ _ _).
      apply (kept_route_settled r new p _ (set_current (Some b) s)); cbn [bx_current set_current];
        [apply (settled_frame (land r s0)); [by apply land_settled|done..]|by unfold s1; cbn; rewrite L3, Hb|done|by left
        |by apply (land_config r new s0)|by apply (land_config r p s0)|].
      destruct (detect_or_frame r new (group_result r) s1) as (E1 & _ & E3 & _).
      unfold group_result in *. destruct (rd_groups r); cbn; rewrite E1, E3; unfold s1; cbn; rewrite L3, Hb; auto.
    - cbn. split; [by apply land_settled|]. rewrite L1, L3, Hb. auto. }
  pose proof (stopped_bare r s0 Hs0) as Hbare. unfold stopped in Hbare. rewrite Hb in Hbare.
  destruct (reload_from_settled w r new p (bx_generation s0 + 1) _ Hbare) as [Hq Hout];
    [by rewrite (proj1 (land_frame _ _))|by apply land_config|].
  rewrite Hcfg. destruct (reload_from _ _ _ _ _ _) as [q e]. cbn [fst snd] in *. split; [done|].
  destruct Hout as [(e' & -> & He & Hc)|(-> & ? & ? & ?)].
  - unfold outcome_ok. unfold rolled_back in He. rewrite !elem_of_cons, elem_of_nil in He.
    destruct He as [->|[->|[->|[->|[]]]]]; (split; [unfold rolled_back; set_solver|done]).
  - unfold group_result. destruct (rd_groups r); cbn; auto.
Qed.

(** A call that begins with its own configuration published keeps the instance. *)
Lemma reload_round_same w r new s c b :
  bx_cfg s = Some new → config_at new s = Some c → bx_current s = Some b →
  let q := reload_round w r new s in
  q.2 = Again ∨ q.2 = Done (if rd_retried r then None else Some GroupRetryFailed).
Proof.
  intros Hp Hc Hb. cbn zeta. unfold reload_round.
  destruct (cache_frame r new s) as (F1 & F2 & F3 & _ & _ & F6). cbn zeta in *.
  assert (config_at new s ≠ None) as Hne by congruence. specialize (F6 Hne).
  set (s0 := cache_locations r new s) in *. clearbody s0. rewrite F3, Hb. cbn [negb andb].
  rewrite bool_decide_false by done. cbn [andb].
  destruct (config_at new s0) as [c0|] eqn:Hc0; [|done].
  rewrite <-Hc0, (unchanged_same r new s0 c0) by congruence.
  apply (detect_or_frame r new _ (land r s0)).
Qed.

Lemma quiet_round_ends w new s : (reload_round w quiet_round new s).2 ≠ Again.
Proof.
  unfold reload_round. set (s0 := cache_locations quiet_round new s). clearbody s0.
  assert (∀ answer s1, (detect_or quiet_round new answer s1).2 ≠ Again) as Hdet.
  { intros answer s1. unfold detect_or. by destruct (config_at new s1). }
  destruct (_ && _); [done|]. destruct (bx_current s0) as [b|].
  - destruct (unchanged_route _ _ _ _ _); [apply Hdet|]. destruct (incremental_route _ _ _).
    + destruct (reloadNodesIncrementally _ _ _ _) as [s1 [e|]]; [done|apply Hdet].
    + by destruct (reload_from _ _ _ _ _ _).
  - by destruct (reload_from _ _ _ _ _ _).
Qed.

(** No operation forgets a configuration. *)
Definition remembers (s s' : boxes) : Prop := ∀ p, config_at p s ≠ None → config_at p s' ≠ None.
#[local] Instance remembers_preorder : PreOrder remembers.
Proof. split; [by intros ? ?|]. intros a b c H1 H2 p Hp. by apply H2, H1. Qed.

Lemma remembers_same s s' : bx_configs s' = bx_configs s → remembers s s'.
Proof. unfold remembers, config_at. by intros ->. Qed.
Lemma remembers_set_config q c s : remembers s (set_config q c s).
Proof.
  intros p Hp. unfold config_at. cbn. destruct (decide (p = q)) as [-> |]; [by rewrite lookup_insert_eq|by rewrite lookup_insert_ne].
Qed.
Lemma remembers_land r s : remembers s (land r s).
Proof. intros p. apply land_config. Qed.

Lemma remembers_rollback a old s : remembers s (rollbackToOldConfig a old s).
Proof.
  apply remembers_same. unfold rollbackToOldConfig, markRollbackDegraded. destruct old, a; try done; by destruct (_ && _).
Qed.

Lemma remembers_reload_from w r new old generation s : remembers s (reload_from w r new old generation s).1.
Proof.
  unfold reload_from. destruct (config_at new s) as [c|]; [|done].
  destruct (start_attempts _ _ _ _ _) as [[e|[]] c1].
  - cbn. etrans; [apply (remembers_set_config new c1)|apply remembers_rollback].
  - cbn [start_box]. destruct (detectMissingNodeLocations _ _) as [c2 located].
    match goal with |- context [close_box _ (set_config new c2 ?x)] => set (s3 := x) end.
    assert (remembers s (set_config new c2 s3)) as H3.
    { etrans; [|apply remembers_set_config]. etrans; [apply (remembers_set_config new c1)|by apply remembers_same]. }
    clearbody s3. destruct located; [destruct (we_rebuild w)|]; cbn [fst].
    1-2: etrans; [exact H3|]; etrans; [|apply remembers_rollback]; by apply remembers_same.
    all: cbn [start_box fst]; etrans; [exact H3|]; intros q Hq; unfold config_at in *; cbn in *;
      (destruct (decide (q = new)) as [-> |]; [by rewrite lookup_insert_eq|by rewrite lookup_insert_ne]).
Qed.

Lemma reload_round_keeps w r new s p : config_at p s ≠ None → config_at p (reload_round w r new s).1 ≠ None.
Proof.
  intros Hp. apply (cache_keeps r new) in Hp. unfold reload_round. set (s0 := cache_locations r new s) in *. clearbody s0.
  destruct (_ && _); [done|]. destruct (bx_current s0) as [b|].
  - destruct (unchanged_route _ _ _ _ _); [by apply detect_or_keeps, remembers_land|].
    destruct (incremental_route _ _ _).
    + unfold reloadNodesIncrementally. destruct (negb _); [by apply remembers_land|].
      destruct (negb _); [by apply remembers_land|]. apply detect_or_keeps. by apply (remembers_land r s0).
    + pose proof (remembers_reload_from w r new (bx_cfg s0) (bx_generation s0 + 1) (land r (close_box b (set_current None s0))) p) as Hr.
      destruct (reload_from _ _ _ _ _ _) as [q e]. apply Hr, remembers_land. exact Hp.
  - pose proof (remembers_reload_from w r new (bx_cfg s0) (bx_generation s0 + 1) (land r (set_current None s0)) p) as Hr.
    destruct (reload_from _ _ _ _ _ _) as [q e]. apply Hr, remembers_land. exact Hp.
Qed.

(** A round of a reload that has or has not published its configuration already. *)
Lemma reload_round_any w r new p s :
  settled s → config_at new s ≠ None → config_at p s ≠ None →
  bx_cfg s = Some p ∨ (bx_cfg s = Some new ∧ bx_current s ≠ None) →
  let q := reload_round w r new s in
  settled q.1 ∧
  match q.2 with
  | Done e => outcome_ok p new (bx_current s) q.1 e
  | Again => bx_current q.1 = bx_current s ∧ bx_current s ≠ None ∧ (bx_cfg q.1 = Some new ∨ bx_cfg q.1 = Some p) ∧
             config_at new q.1 ≠ None ∧ config_at p q.1 ≠ None
  end.
Proof.
  intros Hs Hnew Hp [Hcfg|[Hcfg Hcur]]; [by apply reload_round_settled|]. cbn zeta.
  destruct (reload_round_settled w r new new s Hs Hcfg Hnew Hnew) as [Hq Hout].
  destruct (bx_current s) as [b|] eqn:Hb; [|done].
  destruct (config_at new s) as [c|] eqn:Hc; [|done].
  pose proof (reload_round_same w r new s c b Hcfg Hc Hb) as Hsame.
  pose proof (reload_round_keeps w r new s p Hp) as Hkeep.
  destruct (reload_round w r new s) as [q v]. cbn [fst snd] in *. split; [done|].
  destruct Hsame as [->| ->]; cbn in Hout |- *.
  - destruct Hout as (? & ? & [?|?] & ? & _); (split_and!; [done|done|by left|done|by apply Hkeep]).
  - destruct (rd_retried r); cbn in *; naive_solver.
Qed.

Lemma reload_rounds_settled w new p current rounds : ∀ s,
  settled s → config_at new s ≠ None → config_at p s ≠ None →
  bx_current s = current → bx_cfg s = Some p ∨ (bx_cfg s = Some new ∧ current ≠ None) →
  let q := reload_rounds w rounds new s in settled q.1 ∧ outcome_ok p new current q.1 q.2.
Proof.
  cbn zeta. induction rounds as [|r rounds IH]; intros s Hs Hnew Hp <- Hcfg; cbn [reload_rounds].
  - destruct (reload_round_any w quiet_round new p s Hs Hnew Hp Hcfg) as [Hq Hout].
    pose proof (quiet_round_ends w new s) as Hend.
    by destruct (reload_round w quiet_round new s) as [q []].
  - destruct (reload_round_any w r new p s Hs Hnew Hp Hcfg) as [Hq Hout].
    destruct (reload_round w r new s) as [q [|e]]; cbn [fst snd] in *; [|done].
    destruct Hout as (Hc & Hne & Hpub & Hn & Hp'). apply IH; [done..|]. destruct Hpub; [right|left]; [|done]. done.
Qed.

(** C9: A reload never leaves the proxy without a way back. From a settled state, with
    a configuration, whichever route the reload takes and whatever fails (the new
    members, the build, the start, all ten attempts over conflicting ports, the rebuild,
    the rollback, the group runtimes), the state is settled again: exactly the current
    instance runs, every other one it started or found has been closed, and either
    something runs or the manager is idle, so that the next reload is accepted.

    Which configuration is published is known from the answer. An instance that cannot
    be built, started or rebuilt leaves the old one published, and so do members the
    running instance refuses, which also leave that instance. Group runtimes that fail
    after the commit are an error with the new configuration published and an instance
    running. Without an error an instance runs, a new one leaves the idle state, and
    either the new configuration is published or the reload found nothing to change and
    kept the old one with the old instance; an instance that is kept can also fail to
    bring failed group runtimes back. *)
Theorem reloads_leave_a_settled_manager w (new p : nat) s :
  settled s → bx_cfg s = Some p → config_at p s ≠ None → config_at new s ≠ None →
  let r := reload w new s in
  settled r.1 ∧
  match r.2 with
  | None => bx_current r.1 ≠ None ∧ (bx_current r.1 = bx_current s ∨ bx_idle r.1 = false) ∧
      (bx_cfg r.1 = Some new ∨ (bx_cfg r.1 = Some p ∧ bx_current r.1 = bx_current s))
  | Some GroupSyncFailed => bx_current r.1 ≠ None ∧ (bx_current r.1 = bx_current s ∨ bx_idle r.1 = false) ∧
      bx_cfg r.1 = Some new
  | Some GroupRetryFailed => bx_current r.1 ≠ None ∧ bx_current r.1 = bx_current s ∧
      (bx_cfg r.1 = Some new ∨ bx_cfg r.1 = Some p)
  | Some IncrementalFailed => bx_current r.1 ≠ None ∧ bx_current r.1 = bx_current s ∧ bx_cfg r.1 = Some p
  | Some e => e ∈ [CreateFailed; StartFailed; RetriesExhausted; RebuildFailed] ∧ bx_cfg r.1 = Some p
  end.
Proof.
  intros Hs Hcfg Hp Hnew. cbn zeta. unfold reload. destruct (config_at new s) eqn:Hc; [|done].
  apply (reload_rounds_settled w new p (bx_current s) (we_rounds w) s); [done|by rewrite Hc|done|done|by left].
Qed.

(** What the full route publishes. *)
Lemma reload_from_published w r new p c cn generation s s' e :
  bx_cfg s = Some p → p ≠ new → config_at p s = Some c → config_at new s = Some cn → NoDup (NodeKey <$> cf_Nodes c) →
  reload_from w r new (Some p) generation s = (s', e) → e = None ∨ e = Some GroupSyncFailed →
  ∃ c1, start_attempts (we_avail w) (we_attempts w) maxRetries 0 cn = (inr (), c1) ∧
    bx_cfg s' = Some new ∧ config_at new s' = Some (detectMissingNodeLocations (rd_found r) c1).1.
Proof.
  intros Hp Hpn Hc Hcn Hnd Hrun He. unfold reload_from in Hrun. rewrite Hcn in Hrun.
  destruct (start_attempts (we_avail w) (we_attempts w) maxRetries 0 cn) as [[e0|[]] c1] eqn:Hatt.
  { injection Hrun as <- <-. apply start_attempts_error in Hatt. rewrite !elem_of_cons, elem_of_nil in Hatt. naive_solver. }
  exists c1. split; [done|]. cbn [start_box] in Hrun.
  destruct (detectMissingNodeLocations (rd_found r) c1) as [c2 located]. cbn [fst].
  assert (∀ s2 b, bx_cfg s2 = Some p → config_at p s2 = Some c →
    let newCfg := match config_at p s2 with
                  | Some snapshot => match (match bx_cfg s2 with Some q => config_at q s2 | None => None end) with
                                     | Some runtime => (rebaseReloadedNodes snapshot runtime c2).1
                                     | None => c2
                                     end
                  | None => c2
                  end in
    (set_idle false (set_applied generation (mp_BasePort (cf_MultiPort newCfg))
       (set_cfg (Some new) (set_current (Some b) (set_config new newCfg s2)))), group_result r) = (s', e) →
    bx_cfg s' = Some new ∧ config_at new s' = Some c2) as Hcommit.
  { intros s2 b H1 H2. cbn zeta. rewrite H2, H1, H2. unfold rebaseReloadedNodes. cbn [fst]. rewrite rebase_same by done.
    intros [= <- _]. split; [done|]. unfold config_at. cbn. rewrite lookup_insert_eq. by destruct c2. }
  destruct located; [destruct (we_rebuild w); [injection Hrun as _ <-; naive_solver..|]|]; cbn [start_box] in Hrun;
    (eapply Hcommit; [| |exact Hrun]); first [exact Hp|unfold config_at; cbn; rewrite !lookup_insert_ne by done; exact Hc].
Qed.

(** C26: What lands on the configuration while a reload runs is lost, although the commit
    rebases it: the snapshot the rebase compares with and the published configuration
    are one object, so it sees no difference. Take a reload that finds something to
    change and ends with the new configuration published, its group runtimes in step or
    not. If it replaced the instance the configuration is the one the attempts ended
    with, located; if it gave the running instance new members (and found no locations
    that make it start again) it is the one it was called with, located. Whatever the
    window did: nodes created meanwhile do not run, and tags and regions changed
    meanwhile are those of the moment the reload was triggered. *)
Theorem window_changes_are_lost w r rounds (new p : nat) c cn s s' e :
  we_rounds w = r :: rounds →
  bx_cfg s = Some p → p ≠ new → config_at p s = Some c → config_at new s = Some cn →
  NoDup (NodeKey <$> cf_Nodes (rd_window r c)) →
  let given := applyCachedNodeLocations (rd_cached r) cn in
  (bx_current s ≠ None → runtimeConfigEqual (rd_rest r) c given = false) →
  reload w new s = (s', e) → e = None ∨ e = Some GroupSyncFailed →
  if bool_decide (bx_current s ≠ None) && incrementalReloadEligible (rd_rest r) (rd_geoip r) c given
  then (detectMissingNodeLocations (rd_found r) given).2 = false →
       bx_cfg s' = Some new ∧ config_at new s' = Some (detectMissingNodeLocations (rd_found r) given).1
  else ∃ c1, start_attempts (we_avail w) (we_attempts w) maxRetries 0 given = (inr (), c1) ∧
    bx_cfg s' = Some new ∧ config_at new s' = Some (detectMissingNodeLocations (rd_found r) c1).1.
Proof.
  intros Hrounds Hp Hpn Hc Hcn Hnd given Hchanged Hrun He. unfold reload in Hrun. rewrite Hcn, Hrounds in Hrun.
  cbn [reload_rounds] in Hrun. unfold reload_round, cache_locations in Hrun. rewrite Hcn in Hrun. fold given in Hrun.
  set (s0 := set_config new given s) in Hrun.
  assert (bx_cfg s0 = Some p ∧ bx_current s0 = bx_current s ∧ config_at p s0 = Some c ∧ config_at new s0 = Some given) as (Hp0 & Hb0 & Hc0 & Hn0).
  { unfold s0, config_at. cbn. rewrite lookup_insert_eq, lookup_insert_ne by done. done. }
  assert (published_config s0 = Some c) as Hpub by (unfold published_config; by rewrite Hp0).
  rewrite Hpub, Hn0, Hb0 in Hrun. clearbody s0.
  assert (∀ s1, bx_cfg s1 = Some p → config_at p s1 = Some c → config_at new s1 = Some given →
    bx_cfg (land r s1) = Some p ∧ config_at p (land r s1) = Some (rd_window r c) ∧ config_at new (land r s1) = Some given) as Hland.
  { intros s1 H1 H2 H3. unfold land. rewrite H1, H2. unfold config_at. cbn.
    rewrite lookup_insert_eq, lookup_insert_ne by done. done. }
  destruct (bx_current s) as [b|] eqn:Hb; cbn [negb andb] in *.
  - rewrite !bool_decide_false in Hrun by done. rewrite bool_decide_true by done. cbn [andb] in *. cbn [unchanged_route] in Hrun.
    rewrite Hp0, bool_decide_false, orb_false_r, Hchanged in Hrun by (done || congruence). cbn [incremental_route] in Hrun.
    destruct (incrementalReloadEligible _ _ _ _).
    + intros Hquiet. destruct (Hland s0 Hp0 Hc0 Hn0) as (L1 & L2 & L3). unfold reloadNodesIncrementally in Hrun.
      destruct (rd_members r); cbn [negb] in Hrun; [|injection Hrun as <- <-; naive_solver].
      destruct (negb _); [injection Hrun as <- <-; naive_solver|]. unfold detect_or in Hrun.
      change (config_at new (set_applied _ _ _)) with (config_at new (land r s0)) in Hrun. rewrite L3 in Hrun.
      destruct (detectMissingNodeLocations _ _) as [c' located]. cbn in Hquiet. subst located. injection Hrun as <- _.
      split; [done|]. unfold config_at. cbn. by rewrite lookup_insert_eq.
    + destruct (Hland (close_box b (set_current None s0)) Hp0 Hc0 Hn0) as (L1 & L2 & L3).
      destruct (reload_from _ _ _ _ _ _) as [s1 e1] eqn:Hfrom. injection Hrun as <- <-.
      eapply reload_from_published; [exact L1|done|exact L2|exact L3|done|exact Hfrom|done].
  - rewrite bool_decide_true in Hrun by done. rewrite (bool_decide_false (None ≠ None)) by naive_solver. cbn [andb] in *.
    destruct (negb (bx_idle s0)); [injection Hrun as <- <-; naive_solver|].
    destruct (Hland (set_current None s0) Hp0 Hc0 Hn0) as (L1 & L2 & L3). rewrite Hp0 in Hrun.
    destruct (reload_from _ _ _ _ _ _) as [s1 e1] eqn:Hfrom. injection Hrun as <- <-.
    eapply reload_from_published; [exact L1|done|exact L2|exact L3|done|exact Hfrom|done].
Qed.

(** *** Locations and routes *)
(** Two configurations that differ in what is known of their nodes only. *)
Definition same_yaml (a b : Config) : Prop := ∀ rest c, runtimeConfigEqual rest c a = runtimeConfigEqual rest c b.

Lemma set_location_yaml f nodes : yaml_node <$> (set_location f nodes).1 = yaml_node <$> nodes.
Proof.
  induction nodes as [|n nodes IH]; [done|]. cbn [set_location].
  destruct (decide _); [destruct (decide _); done|]. cbn. by rewrite IH.
Qed.

Lemma setLandingNodeLocation_yaml f c : same_yaml (setLandingNodeLocation f c).1 c.
Proof.
  intros rest b. unfold setLandingNodeLocation. destruct (decide _); [done|]. unfold runtimeConfigEqual.
  cbn [fst cf_Nodes with_nodes cf_MultiPort cf_ListenerEnabled cf_ListenerPort cf_SkipCertVerify].
  by rewrite set_location_yaml.
Qed.

Lemma applyCachedNodeLocations_yaml cached : ∀ c, same_yaml (applyCachedNodeLocations cached c) c.
Proof.
  unfold applyCachedNodeLocations. induction cached as [|f cached IH]; intros c rest b; [done|]. cbn.
  rewrite IH. apply setLandingNodeLocation_yaml.
Qed.

Lemma detect_yaml outcomes c : same_yaml (detectMissingNodeLocations outcomes c).1 c.
Proof.
  unfold detectMissingNodeLocations. assert (∀ acc, same_yaml (foldl detect_one acc outcomes).1 acc.1) as H; [|apply (H (c, false))].
  induction outcomes as [|f outcomes IH]; intros acc rest b; [done|]. cbn. rewrite IH. unfold detect_one.
  destruct (decide _); [done|]. apply setLandingNodeLocation_yaml.
Qed.

(** Locations found where nothing else changed are dropped with the configuration they
    were written to: the YAML does not show them, so the call that starts again finds
    the configuration unchanged once more, however often. *)
Theorem locations_alone_change_nothing w new p c cn s :
  Forall (λ r, rd_rest r = true ∧ rd_retried r = true ∧ rd_window r = id) (we_rounds w) →
  bx_cfg s = Some p → p ≠ new → bx_current s ≠ None →
  config_at p s = Some c → config_at new s = Some cn → runtimeConfigEqual true c cn = true →
  let q := reload w new s in
  q.2 = None ∧ bx_cfg q.1 = Some p ∧ config_at p q.1 = Some c ∧ bx_current q.1 = bx_current s.
Proof.
  intros Hrounds Hp Hpn Hcur Hc Hcn Heq. cbn zeta. unfold reload. rewrite Hcn.
  assert (∀ r s cn, rd_rest r = true ∧ rd_retried r = true ∧ rd_window r = id →
    bx_cfg s = Some p → bx_current s ≠ None → config_at p s = Some c → config_at new s = Some cn → runtimeConfigEqual true c cn = true →
    let q := reload_round w r new s in
    (q.2 = Again ∨ q.2 = Done None) ∧ bx_cfg q.1 = Some p ∧ config_at p q.1 = Some c ∧ bx_current q.1 = bx_current s ∧
    ∃ cn', config_at new q.1 = Some cn' ∧ runtimeConfigEqual true c cn' = true) as Hround.
  { clear -Hpn. intros r s cn (Hrest & Hretry & Hwindow) Hp Hcur Hc Hcn Heq. cbn zeta. unfold reload_round, cache_locations. rewrite Hcn.
    set (s0 := set_config new _ s). destruct (bx_current s) as [b|] eqn:Hb; [|done].
    assert (published_config s0 = Some c) as -> by (unfold published_config, s0, config_at in *; cbn; rewrite Hp; cbn; by rewrite lookup_insert_ne).
    assert (config_at new s0 = Some (applyCachedNodeLocations (rd_cached r) cn)) as Hn0 by (unfold s0, config_at; cbn; by rewrite lookup_insert_eq).
    change (bx_current s0) with (bx_current s). rewrite Hb, Hn0, bool_decide_false by done. cbn [andb unchanged_route].
    rewrite Hrest. cbn [orb]. rewrite applyCachedNodeLocations_yaml, Heq.
    assert (land r s0 = set_config p c s0) as ->.
    { unfold land. change (bx_cfg s0) with (bx_cfg s). rewrite Hp, Hwindow. unfold config_at, s0 in *. cbn. by rewrite lookup_insert_ne, Hc. }
    assert (config_at new (set_config p c s0) = config_at new s0) as Hn1 by (unfold config_at; cbn; by rewrite lookup_insert_ne).
    unfold detect_or. rewrite Hn1, Hn0, Hretry.
    pose proof (detect_yaml (rd_found r) (applyCachedNodeLocations (rd_cached r) cn)) as Hdet.
    destruct (detectMissingNodeLocations _ _) as [c' located]. cbn in Hdet |- *. split_and!.
    - destruct located; auto.
    - done.
    - unfold config_at. cbn. by rewrite lookup_insert_ne, lookup_insert_eq.
    - done.
    - exists c'. unfold config_at. cbn. by rewrite lookup_insert_eq, Hdet, applyCachedNodeLocations_yaml. }
  assert (∀ rounds s cn, Forall (λ r, rd_rest r = true ∧ rd_retried r = true ∧ rd_window r = id) rounds →
    bx_cfg s = Some p → bx_current s ≠ None → config_at p s = Some c → config_at new s = Some cn → runtimeConfigEqual true c cn = true →
    let q := reload_rounds w rounds new s in
    q.2 = None ∧ bx_cfg q.1 = Some p ∧ config_at p q.1 = Some c ∧ bx_current q.1 = bx_current s) as Hall; [|by eapply Hall].
  clear -Hround. induction rounds as [|r rounds IH]; intros s cn Hr Hp Hcur Hc Hcn Heq; cbn [reload_rounds].
  - destruct (Hround quiet_round s cn ltac:(done) Hp Hcur Hc Hcn Heq) as (Hv & ? & ? & ? & _).
    destruct (reload_round w quiet_round new s) as [q v]. cbn in *. by destruct Hv as [->| ->].
  - apply Forall_cons in Hr as [Hr Hrs]. destruct (Hround r s cn Hr Hp Hcur Hc Hcn Heq) as (Hv & H1 & H2 & H3 & cn' & H4 & H5).
    destruct (reload_round w r new s) as [q v]. cbn in *. rewrite <-H3. destruct Hv as [->| ->]; [|done].
    eapply IH; [done|done|by rewrite H3|done|done|done].
Qed.

(** Going idle closes what runs, provided the manager did not count as idle. *)
Theorem idle_closes_the_instance new s : settled s → (bx_idle s = true → bx_current s = None) →
  settled (enterIdle new s) ∧ bx_running (enterIdle new s) = ∅ ∧ bx_cfg (enterIdle new s) = Some new.
Proof.
  intros [Hr Hn Hready] Hidle. unfold enterIdle. destruct (bx_idle s) eqn:Hi.
  - rewrite (Hidle eq_refl) in Hr. split; [|done]. split; cbn; [done|by rewrite Hr; set_solver|by right].
  - destruct (bx_current s) as [b|] eqn:Hb; [|by destruct Hready].
    assert (bx_running s ∖ {[b]} = ∅) as He by (rewrite Hr; set_solver).
    split; [|done]. split; cbn; rewrite ?He; [done|set_solver|by right].
Qed.

(** ** The stored nodes in the configuration of a reload *)

(** Every stored node that may run is in it, under its identifier and with its tags. *)
Theorem stored_nodes_reach_the_reload inline stored : NoDup (NodeKey <$> stored) →
  ∀ n, n ∈ stored → ∃ m, m ∈ merge_runtime_nodes inline stored ∧ NodeKey m = NodeKey n ∧ nc_ID m = nc_ID n ∧ nc_Tags m = nc_Tags n.
Proof.
  unfold merge_runtime_nodes. set (idx := index_by_key inline). intros Hnd.
  cut (let r := foldl (merge_stored idx) inline stored in
       (∀ k i, idx !! k = Some i → ∃ m, r !! i = Some m ∧ NodeKey m = k) ∧
       ∀ n, n ∈ stored → ∃ j m, r !! j = Some m ∧ NodeKey m = NodeKey n ∧ nc_ID m = nc_ID n ∧ nc_Tags m = nc_Tags n).
  { intros [_ H] n (j & m & Hj & ?)%H. exists m. split; [by eapply list_elem_of_lookup_2|done]. }
  induction stored as [|n stored IH] using rev_ind; [split; [apply index_by_key_Some|by intros n ?%elem_of_nil]|].
  rewrite fmap_app in Hnd. apply NoDup_app in Hnd as (Hnd & Hd & _). destruct (IH Hnd) as [Hidx Hall]. rewrite foldl_app. cbn.
  set (r := foldl (merge_stored idx) inline stored) in *. unfold merge_stored. destruct (idx !! NodeKey n) as [i|] eqn:Hi.
  - assert (∀ j m, r !! j = Some m → ∃ m', alter (adopt_stored n) i r !! j = Some m' ∧ NodeKey m' = NodeKey m ∧ (j ≠ i → m' = m) ∧ (j = i → m' = adopt_stored n m)) as Halter.
    { intros j m Hj. destruct (decide (j = i)) as [-> |Hne].
      - exists (adopt_stored n m). by rewrite list_lookup_alter_eq, Hj.
      - exists m. by rewrite list_lookup_alter_ne by done. }
    split.
    + intros k j (m & Hj & <-)%Hidx. destruct (Halter j m Hj) as (m' & ? & ? & _). by exists m'.
    + intros n0 [Hn0| ->%list_elem_of_singleton]%elem_of_app.
      * destruct (Hall n0 Hn0) as (j & m & Hj & Hk & Hrest). destruct (Halter j m Hj) as (m' & Hj' & Hk' & Hsame & _). exists j, m'.
        split; [done|]. rewrite Hsame; [done|]. intros ->. destruct (Hidx _ _ Hi) as (m0 & Hm0 & Hk0). apply (Hd (NodeKey n0)).
        { by apply list_elem_of_fmap_2. }
        cbn. rewrite <-Hk. assert (m = m0) as -> by congruence. rewrite Hk0. by left.
      * destruct (Hidx _ _ Hi) as (m & Hm & Hk). destruct (Halter i m Hm) as (m' & Hi' & Hk' & _ & Hm'). exists i, m'.
        split; [done|]. rewrite (Hm' eq_refl). done.
  - split.
    + intros k j (m & Hj & <-)%Hidx. exists m. split; [by apply lookup_app_l_Some|done].
    + intros n0 [Hn0| ->%list_elem_of_singleton]%elem_of_app.
      * destruct (Hall n0 Hn0) as (j & m & Hj & ?). exists j, m. split; [by apply lookup_app_l_Some|done].
      * exists (length r), n. by rewrite lookup_app_r, Nat.sub_diag by lia.
Qed.
End reload.

(** ** Examples *)
Module ReloadExample.
#[local] Existing Instance LinkExample.order.
#[local] Existing Instance LinkExample.libraries.

Definition node (id port : Z) (key : string) (tags : list string) : NodeConfig :=
  mkNode id key "http://h:1" port "u" "p" NodeSourceManual false "" "" tags key.
Definition config (nodes : list NodeConfig) : Config :=
  mkConfig nodes (mkMultiPort true "0.0.0.0" 24000 "u" "p") true 2323 false.
Definition before : Config := config [node 1 24000 "a" []].
Definition next : Config := config [node 1 24000 "a" []; node 2 24001 "b" []].
Definition avail (p : Z) : bool := true.

Definition in_window (window : Config → Config) : round := mkRound [] true false window [] true true true.
Definition weather_of (attempts : nat → attempt) (rollback : attempt) (window : Config → Config) : weather :=
  mkWeather avail attempts Starts rollback [in_window window].
Definition calm : weather := weather_of (λ _, Starts) Starts id.

(** The first attempt finds the port of the second node in use. *)
Definition contended (window : Config → Config) : weather :=
  weather_of (λ retry, if decide (retry = 0%nat) then StartFails 24001 else Starts) Starts window.

(** While the reload runs node 3 is created and node 1 is tagged. *)
Definition row : Node := mkRow 1 "http://h:1" "a" NodeSourceManual 0 "" "" "us" "United States" true ["fast"] "a".
Definition window (c : Config) : Config :=
  let c := with_nodes (cf_Nodes c ++ [node 3 24002 "c" []]) c in refresh_facts {[1]} {[1 := row]} c.

Definition fresh : boxes := mkBoxes {[0%nat := before]} (Some 0%nat) None false ∅ 0 0 0.
Definition running : boxes := (Start calm quiet_round 1 fresh).1.
Definition waiting : boxes := set_config 2 next running.
Definition reloaded : boxes := (reload (contended window) 2 waiting).1.

Definition shown (s : boxes) : option (list (Z * Z * list string)) :=
  c ← (p ← bx_cfg s; config_at p s); Some ((λ n, (nc_ID n, nc_Port n, nc_Tags n)) <$> cf_Nodes c).

(** The conflicting node has moved; what landed meanwhile is gone, from the nodes and
    from the facts, although it was published before the commit. *)
Example reload_forgets_the_window :
  shown (land (in_window window) waiting) = Some [(1, 24000, ["fast"]); (3, 24002, [])] ∧
  shown reloaded = Some [(1, 24000, []); (2, 24002, [])].
Proof. vm_compute. done. Qed.

Lemma waiting_settled : settled waiting.
Proof.
  assert (bx_running waiting = {[0%nat]}) as Hr by (vm_compute; reflexivity).
  split; [rewrite Hr; reflexivity|rewrite Hr; intros b ->%elem_of_singleton; vm_compute; lia|by left].
Qed.

Lemma settled_reload_witness : settled reloaded ∧ bx_cfg reloaded = Some 2%nat.
Proof.
  assert (config_at 1 waiting ≠ None) as Hp by (vm_compute; discriminate).
  assert (config_at 2 waiting ≠ None) as Hn by (vm_compute; discriminate).
  destruct (reloads_leave_a_settled_manager (contended window) 2 1 waiting waiting_settled eq_refl Hp Hn) as [Hs Hr].
  split; [exact Hs|]. vm_compute. reflexivity.
Defined.

(** Group runtimes that fail after the commit: an error, and the new configuration. *)
Definition groups_fail : weather :=
  mkWeather avail (λ _, Starts) Starts Starts [mkRound [] true false id [] true true false].
Example group_error_is_committed :
  (reload groups_fail 2 waiting).2 = Some GroupSyncFailed ∧ bx_cfg (reload groups_fail 2 waiting).1 = Some 2%nat.
Proof. vm_compute. done. Qed.

(** Without multi-port entry the running instance takes the members; a location found
    then makes the reload start again, and the second call finds nothing to do. *)
Definition single (c : Config) : Config := mkConfig (cf_Nodes c) (mkMultiPort false "" 0 "" "") true 2323 false.
Definition pooled : boxes := set_config 2 (single next) (set_config 1 (single before) running).
Definition members (ok : bool) : weather :=
  mkWeather avail (λ _, Starts) Starts Starts [mkRound [] true false id [(2, ("us", "United States"))] ok true true; quiet_round].
Example members_replaced_in_place :
  (λ r : boxes * option reload_error, (r.2, bx_cfg r.1, bx_current r.1)) <$> [reload (members true) 2 pooled; reload (members false) 2 pooled] =
  [(None, Some 2%nat, Some 0%nat); (Some IncrementalFailed, Some 1%nat, Some 0%nat)].
Proof. vm_compute. reflexivity. Qed.

(** The same nodes, one of them located in between: the location is not published. *)
Definition again : boxes := set_config 2 before running.
Definition located : weather :=
  mkWeather avail (λ _, Starts) Starts Starts [mkRound [] true false id [(1, ("us", "United States"))] true true true].
Lemma locations_alone_witness :
  (λ c, nc_Region <$> cf_Nodes c) <$> config_at 2 (reload located 2 again).1 = Some ["us"] ∧
  bx_cfg (reload located 2 again).1 = Some 1%nat ∧ config_at 1 (reload located 2 again).1 = Some before.
Proof.
  split; [vm_compute; reflexivity|].
  destruct (locations_alone_change_nothing located 2 1 before before again) as (_ & Hp & Hc & _);
    [by constructor|reflexivity|discriminate|vm_compute; discriminate|vm_compute; reflexivity|reflexivity|vm_compute; reflexivity|].
  split; [exact Hp|exact Hc].
Defined.

Lemma window_lost_witness : ∃ c1, config_at 2 reloaded = Some c1 ∧ length (cf_Nodes c1) = 2%nat.
Proof.
  assert (reload (contended window) 2 waiting = (reloaded, None)) as Hrun by (vm_compute; reflexivity).
  pose proof (window_changes_are_lost (contended window) (in_window window) [] 2 1 before next waiting reloaded None
    eq_refl eq_refl ltac:(discriminate) ltac:(vm_compute; reflexivity) eq_refl) as Hlost.
  assert (NoDup (NodeKey <$> cf_Nodes (window before))) as Hnd.
  { vm_compute. apply NoDup_cons. split; [set_solver|]. apply NoDup_singleton. }
  specialize (Hlost Hnd ltac:(intros _; vm_compute; reflexivity) Hrun (or_introl eq_refl)).
  destruct (bool_decide (bx_current waiting ≠ None) && incrementalReloadEligible _ _ _ _) eqn:Hroute; [vm_compute in Hroute; discriminate Hroute|].
  destruct Hlost as (c1 & Hatt & _ & Hc). exists (detectMissingNodeLocations (rd_found (in_window window)) c1).1.
  split; [exact Hc|]. vm_compute in Hatt. injection Hatt as <-. reflexivity.
Defined.

(** A rebase of two distinct objects would have kept both. *)
Example distinct_rebase :
  (λ n, (nc_ID n, nc_Tags n)) <$> cf_Nodes (rebaseReloadedNodes before (window before) next).1 = [(1, ["fast"]); (2, []); (3, [])].
Proof. vm_compute. reflexivity. Qed.

(** A failed rollback makes the manager idle; a rollback that succeeds later does not
    make it active again. When the last node is then disabled, going idle finds the
    manager idle and leaves the instance running, with nothing pointing at it. *)
Definition broken (rollback : attempt) : weather := weather_of (λ _, CreateFails) rollback id.
Definition degraded : boxes := (reload (broken CreateFails) 2 waiting).1.
Definition revived : boxes := (reload (broken Starts) 2 degraded).1.
Definition emptied : boxes := enterIdle 3 (set_config 3 (config []) revived).
Example idle_leaves_an_instance_running :
  (bx_current degraded, bx_idle degraded) = (None, true) ∧
  (bx_current revived, bx_idle revived, bx_running revived) = (Some 1%nat, true, {[1%nat]}) ∧
  (bx_current emptied, bx_running emptied) = (None, {[1%nat]}).
Proof. vm_compute. done. Qed.
End ReloadExample.
